(* ===== verification/_CoqProject ===== *)
-Q . S2P
Prelude.v
Effects.v
Domain.v
Text.v
Time.v
Json.v
Guide.v
Permissions.v
MailStore.v
StoreInvariant.v
Finish.v
WriterProperties.v
Read.v
ReadProperties.v
LocalDb.v
Outbox.v
OutboxProperties.v
Compose.v
Provider.v
Drain.v
DrainProperties.v
UndoProperties.v
Queue.v
QueueProperties.v
Sync.v
UpsertProperties.v
ComposeProperties.v
SyncProperties.v
Transport.v
RateLimit.v
Http.v
Search.v
SearchProperties.v
SearchLanguage.v
RulesTokens.v
RulesLimit.v
RulesDb.v
RulesCrypto.v
RulesOAuth.v
RulesPublish.v
RulesServer.v
RulesHandlers.v
RulesWorld.v
RulesGrants.v
RulesDescent.v
AgentLog.v
Agents.v
Facade.v
AgentHub.v
FacadeProperties.v
AgentRules.v
AgentProperties.v
RulesApp.v
CloudReports.v
RulesPush.v
RulesVersions.v
RulesPull.v
RulesReports.v
RulesWorker.v
RulesWire.v
RulesReading.v
RulesAppRuns.v
Transactions.v
ProposalStore.v
GuideStore.v
GuideEdits.v
GuideLearn.v
GuideRun.v
GuidePlan.v
GuideUndo.v
GuideTyped.v
GuideSteps.v
GuideDecided.v
FactStore.v
FactEdits.v
FactProperties.v
FactGlean.v
ReviewStore.v
ReviewCompare.v
ReviewRun.v
