(* ===== verification/Prelude.v ===== *)
(** * Kaluta core: verification library

    Kaluta is a mail client for the Mac whose logic is a set of Rust crates
    under [src/crates].  One account is a SQLite store that mirrors a mail
    server; local work (label changes, drafts, sends) is applied to it at
    once and queued in an outbox that a drain sends; AI agents act on the
    mailbox through tools whose calls pass limits, a policy and the user's
    approval.  This library models that core as executable functions and
    proves what each part promises.

    ** The parts, and how they interact

    - [Domain], [Text], [Time], [Json]: the plain types of [mail-domain], the
      string functions the crates share, dates ([mail-domain/src/time.rs]),
      and JSON values as serde reads and writes them.
    - [MailStore], [Finish]: the mail tables and the [MailWriter] of
      [mail-store/src/write.rs], the consistency check of [consistency.rs],
      and the recomputation at a session's end.  [Read] is [read.rs]: the
      queries of the lists, threads, messages and bodies.
    - [LocalDb], [Outbox]: the tables of local work beside the mail, drafts
      ([drafts.rs]) and ops ([outbox.rs], [undo.rs] of [mail-store]).
    - [Compose]: replies, forwards and sends ([mail-sync/src/compose.rs],
      [mail-mime/src/build.rs]).
    - [Drain]: a local change, and the drain of the outbox against a provider
      ([mail-sync/src/outbox.rs]); [Provider] is the provider as a class with
      laws ([provider-api]).
    - [Queue], [Transport], [Sync]: the backfill queue and what is
      downloaded, IMAP or the API, and the sync engine
      ([mail-store/src/queue.rs], [mail-sync/src/engine.rs], [transport.rs],
      [convert.rs]).
    - [RateLimit], [Http]: the quota bucket and the loop around one request
      ([provider-api/src/rate_limit.rs], [http.rs]).
    - [Permissions]: the policy and the session guard
      ([permissions/src/lib.rs]).  [Guide]: the writing guide, its published
      snapshot, and the facts agents may see ([writing-guide],
      [kaluta-core/src/facts.rs]).
    - [Agents], [AgentHub]: the tools and a call as programs over the
      operations they perform ([kaluta-core/src/agents/tools.rs],
      [approvals.rs]), and the system of running calls, user and core
      interleaved ([mod.rs], [approvals.rs], [sessions.rs]).  [AgentLog]: their tables
      ([mail-store/src/agents.rs]).  [Facade]: the functions of [Core] those
      calls reach ([kaluta-core/src/compose.rs], [mutations.rs], [archive.rs],
      [agent_mailbox.rs]), which are built from [Read], [LocalDb], [Compose],
      [Outbox] and [Drain].

    - [Search]: the search language and the query it compiles to
      ([mail-store/src/search/]).
    - The rules server ([rules-server], [rules-crypto]).  [RulesTokens],
      [RulesLimit]: tokens and codes, limits, and whose address they count
      under.  [RulesDb]: its tables and statements.  [RulesCrypto]: the
      boxes.  [RulesOAuth], [RulesPublish]: the transactions of sign-in and
      of publishing, and what is answered of a snapshot.  [RulesServer],
      [RulesHandlers]: each endpoint as a program over one operation per lock
      ([Effects] has such programs and the rules to reason about them);
      [RulesWorld] interleaves any number of requests.
    - Publishing to it ([kaluta-core/src/rules_publish.rs] and its modules).
      [RulesApp]: the record of a publication and the snapshot.  [RulesPush]:
      pushes, keys and agents as programs over requests, the Keychain, the
      record and the store.  [RulesPull]: reports read, recorded and
      acknowledged, over the table of [CloudReports]
      ([mail-store/src/cloud_reports.rs]).  [RulesWorker]: the worker that
      pushes changes, the user and the clock interleaved.  [RulesWire]: the
      server's replies as the JSON the app reads, and which handler its
      requests reach.
    - The writing guide edited and learned ([kaluta-core/src/guide.rs],
      [guide_learn.rs], [guide_analyze.rs], [guide_run.rs], [guide_merge.rs],
      [guide_change.rs]).  [Transactions]: what is kept whole or not at all.
      [GuideStore]: its tables.  [GuideEdits]: edits, undo and redo, groups,
      the guide as a file.  [GuideLearn]: the user's own words, the prompt
      and its answer read and merged.  [GuideRun]: runs, and their job as a
      program over the store, the agent and the clock.
    - The facts about the user ([mail-store/src/facts.rs],
      [kaluta-core/src/facts.rs]).  [FactStore]: their tables.  [FactEdits]:
      categories, edits, undo, and facts moved between the account's store
      and the one every account shares.
    - The daily review ([compositions.rs] and [analysis.rs] of [mail-store],
      the [analysis_] files of [kaluta-core]).  [ReviewStore]: what AIs wrote,
      reviews and their pairs, and what each text became.  [ProposalStore],
      [ReviewCompare]: proposals, what the agent finds in the pairs, and
      their decision.  [FactGlean]: facts found in what was sent.
      [ReviewRun]: the schedule and the job.

    A database transaction is a function on the store; where a Rust function
    runs several, what other tasks do between them is an argument or a step
    of its own.  Names are the source's; a Rust method [T::f] is [f] of the
    part's file.  [Result] is [result], whose error comes first so that it is
    a monad; a panic is [None] where the code can panic.

    ** What the theorems show

    - The store.  [WriterProperties]: any sessions leave nothing for the
      consistency check to report, a session always finishes and reports
      exactly what moved; [StoreInvariant] is the invariant behind it.
      [UpsertProperties]: messages read back as delivered.
      [ReadProperties]: cursors walk a mailbox once each, in order; the
      Inbox tabs agree with a count.
    - Local work.  [OutboxProperties], [DrainProperties]: one op in flight,
      claims, at-most-once delivery through crashes and lost leases, and
      that the drain ends.  [UndoProperties]: an undo, or giving up on an op,
      puts back every label.  [ComposeProperties]: a held send undone
      restores everything; who a reply goes to.
    - Sync.  [SyncProperties]: an incremental round leaves the store a mirror
      of a truthful server, and a backfill ends.  [QueueProperties], [Queue],
      [Transport]: order and contents of the queue, what is downloaded, when
      IMAP is refused.
    - The network.  [RateLimit]: quota bounds, respected pauses, the reserve
      for the user, and that waiting ends.  [Http]: a request on every branch.
    - Agents.  [Permissions]: the guard computes the rules over the whole log
      of a session.  [AgentRules]: whatever answers it gets, a call keeps to
      the rules.  [AgentProperties]: so in every interleaving mail goes only
      with the user's approval or in a mailbox that sends freely, changes
      stay in the session's limits, a preview changes nothing, and reads stay
      in scope; computed runs at its end show three interleavings the code
      lets happen.  [FacadeProperties]: a call changes its own account only.  [Guide]: a published guide checks as the private one;
      hidden facts stay hidden.
    - Search.  [SearchLanguage]: a query's tree, typed, is cut
      and parsed to itself.  [SearchProperties]: the parser answers every
      query, and following a search's cursors shows what answers it once
      each, newest first.
    - The rules server.  [RulesWorld]: however requests interleave, each acts
      with the token that was checked.  [RulesGrants], [RulesDescent]: tokens
      belong to live grants, and an access token descends from a connect code
      and a verifier.  [RulesCrypto]: keys last, boxes are not
      interchangeable.  [RulesLimit]: addresses cannot be forged, and
      limits hold.  The end of [RulesDescent] runs each on a toy cryptography.
    - Publishing.  [RulesVersions]: pushes are in step with the server,
      whatever it answers.  [RulesReports]: reports are kept once, and
      acknowledged only when kept or given up on.  [RulesWorker]: a change is
      always on its way or its failure is shown.  [RulesReading],
      [RulesWire]: app and server put together: what one seals the other's
      agents read, and each reads the other's requests and answers.
      [RulesAppRuns] runs them on a toy codec.
    - The writing guide.  [GuideTyped], [GuideSteps], [GuideDecided]: whatever
      edits, answers and run steps follow one another, what is stored is an
      entry the app reads, and a job ends; [GuideUndo]: undo and redo are
      exact; decisions of the user outlast any answer, whose quotes are in
      the mail.  [GuidePlan]: no text closes a prompt's block, and a merge
      plan has every entry.
    - Facts.  [FactProperties]: undo and redo are exact, one accepted fact a
      label, and a moved fact is never lost.  [FactGlean]: what is found in
      mail is quoted from it and is nothing that must not be stored.
    - Reviews.  [ReviewStore]: a distance is the fewest words changed, and the
      matching rules; [ReviewRun]: a message is matched once, a pair is
      compared once, and a day keeps its cap, whatever interleaves; a review
      ends; and a run that shows two reviews going at once.  [ReviewCompare]: what it takes to show a
      proposal, and what a decision comes to.

    ** Bounds and fuel

    [modify_labels_present] runs [modify_pending] with [calls_needed] (two
    calls per message and one): enough by [batch_reaches_present].  The drain
    and [acquire] are loops over a list of turns or of times; [drain_ends] and
    [acquire_ends] give lengths at which they have returned.  [backfill] ends
    with as many turns as ids wait ([backfill_ends]).  [execute] takes the
    turns its retry policy allows ([execute_spec]); [parse_fuel] is five calls a
    token and five ([parse_ends]); following cursors and
    pages takes one turn a page, and a run that is cut off says so.  A learning
    run's job takes a turn a message left and one more ([job_ends]); a name
    that is free is looked for among one more than there are; a review's
    job takes two for each pair to compare and run that is going and two
    more ([review_ends]), and the scheduler's look one for each run that is
    paused ([tick_ends]).  Integers
    are unbounded except where the code's width matters: [as_u32], [I64_MAX]
    in cursors, [u32] casts of counts.

    ** Parameters

    Code that is not in the repository is an argument: [to_lowercase],
    [is_alphanumeric] and SHA-256 (the hypotheses used are stated where they
    are used), the MIME writer, HTML and Markdown conversions, base64, JSON
    texts, random tokens, files, whether a process is gone, the mail server
    (classes of [Provider] and [Sync]), the HTTP client ([Http], [RulesPush]),
    ciphers and hashes ([RulesCrypto], whose laws a toy cryptography meets), the
    calendar and the local day of a time; [f64] quantities are rationals, and
    so are the distances of texts.  What agents' calls need of the core is the
    class [AgentCore]; [FacadeProperties] gives the instance that is the
    facade, with the operations not modelled (search, downloads, the guide's
    and facts' rows) passed on.  How SQLite's full-text index matches a phrase is
    an argument of [Search].

    ** Not modelled

    SQLite itself, migrations and connections; MIME parsing, sanitising and
    IMAP and REST wire code, which call libraries; agent processes and their
    streams, MCP; account lifecycle and provisioning; the rules server's
    pages, logging and command line; tasks, Clean Up and routines.
    Of the guide, the facts and the reviews: the agents' hidden sessions, the
    text of bodies, the prompts of merging guides and of a change asked for,
    snapshots' JSON text, events and seeds for previews.  What would come
    next: schedules, quotes and mbox files, labels of agent mailboxes, tasks
    and Clean Up. *)

From stdpp Require Export base tactics option list gmap sets strings numbers sorting pretty.
From Stdlib Require Export ZArith Lia ZifyBool ZifyNat ZifyN.

(** ** Notations and error results *)

Declare Scope kaluta_scope.
Delimit Scope kaluta_scope with kaluta.

(** Rust's [Result<A, E>]: the error type comes first so that [result E]
    is a monad. *)
Inductive result (E A : Type) : Type :=
| Ok (a : A)
| Err (e : E).
Arguments Ok {E A} a.
Arguments Err {E A} e.

#[export] Instance result_ret {E} : MRet (result E) := λ A, Ok.
#[export] Instance result_bind {E} : MBind (result E) := λ A B f r,
  match r with Ok a => f a | Err e => Err e end.
#[export] Instance result_fmap {E} : FMap (result E) := λ A B f r,
  match r with Ok a => Ok (f a) | Err e => Err e end.
#[export] Instance result_eq_dec {E A} `{EqDecision E, EqDecision A} :
  EqDecision (result E A).
Proof. solve_decision. Defined.

(** [o.ok_or(e)?] *)
Definition ok_or {E A} (e : E) (o : option A) : result E A :=
  match o with Some a => Ok a | None => Err e end.

(** [r.ok()] *)
Definition ok {E A} (r : result E A) : option A :=
  match r with Ok a => Some a | Err _ => None end.

Definition map_err {E F A} (f : E → F) (r : result E A) : result F A :=
  match r with Ok a => Ok a | Err e => Err (f e) end.

Definition is_ok {E A} (r : result E A) : bool := match r with Ok _ => true | Err _ => false end.

(** The value a computed result holds. *)
Lemma bool_decide_ext_if {A} (P Q : Prop) `{Decision P} `{Decision Q} (x y : A) :
  (P ↔ Q) → (if bool_decide P then x else y) = if bool_decide Q then x else y.
Proof. intros Hpq. by rewrite (bool_decide_ext P Q). Qed.
Lemma is_ok_default {E A} (r : result E A) a : is_ok r = true → r = Ok (default a (ok r)).
Proof. by destruct r. Qed.

Lemma bind_Ok {E A B} (r : result E A) (f : A → result E B) b :
  r ≫= f = Ok b ↔ ∃ a, r = Ok a ∧ f a = Ok b.
Proof.
  destruct r as [a|e]; split.
  - intros H. by exists a.
  - intros (a' & [= <-] & H). exact H.
  - intros H. discriminate H.
  - intros (a' & H & _). discriminate H.
Qed.

(** Actions: a state, and an error that keeps what was done to it *)

Definition Action (S E A : Type) : Type := S → S * result E A.
#[export] Instance action_ret S E : MRet (Action S E) := λ _ a s, (s, Ok a).
#[export] Instance action_bind S E : MBind (Action S E) := λ _ _ f m s,
  match m s with (s, Ok a) => f a s | (s, Err e) => (s, Err e) end.

(** ** Tactics *)

(** Open every [match], [if] and [decide] of the goal, closing absurd cases. *)
Ltac split_cases :=
  repeat (case_match || case_decide || case_bool_decide); simplify_eq/=.

(** Invert a chain of [result] binds known to end in [Ok]. *)
Ltac inv_ok :=
  repeat match goal with
  | H : _ ≫= _ = Ok _ |- _ =>
      let a := fresh "a" in let Ha := fresh "Ha" in
      apply bind_Ok in H as (a & Ha & H)
  | H : Ok _ = Ok _ |- _ => injection H as H
  | H : Err _ = Ok _ |- _ => discriminate H
  | H : Ok _ = Err _ |- _ => discriminate H
  end; simplify_eq/=.

Create HintDb kaluta.

(** ** Generic lemmas *)

Section lists.
Context {A : Type}.
Implicit Types (l : list A).

(** Rust's [iter().filter(p).count()] on a boolean predicate. *)
Definition count (p : A → bool) l : nat := length (base.filter (λ x, Is_true (p x)) l).

Lemma count_nil p : count p [] = 0.
Proof. done. Qed.
Lemma count_cons p x l : count p (x :: l) = (if p x then 1 else 0) + count p l.
Proof. unfold count. rewrite filter_cons. by destruct (p x). Qed.
Lemma count_app p l k : count p (l ++ k) = count p l + count p k.
Proof. unfold count. by rewrite filter_app, length_app. Qed.
Lemma count_le_length p l : count p l ≤ length l.
Proof. apply length_filter. Qed.
Lemma count_zero p l : (∀ x, x ∈ l → p x = false) → count p l = 0.
Proof.
  intros Hp. induction l as [|x l IH]; [done|].
  rewrite count_cons, Hp, IH by set_solver. done.
Qed.
End lists.

(** *** Boolean list searches

    [iter().find], [iter().any] and [retain] on boolean predicates. *)
Lemma foldr_min_elem (b : Z) l : foldr Z.min b l ∈ b :: l.
Proof.
  induction l as [|z l IH]; cbn; [left|]. destruct (Z.min_spec z (foldr Z.min b l)) as [[_ ->]|[_ ->]].
  - right. left.
  - apply elem_of_cons in IH as [->|]; [left|by do 2 right].
Qed.

Section searches.
Context {A : Type}.
Implicit Types (l : list A) (p : A → bool).

Lemma elem_of_List_filter p l x : x ∈ List.filter p l ↔ p x = true ∧ x ∈ l.
Proof. rewrite !list_elem_of_In, List.filter_In. tauto. Qed.

Lemma existsb_true p l : List.existsb p l = true ↔ ∃ x, x ∈ l ∧ p x = true.
Proof.
  rewrite List.existsb_exists. by setoid_rewrite list_elem_of_In.
Qed.
Lemma existsb_false p l : List.existsb p l = false ↔ ∀ x, x ∈ l → p x = false.
Proof.
  rewrite <- not_true_iff_false, existsb_true. split.
  - intros H x Hx. apply not_true_iff_false. eauto.
  - intros H (x & Hx & Hp). rewrite (H x Hx) in Hp. done.
Qed.
Lemma forallb_true p l : forallb p l = true ↔ ∀ x, x ∈ l → p x = true.
Proof. rewrite List.forallb_forall. by setoid_rewrite list_elem_of_In. Qed.

Lemma List_filter_all p l : (∀ x, x ∈ l → p x = true) → List.filter p l = l.
Proof.
  induction l as [|x l IH]; intros Hp; simpl; [done|].
  rewrite (Hp x), IH by set_solver. done.
Qed.
Lemma List_filter_none p l : (∀ x, x ∈ l → p x = false) → List.filter p l = [].
Proof.
  induction l as [|x l IH]; intros Hp; simpl; [done|].
  rewrite (Hp x), IH by set_solver. done.
Qed.
Lemma List_filter_ext p q l :
  (∀ x, x ∈ l → p x = q x) → List.filter p l = List.filter q l.
Proof.
  induction l as [|x l IH]; intros Hp; simpl; [done|].
  rewrite (Hp x), IH by set_solver. done.
Qed.
#[export] Instance List_filter_Permutation p : Proper ((≡ₚ) ==> (≡ₚ)) (List.filter p).
Proof.
  induction 1 as [|x l l' _ IH|x y l|l l' l'' _ IH1 _ IH2]; simpl; [done| | |by etrans].
  - destruct (p x); by rewrite ?IH.
  - destruct (p x), (p y); done || apply Permutation_swap.
Qed.
Lemma List_filter_filter p q l :
  List.filter p (List.filter q l) = List.filter (λ x, q x && p x) l.
Proof.
  induction l as [|x l IH]; simpl; [done|].
  destruct (q x); simpl; [|done]. by destruct (p x); rewrite IH.
Qed.
Lemma sublist_List_filter p l : List.filter p l `sublist_of` l.
Proof.
  induction l as [|x l IH]; simpl; [done|].
  destruct (p x); by constructor.
Qed.
Lemma StronglySorted_filter R p l : StronglySorted R l → StronglySorted R (List.filter p l).
Proof.
  induction 1 as [|x l Hl IH Hx]; simpl; [constructor|]. destruct (p x); [|done]. constructor; [done|].
  rewrite Forall_forall in *. intros y [_ Hy]%elem_of_List_filter. by apply Hx.
Qed.
Lemma count_List_filter p l : count p l = length (List.filter p l).
Proof.
  induction l as [|x l IH]; [done|]. rewrite count_cons, IH. simpl. by destruct (p x).
Qed.
Lemma count_filter p q l : count p (List.filter q l) = count (λ x, q x && p x) l.
Proof. by rewrite !count_List_filter, List_filter_filter. Qed.
Lemma count_ext p q l : (∀ x, x ∈ l → p x = q x) → count p l = count q l.
Proof. intros H. by rewrite !count_List_filter, (List_filter_ext p q). Qed.
Lemma count_Permutation p l k : l ≡ₚ k → count p l = count p k.
Proof.
  induction 1; rewrite ?count_cons; lia.
Qed.
Lemma existsb_Permutation p l k : l ≡ₚ k → List.existsb p l = List.existsb p k.
Proof.
  intros H. apply eq_true_iff_eq. rewrite !existsb_true. by setoid_rewrite H.
Qed.
Lemma elem_of_count p l : count p l ≠ 0 ↔ ∃ x, x ∈ l ∧ p x = true.
Proof.
  rewrite <- existsb_true. induction l as [|x l IH]; [done|]. rewrite count_cons. simpl.
  destruct (p x); [naive_solver lia|]. done.
Qed.

Context {K : Type} `{EqDecision K} (f : A → K).

Lemma NoDup_fmap_List_filter p l : NoDup (f <$> l) → NoDup (f <$> List.filter p l).
Proof. intros H. eapply sublist_NoDup; [done|]. apply fmap_sublist, sublist_List_filter. Qed.

Lemma NoDup_fmap_inj l x y : NoDup (f <$> l) → x ∈ l → y ∈ l → f x = f y → x = y.
Proof.
  induction l as [|z l IH]; [set_solver|]. intros [Hz Hl]%NoDup_cons.
  intros [->|Hx]%elem_of_cons [->|Hy]%elem_of_cons E; [done| | |by apply IH].
  - destruct Hz. rewrite E. by apply list_elem_of_fmap_2.
  - destruct Hz. rewrite <- E. by apply list_elem_of_fmap_2.
Qed.

Lemma List_filter_key l x :
  NoDup (f <$> l) → x ∈ l → List.filter (λ y, bool_decide (f y = f x)) l = [x].
Proof.
  induction l as [|y l IH]; [set_solver|]. rewrite fmap_cons. intros [Hy Hl]%NoDup_cons.
  intros [->|Hx]%elem_of_cons; simpl.
  - rewrite bool_decide_eq_true_2 by done. f_equal. apply List_filter_none. intros z Hz.
    apply bool_decide_eq_false. intros E. destruct Hy. rewrite <- E. by apply list_elem_of_fmap_2.
  - rewrite bool_decide_eq_false_2; [by apply IH|].
    intros E. destruct Hy. rewrite E. by apply list_elem_of_fmap_2.
Qed.

(** Taking the row of a key out of a table. *)
Lemma count_remove_key p l x :
  NoDup (f <$> l) → x ∈ l →
  count p l = (if p x then 1 else 0) + count p (List.filter (λ y, negb (bool_decide (f y = f x))) l).
Proof.
  induction l as [|y l IH]; [set_solver|]. rewrite fmap_cons. intros [Hy Hl]%NoDup_cons.
  intros [->|Hx]%elem_of_cons; simpl.
  - rewrite bool_decide_eq_true_2 by done. simpl. rewrite count_cons. f_equal. f_equal.
    rewrite List_filter_all; [done|]. intros z Hz. rewrite bool_decide_eq_false_2; [done|].
    intros E. destruct Hy. rewrite <- E. by apply list_elem_of_fmap_2.
  - rewrite bool_decide_eq_false_2.
    + simpl. rewrite !count_cons, (IH Hl Hx). lia.
    + intros E. destruct Hy. rewrite E. by apply list_elem_of_fmap_2.
Qed.

(** The row a unique key selects. *)
Definition find_by (k : K) l : option A := List.find (λ x, bool_decide (f x = k)) l.

Lemma find_by_Some_2 k l x : find_by k l = Some x → x ∈ l ∧ f x = k.
Proof.
  intros [Hx Hk]%List.find_some. apply bool_decide_eq_true in Hk.
  by rewrite list_elem_of_In.
Qed.
Lemma find_by_None k l : find_by k l = None ↔ k ∉ f <$> l.
Proof.
  unfold find_by. induction l as [|x l IH]; simpl; [set_solver|].
  rewrite not_elem_of_cons, <- IH. case_bool_decide; naive_solver.
Qed.
Lemma find_by_Some k l x : NoDup (f <$> l) → find_by k l = Some x ↔ x ∈ l ∧ f x = k.
Proof.
  intros Hl. split; [apply find_by_Some_2|]. intros [Hx Hk].
  destruct (find_by k l) as [y|] eqn:E.
  - apply find_by_Some_2 in E as [Hy Ey]. f_equal. eapply NoDup_fmap_inj; [done..|congruence].
  - apply find_by_None in E. destruct E. subst k. by apply list_elem_of_fmap_2.
Qed.
Lemma find_by_app k l1 l2 :
  find_by k (l1 ++ l2) = match find_by k l1 with Some x => Some x | None => find_by k l2 end.
Proof.
  unfold find_by. induction l1 as [|x l1 IH]; simpl; [done|]. by case_bool_decide.
Qed.
Lemma find_by_filter k p l :
  (∀ x, x ∈ l → f x = k → p x = true) → find_by k (List.filter p l) = find_by k l.
Proof.
  unfold find_by. induction l as [|x l IH]; intros Hp; simpl; [done|].
  destruct (bool_decide (f x = k)) eqn:E.
  - apply bool_decide_eq_true in E. rewrite Hp by set_solver. simpl.
    by rewrite (bool_decide_eq_true_2 _ E).
  - destruct (p x); simpl; rewrite ?E; apply IH; set_solver.
Qed.
Lemma find_by_fmap k (g : A → A) l :
  (∀ x, x ∈ l → f (g x) = f x) → find_by k (g <$> l) = g <$> find_by k l.
Proof.
  unfold find_by. induction l as [|x l IH]; intros Hg; simpl; [done|].
  rewrite Hg by set_solver. case_bool_decide; [done|]. apply IH. set_solver.
Qed.
Lemma NoDup_fmap_snoc l x : NoDup (f <$> l) → f x ∉ f <$> l → NoDup (f <$> (l ++ [x])).
Proof using Type.
  intros Hl Hx. rewrite fmap_app. apply NoDup_app. split; [done|].
  split; [|apply NoDup_singleton]. intros y Hy ->%list_elem_of_singleton. done.
Qed.
Lemma fmap_map_key (g : A → A) l :
  (∀ x, x ∈ l → f (g x) = f x) → f <$> (g <$> l) = f <$> l.
Proof using Type.
  intros Hg. rewrite <- list_fmap_compose. apply list_fmap_ext.
  intros i x Hx%list_elem_of_lookup_2. by apply Hg.
Qed.
End searches.

(** ** Runs of a deterministic machine

    A component driven by a list of inputs: its final state and its answers
    in order. *)
Section runs.
Context {S I O : Type} (step : S → I → S * O).

Fixpoint run_steps (s : S) (xs : list I) : S * list O :=
  match xs with
  | [] => (s, [])
  | i :: xs =>
      let '(s1, o) := step s i in
      let '(s2, os) := run_steps s1 xs in (s2, o :: os)
  end.

Lemma run_steps_app s xs js :
  run_steps s (xs ++ js) =
    let '(s1, os) := run_steps s xs in
    let '(s2, os') := run_steps s1 js in (s2, os ++ os').
Proof.
  revert s. induction xs as [|i xs IH]; intros s; simpl.
  - by destruct (run_steps s js).
  - destruct (step s i) as [s1 o]. rewrite IH.
    destruct (run_steps s1 xs) as [s2 os]. by destruct (run_steps s2 js).
Qed.

(** An invariant of every step is an invariant of every run. *)
Lemma run_steps_invariant (P : S → Prop) :
  (∀ s i, P s → P (step s i).1) → ∀ s xs, P s → P (run_steps s xs).1.
Proof.
  intros Hstep s xs. revert s. induction xs as [|i xs IH]; intros s Hs; simpl; [done|].
  specialize (Hstep s i Hs). destruct (step s i) as [s1 o].
  specialize (IH s1 Hstep). by destruct (run_steps s1 xs).
Qed.
End runs.

(** Two machines in lock step: a simulation relation indexed by a ghost
    value [w] (the last time seen, say) that valid inputs move along. *)
Section simulation.
Context {S T I O W : Type}.
Context (stepS : S → I → S * O) (stepT : T → I → T * O).
Context (R : W → S → T → Prop) (valid : W → I → Prop) (next : W → I → W).
Hypothesis step_sim : ∀ w s t i, R w s t → valid w i →
  (stepS s i).2 = (stepT t i).2 ∧ R (next w i) (stepS s i).1 (stepT t i).1.

Fixpoint all_valid (w : W) (xs : list I) : Prop :=
  match xs with
  | [] => True
  | i :: xs => valid w i ∧ all_valid (next w i) xs
  end.

Lemma run_steps_sim w s t xs :
  R w s t → all_valid w xs →
  (run_steps stepS s xs).2 = (run_steps stepT t xs).2 ∧
  R (foldl next w xs) (run_steps stepS s xs).1 (run_steps stepT t xs).1.
Proof using step_sim.
  revert w s t. induction xs as [|i xs IH]; intros w s t HR; simpl; [done|].
  intros [Hv Hvs]. destruct (step_sim w s t i HR Hv) as [Ho HR'].
  destruct (stepS s i) as [s1 o1], (stepT t i) as [t1 o2]; simpl in *.
  destruct (IH _ _ _ HR' Hvs) as [Hos HR''].
  destruct (run_steps stepS s1 xs), (run_steps stepT t1 xs); simpl in *.
  by subst.
Qed.
End simulation.

(** ** Rust strings as UTF-8 byte strings

    Identifiers and column values are kept as byte strings.  [trim] strips
    the UTF-8 encodings of the code points with Unicode's [White_Space]
    property, as [str::trim] does. *)

Fixpoint strip_prefix (p s : string) : option string :=
  match p, s with
  | EmptyString, _ => Some s
  | String a p, String b s => if Ascii.eqb a b then strip_prefix p s else None
  | String _ _, EmptyString => None
  end.

Definition starts_with (p s : string) : bool :=
  match strip_prefix p s with Some _ => true | None => false end.

Definition bytes (l : list N) : string :=
  foldr (λ n s, String (Ascii.ascii_of_N n) s) EmptyString l.

Definition white_space : list string :=
  bytes <$> [[9]; [10]; [11]; [12]; [13]; [32]; [194; 133]; [194; 160]; [225; 154; 128];
    [226; 128; 128]; [226; 128; 129]; [226; 128; 130]; [226; 128; 131]; [226; 128; 132];
    [226; 128; 133]; [226; 128; 134]; [226; 128; 135]; [226; 128; 136]; [226; 128; 137];
    [226; 128; 138]; [226; 128; 168]; [226; 128; 169]; [226; 128; 175]; [226; 129; 159];
    [227; 128; 128]]%N.

(** Strip any of [ws] from the front as long as there is one. *)
Fixpoint strip_all (fuel : nat) (ws : list string) (s : string) : string :=
  match fuel with
  | O => s
  | S fuel =>
      match foldr (λ w acc, match strip_prefix w s with Some s' => Some s' | None => acc end)
              None ws with
      | Some s' => strip_all fuel ws s'
      | None => s
      end
  end.

Definition string_rev_of (s : string) : string := String.string_of_list_ascii (reverse (String.list_ascii_of_string s)).

Definition trim_start (s : string) : string := strip_all (String.length s) white_space s.
Definition trim_end (s : string) : string :=
  string_rev_of (strip_all (String.length s) (string_rev_of <$> white_space) (string_rev_of s)).
Definition trim (s : string) : string := trim_end (trim_start s).

(** SQLite's [TRIM(x)]: spaces only. *)
Definition sql_trim (s : string) : string :=
  let strip := strip_all (String.length s) [" "] in
  string_rev_of (strip (string_rev_of (strip s))).

Definition ascii_lower_char (a : Ascii.ascii) : Ascii.ascii :=
  let n := Ascii.N_of_ascii a in
  if ((65 <=? n) && (n <=? 90))%N then Ascii.ascii_of_N (n + 32) else a.
Definition ascii_upper_char (a : Ascii.ascii) : Ascii.ascii :=
  let n := Ascii.N_of_ascii a in
  if ((97 <=? n) && (n <=? 122))%N then Ascii.ascii_of_N (n - 32) else a.
Fixpoint ascii_lower (s : string) : string :=
  match s with EmptyString => EmptyString | String a s => String (ascii_lower_char a) (ascii_lower s) end.

(** [a COLLATE NOCASE = b] *)
Definition nocase_eqb (a b : string) : bool := bool_decide (ascii_lower a = ascii_lower b).

Definition string_all (p : Ascii.ascii → bool) (s : string) : bool :=
  forallb p (String.list_ascii_of_string s).

(** [parts.join(sep)] *)
Definition join (sep : string) (parts : list string) : string := String.concat sep parts.

Example trim_ex : trim "  Ann Lee " = "Ann Lee".
Proof. reflexivity. Qed.

(** ** Tables

    SQLite gives an [INTEGER PRIMARY KEY] one more than the largest in use. *)
Definition next_rowid (ids : list Z) : Z :=
  match ids with [] => 1%Z | i :: ids => (1 + foldr Z.max i ids)%Z end.

Lemma next_rowid_fresh ids i : i ∈ ids → (i < next_rowid ids)%Z.
Proof.
  destruct ids as [|j ids]; [set_solver|]. simpl.
  assert (∀ k, k ∈ ids → (k ≤ foldr Z.max j ids)%Z ) as Hk.
  { induction ids as [|k' ids IH]; intros k Hk; [set_solver|]. simpl.
    apply elem_of_cons in Hk as [->|Hk]; [lia|]. apply IH in Hk. lia. }
  assert (j ≤ foldr Z.max j ids)%Z by (clear Hk; induction ids; simpl; lia).
  intros [->|Hi]%elem_of_cons; [lia|]. apply Hk in Hi. lia.
Qed.

Lemma next_rowid_not_in ids : next_rowid ids ∉ ids.
Proof. intros H. apply next_rowid_fresh in H. lia. Qed.

(** [n.max(0) as u32] *)
Definition as_u32 (n : Z) : Z := (Z.max n 0 mod 2 ^ 32)%Z.
