(* ===== verification/Effects.v ===== *)
(** * Effects: programs over operations

    A program performs operations and goes on with their answers; one that
    may fail ends early with an error.  What a program may do, given what it
    has done, is a predicate on it ([wp]): it holds whatever the operations
    answer, of the answers they can have. *)

From S2P Require Import Prelude.

Inductive Eff {Op : Type} (answer : Op → Type) (A : Type) : Type :=
| Ret (a : A)
| Vis (o : Op) (k : answer o → Eff answer A).
Arguments Ret {Op answer A} a.
Arguments Vis {Op answer A} o k.
(** An operation and its answer. *)
Record Performed {Op : Type} (answer : Op → Type) := Did { dn_op : Op; dn_answer : answer dn_op }.
Arguments Did {Op answer} _ _.
Arguments dn_op {Op answer} _.
Arguments dn_answer {Op answer} _.

Section programs.
Context {Op : Type} {answer : Op → Type}.
#[local] Abbreviation Prog := (Eff answer).

Fixpoint prog_bind {A B} (f : A → Prog B) (p : Prog A) : Prog B :=
  match p with Ret a => f a | Vis o k => Vis o (λ x, prog_bind f (k x)) end.
#[export] Instance prog_ret : MRet Prog := λ A, Ret.
#[export] Instance prog_mbind : MBind Prog := @prog_bind.
Definition perform (o : Op) : Prog (answer o) := Vis o Ret.
End programs.

(** One that may end with an error or an answer of its own: [Result] and
    [?], and early returns. *)
Record Attempt {Op : Type} (answer : Op → Type) (E A : Type) : Type := mkTry { run_try : Eff answer (result E A) }.
Arguments mkTry {Op answer E A} _.
Arguments run_try {Op answer E A} _.

Section attempts.
Context {Op : Type} {answer : Op → Type}.
#[local] Abbreviation Prog := (Eff answer).
#[local] Abbreviation Try := (Attempt answer).

#[export] Instance try_ret E : MRet (Try E) := λ A a, mkTry (Ret (Ok a)).
#[export] Instance try_bind E : MBind (Try E) := λ A B f p,
  mkTry (r ← run_try p; match r with Ok a => run_try (f a) | Err e => Ret (Err e) end).
Definition fail {E A} (e : E) : Try E A := mkTry (Ret (Err e)).
Definition lift {E A} (p : Prog A) : Try E A := mkTry (a ← p; Ret (Ok a)).
Definition op {E} (o : Op) : Try E (answer o) := lift (perform o).
Definition check_that {E} (b : bool) (e : E) : Try E unit := if b then mret () else fail e.
Definition or_fail {E A} (e : E) (o : option A) : Try E A := match o with Some a => mret a | None => fail e end.
Definition ask {E A} (r : result E A) : Try E A := mkTry (Ret r).
Definition map_fail {E F A} (f : E → F) (p : Try E A) : Try F A := mkTry (r ← run_try p; Ret (map_err f r)).
(** What a program that fails with its answer comes to. *)
Definition finish {A} (p : Try A A) : Prog A := r ← run_try p; Ret (match r with Ok a | Err a => a end).
End attempts.

(** ** What a program may do *)

Section wp.
Context {Op : Type} {answer : Op → Type} (drawn : ∀ o : Op, answer o → Prop).
#[local] Abbreviation Prog := (Eff answer).
#[local] Abbreviation Try := (Attempt answer).
#[local] Abbreviation Done := (Performed answer).

Fixpoint wp {A} (P : list Done → Op → Prop) (past : list Done) (p : Prog A) (Q : list Done → A → Prop) : Prop :=
  match p with
  | Ret a => Q past a
  | Vis o k => P past o ∧ ∀ a, drawn o a → wp P (Did o a :: past) (k a) Q
  end.

Lemma wp_bind {A B} P past (p : Prog A) (f : A → Prog B) Q :
  wp P past p (λ past a, wp P past (f a) Q) → wp P past (p ≫= f) Q.
Proof.
  revert past. induction p as [a|o k IH]; intros past; cbn; [done|]. intros [Ho Hk]. split; [done|].
  intros a Ha. apply IH, Hk, Ha.
Qed.
Lemma wp_mono {A} P past (p : Prog A) (Q Q' : list Done → A → Prop) :
  (∀ past a, Q past a → Q' past a) → wp P past p Q → wp P past p Q'.
Proof.
  intros HQ. revert past. induction p as [a|o k IH]; intros past; cbn; [apply HQ|]. intros [Ho Hk]. split; [done|].
  intros a Ha. apply IH, Hk, Ha.
Qed.

(** Programs that may end early: what holds where they go on. *)
Definition twp {E A} P past (p : Try E A) (Q : list Done → A → Prop) : Prop :=
  wp P past (run_try p) (λ past r, match r with Ok a => Q past a | Err _ => True end).
Lemma twp_bind {E A B} P past (p : Try E A) (f : A → Try E B) Q :
  twp P past p (λ past a, twp P past (f a) Q) → twp P past (p ≫= f) Q.
Proof.
  intros Hp. apply wp_bind. eapply wp_mono; [|exact Hp]. by intros past' [a|e].
Qed.
Lemma twp_ret {E A} P past (a : A) (Q : list Done → A → Prop) : Q past a → twp (E:=E) P past (mret a) Q.
Proof. done. Qed.
Lemma twp_fail {E A} P past (e : E) Q : twp (A:=A) P past (fail e) Q.
Proof. done. Qed.
Lemma twp_op {E} P past o (Q : list Done → answer o → Prop) :
  P past o → (∀ a, drawn o a → Q (Did o a :: past) a) → twp (E:=E) P past (op o) Q.
Proof. done. Qed.
Lemma twp_ask {E A} P past (r : result E A) (Q : list Done → A → Prop) : (∀ a, r = Ok a → Q past a) → twp P past (ask r) Q.
Proof. intros Hr. unfold twp. cbn. destruct r; [by apply Hr|done]. Qed.
Lemma twp_or_fail {E A} P past (e : E) (o : option A) (Q : list Done → A → Prop) :
  (∀ a, o = Some a → Q past a) → twp P past (or_fail e o) Q.
Proof. intros Ho. destruct o; [by apply Ho|done]. Qed.
Lemma twp_check {E} P past b (e : E) (Q : list Done → unit → Prop) : (b = true → Q past ()) → twp P past (check_that b e) Q.
Proof. intros Hb. destruct b; [by apply Hb|done]. Qed.
Lemma twp_map_fail {E F A} P past (f : E → F) (p : Try E A) Q : twp P past p Q → twp P past (map_fail f p) Q.
Proof. intros Hp. unfold twp in *. cbn. apply wp_bind. eapply wp_mono; [|exact Hp]. by intros past' [a|e]. Qed.
Lemma wp_finish {A} P past (p : Try A A) : twp P past p (λ _ _, True) → wp P past (finish p) (λ _ _, True).
Proof. intros Hp. apply wp_bind. eapply wp_mono; [|exact Hp]. by intros past' [a|e]. Qed.
Lemma twp_mono {E A} P past (p : Try E A) (Q Q' : list Done → A → Prop) :
  (∀ past a, Q past a → Q' past a) → twp P past p Q → twp P past p Q'.
Proof. intros HQ. apply wp_mono. intros past' [a|e]; [apply HQ|done]. Qed.

(** Everything done so far was allowed. *)
Fixpoint all_allowed (P : list Done → Op → Prop) (past : list Done) : Prop :=
  match past with [] => True | Did o a :: past => P past o ∧ drawn o a ∧ all_allowed P past end.
Lemma all_allowed_at P newer o a past : all_allowed P (newer ++ Did o a :: past) → P past o.
Proof. induction newer as [|[o' a'] newer IH]; cbn; [tauto|]. intros (_ & _ & Hn). by apply IH. Qed.
End wp.

(** ** What a program does to a state

    Each operation takes a state to another with its answer; other tasks
    may be part of the step. *)

Section swp.
Context {Op S : Type} {answer : Op → Type} (takes : S → ∀ o : Op, answer o → S → Prop) (P : S → Op → Prop).
#[local] Abbreviation Prog := (Eff answer).
#[local] Abbreviation Try := (Attempt answer).

Fixpoint swp {A} (s : S) (p : Prog A) (Q : S → A → Prop) : Prop :=
  match p with
  | Ret a => Q s a
  | Vis o k => P s o ∧ ∀ a s', takes s o a s' → swp s' (k a) Q
  end.
Lemma swp_bind {A B} s (p : Prog A) (f : A → Prog B) Q : swp s p (λ s a, swp s (f a) Q) → swp s (p ≫= f) Q.
Proof.
  revert s. induction p as [a|o k IH]; intros s; cbn; [done|]. intros [Ho Hk]. split; [done|].
  intros a s' Ha. apply IH. by eapply Hk.
Qed.
Lemma swp_mono {A} s (p : Prog A) (Q Q' : S → A → Prop) : (∀ s a, Q s a → Q' s a) → swp s p Q → swp s p Q'.
Proof.
  intros HQ. revert s. induction p as [a|o k IH]; intros s; cbn; [apply HQ|]. intros [Ho Hk]. split; [done|].
  intros a s' Ha. apply IH. by eapply Hk.
Qed.
(** What holds where it goes on, and what where it ends early. *)
Definition tswp {E A} (s : S) (p : Try E A) (Q : S → A → Prop) (X : S → Prop) : Prop :=
  swp s (run_try p) (λ s r, match r with Ok a => Q s a | Err _ => X s end).
Lemma tswp_bind {E A B} s (p : Try E A) (f : A → Try E B) Q X :
  tswp s p (λ s a, tswp s (f a) Q X) X → tswp s (p ≫= f) Q X.
Proof. intros Hp. apply swp_bind. eapply swp_mono; [|exact Hp]. by intros s' [a|e]. Qed.
Lemma tswp_mono {E A} s (p : Try E A) (Q Q' : S → A → Prop) (X : S → Prop) : (∀ s a, Q s a → Q' s a) → tswp s p Q X → tswp s p Q' X.
Proof. intros HQ. apply swp_mono. intros s' [a|e]; [apply HQ|done]. Qed.
Lemma tswp_ret {E A} s (a : A) (Q : S → A → Prop) X : Q s a → tswp (E:=E) s (mret a) Q X.
Proof. done. Qed.
Lemma tswp_fail {E A} s (e : E) (Q : S → A → Prop) (X : S → Prop) : X s → tswp s (fail e) Q X.
Proof. done. Qed.
Lemma tswp_op {E} s o (Q : S → answer o → Prop) X :
  P s o → (∀ a s', takes s o a s' → Q s' a) → tswp (E:=E) s (op o) Q X.
Proof. done. Qed.
Lemma tswp_ask {E A} s (r : result E A) (Q : S → A → Prop) (X : S → Prop) :
  (∀ a, r = Ok a → Q s a) → (∀ e, r = Err e → X s) → tswp s (ask r) Q X.
Proof. intros Hr Hx. unfold tswp. cbn. destruct r; [by apply Hr|by eapply Hx]. Qed.
Lemma tswp_or_fail {E A} s (e : E) (o : option A) (Q : S → A → Prop) (X : S → Prop) :
  (∀ a, o = Some a → Q s a) → X s → tswp s (or_fail e o) Q X.
Proof. intros Ho Hx. destruct o; [by apply Ho|done]. Qed.
Lemma tswp_map_fail {E F A} s (f : E → F) (p : Try E A) Q X : tswp s p Q X → tswp s (map_fail f p) Q X.
Proof. intros Hp. apply swp_bind. eapply swp_mono; [|exact Hp]. by intros s' [a|e]. Qed.
Lemma tswp_lift {E A} s (p : Prog A) Q X : swp s p Q → tswp (E:=E) s (lift p) Q X.
Proof. intros Hp. apply swp_bind. eapply swp_mono; [|exact Hp]. done. Qed.
End swp.

(** Programs whose operations are all of a kind. *)
Section always.
Context {Op : Type} {answer : Op → Type} (K : Op → Prop).

Fixpoint always {A} (p : Eff answer A) : Prop := match p with Ret _ => True | Vis o k => K o ∧ ∀ a, always (k a) end.
Definition talways {E A} (p : Attempt answer E A) : Prop := always (run_try p).
Lemma always_bind {A B} (p : Eff answer A) (f : A → Eff answer B) : always p → (∀ a, always (f a)) → always (p ≫= f).
Proof. induction p as [a|o k IH]; cbn; [by intros _ Hf|]. intros [Ho Hk] Hf. split; [done|]. intros a. by apply IH. Qed.
Lemma talways_bind {E A B} (p : Attempt answer E A) (f : A → Attempt answer E B) :
  talways p → (∀ a, talways (f a)) → talways (p ≫= f).
Proof. intros Hp Hf. apply always_bind; [done|]. intros [a|e]; [apply Hf|done]. Qed.
Lemma talways_ret {E A} (a : A) : talways (mret (M := Attempt answer E) a).
Proof. done. Qed.
Lemma talways_fail {E A} (e : E) : talways (fail (A := A) e).
Proof. done. Qed.
Lemma talways_op {E} o : K o → talways (op (E := E) o).
Proof. done. Qed.
Lemma talways_ask {E A} (r : result E A) : talways (ask r).
Proof. done. Qed.
Lemma talways_or_fail {E A} (e : E) (o : option A) : talways (or_fail e o).
Proof. by destruct o. Qed.
Lemma talways_map_fail {E F A} (f : E → F) (p : Attempt answer E A) : talways p → talways (map_fail f p).
Proof. intros Hp. by apply always_bind. Qed.
Lemma talways_lift {E A} (p : Eff answer A) : always p → talways (lift (E := E) p).
Proof. intros Hp. by apply always_bind. Qed.
Lemma swp_always {S A} (takes : S → ∀ o : Op, answer o → S → Prop) (P : S → Op → Prop) s (p : Eff answer A) :
  (∀ s o, K o → P s o) → always p → swp takes P s p (λ _ _, True).
Proof. intros HK. revert s. induction p as [a|o k IH]; intros s; cbn; [done|]. intros [Ho Hk]. split; [by apply HK|]. intros a s' _. by apply IH. Qed.
Lemma tswp_always {S E A} (takes : S → ∀ o : Op, answer o → S → Prop) (P : S → Op → Prop) s (p : Attempt answer E A) :
  (∀ s o, K o → P s o) → talways p → tswp takes P s p (λ _ _, True) (λ _, True).
Proof. intros HK Hp. eapply swp_mono; [|by apply (swp_always takes P)]. by intros s' [a|e] _. Qed.
End always.

(** Through a program one step at a time. *)
Ltac always_step :=
  match goal with
  | |- talways _ (_ ≫= _) => apply talways_bind; [|intros ?]
  | |- always _ (_ ≫= _) => apply always_bind; [|intros ?]
  | |- talways _ (if ?b then _ else _) => destruct b
  | |- always _ (if ?b then _ else _) => destruct b
  | |- talways _ (match ?x with _ => _ end) => destruct x
  | |- always _ (match ?x with _ => _ end) => destruct x
  | |- talways _ (mret _) => apply talways_ret
  | |- talways _ (fail _) => apply talways_fail
  | |- talways _ (ask _) => apply talways_ask
  | |- talways _ (or_fail _ _) => apply talways_or_fail
  | |- talways _ (map_fail _ _) => apply talways_map_fail
  | |- talways _ (lift _) => apply talways_lift
  | |- talways ?K (op (E := ?E) ?o) => apply (talways_op K (E := E) o)
  end.
(** The operation a program is at. *)
Ltac op_step :=
  match goal with
  | |- tswp ?takes ?P ?s (op (E := ?E) ?o) ?Q ?X => apply (tswp_op takes P (E := E) s o Q X)
  | |- tswp ?takes ?P ?s (_ ≫= _) ?Q ?X => apply tswp_bind; op_step
  | |- twp ?drawn ?P ?past (op (E := ?E) ?o) ?Q => apply (twp_op drawn P (E := E) past o Q)
  | |- twp ?drawn ?P ?past (_ ≫= _) ?Q => apply twp_bind; op_step
  end.
