(* ===== verification/Domain.v ===== *)
(** * Domain: the plain types of [crates/mail-domain]

    Identifiers are strings (the newtypes of [ids.rs]), [Millis] is an
    integer, and the canonical system labels are constants. *)

From S2P Require Import Prelude.

(** ** Identifiers ([ids.rs]) *)

Abbreviation Millis := Z (only parsing).
Abbreviation ThreadId := string (only parsing).
Abbreviation MessageId := string (only parsing).
Abbreviation LabelId := string (only parsing).

(** ** System labels ([model.rs]) *)

Definition INBOX : LabelId := "INBOX".
Definition SENT : LabelId := "SENT".
Definition DRAFT : LabelId := "DRAFT".
Definition SPAM : LabelId := "SPAM".
Definition TRASH : LabelId := "TRASH".
Definition STARRED : LabelId := "STARRED".
Definition IMPORTANT : LabelId := "IMPORTANT".
Definition UNREAD : LabelId := "UNREAD".

(** Labels an agent may never add or remove directly. *)
Definition PROTECTED : list LabelId := [SPAM; TRASH; DRAFT; SENT].
