(* ===== verification/Text.v ===== *)
(** * Text: the string functions several components use

    Numbers in strings ([str::parse], [format!]), splitting and searching, on
    the byte strings of [Prelude].  The round trip of an [i64] is proved
    here; slicing a string in the middle of a character is Rust's panic. *)

From Stdlib Require Import Ascii.
From S2P Require Import Prelude.

(** ** Numbers *)

Definition digit (a : Ascii.ascii) : option N :=
  let n := Ascii.N_of_ascii a in
  if ((48 <=? n) && (n <=? 57))%N then Some (n - 48)%N else None.
Fixpoint parse_digits (acc : N) (s : string) : option N :=
  match s with
  | EmptyString => Some acc
  | String a s => match digit a with Some d => parse_digits (acc * 10 + d)%N s | None => None end
  end.
Definition parse_N (s : string) : option N := match s with EmptyString => None | _ => parse_digits 0 s end.
(** [s.parse::<u64>()], [s.parse::<u32>()] and [s.parse::<i64>()] *)
Definition parse_unsigned (bits : Z) (s : string) : option Z :=
  n ← parse_N (default s (strip_prefix "+" s));
  if (Z.of_N n <? 2 ^ bits)%Z then Some (Z.of_N n) else None.
Definition parse_u64 (s : string) : option Z := parse_unsigned 64 s.
Definition parse_u32 (s : string) : option Z := parse_unsigned 32 s.
Definition parse_i64 (s : string) : option Z :=
  match strip_prefix "-" s with
  | Some s => n ← parse_N s; if (Z.of_N n <=? 2 ^ 63)%Z then Some (- Z.of_N n)%Z else None
  | None => n ← parse_N (default s (strip_prefix "+" s)); if (Z.of_N n <? 2 ^ 63)%Z then Some (Z.of_N n) else None
  end.
Definition in_i64 (z : Z) : Prop := (- 2 ^ 63 ≤ z < 2 ^ 63)%Z.

Lemma digit_pretty (x : N) : digit (pretty_N_char (x mod 10)) = Some (x mod 10)%N.
Proof.
  assert (x mod 10 < 10)%N as H by (apply N.mod_lt; lia). revert H. generalize (x mod 10)%N as d. intros d Hd.
  assert (d ∈ [0; 1; 2; 3; 4; 5; 6; 7; 8; 9]%N) as Hin.
  { rewrite !elem_of_cons. lia. }
  repeat (apply elem_of_cons in Hin as [->|Hin]; [reflexivity|]). by apply not_elem_of_nil in Hin.
Qed.
Lemma parse_digits_pretty (x : N) (s : string) : (0 < x)%N → parse_digits 0 (pretty_N_go x s) = parse_digits x s.
Proof.
  revert s. induction (N.lt_wf_0 x) as [x _ IH]. intros s Hx.
  rewrite pretty_N_go_step by done. destruct (decide (x / 10 = 0)%N) as [E|E].
  - rewrite E, pretty_N_go_0. cbn. rewrite digit_pretty.
    assert (x mod 10 = x)%N as -> by (rewrite (N.div_mod x 10) at 2; lia). done.
  - rewrite IH; [|apply N.div_lt; lia|lia]. cbn. rewrite digit_pretty. f_equal.
    rewrite (N.div_mod x 10) at 3 by lia. lia.
Qed.
Lemma parse_N_pretty (x : N) : parse_N (pretty x) = Some x.
Proof.
  unfold pretty, pretty_N. destruct (decide (x = 0%N)) as [->|Hx]; [reflexivity|].
  transitivity (parse_digits 0 (pretty_N_go x "")); [|rewrite parse_digits_pretty by lia; reflexivity].
  assert (pretty_N_go x "" ≠ EmptyString) as Hne.
  { intros E. pose proof (parse_digits_pretty x "" ltac:(lia)) as H. rewrite E in H. by injection H. }
  by destruct (pretty_N_go x "").
Qed.

(** The first character of a number. *)
Lemma pretty_N_head (x : N) : ∃ a s, pretty x = String a s ∧ is_Some (digit a).
Proof.
  pose proof (parse_N_pretty x) as H. destruct (pretty x) as [|a s]; [discriminate H|].
  exists a, s. split; [done|]. cbn in H. destruct (digit a); [by eexists|discriminate H].
Qed.
Lemma strip_prefix_digit (c a : Ascii.ascii) (s : string) :
  digit c = None → is_Some (digit a) → strip_prefix (String c EmptyString) (String a s) = None.
Proof.
  intros Hc [d Hd]. cbn. destruct (Ascii.eqb_spec c a) as [->|]; [congruence|done].
Qed.

(** An [i64] printed by [format!] is parsed back. *)
Lemma parse_i64_pretty (z : Z) : in_i64 z → parse_i64 (pretty z) = Some z.
Proof.
  unfold in_i64. intros Hz. destruct z as [|p|p]; [reflexivity| |].
  - change (pretty (Z.pos p)) with (pretty (N.pos p)).
    destruct (pretty_N_head (N.pos p)) as (a & s & E & Ha).
    unfold parse_i64. rewrite E, !strip_prefix_digit by done. cbn [default from_option]. rewrite <- E, parse_N_pretty.
    cbn -[Z.pow]. destruct (Z.ltb_spec (Z.pos p) (2 ^ 63)); [done|lia].
  - change (pretty (Z.neg p)) with (String "-"%char (pretty (N.pos p))).
    unfold parse_i64. cbn [strip_prefix]. rewrite Ascii.eqb_refl. rewrite parse_N_pretty.
    cbn -[Z.pow]. destruct (Z.leb_spec (Z.pos p) (2 ^ 63)); [done|lia].
Qed.

(** ** Splitting and searching *)

(** [s.rsplit_once(c)]: what stands before and after the last [c]. *)
Fixpoint rsplit_once (c : Ascii.ascii) (s : string) : option (string * string) :=
  match s with
  | EmptyString => None
  | String a s =>
      match rsplit_once c s with
      | Some (x, y) => Some (String a x, y)
      | None => if Ascii.eqb a c then Some (EmptyString, s) else None
      end
  end.
(** [s.split_once(c)] *)
Fixpoint split_once (c : Ascii.ascii) (s : string) : option (string * string) :=
  match s with
  | EmptyString => None
  | String a s =>
      if Ascii.eqb a c then Some (EmptyString, s)
      else match split_once c s with Some (x, y) => Some (String a x, y) | None => None end
  end.
(** [s.split(c)]: always at least one part. *)
Fixpoint split_on (c : Ascii.ascii) (s : string) : list string :=
  match s with
  | EmptyString => [EmptyString]
  | String a s =>
      if Ascii.eqb a c then EmptyString :: split_on c s
      else match split_on c s with x :: xs => String a x :: xs | [] => [String a EmptyString] end
  end.
Definition has_char (c : Ascii.ascii) (s : string) : bool := List.existsb (Ascii.eqb c) (String.list_ascii_of_string s).
(** [s.contains(p)] *)
Fixpoint contains (p s : string) : bool :=
  starts_with p s || match s with EmptyString => false | String _ s => contains p s end.
(** [s.replace(p, r)] of a pattern that is not empty; [skip] counts the bytes
    of the last match still to pass over. *)
Fixpoint replace_from (skip : nat) (p r s : string) : string :=
  match s with
  | EmptyString => EmptyString
  | String a s' =>
      match skip with
      | S skip => replace_from skip p r s'
      | O => if starts_with p s then r +:+ replace_from (pred (String.length p)) p r s'
             else String a (replace_from 0 p r s')
      end
  end.
Definition replace (p r s : string) : string := replace_from 0 p r s.
Definition ends_with (p s : string) : bool := starts_with (string_rev_of p) (string_rev_of s).

(** Appended strings. *)
Lemma list_ascii_app x y : String.list_ascii_of_string (x +:+ y) = String.list_ascii_of_string x ++ String.list_ascii_of_string y.
Proof. induction x as [|a x IH]; [done|]. change (String a x +:+ y) with (String a (x +:+ y)). cbn. by rewrite IH. Qed.
Lemma string_rev_app x y : string_rev_of (x +:+ y) = string_rev_of y +:+ string_rev_of x.
Proof.
  unfold string_rev_of. rewrite list_ascii_app, reverse_app.
  generalize (reverse (String.list_ascii_of_string y)). intros l. induction l as [|a l IH]; [done|].
  change ((a :: l) ++ reverse (String.list_ascii_of_string x))
    with (a :: (l ++ reverse (String.list_ascii_of_string x))).
  cbn [String.string_of_list_ascii]. by rewrite IH.
Qed.
Lemma string_rev_rev x : string_rev_of (string_rev_of x) = x.
Proof.
  unfold string_rev_of. rewrite String.list_ascii_of_string_of_list_ascii, reverse_involutive.
  apply String.string_of_list_ascii_of_string.
Qed.
Lemma length_str_app x y : String.length (x +:+ y) = String.length x + String.length y.
Proof. induction x as [|a x IH]; [done|]. change (String a x +:+ y) with (String a (x +:+ y)). cbn. by rewrite IH. Qed.
Lemma str_app_nil s : s +:+ "" = s.
Proof. induction s as [|a s IH]; [done|]. change (String a s +:+ "") with (String a (s +:+ "")). by rewrite IH. Qed.
Lemma substring_prefix x y : String.substring 0 (String.length x) (x +:+ y) = x.
Proof.
  induction x as [|a x IH]; [change ("" +:+ y) with y; by destruct y|].
  change (String a x +:+ y) with (String a (x +:+ y)). cbn. by rewrite IH.
Qed.
Lemma substring_suffix x y k : String.substring (String.length x) k (x +:+ y) = String.substring 0 k y.
Proof. induction x as [|a x IH]; [done|]. change (String a x +:+ y) with (String a (x +:+ y)). cbn. apply IH. Qed.

Lemma rsplit_once_none c s : has_char c s = false → rsplit_once c s = None.
Proof.
  unfold has_char. induction s as [|a s IH]; [done|]. cbn. intros [Ha Hs]%orb_false_iff.
  rewrite IH by done. by rewrite Ascii.eqb_sym, Ha.
Qed.
Lemma rsplit_once_app c x y : has_char c y = false → rsplit_once c (x +:+ String c y) = Some (x, y).
Proof.
  intros Hy. induction x as [|a x IH].
  - change (rsplit_once c (String c y) = Some ("", y)). cbn. by rewrite rsplit_once_none, Ascii.eqb_refl.
  - change (rsplit_once c (String a (x +:+ String c y)) = Some (String a x, y)). cbn. by rewrite IH.
Qed.

Lemma split_once_app c x y : has_char c x = false → split_once c (x +:+ String c y) = Some (x, y).
Proof.
  unfold has_char. induction x as [|a x IH].
  - intros _. change (split_once c (String c y) = Some ("", y)). cbn. by rewrite Ascii.eqb_refl.
  - change (split_once c (String a x +:+ String c y)) with (split_once c (String a (x +:+ String c y))).
    cbn. intros [Ha Hx]%orb_false_iff. by rewrite Ascii.eqb_sym, Ha, IH.
Qed.

(** Digits have no separator in them. *)
Lemma has_char_pretty_N c x : digit c = None → has_char c (pretty (x : N)) = false.
Proof.
  intros Hc. pose proof (parse_N_pretty x) as H.
  assert (∀ s acc, is_Some (parse_digits acc s) → has_char c s = false) as Hs.
  { induction s as [|a s IH]; intros acc; cbn; [done|].
    destruct (digit a) as [d|] eqn:E; [|by intros []]. intros Hs. apply orb_false_iff. split; [|by eapply IH].
    destruct (Ascii.eqb_spec c a) as [->|]; congruence. }
  apply (Hs _ 0%N). destruct (pretty x); [done|]. cbn [parse_N] in H. rewrite H. by eexists.
Qed.
Lemma has_char_pretty_Z c z : digit c = None → c ≠ "-"%char → has_char c (pretty (z : Z)) = false.
Proof.
  intros Hc Hm. destruct z as [|p|p].
  - change (pretty 0%Z) with (pretty 0%N). by apply has_char_pretty_N.
  - change (pretty (Z.pos p)) with (pretty (N.pos p)). by apply has_char_pretty_N.
  - change (pretty (Z.neg p)) with (String "-"%char (pretty (N.pos p))).
    unfold has_char. cbn. destruct (Ascii.eqb_spec c "-"%char) as [->|]; [done|].
    by apply has_char_pretty_N.
Qed.

(** ** Characters *)

(** [s.chars().take(n)] of UTF-8 bytes: up to the [n+1]-th character start. *)
Definition continuation (a : Ascii.ascii) : bool :=
  ((128 <=? Ascii.N_of_ascii a) && (Ascii.N_of_ascii a <? 192))%N.
Fixpoint take_chars (n : nat) (s : string) : string :=
  match s with
  | EmptyString => ""
  | String a s =>
      if continuation a then String a (take_chars n s)
      else match n with O => "" | S n => String a (take_chars n s) end
  end.

(** [s.chars()], each as its bytes; [s.split(sep)] at the characters for
    which [sep] holds. *)
Fixpoint chars (s : string) : list string :=
  match s with
  | EmptyString => []
  | String a s' =>
      match chars s', s' with
      | c :: cs, String b _ => if continuation b then String a c :: cs else String a "" :: c :: cs
      | _, _ => [String a ""]
      end
  end.
Definition split_chars (sep : string → bool) (s : string) : list string :=
  foldr (λ c acc, if sep c then "" :: acc
                  else match acc with p :: acc => (c +:+ p) :: acc | [] => [c] end) [""] (chars s).
Definition non_empty (s : string) : bool := negb (String.eqb s "").
(** [s.split_whitespace()] *)
Definition split_whitespace (s : string) : list string :=
  List.filter non_empty (split_chars (λ c, bool_decide (c ∈ white_space)) s).

(** The double quote. *)
Definition QUOTE : string := String "034" "".
Definition quoted (s : string) : string := QUOTE +:+ s +:+ QUOTE.

(** [email] as the builder and the tools accept it: one [@] with something
    on each side, no white space and nothing that would break a header. *)
Fixpoint char_count (c : Ascii.ascii) (s : string) : nat :=
  match s with EmptyString => 0 | String a s => (if Ascii.eqb a c then 1 else 0) + char_count c s end.
Definition has_white_space (s : string) : bool := List.existsb (λ w, contains w s) white_space.
Definition valid_email (s : string) : bool :=
  (char_count "@" s =? 1) && negb (starts_with "@" s) && negb (ends_with "@" s) && negb (has_white_space s) &&
  negb (List.existsb (λ c, has_char c s) ["<"; ">"; ","; ";"; "034"]%char).
(** [s.is_char_boundary(n)] *)
Definition char_boundary (n : nat) (s : string) : bool :=
  match String.get n s with Some a => negb (continuation a) | None => n =? String.length s end.

Example split_ex : split_on "+" "INBOX+!Label_7+@unread" = ["INBOX"; "!Label_7"; "@unread"].
Proof. reflexivity. Qed.
Example replace_ex : replace "ab" "x" "aababcab" = "axxcx".
Proof. reflexivity. Qed.
Example split_whitespace_ex : split_whitespace " one  two
three" = ["one"; "two"; "three"].
Proof. vm_compute. reflexivity. Qed.

(** Strings of one-byte characters. *)
Definition plain_bytes (s : string) : Prop := Forall (λ a, continuation a = false) (String.list_ascii_of_string s).
Lemma chars_cons a s : match s with String b _ => continuation b = false | EmptyString => True end →
  chars (String a s) = String a "" :: chars s.
Proof.
  destruct s as [|b s]; [done|]. intros Hb. change (chars (String a (String b s))) with
    (match chars (String b s) with c :: cs => if continuation b then String a c :: cs else String a "" :: c :: cs
     | [] => [String a ""] end).
  destruct (chars (String b s)) as [|c cs] eqn:E; [|by rewrite Hb].
  cbn in E. destruct (chars s), s; try discriminate E; by destruct (continuation _).
Qed.
Lemma chars_plain s : plain_bytes s → chars s = (λ a, String a "") <$> String.list_ascii_of_string s.
Proof.
  unfold plain_bytes. induction s as [|a s IH]; [done|]. cbn [String.list_ascii_of_string]. intros [_ Hs]%Forall_cons.
  rewrite chars_cons, IH; [done|done|]. destruct s as [|b s]; [done|]. by apply Forall_inv in Hs.
Qed.
