(* ===== verification/Time.v ===== *)
(** * Time: dates of the proleptic Gregorian calendar
    ([crates/mail-domain/src/time.rs])

    [civil_from_days] is the code's closed formula.  The calendar itself is
    defined day by day ([next_day]); the theorem is that the formula walks
    it. *)

From Stdlib Require Import Ascii.
From S2P Require Import Prelude.
From S2P Require Import Domain.

#[local] Open Scope Z_scope.

Definition Date : Type := Z * Z * Z.

(** ** The code *)

(** Days of an era from its year, and the year of an era from its day. *)
Definition year_start (yoe : Z) : Z := 365 * yoe + yoe / 4 - yoe / 100.
Definition year_of_era (doe : Z) : Z := (doe - doe / 1460 + doe / 36524 - doe / 146096) / 365.
Definition civil_from_days (z : Z) : Date :=
  let z := z + 719468 in
  let era := z / 146097 in
  let doe := z - era * 146097 in
  let yoe := year_of_era doe in
  let doy := doe - year_start yoe in
  let mp := (5 * doy + 2) / 153 in
  let d := doy - (153 * mp + 2) / 5 + 1 in
  let m := if mp <? 10 then mp + 3 else mp - 9 in
  (yoe + era * 400 + Z.b2z (m <=? 2), m, d).

(** [{:0w}] of an integer: the sign counts. *)
Fixpoint zeros (n : nat) : string := match n with O => "" | S n => String "0" (zeros n) end.
Definition pad (w : nat) (n : Z) : string :=
  let s := pretty (Z.abs_N n) in
  if n <? 0 then String "-" (zeros (w - 1 - String.length s) +:+ s) else zeros (w - String.length s) +:+ s.
Definition date_text (date : Date) : string :=
  let '(y, m, d) := date in pad 4 y +:+ "-" +:+ pad 2 m +:+ "-" +:+ pad 2 d.
Definition iso8601_utc (at_ : Millis) : string :=
  let secs := at_ / 1000 in
  let s := secs mod 86400 in
  date_text (civil_from_days (secs / 86400)) +:+ "T" +:+ pad 2 (s / 3600) +:+ ":" +:+
    pad 2 (s mod 3600 / 60) +:+ ":" +:+ pad 2 (s mod 60) +:+ "Z".

Example iso8601_ex : iso8601_utc 1789993980000 = "2026-09-21T12:33:00Z".
Proof. reflexivity. Qed.

(** ** The calendar *)

Definition leap (y : Z) : bool := (y mod 4 =? 0) && (negb (y mod 100 =? 0) || (y mod 400 =? 0)).
Definition month_days (y m : Z) : Z :=
  if m =? 2 then (if leap y then 29 else 28)
  else if (m =? 4) || (m =? 6) || (m =? 9) || (m =? 11) then 30 else 31.
Definition next_day (date : Date) : Date :=
  let '(y, m, d) := date in
  if d <? month_days y m then (y, m, d + 1)
  else if m <? 12 then (y, m + 1, 1)
  else (y + 1, 1, 1).
Definition valid_date (date : Date) : Prop :=
  let '(y, m, d) := date in 1 <= m <= 12 ∧ 1 <= d <= month_days y m.

(** ** Years of an era, from 1 March *)

(** The first day of the next year of the era. *)
Definition year_end (yoe : Z) : Z := if yoe =? 399 then 146097 else year_start (yoe + 1).
Lemma year_of_era_spec doe :
  0 <= doe < 146097 →
  0 <= year_of_era doe < 400 ∧ year_start (year_of_era doe) <= doe < year_end (year_of_era doe).
Proof.
  unfold year_end, year_of_era, year_start. intros H. case_match; Z.to_euclidean_division_equations; lia.
Qed.
Lemma year_start_mono a b : 0 <= a <= b → year_start a <= year_start b.
Proof. unfold year_start. intros H. Z.to_euclidean_division_equations. lia. Qed.
Lemma year_of_era_unique doe y :
  0 <= doe < 146097 → 0 <= y < 400 → year_start y <= doe < year_end y → year_of_era doe = y.
Proof.
  intros Hd Hy Hin. destruct (year_of_era_spec doe Hd) as [Hy' Hin']. set (y' := year_of_era doe) in *.
  assert (∀ a b, 0 <= a → a < b < 400 → year_end a <= year_start b) as Hend.
  { intros a b Ha Hb. unfold year_end. destruct (a =? 399) eqn:E; [lia|]. apply year_start_mono. lia. }
  destruct (Z.lt_trichotomy y y') as [Hlt|[Heq|Hlt]]; [|done|].
  - specialize (Hend y y'). lia.
  - specialize (Hend y' y). lia.
Qed.

(** A year from March is a day longer before a leap year's February. *)
Lemma year_length yoe era :
  0 <= yoe < 400 → year_end yoe - year_start yoe = if leap (yoe + era * 400 + 1) then 366 else 365.
Proof.
  intros H. unfold year_end, year_start, leap.
  assert ((yoe + era * 400 + 1) mod 4 = (yoe + 1) mod 4) as -> by (Z.to_euclidean_division_equations; lia).
  assert ((yoe + era * 400 + 1) mod 100 = (yoe + 1) mod 100) as -> by (Z.to_euclidean_division_equations; lia).
  assert ((yoe + era * 400 + 1) mod 400 = (yoe + 1) mod 400) as -> by (Z.to_euclidean_division_equations; lia).
  destruct (Z.eqb_spec yoe 399) as [->|Hne]; [reflexivity|].
  assert (∀ n, 0 < n → (yoe + 1) / n = yoe / n + Z.b2z ((yoe + 1) mod n =? 0)) as Hdiv.
  { intros n Hn. pose proof (Z.div_mod yoe n). pose proof (Z.mod_pos_bound yoe n).
    pose proof (Z.div_mod (yoe + 1) n). pose proof (Z.mod_pos_bound (yoe + 1) n).
    destruct (Z.eqb_spec ((yoe + 1) mod n) 0); simpl; nia. }
  rewrite (Hdiv 4), (Hdiv 100) by lia.
  assert (((yoe + 1) mod 400 =? 0) = false) as -> by (Z.to_euclidean_division_equations; lia).
  assert (((yoe + 1) mod 100 =? 0) = true → ((yoe + 1) mod 4 =? 0) = true) by (Z.to_euclidean_division_equations; lia).
  destruct ((yoe + 1) mod 4 =? 0), ((yoe + 1) mod 100 =? 0); simpl; try lia.
Qed.

(** ** Days of a year, from 1 March *)

Definition date_in_year (y doy : Z) : Date :=
  let mp := (5 * doy + 2) / 153 in
  let d := doy - (153 * mp + 2) / 5 + 1 in
  let m := if mp <? 10 then mp + 3 else mp - 9 in
  (y + Z.b2z (m <=? 2), m, d).
Definition year_days (y : Z) : Z := if leap (y + 1) then 366 else 365.

Ltac month_cases doy :=
  let mp := fresh "mp" in
  let Hmp := fresh "Hmp" in
  assert (0 <= (5 * doy + 2) / 153 <= 11) as Hmp by (Z.to_euclidean_division_equations; lia);
  remember ((5 * doy + 2) / 153) as mp eqn:Emp;
  assert (mp = 0 ∨ mp = 1 ∨ mp = 2 ∨ mp = 3 ∨ mp = 4 ∨ mp = 5 ∨ mp = 6 ∨ mp = 7 ∨ mp = 8 ∨ mp = 9 ∨
          mp = 10 ∨ mp = 11) as Hcases by lia;
  destruct Hcases as [->|[->|[->|[->|[->|[->|[->|[->|[->|[->|[->| ->]]]]]]]]]]].

Lemma date_in_year_valid y doy : 0 <= doy < year_days y → valid_date (date_in_year y doy).
Proof.
  unfold year_days, date_in_year, valid_date. intros H.
  assert (doy < 366) by (case_match; lia).
  month_cases doy; simpl; unfold month_days; simpl; try (Z.to_euclidean_division_equations; lia).
  rewrite (Z.add_comm y 1). rewrite (Z.add_comm 1 y). case_match; Z.to_euclidean_division_equations; lia.
Qed.
Lemma date_in_year_next y doy :
  0 <= doy → doy + 1 < year_days y → date_in_year y (doy + 1) = next_day (date_in_year y doy).
Proof.
  unfold year_days, date_in_year, next_day. intros H0 H.
  assert (doy + 1 < 366) by (case_match; lia).
  assert ((5 * (doy + 1) + 2) / 153 = (5 * doy + 2) / 153 ∨ (5 * (doy + 1) + 2) / 153 = (5 * doy + 2) / 153 + 1)
    as Hnext by (Z.to_euclidean_division_equations; lia).
  remember ((5 * (doy + 1) + 2) / 153) as mp' eqn:Emp'.
  month_cases doy; destruct Hnext as [->| ->]; simpl; unfold month_days; simpl;
    repeat case_match; f_equal; try f_equal; Z.to_euclidean_division_equations; try lia.
Qed.
Lemma date_in_year_last y : next_day (date_in_year y (year_days y - 1)) = date_in_year (y + 1) 0.
Proof.
  unfold year_days, date_in_year, next_day. destruct (leap (y + 1)) eqn:E; simpl; unfold month_days; simpl;
    rewrite E; simpl; f_equal; f_equal; lia.
Qed.

Lemma civil_in_year z :
  let doe := (z + 719468) mod 146097 in
  civil_from_days z =
  date_in_year (year_of_era doe + (z + 719468) / 146097 * 400) (doe - year_start (year_of_era doe)).
Proof.
  cbv zeta. unfold civil_from_days. cbv zeta.
  assert (z + 719468 - (z + 719468) / 146097 * 146097 = (z + 719468) mod 146097) as ->
    by (Z.to_euclidean_division_equations; lia).
  unfold date_in_year. done.
Qed.

Lemma civil_from_days_valid z : valid_date (civil_from_days z).
Proof.
  rewrite civil_in_year. set (doe := (z + 719468) mod 146097).
  assert (0 <= doe < 146097) as Hdoe by (apply Z.mod_pos_bound; lia).
  destruct (year_of_era_spec doe Hdoe) as [Hy Hin]. apply date_in_year_valid.
  pose proof (year_length _ ((z + 719468) / 146097) Hy). unfold year_days. lia.
Qed.

Lemma civil_from_days_next z : civil_from_days (z + 1) = next_day (civil_from_days z).
Proof.
  rewrite !civil_in_year. cbv zeta. set (n := z + 719468). replace (z + 1 + 719468) with (n + 1) by lia.
  assert (0 <= n mod 146097 < 146097) as Hdoe by (apply Z.mod_pos_bound; lia).
  set (doe := n mod 146097) in *. set (era := n / 146097).
  destruct (year_of_era_spec doe Hdoe) as [Hy Hin]. set (y := year_of_era doe) in *.
  pose proof (year_length y era Hy) as Hlen. pose proof (date_in_year_last (y + era * 400)) as Hlast.
  unfold year_days in Hlast.
  destruct (decide (doe + 1 = 146097)) as [Hera|Hera].
  - assert ((n + 1) mod 146097 = 0 ∧ (n + 1) / 146097 = era + 1) as [-> ->]
      by (subst doe era; Z.to_euclidean_division_equations; lia).
    assert (y = 399) as Ey by (apply year_of_era_unique; unfold year_end, year_start; simpl; lia).
    assert (doe - year_start y = (if leap (y + era * 400 + 1) then 366 else 365) - 1) as ->.
    { rewrite <- Hlen. rewrite Ey. unfold year_end. simpl. lia. }
    rewrite Hlast, Ey. change (year_of_era 0) with 0. change (year_start 0) with 0. f_equal. lia.
  - assert ((n + 1) mod 146097 = doe + 1 ∧ (n + 1) / 146097 = era) as [-> ->]
      by (subst doe era; Z.to_euclidean_division_equations; lia).
    destruct (decide (doe + 1 < year_end y)) as [Hlt|Hge].
    + rewrite (year_of_era_unique (doe + 1) y) by lia.
      replace (doe + 1 - year_start y) with (doe - year_start y + 1) by lia.
      apply date_in_year_next; unfold year_days; lia.
    + assert (y ≠ 399) as Hy399 by (intros E; unfold year_end in Hge; rewrite E in Hge; simpl in Hge; lia).
      assert (year_end y = year_start (y + 1)) as Hend by (unfold year_end; destruct (Z.eqb_spec y 399); lia).
      assert (doe + 1 = year_start (y + 1)) as -> by lia.
      rewrite (year_of_era_unique (year_start (y + 1)) (y + 1)); [|lia|lia|].
      * assert (doe - year_start y = (if leap (y + era * 400 + 1) then 366 else 365) - 1) as -> by lia.
        rewrite Hlast. f_equal; lia.
      * pose proof (year_length (y + 1) era). case_match; lia.
Qed.

(** [civil_from_days] is the Gregorian calendar: day 0 is 1970-01-01,
    every answer is a date of the calendar, and the date of the next day is
    the calendar's next date, for all days before and after. *)
Theorem civil_from_days_calendar :
  civil_from_days 0 = (1970, 1, 1) ∧
  ∀ z, valid_date (civil_from_days z) ∧ civil_from_days (z + 1) = next_day (civil_from_days z).
Proof.
  split; [reflexivity|]. intros z. split; [apply civil_from_days_valid|apply civil_from_days_next].
Qed.
