(* ===== verification/Json.v ===== *)
(** * Json: JSON values as the code reads and writes them ([serde_json])

    Values, indexing, and serde's reading of a value into a struct whose
    fields are listed: as an object, and as an array of the fields in
    order, which serde takes as well.  Numbers are kept as their text;
    objects are sorted by key, as [serde_json::Map] keeps them. *)

From S2P Require Import Prelude.
From S2P Require Import Text.

Inductive Json :=
| JNull
| JBool (b : bool)
| JNumber (text : string)
| JString (s : string)
| JArray (l : list Json)
| JObject (fields : list (string * Json)).

(** ** Reading *)

Definition lookup_field (key : string) (fields : list (string * Json)) : option Json :=
  snd <$> List.find (λ f, String.eqb f.1 key) fields.
(** [v[key]]: null when [v] is not an object or has no such key. *)
Definition json_get (key : string) (v : Json) : Json :=
  match v with JObject fields => default JNull (lookup_field key fields) | _ => JNull end.
Definition as_str (v : Json) : option string := match v with JString s => Some s | _ => None end.
Definition as_array (v : Json) : option (list Json) := match v with JArray l => Some l | _ => None end.
Definition as_i64 (v : Json) : option Z := match v with JNumber t => parse_i64 t | _ => None end.
Definition json_u32 (v : Json) : option Z := match v with JNumber t => parse_u32 t | _ => None end.
Definition as_bool (v : Json) : option bool := match v with JBool b => Some b | _ => None end.
Definition is_object (v : Json) : bool := match v with JObject _ => true | _ => false end.
Definition strings (v : Json) : option (list string) := as_array v ≫= mapM as_str.

(** ** Writing *)

Definition key_leb (a b : string) : bool :=
  match String.compare a b with Gt => false | _ => true end.
Fixpoint insert_field (f : string * Json) (fields : list (string * Json)) : list (string * Json) :=
  match fields with
  | [] => [f]
  | g :: rest =>
      if String.eqb f.1 g.1 then f :: rest
      else if key_leb f.1 g.1 then f :: fields else g :: insert_field f rest
  end.
(** [json!({ ... })] *)
Definition obj (fields : list (string * Json)) : Json := JObject (foldl (λ l f, insert_field f l) [] fields).
(** [v[key] = x] on an object. *)
Definition set_field (key : string) (x : Json) (v : Json) : Json :=
  match v with JObject fields => JObject (insert_field (key, x) fields) | _ => v end.
Definition json_opt {A} (f : A → Json) (o : option A) : Json := match o with Some a => f a | None => JNull end.
Definition json_strings (l : list string) : Json := JArray (JString <$> l).
Definition json_int (z : Z) : Json := JNumber (pretty z).

Example obj_ex : obj [("b", JNull); ("a", JBool true); ("b", JString "x")] = JObject [("a", JBool true); ("b", JString "x")].
Proof. reflexivity. Qed.

(** ** A struct's fields, with [deny_unknown_fields]

    A field is listed with whether it has a serde default: in an array
    only those may be missing, at the end. *)

Record Field := mkField { f_name : string; f_default : bool }.
Definition field (n : string) : Field := mkField n false.
Definition defaulted (n : string) : Field := mkField n true.

Definition Fields : Type := string → option Json.
Fixpoint array_fields (fs : list Field) (l : list Json) : Fields := λ n,
  match fs, l with
  | f :: fs, v :: l => if String.eqb (f_name f) n then Some v else array_fields fs l n
  | _, _ => None
  end.
Definition struct_fields (fs : list Field) (v : Json) : option Fields :=
  match v with
  | JObject fields =>
      if forallb (λ f, List.existsb (λ g, String.eqb (f_name g) f.1) fs) fields
      then Some (λ n, lookup_field n fields) else None
  | JArray l =>
      if (length l <=? length fs) && forallb f_default (drop (length l) fs)
      then Some (array_fields fs l) else None
  | _ => None
  end.

Section readers.
Context {A : Type} (read : Json → option A).

Definition required (f : Fields) (n : string) : option A := f n ≫= read.
(** An [Option] field: missing or null is none. *)
Definition optional (f : Fields) (n : string) : option (option A) :=
  match f n with None | Some JNull => Some None | Some v => Some <$> read v end.
Definition with_default (d : A) (f : Fields) (n : string) : option A :=
  match f n with None => Some d | Some v => read v end.
End readers.

(** [arguments] as a tool takes them: null is an object with no field. *)
Definition or_empty (v : Json) : Json := match v with JNull => JObject [] | _ => v end.

(** An object's list of strings is what indexing it finds. *)
Lemma required_strings_get fs fields f n l :
  struct_fields fs (JObject fields) = Some f → required strings f n = Some l →
  omap as_str (default [] (as_array (json_get n (JObject fields)))) = l.
Proof.
  cbn. case_match; [|done]. intros [= <-]. unfold required. cbn.
  destruct (lookup_field n fields) as [v|]; [|done]. cbn. unfold strings.
  destruct v as [| | | |vs|]; try done. cbn. clear. revert l.
  induction vs as [|v vs IH]; intros l; cbn; [by intros [= <-]|].
  destruct v; try done. cbn. destruct (mapM as_str vs) as [l'|] eqn:E; [|done].
  cbn. intros [= <-]. f_equal. by apply IH.
Qed.
