(* ===== verification/Guide.v ===== *)
(** * Guide: the writing guide and the facts about the user
    ([crates/writing-guide], [kaluta-core/src/guide_render.rs],
    [kaluta-core/src/facts.rs])

    The accepted guide rendered for a message, the checks an AI draft is put
    through, the audiences recipients belong to, plain or as salted hashes,
    the facts drafting may see, and the snapshot an agent mailbox publishes.
    [to_lowercase], [char::is_alphanumeric] and SHA-256 are parameters. *)

From Stdlib Require Import Ascii.
From S2P Require Import Prelude.
From S2P Require Import Domain.
From S2P Require Import Text.
From S2P Require Import Json.

(** ** Data *)

Inductive Kind := Rule | Guideline | FactEntry.
#[export] Instance kind_eq_dec : EqDecision Kind.
Proof. solve_decision. Defined.

(** Where an entry applies; empty everywhere means always. *)
Record Scope := mkScope {
  sc_groups : list string; sc_people : list string; sc_message_types : list string; sc_languages : list string }.
Definition scope_default : Scope := mkScope [] [] [] [].
Definition with_people (people : list string) (s : Scope) : Scope :=
  mkScope (sc_groups s) people (sc_message_types s) (sc_languages s).

Inductive CheckKind := BannedPhrase | RequiredPhrase | MaxWords.
Record GuideCheck := mkCheck { ck_kind : CheckKind; ck_value : string }.

Record Entry := mkEntry {
  en_id : Z; en_category : string; en_kind : Kind; en_statement : string; en_scope : Scope;
  en_check : option GuideCheck }.
Definition with_scope (s : Scope) (e : Entry) : Entry :=
  mkEntry (en_id e) (en_category e) (en_kind e) (en_statement e) s (en_check e).

Record Target := mkTarget {
  tg_recipients : list string; tg_message_type : option string; tg_audiences : option (list string) }.
Record Rendered := mkRendered { re_text : string; re_version : Z; re_audiences : list string }.
Record CheckFailure := mkFailure { cf_entry_id : Z; cf_statement : string; cf_message : string }.

Record AudienceGroup := mkGroup { au_name : string; au_members : list string }.
Record AudienceGroups := mkGroups { gs_salt : option string; gs_groups : list AudienceGroup }.
Definition groups_default : AudienceGroups := mkGroups None [].
Definition plain (groups : list AudienceGroup) : AudienceGroups := mkGroups None groups.
Definition is_hashed (g : AudienceGroups) : bool := match gs_salt g with Some _ => true | None => false end.

(** A fact drafting may use. *)
Record Fact := mkFact {
  fa_category_key : string; fa_category : string; fa_label : string; fa_value : string; fa_ask : bool }.

(** ** Facts *)

(** Every [<] becomes [‹]. *)
Definition fenced (s : string) : string := replace "<" "‹" s.

Definition fact_line (f : Fact) : string :=
  let fact := fenced (fa_category f +:+ " › " +:+ fa_label f +:+ ": " +:+ fa_value f) in
  if fa_ask f then "- " +:+ fact +:+ " (ask the user before using this)" else "- " +:+ fact.
Definition fact_lines (facts : list Fact) : list string := fact_line <$> facts.

Definition NL : string := String "010" "".
Definition with_facts (text : string) (lines : list string) : string :=
  match lines with
  | [] => text
  | _ =>
      let section := NL +:+ "Facts about the user you may use (use only these; never invent others):" +:+ NL +:+
                     join NL lines +:+ NL in
      if String.eqb text "" then trim_start section else text +:+ section
  end.

(** ** Scopes *)

Definition is_empty {A} (l : list A) : bool := match l with [] => true | _ => false end.

(** A narrower scope first: people, audiences, message types, everyone. *)
Definition narrowness (s : Scope) : Z :=
  if negb (is_empty (sc_people s)) then 0
  else if negb (is_empty (sc_groups s)) then 1
  else if negb (is_empty (sc_message_types s)) || negb (is_empty (sc_languages s)) then 2
  else 3.

Definition scope_part (before sep : string) (l : list string) : list string :=
  if is_empty l then [] else [before +:+ join sep l].
Definition scope_text (s : Scope) : string :=
  join "; " (scope_part "for " ", " (sc_groups s) ++ scope_part "to " ", " (sc_people s) ++
             scope_part "in " ", " (sc_message_types s) ++
             scope_part "when writing in " " or " (sc_languages s)).

(** [sort_by_key (narrowness, category, id)], which is stable. *)
Definition entry_before (a b : Entry) : comparison :=
  match Z.compare (narrowness (en_scope a)) (narrowness (en_scope b)) with
  | Eq => match String.compare (en_category a) (en_category b) with
          | Eq => Z.compare (en_id a) (en_id b)
          | c => c
          end
  | c => c
  end.
Definition entry_le (a b : Entry) : Prop := entry_before a b ≠ Gt.
#[export] Instance entry_le_dec : RelDecision entry_le.
Proof. intros a b. unfold entry_le. apply _. Defined.

(** ** The facts of the account and of every account *)

Inductive FactUse := Free | Ask | Never.
Inductive FactStatus := FactProposed | FactAccepted | FactRejected.
Inductive FactScope := AccountFact | GlobalFact.
#[export] Instance fact_use_eq_dec : EqDecision FactUse.
Proof. solve_decision. Defined.
#[export] Instance fact_status_eq_dec : EqDecision FactStatus.
Proof. solve_decision. Defined.
#[export] Instance fact_scope_eq_dec : EqDecision FactScope.
Proof. solve_decision. Defined.

(** [FactInfo], the columns drafting reads. *)
Record FactInfo := mkFactInfo {
  fi_category : string; fi_label : string; fi_value : string; fi_use : FactUse; fi_status : FactStatus;
  fi_overridden : bool }.
#[export] Instance fact_info_eq_dec : EqDecision FactInfo.
Proof. solve_decision. Defined.
Record FactCategory := mkFactCategory { fc_key : string; fc_name : string; fc_hidden : bool }.

Definition shared (f : FactInfo) (category : string) : option Fact :=
  if bool_decide (fi_use f ≠ Never)
  then Some (mkFact (fi_category f) category (fi_label f) (fi_value f) (bool_decide (fi_use f = Ask)))
  else None.
Definition shares_with_cloud (use : FactUse) (scope : FactScope) (choice : option bool) : bool :=
  bool_decide (use ≠ Never) &&
  default (bool_decide (use = Free) && bool_decide (scope = AccountFact)) choice.

Definition accepted_fact (f : FactInfo) : bool := bool_decide (fi_status f = FactAccepted).
Definition overrides (g m : FactInfo) : bool :=
  accepted_fact m && String.eqb (fi_category m) (fi_category g) && nocase_eqb (fi_label m) (fi_label g).
Definition set_overridden (mine : list FactInfo) (g : FactInfo) : FactInfo :=
  mkFactInfo (fi_category g) (fi_label g) (fi_value g) (fi_use g) (fi_status g)
    (accepted_fact g && List.existsb (overrides g) mine).
Definition list_facts (mine global : list FactInfo) : list FactInfo := mine ++ (set_overridden mine <$> global).

Definition category_name (categories : list FactCategory) (key : string) : string :=
  default "Other" (fc_name <$> List.find (λ c, String.eqb (fc_key c) key) categories).
Definition hidden_category (categories : list FactCategory) (key : string) : bool :=
  List.existsb (λ c, String.eqb (fc_key c) key && fc_hidden c) categories.
Definition usable (categories : list FactCategory) (facts : list FactInfo) : list Fact :=
  omap (λ f, shared f (category_name categories (fi_category f)))
    (List.filter (λ f, negb (hidden_category categories (fi_category f)))
       (List.filter (λ f, accepted_fact f && negb (fi_overridden f)) facts)).

(** ** Audiences *)

Section guide.
Context (to_lowercase : string → string) (is_alphanumeric : string → bool) (sha256 : string → string).

(** An address as it is compared. *)
Definition normal (a : string) : string := to_lowercase (trim a).

Definition is_member (address : string) (members : list string) : bool :=
  let a := normal address in
  List.existsb (λ m, let m := normal m in
                     match strip_prefix "@" m with
                     | Some d => ends_with ("@" +:+ d) a
                     | None => String.eqb a m
                     end) members.

Definition is_hex_digit (a : Ascii.ascii) : bool :=
  let n := Ascii.N_of_ascii (ascii_lower_char a) in
  ((48 <=? n) && (n <=? 57) || (97 <=? n) && (n <=? 102))%N.
Definition is_hash (s : string) : bool := (String.length s =? 64) && string_all is_hex_digit s.

(** [format!("{b:02x}")] of every byte. *)
Definition hex_digit (n : N) : Ascii.ascii := Ascii.ascii_of_N (if (n <? 10)%N then n + 48 else n + 87).
Fixpoint hex (s : string) : string :=
  match s with
  | EmptyString => ""
  | String a s => let n := Ascii.N_of_ascii a in
                  String (hex_digit (n / 16)) (String (hex_digit (n mod 16)) (hex s))
  end.
Definition hash_address (salt address : string) : string :=
  hex (sha256 (salt +:+ String "000" (normal address))).

Definition hash_group (salt : string) (g : AudienceGroup) : AudienceGroup :=
  mkGroup (au_name g) (hash_address salt <$> au_members g).
Definition hashed (salt : string) (gs : AudienceGroups) : AudienceGroups :=
  if is_hashed gs then gs else mkGroups (Some salt) (hash_group salt <$> gs_groups gs).

(** The hashes a recipient is looked up by: its own and its domain's. *)
Definition address_keys (salt address : string) : list string :=
  let a := normal address in
  hash_address salt a ::
  match rsplit_once "@" a with Some (_, domain) => [hash_address salt ("@" +:+ domain)] | None => [] end.
Definition matches (gs : AudienceGroups) (address : string) (members : list string) : bool :=
  match gs_salt gs with
  | None => is_member address members
  | Some salt => List.existsb (λ m, List.existsb (nocase_eqb m) (address_keys salt address)) members
  end.
Definition group_contains (gs : AudienceGroups) (g : AudienceGroup) (address : string) : bool :=
  matches gs address (au_members g).
Definition audiences_of (gs : AudienceGroups) (recipients : list string) : list string :=
  au_name <$> List.filter (λ g, List.existsb (group_contains gs g) recipients) (gs_groups gs).
Definition audiences_in (t : Target) (gs : AudienceGroups) : list string :=
  default (audiences_of gs (tg_recipients t)) (tg_audiences t).

(** ** Where an entry applies *)

Definition applies_in (s : Scope) (t : Target) (audiences : list string) (gs : AudienceGroups) : bool :=
  let people := is_empty (sc_people s) || List.existsb (λ r, matches gs r (sc_people s)) (tg_recipients t) in
  let groups := is_empty (sc_groups s) ||
                List.existsb (λ g, List.existsb (λ a, nocase_eqb a g) audiences) (sc_groups s) in
  let types := is_empty (sc_message_types s) ||
               match tg_message_type t with
               | Some ty => List.existsb (String.eqb ty) (sc_message_types s)
               | None => false
               end in
  people && groups && types.
Definition applies (s : Scope) (t : Target) (audiences : list string) : bool :=
  applies_in s t audiences groups_default.

(** ** Rendering *)

(** The recipients a hashed scope matched, in its place. *)
Definition line_scope (gs : AudienceGroups) (target : option Target) (e : Entry) : string :=
  match target with
  | Some t =>
      if is_hashed gs && negb (is_empty (sc_people (en_scope e)))
      then scope_text (with_people (normal <$> List.filter (λ r, matches gs r (sc_people (en_scope e)))
                                      (tg_recipients t)) (en_scope e))
      else scope_text (en_scope e)
  | None => scope_text (en_scope e)
  end.
Definition line (gs : AudienceGroups) (target : option Target) (e : Entry) : string :=
  let scope := line_scope gs target e in
  if String.eqb scope "" then "- " +:+ en_statement e else "- " +:+ en_statement e +:+ " (" +:+ scope +:+ ")".

Definition shown (gs : AudienceGroups) (target : option Target) (e : Entry) : bool :=
  negb (is_hashed gs) || is_empty (sc_people (en_scope e)) ||
  match target with
  | Some t => List.existsb (λ r, matches gs r (sc_people (en_scope e))) (tg_recipients t)
  | None => false
  end.
Definition chosen (gs : AudienceGroups) (target : option Target) (audiences : list string)
    (accepted : list Entry) (kind : Kind) (narrow : bool) : list Entry :=
  merge_sort entry_le
    (List.filter (shown gs target)
       (List.filter (λ e, negb narrow || match target with
                                         | Some t => applies_in (en_scope e) t audiences gs
                                         | None => true
                                         end)
          (List.filter (λ e, bool_decide (en_kind e = kind)) accepted))).
Definition by_kind (gs : AudienceGroups) (target : option Target) (audiences : list string)
    (accepted : list Entry) (kind : Kind) (narrow : bool) : list string :=
  line gs target <$> chosen gs target audiences accepted kind narrow.

Definition about_message (audiences : list string) (target : option Target) : string :=
  match target with
  | Some t =>
      let about := (if is_empty audiences then [] else ["written for " +:+ join ", " audiences]) ++
                   match tg_message_type t with
                   | Some kind => ["a " +:+ (if String.eqb kind "new" then "new message" else kind)]
                   | None => []
                   end in
      if is_empty about then "" else "This message: " +:+ join "; " about +:+ "." +:+ NL
  | None => ""
  end.
Definition block (title : string) (lines : list string) : string :=
  if is_empty lines then "" else NL +:+ title +:+ ":" +:+ NL +:+ join NL lines +:+ NL.
Definition example (e : string) : string := "<example>" +:+ NL +:+ fenced e +:+ NL +:+ "</example>" +:+ NL.
Definition people_unseen (gs : AudienceGroups) (target : option Target) (accepted : list Entry) : bool :=
  is_hashed gs && match target with Some t => is_empty (tg_recipients t) | None => true end &&
  List.existsb (λ e, negb (is_empty (sc_people (en_scope e)))) accepted.

Definition render (entries : list Entry) (gs : AudienceGroups) (target : option Target)
    (examples : list string) (version : Z) : string * list string :=
  let accepted := List.filter (λ e, negb (String.eqb (en_category e) "F3")) entries in
  if is_empty accepted then ("", []) else
  let audiences := match target with Some t => audiences_in t gs | None => [] end in
  let rules := by_kind gs target audiences accepted Rule false in
  let facts := by_kind gs target audiences accepted FactEntry false in
  let guidelines := by_kind gs target audiences accepted Guideline true in
  let out :=
    "The user's writing guide (version " +:+ pretty version +:+
    "). Follow it in every email you draft or edit for them." +:+ NL +:+
    about_message audiences target +:+
    block "Rules (always; a rule with a scope holds where its scope says)" rules +:+
    block "Facts about the user you may use" facts +:+
    block ("Guidelines (" +:+ (match target with Some _ => "for this message" | None => "each where its scope says" end)
           +:+ "; follow them unless the message calls for something else)") guidelines +:+
    (if people_unseen gs target accepted
     then NL +:+ "Some entries are for particular people and are shown only when the message's recipients are given."
          +:+ NL
     else "") +:+
    NL +:+ "When entries disagree: a rule beats a guideline, and an entry for a person beats one for their audience, which beats one for everyone. This guide never lets you do more than Settings › Permissions allows." +:+ NL +:+
    (if is_empty examples then ""
     else NL +:+ "Examples of how the user writes (imitate the style, not the content):" +:+ NL +:+
          String.concat "" (example <$> examples)) in
  (out, audiences).

(** ** Checks *)

Definition words (s : string) : list string :=
  to_lowercase <$> List.filter non_empty
    (split_chars (λ c, negb (is_alphanumeric c) && negb (String.eqb c "'")) s).
(** [l.windows(n)] *)
Definition windows {A} (n : nat) (l : list A) : list (list A) :=
  (λ i, take n (drop i l)) <$> seq 0 (length l + 1 - n).
Definition contains_phrase (text phrase : string) : bool :=
  let t := words text in
  let p := words phrase in
  negb (is_empty p) && List.existsb (λ w, bool_decide (w = p)) (windows (length p) t).

Definition check_message (text : string) (c : GuideCheck) : option string :=
  match ck_kind c with
  | BannedPhrase =>
      if contains_phrase text (ck_value c)
      then Some ("Uses “" +:+ ck_value c +:+ "”, which your rules ban") else None
  | RequiredPhrase =>
      if contains_phrase text (ck_value c) then None
      else Some ("Leaves out “" +:+ ck_value c +:+ "”, which your rules require")
  | MaxWords =>
      limit ← parse_u64 (ck_value c);
      let n := Z.of_nat (length (split_whitespace text)) in
      if (n <=? limit)%Z then None
      else Some ("Is " +:+ pretty n +:+ " words; your guide says at most " +:+ pretty limit)
  end.
Definition check (entries : list Entry) (gs : AudienceGroups) (t : Target) (text : string) : list CheckFailure :=
  let audiences := audiences_in t gs in
  omap (λ e, c ← en_check e;
             message ← check_message text c;
             Some (mkFailure (en_id e) (en_statement e) message))
    (List.filter (λ e, is_empty (sc_languages (en_scope e)))
       (List.filter (λ e, applies_in (en_scope e) t audiences gs) entries)).

(** ** [facts_lookup] *)

Definition fact_json (f : Fact) : Json :=
  obj [("category", JString (fa_category f)); ("label", JString (fa_label f)); ("value", JString (fa_value f));
       ("ask_before_using", JBool (fa_ask f))].
Definition facts_lookup (facts : list Fact) (category query : option string) : Json :=
  let want := to_lowercase <$> category in
  let q := match to_lowercase <$> query with
           | Some q => if String.eqb (trim q) "" then None else Some q
           | None => None
           end in
  let in_category f := match want with
                       | Some w => String.eqb w (to_lowercase (fa_category_key f)) ||
                                   String.eqb w (to_lowercase (fa_category f))
                       | None => true
                       end in
  let about f := match q with
                 | Some q => contains q (to_lowercase (fa_category f +:+ " " +:+ fa_label f +:+ " " +:+ fa_value f))
                 | None => true
                 end in
  obj [("facts", JArray (fact_json <$> List.filter about (List.filter in_category facts)))].
(** [lookup_json]: what an agent's call is answered with. *)
Definition lookup_json (facts : list FactInfo) (categories : list FactCategory) (category query : option string) : Json :=
  facts_lookup (usable categories facts) category query.

(** ** The published snapshot *)

Definition SCHEMA_VERSION : Z := 1.
Record Mailbox := mkMailbox { mx_address : string; mx_name : string; mx_about : string }.
Record Snapshot := mkSnapshot {
  sn_version : Z; sn_guide_version : Z; sn_published_at : Millis; sn_mailbox : Mailbox;
  sn_entries : list Entry; sn_audiences : AudienceGroups; sn_facts : list Fact }.

Inductive SnapshotError := Malformed (e : string) | UnsupportedSchema (v : Z) | MissingSchema | PlainAddresses.

Definition addresses (s : Snapshot) : list string :=
  (gs_groups (sn_audiences s) ≫= au_members) ++ (sn_entries s ≫= (λ e, sc_people (en_scope e))).
(** [from_json] of a JSON value, given serde's reading of a snapshot. *)
Definition read_snapshot (parse : Json → result string Snapshot) (v : Json) : result SnapshotError Snapshot :=
  match json_get "schema_version" v with
  | JNumber n =>
      match parse_u64 n with
      | Some n =>
          if (n =? SCHEMA_VERSION)%Z then
            s ← map_err Malformed (parse v);
            if List.existsb (λ a, negb (is_hashed (sn_audiences s)) || negb (is_hash a)) (addresses s)
            then Err PlainAddresses else Ok s
          else Err (UnsupportedSchema n)
      | None => Err MissingSchema
      end
  | _ => Err MissingSchema
  end.

Definition hash_people (salt : string) (e : Entry) : Entry :=
  with_scope (with_people (hash_address salt <$> sc_people (en_scope e)) (en_scope e)) e.
Definition hashed_snapshot (salt : string) (s : Snapshot) : Snapshot :=
  if is_hashed (sn_audiences s) then s else
  mkSnapshot (sn_version s) (sn_guide_version s) (sn_published_at s) (sn_mailbox s)
    (hash_people salt <$> sn_entries s) (hashed salt (sn_audiences s)) (sn_facts s).

Definition snapshot_guide (s : Snapshot) (target : option Target) : Rendered :=
  let '(text, audiences) := render (sn_entries s) (sn_audiences s) target [] (sn_guide_version s) in
  mkRendered (with_facts text (fact_lines (sn_facts s))) (sn_guide_version s) audiences.
Definition snapshot_check (s : Snapshot) (t : Target) (text : string) : list CheckFailure :=
  check (sn_entries s) (sn_audiences s) t text.
End guide.

Definition ascii_alphanumeric (c : string) : bool :=
  match c with
  | String a "" => let n := Ascii.N_of_ascii (ascii_lower_char a) in
                   ((48 <=? n) && (n <=? 57) || (97 <=? n) && (n <=? 122))%N
  | _ => false
  end.
Example phrases : contains_phrase ascii_lower ascii_alphanumeric "Let's Circle back." "circle back" = true ∧
  contains_phrase ascii_lower ascii_alphanumeric "The encircle backstory" "circle back" = false.
Proof. vm_compute. done. Qed.

(** * What the writing guide promises

    A published snapshot, which holds hashes in place of addresses, is
    accepted by its reader and checks a draft as the app does; what an agent
    is told of the user's facts is what the user lets it see. *)

(** ** Hashes are lower-case hex *)

Lemma hex_digits n : (n < 16)%N →
  is_hex_digit (hex_digit n) = true ∧ ascii_lower_char (hex_digit n) = hex_digit n.
Proof.
  intros Hn. replace n with (N.of_nat (N.to_nat n)) by lia.
  assert (N.to_nat n < 16) as Hlt by lia. generalize dependent (N.to_nat n). clear.
  intros m Hm. do 16 (destruct m as [|m]; [done|]). lia.
Qed.

Lemma hex_spec s :
  String.length (hex s) = 2 * String.length s ∧ string_all is_hex_digit (hex s) = true ∧
  ascii_lower (hex s) = hex s.
Proof.
  induction s as [|a s (IH1 & IH2 & IH3)]; [done|].
  assert (Ascii.N_of_ascii a < 256)%N as Ha by apply Ascii.N_ascii_bounded.
  destruct (hex_digits (Ascii.N_of_ascii a / 16)) as [H1 H2]; [apply N.Div0.div_lt_upper_bound; lia|].
  destruct (hex_digits (Ascii.N_of_ascii a mod 16)) as [H3 H4]; [by apply N.mod_lt|].
  cbn [hex String.length ascii_lower]. unfold string_all in *. cbn [String.list_ascii_of_string forallb].
  rewrite H1, H2, H3, H4, IH2, IH3. split_and!; [lia|done..].
Qed.

(** ** Ends of strings *)

Lemma strip_prefix_app p s : strip_prefix p (p +:+ s) = Some s.
Proof. induction p as [|a p IH]; [done|]. change (String a p +:+ s) with (String a (p +:+ s)). cbn. by rewrite Ascii.eqb_refl. Qed.
Lemma strip_prefix_some p s r : strip_prefix p s = Some r → s = p +:+ r.
Proof.
  revert s. induction p as [|a p IH]; intros s; cbn; [by intros [= ->]|].
  destruct s as [|b s]; [done|]. destruct (Ascii.eqb_spec a b) as [->|]; [|done].
  intros ->%IH. done.
Qed.

Lemma ends_with_spec p s : ends_with p s = true ↔ ∃ x, s = x +:+ p.
Proof.
  unfold ends_with, starts_with. split.
  - destruct (strip_prefix _ _) as [r|] eqn:E; [|done]. apply strip_prefix_some in E. intros _.
    exists (string_rev_of r). rewrite <- (string_rev_rev s), E, string_rev_app. by rewrite string_rev_rev.
  - intros [x ->]. by rewrite string_rev_app, strip_prefix_app.
Qed.

(** What stands after the last [c] is an ending without [c]. *)
Lemma rsplit_once_some c s x y : rsplit_once c s = Some (x, y) → s = x +:+ String c y ∧ has_char c y = false.
Proof.
  revert x. induction s as [|a s IH]; intros x; cbn; [done|].
  destruct (rsplit_once c s) as [[x' y']|] eqn:E.
  - intros [= <- ->]. destruct (IH x' eq_refl) as [-> Hy]. done.
  - destruct (Ascii.eqb_spec a c) as [->|]; [|done]. intros [= <- <-]. split; [done|].
    destruct (has_char c s) eqn:Hs; [|done]. exfalso. clear IH. unfold has_char in Hs.
    induction s as [|b s IHs]; [done|]. cbn in *. destruct (rsplit_once c s) as [[]|]; [done|].
    rewrite Ascii.eqb_sym in Hs. destruct (Ascii.eqb b c); [done|]. by apply IHs.
Qed.

(** ** Hashed members match as plain ones do *)

Section published.
Context (to_lowercase : string → string) (is_alphanumeric : string → bool) (sha256 : string → string).
Context (salt : string).
#[local] Abbreviation normal := (normal to_lowercase).
#[local] Abbreviation hash := (hash_address to_lowercase sha256 salt).

(** The strings a recipient is looked up by. *)
Definition looked_up (r : string) : list string :=
  normal r :: match rsplit_once "@" (normal r) with Some (_, d) => ["@" +:+ d] | None => [] end.
(** A member with at most one [@] at its front: an address or a domain. *)
Definition one_domain (m : string) : bool :=
  match strip_prefix "@" (normal m) with Some d => negb (has_char "@" d) | None => true end.

(** SHA-256 digests have 32 bytes. *)
Definition digest : Prop := ∀ s, String.length (sha256 s) = 32.
(** What recipients are compared by is already trimmed and lower case. *)
Definition settled (recipients : list string) : Prop :=
  ∀ r x, r ∈ recipients → x ∈ looked_up r → normal x = x.
(** No member's hash is by accident that of a string looked up. *)
Definition no_collision (members recipients : list string) : Prop :=
  ∀ m r x, m ∈ members → r ∈ recipients → x ∈ looked_up r → hash m = hash x → normal m = normal x.

Lemma settled_dec recipients :
  forallb (λ r, forallb (λ x, String.eqb (normal x) x) (looked_up r)) recipients = true → settled recipients.
Proof.
  rewrite forallb_forall. intros Hall r x Hr Hx. specialize (Hall r (proj1 (list_elem_of_In _ _) Hr)).
  rewrite forallb_forall in Hall. by apply String.eqb_eq, Hall, list_elem_of_In.
Qed.
Lemma no_collision_dec members recipients :
  forallb (λ r, forallb (λ x, forallb (λ m, implb (String.eqb (hash m) (hash x)) (String.eqb (normal m) (normal x)))
                                members) (looked_up r)) recipients = true → no_collision members recipients.
Proof.
  rewrite forallb_forall. intros Hall m r x Hm Hr Hx Heq. specialize (Hall r (proj1 (list_elem_of_In _ _) Hr)).
  rewrite forallb_forall in Hall. specialize (Hall x (proj1 (list_elem_of_In _ _) Hx)).
  rewrite forallb_forall in Hall. specialize (Hall m (proj1 (list_elem_of_In _ _) Hm)).
  rewrite Heq, String.eqb_refl in Hall. by apply String.eqb_eq.
Qed.

Lemma hash_is_hash : digest → ∀ a, is_hash (hash a) = true ∧ ascii_lower (hash a) = hash a.
Proof.
  intros Hd a. unfold is_hash, hash_address.
  destruct (hex_spec (sha256 (salt +:+ String "000" (normal a)))) as (Hl & Hx & Ha).
  rewrite Hl, Hd, Hx. done.
Qed.

(** The plain comparison, as a fact about the strings looked up. *)
Lemma member_plain r m : one_domain m = true →
  match strip_prefix "@" (normal m) with
  | Some d => ends_with ("@" +:+ d) (normal r)
  | None => String.eqb (normal r) (normal m)
  end = bool_decide (normal m ∈ looked_up r).
Proof.
  unfold one_domain, looked_up. destruct (strip_prefix "@" (normal m)) as [d|] eqn:Em.
  - apply strip_prefix_some in Em. intros Hd%negb_true_iff. rewrite Em. apply eq_true_iff_eq.
    rewrite ends_with_spec, bool_decide_eq_true. split.
    + intros [x Hx]. rewrite Hx. change ("@" +:+ d) with (String "@" d).
      rewrite rsplit_once_app by done. set_solver.
    + rewrite elem_of_cons. intros [Hr|Hr]; [by exists ""|].
      destruct (rsplit_once "@" (normal r)) as [[x y]|] eqn:E; [|set_solver].
      apply rsplit_once_some in E as [E _]. apply list_elem_of_singleton in Hr. rewrite Hr. by exists x.
  - intros _. apply eq_true_iff_eq. rewrite String.eqb_eq, bool_decide_eq_true, elem_of_cons. split; [by left|].
    intros [Hr|Hr]; [done|]. destruct (rsplit_once "@" (normal r)) as [[x y]|]; [|set_solver].
    apply list_elem_of_singleton in Hr. rewrite Hr, strip_prefix_app in Em. done.
Qed.

Lemma address_keys_looked_up r : address_keys to_lowercase sha256 salt r = hash <$> looked_up r.
Proof. unfold address_keys, looked_up. cbn. by destruct (rsplit_once _ _) as [[]|]. Qed.

Lemma member_hashed r m : digest → settled [r] → no_collision [m] [r] →
  List.existsb (nocase_eqb (hash m)) (address_keys to_lowercase sha256 salt r) =
  bool_decide (normal m ∈ looked_up r).
Proof.
  intros Hd Hs Hc. rewrite address_keys_looked_up. apply eq_true_iff_eq.
  rewrite bool_decide_eq_true, existsb_exists. unfold nocase_eqb. split.
  - intros (k & Hk & Heq). apply bool_decide_eq_true in Heq.
    apply list_elem_of_In, list_elem_of_fmap in Hk as (x & -> & Hx).
    rewrite (proj2 (hash_is_hash Hd m)), (proj2 (hash_is_hash Hd x)) in Heq.
    rewrite (Hc m r x) by (done || set_solver). by rewrite (Hs r x) by (done || set_solver).
  - intros Hm. exists (hash m). split; [|by apply bool_decide_eq_true].
    apply list_elem_of_In, list_elem_of_fmap. exists (normal m). split; [|done].
    unfold hash_address. by rewrite (Hs r (normal m)) by (done || set_solver).
Qed.

Lemma matches_hashed gs r members : digest → settled [r] → no_collision members [r] →
  forallb one_domain members = true →
  matches to_lowercase sha256 (mkGroups (Some salt) gs) r (hash <$> members) = is_member to_lowercase r members.
Proof.
  intros Hd Hs Hc Hok. unfold matches, is_member. cbn [gs_salt].
  induction members as [|m members IH]; [done|]. cbn [fmap list_fmap List.existsb].
  cbn [forallb] in Hok. apply andb_true_iff in Hok as [Hm Hok].
  rewrite member_hashed, member_plain by (done || (intros ????; apply Hc; set_solver)).
  f_equal. apply IH; [intros ????; apply Hc; set_solver|done].
Qed.

(** ** A published snapshot answers as the app *)

Record publishable (s : Snapshot) (recipients : list string) : Prop := {
  pb_plain : gs_salt (sn_audiences s) = None;
  pb_members : forallb one_domain (addresses s) = true;
  pb_settled : settled recipients;
  pb_collision : no_collision (addresses s) recipients }.

Lemma forallb_mono {A} (p : A → bool) (l k : list A) : (∀ x, x ∈ k → x ∈ l) → forallb p l = true → forallb p k = true.
Proof. rewrite !forallb_forall. intros Hsub Hl x Hx%list_elem_of_In. apply Hl, list_elem_of_In; auto. Qed.

Section snapshot.
Context (s : Snapshot) (recipients : list string) (Hd : digest) (Hp : publishable s recipients).

Lemma snapshot_matches gs r members : r ∈ recipients → (∀ m, m ∈ members → m ∈ addresses s) →
  matches to_lowercase sha256 (mkGroups (Some salt) gs) r (hash <$> members) =
  matches to_lowercase sha256 (sn_audiences s) r members.
Proof.
  destruct Hp as [H1 H2 H3 H4]. intros Hr Hm. unfold matches at 2. rewrite H1.
  apply matches_hashed; [done| | |].
  - intros r' x ->%list_elem_of_singleton. by apply H3.
  - intros m r' x Hin ->%list_elem_of_singleton. apply H4; auto.
  - by eapply forallb_mono.
Qed.

Lemma existsb_ext_in {A} (p q : A → bool) l : (∀ x, x ∈ l → p x = q x) → List.existsb p l = List.existsb q l.
Proof.
  induction l as [|x l IH]; intros Hpq; [done|]. cbn. rewrite (Hpq x) by set_solver. f_equal.
  apply IH. set_solver.
Qed.

Lemma audiences_hashed :
  audiences_of to_lowercase sha256 (hashed to_lowercase sha256 salt (sn_audiences s)) recipients =
  audiences_of to_lowercase sha256 (sn_audiences s) recipients.
Proof.
  unfold hashed, is_hashed. pose proof (pb_plain _ _ Hp) as Hn. rewrite Hn. unfold audiences_of. cbn [gs_groups].
  assert (∀ g, g ∈ gs_groups (sn_audiences s) → ∀ m, m ∈ au_members g → m ∈ addresses s) as Hin.
  { intros g Hg m Hm. unfold addresses. apply elem_of_app. left. apply list_elem_of_bind. eauto. }
  generalize (hash_group to_lowercase sha256 salt <$> gs_groups (sn_audiences s)) at 1 as all. intros all.
  revert Hin. induction (gs_groups (sn_audiences s)) as [|g l IH]; intros Hin; [done|].
  rewrite fmap_cons. cbn [List.filter].
  assert (List.existsb (group_contains to_lowercase sha256 (mkGroups (Some salt) all)
                          (hash_group to_lowercase sha256 salt g)) recipients =
          List.existsb (group_contains to_lowercase sha256 (sn_audiences s) g) recipients) as ->.
  { apply existsb_ext_in. intros r Hr. apply snapshot_matches; [done|]. apply Hin. set_solver. }
  destruct (List.existsb _ recipients); rewrite ?fmap_cons, IH by (intros ? ?; apply Hin; set_solver); done.
Qed.

Lemma applies_hashed gs t audiences e : tg_recipients t = recipients → e ∈ sn_entries s →
  applies_in to_lowercase sha256 (en_scope (hash_people to_lowercase sha256 salt e)) t audiences
    (mkGroups (Some salt) gs) =
  applies_in to_lowercase sha256 (en_scope e) t audiences (sn_audiences s).
Proof.
  intros Ht He. unfold applies_in. cbn. f_equal. f_equal. f_equal.
  - by destruct (sc_people (en_scope e)).
  - apply existsb_ext_in. rewrite Ht. intros r Hr. apply (snapshot_matches gs r (sc_people (en_scope e))); [done|].
    intros m Hm. unfold addresses. apply elem_of_app. right. apply list_elem_of_bind. eauto.
Qed.

Lemma addresses_hashed a : a ∈ addresses (hashed_snapshot to_lowercase sha256 salt s) → is_hash a = true.
Proof.
  unfold hashed_snapshot, is_hashed. rewrite (pb_plain _ _ Hp). unfold addresses, hashed, is_hashed. cbn.
  rewrite (pb_plain _ _ Hp). cbn. rewrite elem_of_app, !list_elem_of_bind.
  intros [(g & Ha & (g' & -> & Hg)%list_elem_of_fmap)|(e & Ha & (e' & -> & He)%list_elem_of_fmap)]; cbn in Ha;
    apply list_elem_of_fmap in Ha as (m & -> & _); by apply hash_is_hash.
Qed.
End snapshot.

(** C39. What an agent mailbox publishes is its guide with every address in
    it, audience members and the people entries are for, replaced by a salted
    hash: its reader accepts it (a plain address would be refused), a
    message's recipients are in the same audiences, and a draft's text breaks
    exactly the checks it breaks in the app.  This needs of SHA-256 that
    digests have 32 bytes and that no member's hash is by accident that of a
    recipient, and of the members that a domain holds no second [@]. *)
Theorem published_check (s : Snapshot) (t : Target) (text : string) (v : Json) :
  digest → publishable s (tg_recipients t) → json_get "schema_version" v = JNumber "1" →
  let s' := hashed_snapshot to_lowercase sha256 salt s in
  read_snapshot (λ _, Ok s') v = Ok s' ∧
  audiences_in to_lowercase sha256 t (sn_audiences s') = audiences_in to_lowercase sha256 t (sn_audiences s) ∧
  snapshot_check to_lowercase is_alphanumeric sha256 s' t text =
  snapshot_check to_lowercase is_alphanumeric sha256 s t text.
Proof.
  intros Hd Hp Hv. pose proof (audiences_hashed _ _ Hd Hp) as Ha. pose proof (addresses_hashed _ _ Hd Hp) as Hh.
  assert (audiences_in to_lowercase sha256 t (sn_audiences (hashed_snapshot to_lowercase sha256 salt s)) =
          audiences_in to_lowercase sha256 t (sn_audiences s)) as Haud.
  { unfold audiences_in, hashed_snapshot, is_hashed. rewrite (pb_plain _ _ Hp). cbn [sn_audiences]. by rewrite Ha. }
  cbn zeta. split_and!; [|done|].
  - unfold read_snapshot. rewrite Hv. cbn. replace (List.existsb _ _) with false; [done|]. symmetry.
    apply not_true_iff_false. rewrite existsb_exists. intros (a & Hin%list_elem_of_In & Hbad).
    rewrite (Hh a Hin) in Hbad. unfold hashed_snapshot, is_hashed in Hbad. rewrite (pb_plain _ _ Hp) in Hbad.
    cbn in Hbad. unfold hashed, is_hashed in Hbad. rewrite (pb_plain _ _ Hp) in Hbad. done.
  - unfold snapshot_check, check. rewrite Haud. unfold hashed_snapshot, is_hashed. rewrite (pb_plain _ _ Hp).
    cbn [sn_entries sn_audiences]. unfold hashed, is_hashed. rewrite (pb_plain _ _ Hp).
    pose proof (λ e, applies_hashed s _ Hd Hp (hash_group to_lowercase sha256 salt <$> gs_groups (sn_audiences s))
                       t (audiences_in to_lowercase sha256 t (sn_audiences s)) e eq_refl) as Happ.
    clear Haud Ha Hh. revert Happ. induction (sn_entries s) as [|e l IH]; intros Happ; [done|].
    rewrite fmap_cons. cbn [List.filter]. rewrite Happ by set_solver.
    assert (∀ e', e' ∈ l → e' ∈ e :: l) as Hsub by set_solver.
    specialize (IH (λ e' He', Happ e' (Hsub e' He'))).
    destruct (applies_in _ _ (en_scope e) _ _ _); [|done]. cbn [List.filter hash_people with_scope en_scope with_people sc_languages].
    destruct (is_empty (sc_languages (en_scope e))); [|done]. cbn [omap list_omap]. by rewrite IH.
Qed.
End published.

(** A digest for the example: the first 32 bytes, filled up. *)
Fixpoint fit (n : nat) (s : string) : string :=
  match n with
  | O => ""
  | S n => match s with EmptyString => String "0" (fit n "") | String a s => String a (fit n s) end
  end.
Lemma fit_length n s : String.length (fit n s) = n.
Proof. revert s. induction n as [|n IH]; intros [|a s]; cbn; by rewrite ?IH. Qed.

Definition acme_guide : Snapshot :=
  mkSnapshot 1 7 0 (mkMailbox "writer@agents.dev" "Writer" "")
    [mkEntry 1 "A1" Rule "Never say circle back" (mkScope ["Customers"] [] [] [])
       (Some (mkCheck BannedPhrase "circle back"));
     mkEntry 2 "B6" Guideline "Short to Ann" (mkScope [] ["Ann@acme.com"] ["reply"] [])
       (Some (mkCheck MaxWords "3"))]
    (plain [mkGroup "Customers" ["@Acme.com"; "bea@globex.com"]; mkGroup "Investors" ["vc@fund.com"]]) [].
Definition to_ann : Target := mkTarget [" ann@ACME.com "] (Some "reply") None.

Lemma published_check_witness :
  let s' := hashed_snapshot ascii_lower (fit 32) "salt" acme_guide in
  is_hashed (sn_audiences s') = true ∧
  audiences_in ascii_lower (fit 32) to_ann (sn_audiences s') = ["Customers"] ∧
  cf_entry_id <$> snapshot_check ascii_lower ascii_alphanumeric (fit 32) s' to_ann "Let's circle back soon" = [1; 2]%Z.
Proof.
  cbn zeta. split; [vm_compute; reflexivity|].
  destruct (published_check ascii_lower ascii_alphanumeric (fit 32) "salt" acme_guide to_ann
              "Let's circle back soon" (JObject [("schema_version", JNumber "1")])) as (_ & Ha & Hc).
  - intros s. apply fit_length.
  - split; [reflexivity|vm_compute; reflexivity| |].
    + apply settled_dec. vm_compute. reflexivity.
    + apply no_collision_dec. vm_compute. reflexivity.
  - vm_compute. reflexivity.
  - rewrite Ha, Hc. clear. split; vm_compute; reflexivity.
Defined.

(** ** What an agent is told of the user's facts *)

(** A fact drafting may see: accepted, in no hidden category, not marked
    never to be shared, and if it is everyone's, not one the account has its
    own fact for. *)
Definition visible (mine global : list FactInfo) (categories : list FactCategory) (f : FactInfo) : Prop :=
  accepted_fact f = true ∧ fi_use f ≠ Never ∧ hidden_category categories (fi_category f) = false ∧
  (f ∈ mine ∨ f ∈ global ∧ ∀ m, m ∈ mine → overrides f m = false).

Lemma usable_visible mine global categories x : Forall (λ f, fi_overridden f = false) (mine ++ global) →
  x ∈ usable categories (list_facts mine global) ↔
  ∃ f, visible mine global categories f ∧
       x = mkFact (fi_category f) (category_name categories (fi_category f)) (fi_label f) (fi_value f)
             (bool_decide (fi_use f = Ask)).
Proof.
  intros [Hm Hg]%Forall_app. rewrite Forall_forall in Hm, Hg. unfold usable, visible, list_facts, shared.
  rewrite list_elem_of_omap. setoid_rewrite elem_of_List_filter. setoid_rewrite elem_of_List_filter. split.
  - intros (f & (Hh & Ha & Hin) & Hx). apply negb_true_iff in Hh. apply andb_true_iff in Ha as [Ha Ho%negb_true_iff].
    case_bool_decide as Hn; [|done]. injection Hx as <-.
    apply elem_of_app in Hin as [Hin|(g & -> & Hin)%list_elem_of_fmap]; [exists f; naive_solver|].
    cbn in *. exists g. split; [|done]. split_and!; [done..|]. right. split; [done|]. intros m Hmin.
    unfold accepted_fact in *. cbn in Ha. rewrite Ha in Ho. cbn in Ho. apply not_true_iff_false. intros Hov.
    apply not_true_iff_false in Ho. apply Ho, existsb_exists. exists m. split; [by apply list_elem_of_In|done].
  - intros (f & (Ha & Hn & Hh & Hin) & ->). exists (if bool_decide (f ∈ mine) then f else set_overridden mine f).
    assert (fi_overridden (if bool_decide (f ∈ mine) then f else set_overridden mine f) = false) as Ho.
    { case_bool_decide as Hmine; [by apply Hm|]. destruct Hin as [|[_ Hov]]; [done|]. cbn. rewrite Ha. cbn.
      apply not_true_iff_false. rewrite existsb_exists. intros (m & Hmin%list_elem_of_In & Ht).
      rewrite Hov in Ht; done. }
    rewrite Ho. case_bool_decide as Hmine.
    + rewrite Ha, Hh. split; [set_solver|]. by rewrite bool_decide_true.
    + destruct Hin as [|[Hin _]]; [done|]. unfold accepted_fact in *. cbn in *. rewrite Ha, Hh. split.
      * split_and!; [done..|]. apply elem_of_app. right. apply list_elem_of_fmap. eauto.
      * by rewrite bool_decide_true.
Qed.

(** An agent's [facts_lookup] answers with facts the user lets drafting
    see and no other: a row comes from an accepted fact that is not marked
    never to be shared, whose category is not hidden, and which, if it is
    everyone's, the account has no fact of its own for; it says to ask first
    exactly when the user marked the fact so.  Asked for no category and no
    words, it answers with all of them. *)
Theorem lookup_json_private (to_lowercase : string → string) (mine global : list FactInfo)
    (categories : list FactCategory) (category query : option string) (row : Json) :
  Forall (λ f, fi_overridden f = false) (mine ++ global) →
  let rows q1 q2 :=
    default [] (as_array (json_get "facts" (lookup_json to_lowercase (list_facts mine global) categories q1 q2))) in
  let told f := obj [("category", JString (category_name categories (fi_category f)));
                     ("label", JString (fi_label f)); ("value", JString (fi_value f));
                     ("ask_before_using", JBool (bool_decide (fi_use f = Ask)))] in
  (row ∈ rows category query → ∃ f, visible mine global categories f ∧ row = told f) ∧
  (∀ f, visible mine global categories f → told f ∈ rows None None).
Proof.
  intros Ho. pose proof (λ x, usable_visible mine global categories x Ho) as Hu. cbn zeta.
  unfold lookup_json, facts_lookup. cbn. split.
  - intros (x & -> & [_ Hx]%elem_of_List_filter)%list_elem_of_fmap.
    apply elem_of_List_filter in Hx as [_ Hx]. apply Hu in Hx as (f & Hf & ->). by exists f.
  - intros f Hf. apply list_elem_of_fmap. eexists (mkFact _ _ _ _ _). split; [cbn; reflexivity|].
    apply elem_of_List_filter. split; [done|]. apply elem_of_List_filter. split; [done|]. apply Hu. by exists f.
Qed.

Definition my_facts : list FactInfo :=
  [mkFactInfo "work" "Role" "CEO" Free FactAccepted false; mkFactInfo "work" "Salary" "1" Never FactAccepted false;
   mkFactInfo "health" "Allergy" "Nuts" Free FactAccepted false; mkFactInfo "work" "Desk" "4" Free FactProposed false].
Definition everyones : list FactInfo :=
  [mkFactInfo "work" "role" "Engineer" Free FactAccepted false; mkFactInfo "home" "City" "Oslo" Ask FactAccepted false].
Lemma lookup_json_private_witness :
  let categories := [mkFactCategory "work" "Work" false; mkFactCategory "health" "Health" true] in
  default [] (as_array (json_get "facts" (lookup_json ascii_lower (list_facts my_facts everyones) categories None None)))
  = [obj [("category", JString "Work"); ("label", JString "Role"); ("value", JString "CEO");
          ("ask_before_using", JBool false)];
     obj [("category", JString "Other"); ("label", JString "City"); ("value", JString "Oslo");
          ("ask_before_using", JBool true)]] ∧
  (∀ row, row ∈ default [] (as_array (json_get "facts"
            (lookup_json ascii_lower (list_facts my_facts everyones) categories None (Some "oslo")))) →
   ∃ f, visible my_facts everyones categories f ∧ json_get "value" row = JString (fi_value f)).
Proof.
  cbn zeta. split; [vm_compute; reflexivity|]. intros row Hrow.
  destruct (lookup_json_private ascii_lower my_facts everyones
              [mkFactCategory "work" "Work" false; mkFactCategory "health" "Health" true]
              None (Some "oslo") row) as [Hs _]; [by repeat constructor|].
  destruct (Hs Hrow) as (f & Hf & ->). by exists f.
Defined.
