(* ===== verification/Permissions.v ===== *)
(** * Permissions: the permission engine ([crates/permissions/src/lib.rs])

    The tools an agent has, the policy decision for one call ([decide]) and
    the hard limits of a session ([SessionGuard]), as a state machine over
    the events of a session.  The abstract specification ([spec_check])
    judges a call from the session's log alone; [guard_refines_log] shows
    that the pruned deque and the sets of the code compute it. *)

From S2P Require Import Prelude.
From S2P Require Import Domain.

(** ** Limits *)

Definition MAX_THREADS_PER_CALL : nat := 200.
Definition MAX_THREADS_PER_SESSION : nat := 2000.
Definition MAX_CALLS_PER_MINUTE : nat := 60.
Definition MINUTE : Millis := 60000.

(** ** Tools and risks *)

Inductive Risk := ReadOnly | Reversible | External.
#[export] Instance risk_eq_dec : EqDecision Risk.
Proof. solve_decision. Defined.

Inductive Tool :=
| Search | GetThread | GetMessage | ListLabels | FactsLookup
| GetAttachmentText | PresentThreads | CreateDraft | UpdateDraft | Archive
| MarkRead | MarkUnread | AddLabel | RemoveLabel | CreateLabel | Send
| Forward | Delete.
#[export] Instance tool_eq_dec : EqDecision Tool.
Proof. solve_decision. Defined.

Definition Tool_ALL : list Tool :=
  [Search; GetThread; GetMessage; ListLabels; FactsLookup; GetAttachmentText;
   PresentThreads; CreateDraft; UpdateDraft; Archive; MarkRead; MarkUnread;
   AddLabel; RemoveLabel; CreateLabel; Send; Forward; Delete].

Definition tool_name (t : Tool) : string :=
  match t with
  | Search => "mail_search"
  | GetThread => "mail_get_thread"
  | GetMessage => "mail_get_message"
  | ListLabels => "mail_list_labels"
  | FactsLookup => "facts_lookup"
  | GetAttachmentText => "mail_get_attachment_text"
  | PresentThreads => "mail_present_threads"
  | CreateDraft => "mail_create_draft"
  | UpdateDraft => "mail_update_draft"
  | Archive => "mail_archive"
  | MarkRead => "mail_mark_read"
  | MarkUnread => "mail_mark_unread"
  | AddLabel => "mail_add_label"
  | RemoveLabel => "mail_remove_label"
  | CreateLabel => "mail_create_label"
  | Send => "mail_send"
  | Forward => "mail_forward"
  | Delete => "mail_delete"
  end.

Definition from_name (name : string) : option Tool :=
  List.find (λ t, bool_decide (tool_name t = name)) Tool_ALL.

Definition tool_risk (t : Tool) : Risk :=
  match t with
  | Search | GetThread | GetMessage | ListLabels | FactsLookup
  | GetAttachmentText | PresentThreads => ReadOnly
  | CreateDraft | UpdateDraft | Archive | MarkRead | MarkUnread | AddLabel
  | RemoveLabel | CreateLabel => Reversible
  | Send | Forward | Delete => External
  end.

Lemma from_name_tool_name t : from_name (tool_name t) = Some t.
Proof. by destruct t. Qed.

Lemma from_name_Some n t : from_name n = Some t → tool_name t = n.
Proof.
  intros H. apply find_some in H as [_ H]. by apply bool_decide_eq_true in H.
Qed.

(** Tools are countable through their names, so that sets of tools (the
    [BTreeSet<Tool>] of a policy) are [gset]s. *)
#[export] Instance tool_countable : Countable Tool :=
  inj_countable tool_name from_name from_name_tool_name.

(** ** The policy *)

Record Policy := mkPolicy { approve_reversible : gset Tool }.

Inductive PolicyError := NotConfigurable (name : string).

Definition set_requires_approval (p : Policy) (tool : Tool) (required : bool) :
    result PolicyError Policy :=
  if decide (tool_risk tool ≠ Reversible) then Err (NotConfigurable (tool_name tool))
  else Ok (mkPolicy (if required then {[tool]} ∪ approve_reversible p
                     else approve_reversible p ∖ {[tool]})).

Record ProposedAction := mkAction {
  tool : Tool;
  thread_ids : list ThreadId;
  draft_id : option Z }.

Inductive DenyReason :=
| TooManyThreadsInCall | SessionBulkCap | RateLimited | OutOfScope
| DraftNotFromSession | MissingDraft.
#[export] Instance deny_eq_dec : EqDecision DenyReason.
Proof. solve_decision. Defined.

Inductive PolicyDecision := Allow | RequireApproval | Deny (r : DenyReason).
#[export] Instance decision_eq_dec : EqDecision PolicyDecision.
Proof. solve_decision. Defined.

(** The policy decision for one call ([decide] in the source, a name the
    library's decision class already uses). *)
Definition decide_action (policy : Policy) (action : ProposedAction) : PolicyDecision :=
  if bool_decide (tool_risk (tool action) ≠ ReadOnly)
     && (MAX_THREADS_PER_CALL <? length (thread_ids action))
  then Deny TooManyThreadsInCall
  else match tool_risk (tool action) with
       | ReadOnly => Allow
       | Reversible =>
           if bool_decide (tool action ∈ approve_reversible policy)
           then RequireApproval else Allow
       | External => RequireApproval
       end.

(** ** The session's scope *)

Inductive Scope := Mailbox | Selection (ids : gset ThreadId).

Definition allows (s : Scope) (thread : ThreadId) : bool :=
  match s with
  | Mailbox => true
  | Selection ids => bool_decide (thread ∈ ids)
  end.

Definition scope_filter {T} (s : Scope) (items : list T) (thread_of : T → ThreadId) : list T :=
  match s with
  | Mailbox => items
  | Selection _ => List.filter (λ i, allows s (thread_of i)) items
  end.

(** ** The session guard *)

Record SessionGuard := mkGuard {
  scope : Scope;
  recent_calls : list Millis;   (** front of the [VecDeque] first *)
  touched : gset ThreadId;
  sendable_drafts : gset Z }.

Definition guard_new (s : Scope) : SessionGuard := mkGuard s [] ∅ ∅.

(** [while recent_calls.front().is_some_and(|t| now - t >= MINUTE)] pop. *)
Fixpoint prune (now : Millis) (calls : list Millis) : list Millis :=
  match calls with
  | [] => []
  | t :: rest => if (MINUTE <=? now - t)%Z then prune now rest else calls
  end.

(** The checks of [SessionGuard::check] after the deque was pruned, in the
    order the code makes them. *)
Definition check_limits (g : SessionGuard) (action : ProposedAction) : result DenyReason () :=
  if MAX_CALLS_PER_MINUTE <=? length (recent_calls g) then Err RateLimited else
  let risk := tool_risk (tool action) in
  _ ← (if bool_decide (risk ≠ ReadOnly) then
         if MAX_THREADS_PER_CALL <? length (thread_ids action)
         then Err TooManyThreadsInCall else
         if List.existsb (λ t, negb (allows (scope g) t)) (thread_ids action)
         then Err OutOfScope else
         let new := count (λ t, bool_decide (t ∉ touched g)) (thread_ids action) in
         if MAX_THREADS_PER_SESSION <? size (touched g) + new
         then Err SessionBulkCap else Ok ()
       else Ok ());
  if bool_decide (tool action = Send) then
    draft ← ok_or MissingDraft (draft_id action);
    if bool_decide (draft ∈ sendable_drafts g) then Ok () else Err DraftNotFromSession
  else Ok ().

(** [SessionGuard::check]: the guard after the call, and its answer. *)
Definition guard_check (g : SessionGuard) (action : ProposedAction) (now : Millis) :
    SessionGuard * result DenyReason () :=
  let g := mkGuard (scope g) (prune now (recent_calls g)) (touched g) (sendable_drafts g) in
  match check_limits g action with
  | Err e => (g, Err e)
  | Ok _ =>
      (mkGuard (scope g) (recent_calls g ++ [now])
         (if bool_decide (tool_risk (tool action) ≠ ReadOnly)
          then list_to_set (thread_ids action) ∪ touched g else touched g)
         (sendable_drafts g), Ok ())
  end.

Definition allow_draft (g : SessionGuard) (d : Z) : SessionGuard :=
  mkGuard (scope g) (recent_calls g) (touched g) ({[d]} ∪ sendable_drafts g).

Definition owns_draft (g : SessionGuard) (d : Z) : bool := bool_decide (d ∈ sendable_drafts g).

Definition new_user_prompt (g : SessionGuard) : SessionGuard :=
  mkGuard (scope g) (recent_calls g) ∅ (sendable_drafts g).

Definition threads_touched (g : SessionGuard) : nat := size (touched g).

(** ** Sessions as runs *)

Inductive SessionEvent :=
| Call (a : ProposedAction) (now : Millis)
| AttachDraft (d : Z)
| UserPrompt.

(** One event of a session, with the answer of a call. *)
Definition guard_step (g : SessionGuard) (e : SessionEvent) :
    SessionGuard * option (result DenyReason ()) :=
  match e with
  | Call a now => let '(g, r) := guard_check g a now in (g, Some r)
  | AttachDraft d => (allow_draft g d, None)
  | UserPrompt => (new_user_prompt g, None)
  end.

(** *** The specification: judging a call from the session's log *)

(** What happened so far, oldest first; only accepted calls are logged. *)
Abbreviation Log := (list SessionEvent).

Definition call_time (e : SessionEvent) : list Millis :=
  match e with Call _ t => [t] | _ => [] end.
Definition call_times (log : Log) : list Millis := log ≫= call_time.

Definition event_threads (e : SessionEvent) : list ThreadId :=
  match e with
  | Call a _ => if bool_decide (tool_risk (tool a) ≠ ReadOnly) then thread_ids a else []
  | _ => []
  end.

(** The threads changed since the user last prompted. *)
Fixpoint changed_since_prompt_from (acc : gset ThreadId) (log : Log) : gset ThreadId :=
  match log with
  | [] => acc
  | UserPrompt :: log => changed_since_prompt_from ∅ log
  | e :: log => changed_since_prompt_from (list_to_set (event_threads e) ∪ acc) log
  end.
Definition changed_since_prompt : Log → gset ThreadId := changed_since_prompt_from ∅.

Definition event_draft (e : SessionEvent) : gset Z :=
  match e with AttachDraft d => {[d]} | _ => ∅ end.
Definition drafts_given (log : Log) : gset Z := ⋃ (event_draft <$> log).

(** Whether a call made at [t] is less than a minute old at [now]. *)
Definition within_minute (now t : Millis) : bool := (now - t <? MINUTE)%Z.

Definition log_guard (s : Scope) (log : Log) (now : Millis) : SessionGuard :=
  mkGuard s (List.filter (within_minute now) (call_times log))
    (changed_since_prompt log) (drafts_given log).

(** What the limits of the module promise: every count is taken over the
    whole log. *)
Definition spec_step (s : Scope) (log : Log) (e : SessionEvent) :
    Log * option (result DenyReason ()) :=
  match e with
  | Call a now =>
      match check_limits (log_guard s log now) a with
      | Err r => (log, Some (Err r))
      | Ok _ => (log ++ [e], Some (Ok ()))
      end
  | _ => (log ++ [e], None)
  end.

(** Time does not run backwards between calls. *)
Definition event_time_ok (last : Millis) (e : SessionEvent) : Prop :=
  match e with Call _ now => (last ≤ now)%Z | _ => True end.
Definition event_time (last : Millis) (e : SessionEvent) : Millis :=
  match e with Call _ now => now | _ => last end.
Definition times_ordered : Millis → list SessionEvent → Prop :=
  all_valid event_time_ok event_time.

(** *** Facts about the log *)

Lemma call_times_app l1 l2 : call_times (l1 ++ l2) = call_times l1 ++ call_times l2.
Proof. apply bind_app. Qed.

Lemma drafts_given_snoc l e : drafts_given (l ++ [e]) = event_draft e ∪ drafts_given l.
Proof.
  unfold drafts_given. rewrite fmap_app, union_list_app_L. simpl.
  rewrite (right_id_L ∅ (∪)). apply (comm_L (∪)).
Qed.

Lemma changed_since_prompt_from_snoc acc l e :
  changed_since_prompt_from acc (l ++ [e]) =
    match e with
    | UserPrompt => ∅
    | _ => list_to_set (event_threads e) ∪ changed_since_prompt_from acc l
    end.
Proof.
  revert acc. induction l as [|e' l IH]; intros acc; [by destruct e|].
  simpl. destruct e'; apply IH.
Qed.

Lemma filter_all (p : Z → bool) l : Forall (λ t, p t = true) l → List.filter p l = l.
Proof. induction 1 as [|t l Ht _ IH]; simpl; [done|]. by rewrite Ht, IH. Qed.

(** On times in order, pruning the front is filtering. *)
Lemma prune_sorted now l :
  StronglySorted Z.le l → prune now l = List.filter (within_minute now) l.
Proof.
  induction 1 as [|t l Hs IH Hall]; [done|]. simpl.
  assert (within_minute now t = negb (MINUTE <=? now - t)%Z) as ->
    by (unfold within_minute; lia).
  destruct (MINUTE <=? now - t)%Z eqn:E; simpl; [done|]. f_equal. symmetry.
  apply filter_all, (Forall_impl _ _ _ Hall). unfold within_minute. lia.
Qed.

Lemma filter_within_minute_twice p now l :
  (p ≤ now)%Z →
  List.filter (within_minute now) (List.filter (within_minute p) l) =
  List.filter (within_minute now) l.
Proof.
  intros Hle. induction l as [|t l IH]; [done|]. simpl. unfold within_minute in *.
  destruct (p - t <? MINUTE)%Z eqn:E1; simpl; rewrite IH; [done|].
  by replace (now - t <? MINUTE)%Z with false by lia.
Qed.

Lemma sorted_snoc (l : list Z) t :
  StronglySorted Z.le l → Forall (λ u, (u ≤ t)%Z) l → StronglySorted Z.le (l ++ [t]).
Proof.
  induction 1 as [|u l Hs IH Hall]; intros Hle; simpl; [repeat constructor|].
  inversion_clear Hle. constructor; [auto|]. apply Forall_app. split; [done|]. by constructor.
Qed.

(** *** The guard refines the log *)

(** The deque holds the calls less than a minute old at some past time. *)
Definition guard_log (s : Scope) (last : Millis) (g : SessionGuard) (log : Log) : Prop :=
  ∃ p, (p ≤ last)%Z ∧ g = log_guard s log p ∧
    StronglySorted Z.le (call_times log) ∧ Forall (λ t, (t ≤ last)%Z) (call_times log).

Lemma guard_log_init s last : guard_log s last (guard_new s) [].
Proof. exists last. repeat split; [done|..]; constructor. Qed.

Lemma log_guard_snoc_call s log a now :
  StronglySorted Z.le (call_times log) →
  log_guard s (log ++ [Call a now]) now =
    let g := log_guard s log now in
    mkGuard s (recent_calls g ++ [now])
      (if bool_decide (tool_risk (tool a) ≠ ReadOnly)
       then list_to_set (thread_ids a) ∪ touched g else touched g)
      (sendable_drafts g).
Proof.
  intros Hs. unfold log_guard. simpl. f_equal.
  - rewrite call_times_app, List.filter_app. simpl. unfold within_minute at 2.
    rewrite Z.sub_diag. done.
  - unfold changed_since_prompt. rewrite changed_since_prompt_from_snoc. simpl.
    case_bool_decide; [done|]. simpl. by rewrite (left_id_L ∅ (∪)).
  - rewrite drafts_given_snoc. simpl. by rewrite (left_id_L ∅ (∪)).
Qed.

Lemma guard_log_prune s last g log now :
  guard_log s last g log → (last ≤ now)%Z →
  mkGuard (scope g) (prune now (recent_calls g)) (touched g) (sendable_drafts g) =
  log_guard s log now.
Proof.
  intros (p & Hp & -> & Hs & _) Hle. unfold log_guard. simpl. f_equal.
  rewrite prune_sorted by (by apply StronglySorted_filter).
  apply filter_within_minute_twice. lia.
Qed.

Lemma guard_log_step s last g log e :
  guard_log s last g log → event_time_ok last e →
  (guard_step g e).2 = (spec_step s log e).2 ∧
  guard_log s (event_time last e) (guard_step g e).1 (spec_step s log e).1.
Proof.
  intros Hg Hok. destruct e as [a now|d|]; simpl in *.
  - unfold guard_check. rewrite (guard_log_prune s last _ log) by done.
    destruct Hg as (p & Hp & -> & Hs & Hall).
    assert (Forall (λ t, (t ≤ now)%Z) (call_times log))
      by (apply (Forall_impl _ _ _ Hall); lia).
    destruct (check_limits (log_guard s log now) a) as [[]|r]; simpl; (split; [done|]);
      exists now; (split; [lia|]).
    + split; [by rewrite log_guard_snoc_call|]. rewrite call_times_app. simpl. split.
      * by apply sorted_snoc.
      * apply Forall_app. split; [done|]. by repeat constructor.
    + done.
  - destruct Hg as (p & Hp & -> & Hs & Hall). split; [done|]. exists p. split; [done|].
    rewrite call_times_app, app_nil_r. split; [|done]. unfold log_guard, allow_draft. simpl.
    f_equal.
    + by rewrite call_times_app, app_nil_r.
    + unfold changed_since_prompt. rewrite changed_since_prompt_from_snoc. simpl.
      by rewrite (left_id_L ∅ (∪)).
    + by rewrite drafts_given_snoc.
  - destruct Hg as (p & Hp & -> & Hs & Hall). split; [done|]. exists p. split; [done|].
    rewrite call_times_app, app_nil_r. split; [|done]. unfold log_guard, new_user_prompt. simpl.
    f_equal.
    + by rewrite call_times_app, app_nil_r.
    + unfold changed_since_prompt. by rewrite changed_since_prompt_from_snoc.
    + rewrite drafts_given_snoc. simpl. by rewrite (left_id_L ∅ (∪)).
Qed.

(** *** What was accepted *)

(** The events that took effect: everything but refused calls. *)
Definition took_effect (p : SessionEvent * option (result DenyReason ())) : Prop :=
  match p.2 with Some (Err _) => False | _ => True end.
#[export] Instance took_effect_dec p : Decision (took_effect p).
Proof. unfold took_effect. case_match; [case_match|]; apply _. Defined.

Definition accepted (es : list SessionEvent) (os : list (option (result DenyReason ()))) : Log :=
  (base.filter took_effect (zip es os)).*1.

(** A session from a fresh guard: its answers. *)
Definition answers (s : Scope) (es : list SessionEvent) : list (option (result DenyReason ())) :=
  (run_steps guard_step (guard_new s) es).2.

Lemma spec_run_log s log es :
  (run_steps (spec_step s) log es).1 =
  log ++ accepted es (run_steps (spec_step s) log es).2.
Proof.
  unfold accepted. revert log. induction es as [|e es IH]; intros log; simpl; [by rewrite app_nil_r|].
  destruct (spec_step s log e) as [log1 o] eqn:E. specialize (IH log1).
  destruct (run_steps (spec_step s) log1 es) as [log2 os] eqn:E2. simpl in *.
  rewrite filter_cons. destruct e as [a now|d|]; simpl in E.
  - destruct (check_limits _ a); simplify_eq; simpl.
    + by rewrite <- app_assoc.
    + done.
  - simplify_eq/=. by rewrite <- app_assoc.
  - simplify_eq/=. by rewrite <- app_assoc.
Qed.

Lemma session_sim s last es :
  times_ordered last es →
  (run_steps guard_step (guard_new s) es).2 = (run_steps (spec_step s) [] es).2.
Proof.
  intros Ht.
  apply (run_steps_sim guard_step (spec_step s) (guard_log s) event_time_ok event_time
           (guard_log_step s) last); [apply guard_log_init|done].
Qed.

(** Invariants of the log are invariants of sessions. *)
Lemma accepted_invariant (P : Log → Prop) s last es :
  P [] → (∀ log e, P log → P (spec_step s log e).1) →
  times_ordered last es → P (accepted es (answers s es)).
Proof.
  intros H0 Hstep Ht. unfold answers. rewrite (session_sim s last es Ht).
  pose proof (spec_run_log s [] es) as Hlog. simpl in Hlog. rewrite <- Hlog.
  by apply run_steps_invariant.
Qed.

(** How many accepted calls were made in the minute that ends at [t]. *)
Definition calls_in_window (t : Millis) (log : Log) : nat :=
  length (List.filter (λ u, (t - MINUTE <? u)%Z && (u <=? t)%Z) (call_times log)).

Lemma filter_length_mono (p q : Z → bool) l :
  (∀ t, t ∈ l → p t = true → q t = true) →
  length (List.filter p l) ≤ length (List.filter q l).
Proof.
  intros H. induction l as [|t l IH]; simpl; [done|].
  assert (length (List.filter p l) ≤ length (List.filter q l)) by (apply IH; set_solver).
  destruct (p t) eqn:E; [rewrite (H t) by set_solver; simpl; lia|].
  destruct (q t); simpl; lia.
Qed.

Lemma check_limits_rate g a :
  check_limits g a = Ok () → length (recent_calls g) < MAX_CALLS_PER_MINUTE.
Proof. unfold check_limits. destruct (_ <=? _) eqn:E; [done|]. intros _. lia. Qed.

Lemma window_step s log e t :
  calls_in_window t log ≤ MAX_CALLS_PER_MINUTE →
  calls_in_window t (spec_step s log e).1 ≤ MAX_CALLS_PER_MINUTE.
Proof.
  intros IH. destruct e as [a now|d|]; simpl;
    [|unfold calls_in_window in *; by rewrite call_times_app, app_nil_r..].
  destruct (check_limits _ a) as [[]|] eqn:E; [|done]. simpl.
  apply check_limits_rate in E. simpl in E.
  unfold calls_in_window in *. rewrite call_times_app, List.filter_app, length_app. simpl.
  destruct ((t - MINUTE <? now)%Z && (now <=? t)%Z) eqn:Ew; simpl; [|lia].
  assert (length (List.filter (λ u, (t - MINUTE <? u)%Z && (u <=? t)%Z) (call_times log))
          ≤ length (List.filter (within_minute now) (call_times log))); [|lia].
  apply filter_length_mono. intros u _. cbv beta. unfold within_minute. lia.
Qed.

(** What one accepted call satisfied, given the log before it. *)
Definition call_within_limits (s : Scope) (before : Log) (a : ProposedAction) : Prop :=
  (tool_risk (tool a) ≠ ReadOnly →
     length (thread_ids a) ≤ MAX_THREADS_PER_CALL ∧
     Forall (λ t, allows s t = true) (thread_ids a) ∧
     size (list_to_set (thread_ids a) ∪ changed_since_prompt before) ≤ MAX_THREADS_PER_SESSION) ∧
  (tool a = Send → ∃ d, draft_id a = Some d ∧ AttachDraft d ∈ before).

Definition log_within_limits (s : Scope) (log : Log) : Prop :=
  ∀ before a now after, log = before ++ Call a now :: after → call_within_limits s before a.

Lemma size_touched_new (l : list ThreadId) (X : gset ThreadId) :
  size (list_to_set l ∪ X) ≤ size X + count (λ t, bool_decide (t ∉ X)) l.
Proof.
  induction l as [|t l IH]; simpl; [rewrite (left_id_L ∅ (∪)); lia|].
  rewrite count_cons. rewrite <- (assoc_L (∪)).
  case_bool_decide as Ht.
  - pose proof (size_union_alt {[t]} (list_to_set l ∪ X)) as E.
    assert (size ((list_to_set l ∪ X) ∖ {[t]}) ≤ size (list_to_set l ∪ X))
      by (apply subseteq_size; set_solver).
    rewrite E, size_singleton. lia.
  - replace ({[t]} ∪ (list_to_set l ∪ X)) with (list_to_set l ∪ X) by set_solver. lia.
Qed.

Lemma drafts_given_elem d log : d ∈ drafts_given log → AttachDraft d ∈ log.
Proof.
  unfold drafts_given. rewrite elem_of_union_list. intros (X & HX & Hd).
  apply list_elem_of_fmap in HX as (e & -> & He). destruct e; set_solver.
Qed.

Lemma check_limits_Ok s log now a :
  check_limits (log_guard s log now) a = Ok () → call_within_limits s log a.
Proof.
  unfold check_limits. destruct (_ <=? _); [done|]. intros H. inv_ok. split.
  - intros Hr. rewrite bool_decide_true in Ha by done.
    destruct (_ <? _) eqn:E1; [done|]. destruct (List.existsb _ _) eqn:E2; [done|].
    destruct (_ <? _) eqn:E3 in Ha; [done|]. split; [lia|]. split.
    + apply Forall_forall. intros t Ht. apply not_false_is_true. intros Hf.
      assert (List.existsb (λ t, negb (allows s t)) (thread_ids a) = true); [|by simpl in *; congruence].
      apply existsb_exists. exists t. split; [by apply list_elem_of_In|]. by rewrite Hf.
    + simpl in E3. pose proof (size_touched_new (thread_ids a) (changed_since_prompt log)). lia.
  - intros Hs. rewrite bool_decide_true in H by done. destruct (draft_id a) as [d|]; [|done].
    exists d. split; [done|]. simpl in H. case_bool_decide; [|done]. by apply drafts_given_elem.
Qed.

Lemma limits_step s log e :
  log_within_limits s log → log_within_limits s (spec_step s log e).1.
Proof.
  assert (∀ x, (∀ a now, x = Call a now → call_within_limits s log a) →
               log_within_limits s log → log_within_limits s (log ++ [x])) as Hsnoc.
  { intros x Hx IH before a now after Heq.
    destruct after as [|y after _] using rev_ind.
    - apply app_inj_tail in Heq as [<- ->]. by eapply Hx.
    - rewrite app_comm_cons, app_assoc in Heq. apply app_inj_tail in Heq as [-> _]. by eapply IH. }
  intros IH. destruct e as [a now|d|]; simpl; [|by apply Hsnoc..].
  destruct (check_limits _ a) as [[]|] eqn:E; [|done]. apply Hsnoc; [|done].
  intros a' now' [= <- <-]. by eapply check_limits_Ok.
Qed.

(** ** Properties *)

(** The session guard, with its pruned deque and running sets, gives
    every call of a session the answer the abstract limits give from the
    full log of the session (accepted calls of the last minute, threads
    changed since the last prompt, drafts made or attached), as long as the
    clock does not run backwards. *)
Theorem guard_refines_log s last es :
  times_ordered last es →
  answers s es = (run_steps (spec_step s) [] es).2.
Proof. apply session_sim. Qed.

Definition sample_call (t : Tool) (ids : list ThreadId) (d : option Z) := mkAction t ids d.
Definition sample_session : list SessionEvent :=
  [Call (sample_call Archive ["t1"; "t2"] None) 0;
   Call (sample_call Send [] (Some 7%Z)) 10;
   AttachDraft 7; UserPrompt;
   Call (sample_call Send [] (Some 7%Z)) 59999;
   Call (sample_call Archive ["elsewhere"] None) 60001].

Lemma guard_refines_log_witness :
  answers (Selection {["t1"; "t2"]}) sample_session =
    [Some (Ok ()); Some (Err DraftNotFromSession); None; None; Some (Ok ()); Some (Err OutOfScope)] ∧
  answers (Selection {["t1"; "t2"]}) sample_session =
    (run_steps (spec_step (Selection {["t1"; "t2"]})) [] sample_session).2.
Proof.
  split; [vm_compute; reflexivity|].
  apply (guard_refines_log _ 0). vm_compute. repeat split; discriminate.
Defined.

(** However a session's calls, drafts and prompts are interleaved, no
    window of one minute holds more than [MAX_CALLS_PER_MINUTE] accepted
    calls. *)
Theorem rate_limit_rolling_minute s last es t :
  times_ordered last es →
  calls_in_window t (accepted es (answers s es)) ≤ MAX_CALLS_PER_MINUTE.
Proof.
  apply (accepted_invariant (λ log, calls_in_window t log ≤ MAX_CALLS_PER_MINUTE)).
  - unfold calls_in_window, MAX_CALLS_PER_MINUTE. simpl. lia.
  - intros log e. apply window_step.
Qed.

Definition burst (n : nat) : list SessionEvent :=
  replicate n (Call (sample_call Search [] None) 1000).

Lemma rate_limit_rolling_minute_witness :
  calls_in_window 1000 (accepted (burst 70) (answers Mailbox (burst 70))) = 60 ∧
  calls_in_window 1000 (accepted (burst 70) (answers Mailbox (burst 70))) ≤ MAX_CALLS_PER_MINUTE.
Proof.
  split; [vm_compute; reflexivity|].
  apply (rate_limit_rolling_minute _ 1000). vm_compute. repeat split; discriminate.
Defined.

(** Every accepted call that changes mail stays inside the session's
    scope, touches at most [MAX_THREADS_PER_CALL] threads and keeps the
    threads changed since the last prompt at most
    [MAX_THREADS_PER_SESSION]; every accepted send names a draft the session
    was given before. *)
Theorem session_within_limits s last es :
  times_ordered last es →
  log_within_limits s (accepted es (answers s es)).
Proof.
  apply (accepted_invariant (log_within_limits s)); [|apply limits_step].
  intros before a now after H. by destruct before.
Qed.

Lemma session_within_limits_witness :
  accepted sample_session (answers (Selection {["t1"; "t2"]}) sample_session) =
    [Call (sample_call Archive ["t1"; "t2"] None) 0; AttachDraft 7; UserPrompt;
     Call (sample_call Send [] (Some 7%Z)) 59999] ∧
  log_within_limits (Selection {["t1"; "t2"]})
    (accepted sample_session (answers (Selection {["t1"; "t2"]}) sample_session)).
Proof.
  split; [vm_compute; reflexivity|].
  apply (session_within_limits _ 0). vm_compute. repeat split; discriminate.
Defined.

(** The settings screen: [set_requires_approval], a refused setting
    changing nothing. *)
Definition configure (p : Policy) (c : Tool * bool) : Policy :=
  match set_requires_approval p c.1 c.2 with Ok p' => p' | Err _ => p end.

(** What the user last said about a tool. *)
Definition last_setting (t : Tool) (settings : list (Tool * bool)) : option bool :=
  foldl (λ acc c, if decide (c.1 = t) then Some c.2 else acc) None settings.

Lemma configure_elem p c t :
  t ∈ approve_reversible (configure p c) ↔
    if decide (c.1 = t ∧ tool_risk t = Reversible) then c.2 = true
    else t ∈ approve_reversible p.
Proof.
  destruct c as [t' req]. unfold configure, set_requires_approval. simpl.
  destruct (decide (tool_risk t' ≠ Reversible)) as [Hr|Hr]; case_decide as Ht; simpl.
  - destruct Ht as [-> ?]. congruence.
  - done.
  - destruct Ht as [-> ?]. destruct req; set_solver.
  - assert (t ≠ t') by (intros ->; apply Ht; split; [done|by apply dec_stable]).
    destruct req; set_solver.
Qed.

Lemma configured_elem settings t :
  t ∈ approve_reversible (foldl configure (mkPolicy ∅) settings) ↔
    tool_risk t = Reversible ∧ last_setting t settings = Some true.
Proof.
  induction settings as [|c cs IH] using rev_ind; [set_solver|].
  unfold last_setting in *. rewrite !foldl_app. simpl. rewrite configure_elem.
  destruct c as [t' req]; simpl. repeat case_decide; naive_solver.
Qed.

(** Whatever the user configures and however often, sends, forwards and
    deletes are never allowed without approval, reads never need it, and a
    reversible tool needs it exactly when the last setting for it says so;
    a call over the thread cap is denied unless it only reads. *)
Theorem decide_configured (settings : list (Tool * bool)) a :
  decide_action (foldl configure (mkPolicy ∅) settings) a =
    match tool_risk (tool a) with
    | ReadOnly => Allow
    | risk =>
        if decide (MAX_THREADS_PER_CALL < length (thread_ids a)) then Deny TooManyThreadsInCall
        else if decide (risk = External ∨ last_setting (tool a) settings = Some true)
             then RequireApproval else Allow
    end.
Proof.
  unfold decide_action. pose proof (configured_elem settings (tool a)) as Hset.
  destruct (tool_risk (tool a)) eqn:Hr; simpl; [done|..];
    repeat case_bool_decide; repeat case_decide;
    destruct (MAX_THREADS_PER_CALL <? length (thread_ids a)) eqn:E; simpl; try done;
    (naive_solver lia).
Qed.
