(* ===== verification/MailStore.v ===== *)
(** * MailStore: the mail tables and their writer
    ([crates/mail-store/src/write.rs], schema in [migrations/])

    Tables are lists of rows in rowid order; an SQL query is a filter, map
    or sort of them, and a foreign key's ON DELETE CASCADE is written out.
    [participants_json] and [label_ids_json] are kept decoded.  A
    [MailWriter] is the store being changed and the threads it touched. *)

From S2P Require Import Prelude.
From S2P Require Import Domain.

Definition ARCHIVE_LABEL : string := "@archive".
Definition LOCAL_PREFIX : string := "local-".
Definition MAX_THREAD_PARTICIPANTS : nat := 10.

(** The Inbox categories of [read.rs], in tab order. *)
Definition CATEGORIES : list string :=
  ["CATEGORY_PROMOTIONS"; "CATEGORY_SOCIAL"; "CATEGORY_UPDATES"; "CATEGORY_FORUMS"].
Definition PRIMARY : string := "CATEGORY_PERSONAL".

(** ** Errors *)

(** The [StoreError]s the modelled code raises: the database's own
    ([Sqlite]), by the statement that failed, invalid data and files. *)
Inductive StoreError :=
| Sqlite (what : string)
| NotFoundError (what : string)
| Invalid (what : string)
| Io (what : string).
#[export] Instance store_error_eq_dec : EqDecision StoreError.
Proof. solve_decision. Defined.
Abbreviation StoreResult := (result StoreError).

(** ** Data *)

Record EmailAddress := mkAddress { addr_name : option string; addr_email : string }.
#[export] Instance email_eq_dec : EqDecision EmailAddress.
Proof. solve_decision. Defined.

(** [EmailAddress::new] *)
Definition address_new (name : option string) (email : string) : EmailAddress :=
  mkAddress (match trim <$> name with
             | Some n => if String.eqb n "" then None else Some n
             | None => None
             end) (trim email).

Inductive LabelKind := SystemLabel | UserLabel | VirtualLabel.
#[export] Instance label_kind_eq_dec : EqDecision LabelKind.
Proof. solve_decision. Defined.

(** A label as a provider lists it ([mail_domain::Label]; never virtual). *)
Record Label := mkLabel {
  l_id : LabelId; l_name : string; l_kind : LabelKind;
  l_color : option (string * string); l_visible : bool }.

Record ListHeaders := mkListHeaders {
  list_id : option string; list_name : option string;
  list_unsubscribe : option string; list_unsubscribe_post : option string }.

Record Body := mkBody {
  text_plain : option string; html_sanitized : option string; has_remote_images : bool }.

Record IncomingAttachment := mkAttachment {
  a_part_id : option string; a_provider_id : option string; a_filename : string;
  a_mime_type : string; a_size : Z; a_content_id : option string; a_is_inline : bool;
  a_data : option (list Z) }.

(** A message as a provider delivers it. *)
Record IncomingMessage := mkIncoming {
  m_id : MessageId; m_thread_id : ThreadId; m_rfc822 : option string;
  m_in_reply_to : option string; m_references : list string;
  m_from : option EmailAddress; m_to : list EmailAddress; m_cc : list EmailAddress;
  m_bcc : list EmailAddress; m_reply_to : list EmailAddress; m_subject : string;
  m_date : Millis; m_internal_date : Millis; m_snippet : string;
  m_label_ids : list LabelId; m_size_estimate : Z; m_body : option Body;
  m_attachments : list IncomingAttachment; m_list : ListHeaders;
  m_headers_json : option string }.

Inductive BodyState := Metadata | Full.
#[export] Instance body_state_eq_dec : EqDecision BodyState.
Proof. solve_decision. Defined.

(** ** Rows *)

Record LabelRow := mkLabelRow {
  lb_id : Z; lb_gmail_id : string; lb_name : string; lb_kind : LabelKind;
  lb_color_bg : option string; lb_color_fg : option string; lb_visible : bool }.

Record ThreadRow := mkThreadRow {
  th_id : Z; th_gmail_id : string; th_subject : string; th_snippet : string;
  th_first_at : Millis; th_last_at : Millis; th_message_count : Z; th_unread_count : Z;
  th_has_attachments : bool; th_is_starred : bool;
  th_participants : list EmailAddress; th_label_ids : list string }.

(** The flag columns a label change rewrites. *)
Record Flags := mkFlags { is_read : bool; is_starred : bool; is_draft : bool; is_sent_by_me : bool }.

Record MessageRow := mkMessageRow {
  ms_id : Z; ms_thread : Z; ms_gmail_id : string; ms_rfc822 : option string;
  ms_in_reply_to : option string; ms_references : list string;
  ms_from_name : option string; ms_from_email : option string; ms_subject : string;
  ms_snippet : string; ms_date : Millis; ms_internal_date : Millis; ms_size : Z;
  ms_body_state : BodyState; ms_flags : Flags; ms_has_attachments : bool;
  ms_headers_json : option string; ms_list : ListHeaders }.

Record ParticipantRow := mkParticipant {
  pt_message : Z; pt_role : string; pt_position : Z; pt_address : EmailAddress }.
Record AttachmentRow := mkAttachmentRow { at_message : Z; at_attachment : IncomingAttachment }.
Record FtsRow := mkFts {
  ft_rowid : Z; ft_subject : string; ft_from : string; ft_to : option string;
  ft_body : string; ft_attachments : option string }.
Record ContactRow := mkContact {
  ct_email : string; ct_name : option string; ct_sent : Z; ct_received : Z; ct_last_seen : Millis }.

(** ** The store *)

Record Store := mkStore {
  labels : list LabelRow;
  threads : list ThreadRow;
  messages : list MessageRow;
  message_labels : list (Z * Z);           (** (message, label) *)
  thread_labels : list (Z * Millis * Z);   (** (label, last_message_at, thread) *)
  label_stats : gmap Z (Z * Z);            (** label -> (threads, unread threads) *)
  category_stats : gmap string (Z * Z);    (** Inbox category -> (threads, unread threads) *)
  participants : list ParticipantRow;
  bodies : gmap Z Body;
  attachments : list AttachmentRow;
  messages_fts : list FtsRow;
  contacts : list ContactRow }.

Definition with_labels (x : list LabelRow) (s : Store) : Store :=
  mkStore x (threads s) (messages s) (message_labels s) (thread_labels s) (label_stats s)
    (category_stats s) (participants s) (bodies s) (attachments s) (messages_fts s) (contacts s).
Definition with_threads (x : list ThreadRow) (s : Store) : Store :=
  mkStore (labels s) x (messages s) (message_labels s) (thread_labels s) (label_stats s)
    (category_stats s) (participants s) (bodies s) (attachments s) (messages_fts s) (contacts s).
Definition with_messages (x : list MessageRow) (s : Store) : Store :=
  mkStore (labels s) (threads s) x (message_labels s) (thread_labels s) (label_stats s)
    (category_stats s) (participants s) (bodies s) (attachments s) (messages_fts s) (contacts s).
Definition with_message_labels (x : list (Z * Z)) (s : Store) : Store :=
  mkStore (labels s) (threads s) (messages s) x (thread_labels s) (label_stats s)
    (category_stats s) (participants s) (bodies s) (attachments s) (messages_fts s) (contacts s).
Definition with_thread_labels (x : list (Z * Z * Z)) (s : Store) : Store :=
  mkStore (labels s) (threads s) (messages s) (message_labels s) x (label_stats s)
    (category_stats s) (participants s) (bodies s) (attachments s) (messages_fts s) (contacts s).
Definition with_label_stats (x : gmap Z (Z * Z)) (s : Store) : Store :=
  mkStore (labels s) (threads s) (messages s) (message_labels s) (thread_labels s) x
    (category_stats s) (participants s) (bodies s) (attachments s) (messages_fts s) (contacts s).
Definition with_category_stats (x : gmap string (Z * Z)) (s : Store) : Store :=
  mkStore (labels s) (threads s) (messages s) (message_labels s) (thread_labels s)
    (label_stats s) x (participants s) (bodies s) (attachments s) (messages_fts s) (contacts s).
Definition with_participants (x : list ParticipantRow) (s : Store) : Store :=
  mkStore (labels s) (threads s) (messages s) (message_labels s) (thread_labels s)
    (label_stats s) (category_stats s) x (bodies s) (attachments s) (messages_fts s) (contacts s).
Definition with_bodies (x : gmap Z Body) (s : Store) : Store :=
  mkStore (labels s) (threads s) (messages s) (message_labels s) (thread_labels s)
    (label_stats s) (category_stats s) (participants s) x (attachments s) (messages_fts s) (contacts s).
Definition with_attachments (x : list AttachmentRow) (s : Store) : Store :=
  mkStore (labels s) (threads s) (messages s) (message_labels s) (thread_labels s)
    (label_stats s) (category_stats s) (participants s) (bodies s) x (messages_fts s) (contacts s).
Definition with_fts (x : list FtsRow) (s : Store) : Store :=
  mkStore (labels s) (threads s) (messages s) (message_labels s) (thread_labels s)
    (label_stats s) (category_stats s) (participants s) (bodies s) (attachments s) x (contacts s).
Definition with_contacts (x : list ContactRow) (s : Store) : Store :=
  mkStore (labels s) (threads s) (messages s) (message_labels s) (thread_labels s)
    (label_stats s) (category_stats s) (participants s) (bodies s) (attachments s) (messages_fts s) x.

(** The store the first migration leaves: the virtual Archive label. *)
Definition archive_row (rowid : Z) : LabelRow :=
  mkLabelRow rowid ARCHIVE_LABEL "Archive" VirtualLabel None None true.
Definition empty_store : Store :=
  mkStore [archive_row 1] [] [] [] [] ∅ ∅ [] ∅ [] [] [].

(** ** Queries *)

Definition find_label (s : Store) (gmail_id : string) : option LabelRow :=
  find_by lb_gmail_id gmail_id (labels s).
Definition label_by_rowid (s : Store) (id : Z) : option LabelRow :=
  find_by lb_id id (labels s).
Definition find_thread (s : Store) (gmail_id : string) : option ThreadRow :=
  find_by th_gmail_id gmail_id (threads s).
Definition thread_by_rowid (s : Store) (id : Z) : option ThreadRow :=
  find_by th_id id (threads s).
Definition find_message (s : Store) (gmail_id : string) : option MessageRow :=
  find_by ms_gmail_id gmail_id (messages s).

(** [MailWriter::message_rowid]: a message's rowid and its thread's. *)
Definition message_rowid (s : Store) (id : MessageId) : option (Z * Z) :=
  (λ m, (ms_id m, ms_thread m)) <$> find_message s id.

(** The label rows of a message ([message_labels ml JOIN labels l]). *)
Definition labels_of_message (s : Store) (message : Z) : list LabelRow :=
  List.filter (λ l, bool_decide ((message, lb_id l) ∈ message_labels s)) (labels s).

(** [MailWriter::message_label_ids] *)
Definition message_label_ids (s : Store) (message : Z) : list string :=
  lb_gmail_id <$> labels_of_message s message.

(** The messages of a thread ([ORDER BY internal_date, id]). *)
Definition message_le (a b : MessageRow) : Prop :=
  (ms_internal_date a < ms_internal_date b ∨
   ms_internal_date a = ms_internal_date b ∧ ms_id a ≤ ms_id b)%Z.
#[export] Instance message_le_dec a b : Decision (message_le a b).
Proof. unfold message_le. apply _. Defined.
Definition thread_messages (s : Store) (thread : Z) : list MessageRow :=
  merge_sort message_le (List.filter (λ m, bool_decide (ms_thread m = thread)) (messages s)).

(** ** The writer *)

(** What a stored message's labels become when it is upserted again. *)
Inductive StoredLabels :=
| Replace
| Keep
| Merge (merge : list LabelId → list LabelId → list LabelId).

Record MailWriter := mkWriter {
  tx : Store;
  dirty : gmap Z string;          (** thread rowid -> provider thread id *)
  stored_labels : StoredLabels }.

Definition writer_new (s : Store) : MailWriter := mkWriter s ∅ Replace.
Definition with_stored_labels (w : MailWriter) (x : StoredLabels) : MailWriter :=
  mkWriter (tx w) (dirty w) x.
Definition on_tx (f : Store → Store) (w : MailWriter) : MailWriter :=
  mkWriter (f (tx w)) (dirty w) (stored_labels w).

(** [mark_thread_rowid] *)
Definition mark_thread_rowid (thread : Z) (w : MailWriter) : MailWriter :=
  match dirty w !! thread with
  | Some _ => w
  | None =>
      match thread_by_rowid (tx w) thread with
      | Some t => mkWriter (tx w) (<[thread := th_gmail_id t]> (dirty w)) (stored_labels w)
      | None => w
      end
  end.

(** [mark_threads_with_label] *)
Definition mark_threads_with_label (label : Z) (w : MailWriter) : MailWriter :=
  foldl (λ w '(l, _, t), if bool_decide (l = label) then mark_thread_rowid t w else w)
    w (thread_labels (tx w)).

(** [ensure_thread]: the thread's rowid, inserting an empty thread. *)
Definition ensure_thread (id : ThreadId) (w : MailWriter) : MailWriter * Z :=
  match find_thread (tx w) id with
  | Some t => (w, th_id t)
  | None =>
      let rowid := next_rowid (th_id <$> threads (tx w)) in
      (on_tx (λ s, with_threads
         (threads s ++ [mkThreadRow rowid id "" "" 0 0 0 0 false false [] []]) s) w, rowid)
  end.

(** [label_rowid]: a label's rowid, inserting a hidden placeholder. *)
Definition placeholder_kind (id : string) : LabelKind :=
  if string_all (λ c, let n := Ascii.N_of_ascii c in
                      ((65 <=? n) && (n <=? 90) || (n =? 95))%N) id
  then SystemLabel else UserLabel.
Definition label_rowid (s : Store) (id : string) : Store * Z :=
  match find_label s id with
  | Some l => (s, lb_id l)
  | None =>
      let rowid := next_rowid (lb_id <$> labels s) in
      (with_labels (labels s ++ [mkLabelRow rowid id id (placeholder_kind id) None None false]) s,
       rowid)
  end.

(** What [PRAGMA foreign_keys] refuses: a row of a message that is gone. *)
Definition FOREIGN_KEY : StoreError := Sqlite "FOREIGN KEY constraint failed".
Definition message_exists (s : Store) (message : Z) : bool :=
  List.existsb (λ m, bool_decide (ms_id m = message)) (messages s).

(** [replace_message_labels] *)
Definition insert_message_label (message : Z) (s : Store) (l : LabelId) : StoreResult Store :=
  if bool_decide (l = ARCHIVE_LABEL)
  then Err (Invalid "@archive is virtual and cannot be applied")
  else let '(s, rowid) := label_rowid s l in
       if negb (message_exists s message) then Err FOREIGN_KEY
       else Ok (if bool_decide ((message, rowid) ∈ message_labels s) then s
                else with_message_labels (message_labels s ++ [(message, rowid)]) s).

Fixpoint insert_message_labels (message : Z) (s : Store) (ls : list LabelId) : StoreResult Store :=
  match ls with
  | [] => Ok s
  | l :: ls => s ← insert_message_label message s l; insert_message_labels message s ls
  end.

Definition replace_message_labels (s : Store) (message : Z) (ls : list LabelId) : StoreResult Store :=
  insert_message_labels message
    (with_message_labels (List.filter (λ '(m, _), negb (bool_decide (m = message))) (message_labels s)) s)
    ls.

(** ** Label list *)

(** [upsert_labels]: by provider id; a conflict updates the other columns. *)
Definition upsert_label (s : Store) (l : Label) : Store :=
  match find_label s (l_id l) with
  | Some _ =>
      with_labels
        ((λ r, if bool_decide (lb_gmail_id r = l_id l)
               then mkLabelRow (lb_id r) (lb_gmail_id r) (l_name l) (l_kind l)
                      (fst <$> l_color l) (snd <$> l_color l) (l_visible l)
               else r) <$> labels s) s
  | None =>
      with_labels
        (labels s ++ [mkLabelRow (next_rowid (lb_id <$> labels s)) (l_id l) (l_name l) (l_kind l)
                        (fst <$> l_color l) (snd <$> l_color l) (l_visible l)]) s
  end.
Definition upsert_labels (ls : list Label) (w : MailWriter) : MailWriter :=
  on_tx (λ s, foldl upsert_label s ls) w.

(** [DELETE FROM labels WHERE id = ?1] and what it cascades to. *)
Definition delete_label_row (rowid : Z) (s : Store) : Store :=
  with_labels (List.filter (λ l, negb (bool_decide (lb_id l = rowid))) (labels s))
  (with_message_labels (List.filter (λ '(_, l), negb (bool_decide (l = rowid))) (message_labels s))
  (with_thread_labels (List.filter (λ '(l, _, _), negb (bool_decide (l = rowid))) (thread_labels s))
  (with_label_stats (delete rowid (label_stats s)) s))).

(** [retain_labels] *)
Definition retain_labels (keep : list LabelId) (w : MailWriter) : MailWriter :=
  foldl (λ w l,
      if bool_decide (lb_gmail_id l ∈ keep) then w
      else on_tx (delete_label_row (lb_id l)) (mark_threads_with_label (lb_id l) w))
    w (List.filter (λ l, negb (bool_decide (lb_kind l = VirtualLabel))) (labels (tx w))).

(** ** Messages *)

(** Flags are derived from labels. *)
Definition has_label (ls : list LabelId) (l : LabelId) : bool := bool_decide (l ∈ ls).
Definition flags_of (ls : list LabelId) : Flags :=
  mkFlags (negb (has_label ls UNREAD)) (has_label ls STARRED) (has_label ls DRAFT) (has_label ls SENT).

Definition set_flags (f : Flags) (m : MessageRow) : MessageRow :=
  mkMessageRow (ms_id m) (ms_thread m) (ms_gmail_id m) (ms_rfc822 m) (ms_in_reply_to m)
    (ms_references m) (ms_from_name m) (ms_from_email m) (ms_subject m) (ms_snippet m) (ms_date m)
    (ms_internal_date m) (ms_size m) (ms_body_state m) f (ms_has_attachments m)
    (ms_headers_json m) (ms_list m).
Definition set_gmail_id (id : string) (m : MessageRow) : MessageRow :=
  mkMessageRow (ms_id m) (ms_thread m) id (ms_rfc822 m) (ms_in_reply_to m)
    (ms_references m) (ms_from_name m) (ms_from_email m) (ms_subject m) (ms_snippet m) (ms_date m)
    (ms_internal_date m) (ms_size m) (ms_body_state m) (ms_flags m) (ms_has_attachments m)
    (ms_headers_json m) (ms_list m).

(** [UPDATE messages SET ... WHERE p] *)
Definition update_messages (p : MessageRow → bool) (f : MessageRow → MessageRow) (s : Store) : Store :=
  with_messages ((λ m, if p m then f m else m) <$> messages s) s.

(** [modify_message_labels]: [false] for an unknown message. *)
Definition modified_labels (stored : list string) (add remove : list LabelId) : list LabelId :=
  merge_sort String.le
    (elements (list_to_set add ∪ ((list_to_set stored : gset string) ∖ list_to_set remove))).
Definition modify_message_labels (id : MessageId) (add remove : list LabelId) (w : MailWriter) :
    StoreResult (MailWriter * bool) :=
  match message_rowid (tx w) id with
  | None => Ok (w, false)
  | Some (rowid, thread) =>
      let ls := modified_labels (message_label_ids (tx w) rowid) add remove in
      s ← replace_message_labels (tx w) rowid ls;
      let s := update_messages (λ m, bool_decide (ms_id m = rowid)) (set_flags (flags_of ls)) s in
      Ok (mark_thread_rowid thread (on_tx (λ _, s) w), true)
  end.

(** [DELETE FROM messages WHERE id = ?1] and what it cascades to. *)
Definition delete_message_row (rowid : Z) (s : Store) : Store :=
  with_messages (List.filter (λ m, negb (bool_decide (ms_id m = rowid))) (messages s))
  (with_message_labels (List.filter (λ '(m, _), negb (bool_decide (m = rowid))) (message_labels s))
  (with_participants (List.filter (λ p, negb (bool_decide (pt_message p = rowid))) (participants s))
  (with_bodies (delete rowid (bodies s))
  (with_attachments (List.filter (λ a, negb (bool_decide (at_message a = rowid))) (attachments s)) s)))).
Definition delete_fts_row (rowid : Z) (s : Store) : Store :=
  with_fts (List.filter (λ f, negb (bool_decide (ft_rowid f = rowid))) (messages_fts s)) s.

(** [delete_message] *)
Definition delete_message (id : MessageId) (w : MailWriter) : MailWriter * bool :=
  match message_rowid (tx w) id with
  | None => (w, false)
  | Some (rowid, thread) =>
      (mark_thread_rowid thread (on_tx (λ s, delete_message_row rowid (delete_fts_row rowid s)) w), true)
  end.

(** [adopt_local_copy] *)
Definition adopt_local_copy (local sent : MessageId) (w : MailWriter) : MailWriter :=
  match message_rowid (tx w) sent with
  | Some _ => (delete_message local w).1
  | None =>
      match message_rowid (tx w) local with
      | Some (_, thread) =>
          mark_thread_rowid thread
            (on_tx (update_messages (λ m, bool_decide (ms_gmail_id m = local)) (set_gmail_id sent)) w)
      | None => w
      end
  end.

(** ** Storing a message *)

(** [replace_participants] *)
Definition participant_rows (message : Z) (m : IncomingMessage) : list ParticipantRow :=
  '(role, l) ← [("from", option_list (m_from m)); ("to", m_to m); ("cc", m_cc m);
                ("bcc", m_bcc m); ("reply_to", m_reply_to m)];
  imap (λ i a, mkParticipant message role (Z.of_nat i) a) l.
Definition replace_participants (message : Z) (m : IncomingMessage) (s : Store) : StoreResult Store :=
  match participant_rows message m with
  | [] => Ok (with_participants
                (List.filter (λ p, negb (bool_decide (pt_message p = message))) (participants s)) s)
  | rows =>
      if message_exists s message
      then Ok (with_participants
                 (List.filter (λ p, negb (bool_decide (pt_message p = message))) (participants s)
                  ++ rows) s)
      else Err FOREIGN_KEY
  end.

(** [replace_attachments] *)
Definition attachment_row (message : Z) (a : IncomingAttachment) : AttachmentRow :=
  mkAttachmentRow message
    (mkAttachment (a_part_id a) (a_provider_id a) (a_filename a)
       (if String.eqb (a_mime_type a) "" then "application/octet-stream" else a_mime_type a)
       (a_size a) (a_content_id a) (a_is_inline a) (a_data a)).
Definition replace_attachments (message : Z) (l : list IncomingAttachment) (s : Store) : Store :=
  with_attachments
    (List.filter (λ a, negb (bool_decide (at_message a = message))) (attachments s)
     ++ (attachment_row message <$> l)) s.

(** [record_contacts]: addresses are unique up to ASCII case. *)
Definition upsert_contact (sent received : Z) (seen : Millis) (s : Store) (a : EmailAddress) : Store :=
  if List.existsb (λ c, nocase_eqb (ct_email c) (addr_email a)) (contacts s)
  then with_contacts
    ((λ c, if nocase_eqb (ct_email c) (addr_email a)
           then mkContact (ct_email c)
                  (match addr_name a with Some n => Some n | None => ct_name c end)
                  (ct_sent c + sent) (ct_received c + received) (Z.max (ct_last_seen c) seen)
           else c) <$> contacts s) s
  else with_contacts
    (contacts s ++ [mkContact (addr_email a) (addr_name a) sent received seen]) s.
Definition record_contacts (m : IncomingMessage) (sent_by_me : bool) (s : Store) : Store :=
  if sent_by_me
  then foldl (upsert_contact 1 0 (m_internal_date m)) s (m_to m ++ m_cc m ++ m_bcc m)
  else match m_from m with
       | Some a => upsert_contact 0 1 (m_internal_date m) s a
       | None => s
       end.

(** [index_message]: the row's text columns, as the SELECT builds them. *)
Definition person_text (name : option string) (email : string) : string :=
  sql_trim (default "" name +:+ " " +:+ email).
Definition group_concat (l : list string) : option string :=
  match l with [] => None | _ => Some (join " " l) end.
Definition fts_row (s : Store) (m : MessageRow) : FtsRow :=
  mkFts (ms_id m) (ms_subject m)
    (person_text (ms_from_name m) (default "" (ms_from_email m)))
    (group_concat
       ((λ p, person_text (addr_name (pt_address p)) (addr_email (pt_address p))) <$>
        List.filter (λ p, bool_decide (pt_message p = ms_id m) &&
                          bool_decide (pt_role p ∈ ["to"; "cc"; "bcc"])) (participants s)))
    (default (ms_snippet m) (bodies s !! ms_id m ≫= text_plain))
    (group_concat
       ((λ a, a_filename (at_attachment a)) <$>
        List.filter (λ a, bool_decide (at_message a = ms_id m)) (attachments s))).
Definition index_message (message : Z) (s : Store) : Store :=
  let s := delete_fts_row message s in
  with_fts (messages_fts s ++
            (fts_row s <$> List.filter (λ m, bool_decide (ms_id m = message)) (messages s))) s.

(** [replace_local_copies]: [LIKE 'local-%'] ignores ASCII case. *)
Definition replace_local_copies (m : IncomingMessage) (w : MailWriter) : MailWriter :=
  match m_rfc822 m with
  | None => w
  | Some rfc =>
      if starts_with LOCAL_PREFIX (m_id m) then w
      else foldl (λ w r, (delete_message (ms_gmail_id r) w).1) w
             (List.filter (λ r, bool_decide (ms_rfc822 r = Some rfc) &&
                                starts_with LOCAL_PREFIX (ascii_lower (ms_gmail_id r)))
                (messages (tx w)))
  end.

(** The labels an upsert gives the message. *)
Definition incoming_labels (w : MailWriter) (existing : option MessageRow) (m : IncomingMessage) :
    list LabelId :=
  match existing, stored_labels w with
  | Some r, Keep => message_label_ids (tx w) (ms_id r)
  | Some r, Merge merge => merge (message_label_ids (tx w) (ms_id r)) (m_label_ids m)
  | _, _ => m_label_ids m
  end.

Definition incoming_body_state (m : IncomingMessage) (existing : option MessageRow) : BodyState :=
  match m_body m, existing with
  | Some _, _ => Full
  | None, Some r => ms_body_state r
  | None, None => Metadata
  end.

Definition coalesce (a b : option string) : option string :=
  match a with Some x => Some x | None => b end.

(** The columns the UPDATE of a stored message writes. *)
Definition updated_row (m : IncomingMessage) (thread : Z) (f : Flags) (r : MessageRow) : MessageRow :=
  let full := bool_decide (is_Some (m_body m)) in
  mkMessageRow (ms_id r) thread (ms_gmail_id r) (m_rfc822 m) (m_in_reply_to m) (m_references m)
    (m_from m ≫= addr_name) (addr_email <$> m_from m) (m_subject m)
    (if full || negb (String.eqb (m_snippet m) "") then m_snippet m else ms_snippet r)
    (m_date m) (m_internal_date m) (m_size_estimate m) (incoming_body_state m (Some r)) f
    (if full then List.existsb (λ a, negb (a_is_inline a)) (m_attachments m)
     else ms_has_attachments r)
    (coalesce (m_headers_json m) (ms_headers_json r))
    (mkListHeaders
       (coalesce (list_id (m_list m)) (list_id (ms_list r)))
       (coalesce (list_name (m_list m)) (list_name (ms_list r)))
       (coalesce (list_unsubscribe (m_list m)) (list_unsubscribe (ms_list r)))
       (coalesce (list_unsubscribe_post (m_list m)) (list_unsubscribe_post (ms_list r)))).

(** The row the INSERT of a new message writes. *)
Definition new_row (m : IncomingMessage) (rowid thread : Z) (f : Flags) : MessageRow :=
  mkMessageRow rowid thread (m_id m) (m_rfc822 m) (m_in_reply_to m) (m_references m)
    (m_from m ≫= addr_name) (addr_email <$> m_from m) (m_subject m) (m_snippet m)
    (m_date m) (m_internal_date m) (m_size_estimate m) (incoming_body_state m None) f
    (List.existsb (λ a, negb (a_is_inline a)) (m_attachments m))
    (m_headers_json m) (m_list m).

(** The message's row, updated or inserted: the writer and its rowid. *)
Definition store_row (m : IncomingMessage) (thread : Z) (existing : option MessageRow)
    (f : Flags) (w : MailWriter) : MailWriter * Z :=
  match existing with
  | Some r =>
      let w := if bool_decide (ms_thread r ≠ thread) then mark_thread_rowid (ms_thread r) w else w in
      (on_tx (update_messages (λ x, bool_decide (ms_id x = ms_id r)) (updated_row m thread f)) w, ms_id r)
  | None =>
      let rowid := next_rowid (ms_id <$> messages (tx w)) in
      let w := on_tx (λ s, with_messages (messages s ++ [new_row m rowid thread f]) s) w in
      let w := on_tx (record_contacts m (is_sent_by_me f)) w in
      (replace_local_copies m w, rowid)
  end.

(** The body and attachments of a message delivered in full. *)
Definition store_body (rowid : Z) (m : IncomingMessage) (s : Store) : StoreResult Store :=
  match m_body m with
  | Some body =>
      if message_exists s rowid
      then Ok (replace_attachments rowid (m_attachments m)
                 (with_bodies (<[rowid := body]> (bodies s)) s))
      else Err FOREIGN_KEY
  | None => Ok s
  end.

(** [upsert_message] *)
Definition upsert_message (m : IncomingMessage) (w : MailWriter) : StoreResult MailWriter :=
  let '(w, thread) := ensure_thread (m_thread_id m) w in
  let existing := find_message (tx w) (m_id m) in
  let ls := incoming_labels w existing m in
  let '(w, rowid) := store_row m thread existing (flags_of ls) w in
  s ← replace_participants rowid m (tx w);
  s ← replace_message_labels s rowid ls;
  s ← store_body rowid m s;
  Ok (mkWriter (index_message rowid s) (<[thread := m_thread_id m]> (dirty w)) (stored_labels w)).

(** ** Recomputing a thread *)

Record MailboxChange := mkChange {
  inserted : gset string; updated : gset string; removed : gset string }.
Abbreviation ThreadChanges := (gmap string MailboxChange).
Definition no_change : MailboxChange := mkChange ∅ ∅ ∅.

Definition note_inserted (g : string) (label : string) (c : ThreadChanges) : ThreadChanges :=
  let e := default no_change (c !! label) in
  <[label := mkChange ({[g]} ∪ inserted e) (updated e) (removed e)]> c.
Definition note_updated (g : string) (label : string) (c : ThreadChanges) : ThreadChanges :=
  let e := default no_change (c !! label) in
  <[label := mkChange (inserted e) ({[g]} ∪ updated e) (removed e)]> c.
Definition note_removed (g : string) (label : string) (c : ThreadChanges) : ThreadChanges :=
  let e := default no_change (c !! label) in
  <[label := mkChange (inserted e) (updated e) ({[g]} ∪ removed e)]> c.

(** The Inbox category a thread with these labels counts in. *)
Definition inbox_category (ls : list string) : option string :=
  if bool_decide (INBOX ∈ ls)
  then Some (default PRIMARY (List.find (λ c, bool_decide (c ∈ ls)) CATEGORIES))
  else None.

(** [count_inbox_category]: add to the counters, inserting them. *)
Definition count_inbox_category (category : string) (dthreads dunread : Z) (s : Store) : Store :=
  with_category_stats
    (<[category := let '(n, u) := default (0, 0)%Z (category_stats s !! category) in
                   (n + dthreads, u + dunread)%Z]> (category_stats s)) s.

(** [add_thread_label]: the row's key must be new. *)
Definition add_thread_label (label : Z) (at_ : Millis) (thread : Z) (unread : bool) (s : Store) :
    StoreResult Store :=
  if bool_decide ((label, at_, thread) ∈ thread_labels s)
  then Err (Sqlite "UNIQUE constraint failed: thread_labels")
  else
    Ok (with_thread_labels (thread_labels s ++ [(label, at_, thread)])
        (with_label_stats
           (<[label := let '(n, u) := default (0, 0)%Z (label_stats s !! label) in
                       (n + 1, u + Z.b2z unread)%Z]> (label_stats s)) s)).

(** [remove_thread_label]: the UPDATE changes nothing without a row. *)
Definition remove_thread_label (label thread : Z) (unread : bool) (s : Store) : Store :=
  with_thread_labels
    (List.filter (λ '(l, _, t), negb (bool_decide (l = label ∧ t = thread))) (thread_labels s))
  (with_label_stats
    (alter (λ '(n, u), (n - 1, u - Z.b2z unread)%Z) label (label_stats s)) s).

Definition label_pair (l : LabelRow) : Z * string := (lb_id l, lb_gmail_id l).

(** [SELECT tl.label_id, l.gmail_id FROM thread_labels tl JOIN labels l]. *)
Definition thread_mailboxes (s : Store) (thread : Z) : gmap Z string :=
  list_to_map (label_pair <$>
    List.filter (λ l, List.existsb (λ '(l', _, t), bool_decide (l' = lb_id l ∧ t = thread))
                        (thread_labels s)) (labels s)).

(** The labels on any message of the thread, virtual ones excluded
    ([SELECT DISTINCT l.id, l.gmail_id ... ORDER BY l.gmail_id]). *)
Definition pair_le (a b : Z * string) : Prop := String.le a.2 b.2.
#[export] Instance pair_le_dec a b : Decision (pair_le a b).
Proof. unfold pair_le. apply _. Defined.
Definition on_thread_message (s : Store) (thread label : Z) : bool :=
  List.existsb (λ m, bool_decide (ms_thread m = thread) &&
                     bool_decide ((ms_id m, label) ∈ message_labels s)) (messages s).
Definition thread_message_labels (s : Store) (thread : Z) : list (Z * string) :=
  merge_sort pair_le
    (label_pair <$>
       List.filter (λ l, negb (bool_decide (lb_kind l = VirtualLabel)) &&
                         on_thread_message s thread (lb_id l)) (labels s)).

(** [wholly_spam_or_trash] *)
Definition in_spam_or_trash (s : Store) (message : Z) : bool :=
  List.existsb (λ l, bool_decide (lb_gmail_id l ∈ [SPAM; TRASH])) (labels_of_message s message).
Definition wholly_spam_or_trash (s : Store) (thread : Z) : bool :=
  forallb (λ m, in_spam_or_trash s (ms_id m))
    (List.filter (λ m, bool_decide (ms_thread m = thread)) (messages s)).

(** The mailboxes the thread belongs in: its labels, and Archive when it is
    outside the Inbox and not wholly spam or trash. *)
Definition new_mailboxes (s : Store) (thread : Z) : StoreResult (gmap Z string) :=
  let ls := thread_message_labels s thread in
  let base := list_to_map ls in
  if negb (bool_decide (INBOX ∈ ls.*2)) && negb (wholly_spam_or_trash s thread)
  then archive ← ok_or (Sqlite "Query returned no rows") (find_label s ARCHIVE_LABEL);
       Ok (<[lb_id archive := ARCHIVE_LABEL]> base)
  else Ok base.

Section recompute.
(** Unicode's lower-case mapping ([str::to_lowercase]). *)
Context (to_lowercase : string → string).

Definition message_from (m : MessageRow) : option EmailAddress :=
  address_new (ms_from_name m) <$> ms_from_email m.

(** Distinct senders, oldest first, at most [MAX_THREAD_PARTICIPANTS]. *)
Definition add_participant (acc : gset string * list EmailAddress) (f : EmailAddress) :
    gset string * list EmailAddress :=
  let '(seen, out) := acc in
  let n := to_lowercase (addr_email f) in
  if bool_decide (n ∈ seen) then acc
  else ({[n]} ∪ seen,
        if length out <? MAX_THREAD_PARTICIPANTS then out ++ [f] else out).
Definition thread_participants (ms : list MessageRow) : list EmailAddress :=
  (foldl add_participant (∅, []) (omap message_from ms)).2.

(** The thread's aggregates over its messages, oldest first.  Drafts only
    count when the thread has nothing else. *)
Definition aggregate (t : ThreadRow) (ms : list MessageRow) (m0 : MessageRow)
    (label_ids : list string) : ThreadRow :=
  let non_draft := List.filter (λ m, negb (is_draft (ms_flags m))) ms in
  let counted := match non_draft with [] => ms | _ => non_draft end in
  let first := default m0 (head counted) in
  let last := default (default m0 (list.last ms)) (list.last counted) in
  mkThreadRow (th_id t) (th_gmail_id t) (ms_subject first) (ms_snippet last)
    (ms_internal_date first) (ms_internal_date last) (Z.of_nat (length counted))
    (Z.of_nat (count (λ m, negb (is_read (ms_flags m))) ms))
    (List.existsb ms_has_attachments ms)
    (List.existsb (λ m, is_starred (ms_flags m)) ms)
    (thread_participants ms) label_ids.

Definition thread_unread (t : ThreadRow) : bool := (0 <? th_unread_count t)%Z.

Definition update_thread (thread : Z) (f : ThreadRow → ThreadRow) (s : Store) : Store :=
  with_threads ((λ t, if bool_decide (th_id t = thread) then f t else t) <$> threads s) s.

(** [DELETE FROM threads WHERE id = ?1] of a thread with no messages. *)
Definition delete_thread_row (thread : Z) (s : Store) : Store :=
  with_threads (List.filter (λ t, negb (bool_decide (th_id t = thread))) (threads s))
  (with_thread_labels (List.filter (λ '(_, _, t), negb (bool_decide (t = thread))) (thread_labels s)) s).

(** The first half: the thread leaves every counter it was in. *)
Definition retract_thread (thread : Z) (s : Store) : Store :=
  let old_unread := default false (thread_unread <$> thread_by_rowid s thread) in
  let old_ids := default [] (th_label_ids <$> thread_by_rowid s thread) in
  let s' := foldl (λ s l, remove_thread_label l thread old_unread s) s
              (map_to_list (thread_mailboxes s thread)).*1 in
  match inbox_category old_ids with
  | Some c => count_inbox_category c (-1) (- Z.b2z old_unread) s'
  | None => s'
  end.

Fixpoint add_thread_labels (ls : list Z) (at_ : Millis) (thread : Z) (unread : bool) (s : Store) :
    StoreResult Store :=
  match ls with
  | [] => Ok s
  | l :: ls => s ← add_thread_label l at_ thread unread s; add_thread_labels ls at_ thread unread s
  end.

(** The second half, for a thread with messages: its aggregates, its
    mailboxes and the counters. *)
Definition publish_thread (thread : Z) (m0 : MessageRow) (s : Store) : StoreResult (Store * gmap Z string) :=
  let ms := thread_messages s thread in
  let label_ids := (thread_message_labels s thread).*2 in
  let s := update_thread thread (λ t, aggregate t ms m0 label_ids) s in
  mailboxes ← new_mailboxes s thread;
  let agg := aggregate (mkThreadRow thread "" "" "" 0 0 0 0 false false [] []) ms m0 label_ids in
  s ← add_thread_labels (map_to_list mailboxes).*1 (th_last_at agg) thread (thread_unread agg) s;
  Ok (match inbox_category label_ids with
      | Some c => count_inbox_category c 1 (Z.b2z (thread_unread agg)) s
      | None => s
      end, mailboxes).

(** The mailbox transitions of one thread. *)
Definition note_transitions (g : string) (old new : gmap Z string) (c : ThreadChanges) : ThreadChanges :=
  let c := foldl (λ c '(rowid, label),
               if bool_decide (is_Some (new !! rowid)) then note_updated g label c
               else note_removed g label c) c (map_to_list old) in
  foldl (λ c '(rowid, label),
      if bool_decide (is_Some (old !! rowid)) then c else note_inserted g label c)
    c (map_to_list new).

(** [recompute_thread] *)
Definition recompute_thread (thread : Z) (g : string) (s : Store) (c : ThreadChanges) :
    StoreResult (Store * ThreadChanges) :=
  let old := thread_mailboxes s thread in
  let s' := retract_thread thread s in
  match thread_messages s thread with
  | [] => Ok (delete_thread_row thread s',
              foldl (λ c '(_, label), note_removed g label c) c (map_to_list old))
  | m0 :: _ =>
      '(s', new) ← publish_thread thread m0 s';
      Ok (s', note_transitions g old new c)
  end.

Fixpoint recompute_threads (ts : list (Z * string)) (s : Store) (c : ThreadChanges) :
    StoreResult (Store * ThreadChanges) :=
  match ts with
  | [] => Ok (s, c)
  | (thread, g) :: ts =>
      '(s, c) ← recompute_thread thread g s c; recompute_threads ts s c
  end.

(** [MailWriter::finish]: every touched thread, by rowid. *)
Definition dirty_le (a b : Z * string) : Prop := (a.1 ≤ b.1)%Z.
#[export] Instance dirty_le_dec a b : base.Decision (dirty_le a b).
Proof. unfold dirty_le. apply _. Defined.
Definition finish (w : MailWriter) : StoreResult (Store * ThreadChanges) :=
  recompute_threads (merge_sort dirty_le (map_to_list (dirty w))) (tx w) ∅.
End recompute.

(** * The denormalised mail data agrees with the base tables
    ([crates/mail-store/src/consistency.rs])

    [check] lists every way the derived tables disagree with the base
    tables, query by query as the diagnostics do.  The theorems show that
    whatever a [MailWriter] session does, [finish] leaves nothing for it to
    report. *)

(** ** The checks *)

Inductive Problem :=
| EmptyThread (thread : string)
| UnreadCount (thread : string)
| IsStarred (thread : string)
| ThreadLabelsMissing (thread label : string)
| ThreadLabelsExtra (thread label : string)
| SortKey (thread : string)
| ArchiveMembership (thread : string)
| LabelStats (label : string)
| CategoryStats (category : string)
| UnknownCategory (category : string)
| FtsCount (indexed stored : nat).

Definition messages_in (s : Store) (thread : Z) : list MessageRow :=
  List.filter (λ m, bool_decide (ms_thread m = thread)) (messages s).
Definition has_thread_label (s : Store) (label thread : Z) : bool :=
  List.existsb (λ '(l, _, t), bool_decide (l = label ∧ t = thread)) (thread_labels s).
Definition unread_in (ms : list MessageRow) : Z :=
  Z.of_nat (count (λ m, negb (is_read (ms_flags m))) ms).
Definition starred_in (ms : list MessageRow) : bool :=
  List.existsb (λ m, is_starred (ms_flags m)) ms.

(** [GROUP BY thread_id] has no row for a thread without messages. *)
Definition check_thread (s : Store) (t : ThreadRow) : list Problem :=
  let ms := messages_in s (th_id t) in
  (match ms with [] => [EmptyThread (th_gmail_id t)] | _ => [] end) ++
  (match ms with
   | [] => []
   | _ => (if bool_decide (th_unread_count t = unread_in ms) then [] else [UnreadCount (th_gmail_id t)]) ++
          (if bool_decide (th_is_starred t = starred_in ms) then [] else [IsStarred (th_gmail_id t)])
   end) ++
  (l ← labels s;
     if on_thread_message s (th_id t) (lb_id l) && negb (has_thread_label s (lb_id l) (th_id t))
     then [ThreadLabelsMissing (th_gmail_id t) (lb_gmail_id l)] else []) ++
  (l ← labels s;
     if has_thread_label s (lb_id l) (th_id t) && negb (bool_decide (lb_gmail_id l = ARCHIVE_LABEL)) &&
        negb (on_thread_message s (th_id t) (lb_id l))
     then [ThreadLabelsExtra (th_gmail_id t) (lb_gmail_id l)] else []) ++
  ('(_, at_, t') ← thread_labels s;
     if bool_decide (t' = th_id t) && negb (bool_decide (at_ = th_last_at t))
     then [SortKey (th_gmail_id t)] else []) ++
  (if eqb
        (List.existsb (λ l, bool_decide (lb_gmail_id l = ARCHIVE_LABEL) &&
                            has_thread_label s (lb_id l) (th_id t)) (labels s))
        (negb (List.existsb (λ l, bool_decide (lb_gmail_id l = INBOX) &&
                                  on_thread_message s (th_id t) (lb_id l)) (labels s)) &&
         List.existsb (λ m, negb (in_spam_or_trash s (ms_id m))) ms)
   then [] else [ArchiveMembership (th_gmail_id t)]).

(** The thread rows joined to [thread_labels] rows of one label. *)
Definition threads_labelled (s : Store) (label : Z) : list ThreadRow :=
  '(l, _, t) ← thread_labels s;
  if bool_decide (l = label) then List.filter (λ r, bool_decide (th_id r = t)) (threads s) else [].
Definition tally (ts : list ThreadRow) : Z * Z :=
  (Z.of_nat (length ts), Z.of_nat (count thread_unread ts)).

Definition check_label (s : Store) (l : LabelRow) : list Problem :=
  if bool_decide (default (0, 0)%Z (label_stats s !! lb_id l) = tally (threads_labelled s (lb_id l)))
  then [] else [LabelStats (lb_gmail_id l)].

(** The tab [read::count_inbox_categories] counts a thread in: the first
    category among its mailboxes, Primary for none. *)
Definition counted_category (s : Store) (t : ThreadRow) : string :=
  default PRIMARY
    (List.find (λ c, List.existsb (λ l, bool_decide (lb_gmail_id l = c) &&
                                        has_thread_label s (lb_id l) (th_id t)) (labels s))
       CATEGORIES).
Definition counted_in_category (s : Store) (category : string) : Z * Z :=
  match find_label s INBOX with
  | Some inbox =>
      tally (List.filter (λ t, bool_decide (counted_category s t = category))
               (threads_labelled s (lb_id inbox)))
  | None => (0, 0)%Z
  end.
Definition category_count (p : Z * Z) : Z * Z := (as_u32 p.1, as_u32 p.2).

Definition check_categories (s : Store) : list Problem :=
  (c ← PRIMARY :: CATEGORIES;
     if bool_decide (category_count (default (0, 0)%Z (category_stats s !! c)) =
                     category_count (counted_in_category s c))
     then [] else [CategoryStats c]) ++
  ('(c, (n, u)) ← map_to_list (category_stats s);
     if negb (bool_decide (n = 0 ∧ u = 0)%Z) && negb (bool_decide (c ∈ PRIMARY :: CATEGORIES))
     then [UnknownCategory c] else []).

Definition check_fts (s : Store) : list Problem :=
  if length (messages_fts s) =? length (messages s) then []
  else [FtsCount (length (messages_fts s)) (length (messages s))].

(** [consistency::check] *)
Definition check (s : Store) : list Problem :=
  (threads s ≫= check_thread s) ++ (labels s ≫= check_label s) ++ check_categories s ++ check_fts s.

Example check_empty_store : check empty_store = [].
Proof. vm_compute. reflexivity. Qed.
