(* ===== verification/StoreInvariant.v ===== *)
(** * StoreInvariant: what every [MailWriter] operation preserves

    [store_inv] relates the tables to one another; a thread is [thread_ok]
    when its denormalised columns and its [thread_labels] rows agree with its
    messages.  A writer keeps every thread it did not mark dirty
    [thread_ok]: an operation that leaves a thread's view alone
    ([same_view]) leaves it [thread_ok]. *)

From S2P Require Import Prelude.
From S2P Require Import Domain.
From S2P Require Import MailStore.

(** ** Labels as names *)

Definition label_name (ls : list LabelRow) (l : Z) : option string :=
  lb_gmail_id <$> find_by lb_id l ls.

Definition labels_inv (ls : list LabelRow) : Prop :=
  NoDup (lb_id <$> ls) ∧ NoDup (lb_gmail_id <$> ls) ∧
  (∀ r, r ∈ ls → lb_kind r = VirtualLabel ↔ lb_gmail_id r = ARCHIVE_LABEL) ∧
  ARCHIVE_LABEL ∈ lb_gmail_id <$> ls.

Definition messages_inv (ms : list MessageRow) : Prop :=
  NoDup (ms_id <$> ms) ∧ NoDup (ms_gmail_id <$> ms).

Definition message_labels_inv (ls : list LabelRow) (ml : list (Z * Z)) : Prop :=
  ∀ m l, (m, l) ∈ ml → ∃ n, label_name ls l = Some n ∧ n ≠ ARCHIVE_LABEL.

(** ** Counters *)

Definition row_unread (ts : list ThreadRow) (t : Z) : bool :=
  default false (thread_unread <$> find_by th_id t ts).
Definition row_label (r : Z * Z * Z) : Z := r.1.1.
Definition row_thread (r : Z * Z * Z) : Z := r.2.

(** Threads and unread threads of a label, by the [thread_labels] rows. *)
Definition label_tally (ts : list ThreadRow) (tl : list (Z * Z * Z)) (l : Z) : Z * Z :=
  (Z.of_nat (count (λ r, bool_decide (row_label r = l)) tl),
   Z.of_nat (count (λ r, bool_decide (row_label r = l) && row_unread ts (row_thread r)) tl)).

(** Threads and unread threads of an Inbox category, by the thread rows. *)
Definition in_category (c : string) (t : ThreadRow) : bool :=
  bool_decide (inbox_category (th_label_ids t) = Some c).
Definition category_tally (ts : list ThreadRow) (c : string) : Z * Z :=
  (Z.of_nat (count (in_category c) ts),
   Z.of_nat (count (λ t, in_category c t && thread_unread t) ts)).

Definition thread_labels_inv (ls : list LabelRow) (ts : list ThreadRow) (tl : list (Z * Z * Z)) : Prop :=
  NoDup ((λ r, (row_label r, row_thread r)) <$> tl) ∧
  (∀ r, r ∈ tl → row_label r ∈ lb_id <$> ls ∧ row_thread r ∈ th_id <$> ts).
Definition label_stats_inv (ts : list ThreadRow) (tl : list (Z * Z * Z)) (st : gmap Z (Z * Z)) : Prop :=
  ∀ l, default (0, 0)%Z (st !! l) = label_tally ts tl l.
Definition category_stats_inv (ts : list ThreadRow) (cs : gmap string (Z * Z)) : Prop :=
  ∀ c, default (0, 0)%Z (cs !! c) = category_tally ts c.

Record store_inv (s : Store) : Prop := {
  inv_labels : labels_inv (labels s);
  inv_threads : NoDup (th_id <$> threads s);
  inv_messages : messages_inv (messages s);
  inv_message_labels : message_labels_inv (labels s) (message_labels s);
  inv_thread_labels : thread_labels_inv (labels s) (threads s) (thread_labels s);
  inv_label_stats : label_stats_inv (threads s) (thread_labels s) (label_stats s);
  inv_category_stats : category_stats_inv (threads s) (category_stats s) }.

(** ** A thread's view of the store *)

(** Some message of the thread has label [l], named [n]. *)
Definition labelled (s : Store) (t l : Z) (n : string) : Prop :=
  ∃ m, m ∈ messages_in s t ∧ (ms_id m, l) ∈ message_labels s ∧ label_name (labels s) l = Some n.
Definition archived (s : Store) (t : Z) : Prop :=
  (∀ l, ¬ labelled s t l INBOX) ∧
  ∃ m, m ∈ messages_in s t ∧
    ∀ l n, (ms_id m, l) ∈ message_labels s → label_name (labels s) l = Some n → n ∉ [SPAM; TRASH].
Definition mailbox (s : Store) (t l : Z) : Prop :=
  (∃ n, labelled s t l n) ∨ (label_name (labels s) l = Some ARCHIVE_LABEL ∧ archived s t).

Record thread_ok (s : Store) (t : ThreadRow) : Prop := {
  ok_messages : messages_in s (th_id t) ≠ [];
  ok_unread : th_unread_count t = unread_in (messages_in s (th_id t));
  ok_starred : th_is_starred t = starred_in (messages_in s (th_id t));
  ok_label_ids : ∀ n, n ∈ th_label_ids t ↔ ∃ l, labelled s (th_id t) l n;
  ok_mailboxes : ∀ l at_, (l, at_, th_id t) ∈ thread_labels s ↔
                          at_ = th_last_at t ∧ mailbox s (th_id t) l }.

(** The threads outside [D] are up to date. *)
Definition clean (D : gset Z) (s : Store) : Prop :=
  ∀ t, t ∈ threads s → th_id t ∉ D → thread_ok s t.

Record same_view (s s' : Store) (t : Z) : Prop := {
  view_messages : messages_in s' t = messages_in s t;
  view_labels : ∀ m l n, m ∈ messages_in s t →
    ((ms_id m, l) ∈ message_labels s' ∧ label_name (labels s') l = Some n) ↔
    ((ms_id m, l) ∈ message_labels s ∧ label_name (labels s) l = Some n);
  view_rows : ∀ l at_, (l, at_, t) ∈ thread_labels s' ↔ (l, at_, t) ∈ thread_labels s;
  view_archive : ∀ l, label_name (labels s') l = Some ARCHIVE_LABEL ↔
                      label_name (labels s) l = Some ARCHIVE_LABEL }.

Lemma same_view_refl s t : same_view s s t.
Proof. by constructor. Qed.
Lemma same_view_trans s1 s2 s3 t : same_view s1 s2 t → same_view s2 s3 t → same_view s1 s3 t.
Proof.
  intros [M1 L1 R1 A1] [M2 L2 R2 A2]. rewrite M1 in *. constructor.
  - congruence.
  - intros m l n Hm. by rewrite L2, L1.
  - intros l at_. by rewrite R2, R1.
  - intros l. by rewrite A2, A1.
Qed.

Lemma labelled_same_view s s' t l n :
  same_view s s' t → labelled s' t l n ↔ labelled s t l n.
Proof.
  intros [HM HL _ _]. unfold labelled. rewrite HM.
  split; intros (m & Hm & H); exists m; split; [done|by apply HL|done|by apply HL].
Qed.
Lemma same_view_sym s s' t : same_view s s' t → same_view s' s t.
Proof.
  intros [HM HL HR HA]. constructor; [done| |by intros; symmetry..].
  intros m l n Hm. symmetry. apply HL. by rewrite <- HM.
Qed.
Lemma archived_same_view_1 s s' t : same_view s s' t → archived s t → archived s' t.
Proof.
  intros HV [H (m & Hm & Hs)]. split.
  - intros l Hl. apply (H l). by apply (labelled_same_view s s').
  - exists m. destruct HV as [HM HL _ _]. rewrite HM. split; [done|].
    intros l n H1 H2. destruct (proj1 (HL m l n Hm)); eauto.
Qed.
Lemma archived_same_view s s' t : same_view s s' t → archived s' t ↔ archived s t.
Proof. split; apply archived_same_view_1; [by apply same_view_sym|done]. Qed.
Lemma mailbox_same_view s s' t l : same_view s s' t → mailbox s' t l ↔ mailbox s t l.
Proof.
  intros HV. unfold mailbox. rewrite (archived_same_view s s' t HV), (view_archive _ _ _ HV).
  by setoid_rewrite (labelled_same_view s s' t l _ HV).
Qed.

Lemma thread_ok_same_view s s' t : same_view s s' (th_id t) → thread_ok s t → thread_ok s' t.
Proof.
  intros HV [H1 H2 H3 H4 H5]. constructor; rewrite ?(view_messages _ _ _ HV); [done..| |].
  - intros n. rewrite H4. f_equiv. intros l. by rewrite (labelled_same_view s s').
  - intros l at_. by rewrite (view_rows _ _ _ HV), H5, (mailbox_same_view s s').
Qed.

Lemma clean_mono D D' s : D ⊆ D' → clean D s → clean D' s.
Proof. intros HD H t Ht Hn. apply H; set_solver. Qed.
Lemma clean_step D D' s s' :
  clean D s → threads s' = threads s →
  (∀ t, t ∈ threads s → th_id t ∉ D' → th_id t ∉ D ∧ (thread_ok s t → same_view s s' (th_id t))) →
  clean D' s'.
Proof.
  intros Hc Ht HV t Hin Hn. rewrite Ht in Hin. destruct (HV t Hin Hn) as [HD Hsv].
  specialize (Hc t Hin HD). eapply thread_ok_same_view; eauto.
Qed.

(** ** Elementary changes

    Each change a writer makes to one table, with the condition that keeps
    the invariant and the clean threads clean. *)

Definition good (D : gset Z) (s : Store) : Prop := store_inv s ∧ clean D s.

Lemma good_mono D D' s : D ⊆ D' → good D s → good D' s.
Proof. intros HD [H1 H2]. split; [done|]. by eapply clean_mono. Qed.

(** A change of the tables the invariant does not read. *)
Definition same_core (s s' : Store) : Prop :=
  labels s' = labels s ∧ threads s' = threads s ∧ messages s' = messages s ∧
  message_labels s' = message_labels s ∧ thread_labels s' = thread_labels s ∧
  label_stats s' = label_stats s ∧ category_stats s' = category_stats s.

Lemma good_core D s s' : same_core s s' → good D s → good D s'.
Proof.
  intros (E1 & E2 & E3 & E4 & E5 & E6 & E7) [[] Hc]. split.
  - constructor; by rewrite ?E1, ?E2, ?E3, ?E4, ?E5, ?E6, ?E7.
  - eapply clean_step; [done..|]. intros t _ HD. split; [done|]. intros _.
    constructor; unfold messages_in; by rewrite ?E1, ?E3, ?E4, ?E5.
Qed.

Lemma elem_of_messages_in s t m : m ∈ messages_in s t ↔ m ∈ messages s ∧ ms_thread m = t.
Proof. unfold messages_in. rewrite elem_of_List_filter, bool_decide_eq_true. tauto. Qed.

Lemma good_message_labels D s ml :
  good D s → message_labels_inv (labels s) ml →
  (∀ m l, m ∈ messages s → ms_thread m ∉ D → (ms_id m, l) ∈ ml ↔ (ms_id m, l) ∈ message_labels s) →
  good D (with_message_labels ml s).
Proof.
  intros [[] Hc] Hml Hsame. split; [by constructor|].
  eapply clean_step; [done..|]. intros t _ HD. split; [done|]. intros _.
  constructor; simpl; [done| |done..].
  intros m l n Hm. apply elem_of_messages_in in Hm as [Hm Et]. rewrite Hsame; [done..|].
  by rewrite Et.
Qed.

Lemma good_messages D s ms :
  good D s → messages_inv ms →
  (∀ t, t ∉ D → List.filter (λ m, bool_decide (ms_thread m = t)) ms = messages_in s t) →
  good D (with_messages ms s).
Proof.
  intros [[] Hc] Hms Hsame. split; [by constructor|].
  eapply clean_step; [done..|]. intros t _ HD. split; [done|]. intros _.
  constructor; simpl; [by apply Hsame|done..].
Qed.

(** *** Labels *)

Lemma label_name_Some ls l n :
  NoDup (lb_id <$> ls) → label_name ls l = Some n ↔ ∃ r, r ∈ ls ∧ lb_id r = l ∧ lb_gmail_id r = n.
Proof.
  intros Hn. unfold label_name. rewrite fmap_Some. setoid_rewrite find_by_Some; [|done].
  naive_solver.
Qed.
Lemma label_name_app_fresh ls r l :
  lb_id r ∉ lb_id <$> ls → 
  label_name (ls ++ [r]) l = if bool_decide (lb_id r = l) then Some (lb_gmail_id r) else label_name ls l.
Proof.
  intros Hr. unfold label_name. rewrite find_by_app. unfold find_by at 2. simpl.
  case_bool_decide as E.
  - assert (find_by lb_id l ls = None) as -> by (apply find_by_None; by subst). done.
  - by destruct (find_by lb_id l ls).
Qed.

Lemma message_labels_inv_app ls r ml :
  lb_id r ∉ lb_id <$> ls → message_labels_inv ls ml → message_labels_inv (ls ++ [r]) ml.
Proof.
  intros Hr H m l Hin. destruct (H m l Hin) as (n & Hn & Ha). exists n. split; [|done].
  unfold label_name in *. rewrite find_by_app. by destruct (find_by lb_id l ls).
Qed.

Lemma labels_inv_app ls r :
  labels_inv ls → lb_id r ∉ lb_id <$> ls → lb_gmail_id r ∉ lb_gmail_id <$> ls →
  lb_kind r ≠ VirtualLabel → lb_gmail_id r ≠ ARCHIVE_LABEL → labels_inv (ls ++ [r]).
Proof.
  intros (H1 & H2 & H3 & H4) Hid Hg Hk Ha. repeat split; [by apply NoDup_fmap_snoc..| | |].
  1,2: revert H; intros [H| ->%list_elem_of_singleton]%elem_of_app; [by apply H3|naive_solver].
  rewrite fmap_app. set_solver.
Qed.

Lemma good_label_app D s r :
  good D s → lb_id r ∉ lb_id <$> labels s → lb_gmail_id r ∉ lb_gmail_id <$> labels s →
  lb_kind r ≠ VirtualLabel → lb_gmail_id r ≠ ARCHIVE_LABEL →
  good D (with_labels (labels s ++ [r]) s).
Proof.
  intros [[] Hc] Hid Hg Hk Ha. split.
  - constructor; simpl; try done; [by apply labels_inv_app|by apply message_labels_inv_app|].
    destruct inv_thread_labels0 as [Hn Hin]. split; [done|]. intros x Hx.
    rewrite fmap_app. set_solver.
  - eapply clean_step; [done..|]. intros t _ HD. split; [done|]. intros _.
    constructor; simpl; [done| |done|].
    + intros m l n Hm. rewrite label_name_app_fresh by done. case_bool_decide as E; [|done].
      assert ((ms_id m, l) ∉ message_labels s) as Hml; [|tauto].
      intros Hml. destruct (inv_message_labels0 _ _ Hml) as (n' & Hn' & _).
      apply label_name_Some in Hn' as (r' & Hr' & El & _); [|apply inv_labels0].
      apply Hid. rewrite E, <- El. by apply list_elem_of_fmap_2.
    + intros l. rewrite label_name_app_fresh by done. case_bool_decide as E; [|done].
      split; [congruence|]. intros Hl.
      apply label_name_Some in Hl as (r' & Hr' & El & _); [|apply inv_labels0].
      destruct Hid. rewrite E, <- El. by apply list_elem_of_fmap_2.
Qed.

(** A rename or recolour keeps identities. *)
Lemma good_label_update D s (g : LabelRow → LabelRow) :
  good D s → (∀ r, r ∈ labels s → lb_id (g r) = lb_id r ∧ lb_gmail_id (g r) = lb_gmail_id r ∧
                (lb_kind (g r) = VirtualLabel ↔ lb_kind r = VirtualLabel)) →
  good D (with_labels (g <$> labels s) s).
Proof.
  intros [[] Hc] Hg.
  assert (lb_id <$> (g <$> labels s) = lb_id <$> labels s) as Eid.
  { apply fmap_map_key. intros r Hr. by apply Hg. }
  assert (lb_gmail_id <$> (g <$> labels s) = lb_gmail_id <$> labels s) as Egm.
  { apply fmap_map_key. intros r Hr. by apply Hg. }
  assert (∀ l, label_name (g <$> labels s) l = label_name (labels s) l) as En.
  { intros l. unfold label_name. rewrite find_by_fmap by (intros; by apply Hg).
    destruct (find_by lb_id l (labels s)) as [r|] eqn:E; [|done]. simpl.
    apply find_by_Some_2 in E as [Hr _]. f_equal. by apply Hg. }
  split.
  - constructor; simpl; try done.
    + destruct inv_labels0 as (H1 & H2 & H3 & H4). rewrite <- Eid in H1. rewrite <- Egm in H2, H4.
      repeat split; [done..| | |done]; apply list_elem_of_fmap in H as (r' & -> & Hr');
        destruct (Hg r' Hr') as (? & Eg & Hk); rewrite Eg, Hk; by apply H3.
    + intros m l Hml. setoid_rewrite En. by apply (inv_message_labels0 m).
    + unfold thread_labels_inv. by rewrite Eid.
  - eapply clean_step; [done..|]. intros t _ HD. split; [done|]. intros _.
    constructor; simpl; [done| |done|]; intros; by rewrite En.
Qed.

Lemma label_name_delete ls rowid l :
  label_name (List.filter (λ r, negb (bool_decide (lb_id r = rowid))) ls) l =
    if bool_decide (l = rowid) then None else label_name ls l.
Proof.
  unfold label_name. case_bool_decide as E.
  - rewrite (proj2 (find_by_None lb_id l _)); [done|]. intros (r & Er & Hr)%list_elem_of_fmap.
    apply elem_of_List_filter in Hr as [Hr _]. rewrite bool_decide_eq_true_2 in Hr by congruence. done.
  - rewrite find_by_filter; [done|]. intros r _ Er. by rewrite bool_decide_eq_false_2 by congruence.
Qed.

Lemma good_label_delete D s rowid :
  good D s → label_name (labels s) rowid ≠ Some ARCHIVE_LABEL →
  (∀ r, r ∈ thread_labels s → row_label r = rowid → row_thread r ∈ D) →
  good D (delete_label_row rowid s).
Proof.
  intros [[] Hc] Ha HD. split.
  - constructor; simpl; try done.
    + destruct inv_labels0 as (H1 & H2 & H3 & H4). split; [by apply NoDup_fmap_List_filter|].
      split; [by apply NoDup_fmap_List_filter|]. split; [intros r [_ Hr]%elem_of_List_filter; by apply H3|].
      apply list_elem_of_fmap in H4 as (r & Er & Hr). apply list_elem_of_fmap. exists r. split; [done|].
      apply elem_of_List_filter. split; [|done]. case_bool_decide as E; [|done].
      destruct Ha. apply label_name_Some; [done|]. eauto.
    + intros m l [Hl Hin]%elem_of_List_filter. rewrite label_name_delete.
      case_bool_decide; [done|]. by apply (inv_message_labels0 m).
    + destruct inv_thread_labels0 as [Hn Hin]. split; [by apply NoDup_fmap_List_filter|].
      intros [[l at_] t] [Hl Hr]%elem_of_List_filter. specialize (Hin _ Hr) as [Hin ?]. split; [|done].
      apply list_elem_of_fmap in Hin as (r & Er & Hr'). apply list_elem_of_fmap. exists r. split; [done|].
      apply elem_of_List_filter. split; [|done]. unfold row_label in Er. simpl in Er. by subst l.
    + intros l. unfold label_tally. rewrite !count_filter.
      destruct (decide (l = rowid)) as [->|Hne].
      * rewrite lookup_delete_eq. by rewrite !count_zero by (intros [[??]?] _; unfold row_label; simpl; by case_bool_decide).
      * rewrite lookup_delete_ne by done. rewrite inv_label_stats0. unfold label_tally, row_label.
        f_equal; f_equal; apply count_ext; intros [[l' ?]?] _; simpl;
          repeat case_bool_decide; simpl; congruence.
  - eapply clean_step; [done..|]. intros t Ht Hn. split; [done|]. intros Hok.
    assert (∀ at_, (rowid, at_, th_id t) ∉ thread_labels s) as Hrow.
    { intros at_ Hr. by specialize (HD _ Hr eq_refl). }
    constructor; simpl; [done| | |].
    + intros m l n Hm. rewrite label_name_delete, elem_of_List_filter.
      destruct (decide (l = rowid)) as [->|Hne].
      * rewrite !bool_decide_eq_true_2 by done. split; [naive_solver|]. intros [H1 H2].
        destruct (Hrow (th_last_at t)). apply Hok. split; [done|]. left. exists n, m. done.
      * rewrite !bool_decide_eq_false_2 by done. naive_solver.
    + intros l at_. rewrite elem_of_List_filter. case_bool_decide; [|naive_solver]. subst.
      naive_solver.
    + intros l. rewrite label_name_delete. case_bool_decide; [subst|]; naive_solver.
Qed.

(** *** Threads *)

Lemma row_unread_app_fresh ts t x :
  th_unread_count t = 0%Z → th_id t ∉ th_id <$> ts → row_unread (ts ++ [t]) x = row_unread ts x.
Proof.
  intros Hu Hn. unfold row_unread. rewrite find_by_app. destruct (find_by th_id x ts); [done|].
  unfold find_by. simpl. case_bool_decide; [|done]. simpl. unfold thread_unread. by rewrite Hu.
Qed.

Lemma good_thread_app D s t :
  good D s → th_id t ∉ th_id <$> threads s → th_id t ∈ D → th_unread_count t = 0%Z →
  th_label_ids t = [] → good D (with_threads (threads s ++ [t]) s).
Proof.
  intros [[] Hc] Hid HD Hu Hl. split.
  - constructor; simpl; try done.
    + by apply NoDup_fmap_snoc.
    + destruct inv_thread_labels0 as [Hn Hin]. split; [done|]. intros r Hr.
      specialize (Hin r Hr). rewrite fmap_app. set_solver.
    + intros l. rewrite inv_label_stats0. unfold label_tally. do 2 f_equal.
      apply count_ext. intros r _. by rewrite row_unread_app_fresh.
    + intros c. rewrite inv_category_stats0. unfold category_tally. rewrite !count_app, !count_cons.
      unfold in_category at 4 7. rewrite Hl. f_equal; rewrite !count_nil; simpl; lia.
  - intros t' [Ht'| ->%list_elem_of_singleton]%elem_of_app Hn; [|done].
    apply (thread_ok_same_view s); [done|]. by apply Hc.
Qed.

(** ** Operations of the writer *)

(** The full-text index has a row per message. *)
Definition fts_ok (s : Store) : Prop := ft_rowid <$> messages_fts s ≡ₚ ms_id <$> messages s.

(** [P]: threads an unfinished operation has still to mark. *)
Record writer_good (P : gset Z) (w : MailWriter) : Prop := {
  wg_good : good (P ∪ dom (dirty w)) (tx w);
  wg_dirty : ∀ k g, dirty w !! k = Some g →
             ∃ t, t ∈ threads (tx w) ∧ th_id t = k ∧ th_gmail_id t = g }.

Definition writer_inv (w : MailWriter) : Prop := writer_good ∅ w ∧ fts_ok (tx w).

Lemma writer_good_on_tx P w f :
  writer_good P w → good (P ∪ dom (dirty w)) (f (tx w)) → threads (f (tx w)) = threads (tx w) →
  writer_good P (on_tx f w).
Proof. intros [H1 H2] Hg Ht. constructor; simpl; [done|]. by rewrite Ht. Qed.
Lemma writer_good_mono P Q w : P ⊆ Q → writer_good P w → writer_good Q w.
Proof. intros HP [H1 H2]. constructor; [|done]. eapply good_mono; [|done]. set_solver. Qed.

Lemma mark_thread_rowid_tx t w : tx (mark_thread_rowid t w) = tx w.
Proof. unfold mark_thread_rowid. by repeat case_match. Qed.

Lemma writer_good_mark P t w :
  writer_good ({[t]} ∪ P) w → writer_good P (mark_thread_rowid t w).
Proof.
  intros [[Hi Hc] Hd]. unfold mark_thread_rowid. destruct (dirty w !! t) as [g|] eqn:Et.
  - constructor; [|done]. apply elem_of_dom_2 in Et. split; [done|].
    eapply clean_mono; [|done]. set_solver.
  - unfold thread_by_rowid. destruct (find_by th_id t (threads (tx w))) as [r|] eqn:Er.
    + apply find_by_Some_2 in Er as [Hr Er]. constructor; simpl.
      * split; [done|]. eapply clean_mono; [|done]. rewrite dom_insert. set_solver.
      * intros k g [[<- <-]|[Hk Hg]]%lookup_insert_Some; eauto.
    + apply find_by_None in Er. constructor; [|done]. split; [done|]. intros r Hr Hn.
      apply Hc; [done|]. assert (th_id r ≠ t); [|set_solver].
      intros <-. destruct Er. by apply list_elem_of_fmap_2.
Qed.

(** *** Labels of a message *)

Lemma label_rowid_good D s id s' r :
  good D s → id ≠ ARCHIVE_LABEL → label_rowid s id = (s', r) →
  good D s' ∧ label_name (labels s') r = Some id ∧ threads s' = threads s ∧
  messages s' = messages s ∧ message_labels s' = message_labels s ∧ messages_fts s' = messages_fts s.
Proof.
  intros Hg Ha. unfold label_rowid, find_label.
  destruct (find_by lb_gmail_id id (labels s)) as [l|] eqn:El; intros [= <- <-].
  - apply find_by_Some_2 in El as [Hl El]. split_and!; [done| |done..].
    apply label_name_Some; [apply Hg|]. eauto.
  - apply find_by_None in El.
    assert (next_rowid (lb_id <$> labels s) ∉ lb_id <$> labels s) by apply next_rowid_not_in.
    split_and!; simpl; [|by rewrite label_name_app_fresh, bool_decide_eq_true_2|done..].
    apply good_label_app; simpl; [done..| |done]. unfold placeholder_kind. by case_match.
Qed.

Lemma insert_message_label_good D s rowid l s' :
  good D s → (∀ m, m ∈ messages s → ms_id m = rowid → ms_thread m ∈ D) →
  insert_message_label rowid s l = Ok s' →
  good D s' ∧ threads s' = threads s ∧ messages s' = messages s ∧ messages_fts s' = messages_fts s.
Proof.
  intros Hg HD. unfold insert_message_label. case_bool_decide as Ha; [done|].
  destruct (label_rowid s l) as [s1 r] eqn:Er.
  destruct (label_rowid_good _ _ _ _ _ Hg Ha Er) as (Hg1 & Hn & Et & Em & Eml & Ef).
  case_match; [done|]. intros [= <-]. case_bool_decide as Hin; [done|]. split_and!; [|done..].
  apply good_message_labels; [done| |].
  - intros m l' [Hm| [= -> ->]%list_elem_of_singleton]%elem_of_app; [|by exists l].
    by eapply inv_message_labels; [apply Hg1|].
  - intros m l' Hm HmD. rewrite elem_of_app, list_elem_of_singleton.
    split; [|by left]. intros [?|[= E _]]; [done|]. destruct HmD. apply HD; congruence.
Qed.

Lemma insert_message_labels_good D rowid ls s s' :
  good D s → (∀ m, m ∈ messages s → ms_id m = rowid → ms_thread m ∈ D) →
  insert_message_labels rowid s ls = Ok s' →
  good D s' ∧ threads s' = threads s ∧ messages s' = messages s ∧ messages_fts s' = messages_fts s.
Proof.
  revert s. induction ls as [|l ls IH]; intros s Hg HD; simpl; [naive_solver|].
  intros (s1 & H1 & H2)%bind_Ok.
  destruct (insert_message_label_good _ _ _ _ _ Hg HD H1) as (Hg1 & Et & Em & Ef).
  rewrite <- Et, <- Em, <- Ef. apply IH; [done| |done]. by rewrite Em.
Qed.

Lemma replace_message_labels_good D rowid ls s s' :
  good D s → (∀ m, m ∈ messages s → ms_id m = rowid → ms_thread m ∈ D) →
  replace_message_labels s rowid ls = Ok s' →
  good D s' ∧ threads s' = threads s ∧ messages s' = messages s ∧ messages_fts s' = messages_fts s.
Proof.
  intros Hg HD Hr. eapply insert_message_labels_good in Hr; [done| |done].
  apply good_message_labels; [done| |].
  - intros m l [_ Hin]%elem_of_List_filter. by eapply inv_message_labels; [apply Hg|].
  - intros m l Hm HmD. rewrite elem_of_List_filter. split; [naive_solver|].
    intros Hin. split; [|done]. case_bool_decide as E; [|done]. destruct HmD. by apply HD.
Qed.

(** *** Message rows *)

Lemma good_update_messages D s p f :
  good D s →
  (∀ m, m ∈ messages s → p m = true → ms_thread m ∈ D ∧ ms_thread (f m) ∈ D) →
  messages_inv ((λ m, if p m then f m else m) <$> messages s) →
  good D (update_messages p f s).
Proof.
  intros Hg HD Hinv. apply good_messages; [done..|]. intros t Ht. unfold messages_in.
  clear Hg Hinv. induction (messages s) as [|m ms IH]; [done|]. rewrite fmap_cons. simpl.
  rewrite IH by set_solver. destruct (p m) eqn:Ep; [|done].
  destruct (HD m) as [H1 H2]; [set_solver|done|].
  by rewrite !bool_decide_eq_false_2 by (intros <-; done).
Qed.
(** An update that keeps both identifiers. *)
Lemma messages_inv_update ms (g : MessageRow → MessageRow) :
  messages_inv ms → (∀ m, m ∈ ms → ms_id (g m) = ms_id m ∧ ms_gmail_id (g m) = ms_gmail_id m) →
  messages_inv (g <$> ms).
Proof.
  intros [H1 H2] Hg. split; (rewrite fmap_map_key; [done|]); intros m Hm; by apply Hg.
Qed.

Lemma message_rowid_Some D s id rowid thread :
  good D s → message_rowid s id = Some (rowid, thread) →
  ∃ r, r ∈ messages s ∧ ms_id r = rowid ∧ ms_thread r = thread ∧ ms_gmail_id r = id.
Proof.
  intros Hg H. apply fmap_Some_1 in H as (r & Hr & E).
  injection E as -> ->. apply find_by_Some_2 in Hr as [Hr Eg]. eauto.
Qed.
Lemma same_rowid D s r m : good D s → r ∈ messages s → m ∈ messages s → ms_id m = ms_id r → m = r.
Proof.
  intros [[] _] Hr Hm E. apply (NoDup_fmap_inj ms_id (messages s)); [apply inv_messages0|done..].
Qed.

Lemma good_delete_message_row D s r :
  good D s → r ∈ messages s → ms_thread r ∈ D → good D (delete_message_row (ms_id r) s).
Proof.
  intros Hg Hr HD.
  apply (good_core _ (with_messages (List.filter (λ m, negb (bool_decide (ms_id m = ms_id r))) (messages s))
    (with_message_labels (List.filter (λ '(m, _), negb (bool_decide (m = ms_id r))) (message_labels s)) s)));
    [done|].
  assert (∀ m, m ∈ messages s → ms_thread m ∉ D → ms_id m ≠ ms_id r) as Hne.
  { intros m Hm HmD E. destruct HmD. by rewrite (same_rowid _ _ _ _ Hg Hr Hm E). }
  apply good_messages.
  - apply good_message_labels; [done| |].
    + intros m l [_ Hin]%elem_of_List_filter. by eapply inv_message_labels; [apply Hg|].
    + intros m l Hm HmD. rewrite elem_of_List_filter. specialize (Hne m Hm HmD).
      rewrite bool_decide_eq_false_2 by done. naive_solver.
  - destruct Hg as [[] _], inv_messages0. split; by apply NoDup_fmap_List_filter.
  - intros t Ht. rewrite List_filter_filter. apply List_filter_ext. intros m Hm.
    destruct (decide (ms_thread m = t)) as [<-|Hmt]; [|by rewrite (bool_decide_eq_false_2 (_ = t)), andb_false_r].
    by rewrite bool_decide_eq_false_2 by auto.
Qed.

Lemma fmap_filter_ne {A} (f : A → Z) k l :
  f <$> List.filter (λ x, negb (bool_decide (f x = k))) l = base.filter (λ i, i ≠ k) (f <$> l).
Proof.
  induction l as [|x l IH]; [done|]. rewrite fmap_cons, filter_cons. simpl.
  case_bool_decide; case_decide; simpl; rewrite <- ?IH; done.
Qed.

Lemma fts_ok_delete s rowid :
  fts_ok s → fts_ok (delete_message_row rowid (delete_fts_row rowid s)).
Proof. unfold fts_ok. simpl. intros H. by rewrite !fmap_filter_ne, H. Qed.

(** The index but for the row of a message being stored. *)
Definition fts_except (x : Z) (s : Store) : Prop :=
  base.filter (λ i, i ≠ x) (ft_rowid <$> messages_fts s) ≡ₚ base.filter (λ i, i ≠ x) (ms_id <$> messages s).
Lemma fts_ok_except x s : fts_ok s → fts_except x s.
Proof. unfold fts_ok, fts_except. by intros ->. Qed.
Lemma fts_except_delete x s rowid :
  fts_except x s → fts_except x (delete_message_row rowid (delete_fts_row rowid s)).
Proof.
  unfold fts_except. simpl. intros H.
  assert (∀ l : list Z, base.filter (λ i, i ≠ x) (base.filter (λ i, i ≠ rowid) l) =
                        base.filter (λ i, i ≠ rowid) (base.filter (λ i, i ≠ x) l)) as Hcomm.
  { intros l. rewrite !list_filter_filter. apply list_filter_iff. tauto. }
  by rewrite !fmap_filter_ne, !Hcomm, H.
Qed.

Lemma delete_message_inv P id w :
  writer_good P w → writer_good P (delete_message id w).1 ∧
  (fts_ok (tx w) → fts_ok (tx (delete_message id w).1)) ∧
  (∀ x, fts_except x (tx w) → fts_except x (tx (delete_message id w).1)) ∧
  (∀ m, m ∈ messages (tx (delete_message id w).1) → m ∈ messages (tx w)) ∧
  threads (tx (delete_message id w).1) = threads (tx w) ∧ dom (dirty w) ⊆ dom (dirty (delete_message id w).1).
Proof.
  intros HP. unfold delete_message. destruct (message_rowid (tx w) id) as [[rowid thread]|] eqn:E; [|done].
  destruct (message_rowid_Some _ _ _ _ _ (wg_good _ _ HP) E) as (r & Hr & <- & <- & _). simpl.
  rewrite mark_thread_rowid_tx. simpl. split_and!; [|by apply fts_ok_delete|intros x; apply fts_except_delete| |done|].
  - apply writer_good_mark. eapply writer_good_on_tx; [eapply writer_good_mono; [|done]; set_solver| |done].
    apply good_delete_message_row; [|done|set_solver].
    apply (good_core _ (tx w)); [done|]. eapply good_mono; [|apply HP]. set_solver.
  - by intros m [_ Hm]%elem_of_List_filter.
  - unfold mark_thread_rowid. repeat case_match; simpl; [done| |done]. rewrite dom_insert. set_solver.
Qed.

(** *** The label list *)

Lemma mark_thread_rowid_dirty t w :
  t ∈ th_id <$> threads (tx w) → t ∈ dom (dirty (mark_thread_rowid t w)).
Proof.
  intros (r & -> & Hr)%list_elem_of_fmap. unfold mark_thread_rowid, thread_by_rowid.
  destruct (dirty w !! th_id r) eqn:E; [by apply elem_of_dom_2 in E|].
  destruct (find_by th_id (th_id r) (threads (tx w))) eqn:Er; simpl; [set_solver|].
  apply find_by_None in Er. destruct Er. by apply list_elem_of_fmap_2.
Qed.
Lemma mark_thread_rowid_mono t w : dom (dirty w) ⊆ dom (dirty (mark_thread_rowid t w)).
Proof. unfold mark_thread_rowid. repeat case_match; simpl; [done| |done]. rewrite dom_insert. set_solver. Qed.

Lemma mark_rows_spec P l rows w :
  writer_good P w → (∀ r, r ∈ rows → row_thread r ∈ th_id <$> threads (tx w)) →
  let w' := foldl (λ w '(l', _, t), if bool_decide (l' = l) then mark_thread_rowid t w else w) w rows in
  writer_good P w' ∧ tx w' = tx w ∧ dom (dirty w) ⊆ dom (dirty w') ∧
  ∀ r, r ∈ rows → row_label r = l → row_thread r ∈ dom (dirty w').
Proof.
  revert w. induction rows as [|[[l' at_] t] rows IH]; intros w HP Hrows; simpl; [set_solver|].
  case_bool_decide as El.
  - destruct (IH (mark_thread_rowid t w)) as (H1 & H2 & H3 & H4).
    { apply writer_good_mark. eapply writer_good_mono; [|done]. set_solver. }
    { rewrite mark_thread_rowid_tx. set_solver. }
    rewrite mark_thread_rowid_tx in H2. split_and!; [done..| |].
    + etrans; [apply mark_thread_rowid_mono|done].
    + intros r [->|Hr]%elem_of_cons Hl; [|by apply H4]. apply H3, mark_thread_rowid_dirty.
      apply (Hrows (l', at_, t)). set_solver.
  - destruct (IH w HP) as (H1 & H2 & H3 & H4); [set_solver|]. split_and!; [done..|].
    intros r [->|Hr]%elem_of_cons Hl; [|by apply H4]. by destruct El.
Qed.

Lemma retain_label_good l w :
  writer_good ∅ w → label_name (labels (tx w)) l ≠ Some ARCHIVE_LABEL →
  writer_good ∅ (on_tx (delete_label_row l) (mark_threads_with_label l w)).
Proof.
  intros HP Ha. destruct (mark_rows_spec ∅ l (thread_labels (tx w)) w HP) as (H1 & H2 & _ & H4).
  { intros r Hr. by apply (inv_thread_labels _ (proj1 (wg_good _ _ HP))). }
  apply writer_good_on_tx; [done| |done]. unfold mark_threads_with_label.
  apply good_label_delete; [apply H1| |]; rewrite H2; [done|]. set_solver.
Qed.

Lemma retain_labels_inv keep w : writer_inv w → writer_inv (retain_labels keep w).
Proof.
  intros [HP Hf]. unfold retain_labels.
  assert (∀ r, r ∈ List.filter (λ l, negb (bool_decide (lb_kind l = VirtualLabel))) (labels (tx w)) →
               label_name (labels (tx w)) (lb_id r) ≠ Some ARCHIVE_LABEL) as Hrs.
  { intros r [Hk Hr]%elem_of_List_filter Hn. destruct (proj1 (wg_good _ _ HP)) as [(H1 & H2 & H3 & _)].
    apply label_name_Some in Hn as (r' & Hr' & Ei & En); [|done].
    rewrite (NoDup_fmap_inj lb_id (labels (tx w)) r' r) in * by done. apply H3 in En; [|done].
    by rewrite bool_decide_eq_true_2 in Hk. }
  revert Hrs. generalize (List.filter (λ l, negb (bool_decide (lb_kind l = VirtualLabel))) (labels (tx w))).
  intros rs. revert w HP Hf. induction rs as [|r rs IH]; intros w HP Hf Hrs; [done|]. simpl.
  case_bool_decide; [apply IH; set_solver|].
  assert (tx (mark_threads_with_label (lb_id r) w) = tx w) as Htx.
  { unfold mark_threads_with_label. apply (mark_rows_spec ∅ (lb_id r)); [done|].
    intros r' Hr'. by apply (inv_thread_labels _ (proj1 (wg_good _ _ HP))). }
  apply IH.
  - apply retain_label_good; [done|]. apply Hrs. set_solver.
  - by simpl; rewrite Htx.
  - intros r' Hr'. simpl. rewrite Htx, label_name_delete. case_bool_decide; [done|]. apply Hrs. set_solver.
Qed.

(** Providers never list the virtual label. *)
Definition provider_label (l : Label) : Prop := l_id l ≠ ARCHIVE_LABEL ∧ l_kind l ≠ VirtualLabel.

Lemma upsert_label_good D l s :
  provider_label l → good D s →
  good D (upsert_label s l) ∧ threads (upsert_label s l) = threads s ∧
  messages (upsert_label s l) = messages s ∧ messages_fts (upsert_label s l) = messages_fts s.
Proof.
  intros [Ha Hk] Hg. unfold upsert_label, find_label.
  destruct (find_by lb_gmail_id (l_id l) (labels s)) as [r|] eqn:Er; split_and!; try done.
  - apply good_label_update; [done|]. intros x Hx. case_bool_decide as E; [|done]. simpl.
    split_and!; [done..|]. split; [done|]. intros Hv.
    destruct Hg as [[(_ & _ & H3 & _)] _]. apply H3 in Hv; [|done]. congruence.
  - apply find_by_None in Er. apply good_label_app; simpl; [done|apply next_rowid_not_in|done..].
Qed.

Lemma upsert_labels_inv ls w :
  Forall provider_label ls → writer_inv w → writer_inv (upsert_labels ls w).
Proof.
  intros Hls [HP Hf].
  assert (∀ s, good (∅ ∪ dom (dirty w)) s →
    let s' := foldl upsert_label s ls in
    good (∅ ∪ dom (dirty w)) s' ∧ threads s' = threads s ∧ messages s' = messages s ∧
    messages_fts s' = messages_fts s) as Hfold.
  { induction Hls as [|l ls Hl Hls IH]; intros s Hg; simpl; [done|].
    destruct (upsert_label_good _ l s Hl Hg) as (Hg1 & <- & <- & <-). by apply IH. }
  destruct (Hfold (tx w) (wg_good _ _ HP)) as (Hg & Et & Em & Ef). split.
  - by apply writer_good_on_tx.
  - unfold fts_ok. simpl. by rewrite Em, Ef.
Qed.

Lemma NoDup_fmap_rekey ms a b :
  NoDup (ms_gmail_id <$> ms) → b ∉ ms_gmail_id <$> ms →
  NoDup (ms_gmail_id <$> ((λ m, if bool_decide (ms_gmail_id m = a) then set_gmail_id b m else m) <$> ms)).
Proof.
  induction ms as [|m ms IH]; [done|]. rewrite !fmap_cons.
  intros [Hm Hms]%NoDup_cons [Hb Hbs]%not_elem_of_cons. constructor; [|by apply IH].
  rewrite <- list_fmap_compose. intros (m' & E & Hm')%list_elem_of_fmap. revert E. simpl.
  assert (ms_gmail_id m' ∈ ms_gmail_id <$> ms) by by apply list_elem_of_fmap_2.
  repeat case_bool_decide; simpl; congruence.
Qed.

(** *** Changing a message's labels *)

Lemma modify_message_labels_inv id add remove w w' found :
  writer_inv w → modify_message_labels id add remove w = Ok (w', found) → writer_inv w'.
Proof.
  intros [HP Hf]. unfold modify_message_labels.
  destruct (message_rowid (tx w) id) as [[rowid thread]|] eqn:E; [|by intros [= <- <-]].
  intros (s & Hs & [= <- <-])%bind_Ok.
  destruct (message_rowid_Some _ _ _ _ _ (wg_good _ _ HP) E) as (r & Hr & <- & <- & _).
  eapply (replace_message_labels_good ({[ms_thread r]} ∪ dom (dirty w))) in Hs as (Hg & Et & Em & Ef).
  2: { eapply good_mono; [|apply HP]. set_solver. }
  2: { intros m Hm Eid. rewrite (same_rowid _ _ _ _ (wg_good _ _ HP) Hr Hm Eid). set_solver. }
  split.
  - apply writer_good_mark. constructor; simpl; [|rewrite Et; apply HP].
    apply good_update_messages; [eapply good_mono; [|done]; set_solver| |].
    + rewrite Em. intros m Hm Eid%bool_decide_eq_true.
      rewrite (same_rowid _ _ _ _ (wg_good _ _ HP) Hr Hm Eid). set_solver.
    + apply messages_inv_update; [by destruct Hg as [[] _]|]. intros m _. by case_bool_decide.
  - rewrite mark_thread_rowid_tx. unfold fts_ok. simpl. rewrite fmap_map_key, Ef, Em; [done|].
    intros m _. by case_bool_decide.
Qed.

Lemma adopt_local_copy_inv local sent w :
  writer_inv w → writer_inv (adopt_local_copy local sent w).
Proof.
  intros [HP Hf]. unfold adopt_local_copy.
  destruct (message_rowid (tx w) sent) as [[? ?]|] eqn:Es.
  { destruct (delete_message_inv _ local w HP) as (H1 & H2 & _). split; [done|by apply H2]. }
  destruct (message_rowid (tx w) local) as [[rowid thread]|] eqn:E; [|done].
  destruct (message_rowid_Some _ _ _ _ _ (wg_good _ _ HP) E) as (r & Hr & <- & <- & El).
  assert (sent ∉ ms_gmail_id <$> messages (tx w)) as Hsent.
  { unfold message_rowid, find_message in Es. apply fmap_None in Es. by apply find_by_None in Es. }
  destruct (inv_messages _ (proj1 (wg_good _ _ HP))) as [Hid Hgm].
  assert (∀ m, m ∈ messages (tx w) → ms_gmail_id m = local → m = r) as Huniq.
  { intros m Hm Em. apply (NoDup_fmap_inj ms_gmail_id (messages (tx w))); [done..|congruence]. }
  split.
  - apply writer_good_mark. eapply writer_good_on_tx; [eapply writer_good_mono; [|done]; set_solver| |done].
    apply good_update_messages; [eapply good_mono; [|apply HP]; set_solver| |].
    + intros m Hm Em%bool_decide_eq_true. rewrite (Huniq m Hm Em). set_solver.
    + split.
      * rewrite fmap_map_key; [done|]. intros m _. by case_bool_decide.
      * by apply NoDup_fmap_rekey.
  - rewrite mark_thread_rowid_tx. unfold fts_ok. simpl. rewrite fmap_map_key; [done|].
    intros m _. by case_bool_decide.
Qed.

(** *** Storing a message *)

Lemma ensure_thread_good id w w' thread :
  writer_good ∅ w → ensure_thread id w = (w', thread) →
  writer_good {[thread]} w' ∧ dirty w' = dirty w ∧ messages (tx w') = messages (tx w) ∧
  messages_fts (tx w') = messages_fts (tx w) ∧
  ∃ t, t ∈ threads (tx w') ∧ th_id t = thread ∧ th_gmail_id t = id.
Proof.
  intros HP. unfold ensure_thread, find_thread.
  destruct (find_by th_gmail_id id (threads (tx w))) as [t|] eqn:Et; intros [= <- <-].
  - apply find_by_Some_2 in Et as [Ht Et]. split_and!; [|done..|eauto].
    eapply writer_good_mono; [|done]. set_solver.
  - pose proof (next_rowid_not_in (th_id <$> threads (tx w))) as Hfresh. split_and!; [|done..|].
    + constructor; simpl.
      * apply good_thread_app; simpl; [|done|set_solver|done..].
        eapply good_mono; [|apply HP]. set_solver.
      * intros k g Hk. destruct (wg_dirty _ _ HP k g Hk) as (t & Ht & ?). exists t. set_solver.
    + eexists. split; [apply elem_of_app; right; by apply list_elem_of_singleton|done].
Qed.

Lemma record_contacts_core m sent s :
  same_core s (record_contacts m sent s) ∧ messages_fts (record_contacts m sent s) = messages_fts s.
Proof.
  assert (∀ a b c s a', same_core s (upsert_contact a b c s a') ∧
                        messages_fts (upsert_contact a b c s a') = messages_fts s) as H1.
  { intros. unfold upsert_contact. by case_match. }
  assert (∀ a b c l s, same_core s (foldl (upsert_contact a b c) s l) ∧
                       messages_fts (foldl (upsert_contact a b c) s l) = messages_fts s) as H2.
  { intros a b c l. induction l as [|x l IH]; intros s0; simpl; [done|].
    destruct (H1 a b c s0 x) as [(?&?&?&?&?&?&?) ?], (IH (upsert_contact a b c s0 x)) as [(?&?&?&?&?&?&?) ?].
    repeat split; congruence. }
  unfold record_contacts. repeat case_match; [apply H2|apply H1|done].
Qed.

Lemma replace_local_copies_good P m w x :
  writer_good P w → fts_except x (tx w) →
  let w' := replace_local_copies m w in
  writer_good P w' ∧ fts_except x (tx w') ∧ threads (tx w') = threads (tx w) ∧
  (∀ r, r ∈ messages (tx w') → r ∈ messages (tx w)).
Proof.
  intros HP Hf. unfold replace_local_copies. destruct (m_rfc822 m); [|done]. case_match; [done|]. simpl.
  generalize (List.filter (λ r, bool_decide (ms_rfc822 r = Some s) &&
                                starts_with LOCAL_PREFIX (ascii_lower (ms_gmail_id r))) (messages (tx w))).
  intros rs. revert w HP Hf. induction rs as [|r rs IH]; intros w HP Hf; simpl; [done|].
  destruct (delete_message_inv _ (ms_gmail_id r) w HP) as (H1 & _ & H3 & H4 & H5 & _).
  destruct (IH _ H1 (H3 _ Hf)) as (? & ? & Et & Hm). split_and!; [done..|congruence|eauto].
Qed.

Lemma messages_inv_app ms r :
  messages_inv ms → ms_id r ∉ ms_id <$> ms → ms_gmail_id r ∉ ms_gmail_id <$> ms → messages_inv (ms ++ [r]).
Proof. intros [H1 H2] Hi Hg. split; by apply NoDup_fmap_snoc. Qed.

Lemma good_message_app D s r :
  good D s → ms_id r ∉ ms_id <$> messages s → ms_gmail_id r ∉ ms_gmail_id <$> messages s →
  ms_thread r ∈ D → good D (with_messages (messages s ++ [r]) s).
Proof.
  intros Hg Hi Hgm HD. apply good_messages; [done|by apply messages_inv_app; [apply Hg|..]|].
  intros t Ht. rewrite List.filter_app. simpl.
  rewrite (bool_decide_eq_false_2 (ms_thread r = t)) by (intros <-; done). by rewrite app_nil_r.
Qed.

(** The state between the message's row and its labels. *)
Record stored (thread rowid : Z) (w : MailWriter) : Prop := {
  st_good : writer_good {[thread]} w;
  st_fts : fts_except rowid (tx w);
  st_thread : ∀ m, m ∈ messages (tx w) → ms_id m = rowid → ms_thread m = thread }.

Lemma mark_thread_rowid_on_tx t f w :
  threads (f (tx w)) = threads (tx w) →
  on_tx f (mark_thread_rowid t w) = mark_thread_rowid t (on_tx f w).
Proof.
  intros Ht. unfold mark_thread_rowid, thread_by_rowid. simpl. rewrite Ht.
  by repeat case_match.
Qed.

Lemma update_row_stored m thread f w r :
  writer_good {[thread]} w → fts_ok (tx w) → r ∈ messages (tx w) →
  stored thread (ms_id r)
    (on_tx (update_messages (λ x, bool_decide (ms_id x = ms_id r)) (updated_row m thread f))
       (if bool_decide (ms_thread r ≠ thread) then mark_thread_rowid (ms_thread r) w else w)).
Proof.
  intros HP Hf Hr. pose proof (wg_good _ _ HP) as Hg.
  assert (writer_good ({[ms_thread r]} ∪ {[thread]})
            (on_tx (update_messages (λ x, bool_decide (ms_id x = ms_id r)) (updated_row m thread f)) w)) as H1.
  { eapply writer_good_on_tx; [eapply writer_good_mono; [|done]; set_solver| |done].
    apply good_update_messages; [eapply good_mono; [|done]; set_solver| |].
    - intros x Hx Ex%bool_decide_eq_true. rewrite (same_rowid _ _ _ _ Hg Hr Hx Ex). set_solver.
    - apply messages_inv_update; [apply Hg|]. intros x _. by case_bool_decide. }
  assert (∀ w', tx w' = tx w → fts_except (ms_id r)
            (tx (on_tx (update_messages (λ x, bool_decide (ms_id x = ms_id r)) (updated_row m thread f)) w'))) as H2.
  { intros w' Htx. apply fts_ok_except. unfold fts_ok. simpl. rewrite Htx, fmap_map_key; [done|].
    intros x _. by case_bool_decide. }
  assert (∀ w' x, x ∈ messages (tx
      (on_tx (update_messages (λ x, bool_decide (ms_id x = ms_id r)) (updated_row m thread f)) w')) →
            ms_id x = ms_id r → ms_thread x = thread) as H3.
  { intros w' x. simpl. intros (y & -> & Hy)%list_elem_of_fmap. by case_bool_decide. }
  constructor; [|apply H2|apply H3].
  - case_bool_decide as E.
    + rewrite mark_thread_rowid_on_tx by done. by apply writer_good_mark.
    + eapply writer_good_mono; [|done]. set_solver.
  - case_bool_decide; [apply mark_thread_rowid_tx|done].
Qed.

Lemma insert_row_stored m thread f w :
  writer_good {[thread]} w → fts_ok (tx w) → m_id m ∉ ms_gmail_id <$> messages (tx w) →
  let rowid := next_rowid (ms_id <$> messages (tx w)) in
  let w1 := on_tx (λ s, with_messages (messages s ++ [new_row m rowid thread f]) s) w in
  let w2 := replace_local_copies m (on_tx (record_contacts m (is_sent_by_me f)) w1) in
  stored thread rowid w2 ∧ threads (tx w2) = threads (tx w).
Proof.
  intros HP Hf Hid rowid w1.
  assert (rowid ∉ ms_id <$> messages (tx w)) as Hnew by apply next_rowid_not_in.
  destruct (record_contacts_core m (is_sent_by_me f) (tx w1)) as [Hcore Hfts].
  assert (writer_good {[thread]} w1) as Hw1.
  { apply writer_good_on_tx; [done| |done]. apply good_message_app; [apply HP|done..|set_solver]. }
  assert (writer_good {[thread]} (on_tx (record_contacts m (is_sent_by_me f)) w1)) as Hw2.
  { apply writer_good_on_tx; [done| |apply Hcore]. eapply good_core; [done|apply Hw1]. }
  destruct Hcore as (_ & E2 & E3 & _).
  change (record_contacts m (is_sent_by_me f) (tx w1))
    with (tx (on_tx (record_contacts m (is_sent_by_me f)) w1)) in E2, E3, Hfts.
  edestruct (replace_local_copies_good {[thread]} m (on_tx (record_contacts m (is_sent_by_me f)) w1) rowid)
    as (H1 & H2 & H3 & H4).
  - done.
  - unfold fts_except. rewrite E3, Hfts. simpl. rewrite fmap_app, filter_app. simpl.
    unfold fts_ok in Hf. rewrite Hf. rewrite (filter_cons_False _ rowid), filter_nil, app_nil_r by naive_solver. done.
  - split; [|by rewrite H3, E2]. constructor; [done..|]. intros x Hx Ex. apply H4 in Hx.
    rewrite E3 in Hx. simpl in Hx.
    revert Hx. intros [Hx| ->%list_elem_of_singleton]%elem_of_app; [|done].
    destruct Hnew. rewrite <- Ex. by apply list_elem_of_fmap_2.
Qed.

Lemma store_row_stored m thread f w w' rowid :
  writer_good {[thread]} w → fts_ok (tx w) →
  store_row m thread (find_message (tx w) (m_id m)) f w = (w', rowid) →
  stored thread rowid w' ∧ threads (tx w') = threads (tx w).
Proof.
  intros HP Hf. unfold store_row, find_message.
  destruct (find_by ms_gmail_id (m_id m) (messages (tx w))) as [r|] eqn:Er; intros [= <- <-].
  - apply find_by_Some_2 in Er as [Hr _]. split; [by apply update_row_stored|].
    simpl. case_bool_decide; [by rewrite mark_thread_rowid_tx|done].
  - apply find_by_None in Er. by apply insert_row_stored.
Qed.

(** The tables the invariant reads, and the index, are left alone. *)
Lemma replace_participants_core rowid m s s' :
  replace_participants rowid m s = Ok s' → same_core s s' ∧ messages_fts s' = messages_fts s.
Proof. unfold replace_participants. repeat case_match; intros [= <-]; done. Qed.
Lemma store_body_core rowid m s s' :
  store_body rowid m s = Ok s' → same_core s s' ∧ messages_fts s' = messages_fts s.
Proof. unfold store_body. repeat case_match; intros [= <-]; done. Qed.

Lemma index_message_fts s rowid :
  fts_except rowid s → fts_ok (index_message rowid s).
Proof.
  unfold fts_except, fts_ok. simpl. intros H.
  rewrite fmap_app, fmap_filter_ne, H, <- list_fmap_compose.
  assert (∀ l, (ft_rowid ∘ fts_row (delete_fts_row rowid s)) <$>
            List.filter (λ m, bool_decide (ms_id m = rowid)) l = base.filter (λ i, i = rowid) (ms_id <$> l)) as ->.
  { induction l as [|x l IH]; [done|]. rewrite fmap_cons, filter_cons. simpl.
    case_bool_decide; case_decide; simpl; rewrite <- ?IH; done. }
  clear. induction (ms_id <$> messages s) as [|x l IH]; [done|]. rewrite !filter_cons.
  case_decide as E1; case_decide as E2; [done| | |by destruct E1].
  - simpl. by rewrite IH.
  - by rewrite <- Permutation_middle, IH.
Qed.

Lemma index_message_core rowid s : same_core s (index_message rowid s).
Proof. done. Qed.

Lemma upsert_message_inv m w w' :
  writer_inv w → upsert_message m w = Ok w' → writer_inv w'.
Proof.
  intros [HP Hf]. unfold upsert_message.
  destruct (ensure_thread (m_thread_id m) w) as [w1 thread] eqn:E1.
  destruct (ensure_thread_good _ _ _ _ HP E1) as (HP1 & _ & Em & Ef & t & Ht).
  set (ls := incoming_labels _ _ _). clearbody ls.
  destruct (store_row _ _ _ _ _) as [w2 rowid] eqn:E2.
  apply store_row_stored in E2 as [[HP2 Hf2 Hth] Et]; [|done|unfold fts_ok; by rewrite Em, Ef].
  intros (s1 & H1 & (s2 & H2 & (s3 & H3 & [= <-])%bind_Ok)%bind_Ok)%bind_Ok.
  apply replace_participants_core in H1 as [Hc1 Hfts1].
  pose proof (good_core _ _ _ Hc1 (wg_good _ _ HP2)) as Hg1.
  destruct Hc1 as (_ & Et1 & Em1 & _).
  eapply replace_message_labels_good in H2 as (Hg2 & Et2 & Em2 & Hfts2); [|done|].
  2: { rewrite Em1. intros x Hx Ex. rewrite (Hth x Hx Ex). set_solver. }
  apply store_body_core in H3 as [Hc3 Hfts3]. pose proof (good_core _ _ _ Hc3 Hg2) as Hg3.
  destruct Hc3 as (_ & Et3 & Em3 & _).
  assert (threads s3 = threads (tx w1)) as Eth by congruence. split.
  - constructor; simpl.
    + eapply good_core; [apply index_message_core|]. eapply good_mono; [|done].
      rewrite dom_insert. set_solver.
    + intros k g [[<- <-]|[_ Hk]]%lookup_insert_Some; [exists t; by rewrite Eth|].
      rewrite Et3, Et2, Et1. by apply HP2.
  - apply index_message_fts. unfold fts_except. 
    by rewrite Em3, Em2, Em1, Hfts3, Hfts2, Hfts1.
Qed.
