(* ===== verification/Finish.v ===== *)
(** * Finish: recomputing the touched threads restores consistency
    ([MailWriter::finish] and [recompute_thread] of [write.rs])

    A dirty thread first leaves every counter it was in, then gets its
    aggregates, mailboxes and counters from its messages.  With the
    invariant of [StoreInvariant] this leaves every thread [thread_ok], so
    that [MailStore.check] reports nothing. *)

From S2P Require Import Prelude.
From S2P Require Import Domain.
From S2P Require Import MailStore.
From S2P Require Import StoreInvariant.

(** ** Counters *)

Definition row_key (r : Z * Z * Z) : Z * Z := (row_label r, row_thread r).

Ltac open_row :=
  repeat match goal with
  | |- context [row_label (?l, ?a, ?t)] => change (row_label (l, a, t)) with l
  | |- context [row_thread (?l, ?a, ?t)] => change (row_thread (l, a, t)) with t
  | |- context [row_key (?l, ?a, ?t)] => change (row_key (l, a, t)) with (l, t)
  | H : context [row_label (?l, ?a, ?t)] |- _ => change (row_label (l, a, t)) with l in H
  | H : context [row_thread (?l, ?a, ?t)] |- _ => change (row_thread (l, a, t)) with t in H
  | H : context [row_key (?l, ?a, ?t)] |- _ => change (row_key (l, a, t)) with (l, t) in H
  end.

Lemma row_filter l t tl :
  List.filter (λ '(l', _, t'), negb (bool_decide (l' = l ∧ t' = t))) tl =
  List.filter (λ r, negb (bool_decide (row_key r = (l, t)))) tl.
Proof.
  apply List_filter_ext. intros [[l' at_] t'] _. f_equal. apply bool_decide_ext. unfold row_key. simpl.
  naive_solver.
Qed.

Lemma stats_remove ts tl st l at_ t :
  NoDup (row_key <$> tl) → (l, at_, t) ∈ tl → label_stats_inv ts tl st →
  label_stats_inv ts (List.filter (λ r, negb (bool_decide (row_key r = (l, t)))) tl)
    (alter (λ '(n, u), (n - 1, u - Z.b2z (row_unread ts t))%Z) l st).
Proof.
  intros Hn Hin Hst l'. specialize (Hst l'). unfold label_tally in *.
  rewrite !(count_remove_key row_key _ tl _ Hn Hin) in Hst. cbv beta in Hst. open_row.
  destruct (decide (l = l')) as [->|Hne].
  - rewrite lookup_alter_eq. rewrite bool_decide_eq_true_2 in Hst by done.
    destruct (st !! l') as [[n u]|]; simpl in *; [|injection Hst as H1 H2; lia].
    injection Hst as -> ->. destruct (row_unread ts t); simpl; f_equal; lia.
  - rewrite lookup_alter_ne by done. rewrite bool_decide_eq_false_2 in Hst by done. done.
Qed.

Lemma stats_add ts tl st l at_ t :
  label_stats_inv ts tl st →
  label_stats_inv ts (tl ++ [(l, at_, t)])
    (<[l := let '(n, u) := default (0, 0)%Z (st !! l) in (n + 1, u + Z.b2z (row_unread ts t))%Z]> st).
Proof.
  intros Hst l'. rewrite (Hst l). unfold label_tally. rewrite !count_app, !count_cons, !count_nil.
  open_row.
  destruct (decide (l = l')) as [->|Hne].
  - rewrite lookup_insert_eq, bool_decide_eq_true_2 by done. simpl.
    destruct (row_unread ts t); simpl; f_equal; lia.
  - rewrite lookup_insert_ne, bool_decide_eq_false_2 by done. rewrite Hst. unfold label_tally. simpl.
    f_equal; lia.
Qed.

(** The tables a recompute only reads. *)
Definition same_base (s s' : Store) : Prop :=
  labels s' = labels s ∧ messages s' = messages s ∧ message_labels s' = message_labels s ∧
  messages_fts s' = messages_fts s.

(** ** A thread leaves the counters *)

Definition not_thread (t : Z) (r : Z * Z * Z) : bool := negb (bool_decide (row_thread r = t)).
Definition others (t : Z) (ts : list ThreadRow) : list ThreadRow :=
  List.filter (λ r, negb (bool_decide (th_id r = t))) ts.

Record retracted (t : Z) (s s' : Store) : Prop := {
  rt_base : same_base s s';
  rt_threads : threads s' = threads s;
  rt_rows : thread_labels s' = List.filter (not_thread t) (thread_labels s);
  rt_stats : label_stats_inv (threads s') (thread_labels s') (label_stats s');
  rt_categories : ∀ c, default (0, 0)%Z (category_stats s' !! c) = category_tally (others t (threads s)) c }.

Lemma bool_pair_filter (l l' t t' : Z) ls :
  negb (bool_decide ((l', t') = (l, t))) && negb (bool_decide (l' ∈ ls ∧ t' = t)) =
  negb (bool_decide (l' ∈ l :: ls ∧ t' = t)).
Proof.
  apply eq_true_iff_eq. rewrite andb_true_iff, !negb_true_iff, !bool_decide_eq_false, elem_of_cons.
  destruct (decide (l' = l)), (decide (t' = t)); naive_solver.
Qed.

Lemma remove_labels_spec t u ls s :
  u = row_unread (threads s) t → NoDup ls → NoDup (row_key <$> thread_labels s) →
  (∀ l, l ∈ ls → ∃ at_, (l, at_, t) ∈ thread_labels s) →
  label_stats_inv (threads s) (thread_labels s) (label_stats s) →
  let s' := foldl (λ s l, remove_thread_label l t u s) s ls in
  same_base s s' ∧ threads s' = threads s ∧ category_stats s' = category_stats s ∧
  thread_labels s' = List.filter (λ r, negb (bool_decide (row_label r ∈ ls ∧ row_thread r = t))) (thread_labels s) ∧
  label_stats_inv (threads s') (thread_labels s') (label_stats s').
Proof.
  intros Hu Hls. revert s Hu. induction Hls as [|l ls Hl Hls IH]; intros s Hu Hn Hrows Hst; simpl.
  - split_and!; try done. by rewrite List_filter_all.
  - destruct (Hrows l) as [at_ Hin]; [set_solver|].
    destruct (IH (remove_thread_label l t u s)) as (Hb & Et & Ec & Er & Hst'); simpl; rewrite ?row_filter.
    + done.
    + by apply NoDup_fmap_List_filter.
    + intros l' Hl'. destruct (Hrows l') as [at' Hin']; [set_solver|]. exists at'.
      rewrite elem_of_List_filter. open_row. rewrite bool_decide_eq_false_2 by set_solver. done.
    + subst u. by apply (stats_remove _ _ _ _ at_).
    + split_and!; [done..| |done]. rewrite Er. simpl. rewrite row_filter, List_filter_filter.
      apply List_filter_ext. intros [[l' a] t'] _. unfold row_key. open_row.
      apply bool_pair_filter.
Qed.

Lemma thread_mailboxes_lookup s t l n :
  store_inv s → thread_mailboxes s t !! l = Some n ↔
  label_name (labels s) l = Some n ∧ ∃ at_, (l, at_, t) ∈ thread_labels s.
Proof.
  intros Hs. destruct (inv_labels _ Hs) as [Hid _]. unfold thread_mailboxes.
  rewrite <- elem_of_list_to_map.
  2: { rewrite <- list_fmap_compose. by apply (NoDup_fmap_List_filter lb_id). }
  rewrite list_elem_of_fmap, label_name_Some by done.
  setoid_rewrite elem_of_List_filter. setoid_rewrite existsb_true. split.
  - intros (r & [= -> ->] & ([[l' a] t'] & Hin & E%bool_decide_eq_true) & Hr).
    destruct E as [-> ->]. split; [by exists r|eauto].
  - intros [(r & Hr & <- & <-) [at_ Hin]]. exists r. split_and!; [done| |done].
    exists (lb_id r, at_, t). by rewrite bool_decide_eq_true_2.
Qed.

Lemma thread_mailboxes_keys s t l :
  store_inv s → l ∈ (map_to_list (thread_mailboxes s t)).*1 ↔ ∃ at_, (l, at_, t) ∈ thread_labels s.
Proof.
  intros Hs. rewrite list_elem_of_fmap. split.
  - intros ([l' n] & -> & Hin%elem_of_map_to_list). by apply thread_mailboxes_lookup in Hin as [_ ?].
  - intros [at_ Hin]. destruct (inv_thread_labels _ Hs) as [_ Hfk].
    destruct (Hfk _ Hin) as [Hl _]. apply list_elem_of_fmap in Hl as (r & E & Hr).
    exists (l, lb_gmail_id r). split; [done|]. apply elem_of_map_to_list.
    apply thread_mailboxes_lookup; [done|]. split; [|eauto].
    apply label_name_Some; [apply Hs|]. by exists r.
Qed.

Lemma category_tally_others ts t c :
  NoDup (th_id <$> ts) → t ∈ ts →
  category_tally ts c =
    let '(n, u) := category_tally (others (th_id t) ts) c in
    if in_category c t then (n + 1, u + Z.b2z (thread_unread t))%Z else (n, u).
Proof.
  intros Hn Ht. unfold category_tally, others. rewrite !(count_remove_key th_id _ ts t Hn Ht).
  destruct (in_category c t); simpl; [|done]. destruct (thread_unread t); simpl; f_equal; lia.
Qed.

Lemma count_category_spec cs' c d u s :
  (∀ c', default (0, 0)%Z (category_stats s !! c') = cs' c') →
  ∀ c', default (0, 0)%Z (category_stats (count_inbox_category c d u s) !! c') =
        if bool_decide (c = c') then ((cs' c').1 + d, (cs' c').2 + u)%Z else cs' c'.
Proof.
  intros H c'. unfold count_inbox_category. simpl. rewrite (H c). destruct (cs' c) as [n v] eqn:E.
  case_bool_decide as Ec; [subst c'; by rewrite lookup_insert_eq, E|by rewrite lookup_insert_ne].
Qed.

Lemma retract_spec t r s :
  store_inv s → r ∈ threads s → th_id r = t → retracted t s (retract_thread t s).
Proof.
  intros Hs Hr Et. assert (thread_by_rowid s t = Some r) as Hf by (by apply find_by_Some; [apply Hs|]).
  unfold retract_thread. rewrite Hf. simpl.
  set (u := thread_unread r). set (ls := (map_to_list (thread_mailboxes s t)).*1).
  destruct (remove_labels_spec t u ls s) as (Hb & Eth & Ec & Er & Hst).
  { unfold row_unread. unfold thread_by_rowid in Hf. by rewrite Hf. }
  { apply NoDup_fst_map_to_list. }
  { apply Hs. }
  { intros l Hl. by apply thread_mailboxes_keys. }
  { apply Hs. }
  set (s1 := foldl _ s ls) in *. clearbody s1.
  assert (thread_labels s1 = List.filter (not_thread t) (thread_labels s)) as Er'.
  { rewrite Er. apply List_filter_ext. intros [[l a] t'] Hin. unfold not_thread. open_row. f_equal.
    apply bool_decide_ext. split; [naive_solver|]. intros ->. split; [|done].
    apply thread_mailboxes_keys; eauto. }
  assert (∀ c, default (0, 0)%Z (category_stats s1 !! c) = category_tally (threads s) c) as Hc.
  { intros c. rewrite Ec. apply Hs. }
  pose proof (λ c, category_tally_others (threads s) r c (inv_threads _ Hs) Hr) as Hct.
  rewrite Et in Hct. unfold in_category in Hct.
  destruct (inbox_category (th_label_ids r)) as [c|]; constructor; try done.
  - intros c'. rewrite (count_category_spec _ c _ _ s1 Hc). rewrite Hct.
    destruct (category_tally (others t (threads s)) c') as [n v].
    repeat case_bool_decide; try congruence. simpl. f_equal; unfold u; lia.
  - intros c'. rewrite Hc, Hct. by destruct (category_tally (others t (threads s)) c').
Qed.

(** ** Where a thread belongs *)

Lemma elem_of_merge_sort {A} (R : relation A) `{∀ x y, base.Decision (R x y)} (l : list A) x :
  x ∈ merge_sort R l ↔ x ∈ l.
Proof. by rewrite merge_sort_Permutation. Qed.

Lemma thread_message_labels_spec s t l n :
  store_inv s → (l, n) ∈ thread_message_labels s t ↔ labelled s t l n.
Proof.
  intros Hs. destruct (inv_labels _ Hs) as (Hid & _ & Hv & _). unfold thread_message_labels.
  rewrite elem_of_merge_sort, list_elem_of_fmap. unfold labelled, messages_in.
  setoid_rewrite elem_of_List_filter.
  setoid_rewrite label_name_Some; [|done]. unfold on_thread_message. setoid_rewrite andb_true_iff.
  setoid_rewrite existsb_true. setoid_rewrite andb_true_iff. setoid_rewrite bool_decide_eq_true. split.
  - intros (r & [= -> ->] & (_ & m & Hm & Et & Hml) & Hr). exists m. eauto 10.
  - intros (m & [Et Hm] & Hml & r & Hr & <- & <-). exists r. split_and!; [done| |by exists m|done].
    rewrite bool_decide_eq_false_2; [done|]. intros Hk. apply Hv in Hk; [|done].
    destruct (inv_message_labels _ Hs _ _ Hml) as (n & Hn & Hne).
    apply label_name_Some in Hn as (r' & Hr' & Ei & En); [|done].
    by rewrite (NoDup_fmap_inj lb_id (labels s) r' r) in En by done; congruence.
Qed.

Lemma thread_message_labels_NoDup s t :
  store_inv s → NoDup (thread_message_labels s t).*1.
Proof.
  intros Hs. unfold thread_message_labels. rewrite (merge_sort_Permutation pair_le), <- list_fmap_compose.
  apply (NoDup_fmap_List_filter lb_id), Hs.
Qed.

Lemma labels_of_message_spec s m (n : list string) :
  store_inv s → List.existsb (λ l, bool_decide (lb_gmail_id l ∈ n)) (labels_of_message s m) = true ↔
  ∃ l x, (m, l) ∈ message_labels s ∧ label_name (labels s) l = Some x ∧ x ∈ n.
Proof.
  intros Hs. unfold labels_of_message. rewrite existsb_true. setoid_rewrite elem_of_List_filter.
  setoid_rewrite bool_decide_eq_true. setoid_rewrite label_name_Some; [|apply Hs]. split.
  - intros (r & [H1 H2] & H3). eauto 10.
  - intros (l & x & H1 & (r & H2 & <- & <-) & H3). exists r. eauto.
Qed.

Lemma wholly_spam_false s t :
  store_inv s → wholly_spam_or_trash s t = false ↔
  ∃ m, m ∈ messages_in s t ∧
    ∀ l n, (ms_id m, l) ∈ message_labels s → label_name (labels s) l = Some n → n ∉ [SPAM; TRASH].
Proof.
  intros Hs. unfold wholly_spam_or_trash. fold (messages_in s t).
  rewrite <- not_true_iff_false, forallb_true. split.
  - intros H. destruct (List.existsb (λ m, negb (in_spam_or_trash s (ms_id m))) (messages_in s t)) eqn:E.
    + apply existsb_true in E as (m & Hm & E). exists m. split; [done|]. intros l n Hl Hn Hin.
      apply negb_true_iff, not_true_iff_false in E. destruct E. apply labels_of_message_spec; eauto.
    + destruct H. intros m Hm. rewrite existsb_false in E. specialize (E m Hm).
      by apply negb_false_iff in E.
  - intros (m & Hm & H) Hall. apply Hall, labels_of_message_spec in Hm as (l & n & ? & ? & ?); [|done].
    by eapply H.
Qed.

Lemma archived_spec s t :
  store_inv s →
  negb (bool_decide (INBOX ∈ (thread_message_labels s t).*2)) && negb (wholly_spam_or_trash s t) = true
  ↔ archived s t.
Proof.
  intros Hs. rewrite andb_true_iff, !negb_true_iff, bool_decide_eq_false, wholly_spam_false by done.
  unfold archived. rewrite list_elem_of_fmap. f_equiv. split.
  - intros H l Hl. apply H. exists (l, INBOX). split; [done|]. by apply thread_message_labels_spec.
  - intros H ([l n] & E & Hl). simpl in E. subst n. apply (H l). by apply thread_message_labels_spec.
Qed.

(** The mailboxes a recompute gives the thread. *)
Lemma new_mailboxes_spec s t :
  store_inv s → ∃ mb, new_mailboxes s t = Ok mb ∧
    ∀ l n, mb !! l = Some n ↔ label_name (labels s) l = Some n ∧ mailbox s t l.
Proof.
  intros Hs. destruct (inv_labels _ Hs) as (Hid & Hg & Hv & Ha).
  assert (∀ l n, (list_to_map (thread_message_labels s t) : gmap Z string) !! l = Some n ↔ labelled s t l n) as Hbase.
  { intros l n. rewrite <- thread_message_labels_spec by done. symmetry.
    apply elem_of_list_to_map. by apply thread_message_labels_NoDup. }
  assert (∀ l n, labelled s t l n → label_name (labels s) l = Some n ∧ n ≠ ARCHIVE_LABEL) as Hname.
  { intros l n (m & _ & Hml & Hn). split; [done|].
    destruct (inv_message_labels _ Hs _ _ Hml) as (n' & Hn' & ?). congruence. }
  apply list_elem_of_fmap in Ha as (r & Er & Hr).
  assert (find_label s ARCHIVE_LABEL = Some r) as Hf by by apply find_by_Some.
  assert (label_name (labels s) (lb_id r) = Some ARCHIVE_LABEL) as Hrn.
  { apply label_name_Some; [done|]. by exists r. }
  assert (∀ l, label_name (labels s) l = Some ARCHIVE_LABEL → l = lb_id r) as Huniq.
  { intros l (r' & Hr' & <- & En)%label_name_Some; [|done].
    f_equal. apply (NoDup_fmap_inj lb_gmail_id (labels s)); [done..|congruence]. }
  unfold new_mailboxes. rewrite Hf. simpl. pose proof (archived_spec s t Hs) as Harch.
  destruct (negb _ && negb _); eexists; (split; [done|]); intros l n; unfold mailbox.
  - rewrite lookup_insert_Some, Hbase. split.
    + intros [[<- <-]|[Hne Hl]]; [split; [done|right; split; [done|by apply Harch]]|].
      split; [by apply Hname|left; eauto].
    + intros [Hn [[n' Hl]|[Hla _]]].
      * destruct (Hname _ _ Hl) as [Hn' Hne]. assert (n' = n) as -> by congruence.
        right. split; [|done]. intros <-. congruence.
      * left. split; [by symmetry; apply Huniq|congruence].
  - rewrite Hbase. split.
    + intros Hl. split; [by apply Hname|left; eauto].
    + intros [Hn [[n' Hl]|[_ Hla]]]; [destruct (Hname _ _ Hl); congruence|].
      by apply Harch in Hla.
Qed.

(** ** A thread joins the counters *)

Lemma same_base_trans s1 s2 s3 : same_base s1 s2 → same_base s2 s3 → same_base s1 s3.
Proof. unfold same_base. intros (?&?&?&?) (?&?&?&?). split_and!; congruence. Qed.

Lemma add_labels_spec t u at_ ls s :
  u = row_unread (threads s) t → NoDup ls →
  (∀ r, r ∈ thread_labels s → row_thread r = t → row_label r ∉ ls) →
  label_stats_inv (threads s) (thread_labels s) (label_stats s) →
  ∃ s', add_thread_labels ls at_ t u s = Ok s' ∧
    same_base s s' ∧ threads s' = threads s ∧ category_stats s' = category_stats s ∧
    thread_labels s' = thread_labels s ++ ((λ l, (l, at_, t)) <$> ls) ∧
    label_stats_inv (threads s') (thread_labels s') (label_stats s').
Proof.
  intros Hu Hls. revert s Hu. induction Hls as [|l ls Hl Hls IH]; intros s Hu Hrows Hst; simpl.
  - exists s. by rewrite app_nil_r.
  - unfold add_thread_label. rewrite bool_decide_eq_false_2.
    2: { intros Hin. apply (Hrows _ Hin eq_refl). by left. }
    simpl. match goal with |- context [add_thread_labels ls at_ t u ?x] => set (s1 := x) end.
    destruct (IH s1) as (s' & E & Hb & Et & Ec & Er & Hst'); [done| | |].
    + intros r [Hr| ->%list_elem_of_singleton]%elem_of_app Ht; [|by open_row].
      specialize (Hrows r Hr Ht). set_solver.
    + subst u. by apply stats_add.
    + exists s'. split_and!; [done..| |done]. rewrite Er. simpl. by rewrite <- app_assoc.
Qed.

Lemma label_tally_ext ts ts' tl l :
  (∀ r, r ∈ tl → row_unread ts' (row_thread r) = row_unread ts (row_thread r)) →
  label_tally ts' tl l = label_tally ts tl l.
Proof.
  intros H. unfold label_tally. do 2 f_equal. apply count_ext. intros r Hr. by rewrite H.
Qed.

Lemma find_by_update ts t f x :
  (∀ r, th_id (f r) = th_id r) →
  find_by th_id x ((λ r, if bool_decide (th_id r = t) then f r else r) <$> ts) =
  (λ r, if bool_decide (th_id r = t) then f r else r) <$> find_by th_id x ts.
Proof. intros Hf. apply find_by_fmap. intros r _. by case_bool_decide. Qed.

Lemma others_update ts t f :
  (∀ r, th_id (f r) = th_id r) →
  others t ((λ r, if bool_decide (th_id r = t) then f r else r) <$> ts) = others t ts.
Proof.
  intros Hf. unfold others. induction ts as [|r ts IH]; [done|]. rewrite fmap_cons. simpl.
  destruct (bool_decide (th_id r = t)) eqn:E; rewrite ?Hf, E; simpl; [done|by rewrite IH].
Qed.

Lemma new_mailboxes_base s s' t : same_base s s' → new_mailboxes s' t = new_mailboxes s t.
Proof.
  intros (El & Em & Eml & _).
  assert (thread_message_labels s' t = thread_message_labels s t) as E1.
  { unfold thread_message_labels, on_thread_message. by rewrite El, Em, Eml. }
  assert (wholly_spam_or_trash s' t = wholly_spam_or_trash s t) as E2.
  { unfold wholly_spam_or_trash, in_spam_or_trash, labels_of_message. by rewrite El, Em, Eml. }
  unfold new_mailboxes, find_label. by rewrite E1, E2, El.
Qed.
Lemma thread_message_labels_base s s' t :
  same_base s s' → thread_message_labels s' t = thread_message_labels s t.
Proof.
  intros (El & Em & Eml & _). unfold thread_message_labels, on_thread_message. by rewrite El, Em, Eml.
Qed.
Lemma thread_messages_base s s' t : same_base s s' → thread_messages s' t = thread_messages s t.
Proof. intros (_ & Em & _). unfold thread_messages. by rewrite Em. Qed.

Section recompute.
Context (to_lowercase : string → string).
Implicit Types (s : Store).

Definition new_thread_row (s : Store) (t : Z) (m0 : MessageRow) (r : ThreadRow) : ThreadRow :=
  aggregate to_lowercase r (thread_messages s t) m0 (thread_message_labels s t).*2.
Definition published_threads (s : Store) (t : Z) (m0 : MessageRow) : list ThreadRow :=
  (λ x, if bool_decide (th_id x = t) then new_thread_row s t m0 x else x) <$> threads s.

Lemma published_row_unread s t m0 r x :
  store_inv s → r ∈ threads s → th_id r = t →
  row_unread (published_threads s t m0) x =
    if bool_decide (x = t) then thread_unread (new_thread_row s t m0 r) else row_unread (threads s) x.
Proof.
  intros Hs Hr Et. unfold row_unread, published_threads. rewrite find_by_update by done.
  case_bool_decide as E; [subst x|].
  - rewrite (proj2 (find_by_Some th_id t _ r (inv_threads _ Hs))) by done. simpl.
    by rewrite bool_decide_eq_true_2.
  - destruct (find_by th_id x (threads s)) as [y|] eqn:Ey; [|done]. simpl.
    apply find_by_Some_2 in Ey as [_ Ey]. by rewrite bool_decide_eq_false_2 by congruence.
Qed.

Lemma published_category s t m0 r c :
  store_inv s → r ∈ threads s → th_id r = t →
  category_tally (published_threads s t m0) c =
    let '(n, u) := category_tally (others t (threads s)) c in
    if in_category c (new_thread_row s t m0 r)
    then (n + 1, u + Z.b2z (thread_unread (new_thread_row s t m0 r)))%Z else (n, u).
Proof.
  intros Hs Hr Et.
  assert (NoDup (th_id <$> published_threads s t m0)) as Hn.
  { unfold published_threads. rewrite fmap_map_key; [apply Hs|]. intros x _. by case_bool_decide. }
  rewrite (category_tally_others _ (new_thread_row s t m0 r)); [|done|].
  - change (th_id (new_thread_row s t m0 r)) with (th_id r). rewrite Et.
    unfold published_threads. by rewrite others_update.
  - apply list_elem_of_fmap. exists r. by rewrite bool_decide_eq_true_2.
Qed.

(** What [publish_thread] does to a retracted store. *)
Record published (t : Z) (m0 : MessageRow) (r : ThreadRow) (mb : gmap Z string) (s s' : Store) : Prop := {
  pb_base : same_base s s';
  pb_threads : threads s' = published_threads s t m0;
  pb_rows : thread_labels s' = List.filter (not_thread t) (thread_labels s) ++
              ((λ l, (l, th_last_at (new_thread_row s t m0 r), t)) <$> (map_to_list mb).*1);
  pb_stats : label_stats_inv (threads s') (thread_labels s') (label_stats s');
  pb_categories : category_stats_inv (threads s') (category_stats s') }.

Lemma publish_spec t m0 s s1 r mb :
  store_inv s → r ∈ threads s → th_id r = t → retracted t s s1 → new_mailboxes s t = Ok mb →
  ∃ s', publish_thread to_lowercase t m0 s1 = Ok (s', mb) ∧ published t m0 r mb s s'.
Proof.
  intros Hs Hr Et [Hb Eth Erow Hst Hcat] Hmb. unfold publish_thread.
  rewrite (thread_messages_base s s1), (thread_message_labels_base s s1) by done.
  change (aggregate to_lowercase ?x (thread_messages s t) m0 _) with (new_thread_row s t m0 x).
  set (s2 := update_thread t _ s1).
  assert (same_base s s2) as Hb2 by done.
  rewrite (new_mailboxes_base s s2), Hmb by done. simpl.
  assert (threads s2 = published_threads s t m0) as Et2.
  { unfold s2, update_thread. simpl. by rewrite Eth. }
  edestruct (add_labels_spec t (thread_unread (new_thread_row s t m0 r)) (th_last_at (new_thread_row s t m0 r))
              (map_to_list mb).*1 s2) as (s3 & E3 & Hb3 & Et3 & Ec3 & Er3 & Hst3).
  { rewrite Et2, (published_row_unread _ _ _ r), bool_decide_eq_true_2; done. }
  { apply NoDup_fst_map_to_list. }
  { simpl. rewrite Erow. intros x [Hx _]%elem_of_List_filter Ex. unfold not_thread in Hx.
    by rewrite bool_decide_eq_true_2 in Hx. }
  { intros l. change (label_stats s2) with (label_stats s1). change (thread_labels s2) with (thread_labels s1).
    rewrite (Hst l), Et2, Eth. symmetry. apply label_tally_ext. intros x.
    rewrite Erow. intros [Hx _]%elem_of_List_filter. unfold not_thread in Hx.
    rewrite (published_row_unread _ _ _ r) by done. by case_bool_decide. }
  match goal with |- context [add_thread_labels _ ?a t ?b _] =>
    change a with (th_last_at (new_thread_row s t m0 r));
    change b with (thread_unread (new_thread_row s t m0 r)) end.
  rewrite E3. simpl. eexists. split; [reflexivity|].
  assert (∀ c, default (0, 0)%Z (category_stats s3 !! c) = category_tally (others t (threads s)) c) as Hc3.
  { intros c. by rewrite Ec3. }
  pose proof (same_base_trans _ _ _ Hb2 Hb3) as Hb'. pose proof (published_category s t m0 r) as Hpc.
  destruct (inbox_category _) as [c|] eqn:Ecat.
  - constructor; [done|by etrans; [exact Et3|]|by etrans; [exact Er3|]; simpl; rewrite Erow|exact Hst3|].
    intros c'. change (threads (count_inbox_category _ _ _ s3)) with (threads s3).
    rewrite (count_category_spec _ c _ _ s3 Hc3), Et3, Et2, (Hpc c') by done.
    unfold in_category. change (th_label_ids (new_thread_row s t m0 r)) with ((thread_message_labels s t).*2).
    rewrite Ecat. destruct (category_tally (others t (threads s)) c') as [n v].
    repeat case_bool_decide; simpl; congruence.
  - constructor; [done|by etrans; [exact Et3|]|by etrans; [exact Er3|]; simpl; rewrite Erow|exact Hst3|].
    intros c'. rewrite Hc3, Et3, Et2, (Hpc c') by done.
    unfold in_category. change (th_label_ids (new_thread_row s t m0 r)) with ((thread_message_labels s t).*2).
    rewrite Ecat. by destruct (category_tally (others t (threads s)) c').
Qed.

(** *** The recomputed thread is up to date *)

Lemma same_view_base s s' t :
  same_base s s' → (∀ l at_, (l, at_, t) ∈ thread_labels s' ↔ (l, at_, t) ∈ thread_labels s) →
  same_view s s' t.
Proof. intros (El & Em & Eml & _) Hr. constructor; unfold messages_in; by rewrite ?El, ?Em, ?Eml. Qed.

Lemma labelled_base s s' t l n : same_base s s' → labelled s' t l n ↔ labelled s t l n.
Proof. intros (El & Em & Eml & _). unfold labelled, messages_in. by rewrite El, Em, Eml. Qed.
Lemma mailbox_base s s' t l : same_base s s' → mailbox s' t l ↔ mailbox s t l.
Proof.
  intros (El & Em & Eml & _). unfold mailbox, archived, labelled, messages_in. by rewrite El, Em, Eml.
Qed.
Lemma messages_in_base s s' t : same_base s s' → messages_in s' t = messages_in s t.
Proof. intros (_ & Em & _). unfold messages_in. by rewrite Em. Qed.

Lemma thread_messages_perm s t : thread_messages s t ≡ₚ messages_in s t.
Proof. apply merge_sort_Permutation. Qed.

Lemma published_thread_ok t m0 r mb s s' :
  store_inv s → th_id r = t → messages_in s t ≠ [] → new_mailboxes s t = Ok mb →
  published t m0 r mb s s' → thread_ok s' (new_thread_row s t m0 r).
Proof.
  intros Hs Et Hms Hmb [Hb Eth Erow _ _].
  assert (th_id (new_thread_row s t m0 r) = t) as Et' by done.
  constructor; rewrite ?Et', ?(messages_in_base s s') by done.
  - done.
  - unfold unread_in. simpl. f_equal. apply count_Permutation, thread_messages_perm.
  - apply existsb_Permutation, thread_messages_perm.
  - intros n. setoid_rewrite (labelled_base s s'); [|done]. simpl. rewrite list_elem_of_fmap.
    split; [intros ([l n'] & -> & Hl); exists l|intros [l Hl]; exists (l, n); split; [done|]];
      by apply thread_message_labels_spec.
  - intros l at_. rewrite (mailbox_base s s') by done. rewrite Erow, elem_of_app, elem_of_List_filter.
    destruct (new_mailboxes_spec s t Hs) as (mb' & Hmb' & Hspec).
    rewrite Hmb' in Hmb. injection Hmb as ->. rewrite list_elem_of_fmap. unfold not_thread. open_row.
    rewrite bool_decide_eq_true_2 by done. simpl. split.
    + intros [[? _]|(l' & [= -> ->] & Hl')]; [done|]. split; [done|].
      apply list_elem_of_fmap in Hl' as ([? n] & -> & Hn%elem_of_map_to_list). by apply Hspec in Hn as [_ Hn].
    + intros [-> Hm]. right. exists l. split; [done|].
      assert (∃ n, label_name (labels s) l = Some n) as [n Hn].
      { destruct Hm as [(n & m & _ & _ & Hn)|[Hn _]]; eauto. }
      apply list_elem_of_fmap. exists (l, n). split; [done|]. apply elem_of_map_to_list. by apply Hspec.
Qed.

Lemma published_thread_labels_inv t m0 r mb s s' :
  store_inv s → r ∈ threads s → th_id r = t → new_mailboxes s t = Ok mb →
  published t m0 r mb s s' → thread_labels_inv (labels s') (threads s') (thread_labels s').
Proof.
  intros Hs Hr Et Hmb [(El & _) Eth Erow _ _]. destruct (inv_thread_labels _ Hs) as [Hn Hfk].
  assert (th_id <$> threads s' = th_id <$> threads s) as Eid.
  { rewrite Eth. unfold published_threads. rewrite fmap_map_key; [done|]. intros x _. by case_bool_decide. }
  split.
  - rewrite Erow, fmap_app, <- list_fmap_compose. apply NoDup_app. split_and!.
    + by apply NoDup_fmap_List_filter.
    + intros k (x & -> & [Hx _]%elem_of_List_filter)%list_elem_of_fmap.
      intros (l & [= _ El2] & _)%list_elem_of_fmap. unfold not_thread in Hx.
      by rewrite El2, bool_decide_eq_true_2 in Hx.
    + apply NoDup_fmap_2; [|apply NoDup_fst_map_to_list]. by intros l1 l2 [= ?].
  - intros x. rewrite Erow, El, Eid. intros [[_ Hx]%elem_of_List_filter|Hx]%elem_of_app; [by apply Hfk|].
    apply list_elem_of_fmap in Hx as (l & -> & Hl). open_row.
    split; [|apply list_elem_of_fmap; eauto].
    apply list_elem_of_fmap in Hl as ([l' n] & -> & Hl%elem_of_map_to_list). simpl.
    destruct (new_mailboxes_spec s t Hs) as (mb' & Hmb' & Hspec).
    rewrite Hmb' in Hmb. injection Hmb as ->. apply Hspec in Hl as [Hl _].
    apply label_name_Some in Hl as (y & Hy & <- & _); [|apply Hs]. by apply list_elem_of_fmap_2.
Qed.

Lemma published_good D t m0 r mb s s' :
  good D s → r ∈ threads s → th_id r = t → messages_in s t ≠ [] → new_mailboxes s t = Ok mb →
  published t m0 r mb s s' → good (D ∖ {[t]}) s'.
Proof.
  intros [Hs Hc] Hr Et Hms Hmb Hp. pose proof Hp as [(El & Em & Eml & _) Eth Erow Hst Hcat]. split.
  - constructor; try done; rewrite ?El, ?Em, ?Eml; try apply Hs.
    + rewrite Eth. unfold published_threads. rewrite fmap_map_key; [apply Hs|].
      intros x _. by case_bool_decide.
    + rewrite <- El. by eapply published_thread_labels_inv.
  - intros x. rewrite Eth. intros (y & -> & Hy)%list_elem_of_fmap Hn.
    destruct (bool_decide (th_id y = t)) eqn:E.
    + apply bool_decide_eq_true in E. rewrite (NoDup_fmap_inj th_id (threads s) y r) by (apply Hs || congruence).
      by eapply published_thread_ok.
    + apply bool_decide_eq_false in E. apply (thread_ok_same_view s).
      * apply same_view_base; [apply Hp|]. intros l at_. rewrite Erow, elem_of_app, elem_of_List_filter.
        unfold not_thread. open_row. rewrite bool_decide_eq_false_2 by done.
        rewrite list_elem_of_fmap. naive_solver.
      * apply Hc; [done|]. set_solver.
Qed.

Lemma deleted_good D t s s1 r :
  good D s → r ∈ threads s → th_id r = t → retracted t s s1 →
  good (D ∖ {[t]}) (delete_thread_row t s1).
Proof.
  intros [Hs Hc] Hr Et [Hb Eth Erow Hst Hcat]. pose proof Hb as (El & Em & Eml & _).
  assert (List.filter (λ '(_, _, t'), negb (bool_decide (t' = t))) (thread_labels s1) = thread_labels s1) as Erow'.
  { apply List_filter_all. intros [[l a] t']. rewrite Erow. intros [Hx _]%elem_of_List_filter. exact Hx. }
  destruct (inv_thread_labels _ Hs) as [Hn Hfk].
  split.
  - constructor; simpl; rewrite ?Erow', ?El, ?Em, ?Eml; try apply Hs.
    + rewrite Eth. apply NoDup_fmap_List_filter, Hs.
    + rewrite Erow. split; [by apply NoDup_fmap_List_filter|]. intros x [Hx Hin]%elem_of_List_filter.
      destruct (Hfk _ Hin) as [? Ht]. split; [done|]. rewrite Eth.
      apply list_elem_of_fmap in Ht as (y & Ey & Hy). apply list_elem_of_fmap. exists y.
      split; [done|]. apply elem_of_List_filter. unfold not_thread in Hx. by rewrite <- Ey.
    + intros l. rewrite Hst. symmetry. apply label_tally_ext. intros x Hx. unfold row_unread.
      rewrite find_by_filter; [done|]. intros y _ Ey. rewrite Ey. rewrite Erow in Hx.
      by apply elem_of_List_filter in Hx as [Hx _].
    + rewrite Eth. exact Hcat.
  - intros x. simpl. rewrite Eth. intros [Hx Hin]%elem_of_List_filter HD. apply (thread_ok_same_view s).
    + apply same_view_base; [exact Hb|]. intros l at_. simpl. rewrite Erow', Erow, elem_of_List_filter.
      unfold not_thread. open_row. rewrite Hx. naive_solver.
    + apply Hc; [done|]. case_bool_decide; [done|set_solver].
Qed.

(** *** One thread, then all of them *)

Lemma thread_mailboxes_frame s s' t :
  labels s' = labels s → (∀ l at_, (l, at_, t) ∈ thread_labels s' ↔ (l, at_, t) ∈ thread_labels s) →
  thread_mailboxes s' t = thread_mailboxes s t.
Proof.
  intros El Hr. unfold thread_mailboxes. rewrite El. f_equal. f_equal. apply List_filter_ext.
  intros r _. apply eq_true_iff_eq. rewrite !existsb_true. split; intros ([[l a] t'] & Hin & E);
    pose proof E as [-> ->]%bool_decide_eq_true; eexists; (split; [by apply Hr|exact E]).
Qed.

(** What a recompute of [t] guarantees. *)
Record recomputed (t : Z) (s s' : Store) : Prop := {
  rc_base : same_base s s';
  rc_rows : ∀ l at_ t', t' ≠ t → (l, at_, t') ∈ thread_labels s' ↔ (l, at_, t') ∈ thread_labels s;
  rc_threads : ∀ t', t' ≠ t → t' ∈ th_id <$> threads s → t' ∈ th_id <$> threads s' }.

Lemma published_mailboxes t m0 r mb s s' :
  store_inv s → store_inv s' → new_mailboxes s t = Ok mb → published t m0 r mb s s' →
  thread_mailboxes s' t = mb.
Proof.
  intros Hs Hs' Hmb [(El & _) _ Erow _ _]. destruct (new_mailboxes_spec s t Hs) as (mb' & Hmb' & Hspec).
  rewrite Hmb' in Hmb. injection Hmb as ->. apply map_eq. intros l. apply option_eq. intros n.
  rewrite thread_mailboxes_lookup, El, Erow by done. setoid_rewrite elem_of_app.
  setoid_rewrite elem_of_List_filter. setoid_rewrite list_elem_of_fmap. unfold not_thread. split.
  - intros [Hn (at_ & [[Hf _]|(l' & [= -> ->] & Hl')])].
    + by open_row; rewrite bool_decide_eq_true_2 in Hf.
    + apply list_elem_of_fmap in Hl' as ([? n'] & -> & Hl'%elem_of_map_to_list). simpl in *.
      apply Hspec in Hl' as Hl2. destruct Hl2. congruence.
  - intros Hl. split; [by apply Hspec in Hl as [? _]|]. eexists. right. exists l. split; [done|].
    apply list_elem_of_fmap. exists (l, n). split; [done|]. by apply elem_of_map_to_list.
Qed.

Lemma note_transitions_removed g old c :
  foldl (λ c '(_, label), note_removed g label c) c (map_to_list old) = note_transitions g old ∅ c.
Proof.
  unfold note_transitions. rewrite map_to_list_empty. simpl. generalize (map_to_list old). intros l.
  revert c. induction l as [|[k n] l IH]; intros c; simpl; [done|]. rewrite IH.
  by rewrite lookup_empty, bool_decide_eq_false_2 by (intros [? ?]; done).
Qed.

Lemma recompute_thread_spec D t g s c :
  good D s → t ∈ th_id <$> threads s →
  ∃ s', recompute_thread to_lowercase t g s c =
          Ok (s', note_transitions g (thread_mailboxes s t) (thread_mailboxes s' t) c) ∧
        good (D ∖ {[t]}) s' ∧ recomputed t s s'.
Proof.
  intros Hg (r & Et & Hr)%list_elem_of_fmap. symmetry in Et. pose proof Hg as [Hs _].
  pose proof (retract_spec t r s Hs Hr Et) as Hrt. pose proof (thread_messages_perm s t) as Hperm.
  unfold recompute_thread. destruct (thread_messages s t) as [|m0 ms] eqn:Ems.
  - exists (delete_thread_row t (retract_thread t s)). 
    pose proof (deleted_good D t s _ r Hg Hr Et Hrt) as Hg'. destruct Hrt as [Hb Eth Erow _ _].
    rewrite note_transitions_removed. split_and!; [|done|].
    + repeat f_equal. symmetry. apply map_empty. intros l. apply eq_None_not_Some. intros [n Hn].
      apply thread_mailboxes_lookup in Hn as [_ [at_ Hin]]; [|apply Hg'].
      apply elem_of_List_filter in Hin as [Hin _]. by rewrite bool_decide_eq_true_2 in Hin.
    + constructor; [exact Hb| |].
      * intros l at_ t' Hne. simpl. rewrite Erow, !elem_of_List_filter. unfold not_thread. open_row.
        rewrite bool_decide_eq_false_2 by done. naive_solver.
      * intros t' Hne. simpl. rewrite Eth. intros (x & -> & Hx)%list_elem_of_fmap.
        apply list_elem_of_fmap_2, elem_of_List_filter. by rewrite bool_decide_eq_false_2.
  - destruct (new_mailboxes_spec s t Hs) as (mb & Hmb & _).
    destruct (publish_spec t m0 s _ r mb Hs Hr Et Hrt Hmb) as (s' & E & Hp).
    assert (good (D ∖ {[t]}) s') as Hg'.
    { eapply published_good; [done..| |done|done]. intros Hnil. rewrite Hnil in Hperm.
      by apply Permutation_nil_r in Hperm. }
    exists s'. rewrite E. simpl. rewrite (published_mailboxes t m0 r mb s s') by (done || apply Hg').
    split_and!; [done..|]. destruct Hp as [Hb Eth Erow _ _]. constructor; [done| |].
    + intros l at_ t' Hne. rewrite Erow, elem_of_app, elem_of_List_filter, list_elem_of_fmap.
      unfold not_thread. open_row. rewrite bool_decide_eq_false_2 by done. naive_solver.
    + intros t' _. rewrite Eth. unfold published_threads. rewrite fmap_map_key; [done|].
      intros x _. by case_bool_decide.
Qed.

(** *** Transitions *)

Inductive change := Inserted | Updated | Removed.
Definition noted (k : change) (c : ThreadChanges) (label : string) : gset string :=
  let e := default no_change (c !! label) in
  match k with Inserted => inserted e | Updated => updated e | Removed => removed e end.
Definition transition (k : change) (old new : gmap Z string) (label : string) : Prop :=
  match k with
  | Inserted => ∃ l, new !! l = Some label ∧ old !! l = None
  | Updated => ∃ l, old !! l = Some label ∧ is_Some (new !! l)
  | Removed => ∃ l, old !! l = Some label ∧ new !! l = None
  end.

Lemma noted_note k k' g l c n (f : string → string → ThreadChanges → ThreadChanges) g' :
  f = match k' with Inserted => note_inserted | Updated => note_updated | Removed => note_removed end →
  g' ∈ noted k (f g l c) n ↔ g' ∈ noted k c n ∨ (g' = g ∧ l = n ∧ k = k').
Proof.
  intros ->. unfold noted. destruct (decide (l = n)) as [->|Hne]; destruct k';
    unfold note_inserted, note_updated, note_removed;
    rewrite ?lookup_insert_eq, ?lookup_insert_ne by done; destruct k; simpl; set_solver.
Qed.

Lemma fold_old_spec k g (new : gmap Z string) l c n g' :
  g' ∈ noted k (foldl (λ c '(rowid, label),
         if bool_decide (is_Some (new !! rowid)) then note_updated g label c
         else note_removed g label c) c l) n ↔
  g' ∈ noted k c n ∨
  (g' = g ∧ ∃ r, (r, n) ∈ l ∧ k = if bool_decide (is_Some (new !! r)) then Updated else Removed).
Proof.
  revert c. induction l as [|[r n'] l IH]; intros c; simpl; [set_solver|]. rewrite IH.
  setoid_rewrite elem_of_cons. clear IH.
  case_bool_decide as E;
    [rewrite (noted_note k Updated) by done|rewrite (noted_note k Removed) by done]; split.
  1,3: intros [[?|(-> & -> & ->)]|(-> & r' & ? & ?)]; [by left|right; split; [done|]; exists r|by eauto 6];
    split; [by left|by case_bool_decide].
  all: intros [?|(-> & r' & [[= -> ->]|?] & Hk)]; [by left; left| |by eauto 6].
  all: left; right; split_and!; [done..|]; by case_bool_decide.
Qed.

Lemma fold_new_spec k g (old : gmap Z string) l c n g' :
  g' ∈ noted k (foldl (λ c '(rowid, label),
         if bool_decide (is_Some (old !! rowid)) then c else note_inserted g label c) c l) n ↔
  g' ∈ noted k c n ∨ (g' = g ∧ k = Inserted ∧ ∃ r, (r, n) ∈ l ∧ old !! r = None).
Proof.
  revert c. induction l as [|[r n'] l IH]; intros c; simpl; [set_solver|]. rewrite IH.
  setoid_rewrite elem_of_cons. clear IH. case_bool_decide as E.
  - split; [naive_solver|]. intros [?|(-> & -> & r' & [[= -> ->]|?] & Hk)]; [by left| |by eauto 8].
    rewrite Hk in E. by destruct E.
  - rewrite (noted_note k Inserted) by done. apply eq_None_not_Some in E. naive_solver.
Qed.

Lemma note_transitions_spec k g old new c n g' :
  g' ∈ noted k (note_transitions g old new c) n ↔
  g' ∈ noted k c n ∨ (g' = g ∧ transition k old new n).
Proof.
  unfold note_transitions. rewrite fold_new_spec, fold_old_spec.
  setoid_rewrite elem_of_map_to_list. unfold transition. split.
  - intros [[?|(-> & r & Hr & ->)]|(-> & -> & ?)]; [by left| |by right].
    right. split; [done|]. case_bool_decide as E; exists r; [done|]. split; [done|].
    by apply eq_None_not_Some.
  - intros [?|[-> H]]; [by left; left|]. destruct k; [by right|left; right..]; (split; [done|]);
      destruct H as (r & Hr & H); exists r; (split; [done|]);
      [by rewrite bool_decide_eq_true_2|rewrite bool_decide_eq_false_2; [done|]].
    rewrite H. by intros [? ?].
Qed.

(** *** The whole of [finish] *)

Lemma recompute_threads_spec ts D s c :
  NoDup ts.*1 → good D s → (∀ t, t ∈ ts.*1 → t ∈ th_id <$> threads s) →
  ∃ s' c', recompute_threads to_lowercase ts s c = Ok (s', c') ∧
    good (D ∖ list_to_set ts.*1) s' ∧ same_base s s' ∧
    (∀ l at_ t, t ∉ ts.*1 → (l, at_, t) ∈ thread_labels s' ↔ (l, at_, t) ∈ thread_labels s) ∧
    ∀ k n g', g' ∈ noted k c' n ↔ g' ∈ noted k c n ∨
      ∃ t, (t, g') ∈ ts ∧ transition k (thread_mailboxes s t) (thread_mailboxes s' t) n.
Proof.
  revert D s c. induction ts as [|[t g] ts IH]; intros D s c Hn Hg Hts.
  { exists s, c. split_and!; [done|eapply good_mono; [|done]; set_solver|done|done|set_solver]. }
  rewrite fmap_cons in Hn, Hts. simpl in Hn, Hts. apply NoDup_cons in Hn as [Ht Hn].
  destruct (recompute_thread_spec D t g s c Hg) as (s1 & E1 & Hg1 & [Hb1 Hr1 Ht1]); [apply Hts; set_solver|].
  destruct (IH _ s1 (note_transitions g (thread_mailboxes s t) (thread_mailboxes s1 t) c) Hn Hg1)
    as (s2 & c2 & E2 & Hg2 & Hb2 & Hr2 & Hc2).
  { intros t' Ht'. apply Ht1; [set_solver|]. apply Hts. set_solver. }
  exists s2, c2. simpl. rewrite E1. simpl.
  assert (thread_mailboxes s2 t = thread_mailboxes s1 t) as Em.
  { apply thread_mailboxes_frame; [apply Hb2|]. intros l at_. by apply Hr2. }
  assert (∀ t', t' ∈ ts.*1 → thread_mailboxes s1 t' = thread_mailboxes s t') as Em'.
  { intros t' Ht'. apply thread_mailboxes_frame; [apply Hb1|]. intros l at_. apply Hr1. set_solver. }
  split_and!; [done| |by eapply same_base_trans| |].
  - eapply good_mono; [|done]. set_solver.
  - intros l at_ t' Hnt. rewrite Hr2, Hr1; set_solver.
  - intros k n g'. rewrite Hc2, note_transitions_spec, <- Em. setoid_rewrite elem_of_cons. split.
    + intros [[?|[-> ?]]|(t' & Hin & Htr)]; [by left|right; exists t; by eauto|].
      right. exists t'. split; [by right|]. rewrite <- Em'; [done|]. by apply list_elem_of_fmap_2 with (f := fst) in Hin.
    + intros [?|(t' & [[= -> ->]|Hin] & Htr)]; [by left; left|by left; right|].
      right. exists t'. split; [done|]. rewrite Em'; [done|]. by apply list_elem_of_fmap_2 with (f := fst) in Hin.
Qed.

Lemma finish_spec w :
  writer_inv w → ∃ s' c, finish to_lowercase w = Ok (s', c) ∧ store_inv s' ∧ clean ∅ s' ∧ fts_ok s' ∧
    same_base (tx w) s' ∧
    ∀ k n g, g ∈ noted k c n ↔
      ∃ t, dirty w !! t = Some g ∧ transition k (thread_mailboxes (tx w) t) (thread_mailboxes s' t) n.
Proof.
  intros [[Hg Hd] Hf]. unfold finish.
  set (ts := merge_sort dirty_le (map_to_list (dirty w))).
  assert (ts ≡ₚ map_to_list (dirty w)) as Hp by apply merge_sort_Permutation.
  destruct (recompute_threads_spec ts (∅ ∪ dom (dirty w)) (tx w) ∅) as (s' & c & E & [Hs Hc] & Hb & _ & Hch).
  - rewrite Hp. apply NoDup_fst_map_to_list.
  - done.
  - intros t. rewrite Hp. intros ([t' g] & -> & Ht'%elem_of_map_to_list)%list_elem_of_fmap.
    apply Hd in Ht' as (r & Hr & Er & _). simpl. rewrite <- Er. by apply (list_elem_of_fmap_2 th_id).
  - exists s', c. split_and!; [done..| | |done|].
    + eapply clean_mono; [|done]. intros t. rewrite elem_of_difference, elem_of_list_to_set, Hp.
      intros [Ht1 Ht2]. destruct Ht2. rewrite list_elem_of_fmap. apply elem_of_union in Ht1 as [?|Ht1]; [set_solver|].
      apply elem_of_dom in Ht1 as [g Hg']. exists (t, g). by rewrite elem_of_map_to_list.
    + destruct Hb as (_ & Em & _ & Ef). unfold fts_ok. by rewrite Em, Ef.
    + intros k n g. rewrite Hch. unfold noted at 1. rewrite lookup_empty. setoid_rewrite Hp.
      setoid_rewrite elem_of_map_to_list. destruct k; set_solver.
Qed.
End recompute.
