(* ===== verification/WriterProperties.v ===== *)
(** * WriterProperties: what a [MailWriter] session guarantees

    A session is any sequence of writer operations between opening the
    transaction and [finish].  The theorems: a session over a consistent
    store that runs to its end always finishes, with nothing for
    [MailStore.check] to report; [finish] reports exactly the mailbox
    memberships the session changed; a label change gives the message
    exactly the labels asked for, and its flags. *)

From S2P Require Import Prelude.
From S2P Require Import Domain.
From S2P Require Import MailStore.
From S2P Require Import StoreInvariant.
From S2P Require Import Finish.

(** ** Sessions *)

Inductive WriterOp :=
| UpsertLabels (ls : list Label)
| RetainLabels (keep : list LabelId)
| UpsertMessage (m : IncomingMessage)
| SetStoredLabels (x : StoredLabels)
| ModifyMessageLabels (id : MessageId) (add remove : list LabelId)
| DeleteMessage (id : MessageId)
| AdoptLocalCopy (local sent : MessageId).

Definition writer_step (w : MailWriter) (op : WriterOp) : StoreResult MailWriter :=
  match op with
  | UpsertLabels ls => Ok (upsert_labels ls w)
  | RetainLabels keep => Ok (retain_labels keep w)
  | UpsertMessage m => upsert_message m w
  | SetStoredLabels x => Ok (with_stored_labels w x)
  | ModifyMessageLabels id add remove => fst <$> modify_message_labels id add remove w
  | DeleteMessage id => Ok (delete_message id w).1
  | AdoptLocalCopy local sent => Ok (adopt_local_copy local sent w)
  end.

Fixpoint run_session (w : MailWriter) (ops : list WriterOp) : StoreResult MailWriter :=
  match ops with
  | [] => Ok w
  | op :: ops => w ← writer_step w op; run_session w ops
  end.

(** Providers never list the virtual Archive label. *)
Definition valid_op (op : WriterOp) : Prop :=
  match op with UpsertLabels ls => Forall provider_label ls | _ => True end.

Lemma writer_step_inv w op w' :
  valid_op op → writer_inv w → writer_step w op = Ok w' → writer_inv w'.
Proof.
  intros Hv Hw. destruct op; simpl.
  - intros [= <-]. by apply upsert_labels_inv.
  - intros [= <-]. by apply retain_labels_inv.
  - by apply upsert_message_inv.
  - intros [= <-]. destruct Hw as [[Hg Hd] Hf]. by split; [constructor|].
  - destruct (modify_message_labels id add remove w) as [[w1 b]|] eqn:E; [|done].
    intros [= <-]. by eapply modify_message_labels_inv.
  - intros [= <-]. destruct Hw as [HP Hf].
    destruct (delete_message_inv _ id w HP) as (H1 & H2 & _). split; [done|by apply H2].
  - intros [= <-]. by apply adopt_local_copy_inv.
Qed.

Lemma run_session_inv w ops w' :
  Forall valid_op ops → writer_inv w → run_session w ops = Ok w' → writer_inv w'.
Proof.
  intros Hv. revert w. induction Hv as [|op ops Hop Hv IH]; intros w Hw; simpl; [by intros [= <-]|].
  intros (w1 & H1 & H2)%bind_Ok. eapply IH; [|done]. by eapply writer_step_inv.
Qed.

(** A store between sessions. *)
Definition consistent (s : Store) : Prop := store_inv s ∧ clean ∅ s ∧ fts_ok s.

Lemma writer_new_inv s : consistent s → writer_inv (writer_new s).
Proof.
  intros (Hs & Hc & Hf). split; [|done]. constructor; [|done]. split; [done|].
  eapply clean_mono; [|done]. set_solver.
Qed.

Lemma consistent_empty : consistent empty_store.
Proof.
  split_and!; [|by intros t ?%not_elem_of_nil|by unfold fts_ok]. constructor; try done.
  - split_and!; [apply NoDup_singleton..| |by left]. by intros r ->%list_elem_of_singleton; split.
  - apply NoDup_nil_2.
  - split; apply NoDup_nil_2.
  - by intros m l ?%not_elem_of_nil.
  - split; [apply NoDup_nil_2|]. by intros r ?%not_elem_of_nil.
Qed.

(** ** The diagnostics find nothing *)

Lemma on_thread_message_spec s t l :
  on_thread_message s t l = true ↔ ∃ m, m ∈ messages_in s t ∧ (ms_id m, l) ∈ message_labels s.
Proof.
  unfold on_thread_message. rewrite existsb_true. unfold messages_in. setoid_rewrite elem_of_List_filter.
  setoid_rewrite andb_true_iff. setoid_rewrite bool_decide_eq_true. naive_solver.
Qed.
Lemma on_thread_message_labelled s t r :
  store_inv s → r ∈ labels s →
  on_thread_message s t (lb_id r) = true ↔ labelled s t (lb_id r) (lb_gmail_id r).
Proof.
  intros Hs Hr. rewrite on_thread_message_spec. unfold labelled.
  assert (label_name (labels s) (lb_id r) = Some (lb_gmail_id r)) as ->; [|naive_solver].
  apply label_name_Some; [apply Hs|]. by exists r.
Qed.
Lemma has_thread_label_spec s l t :
  has_thread_label s l t = true ↔ ∃ at_, (l, at_, t) ∈ thread_labels s.
Proof.
  unfold has_thread_label. rewrite existsb_true. split.
  - intros ([[l' a] t'] & Hin & [-> ->]%bool_decide_eq_true). eauto.
  - intros [a Hin]. exists (l, a, t). by rewrite bool_decide_eq_true_2.
Qed.

Lemma mailbox_of_label s t r :
  store_inv s → r ∈ labels s →
  mailbox s t (lb_id r) ↔ labelled s t (lb_id r) (lb_gmail_id r) ∨
                          (lb_gmail_id r = ARCHIVE_LABEL ∧ archived s t).
Proof.
  intros Hs Hr. unfold mailbox.
  assert (label_name (labels s) (lb_id r) = Some (lb_gmail_id r)) as Hn.
  { apply label_name_Some; [apply Hs|]. by exists r. }
  rewrite Hn. split.
  - intros [[n Hl]|[[= ?] ?]]; [left|by right]. assert (n = lb_gmail_id r) as ->; [|done].
    destruct Hl as (m & _ & _ & Hn'). congruence.
  - intros [?|[-> ?]]; [left; eauto|by right].
Qed.

Lemma labelled_not_archive s t l : store_inv s → ¬ labelled s t l ARCHIVE_LABEL.
Proof.
  intros Hs (m & _ & Hml & Hn). destruct (inv_message_labels _ Hs _ _ Hml) as (n & Hn' & ?). congruence.
Qed.

Lemma has_thread_label_mailbox s t r :
  store_inv s → thread_ok s t → r ∈ labels s →
  has_thread_label s (lb_id r) (th_id t) = true ↔ mailbox s (th_id t) (lb_id r).
Proof.
  intros Hs Hok Hr. rewrite has_thread_label_spec. setoid_rewrite (ok_mailboxes _ _ Hok). naive_solver.
Qed.

(** A per-row query that reports nothing of any row. *)
Lemma bind_nil {A B} (f : A → list B) (l : list A) : (∀ x, x ∈ l → f x = []) → l ≫= f = [].
Proof.
  induction l as [|x l IH]; intros H; [done|]. rewrite bind_cons, (H x), IH by set_solver. done.
Qed.

Section check.
Context (s : Store) (Hs : store_inv s) (Hc : clean ∅ s) (Hf : fts_ok s).

Lemma all_ok t : t ∈ threads s → thread_ok s t.
Proof. intros Ht. apply Hc; [done|apply not_elem_of_empty]. Qed.

Lemma archive_check t :
  t ∈ threads s →
  List.existsb (λ l, bool_decide (lb_gmail_id l = ARCHIVE_LABEL) &&
                     has_thread_label s (lb_id l) (th_id t)) (labels s) =
  (negb (List.existsb (λ l, bool_decide (lb_gmail_id l = INBOX) &&
                            on_thread_message s (th_id t) (lb_id l)) (labels s)) &&
   List.existsb (λ m, negb (in_spam_or_trash s (ms_id m))) (messages_in s (th_id t))).
Proof.
  intros Ht. pose proof (all_ok t Ht) as Hok. apply eq_true_iff_eq.
  assert (wholly_spam_or_trash s (th_id t) =
          negb (List.existsb (λ m, negb (in_spam_or_trash s (ms_id m))) (messages_in s (th_id t)))) as E.
  { unfold wholly_spam_or_trash. fold (messages_in s (th_id t)). induction (messages_in s (th_id t)); [done|].
    simpl. rewrite IHl. by destruct (in_spam_or_trash s (ms_id a)). }
  assert (List.existsb (λ l, bool_decide (lb_gmail_id l = INBOX) &&
                            on_thread_message s (th_id t) (lb_id l)) (labels s) =
          bool_decide (INBOX ∈ (thread_message_labels s (th_id t)).*2)) as ->.
  { apply eq_true_iff_eq. rewrite existsb_true, bool_decide_eq_true, list_elem_of_fmap. split.
    - intros (r & Hr & [Er%bool_decide_eq_true Hon]%andb_true_iff).
      apply on_thread_message_labelled in Hon; [|done..]. exists (lb_id r, INBOX).
      split; [done|]. apply thread_message_labels_spec; [done|]. by rewrite <- Er.
    - intros ([l n] & En & Hl). simpl in En. subst n. apply thread_message_labels_spec in Hl; [|done].
      pose proof Hl as (m & _ & _ & Hn). apply label_name_Some in Hn as (r & Hr & <- & Er); [|apply Hs].
      exists r. split; [done|]. rewrite bool_decide_eq_true_2, <- Er in * by done. simpl.
      by apply on_thread_message_labelled. }
  replace (List.existsb (λ m, negb (in_spam_or_trash s (ms_id m))) (messages_in s (th_id t)))
    with (negb (wholly_spam_or_trash s (th_id t))) by (rewrite E; apply negb_involutive).
  rewrite archived_spec by done. rewrite existsb_true. setoid_rewrite andb_true_iff.
  setoid_rewrite bool_decide_eq_true. split.
  - intros (r & Hr & Er & Hon). apply has_thread_label_mailbox in Hon; [|done..].
    apply mailbox_of_label in Hon as [Hl|[_ ?]]; [|done..]. rewrite Er in Hl.
    by apply labelled_not_archive in Hl.
  - intros Ha. destruct (inv_labels _ Hs) as (_ & _ & _ & Harch).
    apply list_elem_of_fmap in Harch as (r & Er & Hr). exists r. split_and!; [done..|].
    apply has_thread_label_mailbox; [done..|]. apply mailbox_of_label; [done..|]. by right.
Qed.

Lemma check_thread_nil t : t ∈ threads s → check_thread s t = [].
Proof.
  intros Ht. pose proof (all_ok t Ht) as Hok. unfold check_thread.
  rewrite (archive_check t Ht), eqb_reflx, app_nil_r.
  destruct (messages_in s (th_id t)) as [|m ms] eqn:Em; [by destruct (ok_messages _ _ Hok)|].
  pose proof (ok_unread _ _ Hok) as Hu. pose proof (ok_starred _ _ Hok) as Hst. rewrite Em in Hu, Hst.
  rewrite !bool_decide_eq_true_2 by done. simpl.
  rewrite !bind_nil; [done| | |].
  - intros [[l a] t'] Hin. case_bool_decide as E; [|done]. subst t'.
    apply (ok_mailboxes _ _ Hok) in Hin as [-> _]. by rewrite bool_decide_eq_true_2.
  - intros r Hr. destruct (has_thread_label _ _ _) eqn:E; [|done].
    apply has_thread_label_mailbox in E; [|done..].
    destruct (proj1 (mailbox_of_label s _ r Hs Hr) E) as [E'|[-> _]].
    + apply on_thread_message_labelled in E'; [|done..]. by rewrite E', andb_false_r.
    + by rewrite bool_decide_eq_true_2.
  - intros r Hr. destruct (on_thread_message _ _ _) eqn:E; [|done].
    apply on_thread_message_labelled in E; [|done..].
    rewrite (proj2 (has_thread_label_mailbox s t r Hs Hok Hr)); [done|]. left. eauto.
Qed.

Lemma threads_labelled_tally l :
  tally (threads_labelled s l) = label_tally (threads s) (thread_labels s) l.
Proof.
  unfold tally, label_tally, threads_labelled. destruct (inv_thread_labels _ Hs) as [_ Hfk].
  pose proof (inv_threads _ Hs) as Hn. induction (thread_labels s) as [|[[l' a] t] tl IH]; [done|].
  assert (∀ r, r ∈ tl → row_label r ∈ lb_id <$> labels s ∧ row_thread r ∈ th_id <$> threads s) as Hfk'.
  { set_solver. }
  specialize (IH Hfk'). injection IH as IH1 IH2. rewrite bind_cons, length_app, count_app, !count_cons.
  open_row. case_bool_decide as E; simpl; [|f_equal; lia].
  destruct (Hfk (l', a, t)) as [_ Ht]; [by left|]. apply list_elem_of_fmap in Ht as (r & Er & Hr).
  change (row_thread (l', a, t)) with t in Er.
  assert (List.filter (λ x, bool_decide (th_id x = t)) (threads s) = [r]) as ->.
  { rewrite Er. by apply List_filter_key. }
  assert (row_unread (threads s) t = thread_unread r) as ->.
  { unfold row_unread. by rewrite (proj2 (find_by_Some th_id t (threads s) r Hn)). }
  rewrite count_cons, count_nil. simpl. destruct (thread_unread r); f_equal; lia.
Qed.

Lemma check_label_nil l : check_label s l = [].
Proof.
  unfold check_label. rewrite threads_labelled_tally. by rewrite bool_decide_eq_true_2 by apply Hs.
Qed.

Lemma threads_labelled_perm l :
  threads_labelled s l ≡ₚ List.filter (λ t, has_thread_label s l (th_id t)) (threads s).
Proof.
  destruct (inv_thread_labels _ Hs) as [Hn Hfk]. pose proof (inv_threads _ Hs) as Hnt.
  assert (NoDup (threads s)) as Hnd by by eapply NoDup_fmap_1.
  apply NoDup_Permutation.
  - apply NoDup_bind; [| |by eapply NoDup_fmap_1].
    + intros [[l1 a1] t1] [[l2 a2] t2] y H1 H2. repeat case_bool_decide; try set_solver. subst.
      intros [Ey1%bool_decide_eq_true _]%elem_of_List_filter [Ey2%bool_decide_eq_true _]%elem_of_List_filter.
      apply (NoDup_fmap_inj _ _ _ _ Hn H1 H2). open_row. congruence.
    + intros [[l1 a1] t1] _. case_bool_decide; [|apply NoDup_nil_2].
      eapply sublist_NoDup; [exact Hnd|apply sublist_List_filter].
  - by apply (sublist_NoDup _ (threads s)), sublist_List_filter.
  - intros x. unfold threads_labelled. rewrite list_elem_of_bind, elem_of_List_filter, has_thread_label_spec.
    split.
    + intros ([[l' a] t] & Hx & Hin). case_bool_decide; [|by apply not_elem_of_nil in Hx]. subst l'.
      apply elem_of_List_filter in Hx as [Ex%bool_decide_eq_true Hx]. subst t. eauto.
    + intros [[a Hin] Hx]. exists (l, a, th_id x). split; [|done]. rewrite bool_decide_eq_true_2 by done.
      apply elem_of_List_filter. by rewrite bool_decide_eq_true_2.
Qed.

(** A thread is in the mailbox named [n] (never Archive) iff [n] is among
    its label ids. *)
Lemma mailbox_label_ids t n :
  t ∈ threads s → n ≠ ARCHIVE_LABEL →
  List.existsb (λ l, bool_decide (lb_gmail_id l = n) && has_thread_label s (lb_id l) (th_id t)) (labels s) =
  bool_decide (n ∈ th_label_ids t).
Proof.
  intros Ht Hn. pose proof (all_ok t Ht) as Hok. apply eq_true_iff_eq.
  rewrite existsb_true, bool_decide_eq_true, (ok_label_ids _ _ Hok). setoid_rewrite andb_true_iff.
  setoid_rewrite bool_decide_eq_true. split.
  - intros (r & Hr & <- & Hm). apply has_thread_label_mailbox in Hm; [|done..].
    destruct (proj1 (mailbox_of_label s _ r Hs Hr) Hm) as [Hl|[? _]]; [eauto|done].
  - intros [l Hl]. pose proof Hl as (m & _ & _ & Hln).
    apply label_name_Some in Hln as (r & Hr & <- & Er); [|apply Hs]. exists r. split_and!; [done..|].
    apply has_thread_label_mailbox; [done..|]. left. eauto.
Qed.

Lemma counted_category_spec t :
  t ∈ threads s →
  counted_category s t = default PRIMARY (List.find (λ c, bool_decide (c ∈ th_label_ids t)) CATEGORIES).
Proof. intros Ht. unfold counted_category, CATEGORIES. simpl. by rewrite !mailbox_label_ids. Qed.

Lemma inbox_rows inbox t :
  find_label s INBOX = Some inbox → t ∈ threads s →
  has_thread_label s (lb_id inbox) (th_id t) = bool_decide (INBOX ∈ th_label_ids t).
Proof.
  intros Hi Ht. rewrite <- mailbox_label_ids by done. apply find_by_Some_2 in Hi as [Hi Ei].
  apply eq_true_iff_eq. rewrite existsb_true. split.
  - intros H. exists inbox. by rewrite bool_decide_eq_true_2.
  - intros (r & Hr & [Er%bool_decide_eq_true H]%andb_true_iff).
    by rewrite (NoDup_fmap_inj lb_gmail_id (labels s) inbox r) by (apply Hs || congruence).
Qed.

Lemma in_category_spec c t :
  t ∈ threads s →
  in_category c t = bool_decide (INBOX ∈ th_label_ids t) && bool_decide (counted_category s t = c).
Proof.
  intros Ht. rewrite counted_category_spec by done. unfold in_category, inbox_category.
  destruct (decide (INBOX ∈ th_label_ids t)) as [E|E].
  - rewrite !(bool_decide_eq_true_2 (INBOX ∈ _)) by done. apply bool_decide_ext. naive_solver.
  - by rewrite !(bool_decide_eq_false_2 (INBOX ∈ _)).
Qed.

Lemma counted_in_category_tally c : counted_in_category s c = category_tally (threads s) c.
Proof.
  unfold counted_in_category, tally, category_tally. destruct (find_label s INBOX) as [inbox|] eqn:Hi.
  - assert (∀ p, count p (List.filter (λ t, bool_decide (counted_category s t = c)) (threads_labelled s (lb_id inbox)))
                 = count (λ t, in_category c t && p t) (threads s)) as Hcount.
    { intros p. rewrite count_filter, (count_Permutation _ _ _ (threads_labelled_perm _)), count_filter.
      apply count_ext. intros t Ht. rewrite (inbox_rows inbox) by done. rewrite in_category_spec by done.
      by rewrite andb_assoc. }
    f_equal; f_equal; [|apply Hcount].
    rewrite <- (List_filter_all (λ _, true) (List.filter _ _)), <- count_List_filter, Hcount by done.
    apply count_ext. intros t _. apply andb_true_r.
  - rewrite !count_zero; [done|..]; intros t Ht; rewrite in_category_spec by done;
      assert (INBOX ∉ th_label_ids t) as Hnin;
      try (by rewrite bool_decide_eq_false_2);
      intros [l (m & _ & _ & Hn)]%(ok_label_ids _ _ (all_ok t Ht));
      apply label_name_Some in Hn as (r & Hr & _ & Er); try apply Hs;
      apply find_by_None in Hi; destruct Hi; rewrite <- Er; by apply list_elem_of_fmap_2.
Qed.

Lemma category_known t c : inbox_category (th_label_ids t) = Some c → c ∈ PRIMARY :: CATEGORIES.
Proof.
  unfold inbox_category. case_bool_decide; [|done]. intros <-%(inj Some).
  destruct (List.find (λ c, bool_decide (c ∈ th_label_ids t)) CATEGORIES) as [c|] eqn:E; [|by left].
  right. apply List.find_some in E as [E _]. by apply list_elem_of_In.
Qed.

Lemma check_categories_nil : check_categories s = [].
Proof.
  unfold check_categories. rewrite bind_nil, bind_nil; [done|..].
  - intros [c [n u]] Hin%elem_of_map_to_list. destruct (decide (c ∈ PRIMARY :: CATEGORIES)) as [Hc'|Hc'].
    { by rewrite (bool_decide_eq_true_2 (c ∈ _)), andb_false_r. }
    pose proof (inv_category_stats _ Hs c) as Hcat. rewrite Hin in Hcat. simpl in Hcat.
    unfold category_tally in Hcat. rewrite !count_zero in Hcat.
    + injection Hcat as -> ->. done.
    + intros t Ht. unfold in_category. by rewrite bool_decide_eq_false_2 by (intros ?%category_known; done).
    + intros t Ht. unfold in_category. by rewrite bool_decide_eq_false_2 by (intros ?%category_known; done).
  - intros c _. rewrite counted_in_category_tally, (inv_category_stats _ Hs c).
    by rewrite bool_decide_eq_true_2.
Qed.

Lemma check_nil : check s = [].
Proof.
  unfold check. rewrite bind_nil, bind_nil.
  - rewrite check_categories_nil. simpl. unfold check_fts. pose proof (Permutation_length Hf) as Hl.
    rewrite !length_fmap in Hl. rewrite Hl, Nat.eqb_refl. done.
  - intros l _. apply check_label_nil.
  - apply check_thread_nil.
Qed.
End check.

(** ** Labels of a message *)

Lemma elem_of_message_label_ids s m n :
  store_inv s →
  n ∈ message_label_ids s m ↔ ∃ l, (m, l) ∈ message_labels s ∧ label_name (labels s) l = Some n.
Proof.
  intros Hs. unfold message_label_ids, labels_of_message. rewrite list_elem_of_fmap.
  setoid_rewrite elem_of_List_filter. setoid_rewrite bool_decide_eq_true.
  setoid_rewrite label_name_Some; [|apply Hs]. split.
  - intros (r & -> & Hml & Hr). exists (lb_id r). split; [done|by exists r].
  - intros (l & Hml & r & Hr & <- & <-). exists r. eauto.
Qed.

(** Inserting a label row leaves names alone. *)
Lemma label_rowid_names s id s' r l n :
  label_rowid s id = (s', r) → label_name (labels s) l = Some n → label_name (labels s') l = Some n.
Proof.
  unfold label_rowid. destruct (find_label s id); intros [= <- <-]; [done|]. simpl. intros Hn.
  unfold label_name in *. rewrite find_by_app. by destruct (find_by lb_id l (labels s)).
Qed.

Lemma insert_message_label_ids D s rowid id s' :
  good D s → (∀ m, m ∈ messages s → ms_id m = rowid → ms_thread m ∈ D) →
  insert_message_label rowid s id = Ok s' →
  ∀ m n, n ∈ message_label_ids s' m ↔ n ∈ message_label_ids s m ∨ (m = rowid ∧ n = id).
Proof.
  intros Hg HD H. pose proof (insert_message_label_good _ _ _ _ _ Hg HD H) as [[Hs' _] _].
  pose proof Hg as [Hs _]. revert H. unfold insert_message_label. case_bool_decide as Ha; [done|].
  destruct (label_rowid s id) as [s1 r] eqn:Er. pose proof (label_rowid_names s id s1 r) as Hnames.
  destruct (label_rowid_good _ _ _ _ _ Hg Ha Er) as ([Hs1 _] & Hn & _ & _ & Eml & _).
  case_match; [done|]. intros [= <-] m n. rewrite !elem_of_message_label_ids by done.
  assert (∀ l, (m, l) ∈ message_labels s → label_name (labels s1) l = label_name (labels s) l) as Hsame.
  { intros l Hl. destruct (inv_message_labels _ Hs _ _ Hl) as (n' & Hn' & _).
    rewrite Hn'. by apply Hnames. }
  case_bool_decide as Hin; simpl.
  - rewrite Eml. split.
    + intros (l & Hl & Hln). left. exists l. by rewrite <- Hsame.
    + intros [(l & Hl & Hln)|[-> ->]]; [exists l; by rewrite Hsame|exists r; by rewrite <- Eml].
  - rewrite Eml. setoid_rewrite elem_of_app. setoid_rewrite list_elem_of_singleton. split.
    + intros (l & [Hl|[= -> ->]] & Hln); [left; exists l; by rewrite <- Hsame|right; split; congruence].
    + intros [(l & Hl & Hln)|[-> ->]]; [exists l; rewrite Hsame by done; eauto|exists r; eauto].
Qed.

Lemma insert_message_labels_ids D rowid ls s s' :
  good D s → (∀ m, m ∈ messages s → ms_id m = rowid → ms_thread m ∈ D) →
  insert_message_labels rowid s ls = Ok s' →
  ∀ m n, n ∈ message_label_ids s' m ↔ n ∈ message_label_ids s m ∨ (m = rowid ∧ n ∈ ls).
Proof.
  revert s. induction ls as [|id ls IH]; intros s Hg HD; simpl.
  { intros [= <-]. set_solver. }
  intros (s1 & H1 & H2)%bind_Ok m n.
  destruct (insert_message_label_good _ _ _ _ _ Hg HD H1) as (Hg1 & Et & Em & Ef).
  rewrite (IH s1); [|done|by rewrite Em|done].
  rewrite (insert_message_label_ids _ _ _ _ _ Hg HD H1), elem_of_cons. tauto.
Qed.

(** [replace_message_labels] gives the message exactly the labels listed. *)
Lemma replace_message_labels_ids D rowid ls s s' :
  good D s → (∀ m, m ∈ messages s → ms_id m = rowid → ms_thread m ∈ D) →
  replace_message_labels s rowid ls = Ok s' →
  ∀ m n, n ∈ message_label_ids s' m ↔ (m ≠ rowid ∧ n ∈ message_label_ids s m) ∨ (m = rowid ∧ n ∈ ls).
Proof.
  intros Hg HD H m n. unfold replace_message_labels in H.
  set (s0 := with_message_labels _ s) in H.
  assert (good D s0) as Hg0.
  { apply good_message_labels; [done| |].
    - intros m' l [_ Hin]%elem_of_List_filter. by eapply inv_message_labels; [apply Hg|].
    - intros m' l Hm HmD. rewrite elem_of_List_filter. split; [naive_solver|].
      intros Hin. split; [|done]. case_bool_decide as E; [|done]. destruct HmD. by apply HD. }
  rewrite (insert_message_labels_ids D rowid ls s0 s' Hg0) by done.
  rewrite !elem_of_message_label_ids by (apply Hg0 || apply Hg). simpl.
  setoid_rewrite elem_of_List_filter. f_equiv. split.
  - intros (l & [Hne Hl] & Hn). split; [|eauto]. intros ->. by rewrite bool_decide_eq_true_2 in Hne.
  - intros (Hne & l & Hl & Hn). exists l. by rewrite bool_decide_eq_false_2.
Qed.

(** It fails only for the virtual label, on a stored message. *)
Lemma replace_message_labels_Ok s rowid ls :
  message_exists s rowid = true → ARCHIVE_LABEL ∉ ls → ∃ s', replace_message_labels s rowid ls = Ok s'.
Proof.
  unfold replace_message_labels. set (s0 := with_message_labels _ s).
  change (message_exists s rowid) with (message_exists s0 rowid). clearbody s0. clear s.
  revert s0. induction ls as [|l ls IH]; intros s Hm Ha; simpl; [eauto|].
  apply not_elem_of_cons in Ha as [Ha Hls]. unfold insert_message_label.
  rewrite bool_decide_eq_false_2 by done. destruct (label_rowid s l) as [s1 r] eqn:Er.
  assert (message_exists s1 rowid = true) as Hm1.
  { revert Er. unfold label_rowid. destruct (find_label s l); intros [= <- _]; done. }
  rewrite Hm1. simpl. apply IH; [|done]. by case_bool_decide.
Qed.

Lemma replace_message_labels_archive s rowid ls :
  message_exists s rowid = true → ARCHIVE_LABEL ∈ ls →
  replace_message_labels s rowid ls = Err (Invalid "@archive is virtual and cannot be applied").
Proof.
  unfold replace_message_labels. set (s0 := with_message_labels _ s).
  change (message_exists s rowid) with (message_exists s0 rowid). clearbody s0. clear s.
  revert s0. induction ls as [|l ls IH]; intros s Hm Ha; simpl; [by apply not_elem_of_nil in Ha|].
  unfold insert_message_label. case_bool_decide as E; [done|].
  destruct (label_rowid s l) as [s1 r] eqn:Er.
  assert (message_exists s1 rowid = true) as Hm1.
  { revert Er. unfold label_rowid. destruct (find_label s l); intros [= <- _]; done. }
  rewrite Hm1. simpl. apply IH; [by case_bool_decide|]. apply elem_of_cons in Ha as [Ha|]; [congruence|done].
Qed.

Lemma message_exists_find D s id r :
  good D s → find_message s id = Some r → message_exists s (ms_id r) = true ∧ r ∈ messages s ∧ ms_gmail_id r = id.
Proof.
  intros Hg Hf. apply find_by_Some_2 in Hf as [Hr E]. split_and!; [|done..].
  apply existsb_true. exists r. by rewrite bool_decide_eq_true_2.
Qed.

(** A change of one row, found by its rowid. *)
Lemma find_message_update D s r f id' :
  good D s → r ∈ messages s → (∀ m, ms_gmail_id (f m) = ms_gmail_id m) →
  find_message (update_messages (λ m, bool_decide (ms_id m = ms_id r)) f s) id' =
    if bool_decide (id' = ms_gmail_id r) then Some (f r) else find_message s id'.
Proof.
  intros Hg Hr Hf. unfold find_message. simpl. rewrite find_by_fmap by (intros; by case_bool_decide).
  destruct (inv_messages _ (proj1 Hg)) as [Hid Hgm]. case_bool_decide as E.
  - subst id'. rewrite (proj2 (find_by_Some ms_gmail_id _ _ r Hgm)) by done. simpl.
    by rewrite bool_decide_eq_true_2.
  - destruct (find_by ms_gmail_id id' (messages s)) as [m|] eqn:Em; [|done]. simpl.
    apply find_by_Some_2 in Em as [Hm Em]. rewrite bool_decide_eq_false_2; [done|].
    intros Eid. rewrite (same_rowid _ _ _ _ Hg Hr Hm Eid) in Em. done.
Qed.

Lemma elem_of_modified_labels stored add remove n :
  n ∈ modified_labels stored add remove ↔ n ∈ add ∨ (n ∈ stored ∧ n ∉ remove).
Proof.
  unfold modified_labels. rewrite elem_of_merge_sort, elem_of_elements. set_solver.
Qed.

Lemma flags_of_ext ls ls' : (∀ n, n ∈ ls ↔ n ∈ ls') → flags_of ls = flags_of ls'.
Proof.
  intros H. unfold flags_of, has_label. f_equal; [f_equal|..]; apply bool_decide_ext, H.
Qed.

(** The branches of [modify_message_labels]. *)
Definition modify_result (w : MailWriter) (id : MessageId) (add remove : list LabelId) : Prop :=
  match find_message (tx w) id with
  | None => modify_message_labels id add remove w = Ok (w, false)
  | Some r =>
      if bool_decide (ARCHIVE_LABEL ∈ add)
      then modify_message_labels id add remove w =
             Err (Invalid "@archive is virtual and cannot be applied")
      else ∃ w', modify_message_labels id add remove w = Ok (w', true) ∧
        (∀ n, n ∈ message_label_ids (tx w') (ms_id r) ↔
              n ∈ add ∨ (n ∈ message_label_ids (tx w) (ms_id r) ∧ n ∉ remove)) ∧
        find_message (tx w') id =
          Some (set_flags (flags_of (message_label_ids (tx w') (ms_id r))) r) ∧
        (∀ id', id' ≠ id → find_message (tx w') id' = find_message (tx w) id') ∧
        (∀ m n, m ≠ ms_id r → n ∈ message_label_ids (tx w') m ↔ n ∈ message_label_ids (tx w) m) ∧
        (ms_thread r ∈ th_id <$> threads (tx w) → is_Some (dirty w' !! ms_thread r))
  end.
Lemma modify_message_labels_result w id add remove :
  writer_inv w → modify_result w id add remove.
Proof.
  intros [HP _].
  pose proof (wg_good _ _ HP) as Hg. unfold modify_result, modify_message_labels, message_rowid.
  destruct (find_message (tx w) id) as [r|] eqn:Er; [|done]. simpl.
  destruct (message_exists_find _ _ _ _ Hg Er) as (Hex & Hr & Eid).
  set (ls := modified_labels _ add remove). case_bool_decide as Ha.
  { by rewrite replace_message_labels_archive by (done || apply elem_of_modified_labels; by left). }
  destruct (replace_message_labels_Ok (tx w) (ms_id r) ls Hex) as [s1 E1].
  { unfold ls. rewrite elem_of_modified_labels. intros [?|[Hst _]]; [done|].
    apply elem_of_message_label_ids in Hst as (l & Hl & Hn); [|apply Hg].
    destruct (inv_message_labels _ (proj1 Hg) _ _ Hl) as (n & Hn' & ?). congruence. }
  rewrite E1. simpl. eexists. split; [done|]. rewrite mark_thread_rowid_tx. simpl.
  assert (good ({[ms_thread r]} ∪ (∅ ∪ dom (dirty w))) (tx w)) as Hg2.
  { eapply good_mono; [|done]. set_solver. }
  assert (∀ m, m ∈ messages (tx w) → ms_id m = ms_id r → ms_thread m ∈ ({[ms_thread r]} ∪ (∅ ∪ dom (dirty w)) : gset Z)) as HD.
  { intros m Hm Em. rewrite (same_rowid _ _ _ _ Hg Hr Hm Em). set_solver. }
  pose proof (replace_message_labels_ids _ _ _ _ _ Hg2 HD E1) as Hids.
  destruct (replace_message_labels_good _ _ _ _ _ Hg2 HD E1) as (Hg1 & Et1 & Em1 & _).
  change (message_label_ids (update_messages _ _ s1)) with (message_label_ids s1).
  assert (flags_of (message_label_ids s1 (ms_id r)) = flags_of ls) as ->.
  { apply flags_of_ext. intros n. rewrite Hids. naive_solver. }
  split_and!.
  - intros n. rewrite Hids. unfold ls. rewrite elem_of_modified_labels. naive_solver.
  - rewrite (find_message_update _ s1 r _ id Hg1) by (done || by rewrite Em1).
    by rewrite bool_decide_eq_true_2.
  - intros id' Hne. rewrite (find_message_update _ s1 r _ id' Hg1) by (done || by rewrite Em1).
    rewrite bool_decide_eq_false_2 by congruence. unfold find_message. by rewrite Em1.
  - intros m n Hne. rewrite Hids. naive_solver.
  - intros Hth. apply elem_of_dom, mark_thread_rowid_dirty. simpl. by rewrite Et1.
Qed.

(** ** Properties *)

Section properties.
Context (to_lowercase : string → string).

(** The stores any number of sessions can leave. *)
Inductive reachable : Store → Prop :=
| reachable_empty : reachable empty_store
| reachable_session s ops w s' c :
    reachable s → Forall valid_op ops → run_session (writer_new s) ops = Ok w →
    finish to_lowercase w = Ok (s', c) → reachable s'.

Lemma reachable_consistent s : reachable s → consistent s.
Proof.
  induction 1 as [|s ops w s' c _ IH Hv Hrun Hfin]; [apply consistent_empty|].
  pose proof (run_session_inv _ _ _ Hv (writer_new_inv _ IH) Hrun) as Hw.
  destruct (finish_spec to_lowercase w Hw) as (s2 & c2 & E & Hs & Hc & Hf & _).
  rewrite Hfin in E. injection E as <- <-. done.
Qed.

(** C1. The diagnostics find nothing to report in any store that sessions
    of the writer leave, however they interleave label lists, arriving,
    moved, modified, deleted and adopted messages: unread counts, stars,
    thread labels, sort keys, Archive membership, per-label and
    per-category counters and the full-text index all agree with the
    messages. *)
Theorem reachable_check s : reachable s → check s = [].
Proof.
  intros Hr. destruct (reachable_consistent s Hr) as (Hs & Hc & Hf). by apply check_nil.
Qed.

(** C2. A session that ran without an error always finishes, and [finish]
    reports exactly the mailbox memberships it changed: a thread is
    inserted into, updated in or removed from a mailbox iff the session
    touched it and it is new there, still there or no longer there. *)
Theorem session_finishes s ops w :
  reachable s → Forall valid_op ops → run_session (writer_new s) ops = Ok w →
  ∃ s' c, finish to_lowercase w = Ok (s', c) ∧
    ∀ k n g, g ∈ noted k c n ↔
      ∃ t, dirty w !! t = Some g ∧ transition k (thread_mailboxes (tx w) t) (thread_mailboxes s' t) n.
Proof.
  intros Hr Hv Hrun.
  pose proof (run_session_inv _ _ _ Hv (writer_new_inv _ (reachable_consistent s Hr)) Hrun) as Hw.
  destruct (finish_spec to_lowercase w Hw) as (s' & c & E & _ & _ & _ & _ & Hch). eauto.
Qed.

(** A label change during a session: an unknown message is reported;
    adding the virtual Archive label is refused; otherwise the message's
    labels become [(stored - remove) + add], its flags follow from them,
    no other message changes and its thread is marked for [finish]. *)
Theorem modify_message_labels_spec s ops w id add remove :
  reachable s → Forall valid_op ops → run_session (writer_new s) ops = Ok w →
  match find_message (tx w) id with
  | None => modify_message_labels id add remove w = Ok (w, false)
  | Some r =>
      if bool_decide (ARCHIVE_LABEL ∈ add)
      then modify_message_labels id add remove w =
             Err (Invalid "@archive is virtual and cannot be applied")
      else ∃ w', modify_message_labels id add remove w = Ok (w', true) ∧
        (∀ n, n ∈ message_label_ids (tx w') (ms_id r) ↔
              n ∈ add ∨ (n ∈ message_label_ids (tx w) (ms_id r) ∧ n ∉ remove)) ∧
        find_message (tx w') id =
          Some (set_flags (flags_of (message_label_ids (tx w') (ms_id r))) r) ∧
        (∀ id', id' ≠ id → find_message (tx w') id' = find_message (tx w) id') ∧
        (∀ m n, m ≠ ms_id r → n ∈ message_label_ids (tx w') m ↔ n ∈ message_label_ids (tx w) m) ∧
        (ms_thread r ∈ th_id <$> threads (tx w) → is_Some (dirty w' !! ms_thread r))
  end.
Proof.
  intros Hre Hv Hrun. apply (modify_message_labels_result w id add remove).
  by eapply run_session_inv, Hrun; [|apply writer_new_inv, reachable_consistent].
Qed.
End properties.

(** ** A concrete session *)

Definition demo_message (id thread : string) (ls : list LabelId) (at_ : Millis) : IncomingMessage :=
  mkIncoming id thread None None [] (Some (mkAddress (Some "Ann") "ann@example.com"))
    [mkAddress None "bob@example.com"] [] [] [] "Hello" at_ at_ "Hi" ls 10 None []
    (mkListHeaders None None None None) None.
Definition demo_session : list WriterOp :=
  [UpsertLabels [mkLabel "INBOX" "Inbox" SystemLabel None true; mkLabel "Label_1" "Work" UserLabel None true];
   UpsertMessage (demo_message "m1" "t1" ["INBOX"; "UNREAD"] 1);
   UpsertMessage (demo_message "m2" "t1" ["INBOX"; "CATEGORY_UPDATES"] 2);
   UpsertMessage (demo_message "m3" "t2" ["TRASH"] 3);
   DeleteMessage "m3";
   ModifyMessageLabels "m1" ["Label_1"] ["INBOX"];
   RetainLabels ["INBOX"; "UNREAD"; "CATEGORY_UPDATES"; "Label_1"]].
Definition demo_writer : MailWriter :=
  default (writer_new empty_store) (ok (run_session (writer_new empty_store) demo_session)).
Definition demo_finished : Store * ThreadChanges :=
  default (empty_store, ∅) (ok (finish ascii_lower demo_writer)).
Definition demo_store : Store := demo_finished.1.

Lemma demo_runs : run_session (writer_new empty_store) demo_session = Ok demo_writer.
Proof.
  unfold demo_writer. apply is_ok_default. vm_compute. reflexivity.
Qed.
Lemma demo_finishes : finish ascii_lower demo_writer = Ok demo_finished.
Proof.
  unfold demo_finished. apply is_ok_default. vm_compute. reflexivity.
Qed.
Lemma demo_valid : Forall valid_op demo_session.
Proof. repeat constructor; simpl; done. Qed.

Lemma reachable_check_witness :
  length (messages demo_store) = 2 ∧ check demo_store = [].
Proof.
  split; [vm_compute; reflexivity|]. apply (reachable_check ascii_lower).
  apply (reachable_session _ empty_store demo_session demo_writer demo_store demo_finished.2).
  - apply reachable_empty.
  - exact demo_valid.
  - exact demo_runs.
  - rewrite demo_finishes. unfold demo_store. by destruct demo_finished.
Defined.

Lemma session_finishes_witness :
  dirty demo_writer !! 1%Z = Some "t1" ∧
  ∃ s' c, finish ascii_lower demo_writer = Ok (s', c) ∧
    ∀ k n g, g ∈ noted k c n ↔
      ∃ t, dirty demo_writer !! t = Some g ∧
           transition k (thread_mailboxes (tx demo_writer) t) (thread_mailboxes s' t) n.
Proof.
  split; [vm_compute; reflexivity|].
  apply (session_finishes ascii_lower empty_store demo_session demo_writer).
  - apply reachable_empty.
  - exact demo_valid.
  - exact demo_runs.
Defined.

Lemma modify_message_labels_spec_witness :
  is_Some (find_message (tx demo_writer) "m1") ∧
  ∀ r, find_message (tx demo_writer) "m1" = Some r →
  ∃ w', modify_message_labels "m1" ["STARRED"] ["UNREAD"] demo_writer = Ok (w', true) ∧
    (∀ n, n ∈ message_label_ids (tx w') (ms_id r) ↔
          n ∈ ["STARRED"] ∨ (n ∈ message_label_ids (tx demo_writer) (ms_id r) ∧ n ∉ ["UNREAD"])).
Proof.
  split; [vm_compute; eauto|]. intros r Hr.
  pose proof (modify_message_labels_spec ascii_lower empty_store demo_session demo_writer "m1" ["STARRED"] ["UNREAD"]
    (reachable_empty _) demo_valid demo_runs) as H.
  rewrite Hr in H. destruct H as (w' & H1 & H2 & _). exists w'. exact (conj H1 H2).
Defined.
