(* ===== verification/Read.v ===== *)
(** * Read: the mail queries ([crates/mail-store/src/read.rs])

    Each query is a function of the store of [MailStore]; a joined row that
    is missing is a row left out.  Error texts leave out the quoted input,
    and an attachment is shown without its row id. *)

From Stdlib Require Import Ascii.
From S2P Require Import Prelude.
From S2P Require Import Domain.
From S2P Require Import Text.
From S2P Require Import MailStore.

Definition MAX_PAGE_SIZE : Z := 500.
Definition MAX_NARROWINGS : nat := 7.
Definition FILTER_UNREAD : string := "@unread".
Definition FILTER_STARRED : string := "@starred".
Definition FILTER_ATTACHMENTS : string := "@attachments".

(** ** Answers *)

Record ThreadSummary := mkSummary {
  ts_id : ThreadId; ts_subject : string; ts_snippet : string; ts_last_message_at : Millis;
  ts_message_count : Z; ts_unread_count : Z; ts_has_attachments : bool; ts_is_starred : bool;
  ts_participants : list EmailAddress; ts_label_ids : list LabelId; ts_replied : bool }.
#[export] Instance thread_summary_eq_dec : EqDecision ThreadSummary.
Proof. solve_decision. Defined.

Record ThreadPage := mkPage { rows : list ThreadSummary; next_cursor : option string }.

Record Message := mkMessage {
  g_id : MessageId; g_thread : ThreadId; g_rfc822 : option string; g_in_reply_to : option string;
  g_references : list string; g_from : option EmailAddress; g_to : list EmailAddress;
  g_cc : list EmailAddress; g_bcc : list EmailAddress; g_reply_to : list EmailAddress;
  g_subject : string; g_date : Millis; g_internal_date : Millis; g_snippet : string;
  g_flags : Flags; g_label_ids : list LabelId; g_body_state : BodyState; g_size : Z;
  g_attachments : list IncomingAttachment }.

Inductive MailboxKind :=
| InboxBox | StarredBox | ImportantBox | SentBox | DraftsBox | ArchiveBox | SpamBox | TrashBox | LabelBox.
#[export] Instance mailbox_kind_eq_dec : EqDecision MailboxKind.
Proof. solve_decision. Defined.
Record Mailbox := mkMailbox {
  mb_kind : MailboxKind; mb_label : option LabelId; mb_name : string; mb_unread : Z; mb_total : Z }.

Record CategoryCount := mkCategoryCount { cc_id : string; cc_total : Z; cc_unread : Z }.
#[export] Instance category_count_eq_dec : EqDecision CategoryCount.
Proof. solve_decision. Defined.

(** ** Cursors *)

Abbreviation Key := (Z * Z)%type (only parsing).
Definition I64_MAX : Z := (2 ^ 63 - 1)%Z.
Definition encode_cursor (k : Key) : string := pretty k.1 +:+ String ":" (pretty k.2).
Definition BAD_CURSOR : StoreError := Invalid "bad cursor".
Definition decode_cursor (c : string) : StoreResult Key :=
  '(a, b) ← ok_or BAD_CURSOR (split_once ":" c);
  at_ ← ok_or BAD_CURSOR (parse_i64 a);
  id ← ok_or BAD_CURSOR (parse_i64 b);
  Ok (at_, id).

(** SQLite's row comparison [(a, b) < (c, d)], and newest first. *)
Definition key_lt (a b : Key) : bool := (a.1 <? b.1)%Z || ((a.1 =? b.1)%Z && (a.2 <? b.2)%Z).
Definition newest {A} (a b : Key * A) : Prop := key_lt a.1 b.1 = false.
#[export] Instance newest_dec {A} (a b : Key * A) : Decision (newest a b).
Proof. unfold newest. apply _. Defined.

(** ** Summaries *)

(** [REPLIED]: a message the user sent after the thread's first. *)
Definition replied (s : Store) (thread : Z) : bool :=
  match messages_in s thread with
  | [] => false
  | m :: ms =>
      let first := foldr Z.min (ms_internal_date m) (ms_internal_date <$> ms) in
      List.existsb (λ r, is_sent_by_me (ms_flags r) && (first <? ms_internal_date r)%Z) (m :: ms)
  end.

Definition thread_summary (s : Store) (t : ThreadRow) : ThreadSummary :=
  mkSummary (th_gmail_id t) (th_subject t) (th_snippet t) (th_last_at t) (as_u32 (th_message_count t))
    (as_u32 (th_unread_count t)) (th_has_attachments t) (th_is_starred t) (th_participants t)
    (th_label_ids t) (replied s (th_id t)).

(** ** Thread lists *)

(** [EXISTS (SELECT 1 FROM thread_labels n ...)] for a label's name *)
Definition carries (s : Store) (thread : Z) (label : string) : bool :=
  match find_label s label with Some l => has_thread_label s (lb_id l) thread | None => false end.

(** [narrowing_clause] *)
Definition narrowed (s : Store) (t : ThreadRow) (label : string) : bool :=
  if String.eqb label FILTER_UNREAD then (0 <? th_unread_count t)%Z
  else if String.eqb label FILTER_STARRED then th_is_starred t
  else if String.eqb label FILTER_ATTACHMENTS then th_has_attachments t
  else match strip_prefix "!" label with
       | Some excluded => negb (carries s (th_id t) excluded)
       | None =>
           if String.eqb label PRIMARY then negb (List.existsb (carries s (th_id t)) CATEGORIES)
           else carries s (th_id t) label
       end.
Definition narrowed_by (s : Store) (t : ThreadRow) (narrowings : list string) : bool :=
  forallb (narrowed s t) narrowings.

(** [thread_labels tl JOIN threads t], of one label *)
Definition label_rows (s : Store) (label : string) : list (Key * ThreadRow) :=
  match find_label s label with
  | Some l =>
      omap (λ '(l', at_, t),
        if bool_decide (l' = lb_id l) then (λ r, ((at_, t), r)) <$> thread_by_rowid s t else None)
        (thread_labels s)
  | None => []
  end.

Definition list_threads (s : Store) (mailbox : string) (cursor : option string) (limit : Z) :
    StoreResult ThreadPage :=
  let limit := Z.min (Z.max limit 1) MAX_PAGE_SIZE in
  after ← match cursor with Some c => decode_cursor c | None => Ok (I64_MAX, I64_MAX) end;
  match split_on "+" mailbox with
  | [] => Err (Invalid "no mailbox")
  | label :: narrowings =>
      if MAX_NARROWINGS <? length narrowings
      then Err (Invalid "mailbox narrows too many times")
      else
        let found := take (S (Z.to_nat limit))
          (merge_sort newest
             (List.filter (λ '(k, t), key_lt k after && narrowed_by s t narrowings) (label_rows s label))) in
        let shown := take (Z.to_nat limit) found in
        Ok (mkPage ((λ r, thread_summary s r.2) <$> shown)
              (if Z.to_nat limit <? length found then encode_cursor <$> (fst <$> list.last shown) else None))
  end.

(** ** Inbox categories *)

Definition category_counts (found : list (option string * Z * Z)) : list CategoryCount :=
  (λ id,
     let '(_, total, unread) :=
       default (None, 0, 0)%Z (List.find (λ r, bool_decide (default PRIMARY r.1.1 = id)) found) in
     mkCategoryCount id (as_u32 total) (as_u32 unread)) <$> (PRIMARY :: CATEGORIES).
Definition stored_inbox_categories (s : Store) : list CategoryCount :=
  category_counts ((λ '(c, (n, u)), (Some c, n, u)) <$> map_to_list (category_stats s)).

(** The first category among a thread's labels, in tab order. *)
Definition first_category (s : Store) (t : ThreadRow) : option string :=
  List.find (carries s (th_id t)) CATEGORIES.
Definition count_inbox_categories (s : Store) (also : list string) : list CategoryCount :=
  let ts := List.filter (λ t, narrowed_by s t also) (label_rows s INBOX).*2 in
  category_counts
    ((λ c, let group := List.filter (λ t, bool_decide (first_category s t = c)) ts in
           (c, Z.of_nat (length group), Z.of_nat (count thread_unread group)))
     <$> remove_dups (first_category s <$> ts)).
Definition inbox_categories (s : Store) (also : list string) : list CategoryCount :=
  match also with [] => stored_inbox_categories s | _ => count_inbox_categories s also end.

(** ** Labels and mailboxes *)

Definition name_le (a b : LabelRow) : Prop := String.le (ascii_lower (lb_name a)) (ascii_lower (lb_name b)).
#[export] Instance name_le_dec a b : Decision (name_le a b).
Proof. unfold name_le. apply _. Defined.
Definition kind_is (k : LabelKind) (l : LabelRow) : bool := bool_decide (lb_kind l = k).

(** [ORDER BY kind DESC, name COLLATE NOCASE]: "user" sorts after "system" *)
Definition label_of (l : LabelRow) : Label :=
  mkLabel (lb_gmail_id l) (lb_name l) (if kind_is UserLabel l then UserLabel else SystemLabel)
    (bg ← lb_color_bg l; fg ← lb_color_fg l; Some (bg, fg)) (lb_visible l).
Definition list_labels (s : Store) : list Label :=
  label_of <$> (merge_sort name_le (List.filter (kind_is UserLabel) (labels s)) ++
                merge_sort name_le (List.filter (kind_is SystemLabel) (labels s))).

Definition SYSTEM_MAILBOXES : list (MailboxKind * string * string) :=
  [(InboxBox, "INBOX", "Inbox"); (StarredBox, "STARRED", "Starred"); (ImportantBox, "IMPORTANT", "Important");
   (SentBox, "SENT", "Sent"); (DraftsBox, "DRAFT", "Drafts"); (ArchiveBox, ARCHIVE_LABEL, "Archive");
   (SpamBox, "SPAM", "Spam"); (TrashBox, "TRASH", "Trash")].
Definition label_counts (s : Store) (l : LabelRow) : Z * Z := default (0, 0)%Z (label_stats s !! lb_id l).

(** With categories, the Inbox counts Primary's unread. *)
Definition inbox_unread (s : Store) (unread : Z) : Z :=
  let categories := inbox_categories s [] in
  if List.existsb (λ c, negb (String.eqb (cc_id c) PRIMARY) && (0 <? cc_total c)%Z) categories
  then match List.find (λ c, String.eqb (cc_id c) PRIMARY) categories with Some c => cc_unread c | None => 0%Z end
  else unread.
Definition system_mailbox (s : Store) (m : MailboxKind * string * string) : Mailbox :=
  let '(kind, id, name) := m in
  let '(total, unread) := default (0, 0)%Z (label_counts s <$> find_label s id) in
  let unread := if bool_decide (kind = InboxBox) then inbox_unread s unread else unread in
  mkMailbox kind (if bool_decide (kind = ArchiveBox) then None else Some id) name
    (as_u32 unread) (as_u32 total).
Definition label_mailbox (s : Store) (l : LabelRow) : Mailbox :=
  let '(total, unread) := label_counts s l in
  mkMailbox LabelBox (Some (lb_gmail_id l)) (lb_name l) (as_u32 unread) (as_u32 total).
Definition list_mailboxes (s : Store) : list Mailbox :=
  (system_mailbox s <$> SYSTEM_MAILBOXES) ++
  (label_mailbox s <$> merge_sort name_le (List.filter (λ l, kind_is UserLabel l && lb_visible l) (labels s))).
Definition mailbox_label (m : Mailbox) : string := default ARCHIVE_LABEL (mb_label m).

(** Of [ids], the stored messages in the Inbox that lack [label]. *)
Definition message_has_label (s : Store) (message : Z) (label : string) : bool :=
  List.existsb (λ l, bool_decide (lb_gmail_id l = label)) (labels_of_message s message).
Definition inbox_messages_missing (s : Store) (ids : list MessageId) (label : LabelId) : list MessageId :=
  List.filter (λ id,
    match find_message s id with
    | Some m => message_has_label s (ms_id m) INBOX && negb (message_has_label s (ms_id m) label)
    | None => false
    end) ids.

(** ** One thread, one message *)

Definition get_thread_summary (s : Store) (id : ThreadId) : option ThreadSummary :=
  thread_summary s <$> find_thread s id.

(** [fill_participants]: [ORDER BY role, position] *)
Definition role_le (a b : ParticipantRow) : Prop :=
  if decide (pt_role a = pt_role b) then (pt_position a ≤ pt_position b)%Z
  else String.le (pt_role a) (pt_role b).
#[export] Instance role_le_dec a b : Decision (role_le a b).
Proof. unfold role_le. destruct (decide (pt_role a = pt_role b)); apply _. Defined.
Definition set_people (m : Message) (from : option EmailAddress) (to cc bcc reply_to : list EmailAddress) : Message :=
  mkMessage (g_id m) (g_thread m) (g_rfc822 m) (g_in_reply_to m) (g_references m) from to cc bcc reply_to
    (g_subject m) (g_date m) (g_internal_date m) (g_snippet m) (g_flags m) (g_label_ids m)
    (g_body_state m) (g_size m) (g_attachments m).
Definition add_participant_row (m : Message) (p : ParticipantRow) : Message :=
  let a := pt_address p in
  if String.eqb (pt_role p) "from" then set_people m (Some a) (g_to m) (g_cc m) (g_bcc m) (g_reply_to m)
  else if String.eqb (pt_role p) "to" then set_people m (g_from m) (g_to m ++ [a]) (g_cc m) (g_bcc m) (g_reply_to m)
  else if String.eqb (pt_role p) "cc" then set_people m (g_from m) (g_to m) (g_cc m ++ [a]) (g_bcc m) (g_reply_to m)
  else if String.eqb (pt_role p) "bcc" then set_people m (g_from m) (g_to m) (g_cc m) (g_bcc m ++ [a]) (g_reply_to m)
  else if String.eqb (pt_role p) "reply_to"
       then set_people m (g_from m) (g_to m) (g_cc m) (g_bcc m) (g_reply_to m ++ [a])
  else m.
Definition fill_participants (s : Store) (rowid : Z) (m : Message) : Message :=
  foldl add_participant_row m
    (merge_sort role_le (List.filter (λ p, bool_decide (pt_message p = rowid)) (participants s))).

(** A message row of [get_thread], then its participants, labels and
    attachments. *)
Definition message_columns (thread : ThreadId) (r : MessageRow) : Message :=
  mkMessage (ms_gmail_id r) thread (ms_rfc822 r) (ms_in_reply_to r) (ms_references r) None [] [] [] []
    (ms_subject r) (ms_date r) (ms_internal_date r) (ms_snippet r) (ms_flags r) [] (ms_body_state r)
    (Z.max (ms_size r) 0) [].
Definition set_labels_attachments (ls : list LabelId) (atts : list IncomingAttachment) (m : Message) : Message :=
  mkMessage (g_id m) (g_thread m) (g_rfc822 m) (g_in_reply_to m) (g_references m) (g_from m) (g_to m)
    (g_cc m) (g_bcc m) (g_reply_to m) (g_subject m) (g_date m) (g_internal_date m) (g_snippet m) (g_flags m)
    ls (g_body_state m) (g_size m) atts.
Definition read_message (s : Store) (thread : ThreadId) (r : MessageRow) : Message :=
  set_labels_attachments
    (merge_sort String.le (message_label_ids s (ms_id r)))
    (at_attachment <$> List.filter (λ a, bool_decide (at_message a = ms_id r)) (attachments s))
    (fill_participants s (ms_id r) (message_columns thread r)).

Definition get_thread (s : Store) (id : ThreadId) : option (ThreadSummary * list Message) :=
  t ← find_thread s id;
  Some (thread_summary s t, read_message s id <$> thread_messages s (th_id t)).
Definition get_message (s : Store) (id : MessageId) : option Message :=
  r ← find_message s id;
  t ← thread_by_rowid s (ms_thread r);
  '(_, ms) ← get_thread s (th_gmail_id t);
  List.find (λ m, bool_decide (g_id m = id)) ms.

(** ** Smaller queries *)

(** [SELECT DISTINCT]: the first of equal rows. *)
Fixpoint distinct (l : list string) : list string :=
  match l with
  | [] => []
  | x :: l => x :: List.filter (λ y, negb (String.eqb y x)) (distinct l)
  end.
Definition sent_from_addresses (s : Store) : list string :=
  take 50 (distinct (ascii_lower <$>
    omap (λ m, e ← ms_from_email m; if is_sent_by_me (ms_flags m) && negb (String.eqb e "") then Some e else None)
      (messages s))).
Definition message_for_rfc822 (s : Store) (rfc822 : string) : option string :=
  ms_gmail_id <$>
    List.find (λ m, bool_decide (ms_rfc822 m = Some rfc822) && negb (is_draft (ms_flags m))) (messages s).

(** Bodies sanitized under the project's old name. *)
Definition current_names (html : string) : string :=
  if negb (contains "openagc-" html) then html
  else replace ("class=" +:+ quoted "openagc-quote") ("class=" +:+ quoted "kaluta-quote")
         (replace (QUOTE +:+ "openagc-remote:") (QUOTE +:+ "kaluta-remote:")
            (replace (QUOTE +:+ "openagc-cid:") (QUOTE +:+ "kaluta-cid:") html)).
Definition get_body (s : Store) (id : MessageId) : option Body :=
  r ← find_message s id;
  b ← bodies s !! ms_id r;
  Some (mkBody (text_plain b) (current_names <$> html_sanitized b) (has_remote_images b)).
