(* ===== verification/ReadProperties.v ===== *)
(** * ReadProperties: what the mail queries answer

    Pages: the rows of a mailbox in order are one list, a cursor selects a
    suffix of it, and following the cursors walks the whole of it.  On a
    store that sessions left, the answers are stated of the messages. *)

From Stdlib Require Import Ascii.
From S2P Require Import Prelude.
From S2P Require Import Domain.
From S2P Require Import Text.
From S2P Require Import MailStore.
From S2P Require Import StoreInvariant.
From S2P Require Import Finish.
From S2P Require Import WriterProperties.
From S2P Require Import Read.

(** ** Cursors *)

Definition key_fits (k : Key) : Prop := in_i64 k.1 ∧ in_i64 k.2.

Lemma cursor_roundtrip k : key_fits k → decode_cursor (encode_cursor k) = Ok k.
Proof.
  intros [H1 H2]. unfold decode_cursor, encode_cursor. rewrite split_once_app by by apply has_char_pretty_Z.
  cbn [ok_or mbind result_bind]. rewrite !parse_i64_pretty by done. by destruct k.
Qed.

(** ** Keyed rows in order *)

Section keyed.
Context {A : Type}.
Implicit Types (l : list (Key * A)).

Definition after (a b : Key * A) : Prop := key_lt b.1 a.1 = true.
Definition descending l : Prop := StronglySorted after l.

Lemma descending_newest l : NoDup (fst <$> l) → StronglySorted newest l → descending l.
Proof.
  intros Hn. induction 1 as [|x l Hl IH Hx]; [constructor|]. rewrite fmap_cons in Hn.
  apply NoDup_cons in Hn as [Hn1 Hn2]. constructor; [by apply IH|]. rewrite Forall_forall in *.
  intros y Hy. specialize (Hx y Hy). unfold newest, after, key_lt in *.
  assert (y.1 ≠ x.1) as Hne by (intros E; apply Hn1; rewrite <- E; by apply list_elem_of_fmap_2).
  destruct x as [[x1 x2] x], y as [[y1 y2] y]; simpl in *.
  assert (¬ (y1 = x1 ∧ y2 = x2)) by naive_solver. lia.
Qed.
Lemma descending_unique l1 l2 : descending l1 → descending l2 → l1 ≡ₚ l2 → l1 = l2.
Proof.
  intros H1 H2 Hp. apply (StronglySorted_unique_strong after); [|done..].
  unfold after, key_lt. intros [[??]?] [[??]?] _ _ ??; simpl in *. lia.
Qed.
Lemma descending_filter p l : descending l → descending (List.filter p l).
Proof. apply StronglySorted_filter. Qed.

(** The rows of a list in order. *)
Lemma merge_sort_descending l : NoDup (fst <$> l) → descending (merge_sort newest l).
Proof.
  intros Hn. apply descending_newest; [by rewrite merge_sort_Permutation|].
  apply StronglySorted_merge_sort; unfold newest, key_lt; [intros ???|intros ??]; lia.
Qed.
Lemma merge_sort_filter p l :
  NoDup (fst <$> l) → merge_sort newest (List.filter p l) = List.filter p (merge_sort newest l).
Proof.
  intros Hn. apply descending_unique.
  - apply merge_sort_descending. by apply NoDup_fmap_List_filter.
  - by apply descending_filter, merge_sort_descending.
  - by rewrite !merge_sort_Permutation.
Qed.

(** A key cuts a list in order behind its row. *)
Lemma filter_behind pre x rest :
  descending (pre ++ x :: rest) →
  List.filter (λ r, key_lt r.1 x.1) (pre ++ x :: rest) = rest.
Proof.
  intros H. rewrite List.filter_app. simpl.
  assert (key_lt x.1 x.1 = false) as -> by (unfold key_lt; lia).
  rewrite List_filter_none, List_filter_all; [done| |].
  - intros y Hy. apply StronglySorted_app_1_r in H. apply StronglySorted_inv in H as [_ H].
    rewrite Forall_forall in H. by apply H.
  - intros y Hy. assert (after y x) as Hyx by (eapply StronglySorted_app_1_elem_of; [done..|by left]).
    unfold after, key_lt in *. lia.
Qed.
End keyed.

(** ** Following the cursors *)

(** A client that asks for pages until there is no next one. *)
Fixpoint follow_pages (fuel : nat) (fetch : option string → StoreResult ThreadPage) (cursor : option string) :
    option (list ThreadSummary) :=
  match fuel with
  | O => None
  | S fuel =>
      match fetch cursor with
      | Ok p =>
          match next_cursor p with
          | Some c => app (rows p) <$> follow_pages fuel fetch (Some c)
          | None => Some (rows p)
          end
      | Err _ => None
      end
  end.
Definition follow (fuel : nat) (s : Store) (mailbox : string) (cursor : option string) (limit : Z) :
    option (list ThreadSummary) := follow_pages fuel (λ c, list_threads s mailbox c limit) cursor.

(** The page that starts a list of rows. *)
Definition page_of (s : Store) (size : nat) (rest : list (Key * ThreadRow)) : ThreadPage :=
  mkPage ((λ r, thread_summary s r.2) <$> take size rest)
    (if size <? length (take (S size) rest)
     then encode_cursor <$> (fst <$> list.last (take size rest)) else None).
Definition cursor_key (cursor : option string) (k : Key) : Prop :=
  match cursor with Some c => decode_cursor c = Ok k | None => k = (I64_MAX, I64_MAX) end.

(** Pages of one list of rows in order, each behind its cursor's key. *)
Section keyset.
Context (s : Store) (fetch : option string → StoreResult ThreadPage) (L : list (Key * ThreadRow)) (size : nat).
Hypothesis Hsize : 0 < size.
Hypothesis Hdesc : descending L.
Hypothesis Hfetch : ∀ cursor k, cursor_key cursor k →
  fetch cursor = Ok (page_of s size (List.filter (λ r, key_lt r.1 k) L)).

Lemma follow_from fuel cursor k seen rest :
  cursor_key cursor k → L = seen ++ rest → List.filter (λ r, key_lt r.1 k) L = rest →
  (∀ r, r ∈ rest → key_fits r.1) → length rest < fuel →
  follow_pages fuel fetch cursor = Some ((λ r, thread_summary s r.2) <$> rest).
Proof using Hsize Hdesc Hfetch.
  revert cursor k seen rest. induction fuel as [|fuel IH]; intros cursor k seen rest Hk Hrows Hrest Hfit Hfuel; [lia|].
  simpl. rewrite (Hfetch _ k Hk), Hrest. unfold page_of at 1. cbn [next_cursor].
  rewrite length_take.
  destruct (Nat.ltb_spec size (S size `min` length rest)) as [Hlt|Hge].
  - assert (size < length rest) as Hl by lia.
    destruct (list.last (take size rest)) as [x|] eqn:El.
    2:{ apply last_None in El. apply (f_equal length) in El. rewrite length_take in El. simpl in El. lia. }
    apply last_Some in El as [pre El]. cbn [fmap option_fmap option_map].
    assert (rest = pre ++ x :: drop size rest) as Er.
    { rewrite <- (take_drop size rest) at 1. rewrite El, <- app_assoc. done. }
    rewrite (IH (Some (encode_cursor x.1)) x.1 (seen ++ pre ++ [x]) (drop size rest)).
    + unfold page_of. cbn [rows]. cbn [fmap option_fmap option_map]. f_equal.
      rewrite <- fmap_app, take_drop. done.
    + apply cursor_roundtrip, Hfit. rewrite Er. apply elem_of_app. right. by left.
    + rewrite Hrows, Er at 1. by rewrite <- !app_assoc.
    + rewrite Hrows, Er at 1. rewrite app_assoc. apply filter_behind. rewrite <- app_assoc, <- Er, <- Hrows.
      exact Hdesc.
    + intros r Hr. apply Hfit. rewrite Er. apply elem_of_app. right. by right.
    + rewrite length_drop. lia.
  - unfold page_of. cbn [rows]. rewrite take_ge by lia. done.
Qed.
End keyset.

Definition page_size (limit : Z) : nat := Z.to_nat (Z.min (Z.max limit 1) MAX_PAGE_SIZE).
Lemma page_size_pos limit : 0 < page_size limit.
Proof. unfold page_size, MAX_PAGE_SIZE. lia. Qed.

Section pages.
Context (s : Store) (mailbox label : string) (narrowings : list string) (limit : Z).
Hypothesis Hsplit : split_on "+" mailbox = label :: narrowings.
Hypothesis Hnarrow : length narrowings ≤ MAX_NARROWINGS.
Hypothesis Hkeys : NoDup (fst <$> label_rows s label).

Definition mailbox_rows : list (Key * ThreadRow) :=
  merge_sort newest (List.filter (λ r, narrowed_by s r.2 narrowings) (label_rows s label)).

Lemma list_threads_page cursor k :
  cursor_key cursor k →
  list_threads s mailbox cursor limit = Ok (page_of s (page_size limit) (List.filter (λ r, key_lt r.1 k) mailbox_rows)).
Proof using Hsplit Hnarrow Hkeys.
  intros Hk. unfold list_threads.
  assert (match cursor with Some c => decode_cursor c | None => Ok (I64_MAX, I64_MAX) end = Ok k) as ->
    by (unfold cursor_key in Hk; destruct cursor; congruence).
  cbn [mbind result_bind]. rewrite Hsplit.
  destruct (Nat.ltb_spec MAX_NARROWINGS (length narrowings)); [lia|].
  assert (List.filter (λ '(k', t), key_lt k' k && narrowed_by s t narrowings) (label_rows s label) =
          List.filter (λ r, key_lt r.1 k) (List.filter (λ r, narrowed_by s r.2 narrowings) (label_rows s label))) as ->.
  { rewrite List_filter_filter. apply List_filter_ext. intros [k' t] _. apply andb_comm. }
  rewrite merge_sort_filter by by apply NoDup_fmap_List_filter.
  fold mailbox_rows (page_size limit). unfold page_of. f_equal. rewrite take_take, Nat.min_l by lia. done.
Qed.

Lemma mailbox_rows_descending : descending mailbox_rows.
Proof using Hkeys. apply merge_sort_descending. by apply NoDup_fmap_List_filter. Qed.

End pages.

(** ** The mailboxes of a store that sessions left *)

(** A thread is in Archive, or a message of it has the label. *)
Definition in_mailbox (s : Store) (t : ThreadRow) (n : string) : Prop :=
  if decide (n = ARCHIVE_LABEL) then archived s (th_id t)
  else ∃ m, m ∈ messages_in s (th_id t) ∧ n ∈ message_label_ids s (ms_id m).
(** What a narrowing asks of a thread's messages. *)
Definition narrows (s : Store) (t : ThreadRow) (n : string) : Prop :=
  if decide (n = FILTER_UNREAD) then ∃ m, m ∈ messages_in s (th_id t) ∧ is_read (ms_flags m) = false
  else if decide (n = FILTER_STARRED) then ∃ m, m ∈ messages_in s (th_id t) ∧ is_starred (ms_flags m) = true
  else if decide (n = FILTER_ATTACHMENTS) then th_has_attachments t = true
  else match strip_prefix "!" n with
       | Some excluded => ¬ in_mailbox s t excluded
       | None => if decide (n = PRIMARY) then ∀ c, c ∈ CATEGORIES → ¬ in_mailbox s t c
                 else in_mailbox s t n
       end.

Section store.
Context (s : Store) (Hs : consistent s).

Lemma thread_is_ok t : t ∈ threads s → thread_ok s t.
Proof using Hs. intros Ht. destruct Hs as (_ & Hc & _). apply Hc; [done|]. apply not_elem_of_empty. Qed.

Lemma labelled_ids t n :
  (∃ m, m ∈ messages_in s t ∧ n ∈ message_label_ids s (ms_id m)) ↔ ∃ l, labelled s t l n.
Proof using Hs.
  destruct Hs as (Hi & _). unfold labelled. split.
  - intros (m & Hm & Hn). apply elem_of_message_label_ids in Hn as (l & H1 & H2); [|done]. eauto 6.
  - intros (l & m & Hm & H1 & H2). exists m. split; [done|]. apply elem_of_message_label_ids; eauto.
Qed.

Lemma carries_spec t n : t ∈ threads s → carries s (th_id t) n = true ↔ in_mailbox s t n.
Proof using Hs.
  intros Ht. pose proof (thread_is_ok t Ht) as Hok. pose proof Hs as (Hi & _).
  assert (in_mailbox s t n ↔ if decide (n = ARCHIVE_LABEL) then archived s (th_id t)
                             else ∃ l, labelled s (th_id t) l n) as ->.
  { unfold in_mailbox. case_decide; [done|apply labelled_ids]. }
  unfold carries. destruct (find_label s n) as [r|] eqn:E.
  - apply find_by_Some_2 in E as [Hr <-]. rewrite (has_thread_label_mailbox s t r Hi Hok Hr), (mailbox_of_label s _ r Hi Hr).
    destruct (decide (lb_gmail_id r = ARCHIVE_LABEL)) as [Ea|Ea].
    + rewrite Ea. split; [intros [H|[_ H]]; [by apply labelled_not_archive in H|done]|by right].
    + split; [intros [H|[? _]]; [eauto|done]|]. intros [l Hl]. left.
      pose proof Hl as (m & _ & _ & Hn). apply label_name_Some in Hn as (r' & Hr' & <- & Er); [|apply Hi].
      assert (r = r') as ->; [|done]. by apply (NoDup_fmap_inj lb_gmail_id (labels s)); [apply Hi|..].
  - apply find_by_None in E. split; [done|]. destruct (decide (n = ARCHIVE_LABEL)) as [->|_].
    + by destruct E; apply Hi.
    + intros (l & m & _ & _ & Hn). apply label_name_Some in Hn as (r & Hr & _ & <-); [|apply Hi].
      destruct E. by apply list_elem_of_fmap_2.
Qed.

Lemma narrowed_spec t n : t ∈ threads s → narrowed s t n = true ↔ narrows s t n.
Proof using Hs.
  intros Ht. pose proof (thread_is_ok t Ht) as Hok. unfold narrowed, narrows.
  assert (∀ x y : string, String.eqb x y = bool_decide (x = y)) as Heqb.
  { intros x y. destruct (String.eqb_spec x y); [by rewrite bool_decide_eq_true_2|by rewrite bool_decide_eq_false_2]. }
  rewrite !Heqb.
  destruct (decide (n = FILTER_UNREAD)); [|destruct (decide (n = FILTER_STARRED));
    [|destruct (decide (n = FILTER_ATTACHMENTS)); [|destruct (strip_prefix "!" n) as [x|]]]].
  - rewrite bool_decide_eq_true_2, (ok_unread _ _ Hok) by done. unfold unread_in.
    rewrite Z.ltb_lt. change 0%Z with (Z.of_nat 0). rewrite <- Nat2Z.inj_lt, <- Nat.neq_0_lt_0, elem_of_count.
    split; intros (m & Hm & E); exists m; by rewrite negb_true_iff in *.
  - rewrite bool_decide_eq_false_2, bool_decide_eq_true_2, (ok_starred _ _ Hok) by done. apply existsb_true.
  - rewrite bool_decide_eq_false_2, bool_decide_eq_false_2, bool_decide_eq_true_2 by done. done.
  - rewrite !bool_decide_eq_false_2 by done. rewrite negb_true_iff, <- not_true_iff_false. by rewrite carries_spec.
  - do 3 rewrite bool_decide_eq_false_2 by done. case_decide as E.
    + rewrite bool_decide_eq_true_2, negb_true_iff, existsb_false by done.
      setoid_rewrite <- not_true_iff_false. by setoid_rewrite carries_spec.
    + rewrite bool_decide_eq_false_2 by done. by apply carries_spec.
Qed.

(** The rows of a label: its threads, each at its own time. *)
Lemma elem_of_label_rows label k t :
  (k, t) ∈ label_rows s label ↔ t ∈ threads s ∧ k = (th_last_at t, th_id t) ∧ in_mailbox s t label.
Proof using Hs.
  pose proof Hs as (Hi & _). unfold label_rows. split.
  - destruct (find_label s label) as [l|] eqn:El; [|by intros ?%not_elem_of_nil].
    intros ([[l' a] t'] & Hin & H)%list_elem_of_omap. case_bool_decide as E; [subst l'|discriminate H].
    destruct (thread_by_rowid s t') as [r|] eqn:Er; [|discriminate H]. injection H as <- <-.
    apply find_by_Some_2 in Er as [Hr <-]. pose proof (ok_mailboxes _ _ (thread_is_ok r Hr) (lb_id l) a) as Hm.
    apply Hm in Hin as Ha. destruct Ha as [-> Ha]. split_and!; [done..|]. apply carries_spec; [done|].
    unfold carries. rewrite El. apply has_thread_label_spec. eauto.
  - intros (Ht & -> & Hm%carries_spec); [|done]. unfold carries in Hm.
    destruct (find_label s label) as [l|]; [|discriminate Hm]. apply has_thread_label_spec in Hm as [a Ha].
    pose proof Ha as [-> _]%(ok_mailboxes _ _ (thread_is_ok t Ht)).
    apply list_elem_of_omap. exists (lb_id l, th_last_at t, th_id t). split; [done|].
    rewrite bool_decide_eq_true_2 by done. unfold thread_by_rowid.
    rewrite (proj2 (find_by_Some th_id (th_id t) (threads s) t (inv_threads _ Hi))) by done. done.
Qed.

Lemma label_rows_keys label : NoDup (fst <$> label_rows s label).
Proof using Hs.
  pose proof Hs as (Hi & _). destruct (inv_thread_labels _ Hi) as [Hn _]. unfold label_rows.
  destruct (find_label s label) as [l|]; [|apply NoDup_nil_2].
  induction (thread_labels s) as [|[[l' a] t] tl IH]; [apply NoDup_nil_2|].
  rewrite fmap_cons in Hn. apply NoDup_cons in Hn as [Hn1 Hn2]. simpl. case_bool_decide as E; [|by apply IH].
  subst l'. destruct (thread_by_rowid s t); [|by apply IH]. simpl. apply NoDup_cons. split; [|by apply IH].
  intros ([k r] & Ek & Hin)%list_elem_of_fmap. simpl in Ek. subst k.
  apply list_elem_of_omap in Hin as ([[l' a'] t'] & Hin & H). case_bool_decide as E; [subst l'|done].
  destruct (thread_by_rowid s t'); [|done]. injection H as -> -> _.
  destruct Hn1. apply list_elem_of_fmap. exists (lb_id l, a, t). done.
Qed.
End store.

(** ** Counts of the Inbox's tabs *)

Lemma find_counts (f : option string → Z * Z) (cs : list (option string)) id :
  (∀ c, c ∈ cs → c ≠ Some PRIMARY) →
  List.find (λ r, bool_decide (default PRIMARY r.1.1 = id)) ((λ c, (c, (f c).1, (f c).2)) <$> cs) =
  (λ c, (c, (f c).1, (f c).2)) <$>
    List.find (λ c, bool_decide (c = if decide (id = PRIMARY) then None else Some id)) cs.
Proof.
  induction cs as [|c cs IH]; intros Hp; [done|]. simpl.
  assert (bool_decide (default PRIMARY c = id) =
          bool_decide (c = if decide (id = PRIMARY) then None else Some id)) as ->.
  { apply bool_decide_ext. assert (c ≠ Some PRIMARY) by (apply Hp; by left).
    destruct c as [c|]; simpl; case_decide; naive_solver. }
  case_bool_decide; [done|]. apply IH. set_solver.
Qed.

Section tabs.
Context (s : Store) (Hs : consistent s).

Lemma label_rows_threads inbox :
  find_label s INBOX = Some inbox → (label_rows s INBOX).*2 = threads_labelled s (lb_id inbox).
Proof using Hs.
  intros Hi. unfold label_rows, threads_labelled. rewrite Hi. pose proof Hs as (Hinv & _).
  induction (thread_labels s) as [|[[l a] t] tl IH]; [done|]. rewrite bind_cons, <- IH. simpl.
  case_bool_decide; [|done]. unfold thread_by_rowid. destruct (find_by th_id t (threads s)) as [r|] eqn:E; simpl.
  - apply find_by_Some_2 in E as [Hr <-]. by rewrite List_filter_key by (apply Hinv || done).
  - apply find_by_None in E. rewrite List_filter_none; [done|]. intros x Hx. apply bool_decide_eq_false.
    intros <-. destruct E. by apply list_elem_of_fmap_2.
Qed.

Lemma first_category_counted t : t ∈ threads s → default PRIMARY (first_category s t) = counted_category s t.
Proof using Hs.
  intros Ht. unfold first_category, counted_category. f_equal. pose proof Hs as (Hinv & _).
  induction CATEGORIES as [|c cs IH]; [done|]. simpl. rewrite IH.
  replace (carries s (th_id t) c) with (List.existsb (λ l, bool_decide (lb_gmail_id l = c) &&
    has_thread_label s (lb_id l) (th_id t)) (labels s)); [done|].
  unfold carries. destruct (find_label s c) as [r|] eqn:E.
  - apply find_by_Some_2 in E as [Hr <-]. apply eq_true_iff_eq. rewrite existsb_true. split.
    + intros (r' & Hr' & [Er%bool_decide_eq_true H]%andb_true_iff).
      by rewrite (NoDup_fmap_inj lb_gmail_id (labels s) r r') by (apply Hinv || congruence).
    + intros H. exists r. by rewrite bool_decide_eq_true_2.
  - apply find_by_None in E. apply existsb_false. intros r Hr. rewrite bool_decide_eq_false_2; [done|].
    intros <-. destruct E. by apply list_elem_of_fmap_2.
Qed.

(** The counts a tab shows of the rows it is given. *)
Definition tab_counts (found : list (option string * Z * Z)) (id : string) : Z * Z :=
  let '(_, n, u) := default (None, 0, 0)%Z (List.find (λ r, bool_decide (default PRIMARY r.1.1 = id)) found) in (n, u).
Lemma category_counts_tabs found :
  category_counts found =
  (λ id, mkCategoryCount id (as_u32 (tab_counts found id).1) (as_u32 (tab_counts found id).2)) <$> (PRIMARY :: CATEGORIES).
Proof using Type.
  unfold category_counts. apply list_fmap_ext. intros _ id _. unfold tab_counts.
  by destruct (default _ _) as [[? ?] ?].
Qed.

Lemma tab_counts_stored (m : gmap string (Z * Z)) id :
  tab_counts ((λ '(c, (n, u)), (Some c, n, u)) <$> map_to_list m) id = default (0, 0)%Z (m !! id).
Proof using Type.
  unfold tab_counts.
  assert (∀ l : list (string * (Z * Z)), List.find (λ r, bool_decide (default PRIMARY r.1.1 = id)) ((λ '(c, (n, u)), (Some c, n, u)) <$> l)
    = (λ '(c, (n, u)), (Some c, n, u)) <$> find_by fst id l) as ->.
  { unfold find_by. induction l as [|[c [n u]] l IH]; [done|]. simpl. by case_bool_decide. }
  destruct (find_by fst id (map_to_list m)) as [[c [n u]]|] eqn:E.
  - apply find_by_Some_2 in E as [E%elem_of_map_to_list Ec]. simpl in Ec. subst c. by rewrite E.
  - apply find_by_None in E. assert (m !! id = None) as ->; [|done].
    apply eq_None_not_Some. intros [x Hx%elem_of_map_to_list]. destruct E. apply list_elem_of_fmap. by exists (id, x).
Qed.

Lemma first_category_not_primary t : first_category s t ≠ Some PRIMARY.
Proof using Type.
  unfold first_category. intros E. apply List.find_some in E as [E _]. simpl in E. naive_solver.
Qed.

Lemma tab_counts_counted ts id :
  (∀ t, t ∈ ts → t ∈ threads s) →
  tab_counts ((λ c, let group := List.filter (λ t, bool_decide (first_category s t = c)) ts in
           (c, Z.of_nat (length group), Z.of_nat (count thread_unread group)))
     <$> remove_dups (first_category s <$> ts)) id =
  tally (List.filter (λ t, bool_decide (counted_category s t = id)) ts).
Proof using Hs.
  intros Hts. set (f := λ c, tally (List.filter (λ t, bool_decide (first_category s t = c)) ts)).
  set (key := if decide (id = PRIMARY) then None else Some id).
  assert (List.filter (λ t, bool_decide (counted_category s t = id)) ts =
          List.filter (λ t, bool_decide (first_category s t = key)) ts) as ->.
  { apply List_filter_ext. intros t Ht. rewrite <- first_category_counted by auto. apply bool_decide_ext.
    pose proof (first_category_not_primary t). unfold key. destruct (first_category s t); simpl; case_decide; naive_solver. }
  unfold tab_counts. rewrite (find_counts f) by (intros c Hc ->; apply elem_of_remove_dups, list_elem_of_fmap in Hc
    as (t & E & _); by destruct (first_category_not_primary t)).
  fold key. destruct (List.find (λ c, bool_decide (c = key)) _) as [c|] eqn:E.
  - apply List.find_some in E as [_ ->%bool_decide_eq_true]. done.
  - simpl. rewrite List_filter_none; [done|]. intros t Ht. apply bool_decide_eq_false. intros Ek.
    assert (key ∈ remove_dups (first_category s <$> ts)) as Hk.
    { rewrite <- Ek. apply elem_of_remove_dups. by apply list_elem_of_fmap_2. }
    apply list_elem_of_In in Hk. apply (List.find_none _ _ E) in Hk. by apply bool_decide_eq_false in Hk.
Qed.

Lemma stored_counted : stored_inbox_categories s = count_inbox_categories s [].
Proof using Hs.
  pose proof Hs as (Hinv & Hc & Hf). unfold stored_inbox_categories, count_inbox_categories.
  rewrite !category_counts_tabs. apply list_fmap_ext. intros _ id _.
  rewrite tab_counts_stored, (inv_category_stats _ Hinv), <- (counted_in_category_tally s Hinv Hc Hf).
  unfold counted_in_category. rewrite (List_filter_all (λ t, narrowed_by s t [])) by done.
  destruct (find_label s INBOX) as [inbox|] eqn:Ei.
  - rewrite tab_counts_counted; [by rewrite (label_rows_threads inbox)|].
    intros t Ht. rewrite (label_rows_threads inbox) in Ht by done. unfold threads_labelled in Ht.
    apply list_elem_of_bind in Ht as ([[l a] t'] & Hin & _). case_bool_decide; [|by apply not_elem_of_nil in Hin].
    by apply elem_of_List_filter in Hin as [_ ?].
  - unfold label_rows. by rewrite Ei.
Qed.
End tabs.

(** ** Properties *)

(** Newest first, ties by row. *)
Definition newer (a b : ThreadRow) : Prop :=
  (th_last_at b < th_last_at a ∨ (th_last_at b = th_last_at a ∧ th_id b < th_id a))%Z.
Lemma rows_newer (l : list (Key * ThreadRow)) :
  descending l → (∀ r, r ∈ l → r.1 = (th_last_at r.2, th_id r.2)) → StronglySorted newer l.*2.
Proof.
  induction 1 as [|x l Hl IH Hx]; intros Hk; [constructor|]. rewrite fmap_cons. constructor.
  - apply IH. set_solver.
  - apply Forall_forall. rewrite Forall_forall in Hx. intros t (r & -> & Hr)%list_elem_of_fmap. specialize (Hx r Hr).
    unfold after, key_lt in Hx. rewrite (Hk r), (Hk x) in Hx by set_solver. unfold newer. simpl in Hx. lia.
Qed.
Lemma newer_NoDup l : StronglySorted newer l → NoDup l.
Proof.
  induction 1 as [|x l Hl IH Hx]; [apply NoDup_nil_2|]. apply NoDup_cons. split; [|done].
  rewrite Forall_forall in Hx. intros Hin%Hx. unfold newer in Hin. lia.
Qed.

(** Following the pages of rows that are threads by their keys. *)
Lemma follow_rows s fetch (L : list (Key * ThreadRow)) size fuel :
  0 < size → descending L →
  (∀ cursor k, cursor_key cursor k → fetch cursor = Ok (page_of s size (List.filter (λ r, key_lt r.1 k) L))) →
  (∀ r, r ∈ L → r.1 = (th_last_at r.2, th_id r.2) ∧ r.2 ∈ threads s) → NoDup (th_id <$> threads s) →
  (∀ t, t ∈ threads s → key_fits (th_last_at t, th_id t) ∧ key_lt (th_last_at t, th_id t) (I64_MAX, I64_MAX) = true) →
  length (threads s) < fuel →
  follow_pages fuel fetch None = Some (thread_summary s <$> L.*2) ∧ NoDup (th_id <$> L.*2) ∧ StronglySorted newer L.*2.
Proof.
  intros Hsize Hdesc Hfetch HL Hids Hfit Hfuel.
  assert (StronglySorted newer L.*2) as Hsort by (apply rows_newer; [done|]; intros r Hin; by apply HL).
  assert (∀ t, t ∈ L.*2 → t ∈ threads s) as Hin by (intros t (r & -> & Hr)%list_elem_of_fmap; by apply HL).
  pose proof (newer_NoDup _ Hsort) as Hnd. split_and!; [| |done].
  - rewrite <- list_fmap_compose.
    apply (follow_from s fetch L size Hsize Hdesc Hfetch fuel None (I64_MAX, I64_MAX) [] L); [done..| | |].
    + apply List_filter_all. intros r Hr. destruct (HL r Hr) as [-> Ht]. by apply Hfit.
    + intros r Hr. destruct (HL r Hr) as [-> Ht]. by apply Hfit.
    + eapply Nat.le_lt_trans; [|exact Hfuel]. rewrite <- (length_fmap snd L).
      by apply submseteq_length, NoDup_submseteq.
  - apply NoDup_fmap_2_strong; [|done]. intros x y Hx Hy E.
    eapply (NoDup_fmap_inj th_id (threads s)); [done|by apply Hin..|done].
Qed.

Section properties.
Context (to_lowercase : string → string).

(** C34. Paging a mailbox: following the cursors of [list_threads] ends and
    shows, each exactly once, the threads of the mailbox that pass its
    narrowings, newest first with ties by row.  The mailbox and its
    narrowings are stated of the messages: a label is carried by a thread
    with a message that has it, Archive holds what is outside the Inbox and
    not wholly spam or trash, [!x] excludes, the Primary tab is the absence
    of every other category and [@unread] and [@starred] ask for such a
    message. *)
Theorem pages_list_mailbox s mailbox label narrowings limit fuel :
  reachable to_lowercase s → split_on "+" mailbox = label :: narrowings →
  length narrowings ≤ MAX_NARROWINGS →
  (∀ t, t ∈ threads s → key_fits (th_last_at t, th_id t) ∧ key_lt (th_last_at t, th_id t) (I64_MAX, I64_MAX) = true) →
  length (threads s) < fuel →
  ∃ ts, follow fuel s mailbox None limit = Some (thread_summary s <$> ts) ∧
    (∀ t, t ∈ ts ↔ t ∈ threads s ∧ in_mailbox s t label ∧ ∀ n, n ∈ narrowings → narrows s t n) ∧
    NoDup (th_id <$> ts) ∧
    StronglySorted newer ts.
Proof.
  intros Hr Hsplit Hn Hfit Hfuel. pose proof (reachable_consistent _ s Hr) as Hs.
  pose proof (label_rows_keys s Hs label) as Hkeys.
  set (L := mailbox_rows s label narrowings).
  assert (∀ k t, (k, t) ∈ L ↔ t ∈ threads s ∧ k = (th_last_at t, th_id t) ∧ in_mailbox s t label ∧
            ∀ n, n ∈ narrowings → narrows s t n) as HL.
  { intros k t. unfold L, mailbox_rows. rewrite merge_sort_Permutation, elem_of_List_filter, elem_of_label_rows by done.
    simpl. unfold narrowed_by. rewrite forallb_true. split.
    - intros (H1 & Ht & Hk & Hm). split_and!; [done..|]. intros n Hin. apply narrowed_spec; [done..|by apply H1].
    - intros (Ht & Hk & Hm & H1). split_and!; [|done..]. intros n Hin. apply narrowed_spec; [done..|by apply H1]. }
  pose proof (mailbox_rows_descending s label narrowings Hkeys) as Hdesc. fold L in Hdesc.
  assert (∀ r, r ∈ L → r.1 = (th_last_at r.2, th_id r.2) ∧ r.2 ∈ threads s) as HL1.
  { intros [k t] Hin. apply HL in Hin. tauto. }
  destruct (follow_rows s (λ c, list_threads s mailbox c limit) L (page_size limit) fuel (page_size_pos limit) Hdesc
    (list_threads_page s mailbox label narrowings limit Hsplit Hn Hkeys) HL1 ltac:(apply Hs) Hfit Hfuel) as (Hf & Hnd & Hsort).
  exists L.*2. split_and!; [done|intros t|done..]. rewrite list_elem_of_fmap. split.
  - intros ([k t'] & -> & Hk). apply HL in Hk. tauto.
  - intros (H1 & H2 & H3). exists ((th_last_at t, th_id t), t). split; [done|]. by apply HL.
Qed.

(** The Inbox's tabs, read from the maintained counters, are what
    counting the Inbox's threads gives, on every store sessions leave: each
    tab's threads and unread threads, a thread in two categories in the
    first. *)
Theorem tabs_agree s : reachable to_lowercase s → inbox_categories s [] = count_inbox_categories s [].
Proof. intros Hr. apply stored_counted. by eapply reachable_consistent. Qed.
End properties.

(** ** A concrete mailbox *)

Definition shelf_session : list WriterOp :=
  [UpsertLabels [mkLabel "INBOX" "Inbox" SystemLabel None true; mkLabel "Label_7" "Tasks" UserLabel None true];
   UpsertMessage (demo_message "m1" "t1" ["INBOX"; "UNREAD"] 10);
   UpsertMessage (demo_message "m2" "t2" ["INBOX"; "CATEGORY_SOCIAL"] 20);
   UpsertMessage (demo_message "m3" "t3" ["INBOX"; "UNREAD"] 10);
   UpsertMessage (demo_message "m4" "t4" ["INBOX"; "UNREAD"; "Label_7"] 40);
   UpsertMessage (demo_message "m5" "t5" ["INBOX"] 50);
   UpsertMessage (demo_message "m6" "t5" ["INBOX"; "UNREAD"; "CATEGORY_UPDATES"] 60);
   UpsertMessage (demo_message "m7" "t6" ["SENT"] 70)].
Definition shelf_writer : MailWriter :=
  default (writer_new empty_store) (ok (run_session (writer_new empty_store) shelf_session)).
Definition shelf_finished : Store * ThreadChanges :=
  default (empty_store, ∅) (ok (finish ascii_lower shelf_writer)).
Definition shelf : Store := shelf_finished.1.

Lemma shelf_reachable : reachable ascii_lower shelf.
Proof.
  apply (reachable_session _ empty_store shelf_session shelf_writer shelf shelf_finished.2).
  - apply reachable_empty.
  - repeat constructor; simpl; done.
  - apply is_ok_default. vm_compute. reflexivity.
  - assert (finish ascii_lower shelf_writer = Ok shelf_finished) as ->.
    { apply is_ok_default. vm_compute. reflexivity. }
    unfold shelf. by destruct shelf_finished.
Qed.

Definition thread_fits (t : ThreadRow) : bool :=
  ((- 2 ^ 63 <=? th_last_at t) && (th_last_at t <? 2 ^ 63 - 1) && (- 2 ^ 63 <=? th_id t) && (th_id t <? 2 ^ 63))%Z.
Lemma thread_fits_key t :
  thread_fits t = true → key_fits (th_last_at t, th_id t) ∧ key_lt (th_last_at t, th_id t) (I64_MAX, I64_MAX) = true.
Proof. unfold thread_fits, key_fits, in_i64, key_lt, I64_MAX. cbn [fst snd]. lia. Qed.

Lemma pages_list_mailbox_witness :
  option_map (List.map ts_id) (follow 7 shelf "INBOX+!Label_7+@unread" None 2) = Some ["t5"; "t3"; "t1"] ∧
  ∃ ts : list ThreadRow, follow 7 shelf "INBOX+!Label_7+@unread" None 2 = Some (thread_summary shelf <$> ts) ∧
    (∀ t, t ∈ ts ↔ t ∈ threads shelf ∧ in_mailbox shelf t "INBOX" ∧
                   ∀ n, n ∈ ["!Label_7"; "@unread"] → narrows shelf t n).
Proof.
  split; [vm_compute; reflexivity|].
  destruct (pages_list_mailbox ascii_lower shelf "INBOX+!Label_7+@unread" "INBOX" ["!Label_7"; "@unread"] 2 7)
    as (ts & H1 & H2 & _); [| | | | |exists ts; exact (conj H1 H2)].
  - exact shelf_reachable.
  - vm_compute. reflexivity.
  - unfold MAX_NARROWINGS. simpl. lia.
  - intros t Ht. apply thread_fits_key. revert t Ht. apply forallb_true. vm_compute. reflexivity.
  - apply Nat.ltb_lt. vm_compute. reflexivity.
Defined.

Lemma tabs_agree_witness :
  (λ c, (cc_id c, cc_total c, cc_unread c)) <$> inbox_categories shelf [] =
    [("CATEGORY_PERSONAL", 3%Z, 3%Z); ("CATEGORY_PROMOTIONS", 0%Z, 0%Z); ("CATEGORY_SOCIAL", 1%Z, 0%Z);
     ("CATEGORY_UPDATES", 1%Z, 1%Z); ("CATEGORY_FORUMS", 0%Z, 0%Z)] ∧
  inbox_categories shelf [] = count_inbox_categories shelf [].
Proof. split; [vm_compute; reflexivity|]. apply (tabs_agree ascii_lower). exact shelf_reachable. Defined.
