(* ===== verification/LocalDb.v ===== *)
(** * LocalDb: one account's store, with the tables of local work
    (schema in [migrations/], rows of [outbox.rs], [drafts.rs], [undo.rs]
    and [compositions.rs])

    A transaction is a function on [Db]: the mail tables of [MailStore] and
    the outbox, drafts, undo actions and AI compositions beside them.  JSON
    payloads are kept decoded; of a composition only the columns its draft
    moves are kept. *)

From S2P Require Import Prelude.
From S2P Require Import Domain.
From S2P Require Import MailStore.

(** ** Outbox rows *)

Inductive OutboxOp :=
| ModifyLabels (message_ids : list MessageId) (add remove : list LabelId)
| Trash (message_ids : list MessageId) (previous : list (MessageId * list LabelId))
| Untrash (message_ids : list MessageId)
| Send (draft_id : Z) (raw : string) (thread_id : option ThreadId) (local_message_id : MessageId)
| SyncDraft (draft_id : Z) (from : EmailAddress)
| DeleteDraft (gmail_draft_id : string).

(** [OutboxOp::kind] *)
Definition op_kind (op : OutboxOp) : string :=
  match op with
  | ModifyLabels _ _ _ => "modify_labels"
  | Trash _ _ => "trash"
  | Untrash _ => "untrash"
  | Send _ _ _ _ => "send"
  | SyncDraft _ _ => "sync_draft"
  | DeleteDraft _ => "delete_draft"
  end.
Definition is_send (op : OutboxOp) : bool := String.eqb (op_kind op) "send".

Inductive OpState := Pending | InFlight | FailedOp.
#[export] Instance op_state_eq_dec : EqDecision OpState.
Proof. solve_decision. Defined.

Record OutboxRow := mkOutbox {
  ob_id : Z; ob_op : OutboxOp; ob_created_at : Millis; ob_attempts : Z;
  ob_next_attempt_at : option Millis; ob_state : OpState; ob_last_error : option string;
  ob_claimed_by : option string; ob_lease_until : option Millis }.

(** The columns an UPDATE of the queue writes. *)
Definition set_claim (st : OpState) (by_ : option string) (lease : option Millis) (r : OutboxRow) : OutboxRow :=
  mkOutbox (ob_id r) (ob_op r) (ob_created_at r) (ob_attempts r) (ob_next_attempt_at r) st
    (ob_last_error r) by_ lease.
Definition set_attempts (n : Z) (next : option Millis) (r : OutboxRow) : OutboxRow :=
  mkOutbox (ob_id r) (ob_op r) (ob_created_at r) n next (ob_state r) (ob_last_error r)
    (ob_claimed_by r) (ob_lease_until r).
Definition set_error (e : option string) (r : OutboxRow) : OutboxRow :=
  mkOutbox (ob_id r) (ob_op r) (ob_created_at r) (ob_attempts r) (ob_next_attempt_at r) (ob_state r)
    e (ob_claimed_by r) (ob_lease_until r).

(** ** Drafts *)

Inductive DraftState := Editing | Sending | DraftFailed.
#[export] Instance draft_state_eq_dec : EqDecision DraftState.
Proof. solve_decision. Defined.

Record DraftAttachment := mkDraftAttachment {
  da_path : string; da_filename : string; da_mime_type : string; da_size : Z }.

(** [DraftRecord]; [d_id = 0] for a draft not saved yet. *)
Record DraftRecord := mkDraft {
  d_id : Z; d_gmail_draft_id : option string; d_thread_id : option string;
  d_in_reply_to : option string; d_to : list EmailAddress; d_cc : list EmailAddress;
  d_bcc : list EmailAddress; d_subject : string; d_body_html : string; d_quoted_html : string;
  d_attachments : list DraftAttachment; d_updated_at : Millis; d_state : DraftState;
  d_last_error : option string }.

(** A row: the record, and the columns it does not carry. *)
Record DraftRow := mkDraftRow {
  dr_draft : DraftRecord; dr_dirty : bool; dr_rfc822 : option string }.
Definition dr_id (r : DraftRow) : Z := d_id (dr_draft r).

(** ** Undo actions and compositions *)

Record MessageDiff := mkDiff { df_message : MessageId; df_added : list LabelId; df_removed : list LabelId }.
Record UndoAction := mkUndo { ua_id : Z; ua_kind : string; ua_diffs : list MessageDiff }.

Inductive CompositionStatus := Waiting | Matched | Unmatched | Discarded | Reviewed.
#[export] Instance composition_status_eq_dec : EqDecision CompositionStatus.
Proof. solve_decision. Defined.
Record CompositionRow := mkComposition {
  co_id : Z; co_draft_id : option Z; co_rfc822 : option string; co_status : CompositionStatus;
  co_updated_at : Millis }.

(** ** The database *)

Record Db := mkDb {
  mail : Store;
  outbox : list OutboxRow;
  drafts : list DraftRow;
  server_drafts : gmap string string;      (** draft id -> message id *)
  undo_actions : list UndoAction;
  undo_seq : Z;                            (** AUTOINCREMENT's high-water mark *)
  compositions : list CompositionRow }.

Definition with_mail (x : Store) (d : Db) : Db :=
  mkDb x (outbox d) (drafts d) (server_drafts d) (undo_actions d) (undo_seq d) (compositions d).
Definition with_outbox (x : list OutboxRow) (d : Db) : Db :=
  mkDb (mail d) x (drafts d) (server_drafts d) (undo_actions d) (undo_seq d) (compositions d).
Definition with_drafts (x : list DraftRow) (d : Db) : Db :=
  mkDb (mail d) (outbox d) x (server_drafts d) (undo_actions d) (undo_seq d) (compositions d).
Definition with_server_drafts (x : gmap string string) (d : Db) : Db :=
  mkDb (mail d) (outbox d) (drafts d) x (undo_actions d) (undo_seq d) (compositions d).
Definition with_undo (x : list UndoAction) (seq : Z) (d : Db) : Db :=
  mkDb (mail d) (outbox d) (drafts d) (server_drafts d) x seq (compositions d).
Definition with_compositions (x : list CompositionRow) (d : Db) : Db :=
  mkDb (mail d) (outbox d) (drafts d) (server_drafts d) (undo_actions d) (undo_seq d) x.

Definition empty_db : Db := mkDb empty_store [] [] ∅ [] 0 [].

(** [UPDATE outbox SET ... WHERE p] *)
Definition update_outbox (p : OutboxRow → bool) (f : OutboxRow → OutboxRow) (d : Db) : Db :=
  with_outbox ((λ r, if p r then f r else r) <$> outbox d) d.
Definition delete_outbox (p : OutboxRow → bool) (d : Db) : Db :=
  with_outbox (List.filter (λ r, negb (p r)) (outbox d)) d.
Definition update_drafts (p : DraftRow → bool) (f : DraftRow → DraftRow) (d : Db) : Db :=
  with_drafts ((λ r, if p r then f r else r) <$> drafts d) d.

(** [outbox::enqueue_held], [outbox::enqueue] *)
Definition enqueue_held (op : OutboxOp) (now : Millis) (not_before : option Millis) (d : Db) : Db * Z :=
  let id := next_rowid (ob_id <$> outbox d) in
  (with_outbox (outbox d ++ [mkOutbox id op now 0 not_before Pending None None None]) d, id).
Definition enqueue (op : OutboxOp) (now : Millis) (d : Db) : Db * Z := enqueue_held op now None d.

(** * Local drafts and the AI compositions that follow them
    ([crates/mail-store/src/drafts.rs], the draft functions of
    [compositions.rs]) *)

(** ** Compositions of a draft *)

Definition update_compositions (p : CompositionRow → bool) (f : CompositionRow → CompositionRow) (d : Db) : Db :=
  with_compositions ((λ r, if p r then f r else r) <$> compositions d) d.
Definition of_draft (draft : Z) (r : CompositionRow) : bool := bool_decide (co_draft_id r = Some draft).
Definition waiting_of (draft : Z) (r : CompositionRow) : bool :=
  of_draft draft r && bool_decide (co_status r = Waiting).
Definition set_co_rfc822 (x : option string) (r : CompositionRow) : CompositionRow :=
  mkComposition (co_id r) (co_draft_id r) x (co_status r) (co_updated_at r).

Definition draft_sent (draft : Z) (message_id : string) : Db → Db :=
  update_compositions (waiting_of draft) (set_co_rfc822 (Some message_id)).
Definition draft_unsent (draft : Z) : Db → Db :=
  update_compositions (waiting_of draft) (set_co_rfc822 None).
Definition draft_gone (draft : Z) (sent : bool) (now : Millis) (d : Db) : Db :=
  let d := if sent then d
           else update_compositions (λ r, waiting_of draft r && bool_decide (co_rfc822 r = None))
                  (λ r, mkComposition (co_id r) (co_draft_id r) (co_rfc822 r) Discarded now) d in
  update_compositions (of_draft draft)
    (λ r, mkComposition (co_id r) None (co_rfc822 r) (co_status r) (co_updated_at r)) d.

(** ** Drafts *)

Definition get_row (id : Z) (d : Db) : option DraftRow := find_by dr_id id (drafts d).

(** [get]: what the row holds, the quote being part of the body. *)
Definition get (id : Z) (d : Db) : option DraftRecord := dr_draft <$> get_row id d.

(** The row the INSERT of a new draft writes. *)
Definition new_draft (id : Z) (x : DraftRecord) (now : Millis) : DraftRow :=
  mkDraftRow (mkDraft id None (d_thread_id x) (d_in_reply_to x) (d_to x) (d_cc x) (d_bcc x)
    (d_subject x) (d_body_html x +:+ d_quoted_html x) "" (d_attachments x) now Editing None) true None.
(** The columns the UPDATE of a saved draft writes. *)
Definition edited_draft (x : DraftRecord) (now : Millis) (r : DraftRow) : DraftRow :=
  let o := dr_draft r in
  mkDraftRow (mkDraft (d_id o) (d_gmail_draft_id o) (d_thread_id o) (d_in_reply_to o) (d_to x) (d_cc x)
    (d_bcc x) (d_subject x) (d_body_html x +:+ d_quoted_html x) "" (d_attachments x) now Editing None)
    true (dr_rfc822 r).

Definition save (x : DraftRecord) (now : Millis) (d : Db) : StoreResult (Db * Z) :=
  if bool_decide (d_id x = 0%Z)
  then let id := next_rowid (dr_id <$> drafts d) in
       Ok (with_drafts (drafts d ++ [new_draft id x now]) d, id)
  else match d_state <$> get (d_id x) d with
       | None => Err (NotFoundError "draft")
       | Some Sending => Err (Invalid "this draft is being sent")
       | Some _ =>
           Ok (update_drafts (λ r, bool_decide (dr_id r = d_id x)) (edited_draft x now) d, d_id x)
       end.

(** [list]: [ORDER BY updated_at DESC, id DESC], those being sent left out. *)
Definition newest_first (a b : DraftRecord) : Prop :=
  (d_updated_at b < d_updated_at a ∨ d_updated_at a = d_updated_at b ∧ d_id b ≤ d_id a)%Z.
#[export] Instance newest_first_dec a b : Decision (newest_first a b).
Proof. unfold newest_first. apply _. Defined.
Definition list_drafts (d : Db) : list DraftRecord :=
  merge_sort newest_first
    (List.filter (λ x, negb (bool_decide (d_state x = Sending))) (dr_draft <$> drafts d)).

(** [delete] *)
Definition delete_draft (id : Z) (d : Db) : Db :=
  with_drafts (List.filter (λ r, negb (bool_decide (dr_id r = id))) (drafts d)) d.

Definition discard (id : Z) (now : Millis) (d : Db) : Db :=
  match get id d with
  | None => d
  | Some x =>
      let d := delete_draft id (draft_gone id (bool_decide (d_state x = Sending)) now d) in
      match d_gmail_draft_id x with
      | Some g => (enqueue (DeleteDraft g) now d).1
      | None => d
      end
  end.

Definition set_dirty (b : bool) (r : DraftRow) : DraftRow := mkDraftRow (dr_draft r) b (dr_rfc822 r).
Definition is_dirty (r : DraftRow) : bool :=
  dr_dirty r && negb (bool_decide (d_state (dr_draft r) = Sending)).
Definition take_dirty (d : Db) : Db * list Z :=
  (update_drafts is_dirty (set_dirty false) d, dr_id <$> List.filter is_dirty (drafts d)).
Definition set_clean (id : Z) : Db → Db :=
  update_drafts (λ r, bool_decide (dr_id r = id)) (set_dirty false).

(** [set_gmail_draft_id]: the column is UNIQUE. *)
Definition set_gmail_draft_id (id : Z) (g : option string) (d : Db) : StoreResult Db :=
  if List.existsb (λ r, negb (bool_decide (dr_id r = id)) &&
                        bool_decide (is_Some g ∧ d_gmail_draft_id (dr_draft r) = g)) (drafts d) &&
     List.existsb (λ r, bool_decide (dr_id r = id)) (drafts d)
  then Err (Sqlite "UNIQUE constraint failed: drafts.gmail_draft_id")
  else Ok (update_drafts (λ r, bool_decide (dr_id r = id))
    (λ r, let o := dr_draft r in
          mkDraftRow (mkDraft (d_id o) g (d_thread_id o) (d_in_reply_to o) (d_to o) (d_cc o) (d_bcc o)
            (d_subject o) (d_body_html o) (d_quoted_html o) (d_attachments o) (d_updated_at o)
            (d_state o) (d_last_error o)) (dr_dirty r) (dr_rfc822 r)) d).

Definition set_state (id : Z) (st : DraftState) (error : option string) : Db → Db :=
  update_drafts (λ r, bool_decide (dr_id r = id))
    (λ r, let o := dr_draft r in
          mkDraftRow (mkDraft (d_id o) (d_gmail_draft_id o) (d_thread_id o) (d_in_reply_to o) (d_to o)
            (d_cc o) (d_bcc o) (d_subject o) (d_body_html o) (d_quoted_html o) (d_attachments o)
            (d_updated_at o) st error) (dr_dirty r) (dr_rfc822 r)).

Definition set_rfc822_id (id : Z) (message_id : string) (d : Db) : Db :=
  draft_sent id message_id
    (update_drafts (λ r, bool_decide (dr_id r = id))
       (λ r, mkDraftRow (dr_draft r) (dr_dirty r) (Some message_id)) d).

(** [INSERT OR REPLACE] in the order listed: the last one wins. *)
Definition replace_server_drafts (l : list (string * string)) (d : Db) : Db :=
  with_server_drafts (foldl (λ m '(draft, message), <[draft := message]> m) ∅ l) d.
Definition local_for_server (g : string) (d : Db) : option Z :=
  dr_id <$> List.find (λ r, bool_decide (d_gmail_draft_id (dr_draft r) = Some g)) (drafts d).
