(* ===== verification/Outbox.v ===== *)
(** * Outbox: local mutations waiting to reach the provider
    ([crates/mail-store/src/outbox.rs])

    Several drainers share the queue: an op is claimed in the transaction
    that picks it, only while nothing else is in flight, and only its
    claimant records its outcome.  The lock files by which one drainer tells
    that another has died are outside the model: [is_gone] is a parameter. *)

From S2P Require Import Prelude.
From S2P Require Import Domain.
From S2P Require Import MailStore.
From S2P Require Import LocalDb.

Definition LEASE_MS : Millis := 60000.
Definition LEASE_RENEW_MS : Millis := 15000.

Record QueuedOp := mkQueued { q_id : Z; q_op : OutboxOp; q_attempts : Z }.
Inductive Claim := Ready (op : QueuedOp) | Idle | Busy.
Record OutboxCounts := mkCounts { c_pending : Z; c_failed : Z }.

Definition state_is (st : OpState) (r : OutboxRow) : bool := bool_decide (ob_state r = st).
Definition by_id (id : Z) (r : OutboxRow) : bool := bool_decide (ob_id r = id).
Definition later_than (now : Millis) (r : OutboxRow) : bool :=
  match ob_next_attempt_at r with Some at_ => (now <? at_)%Z | None => false end.

(** A send held for Undo Send: never tried, its time not come. *)
Definition held (now : Millis) (r : OutboxRow) : bool :=
  is_send (ob_op r) && bool_decide (ob_attempts r = 0%Z) && later_than now r.

(** [ORDER BY id] *)
Definition outbox_le (a b : OutboxRow) : Prop := (ob_id a ≤ ob_id b)%Z.
#[export] Instance outbox_le_dec a b : Decision (outbox_le a b).
Proof. unfold outbox_le. apply _. Defined.

Definition next_ready (now : Millis) (d : Db) : option QueuedOp :=
  match merge_sort outbox_le (List.filter (λ r, state_is Pending r && negb (held now r)) (outbox d)) with
  | [] => None
  | r :: _ =>
      if later_than now r then None
      else Some (mkQueued (ob_id r) (ob_op r) (as_u32 (ob_attempts r)))
  end.

Definition in_flight (d : Db) : bool := List.existsb (state_is InFlight) (outbox d).

(** [tx.execute(UPDATE ...)]: the rows it changed, and how many. *)
Definition updated_rows (p : OutboxRow → bool) (d : Db) : nat := count p (outbox d).

Definition claim_next (claimant : string) (now lease_until : Millis) (d : Db) : Db * Claim :=
  if in_flight d then (d, Busy)
  else match next_ready now d with
       | None => (d, Idle)
       | Some op =>
           let p := λ r, by_id (q_id op) r && state_is Pending r in
           (update_outbox p (set_claim InFlight (Some claimant) (Some lease_until)) d,
            if updated_rows p d =? 1 then Ready op else Idle)
       end.

Definition claimed_by (id : Z) (claimant : string) (r : OutboxRow) : bool :=
  by_id id r && state_is InFlight r && bool_decide (ob_claimed_by r = Some claimant).
Definition renew (id : Z) (claimant : string) (lease_until : Millis) (d : Db) : Db * bool :=
  (update_outbox (claimed_by id claimant)
     (λ r, set_claim (ob_state r) (ob_claimed_by r) (Some lease_until) r) d,
   updated_rows (claimed_by id claimant) d =? 1).
Definition holds (id : Z) (claimant : string) (d : Db) : bool :=
  List.existsb (claimed_by id claimant) (outbox d).

(** [recover_in_flight] *)
Definition released (me : string) (is_gone : string → bool) (now : Millis) (r : OutboxRow) : bool :=
  match ob_claimed_by r with
  | None => true
  | Some by_ =>
      if String.eqb by_ me then true
      else match ob_lease_until r with
           | None => true
           | Some l => (l <=? now)%Z || is_gone by_
           end
  end.
Definition release (r : OutboxRow) : OutboxRow :=
  set_attempts (ob_attempts r + Z.b2z (is_send (ob_op r))) (ob_next_attempt_at r)
    (set_claim Pending None None r).
Definition recover_in_flight (me : string) (is_gone : string → bool) (now : Millis) (d : Db) : Db * nat :=
  let p := λ r, state_is InFlight r && released me is_gone now r in
  (update_outbox p release d, updated_rows p d).

(** *** Undo Send *)

Definition send_of (draft : Z) (r : OutboxRow) : bool :=
  match ob_op r with Send id _ _ _ => bool_decide (id = draft) | _ => false end.
Definition held_send (now : Millis) (r : OutboxRow) : bool := state_is Pending r && held now r.
Definition find_held (draft : Z) (now : Millis) (d : Db) : option OutboxRow :=
  List.find (λ r, held_send now r && send_of draft r) (outbox d).
Definition send_held_until (draft : Z) (now : Millis) (d : Db) : option Millis :=
  find_held draft now d ≫= ob_next_attempt_at.
Definition held_sends (now : Millis) (d : Db) : Z := as_u32 (Z.of_nat (count (held_send now) (outbox d))).
Definition unsent_sends (d : Db) : Z :=
  as_u32 (Z.of_nat (count (λ r, is_send (ob_op r) &&
    (state_is Pending r && bool_decide (ob_attempts r = 0%Z) || state_is InFlight r)) (outbox d))).
Definition release_held_sends (now : Millis) (d : Db) : Db * nat :=
  (update_outbox (held_send now) (λ r, set_attempts (ob_attempts r) None r) d,
   updated_rows (held_send now) d).

(** *** Retries and counts *)

Definition next_retry_at (d : Db) : option Millis :=
  foldr (λ r acc, match ob_next_attempt_at r, acc with
                  | Some a, Some b => Some (Z.min a b)
                  | Some a, None => Some a
                  | None, _ => acc
                  end) None (List.filter (state_is Pending) (outbox d)).
Definition retry_later (id : Z) (next_attempt_at : Millis) (error : string) : Db → Db :=
  update_outbox (by_id id) (λ r, set_error (Some error)
    (set_attempts (ob_attempts r + 1) (Some next_attempt_at) (set_claim Pending None None r))).
Definition counts (d : Db) : OutboxCounts :=
  mkCounts (as_u32 (Z.of_nat (count (state_is Pending) (outbox d))))
           (as_u32 (Z.of_nat (count (state_is FailedOp) (outbox d)))).
Definition clear_failed (d : Db) : Db * nat :=
  (delete_outbox (state_is FailedOp) d, updated_rows (state_is FailedOp) d).
Definition has_pending_draft_sync (draft : Z) (d : Db) : bool :=
  List.existsb (λ r, state_is Pending r &&
                     match ob_op r with SyncDraft id _ => bool_decide (id = draft) | _ => false end) (outbox d).

(** *** Labels of messages *)

Definition current_labels (s : Store) (m : MessageId) : list LabelId :=
  match find_message s m with Some r => message_label_ids s (ms_id r) | None => [] end.

(** The messages of a thread, [ORDER BY m.id]. *)
Definition rowid_le (a b : MessageRow) : Prop := (ms_id a ≤ ms_id b)%Z.
#[export] Instance rowid_le_dec a b : Decision (rowid_le a b).
Proof. unfold rowid_le. apply _. Defined.
Definition thread_message_ids (s : Store) (t : ThreadId) : list MessageId :=
  match find_thread s t with
  | Some r => ms_gmail_id <$> merge_sort rowid_le
                (List.filter (λ m, bool_decide (ms_thread m = th_id r)) (messages s))
  | None => []
  end.
Definition would_change (before add remove : list LabelId) : bool :=
  List.existsb (λ l, negb (bool_decide (l ∈ before))) add ||
  List.existsb (λ l, bool_decide (l ∈ before)) remove.
Definition affected_messages (s : Store) (ts : list ThreadId) (add remove : list LabelId) :
    list (MessageId * list LabelId) :=
  List.filter (λ '(_, before), would_change before add remove)
    ((λ m, (m, current_labels s m)) <$> (ts ≫= thread_message_ids s)).

(** *** Outcomes *)

(** [complete]: a sent draft goes with its server copy. *)
Definition find_op (id : Z) (d : Db) : option OutboxRow := find_by ob_id id (outbox d).
Definition complete (id : Z) (d : Db) : Db :=
  let d := match find_op id d with
           | Some r => match ob_op r with
                       | Send draft _ _ _ => discard draft (ob_created_at r) d
                       | _ => d
                       end
           | None => d
           end in
  delete_outbox (by_id id) d.

Section outcomes.
Context (to_lowercase : string → string).

(** [w.modify_message_labels] over a list of messages. *)
Fixpoint modify_each (ids : list (MessageId * (list LabelId * list LabelId))) (w : MailWriter) :
    StoreResult MailWriter :=
  match ids with
  | [] => Ok w
  | (m, (add, remove)) :: ids =>
      '(w, _) ← modify_message_labels m add remove w; modify_each ids w
  end.

(** Restore recorded labels, each against the labels of the moment. *)
Fixpoint restore_each (previous : list (MessageId * list LabelId)) (w : MailWriter) : StoreResult MailWriter :=
  match previous with
  | [] => Ok w
  | (m, labels) :: previous =>
      '(w, _) ← modify_message_labels m labels (current_labels (tx w) m) w; restore_each previous w
  end.

(** [fail]: the local effect undone, the op kept as failed. *)
Definition undo_op (op : OutboxOp) (w : MailWriter) : StoreResult MailWriter :=
  match op with
  | ModifyLabels ids add remove => modify_each ((λ m, (m, (remove, add))) <$> ids) w
  | Trash _ previous => restore_each previous w
  | Untrash ids => modify_each ((λ m, (m, ([TRASH], []))) <$> ids) w
  | Send _ _ _ local => Ok (delete_message local w).1
  | SyncDraft _ _ | DeleteDraft _ => Ok w
  end.
Definition undo_draft (op : OutboxOp) (error : string) (d : Db) : Db :=
  match op with
  | Send draft _ _ _ => set_state draft DraftFailed (Some error) d
  | _ => d
  end.
Definition fail (id : Z) (error : string) (d : Db) : StoreResult (Db * ThreadChanges) :=
  r ← ok_or (Sqlite "Query returned no rows") (find_op id d);
  w ← undo_op (ob_op r) (writer_new (mail d));
  '(s, changes) ← finish to_lowercase w;
  let d := undo_draft (ob_op r) error (with_mail s d) in
  Ok (update_outbox (by_id id) (λ r, set_error (Some error) (set_claim FailedOp None None r)) d, changes).

(** [cancel_send] *)
Definition cancel_send (draft : Z) (now : Millis) (d : Db) : StoreResult (Db * option ThreadChanges) :=
  match find_held draft now d with
  | None => Ok (d, None)
  | Some r =>
      match ob_op r with
      | Send _ _ _ local =>
          let d := delete_outbox (by_id (ob_id r)) d in
          '(s, changes) ← finish to_lowercase (delete_message local (writer_new (mail d))).1;
          let d := set_state draft Editing None (with_mail s d) in
          Ok (draft_unsent draft d, Some changes)
      | _ => Ok (d, None)
      end
  end.
End outcomes.

(** * Recorded actions and the provider ops that replay them
    ([crates/mail-store/src/undo.rs]) *)

Definition KEEP : Z := 50.
Definition BATCH : nat := 1000.

(** [MessageDiff::inverse] *)
Definition inverse (d : MessageDiff) : MessageDiff := mkDiff (df_message d) (df_removed d) (df_added d).
Definition diff_empty (d : MessageDiff) : bool :=
  match df_added d, df_removed d with [], [] => true | _, _ => false end.

Definition record (kind : string) (diffs : list MessageDiff) (d : Db) : Db * Z :=
  let id := (undo_seq d + 1)%Z in
  (with_undo (List.filter (λ a, negb (ua_id a <=? id - KEEP)%Z) (undo_actions d ++ [mkUndo id kind diffs])) id d,
   id).
Definition get_action (id : Z) (d : Db) : option UndoAction := find_by ua_id id (undo_actions d).

(** ** Grouping by change

    A [BTreeMap] keyed by the pair of label lists, in the order of [Ord] on
    [(Vec<LabelId>, Vec<LabelId>)]: lexicographic, by bytes. *)
Fixpoint labels_compare (a b : list LabelId) : comparison :=
  match a, b with
  | [], [] => Eq
  | [], _ :: _ => Lt
  | _ :: _, [] => Gt
  | x :: a, y :: b => match String.compare x y with Eq => labels_compare a b | c => c end
  end.
Definition change_key : Type := list LabelId * list LabelId.
Definition key_compare (a b : change_key) : comparison :=
  match labels_compare a.1 b.1 with Eq => labels_compare a.2 b.2 | c => c end.

(** [groups.entry(k).or_default().push(m)] *)
Fixpoint push_group (k : change_key) (m : MessageId) (gs : list (change_key * list MessageId)) :
    list (change_key * list MessageId) :=
  match gs with
  | [] => [(k, [m])]
  | (k', ms) :: gs' =>
      match key_compare k k' with
      | Lt => (k, [m]) :: gs
      | Eq => (k', ms ++ [m]) :: gs'
      | Gt => (k', ms) :: push_group k m gs'
      end
  end.
Definition group_diffs (diffs : list MessageDiff) : list (change_key * list MessageId) :=
  foldl (λ gs d, push_group (df_added d, df_removed d) (df_message d) gs) []
    (List.filter (λ d, negb (diff_empty d)) diffs).

Definition without (l : LabelId) (ls : list LabelId) : list LabelId :=
  List.filter (λ x, negb (bool_decide (x = l))) ls.

Definition modify_op (ids : list MessageId) (add remove : list LabelId) : list OutboxOp :=
  match add, remove with [], [] => [] | _, _ => [ModifyLabels ids add remove] end.

(** The ops of one group. *)
Definition group_ops (s : Store) (g : change_key * list MessageId) : list OutboxOp :=
  let '((add, remove), ids) := g in
  let untrash := bool_decide (TRASH ∈ remove) in
  let remove := if untrash then without TRASH remove else remove in
  let trash := bool_decide (TRASH ∈ add) in
  let add' := if trash then without TRASH add else add in
  let remove' := if trash then without INBOX remove else remove in
  (if untrash then [Untrash ids] else []) ++
  (if trash then [Trash ids ((λ m, (m, current_labels s m)) <$> ids)] else []) ++
  modify_op ids add' remove'.
Definition provider_ops (s : Store) (diffs : list MessageDiff) : list OutboxOp :=
  group_diffs diffs ≫= group_ops s.

(** [message_ids.chunks(BATCH)] *)
Fixpoint chunks_fuel {A} (fuel n : nat) (l : list A) : list (list A) :=
  match fuel, l with
  | O, _ | _, [] => []
  | S fuel, _ => take n l :: chunks_fuel fuel n (drop n l)
  end.
Definition chunks {A} (n : nat) (l : list A) : list (list A) := chunks_fuel (length l) n l.

Definition batched_ops (diffs : list MessageDiff) : list OutboxOp :=
  '((add, remove), ids) ← group_diffs diffs;
  chunk ← chunks BATCH ids;
  [ModifyLabels chunk add remove].

Example chunks_ex : chunks 2 [1; 2; 3; 4; 5] = [[1; 2]; [3; 4]; [5]].
Proof. reflexivity. Qed.
