(* ===== verification/OutboxProperties.v ===== *)
(** * OutboxProperties: order, exclusion and at-most-once delivery

    Any number of drainers, each naming itself, run transactions on one
    queue in any order; a drainer may die or lose its lease between any two
    of them.  One op is in flight at a time, whoever claims; an op is
    claimed only when nothing older waits but held sends; a claim ends only
    by its claimant's outcome or by a recovery that may release it; and a
    queued message reaches the provider at most once. *)

From S2P Require Import Prelude.
From S2P Require Import Domain.
From S2P Require Import MailStore.
From S2P Require Import StoreInvariant.
From S2P Require Import Finish.
From S2P Require Import WriterProperties.
From S2P Require Import LocalDb.
From S2P Require Import Outbox.

(** ** Transactions on the queue *)

Inductive QueueTx :=
| TxEnqueue (op : OutboxOp) (now : Millis) (not_before : option Millis)
| TxClaim (claimant : string) (now lease_until : Millis)
| TxRenew (id : Z) (claimant : string) (lease_until : Millis)
| TxComplete (id : Z) (claimant : string)
| TxRetry (id : Z) (claimant : string) (at_ : Millis) (error : string)
| TxFail (id : Z) (claimant error : string)
| TxRecover (me : string) (is_gone : string → bool) (now : Millis)
| TxCancelSend (draft : Z) (now : Millis)
| TxReleaseHeld (now : Millis)
| TxClearFailed
| TxDiscardDraft (draft : Z) (now : Millis).

Section queue.
Context (to_lowercase : string → string).

(** One transaction: an error rolls it back, an outcome is recorded only
    while its claimant holds the op. *)
Definition queue_step (d : Db) (t : QueueTx) : Db :=
  match t with
  | TxEnqueue op now nb => (enqueue_held op now nb d).1
  | TxClaim c now lease => (claim_next c now lease d).1
  | TxRenew id c lease => (renew id c lease d).1
  | TxComplete id c => if holds id c d then complete id d else d
  | TxRetry id c at_ e => if holds id c d then retry_later id at_ e d else d
  | TxFail id c e =>
      if holds id c d then match fail to_lowercase id e d with Ok (d', _) => d' | Err _ => d end else d
  | TxRecover me gone now => (recover_in_flight me gone now d).1
  | TxCancelSend draft now =>
      match cancel_send to_lowercase draft now d with Ok (d', _) => d' | Err _ => d end
  | TxReleaseHeld now => (release_held_sends now d).1
  | TxClearFailed => (clear_failed d).1
  | TxDiscardDraft draft now => discard draft now d
  end.

(** ** What each transaction does to the rows *)

(** Every transaction maps, drops and appends rows: [new] tells a row it
    appends (pending, never tried), [kept] relates a row to its update. *)
Record rows_change (kept : OutboxRow → OutboxRow → Prop) (new : OutboxRow → Prop) (l l' : list OutboxRow) : Prop := {
  rcg_rows : ∀ r', r' ∈ l' → (∃ r, r ∈ l ∧ kept r r') ∨ (new r' ∧ ob_id r' = next_rowid (ob_id <$> l));
  rcg_ids : NoDup (ob_id <$> l) → NoDup (ob_id <$> l') }.

Lemma rows_change_refl (kept : OutboxRow → OutboxRow → Prop) new l :
  (∀ r, kept r r) → rows_change kept new l l.
Proof. intros H. constructor; eauto. Qed.

Lemma rows_change_update (kept : OutboxRow → OutboxRow → Prop) new p f l :
  (∀ r, ob_id (f r) = ob_id r) → (∀ r, r ∈ l → p r = true → kept r (f r)) → (∀ r, kept r r) →
  rows_change kept new l ((λ r, if p r then f r else r) <$> l).
Proof.
  intros Hf Hk Hr. constructor.
  - intros r' (r & -> & Hin)%list_elem_of_fmap. left. exists r. split; [done|].
    destruct (p r) eqn:E; auto.
  - intros Hn. rewrite fmap_map_key; [done|]. intros r _. by case_match.
Qed.
Lemma rows_change_filter (kept : OutboxRow → OutboxRow → Prop) new p l :
  (∀ r, kept r r) → rows_change kept new l (List.filter p l).
Proof.
  intros Hr. constructor; [|apply NoDup_fmap_List_filter].
  intros r' [_ Hin]%elem_of_List_filter. eauto.
Qed.
Lemma rows_change_append (kept : OutboxRow → OutboxRow → Prop) (new : OutboxRow → Prop) r l :
  (∀ r, kept r r) → new r → ob_id r = next_rowid (ob_id <$> l) → rows_change kept new l (l ++ [r]).
Proof.
  intros Hr Hnew Hid. assert (ob_id r ∉ ob_id <$> l) by (rewrite Hid; apply next_rowid_not_in).
  constructor; [|intros; by apply NoDup_fmap_snoc].
  intros r' [Hin| ->%list_elem_of_singleton]%elem_of_app; eauto.
Qed.

(** A new row is pending and untried. *)
Definition new_row_of (t : QueueTx) (r : OutboxRow) : Prop :=
  ob_state r = Pending ∧ ob_attempts r = 0%Z ∧
  (is_send (ob_op r) = true → ∃ now nb, t = TxEnqueue (ob_op r) now nb).

(** How one transaction may change a row that stays. *)
Inductive row_step (t : QueueTx) (r r' : OutboxRow) : Prop :=
| row_same : ob_state r' = ob_state r → ob_claimed_by r' = ob_claimed_by r →
    ob_attempts r' = ob_attempts r → row_step t r r'
| row_claimed c now lease : t = TxClaim c now lease → ob_state r = Pending →
    ob_state r' = InFlight → ob_claimed_by r' = Some c → ob_attempts r' = ob_attempts r → row_step t r r'
| row_retried id c at_ e : t = TxRetry id c at_ e → claimed_by id c r = true →
    ob_state r' = Pending → ob_attempts r' = (ob_attempts r + 1)%Z → row_step t r r'
| row_released me gone now : t = TxRecover me gone now → ob_state r = InFlight →
    released me gone now r = true → ob_state r' = Pending →
    ob_attempts r' = (ob_attempts r + Z.b2z (is_send (ob_op r)))%Z → row_step t r r'
| row_failed id c e : t = TxFail id c e → claimed_by id c r = true →
    ob_state r' = FailedOp → ob_attempts r' = ob_attempts r → row_step t r r'.
Definition row_kept (t : QueueTx) (r r' : OutboxRow) : Prop :=
  ob_id r' = ob_id r ∧ ob_op r' = ob_op r ∧ row_step t r r'.

Lemma row_kept_refl t r : row_kept t r r.
Proof. split_and!; [done..|by apply row_same]. Qed.

Lemma outbox_discard draft now d :
  outbox (discard draft now d) = outbox d ∨
  ∃ g, outbox (discard draft now d) =
       outbox d ++ [mkOutbox (next_rowid (ob_id <$> outbox d)) (DeleteDraft g) now 0 None Pending None None None].
Proof.
  unfold discard. destruct (get draft d) as [x|]; [|by left].
  destruct (d_gmail_draft_id x) as [g|], (bool_decide (d_state x = Sending)); simpl; eauto.
Qed.

Lemma outbox_complete id d :
  ∃ l, outbox (complete id d) = List.filter (λ r, negb (by_id id r)) l ∧
    (l = outbox d ∨ ∃ g now, l = outbox d ++
       [mkOutbox (next_rowid (ob_id <$> outbox d)) (DeleteDraft g) now 0 None Pending None None None]).
Proof.
  unfold complete. eexists. split; [done|]. simpl.
  destruct (find_op id d) as [r|]; [|by left]. destruct (ob_op r); try by left.
  destruct (outbox_discard draft_id (ob_created_at r) d) as [H|[g H]]; [by left|right; eauto].
Qed.

Lemma outbox_fail id e d d' c :
  fail to_lowercase id e d = Ok (d', c) →
  outbox d' = outbox (update_outbox (by_id id) (λ r, set_error (Some e) (set_claim FailedOp None None r)) d).
Proof.
  unfold fail. intros (r & _ & (w & _ & ([s ch] & _ & [= <- _])%bind_Ok)%bind_Ok)%bind_Ok.
  simpl. by destruct (ob_op r).
Qed.

Lemma outbox_cancel draft now d d' c :
  cancel_send to_lowercase draft now d = Ok (d', c) →
  outbox d' = outbox d ∨ ∃ r, r ∈ outbox d ∧ held_send now r = true ∧ send_of draft r = true ∧
                             outbox d' = List.filter (λ x, negb (by_id (ob_id r) x)) (outbox d).
Proof.
  unfold cancel_send, find_held. destruct (List.find _ (outbox d)) as [r|] eqn:Er; [|intros [= <- _]; by left].
  apply List.find_some in Er as [Hr [Hh Hs]%andb_true_iff]. apply list_elem_of_In in Hr.
  destruct (ob_op r); try (intros [= <- _]; by left).
  intros ([s ch] & _ & [= <- _])%bind_Ok. right. exists r. done.
Qed.

Lemma unique_row d id r r' :
  NoDup (ob_id <$> outbox d) → r ∈ outbox d → r' ∈ outbox d → by_id id r = true → by_id id r' = true → r = r'.
Proof.
  intros Hn Hr Hr' E%bool_decide_eq_true E'%bool_decide_eq_true.
  apply (NoDup_fmap_inj ob_id (outbox d)); [done..|congruence].
Qed.

(** Only the held row answers to its id. *)
Lemma holds_row d id c r :
  NoDup (ob_id <$> outbox d) → holds id c d = true → r ∈ outbox d → by_id id r = true →
  claimed_by id c r = true.
Proof.
  intros Hn (x & Hx & Hc)%existsb_true Hr Hid. rewrite (unique_row d id r x Hn Hr Hx Hid); [done|].
  unfold claimed_by in Hc. by apply andb_true_iff in Hc as [[? _]%andb_true_iff _].
Qed.

Lemma queue_step_rows d t :
  NoDup (ob_id <$> outbox d) →
  rows_change (row_kept t) (new_row_of t) (outbox d) (outbox (queue_step d t)).
Proof.
  intros Hn. pose proof (row_kept_refl t) as Hrefl. destruct t; simpl.
  - apply rows_change_append; simpl; [done| |done]. split_and!; eauto.
  - unfold claim_next. destruct (in_flight d); [by apply rows_change_refl|].
    destruct (next_ready now d) as [q|]; [|by apply rows_change_refl]. simpl.
    apply rows_change_update; [done| |done]. intros r Hr [_ Hp%bool_decide_eq_true]%andb_true_iff.
    split_and!; [done..|]. by eapply row_claimed.
  - apply rows_change_update; [done| |done]. intros r Hr _. split_and!; [done..|]. by apply row_same.
  - destruct (holds id claimant d); [|by apply rows_change_refl].
    destruct (outbox_complete id d) as (l & -> & [->|(g & now & ->)]); [by apply rows_change_filter|].
    destruct (rows_change_append (row_kept (TxComplete id claimant)) (new_row_of (TxComplete id claimant))
      (mkOutbox (next_rowid (ob_id <$> outbox d)) (DeleteDraft g) now 0 None Pending None None None)
      (outbox d)) as [H1 H2]; [done| |done|].
    { split_and!; [done..|]. by intros. }
    constructor; [intros r' [_ Hr']%elem_of_List_filter; by apply H1|].
    intros _. by apply NoDup_fmap_List_filter, H2.
  - destruct (holds id claimant d) eqn:Hh; [|by apply rows_change_refl].
    apply rows_change_update; [done| |done]. intros r Hr Hid. split_and!; [done..|].
    eapply row_retried; [done|by eapply holds_row|done..].
  - destruct (holds id claimant d) eqn:Hh; [|by apply rows_change_refl].
    destruct (fail to_lowercase id error d) as [[d' c]|] eqn:Ef; [|by apply rows_change_refl].
    rewrite (outbox_fail _ _ _ _ _ Ef). apply rows_change_update; [done| |done].
    intros r Hr Hid. split_and!; [done..|]. eapply row_failed; [done|by eapply holds_row|done..].
  - apply rows_change_update; [done| |done].
    intros r Hr [Hs%bool_decide_eq_true Hrel]%andb_true_iff. split_and!; [done..|].
    by eapply row_released.
  - destruct (cancel_send to_lowercase draft now d) as [[d' c]|] eqn:Ec; [|by apply rows_change_refl].
    destruct (outbox_cancel _ _ _ _ _ Ec) as [->|(r & _ & _ & _ & ->)];
      [by apply rows_change_refl|by apply rows_change_filter].
  - apply rows_change_update; [done| |done]. intros r Hr _. split_and!; [done..|]. by apply row_same.
  - by apply rows_change_filter.
  - destruct (outbox_discard draft now d) as [->|[g ->]]; [by apply rows_change_refl|].
    apply rows_change_append; [done| |done]. split_and!; [done..|]. by intros.
Qed.

(** ** Reachable queues *)

Definition run_queue (ts : list QueueTx) : Db := foldl queue_step empty_db ts.

Lemma run_queue_snoc ts t : run_queue (ts ++ [t]) = queue_step (run_queue ts) t.
Proof. unfold run_queue. by rewrite foldl_app. Qed.

Lemma run_queue_ids ts : NoDup (ob_id <$> outbox (run_queue ts)).
Proof.
  induction ts as [|t ts IH] using rev_ind; [apply NoDup_nil_2|].
  rewrite run_queue_snoc. eapply rcg_ids; [|done]. by apply queue_step_rows.
Qed.

(** ** One op in flight *)

Definition one_in_flight (d : Db) : Prop :=
  ∀ r1 r2, r1 ∈ outbox d → r2 ∈ outbox d → ob_state r1 = InFlight → ob_state r2 = InFlight → r1 = r2.

Lemma next_ready_row now d q :
  next_ready now d = Some q →
  ∃ r, r ∈ outbox d ∧ ob_state r = Pending ∧ later_than now r = false ∧
    q = mkQueued (ob_id r) (ob_op r) (as_u32 (ob_attempts r)) ∧
    ∀ r2, r2 ∈ outbox d → ob_state r2 = Pending → (ob_id r2 < ob_id r)%Z → held now r2 = true.
Proof.
  unfold next_ready. set (l := List.filter _ (outbox d)).
  assert (StronglySorted outbox_le (merge_sort outbox_le l)) as Hs.
  { apply StronglySorted_merge_sort; unfold outbox_le; [intros ???; lia|intros ??; lia]. }
  assert (∀ x, x ∈ merge_sort outbox_le l ↔ x ∈ l) as Hin by apply elem_of_merge_sort.
  destruct (merge_sort outbox_le l) as [|r l'] eqn:El; [done|].
  destruct (later_than now r) eqn:Hl; [done|]. intros [= <-]. exists r.
  destruct (proj1 (elem_of_List_filter _ _ _) (proj1 (Hin r) (list_elem_of_here _ _))) as [Hp Hr].
  apply andb_true_iff in Hp as [Hp%bool_decide_eq_true _]. split_and!; [done..|].
  intros r2 Hr2 Hp2 Hlt. destruct (held now r2) eqn:Hh; [done|]. exfalso.
  assert (r2 ∈ r :: l') as Hin2.
  { apply Hin, elem_of_List_filter. split; [|done]. unfold state_is. by rewrite Hp2, Hh. }
  apply StronglySorted_inv in Hs as [_ Hall]. rewrite Forall_forall in Hall.
  apply elem_of_cons in Hin2 as [->|Hin2]; [lia|]. specialize (Hall r2 Hin2). unfold outbox_le in Hall. lia.
Qed.

Lemma in_flight_false d : in_flight d = false → ∀ r, r ∈ outbox d → ob_state r ≠ InFlight.
Proof.
  intros H r Hr Hs. apply existsb_false with (x := r) in H; [|done].
  unfold state_is in H. by rewrite bool_decide_eq_true_2 in H.
Qed.

(** Only a claim starts a call. *)
Lemma row_step_in_flight t r r' :
  row_step t r r' → ob_state r' = InFlight → ob_state r = InFlight ∨ ∃ c now l, t = TxClaim c now l.
Proof.
  intros [] Hs; try congruence; [left; congruence|right; eauto].
Qed.

Lemma claim_one_in_flight c now lease d :
  NoDup (ob_id <$> outbox d) → one_in_flight d → one_in_flight (claim_next c now lease d).1.
Proof.
  intros Hn H1. unfold claim_next. destruct (in_flight d) eqn:Hf; [done|].
  destruct (next_ready now d) as [q|]; [|done]. simpl.
  pose proof (in_flight_false d Hf) as Hnone.
  assert (∀ x x', x ∈ outbox d → x' = (if by_id (q_id q) x && state_is Pending x
      then set_claim InFlight (Some c) (Some lease) x else x) → ob_state x' = InFlight → ob_id x = q_id q) as Hid.
  { intros x x' Hx ->. destruct (by_id (q_id q) x) eqn:E; simpl; [by apply bool_decide_eq_true in E|].
    intros Hs. by destruct (Hnone x Hx). }
  intros r1' r2' (r1 & E1 & Hr1)%list_elem_of_fmap (r2 & E2 & Hr2)%list_elem_of_fmap Hs1 Hs2.
  assert (r1 = r2) as ->; [|congruence].
  apply (NoDup_fmap_inj ob_id (outbox d)); [done..|].
  by rewrite (Hid r1 r1'), (Hid r2 r2').
Qed.

Lemma queue_step_one_in_flight t d :
  NoDup (ob_id <$> outbox d) → one_in_flight d → one_in_flight (queue_step d t).
Proof.
  intros Hn H1. destruct (queue_step_rows d t Hn) as [Hrows Hids]. specialize (Hids Hn).
  destruct t as [ |c now lease| | | | | | | | | ]; try (by apply claim_one_in_flight);
    intros r1' r2' Hr1' Hr2' Hs1 Hs2; apply (NoDup_fmap_inj ob_id _ _ _ Hids Hr1' Hr2');
    destruct (Hrows r1' Hr1') as [(r1 & Hr1 & E1 & _ & Hst1)|[(? & _) _]]; try congruence;
    destruct (Hrows r2' Hr2') as [(r2 & Hr2 & E2 & _ & Hst2)|[(? & _) _]]; try congruence;
    destruct (row_step_in_flight _ _ _ Hst1 Hs1) as [Hf1|(?&?&?&?)]; try done;
    destruct (row_step_in_flight _ _ _ Hst2 Hs2) as [Hf2|(?&?&?&?)]; try done;
    rewrite E1, E2; f_equal; by apply H1.
Qed.

Lemma run_queue_one_in_flight ts : one_in_flight (run_queue ts).
Proof.
  induction ts as [|t ts IH] using rev_ind; [by intros ?? ?%not_elem_of_nil|].
  rewrite run_queue_snoc. apply queue_step_one_in_flight; [apply run_queue_ids|done].
Qed.

(** Whatever transactions drainers, the user and recoveries run on the
    queue, in any order, two drainers never hold an op at once: when an op
    is held in flight by [c], every op in flight is that op, held by [c]. *)
Theorem outbox_exclusive ts id c id' c' :
  holds id c (run_queue ts) = true → holds id' c' (run_queue ts) = true → id' = id ∧ c' = c.
Proof.
  intros (r & Hr & [[Hid Hs]%andb_true_iff Hc]%andb_true_iff)%existsb_true
         (r' & Hr' & [[Hid' Hs']%andb_true_iff Hc']%andb_true_iff)%existsb_true.
  apply bool_decide_eq_true in Hid, Hs, Hc, Hid', Hs', Hc'.
  pose proof (run_queue_one_in_flight ts r r' Hr Hr' Hs Hs') as <-. split; congruence.
Qed.

(** ** Claims *)

Lemma next_ready_none now d :
  next_ready now d = None →
  ∀ r, r ∈ outbox d → ob_state r = Pending → held now r = false →
  ∃ r0, r0 ∈ outbox d ∧ ob_state r0 = Pending ∧ held now r0 = false ∧ (ob_id r0 ≤ ob_id r)%Z ∧
        later_than now r0 = true.
Proof.
  intros Hnone r Hr Hs Hh. unfold next_ready in Hnone. set (l := List.filter _ (outbox d)) in Hnone.
  assert (StronglySorted outbox_le (merge_sort outbox_le l)) as Hsort.
  { apply StronglySorted_merge_sort; unfold outbox_le; [intros ???; lia|intros ??; lia]. }
  assert (r ∈ merge_sort outbox_le l) as Hin.
  { apply elem_of_merge_sort, elem_of_List_filter. split; [|done]. unfold state_is. by rewrite Hs, Hh. }
  assert (∀ x, x ∈ merge_sort outbox_le l → x ∈ l) as Hback by (intros x; apply elem_of_merge_sort).
  destruct (merge_sort outbox_le l) as [|r0 l'] eqn:El; [by apply not_elem_of_nil in Hin|].
  destruct (later_than now r0) eqn:Hl; [|done].
  destruct (proj1 (elem_of_List_filter _ _ _) (Hback r0 (list_elem_of_here _ _))) as [Hp Hr0].
  apply andb_true_iff in Hp as [Hp%bool_decide_eq_true Hh0%negb_true_iff].
  exists r0. split_and!; [done..| |done]. apply elem_of_cons in Hin as [->|Hin]; [lia|].
  apply StronglySorted_inv in Hsort as [_ Hall]. rewrite Forall_forall in Hall. by apply Hall.
Qed.

(** What a claim finds, on every branch: busy iff some op is in
    flight; otherwise the oldest pending op that is no held send is
    taken, marked in flight for the claimant and nothing else changes,
    unless it waits on a retry or there is none, and then nothing
    happens: no op passes an older one but a held send. *)
Theorem claim_next_spec ts c now lease :
  let d := run_queue ts in
  match claim_next c now lease d with
  | (d', Busy) => d' = d ∧ ∃ r, r ∈ outbox d ∧ ob_state r = InFlight
  | (d', Idle) =>
      d' = d ∧ (∀ r, r ∈ outbox d → ob_state r ≠ InFlight) ∧
      (∀ r, r ∈ outbox d → ob_state r = Pending → held now r = false →
         ∃ r0, r0 ∈ outbox d ∧ ob_state r0 = Pending ∧ held now r0 = false ∧
               (ob_id r0 ≤ ob_id r)%Z ∧ later_than now r0 = true)
  | (d', Ready q) =>
      (∀ r, r ∈ outbox d → ob_state r ≠ InFlight) ∧
      ∃ r, r ∈ outbox d ∧ ob_state r = Pending ∧ later_than now r = false ∧
        q = mkQueued (ob_id r) (ob_op r) (as_u32 (ob_attempts r)) ∧
        (∀ r2, r2 ∈ outbox d → ob_state r2 = Pending → (ob_id r2 < ob_id r)%Z → held now r2 = true) ∧
        holds (ob_id r) c d' = true ∧
        d' = update_outbox (by_id (ob_id r)) (set_claim InFlight (Some c) (Some lease)) d
  end.
Proof.
  intros d. pose proof (run_queue_ids ts) as Hn. fold d in Hn. unfold claim_next.
  destruct (in_flight d) eqn:Hf.
  { apply existsb_true in Hf as (r & Hr & Hs%bool_decide_eq_true). eauto. }
  pose proof (in_flight_false d Hf) as Hnone. destruct (next_ready now d) as [q|] eqn:Hq.
  2: { split_and!; [done..|]. by apply next_ready_none. }
  destruct (next_ready_row now d q Hq) as (r & Hr & Hp & Hl & -> & Hold). simpl.
  assert (∀ x, x ∈ outbox d → by_id (ob_id r) x && state_is Pending x = by_id (ob_id r) x) as Hsame.
  { intros x Hx. destruct (by_id (ob_id r) x) eqn:E; [|done]. simpl.
    rewrite (unique_row d (ob_id r) x r Hn Hx Hr E) by (by apply bool_decide_eq_true).
    by apply bool_decide_eq_true. }
  assert (updated_rows (λ x, by_id (ob_id r) x && state_is Pending x) d = 1) as ->.
  { unfold updated_rows. rewrite (count_ext _ (by_id (ob_id r))), count_List_filter by done.
    unfold by_id. by rewrite (List_filter_key ob_id). }
  split; [done|]. exists r. split_and!; [done..| |].
  - apply existsb_true. exists (set_claim InFlight (Some c) (Some lease) r). split.
    + apply list_elem_of_fmap. exists r. split; [|done].
      rewrite Hsame by done. unfold by_id. by rewrite bool_decide_eq_true_2.
    + unfold claimed_by, by_id, state_is. simpl. by rewrite !bool_decide_eq_true_2.
  - unfold update_outbox. f_equal. apply list_fmap_ext. intros i x Hx%list_elem_of_lookup_2.
    by rewrite Hsame.
Qed.

(** ** Ownership *)

Definition still (r : OutboxRow) (c : string) (l : list OutboxRow) : Prop :=
  ∃ r', r' ∈ l ∧ ob_id r' = ob_id r ∧ ob_op r' = ob_op r ∧ ob_state r' = InFlight ∧ ob_claimed_by r' = Some c.

Lemma still_update r c p f l :
  r ∈ l → ob_state r = InFlight → ob_claimed_by r = Some c → p r = false →
  still r c ((λ x, if p x then f x else x) <$> l).
Proof.
  intros Hr Hs Hc Hp. exists r. split_and!; [|done..]. apply list_elem_of_fmap. exists r. by rewrite Hp.
Qed.
Lemma still_filter r c p l :
  r ∈ l → ob_state r = InFlight → ob_claimed_by r = Some c → p r = true → still r c (List.filter p l).
Proof. intros Hr Hs Hc Hp. exists r. split_and!; [|done..]. by apply elem_of_List_filter. Qed.

(** An outcome of another op leaves the row; of this one, it is its
    claimant's. *)
Lemma outcome_cases d r c id c0 :
  NoDup (ob_id <$> outbox d) → r ∈ outbox d → ob_claimed_by r = Some c → holds id c0 d = true →
  (id = ob_id r ∧ c0 = c) ∨ by_id id r = false.
Proof.
  intros Hn Hr Hc Hh. destruct (by_id id r) eqn:E; [|by right]. left.
  pose proof (holds_row d id c0 r Hn Hh Hr E) as [_ Hc0%bool_decide_eq_true]%andb_true_iff.
  apply bool_decide_eq_true in E. split; congruence.
Qed.

(** A claim ends only by its claimant's outcome or by a recovery that
    may release it: after any other transaction of anyone, an op in
    flight is still in flight for the same claimant; a recovery may take
    it only from itself, from a claimant that is gone, or past its lease. *)
Theorem claim_respected ts t r c :
  let d := run_queue ts in
  r ∈ outbox d → ob_state r = InFlight → ob_claimed_by r = Some c →
  (∃ r', r' ∈ outbox (queue_step d t) ∧ ob_id r' = ob_id r ∧ ob_op r' = ob_op r ∧
         ob_state r' = InFlight ∧ ob_claimed_by r' = Some c) ∨
  t = TxComplete (ob_id r) c ∨ (∃ at_ e, t = TxRetry (ob_id r) c at_ e) ∨ (∃ e, t = TxFail (ob_id r) c e) ∨
  (∃ me gone now, t = TxRecover me gone now ∧
     (c = me ∨ gone c = true ∨ ob_lease_until r = None ∨ ∃ l, ob_lease_until r = Some l ∧ (l ≤ now)%Z)).
Proof.
  intros d Hr Hs Hc. pose proof (run_queue_ids ts) as Hn. fold d in Hn.
  fold (still r c (outbox (queue_step d t))).
  assert (r ∈ outbox d → still r c (outbox d)) as Hsame by (intros; exists r; done).
  destruct t as [ | |id c0 lease|id c0|id c0 at_ e|id c0 e|me gone now|draft now|now| |draft now]; simpl.
  - left. exists r. split_and!; [apply elem_of_app; by left|done..].
  - left. unfold claim_next. assert (in_flight d = true) as ->; [|by apply Hsame].
    apply existsb_true. exists r. split; [done|]. by apply bool_decide_eq_true.
  - left. destruct (claimed_by id c0 r) eqn:E; [|by apply still_update].
    exists (set_claim (ob_state r) (ob_claimed_by r) (Some lease) r). split_and!; [|done..].
    apply list_elem_of_fmap. exists r. by rewrite E.
  - destruct (holds id c0 d) eqn:Hh; [|left; by apply Hsame].
    destruct (outcome_cases d r c id c0 Hn Hr Hc Hh) as [[-> ->]|E]; [right; by left|left].
    destruct (outbox_complete id d) as (l & -> & Hl). apply still_filter; [|done..|by rewrite E].
    destruct Hl as [->|(g & now & ->)]; [done|apply elem_of_app; by left].
  - destruct (holds id c0 d) eqn:Hh; [|left; by apply Hsame].
    destruct (outcome_cases d r c id c0 Hn Hr Hc Hh) as [[-> ->]|E]; [right; right; left; eauto|left].
    by apply still_update.
  - destruct (holds id c0 d) eqn:Hh; [|left; by apply Hsame].
    destruct (outcome_cases d r c id c0 Hn Hr Hc Hh) as [[-> ->]|E]; [do 3 right; left; eauto|left].
    destruct (fail to_lowercase id e d) as [[d' ch]|] eqn:Ef; [|by apply Hsame].
    rewrite (outbox_fail _ _ _ _ _ Ef). by apply still_update.
  - destruct (released me gone now r) eqn:E.
    + do 4 right. exists me, gone, now. split; [done|]. unfold released in E. rewrite Hc in E.
      destruct (String.eqb_spec c me) as [->|]; [by left|]. right.
      destruct (ob_lease_until r) as [l|]; [|by right; left].
      apply orb_true_iff in E as [E|E]; [right; right; exists l; split; [done|lia]|by left].
    + left. apply still_update; [done..|]. by rewrite E, andb_false_r.
  - left. destruct (cancel_send to_lowercase draft now d) as [[d' ch]|] eqn:E; [|by apply Hsame].
    destruct (outbox_cancel _ _ _ _ _ E) as [->|(x & Hx & Hh & _ & ->)]; [by apply Hsame|].
    apply still_filter; [done..|]. destruct (by_id (ob_id x) r) eqn:Eid; [|done].
    apply bool_decide_eq_true in Eid. rewrite (NoDup_fmap_inj ob_id _ _ _ Hn Hr Hx Eid) in Hs.
    apply andb_true_iff in Hh as [Hp%bool_decide_eq_true _]. congruence.
  - left. apply still_update; [done..|]. unfold held_send, state_is. by rewrite Hs.
  - left. apply still_filter; [done..|]. unfold state_is. by rewrite Hs.
  - left. destruct (outbox_discard draft now d) as [->|[g ->]]; [by apply Hsame|].
    exists r. split_and!; [apply elem_of_app; by left|done..].
Qed.
End queue.

(** An op claimed by A, its lease lost to B's recovery. *)
Definition demo_claims : list QueueTx :=
  [TxEnqueue (Untrash ["m"]) 0 None; TxEnqueue (DeleteDraft "d") 0 None; TxClaim "A" 1 10; TxClaim "B" 2 11].
Lemma claim_respected_witness :
  let d := run_queue ascii_lower demo_claims in
  let r := mkOutbox 1 (Untrash ["m"]) 0 0 None InFlight None (Some "A") (Some 10%Z) in
  outbox d = [r; mkOutbox 2 (DeleteDraft "d") 0 0 None Pending None None None] ∧
  ∃ r', r' ∈ outbox (queue_step ascii_lower d (TxRecover "B" (λ _, false) 5)) ∧ ob_id r' = 1%Z ∧
        ob_claimed_by r' = Some "A".
Proof.
  cbv zeta. split; [vm_compute; reflexivity|].
  destruct (claim_respected ascii_lower demo_claims (TxRecover "B" (λ _, false) 5)
    (mkOutbox 1 (Untrash ["m"]) 0 0 None InFlight None (Some "A") (Some 10%Z)) "A")
    as [(r' & H1 & H2 & _ & _ & H3)|[H|[(? & ? & H)|[(? & H)|(me & gone & now & H & Hc)]]]];
    try discriminate H.
  - vm_compute. left.
  - reflexivity.
  - reflexivity.
  - exists r'. exact (conj H1 (conj H2 H3)).
  - exfalso. injection H as <- <- <-. destruct Hc as [Hc|[Hc|[Hc|(l & Hl & Hle)]]]; try discriminate.
    simpl in Hl. injection Hl as <-. lia.
Defined.
Lemma outbox_exclusive_witness :
  holds 1 "A" (run_queue ascii_lower demo_claims) = true ∧ (1 = 1 ∧ "A" = "A")%Z.
Proof.
  split; [vm_compute; reflexivity|].
  apply (outbox_exclusive ascii_lower demo_claims); vm_compute; reflexivity.
Defined.
