(* ===== verification/Compose.v ===== *)
(** * Compose: replies, forwards and sending a draft
    ([crates/mail-sync/src/compose.rs], [crates/mail-mime/src/build.rs])

    A draft is built from a stored message, frozen into MIME and queued in
    the outbox, with a copy in Sent.  Files, the MIME writer, the HTML
    conversions, base64 and [to_lowercase] are parameters, random tokens are
    inputs.  Slicing a string inside a character panics: [None]. *)

From Stdlib Require Import Ascii.
From S2P Require Import Prelude.
From S2P Require Import Domain.
From S2P Require Import Text.
From S2P Require Import Time.
From S2P Require Import MailStore.
From S2P Require Import Read.
From S2P Require Import LocalDb.
From S2P Require Import Outbox.

(** ** Subjects and references *)

(** [a.eq_ignore_ascii_case(b)] is [nocase_eqb]. *)
Definition strip_prefix_ci (s prefix : string) : option (option string) :=
  let n := String.length prefix in
  if n <=? String.length s then
    if char_boundary n s
    then Some (if nocase_eqb (String.substring 0 n s) prefix
               then Some (String.substring n (String.length s - n) s) else None)
    else None
  else Some None.
Definition has_prefix_ci (s prefix : string) : option bool :=
  (λ r, match r with Some _ => true | None => false end) <$> strip_prefix_ci s prefix.

Definition reply_subject (subject : string) : option string :=
  let s := trim subject in
  re ← has_prefix_ci s "re:";
  Some (if re : bool then s else "Re: " +:+ s).
Definition forward_subject (subject : string) : option string :=
  let s := trim subject in
  fwd ← has_prefix_ci s "fwd:";
  fw ← (if fwd : bool then Some true else has_prefix_ci s "fw:");
  Some (if fw : bool then s else "Fwd: " +:+ s).

Definition reply_references (parent_references : list string) (parent_message_id : option string) : list string :=
  let refs := match parent_message_id with
              | Some id => if bool_decide (id ∈ parent_references) then parent_references
                           else parent_references ++ [id]
              | None => parent_references
              end in
  if 20 <? length refs
  then match refs with
       | first :: _ => first :: drop (length refs - 19) refs
       | [] => refs
       end
  else refs.

(** ** Recipients *)

Section recipients.
Context (to_lowercase : string → string).

(** [EmailAddress::normalized] *)
Definition normalized (a : EmailAddress) : string := to_lowercase (addr_email a).
Definition mine (me : list string) (a : EmailAddress) : bool :=
  List.existsb (λ m, nocase_eqb m (addr_email a)) me.

(** [filter(keep)]: the addresses not the user's and not kept before. *)
Fixpoint keep_new (me : list string) (seen : gset string) (l : list EmailAddress) :
    list EmailAddress * gset string :=
  match l with
  | [] => ([], seen)
  | a :: l =>
      if mine me a || bool_decide (normalized a ∈ seen) then keep_new me seen l
      else let '(kept, seen) := keep_new me ({[normalized a]} ∪ seen) l in (a :: kept, seen)
  end.
Definition reply_recipients (from : option EmailAddress) (reply_to to cc : list EmailAddress)
    (me : list string) (all : bool) : list EmailAddress * list EmailAddress :=
  let primary := match reply_to with [] => option_list from | _ => reply_to end in
  let primary := match primary with
                 | [] => []
                 | _ => if forallb (mine me) primary then to else primary
                 end in
  let '(reply_to_list, seen) := keep_new me ∅ primary in
  (reply_to_list, if all then (keep_new me seen (to ++ cc)).1 else []).
End recipients.

(** ** MIME *)

Record OutgoingAttachment := mkOutAttachment { oa_filename : string; oa_mime_type : string; oa_data : string }.
Record OutgoingMessage := mkOutgoing {
  om_from : EmailAddress; om_to : list EmailAddress; om_cc : list EmailAddress; om_bcc : list EmailAddress;
  om_subject : string; om_html : string; om_message_id : string; om_in_reply_to : option string;
  om_references : list string; om_attachments : list OutgoingAttachment; om_date : Millis }.

Definition valid_address (a : EmailAddress) : result string () :=
  if valid_email (trim (addr_email a)) then Ok () else Err ("invalid address " +:+ addr_email a).
Fixpoint valid_addresses (l : list EmailAddress) : result string () :=
  match l with
  | [] => Ok ()
  | a :: l => _ ← valid_address a; valid_addresses l
  end.

(** ** Dates and quotes *)

Definition display (a : EmailAddress) : string := default (addr_email a) (addr_name a).
Definition escape (s : string) : string :=
  replace QUOTE "&quot;" (replace ">" "&gt;" (replace "<" "&lt;" (replace "&" "&amp;" s))).
Definition quoted_header (date : Millis) (from : option EmailAddress) : string :=
  let who := match from with Some f => escape (display f) | None => "someone" end in
  "On " +:+ date_text (civil_from_days (Z.quot date 1000 / 86400)%Z) +:+ ", " +:+ who +:+ " wrote:".
Example quoted_header_ex :
  quoted_header 1789489800000 (Some (address_new (Some "Alex") "a@example.com")) = "On 2026-09-15, Alex wrote:".
Proof. vm_compute. reflexivity. Qed.

Definition default_draft : DraftRecord := mkDraft 0 None None None [] [] [] "" "" "" [] 0 Editing None.

Section compose.
Context (to_lowercase : string → string).
Context (read_file : string → result string string).
Context (write_mime : OutgoingMessage → result string string).
Context (text_to_html html_to_quoted_text sanitize_html encode64 : string → string).

Definition parent_html (body : option Body) : string :=
  match body with
  | Some b => match html_sanitized b with
              | Some html => html
              | None => match text_plain b with Some text => text_to_html text | None => "" end
              end
  | None => ""
  end.

Definition NO_MESSAGE : StoreError := NotFoundError "message".

Definition reply_draft (id : MessageId) (all : bool) (me : list string) (s : Store) :
    option (StoreResult DraftRecord) :=
  match get_message s id with
  | None => Some (Err NO_MESSAGE)
  | Some parent =>
      let '(to, cc) :=
        reply_recipients to_lowercase (g_from parent) (g_reply_to parent) (g_to parent) (g_cc parent) me all in
      let quote := "<div>" +:+ quoted_header (g_date parent) (g_from parent) +:+ "</div><blockquote>" +:+
                   parent_html (get_body s id) +:+ "</blockquote>" in
      subject ← reply_subject (g_subject parent);
      Some (Ok (mkDraft 0 None (Some (g_thread parent)) (Some (g_id parent)) to cc [] subject "" quote [] 0
                  Editing None))
  end.

Definition forward_draft (id : MessageId) (s : Store) : option (StoreResult DraftRecord) :=
  match get_message s id with
  | None => Some (Err NO_MESSAGE)
  | Some parent =>
      let from := match g_from parent with
                  | Some f => escape (display f +:+ " <" +:+ addr_email f +:+ ">")
                  | None => ""
                  end in
      let header := "<div>---------- Forwarded message ----------<br>From: " +:+ from +:+ "<br>Subject: " +:+
                    escape (g_subject parent) +:+ "<br>To: " +:+ escape (join ", " (display <$> g_to parent)) +:+
                    "</div>" in
      subject ← forward_subject (g_subject parent);
      Some (Ok (mkDraft 0 None (Some (g_thread parent)) None [] [] [] subject ""
                  (header +:+ "<br>" +:+ parent_html (get_body s id)) [] 0 Editing None))
  end.

(** [mail_mime::build_draft], [mail_mime::build] *)
Definition build_draft (m : OutgoingMessage) : result string string :=
  _ ← valid_address (om_from m);
  _ ← valid_addresses (om_to m);
  _ ← valid_addresses (om_cc m);
  _ ← valid_addresses (om_bcc m);
  write_mime m.
Definition build (m : OutgoingMessage) : result string string :=
  match om_to m, om_cc m, om_bcc m with
  | [], [], [] => Err "a message needs at least one recipient"
  | _, _, _ => build_draft m
  end.

Fixpoint read_attachments (l : list DraftAttachment) : StoreResult (list OutgoingAttachment) :=
  match l with
  | [] => Ok []
  | a :: l =>
      data ← map_err (λ e, Io (da_filename a +:+ ": " +:+ e)) (read_file (da_path a));
      rest ← read_attachments l;
      Ok (mkOutAttachment (da_filename a) (da_mime_type a) data :: rest)
  end.

(** The quote merged into the body. *)
Definition merged (draft : DraftRecord) : DraftRecord :=
  mkDraft (d_id draft) (d_gmail_draft_id draft) (d_thread_id draft) (d_in_reply_to draft) (d_to draft)
    (d_cc draft) (d_bcc draft) (d_subject draft) (d_body_html draft +:+ d_quoted_html draft) ""
    (d_attachments draft) (d_updated_at draft) (d_state draft) (d_last_error draft).
Definition outgoing_message (draft : DraftRecord) (from : EmailAddress) (rfc822_id : string) (now : Millis)
    (s : Store) : StoreResult (DraftRecord * OutgoingMessage) :=
  let parent := d_in_reply_to draft ≫= get_message s in
  attachments ← read_attachments (d_attachments draft);
  let draft := merged draft in
  Ok (draft, mkOutgoing from (d_to draft) (d_cc draft) (d_bcc draft) (d_subject draft) (d_body_html draft)
               rfc822_id (parent ≫= g_rfc822)
               (match parent with Some p => reply_references (g_references p) (g_rfc822 p) | None => [] end)
               attachments now).

(** [rsplit('@').next()] *)
Definition domain_of (email : string) : string :=
  match rsplit_once "@" email with Some (_, d) => d | None => email end.

Definition draft_raw (token : string) (now : Millis) (d : Db) (draft : DraftRecord) (from : EmailAddress) :
    StoreResult string :=
  '(_, outgoing) ← outgoing_message draft from (token +:+ ".kaluta@" +:+ domain_of (addr_email from)) now (mail d);
  map_err Invalid (build_draft outgoing).

(** ** Sending *)

(** What a send freezes before its transaction. *)
Record FrozenSend := mkFrozen {
  fs_draft : DraftRecord; fs_outgoing : OutgoingMessage; fs_raw : string; fs_rfc822 : string; fs_now : Millis }.

Definition freeze (draft_id : Z) (from : EmailAddress) (token : string) (now : Millis) (d1 d2 : Db) :
    StoreResult FrozenSend :=
  draft ← ok_or (NotFoundError "draft") (get draft_id d1);
  if bool_decide (d_state draft = Sending) then Err (Invalid "this draft is already being sent")
  else
    let rfc822_id := token +:+ ".kaluta@" +:+ domain_of (addr_email from) in
    '(draft, outgoing) ← outgoing_message draft from rfc822_id now (mail d2);
    raw ← map_err Invalid (build outgoing);
    Ok (mkFrozen draft outgoing raw rfc822_id now).

(** The copy shown in Sent, and the op. *)
Definition local_id (queue : bool) (token : string) : MessageId :=
  (if queue then LOCAL_PREFIX else "sent-") +:+ token.
Definition sent_copy (f : FrozenSend) (from : EmailAddress) (queue : bool) (token : string) : IncomingMessage :=
  let draft := fs_draft f in
  let text := html_to_quoted_text (d_body_html draft) in
  mkIncoming (local_id queue token) (default (LOCAL_PREFIX +:+ "thread-" +:+ token) (d_thread_id draft))
    (Some (fs_rfc822 f)) (om_in_reply_to (fs_outgoing f)) (om_references (fs_outgoing f)) (Some from)
    (d_to draft) (d_cc draft) (d_bcc draft) [] (d_subject draft) (fs_now f) (fs_now f) (take_chars 120 text)
    [SENT] (Z.of_nat (String.length (fs_raw f)))
    (Some (mkBody (Some text) (Some (sanitize_html (d_body_html draft))) false)) []
    (mkListHeaders None None None None) None.
Definition send_op (draft_id : Z) (f : FrozenSend) (queue : bool) (token : string) : OutboxOp :=
  Send draft_id (encode64 (fs_raw f)) (d_thread_id (fs_draft f)) (local_id queue token).

(** The transaction. *)
Definition commit_send (draft_id : Z) (from : EmailAddress) (queue : bool) (hold : Millis) (token : string)
    (f : FrozenSend) (d : Db) : StoreResult (Db * ThreadChanges) :=
  let now := fs_now f in
  w ← upsert_message (sent_copy f from queue token) (writer_new (mail d));
  '(s, changes) ← finish to_lowercase w;
  let d := with_mail s d in
  if queue then
    let d := set_rfc822_id draft_id (fs_rfc822 f) (set_state draft_id Sending None d) in
    let not_before := if (0 <? hold)%Z then Some (now + hold)%Z else None in
    Ok ((enqueue_held (send_op draft_id f queue token) now not_before d).1, changes)
  else
    Ok (discard draft_id now (set_state draft_id Sending None (set_rfc822_id draft_id (fs_rfc822 f) d)), changes).

(** [send_draft]: two reads and a transaction; [others] is what else happens
    to the database before the parent is read and before the transaction. *)
Definition send_draft (others1 others2 : Db → Db) (draft_id : Z) (from : EmailAddress) (queue : bool)
    (hold : Millis) (rfc_token token : string) (now : Millis) (d : Db) : Db * StoreResult ThreadChanges :=
  let d1 := others1 d in
  match freeze draft_id from rfc_token now d d1 with
  | Err e => (d1, Err e)
  | Ok f =>
      let d2 := others2 d1 in
      match commit_send draft_id from queue hold token f d2 with
      | Err e => (d2, Err e)
      | Ok (d3, changes) => (d3, Ok changes)
      end
  end.
End compose.

(** [schedule_draft_sync]: a mirror op for each draft edited since. *)
Definition schedule_draft_sync (from : EmailAddress) (now : Millis) (d : Db) : Db * nat :=
  let '(d, ids) := take_dirty d in
  foldl (λ '(d, queued) id,
    if has_pending_draft_sync id d then (d, queued)
    else ((enqueue (SyncDraft id from) now d).1, S queued)) (d, 0) ids.
