(* ===== verification/Provider.v ===== *)
(** * Provider: what a mail provider promises its clients
    ([crates/provider-api]: [error.rs], the [MailProvider] trait of [lib.rs])

    A provider is a type [P] of states of its server with the trait's
    methods as transitions; a call may fail and still have changed the
    server.  The laws a client's theorems need are classes of their own, so
    that each theorem names the promise it rests on. *)

From S2P Require Import Prelude.
From S2P Require Import Domain.
From S2P Require Import MailStore.

(** ** Errors *)

Inductive ProviderError :=
| Unauthorized
| CursorExpired
| NotFound (what : string)
| RateLimited (retry_after : option Millis)
| Network (message : string)
| Server (status : Z) (message : string)
| Decode (message : string)
| InvalidResponse (message : string)
| Forbidden (message : string)
| Unavailable (message : string).
#[export] Instance provider_error_eq_dec : EqDecision ProviderError.
Proof. solve_decision. Defined.
Abbreviation ProviderResult := (result ProviderError).

Definition is_transient (e : ProviderError) : bool :=
  match e with
  | RateLimited _ | Network _ | Server _ _ | Decode _ => true
  | _ => false
  end.

(** [Display], by [thiserror]'s format strings; [Duration::as_secs] of a
    wait kept in milliseconds. *)
Definition error_text (e : ProviderError) : string :=
  match e with
  | Unauthorized => "not authorized; sign in again"
  | CursorExpired => "sync cursor expired"
  | NotFound s => "not found: " +:+ s
  | RateLimited None => "rate limited"
  | RateLimited (Some d) => "rate limited; retry after " +:+ pretty (d / 1000)%Z +:+ "s"
  | Network s => "network error: " +:+ s
  | Server status s => "server error " +:+ pretty status +:+ ": " +:+ s
  | Decode s => "undecodable response: " +:+ s
  | InvalidResponse s => "unexpected response: " +:+ s
  | Forbidden s => "permission denied: " +:+ s
  | Unavailable s => "unavailable: " +:+ s
  end.

(** ** The trait *)

Record LabelOp := mkLabelOp { lo_message_ids : list MessageId; lo_add : list LabelId; lo_remove : list LabelId }.

(** The methods the outbox drain calls. *)
Class MailProvider (P : Type) := {
  modify_labels : LabelOp → P → P * ProviderResult ();
  move_to_trash : MessageId → P → P * ProviderResult ();
  restore_from_trash : MessageId → P → P * ProviderResult ();
  send : string → option ThreadId → P → P * ProviderResult MessageId;
  already_sent : string → P → P * ProviderResult (option MessageId);
  save_draft : option string → string → option ThreadId → P → P * ProviderResult string;
  delete_draft_copy : string → P → P * ProviderResult ();
  adopts_sent_copies : bool }.

(** A label change of one message: adding wins. *)
Definition change_labels (op : LabelOp) (ls : gset LabelId) : gset LabelId :=
  list_to_set (lo_add op) ∪ (ls ∖ list_to_set (lo_remove op)).
Lemma change_labels_idemp op ls : change_labels op (change_labels op ls) = change_labels op ls.
Proof. unfold change_labels. apply set_eq. intros x. destruct (decide (x ∈ lo_add op)); set_solver. Qed.

(** Label changes on the server: a message that exists has labels; a
    successful call changed every id it names, all of which exist; a call
    refused for a missing id may have changed some of them and nothing
    else. *)
Class LabelServer (P : Type) `{MailProvider P} := {
  server_labels : P → MessageId → option (gset LabelId);
  modify_ok op p p' : modify_labels op p = (p', Ok ()) →
    ∀ m, server_labels p' m =
         if bool_decide (m ∈ lo_message_ids op) then change_labels op <$> server_labels p m
         else server_labels p m;
  modify_ok_present op p p' : modify_labels op p = (p', Ok ()) →
    ∀ m, m ∈ lo_message_ids op → is_Some (server_labels p m);
  modify_not_found op p p' what : modify_labels op p = (p', Err (NotFound what)) →
    (∃ m, m ∈ lo_message_ids op ∧ server_labels p m = None) ∨ lo_message_ids op = [];
  modify_err op p p' e : modify_labels op p = (p', Err e) →
    ∀ m, server_labels p' m = server_labels p m ∨
         m ∈ lo_message_ids op ∧ server_labels p' m = change_labels op <$> server_labels p m }.

(** Sends: what the server has taken, by the raw message.  [already_sent]
    tells the truth about it, and nothing but a send adds to it. *)
Class SendServer (P : Type) `{MailProvider P} := {
  taken : P → list string;
  send_ok raw thread p p' id : send raw thread p = (p', Ok id) → taken p' = raw :: taken p;
  send_err raw thread p p' e : send raw thread p = (p', Err e) →
    taken p' = taken p ∨ taken p' = raw :: taken p;
  already_sent_taken raw p p' r : already_sent raw p = (p', r) → taken p' = taken p;
  already_sent_some raw p p' id : already_sent raw p = (p', Ok (Some id)) → raw ∈ taken p;
  already_sent_none raw p p' : already_sent raw p = (p', Ok None) → raw ∉ taken p }.

(** ** A lawful server

    A concrete provider for the witnesses: labels by message, the raw
    messages taken so far, all-or-nothing refusals of missing ids, and no
    other errors. *)
Record MemServer := mkMem { ms_labels : gmap MessageId (gset LabelId); ms_taken : list string }.

Definition mem_relabel (op : LabelOp) (s : MemServer) : MemServer :=
  mkMem (foldr (λ m ls, alter (change_labels op) m ls) (ms_labels s) (remove_dups (lo_message_ids op)))
    (ms_taken s).
Definition mem_modify (op : LabelOp) (s : MemServer) : MemServer * ProviderResult () :=
  match List.find (λ m, bool_decide (ms_labels s !! m = None)) (lo_message_ids op) with
  | Some m => (s, Err (NotFound m))
  | None => (mem_relabel op s, Ok ())
  end.
#[export] Instance mem_provider : MailProvider MemServer := {
  modify_labels := mem_modify;
  move_to_trash m := mem_modify (mkLabelOp [m] [TRASH] [INBOX]);
  restore_from_trash m := mem_modify (mkLabelOp [m] [] [TRASH]);
  send raw _ s := (mkMem (ms_labels s) (raw :: ms_taken s), Ok ("sent-" +:+ raw));
  already_sent raw s := (s, Ok (if bool_decide (raw ∈ ms_taken s) then Some ("sent-" +:+ raw) else None));
  save_draft existing _ _ s := (s, Ok (default "d1" existing));
  delete_draft_copy _ s := (s, Ok ());
  adopts_sent_copies := true }.

Lemma mem_relabel_lookup op s m :
  ms_labels (mem_relabel op s) !! m =
  if bool_decide (m ∈ lo_message_ids op) then change_labels op <$> ms_labels s !! m else ms_labels s !! m.
Proof.
  unfold mem_relabel. simpl. pose proof (NoDup_remove_dups (lo_message_ids op)) as Hn.
  rewrite (bool_decide_ext (m ∈ lo_message_ids op) (m ∈ remove_dups (lo_message_ids op)))
    by (symmetry; apply elem_of_remove_dups).
  induction Hn as [|x l Hx Hn IH]; cbn [foldr]; [done|].
  destruct (decide (m = x)) as [->|Hne].
  - rewrite lookup_alter_eq, IH, bool_decide_eq_false_2 by done.
    by rewrite bool_decide_eq_true_2 by set_solver.
  - rewrite lookup_alter_ne, IH by done.
    by rewrite (bool_decide_ext (m ∈ l) (m ∈ x :: l)) by set_solver.
Qed.

#[export, refine] Instance mem_labels : LabelServer MemServer := {
  server_labels s m := ms_labels s !! m }.
Proof.
  - intros op p p'. simpl. unfold mem_modify. case_match; intros [= <-] m. apply mem_relabel_lookup.
  - intros op p p'. simpl. unfold mem_modify. case_match eqn:E; intros [= <-] m Hm.
    apply not_eq_None_Some. intros Hnone. eapply List.find_none in E; [|by apply list_elem_of_In].
    by rewrite bool_decide_eq_true_2 in E.
  - intros op p p' what. simpl. unfold mem_modify. case_match eqn:E; intros [= <- <-].
    apply List.find_some in E as [Hin E%bool_decide_eq_true]. left. eexists.
    split; [by apply list_elem_of_In|done].
  - intros op p p' e. simpl. unfold mem_modify. case_match; intros [= <- <-] m. by left.
Defined.

#[export, refine] Instance mem_sends : SendServer MemServer := { taken := ms_taken }.
Proof.
  - by intros raw thread p p' id [= <- _].
  - by intros raw thread p p' e [= <- _].
  - by intros raw p p' r [= <- _].
  - intros raw p p' id [= _ H]. by case_bool_decide.
  - intros raw p p' [= _ H]. by case_bool_decide.
Defined.
