(* ===== verification/Drain.v ===== *)
(** * Drain: local changes and the outbox drain
    ([crates/mail-sync/src/outbox.rs], [own_changes] of [engine.rs])

    [apply_local_change_recorded] is one transaction.  [drain_turn] is one
    turn of the drain loop: the claim, the provider call, what other
    transactions did meanwhile, and the transaction that records the
    outcome.  Base64 and the building of a draft's MIME bytes are
    parameters. *)

From S2P Require Import Prelude.
From S2P Require Import Domain.
From S2P Require Import MailStore.
From S2P Require Import LocalDb.
From S2P Require Import Outbox.
From S2P Require Import Provider.

Definition MAX_ATTEMPTS : Z := 5.
Definition BUSY_POLL_MS : Millis := 2000.

(** [backoff]: seconds, [u64] saturating. *)
Definition backoff (attempts : Z) : Millis :=
  (Z.min (Z.min (2 ^ (attempts + 1)) (2 ^ 64 - 1)) 300 * 1000)%Z.

(** ** Local changes *)

(** [Cleanup] carries the selection its query and keys resolve to, in the
    change's own transaction. *)
Inductive LocalChange :=
| ChangeLabels (thread_ids : list ThreadId) (add remove : list LabelId)
| ChangeTrash (thread_ids : list ThreadId)
| ChangeExact (diffs : list MessageDiff) (batched : bool)
| ChangeCleanup (selection : Store → list MessageId) (add remove : list LabelId).

Definition archive (ts : list ThreadId) : LocalChange := ChangeLabels ts [] [INBOX].
Definition move_to_inbox (ts : list ThreadId) : LocalChange := ChangeLabels ts [INBOX] [].
Definition mark_junk (ts : list ThreadId) : LocalChange := ChangeLabels ts [SPAM] [INBOX].
Definition not_junk (ts : list ThreadId) : LocalChange := ChangeLabels ts [INBOX] [SPAM].
Definition set_read (ts : list ThreadId) (read : bool) : LocalChange :=
  if read then ChangeLabels ts [] [UNREAD] else ChangeLabels ts [UNREAD] [].
Definition set_starred (ts : list ThreadId) (starred : bool) : LocalChange :=
  if starred then ChangeLabels ts [STARRED] [] else ChangeLabels ts [] [STARRED].

Record AppliedChange := mkApplied {
  ap_changes : ThreadChanges; ap_action : option Z; ap_messages : nat }.

(** [diff_for] *)
Definition diff_for (m : MessageId) (before add remove : list LabelId) : MessageDiff :=
  mkDiff m (List.filter (λ l, negb (bool_decide (l ∈ before))) add)
           (List.filter (λ l, bool_decide (l ∈ before)) remove).

(** [retain_messages] *)
Definition retain_messages (kept : list MessageId) (op : OutboxOp) : option OutboxOp :=
  let keep := List.filter (λ m, bool_decide (m ∈ kept)) in
  match op with
  | ModifyLabels ids add remove =>
      match keep ids with [] => None | ids => Some (ModifyLabels ids add remove) end
  | Untrash ids => match keep ids with [] => None | ids => Some (Untrash ids) end
  | Trash ids previous =>
      match keep ids with
      | [] => None
      | ids => Some (Trash ids (List.filter (λ p, bool_decide (p.1 ∈ kept)) previous))
      end
  | op => Some op
  end.

(** The exact diffs whose message is still stored, applied in turn. *)
Fixpoint apply_exact (diffs : list MessageDiff) (w : MailWriter) :
    StoreResult (MailWriter * list MessageDiff) :=
  match diffs with
  | [] => Ok (w, [])
  | d :: diffs =>
      '(w, found) ← modify_message_labels (df_message d) (df_added d) (df_removed d) w;
      '(w, applied) ← apply_exact diffs w;
      Ok (w, if found : bool then d :: applied else applied)
  end.

(** [cleanup::apply] of [mail-store/src/cleanup.rs], per message. *)
Definition cleanup_diff (m : MessageId) (before add remove : list LabelId) : option MessageDiff :=
  if bool_decide (SPAM ∈ add) && bool_decide (SENT ∈ before) then None
  else
    let d := mkDiff m (List.filter (λ l, negb (bool_decide (l ∈ before))) add)
               (List.filter (λ l, bool_decide (l ∈ before) && negb (bool_decide (l ∈ add))) remove) in
    if diff_empty d then None else Some d.
Fixpoint apply_cleanup (ids : list MessageId) (add remove : list LabelId) (w : MailWriter) :
    StoreResult (MailWriter * list MessageDiff) :=
  match ids with
  | [] => Ok (w, [])
  | m :: ids =>
      match cleanup_diff m (current_labels (tx w) m) add remove with
      | None => apply_cleanup ids add remove w
      | Some d =>
          '(w, _) ← modify_message_labels m (df_added d) (df_removed d) w;
          '(w, diffs) ← apply_cleanup ids add remove w;
          Ok (w, d :: diffs)
      end
  end.

(** What a change does to the mail: the ops it queues, its exact diffs and
    the writer to finish. *)
Definition change_mail (c : LocalChange) (s : Store) :
    StoreResult (MailWriter * list OutboxOp * list MessageDiff) :=
  match c with
  | ChangeLabels ts add remove =>
      let affected := affected_messages s ts add remove in
      w ← modify_each ((λ p, (p.1, (add, remove))) <$> affected) (writer_new s);
      Ok (w, match affected with [] => [] | _ => [ModifyLabels (affected.*1) add remove] end,
          (λ p, diff_for p.1 p.2 add remove) <$> affected)
  | ChangeTrash ts =>
      let affected := affected_messages s ts [TRASH] [] in
      w ← modify_each ((λ p, (p.1, ([TRASH], [INBOX]))) <$> affected) (writer_new s);
      Ok (w, match affected with [] => [] | _ => [Trash (affected.*1) affected] end,
          (λ p, diff_for p.1 p.2 [TRASH] [INBOX]) <$> affected)
  | ChangeExact diffs batched =>
      let ops := if batched then batched_ops diffs else provider_ops s diffs in
      '(w, applied) ← apply_exact diffs (writer_new s);
      Ok (w, omap (retain_messages (df_message <$> applied)) ops, applied)
  | ChangeCleanup selection add remove =>
      '(w, diffs) ← apply_cleanup (selection s) add remove (writer_new s);
      Ok (w, batched_ops diffs, diffs)
  end.

Section changes.
Context (to_lowercase : string → string).

(** [apply_local_change_recorded] *)
Definition apply_local_change_recorded (c : LocalChange) (queue : bool) (rec : option string)
    (now : Millis) (d : Db) : StoreResult (Db * AppliedChange) :=
  '(w, ops, diffs) ← change_mail c (mail d);
  '(s, changes) ← finish to_lowercase w;
  let d := with_mail s d in
  let d := if queue then foldl (λ d op, (enqueue op now d).1) d ops else d in
  let messages := count (λ x, negb (diff_empty x)) diffs in
  match rec with
  | Some kind =>
      if bool_decide (0 < messages)
      then let '(d, id) := record kind diffs d in Ok (d, mkApplied changes (Some id) messages)
      else Ok (d, mkApplied changes None messages)
  | None => Ok (d, mkApplied changes None messages)
  end.
End changes.

(** ** Changes Kaluta made itself *)

Record OwnChange := mkOwn { oc_message : MessageId; oc_label : LabelId; oc_added : bool; oc_at : Millis }.
Definition remember_own (now : Millis) (ms : list MessageId) (add remove : list LabelId)
    (own : list OwnChange) : list OwnChange :=
  own ++ (m ← ms; ((λ l, mkOwn m l true now) <$> add) ++ ((λ l, mkOwn m l false now) <$> remove)).

(** ** Provider calls *)

Section calls.
Context {P : Type} `{MailProvider P}.
Context (decode_raw : string → option string).
Context (draft_raw : Db → DraftRecord → EmailAddress → result string string).

(** [modify_labels_present]: a stack of batches; one that names a missing
    id is split in halves, a single missing id is dropped. *)
Fixpoint modify_pending (fuel : nat) (pending : list LabelOp) (p : P) : option (P * ProviderResult ()) :=
  match pending with
  | [] => Some (p, Ok ())
  | op :: pending =>
      match fuel with
      | O => None
      | S fuel =>
          match modify_labels op p with
          | (p, Ok ()) => modify_pending fuel pending p
          | (p, Err (NotFound what)) =>
              let ids := lo_message_ids op in
              if 1 <? length ids
              then let half := length ids / 2 in
                   modify_pending fuel
                     (mkLabelOp (take half ids) (lo_add op) (lo_remove op) ::
                      mkLabelOp (drop half ids) (lo_add op) (lo_remove op) :: pending) p
              else modify_pending fuel pending p
          | (p, Err e) => Some (p, Err e)
          end
      end
  end.
Definition calls_needed (op : LabelOp) : nat := 2 * length (lo_message_ids op) + 1.
Definition modify_labels_present (op : LabelOp) (p : P) : option (P * ProviderResult ()) :=
  modify_pending (calls_needed op) [op] p.

(** One call per message; a message gone on the server is passed over. *)
Fixpoint each_message (call : MessageId → P → P * ProviderResult ()) (ms : list MessageId) (p : P) :
    P * ProviderResult () :=
  match ms with
  | [] => (p, Ok ())
  | m :: ms =>
      match call m p with
      | (p, Ok ()) | (p, Err (NotFound _)) => each_message call ms p
      | (p, Err e) => (p, Err e)
      end
  end.

(** [send_once]: a send tried before is looked for first. *)
Definition send_once (raw : string) (thread : option ThreadId) (attempts : Z) (p : P) :
    P * ProviderResult MessageId :=
  if (0 <? attempts)%Z
  then match already_sent raw p with
       | (p, Err e) => (p, Err e)
       | (p, Ok (Some id)) => (p, Ok id)
       | (p, Ok None) => send raw thread p
       end
  else send raw thread p.

(** [mirror_draft], up to its last transaction: the draft's server id. *)
Definition mirror_call (draft_id : Z) (from : EmailAddress) (d : Db) (p : P) :
    P * ProviderResult (option string) :=
  match get draft_id d with
  | None => (p, Ok None)
  | Some draft =>
      if bool_decide (d_state draft = Sending) then (p, Ok None)
      else match draft_raw d draft from with
           | Err e => (p, Err (InvalidResponse e))
           | Ok raw =>
               let existing := d_gmail_draft_id draft in
               let thread := d_thread_id draft in
               match save_draft existing raw thread p with
               | (p, Err (NotFound what)) =>
                   match existing with
                   | Some _ => let '(p, r) := save_draft None raw thread p in (p, Some <$> r)
                   | None => (p, Err (NotFound what))
                   end
               | (p, r) => (p, Some <$> r)
               end
           end
  end.
Definition mirror_store (draft_id : Z) (gmail_id : option string) (now : Millis) (d : Db) : StoreResult Db :=
  match gmail_id with
  | None => Ok d
  | Some g =>
      match get draft_id d with
      | Some _ => set_gmail_draft_id draft_id (Some g) d
      | None => Ok (enqueue (DeleteDraft g) now d).1
      end
  end.

(** An op's provider call: the server, its answer (for a send, the copy
    to adopt), and the transaction that ends it. *)
Definition call_op (q : QueuedOp) (d : Db) (p : P) :
    P * ProviderResult (option (MessageId * MessageId)) * (Millis → Db → StoreResult Db) :=
  let plain (x : P * ProviderResult ()) := (x.1, (λ _, None) <$> x.2, λ _, Ok) in
  match q_op q with
  | ModifyLabels ids add remove =>
      plain (default (p, Ok ()) (modify_labels_present (mkLabelOp ids add remove) p))
  | Trash ids _ => plain (each_message move_to_trash ids p)
  | Untrash ids => plain (each_message restore_from_trash ids p)
  | Send _ raw thread local =>
      match decode_raw raw with
      | None => (p, Err (InvalidResponse "queued message is corrupt"), λ _, Ok)
      | Some bytes =>
          let '(p, r) := send_once bytes thread (q_attempts q) p in
          (p, (λ sent, if adopts_sent_copies then Some (local, sent) else None) <$> r, λ _, Ok)
      end
  | SyncDraft draft_id from =>
      let '(p, r) := mirror_call draft_id from d p in
      (p, (λ _, None) <$> r,
       λ now d, match r with Ok g => mirror_store draft_id g now d | Err _ => Ok d end)
  | DeleteDraft g => plain (delete_draft_copy g p)
  end.

Definition own_of (now : Millis) (op : OutboxOp) (own : list OwnChange) : list OwnChange :=
  match op with
  | ModifyLabels ids add remove => remember_own now ids add remove own
  | Trash ids _ => remember_own now ids [TRASH] [INBOX] own
  | Untrash ids => remember_own now ids [] [TRASH] own
  | _ => own
  end.
End calls.

(** ** The drain *)

Record DrainReport := mkReport { dr_sent : nat; dr_retrying : nat; dr_failed : nat; dr_busy : bool }.
Definition no_report : DrainReport := mkReport 0 0 0 false.

Record Engine (P : Type) := mkEngine { e_db : Db; e_own : list OwnChange; e_net : P }.
Arguments mkEngine {P} _ _ _.
Arguments e_db {P} _.
Arguments e_own {P} _.
Arguments e_net {P} _.

Inductive DrainError := DrainStore (e : StoreError) | DrainProvider (e : ProviderError).

(** How a turn ends: the loop goes on, or returns. *)
Inductive Turn := Continue (r : DrainReport) | Return (r : DrainReport) | Fail (e : DrainError).

Section drain.
Context {P : Type} `{MailProvider P}.
Context (to_lowercase : string → string).
Context (decode_raw : string → option string).
Context (draft_raw : Db → DraftRecord → EmailAddress → result string string).
Context (me : string).

(** What the world does during a turn: the time it starts, the times the
    claim is renewed at, and what other transactions do during the call. *)
Record World := mkWorld { wd_now : Millis; wd_ticks : list Millis; wd_others : Db → Db }.

(** [leased]: the claim renewed while the call runs. *)
Definition leased (id : Z) (w : World) (d : Db) : Db :=
  foldl (λ d t, (renew id me (t + LEASE_MS) d).1) (wd_others w d) (wd_ticks w).

(** The transaction that records the outcome, only while the claim is
    still held. *)
Inductive Recorded := Sent | Retrying | Failed.
Definition outcome (now : Millis) (q : QueuedOp) (r : ProviderResult (option (MessageId * MessageId))) :
    Recorded :=
  match r with
  | Ok _ => Sent
  | Err e =>
      match e with
      | NotFound _ => if is_send (q_op q) then Failed else Sent
      | _ => if is_transient e && (q_attempts q + 1 <? MAX_ATTEMPTS)%Z then Retrying else Failed
      end
  end.
Definition fail_message (e : ProviderError) : string :=
  match e with Forbidden m | InvalidResponse m => m | e => error_text e end.
Definition record_outcome (now : Millis) (q : QueuedOp)
    (r : ProviderResult (option (MessageId * MessageId))) (d : Db) : StoreResult Db :=
  if negb (holds (q_id q) me d) then Ok d
  else match outcome now q r, r with
       | Sent, Ok adopt =>
           let d := complete (q_id q) d in
           let w := writer_new (mail d) in
           let w := match adopt with
                    | Some (local, sent) => adopt_local_copy local sent w
                    | None => w
                    end in
           '(s, _) ← finish to_lowercase w; Ok (with_mail s d)
       | Sent, Err _ => Ok (complete (q_id q) d)
       | Retrying, Err e => Ok (retry_later (q_id q) (now + backoff (q_attempts q)) (error_text e) d)
       | Failed, Err e => fst <$> fail to_lowercase (q_id q) (fail_message e) d
       | _, _ => Ok d
       end.

(** One turn of the loop. *)
Definition drain_turn (w : World) (report : DrainReport) (e : Engine P) : Engine P * Turn :=
  let now := wd_now w in
  let '(d, claim) := claim_next me now (now + LEASE_MS) (e_db e) in
  match claim with
  | Idle => (mkEngine d (e_own e) (e_net e), Return report)
  | Busy => (mkEngine d (e_own e) (e_net e),
             Return (mkReport (dr_sent report) (dr_retrying report) (dr_failed report) true))
  | Ready q =>
      let own := own_of now (q_op q) (e_own e) in
      let '(net, r, store) := call_op decode_raw draft_raw q d (e_net e) in
      let d := leased (q_id q) w d in
      match store now d with
      | Err err => (mkEngine d own net, Fail (DrainStore err))
      | Ok d =>
          match record_outcome now q r d with
          | Err err => (mkEngine d own net, Fail (DrainStore err))
          | Ok d =>
              (mkEngine d own net,
               match outcome now q r with
               | Sent => Continue (mkReport (S (dr_sent report)) (dr_retrying report) (dr_failed report) (dr_busy report))
               | Retrying => Return (mkReport (dr_sent report) (S (dr_retrying report)) (dr_failed report) (dr_busy report))
               | Failed =>
                   match r with
                   | Err Unauthorized => Fail (DrainProvider Unauthorized)
                   | _ => Continue (mkReport (dr_sent report) (dr_retrying report) (S (dr_failed report)) (dr_busy report))
                   end
               end)
          end
      end
  end.

(** [drain_outbox]: what an interrupted drain left is recovered, then
    turns run until one returns.  [None]: still running after [ws]. *)
Fixpoint drain_loop (ws : list World) (report : DrainReport) (e : Engine P) :
    Engine P * option (result DrainError DrainReport) :=
  match ws with
  | [] => (e, None)
  | w :: ws =>
      match drain_turn w report e with
      | (e, Continue r) => drain_loop ws r e
      | (e, Return r) => (e, Some (Ok r))
      | (e, Fail err) => (e, Some (Err err))
      end
  end.
Definition drain_outbox (is_gone : string → bool) (now : Millis) (ws : list World) (e : Engine P) :
    Engine P * option (result DrainError DrainReport) :=
  drain_loop ws no_report
    (mkEngine (recover_in_flight me is_gone now (e_db e)).1 (e_own e) (e_net e)).

(** [next_outbox_retry] *)
Definition next_outbox_retry (now : Millis) (d : Db) : option Millis :=
  match next_retry_at d, (if in_flight d then Some (now + BUSY_POLL_MS)%Z else None) with
  | Some a, Some b => Some (Z.min a b)
  | Some a, None => Some a
  | None, b => b
  end.
End drain.
