(* ===== verification/DrainProperties.v ===== *)
(** * DrainProperties: the drain against any lawful provider

    A label change reaches every message the server still has, whatever
    batches are refused; the loop ends; a queued send is delivered at most
    once, through crashes, lost leases and retries; an undo puts back
    exactly what the recorded action changed. *)

From S2P Require Import Prelude.
From S2P Require Import Domain.
From S2P Require Import MailStore.
From S2P Require Import StoreInvariant.
From S2P Require Import Finish.
From S2P Require Import WriterProperties.
From S2P Require Import LocalDb.
From S2P Require Import Outbox.
From S2P Require Import OutboxProperties.
From S2P Require Import Provider.
From S2P Require Import Drain.

(** ** Batches with missing messages *)

Section present.
Context {P : Type} `{LabelServer P}.

(** What a change leaves of one message, done in full or not at all. *)
Definition changed (op : LabelOp) (ids : list MessageId) (p p' : P) : Prop :=
  ∀ m, server_labels p' m =
       if bool_decide (m ∈ ids) then change_labels op <$> server_labels p m else server_labels p m.
Definition partly_changed (op : LabelOp) (ids : list MessageId) (p p' : P) : Prop :=
  ∀ m, server_labels p' m = server_labels p m ∨
       m ∈ ids ∧ server_labels p' m = change_labels op <$> server_labels p m.

Lemma changed_idemp op (o : option (gset LabelId)) :
  change_labels op <$> (change_labels op <$> o) = change_labels op <$> o.
Proof. destruct o; simpl; by rewrite ?change_labels_idemp. Qed.

Lemma partly_then_changed op ids p1 p2 p3 :
  partly_changed op ids p1 p2 → changed op ids p2 p3 → changed op ids p1 p3.
Proof.
  intros H1 H2 m. rewrite (H2 m). destruct (H1 m) as [->|[Hm ->]]; [done|].
  rewrite bool_decide_eq_true_2 by done. apply changed_idemp.
Qed.
Lemma changed_app op a b p1 p2 p3 :
  changed op a p1 p2 → changed op b p2 p3 → changed op (a ++ b) p1 p3.
Proof.
  intros H1 H2 m. rewrite (H2 m), (H1 m).
  destruct (decide (m ∈ a)) as [Ha|Ha], (decide (m ∈ b)) as [Hb|Hb].
  - rewrite !bool_decide_eq_true_2 by set_solver. apply changed_idemp.
  - rewrite (bool_decide_eq_false_2 (m ∈ b)), !bool_decide_eq_true_2 by set_solver. done.
  - rewrite (bool_decide_eq_false_2 (m ∈ a)), !bool_decide_eq_true_2 by set_solver. done.
  - rewrite !bool_decide_eq_false_2 by set_solver. done.
Qed.
Lemma changed_partly op ids p p' : changed op ids p p' → partly_changed op ids p p'.
Proof. intros Hc m. rewrite (Hc m). case_bool_decide; [by right|by left]. Qed.
Lemma partly_trans op ids p1 p2 p3 :
  partly_changed op ids p1 p2 → partly_changed op ids p2 p3 → partly_changed op ids p1 p3.
Proof.
  intros H1 H2 m. destruct (H1 m) as [<-|[Hm E1]], (H2 m) as [->|[Hm2 ->]]; eauto.
  rewrite E1, changed_idemp. eauto.
Qed.
Lemma partly_mono op a b p p' : a ⊆ b → partly_changed op a p p' → partly_changed op b p p'.
Proof. intros Hab Hp m. destruct (Hp m) as [?|[? ?]]; [by left|right; split; [by apply Hab|done]]. Qed.

(** Calls a batch of [n] messages can need. *)
Definition weight (n : nat) : nat := if n =? 0 then 1 else 2 * n - 1.

Definition all_ids (l : list LabelOp) : list MessageId := l ≫= lo_message_ids.
Definition same_change (op op' : LabelOp) : Prop := lo_add op' = lo_add op ∧ lo_remove op' = lo_remove op.
Lemma change_labels_same op op' : same_change op op' → change_labels op' = change_labels op.
Proof. destruct op, op'. intros [E1 E2]. simpl in *. by subst. Qed.

Definition pending_result (op : LabelOp) (ids : list MessageId) (p p' : P) (r : ProviderResult ()) : Prop :=
  match r with
  | Ok _ => changed op ids p p'
  | Err e => (∀ what, e ≠ NotFound what) ∧ partly_changed op ids p p'
  end.

Lemma pending_result_partly op ids a p1 p2 p3 r :
  a ⊆ ids → partly_changed op a p1 p2 → pending_result op ids p2 p3 r → pending_result op ids p1 p3 r.
Proof.
  intros Ha H1. destruct r as [[]|e]; simpl.
  - intros Hc. eapply partly_then_changed; [|done]. by eapply partly_mono.
  - intros [Hn Hp]. split; [done|]. eapply partly_trans; [|done]. by eapply partly_mono.
Qed.
Lemma pending_result_app op a b p1 p2 p3 r :
  changed op a p1 p2 → pending_result op b p2 p3 r → pending_result op (a ++ b) p1 p3 r.
Proof.
  intros H1. destruct r as [[]|e]; simpl.
  - intros H2. by eapply changed_app.
  - intros [Hn Hp]. split; [done|]. eapply partly_trans.
    + eapply partly_mono; [|by apply changed_partly]. set_solver.
    + eapply partly_mono; [|done]. set_solver.
Qed.

(** A single missing message: its change is dropped. *)
Lemma single_missing op op1 p p1 what :
  modify_labels op1 p = (p1, Err (NotFound what)) → length (lo_message_ids op1) ≤ 1 →
  partly_changed op (lo_message_ids op1) p p1 → changed op (lo_message_ids op1) p p1.
Proof.
  intros E Hl Hp. destruct (lo_message_ids op1) as [|m [|??]] eqn:Eids; simpl in Hl; [| |lia].
  - intros m. destruct (Hp m) as [?|[Hm _]]; [done|by apply not_elem_of_nil in Hm].
  - destruct (modify_not_found _ _ _ _ E) as [(m' & Hm' & Hnone)|Hnil]; [|congruence].
    rewrite Eids in Hm'. apply list_elem_of_singleton in Hm' as ->.
    intros x. destruct (Hp x) as [Hx|[Hx Hc]].
    + case_bool_decide as Ex; [|done]. apply list_elem_of_singleton in Ex as ->. by rewrite Hx, Hnone.
    + by rewrite bool_decide_eq_true_2.
Qed.

Lemma modify_pending_spec op fuel pending p :
  Forall (same_change op) pending → sum_list_with (weight ∘ length ∘ lo_message_ids) pending ≤ fuel →
  ∃ p' r, modify_pending fuel pending p = Some (p', r) ∧ pending_result op (all_ids pending) p p' r.
Proof.
  revert pending p. induction fuel as [|fuel IH]; intros pending p Hsame Hfuel.
  { destruct pending as [|op1 pending]; [exists p, (Ok ()); split; [done|by intros m]|]. exfalso.
    revert Hfuel. simpl. unfold weight. destruct (length (lo_message_ids op1)); simpl; lia. }
  destruct pending as [|op1 pending]; [exists p, (Ok ()); split; [done|by intros m]|].
  apply Forall_cons in Hsame as [H1 Hsame]. simpl in Hfuel. change (all_ids (op1 :: pending))
    with (lo_message_ids op1 ++ all_ids pending).
  pose proof (change_labels_same _ _ H1) as Ech.
  assert (1 ≤ weight (length (lo_message_ids op1))) as Hw by (unfold weight; case_match; lia).
  simpl. destruct (modify_labels op1 p) as [p1 [[]|e]] eqn:E1.
  - destruct (IH pending p1 Hsame) as (p' & r & E & Hr); [lia|]. exists p', r. split; [done|].
    eapply pending_result_app; [|done]. intros m. rewrite <- Ech. by apply modify_ok.
  - assert (partly_changed op (lo_message_ids op1) p p1) as Hp1.
    { intros m. rewrite <- Ech. by apply (modify_err _ _ _ _ E1). }
    destruct e; try (exists p1; eexists; split; [done|]; split; [done|];
                     eapply partly_mono; [|done]; set_solver).
    destruct (1 <? length (lo_message_ids op1)) eqn:El.
    + set (half := length (lo_message_ids op1) / 2).
      assert (1 ≤ half < length (lo_message_ids op1)) as Hhalf.
      { unfold half. apply Nat.ltb_lt in El. pose proof (Nat.div_mod_eq (length (lo_message_ids op1)) 2).
        pose proof (Nat.mod_upper_bound (length (lo_message_ids op1)) 2). lia. }
      edestruct (IH (mkLabelOp (take half (lo_message_ids op1)) (lo_add op1) (lo_remove op1) ::
                     mkLabelOp (drop half (lo_message_ids op1)) (lo_add op1) (lo_remove op1) :: pending) p1)
        as (p' & r & E & Hr).
      { by repeat constructor; [apply H1..|]. }
      { simpl. rewrite length_take, length_drop, Nat.min_l by lia. revert Hfuel. unfold weight.
        repeat case_match; lia. }
      exists p', r. split; [done|]. eapply pending_result_partly; [|done|].
      { set_solver. }
      unfold all_ids in Hr. simpl in Hr. by rewrite app_assoc, take_drop in Hr.
    + destruct (IH pending p1 Hsame) as (p' & r & E & Hr); [lia|]. exists p', r. split; [done|].
      eapply pending_result_app; [|done]. apply single_missing with what; [done| |done].
      apply Nat.ltb_ge in El. lia.
Qed.

(** A label change for many messages, some perhaps gone. *)
Lemma modify_labels_present_spec op p :
  ∃ p' r, modify_labels_present op p = Some (p', r) ∧ pending_result op (lo_message_ids op) p p' r.
Proof.
  destruct (modify_pending_spec op (calls_needed op) [op] p) as (p' & r & E & Hr).
  - by repeat constructor.
  - simpl. unfold calls_needed, weight. case_match; lia.
  - exists p', r. split; [done|]. unfold all_ids in Hr. simpl in Hr. by rewrite app_nil_r in Hr.
Qed.
End present.

(** ** At most once *)

Section once.
Context {P : Type} `{SendServer P}.
Context (to_lowercase : string → string) (decode_raw : string → option string).

(** The queue, the server, and the ops whose call the present claim has
    made. *)
Record Sys := mkSys { sy_db : Db; sy_net : P; sy_called : list Z }.
Inductive SysEvent :=
| EvTx (t : QueueTx)
| EvCall (id : Z) (claimant : string).

(** A claim starts a call; a call is made while the claim is held, once
    per claim, with the attempts the claim read.  After it the drainer
    may record its outcome, or never come back. *)
Definition sys_step (s : Sys) (e : SysEvent) : Sys :=
  match e with
  | EvTx t =>
      mkSys (queue_step to_lowercase (sy_db s) t) (sy_net s)
        (match t with
         | TxClaim c now lease =>
             match (claim_next c now lease (sy_db s)).2 with
             | Ready q => List.filter (λ i, negb (bool_decide (i = q_id q))) (sy_called s)
             | _ => sy_called s
             end
         | _ => sy_called s
         end)
  | EvCall id c =>
      match List.find (claimed_by id c) (outbox (sy_db s)) with
      | Some r =>
          match ob_op r with
          | Send _ raw thread _ =>
              match decode_raw raw with
              | Some bytes =>
                  if bool_decide (id ∈ sy_called s) then s
                  else mkSys (sy_db s) (send_once bytes thread (as_u32 (ob_attempts r)) (sy_net s)).1
                         (id :: sy_called s)
              | None => s
              end
          | _ => s
          end
      | None => s
      end
  end.

Definition op_bytes (op : OutboxOp) : option string :=
  match op with Send _ raw _ _ => decode_raw raw | _ => None end.
Definition enqueued_bytes (e : SysEvent) : option string :=
  match e with EvTx (TxEnqueue op _ _) => op_bytes op | _ => None end.

Definition open_row (called : list Z) (r : OutboxRow) : Prop :=
  ob_state r = Pending ∨ (ob_state r = InFlight ∧ ob_id r ∉ called).

(** [n]: events so far; [used]: the messages known to queue or server. *)
Record sys_inv (n : Z) (used : list string) (s : Sys) : Prop := {
  si_count : (0 ≤ n)%Z;
  si_ids : NoDup (ob_id <$> outbox (sy_db s));
  si_attempts : ∀ r, r ∈ outbox (sy_db s) → (0 ≤ ob_attempts r ≤ n)%Z;
  si_used : ∀ r b, r ∈ outbox (sy_db s) → op_bytes (ob_op r) = Some b → b ∈ used;
  si_taken : ∀ b, b ∈ taken (sy_net s) → b ∈ used;
  si_unique : ∀ r1 r2 b, r1 ∈ outbox (sy_db s) → r2 ∈ outbox (sy_db s) →
    op_bytes (ob_op r1) = Some b → op_bytes (ob_op r2) = Some b → ob_id r1 = ob_id r2;
  si_once : NoDup (taken (sy_net s));
  si_fresh : ∀ r b, r ∈ outbox (sy_db s) → op_bytes (ob_op r) = Some b → open_row (sy_called s) r →
    ob_attempts r = 0%Z → b ∉ taken (sy_net s) }.

Lemma op_bytes_send op b : op_bytes op = Some b → is_send op = true.
Proof. by destruct op. Qed.

Lemma kept_attempts t r r' n :
  row_kept t r r' → (0 ≤ ob_attempts r ≤ n)%Z → (0 ≤ ob_attempts r' ≤ n + 1)%Z.
Proof. intros (_ & _ & []) Ha; destruct (is_send (ob_op r)); simpl in *; lia. Qed.

(** An untried open row was one before. *)
Lemma kept_open called called' t r r' b :
  row_kept t r r' → op_bytes (ob_op r) = Some b → (0 ≤ ob_attempts r)%Z →
  (ob_state r = InFlight → called' = called) →
  open_row called' r' → ob_attempts r' = 0%Z → open_row called r ∧ ob_attempts r = 0%Z.
Proof.
  intros (Eid & Eop & Hst) Hb Ha Hcalled Hopen Hz. apply op_bytes_send in Hb.
  destruct Hst; rewrite ?Hb in *; simpl in *; try lia.
  - split; [|congruence]. destruct Hopen as [?|[Hf Hn]]; [left; congruence|right].
    rewrite Hcalled in Hn by congruence. split; congruence.
  - split; [by left|congruence].
  - destruct Hopen as [?|[? _]]; congruence.
Qed.

Lemma sys_tx_inv n used s t :
  sys_inv n used s → (∀ b, enqueued_bytes (EvTx t) = Some b → b ∉ used) →
  sys_inv (n + 1) (option_list (enqueued_bytes (EvTx t)) ++ used) (sys_step s (EvTx t)).
Proof.
  intros [Hcount Hids Hatt Hused Htaken Huniq Honce Hfresh] Hnew.
  destruct (queue_step_rows to_lowercase (sy_db s) t Hids) as [Hrows Hids'].
  set (called' := sy_called (sys_step s (EvTx t))).
  assert (∀ r, r ∈ outbox (sy_db s) → ob_state r = InFlight → called' = sy_called s) as Hcalled.
  { intros r Hr Hs. unfold called'. simpl. destruct t; try done. unfold claim_next.
    assert (in_flight (sy_db s) = true) as ->; [|done]. apply existsb_true.
    exists r. split; [done|]. by apply bool_decide_eq_true. }
  assert (∀ r' b, new_row_of t r' → op_bytes (ob_op r') = Some b → enqueued_bytes (EvTx t) = Some b) as Hnewb.
  { intros r' b (_ & _ & Hsend) Hb. destruct (Hsend (op_bytes_send _ _ Hb)) as (now & nb & ->). done. }
  constructor; simpl.
  - lia.
  - by apply Hids'.
  - intros r' Hr'. destruct (Hrows r' Hr') as [(r & Hr & Hk)|[(_ & -> & _) _]].
    + by eapply kept_attempts; [|apply Hatt].
    + lia.
  - intros r' b Hr' Hb. apply elem_of_app. destruct (Hrows r' Hr') as [(r & Hr & _ & Eop & _)|[Hn _]].
    + right. rewrite Eop in Hb. by eapply Hused.
    + left. pose proof (Hnewb _ _ Hn Hb) as E. simpl in E. rewrite E. by left.
  - intros b Hb. apply elem_of_app. right. by apply Htaken.
  - intros r1' r2' b Hr1' Hr2' Hb1 Hb2.
    destruct (Hrows r1' Hr1') as [(r1 & Hr1 & E1 & Eop1 & _)|[Hn1 E1]];
    destruct (Hrows r2' Hr2') as [(r2 & Hr2 & E2 & Eop2 & _)|[Hn2 E2]].
    + rewrite E1, E2. rewrite Eop1 in Hb1. rewrite Eop2 in Hb2. by eapply Huniq.
    + exfalso. rewrite Eop1 in Hb1. by eapply (Hnew b); [apply (Hnewb _ _ Hn2 Hb2)|eapply Hused].
    + exfalso. rewrite Eop2 in Hb2. by eapply (Hnew b); [apply (Hnewb _ _ Hn1 Hb1)|eapply Hused].
    + congruence.
  - done.
  - intros r' b Hr' Hb Hopen Hz. destruct (Hrows r' Hr') as [(r & Hr & Hk)|[Hn _]].
    + pose proof Hk as (_ & Eop & _). rewrite Eop in Hb.
      destruct (kept_open (sy_called s) called' t r r' b Hk Hb) as [Ho Ha]; [by apply Hatt|by apply Hcalled|done..|].
      by eapply Hfresh.
    + intros Hin. by eapply (Hnew b); [apply (Hnewb _ _ Hn Hb)|apply Htaken].
Qed.

(** What a call may add to what the server has taken. *)
Lemma send_once_taken raw thread attempts p :
  ((0 < attempts)%Z ∨ raw ∉ taken p) → NoDup (taken p) →
  let p' := (send_once raw thread attempts p).1 in
  NoDup (taken p') ∧ (taken p' = taken p ∨ taken p' = raw :: taken p).
Proof.
  intros Hok Hn.
  assert (∀ q, taken q = taken p → raw ∉ taken p →
    NoDup (taken (send raw thread q).1) ∧
    (taken (send raw thread q).1 = taken p ∨ taken (send raw thread q).1 = raw :: taken p)) as Hsend.
  { intros q Eq Hraw. destruct (send raw thread q) as [q' [id|e]] eqn:E; simpl.
    - rewrite (send_ok _ _ _ _ _ E), Eq. split; [by constructor|by right].
    - destruct (send_err _ _ _ _ _ E) as [->| ->]; rewrite Eq; [by split; [|left]|].
      split; [by constructor|by right]. }
  unfold send_once. destruct (0 <? attempts)%Z eqn:Ea; [|apply Hsend; [done|destruct Hok; [lia|done]]].
  destruct (already_sent raw p) as [q [[id|]|e]] eqn:E; simpl; rewrite ?(already_sent_taken _ _ _ _ E).
  - split; [done|by left].
  - apply Hsend; [by apply (already_sent_taken _ _ _ _ E)|by apply (already_sent_none _ _ _ E)].
  - split; [done|by left].
Qed.

Lemma sys_call_inv n used s id c :
  (n < 2 ^ 32)%Z → sys_inv n used s → sys_inv (n + 1) used (sys_step s (EvCall id c)).
Proof.
  intros Hn32 Hs. pose proof Hs as [Hcount Hids Hatt Hused Htaken Huniq Honce Hfresh].
  assert (sys_inv (n + 1) used s) as Hsame.
  { constructor; try done; [lia|]. intros r Hr. specialize (Hatt r Hr). lia. }
  simpl. destruct (List.find (claimed_by id c) (outbox (sy_db s))) as [r|] eqn:Er; [|done].
  apply List.find_some in Er as [Hr Hc]. apply list_elem_of_In in Hr.
  destruct (ob_op r) eqn:Eop; try done. destruct (decode_raw raw) as [bytes|] eqn:Eb; [|done].
  case_bool_decide as Hcalled; [done|].
  apply andb_true_iff in Hc as [[Eid%bool_decide_eq_true Hst%bool_decide_eq_true]%andb_true_iff _].
  assert (op_bytes (ob_op r) = Some bytes) as Hbytes by by rewrite Eop.
  pose proof (Hatt r Hr) as Ha. assert (as_u32 (ob_attempts r) = ob_attempts r) as ->.
  { unfold as_u32. rewrite Z.max_l, Z.mod_small by lia. done. }
  destruct (send_once_taken bytes thread_id (ob_attempts r) (sy_net s)) as [Hnd Htk]; [|done|].
  { destruct (decide (ob_attempts r = 0%Z)) as [Hz|]; [right|left; lia].
    apply (Hfresh r bytes Hr Hbytes); [|done]. right. by rewrite Eid. }
  constructor; simpl; try done; [lia|intros r' Hr'; specialize (Hatt r' Hr'); lia| |].
  - intros b Hb. destruct Htk as [E|E]; rewrite E in Hb; [by apply Htaken|].
    apply elem_of_cons in Hb as [->|Hb]; [by eapply Hused|by apply Htaken].
  - intros r' b Hr' Hb Hopen Hz.
    assert (b ∉ taken (sy_net s)) as Hold.
    { eapply Hfresh; [done..| |done]. destruct Hopen as [?|[? Hni]]; [by left|right; set_solver]. }
    destruct Htk as [E|E]; rewrite E; [done|]. apply not_elem_of_cons. split; [|done]. intros ->.
    assert (ob_id r' = id) as Eid' by by (rewrite <- Eid; eapply Huniq).
    destruct Hopen as [Hp|[_ Hni]]; [|set_solver].
    assert (r' = r) as -> by (apply (NoDup_fmap_inj ob_id (outbox (sy_db s))); [done..|congruence]).
    congruence.
Qed.

Lemma sys_run_inv n used s evs :
  sys_inv n used s → NoDup (used ++ omap enqueued_bytes evs) →
  (n + Z.of_nat (length evs) < 2 ^ 32)%Z → NoDup (taken (sy_net (foldl sys_step s evs))).
Proof.
  revert n used s. induction evs as [|e evs IH]; intros n used s Hs Hnd Hlen; simpl; [apply Hs|].
  simpl in Hlen. destruct e as [t|id c].
  - apply (IH (n + 1)%Z (option_list (enqueued_bytes (EvTx t)) ++ used)); [|simpl in *|lia].
    + apply sys_tx_inv; [done|]. intros b Hb Hin. cbn [omap list_omap] in Hnd. rewrite Hb in Hnd.
      apply NoDup_app in Hnd as (_ & Hnd & _). apply (Hnd b Hin). by left.
    + revert Hnd. rewrite <- app_assoc.
      destruct t; simpl; try done. destruct (op_bytes op); simpl; [|done].
      rewrite Permutation_middle. done.
  - apply (IH (n + 1)%Z used); [|done|lia]. apply sys_call_inv; [lia|done].
Qed.

Lemma sys_inv_initial p0 : NoDup (taken p0) → sys_inv 0 (taken p0) (mkSys empty_db p0 []).
Proof.
  intros Hn. constructor; simpl; try done; [constructor|..]; intros *; by intros ?%not_elem_of_nil.
Qed.

End once.

(** A send whose first call is never recorded: the drain recovers it, looks
    for it and does not send it again. *)
Definition demo_send : OutboxOp := Send 1 "raw" None "local-1".
Definition demo_events : list SysEvent :=
  [EvTx (TxEnqueue demo_send 0 None); EvTx (TxClaim "A" 1 901); EvCall 1 "A";
   EvTx (TxRecover "B" (λ _, false) 1000); EvTx (TxClaim "B" 1001 1901); EvCall 1 "B";
   EvTx (TxComplete 1 "B")].

(** ** Partly missing batches *)

(** A label change reaches every message the server still has: the
    drain's splitting of batches ends; unless the provider fails for another
    reason than a missing message, every message of the op is changed,
    whatever is missing from the server, and no other is; when it fails,
    no message has more than the op's change, so the op can be retried. *)
Theorem batch_reaches_present {P : Type} `{LabelServer P} (op : LabelOp) (p : P) :
  ∃ p' r, modify_labels_present op p = Some (p', r) ∧
    match r with
    | Ok _ => ∀ m, server_labels p' m =
        if bool_decide (m ∈ lo_message_ids op) then change_labels op <$> server_labels p m
        else server_labels p m
    | Err e => (∀ what, e ≠ NotFound what) ∧
        ∀ m, server_labels p' m = server_labels p m ∨
             m ∈ lo_message_ids op ∧ server_labels p' m = change_labels op <$> server_labels p m
    end.
Proof. destruct (modify_labels_present_spec op p) as (p' & r & E & Hr). exists p', r. by destruct r. Qed.

(** A batch of three of which one is gone. *)
Example batch_ex :
  let p := mkMem (<["a" := {["INBOX"]}]> (<["c" := {["INBOX"]}]> ∅)) [] in
  (λ '(p', r), (r, server_labels p' "a", server_labels p' "b", server_labels p' "c")) <$>
    modify_labels_present (mkLabelOp ["a"; "b"; "c"] [] ["INBOX"]) p
  = Some (Ok (), Some ∅, None, Some ∅).
Proof. vm_compute. reflexivity. Qed.

(** ** The drain ends *)

(** Turns an op can still take: a send may leave the deletion of its
    draft's server copy, a mirrored draft that of a copy it made. *)
Definition row_weight (r : OutboxRow) : nat :=
  match ob_state r with
  | FailedOp => 0
  | _ => match ob_op r with Send _ _ _ _ | SyncDraft _ _ => 2 | _ => 1 end
  end.
Definition queue_weight (d : Db) : nat := sum_list_with row_weight (outbox d).

Lemma weight_update p f l :
  (∀ r, r ∈ l → p r = true → row_weight (f r) ≤ row_weight r) →
  sum_list_with row_weight ((λ r, if p r then f r else r) <$> l) ≤ sum_list_with row_weight l.
Proof.
  intros Hf. induction l as [|x l IH]; [done|]. rewrite fmap_cons. cbn [sum_list_with].
  assert (row_weight (if p x then f x else x) ≤ row_weight x).
  { destruct (p x) eqn:E; [|done]. apply Hf; [by left|done]. }
  enough (sum_list_with row_weight ((λ r, if p r then f r else r) <$> l) ≤ sum_list_with row_weight l) by lia.
  apply IH. intros r Hr. apply Hf. by right.
Qed.
Lemma weight_update_drop p f l r :
  (∀ r, r ∈ l → p r = true → row_weight (f r) = 0) → r ∈ l → p r = true →
  sum_list_with row_weight ((λ r, if p r then f r else r) <$> l) + row_weight r ≤ sum_list_with row_weight l.
Proof.
  intros Hf Hr Hp. apply list_elem_of_split in Hr as (l1 & l2 & ->).
  rewrite fmap_app, fmap_cons, !sum_list_with_app. simpl. rewrite Hp, Hf; [|set_solver|done].
  assert (∀ l', l' ⊆ l1 ++ r :: l2 → sum_list_with row_weight ((λ r, if p r then f r else r) <$> l') ≤
                sum_list_with row_weight l') as Hle.
  { intros l' Hl'. apply weight_update. intros x Hx Hpx. rewrite Hf; [lia|by apply Hl'|done]. }
  pose proof (Hle l1 ltac:(set_solver)). pose proof (Hle l2 ltac:(set_solver)). lia.
Qed.
Lemma weight_filter p l : sum_list_with row_weight (List.filter p l) ≤ sum_list_with row_weight l.
Proof. induction l as [|x l IH]; simpl; [done|]. destruct (p x); simpl; lia. Qed.
Lemma weight_filter_drop p l r :
  r ∈ l → p r = false → sum_list_with row_weight (List.filter p l) + row_weight r ≤ sum_list_with row_weight l.
Proof.
  intros Hr Hp. apply list_elem_of_split in Hr as (l1 & l2 & ->).
  rewrite List.filter_app, !sum_list_with_app. simpl. rewrite Hp.
  pose proof (weight_filter p l1). pose proof (weight_filter p l2). lia.
Qed.

Section ends.
Context {P : Type} `{MailProvider P}.
Context (to_lowercase : string → string) (decode_raw : string → option string).
Context (draft_raw : Db → DraftRecord → EmailAddress → result string string) (me : string).

(** The queue while [me] runs [q]. *)
Definition running (q : QueuedOp) (n : nat) (d : Db) : Prop :=
  NoDup (ob_id <$> outbox d) ∧ queue_weight d ≤ n ∧
  ∃ r, r ∈ outbox d ∧ claimed_by (q_id q) me r = true ∧ ob_op r = q_op q.

Lemma claim_runs now lease d q d' :
  NoDup (ob_id <$> outbox d) → claim_next me now lease d = (d', Ready q) → running q (queue_weight d) d'.
Proof.
  intros Hn. unfold claim_next. destruct (in_flight d); [done|].
  destruct (next_ready now d) as [q'|] eqn:Eq; [|done]. case_match; [|done]. intros [= <- ->].
  destruct (next_ready_row _ _ _ Eq) as (r & Hr & Hp & _ & -> & _). simpl. split_and!.
  - simpl. rewrite fmap_map_key; [done|]. intros x _. by case_match.
  - apply weight_update. intros x _ [_ Hx%bool_decide_eq_true]%andb_true_iff. unfold row_weight. by rewrite Hx.
  - exists (set_claim InFlight (Some me) (Some lease) r). split_and!; [|by unfold claimed_by, by_id, state_is; simpl; rewrite !bool_decide_eq_true_2|done].
    simpl. apply list_elem_of_fmap. exists r. split; [|done].
    unfold by_id, state_is. by rewrite !bool_decide_eq_true_2.
Qed.

Lemma renew_runs q n t d : running q n d → running q n (renew (q_id q) me t d).1.
Proof.
  intros (Hn & Hw & r & Hr & Hc & Hop). split_and!.
  - simpl. rewrite fmap_map_key; [done|]. intros x _. by case_match.
  - etransitivity; [|exact Hw]. by apply weight_update.
  - exists (set_claim (ob_state r) (ob_claimed_by r) (Some t) r). split_and!; [|done..].
    simpl. apply list_elem_of_fmap. exists r. by rewrite Hc.
Qed.
Lemma leased_runs q n w d : wd_others w = id → running q n d → running q n (leased me (q_id q) w d).
Proof.
  unfold leased. intros -> Hd. change (id d) with d. generalize (wd_ticks w). intros ts. revert d Hd.
  induction ts as [|t ts IH]; intros d Hd; simpl; [done|]. apply IH. by apply renew_runs.
Qed.

(** What the call's own transaction may add. *)
Lemma call_store_rows q d p p' r store now d1 d2 :
  call_op decode_raw draft_raw q d p = (p', r, store) → store now d1 = Ok d2 →
  outbox d2 = outbox d1 ∨
  (is_Some (ok r) ∧ ∃ x f, q_op q = SyncDraft x f ∧ ∃ g, outbox d2 = outbox (enqueue (DeleteDraft g) now d1).1).
Proof.
  unfold call_op. destruct (q_op q) as [| | | | |] eqn:Eq.
  1,2,3,6: by intros [= _ _ <-] [= <-]; left.
  - destruct (decode_raw raw) as [bytes|]; [destruct (send_once _ _ _ _)|]; intros [= _ _ <-] [= <-]; by left.
  - destruct (mirror_call draft_raw draft_id from d p) as [p1 [g|e]]; intros [= _ <- <-]; simpl;
      [|intros [= <-]; by left].
    unfold mirror_store. destruct g as [g|]; [|intros [= <-]; by left].
    destruct (get draft_id d1).
    + unfold set_gmail_draft_id. destruct (_ && _); intros [= <-]. by left.
    + intros [= <-]. right. split; [done|]. eauto.
Qed.

Lemma complete_weight id d r :
  NoDup (ob_id <$> outbox d) → r ∈ outbox d → by_id id r = true → ob_state r = InFlight →
  queue_weight (complete id d) + (match ob_op r with SyncDraft _ _ => 2 | _ => 1 end) ≤ queue_weight d.
Proof.
  intros Hn Hr Hid Hs. unfold complete.
  assert (find_op id d = Some r) as ->.
  { apply (find_by_Some ob_id); [done|]. split; [done|]. by apply bool_decide_eq_true in Hid. }
  unfold queue_weight, delete_outbox. simpl.
  assert (∀ l, r ∈ l → sum_list_with row_weight (List.filter (λ x, negb (by_id id x)) l) + row_weight r ≤
                        sum_list_with row_weight l) as Hdrop.
  { intros l Hl. apply weight_filter_drop; [done|]. by rewrite Hid. }
  pose proof (Hdrop _ Hr) as Hd.
  assert (row_weight r = match ob_op r with Send _ _ _ _ | SyncDraft _ _ => 2 | _ => 1 end) as Ew
    by (unfold row_weight; by rewrite Hs).
  destruct (ob_op r) eqn:Eop; try lia.
  destruct (outbox_discard draft_id (ob_created_at r) d) as [->|[g ->]]; [lia|].
  rewrite List.filter_app, sum_list_with_app.
  match goal with |- context[List.filter ?p [?x]] => pose proof (weight_filter p [x]) as H1;
    change (sum_list_with row_weight [x]) with 1 in H1 end. lia.
Qed.

Lemma complete_ids id d : NoDup (ob_id <$> outbox d) → NoDup (ob_id <$> outbox (complete id d)).
Proof.
  intros Hn. destruct (outbox_complete id d) as (l & -> & [->|(g & now & ->)]);
    apply NoDup_fmap_List_filter; [done|].
  apply NoDup_fmap_snoc; [done|apply next_rowid_not_in].
Qed.

Lemma done_drops now q n r d d' :
  running q n d → record_outcome to_lowercase me now q r d = Ok d' → outcome now q r ≠ Retrying →
  NoDup (ob_id <$> outbox d') ∧
  queue_weight d' + (match q_op q, r with SyncDraft _ _, Ok _ => 2 | _, _ => 1 end) ≤ n.
Proof.
  intros (Hn & Hw & x & Hx & Hc & Hop). unfold record_outcome.
  assert (holds (q_id q) me d = true) as -> by (apply existsb_true; eauto). cbn [negb].
  apply andb_true_iff in Hc as [[Hid Hs%bool_decide_eq_true]%andb_true_iff _].
  pose proof (complete_weight (q_id q) d x Hn Hx Hid Hs) as Hcw. rewrite Hop in Hcw.
  pose proof (complete_ids (q_id q) d Hn) as Hci.
  destruct (outcome now q r) eqn:Eo; [| done |]; destruct r as [adopt|e]; try done.
  - cbv zeta. destruct (finish to_lowercase _) as [[s ch]|]; [|done]. intros [= <-] _.
    unfold queue_weight in *. simpl in *. split; [done|]. destruct (q_op q); lia.
  - intros [= <-] _. split; [done|]. unfold queue_weight in *. destruct (q_op q); lia.
  - destruct (fail to_lowercase (q_id q) (fail_message e) d) as [[d1 c]|] eqn:Ef; [|done].
    intros [= <-] _. rewrite (outbox_fail _ _ _ _ _ _ Ef).
    unfold queue_weight in *. rewrite (outbox_fail _ _ _ _ _ _ Ef). simpl. split.
    { rewrite fmap_map_key; [done|]. intros y _. by destruct (by_id (q_id q) y). }
    pose proof (weight_update_drop (by_id (q_id q))
      (λ r, set_error (Some (fail_message e)) (set_claim FailedOp None None r)) (outbox d) x) as Hd.
    assert (1 ≤ row_weight x) as H1 by (unfold row_weight; rewrite Hs; destruct (ob_op x); lia).
    specialize (Hd (λ _ _ _, eq_refl) Hx Hid). destruct (q_op q); lia.
Qed.

Lemma turn_drops w rep (e e' : Engine P) rep' :
  wd_others w = id → NoDup (ob_id <$> outbox (e_db e)) →
  drain_turn to_lowercase decode_raw draft_raw me w rep e = (e', Continue rep') →
  NoDup (ob_id <$> outbox (e_db e')) ∧ queue_weight (e_db e') < queue_weight (e_db e).
Proof.
  intros Hw Hn. unfold drain_turn.
  destruct (claim_next me (wd_now w) _ (e_db e)) as [d1 [q| |]] eqn:Ec; [|done..].
  pose proof (claim_runs _ _ _ _ _ Hn Ec) as Hr1.
  destruct (call_op decode_raw draft_raw q d1 (e_net e)) as [[net r] store] eqn:Ecall.
  pose proof (leased_runs q _ w d1 Hw Hr1) as Hr2.
  destruct (store _ (leased me (q_id q) w d1)) as [d2|] eqn:Est; [|done].
  assert (running q (queue_weight (e_db e) +
            (match q_op q, r with SyncDraft _ _, Ok _ => 1 | _, _ => 0 end)) d2) as Hr3.
  { destruct Hr2 as (Hn2 & Hw2 & x & Hx & Hc & Hop).
    destruct (call_store_rows _ _ _ _ _ _ _ _ _ Ecall Est) as [E|([a Ha] & y & f & Eq & g & E)];
      unfold running, queue_weight in *; rewrite E.
    - split_and!; [done|lia|eauto].
    - rewrite Eq. destruct r; [|done]. unfold enqueue, enqueue_held. simpl. split_and!.
      + apply NoDup_fmap_snoc; [done|apply next_rowid_not_in].
      + rewrite sum_list_with_app. change (sum_list_with row_weight [_]) with 1. lia.
      + exists x. split_and!; [apply elem_of_app; by left|done|congruence]. }
  destruct (record_outcome to_lowercase me (wd_now w) q r d2) as [d3|] eqn:Er; [|done].
  intros Ht. injection Ht as <- Ht. cbn [e_db].
  destruct (done_drops _ _ _ _ _ _ Hr3 Er) as [H1 H2]; [by intros Eo; rewrite Eo in Ht|].
  split; [done|]. destruct (q_op q), r; lia.
Qed.

Lemma recover_weight gone now d :
  queue_weight (recover_in_flight me gone now d).1 ≤ queue_weight d.
Proof.
  apply weight_update. intros r _ [Hs%bool_decide_eq_true _]%andb_true_iff.
  unfold row_weight, release. simpl. by rewrite Hs.
Qed.

Lemma loop_ends ws rep (e : Engine P) :
  Forall (λ w, wd_others w = id) ws → NoDup (ob_id <$> outbox (e_db e)) → queue_weight (e_db e) < length ws →
  ∃ e' r, drain_loop to_lowercase decode_raw draft_raw me ws rep e = (e', Some r).
Proof.
  revert rep e. induction ws as [|w ws IH]; intros rep e Hws Hn Hl; simpl in Hl; [lia|].
  apply Forall_cons in Hws as [Hw Hws]. simpl.
  destruct (drain_turn _ _ _ _ w rep e) as [e1 [rep1|rep1|err]] eqn:Et; [|by eauto..].
  destruct (turn_drops _ _ _ _ _ Hw Hn Et). apply IH; [done..|lia].
Qed.

(** The drain ends: from any state the queue can reach, with any
    provider and whatever its calls answer, a drain that nobody else
    writes the queue under returns after at most two turns for each
    op not failed yet, and one more. *)
Theorem drain_ends ts gone now ws own (net : P) :
  let d := run_queue to_lowercase ts in
  Forall (λ w, wd_others w = id) ws →
  2 * length (List.filter (λ r, negb (state_is FailedOp r)) (outbox d)) < length ws →
  ∃ e' r, drain_outbox to_lowercase decode_raw draft_raw me gone now ws (mkEngine d own net) = (e', Some r).
Proof.
  intros d Hws Hl. unfold drain_outbox. apply loop_ends; [done|..]; cbn [e_db].
  - simpl. rewrite fmap_map_key; [apply run_queue_ids|]. intros x _. by case_match.
  - eapply Nat.le_lt_trans; [apply recover_weight|]. eapply Nat.le_lt_trans; [|exact Hl].
    clear Hl. unfold queue_weight. induction (outbox d) as [|x l IH]; cbn [List.filter sum_list_with]; [done|].
    assert (row_weight x ≤ if negb (state_is FailedOp x) then 2 else 0).
    { unfold row_weight, state_is. case_bool_decide as E; [by rewrite E|].
      destruct (ob_state x), (ob_op x); simpl; lia || done. }
    destruct (negb (state_is FailedOp x)); cbn [length]; lia.
Qed.
End ends.

(** Two archived messages, one of them gone, and a send held for later. *)
Definition demo_queue : list QueueTx :=
  [TxEnqueue (ModifyLabels ["a"; "b"] [] ["INBOX"]) 0 None; TxEnqueue (Trash ["a"] []) 0 None;
   TxEnqueue (Send 1 "raw" None "local-1") 0 (Some 5000%Z)].
Definition demo_worlds : list World := (λ t, mkWorld t [] id) <$> [1; 2; 3; 4; 5; 6; 7]%Z.
Definition demo_net : MemServer := mkMem (<["a" := {["INBOX"]}]> ∅) [].
Definition no_draft_raw (_ : Db) (_ : DraftRecord) (_ : EmailAddress) : result string string := Err "none".
Lemma drain_ends_witness :
  (drain_outbox ascii_lower Some no_draft_raw "A" (λ _, false) 0 demo_worlds
     (mkEngine (run_queue ascii_lower demo_queue) [] demo_net)).2 = Some (Ok (mkReport 2 0 0 false)) ∧
  ∃ e' r, drain_outbox ascii_lower Some no_draft_raw "A" (λ _, false) 0 demo_worlds
            (mkEngine (run_queue ascii_lower demo_queue) [] demo_net) = (e', Some r).
Proof.
  split; [vm_compute; reflexivity|].
  apply (drain_ends ascii_lower Some no_draft_raw "A" demo_queue).
  - repeat constructor.
  - vm_compute. lia.
Defined.
