(* ===== verification/UndoProperties.v ===== *)
(** * UndoProperties: a recorded action undoes exactly
    ([undo.rs], [apply_local_change_recorded] of [mail-sync/src/outbox.rs],
    [fail] of [mail-store/src/outbox.rs])

    [labels_at] is what a mail action can change of a message, by provider
    id.  A label change touches the labels of the messages it names and
    nothing else; applying the inverse of the recorded diffs puts back every
    message's labels. *)

From S2P Require Import Prelude.
From S2P Require Import Domain.
From S2P Require Import MailStore.
From S2P Require Import StoreInvariant.
From S2P Require Import Finish.
From S2P Require Import WriterProperties.
From S2P Require Import LocalDb.
From S2P Require Import Outbox.
From S2P Require Import Provider.
From S2P Require Import Drain.

(** ** Labels by provider id *)

Definition labels_at (s : Store) (id : MessageId) : option (gset LabelId) :=
  (λ r, list_to_set (message_label_ids s (ms_id r))) <$> find_message s id.

(** What adding and removing make of a set of labels. *)
Definition relabel (c : list LabelId * list LabelId) (ls : gset LabelId) : gset LabelId :=
  change_labels (mkLabelOp [] c.1 c.2) ls.
Lemma elem_of_relabel c ls l : l ∈ relabel c ls ↔ l ∈ c.1 ∨ (l ∈ ls ∧ l ∉ c.2).
Proof. unfold relabel, change_labels. simpl. set_solver. Qed.
Lemma relabel_idemp c (o : option (gset LabelId)) : relabel c <$> (relabel c <$> o) = relabel c <$> o.
Proof. destruct o; simpl; [|done]. unfold relabel. by rewrite change_labels_idemp. Qed.

Lemma modify_labels_at w id add remove w' b :
  writer_inv w → modify_message_labels id add remove w = Ok (w', b) →
  writer_inv w' ∧ b = bool_decide (is_Some (find_message (tx w) id)) ∧
  ∀ m, labels_at (tx w') m =
       if bool_decide (m = id) then relabel (add, remove) <$> labels_at (tx w) m else labels_at (tx w) m.
Proof.
  intros Hw E. split; [by eapply modify_message_labels_inv|].
  pose proof (modify_message_labels_result w id add remove Hw) as H. unfold modify_result in H.
  destruct (find_message (tx w) id) as [r|] eqn:Er.
  2: { rewrite E in H. injection H as -> ->. split; [done|]. intros m. case_bool_decide as Em; [|done].
       subst m. unfold labels_at. by rewrite Er. }
  case_bool_decide as Ha; [congruence|]. destruct H as (w2 & E2 & Hids & Hf & Hothers & Hlab & _).
  rewrite E in E2. injection E2 as -> ->. split; [by rewrite bool_decide_eq_true_2|]. intros m.
  unfold labels_at. case_bool_decide as Em.
  - subst m. rewrite Hf, Er. simpl. f_equal. apply set_eq. intros l.
    rewrite elem_of_relabel, !elem_of_list_to_set. simpl. apply Hids.
  - rewrite Hothers by done. destruct (find_message (tx w) m) as [r'|] eqn:Er'; [|done]. simpl. f_equal.
    apply set_eq. intros l. rewrite !elem_of_list_to_set. apply Hlab. intros Eid.
    destruct Hw as [HP _]. apply find_by_Some_2 in Er as [Hr <-], Er' as [Hr' <-].
    by rewrite (same_rowid _ _ _ _ (wg_good _ _ HP) Hr Hr' Eid) in Em.
Qed.

Lemma modify_Ok w id add remove :
  writer_inv w → ARCHIVE_LABEL ∉ add → ∃ w' b, modify_message_labels id add remove w = Ok (w', b).
Proof.
  intros Hw Ha. pose proof (modify_message_labels_result w id add remove Hw) as H. unfold modify_result in H.
  destruct (find_message (tx w) id); [|eauto]. rewrite bool_decide_eq_false_2 in H by done.
  destruct H as (w' & E & _). eauto.
Qed.

(** A list of changes in which each message always gets the same one. *)
Lemma modify_each_labels_at (G : MessageId → list LabelId * list LabelId) ids w w' :
  writer_inv w → (∀ e, e ∈ ids → e.2 = G e.1) → modify_each ids w = Ok w' →
  writer_inv w' ∧ ∀ m, labels_at (tx w') m =
    if bool_decide (m ∈ ids.*1) then relabel (G m) <$> labels_at (tx w) m else labels_at (tx w) m.
Proof.
  revert w. induction ids as [|[id [add remove]] ids IH]; intros w Hw HG; cbn [modify_each].
  { by intros [= <-]. }
  intros ([w1 b] & E1 & E2)%bind_Ok. destruct (modify_labels_at _ _ _ _ _ _ Hw E1) as (Hw1 & _ & H1).
  destruct (IH w1 Hw1) as [Hw' H']; [intros e He; apply HG; by right|done|]. split; [done|].
  pose proof (HG (id, (add, remove)) (list_elem_of_here _ _)) as EG. simpl in EG. rewrite EG in H1.
  intros m. rewrite (H' m), (H1 m). rewrite fmap_cons. cbn [fst].
  destruct (decide (m = id)) as [->|Hne].
  - rewrite (bool_decide_eq_true_2 (id = id)), (bool_decide_eq_true_2 (id ∈ id :: _)) by (done || by left).
    case_bool_decide; [apply relabel_idemp|done].
  - rewrite (bool_decide_eq_false_2 (m = id)) by done.
    by rewrite (bool_decide_ext (m ∈ id :: ids.*1) (m ∈ ids.*1)) by set_solver.
Qed.

Lemma modify_each_Ok ids w :
  writer_inv w → (∀ e, e ∈ ids → ARCHIVE_LABEL ∉ e.2.1) → ∃ w', modify_each ids w = Ok w'.
Proof.
  revert w. induction ids as [|[id [add remove]] ids IH]; intros w Hw Ha; simpl; [eauto|].
  destruct (modify_Ok w id add remove Hw) as (w1 & b & E).
  { apply (Ha (id, (add, remove))). by left. }
  rewrite E. simpl. apply IH; [by destruct (modify_labels_at _ _ _ _ _ _ Hw E)|].
  intros e He. apply Ha. by right.
Qed.

(** One change for a list of messages. *)
Lemma modify_all_labels_at c ids w w' :
  writer_inv w → modify_each ((λ m, (m, c)) <$> ids) w = Ok w' →
  writer_inv w' ∧ ∀ m, labels_at (tx w') m =
    if bool_decide (m ∈ ids) then relabel c <$> labels_at (tx w) m else labels_at (tx w) m.
Proof.
  intros Hw E.
  assert (∀ e, e ∈ (λ m, (m, c)) <$> ids → e.2 = c) as HG by by intros e (m & -> & _)%list_elem_of_fmap.
  destruct (modify_each_labels_at (λ _, c) _ _ _ Hw HG E) as [Hw' Hl]. split; [done|].
  intros m. rewrite (Hl m), <- list_fmap_compose.
  by rewrite (list_fmap_id ids : (fst ∘ (λ m, (m, c))) <$> ids = ids).
Qed.
Lemma modify_all_Ok c ids w :
  writer_inv w → ARCHIVE_LABEL ∉ c.1 → ∃ w', modify_each ((λ m, (m, c)) <$> ids) w = Ok w'.
Proof.
  intros Hw Ha. apply modify_each_Ok; [done|]. by intros e (m & -> & _)%list_elem_of_fmap.
Qed.

(** [finish] leaves messages and their labels alone. *)
Lemma finish_labels_at lower w :
  writer_inv w → ∃ s c, finish lower w = Ok (s, c) ∧ consistent s ∧ ∀ m, labels_at s m = labels_at (tx w) m.
Proof.
  intros Hw. destruct (finish_spec lower w Hw) as (s & c & E & Hs & Hc & Hf & (El & Em & Eml & _) & _).
  exists s, c. split_and!; [done..|]. intros m.
  unfold labels_at, find_message, message_label_ids, labels_of_message. by rewrite El, Em, Eml.
Qed.

(** ** Exact changes *)

Definition diff_change (d : MessageDiff) : list LabelId * list LabelId := (df_added d, df_removed d).

Lemma apply_exact_labels_at (G : MessageId → list LabelId * list LabelId) diffs w :
  writer_inv w → (∀ d, d ∈ diffs → diff_change d = G (df_message d)) →
  (∀ d, d ∈ diffs → ARCHIVE_LABEL ∉ df_added d) →
  ∃ w' applied, apply_exact diffs w = Ok (w', applied) ∧ writer_inv w' ∧
    ∀ m, labels_at (tx w') m =
      if bool_decide (m ∈ df_message <$> diffs) then relabel (G m) <$> labels_at (tx w) m
      else labels_at (tx w) m.
Proof.
  revert w. induction diffs as [|d diffs IH]; intros w Hw HG Ha; cbn [apply_exact]; [eauto|].
  destruct (modify_Ok w (df_message d) (df_added d) (df_removed d) Hw) as (w1 & b & E1).
  { apply Ha. by left. }
  destruct (modify_labels_at _ _ _ _ _ _ Hw E1) as (Hw1 & _ & H1).
  destruct (IH w1 Hw1) as (w2 & applied & E2 & Hw2 & H2).
  { intros d' Hd'. apply HG. by right. }
  { intros d' Hd'. apply Ha. by right. }
  rewrite E1. cbn [mbind result_bind]. rewrite E2. cbn [mbind result_bind].
  do 2 eexists. split_and!; [done..|].
  pose proof (HG d (list_elem_of_here _ _)) as EG. unfold diff_change in EG. rewrite EG in H1.
  intros m. rewrite (H2 m), (H1 m), fmap_cons.
  destruct (decide (m = df_message d)) as [->|Hne].
  - rewrite (bool_decide_eq_true_2 (df_message d = _)) by done.
    rewrite (bool_decide_eq_true_2 (df_message d ∈ df_message d :: _)) by by left.
    case_bool_decide; [apply relabel_idemp|done].
  - rewrite (bool_decide_eq_false_2 (m = df_message d)) by done.
    by rewrite (bool_decide_ext (m ∈ df_message d :: (df_message <$> diffs)) (m ∈ df_message <$> diffs)) by set_solver.
Qed.

(** ** What a change records *)

Lemma labels_at_current s m ls :
  labels_at s m = Some ls → ls = list_to_set (current_labels s m).
Proof.
  unfold labels_at, current_labels. destruct (find_message s m); [|done]. by intros [= <-].
Qed.
Lemma current_not_archive s m : store_inv s → ARCHIVE_LABEL ∉ current_labels s m.
Proof.
  intros Hs. unfold current_labels. destruct (find_message s m) as [r|]; [|apply not_elem_of_nil].
  intros (l & Hl & Hn)%elem_of_message_label_ids; [|done].
  destruct (inv_message_labels _ Hs _ _ Hl) as (n & Hn' & ?). congruence.
Qed.

(** [w] did to [s] what the inverse of [diffs] reverses. *)
Definition undone_by (s : Store) (w : MailWriter) (diffs : list MessageDiff) : Prop :=
  ∃ G, (∀ d, d ∈ diffs → diff_change (inverse d) = G (df_message d)) ∧
  (∀ d, d ∈ diffs → ARCHIVE_LABEL ∉ df_removed d) ∧
  ∀ m, if bool_decide (m ∈ df_message <$> diffs)
       then relabel (G m) <$> labels_at (tx w) m = labels_at s m
       else labels_at (tx w) m = labels_at s m.

Lemma diff_for_undoes m before add remove :
  let d := diff_for m before add remove in
  relabel (diff_change (inverse d)) (relabel (add, remove) (list_to_set before)) = list_to_set before.
Proof.
  apply set_eq. intros l. rewrite !elem_of_relabel. unfold diff_change. simpl.
  rewrite !elem_of_List_filter, elem_of_list_to_set, negb_true_iff, bool_decide_eq_true, bool_decide_eq_false.
  destruct (decide (l ∈ before)), (decide (l ∈ add)), (decide (l ∈ remove)); naive_solver.
Qed.

(** A label change over messages with their labels before it. *)
Lemma modify_each_undone s add remove affected w :
  consistent s → (∀ p, p ∈ affected → p.2 = current_labels s p.1) →
  modify_each ((λ p, (p.1, (add, remove))) <$> affected) (writer_new s) = Ok w →
  writer_inv w ∧ undone_by s w ((λ p, diff_for p.1 p.2 add remove) <$> affected).
Proof.
  intros Hs Hcur E. pose proof (writer_new_inv s Hs) as Hw.
  rewrite (list_fmap_compose fst (λ m, (m, (add, remove))) affected
           : (λ p, (p.1, (add, remove))) <$> affected = (λ m, (m, (add, remove))) <$> affected.*1) in E.
  destruct (modify_all_labels_at _ _ _ _ Hw E) as [Hw' Hlab].
  split; [done|]. exists (λ m, diff_change (inverse (diff_for m (current_labels s m) add remove))). split_and!.
  - intros d (p & -> & Hp)%list_elem_of_fmap. simpl. by rewrite (Hcur p Hp).
  - intros d (p & -> & Hp)%list_elem_of_fmap. simpl. rewrite (Hcur p Hp).
    intros [Hin _]%elem_of_List_filter. apply bool_decide_eq_true in Hin.
    by apply (current_not_archive s p.1) in Hin; [|apply Hs].
  - intros m. rewrite (Hlab m). rewrite <- !list_fmap_compose.
    assert ((df_message ∘ (λ p : MessageId * list LabelId, diff_for p.1 p.2 add remove)) <$> affected = affected.*1) as -> by done.
    case_bool_decide as Hm; [|done]. change (tx (writer_new s)) with s.
    destruct (labels_at s m) as [ls|] eqn:El; [|done]. apply labels_at_current in El as ->.
    cbn [fmap option_fmap option_map]. f_equal. apply diff_for_undoes.
Qed.

Lemma affected_current s ts add remove p :
  p ∈ affected_messages s ts add remove → p.2 = current_labels s p.1.
Proof.
  unfold affected_messages. intros [_ (m & -> & _)%list_elem_of_fmap]%elem_of_List_filter. done.
Qed.

(** *** Clean Up *)

Lemma cleanup_diff_undoes m before add remove d :
  cleanup_diff m before add remove = Some d →
  df_message d = m ∧ df_removed d ⊆ before ∧
  relabel (diff_change (inverse d)) (relabel (diff_change d) (list_to_set before)) = list_to_set before.
Proof.
  unfold cleanup_diff. case_match; [done|]. case_match; [done|]. intros [= <-]. split_and!; [done| |].
  - intros l [Hl _]%elem_of_List_filter. simpl in Hl. apply andb_true_iff in Hl as [Hl _].
    by apply bool_decide_eq_true in Hl.
  - apply set_eq. intros l. rewrite !elem_of_relabel. unfold diff_change. simpl.
    rewrite !elem_of_List_filter, elem_of_list_to_set, andb_true_iff, !negb_true_iff.
    rewrite bool_decide_eq_true, !bool_decide_eq_false.
    destruct (decide (l ∈ before)), (decide (l ∈ add)), (decide (l ∈ remove)); naive_solver.
Qed.

Lemma apply_cleanup_undone ids add remove w w' diffs :
  writer_inv w → NoDup ids → apply_cleanup ids add remove w = Ok (w', diffs) →
  writer_inv w' ∧ (df_message <$> diffs) `sublist_of` ids ∧
  (∀ d, d ∈ diffs → ARCHIVE_LABEL ∉ df_removed d ∧
     relabel (diff_change (inverse d)) <$> labels_at (tx w') (df_message d) = labels_at (tx w) (df_message d)) ∧
  ∀ m, m ∉ df_message <$> diffs → labels_at (tx w') m = labels_at (tx w) m.
Proof.
  intros Hw Hn. revert w diffs Hw. induction Hn as [|id ids Hid Hn IH]; intros w diffs Hw; cbn [apply_cleanup].
  { intros [= <- <-]. split_and!; [done..| |done]. by intros d ?%not_elem_of_nil. }
  destruct (cleanup_diff id (current_labels (tx w) id) add remove) as [d|] eqn:Ed.
  2: { intros E. destruct (IH w diffs Hw E) as (H1 & H2 & H3 & H4). split_and!; [done| |done..].
       by constructor. }
  intros ([w1 b] & E1 & ([w2 diffs2] & E2 & [= <- <-])%bind_Ok)%bind_Ok.
  destruct (cleanup_diff_undoes _ _ _ _ _ Ed) as (Eid & Hrem & Hundo).
  destruct (modify_labels_at _ _ _ _ _ _ Hw E1) as (Hw1 & _ & Hlab).
  destruct (IH w1 diffs2 Hw1 E2) as (Hw2 & Hsub & Hd & Hoth).
  assert (id ∉ df_message <$> diffs2) as Hid2 by (intros Hin; apply Hid; by eapply elem_of_sublist).
  split_and!; [done| | |].
  - rewrite fmap_cons, Eid. by apply sublist_skip.
  - intros d' [->|Hd']%elem_of_cons.
    + split.
      * intros Hin%Hrem. destruct Hw as [HP _]. by apply (current_not_archive (tx w) id (proj1 (wg_good _ _ HP))) in Hin.
      * rewrite Eid, (Hoth id Hid2), (Hlab id), bool_decide_eq_true_2 by done.
        destruct (labels_at (tx w) id) as [ls|] eqn:El; [|done]. apply labels_at_current in El as ->.
        cbn [fmap option_fmap option_map]. f_equal. apply Hundo.
    + destruct (Hd d' Hd') as [Ha ->]. split; [done|]. rewrite (Hlab (df_message d')).
      rewrite bool_decide_eq_false_2; [done|]. intros Em. destruct Hid2. rewrite <- Em.
      by apply list_elem_of_fmap_2.
  - intros m. rewrite fmap_cons, not_elem_of_cons, Eid. intros [Hm Hm2].
    by rewrite (Hoth m Hm2), (Hlab m), bool_decide_eq_false_2.
Qed.

(** Changes whose diffs are found when they are applied. *)
Definition recorded_change (c : LocalChange) (s : Store) : Prop :=
  match c with
  | ChangeExact _ _ => False
  | ChangeCleanup selection _ _ => NoDup (selection s)
  | _ => True
  end.

Lemma change_mail_undone c s w ops diffs :
  consistent s → recorded_change c s → change_mail c s = Ok (w, ops, diffs) →
  writer_inv w ∧ undone_by s w diffs.
Proof.
  intros Hs Hc. destruct c as [ts add remove|ts| |selection add remove]; simpl in Hc; [| |done|];
    cbn [change_mail].
  - intros (w1 & E & [= <- _ <-])%bind_Ok. eapply modify_each_undone; [done| |done].
    intros p Hp. by eapply affected_current.
  - intros (w1 & E & [= <- _ <-])%bind_Ok. eapply modify_each_undone; [done| |done].
    intros p Hp. by eapply affected_current.
  - intros ([w1 diffs1] & E & [= <- _ <-])%bind_Ok.
    destruct (apply_cleanup_undone _ _ _ _ _ _ (writer_new_inv s Hs) Hc E) as (Hw & Hsub & Hd & Hoth).
    split; [done|].
    assert (NoDup (df_message <$> diffs1)) as Hn by by eapply sublist_NoDup.
    exists (λ m, default ([], []) (diff_change ∘ inverse <$> find_by df_message m diffs1)). split_and!.
    + intros d Hdin. by rewrite (proj2 (find_by_Some df_message _ diffs1 d Hn)).
    + intros d Hdin. by apply Hd.
    + intros m. case_bool_decide as Hm; [|by apply Hoth].
      apply list_elem_of_fmap in Hm as (d & -> & Hdin).
      rewrite (proj2 (find_by_Some df_message _ diffs1 d Hn)) by done. by apply Hd.
Qed.

(** ** Recording and undoing *)

(** AUTOINCREMENT: no id past the high-water mark is in use. *)
Definition undo_log_ok (d : Db) : Prop := ∀ a, a ∈ undo_actions d → (ua_id a ≤ undo_seq d)%Z.

Lemma record_get kind diffs d d' id :
  undo_log_ok d → record kind diffs d = (d', id) → get_action id d' = Some (mkUndo id kind diffs).
Proof.
  intros Hok [= <- <-]. unfold get_action. simpl.
  rewrite List.filter_app. simpl.
  assert ((undo_seq d + 1 <=? undo_seq d + 1 - KEEP)%Z = false) as -> by (unfold KEEP; lia). simpl.
  rewrite find_by_app. rewrite (proj2 (find_by_None ua_id _ _)).
  - unfold find_by. simpl. by rewrite bool_decide_eq_true_2.
  - intros (a & Ea & [_ Ha]%elem_of_List_filter)%list_elem_of_fmap. apply Hok in Ha. lia.
Qed.

Lemma enqueue_all_rest now ops d :
  let d' := foldl (λ d op, (enqueue op now d).1) d ops in
  mail d' = mail d ∧ undo_actions d' = undo_actions d ∧ undo_seq d' = undo_seq d.
Proof.
  revert d. induction ops as [|op ops IH]; intros d; [done|]. cbn [foldl].
  destruct (IH (enqueue op now d).1) as (E1 & E2 & E3). cbv zeta. by rewrite E1, E2, E3.
Qed.

Section undo.
Context (to_lowercase : string → string).

(** The mail an applied change leaves. *)
Lemma apply_change_mail c queue rec now d d' ap :
  apply_local_change_recorded to_lowercase c queue rec now d = Ok (d', ap) →
  ∃ w ops diffs s ch, change_mail c (mail d) = Ok (w, ops, diffs) ∧
    finish to_lowercase w = Ok (s, ch) ∧ mail d' = s ∧
    (undo_log_ok d → ∀ id, ap_action ap = Some id → 
       ∃ kind, rec = Some kind ∧ get_action id d' = Some (mkUndo id kind diffs)).
Proof.
  unfold apply_local_change_recorded.
  intros ([[w ops] diffs] & E1 & ([s ch] & E2 & E3)%bind_Ok)%bind_Ok.
  exists w, ops, diffs, s, ch.
  set (d1 := if queue then _ else with_mail s d) in E3.
  assert (mail d1 = s ∧ undo_actions d1 = undo_actions d ∧ undo_seq d1 = undo_seq d) as (Em & Ea & Es).
  { unfold d1. destruct queue; [apply (enqueue_all_rest now ops (with_mail s d))|done]. }
  split_and!; [done..| |].
  - destruct rec as [kind|]; [|injection E3 as <- <-; done].
    case_bool_decide; [|injection E3 as <- <-; done].
    simpl in E3. injection E3 as <- <-. done.
  - intros Hok id Hid. destruct rec as [kind|]; [|injection E3 as <- <-; done].
    case_bool_decide; [|injection E3 as <- <-; done].
    destruct (record kind diffs d1) as [d2 id2] eqn:Er. injection E3 as <- <-.
    simpl in Hid. injection Hid as ->. exists kind. split; [done|]. eapply record_get; [|done].
    intros a. rewrite Ea, Es. apply Hok.
Qed.

(** C32. Undo is exact: whatever labels, trash or Clean Up change was
    applied and recorded, applying the inverse of the recorded diffs, as
    label changes or through the trash endpoints, always succeeds and
    leaves every message with the labels it had before the action. *)
Theorem undo_restores_labels c queue kind now d d1 ap id batched queue' rec' now' :
  consistent (mail d) → undo_log_ok d → recorded_change c (mail d) →
  apply_local_change_recorded to_lowercase c queue (Some kind) now d = Ok (d1, ap) →
  ap_action ap = Some id →
  ∃ a d2 ap2, get_action id d1 = Some a ∧
    apply_local_change_recorded to_lowercase (ChangeExact (inverse <$> ua_diffs a) batched) queue' rec' now' d1
      = Ok (d2, ap2) ∧
    ∀ m, labels_at (mail d2) m = labels_at (mail d) m.
Proof.
  intros Hs Hok Hc Happ Hid.
  destruct (apply_change_mail _ _ _ _ _ _ _ Happ) as (w & ops & diffs & s & ch & Ech & Efin & Em & Hget).
  destruct (Hget Hok id Hid) as (kind' & _ & Ega). exists (mkUndo id kind' diffs).
  destruct (change_mail_undone _ _ _ _ _ Hs Hc Ech) as [Hw (G & HG & Ha & Hund)].
  destruct (finish_labels_at to_lowercase w Hw) as (s' & c' & Efin' & Hcons & Hlab).
  rewrite Efin in Efin'. injection Efin' as <- <-.
  destruct (apply_exact_labels_at G (inverse <$> diffs) (writer_new s)) as (w2 & applied & E2 & Hw2 & Hlab2).
  { by apply writer_new_inv. }
  { intros x (y & -> & Hy)%list_elem_of_fmap. exact (HG y Hy). }
  { intros x (y & -> & Hy)%list_elem_of_fmap. exact (Ha y Hy). }
  destruct (finish_labels_at to_lowercase w2 Hw2) as (s2 & c2 & Efin2 & _ & Hlab3).
  assert (∃ d2 ap2, apply_local_change_recorded to_lowercase
    (ChangeExact (inverse <$> diffs) batched) queue' rec' now' d1 = Ok (d2, ap2)) as (d2 & ap2 & E3).
  { unfold apply_local_change_recorded. cbn [change_mail]. rewrite Em, E2. cbn [mbind result_bind].
    rewrite Efin2. cbn [mbind result_bind]. destruct rec'; [|eauto].
    case_bool_decide; [|eauto]. destruct (record _ _ _). eauto. }
  exists d2, ap2. split_and!; [done..|]. intros m.
  destruct (apply_change_mail _ _ _ _ _ _ _ E3) as (w3 & ? & ? & s3 & ? & Ech3 & Efin3 & -> & _).
  cbn [change_mail] in Ech3. rewrite Em, E2 in Ech3. cbn [mbind result_bind] in Ech3.
  injection Ech3 as <- _ _. rewrite Efin2 in Efin3. injection Efin3 as <- _.
  rewrite (Hlab3 m), (Hlab2 m). change (tx (writer_new s)) with s. rewrite (Hlab m).
  specialize (Hund m). rewrite <- list_fmap_compose.
  assert ((df_message ∘ inverse) <$> diffs = df_message <$> diffs) as -> by done.
  case_bool_decide; [by rewrite Hund|done].
Qed.

(** ** Giving up on an op *)

(** Restoring recorded labels, whatever the message has by then. *)
Lemma restore_each_labels_at (G : MessageId → list LabelId) previous w :
  writer_inv w → (∀ p, p ∈ previous → p.2 = G p.1 ∧ ARCHIVE_LABEL ∉ p.2) →
  ∃ w', restore_each previous w = Ok w' ∧ writer_inv w' ∧ ∀ m, labels_at (tx w') m =
    if bool_decide (m ∈ previous.*1) then (λ _, list_to_set (G m)) <$> labels_at (tx w) m
    else labels_at (tx w) m.
Proof.
  revert w. induction previous as [|[id ls] previous IH]; intros w Hw HG; cbn [restore_each]; [eauto|].
  destruct (HG (id, ls) (list_elem_of_here _ _)) as [EG Ha]. simpl in EG, Ha.
  destruct (modify_Ok w id ls (current_labels (tx w) id) Hw Ha) as (w1 & b & E1).
  destruct (modify_labels_at _ _ _ _ _ _ Hw E1) as (Hw1 & _ & H1).
  destruct (IH w1 Hw1) as (w2 & E2 & Hw2 & H2); [intros p Hp; apply HG; by right|].
  exists w2. rewrite E1. split_and!; [done..|]. intros m. rewrite (H2 m), (H1 m), fmap_cons. cbn [fst].
  destruct (decide (m = id)) as [->|Hne].
  - rewrite (bool_decide_eq_true_2 (id = id)), (bool_decide_eq_true_2 (id ∈ id :: _)) by (done || by left).
    assert ((relabel (ls, current_labels (tx w) id) <$> labels_at (tx w) id) =
            (λ _, list_to_set (G id)) <$> labels_at (tx w) id) as ->.
    { destruct (labels_at (tx w) id) as [x|] eqn:Ex; [|done]. apply labels_at_current in Ex as ->.
      cbn [fmap option_fmap option_map]. f_equal. apply set_eq. intros l.
      rewrite elem_of_relabel, !elem_of_list_to_set, EG. simpl. tauto. }
    case_bool_decide; [by destruct (labels_at (tx w) id)|done].
  - rewrite (bool_decide_eq_false_2 (m = id)) by done.
    by rewrite (bool_decide_ext (m ∈ id :: previous.*1) (m ∈ previous.*1)) by set_solver.
Qed.

(** The op a change queued gives the change's labels back. *)
Definition reversible (c : LocalChange) : Prop :=
  match c with
  | ChangeTrash _ | ChangeLabels _ [_] [] | ChangeLabels _ [] [_] => True
  | _ => False
  end.

Lemma affected_would_change s ts add remove p :
  p ∈ affected_messages s ts add remove → would_change p.2 add remove = true.
Proof. unfold affected_messages. by intros [H _]%elem_of_List_filter; destruct p. Qed.

Lemma relabel_single_undone before add remove :
  (∃ l, (add = [l] ∧ remove = []) ∨ (add = [] ∧ remove = [l])) → would_change before add remove = true →
  relabel (remove, add) (relabel (add, remove) (list_to_set before)) = list_to_set before.
Proof.
  intros (l & [[-> ->]|[-> ->]]); unfold would_change; simpl; rewrite ?orb_false_r.
  - intros Hl%negb_true_iff%bool_decide_eq_false. apply set_eq. intros x.
    rewrite !elem_of_relabel, elem_of_list_to_set. simpl. destruct (decide (x = l)); set_solver.
  - intros Hl%bool_decide_eq_true. apply set_eq. intros x.
    rewrite !elem_of_relabel, elem_of_list_to_set. simpl. destruct (decide (x = l)); set_solver.
Qed.

Lemma undo_op_undoes c s w ops diffs s1 op :
  consistent s → reversible c → change_mail c s = Ok (w, ops, diffs) →
  consistent s1 → (∀ m, labels_at s1 m = labels_at (tx w) m) → op ∈ ops →
  ∃ w', undo_op op (writer_new s1) = Ok w' ∧ writer_inv w' ∧ ∀ m, labels_at (tx w') m = labels_at s m.
Proof.
  intros Hs Hrev Ech Hs1 Hlab1 Hop. pose proof (writer_new_inv s Hs) as Hw0.
  pose proof (writer_new_inv s1 Hs1) as Hw1.
  destruct c as [ts add remove|ts| |]; cbn [reversible] in Hrev; [| |done..]; cbn [change_mail] in Ech;
    apply bind_Ok in Ech as (w1 & E & [= -> <- _]).
  - assert (∃ l, (add = [l] ∧ remove = []) ∨ (add = [] ∧ remove = [l])) as Hone.
    { destruct add as [|a [|]], remove as [|b [|]]; try done; eauto. }
    pose proof (affected_current s ts add remove) as Hcur.
    pose proof (affected_would_change s ts add remove) as Hchg.
    set (aff := affected_messages s ts add remove) in *. clearbody aff.
    rewrite (list_fmap_compose fst (λ m, (m, (add, remove))) aff
             : (λ p, (p.1, (add, remove))) <$> aff = (λ m, (m, (add, remove))) <$> aff.*1) in E.
    destruct (modify_all_labels_at _ _ _ _ Hw0 E) as [_ Hl].
    assert (op = ModifyLabels aff.*1 add remove ∧ ARCHIVE_LABEL ∉ remove) as [-> Ha].
    { destruct aff as [|p aff]; [by apply not_elem_of_nil in Hop|].
      split; [by apply list_elem_of_singleton in Hop|].
      specialize (Hcur p (list_elem_of_here _ _)). specialize (Hchg p (list_elem_of_here _ _)).
      destruct Hone as (l & [[-> ->]|[-> ->]]); [apply not_elem_of_nil|].
      intros <-%list_elem_of_singleton. unfold would_change in Hchg. simpl in Hchg.
      rewrite orb_false_r in Hchg. apply bool_decide_eq_true in Hchg. rewrite Hcur in Hchg.
      by apply (current_not_archive s p.1) in Hchg; [|apply Hs]. }
    cbn [undo_op]. destruct (modify_all_Ok (remove, add) aff.*1 _ Hw1 Ha) as [w' E'].
    destruct (modify_all_labels_at _ _ _ _ Hw1 E') as [Hw' Hl']. exists w'. split_and!; [done..|].
    intros m. rewrite (Hl' m). change (tx (writer_new s1)) with s1. rewrite (Hlab1 m), (Hl m).
    change (tx (writer_new s)) with s. case_bool_decide as Hm; [|done].
    apply list_elem_of_fmap in Hm as (p & -> & Hp).
    destruct (labels_at s p.1) as [x|] eqn:Ex; [|done]. apply labels_at_current in Ex as ->.
    cbn [fmap option_fmap option_map]. f_equal. apply relabel_single_undone; [done|].
    rewrite <- (Hcur p Hp). by apply Hchg.
  - pose proof (affected_current s ts [TRASH] []) as Hcur.
    set (aff := affected_messages s ts [TRASH] []) in *. clearbody aff.
    rewrite (list_fmap_compose fst (λ m, (m, ([TRASH], [INBOX]))) aff
             : (λ p, (p.1, ([TRASH], [INBOX]))) <$> aff = (λ m, (m, ([TRASH], [INBOX]))) <$> aff.*1) in E.
    destruct (modify_all_labels_at _ _ _ _ Hw0 E) as [_ Hl].
    assert (op = Trash aff.*1 aff) as ->.
    { destruct aff; [by apply not_elem_of_nil in Hop|]. by apply list_elem_of_singleton in Hop. }
    cbn [undo_op]. destruct (restore_each_labels_at (current_labels s) aff _ Hw1) as (w' & E' & Hw' & Hl').
    { intros p Hp. rewrite (Hcur p Hp). split; [done|]. apply current_not_archive, Hs. }
    exists w'. split_and!; [done..|]. intros m. rewrite (Hl' m). change (tx (writer_new s1)) with s1.
    rewrite (Hlab1 m), (Hl m). change (tx (writer_new s)) with s. case_bool_decide as Hm; [|done].
    destruct (labels_at s m) as [x|] eqn:Ex; [|done]. by apply labels_at_current in Ex as ->.
Qed.

(** The rows a change appends to the outbox. *)
Lemma enqueue_all_rows now ops d r :
  r ∈ outbox (foldl (λ d op, (enqueue op now d).1) d ops) → r ∈ outbox d ∨ ob_op r ∈ ops.
Proof.
  revert d. induction ops as [|op ops IH]; intros d; cbn [foldl]; [by left|].
  intros [Hr|Hr]%IH; [|right; by right]. simpl in Hr.
  apply elem_of_app in Hr as [Hr|Hr]; [by left|]. apply list_elem_of_singleton in Hr as ->. right. by left.
Qed.

Lemma apply_change_rows c rec now d d' ap r :
  apply_local_change_recorded to_lowercase c true rec now d = Ok (d', ap) → r ∈ outbox d' →
  ∃ w ops diffs, change_mail c (mail d) = Ok (w, ops, diffs) ∧ (r ∈ outbox d ∨ ob_op r ∈ ops).
Proof.
  unfold apply_local_change_recorded.
  intros ([[w ops] diffs] & E1 & ([s ch] & _ & E3)%bind_Ok)%bind_Ok Hr. exists w, ops, diffs.
  split; [done|]. apply (enqueue_all_rows now ops (with_mail s d)).
  destruct rec as [kind|]; [|injection E3 as <- _; done]. case_bool_decide; [|injection E3 as <- _; done].
  destruct (record kind diffs _) as [d2 id] eqn:Er. injection E3 as <- _. injection Er as <- _. done.
Qed.

End undo.

(** ** What the queued ops do on the server *)

(** An op's effect on the labels of one message: the trash endpoint adds
    [TRASH] and takes the message out of the Inbox, the untrash endpoint
    removes [TRASH]. *)
Definition op_effect (m : MessageId) (ls : gset LabelId) (op : OutboxOp) : gset LabelId :=
  match op with
  | ModifyLabels ids add remove => if bool_decide (m ∈ ids) then relabel (add, remove) ls else ls
  | Trash ids _ => if bool_decide (m ∈ ids) then relabel ([TRASH], [INBOX]) ls else ls
  | Untrash ids => if bool_decide (m ∈ ids) then relabel ([], [TRASH]) ls else ls
  | _ => ls
  end.
Definition ops_effect (m : MessageId) (ls : gset LabelId) (ops : list OutboxOp) : gset LabelId :=
  foldl (op_effect m) ls ops.

Lemma labels_compare_eq a b : labels_compare a b = Eq → a = b.
Proof.
  revert b. induction a as [|x a IH]; intros [|y b]; simpl; try done.
  destruct (String.compare x y) eqn:E; try done. apply String.compare_eq_iff in E as ->.
  by intros ->%IH.
Qed.
Lemma key_compare_eq a b : key_compare a b = Eq → a = b.
Proof.
  unfold key_compare. destruct a as [a1 a2], b as [b1 b2]. simpl.
  destruct (labels_compare a1 b1) eqn:E; try done. apply labels_compare_eq in E as ->.
  by intros ->%labels_compare_eq.
Qed.

Definition in_group (k : change_key) (m : MessageId) (gs : list (change_key * list MessageId)) : Prop :=
  ∃ ids, (k, ids) ∈ gs ∧ m ∈ ids.
Lemma in_group_cons k m k' ids gs :
  in_group k m ((k', ids) :: gs) ↔ (k = k' ∧ m ∈ ids) ∨ in_group k m gs.
Proof. unfold in_group. setoid_rewrite elem_of_cons. naive_solver. Qed.
Lemma in_group_nil k m : ¬ in_group k m [].
Proof. by intros (? & ?%not_elem_of_nil & _). Qed.

Lemma in_push_group k m k' m' gs :
  in_group k' m' (push_group k m gs) ↔ (k' = k ∧ m' = m) ∨ in_group k' m' gs.
Proof.
  induction gs as [|[k0 ids] gs IH]; simpl.
  { rewrite in_group_cons, list_elem_of_singleton. done. }
  destruct (key_compare k k0) eqn:E; rewrite !in_group_cons.
  - apply key_compare_eq in E as ->. rewrite elem_of_app, list_elem_of_singleton. tauto.
  - rewrite list_elem_of_singleton. tauto.
  - rewrite IH. tauto.
Qed.

Lemma in_group_diffs k m diffs :
  in_group k m (group_diffs diffs) ↔
  ∃ d, d ∈ diffs ∧ diff_empty d = false ∧ df_message d = m ∧ diff_change d = k.
Proof.
  unfold group_diffs.
  assert (∀ l gs, in_group k m (foldl (λ gs d, push_group (df_added d, df_removed d) (df_message d) gs) gs l) ↔
            in_group k m gs ∨ ∃ d, d ∈ l ∧ df_message d = m ∧ diff_change d = k) as Hfold.
  { induction l as [|d l IH]; intros gs; simpl.
    - split; [by left|]. intros [?|(? & ?%not_elem_of_nil & _)]; done.
    - rewrite IH, in_push_group. setoid_rewrite elem_of_cons. unfold diff_change. naive_solver. }
  rewrite Hfold. setoid_rewrite elem_of_List_filter. setoid_rewrite negb_true_iff.
  split; [intros [[]%in_group_nil|?]|intros ?; right]; naive_solver.
Qed.

Section groups.
Context (ops_of : change_key * list MessageId → list OutboxOp) (m : MessageId) (K : change_key).
Context (cond : gset LabelId → Prop).
Hypothesis ops_of_in : ∀ ids ls, m ∈ ids → cond ls → ops_effect m ls (ops_of (K, ids)) = relabel K ls.
Hypothesis ops_of_out : ∀ k ids ls, m ∉ ids → ops_effect m ls (ops_of (k, ids)) = ls.
Hypothesis cond_relabel : ∀ ls, cond ls → cond (relabel K ls).

(** Every group of the message has its change: in all, it gets it once. *)
Lemma groups_effect gs ls :
  (∀ k, in_group k m gs → k = K) → cond ls →
  (in_group K m gs → ops_effect m ls (gs ≫= ops_of) = relabel K ls) ∧
  (¬ in_group K m gs → ops_effect m ls (gs ≫= ops_of) = ls).
Proof.
  revert ls. induction gs as [|[k ids] gs IH]; intros ls HK Hc.
  { split; [by intros []%in_group_nil|done]. }
  rewrite bind_cons. unfold ops_effect in *. rewrite foldl_app.
  assert (∀ k, in_group k m gs → k = K) as HK' by (intros k' ?; apply HK, in_group_cons; by right).
  destruct (decide (m ∈ ids)) as [Hm|Hm].
  - assert (k = K) as -> by (apply HK, in_group_cons; by left). rewrite ops_of_in by done.
    destruct (IH (relabel K ls) HK' (cond_relabel ls Hc)) as [H1 H2]. split.
    + intros _. destruct (decide (Exists (λ x, x.1 = K ∧ m ∈ x.2) gs)) as [([k0 ids0] & ? & ? & ?)%Exists_exists|Hn].
      * simpl in *. subst k0. rewrite H1 by (eexists; eauto). apply set_eq. intros x.
        rewrite !elem_of_relabel. tauto.
      * apply H2. intros (ids0 & ? & ?). apply Hn, Exists_exists. exists (K, ids0). done.
    + intros Hn. destruct Hn. apply in_group_cons. by left.
  - rewrite ops_of_out by done. destruct (IH ls HK' Hc) as [H1 H2].
    split; intros H; [apply H1|apply H2]; rewrite in_group_cons in H; tauto.
Qed.
End groups.

(** *** The two ways to send a diff *)

Lemma chunks_fuel_spec {A} fuel n (l : list A) :
  1 ≤ n → length l ≤ fuel → concat (chunks_fuel fuel n l) = l ∧
  ∀ c, c ∈ chunks_fuel fuel n l → length c ≤ n.
Proof.
  intros Hn. revert l. induction fuel as [|fuel IH]; intros [|x l] Hl; simpl in Hl; try lia;
    try (split; [done|]; by intros c ?%not_elem_of_nil).
  destruct (IH (drop n (x :: l))) as [Hc Hlen]; [rewrite length_drop; simpl; lia|].
  split.
  - change (take n (x :: l) ++ concat (chunks_fuel fuel n (drop n (x :: l))) = x :: l).
    by rewrite Hc, take_drop.
  - intros c [->|Hin]%elem_of_cons; [rewrite length_take; lia|by apply Hlen].
Qed.

Lemma elem_of_chunks (ids : list MessageId) m : (∃ c, c ∈ chunks BATCH ids ∧ m ∈ c) ↔ m ∈ ids.
Proof.
  destruct (chunks_fuel_spec (length ids) BATCH ids) as [Hc _]; [unfold BATCH; lia|done|].
  assert (m ∈ ids ↔ m ∈ concat (chunks BATCH ids)) as -> by (unfold chunks; by rewrite Hc).
  induction (chunks BATCH ids) as [|c cs IH]; simpl.
  - split; [intros (? & ?%not_elem_of_nil & _)|intros ?%not_elem_of_nil]; done.
  - rewrite elem_of_app, <- IH. setoid_rewrite elem_of_cons. naive_solver.
Qed.

Lemma chunks_effect k (cs : list (list MessageId)) m ls :
  ops_effect m ls ((λ c, ModifyLabels c k.1 k.2) <$> cs) =
  if bool_decide (Exists (λ c, m ∈ c) cs) then relabel k ls else ls.
Proof.
  unfold ops_effect. revert ls. induction cs as [|c cs IH]; intros ls; [done|].
  rewrite fmap_cons. cbn [foldl op_effect]. rewrite IH. destruct k as [add remove]. cbn [fst snd].
  destruct (decide (m ∈ c)) as [Hm|Hm].
  - rewrite (bool_decide_eq_true_2 (m ∈ c)), (bool_decide_eq_true_2 (Exists _ (c :: cs))) by (done || by left).
    case_bool_decide; [apply change_labels_idemp|done].
  - rewrite (bool_decide_eq_false_2 (m ∈ c)) by done.
    rewrite (bool_decide_ext (Exists (λ c, m ∈ c) (c :: cs)) (Exists (λ c, m ∈ c) cs)); [done|].
    rewrite Exists_cons. tauto.
Qed.

Definition batch_ops (g : change_key * list MessageId) : list OutboxOp :=
  (λ c, ModifyLabels c g.1.1 g.1.2) <$> chunks BATCH g.2.
Lemma batched_ops_groups diffs : batched_ops diffs = group_diffs diffs ≫= batch_ops.
Proof.
  unfold batched_ops. apply list_bind_ext; [|done]. intros [[add remove] ids].
  unfold batch_ops. simpl. induction (chunks BATCH ids) as [|c cs IH]; [done|].
  rewrite bind_cons, IH. done.
Qed.
Lemma batch_ops_effect k ids m ls :
  ops_effect m ls (batch_ops (k, ids)) = if bool_decide (m ∈ ids) then relabel k ls else ls.
Proof.
  unfold batch_ops. simpl. rewrite chunks_effect.
  rewrite (bool_decide_ext (Exists (λ c, m ∈ c) (chunks BATCH ids)) (m ∈ ids)); [done|].
  by rewrite <- elem_of_chunks, Exists_exists.
Qed.

(** The trash endpoints: exact unless the change puts a message of the
    Inbox in the Trash and neither takes it out of the Inbox nor puts it
    there. *)
Definition trash_exact (k : change_key) (ls : gset LabelId) : Prop :=
  TRASH ∈ k.1 → INBOX ∈ k.1 ∨ INBOX ∈ k.2 ∨ INBOX ∉ ls.

Lemma elem_of_without l x ls : x ∈ without l ls ↔ x ≠ l ∧ x ∈ ls.
Proof. unfold without. by rewrite elem_of_List_filter, negb_true_iff, bool_decide_eq_false. Qed.

Lemma modify_op_effect ids add remove m ls :
  m ∈ ids →
  ops_effect m ls (modify_op ids add remove) = relabel (add, remove) ls.
Proof.
  intros Hm. unfold ops_effect, modify_op. destruct add, remove; simpl; rewrite ?bool_decide_eq_true_2 by done; try done.
  apply set_eq. intros x. rewrite elem_of_relabel. simpl. set_solver.
Qed.

Lemma group_ops_effect s k ids m ls :
  m ∈ ids → trash_exact k ls → ops_effect m ls (group_ops s (k, ids)) = relabel k ls.
Proof.
  intros Hm Hk. destruct k as [add remove]. unfold group_ops, trash_exact in *. simpl in Hk.
  set (untrash := bool_decide (TRASH ∈ remove)). set (trash := bool_decide (TRASH ∈ add)).
  unfold ops_effect. rewrite !foldl_app.
  fold (ops_effect m ls (if untrash then [Untrash ids] else [])).
  assert (ops_effect m ls (if untrash then [Untrash ids] else []) =
          if untrash then relabel ([], [TRASH]) ls else ls) as ->.
  { unfold ops_effect. destruct untrash; simpl; [by rewrite bool_decide_eq_true_2|done]. }
  set (ls1 := if untrash then _ else ls).
  fold (ops_effect m ls1 (if trash then [Trash ids ((λ m, (m, current_labels s m)) <$> ids)] else [])).
  assert (ops_effect m ls1 (if trash then [Trash ids ((λ m, (m, current_labels s m)) <$> ids)] else []) =
          if trash then relabel ([TRASH], [INBOX]) ls1 else ls1) as ->.
  { unfold ops_effect. destruct trash; simpl; [by rewrite bool_decide_eq_true_2|done]. }
  set (ls2 := if trash then _ else ls1).
  match goal with |- foldl _ ls2 (modify_op ?i ?a ?r) = _ => fold (ops_effect m ls2 (modify_op i a r)) end.
  rewrite modify_op_effect by done. subst ls2 ls1 trash untrash.
  apply set_eq. intros x. rewrite !elem_of_relabel. simpl.
  assert (TRASH ≠ INBOX) as Hti by done.
  destruct (bool_decide_reflect (TRASH ∈ remove)), (bool_decide_reflect (TRASH ∈ add));
    rewrite ?elem_of_relabel; simpl; rewrite ?elem_of_without, ?list_elem_of_singleton, ?elem_of_nil;
    (destruct (decide (x = TRASH)) as [->|?]; [|destruct (decide (x = INBOX)) as [->|?]]);
    intuition congruence.
Qed.

(** *** Exactness of both *)

Lemma relabel_nil ls : relabel ([], []) ls = ls.
Proof. apply set_eq. intros x. rewrite elem_of_relabel. simpl. set_solver. Qed.
Lemma empty_change d : diff_empty d = true → diff_change d = ([], []).
Proof. unfold diff_empty, diff_change. by destruct (df_added d), (df_removed d). Qed.

Lemma op_effect_out ops m ls :
  (∀ op, op ∈ ops → op_effect m ls op = ls) → ops_effect m ls ops = ls.
Proof.
  unfold ops_effect. induction ops as [|op ops IH]; intros Hop; simpl; [done|].
  rewrite Hop by by left. apply IH. intros op' ?. apply Hop. by right.
Qed.
Lemma group_ops_out s k ids m ls : m ∉ ids → ops_effect m ls (group_ops s (k, ids)) = ls.
Proof.
  intros Hm. destruct k as [add remove]. apply op_effect_out. intros op. unfold group_ops.
  assert (∀ b (o : OutboxOp), op ∈ (if b : bool then [o] else []) → op = o) as Hone.
  { intros [] o; [by intros ?%list_elem_of_singleton|by intros ?%not_elem_of_nil]. }
  assert (∀ a r, op ∈ modify_op ids a r → op = ModifyLabels ids a r) as Hmod.
  { intros [|??] [|??]; simpl; try (by intros ?%list_elem_of_singleton). by intros ?%not_elem_of_nil. }
  rewrite !elem_of_app. intros [->%Hone|[->%Hone| ->%Hmod]]; simpl; by rewrite bool_decide_eq_false_2.
Qed.

Lemma diff_in_group diffs m k :
  in_group k m (group_diffs diffs) → ∃ d, d ∈ diffs ∧ df_message d = m ∧ diff_change d = k.
Proof. intros (d & ? & _ & ? & ?)%in_group_diffs. eauto. Qed.

(** One list of diffs, one way to send them: on its own message a diff has
    its change, on others nothing. *)
Lemma diffs_effect ops_of (cond : change_key → gset LabelId → Prop) diffs m ls :
  (∀ k ids ls, m ∈ ids → cond k ls → ops_effect m ls (ops_of (k, ids)) = relabel k ls) →
  (∀ k ids ls, m ∉ ids → ops_effect m ls (ops_of (k, ids)) = ls) →
  (∀ k ls, cond k ls → cond k (relabel k ls)) →
  NoDup (df_message <$> diffs) →
  (∀ d, d ∈ diffs → df_message d = m → cond (diff_change d) ls →
     ops_effect m ls (group_diffs diffs ≫= ops_of) = relabel (diff_change d) ls) ∧
  (m ∉ df_message <$> diffs → ops_effect m ls (group_diffs diffs ≫= ops_of) = ls).
Proof.
  intros Hin Hout Hcond Hn. split.
  - intros d Hd <- Hc.
    destruct (groups_effect ops_of (df_message d) (diff_change d) (cond (diff_change d))
                ltac:(intros; by apply Hin) ltac:(intros; by apply Hout) ltac:(intros; by apply Hcond)
                (group_diffs diffs) ls) as [H1 H2]; [|done|].
    { intros k (d' & Hd' & E & <-)%diff_in_group. by rewrite (NoDup_fmap_inj df_message _ _ _ Hn Hd' Hd E). }
    destruct (diff_empty d) eqn:Ee.
    + rewrite (empty_change d Ee), relabel_nil. rewrite (empty_change d Ee) in *. apply H2.
      intros (d' & Hd' & Ee' & E & _)%in_group_diffs.
      rewrite (NoDup_fmap_inj df_message _ _ _ Hn Hd' Hd E) in Ee'. congruence.
    + apply H1. apply in_group_diffs. eauto.
  - intros Hm.
    assert (∀ k, ¬ in_group k m (group_diffs diffs)) as Hno.
    { intros k (d & Hd & <- & _)%diff_in_group. by apply Hm, list_elem_of_fmap_2. }
    revert Hno. generalize (group_diffs diffs). intros gs. revert ls.
    induction gs as [|[k ids] gs IH]; intros ls Hno; [done|].
    rewrite bind_cons. unfold ops_effect in *. rewrite foldl_app, Hout.
    + apply IH. intros k' Hk'. apply (Hno k'), in_group_cons. by right.
    + intros Hi. apply (Hno k), in_group_cons. by left.
Qed.

Lemma trash_exact_relabel k ls : trash_exact k ls → trash_exact k (relabel k ls).
Proof. unfold trash_exact. rewrite elem_of_relabel. destruct (decide (INBOX ∈ k.1)); tauto. Qed.

(** The two ways to send exact diffs to the provider (the trash
    endpoints, or label changes in batches) do to every message exactly what
    its diff says and nothing to other messages; the trash endpoints differ
    only for a diff that moves a message of the Inbox to the Trash without
    naming the Inbox.  A batch never names more than [BATCH] messages. *)
Theorem diffs_sent_exactly s diffs m ls :
  NoDup (df_message <$> diffs) →
  (∀ d, d ∈ diffs → df_message d = m →
     ops_effect m ls (batched_ops diffs) = relabel (diff_change d) ls ∧
     (trash_exact (diff_change d) ls → ops_effect m ls (provider_ops s diffs) = relabel (diff_change d) ls)) ∧
  (m ∉ df_message <$> diffs →
     ops_effect m ls (batched_ops diffs) = ls ∧ ops_effect m ls (provider_ops s diffs) = ls) ∧
  (∀ op, op ∈ batched_ops diffs → ∃ ids add remove, op = ModifyLabels ids add remove ∧ length ids ≤ BATCH).
Proof.
  intros Hn.
  destruct (diffs_effect batch_ops (λ _ _, True) diffs m ls) as [Hb1 Hb2]; [| |done|done|].
  { intros k ids ls' Hm _. by rewrite batch_ops_effect, bool_decide_eq_true_2. }
  { intros k ids ls' Hm. by rewrite batch_ops_effect, bool_decide_eq_false_2. }
  destruct (diffs_effect (group_ops s) trash_exact diffs m ls) as [Hp1 Hp2];
    [by intros; apply group_ops_effect|by intros; apply group_ops_out|apply trash_exact_relabel|done|].
  rewrite batched_ops_groups. unfold provider_ops. split_and!; [by eauto..|].
  intros op ([k ids] & Hop & _)%list_elem_of_bind. unfold batch_ops in Hop.
  apply list_elem_of_fmap in Hop as (c & -> & Hc). do 3 eexists. split; [done|].
  eapply (chunks_fuel_spec (length ids) BATCH ids); [unfold BATCH; lia|done|exact Hc].
Qed.

(** ** Concrete actions *)

Definition undo_db : Db := with_mail demo_store empty_db.
Lemma demo_consistent : consistent demo_store.
Proof.
  apply (reachable_consistent ascii_lower).
  apply (reachable_session _ empty_store demo_session demo_writer demo_store demo_finished.2);
    [apply reachable_empty|exact demo_valid|exact demo_runs|].
  rewrite demo_finishes. unfold demo_store. by destruct demo_finished.
Qed.
Definition trashed : Db * AppliedChange :=
  default (undo_db, mkApplied ∅ None 0)
    (ok (apply_local_change_recorded ascii_lower (ChangeTrash ["t1"]) true (Some "trash") 5 undo_db)).
Lemma trash_runs :
  apply_local_change_recorded ascii_lower (ChangeTrash ["t1"]) true (Some "trash") 5 undo_db = Ok trashed.
Proof. unfold trashed. apply is_ok_default. vm_compute. reflexivity. Qed.

Lemma undo_restores_labels_witness :
  current_labels (mail trashed.1) "m2" = ["CATEGORY_UPDATES"; "TRASH"] ∧
  ∃ a d2 ap2, get_action 1 trashed.1 = Some a ∧
    apply_local_change_recorded ascii_lower (ChangeExact (inverse <$> ua_diffs a) false) true (Some "undo") 6 trashed.1
      = Ok (d2, ap2) ∧
    ∀ m, labels_at (mail d2) m = labels_at demo_store m.
Proof.
  split; [vm_compute; reflexivity|].
  apply (undo_restores_labels ascii_lower (ChangeTrash ["t1"]) true "trash" 5 undo_db trashed.1 trashed.2 1 false
           true (Some "undo") 6).
  - exact demo_consistent.
  - intros a Ha. by apply not_elem_of_nil in Ha.
  - exact I.
  - rewrite trash_runs. by destruct trashed.
  - vm_compute. reflexivity.
Defined.

Definition trash_row : OutboxRow :=
  default (mkOutbox 0 (Untrash []) 0 0 None Pending None None None) (find_op 1 trashed.1).

Lemma diffs_sent_exactly_witness :
  let diffs := [mkDiff "m1" ["TRASH"] ["INBOX"]; mkDiff "m2" [] ["UNREAD"]] in
  provider_ops demo_store diffs = [ModifyLabels ["m2"] [] ["UNREAD"]; Trash ["m1"] [("m1", ["Label_1"; "UNREAD"])]] ∧
  ops_effect "m1" {["INBOX"; "UNREAD"]} (provider_ops demo_store diffs) = relabel (["TRASH"], ["INBOX"]) {["INBOX"; "UNREAD"]}.
Proof.
  split; [vm_compute; reflexivity|].
  apply (diffs_sent_exactly demo_store [mkDiff "m1" ["TRASH"] ["INBOX"]; mkDiff "m2" [] ["UNREAD"]] "m1"
           {["INBOX"; "UNREAD"]}) with (d := mkDiff "m1" ["TRASH"] ["INBOX"]).
  - apply NoDup_cons. split; [by intros ?%list_elem_of_singleton|apply NoDup_singleton].
  - by left.
  - reflexivity.
  - intros _. right. left. by left.
Defined.

(** What a failed change of two labels does instead: a conversation of an
    Inbox message and a sent one is marked as junk, the op fails for good,
    and the sent message, which never was in the Inbox, ends up there. *)
Definition junk_session : list WriterOp :=
  [UpsertLabels [mkLabel "INBOX" "Inbox" SystemLabel None true; mkLabel "SENT" "Sent" SystemLabel None true];
   UpsertMessage (demo_message "in" "t" ["INBOX"] 1); UpsertMessage (demo_message "out" "t" ["SENT"] 2)].
Definition junk_labels : StoreResult (list (list LabelId)) :=
  w ← run_session (writer_new empty_store) junk_session;
  '(s, _) ← finish ascii_lower w;
  '(d1, _) ← apply_local_change_recorded ascii_lower (mark_junk ["t"]) true None 5 (with_mail s empty_db);
  '(d2, _) ← fail ascii_lower 1 "permission denied: no" d1;
  Ok [current_labels s "out"; current_labels (mail d1) "out"; current_labels (mail d2) "out"].
Example junk_failure_ex : junk_labels = Ok [["SENT"]; ["SENT"; "SPAM"]; ["INBOX"; "SENT"]].
Proof. vm_compute. reflexivity. Qed.
