(* ===== verification/Queue.v ===== *)
(** * Queue: message ids waiting for a fetch ([mail-store/src/queue.rs])

    The [backfill_queue] table: a sequence number (AUTOINCREMENT; urgent ids
    are given one below the smallest), a priority (0 first; from
    [HEADERS_ONLY] up, headers only) and a message id, which is UNIQUE. *)

From S2P Require Import Prelude.
From S2P Require Import Domain.
From S2P Require Import MailStore.

Definition HEADERS_ONLY : Z := 10.
Definition INBOX_PRIORITIES : Z := 2.

Record QueueRow := mkQueueRow { qr_seq : Z; qr_priority : Z; qr_id : MessageId }.

(** The rows in the order they were inserted, and AUTOINCREMENT's
    high-water mark. *)
Record BackfillQueue := mkQueue { q_rows : list QueueRow; q_seq : Z }.
Definition empty_queue : BackfillQueue := mkQueue [] 0.
Definition with_rows (l : list QueueRow) (q : BackfillQueue) : BackfillQueue := mkQueue l (q_seq q).

(** [SELECT 1 FROM messages WHERE gmail_id = ?1 (AND body_state = 'full')] *)
Definition is_stored (s : Store) (id : MessageId) : bool := bool_decide (is_Some (find_message s id)).
Definition is_full (s : Store) (id : MessageId) : bool :=
  match find_message s id with Some r => bool_decide (ms_body_state r = Full) | None => false end.

Definition find_queued (id : MessageId) (q : BackfillQueue) : option QueueRow := find_by qr_id id (q_rows q).
Definition priority_of (q : BackfillQueue) (id : MessageId) : option Z := qr_priority <$> find_queued id q.

(** [INSERT INTO backfill_queue (priority, gmail_id)] *)
Definition insert_row (priority : Z) (id : MessageId) (q : BackfillQueue) : BackfillQueue :=
  let seq := (foldr Z.max (q_seq q) (qr_seq <$> q_rows q) + 1)%Z in
  mkQueue (q_rows q ++ [mkQueueRow seq priority id]) seq.
(** [UPDATE backfill_queue SET priority = ?1 WHERE gmail_id = ?2] *)
Definition raise_row (priority : Z) (id : MessageId) (q : BackfillQueue) : BackfillQueue :=
  with_rows ((λ r, if bool_decide (qr_id r = id) then mkQueueRow (qr_seq r) priority (qr_id r) else r)
             <$> q_rows q) q.
(** [DELETE FROM backfill_queue WHERE gmail_id = ?1] *)
Definition remove_row (id : MessageId) (q : BackfillQueue) : BackfillQueue :=
  with_rows (List.filter (λ r, negb (bool_decide (qr_id r = id))) (q_rows q)) q.

(** ** Queueing *)

(** [enqueue], one id: the queue and how many were queued. *)
Definition enqueue_one (s : Store) (priority : Z) (refetch : bool) (id : MessageId)
    (q : BackfillQueue) : BackfillQueue * nat :=
  let exists_ := if (HEADERS_ONLY <=? priority)%Z then is_stored s id else is_full s id in
  if negb refetch && exists_ then (q, 0)
  else match priority_of q id with
       | None => (insert_row priority id q, 1)
       | Some p => if (priority <? p)%Z then (raise_row priority id q, 0) else (q, 0)
       end.
Fixpoint enqueue (s : Store) (priority : Z) (ids : list MessageId) (refetch : bool) (q : BackfillQueue) :
    BackfillQueue * nat :=
  match ids with
  | [] => (q, 0)
  | id :: ids =>
      let '(q, n) := enqueue_one s priority refetch id q in
      let '(q, m) := enqueue s priority ids refetch q in
      (q, n + m)
  end.

(** [enqueue_urgent]: inserted last to first, each in front of the queue. *)
Definition min_seq (q : BackfillQueue) : Z :=
  match q_rows q with
  | [] => 0%Z
  | r :: rows => foldr Z.min (qr_seq r) (qr_seq <$> rows)
  end.
Definition insert_front (id : MessageId) (q : BackfillQueue) : BackfillQueue :=
  mkQueue (q_rows q ++ [mkQueueRow (min_seq q - 1) 0 id]) (Z.max (q_seq q) (min_seq q - 1)).
Definition urgent_one (s : Store) (id : MessageId) (acc : BackfillQueue * nat) : BackfillQueue * nat :=
  let '(q, n) := acc in
  if is_full s id then (q, n) else (insert_front id (remove_row id q), S n).
Definition enqueue_urgent (s : Store) (ids : list MessageId) (q : BackfillQueue) : BackfillQueue * nat :=
  foldr (urgent_one s) (q, 0) ids.

(** ** Reading *)

(** [ORDER BY priority, seq] *)
Definition queue_le (a b : QueueRow) : Prop :=
  (qr_priority a < qr_priority b)%Z ∨ (qr_priority a = qr_priority b ∧ (qr_seq a ≤ qr_seq b)%Z).
#[export] Instance queue_le_dec a b : Decision (queue_le a b).
Proof. unfold queue_le. apply _. Defined.
Definition in_order (p : QueueRow → bool) (q : BackfillQueue) : list MessageId :=
  qr_id <$> merge_sort queue_le (List.filter p (q_rows q)).

Definition wants_body (r : QueueRow) : bool := (qr_priority r <? HEADERS_ONLY)%Z.
Definition peek (limit : nat) (q : BackfillQueue) : list MessageId := take limit (in_order wants_body q).
Definition wants_headers (s : Store) (r : QueueRow) : bool :=
  (HEADERS_ONLY <=? qr_priority r)%Z || negb (is_stored s (qr_id r)).
Definition for_headers (s : Store) (limit : nat) (q : BackfillQueue) : list MessageId :=
  take limit (in_order (wants_headers s) q).
Definition inbox_filling (s : Store) (q : BackfillQueue) : bool :=
  List.existsb (λ r, (qr_priority r <? INBOX_PRIORITIES)%Z && negb (is_stored s (qr_id r))) (q_rows q).
Definition len (q : BackfillQueue) : nat := length (q_rows q).
Definition counts (q : BackfillQueue) : nat * nat :=
  (count wants_body (q_rows q), count (λ r, (HEADERS_ONLY <=? qr_priority r)%Z) (q_rows q)).
Definition missing (s : Store) (ids : list MessageId) : list MessageId :=
  List.filter (λ id, negb (is_full s id)) ids.

(** ** Removing *)

Definition remove_headers_one (id : MessageId) (q : BackfillQueue) : BackfillQueue * nat :=
  let p r := bool_decide (qr_id r = id) && (HEADERS_ONLY <=? qr_priority r)%Z in
  (with_rows (List.filter (λ r, negb (p r)) (q_rows q)) q, count p (q_rows q)).
Fixpoint remove_headers_only (ids : list MessageId) (q : BackfillQueue) : BackfillQueue * nat :=
  match ids with
  | [] => (q, 0)
  | id :: ids =>
      let '(q, n) := remove_headers_one id q in
      let '(q, m) := remove_headers_only ids q in
      (q, n + m)
  end.
Definition promote_headers_only (q : BackfillQueue) : BackfillQueue * nat :=
  let p r := (HEADERS_ONLY <=? qr_priority r)%Z in
  (with_rows ((λ r, if p r then mkQueueRow (qr_seq r) (qr_priority r - HEADERS_ONLY) (qr_id r) else r)
              <$> q_rows q) q, count p (q_rows q)).
Definition remove (ids : list MessageId) (q : BackfillQueue) : BackfillQueue :=
  foldl (λ q id, remove_row id q) q ids.
Definition clear_from_priority (priority : Z) (q : BackfillQueue) : BackfillQueue * nat :=
  let p r := (priority <=? qr_priority r)%Z in
  (with_rows (List.filter (λ r, negb (p r)) (q_rows q)) q, count p (q_rows q)).

(** * What is downloaded, and how much of it
    ([mail-sync/src/engine.rs], lines 17-263)

    The sync window, the body window, the phases they list, and the stored
    settings ([sync_state]) that [widen_stored] changes. *)

Inductive SyncWindow := WMonth | WHalfYear | WYear | WEverything.
#[export] Instance sync_window_eq_dec : EqDecision SyncWindow.
Proof. solve_decision. Defined.
Definition SyncWindow_ALL : list SyncWindow := [WMonth; WHalfYear; WYear; WEverything].
Definition default_window : SyncWindow := WHalfYear.
Definition window_str (w : SyncWindow) : string :=
  match w with WMonth => "1m" | WHalfYear => "6m" | WYear => "1y" | WEverything => "all" end.
Definition parse_window (s : string) : option SyncWindow :=
  List.find (λ w, String.eqb (window_str w) s) SyncWindow_ALL.

Inductive BodyWindow := BMonth | BHalfYear | BYear | BWindow.
#[export] Instance body_window_eq_dec : EqDecision BodyWindow.
Proof. solve_decision. Defined.
Definition BodyWindow_ALL : list BodyWindow := [BMonth; BHalfYear; BYear; BWindow].
Definition default_body_window : BodyWindow := BMonth.
Definition body_window_str (b : BodyWindow) : string :=
  match b with BMonth => "30d" | BHalfYear => "6m" | BYear => "1y" | BWindow => "window" end.
Definition parse_body_window (s : string) : option BodyWindow :=
  List.find (λ b, String.eqb (body_window_str b) s) BodyWindow_ALL.

(** [BodyWindow::headers_from]: the first priority listed for headers only. *)
Definition body_headers_from (b : BodyWindow) : option Z :=
  match b with BMonth => Some 3%Z | BHalfYear => Some 4%Z | BYear => Some 5%Z | BWindow => None end.
Definition kept_from (b : BodyWindow) (w : SyncWindow) : BodyWindow :=
  match b, w with
  | BWindow, WMonth => BMonth
  | BWindow, WHalfYear => BHalfYear
  | BWindow, WYear => BYear
  | body, _ => body
  end.

(** ** Phases *)

Record Phase := mkPhase { ph_priority : Z; ph_labels : list string; ph_query : option string }.
#[export] Instance phase_eq_dec : EqDecision Phase.
Proof. solve_decision. Defined.

Definition phases_for (w : SyncWindow) : list Phase :=
  let phases :=
    [mkPhase 0 ["INBOX"] (Some "is:unread"); mkPhase 1 ["INBOX"] None;
     mkPhase 2 [] (Some "newer_than:30d"); mkPhase 2 ["SPAM"] None; mkPhase 2 ["TRASH"] None] in
  let half := mkPhase 3 [] (Some "newer_than:180d") in
  let year := mkPhase 4 [] (Some "newer_than:365d") in
  match w with
  | WMonth => phases
  | WHalfYear => phases ++ [half]
  | WYear => phases ++ [half; year]
  | WEverything => phases ++ [half; year; mkPhase 5 [] None]
  end.

Definition queue_priority (p : Phase) (headers_from : option Z) : Z :=
  match headers_from with
  | Some cut => if (cut <=? ph_priority p)%Z then (ph_priority p + HEADERS_ONLY)%Z else ph_priority p
  | None => ph_priority p
  end.
Definition tiers_tag (headers_from : option Z) : string :=
  match headers_from with None => "flat" | Some cut => "headers-from-" +:+ pretty cut end.
Definition phase_search (p : Phase) : string :=
  join " " (((λ l, "in:" +:+ ascii_lower l) <$> ph_labels p) ++ option_list (ph_query p)).

Definition INBOX_PHASES : nat := 2.
Definition FIXED_PHASES : nat := 5.
Definition WINDOW_PRIORITY : Z := 3.
Definition BACKFILL_BATCH : nat := 50.

Definition KEY_CURSOR : string := "history_cursor".
Definition KEY_BOOTSTRAPPED : string := "bootstrap_listed".
Definition KEY_EMAIL : string := "account_email".
Definition KEY_WINDOW : string := "sync_window".
Definition KEY_BODY_WINDOW : string := "body_window".
Definition KEY_TIERS : string := "queue_tiers".
Definition KEY_CLEANUP_HEADERS : string := "cleanup_headers_only".
Definition CLEANUP_ASK : string := "ask".
Definition CLEANUP_NO : string := "no".

(** ** Stored settings

    [read::sync_state], [read::set_sync_state]: a table of strings. *)
Abbreviation Settings := (gmap string string).
Definition set_sync_state (key value : string) (st : Settings) : Settings := <[key := value]> st.

Definition stored_window (st : Settings) : SyncWindow :=
  default default_window (st !! KEY_WINDOW ≫= parse_window).
Definition stored_body_window (st : Settings) : BodyWindow :=
  default default_body_window (st !! KEY_BODY_WINDOW ≫= parse_body_window).
Definition cleanup_tier_waits (st : Settings) : bool := bool_decide (st !! KEY_CLEANUP_HEADERS = Some CLEANUP_ASK).

(** [SyncEngine::headers_from] *)
Definition headers_from (cheap : bool) (st : Settings) : option Z :=
  if cheap || cleanup_tier_waits st then body_headers_from (stored_body_window st) else None.

Definition cleanup_headers_paused (cheap_headers : bool) (st : Settings) (q : BackfillQueue) : bool :=
  if cheap_headers then false else cleanup_tier_waits st && (0 <? (counts q).2).
Definition load_waiting_headers_stored (st : Settings) (q : BackfillQueue) : Settings * BackfillQueue * nat :=
  let '(q, n) := promote_headers_only q in
  (set_sync_state KEY_CLEANUP_HEADERS CLEANUP_NO st, q, n).

Inductive EveryHeader := Unchanged | Widened (body_window : option BodyWindow) | NeedsAsk.

Definition widen_stored (cheap expect_cheap : bool) (st : Settings) : Settings * EveryHeader :=
  let window := stored_window st in
  if bool_decide (window = WEverything) then (st, Unchanged)
  else if expect_cheap && negb cheap then (st, NeedsAsk)
  else
    let body := stored_body_window st in
    let kept := if cheap then kept_from body window else body in
    let st := if bool_decide (kept ≠ body) then set_sync_state KEY_BODY_WINDOW (body_window_str kept) st else st in
    let st := set_sync_state KEY_WINDOW (window_str WEverything) st in
    let st := set_sync_state KEY_CLEANUP_HEADERS (if cheap then CLEANUP_ASK else CLEANUP_NO) st in
    (st, Widened (if bool_decide (kept ≠ body) then Some kept else None)).
Definition load_every_header_stored (cheap_headers expect_cheap : bool) (st : Settings) : Settings * EveryHeader :=
  match widen_stored cheap_headers expect_cheap st with
  | (st, Widened b) => (set_sync_state KEY_TIERS "stale" st, Widened b)
  | r => r
  end.

(** ** Properties *)

Lemma parse_window_str w : parse_window (window_str w) = Some w.
Proof. by destruct w. Qed.
Lemma parse_body_window_str b : parse_body_window (body_window_str b) = Some b.
Proof. by destruct b. Qed.

(** How far a phase list goes: the phases of a window that [w] has not. *)
Definition new_phases (w : SyncWindow) : list Phase :=
  List.filter (λ p, negb (bool_decide (p ∈ phases_for w))) (phases_for WEverything).

Lemma kept_headers_from b w p :
  w ≠ WEverything →
  (p ∈ phases_for w → queue_priority p (body_headers_from (kept_from b w)) = queue_priority p (body_headers_from b)) ∧
  (p ∈ new_phases w →
   (HEADERS_ONLY ≤ queue_priority p (body_headers_from (kept_from b w)))%Z ↔
   match body_headers_from b with Some cut => (cut ≤ ph_priority p)%Z | None => True end).
Proof.
  intros Hw. split.
  - intros Hp. apply List.Forall_forall with (P := λ p, queue_priority p (body_headers_from (kept_from b w)) =
      queue_priority p (body_headers_from b)) (l := phases_for w); [|by apply list_elem_of_In].
    destruct b, w; try done; repeat constructor.
  - intros Hp. revert p Hp. apply Forall_forall.
    destruct w; try done; (assert (new_phases WMonth = [mkPhase 3 [] (Some "newer_than:180d"); mkPhase 4 [] (Some "newer_than:365d"); mkPhase 5 [] None]) as E1 by (vm_compute; reflexivity));
      (assert (new_phases WHalfYear = [mkPhase 4 [] (Some "newer_than:365d"); mkPhase 5 [] None]) as E2 by (vm_compute; reflexivity));
      (assert (new_phases WYear = [mkPhase 5 [] None]) as E3 by (vm_compute; reflexivity));
      rewrite ?E1, ?E2, ?E3; destruct b; repeat constructor; simpl; unfold HEADERS_ONLY; lia.
Qed.

Lemma widen_stored_settings expect st :
  stored_window st ≠ WEverything →
  let kept := kept_from (stored_body_window st) (stored_window st) in
  ∃ st', widen_stored true expect st =
           (st', Widened (if bool_decide (kept ≠ stored_body_window st) then Some kept else None)) ∧
    stored_window st' = WEverything ∧ stored_body_window st' = kept ∧ cleanup_tier_waits st' = true.
Proof.
  intros Hw kept. unfold widen_stored. rewrite bool_decide_eq_false_2 by done.
  rewrite andb_false_r. fold kept. eexists. split; [reflexivity|].
  unfold stored_window, stored_body_window, cleanup_tier_waits, set_sync_state.
  assert (KEY_WINDOW ≠ KEY_CLEANUP_HEADERS ∧ KEY_WINDOW ≠ KEY_BODY_WINDOW ∧ KEY_BODY_WINDOW ≠ KEY_CLEANUP_HEADERS)
    as (H1 & H2 & H3) by done.
  split_and!.
  - rewrite lookup_insert_ne, lookup_insert_eq by done. reflexivity.
  - rewrite !lookup_insert_ne by done. case_bool_decide as Hk.
    + rewrite lookup_insert_eq. simpl. by rewrite parse_body_window_str.
    + by symmetry.
  - rewrite lookup_insert_eq. by apply bool_decide_eq_true_2.
Qed.

(** Loading every header downloads nothing it should not: with cheap
    headers the window becomes everything; every phase listed before keeps
    its priority (bodies stay bodies, headers stay headers), in this state
    and if IMAP is refused later; and a phase the wider window adds is for
    headers only, unless the body window the user chose reaches it. *)
Theorem widening_keeps_bodies expect st :
  stored_window st ≠ WEverything →
  ∃ st' b, widen_stored true expect st = (st', Widened b) ∧
    stored_window st' = WEverything ∧
    ∀ cheap p,
      (p ∈ phases_for (stored_window st) →
       queue_priority p (headers_from cheap st') = queue_priority p (headers_from true st)) ∧
      (p ∈ new_phases (stored_window st) →
       (HEADERS_ONLY ≤ queue_priority p (headers_from cheap st'))%Z ↔
       match body_headers_from (stored_body_window st) with Some cut => (cut ≤ ph_priority p)%Z | None => True end).
Proof.
  intros Hw. destruct (widen_stored_settings expect st Hw) as (st' & E & Ew & Eb & Ec).
  eexists st', _. split; [exact E|]. split; [done|]. intros cheap p.
  unfold headers_from. rewrite Ec, Eb, orb_true_r. cbn [orb]. by apply kept_headers_from.
Qed.

(** A year's window whose mail all has bodies: older mail comes as headers. *)
Definition demo_settings : Settings :=
  <[KEY_WINDOW := "1y"]> (<[KEY_BODY_WINDOW := "window"]> ∅).
Lemma widening_keeps_bodies_witness :
  headers_from true demo_settings = None ∧
  ∃ st' b, widen_stored true true demo_settings = (st', Widened b) ∧
    queue_priority (mkPhase 4 [] (Some "newer_than:365d")) (headers_from true st') = 4%Z.
Proof.
  split; [vm_compute; reflexivity|].
  destruct (widening_keeps_bodies true demo_settings) as (st' & b & E & _ & H); [by vm_compute|].
  exists st', b. split; [exact E|].
  rewrite (proj1 (H true (mkPhase 4 [] (Some "newer_than:365d"))));
    [vm_compute; reflexivity|vm_compute; by repeat constructor].
Defined.
