(* ===== verification/QueueProperties.v ===== *)
(** * QueueProperties: the order and the contents of the backfill queue

    Over every queue the operations of [queue.rs] can build: an id is queued
    once, at the most urgent priority it was asked for, and the ids the user
    is waiting for are fetched first, in the order asked for. *)

From S2P Require Import Prelude.
From S2P Require Import Domain.
From S2P Require Import MailStore.
From S2P Require Import Queue.

Record queue_ok (q : BackfillQueue) : Prop := {
  qo_seqs : NoDup (qr_seq <$> q_rows q);
  qo_ids : NoDup (qr_id <$> q_rows q);
  qo_high : ∀ r, r ∈ q_rows q → (qr_seq r ≤ q_seq q)%Z;
  qo_priority : ∀ r, r ∈ q_rows q → (0 ≤ qr_priority r)%Z }.

(** ** Reachable queues *)

Inductive QueueOp :=
| QEnqueue (s : Store) (priority : Z) (ids : list MessageId) (refetch : bool)
| QUrgent (s : Store) (ids : list MessageId)
| QRemoveHeaders (ids : list MessageId)
| QPromote
| QRemove (ids : list MessageId)
| QClear (priority : Z).
Definition queue_op (op : QueueOp) (q : BackfillQueue) : BackfillQueue :=
  match op with
  | QEnqueue s p ids refetch => (enqueue s p ids refetch q).1
  | QUrgent s ids => (enqueue_urgent s ids q).1
  | QRemoveHeaders ids => (remove_headers_only ids q).1
  | QPromote => (promote_headers_only q).1
  | QRemove ids => remove ids q
  | QClear p => (clear_from_priority p q).1
  end.
(** Priorities are [u8]. *)
Definition valid_op (op : QueueOp) : Prop :=
  match op with QEnqueue _ p _ _ | QClear p => (0 ≤ p < 256)%Z | _ => True end.
Definition run_queue_ops (ops : list QueueOp) : BackfillQueue := foldl (λ q op, queue_op op q) empty_queue ops.

(** *** Rows that go, change their priority, or are added *)

Lemma queue_ok_filter p q : queue_ok q → queue_ok (with_rows (List.filter p (q_rows q)) q).
Proof.
  intros [Hs Hi Hh Hp]. constructor; simpl; try by apply NoDup_fmap_List_filter.
  - intros r [_ Hr]%elem_of_List_filter. by apply Hh.
  - intros r [_ Hr]%elem_of_List_filter. by apply Hp.
Qed.

Lemma queue_ok_priorities f q :
  (∀ r, qr_seq (f r) = qr_seq r ∧ qr_id (f r) = qr_id r) →
  (∀ r, r ∈ q_rows q → (0 ≤ qr_priority (f r))%Z) → queue_ok q → queue_ok (with_rows (f <$> q_rows q) q).
Proof.
  intros Hf Hpr [Hs Hi Hh Hp]. constructor; simpl.
  - rewrite fmap_map_key; [done|]. intros r _. apply Hf.
  - rewrite fmap_map_key; [done|]. intros r _. apply Hf.
  - intros r (r' & -> & Hr')%list_elem_of_fmap. destruct (Hf r') as [-> _]. by apply Hh.
  - intros r (r' & -> & Hr')%list_elem_of_fmap. by apply Hpr.
Qed.

Lemma queue_ok_add q r high :
  queue_ok q → qr_seq r ∉ qr_seq <$> q_rows q → qr_id r ∉ qr_id <$> q_rows q → (0 ≤ qr_priority r)%Z →
  (q_seq q ≤ high)%Z → (qr_seq r ≤ high)%Z → queue_ok (mkQueue (q_rows q ++ [r]) high).
Proof.
  intros [Hs Hi Hh Hp] Hseq Hid Hpr Hhigh Hr. constructor; simpl; try by apply NoDup_fmap_snoc.
  - intros x [Hx| ->%list_elem_of_singleton]%elem_of_app; [|done]. apply Hh in Hx. lia.
  - intros x [Hx| ->%list_elem_of_singleton]%elem_of_app; [by apply Hp|done].
Qed.

Lemma foldr_max_bound k l i : i ∈ l → (i ≤ foldr Z.max k l)%Z.
Proof. induction l as [|j l IH]; [by intros ?%not_elem_of_nil|]. simpl. intros [->|Hi%IH]%elem_of_cons; lia. Qed.
Lemma foldr_max_base k l : (k ≤ foldr Z.max k l)%Z.
Proof. induction l; simpl; lia. Qed.
Lemma min_seq_bound q r : r ∈ q_rows q → (min_seq q ≤ qr_seq r)%Z.
Proof.
  unfold min_seq. destruct (q_rows q) as [|x l]; [by intros ?%not_elem_of_nil|].
  assert (∀ k, foldr Z.min k (qr_seq <$> l) ≤ k)%Z as Hbase.
  { intros k. induction l as [|y l IH]; [done|]. rewrite fmap_cons. cbn [foldr]. lia. }
  intros [->|Hr]%elem_of_cons; [apply Hbase|]. generalize (qr_seq x). intros k.
  clear Hbase. induction l as [|y l IH]; [by apply not_elem_of_nil in Hr|].
  rewrite fmap_cons. cbn [foldr]. apply elem_of_cons in Hr as [->|Hr]; [lia|]. specialize (IH Hr). lia.
Qed.

Lemma find_queued_None id q : find_queued id q = None ↔ id ∉ qr_id <$> q_rows q.
Proof. apply find_by_None. Qed.

Lemma insert_row_ok p id q :
  queue_ok q → (0 ≤ p)%Z → find_queued id q = None → queue_ok (insert_row p id q).
Proof.
  intros Hq Hp Hid. unfold insert_row. pose proof (foldr_max_base (q_seq q) (qr_seq <$> q_rows q)).
  apply queue_ok_add; simpl; [done| |by apply find_queued_None|done|lia|lia].
  intros Hin. apply (foldr_max_bound (q_seq q)) in Hin. lia.
Qed.
Lemma raise_row_ok p id q : queue_ok q → (0 ≤ p)%Z → queue_ok (raise_row p id q).
Proof.
  intros Hq Hp. unfold raise_row.
  apply (queue_ok_priorities (λ r, if bool_decide (qr_id r = id) then mkQueueRow (qr_seq r) p (qr_id r) else r));
    [intros r|intros r Hr|done]; case_bool_decide; try done. by apply Hq.
Qed.
Lemma remove_row_ok id q : queue_ok q → queue_ok (remove_row id q).
Proof. apply queue_ok_filter. Qed.
Lemma remove_row_gone id q : id ∉ qr_id <$> q_rows (remove_row id q).
Proof.
  simpl. intros (r & -> & [Hr _]%elem_of_List_filter)%list_elem_of_fmap.
  by rewrite bool_decide_eq_true_2 in Hr.
Qed.
Lemma insert_front_ok id q :
  queue_ok q → id ∉ qr_id <$> q_rows q → queue_ok (insert_front id q).
Proof.
  intros Hq Hid. unfold insert_front. apply queue_ok_add; simpl; try done; try lia.
  intros (r & E & Hr%min_seq_bound)%list_elem_of_fmap. lia.
Qed.

Lemma enqueue_one_ok s p refetch id q : queue_ok q → (0 ≤ p)%Z → queue_ok (enqueue_one s p refetch id q).1.
Proof.
  intros Hq Hp. unfold enqueue_one. destruct (negb refetch && _); [done|]. unfold priority_of.
  destruct (find_queued id q) as [r|] eqn:E; simpl; [|by apply insert_row_ok].
  destruct (p <? qr_priority r)%Z; [by apply raise_row_ok|done].
Qed.
Lemma enqueue_ok s p ids refetch q : queue_ok q → (0 ≤ p)%Z → queue_ok (enqueue s p ids refetch q).1.
Proof.
  revert q. induction ids as [|id ids IH]; intros q Hq Hp; simpl; [done|].
  pose proof (enqueue_one_ok s p refetch id q Hq Hp) as H1.
  destruct (enqueue_one s p refetch id q) as [q1 n]. specialize (IH q1 H1 Hp).
  by destruct (enqueue s p ids refetch q1).
Qed.
Lemma urgent_one_ok s id q n : queue_ok q → queue_ok (urgent_one s id (q, n)).1.
Proof.
  intros Hq. simpl. case_match; [done|]. apply insert_front_ok; [by apply remove_row_ok|apply remove_row_gone].
Qed.
Lemma enqueue_urgent_ok s ids q : queue_ok q → queue_ok (enqueue_urgent s ids q).1.
Proof.
  intros Hq. unfold enqueue_urgent. induction ids as [|id ids IH]; simpl; [done|].
  destruct (foldr (urgent_one s) (q, 0) ids) as [q1 n]. by apply urgent_one_ok.
Qed.
Lemma remove_headers_only_ok ids q : queue_ok q → queue_ok (remove_headers_only ids q).1.
Proof.
  revert q. induction ids as [|id ids IH]; intros q Hq; simpl; [done|].
  set (q1 := with_rows _ q). assert (queue_ok q1) as Hq1 by by apply queue_ok_filter.
  specialize (IH q1 Hq1). by destruct (remove_headers_only ids q1).
Qed.
Lemma remove_ok ids q : queue_ok q → queue_ok (remove ids q).
Proof.
  unfold remove. revert q. induction ids as [|id ids IH]; intros q Hq; simpl; [done|].
  by apply IH, remove_row_ok.
Qed.

Lemma queue_op_ok op q : valid_op op → queue_ok q → queue_ok (queue_op op q).
Proof.
  destruct op; simpl; intros Hv Hq.
  - apply enqueue_ok; [done|lia].
  - by apply enqueue_urgent_ok.
  - by apply remove_headers_only_ok.
  - apply (queue_ok_priorities (λ r, if (HEADERS_ONLY <=? qr_priority r)%Z
             then mkQueueRow (qr_seq r) (qr_priority r - HEADERS_ONLY) (qr_id r) else r)); [| |done].
    + intros r. by case_match.
    + intros r Hr. case_match; simpl; [unfold HEADERS_ONLY in *; lia|by apply Hq].
  - by apply remove_ok.
  - by apply queue_ok_filter.
Qed.
Lemma run_queue_ops_ok ops : Forall valid_op ops → queue_ok (run_queue_ops ops).
Proof.
  unfold run_queue_ops. assert (queue_ok empty_queue) as H0.
  { constructor; simpl; try constructor; by intros ? ?%not_elem_of_nil. }
  revert H0. generalize empty_queue. induction ops as [|op ops IH]; intros q Hq Hv; simpl; [done|].
  apply Forall_cons in Hv as [Hop Hv]. apply IH; [by apply queue_op_ok|done].
Qed.

(** ** What is fetched first *)

#[export] Instance queue_le_trans : Transitive queue_le.
Proof. intros a b c. unfold queue_le. lia. Qed.
#[export] Instance queue_le_total : Total queue_le.
Proof. intros a b. unfold queue_le. lia. Qed.

Definition body_rows (q : BackfillQueue) : list QueueRow :=
  merge_sort queue_le (List.filter wants_body (q_rows q)).

(** Rows of a queue in order are the only such list. *)
Lemma sorted_rows_unique q l1 l2 :
  queue_ok q → (∀ r, r ∈ l1 → r ∈ q_rows q) → StronglySorted queue_le l1 → StronglySorted queue_le l2 →
  l1 ≡ₚ l2 → l1 = l2.
Proof.
  intros Hq Hin H1 H2 Hp. apply (StronglySorted_unique_strong queue_le); [|done..].
  intros a b Ha Hb Hab Hba. rewrite <- Hp in Hb.
  apply (NoDup_fmap_inj qr_seq (q_rows q)); [apply Hq|by apply Hin..|]. unfold queue_le in *. lia.
Qed.

Lemma body_rows_remove id q :
  queue_ok q → body_rows (remove_row id q) = List.filter (λ r, negb (bool_decide (qr_id r = id))) (body_rows q).
Proof.
  intros Hq. apply (sorted_rows_unique q); [done| | | |].
  - intros r Hr. unfold body_rows in Hr. rewrite merge_sort_Permutation in Hr.
    by apply elem_of_List_filter in Hr as [_ [_ ?]%elem_of_List_filter].
  - apply StronglySorted_merge_sort; apply _.
  - apply StronglySorted_filter, StronglySorted_merge_sort; apply _.
  - unfold body_rows. rewrite !merge_sort_Permutation. simpl. rewrite !List_filter_filter.
    erewrite List_filter_ext; [reflexivity|]. intros r _. apply andb_comm.
Qed.

Lemma body_rows_front id q :
  queue_ok q → id ∉ qr_id <$> q_rows q →
  body_rows (insert_front id q) = mkQueueRow (min_seq q - 1) 0 id :: body_rows q.
Proof.
  intros Hq Hid. pose proof (insert_front_ok id q Hq Hid) as Hq'.
  apply (sorted_rows_unique (insert_front id q)); [done| | | |].
  - intros r Hr. unfold body_rows in Hr. rewrite merge_sort_Permutation in Hr.
    by apply elem_of_List_filter in Hr as [_ ?].
  - apply StronglySorted_merge_sort; apply _.
  - constructor; [apply StronglySorted_merge_sort; apply _|]. rewrite Forall_forall. intros r Hr.
    unfold body_rows in Hr. rewrite merge_sort_Permutation in Hr. apply elem_of_List_filter in Hr as [_ Hr].
    unfold queue_le. simpl. pose proof (qo_priority q Hq r Hr). pose proof (min_seq_bound q r Hr). lia.
  - unfold body_rows. rewrite !merge_sort_Permutation. simpl. rewrite List.filter_app. simpl.
    by rewrite Permutation_app_comm.
Qed.

(** The first occurrence of each id. *)
Fixpoint first_occurrences (ids : list MessageId) : list MessageId :=
  match ids with
  | [] => []
  | id :: ids => id :: List.filter (λ x, negb (bool_decide (x = id))) (first_occurrences ids)
  end.
Lemma elem_of_first_occurrences x ids : x ∈ first_occurrences ids ↔ x ∈ ids.
Proof.
  induction ids as [|id ids IH]; simpl; [done|]. rewrite !elem_of_cons, elem_of_List_filter, IH.
  rewrite negb_true_iff, bool_decide_eq_false. destruct (decide (x = id)); tauto.
Qed.

Lemma in_order_body q : in_order wants_body q = qr_id <$> body_rows q.
Proof. done. Qed.
Lemma ids_filter id (l : list QueueRow) :
  qr_id <$> List.filter (λ r, negb (bool_decide (qr_id r = id))) l =
  List.filter (λ x, negb (bool_decide (x = id))) (qr_id <$> l).
Proof.
  induction l as [|r l IH]; [done|]. rewrite fmap_cons. cbn [List.filter]. destruct (negb _); [|done].
  by rewrite fmap_cons, IH.
Qed.

Lemma urgent_one_order s id q n :
  queue_ok q →
  in_order wants_body (urgent_one s id (q, n)).1 =
  if is_full s id then in_order wants_body q
  else id :: List.filter (λ x, negb (bool_decide (x = id))) (in_order wants_body q).
Proof.
  intros Hq. simpl. destruct (is_full s id); [done|]. simpl. rewrite !in_order_body.
  rewrite body_rows_front; [|by apply remove_row_ok|apply remove_row_gone].
  rewrite fmap_cons, body_rows_remove by done. by rewrite ids_filter.
Qed.

(** The ids the user waits for come first: after [enqueue_urgent], the
    next fetch gets the ids not stored in full, in the order they were asked
    for, and then everything else in the order it had; their number is what
    the call returns.  For every queue the operations can build. *)
Theorem urgent_first ops s ids limit :
  Forall valid_op ops →
  let q := run_queue_ops ops in
  let urgent := first_occurrences (missing s ids) in
  peek limit (enqueue_urgent s ids q).1 =
    take limit (urgent ++ List.filter (λ id, negb (bool_decide (id ∈ urgent))) (in_order wants_body q)) ∧
  (enqueue_urgent s ids q).2 = length (missing s ids).
Proof.
  intros Hv q urgent. pose proof (run_queue_ops_ok ops Hv) as Hq. fold q in Hq.
  assert (in_order wants_body (enqueue_urgent s ids q).1 =
          urgent ++ List.filter (λ id, negb (bool_decide (id ∈ urgent))) (in_order wants_body q) ∧
          (enqueue_urgent s ids q).2 = length (missing s ids)) as [Ho Hn];
    [|unfold peek; by rewrite Ho].
  subst urgent. unfold enqueue_urgent. induction ids as [|id ids [IHo IHn]]; simpl.
  { split; [|done]. rewrite List_filter_all; [done|]. by intros. }
  pose proof (enqueue_urgent_ok s ids q Hq) as Hq1. unfold enqueue_urgent in Hq1.
  destruct (foldr (urgent_one s) (q, 0) ids) as [q1 n]. cbn [fst snd] in *.
  rewrite (urgent_one_order s id q1 n Hq1), IHo. cbn [urgent_one].
  destruct (is_full s id); cbn [negb snd]; [done|]. split; [|by subst n]. cbn [first_occurrences].
  rewrite List.filter_app, List_filter_filter. rewrite <- app_comm_cons. f_equal. f_equal.
  apply List_filter_ext. intros x _. apply eq_true_iff_eq.
  rewrite andb_true_iff, !negb_true_iff, !bool_decide_eq_false, elem_of_cons, elem_of_List_filter, negb_true_iff, bool_decide_eq_false.
  destruct (decide (x = id)); tauto.
Qed.

(** ** What is queued *)

Definition wants (s : Store) (priority : Z) (refetch : bool) (id : MessageId) : bool :=
  refetch || negb (if (HEADERS_ONLY <=? priority)%Z then is_stored s id else is_full s id).
Definition more_urgent (priority : Z) (old : option Z) : option Z :=
  Some (match old with Some p => Z.min priority p | None => priority end).
Definition row_place (r : QueueRow) : Z * MessageId := (qr_seq r, qr_id r).

Lemma priority_insert p id q x :
  find_queued id q = None →
  priority_of (insert_row p id q) x = if bool_decide (x = id) then Some p else priority_of q x.
Proof.
  intros Hn. unfold priority_of, find_queued in *. simpl. rewrite find_by_app.
  case_bool_decide as E.
  - subst x. rewrite Hn. unfold find_by. simpl. by rewrite bool_decide_eq_true_2.
  - destruct (find_by qr_id x (q_rows q)); [done|]. unfold find_by. simpl.
    by rewrite bool_decide_eq_false_2 by done.
Qed.
Lemma priority_raise p id q x :
  is_Some (find_queued id q) →
  priority_of (raise_row p id q) x = if bool_decide (x = id) then Some p else priority_of q x.
Proof.
  unfold priority_of, find_queued, raise_row. simpl. intros [r0 H0].
  rewrite find_by_fmap by (intros; by case_bool_decide).
  destruct (find_by qr_id x (q_rows q)) as [r|] eqn:E; simpl.
  - apply find_by_Some_2 in E as [_ <-]. by case_bool_decide.
  - case_bool_decide; [congruence|done].
Qed.

Lemma enqueue_one_priority s p refetch id q x :
  priority_of (enqueue_one s p refetch id q).1 x =
  if bool_decide (x = id) && wants s p refetch id then more_urgent p (priority_of q x) else priority_of q x.
Proof.
  unfold enqueue_one, wants.
  set (e := if (HEADERS_ONLY <=? p)%Z then is_stored s id else is_full s id).
  assert (negb refetch && e = negb (refetch || negb e)) as -> by by destruct refetch, e.
  destruct (refetch || negb e); simpl; [|by rewrite andb_false_r]. rewrite andb_true_r.
  destruct (priority_of q id) as [p0|] eqn:Ep.
  - assert (is_Some (find_queued id q)) as Hs by (unfold priority_of in Ep; by destruct (find_queued id q)).
    destruct (p <? p0)%Z eqn:Hp; cbn [fst]; [rewrite priority_raise by done|];
      case_bool_decide as Ex; try done; subst x; rewrite Ep; unfold more_urgent; f_equal; lia.
  - assert (find_queued id q = None) as Hs by (unfold priority_of in Ep; by destruct (find_queued id q)).
    cbn [fst]. rewrite priority_insert by done. case_bool_decide as Ex; [|done]. subst x. by rewrite Ep.
Qed.

Lemma enqueue_priority s p ids refetch q x :
  priority_of (enqueue s p ids refetch q).1 x =
  if bool_decide (x ∈ ids) && wants s p refetch x then more_urgent p (priority_of q x) else priority_of q x.
Proof.
  revert q. induction ids as [|id ids IH]; intros q; [done|]. cbn [enqueue].
  destruct (enqueue_one s p refetch id q) as [q1 n] eqn:E1.
  pose proof (enqueue_one_priority s p refetch id q x) as H1. rewrite E1 in H1. cbn [fst] in H1.
  destruct (enqueue s p ids refetch q1) as [q2 m] eqn:E2. specialize (IH q1). rewrite E2 in IH.
  cbn [fst] in *. rewrite IH, H1.
  destruct (decide (x = id)) as [->|Hne].
  - rewrite (bool_decide_eq_true_2 (id = id)), (bool_decide_eq_true_2 (id ∈ id :: ids)) by (done || by left).
    cbn [andb]. destruct (wants s p refetch id); [|by rewrite andb_false_r].
    rewrite andb_true_r. destruct (bool_decide (id ∈ ids)); [|done].
    unfold more_urgent. destruct (priority_of q id); apply (f_equal Some); lia.
  - rewrite (bool_decide_eq_false_2 (x = id)) by done. cbn [andb].
    by rewrite (bool_decide_ext (x ∈ id :: ids) (x ∈ ids)) by set_solver.
Qed.

Lemma enqueue_places s p ids refetch q :
  ∃ new, row_place <$> q_rows (enqueue s p ids refetch q).1 = (row_place <$> q_rows q) ++ new ∧
         length new = (enqueue s p ids refetch q).2.
Proof.
  revert q. induction ids as [|id ids IH]; intros q; [exists []; by rewrite app_nil_r|]. cbn [enqueue].
  assert (∃ new, row_place <$> q_rows (enqueue_one s p refetch id q).1 = (row_place <$> q_rows q) ++ new ∧
                 length new = (enqueue_one s p refetch id q).2) as (new & H1 & H2).
  { unfold enqueue_one. destruct (negb refetch && _); [exists []; by rewrite app_nil_r|].
    destruct (priority_of q id) as [p0|]; [destruct (p <? p0)%Z|].
    - exists []. rewrite app_nil_r. split; [|done]. simpl. rewrite fmap_map_key; [done|].
      intros r _. by case_bool_decide.
    - exists []. by rewrite app_nil_r.
    - simpl. eexists. by rewrite fmap_app. }
  destruct (enqueue_one s p refetch id q) as [q1 n]. destruct (IH q1) as (new2 & H3 & H4).
  destruct (enqueue s p ids refetch q1) as [q2 m]. cbn [fst snd] in *. exists (new ++ new2).
  by rewrite H3, H1, app_assoc, length_app, H2, H4.
Qed.

(** What [enqueue] does to the queue: an id that is not stored well
    enough for the priority (or any id, when refetching) is then queued at
    the more urgent of the priority asked for and the one it had; every
    other id is as it was; nothing loses its place, the new rows go last and
    their number is what the call returns. *)
Theorem enqueue_spec ops s priority ids refetch :
  Forall valid_op ops → (0 ≤ priority < 256)%Z →
  let q := run_queue_ops ops in
  let q' := (enqueue s priority ids refetch q).1 in
  (∀ id, priority_of q' id =
     if bool_decide (id ∈ ids) && wants s priority refetch id then more_urgent priority (priority_of q id)
     else priority_of q id) ∧
  (∃ new, row_place <$> q_rows q' = (row_place <$> q_rows q) ++ new ∧
          length new = (enqueue s priority ids refetch q).2) ∧
  NoDup (qr_id <$> q_rows q').
Proof.
  intros Hv Hp q q'. split_and!; [intros; apply enqueue_priority|apply enqueue_places|].
  apply (enqueue_ok s priority ids refetch q); [by apply run_queue_ops_ok|lia].
Qed.

Definition demo_queue_ops : list QueueOp :=
  [QEnqueue empty_store 1 ["a"; "b"] false; QEnqueue empty_store 13 ["c"; "b"] false;
   QEnqueue empty_store 0 ["d"] false].
Lemma urgent_first_witness :
  let q := run_queue_ops demo_queue_ops in
  in_order wants_body q = ["d"; "a"; "b"] ∧
  peek 3 (enqueue_urgent empty_store ["x"; "b"; "x"] q).1 = ["x"; "b"; "d"].
Proof.
  split; [vm_compute; reflexivity|].
  rewrite (proj1 (urgent_first demo_queue_ops empty_store ["x"; "b"; "x"] 3 ltac:(repeat constructor; simpl; lia))).
  vm_compute. reflexivity.
Defined.
Lemma enqueue_spec_witness :
  let q := run_queue_ops demo_queue_ops in
  let q' := (enqueue empty_store 2 ["c"; "b"; "e"] false q).1 in
  priority_of q "c" = Some 13%Z ∧ priority_of q' "c" = Some 2%Z ∧ priority_of q' "b" = Some 1%Z.
Proof.
  assert (Forall valid_op demo_queue_ops) as Hv by (repeat constructor; simpl; lia).
  destruct (enqueue_spec demo_queue_ops empty_store 2 ["c"; "b"; "e"] false Hv ltac:(lia)) as (H & _).
  cbv zeta. rewrite !H. split_and!; vm_compute; reflexivity.
Defined.
