(* ===== verification/Sync.v ===== *)
(** * Sync: bootstrap, backfill and incremental sync
    ([mail-sync/src/engine.rs], [convert.rs])

    The engine's steps over its state: the database with the backfill queue
    and the stored settings, the own changes it remembers, and the network.
    The network is a class: the provider's read methods, and the fetches that
    choose between IMAP and the API ([Transport]).  A transaction that fails
    leaves the database as it was; what was committed before stays. *)

From S2P Require Import Prelude.
From S2P Require Import Domain.
From S2P Require Import MailStore.
From S2P Require Import LocalDb.
From S2P Require Import Outbox.
From S2P Require Import Provider.
From S2P Require Import Drain.
From S2P Require Import Queue.

Inductive SyncError :=
| SyncStore (e : StoreError)
| SyncProvider (e : ProviderError)
| NotBootstrapped
| ResyncStarted
| StillRunning.   (** the model's own: a listing or a drain past its fuel *)

(** ** What a provider delivers ([provider-api/src/lib.rs]) *)

Record FetchedAttachment := mkFetchedAttachment {
  fa_part_id : option string; fa_attachment_id : option string; fa_filename : string;
  fa_mime_type : string; fa_size : Z; fa_content_id : option string; fa_is_inline : bool;
  fa_data : option (list Z) }.
Record FetchedBody := mkFetchedBody {
  fb_text : option string; fb_html : option string; fb_attachments : list FetchedAttachment }.
Record FetchedMessage := mkFetched {
  f_id : MessageId; f_thread_id : ThreadId; f_label_ids : list LabelId; f_snippet : string;
  f_internal_date : Millis; f_size_estimate : Z; f_message_id_header : option string;
  f_in_reply_to : option string; f_references : list string; f_from : option EmailAddress;
  f_to : list EmailAddress; f_cc : list EmailAddress; f_bcc : list EmailAddress;
  f_reply_to : list EmailAddress; f_subject : string; f_date : option Millis;
  f_list : ListHeaders; f_body : option FetchedBody }.

Inductive Change :=
| MessageAdded (id : MessageId) (thread_id : ThreadId) (label_ids : list LabelId)
| MessageDeleted (id : MessageId)
| LabelsAdded (id : MessageId) (label_ids : list LabelId)
| LabelsRemoved (id : MessageId) (label_ids : list LabelId).
Record ChangeSet := mkChangeSet { cs_changes : list Change; cs_cursor : string }.

Inductive LabelSync :=
| LabelsOfProvider
| LabelsLocal
| LabelsBoth (merge : list LabelId → list LabelId → list LabelId).
Definition keeps_user_labels (l : LabelSync) : bool :=
  match l with LabelsOfProvider => false | _ => true end.

Record ListFilter := mkFilter {
  lf_label_ids : list LabelId; lf_query : option string; lf_include_spam_trash : bool }.
Record IdPage := mkIdPage { ip_ids : list (MessageId * ThreadId); ip_next : option string }.
Record Profile := mkProfile { pr_email : string; pr_cursor : string }.

(** The network as the engine uses it. *)
Class SyncNet (X : Type) := {
  sn_profile : Action X ProviderError Profile;
  sn_list_labels : Action X ProviderError (list Label);
  sn_list_message_ids : ListFilter → option string → Action X ProviderError IdPage;
  sn_fetch_messages : list MessageId → Action X ProviderError (list FetchedMessage);
  sn_changes_since : string → Action X ProviderError ChangeSet;
  sn_list_drafts : Action X ProviderError (option (list (string * MessageId)));
  sn_label_sync : LabelSync;
  sn_fetch_bodies : list MessageId → Action X ProviderError (list FetchedMessage);
  sn_fetch_headers : list MessageId → Action X ProviderError (option (list FetchedMessage));
  sn_list_via_imap : string → Action X string (list MessageId);
  sn_cheap_headers : X → bool }.

(** ** Reports *)

Inductive SyncPhase := Listing | Backfilling | Incremental | PhaseIdle.
#[export] Instance sync_phase_eq_dec : EqDecision SyncPhase.
Proof. solve_decision. Defined.
Record NewMail := mkNewMail {
  nm_id : MessageId; nm_thread_id : ThreadId; nm_from : option EmailAddress;
  nm_subject : string; nm_snippet : string }.
Record ExternalLabelChange := mkExternal {
  ex_message : MessageId; ex_thread : ThreadId; ex_added : list LabelId; ex_removed : list LabelId }.
Record IncrementalReport := mkIncremental {
  ir_added : nat; ir_deleted : nat; ir_relabeled : nat;
  ir_new_mail : list NewMail; ir_external : list ExternalLabelChange }.

(** What the observer is told. *)
Inductive SyncNotice :=
| ThreadsChanged (c : ThreadChanges)
| Progress (phase : SyncPhase) (queued headers : nat).

(** [NewMail::from_incoming] *)
Definition new_mail (m : IncomingMessage) (already_stored : bool) : option NewMail :=
  let has l := bool_decide (l ∈ m_label_ids m) in
  if negb already_stored && has INBOX && has UNREAD && negb (has SENT) && negb (has SPAM) && negb (has TRASH)
  then Some (mkNewMail (m_id m) (m_thread_id m) (m_from m) (m_subject m) (m_snippet m))
  else None.

(** ** The engine's state *)

Record SyncEngine (X : Type) := mkSync {
  s_db : Db; s_queue : BackfillQueue; s_settings : Settings; s_own : list OwnChange;
  s_missed : gset MessageId; s_waiting : bool; s_notices : list SyncNotice; s_net : X }.
Arguments mkSync {X} _ _ _ _ _ _ _ _.
Arguments s_db {X} _.
Arguments s_queue {X} _.
Arguments s_settings {X} _.
Arguments s_own {X} _.
Arguments s_missed {X} _.
Arguments s_waiting {X} _.
Arguments s_notices {X} _.
Arguments s_net {X} _.

(** The tables a transaction writes. *)
Definition Tables : Type := Db * BackfillQueue * Settings.
Definition tables {X} (e : SyncEngine X) : Tables := (s_db e, s_queue e, s_settings e).
Definition with_tables {X} (t : Tables) (e : SyncEngine X) : SyncEngine X :=
  mkSync t.1.1 t.1.2 t.2 (s_own e) (s_missed e) (s_waiting e) (s_notices e) (s_net e).
Definition with_net {X} (x : X) (e : SyncEngine X) : SyncEngine X :=
  mkSync (s_db e) (s_queue e) (s_settings e) (s_own e) (s_missed e) (s_waiting e) (s_notices e) x.
Definition with_own {X} (o : list OwnChange) (e : SyncEngine X) : SyncEngine X :=
  mkSync (s_db e) (s_queue e) (s_settings e) o (s_missed e) (s_waiting e) (s_notices e) (s_net e).
Definition with_missed {X} (m : gset MessageId) (e : SyncEngine X) : SyncEngine X :=
  mkSync (s_db e) (s_queue e) (s_settings e) (s_own e) m (s_waiting e) (s_notices e) (s_net e).
Definition with_waiting {X} (b : bool) (e : SyncEngine X) : SyncEngine X :=
  mkSync (s_db e) (s_queue e) (s_settings e) (s_own e) (s_missed e) b (s_notices e) (s_net e).
Definition notify {X} (n : SyncNotice) (e : SyncEngine X) : SyncEngine X :=
  mkSync (s_db e) (s_queue e) (s_settings e) (s_own e) (s_missed e) (s_waiting e) (s_notices e ++ [n]) (s_net e).

Section engine.
Context {X : Type} `{SyncNet X}.
Context (to_lowercase : string → string).
(** [mail_mime::sanitize_html] (the HTML, and whether it has remote images)
    and [mail_mime::html_to_text]. *)
Context (sanitize_html : string → string * bool) (html_to_text : string → string).

Definition Step (A : Type) : Type := Action (SyncEngine X) SyncError A.

(** A call to the network, a transaction, and reads of the engine. *)
Definition call {A} (f : Action X ProviderError A) : Step A := λ e,
  let '(x, r) := f (s_net e) in (with_net x e, map_err SyncProvider r).
Definition write {A} (f : Tables → StoreResult (Tables * A)) : Step A := λ e,
  match f (tables e) with
  | Ok (t, a) => (with_tables t e, Ok a)
  | Err err => (e, Err (SyncStore err))
  end.
Definition reads {A} (f : SyncEngine X → A) : Step A := λ e, (e, Ok (f e)).
Definition update (f : SyncEngine X → SyncEngine X) : Step () := λ e, (f e, Ok ()).
Definition throw {A} (err : SyncError) : Step A := λ e, (e, Err err).
Definition update_settings (f : Settings → Settings) : Step () :=
  write (λ t, Ok (t.1.1, t.1.2, f t.2, ())).
Definition cheap_headers (e : SyncEngine X) : bool := sn_cheap_headers (s_net e).

(** *** Telling the observer *)

Definition publish (c : ThreadChanges) : Step () := update (λ e, if bool_decide (c = ∅) then e else notify (ThreadsChanged c) e).
Definition report (phase : SyncPhase) : Step () := update (λ e,
  let '(queued, headers) := Queue.counts (s_queue e) in
  let waiting := (queued =? 0) && (0 <? headers) && negb (cheap_headers e) && cleanup_tier_waits (s_settings e) in
  let idle := ((queued + headers =? 0) || waiting) && bool_decide (phase = Backfilling) in
  notify (Progress (if idle then PhaseIdle else phase) queued headers) e).

(** *** Storing fetched messages *)

(** [to_incoming] *)
Definition to_incoming (m : FetchedMessage) : IncomingMessage :=
  let '(body, attachments) :=
    match f_body m with
    | Some b =>
        let sanitized := sanitize_html <$> fb_html b in
        (Some (mkBody (match fb_text b with Some t => Some t | None => html_to_text <$> fb_html b end)
                 (fst <$> sanitized) (default false (snd <$> sanitized))),
         (λ a, mkAttachment (fa_part_id a) (fa_attachment_id a) (fa_filename a) (fa_mime_type a) (fa_size a)
                 (fa_content_id a) (fa_is_inline a) (fa_data a)) <$> fb_attachments b)
    | None => (None, [])
    end in
  mkIncoming (f_id m) (f_thread_id m) (f_message_id_header m) (f_in_reply_to m) (f_references m)
    (f_from m) (f_to m) (f_cc m) (f_bcc m) (f_reply_to m) (f_subject m)
    (default (f_internal_date m) (f_date m)) (f_internal_date m) (f_snippet m)
    (f_label_ids m) (f_size_estimate m) body attachments (f_list m) None.

Definition engine_stored_labels : StoredLabels :=
  match sn_label_sync with
  | LabelsOfProvider => Replace
  | LabelsLocal => Keep
  | LabelsBoth merge => Merge merge
  end.
Definition new_writer (d : Db) : MailWriter := with_stored_labels (writer_new (mail d)) engine_stored_labels.

Fixpoint upsert_all (ms : list IncomingMessage) (w : MailWriter) : StoreResult MailWriter :=
  match ms with [] => Ok w | m :: ms => w ← upsert_message m w; upsert_all ms w end.

(** *** Windows and tiers *)

Definition needs_bootstrap : Step bool := reads (λ e, bool_decide (s_settings e !! KEY_BOOTSTRAPPED = None)).
Definition account_email : Step (option string) := reads (λ e, s_settings e !! KEY_EMAIL).
Definition window : Step SyncWindow := reads (λ e, stored_window (s_settings e)).
Definition body_window : Step BodyWindow := reads (λ e, stored_body_window (s_settings e)).
Definition engine_headers_from : Step (option Z) := reads (λ e, headers_from (cheap_headers e) (s_settings e)).
Definition headers_paused : Step bool :=
  reads (λ e, cleanup_headers_paused (cheap_headers e) (s_settings e) (s_queue e)).

Definition enqueue_page (priority : Z) (refetch : bool) (ids : list MessageId) : Step () :=
  write (λ t, Ok (t.1.1, (Queue.enqueue (mail t.1.1) priority ids refetch t.1.2).1, t.2, ())).

(** [list_phase_with]: over IMAP, or page by page over the API. *)
Fixpoint list_pages (fuel : nat) (filter : ListFilter) (page : option string) (priority : Z) (refetch : bool) : Step () :=
  match fuel with
  | O => throw StillRunning
  | S fuel =>
      result ← call (sn_list_message_ids filter page);
      _ ← enqueue_page priority refetch ((ip_ids result).*1);
      match ip_next result with
      | Some next => list_pages fuel filter (Some next) priority refetch
      | None => mret ()
      end
  end.
Definition list_phase_with (fuel : nat) (phase : Phase) (refetch : bool) (from : option Z) : Step () := λ e,
  let priority := queue_priority phase from in
  let filter := mkFilter (ph_labels phase) (ph_query phase)
    (List.existsb (λ l, String.eqb l "SPAM" || String.eqb l "TRASH") (ph_labels phase)) in
  match sn_list_via_imap (phase_search phase) (s_net e) with
  | (x, Ok ids) => enqueue_page priority refetch ids (with_net x e)
  | (x, Err _) => list_pages fuel filter None priority refetch (with_net x e)
  end.
Fixpoint list_phases (fuel : nat) (phases : list Phase) (refetch : bool) (from : option Z) : Step () :=
  match phases with
  | [] => mret ()
  | p :: phases => _ ← list_phase_with fuel p refetch from; list_phases fuel phases refetch from
  end.

Definition relist_window (fuel : nat) : Step () :=
  bootstrapped ← write (λ t, Ok (t.1.1, (clear_from_priority WINDOW_PRIORITY t.1.2).1, t.2,
                                 bool_decide (is_Some (t.2 !! KEY_BOOTSTRAPPED))));
  if bootstrapped : bool
  then from ← engine_headers_from;
       w ← window;
       _ ← list_phases fuel (drop FIXED_PHASES (phases_for w)) false from;
       _ ← update_settings (set_sync_state KEY_TIERS (tiers_tag from));
       report Backfilling
  else mret ().
Definition set_window (fuel : nat) (w : SyncWindow) : Step () :=
  _ ← update_settings (λ st, set_sync_state KEY_CLEANUP_HEADERS CLEANUP_NO
                               (set_sync_state KEY_WINDOW (window_str w) st));
  relist_window fuel.
Definition ensure_window (fuel : nat) : Step () :=
  recorded ← reads (λ e, s_settings e !! KEY_WINDOW);
  match recorded with None => set_window fuel default_window | Some _ => mret () end.
Definition ensure_tiers (fuel : nat) : Step () :=
  from ← engine_headers_from;
  let want := tiers_tag from in
  have ← reads (λ e, s_settings e !! KEY_TIERS);
  _ ← (if String.eqb (default "flat" have) want then mret () else relist_window fuel);
  update_settings (set_sync_state KEY_TIERS want).
Definition set_body_window (fuel : nat) (b : BodyWindow) : Step () :=
  _ ← update_settings (set_sync_state KEY_BODY_WINDOW (body_window_str b));
  ensure_tiers fuel.
Definition load_every_header (fuel : nat) (expect_cheap : bool) : Step EveryHeader :=
  cheap ← reads cheap_headers;
  outcome ← write (λ t, let '(st, o) := widen_stored cheap expect_cheap t.2 in Ok (t.1.1, t.1.2, st, o));
  _ ← (match outcome with Widened _ => relist_window fuel | _ => mret () end);
  mret outcome.
Definition load_waiting_headers : Step nat :=
  promoted ← write (λ t, let '(st, q, n) := load_waiting_headers_stored t.2 t.1.2 in Ok (t.1.1, q, st, n));
  _ ← update (with_waiting false);
  _ ← report Backfilling;
  mret promoted.

(** *** Bootstrap *)

(** [refresh_labels]; [read::list_labels] leaves the virtual one out. *)
Definition user_labels (s : Store) : list LabelId :=
  lb_gmail_id <$> List.filter (λ l, bool_decide (lb_kind l = UserLabel)) (labels s).
Definition refresh_labels : Step () :=
  listed ← call sn_list_labels;
  changes ← write (λ t,
    let user := if keeps_user_labels sn_label_sync then user_labels (mail t.1.1) else [] in
    let kept := List.filter (λ l, negb (bool_decide (l_id l ∈ user))) listed in
    let w := retain_labels ((l_id <$> listed) ++ user) (upsert_labels kept (writer_new (mail t.1.1))) in
    '(s, c) ← finish to_lowercase w;
    Ok (with_mail s t.1.1, t.1.2, t.2, c));
  publish changes.
Definition bootstrap_prepare (fuel : nat) : Step () :=
  _ ← refresh_labels;
  profile ← call sn_profile;
  _ ← update_settings (λ st,
        let st := set_sync_state KEY_EMAIL (pr_email profile) st in
        match st !! KEY_CURSOR with Some _ => st | None => set_sync_state KEY_CURSOR (pr_cursor profile) st end);
  w ← window;
  from ← engine_headers_from;
  _ ← update_settings (λ st, set_sync_state KEY_TIERS (tiers_tag from) (set_sync_state KEY_WINDOW (window_str w) st));
  _ ← list_phases fuel (take INBOX_PHASES (phases_for w)) false from;
  report Listing.
Definition bootstrap_list_rest (fuel : nat) : Step () :=
  w ← window;
  from ← engine_headers_from;
  _ ← list_phases fuel (drop INBOX_PHASES (phases_for w)) false from;
  _ ← update_settings (set_sync_state KEY_BOOTSTRAPPED "1");
  report Backfilling.
Definition refetch_all (fuel : nat) : Step nat :=
  from ← engine_headers_from;
  w ← window;
  _ ← list_phases fuel (phases_for w) true from;
  queued ← reads (λ e, Queue.len (s_queue e));
  _ ← report Backfilling;
  mret queued.
Definition start_resync (fuel : nat) : Step () :=
  profile ← call sn_profile;
  _ ← update_settings (λ st, delete KEY_BOOTSTRAPPED (set_sync_state KEY_CURSOR (pr_cursor profile) st));
  from ← engine_headers_from;
  w ← window;
  _ ← list_phases fuel (phases_for w) true from;
  update_settings (set_sync_state KEY_BOOTSTRAPPED "1").

(** *** Backfill *)

(** Upserts and the end of the session, with what else the transaction does
    to the queue. *)
Definition store_fetched (incoming : list IncomingMessage) (f : BackfillQueue → BackfillQueue) (t : Tables) :
    StoreResult (Tables * ThreadChanges) :=
  w ← upsert_all incoming (new_writer t.1.1);
  '(s, c) ← finish to_lowercase w;
  Ok (with_mail s t.1.1, f t.1.2, t.2, c).

Definition backfill_batch (max : nat) : Step nat :=
  ids ← reads (λ e, peek max (s_queue e));
  match ids with
  | [] => mret 0
  | _ =>
      fetched ← call (sn_fetch_bodies ids);
      changes ← write (store_fetched (to_incoming <$> fetched) (Queue.remove ids));
      _ ← publish changes;
      _ ← report Backfilling;
      mret (length ids)
  end.
Fixpoint backfill_all (fuel : nat) (total : nat) : Step nat :=
  match fuel with
  | O => throw StillRunning
  | S fuel =>
      n ← backfill_batch BACKFILL_BATCH;
      if n =? 0 then mret total else backfill_all fuel (total + n)
  end.

Definition headers_pass (max : nat) : Step nat :=
  missed ← reads s_missed;
  ids ← reads (λ e, take max (List.filter (λ id, negb (bool_decide (id ∈ missed)))
                      (for_headers (mail (s_db e)) (max + size missed) (s_queue e))));
  match ids with
  | [] => mret 0
  | _ =>
      headers ← call (sn_fetch_headers ids);
      match headers with
      | None =>
          cheap ← reads cheap_headers;
          if cheap : bool then mret 0
          else
            waits ← reads (λ e, cleanup_tier_waits (s_settings e));
            if waits : bool
            then
              told ← reads s_waiting;
              _ ← update (with_waiting true);
              _ ← (if told : bool then mret () else report Backfilling);
              mret 0
            else
              _ ← write (λ t, Ok (t.1.1, (promote_headers_only t.1.2).1, t.2, ()));
              mret 0
      | Some headers =>
          _ ← update (with_waiting false);
          let incoming := to_incoming <$> headers in
          r ← write (λ t,
            w ← upsert_all incoming (new_writer t.1.1);
            let '(q, dropped) := remove_headers_only ids t.1.2 in
            '(s, c) ← finish to_lowercase w;
            Ok (with_mail s t.1.1, q, t.2, (c, dropped)));
          let '(changes, dropped) := r in
          _ ← update (λ e, with_missed (s_missed e ∪
                 list_to_set (List.filter (λ id, negb (bool_decide (id ∈ m_id <$> incoming))) ids)) e);
          _ ← publish changes;
          _ ← report Backfilling;
          mret (length incoming + dropped)
      end
  end.

Definition ensure_bodies (ids : list MessageId) : Step nat :=
  missing ← reads (λ e, Queue.missing (mail (s_db e)) ids);
  match missing with
  | [] => mret 0
  | _ =>
      fetched ← call (sn_fetch_bodies missing);
      let incoming := to_incoming <$> List.filter (λ m, bool_decide (is_Some (f_body m))) fetched in
      changes ← write (store_fetched incoming (Queue.remove (m_id <$> incoming)));
      _ ← publish changes;
      _ ← report Backfilling;
      mret (length incoming)
  end.
Definition search_server (query : string) (max : nat) : Step nat := λ e,
  match sn_list_via_imap query (s_net e) with
  | (x, Ok ids) => ensure_bodies (take max ids) (with_net x e)
  | (x, Err _) =>
      (found ← call (sn_list_message_ids (mkFilter [] (Some query) false) None);
       ensure_bodies (take max ((ip_ids found).*1))) (with_net x e)
  end.
Definition prioritize (ids : list MessageId) : Step () :=
  write (λ t, Ok (t.1.1, (enqueue_urgent (mail t.1.1) ids t.1.2).1, t.2, ())).

(** *** Drafts and history *)

Fixpoint delete_all (ids : list MessageId) (w : MailWriter) : MailWriter :=
  match ids with [] => w | id :: ids => delete_all ids (delete_message id w).1 end.
Definition sync_drafts : Step nat :=
  listed ← call sn_list_drafts;
  match listed with
  | None => mret 0
  | Some listed =>
      let held := listed.*2 in
      missing ← reads (λ e, Queue.missing (mail (s_db e)) held);
      stale ← reads (λ e, List.filter (λ id, negb (bool_decide (id ∈ held)))
                            (ms_gmail_id <$> List.filter (λ r, is_draft (ms_flags r)) (messages (mail (s_db e)))));
      fetched ← (match missing with [] => mret [] | _ => call (sn_fetch_bodies missing) end);
      changes ← write (λ t,
        w ← upsert_all (to_incoming <$> fetched) (new_writer t.1.1);
        '(s, c) ← finish to_lowercase (delete_all stale w);
        Ok (replace_server_drafts listed (with_mail s t.1.1), t.1.2, t.2, c));
      _ ← publish changes;
      mret (length fetched)
  end.

(** What the history transaction collects. *)
Record History := mkHistory {
  h_deleted : nat; h_relabeled : nat; h_unknown : list MessageId;
  h_external : list (MessageId * list LabelId * bool) }.

Definition relabel_change (id : MessageId) (ls : list LabelId) (added : bool) (fetched : list MessageId)
    (w : MailWriter) (h : History) : StoreResult (MailWriter * History) :=
  if bool_decide (id ∈ fetched) then Ok (w, h)
  else
    '(w, known) ← (if added then modify_message_labels id ls [] w else modify_message_labels id [] ls w);
    Ok (w, if known : bool
           then mkHistory (h_deleted h) (S (h_relabeled h)) (h_unknown h) (h_external h ++ [(id, ls, added)])
           else mkHistory (h_deleted h) (h_relabeled h) (h_unknown h ++ [id]) (h_external h)).
Definition apply_change (fetched : list MessageId) (c : Change) (st : MailWriter * BackfillQueue * History) :
    StoreResult (MailWriter * BackfillQueue * History) :=
  let '(w, q, h) := st in
  match c with
  | MessageAdded _ _ _ => Ok (w, q, h)
  | MessageDeleted id =>
      let '(w, known) := delete_message id w in
      Ok (w, Queue.remove [id] q,
          mkHistory (if known : bool then S (h_deleted h) else h_deleted h) (h_relabeled h) (h_unknown h) (h_external h))
  | LabelsAdded id ls => '(w, h) ← relabel_change id ls true fetched w h; Ok (w, q, h)
  | LabelsRemoved id ls => '(w, h) ← relabel_change id ls false fetched w h; Ok (w, q, h)
  end.
Fixpoint apply_changes (fetched : list MessageId) (cs : list Change) (st : MailWriter * BackfillQueue * History) :
    StoreResult (MailWriter * BackfillQueue * History) :=
  match cs with
  | [] => Ok st
  | c :: cs => st ← apply_change fetched c st; apply_changes fetched cs st
  end.

(** The fetched messages, each with whether it was stored before. *)
Fixpoint upsert_new (ms : list IncomingMessage) (w : MailWriter) : StoreResult (MailWriter * list NewMail) :=
  match ms with
  | [] => Ok (w, [])
  | m :: ms =>
      let news := new_mail m (is_stored (tx w) (m_id m)) in
      w ← upsert_message m w;
      '(w, l) ← upsert_new ms w;
      Ok (w, option_list news ++ l)
  end.

(** [read::get_message], the thread's id. *)
Definition message_thread (s : Store) (id : MessageId) : option ThreadId :=
  r ← find_message s id; th_gmail_id <$> thread_by_rowid s (ms_thread r).
Definition external_threads (s : Store) (l : list (MessageId * list LabelId * bool)) :
    list (MessageId * ThreadId * list LabelId * bool) :=
  omap (λ '(id, ls, added), (λ t, (id, t, ls, added)) <$> message_thread s id) l.

(** The one transaction of an incremental round. *)
Definition apply_history (incoming : list IncomingMessage) (set : ChangeSet) (t : Tables) :
    StoreResult (Tables * (ThreadChanges * IncrementalReport * list (MessageId * ThreadId * list LabelId * bool))) :=
  '(w, news) ← upsert_new incoming (new_writer t.1.1);
  '(w, q, h) ← apply_changes (m_id <$> incoming) (cs_changes set) (w, t.1.2, mkHistory 0 0 [] []);
  let q := (enqueue_urgent (tx w) (h_unknown h) q).1 in
  let st := set_sync_state KEY_CURSOR (cs_cursor set) t.2 in
  let threads := external_threads (tx w) (h_external h) in
  '(s, c) ← finish to_lowercase w;
  Ok (with_mail s t.1.1, q, st,
      (c, mkIncremental (length incoming) (h_deleted h) (h_relabeled h) news [], threads)).

(** [not_ours] *)
Definition OWN_CHANGE_WINDOW : Millis := 2 * 60 * 60 * 1000.
Definition add_external (m : MessageId) (t : ThreadId) (added : bool) (theirs : list LabelId)
    (x : ExternalLabelChange) : ExternalLabelChange :=
  if added then mkExternal (ex_message x) (ex_thread x) (ex_added x ++ theirs) (ex_removed x)
  else mkExternal (ex_message x) (ex_thread x) (ex_added x) (ex_removed x ++ theirs).
Fixpoint group_external (m : MessageId) (t : ThreadId) (added : bool) (theirs : list LabelId)
    (out : list ExternalLabelChange) : list ExternalLabelChange :=
  match out with
  | [] => [add_external m t added theirs (mkExternal m t [] [])]
  | x :: out =>
      if bool_decide (ex_message x = m) then add_external m t added theirs x :: out
      else x :: group_external m t added theirs out
  end.
Definition theirs_of (own : list OwnChange) (m : MessageId) (ls : list LabelId) (added : bool) : list LabelId :=
  List.filter (λ l, negb (List.existsb (λ c, bool_decide (oc_message c = m) && bool_decide (oc_label c = l) &&
                                             Bool.eqb (oc_added c) added) own)) ls.
Definition not_ours (now : Millis) (own : list OwnChange)
    (labeled : list (MessageId * ThreadId * list LabelId * bool)) : list OwnChange * list ExternalLabelChange :=
  let own := List.filter (λ c, (now - oc_at c <? OWN_CHANGE_WINDOW)%Z) own in
  (own, foldl (λ out '(m, t, ls, added),
                 match theirs_of own m ls added with
                 | [] => out
                 | theirs => group_external m t added theirs out
                 end) [] labeled).

(** What to fetch: every id added and not deleted, in order, once. *)
Definition string_le (a b : string) : Prop := String.compare a b ≠ Gt.
#[export] Instance string_le_dec a b : Decision (string_le a b).
Proof. unfold string_le. apply _. Defined.
Definition added_ids (cs : list Change) : list MessageId :=
  omap (λ c, match c with MessageAdded id _ _ => Some id | _ => None end) cs.
Definition deleted_ids (cs : list Change) : list MessageId :=
  omap (λ c, match c with MessageDeleted id => Some id | _ => None end) cs.
Definition to_fetch (cs : list Change) : list MessageId :=
  merge_sort string_le
    (List.filter (λ id, negb (bool_decide (id ∈ deleted_ids cs))) (remove_dups (added_ids cs))).

(** [sync_incremental], from the provider's answer on. *)
Definition apply_round (set : ChangeSet) (now : Millis) : Step IncrementalReport :=
  let ids := to_fetch (cs_changes set) in
  fetched ← (match ids with [] => mret [] | _ => call (sn_fetch_messages ids) end);
  r ← write (apply_history (to_incoming <$> fetched) set);
  let '(changes, rep, labeled) := r in
  own ← reads s_own;
  let '(own, external) := not_ours now own labeled in
  _ ← update (with_own own);
  _ ← publish changes;
  _ ← (λ e, match sync_drafts e with (e, _) => (e, Ok ()) end);
  _ ← report Incremental;
  mret (mkIncremental (ir_added rep) (ir_deleted rep) (ir_relabeled rep) (ir_new_mail rep) external).
Definition incremental_round (cursor : string) (fuel : nat) (now : Millis) : Step IncrementalReport := λ e,
  match sn_changes_since cursor (s_net e) with
  | (x, Err CursorExpired) => (_ ← start_resync fuel; throw ResyncStarted) (with_net x e)
  | (x, Err err) => (with_net x e, Err (SyncProvider err))
  | (x, Ok set) => apply_round set now (with_net x e)
  end.
(** [sync_incremental]; [drain] is the outbox drain before it. *)
Definition sync_incremental (drain : Step ()) (fuel : nat) (now : Millis) : Step IncrementalReport :=
  cursor ← reads (λ e, s_settings e !! KEY_CURSOR);
  match cursor with
  | None => throw NotBootstrapped
  | Some cursor => _ ← drain; incremental_round cursor fuel now
  end.
End engine.
