(* ===== verification/UpsertProperties.v ===== *)
(** * UpsertProperties: what the writer does to messages and labels, by id

    The effect of [delete_message] and [upsert_message] ([write.rs]) on
    [labels_at]: which messages are stored, with which labels.  Deleting
    takes out one message; an upsert gives one message the delivered labels;
    neither touches another message of the provider's. *)

From S2P Require Import Prelude.
From S2P Require Import Domain.
From S2P Require Import MailStore.
From S2P Require Import StoreInvariant.
From S2P Require Import WriterProperties.
From S2P Require Import UndoProperties.
From S2P Require Import Finish.
From S2P Require Import Read.

(** ** The view by id *)

Lemma labels_at_ext s s' id :
  find_message s' id = find_message s id → labels s' = labels s → message_labels s' = message_labels s →
  labels_at s' id = labels_at s id.
Proof.
  intros E1 E2 E3. unfold labels_at, message_label_ids, labels_of_message. by rewrite E1, E2, E3.
Qed.
Lemma labels_at_core s s' id : same_core s s' → labels_at s' id = labels_at s id.
Proof. intros (E1 & E2 & E3 & E4 & _). apply labels_at_ext; [|done..]. unfold find_message. by rewrite E3. Qed.

(** ** Deleting *)

Lemma find_message_delete D s rowid r id :
  good D s → r ∈ messages s → ms_id r = rowid →
  find_message (delete_message_row rowid (delete_fts_row rowid s)) id =
  if bool_decide (id = ms_gmail_id r) then None else find_message s id.
Proof.
  intros Hg Hr <-. unfold find_message. simpl. case_bool_decide as E.
  - subst id. apply find_by_None. intros (x & Ex & [Hne Hx]%elem_of_List_filter)%list_elem_of_fmap.
    rewrite (NoDup_fmap_inj ms_gmail_id (messages s) x r) in Hne; [|apply (inv_messages s), Hg|done..].
    by rewrite bool_decide_eq_true_2 in Hne.
  - apply find_by_filter. intros x Hx <-. apply negb_true_iff, bool_decide_eq_false. intros Eid.
    by rewrite (same_rowid _ _ _ _ Hg Hr Hx Eid) in E.
Qed.

Lemma labels_of_message_delete s rowid x :
  x ≠ rowid → message_label_ids (delete_message_row rowid (delete_fts_row rowid s)) x = message_label_ids s x.
Proof.
  intros Hx. unfold message_label_ids, labels_of_message. simpl. f_equal. apply List_filter_ext.
  intros l _. apply bool_decide_ext. rewrite elem_of_List_filter, bool_decide_eq_false_2 by done. tauto.
Qed.

Lemma delete_labels_at P w id id' :
  writer_good P w →
  find_message (tx (delete_message id w).1) id' = (if bool_decide (id' = id) then None else find_message (tx w) id') ∧
  labels_at (tx (delete_message id w).1) id' = (if bool_decide (id' = id) then None else labels_at (tx w) id').
Proof.
  intros HP. unfold delete_message, message_rowid.
  destruct (find_message (tx w) id) as [r|] eqn:E; simpl.
  2: { case_bool_decide; [|done]. subst id'. unfold labels_at. by rewrite E. }
  rewrite mark_thread_rowid_tx. simpl. pose proof E as [Hr Hid]%find_by_Some_2.
  pose proof (find_message_delete _ _ _ _ id' (wg_good _ _ HP) Hr eq_refl) as Hf. rewrite Hid in Hf.
  split; [exact Hf|]. unfold labels_at. rewrite Hf. case_bool_decide as Ei; [done|].
  destruct (find_message (tx w) id') as [r'|] eqn:E'; [|done]. simpl. f_equal. f_equal.
  apply labels_of_message_delete. intros Eid. apply find_by_Some_2 in E' as [Hr' Hid'].
  rewrite (same_rowid _ _ _ _ (wg_good _ _ HP) Hr Hr' Eid) in Hid'. congruence.
Qed.

(** ** Ids of the provider: not the optimistic local copies' *)

Definition server_id (id : MessageId) : bool := negb (starts_with LOCAL_PREFIX (ascii_lower id)).

Lemma stored_labels_mark t w : stored_labels (mark_thread_rowid t w) = stored_labels w.
Proof. unfold mark_thread_rowid. by repeat case_match. Qed.
Lemma stored_labels_delete id w : stored_labels (delete_message id w).1 = stored_labels w.
Proof. unfold delete_message. destruct (message_rowid _ _) as [[]|]; [|done]. simpl. by rewrite stored_labels_mark. Qed.

Lemma replace_local_labels P m w id :
  writer_good P w → server_id id = true →
  find_message (tx (replace_local_copies m w)) id = find_message (tx w) id ∧
  labels_at (tx (replace_local_copies m w)) id = labels_at (tx w) id ∧
  stored_labels (replace_local_copies m w) = stored_labels w.
Proof.
  intros HP Hid. unfold replace_local_copies. destruct (m_rfc822 m) as [rfc|]; [|done]. case_match; [done|].
  assert (∀ r, r ∈ List.filter (λ r, bool_decide (ms_rfc822 r = Some rfc) &&
                 starts_with LOCAL_PREFIX (ascii_lower (ms_gmail_id r))) (messages (tx w)) → id ≠ ms_gmail_id r) as Hne.
  { intros r [[_ Hr]%andb_true_iff _]%elem_of_List_filter ->. unfold server_id in Hid. by rewrite Hr in Hid. }
  revert Hne. generalize (List.filter (λ r, bool_decide (ms_rfc822 r = Some rfc) &&
                 starts_with LOCAL_PREFIX (ascii_lower (ms_gmail_id r))) (messages (tx w))).
  intros rs. revert w HP. induction rs as [|r rs IH]; intros w HP Hne; simpl; [done|].
  destruct (delete_message_inv _ (ms_gmail_id r) w HP) as (HP' & _).
  destruct (IH _ HP') as (E1 & E2 & E3); [intros; apply Hne; by right|].
  destruct (delete_labels_at P w (ms_gmail_id r) id HP) as [F1 F2].
  rewrite bool_decide_eq_false_2 in F1, F2 by (apply Hne; by left).
  rewrite E1, E2, E3, F1, F2, stored_labels_delete. done.
Qed.

(** An optimistic copy, stored under its own id. *)
Definition storable (id : MessageId) : bool := server_id id || starts_with LOCAL_PREFIX id.
Lemma server_storable id : server_id id = true → storable id = true.
Proof. unfold storable. by intros ->. Qed.
Lemma replace_local_own P m w :
  writer_good P w → storable (m_id m) = true →
  find_message (tx (replace_local_copies m w)) (m_id m) = find_message (tx w) (m_id m) ∧
  stored_labels (replace_local_copies m w) = stored_labels w.
Proof.
  intros HP [Hid|Hid]%orb_true_iff; [by destruct (replace_local_labels P m w (m_id m) HP Hid) as (? & _ & ?)|].
  unfold replace_local_copies. destruct (m_rfc822 m); [|done]. by rewrite Hid.
Qed.

(** ** Storing a message *)

(** A row with what the message delivers. *)
Record delivered (m : IncomingMessage) (thread : Z) (f : Flags) (r : MessageRow) : Prop := {
  dl_thread : ms_thread r = thread;
  dl_id : ms_gmail_id r = m_id m;
  dl_headers : ms_rfc822 r = m_rfc822 m ∧ ms_in_reply_to r = m_in_reply_to m ∧ ms_references r = m_references m;
  dl_subject : ms_subject r = m_subject m;
  dl_dates : ms_date r = m_date m ∧ ms_internal_date r = m_internal_date m;
  dl_size : ms_size r = m_size_estimate m;
  dl_flags : ms_flags r = f;
  dl_full : is_Some (m_body m) → ms_body_state r = Full ∧ ms_snippet r = m_snippet m }.
Lemma delivered_updated m thread f r : ms_gmail_id r = m_id m → delivered m thread f (updated_row m thread f r).
Proof.
  intros Hid. constructor; try done. intros Hb. unfold updated_row, incoming_body_state. simpl.
  rewrite bool_decide_eq_true_2 by done. destruct Hb as [b ->]. done.
Qed.
Lemma delivered_new m rowid thread f : delivered m thread f (new_row m rowid thread f).
Proof. constructor; try done. intros [b Hb]. unfold new_row, incoming_body_state. simpl. by rewrite Hb. Qed.

(** Its row is there, under [rowid]; the provider's other messages are as
    they were. *)
Definition row_stored (m : IncomingMessage) (thread : Z) (f : Flags) (rowid : Z) (w w' : MailWriter) : Prop :=
  stored_labels w' = stored_labels w ∧
  (∃ r, find_message (tx w') (m_id m) = Some r ∧ ms_id r = rowid ∧ delivered m thread f r) ∧
  ∀ id', id' ≠ m_id m → server_id id' = true → labels_at (tx w') id' = labels_at (tx w) id'.

Lemma update_row_labels P m thread f w r :
  writer_good P w → r ∈ messages (tx w) → ms_gmail_id r = m_id m →
  row_stored m thread f (ms_id r) w
    (on_tx (update_messages (λ x, bool_decide (ms_id x = ms_id r)) (updated_row m thread f))
       (if bool_decide (ms_thread r ≠ thread) then mark_thread_rowid (ms_thread r) w else w)).
Proof.
  intros HP Hr Hid. set (w1 := if bool_decide _ then _ else w).
  assert (tx w1 = tx w ∧ stored_labels w1 = stored_labels w) as [Etx Est].
  { subst w1. case_bool_decide; [|done]. by rewrite mark_thread_rowid_tx, stored_labels_mark. }
  pose proof (λ id', find_message_update _ _ r (updated_row m thread f) id' (wg_good _ _ HP) Hr (λ _, eq_refl)) as Hf.
  split_and!; [done| |].
  - exists (updated_row m thread f r). simpl. rewrite Etx, Hf, Hid, bool_decide_eq_true_2 by done.
    split_and!; [done..|by apply delivered_updated].
  - intros id' Hne _. apply labels_at_ext; simpl; rewrite Etx; [|done..].
    rewrite Hf, Hid. by rewrite bool_decide_eq_false_2.
Qed.

Lemma insert_row_labels P m thread f w :
  writer_good P w → storable (m_id m) = true → thread ∈ P → find_message (tx w) (m_id m) = None →
  let rowid := next_rowid (ms_id <$> messages (tx w)) in
  row_stored m thread f rowid w
    (replace_local_copies m (on_tx (record_contacts m (is_sent_by_me f))
       (on_tx (λ s, with_messages (messages s ++ [new_row m rowid thread f]) s) w))).
Proof.
  intros HP Hsid Hth Hnone rowid. set (w1 := on_tx (λ s, with_messages _ s) w).
  pose proof (next_rowid_not_in (ms_id <$> messages (tx w))) as Hnew.
  assert (m_id m ∉ ms_gmail_id <$> messages (tx w)) as Hgm by by apply find_by_None.
  assert (writer_good P w1) as Hw1.
  { apply writer_good_on_tx; [done| |done]. apply good_message_app; [apply HP|done..|set_solver]. }
  destruct (record_contacts_core m (is_sent_by_me f) (tx w1)) as [Hcore _].
  assert (writer_good P (on_tx (record_contacts m (is_sent_by_me f)) w1)) as Hw2.
  { apply writer_good_on_tx; [done| |apply Hcore]. eapply good_core; [done|apply Hw1]. }
  assert (∀ id', find_message (tx w1) id' =
            match find_message (tx w) id' with Some r => Some r | None => if bool_decide (id' = m_id m) then Some (new_row m rowid thread f) else None end) as Hf1.
  { intros id'. unfold find_message. simpl. rewrite find_by_app.
    destruct (find_by ms_gmail_id id' (messages (tx w))); [done|]. unfold find_by. simpl.
    by rewrite (bool_decide_ext (m_id m = id') (id' = m_id m)) by (split; congruence). }
  set (w2 := on_tx (record_contacts m (is_sent_by_me f)) w1) in *.
  assert (∀ id', find_message (tx w2) id' = find_message (tx w1) id') as Hf2.
  { intros id'. unfold find_message. change (tx w2) with (record_contacts m (is_sent_by_me f) (tx w1)).
    by destruct Hcore as (_ & _ & -> & _). }
  destruct (replace_local_own P m w2 Hw2 Hsid) as (E1 & E3). split_and!; [done| |].
  - exists (new_row m rowid thread f). rewrite E1, Hf2, Hf1, Hnone, bool_decide_eq_true_2 by done.
    split_and!; [done..|apply delivered_new].
  - intros id' Hne Hid'. destruct (replace_local_labels P m w2 id' Hw2 Hid') as (_ & -> & _).
    rewrite (labels_at_core (tx w1)) by done. apply labels_at_ext; [|done..].
    rewrite Hf1, bool_decide_eq_false_2 by done. by destruct (find_message (tx w) id').
Qed.

Lemma store_row_labels m thread f w w' rowid :
  writer_good {[thread]} w → storable (m_id m) = true →
  store_row m thread (find_message (tx w) (m_id m)) f w = (w', rowid) → row_stored m thread f rowid w w'.
Proof.
  intros HP Hid. unfold store_row. destruct (find_message (tx w) (m_id m)) as [r|] eqn:Er; intros [= <- <-].
  - apply find_by_Some_2 in Er as [Hr Er]. by eapply update_row_labels.
  - eapply insert_row_labels; [done|done|set_solver|done].
Qed.

Lemma ensure_thread_labels id w w' thread :
  ensure_thread id w = (w', thread) →
  labels (tx w') = labels (tx w) ∧ messages (tx w') = messages (tx w) ∧
  message_labels (tx w') = message_labels (tx w) ∧ stored_labels w' = stored_labels w.
Proof. unfold ensure_thread. destruct (find_thread (tx w) id); by intros [= <- _]. Qed.

Lemma participants_Ok rowid m s : message_exists s rowid = true → ∃ s', replace_participants rowid m s = Ok s'.
Proof. intros H. unfold replace_participants. rewrite H. by destruct (participant_rows rowid m); eauto. Qed.
Lemma store_body_Ok rowid m s : message_exists s rowid = true → ∃ s', store_body rowid m s = Ok s'.
Proof. intros H. unfold store_body. rewrite H. by destruct (m_body m); eauto. Qed.

(** *** The tables of one message *)

Lemma replace_participants_rows rowid m s s' :
  replace_participants rowid m s = Ok s' →
  List.filter (λ p, bool_decide (pt_message p = rowid)) (participants s') = participant_rows rowid m.
Proof.
  assert (∀ l, List.filter (λ p, bool_decide (pt_message p = rowid))
            (List.filter (λ p, negb (bool_decide (pt_message p = rowid))) l) = []) as Hnone.
  { intros l. apply List_filter_none. intros p [Hp _]%elem_of_List_filter. by apply negb_true_iff. }
  assert (List.filter (λ p, bool_decide (pt_message p = rowid)) (participant_rows rowid m) = participant_rows rowid m) as Hall.
  { apply List_filter_all. intros p Hp. apply bool_decide_eq_true. unfold participant_rows in Hp.
    apply list_elem_of_bind in Hp as ([role l] & Hp & _). apply elem_of_lookup_imap in Hp as (i & a & -> & _). done. }
  unfold replace_participants. destruct (participant_rows rowid m) as [|p ps] eqn:E.
  - intros [= <-]. simpl. apply Hnone.
  - case_match; [|done]. intros [= <-]. simpl participants. rewrite List.filter_app, Hnone. exact Hall.
Qed.

(** The tables a label change leaves alone. *)
Definition same_parts (s s' : Store) : Prop :=
  participants s' = participants s ∧ bodies s' = bodies s ∧ attachments s' = attachments s.
Lemma label_rowid_parts s l : same_parts s (label_rowid s l).1.
Proof. unfold label_rowid. by case_match. Qed.
Lemma insert_message_labels_parts rowid ls s s' : insert_message_labels rowid s ls = Ok s' → same_parts s s'.
Proof.
  revert s. induction ls as [|l ls IH]; intros s; [by intros [= <-]|]. simpl.
  intros (s1 & H1 & H2)%bind_Ok. apply IH in H2 as (E1 & E2 & E3). unfold insert_message_label in H1.
  case_bool_decide; [done|]. pose proof (label_rowid_parts s l) as (F1 & F2 & F3).
  destruct (label_rowid s l) as [s0 r]. simpl in F1, F2, F3. case_match; [done|]. injection H1 as <-.
  unfold same_parts. rewrite E1, E2, E3. case_bool_decide; simpl; by rewrite F1, F2, F3.
Qed.
Lemma replace_message_labels_parts rowid ls s s' : replace_message_labels s rowid ls = Ok s' → same_parts s s'.
Proof. intros H. by apply insert_message_labels_parts in H. Qed.

Lemma store_body_rows rowid m s s' :
  store_body rowid m s = Ok s' →
  participants s' = participants s ∧
  ∀ b, m_body m = Some b → bodies s' !! rowid = Some b ∧
    List.filter (λ a, bool_decide (at_message a = rowid)) (attachments s') = attachment_row rowid <$> m_attachments m.
Proof.
  unfold store_body. destruct (m_body m) as [b|]; [|intros [= <-]; done]. case_match; [|done]. intros [= <-].
  split; [done|]. intros b' [= <-]. simpl. split; [apply lookup_insert_eq|].
  rewrite List.filter_app, List_filter_none, List_filter_all; [done| |].
  - intros a (x & -> & _)%list_elem_of_fmap. simpl. by apply bool_decide_eq_true.
  - intros a [Ha _]%elem_of_List_filter. by apply negb_true_iff.
Qed.

(** ** The whole upsert *)

Record upserted (m : IncomingMessage) (ls : list LabelId) (w w' : MailWriter) (r : MessageRow) (t : ThreadRow) :
    Prop := {
  up_inv : writer_inv w';
  up_policy : stored_labels w' = stored_labels w;
  up_find : find_message (tx w') (m_id m) = Some r;
  up_row : delivered m (th_id t) (flags_of ls) r;
  up_thread : t ∈ threads (tx w') ∧ th_gmail_id t = m_thread_id m;
  up_labels : ∀ n, n ∈ message_label_ids (tx w') (ms_id r) ↔ n ∈ ls;
  up_participants :
    List.filter (λ p, bool_decide (pt_message p = ms_id r)) (participants (tx w')) = participant_rows (ms_id r) m;
  up_body : ∀ b, m_body m = Some b → bodies (tx w') !! ms_id r = Some b ∧
    List.filter (λ a, bool_decide (at_message a = ms_id r)) (attachments (tx w')) =
      attachment_row (ms_id r) <$> m_attachments m;
  up_others : ∀ id, id ≠ m_id m → server_id id = true → labels_at (tx w') id = labels_at (tx w) id }.

Lemma upsert_stored m w :
  let ls := incoming_labels w (find_message (tx w) (m_id m)) m in
  writer_inv w → storable (m_id m) = true → ARCHIVE_LABEL ∉ ls →
  ∃ w' r t, upsert_message m w = Ok w' ∧ upserted m ls w w' r t.
Proof.
  intros ls [HP Hfts] Hid Ha.
  assert (∀ w', upsert_message m w = Ok w' → writer_inv w') as Hinv by (intros w'; by apply upsert_message_inv).
  revert Hinv. unfold upsert_message.
  destruct (ensure_thread (m_thread_id m) w) as [w1 thread] eqn:E1.
  destruct (ensure_thread_good _ _ _ _ HP E1) as (HP1 & _ & _ & Ef & t & Ht & Hti & Htg).
  destruct (ensure_thread_labels _ _ _ _ E1) as (El & Em & Eml & Es).
  assert (incoming_labels w1 (find_message (tx w1) (m_id m)) m = ls) as ->.
  { unfold ls, incoming_labels, find_message, message_label_ids, labels_of_message. by rewrite Es, Em, El, Eml. }
  destruct (store_row m thread _ _ w1) as [w2 rowid] eqn:E2.
  pose proof E2 as [[HP2 _ Hth] Eth2]%store_row_stored; [|done|unfold fts_ok; by rewrite Em, Ef].
  apply store_row_labels in E2 as (Es2 & (r & Hr & Hrid & Hdel) & Hothers2); [|done..].
  pose proof Hr as [Hin Hgm]%find_by_Some_2.
  assert (message_exists (tx w2) rowid = true) as Hex.
  { apply existsb_true. exists r. by rewrite bool_decide_eq_true_2. }
  destruct (participants_Ok rowid m (tx w2) Hex) as [s1 E3]. rewrite E3. cbn [mbind result_bind].
  pose proof (replace_participants_rows _ _ _ _ E3) as Hpart.
  apply replace_participants_core in E3 as [Hc1 _].
  pose proof (good_core _ _ _ Hc1 (wg_good _ _ HP2)) as Hg1.
  pose proof Hc1 as (El1 & Et1 & Em1 & _).
  assert (message_exists s1 rowid = true) as Hex1 by (unfold message_exists; by rewrite Em1).
  destruct (replace_message_labels_Ok s1 rowid ls Hex1 Ha) as [s2 E4].
  rewrite E4. cbn [mbind result_bind].
  assert (∀ x, x ∈ messages s1 → ms_id x = rowid → ms_thread x ∈ {[thread]} ∪ dom (dirty w2)) as HD.
  { rewrite Em1. intros x Hx Ex. rewrite (Hth x Hx Ex). set_solver. }
  pose proof (replace_message_labels_ids _ _ _ _ _ Hg1 HD E4) as Hids.
  pose proof (replace_message_labels_parts _ _ _ _ E4) as (Ep2 & _).
  eapply replace_message_labels_good in E4 as (Hg2 & Et2 & Em2 & _); [|done..].
  assert (message_exists s2 rowid = true) as Hex2 by (unfold message_exists; by rewrite Em2).
  destruct (store_body_Ok rowid m s2 Hex2) as [s3 E5]. rewrite E5. cbn [mbind result_bind].
  destruct (store_body_rows _ _ _ _ E5) as [Ep3 Hbody].
  apply store_body_core in E5 as [Hc3 _]. intros Hinv. eexists _, r, t. split; [reflexivity|].
  assert (∀ id, find_message s2 id = find_message (tx w2) id) as Hf2 by (intros; unfold find_message; by rewrite Em2, Em1).
  assert (∀ id, labels_at (index_message rowid s3) id = labels_at s2 id) as Hs2.
  { intros id. rewrite (labels_at_core s3 _ id (index_message_core rowid s3)). by apply labels_at_core. }
  destruct Hc3 as (El3 & Et3 & Em3 & Eml3 & _).
  constructor; cbn [tx stored_labels]; rewrite ?Hrid.
  - by apply Hinv.
  - congruence.
  - change (find_message s3 (m_id m) = Some r). unfold find_message. rewrite Em3. change (find_message s2 (m_id m) = Some r). by rewrite Hf2.
  - by rewrite Hti.
  - split; [|done]. change (t ∈ threads s3). by rewrite Et3, Et2, Et1, Eth2.
  - intros n. change (n ∈ message_label_ids s3 rowid ↔ n ∈ ls).
    assert (message_label_ids s3 rowid = message_label_ids s2 rowid) as ->
      by (unfold message_label_ids, labels_of_message; by rewrite El3, Eml3).
    rewrite (Hids rowid n). naive_solver.
  - change (participants (index_message rowid s3)) with (participants s3). by rewrite Ep3, Ep2.
  - exact Hbody.
  - intros id Hne Hsid. rewrite Hs2, <- (labels_at_ext (tx w) (tx w1) id), <- Hothers2 by (done || unfold find_message; by rewrite Em).
    rewrite <- (labels_at_core _ _ id Hc1). unfold labels_at. rewrite Hf2.
    assert (find_message s1 id = find_message (tx w2) id) as -> by (unfold find_message; by rewrite Em1).
    destruct (find_message (tx w2) id) as [r'|] eqn:Er'; [|done]. simpl. f_equal. apply set_eq. intros n.
    rewrite !elem_of_list_to_set, (Hids (ms_id r') n).
    assert (ms_id r' ≠ rowid); [|naive_solver]. intros Eid.
    apply find_by_Some_2 in Er' as [Hr' Hid'].
    rewrite <- Hrid in Eid. rewrite (same_rowid _ _ _ _ (wg_good _ _ HP2) Hin Hr' Eid) in Hid'. congruence.
Qed.

(** An upsert under [Replace], the provider's labels as the truth. *)
Lemma upsert_labels_at m w :
  writer_inv w → storable (m_id m) = true → stored_labels w = Replace → ARCHIVE_LABEL ∉ m_label_ids m →
  ∃ w', upsert_message m w = Ok w' ∧ writer_inv w' ∧ stored_labels w' = Replace ∧
    labels_at (tx w') (m_id m) = Some (list_to_set (m_label_ids m)) ∧
    ∀ id, id ≠ m_id m → server_id id = true → labels_at (tx w') id = labels_at (tx w) id.
Proof.
  intros Hw Hid Hrep Ha. pose proof (upsert_stored m w) as Hup. cbv zeta in Hup.
  assert (incoming_labels w (find_message (tx w) (m_id m)) m = m_label_ids m) as E.
  { unfold incoming_labels. rewrite Hrep. by destruct (find_message _ _). }
  rewrite E in Hup. destruct Hup as (w' & r & t & Hok & []); [done..|].
  exists w'. split_and!; [done|done|congruence| |done].
  unfold labels_at. rewrite up_find0. simpl. f_equal. apply set_eq. intros n. by rewrite !elem_of_list_to_set, up_labels0.
Qed.

(** * A stored message reads back as it was delivered

    [upsert_message] ([write.rs]) takes a message apart into rows;
    [get_thread] and [get_body] ([read.rs]) put it together again.  The
    participants come back per role and in order, whatever order the rows
    are read in. *)

(** ** Participants by role *)

Definition has_role (role : string) (p : ParticipantRow) : bool := bool_decide (pt_role p = role).
Definition role_addresses (role : string) (ps : list ParticipantRow) : list EmailAddress :=
  pt_address <$> List.filter (has_role role) ps.
Definition indexed (message : Z) (role : string) (l : list EmailAddress) : list ParticipantRow :=
  imap (λ i a, mkParticipant message role (Z.of_nat i) a) l.

Lemma role_addresses_cons role p ps :
  role_addresses role (p :: ps) = role_addresses role [p] ++ role_addresses role ps.
Proof. unfold role_addresses. simpl. by destruct (has_role role p). Qed.

(** What reading the rows of a message makes of it. *)
Lemma add_participant_roles m p :
  add_participant_row m p =
  set_people m (if has_role "from" p then Some (pt_address p) else g_from m) (g_to m ++ role_addresses "to" [p])
    (g_cc m ++ role_addresses "cc" [p]) (g_bcc m ++ role_addresses "bcc" [p])
    (g_reply_to m ++ role_addresses "reply_to" [p]).
Proof.
  unfold add_participant_row, role_addresses. simpl.
  assert (∀ r, String.eqb (pt_role p) r = has_role r p) as Heq.
  { intros r. unfold has_role. destruct (String.eqb_spec (pt_role p) r);
      [by rewrite bool_decide_eq_true_2|by rewrite bool_decide_eq_false_2]. }
  rewrite !Heq.
  assert (∀ r r', has_role r p = true → r ≠ r' → has_role r' p = false) as Hone.
  { unfold has_role. intros r r' Er%bool_decide_eq_true Hne. apply bool_decide_eq_false. congruence. }
  destruct (has_role "from" p) eqn:E1; [|destruct (has_role "to" p) eqn:E2;
    [|destruct (has_role "cc" p) eqn:E3; [|destruct (has_role "bcc" p) eqn:E4; [|destruct (has_role "reply_to" p) eqn:E5]]]].
  - rewrite !(Hone "from" _ E1) by done. by rewrite !app_nil_r.
  - rewrite !(Hone "to" _ E2) by done. by rewrite !app_nil_r.
  - rewrite !(Hone "cc" _ E3) by done. by rewrite !app_nil_r.
  - rewrite !(Hone "bcc" _ E4) by done. by rewrite !app_nil_r.
  - by rewrite !app_nil_r.
  - rewrite !app_nil_r. by destruct m.
Qed.
Lemma fold_participants m ps :
  foldl add_participant_row m ps =
  set_people m (default (g_from m) (Some <$> list.last (role_addresses "from" ps)))
    (g_to m ++ role_addresses "to" ps) (g_cc m ++ role_addresses "cc" ps)
    (g_bcc m ++ role_addresses "bcc" ps) (g_reply_to m ++ role_addresses "reply_to" ps).
Proof.
  revert m. induction ps as [|p ps IH]; intros m.
  - unfold role_addresses. simpl. rewrite !app_nil_r. by destruct m.
  - cbn [foldl]. rewrite IH, add_participant_roles, !(role_addresses_cons _ p ps).
    unfold set_people. cbn [g_from g_to g_cc g_bcc g_reply_to g_id g_thread g_rfc822 g_in_reply_to g_references
      g_subject g_date g_internal_date g_snippet g_flags g_label_ids g_body_state g_size g_attachments].
    rewrite <- !app_assoc. f_equal.
    assert (role_addresses "from" [p] = if has_role "from" p then [pt_address p] else []) as ->.
    { unfold role_addresses. simpl. by destruct (has_role "from" p). }
    destruct (has_role "from" p); [|done]. cbn [app]. rewrite last_cons. by destruct (list.last _).
Qed.

(** Rows of one role in order are the addresses in order. *)
Lemma role_le_antisym message role l a b :
  a ∈ indexed message role l → b ∈ indexed message role l → role_le a b → role_le b a → a = b.
Proof.
  intros (i & x & -> & Hi)%elem_of_lookup_imap (j & y & -> & Hj)%elem_of_lookup_imap. unfold role_le. simpl.
  destruct (decide (role = role)); [|done]. intros H1 H2. assert (i = j) as -> by lia. congruence.
Qed.
Lemma indexed_sorted message role l : StronglySorted role_le (indexed message role l).
Proof.
  unfold indexed. change (λ (i : nat) (a : EmailAddress), mkParticipant message role (Z.of_nat i) a)
    with (λ i, (λ (k : nat) (a : EmailAddress), mkParticipant message role (Z.of_nat k) a) (0 + i)). generalize 0 as n.
  induction l as [|a l IH]; intros n; [constructor|]. rewrite imap_cons. constructor.
  - assert (imap ((λ i a, mkParticipant message role (Z.of_nat (n + i)) a) ∘ S) l =
            imap (λ i a, mkParticipant message role (Z.of_nat (S n + i)) a) l) as ->; [|apply IH].
    apply imap_ext. intros i x _. simpl. do 2 f_equal. lia.
  - apply Forall_forall. intros x (i & y & -> & _)%elem_of_lookup_imap. unfold role_le. simpl.
    destruct (decide (role = role)); [|done]. lia.
Qed.
#[export] Instance role_le_trans : Transitive role_le.
Proof.
  intros a b c. unfold role_le.
  destruct (decide (pt_role a = pt_role b)), (decide (pt_role b = pt_role c)), (decide (pt_role a = pt_role c));
    try congruence; try lia; intros H1 H2; try congruence.
  - exfalso. apply n. apply (anti_symm String.le); congruence.
  - by etrans.
Qed.
#[export] Instance role_le_total : Total role_le.
Proof.
  intros a b. unfold role_le. destruct (decide (pt_role a = pt_role b)), (decide (pt_role b = pt_role a)); try congruence.
  - lia.
  - apply (total String.le).
Qed.

Lemma sorted_role message role ps l :
  List.filter (has_role role) ps = indexed message role l →
  role_addresses role (merge_sort role_le ps) = l.
Proof.
  intros H. unfold role_addresses.
  assert (List.filter (has_role role) (merge_sort role_le ps) = indexed message role l) as ->.
  { apply (StronglySorted_unique_strong role_le).
    - intros a b Ha Hb. rewrite merge_sort_Permutation, H in Ha. by apply (role_le_antisym message role l).
    - apply StronglySorted_filter, StronglySorted_merge_sort; apply _.
    - apply indexed_sorted.
    - by rewrite merge_sort_Permutation, H. }
  unfold indexed. rewrite fmap_imap. clear H. induction l as [|a l IH] using rev_ind; [done|]. 
  rewrite imap_app. simpl. f_equal. exact IH.
Qed.

(** ** The rows an upsert writes *)

Lemma rows_of_role message m role l :
  (role, l) ∈ [("from", option_list (m_from m)); ("to", m_to m); ("cc", m_cc m);
               ("bcc", m_bcc m); ("reply_to", m_reply_to m)] →
  List.filter (has_role role) (participant_rows message m) = indexed message role l.
Proof.
  assert (∀ r r' k, List.filter (has_role r) (indexed message r' k) = if bool_decide (r' = r) then indexed message r' k else []) as Hf.
  { intros r r' k. case_bool_decide as E.
    - apply List_filter_all. intros p (i & a & -> & _)%elem_of_lookup_imap. by apply bool_decide_eq_true.
    - apply List_filter_none. intros p (i & a & -> & _)%elem_of_lookup_imap. by apply bool_decide_eq_false. }
  unfold participant_rows. cbn [mbind list_bind]. rewrite !List.filter_app.
  fold (indexed message "from" (option_list (m_from m))) (indexed message "to" (m_to m))
    (indexed message "cc" (m_cc m)) (indexed message "bcc" (m_bcc m)) (indexed message "reply_to" (m_reply_to m)).
  rewrite !Hf. intros Hin. rewrite !elem_of_cons, elem_of_nil in Hin.
  destruct Hin as [[= -> ->]|[[= -> ->]|[[= -> ->]|[[= -> ->]|[[= -> ->]|[]]]]]]; simpl; rewrite ?app_nil_r; done.
Qed.

(** A stored message, read. *)
Lemma read_upserted m ls w w' r t thread :
  upserted m ls w w' r t →
  let g := read_message (tx w') thread r in
  g_from g = m_from m ∧ g_to g = m_to m ∧ g_cc g = m_cc m ∧ g_bcc g = m_bcc m ∧ g_reply_to g = m_reply_to m ∧
  g_id g = m_id m ∧ g_thread g = thread ∧ g_rfc822 g = m_rfc822 m ∧ g_in_reply_to g = m_in_reply_to m ∧
  g_references g = m_references m ∧
  g_subject g = m_subject m ∧ g_date g = m_date m ∧ g_internal_date g = m_internal_date m ∧
  g_flags g = flags_of ls ∧ (∀ n, n ∈ g_label_ids g ↔ n ∈ ls) ∧
  (∀ b, m_body m = Some b →
     g_body_state g = Full ∧ g_snippet g = m_snippet m ∧
     g_attachments g = (at_attachment ∘ attachment_row (ms_id r)) <$> m_attachments m).
Proof.
  intros [_ _ _ [_ Hid (H1 & H2 & H3) Hsub (Hd1 & Hd2) _ Hfl Hfull] _ Hls Hpart Hbody _]. cbn zeta.
  unfold read_message, fill_participants. rewrite fold_participants.
  assert (∀ role l, (role, l) ∈ [("from", option_list (m_from m)); ("to", m_to m); ("cc", m_cc m);
               ("bcc", m_bcc m); ("reply_to", m_reply_to m)] →
    role_addresses role (merge_sort role_le
      (List.filter (λ p, bool_decide (pt_message p = ms_id r)) (participants (tx w')))) = l) as Hrole.
  { intros role l Hin. rewrite Hpart. apply (sorted_role (ms_id r)). by apply rows_of_role. }
  rewrite (Hrole "from" (option_list (m_from m))), (Hrole "to" (m_to m)), (Hrole "cc" (m_cc m)),
    (Hrole "bcc" (m_bcc m)), (Hrole "reply_to" (m_reply_to m)) by (rewrite !elem_of_cons; tauto).
  cbn. split_and!; try done.
  - by destruct (m_from m).
  - intros n. by rewrite merge_sort_Permutation, Hls.
  - intros b Hb. destruct (Hfull (ex_intro _ b Hb)) as [Hs1 Hs2]. split_and!; [done..|].
    destruct (Hbody b Hb) as [_ ->]. by rewrite <- list_fmap_compose.
Qed.

(** ** Properties *)

(** C37. During any session, storing a message and reading it back gives the
    message: sender, recipients per field and in order, headers, subject and
    dates as delivered, the labels of the writer's policy and the flags that
    follow from them; when it came in full, its snippet, its attachments (a
    missing type defaulted) and its body, under the names readers know.  It
    stands in the thread the provider named. *)
Theorem upsert_read_back to_lowercase s ops w m :
  reachable to_lowercase s → Forall valid_op ops → run_session (writer_new s) ops = Ok w →
  storable (m_id m) = true →
  ARCHIVE_LABEL ∉ incoming_labels w (find_message (tx w) (m_id m)) m →
  ∃ w' r t, upsert_message m w = Ok w' ∧ find_message (tx w') (m_id m) = Some r ∧
    thread_by_rowid (tx w') (ms_thread r) = Some t ∧ th_gmail_id t = m_thread_id m ∧
    let ls := incoming_labels w (find_message (tx w) (m_id m)) m in
    let g := read_message (tx w') (th_gmail_id t) r in
    (g_from g = m_from m ∧ g_to g = m_to m ∧ g_cc g = m_cc m ∧ g_bcc g = m_bcc m ∧ g_reply_to g = m_reply_to m) ∧
    (g_id g = m_id m ∧ g_thread g = m_thread_id m ∧ g_rfc822 g = m_rfc822 m ∧ g_in_reply_to g = m_in_reply_to m ∧
     g_references g = m_references m) ∧
    (g_subject g = m_subject m ∧ g_date g = m_date m ∧ g_internal_date g = m_internal_date m) ∧
    g_flags g = flags_of ls ∧ (∀ n, n ∈ g_label_ids g ↔ n ∈ ls) ∧
    ∀ b, m_body m = Some b →
      g_body_state g = Full ∧ g_snippet g = m_snippet m ∧
      g_attachments g = (at_attachment ∘ attachment_row (ms_id r)) <$> m_attachments m ∧
      get_body (tx w') (m_id m) =
        Some (mkBody (text_plain b) (current_names <$> html_sanitized b) (has_remote_images b)).
Proof.
  intros Hr Hv Hrun Hid Ha.
  assert (writer_inv w) as Hw by (eapply run_session_inv, Hrun; [done|apply writer_new_inv; by eapply reachable_consistent]).
  destruct (upsert_stored m w Hw Hid Ha) as (w' & r & t & Hok & Hup). exists w', r, t.
  pose proof Hup as [Hinv' _ Hfind Hrow [Ht Hg] _ _ Hbody _].
  split_and!; [done|done| |done|].
  - unfold thread_by_rowid. apply find_by_Some; [apply Hinv'|]. split; [done|]. symmetry. apply Hrow.
  - destruct (read_upserted m _ w w' r t (th_gmail_id t) Hup) as
      (E1 & E2 & E3 & E4 & E5 & E6 & E0 & E7 & E8 & E9 & E10 & E11 & E12 & E13 & E14 & E15).
    cbn zeta. split_and!; try done; [by rewrite E0|]. intros b Hb. destruct (E15 b Hb) as (F1 & F2 & F3). split_and!; [done..|].
    unfold get_body. rewrite Hfind. cbn. destruct (Hbody b Hb) as [-> _]. done.
Qed.

Definition full_message : IncomingMessage :=
  mkIncoming "m9" "t1" (Some "r9@example.com") None ["r1@example.com"] (Some (mkAddress (Some "Ann") "ann@example.com"))
    [mkAddress None "bob@example.com"; mkAddress None "cy@example.com"] [mkAddress None "dee@example.com"] [] []
    "Plans" 9 9 "See" ["INBOX"; "UNREAD"] 20 (Some (mkBody (Some "See you") None false))
    [mkAttachment None None "a.pdf" "" 3 None false None] (mkListHeaders None None None None) None.

Lemma upsert_read_back_witness :
  ∃ w' r t, upsert_message full_message demo_writer = Ok w' ∧ find_message (tx w') "m9" = Some r ∧
    thread_by_rowid (tx w') (ms_thread r) = Some t ∧
    g_to (read_message (tx w') (th_gmail_id t) r) = [mkAddress None "bob@example.com"; mkAddress None "cy@example.com"] ∧
    get_body (tx w') "m9" = Some (mkBody (Some "See you") None false).
Proof.
  destruct (upsert_read_back ascii_lower empty_store demo_session demo_writer full_message)
    as (w' & r & t & H1 & H2 & H3 & _ & (_ & H4 & _) & _ & _ & _ & _ & H5).
  - apply reachable_empty.
  - exact demo_valid.
  - exact demo_runs.
  - reflexivity.
  - intros H. apply (bool_decide_pack _) in H. vm_compute in H. exact H.
  - exists w', r, t. split_and!; [exact H1|exact H2|exact H3|exact H4|].
    apply (H5 (mkBody (Some "See you") None false)). reflexivity.
Defined.
