(* ===== verification/ComposeProperties.v ===== *)
(** * ComposeProperties: replies, and a send until it is taken back

    Who a reply goes to and what it refers to; what sending a draft leaves
    in the database; and Undo Send as its inverse while the send is held. *)

From Stdlib Require Import Ascii.
From S2P Require Import Prelude.
From S2P Require Import Domain.
From S2P Require Import Text.
From S2P Require Import MailStore.
From S2P Require Import StoreInvariant.
From S2P Require Import Finish.
From S2P Require Import WriterProperties.
From S2P Require Import Read.
From S2P Require Import ReadProperties.
From S2P Require Import LocalDb.
From S2P Require Import Outbox.
From S2P Require Import UndoProperties.
From S2P Require Import UpsertProperties.
From S2P Require Import Compose.

(** ** Recipients of a reply *)

Section recipients.
Context (to_lowercase : string → string).
Abbreviation norm := (normalized to_lowercase).

Lemma keep_new_spec me seen l kept seen' :
  keep_new to_lowercase me seen l = (kept, seen') →
  kept `sublist_of` l ∧ NoDup (norm <$> kept) ∧ seen' = list_to_set (norm <$> kept) ∪ seen ∧
  (∀ a, a ∈ kept → mine me a = false ∧ norm a ∉ seen) ∧
  (∀ a, a ∈ l → mine me a = true ∨ norm a ∈ seen').
Proof.
  revert seen kept seen'. induction l as [|a l IH]; intros seen kept seen'; cbn [keep_new].
  { intros [= <- <-]. split_and!; [done|apply NoDup_nil_2|set_solver|by intros a ?%not_elem_of_nil..]. }
  destruct (mine me a) eqn:Em; simpl.
  { intros H. destruct (IH _ _ _ H) as (H1 & H2 & H3 & H4 & H5). split_and!; [by constructor|done..|].
    intros x [->|Hx]%elem_of_cons; [by left|by apply H5]. }
  case_bool_decide as Hs.
  { intros H. destruct (IH _ _ _ H) as (H1 & H2 & H3 & H4 & H5). split_and!; [by constructor|done..|].
    intros x [->|Hx]%elem_of_cons; [right; set_solver|by apply H5]. }
  destruct (keep_new to_lowercase me ({[norm a]} ∪ seen) l) as [k s'] eqn:E. intros [= <- <-].
  destruct (IH _ _ _ E) as (H1 & H2 & H3 & H4 & H5). split_and!.
  - by constructor.
  - rewrite fmap_cons. apply NoDup_cons. split; [|done].
    intros (x & Ex & Hx)%list_elem_of_fmap. destruct (H4 x Hx) as [_ Hn]. rewrite <- Ex in Hn. set_solver.
  - rewrite H3, fmap_cons. set_solver.
  - intros x [->|Hx]%elem_of_cons; [done|]. destruct (H4 x Hx). split; [done|]. set_solver.
  - intros x [->|Hx]%elem_of_cons; [right; set_solver|by apply H5].
Qed.

(** Where a reply goes before the user's own addresses are taken out. *)
Definition answered (from : option EmailAddress) (reply_to to : list EmailAddress) (me : list string) : list EmailAddress :=
  let primary := match reply_to with [] => option_list from | _ => reply_to end in
  match primary with [] => [] | _ => if forallb (mine me) primary then to else primary end.

(** Recipients of a reply.  Nobody is addressed twice, in To and Cc
    together, and none of the user's own addresses is addressed; To is the
    Reply-To addresses, or else the sender, or the original To when the user
    answers their own mail; a plain reply has no Cc; a reply to all leaves
    out no recipient of the original but the user. *)
Theorem reply_recipients_spec from reply_to to cc me all :
  let '(rto, rcc) := reply_recipients to_lowercase from reply_to to cc me all in
  NoDup (norm <$> (rto ++ rcc)) ∧
  (∀ a, a ∈ rto ++ rcc → mine me a = false) ∧
  rto `sublist_of` answered from reply_to to me ∧
  (∀ a, a ∈ answered from reply_to to me → mine me a = false → norm a ∈ norm <$> rto) ∧
  rcc `sublist_of` to ++ cc ∧
  (all = false → rcc = []) ∧
  (all = true → ∀ a, a ∈ to ++ cc → mine me a = false → norm a ∈ norm <$> (rto ++ rcc)).
Proof.
  unfold reply_recipients. fold (answered from reply_to to me).
  destruct (keep_new to_lowercase me ∅ (answered from reply_to to me)) as [rto seen] eqn:E1.
  destruct (keep_new_spec _ _ _ _ _ E1) as (H1 & H2 & H3 & H4 & H5).
  destruct (keep_new to_lowercase me seen (to ++ cc)) as [rcc seen'] eqn:E2.
  destruct (keep_new_spec _ _ _ _ _ E2) as (G1 & G2 & G3 & G4 & G5).
  assert (∀ a, a ∈ answered from reply_to to me → mine me a = false → norm a ∈ norm <$> rto) as Hto.
  { intros a Ha Hm. destruct (H5 a Ha) as [|Hs]; [congruence|]. rewrite H3 in Hs. set_solver. }
  destruct all; simpl.
  - rewrite fmap_app. split_and!; try done.
    + apply NoDup_app. split_and!; [done| |done]. intros x Hx (a & -> & Ha)%list_elem_of_fmap.
      destruct (G4 a Ha) as [_ Hn]. rewrite H3 in Hn. set_solver.
    + intros a [Ha|Ha]%elem_of_app; [by apply H4|by apply G4].
    + intros _ a Ha Hm. destruct (G5 a Ha) as [|Hs]; [congruence|]. rewrite G3, H3 in Hs. set_solver.
  - rewrite app_nil_r. split_and!; try done; [intros a Ha; by apply H4|apply sublist_nil_l].
Qed.
End recipients.

(** References of a reply: at most twenty; the parent's chain with the
    parent behind it, and of a longer one the first and the last nineteen,
    so the parent is always among them. *)
Theorem reply_references_spec refs id :
  let chain := if bool_decide (id ∈ refs) then refs else refs ++ [id] in
  let out := reply_references refs (Some id) in
  length out ≤ 20 ∧ head out = head chain ∧
  (length chain ≤ 20 → out = chain) ∧ (20 < length chain → drop 1 out = drop (length chain - 19) chain) ∧
  (id ∉ refs → list.last out = Some id).
Proof.
  cbv zeta. unfold reply_references.
  set (chain := if bool_decide (id ∈ refs) then refs else refs ++ [id]).
  assert (id ∉ refs → list.last chain = Some id) as Hlast.
  { intros H. subst chain. rewrite bool_decide_eq_false_2 by done. apply last_snoc. }
  destruct (Nat.ltb_spec 20 (length chain)) as [H|H].
  - destruct chain as [|c cs] eqn:E; [simpl in H; lia|]. simpl length in *.
    rewrite length_drop. split_and!; [simpl length; lia|done|lia|by intros _; simpl drop at 1|].
    intros Hid. specialize (Hlast Hid). rewrite last_cons.
    assert (list.last (drop (S (length cs) - 19) (c :: cs)) = list.last (c :: cs)) as ->.
    { rewrite <- (take_drop (S (length cs) - 19) (c :: cs)) at 2. rewrite last_app.
      destruct (list.last (drop _ _)) eqn:El; [done|]. apply last_None in El.
      apply (f_equal length) in El. rewrite length_drop in El. simpl in El. lia. }
    by rewrite Hlast.
  - split_and!; [lia|done|done|lia|done].
Qed.

(** ** Rows of drafts and of the outbox *)

Lemma get_update_drafts id id' (f : DraftRow → DraftRow) d :
  (∀ r, dr_id (f r) = dr_id r) →
  get_row id' (update_drafts (λ r, bool_decide (dr_id r = id)) f d) =
  if bool_decide (id' = id) then f <$> get_row id' d else get_row id' d.
Proof.
  intros Hf. unfold get_row, update_drafts, find_by. simpl. induction (drafts d) as [|r l IH]; simpl.
  { by case_bool_decide. }
  destruct (decide (dr_id r = id)) as [E|E].
  - rewrite (bool_decide_eq_true_2 (dr_id r = id)), Hf by done. destruct (decide (dr_id r = id')) as [E'|E'].
    + rewrite !(bool_decide_eq_true_2 (dr_id r = id')) by done. by rewrite bool_decide_eq_true_2 by congruence.
    + rewrite !(bool_decide_eq_false_2 (dr_id r = id')) by done. exact IH.
  - rewrite (bool_decide_eq_false_2 (dr_id r = id)) by done. destruct (decide (dr_id r = id')) as [E'|E'].
    + rewrite !(bool_decide_eq_true_2 (dr_id r = id')) by done. by rewrite bool_decide_eq_false_2 by congruence.
    + rewrite !(bool_decide_eq_false_2 (dr_id r = id')) by done. exact IH.
Qed.

Definition with_state (st : DraftState) (error : option string) (x : DraftRecord) : DraftRecord :=
  mkDraft (d_id x) (d_gmail_draft_id x) (d_thread_id x) (d_in_reply_to x) (d_to x) (d_cc x) (d_bcc x)
    (d_subject x) (d_body_html x) (d_quoted_html x) (d_attachments x) (d_updated_at x) st error.
Lemma get_set_state id id' st error d :
  get id' (set_state id st error d) = if bool_decide (id' = id) then with_state st error <$> get id' d else get id' d.
Proof.
  unfold get, set_state. rewrite get_update_drafts by done. case_bool_decide; [|done]. by destruct (get_row id' d).
Qed.
Lemma get_set_rfc822 id id' rfc d : get id' (set_rfc822_id id rfc d) = get id' d.
Proof.
  unfold set_rfc822_id, draft_sent, update_compositions, get.
  change (dr_draft <$> get_row id' (update_drafts (λ r, bool_decide (dr_id r = id))
    (λ r, mkDraftRow (dr_draft r) (dr_dirty r) (Some rfc)) d) = dr_draft <$> get_row id' d).
  rewrite get_update_drafts by done. case_bool_decide; [|done]. by destruct (get_row id' d).
Qed.

Lemma draft_unsent_get id draft d : get id (draft_unsent draft d) = get id d.
Proof. done. Qed.

Lemma find_held_snoc draft now d row :
  (∀ r, r ∈ outbox d → send_of draft r = false) →
  find_held draft now (with_outbox (outbox d ++ [row]) d) =
  if held_send now row && send_of draft row then Some row else None.
Proof.
  intros Hd. unfold find_held. simpl. induction (outbox d) as [|r l IH]; simpl; [done|].
  rewrite (Hd r), andb_false_r by (by left). apply IH. intros x Hx. apply Hd. by right.
Qed.
Lemma delete_enqueued d id row :
  id = next_rowid (ob_id <$> outbox d) → ob_id row = id →
  List.filter (λ r, negb (by_id id r)) (outbox d ++ [row]) = outbox d.
Proof.
  intros Hid Hrow. rewrite List.filter_app. unfold by_id. simpl.
  rewrite (bool_decide_eq_true_2 (ob_id row = id)) by done. simpl. rewrite app_nil_r.
  apply List_filter_all. intros r Hr. apply negb_true_iff, bool_decide_eq_false. intros E.
  apply (next_rowid_not_in (ob_id <$> outbox d)). rewrite <- Hid, <- E. by apply list_elem_of_fmap_2.
Qed.

(** ** Sending, and taking it back *)

Section send.
Context (to_lowercase : string → string).
Context (read_file : string → result string string).
Context (write_mime : OutgoingMessage → result string string).
Context (html_to_quoted_text sanitize_html encode64 : string → string).
Abbreviation send_draft := (send_draft to_lowercase read_file write_mime html_to_quoted_text sanitize_html encode64 id id).
Abbreviation freeze := (freeze read_file write_mime).

(** What [freeze] froze. *)
Definition frozen_of (x : DraftRecord) (f : FrozenSend) : Prop :=
  let m := fs_outgoing f in
  build write_mime m = Ok (fs_raw f) ∧ om_to m = d_to x ∧ om_cc m = d_cc x ∧ om_bcc m = d_bcc x ∧
  om_subject m = d_subject x ∧ om_html m = d_body_html x +:+ d_quoted_html x ∧ om_message_id m = fs_rfc822 f.

Lemma freeze_spec draft_id from token now d1 d2 f :
  freeze draft_id from token now d1 d2 = Ok f →
  fs_now f = now ∧ ∃ x, get draft_id d1 = Some x ∧ d_state x ≠ Sending ∧ frozen_of x f ∧ fs_draft f = merged x.
Proof.
  unfold Compose.freeze. intros (x & Hx & H)%bind_Ok. case_bool_decide as Hs; [discriminate H|].
  apply bind_Ok in H as ([draft m] & Hm & H). apply bind_Ok in H as (raw & Hraw & [= <-]).
  split; [done|]. exists x. destruct (get draft_id d1) as [x'|]; [|discriminate Hx]. injection Hx as ->.
  unfold outgoing_message in Hm. apply bind_Ok in Hm as (atts & Ha & [= <- <-]).
  split; [done|]. split; [done|]. split; [|done]. unfold frozen_of. simpl. split_and!; try done.
  unfold map_err in Hraw. by destruct (build _ _); simplify_eq/=.
Qed.

Lemma copy_storable queue token : storable (local_id queue token) = true.
Proof.
  unfold storable, local_id, server_id. destruct queue.
  - apply orb_true_iff. right. done.
  - apply orb_true_iff. left. done.
Qed.

(** The copy in Sent, stored and finished. *)
Lemma store_copy f from queue token s :
  consistent s → find_message s (local_id queue token) = None →
  ∃ w s' c, upsert_message (sent_copy html_to_quoted_text sanitize_html f from queue token) (writer_new s) = Ok w ∧
    finish to_lowercase w = Ok (s', c) ∧ consistent s' ∧
    labels_at s' (local_id queue token) = Some {[SENT]} ∧
    ∀ m, m ≠ local_id queue token → server_id m = true → labels_at s' m = labels_at s m.
Proof.
  intros Hs Hfresh. set (m := sent_copy html_to_quoted_text sanitize_html f from queue token).
  destruct (upsert_labels_at m (writer_new s) (writer_new_inv _ Hs) (copy_storable queue token)) as (w & E & Hw & _ & Hl & Ho).
  - done.
  - intros [E|E%not_elem_of_nil]%elem_of_cons; [discriminate E|done].
  - destruct (finish_labels_at to_lowercase w Hw) as (s' & c & Ef & Hs' & Hl'). exists w, s', c.
    split_and!; [done|done|done| |].
    + rewrite Hl'. change (local_id queue token) with (m_id m). by rewrite Hl.
    + intros id Hne Hid. by rewrite Hl', Ho.
Qed.

Lemma remove_copy token s :
  consistent s →
  ∃ s' c, finish to_lowercase (delete_message token (writer_new s)).1 = Ok (s', c) ∧ consistent s' ∧
    ∀ m, labels_at s' m = if bool_decide (m = token) then None else labels_at s m.
Proof.
  intros Hs. destruct (writer_new_inv s Hs) as [HP Hf].
  destruct (delete_message_inv _ token _ HP) as (H1 & H2 & _).
  assert (writer_inv (delete_message token (writer_new s)).1) as Hw by (split; [done|by apply H2]).
  destruct (finish_labels_at to_lowercase _ Hw) as (s' & c & E & Hs' & Hl). exists s', c. split_and!; [done..|].
  intros m. rewrite Hl. by destruct (delete_labels_at _ _ token m HP) as [_ ->].
Qed.

(** C38. Sending a draft, and Undo Send.  On a store that sessions left, a
    draft that can be built and is not being sent is queued once: the op
    carries the MIME bytes built from the draft's recipients, subject and
    body with its quote, held until the delay is over; the draft is frozen,
    a copy labelled SENT appears and nothing else changes.  Until the delay
    is over Undo Send takes all of it back: the queue as it was, the draft
    editable, the copy gone; from then on it does nothing. *)
Theorem send_held_then_undone d draft_id from hold rfc_token token now f :
  reachable to_lowercase (mail d) → freeze draft_id from rfc_token now d d = Ok f →
  (∀ r, r ∈ outbox d → send_of draft_id r = false) →
  find_message (mail d) (local_id true token) = None → (0 < hold)%Z →
  ∃ x d1 c, get draft_id d = Some x ∧ frozen_of x f ∧
    send_draft draft_id from true hold rfc_token token now d = (d1, Ok c) ∧
    (∃ id, outbox d1 = outbox d ++
       [mkOutbox id (Send draft_id (encode64 (fs_raw f)) (d_thread_id x) (local_id true token)) now 0
          (Some (now + hold)%Z) Pending None None None]) ∧
    (∀ id, get id d1 = if bool_decide (id = draft_id) then Some (with_state Sending None x) else get id d) ∧
    labels_at (mail d1) (local_id true token) = Some {[SENT]} ∧
    (∀ m, server_id m = true → labels_at (mail d1) m = labels_at (mail d) m) ∧ check (mail d1) = [] ∧
    (∀ now', (now' < now + hold)%Z → ∃ d2 c2, cancel_send to_lowercase draft_id now' d1 = Ok (d2, Some c2) ∧
      outbox d2 = outbox d ∧
      (∀ id, get id d2 = if bool_decide (id = draft_id) then Some (with_state Editing None x) else get id d) ∧
      labels_at (mail d2) (local_id true token) = None ∧
      (∀ m, server_id m = true → labels_at (mail d2) m = labels_at (mail d) m) ∧ check (mail d2) = []) ∧
    (∀ now', (now + hold <= now')%Z → cancel_send to_lowercase draft_id now' d1 = Ok (d1, None)).
Proof.
  intros Hr Hf Hnone Hfresh Hhold. pose proof (reachable_consistent _ _ Hr) as Hs.
  destruct (freeze_spec _ _ _ _ _ _ _ Hf) as (Hnow & x & Hx & Hst & Hfr & Hdr).
  destruct (store_copy f from true token (mail d) Hs Hfresh) as (w & s1 & c & Hup & Hfin & Hs1 & Hl1 & Ho1).
  set (row := mkOutbox (next_rowid (ob_id <$> outbox d))
     (Send draft_id (encode64 (fs_raw f)) (d_thread_id x) (local_id true token)) now 0
          (Some (now + hold)%Z) Pending None None None).
  set (d0 := set_rfc822_id draft_id (fs_rfc822 f) (set_state draft_id Sending None (with_mail s1 d))).
  set (d1 := with_outbox (outbox d ++ [row]) d0).
  assert (∀ id, get id d1 = if bool_decide (id = draft_id) then Some (with_state Sending None x) else get id d) as Hget.
  { intros id. change (get id d1) with (get id d0). unfold d0. rewrite get_set_rfc822, get_set_state.
    change (get id (with_mail s1 d)) with (get id d). case_bool_decide as E; [|done]. by rewrite E, Hx. }
  assert (∀ m, server_id m = true → m ≠ local_id true token) as Hserver.
  { intros m Hm ->. unfold server_id, local_id in Hm. discriminate Hm. }
  assert (∀ now', find_held draft_id now' d1 = if (now' <? now + hold)%Z then Some row else None) as Hheld.
  { intros now'. change d1 with (with_outbox (outbox d0 ++ [row]) d0). rewrite find_held_snoc by exact Hnone.
    unfold held_send, held, later_than, state_is, send_of. simpl. rewrite !bool_decide_eq_true_2 by done.
    by rewrite andb_true_r. }
  exists x, d1, c. split_and!; try done.
  - unfold Compose.send_draft. cbn [id]. rewrite Hf. unfold commit_send. rewrite Hup. cbn [mbind result_bind].
    rewrite Hfin. cbn [mbind result_bind]. unfold enqueue_held, send_op. rewrite Hnow, Hdr.
    destruct (Z.ltb_spec 0 hold); [done|lia].
  - by exists (next_rowid (ob_id <$> outbox d)).
  - intros m Hm. apply Ho1; [by apply Hserver|done].
  - by apply check_nil; apply Hs1.
  - intros now' Hnow'. destruct (remove_copy (local_id true token) s1 Hs1) as (s2 & c2 & Hfin2 & Hs2 & Hl2).
    unfold cancel_send. rewrite Hheld. destruct (Z.ltb_spec now' (now + hold)%Z); [|lia].
    change (ob_op row) with (Send draft_id (encode64 (fs_raw f)) (d_thread_id x) (local_id true token)). cbn iota.
    change (mail (delete_outbox (by_id (ob_id row)) d1)) with s1. rewrite Hfin2. cbn [mbind result_bind].
    eexists _, c2. split; [reflexivity|]. split_and!.
    + simpl. by apply delete_enqueued.
    + intros id. rewrite draft_unsent_get, get_set_state. change (get id (with_mail s2 _)) with (get id d1).
      rewrite Hget. by case_bool_decide.
    + change (labels_at s2 (local_id true token) = None). by rewrite Hl2, bool_decide_eq_true_2.
    + intros m Hm. change (labels_at s2 m = labels_at (mail d) m).
      rewrite Hl2, bool_decide_eq_false_2 by by apply Hserver. apply Ho1; [by apply Hserver|done].
    + change (check s2 = []). by apply check_nil; apply Hs2.
  - intros now' Hnow'. unfold cancel_send. rewrite Hheld. by destruct (Z.ltb_spec now' (now + hold)%Z); [lia|].
Qed.
End send.

(** ** Concrete sends *)

Definition demo_draft : DraftRecord :=
  mkDraft 1 None (Some "t1") None [mkAddress None "bob@example.com"] [] [] "Plans" "<p>See you</p>" "" [] 5 Editing None.
Definition desk : Db := with_drafts [mkDraftRow demo_draft true None] (with_mail shelf empty_db).
Definition demo_mime (m : OutgoingMessage) : result string string := Ok ("Subject: " +:+ om_subject m).
Definition no_file (path : string) : result string string := Err "no such file".
Definition demo_me : EmailAddress := mkAddress (Some "Me") "me@example.com".
Definition demo_frozen : FrozenSend :=
  default (mkFrozen default_draft (mkOutgoing demo_me [] [] [] "" "" "" None [] [] 0) "" "" 0)
    (ok (freeze no_file demo_mime 1 demo_me "aa" 100 desk desk)).
Definition demo_send (others : Db → Db) (rfc_token token : string) (d : Db) : Db * StoreResult ThreadChanges :=
  send_draft ascii_lower no_file demo_mime id id id id others 1 demo_me true 5000 rfc_token token 100 d.

Lemma send_held_then_undone_witness :
  fs_raw demo_frozen = "Subject: Plans" ∧
  ∃ x d1 c, get 1 desk = Some x ∧ demo_send id "aa" "bb" desk = (d1, Ok c) ∧
    labels_at (mail d1) "local-bb" = Some {[SENT]} ∧
    ∃ d2 c2, cancel_send ascii_lower 1 2000 d1 = Ok (d2, Some c2) ∧ outbox d2 = [] ∧
      labels_at (mail d2) "local-bb" = None.
Proof.
  split; [vm_compute; reflexivity|].
  destruct (send_held_then_undone ascii_lower no_file demo_mime id id id desk 1 demo_me 5000 "aa" "bb" 100 demo_frozen)
    as (x & d1 & c & H1 & _ & H2 & _ & _ & H3 & _ & _ & H4 & _).
  - exact shelf_reachable.
  - apply is_ok_default. vm_compute. reflexivity.
  - by intros r ?%not_elem_of_nil.
  - vm_compute. reflexivity.
  - lia.
  - exists x, d1, c. split; [exact H1|]. split; [exact H2|]. split; [exact H3|].
    destruct (H4 2000%Z) as (d2 & c2 & E1 & E2 & _ & E3 & _); [lia|]. exists d2, c2.
    split; [exact E1|]. split; [exact E2|exact E3].
Defined.

(** The state is read in one transaction and written in another: a second
    send of the same draft that runs between them queues it twice. *)
Example send_race :
  (λ r, (ob_id r, send_of 1 r)) <$> outbox (demo_send (λ d, (demo_send id "cc" "dd" d).1) "aa" "bb" desk).1 =
  [(1%Z, true); (2%Z, true)].
Proof. vm_compute. reflexivity. Qed.

(** Slicing inside a character: the subject of a forward in Japanese. *)
Example forward_panics : forward_subject (bytes [230; 151; 165; 230; 156; 172; 232; 170; 158]%N) = None.
Proof. vm_compute. reflexivity. Qed.
