(* ===== verification/SyncProperties.v ===== *)
(** * SyncProperties: the store mirrors the provider

    Against a provider whose history is truthful, an incremental round makes
    the store agree with the server: no stored message has labels it has not
    on the server, no message deleted there stays, every new one is here, and
    what changed but is not stored is fetched next. *)

From S2P Require Import Prelude.
From S2P Require Import Domain.
From S2P Require Import MailStore.
From S2P Require Import StoreInvariant.
From S2P Require Import Finish.
From S2P Require Import WriterProperties.
From S2P Require Import LocalDb.
From S2P Require Import Outbox.
From S2P Require Import UndoProperties.
From S2P Require Import UpsertProperties.
From S2P Require Import Provider.
From S2P Require Import Drain.
From S2P Require Import Queue.
From S2P Require Import QueueProperties.
From S2P Require Import Sync.

(** ** A truthful history *)

Abbreviation Server := (MessageId → option (gset LabelId)).

Definition server_change (id : MessageId) (o : option (gset LabelId)) (c : Change) : option (gset LabelId) :=
  match c with
  | MessageAdded i _ ls => if bool_decide (i = id) then Some (list_to_set ls) else o
  | MessageDeleted i => if bool_decide (i = id) then None else o
  | LabelsAdded i ls => if bool_decide (i = id) then relabel (ls, []) <$> o else o
  | LabelsRemoved i ls => if bool_decide (i = id) then relabel ([], ls) <$> o else o
  end.
Definition replay (cs : list Change) (srv : Server) : Server := λ id, foldl (server_change id) (srv id) cs.

Definition label_changed_ids (cs : list Change) : list MessageId :=
  omap (λ c, match c with LabelsAdded id _ | LabelsRemoved id _ => Some id | _ => None end) cs.
Definition valid_change (c : Change) : Prop :=
  match c with LabelsAdded _ ls => ARCHIVE_LABEL ∉ ls | _ => True end.

(** What a stored message's labels say of the server. *)
Definition mirrors (s : Store) (srv : Server) : Prop :=
  ∀ id ls, server_id id = true → labels_at s id = Some ls → srv id = Some ls.

(** The server at the cursor and now, what it reports between, and the
    messages fetched now; the provider knows no virtual label and no local
    copy. *)
Record truthful (srv now : Server) (cs : list Change) (incoming : list IncomingMessage) : Prop := {
  tr_history : ∀ id, now id = replay cs srv id;
  tr_fetched : ∀ m, m ∈ incoming → now (m_id m) = Some (list_to_set (m_label_ids m)) ∧
    server_id (m_id m) = true ∧ ARCHIVE_LABEL ∉ m_label_ids m;
  tr_complete : ∀ id, id ∈ to_fetch cs → is_Some (now id) → id ∈ m_id <$> incoming;
  tr_valid : Forall valid_change cs }.

(** ** One change, and all of them *)

Definition skipped (fetched : list MessageId) (c : Change) : bool :=
  match c with
  | MessageAdded _ _ _ => true
  | MessageDeleted _ => false
  | LabelsAdded i _ | LabelsRemoved i _ => bool_decide (i ∈ fetched)
  end.
Definition change_unknown (fetched : list MessageId) (c : Change) (s : Store) : list MessageId :=
  match c with
  | LabelsAdded i _ | LabelsRemoved i _ =>
      if bool_decide (i ∈ fetched) then [] else if bool_decide (labels_at s i = None) then [i] else []
  | _ => []
  end.

Lemma labels_at_None s id : labels_at s id = None ↔ find_message s id = None.
Proof. unfold labels_at. by destruct (find_message s id). Qed.

Lemma relabel_change_labels id ls (added : bool) fetched w h :
  writer_inv w → (added = true → ARCHIVE_LABEL ∉ ls) →
  ∃ w' h', relabel_change id ls added fetched w h = Ok (w', h') ∧ writer_inv w' ∧
    (∀ m, labels_at (tx w') m =
       if bool_decide (m = id) && negb (bool_decide (id ∈ fetched))
       then relabel (if added then (ls, []) else ([], ls)) <$> labels_at (tx w) m else labels_at (tx w) m) ∧
    h_unknown h' = h_unknown h ++ (if bool_decide (id ∈ fetched) then []
                                   else if bool_decide (labels_at (tx w) id = None) then [id] else []).
Proof.
  intros Hw Ha. unfold relabel_change. case_bool_decide as Hf.
  { exists w, h. rewrite app_nil_r. split_and!; [done..| |done]. intros m. by rewrite andb_false_r. }
  assert (∃ w' b, (if added then modify_message_labels id ls [] w else modify_message_labels id [] ls w) = Ok (w', b) ∧
            writer_inv w' ∧ b = bool_decide (is_Some (find_message (tx w) id)) ∧
            ∀ m, labels_at (tx w') m = if bool_decide (m = id)
              then relabel (if added then (ls, []) else ([], ls)) <$> labels_at (tx w) m else labels_at (tx w) m)
    as (w' & b & E & Hw' & Hb & Hl).
  { destruct added.
    - destruct (modify_Ok w id ls [] Hw (Ha eq_refl)) as (w' & b & E). exists w', b. split; [done|].
      by apply modify_labels_at.
    - destruct (modify_Ok w id [] ls Hw) as (w' & b & E); [apply not_elem_of_nil|]. exists w', b. split; [done|].
      by apply modify_labels_at. }
  rewrite E. cbn [mbind result_bind].
  assert (b = negb (bool_decide (labels_at (tx w) id = None))) as ->.
  { rewrite Hb. apply eq_true_iff_eq. rewrite negb_true_iff, bool_decide_eq_true, bool_decide_eq_false, labels_at_None.
    by rewrite not_eq_None_Some. }
  eexists _, _. split; [reflexivity|]. split; [done|]. split.
  - intros m. by rewrite Hl, andb_true_r.
  - case_bool_decide; simpl; [done|by rewrite app_nil_r].
Qed.

Lemma apply_change_labels fetched c w q h :
  writer_inv w → valid_change c →
  ∃ w' q' h', apply_change fetched c (w, q, h) = Ok (w', q', h') ∧ writer_inv w' ∧
    (∀ id, labels_at (tx w') id =
       if skipped fetched c then labels_at (tx w) id else server_change id (labels_at (tx w) id) c) ∧
    h_unknown h' = h_unknown h ++ change_unknown fetched c (tx w).
Proof.
  intros Hw Hc. destruct c as [id t ls|id|id ls|id ls]; simpl.
  - exists w, q, h. by rewrite app_nil_r.
  - destruct (delete_message id w) as [w' b] eqn:E. eexists w', _, _. split; [reflexivity|].
    pose proof (writer_step_inv w (DeleteMessage id) w' I Hw) as Hinv. simpl in Hinv. rewrite E in Hinv.
    split; [by apply Hinv|]. split; [|by rewrite app_nil_r]. intros m.
    destruct Hw as [HP _]. destruct (delete_labels_at _ w id m HP) as [_ Hd]. rewrite E in Hd. simpl in Hd.
    rewrite Hd. by rewrite (bool_decide_ext (m = id) (id = m)) by (split; congruence).
  - destruct (relabel_change_labels id ls true fetched w h Hw) as (w' & h' & E & Hw' & Hl & Hu); [done|].
    rewrite E. simpl. exists w', q, h'. split_and!; [done..| |exact Hu]. intros m. rewrite Hl.
    rewrite (bool_decide_ext (m = id) (id = m)) by (split; congruence).
    destruct (bool_decide (id ∈ fetched)), (bool_decide (id = m)); done.
  - destruct (relabel_change_labels id ls false fetched w h Hw) as (w' & h' & E & Hw' & Hl & Hu); [done|].
    rewrite E. simpl. exists w', q, h'. split_and!; [done..| |exact Hu]. intros m. rewrite Hl.
    rewrite (bool_decide_ext (m = id) (id = m)) by (split; congruence).
    destruct (bool_decide (id ∈ fetched)), (bool_decide (id = m)); done.
Qed.

(** The store after all changes, by id. *)
Lemma apply_changes_labels fetched cs w q h :
  writer_inv w → Forall valid_change cs →
  ∃ w' q' h', apply_changes fetched cs (w, q, h) = Ok (w', q', h') ∧ writer_inv w' ∧
    (∀ id, labels_at (tx w') id =
       foldl (λ o c, if skipped fetched c then o else server_change id o c) (labels_at (tx w) id) cs) ∧
    (∀ id, id ∈ h_unknown h → id ∈ h_unknown h') ∧
    (∀ id, id ∈ label_changed_ids cs → id ∉ fetched → labels_at (tx w) id = None → id ∈ h_unknown h').
Proof.
  revert w q h. induction cs as [|c cs IH]; intros w q h Hw Hv; cbn [apply_changes].
  { exists w, q, h. split_and!; [done..|]. by intros id ?%not_elem_of_nil. }
  apply Forall_cons in Hv as [Hc Hv].
  destruct (apply_change_labels fetched c w q h Hw Hc) as (w1 & q1 & h1 & E1 & Hw1 & Hl1 & Hu1).
  destruct (IH w1 q1 h1 Hw1 Hv) as (w2 & q2 & h2 & E2 & Hw2 & Hl2 & Hu2 & Hk2).
  rewrite E1. cbn [mbind result_bind]. exists w2, q2, h2. split_and!; [done|done| | |].
  - intros id. by rewrite Hl2, Hl1.
  - intros id Hid. apply Hu2. rewrite Hu1. apply elem_of_app. by left.
  - intros id Hid Hf Hn.
    assert (labels_at (tx w1) id = None) as Hn1.
    { rewrite Hl1, Hn. destruct c; simpl; repeat case_bool_decide; try done; case_match; done. }
    destruct (decide (id ∈ label_changed_ids cs)) as [Hin|Hout]; [by apply Hk2|]. apply Hu2. rewrite Hu1.
    apply elem_of_app. right. unfold label_changed_ids in Hid. cbn [omap list_omap] in Hid.
    destruct c as [| |i ls|i ls]; try done; simpl in Hid |- *;
      (apply elem_of_cons in Hid as [<-|Hid]; [|done]);
      rewrite bool_decide_eq_false_2, bool_decide_eq_true_2 by done; by left.
Qed.

(** ** One message through the changes *)

Lemma elem_of_added_cons id c cs :
  id ∈ added_ids (c :: cs) ↔ (∃ t ls, c = MessageAdded id t ls) ∨ id ∈ added_ids cs.
Proof.
  unfold added_ids. cbn [omap list_omap]. destruct c; simpl; rewrite ?elem_of_cons; split; try naive_solver.
  all: intros [(? & ? & [=])|?]; auto.
Qed.
Lemma elem_of_deleted_cons id c cs :
  id ∈ deleted_ids (c :: cs) ↔ c = MessageDeleted id ∨ id ∈ deleted_ids cs.
Proof.
  unfold deleted_ids. cbn [omap list_omap]. destruct c; simpl; rewrite ?elem_of_cons; naive_solver.
Qed.

Section one_message.
Context (fetched : list MessageId) (id : MessageId).
Abbreviation step := (λ o c, if skipped fetched c then o else server_change id o c).

Lemma deleted_gone cs o : o = None ∨ id ∈ deleted_ids cs → foldl step o cs = None.
Proof.
  revert o. induction cs as [|c cs IH]; intros o Ho; simpl; [destruct Ho as [->|[]%not_elem_of_nil]; done|].
  apply IH. rewrite elem_of_deleted_cons in Ho.
  destruct Ho as [->|[->|Ho]]; [|left; simpl; by rewrite bool_decide_eq_true_2|by right].
  left. destruct c; simpl; repeat case_bool_decide; done.
Qed.
Lemma unfetched_replay cs o :
  id ∉ fetched → id ∉ added_ids cs → foldl step o cs = foldl (server_change id) o cs.
Proof.
  intros Hf. revert o. induction cs as [|c cs IH]; intros o Ha; simpl; [done|].
  rewrite elem_of_added_cons in Ha. rewrite IH by tauto. f_equal.
  destruct c as [i t ls| |i|i]; simpl; try done; case_bool_decide as E; try done.
  - subst i. destruct Ha. eauto.
  - by rewrite bool_decide_eq_false_2 by congruence.
  - by rewrite bool_decide_eq_false_2 by congruence.
Qed.
Lemma fetched_kept cs o : id ∈ fetched → id ∉ deleted_ids cs → foldl step o cs = o.
Proof.
  intros Hf. revert o. induction cs as [|c cs IH]; intros o Hd; simpl; [done|].
  rewrite elem_of_deleted_cons in Hd. rewrite IH by tauto.
  destruct c as [|i|i|i]; simpl; try done.
  - rewrite bool_decide_eq_false_2; [done|]. intros ->. tauto.
  - case_bool_decide; [done|]. by rewrite bool_decide_eq_false_2 by congruence.
  - case_bool_decide; [done|]. by rewrite bool_decide_eq_false_2 by congruence.
Qed.
Lemma added_there cs o :
  (is_Some o ∨ id ∈ added_ids cs) → id ∉ deleted_ids cs → is_Some (foldl (server_change id) o cs).
Proof.
  revert o. induction cs as [|c cs IH]; intros o Ho Hd; simpl; [destruct Ho as [?|[]%not_elem_of_nil]; done|].
  rewrite elem_of_added_cons in Ho. rewrite elem_of_deleted_cons in Hd. apply IH; [|tauto].
  destruct Ho as [Ho|[(t & ls & ->)|Ho]]; [|left; simpl; by rewrite bool_decide_eq_true_2|by right].
  left. destruct c as [i t ls|i|i ls|i ls]; simpl; case_bool_decide; try done; try (by destruct o).
  subst i. tauto.
Qed.
End one_message.

Lemma elem_of_to_fetch id cs : id ∈ to_fetch cs ↔ id ∈ added_ids cs ∧ id ∉ deleted_ids cs.
Proof.
  unfold to_fetch. rewrite merge_sort_Permutation, elem_of_List_filter, elem_of_remove_dups.
  rewrite negb_true_iff, bool_decide_eq_false. tauto.
Qed.

(** ** The fetched messages *)

Lemma upsert_new_labels (srv : Server) ms w :
  writer_inv w → stored_labels w = Replace →
  (∀ m, m ∈ ms → srv (m_id m) = Some (list_to_set (m_label_ids m)) ∧
                 server_id (m_id m) = true ∧ ARCHIVE_LABEL ∉ m_label_ids m) →
  ∃ w' news, upsert_new ms w = Ok (w', news) ∧ writer_inv w' ∧
    ∀ id, server_id id = true →
      labels_at (tx w') id = if bool_decide (id ∈ m_id <$> ms) then srv id else labels_at (tx w) id.
Proof.
  revert w. induction ms as [|m ms IH]; intros w Hw Hr Hms; cbn [upsert_new]; [by eauto|].
  destruct (Hms m (list_elem_of_here _ _)) as (Hsrv & Hsid & Ha).
  destruct (upsert_labels_at m w Hw (server_storable _ Hsid) Hr Ha) as (w1 & E1 & Hw1 & Hr1 & Hm1 & Ho1).
  destruct (IH w1 Hw1 Hr1) as (w2 & news & E2 & Hw2 & Hl2); [intros; apply Hms; by right|].
  rewrite E1. cbn [mbind result_bind]. rewrite E2. cbn [mbind result_bind].
  eexists w2, _. split; [reflexivity|]. split; [done|]. intros id Hid. rewrite Hl2 by done. rewrite fmap_cons.
  destruct (decide (id ∈ m_id <$> ms)) as [Hin|Hin].
  - by rewrite !bool_decide_eq_true_2 by (done || by right).
  - rewrite (bool_decide_eq_false_2 (id ∈ _ <$> ms)) by done. destruct (decide (id = m_id m)) as [->|Hne].
    + rewrite bool_decide_eq_true_2 by by left. congruence.
    + rewrite bool_decide_eq_false_2; [by apply Ho1|]. by intros [?|?]%elem_of_cons.
Qed.

(** ** The round *)

Section round.
Context {X : Type} `{SyncNet X}.
Context (to_lowercase : string → string).

Lemma stored_after (srv now : Server) cs incoming s id :
  truthful srv now cs incoming → mirrors s srv → server_id id = true →
  let fetched := m_id <$> incoming in
  let o := if bool_decide (id ∈ fetched) then now id else labels_at s id in
  let o' := foldl (λ o c, if skipped fetched c then o else server_change id o c) o cs in
  (∀ ls, o' = Some ls → now id = Some ls) ∧ (id ∈ to_fetch cs → o' = now id).
Proof.
  intros [Hh Hf Hc _] Hm Hid fetched o o'.
  assert (id ∈ to_fetch cs → is_Some (now id)) as Hsome.
  { intros [Ha Hd]%elem_of_to_fetch. rewrite Hh. apply added_there; [by right|done]. }
  destruct (decide (id ∈ deleted_ids cs)) as [Hd|Hd].
  { assert (o' = None) as -> by (apply deleted_gone; by right). split; [done|].
    intros [_ Hd']%elem_of_to_fetch. done. }
  destruct (decide (id ∈ fetched)) as [Hin|Hin].
  { assert (o' = now id) as ->; [|by split].
    subst o' o. rewrite bool_decide_eq_true_2 by done. by apply fetched_kept. }
  assert (id ∉ to_fetch cs) as Hno by (intros Hto; by apply Hin, Hc, Hsome).
  split; [|done]. assert (id ∉ added_ids cs) as Ha by (rewrite elem_of_to_fetch in Hno; tauto).
  intros ls. subst o' o. rewrite bool_decide_eq_false_2, unfetched_replay, Hh by done. unfold replay.
  destruct (labels_at s id) as [ls0|] eqn:E0; [by rewrite (Hm id ls0 Hid E0)|].
  rewrite <- (unfetched_replay fetched), deleted_gone by (done || by left). done.
Qed.

Lemma urgent_queued s ids q id :
  id ∈ ids → is_full s id = false →
  ∃ r, r ∈ q_rows (enqueue_urgent s ids q).1 ∧ qr_id r = id ∧ qr_priority r = 0%Z.
Proof.
  unfold enqueue_urgent. intros Hid Hf. induction ids as [|i ids IH]; [by apply not_elem_of_nil in Hid|].
  cbn [foldr]. destruct (foldr (urgent_one s) (q, 0) ids) as [q1 n]. cbn [urgent_one].
  destruct (decide (i = id)) as [->|Hne].
  - rewrite Hf. simpl. eexists. split; [apply elem_of_app; right; by apply list_elem_of_singleton|done].
  - apply elem_of_cons in Hid as [?|Hid]; [congruence|]. destruct (IH Hid) as (r & Hr & Er & Hp). cbn [fst] in Hr.
    exists r. split; [|done]. destruct (is_full s i); [done|]. simpl. apply elem_of_app. left.
    apply elem_of_List_filter. split; [|done]. by rewrite bool_decide_eq_false_2 by congruence.
Qed.
Lemma queued_peek r q : r ∈ q_rows q → wants_body r = true → qr_id r ∈ peek (length (q_rows q)) q.
Proof.
  intros Hr Hp. unfold peek, in_order. rewrite take_ge.
  - apply list_elem_of_fmap. exists r. split; [done|]. rewrite merge_sort_Permutation. by apply elem_of_List_filter.
  - rewrite length_fmap, merge_sort_Permutation. by apply List.filter_length_le.
Qed.

(** C3. An incremental round makes the store mirror the server.  When the
    store's messages have the labels the server had at the cursor, and the
    provider reports every change since then and delivers the new messages
    as they are, the round's transaction succeeds and leaves a consistent
    store in which every stored message has exactly the labels it has on the
    server now (none that is gone there), every new message is stored, the
    cursor is the provider's new one, and a message whose labels changed but
    that is not stored is queued to be fetched first. *)
Theorem incremental_mirrors (srv now : Server) set incoming d q st :
  sn_label_sync = LabelsOfProvider → consistent (mail d) → mirrors (mail d) srv →
  truthful srv now (cs_changes set) incoming →
  ∃ d' q' st' r, apply_history to_lowercase incoming set (d, q, st) = Ok ((d', q', st'), r) ∧
    consistent (mail d') ∧ mirrors (mail d') now ∧
    (∀ id, id ∈ to_fetch (cs_changes set) → server_id id = true → labels_at (mail d') id = now id) ∧
    st' !! KEY_CURSOR = Some (cs_cursor set) ∧
    (∀ id, id ∈ label_changed_ids (cs_changes set) → id ∉ m_id <$> incoming → server_id id = true →
           labels_at (mail d) id = None → id ∈ peek (length (q_rows q')) q').
Proof.
  intros Hls Hs Hm Htr. set (w0 := new_writer d).
  assert (writer_inv w0) as Hw0.
  { destruct (writer_new_inv (mail d) Hs) as [[Hg Hd] Hf]. by split; [constructor|]. }
  assert (stored_labels w0 = Replace) as Hr0 by (unfold w0, new_writer, engine_stored_labels; simpl; by rewrite Hls).
  destruct (upsert_new_labels now incoming w0 Hw0 Hr0 (tr_fetched _ _ _ _ Htr)) as (w1 & news & E1 & Hw1 & Hl1).
  destruct (apply_changes_labels (m_id <$> incoming) (cs_changes set) w1 q (mkHistory 0 0 [] []) Hw1 (tr_valid _ _ _ _ Htr))
    as (w2 & q2 & h2 & E2 & Hw2 & Hl2 & _ & Hk2).
  destruct (finish_labels_at to_lowercase w2 Hw2) as (s3 & c3 & E3 & Hs3 & Hl3).
  unfold apply_history. cbn [fst snd]. fold w0. rewrite E1. cbn [mbind result_bind]. rewrite E2.
  cbn [mbind result_bind]. rewrite E3. cbn [mbind result_bind].
  eexists _, _, _, _. split; [reflexivity|]. cbn [mail with_mail].
  assert (∀ id, server_id id = true → (∀ ls, labels_at s3 id = Some ls → now id = Some ls) ∧
            (id ∈ to_fetch (cs_changes set) → labels_at s3 id = now id)) as Hfinal.
  { intros id Hid. rewrite Hl3, Hl2, Hl1 by done. by apply (stored_after srv now _ incoming (mail d) id Htr Hm). }
  split_and!; [done| | | |].
  - intros id ls Hid. by apply Hfinal.
  - intros id Hto Hid. by apply Hfinal.
  - unfold set_sync_state. by rewrite lookup_insert_eq.
  - intros id Hid Hnf Hsid Hnone.
    assert (labels_at (tx w1) id = None) as Hn1 by (rewrite Hl1 by done; by rewrite bool_decide_eq_false_2).
    assert (is_full (tx w2) id = false) as Hfull.
    { unfold is_full. assert (labels_at (tx w2) id = None) as ->%labels_at_None; [|done].
      rewrite Hl2, Hn1. apply deleted_gone. by left. }
    destruct (urgent_queued (tx w2) (h_unknown h2) q2 id (Hk2 id Hid Hnf Hn1) Hfull) as (r & Hr & <- & Hp).
    apply queued_peek; [done|]. unfold wants_body. by rewrite Hp.
Qed.
End round.

(** ** Changes Kaluta did not make *)

Definition labels_of_change (added : bool) (x : ExternalLabelChange) : list LabelId :=
  if added then ex_added x else ex_removed x.
Definition reported (out : list ExternalLabelChange) (m : MessageId) (added : bool) (l : LabelId) : Prop :=
  ∃ x, x ∈ out ∧ ex_message x = m ∧ l ∈ labels_of_change added x.
Definition own_recent (now : Millis) (own : list OwnChange) (m : MessageId) (l : LabelId) (added : bool) : Prop :=
  ∃ c, c ∈ own ∧ (now - oc_at c < OWN_CHANGE_WINDOW)%Z ∧ oc_message c = m ∧ oc_label c = l ∧ oc_added c = added.

Lemma ex_message_add m t b ls x : ex_message (add_external m t b ls x) = ex_message x.
Proof. by destruct b. Qed.
Lemma labels_add_external m t b ls x b' :
  labels_of_change b' (add_external m t b ls x) = labels_of_change b' x ++ (if Bool.eqb b b' then ls else []).
Proof. destruct b, b'; simpl; by rewrite ?app_nil_r. Qed.

Lemma group_external_messages m t b ls out :
  ex_message <$> group_external m t b ls out =
  (ex_message <$> out) ++ (if bool_decide (m ∈ ex_message <$> out) then [] else [m]).
Proof.
  induction out as [|x out IH]; cbn [group_external].
  { simpl. by rewrite ex_message_add. }
  destruct (decide (ex_message x = m)) as [E|E].
  - rewrite bool_decide_eq_true_2 by done. rewrite !fmap_cons, ex_message_add.
    rewrite bool_decide_eq_true_2 by (apply elem_of_cons; left; congruence). by rewrite app_nil_r.
  - rewrite bool_decide_eq_false_2 by done. rewrite !fmap_cons, IH. simpl. f_equal. f_equal.
    by rewrite (bool_decide_ext (m ∈ ex_message x :: (ex_message <$> out)) (m ∈ ex_message <$> out)) by set_solver.
Qed.

Lemma reported_cons x out m b l :
  reported (x :: out) m b l ↔ (ex_message x = m ∧ l ∈ labels_of_change b x) ∨ reported out m b l.
Proof. unfold reported. setoid_rewrite elem_of_cons. naive_solver. Qed.
Lemma reported_group m t b ls out m' b' l :
  reported (group_external m t b ls out) m' b' l ↔ reported out m' b' l ∨ (m' = m ∧ b' = b ∧ l ∈ ls).
Proof.
  assert (l ∈ (if Bool.eqb b b' then ls else []) ↔ b' = b ∧ l ∈ ls) as Hl.
  { destruct b, b'; simpl; rewrite ?elem_of_nil; naive_solver. }
  induction out as [|x out IH]; cbn [group_external].
  - rewrite reported_cons, ex_message_add, labels_add_external, elem_of_app, Hl.
    assert (labels_of_change b' (mkExternal m t [] []) = []) as -> by by destruct b'.
    rewrite elem_of_nil. simpl. naive_solver.
  - case_bool_decide as E; rewrite !reported_cons.
    + rewrite ex_message_add, labels_add_external, elem_of_app, Hl. naive_solver.
    + rewrite IH. tauto.
Qed.

Lemma elem_of_theirs now own m ls b l :
  l ∈ theirs_of (List.filter (λ c, (now - oc_at c <? OWN_CHANGE_WINDOW)%Z) own) m ls b ↔
  l ∈ ls ∧ ¬ own_recent now own m l b.
Proof.
  unfold theirs_of. rewrite elem_of_List_filter, negb_true_iff.
  rewrite existsb_false. split; intros [H1 H2]; [split; [done|]|split; [|done]].
  - intros (c & Hc & Ht & <- & <- & <-). specialize (H1 c).
    rewrite !bool_decide_eq_true_2, eqb_reflx in H1 by done. simpl in H1. discriminate H1.
    apply elem_of_List_filter. split; [lia|done].
  - intros c [Hin Hc]%elem_of_List_filter. apply not_true_iff_false. intros Hb.
    apply andb_true_iff in Hb as [[H3%bool_decide_eq_true H4%bool_decide_eq_true]%andb_true_iff H5%eqb_prop].
    apply H2. exists c. split_and!; [done|lia|done..].
Qed.

(** Exactly what others did: the changes of the history that Kaluta's
    outbox did not push in the last two hours are reported, one entry a
    message, and nothing else is; older own changes are forgotten. *)
Theorem not_ours_spec now own labeled :
  let '(own', out) := not_ours now own labeled in
  (∀ m added l, reported out m added l ↔
     (∃ t ls, (m, t, ls, added) ∈ labeled ∧ l ∈ ls) ∧ ¬ own_recent now own m l added) ∧
  NoDup (ex_message <$> out) ∧
  (∀ c, c ∈ own' ↔ c ∈ own ∧ (now - oc_at c < OWN_CHANGE_WINDOW)%Z).
Proof.
  unfold not_ours. set (kept := List.filter _ own). split_and!.
  - assert (∀ out0 m added l,
      reported (foldl (λ out '(m, t, ls, added), match theirs_of kept m ls added with
                         | [] => out | theirs => group_external m t added theirs out end) out0 labeled) m added l ↔
      reported out0 m added l ∨ ((∃ t ls, (m, t, ls, added) ∈ labeled ∧ l ∈ ls) ∧ ¬ own_recent now own m l added)) as Hall.
    { induction labeled as [|[[[m0 t0] ls0] b0] labeled IH]; intros out0 m added l; cbn [foldl].
      - setoid_rewrite elem_of_nil. naive_solver.
      - rewrite IH. pose proof (elem_of_theirs now own m0 ls0 b0 l) as Ht. fold kept in Ht.
        assert (reported (match theirs_of kept m0 ls0 b0 with
                          | [] => out0 | l1 :: l2 => group_external m0 t0 b0 (l1 :: l2) out0 end) m added l ↔
                reported out0 m added l ∨ (m = m0 ∧ added = b0 ∧ l ∈ theirs_of kept m0 ls0 b0)) as ->.
        { destruct (theirs_of kept m0 ls0 b0); [rewrite elem_of_nil; naive_solver|]. apply reported_group. }
        rewrite Ht. setoid_rewrite elem_of_cons. naive_solver. }
    intros m added l. rewrite Hall. split; [|by right]. intros [(x & []%not_elem_of_nil & _)|?]; done.
  - assert (∀ out0, NoDup (ex_message <$> out0) →
      NoDup (ex_message <$> foldl (λ out '(m, t, ls, added), match theirs_of kept m ls added with
                         | [] => out | theirs => group_external m t added theirs out end) out0 labeled)) as Hall.
    { induction labeled as [|[[[m0 t0] ls0] b0] labeled IH]; intros out0 H0; cbn [foldl]; [done|].
      apply IH. destruct (theirs_of kept m0 ls0 b0); [done|]. rewrite group_external_messages.
      case_bool_decide; [by rewrite app_nil_r|]. apply NoDup_app. split_and!; [done| |apply NoDup_singleton].
      by intros x ? ->%list_elem_of_singleton. }
    apply Hall. constructor.
  - intros c. subst kept. rewrite elem_of_List_filter. rewrite Z.ltb_lt. tauto.
Qed.

(** ** The backfill ends *)

Section backfill.
Context {X : Type} `{SyncNet X}.
Context (to_lowercase : string → string).
Context (sanitize_html : string → string * bool) (html_to_text : string → string).
Abbreviation batch := (backfill_batch to_lowercase sanitize_html html_to_text).

Definition waiting (q : BackfillQueue) : nat := count wants_body (q_rows q).

Lemma remove_rows ids q :
  q_rows (Queue.remove ids q) = List.filter (λ r, negb (bool_decide (qr_id r ∈ ids))) (q_rows q).
Proof.
  unfold Queue.remove. revert q. induction ids as [|id ids IH]; intros q; cbn [foldl].
  { rewrite List_filter_all; [done|]. intros r _. by apply negb_true_iff, bool_decide_eq_false, not_elem_of_nil. }
  rewrite IH. simpl. rewrite List_filter_filter. apply List_filter_ext. intros r _. apply eq_true_iff_eq.
  rewrite andb_true_iff, !negb_true_iff, !bool_decide_eq_false, elem_of_cons. tauto.
Qed.

(** Peeked ids are ids of distinct waiting rows. *)
Lemma peek_spec n q :
  queue_ok q → NoDup (peek n q) ∧ ∀ id, id ∈ peek n q → ∃ r, r ∈ q_rows q ∧ wants_body r = true ∧ qr_id r = id.
Proof.
  intros Hq. unfold peek, in_order. split.
  - eapply sublist_NoDup; [|apply sublist_take]. rewrite merge_sort_Permutation.
    apply NoDup_fmap_List_filter, Hq.
  - intros id Hid. assert (id ∈ qr_id <$> merge_sort queue_le (List.filter wants_body (q_rows q))) as Hin.
    { eapply sublist_subseteq; [apply sublist_take|exact Hid]. }
    apply list_elem_of_fmap in Hin as (r & -> & Hr). rewrite merge_sort_Permutation in Hr.
    apply elem_of_List_filter in Hr as [? ?]. eauto.
Qed.

Lemma waiting_remove ids q :
  queue_ok q → NoDup ids → (∀ id, id ∈ ids → ∃ r, r ∈ q_rows q ∧ wants_body r = true ∧ qr_id r = id) →
  waiting (Queue.remove ids q) + length ids = waiting q.
Proof.
  intros Hq Hn. unfold Queue.remove. revert q Hq. induction Hn as [|id ids Hid Hn IH]; intros q Hq Hin; [simpl; lia|].
  cbn [foldl length]. destruct (Hin id (list_elem_of_here _ _)) as (r & Hr & Hb & Er).
  assert (waiting (remove_row id q) + 1 = waiting q) as E1.
  { unfold waiting. simpl. rewrite <- Er.
    rewrite (count_remove_key qr_id wants_body (q_rows q) r (qo_ids q Hq) Hr), Hb. simpl. lia. }
  rewrite <- E1, <- (IH (remove_row id q)); [lia|by apply remove_row_ok|].
  intros id' Hid'. destruct (Hin id') as (r' & Hr' & Hb' & Er'); [by right|]. exists r'. split; [|done].
  apply elem_of_List_filter. split; [|done]. apply negb_true_iff, bool_decide_eq_false. intros E. congruence.
Qed.
Lemma headers_remove ids q :
  queue_ok q → (∀ id, id ∈ ids → ∃ r, r ∈ q_rows q ∧ wants_body r = true ∧ qr_id r = id) →
  List.filter (λ r, negb (wants_body r)) (q_rows (Queue.remove ids q)) =
  List.filter (λ r, negb (wants_body r)) (q_rows q).
Proof.
  intros Hq Hin. rewrite remove_rows, List_filter_filter. apply List_filter_ext. intros r Hr.
  case_bool_decide as Hid; [|done]. destruct (Hin _ Hid) as (r' & Hr' & Hb & E).
  rewrite <- (NoDup_fmap_inj qr_id (q_rows q) r' r (qo_ids q Hq) Hr' Hr E). by rewrite Hb.
Qed.

Lemma batch_step n (e : SyncEngine X) :
  match batch n e with
  | (e', Ok k) => k = length (peek n (s_queue e)) ∧ s_queue e' = Queue.remove (peek n (s_queue e)) (s_queue e)
  | (_, Err err) => err ≠ StillRunning
  end.
Proof.
  unfold backfill_batch, mbind, action_bind, reads at 1. set (ids := peek n (s_queue e)).
  destruct ids as [|id ids'] eqn:E; [done|]. unfold call. destruct (sn_fetch_bodies _ (s_net e)) as [x [fetched|err]];
    cbn [map_err]; [|done]. unfold write.
  destruct (store_fetched _ _ _ _) as [[t c]|err] eqn:Es; [|done].
  unfold store_fetched in Es. apply bind_Ok in Es as (w & _ & ([s c'] & _ & [= <- <-])%bind_Ok).
  unfold publish, report, update, mret, action_ret. case_bool_decide; destruct (Queue.counts _); done.
Qed.

Lemma peek_nil n q : 0 < n → peek n q = [] → waiting q = 0.
Proof.
  intros Hn Hp. unfold waiting. rewrite count_List_filter.
  enough (length (in_order wants_body q) = 0) as E by (unfold in_order in E; by rewrite length_fmap, merge_sort_Permutation in E).
  unfold peek in Hp. destruct (in_order wants_body q); [done|]. destruct n; [lia|done].
Qed.

Lemma backfill_all_ends fuel total (e : SyncEngine X) :
  queue_ok (s_queue e) → waiting (s_queue e) < fuel →
  match backfill_all to_lowercase sanitize_html html_to_text fuel total e with
  | (e', Ok n) => n = total + waiting (s_queue e) ∧ waiting (s_queue e') = 0 ∧
      List.filter (λ r, negb (wants_body r)) (q_rows (s_queue e')) =
      List.filter (λ r, negb (wants_body r)) (q_rows (s_queue e))
  | (_, Err err) => err ≠ StillRunning
  end.
Proof.
  revert total e. induction fuel as [|fuel IH]; intros total e Hq Hf; [lia|].
  cbn [backfill_all]. unfold mbind at 1, action_bind at 1.
  pose proof (batch_step BACKFILL_BATCH e) as Hb.
  destruct (batch BACKFILL_BATCH e) as [e1 [k|err]]; [|done]. destruct Hb as [-> Eq].
  destruct (peek_spec BACKFILL_BATCH (s_queue e) Hq) as [Hn Hin].
  pose proof (waiting_remove _ _ Hq Hn Hin) as Hw. pose proof (headers_remove _ _ Hq Hin) as Hh.
  rewrite <- Eq in Hw, Hh.
  assert (queue_ok (s_queue e1)) as Hq1 by (rewrite Eq; by apply remove_ok).
  destruct (peek BACKFILL_BATCH (s_queue e)) as [|id ids] eqn:Ep; cbn [length Nat.eqb] in *.
  - assert (waiting (s_queue e) = 0) by (apply (peek_nil BACKFILL_BATCH); [unfold BACKFILL_BATCH; lia|done]).
    simpl. split_and!; [lia|lia|done].
  - specialize (IH (total + S (length ids)) e1 Hq1). destruct (backfill_all _ _ _ fuel _ e1) as [e2 [n|err]].
    + destruct IH as (E1 & E2 & E3); [lia|]. split_and!; [lia|done|congruence].
    + apply IH. lia.
Qed.

(** The backfill ends: whatever the network answers, draining the queue
    stops (at an error, or when nothing waits for a body); when it ends
    without an error it has processed every waiting id, none is left, and
    the ids waiting for headers only are untouched. *)
Theorem backfill_ends ops fuel (e : SyncEngine X) :
  Forall QueueProperties.valid_op ops → s_queue e = run_queue_ops ops → waiting (s_queue e) < fuel →
  match backfill_all to_lowercase sanitize_html html_to_text fuel 0 e with
  | (e', Ok n) => n = waiting (s_queue e) ∧ peek 1 (s_queue e') = [] ∧
      List.filter (λ r, negb (wants_body r)) (q_rows (s_queue e')) =
      List.filter (λ r, negb (wants_body r)) (q_rows (s_queue e))
  | (_, Err err) => err ≠ StillRunning
  end.
Proof.
  intros Hv Eq Hf. pose proof (backfill_all_ends fuel 0 e) as Hb.
  destruct (backfill_all _ _ _ fuel 0 e) as [e' [n|err]].
  - destruct Hb as (-> & Hw & Hh); [rewrite Eq; by apply run_queue_ops_ok|done|]. split_and!; [done| |done].
    unfold peek. destruct (in_order wants_body (s_queue e')) as [|id l] eqn:E; [done|]. exfalso.
    unfold waiting in Hw. rewrite count_List_filter in Hw.
    assert (length (in_order wants_body (s_queue e')) = 0) by (unfold in_order; by rewrite length_fmap, merge_sort_Permutation).
    by rewrite E in *.
  - apply Hb; [rewrite Eq; by apply run_queue_ops_ok|done].
Qed.
End backfill.

(** ** A concrete round

    A network that answers nothing but whose labels they are; the round's
    transaction asks it nothing else. *)
Definition no_net {A} : Action () ProviderError A := λ x, (x, Err (Network "offline")).
#[export] Instance demo_net_calls : SyncNet () := {
  sn_profile := no_net; sn_list_labels := no_net; sn_list_message_ids _ _ := no_net;
  sn_fetch_messages _ := no_net; sn_changes_since _ := no_net; sn_list_drafts := no_net;
  sn_label_sync := LabelsOfProvider; sn_fetch_bodies _ := no_net; sn_fetch_headers _ := no_net;
  sn_list_via_imap _ x := (x, Err "IMAP is not set up for this account"); sn_cheap_headers _ := false }.

Definition demo_changes : list Change :=
  [LabelsRemoved "m2" ["INBOX"]; MessageAdded "m9" "t9" ["INBOX"]; MessageDeleted "m1"; LabelsAdded "zz" ["STARRED"]].
Definition demo_incoming : list IncomingMessage := [demo_message "m9" "t9" ["INBOX"] 9].
Definition demo_server : Server := labels_at demo_store.

Lemma demo_truthful : truthful demo_server (replay demo_changes demo_server) demo_changes demo_incoming.
Proof.
  constructor.
  - done.
  - intros m ->%list_elem_of_singleton. split; [reflexivity|]. split; [reflexivity|]. by intros ?%list_elem_of_singleton.
  - intros id Hid _. apply elem_of_to_fetch in Hid as [Hid _]. vm_compute in Hid. exact Hid.
  - repeat constructor; simpl. by intros ?%list_elem_of_singleton.
Qed.

Lemma incremental_mirrors_witness :
  ∃ d' q' st' r,
    apply_history ascii_lower demo_incoming (mkChangeSet demo_changes "c2") (with_mail demo_store empty_db, empty_queue, ∅)
      = Ok ((d', q', st'), r) ∧
    labels_at (mail d') "m9" = Some (list_to_set ["INBOX"]) ∧ "zz" ∈ peek (length (q_rows q')) q'.
Proof.
  destruct (incremental_mirrors ascii_lower demo_server (replay demo_changes demo_server) (mkChangeSet demo_changes "c2")
              demo_incoming (with_mail demo_store empty_db) empty_queue ∅)
    as (d' & q' & st' & r & E & _ & _ & H1 & _ & H2).
  - reflexivity.
  - exact demo_consistent.
  - intros id ls _ Hl. exact Hl.
  - exact demo_truthful.
  - exists d', q', st', r. split; [exact E|]. split.
    + rewrite H1; [reflexivity|vm_compute; by left|reflexivity].
    + apply H2; [vm_compute; right; by left|vm_compute; by intros ?%list_elem_of_singleton|reflexivity|].
      apply labels_at_None. vm_compute. reflexivity.
Defined.

(** An online network with one message of two. *)
Definition fetched_a : FetchedMessage :=
  mkFetched "a" "ta" ["INBOX"] "" 1 10 None None [] None [] [] [] [] "Hello" None (mkListHeaders None None None None) None.
Definition two_waiting : SyncEngine bool :=
  mkSync empty_db (run_queue_ops demo_queue_ops) ∅ [] ∅ false [] true.
#[export] Instance demo_net_online : SyncNet bool := {
  sn_profile x := (x, Err Unauthorized); sn_list_labels x := (x, Err Unauthorized);
  sn_list_message_ids _ _ x := (x, Err Unauthorized); sn_fetch_messages _ x := (x, Ok [fetched_a]);
  sn_changes_since _ x := (x, Err Unauthorized); sn_list_drafts x := (x, Ok None);
  sn_label_sync := LabelsOfProvider; sn_fetch_bodies _ x := (x, Ok [fetched_a]); sn_fetch_headers _ x := (x, Ok None);
  sn_list_via_imap _ x := (x, Err "no"); sn_cheap_headers _ := false }.
Lemma backfill_ends_witness :
  match backfill_all ascii_lower (λ h, (h, false)) (λ h, h) 4 0 two_waiting with
  | (e', Ok n) => n = waiting (s_queue two_waiting) ∧ peek 1 (s_queue e') = [] ∧
      List.filter (λ r, negb (wants_body r)) (q_rows (s_queue e')) =
      List.filter (λ r, negb (wants_body r)) (q_rows (s_queue two_waiting))
  | (_, Err err) => err ≠ StillRunning
  end ∧ is_ok (backfill_all ascii_lower (λ h, (h, false)) (λ h, h) 4 0 two_waiting).2 = true.
Proof.
  split; [|vm_compute; reflexivity].
  apply (backfill_ends ascii_lower (λ h, (h, false)) (λ h, h) demo_queue_ops 4 two_waiting).
  - repeat constructor; simpl; lia.
  - reflexivity.
  - vm_compute. lia.
Defined.
