(* ===== verification/Transport.v ===== *)
(** * Transport: IMAP or the API ([mail-sync/src/transport.rs], the fetches of
    [mail-sync/src/engine.rs], lines 399-507 and 743-750)

    The circuit breaker over IMAP, the last operations for the Sync Debugger,
    and the choice of a transport for bodies, headers and listings. *)

From S2P Require Import Prelude.
From S2P Require Import Domain.
From S2P Require Import Provider.
From S2P Require Import Sync.

Inductive Job := JList | JHeaders | JBodies | JChanges | JDrafts | JSearch | JWrite | JPush | JCategories.
#[export] Instance job_eq_dec : EqDecision Job.
Proof. solve_decision. Defined.
Definition Job_ALL : list Job := [JList; JHeaders; JBodies; JChanges; JDrafts; JSearch; JWrite; JPush; JCategories].
Definition job_name (j : Job) : string :=
  match j with
  | JList => "list" | JHeaders => "headers" | JBodies => "bodies" | JChanges => "changes" | JDrafts => "drafts"
  | JSearch => "search" | JWrite => "write" | JPush => "push" | JCategories => "categories"
  end.
Inductive Via := Imap | Api.
#[export] Instance via_eq_dec : EqDecision Via.
Proof. solve_decision. Defined.
Definition via_name (v : Via) : string := match v with Imap => "imap" | Api => "api" end.

Record OpRecord := mkRecord {
  or_job : Job; or_via : Via; or_reason : option string; or_at : Millis; or_millis : Z; or_items : nat; or_ok : bool }.

Definition BREAKER_FAILURES : Z := 3.
Definition BREAKER_OPEN_MS : Millis := 15 * 60 * 1000.
Definition RECORDS_KEPT : nat := 200.

Record TransportState := mkTransport {
  ts_failures : Z; ts_open_until : option Millis; ts_last_error : option string; ts_records : list OpRecord }.
Definition transport_default : TransportState := mkTransport 0 None None [].

Definition imap_allowed (now : Millis) (s : TransportState) : TransportState * bool :=
  match ts_open_until s with
  | Some until =>
      if (now <? until)%Z then (s, false)
      else (mkTransport (BREAKER_FAILURES - 1) None (ts_last_error s) (ts_records s), true)
  | None => (s, true)
  end.
Definition imap_succeeded (s : TransportState) : TransportState :=
  mkTransport 0 None (ts_last_error s) (ts_records s).
Definition imap_failed (error : string) (now : Millis) (s : TransportState) : TransportState * string :=
  let failures := (ts_failures s + 1)%Z in
  (mkTransport failures
     (if (BREAKER_FAILURES <=? failures)%Z then Some (now + BREAKER_OPEN_MS)%Z else ts_open_until s)
     (Some error) (ts_records s),
   "IMAP failed: " +:+ error).
Definition breaker_reason (s : TransportState) : string :=
  match ts_last_error s with
  | Some e => "IMAP paused after repeated failures (" +:+ e +:+ ")"
  | None => "IMAP paused after repeated failures"
  end.
Definition reset (s : TransportState) : TransportState :=
  mkTransport 0 None (ts_last_error s) (ts_records s).
Definition record_op (r : OpRecord) (s : TransportState) : TransportState :=
  let kept := if length (ts_records s) =? RECORDS_KEPT then take (RECORDS_KEPT - 1) (ts_records s) else ts_records s in
  mkTransport (ts_failures s) (ts_open_until s) (ts_last_error s) (r :: kept).

Record TransportSnapshot := mkSnapshot {
  sn_breaker_open_until : option Millis; sn_failures : Z; sn_last_imap_error : option string; sn_recent : list OpRecord }.
Definition snapshot (s : TransportState) : TransportSnapshot :=
  mkSnapshot (ts_open_until s) (ts_failures s) (ts_last_error s) (ts_records s).
Definition latest_by_job (s : TransportSnapshot) : list OpRecord :=
  omap (λ job, List.find (λ r, bool_decide (or_job r = job)) (sn_recent s)) Job_ALL.

(** ** Choosing a transport

    [P]: the provider and the backfill source. Beside it the breaker and two
    clocks, the wall clock and the monotonic one of [std::time::Instant],
    which every reading moves on. *)

Record Wire (P : Type) := mkWire { wi_transport : TransportState; wi_clock : nat → Millis; wi_instant : nat → Z; wi_ticks : nat; wi_net : P }.
Arguments mkWire {P} _ _ _ _ _.
Arguments wi_transport {P} _.
Arguments wi_clock {P} _.
Arguments wi_instant {P} _.
Arguments wi_ticks {P} _.
Arguments wi_net {P} _.

(** What bulk downloads come from ([BackfillSource]), and the API's fetch. *)
Class Sources (P : Type) := {
  so_name : P → string;
  so_fetch : list MessageId → Action P ProviderError (list FetchedMessage);
  so_fetch_headers : list MessageId → Action P ProviderError (option (list FetchedMessage));
  so_list : string → Action P ProviderError (option (list MessageId));
  so_api_fetch : list MessageId → Action P ProviderError (list FetchedMessage) }.

Section wire.
Context {P : Type} `{Sources P}.

Definition wire_now (w : Wire P) : Wire P * Millis :=
  (mkWire (wi_transport w) (wi_clock w) (wi_instant w) (S (wi_ticks w)) (wi_net w), wi_clock w (wi_ticks w)).
Definition on_transport (f : TransportState → TransportState) (w : Wire P) : Wire P :=
  mkWire (f (wi_transport w)) (wi_clock w) (wi_instant w) (wi_ticks w) (wi_net w).
Definition ask {E A} (f : Action P E A) (w : Wire P) : Wire P * result E A :=
  let '(p, r) := f (wi_net w) in (mkWire (wi_transport w) (wi_clock w) (wi_instant w) (wi_ticks w) p, r).

(** [Timer] *)
Record Timer := mkTimer { ti_started : Z; ti_at : Millis }.
Definition timer_start (w : Wire P) : Wire P * Timer :=
  let '(w', now) := wire_now w in (w', mkTimer (wi_instant w (wi_ticks w)) now).
Definition timer_finish (t : Timer) (job : Job) (via : Via) (reason : option string) (items : nat) (ok_ : bool)
    (w : Wire P) : Wire P * OpRecord :=
  let elapsed := Z.max 0 (wi_instant w (wi_ticks w) - ti_started t) in
  ((wire_now w).1, mkRecord job via reason (ti_at t) elapsed items ok_).
Definition finish_and_record (t : Timer) (job : Job) (via : Via) (reason : option string) (items : nat) (ok_ : bool)
    (w : Wire P) : Wire P :=
  let '(w, r) := timer_finish t job via reason items ok_ w in on_transport (record_op r) w.
Definition record_api (t : Timer) (job : Job) (reason : string) (items : nat) (ok_ : bool) (w : Wire P) : Wire P :=
  finish_and_record t job Api (Some reason) items ok_ w.

Definition imap_gate (w : Wire P) : Wire P * result string () :=
  if String.eqb (so_name (wi_net w)) "rest" then (w, Err "IMAP is not set up for this account")
  else if String.eqb (so_name (wi_net w)) "imap-refused" then (w, Err "IMAP sign-in was refused for this account")
  else
    let '(w, now) := wire_now w in
    let '(s, allowed) := imap_allowed now (wi_transport w) in
    let w := on_transport (λ _, s) w in
    if allowed : bool then (w, Ok ()) else (w, Err (breaker_reason s)).
Definition imap_error (e : ProviderError) (w : Wire P) : Wire P * string :=
  match e with
  | Unavailable why => (w, why)
  | other =>
      let '(w, now) := wire_now w in
      let '(s, reason) := imap_failed (error_text other) now (wi_transport w) in
      (on_transport (λ _, s) w, reason)
  end.

Definition fetch_over_api (ids : list MessageId) (reason : string) (w : Wire P) :
    Wire P * result ProviderError (list FetchedMessage) :=
  let '(w, timer) := timer_start w in
  let '(w, r) := ask (so_api_fetch ids) w in
  (finish_and_record timer JBodies Api (Some reason)
     (match r with Ok l => length l | Err _ => 0 end) (is_ok r) w, r).
Definition fetch_bodies (ids : list MessageId) : Action (Wire P) ProviderError (list FetchedMessage) := λ w,
  match imap_gate w with
  | (w, Err reason) => fetch_over_api ids reason w
  | (w, Ok _) =>
      let '(w, timer) := timer_start w in
      match ask (so_fetch ids) w with
      | (w, Ok l) =>
          (finish_and_record timer JBodies Imap None (length l) true (on_transport imap_succeeded w), Ok l)
      | (w, Err e) => let '(w, reason) := imap_error e w in fetch_over_api ids reason w
      end
  end.
Definition fetch_headers (ids : list MessageId) : Action (Wire P) ProviderError (option (list FetchedMessage)) := λ w,
  match imap_gate w with
  | (w, Err _) => (w, Ok None)
  | (w, Ok _) =>
      let '(w, timer) := timer_start w in
      match ask (so_fetch_headers ids) w with
      | (w, Ok (Some l)) =>
          (finish_and_record timer JHeaders Imap None (length l) true (on_transport imap_succeeded w), Ok (Some l))
      | (w, Ok None) => (w, Ok None)
      | (w, Err e) =>
          let '(w, reason) := imap_error e w in
          (finish_and_record timer JHeaders Imap (Some reason) 0 false w, Ok None)
      end
  end.
Definition list_via_imap (query : string) (job : Job) : Action (Wire P) string (list MessageId) := λ w,
  match imap_gate w with
  | (w, Err reason) => (w, Err reason)
  | (w, Ok _) =>
      let '(w, timer) := timer_start w in
      match ask (so_list query) w with
      | (w, Ok (Some ids)) =>
          (finish_and_record timer job Imap None (length ids) true (on_transport imap_succeeded w), Ok ids)
      | (w, Ok None) => (w, Err "this download source cannot list")
      | (w, Err e) => let '(w, reason) := imap_error e w in (w, Err reason)
      end
  end.
End wire.

(** ** The breaker, by what happened *)

Inductive TransportEvent :=
| TAllowed (now : Millis)
| TSucceeded
| TFailed (error : string) (now : Millis)
| TReset
| TRecord (r : OpRecord).
Definition transport_step (s : TransportState) (e : TransportEvent) : TransportState :=
  match e with
  | TAllowed now => (imap_allowed now s).1
  | TSucceeded => imap_succeeded s
  | TFailed error now => (imap_failed error now s).1
  | TReset => reset s
  | TRecord r => record_op r s
  end.
Definition run_transport (log : list TransportEvent) : TransportState := foldl transport_step transport_default log.

(** The failures since the last success or reset, newest first. *)
Definition failure_streak (log : list TransportEvent) : list Millis :=
  foldl (λ fs e, match e with TFailed _ now => now :: fs | TSucceeded | TReset => [] | _ => fs end) [] log.
Definition event_at (e : TransportEvent) : option Millis :=
  match e with TAllowed now | TFailed _ now => Some now | _ => None end.
Definition paused (log : list TransportEvent) (now : Millis) : bool :=
  match failure_streak log with
  | last :: _ :: _ :: _ => (now <? last + BREAKER_OPEN_MS)%Z
  | _ => false
  end.
Definition recorded (log : list TransportEvent) : list OpRecord :=
  omap (λ e, match e with TRecord r => Some r | _ => None end) log.

Lemma failure_streak_snoc log e :
  failure_streak (log ++ [e]) =
  match e with TFailed _ now => now :: failure_streak log | TSucceeded | TReset => [] | _ => failure_streak log end.
Proof. unfold failure_streak. by rewrite foldl_app. Qed.
Lemma run_transport_snoc log e : run_transport (log ++ [e]) = transport_step (run_transport log) e.
Proof. unfold run_transport. by rewrite foldl_app. Qed.

(** The state by the log, after its events up to [clock]. *)
Definition breaker_inv (log : list TransportEvent) (clock : Millis) (s : TransportState) : Prop :=
  match failure_streak log with
  | last :: _ :: _ :: _ =>
      (ts_open_until s = Some (last + BREAKER_OPEN_MS)%Z ∧ (BREAKER_FAILURES ≤ ts_failures s)%Z) ∨
      (ts_open_until s = None ∧ ts_failures s = (BREAKER_FAILURES - 1)%Z ∧ (last + BREAKER_OPEN_MS ≤ clock)%Z)
  | fs => ts_open_until s = None ∧ ts_failures s = Z.of_nat (length fs)
  end ∧ ∀ t, t ∈ failure_streak log → (t ≤ clock)%Z.

Lemma breaker_later log clock clock' s : breaker_inv log clock s → (clock ≤ clock')%Z → breaker_inv log clock' s.
Proof.
  unfold breaker_inv. intros [Hinv Hle] Hc. split; [|intros t Ht; specialize (Hle t Ht); lia].
  destruct (failure_streak log) as [|l1 [|l2 [|l3 fs]]]; try done.
  destruct Hinv as [Hopen|(Ho & Hf & Hpast)]; [by left|right; split_and!; [done..|lia]].
Qed.
Lemma breaker_step log clock s e :
  breaker_inv log clock s → default clock (event_at e) = clock → breaker_inv (log ++ [e]) clock (transport_step s e).
Proof.
  unfold breaker_inv. rewrite failure_streak_snoc. intros [Hinv Hle] Hnow.
  destruct e as [now| |err now| |r]; simpl in Hnow; subst.
  - split; [|done]. cbn [transport_step]. unfold imap_allowed.
    destruct (failure_streak log) as [|l1 [|l2 [|l3 fs]]]; try (destruct Hinv as [Ho Hf]; by rewrite Ho).
    destruct Hinv as [[Ho Hf]|(Ho & Hf & Hc)]; rewrite Ho; [|by right].
    destruct (clock <? l1 + BREAKER_OPEN_MS)%Z eqn:E; [left|right; simpl; split_and!; [done..|lia]].
    by split.
  - split; [done|]. by intros t ?%not_elem_of_nil.
  - split.
    + cbn [transport_step imap_failed fst ts_open_until ts_failures]. unfold BREAKER_FAILURES in *.
      destruct (failure_streak log) as [|l1 [|l2 [|l3 fs]]]; [by destruct Hinv as [-> ->]..|left|left].
      * destruct Hinv as [-> ->]. done.
      * assert (2 ≤ ts_failures s)%Z by (destruct Hinv as [[_ Hf]|(_ & -> & _)]; lia).
        assert ((3 <=? ts_failures s + 1)%Z = true) as -> by lia. split; [done|lia].
    + intros t [->|Ht]%elem_of_cons; [done|]. by apply Hle.
  - split; [done|]. by intros t ?%not_elem_of_nil.
  - by split.
Qed.
Lemma run_breaker log clock :
  StronglySorted Z.le (omap event_at log ++ [clock]) → breaker_inv log clock (run_transport log).
Proof.
  revert clock. induction log as [|e log IH] using rev_ind; intros clock Hsorted.
  { split; [done|]. by intros t ?%not_elem_of_nil. }
  rewrite run_transport_snoc, omap_app in *. rewrite <-app_assoc in Hsorted.
  destruct (event_at e) as [t|] eqn:Et.
  - assert (omap event_at [e] = [t]) as Ee by (cbn; by rewrite Et). rewrite Ee in Hsorted.
    apply breaker_later with t.
    + apply breaker_step; [apply IH|by rewrite Et].
      rewrite app_assoc in Hsorted. by apply StronglySorted_app in Hsorted as (_ & ? & _).
    + apply StronglySorted_app in Hsorted as (_ & _ & Hs). inversion_clear Hs as [|? ? _ Hall].
      by inversion_clear Hall.
  - assert (omap event_at [e] = []) as Ee by (cbn; by rewrite Et). rewrite Ee in Hsorted.
    apply breaker_step; [by apply IH|by rewrite Et].
Qed.

(** IMAP is refused exactly while it is paused: with the events in the
    order of their times, [imap_allowed] answers no if and only if the last
    three or more outcomes were failures, with no success and no reset since,
    and the last of them is less than fifteen minutes old. Gates asked in
    between, the retry after a pause included, change nothing. *)
Theorem imap_refused_exactly log now :
  StronglySorted Z.le (omap event_at log ++ [now]) →
  (imap_allowed now (run_transport log)).2 = negb (paused log now).
Proof.
  intros [Hinv _]%run_breaker. unfold paused, imap_allowed.
  destruct (failure_streak log) as [|l1 [|l2 [|l3 fs]]]; [by destruct Hinv as [-> _]..|].
  destruct Hinv as [[-> _]|(-> & _ & Hpast)].
  - by destruct (now <? l1 + BREAKER_OPEN_MS)%Z.
  - by assert ((now <? l1 + BREAKER_OPEN_MS)%Z = false) as -> by lia.
Qed.
Definition failing_log : list TransportEvent :=
  [TAllowed 10; TFailed "closed" 20; TAllowed 30; TFailed "closed" 40; TAllowed 50; TFailed "closed" 60; TAllowed 70].
Lemma imap_refused_exactly_witness :
  StronglySorted Z.le (omap event_at failing_log ++ [900059%Z]) ∧
  (imap_allowed 900059 (run_transport failing_log)).2 = false ∧
  (imap_allowed 900060 (run_transport failing_log)).2 = true.
Proof.
  assert (∀ t, (70 ≤ t)%Z → StronglySorted Z.le (omap event_at failing_log ++ [t])) as Hs.
  { intros t Ht. cbn. repeat constructor; lia. }
  split_and!; [apply Hs; lia| |]; rewrite imap_refused_exactly; try (apply Hs; lia); reflexivity.
Defined.

Lemma record_op_take r s :
  length (ts_records s) ≤ RECORDS_KEPT →
  ts_records (record_op r s) = take RECORDS_KEPT (r :: ts_records s).
Proof.
  intros Hl. unfold record_op. cbn [ts_records]. unfold RECORDS_KEPT in *. cbn [take]. f_equal.
  destruct (length (ts_records s) =? 200) eqn:E; [done|]. rewrite take_ge; [done|]. apply Nat.eqb_neq in E. lia.
Qed.
Lemma run_transport_records log : ts_records (run_transport log) = take RECORDS_KEPT (rev (recorded log)).
Proof.
  induction log as [|e log IH] using rev_ind; [done|]. rewrite run_transport_snoc. unfold recorded in *.
  rewrite omap_app, rev_app_distr.
  destruct e as [now| |err now| |r]; cbn [transport_step imap_succeeded imap_failed reset fst ts_records omap list_omap rev app];
    try done.
  - unfold imap_allowed. destruct (ts_open_until _) as [u|]; [destruct (now <? u)%Z|]; done.
  - rewrite record_op_take, IH; [|rewrite IH, length_take; lia].
    unfold RECORDS_KEPT. cbn [take]. f_equal. by rewrite take_take.
Qed.

Section wire_properties.
Context {P : Type} `{Sources P}.
Implicit Types w : Wire P.

Lemma finish_and_record_spec timer job via reason items ok_ w :
  length (ts_records (wi_transport w)) ≤ RECORDS_KEPT →
  ∃ ms, ts_records (wi_transport (finish_and_record timer job via reason items ok_ w)) =
    take RECORDS_KEPT (mkRecord job via reason (ti_at timer) ms items ok_ :: ts_records (wi_transport w)).
Proof. intros Hl. eexists. rewrite <-record_op_take by done. done. Qed.
Lemma fetch_over_api_spec ids reason w :
  length (ts_records (wi_transport w)) ≤ RECORDS_KEPT →
  (fetch_over_api ids reason w).2 = (so_api_fetch ids (wi_net w)).2 ∧
  ∃ at_ ms, ts_records (wi_transport (fetch_over_api ids reason w).1) = take RECORDS_KEPT
    (mkRecord JBodies Api (Some reason) at_ ms
       (match (so_api_fetch ids (wi_net w)).2 with Ok l => length l | Err _ => 0 end)
       (is_ok (so_api_fetch ids (wi_net w)).2) :: ts_records (wi_transport w)).
Proof.
  intros Hl. unfold fetch_over_api. cbn [timer_start wire_now]. unfold ask. cbn [wi_net].
  destruct (so_api_fetch ids (wi_net w)) as [p r]. split; [done|]. eexists. cbn [fst snd].
  edestruct finish_and_record_spec as (ms & ->); [|by exists ms]. done.
Qed.
Lemma imap_gate_keeps w :
  wi_net (imap_gate w).1 = wi_net w ∧ ts_records (wi_transport (imap_gate w).1) = ts_records (wi_transport w).
Proof.
  unfold imap_gate. destruct (String.eqb _ _); [done|]. destruct (String.eqb _ _); [done|]. cbn.
  unfold imap_allowed. destruct (ts_open_until _) as [u|]; [destruct (_ <? u)%Z|]; done.
Qed.
Lemma imap_error_keeps e w :
  wi_net (imap_error e w).1 = wi_net w ∧ ts_records (wi_transport (imap_error e w).1) = ts_records (wi_transport w).
Proof. by destruct e. Qed.

(** Bodies come over IMAP or over the API, and the debugger's list says
    which and why. Each fetch adds one record in front. Over IMAP: the gate
    let it through, the answer is the source's own, the breaker is closed and
    no reason is given. Over the API: the answer, an error included, is the
    API's, and the reason is the gate's, or that of the IMAP failure it
    followed. *)
Theorem fetch_bodies_spec (ids : list MessageId) w :
  length (ts_records (wi_transport w)) ≤ RECORDS_KEPT →
  let '(w', r) := fetch_bodies ids w in
  ∃ rec, ts_records (wi_transport w') = take RECORDS_KEPT (rec :: ts_records (wi_transport w)) ∧
    or_job rec = JBodies ∧ or_ok rec = is_ok r ∧
    or_items rec = match r with Ok l => length l | Err _ => 0 end ∧
    match or_via rec with
    | Imap =>
        (imap_gate w).2 = Ok () ∧ r = (so_fetch ids (wi_net w)).2 ∧ is_ok r = true ∧ or_reason rec = None ∧
        ts_failures (wi_transport w') = 0%Z ∧ ts_open_until (wi_transport w') = None
    | Api =>
        (∃ why, (imap_gate w).2 = Err why ∧ or_reason rec = Some why ∧ r = (so_api_fetch ids (wi_net w)).2) ∨
        (∃ e w1, (imap_gate w).2 = Ok () ∧ (so_fetch ids (wi_net w)).2 = Err e ∧
           or_reason rec = Some (imap_error e w1).2 ∧
           r = (so_api_fetch ids (so_fetch ids (wi_net w)).1).2)
    end.
Proof.
  intros Hl. unfold fetch_bodies.
  destruct (imap_gate w) as [wg [[]|why]] eqn:Eg; pose proof (imap_gate_keeps w) as [Hn Hr];
    rewrite Eg in Hn, Hr; cbn [fst snd] in *.
  - cbn [timer_start wire_now]. unfold ask. cbn [wi_net]. rewrite Hn.
    destruct (so_fetch ids (wi_net w)) as [p [l|e]] eqn:Ef.
    + edestruct finish_and_record_spec as (ms & ->); [cbn; by rewrite Hr|].
      eexists. split; [cbn; by rewrite Hr|done].
    + set (w1 := mkWire _ _ _ _ p). pose proof (imap_error_keeps e w1) as [Hn1 Hr1].
      destruct (imap_error e w1) as [w2 reason] eqn:Ee. cbn [fst snd] in *.
      assert (ts_records (wi_transport w2) = ts_records (wi_transport w)) as Hr2 by by rewrite Hr1.
      destruct (fetch_over_api_spec ids reason w2) as [Hans (at_ & ms & Hrec)]; [by rewrite Hr2|].
      destruct (fetch_over_api ids reason w2) as [w3 r]. cbn [fst snd] in *. subst r.
      rewrite Hrec, Hr2, Hn1. eexists. split; [done|]. split_and!; [done..|]. right.
      exists e, w1. by rewrite Ee.
  - destruct (fetch_over_api_spec ids why wg) as [Hans (at_ & ms & Hrec)]; [by rewrite Hr|].
    destruct (fetch_over_api ids why wg) as [w3 r]. cbn [fst snd] in *. subst r.
    rewrite Hrec, Hr, Hn. eexists. split; [done|]. split_and!; [done..|]. left. by exists why.
Qed.
End wire_properties.

(** A source that refuses, and an API that answers nothing. *)
Definition refusing : Sources () := {|
  so_name _ := "imap";
  so_fetch _ p := (p, Err (Network "connection reset"));
  so_fetch_headers _ p := (p, Ok None);
  so_list _ p := (p, Ok None);
  so_api_fetch _ p := (p, Ok []) |}.
Definition refusing_wire : Wire () := mkWire transport_default (λ n, Z.of_nat n) (λ n, Z.of_nat n) 0 ().
Lemma fetch_bodies_spec_witness :
  length (ts_records (wi_transport refusing_wire)) ≤ RECORDS_KEPT ∧
  ∃ rec, ts_records (wi_transport (fetch_bodies (H := refusing) ["m1"] refusing_wire).1) = [rec] ∧ or_via rec = Api.
Proof.
  assert (length (ts_records (wi_transport refusing_wire)) ≤ RECORDS_KEPT) as Hl by (cbn; lia).
  split; [exact Hl|].
  pose proof (fetch_bodies_spec (H := refusing) ["m1"] refusing_wire Hl) as Hspec.
  destruct (fetch_bodies (H := refusing) ["m1"] refusing_wire) as [w' r].
  destruct Hspec as (rec & Hrec & Hj & Hok & Hn & Hvia). exists rec. split; [exact Hrec|].
  destruct (or_via rec); [|reflexivity].
  destruct Hvia as (_ & -> & Hr & _). discriminate Hr.
Defined.
