(* ===== verification/RateLimit.v ===== *)
(** * RateLimit: the token bucket over a provider's quota
    ([provider-api/src/rate_limit.rs])

    The parts of [RateLimiter] under its mutex are functions of the state
    and of the time they run at; [acquire] is the loop of one caller around
    them.  Times and durations are rational seconds and the [f64] arithmetic
    is exact; [sleep] may wake later than asked, never earlier. *)

From Stdlib Require Export QArith Qminmax Qround Lqa.
From S2P Require Import Prelude.

Open Scope Q_scope.

Definition Qltb (a b : Q) : bool := negb (Qle_bool b a).
Lemma Qltb_spec a b : reflect (a < b) (Qltb a b).
Proof.
  unfold Qltb. destruct (Qle_bool b a) eqn:E; constructor.
  - apply Qle_bool_iff in E. apply Qle_not_lt. done.
  - apply Qnot_le_lt. intros ?%Qle_bool_iff. congruence.
Qed.
Lemma Qltb_true a b : Qltb a b = true ↔ a < b.
Proof. by destruct (Qltb_spec a b). Qed.
Lemma Qltb_false a b : Qltb a b = false ↔ b <= a.
Proof. destruct (Qltb_spec a b); split; intros; try done; [by apply Qlt_not_le in q|by apply Qnot_lt_le]. Qed.
Lemma Qle_bool_spec a b : reflect (a <= b) (Qle_bool a b).
Proof. destruct (Qle_bool a b) eqn:E; constructor; rewrite <-Qle_bool_iff; congruence. Qed.

Inductive Priority := Interactive | Background.
#[export] Instance priority_eq_dec : EqDecision Priority.
Proof. solve_decision. Defined.

Definition GMAIL_UNITS_PER_MINUTE : N := 5000.
Definition DECREASE : Q := 7 # 10.
Definition FLOOR : Q := 2 # 10.
Definition INCREASE : Q := 11 # 10.
Definition RECOVERY : Q := 60.
Definition DEFAULT_COOLDOWN : Q := 5.

Record RateLimiter := mkLimiter { rl_capacity : Q; rl_nominal_refill_per_sec : Q; rl_reserve : Q }.
Record LimiterState := mkLimiterState {
  lm_tokens : Q; lm_last : Q; lm_refill_per_sec : Q; lm_cooldown_until : option Q; lm_last_adjusted : option Q }.

Definition of_u32 (n : N) : Q := inject_Z (Z.of_N n).
Definition limiter_new (units_per_minute interactive_reserve : N) (now : Q) : RateLimiter * LimiterState :=
  let capacity := of_u32 units_per_minute in
  (mkLimiter capacity (capacity / 60) (Qmin (of_u32 interactive_reserve) capacity),
   mkLimiterState capacity now (capacity / 60) None None).
Definition gmail_default (now : Q) : RateLimiter * LimiterState := limiter_new GMAIL_UNITS_PER_MINUTE 1000 now.

(** [duration_since] saturates at zero. *)
Definition since (now then_ : Q) : Q := Qmax 0 (now - then_).

Section limiter.
Variable l : RateLimiter.

Definition report_rate_limited (retry_after : option Q) (now : Q) (s : LimiterState) : LimiterState :=
  let until := now + default DEFAULT_COOLDOWN retry_after in
  let already_cooling := match lm_cooldown_until s with Some c => Qltb now c | None => false end in
  let cooldown := Some (match lm_cooldown_until s with Some c => Qmax c until | None => until end) in
  if already_cooling
  then mkLimiterState 0 now (lm_refill_per_sec s) cooldown (lm_last_adjusted s)
  else mkLimiterState 0 now (Qmax (lm_refill_per_sec s * DECREASE) (rl_nominal_refill_per_sec l * FLOOR)) cooldown
         (Some now).

Definition paused_for (now : Q) (s : LimiterState) : option Q :=
  match lm_cooldown_until s with
  | Some c => if Qle_bool (since c now) 0 then None else Some (since c now)
  | None => None
  end.
Definition units_per_minute (s : LimiterState) : Z := Qfloor (lm_refill_per_sec s * 60 + (1 # 2)).
Definition available (now : Q) (s : LimiterState) : Q :=
  Qmin (lm_tokens s + since now (lm_last s) * lm_refill_per_sec s) (rl_capacity l).

(** A clean minute since the last adjustment speeds the refill back up. *)
Definition speed_up (now : Q) (s : LimiterState) : LimiterState :=
  if Qltb (lm_refill_per_sec s) (rl_nominal_refill_per_sec l)
     && match lm_last_adjusted s with Some t => Qle_bool RECOVERY (since now t) | None => false end
  then mkLimiterState (lm_tokens s) (lm_last s)
         (Qmin (lm_refill_per_sec s * INCREASE) (rl_nominal_refill_per_sec l)) (lm_cooldown_until s) (Some now)
  else s.
Definition refill (now : Q) (s : LimiterState) : LimiterState :=
  mkLimiterState (available now s) now (lm_refill_per_sec s) (lm_cooldown_until s) (lm_last_adjusted s).

(** One turn of [acquire]: what it does under the lock. *)
Inductive Turn := Cooling (until : Q) | Granted | Short (wait : Q).
Definition charge (cost : N) : Q := Qmin (of_u32 cost) (rl_capacity l).
Definition floor_of (priority : Priority) : Q :=
  if bool_decide (priority = Background) then rl_reserve l else 0.
Definition take_tokens (cost : N) (priority : Priority) (s : LimiterState) : LimiterState * Turn :=
  if Qle_bool (floor_of priority) (lm_tokens s - charge cost)
  then (mkLimiterState (lm_tokens s - charge cost) (lm_last s) (lm_refill_per_sec s) (lm_cooldown_until s)
          (lm_last_adjusted s), Granted)
  else (s, Short ((charge cost + floor_of priority - lm_tokens s) / lm_refill_per_sec s)).
Definition end_cooldown (s : LimiterState) : LimiterState :=
  mkLimiterState (lm_tokens s) (lm_last s) (lm_refill_per_sec s) None (lm_last_adjusted s).
Definition acquire_turn (cost : N) (priority : Priority) (now : Q) (s : LimiterState) : LimiterState * Turn :=
  let go s := take_tokens cost priority (refill now (speed_up now s)) in
  match lm_cooldown_until s with
  | Some until => if Qltb now until then (s, Cooling until) else go (end_cooldown s)
  | None => go s
  end.

(** [acquire], alone: [late n] is how much later than asked a sleep wakes. *)
Fixpoint acquire (fuel : nat) (cost : N) (priority : Priority) (late : nat → Q) (now : Q) (s : LimiterState) :
    option (LimiterState * Q) :=
  match fuel with
  | O => None
  | S fuel =>
      match acquire_turn cost priority now s with
      | (s, Granted) => Some (s, now)
      | (s, Cooling until) => acquire fuel cost priority late (now + (until - now) + late fuel) s
      | (s, Short wait) => acquire fuel cost priority late (now + wait + late fuel) s
      end
  end.

(** ** Many callers: the turns in the order they take the lock *)

Inductive LimiterEvent :=
| LAcquire (cost : N) (priority : Priority) (now : Q)
| LReported (retry_after : option Q) (now : Q).
Definition event_time (e : LimiterEvent) : Q := match e with LAcquire _ _ t | LReported _ t => t end.
Definition limiter_step (e : LimiterEvent) (s : LimiterState) : LimiterState * Q :=
  match e with
  | LAcquire cost priority now =>
      match acquire_turn cost priority now s with
      | (s, Granted) => (s, charge cost)
      | (s, _) => (s, 0)
      end
  | LReported retry_after now => (report_rate_limited retry_after now s, 0)
  end.
(** The state after a log, and the units it granted. *)
Fixpoint run_limiter (log : list LimiterEvent) (s : LimiterState) : LimiterState * Q :=
  match log with
  | [] => (s, 0)
  | e :: log => let '(s, g) := limiter_step e s in let '(s, gs) := run_limiter log s in (s, g + gs)
  end.
End limiter.

(** ** What every turn keeps *)

Section limiter_properties.
Variable l : RateLimiter.
Implicit Types s : LimiterState.

(** A limiter as [limiter_new] makes them, and a state it can be in. *)
Record limiter_wf : Prop := {
  lw_capacity : 0 <= rl_capacity l;
  lw_nominal : rl_nominal_refill_per_sec l == rl_capacity l / 60;
  lw_reserve : 0 <= rl_reserve l <= rl_capacity l }.
Record limiter_ok (s : LimiterState) : Prop := {
  lo_tokens : 0 <= lm_tokens s <= rl_capacity l;
  lo_refill : rl_nominal_refill_per_sec l * FLOOR <= lm_refill_per_sec s <= rl_nominal_refill_per_sec l }.
Hypothesis Hwf : limiter_wf.

Lemma nominal_nonneg : 0 <= rl_nominal_refill_per_sec l.
Proof.
  rewrite (lw_nominal Hwf). pose proof (lw_capacity Hwf). unfold Qdiv. change (/ 60) with (1 # 60). lra.
Qed.
Lemma charge_bounds cost : 0 <= charge l cost <= rl_capacity l.
Proof.
  unfold charge. pose proof (lw_capacity Hwf). split; [|apply Q.le_min_r].
  apply Q.min_glb; [|done]. unfold of_u32. change 0 with (inject_Z 0). rewrite <-Zle_Qle. lia.
Qed.
Lemma floor_bounds priority : 0 <= floor_of l priority <= rl_capacity l.
Proof.
  unfold floor_of. pose proof (lw_capacity Hwf). pose proof (lw_reserve Hwf).
  case_bool_decide; [done|lra].
Qed.
Lemma since_le now t : t <= now → since now t == now - t.
Proof. intros. unfold since. apply Q.max_r. lra. Qed.
Lemma since_nonneg now t : 0 <= since now t.
Proof. apply Q.le_max_l. Qed.

Lemma available_bounds now s :
  limiter_ok s → lm_tokens s <= available l now s <= rl_capacity l.
Proof.
  intros [Ht Hr]. pose proof nominal_nonneg. pose proof (since_nonneg now (lm_last s)). unfold available, FLOOR in *.
  split; [|apply Q.le_min_r]. apply Q.min_glb; [|lra]. nra.
Qed.
Lemma available_le now s :
  limiter_ok s → lm_last s <= now →
  available l now s <= lm_tokens s + (now - lm_last s) * rl_nominal_refill_per_sec l.
Proof.
  intros [Ht Hr] Hle. unfold available. eapply Qle_trans; [apply Q.le_min_l|]. rewrite since_le by done. nra.
Qed.

Lemma speed_up_ok now s :
  limiter_ok s → limiter_ok (speed_up l now s) ∧ lm_tokens (speed_up l now s) = lm_tokens s ∧
  lm_last (speed_up l now s) = lm_last s ∧ lm_cooldown_until (speed_up l now s) = lm_cooldown_until s ∧
  lm_refill_per_sec s <= lm_refill_per_sec (speed_up l now s).
Proof.
  intros [Ht Hr]. unfold speed_up. pose proof nominal_nonneg. unfold FLOOR in *.
  case_match; [|split_and!; [done..|apply Qle_refl]].
  apply andb_true_iff in H0 as [Hlt%Qltb_true _].
  split_and!; [|done..|]; cbn; [|apply Q.min_glb; unfold INCREASE; lra].
  split; cbn; [done|]. split; [|apply Q.le_min_r]. apply Q.min_glb; unfold INCREASE, FLOOR; lra.
Qed.
Lemma refill_ok now s : limiter_ok s → limiter_ok (refill l now s).
Proof.
  intros Hok. destruct (available_bounds now s Hok). destruct Hok as [Ht Hr]. split; cbn; [lra|done].
Qed.
Lemma take_tokens_ok cost priority s :
  limiter_ok s → limiter_ok (take_tokens l cost priority s).1.
Proof.
  intros [Ht Hr]. unfold take_tokens. destruct (Qle_bool_spec (floor_of l priority) (lm_tokens s - charge l cost)); [|done].
  pose proof (charge_bounds cost). pose proof (floor_bounds priority). split; cbn; [lra|done].
Qed.
Lemma acquire_turn_ok cost priority now s : limiter_ok s → limiter_ok (acquire_turn l cost priority now s).1.
Proof.
  intros Hok. unfold acquire_turn.
  assert (∀ s, limiter_ok s → limiter_ok (take_tokens l cost priority (refill l now (speed_up l now s))).1) as Hgo.
  { intros. apply take_tokens_ok, refill_ok, speed_up_ok. done. }
  destruct (lm_cooldown_until s) as [u|]; [|by apply Hgo].
  destruct (Qltb now u); [done|]. apply Hgo. by destruct Hok.
Qed.
Lemma report_ok retry now s : limiter_ok s → limiter_ok (report_rate_limited l retry now s).
Proof.
  intros [Ht Hr]. pose proof nominal_nonneg. pose proof (lw_capacity Hwf). unfold report_rate_limited.
  destruct (match lm_cooldown_until s with Some c => _ | None => _ end); split; cbn; [lra|done|lra|].
  unfold FLOOR, DECREASE in *. split; [apply Q.le_max_r|]. apply Q.max_lub; lra.
Qed.
Lemma limiter_step_ok e s : limiter_ok s → limiter_ok (limiter_step l e s).1.
Proof.
  intros Hok. destruct e; cbn; [|by apply report_ok].
  pose proof (acquire_turn_ok cost priority now s Hok) as H1. by destruct (acquire_turn l cost priority now s) as [s1 []].
Qed.
Lemma run_limiter_ok log s : limiter_ok s → limiter_ok (run_limiter l log s).1.
Proof.
  revert s. induction log as [|e log IH]; intros s Hok; [done|]. cbn.
  pose proof (limiter_step_ok e s Hok). destruct (limiter_step l e s) as [s1 g]. cbn in *.
  specialize (IH s1 H). by destruct (run_limiter l log s1).
Qed.

(** *** The bucket and the clock *)

Lemma acquire_turn_spec cost priority now s :
  limiter_ok s → lm_last s <= now →
  match acquire_turn l cost priority now s with
  | (s', Cooling u) => s' = s ∧ lm_cooldown_until s = Some u ∧ now < u
  | (s', Granted) =>
      lm_last s' = now ∧ lm_cooldown_until s' = None ∧ floor_of l priority <= lm_tokens s' ∧
      lm_tokens s' + charge l cost <= rl_capacity l ∧
      lm_tokens s' + charge l cost <= lm_tokens s + (now - lm_last s) * rl_nominal_refill_per_sec l
  | (s', Short wait) =>
      lm_last s' = now ∧ lm_cooldown_until s' = None ∧ lm_tokens s <= lm_tokens s' ∧
      lm_tokens s' <= lm_tokens s + (now - lm_last s) * rl_nominal_refill_per_sec l ∧
      lm_tokens s' < floor_of l priority + charge l cost ∧
      wait = (charge l cost + floor_of l priority - lm_tokens s') / lm_refill_per_sec s'
  end.
Proof.
  intros Hok Hlast.
  assert (∀ s0, limiter_ok s0 → lm_tokens s0 = lm_tokens s → lm_last s0 = lm_last s → lm_cooldown_until s0 = None →
    match take_tokens l cost priority (refill l now (speed_up l now s0)) with
    | (s', Cooling u) => False
    | (s', Granted) =>
        lm_last s' = now ∧ lm_cooldown_until s' = None ∧ floor_of l priority <= lm_tokens s' ∧
        lm_tokens s' + charge l cost <= rl_capacity l ∧
        lm_tokens s' + charge l cost <= lm_tokens s + (now - lm_last s) * rl_nominal_refill_per_sec l
    | (s', Short wait) =>
        lm_last s' = now ∧ lm_cooldown_until s' = None ∧ lm_tokens s <= lm_tokens s' ∧
        lm_tokens s' <= lm_tokens s + (now - lm_last s) * rl_nominal_refill_per_sec l ∧
        lm_tokens s' < floor_of l priority + charge l cost ∧
        wait = (charge l cost + floor_of l priority - lm_tokens s') / lm_refill_per_sec s'
    end) as Hgo.
  { intros s0 Hok0 Ht Hl Hc. destruct (speed_up_ok now s0 Hok0) as (Hok1 & Ht1 & Hl1 & Hc1 & _).
    destruct (available_bounds now _ Hok1) as [Hge Hcap]. rewrite Ht1, Ht in Hge.
    pose proof (available_le now _ Hok1) as Hle. rewrite Ht1, Ht, Hl1, Hl in Hle. specialize (Hle Hlast).
    unfold take_tokens. cbn [refill lm_tokens lm_last lm_cooldown_until lm_refill_per_sec lm_last_adjusted].
    destruct (Qle_bool_spec (floor_of l priority) (available l now (speed_up l now s0) - charge l cost));
      cbn [refill lm_tokens lm_last lm_cooldown_until lm_refill_per_sec]; rewrite Hc1; split_and!; try done; lra. }
  unfold acquire_turn. destruct (lm_cooldown_until s) as [u|] eqn:Ec.
  - destruct (Qltb_spec now u); [done|].
    specialize (Hgo (end_cooldown s)). destruct (take_tokens _ _ _ _) as [s' []]; apply Hgo || destruct Hgo; try done; by destruct Hok.
  - specialize (Hgo s). destruct (take_tokens _ _ _ _) as [s' []]; apply Hgo || destruct Hgo; done.
Qed.

Definition times_after (t : Q) (log : list LimiterEvent) : Prop := StronglySorted Qle (t :: (event_time <$> log)).

(** What is granted from [t0] on fits in a full bucket and the refill since. *)
Definition within_bucket (t0 : Q) (s : LimiterState) (granted : Q) : Prop :=
  granted == 0 ∨ t0 <= lm_last s ∧
  granted + lm_tokens s <= rl_capacity l + (lm_last s - t0) * rl_nominal_refill_per_sec l.

Lemma limiter_step_within t0 e s g :
  limiter_ok s → lm_last s <= event_time e → t0 <= event_time e → within_bucket t0 s g →
  lm_last (limiter_step l e s).1 <= event_time e ∧
  within_bucket t0 (limiter_step l e s).1 (g + (limiter_step l e s).2).
Proof.
  intros Hok Hlast Ht0 Hg. pose proof nominal_nonneg as Hn. destruct Hok as [Ht Hr] eqn:Eok. clear Eok.
  destruct e as [cost priority now|retry now]; cbn [limiter_step event_time] in *.
  - pose proof (acquire_turn_spec cost priority now s Hok Hlast) as Hs.
    destruct (acquire_turn l cost priority now s) as [s' [u| |wait]]; cbn [fst snd]; unfold within_bucket in *.
    + destruct Hs as [-> _]. split; [done|]. destruct Hg as [Hg|Hg]; [left|right]; lra.
    + destruct Hs as (-> & _ & _ & Hcap & Hle). split; [lra|]. right. split; [done|].
      destruct Hg as [Hg|[Hg0 Hg]]; [|lra]. assert (0 <= (now - t0) * rl_nominal_refill_per_sec l) by nra. lra.
    + destruct Hs as (-> & _ & _ & Hle & _). split; [lra|]. destruct Hg as [Hg|[Hg0 Hg]]; [left; lra|right].
      split; [done|]. lra.
  - unfold report_rate_limited, within_bucket in *.
    destruct (match lm_cooldown_until s with Some c => _ | None => _ end); cbn [fst snd lm_last lm_tokens];
      (split; [lra|]; destruct Hg as [Hg|[Hg0 Hg]]; [left; lra|right; split; [done|]];
       assert (lm_last s * rl_nominal_refill_per_sec l <= now * rl_nominal_refill_per_sec l) by nra; lra).
Qed.
Lemma limiter_step_last e s : limiter_ok s → lm_last s <= event_time e → lm_last (limiter_step l e s).1 <= event_time e.
Proof.
  intros Hok Hle. apply (limiter_step_within (event_time e) e s 0 Hok Hle); [lra|left; lra].
Qed.
Lemma times_after_later t t' log : t' <= t → times_after t log → times_after t' log.
Proof.
  intros Hle Hs. inversion_clear Hs as [|? ? Hss Hff]. constructor; [done|].
  eapply Forall_impl; [exact Hff|]. intros u Hu. cbn in Hu. lra.
Qed.
Lemma run_limiter_times log rest s :
  limiter_ok s → times_after (lm_last s) (log ++ rest) → times_after (lm_last (run_limiter l log s).1) rest.
Proof.
  revert s. induction log as [|e log IH]; intros s Hok Hs; [done|]. cbn.
  inversion_clear Hs as [|? ? Hs' Hf]. cbn in Hf. apply Forall_cons in Hf as [Hle _].
  pose proof (limiter_step_last e s Hok Hle) as Hl. pose proof (limiter_step_ok e s Hok) as Hok1.
  destruct (limiter_step l e s) as [s1 g]. cbn [fst] in *. specialize (IH s1 Hok1).
  destruct (run_limiter l log s1). apply IH. eapply times_after_later; [exact Hl|exact Hs'].
Qed.
Lemma run_limiter_within t0 log s g :
  limiter_ok s → times_after (lm_last s) log → Forall (λ e, t0 <= event_time e) log → within_bucket t0 s g →
  within_bucket t0 (run_limiter l log s).1 (g + (run_limiter l log s).2).
Proof.
  revert s g. induction log as [|e log IH]; intros s g Hok Hs Hall Hg; cbn.
  { destruct Hg as [Hg|Hg]; [left|right]; lra. }
  apply Forall_cons in Hall as [He Hall]. inversion_clear Hs as [|? ? Hs' Hf]. cbn in Hf.
  apply Forall_cons in Hf as [Hle _]. cbn in Hs'.
  destruct (limiter_step_within t0 e s g Hok Hle He Hg) as [Hl Hg'].
  pose proof (limiter_step_ok e s Hok) as Hok1. destruct (limiter_step l e s) as [s1 g1]. cbn [fst snd] in *.
  specialize (IH s1 (g + g1) Hok1). destruct (run_limiter l log s1) as [s2 gs]. cbn [fst snd] in *.
  destruct IH as [IH|IH]; [|done|done|left|right]; [|lra|lra].
  by eapply times_after_later.
Qed.
Lemma run_limiter_last t1 log s :
  limiter_ok s → times_after (lm_last s) log → Forall (λ e, event_time e <= t1) log → lm_last s <= t1 →
  lm_last (run_limiter l log s).1 <= t1.
Proof.
  intros Hok Hs Hall Hl. assert (times_after (lm_last s) (log ++ [LReported None t1])) as Hs1.
  { unfold times_after in *. rewrite fmap_app, app_comm_cons. apply StronglySorted_app_2; [|done|repeat constructor].
    intros x y Hx ->%list_elem_of_singleton. apply elem_of_cons in Hx as [->|(e & -> & He)%list_elem_of_fmap]; [done|].
    rewrite Forall_forall in Hall. by apply Hall. }
  apply run_limiter_times in Hs1; [|done]. inversion_clear Hs1 as [|? ? _ Hf]. by apply Forall_cons in Hf as [? _].
Qed.
End limiter_properties.

Lemma limiter_new_ok units reserve now :
  limiter_wf (limiter_new units reserve now).1 ∧
  limiter_ok (limiter_new units reserve now).1 (limiter_new units reserve now).2.
Proof.
  assert (∀ n, 0 <= of_u32 n) as Hn.
  { intros. unfold of_u32. change 0 with (inject_Z 0). rewrite <-Zle_Qle. lia. }
  pose proof (Hn units). pose proof (Hn reserve).
  split; split; cbn; try done; unfold FLOOR, Qdiv; change (/ 60) with (1 # 60); try (split; lra); try lra.
  split; [by apply Q.min_glb|apply Q.le_min_r].
Qed.


(** The quota: whatever callers ask for, at whatever priority, and
    whatever the provider refuses, the units granted between two times are
    at most a full bucket and the nominal refill of the time between. *)
Theorem quota_bound units reserve now0 before window t0 t1 :
  let '(l, s0) := limiter_new units reserve now0 in
  times_after now0 (before ++ window) → t0 <= t1 → now0 <= t1 →
  Forall (λ e, t0 <= event_time e <= t1) window →
  (run_limiter l window (run_limiter l before s0).1).2 <= of_u32 units * (1 + (t1 - t0) / 60).
Proof.
  destruct (limiter_new units reserve now0) as [l s0] eqn:E. intros Hs H01 Hn Hw.
  pose proof (limiter_new_ok units reserve now0) as [Hwf Hok]. rewrite E in Hwf, Hok. cbn [fst snd] in *.
  injection E as El Es. assert (lm_last s0 = now0) as Hl0 by by subst.
  assert (rl_capacity l = of_u32 units) as Hc by by subst.
  pose proof (run_limiter_ok l Hwf before s0 Hok) as Hok1.
  pose proof (run_limiter_times l Hwf before window s0 Hok) as Hs1. rewrite Hl0 in Hs1. specialize (Hs1 Hs).
  destruct (run_limiter l before s0) as [s1 g1]. cbn [fst] in *.
  assert (0 <= of_u32 units) as Hu by (rewrite <-Hc; apply (lw_capacity _ Hwf)).
  assert (of_u32 units * (1 + (t1 - t0) / 60) == rl_capacity l + (t1 - t0) * rl_nominal_refill_per_sec l) as ->.
  { rewrite (lw_nominal _ Hwf), Hc. unfold Qdiv. change (/ 60) with (1 # 60). ring. }
  pose proof (nominal_nonneg l Hwf). pose proof (lw_capacity _ Hwf).
  assert (lm_last s1 <= t1 ∨ window = []) as [Hl1| ->].
  { destruct window as [|e window]; [by right|left]. apply Forall_cons in Hw as [He _].
    inversion_clear Hs1 as [|? ? _ Hf]. apply Forall_cons in Hf as [Hle _]. lra. }
  - assert (Forall (λ e, t0 <= event_time e) window ∧ Forall (λ e, event_time e <= t1) window) as [Hw0 Hw1].
    { by apply Forall_and. }
    pose proof (run_limiter_last l Hwf t1 window s1 Hok1 Hs1 Hw1 Hl1) as Hlast.
    pose proof (run_limiter_within l Hwf t0 window s1 0 Hok1 Hs1 Hw0 (or_introl (Qeq_refl 0))) as Hwin.
    pose proof (run_limiter_ok l Hwf window s1 Hok1) as [Ht _].
    destruct (run_limiter l window s1) as [s2 g]. cbn [fst snd] in *.
    destruct Hwin as [Hg|[_ Hg]]; nra.
  - cbn. nra.
Qed.
Definition gmail_burst : list LimiterEvent :=
  replicate 8 (LAcquire 500 Background 0) ++ replicate 2 (LAcquire 500 Interactive 0) ++
  replicate 9 (LAcquire 500 Interactive 59).
Lemma quota_bound_witness :
  times_after 0 ([] ++ gmail_burst) ∧
  (run_limiter (gmail_default 0).1 gmail_burst (gmail_default 0).2).2 <= of_u32 5000 * (1 + (59 - 0) / 60).
Proof.
  assert (times_after 0 ([] ++ gmail_burst)) as Hs.
  { unfold times_after. cbn. repeat constructor; lra. }
  split; [exact Hs|]. apply (quota_bound 5000 1000 0 [] gmail_burst 0 59 Hs); [lra|lra|].
  unfold gmail_burst. repeat constructor; cbn; lra.
Defined.
(** ... and that much is granted: a minute that starts with a full bucket
    can see 9,500 of Gmail's units go, over the 6,000 Gmail allows. *)
Example gmail_burst_ex : (run_limiter (gmail_default 0).1 gmail_burst (gmail_default 0).2).2 == 9500.
Proof. vm_compute. reflexivity. Qed.

Section limiter_promises.
Variable l : RateLimiter.
Hypothesis Hwf : limiter_wf l.

Lemma cooldown_kept u e s :
  (match lm_cooldown_until s with Some c => u <= c | None => False end) → event_time e < u →
  (match lm_cooldown_until (limiter_step l e s).1 with Some c => u <= c | None => False end) ∧
  (limiter_step l e s).2 = 0.
Proof.
  destruct (lm_cooldown_until s) as [c|] eqn:Ec; [|done]. intros Hc Ht. destruct e as [cost priority now|retry now]; cbn in *.
  - unfold acquire_turn. rewrite Ec. destruct (Qltb_spec now c); [|lra]. cbn. by rewrite Ec.
  - unfold report_rate_limited. rewrite Ec. pose proof (Q.le_max_l c (now + default DEFAULT_COOLDOWN retry)).
    destruct (Qltb now c); cbn; (split; [lra|done]).
Qed.
Lemma cooldown_run u log s :
  (match lm_cooldown_until s with Some c => u <= c | None => False end) → Forall (λ e, event_time e < u) log →
  (match lm_cooldown_until (run_limiter l log s).1 with Some c => u <= c | None => False end) ∧
  (run_limiter l log s).2 == 0.
Proof.
  revert s. induction log as [|e log IH]; intros s Hc Hall; [done|].
  apply Forall_cons in Hall as [He Hall]. destruct (cooldown_kept u e s Hc He) as [Hc1 Hg]. cbn.
  destruct (limiter_step l e s) as [s1 g]. cbn [fst snd] in *. destruct (IH s1 Hc1 Hall) as [Hc2 Hgs].
  destruct (run_limiter l log s1) as [s2 gs]. cbn [fst snd] in *. split; [done|]. subst. lra.
Qed.
End limiter_promises.

(** The provider has the last word: after it refused a request, nothing
    is granted to anyone before the pause it asked for is over (five seconds
    when it named none), whoever asks, whatever else is refused meanwhile;
    every caller is told to wait at least that long. *)
Theorem pause_respected l retry now log s :
  let resume := now + default DEFAULT_COOLDOWN retry in
  Forall (λ e, event_time e < resume) log →
  let '(s', granted) := run_limiter l (LReported retry now :: log) s in
  granted == 0 ∧
  ∀ cost priority t, t < resume →
    match acquire_turn l cost priority t s' with (_, Cooling u) => resume <= u | _ => False end.
Proof.
  intros resume Hall. cbn [run_limiter limiter_step].
  assert (match lm_cooldown_until (report_rate_limited l retry now s) with Some c => resume <= c | None => False end) as Hc.
  { unfold report_rate_limited. destruct (lm_cooldown_until s) as [c|]; [destruct (Qltb now c)|]; cbn;
      apply Q.le_max_r || apply Qle_refl. }
  destruct (cooldown_run l resume log _ Hc Hall) as [Hc' Hg].
  destruct (run_limiter l log _) as [s' g]. cbn [fst snd] in *. split; [lra|]. intros cost priority t Ht.
  unfold acquire_turn. destruct (lm_cooldown_until s') as [c|]; [|done].
  destruct (Qltb_spec t c); [done|lra].
Qed.
Lemma pause_respected_witness :
  let '(l, s) := gmail_default 0 in
  (run_limiter l [LReported (Some 30) 1; LAcquire 1 Interactive 30] s).2 == 0.
Proof.
  pose proof (pause_respected (gmail_default 0).1 (Some 30) 1 [LAcquire 1 Interactive 30] (gmail_default 0).2) as H.
  destruct (gmail_default 0) as [l s]. cbn [fst snd] in H.
  destruct (run_limiter l _ s) as [s' g]. apply H. repeat constructor; cbn; lra.
Defined.

Section limiter_priorities.
Variable l : RateLimiter.
Hypothesis Hwf : limiter_wf l.
Implicit Types s : LimiterState.

Lemma acquire_turn_granted cost priority now s :
  limiter_ok l s → lm_cooldown_until s = None → charge l cost + floor_of l priority <= lm_tokens s →
  (acquire_turn l cost priority now s).2 = Granted.
Proof.
  intros Hok Hc Hle. unfold acquire_turn. rewrite Hc.
  destruct (speed_up_ok l Hwf now s Hok) as (Hok1 & Ht1 & _).
  destruct (available_bounds l Hwf now _ Hok1) as [Hge _]. rewrite Ht1 in Hge. unfold take_tokens. cbn.
  destruct (Qle_bool_spec (floor_of l priority) (available l now (speed_up l now s) - charge l cost)); [done|lra].
Qed.
Lemma acquire_turn_background cost now s :
  limiter_ok l s → lm_cooldown_until s = None → rl_reserve l <= lm_tokens s →
  let s' := (acquire_turn l cost Background now s).1 in
  lm_cooldown_until s' = None ∧ rl_reserve l <= lm_tokens s'.
Proof.
  intros Hok Hc Hle. unfold acquire_turn. rewrite Hc.
  destruct (speed_up_ok l Hwf now s Hok) as (Hok1 & Ht1 & _ & Hc1 & _).
  destruct (available_bounds l Hwf now _ Hok1) as [Hge _]. rewrite Ht1 in Hge. unfold take_tokens. cbn.
  change (floor_of l Background) with (rl_reserve l).
  destruct (Qle_bool_spec (rl_reserve l) (available l now (speed_up l now s) - charge l cost)); cbn; rewrite Hc1;
    (split; [done|lra]).
Qed.
Definition is_background (e : LimiterEvent) : bool :=
  match e with LAcquire _ Background _ => true | _ => false end.
Lemma run_background log s :
  limiter_ok l s → lm_cooldown_until s = None → rl_reserve l <= lm_tokens s → forallb is_background log = true →
  lm_cooldown_until (run_limiter l log s).1 = None ∧ rl_reserve l <= lm_tokens (run_limiter l log s).1.
Proof.
  revert s. induction log as [|e log IH]; intros s Hok Hc Hle Hb; [done|]. cbn in *.
  apply andb_true_iff in Hb as [He Hb]. destruct e as [cost [] now|]; [done| |done].
  destruct (acquire_turn_background cost now s Hok Hc Hle) as [Hc1 Hle1].
  pose proof (acquire_turn_ok l Hwf cost Background now s Hok) as Hok1. cbn.
  destruct (acquire_turn l cost Background now s) as [s1 []]; cbn [fst] in *;
    specialize (IH s1 Hok1 Hc1 Hle1 Hb); by destruct (run_limiter l log s1).
Qed.

Lemma Qdiv_nonneg a b : 0 <= a → 0 <= b → 0 <= a / b.
Proof. intros. apply Qmult_le_0_compat; [done|by apply Qinv_le_0_compat]. Qed.

Lemma turn_past cost priority now u l' s :
  lm_cooldown_until s = Some u → (∀ c, (acquire_turn l' cost priority now s).2 ≠ Cooling c) → u <= now.
Proof.
  intros Hc Hn. unfold acquire_turn in Hn. rewrite Hc in Hn. destruct (Qltb_spec now u) as [|Hge]; [by destruct (Hn u)|].
  by apply Qnot_lt_le.
Qed.

(** After a wait for the missing units they are there. *)
Lemma short_then_granted cost priority now s s1 wait t :
  limiter_ok l s → lm_last s <= now → charge l cost + floor_of l priority <= rl_capacity l →
  acquire_turn l cost priority now s = (s1, Short wait) →
  0 <= wait ∧ (now + wait <= t → (acquire_turn l cost priority t s1).2 = Granted).
Proof.
  intros Hok Hlast Hfit E. pose proof (acquire_turn_spec l Hwf cost priority now s Hok Hlast) as Hs.
  pose proof (acquire_turn_ok l Hwf cost priority now s Hok) as Hok1. rewrite E in Hs, Hok1. cbn [fst] in Hok1.
  destruct Hs as (Hl1 & Hc1 & _ & _ & Hlt & ->). clear E.
  assert (0 < lm_refill_per_sec s1) as Hpos.
  { destruct Hok1 as [Ht Hr]. pose proof (charge_bounds l Hwf cost) as Hcb. pose proof (floor_bounds l Hwf priority) as Hfb.
    pose proof (lw_nominal l Hwf) as Hn. unfold FLOOR, Qdiv in *. change (/ 60) with (1 # 60) in *. nra. }
  split; [apply Qdiv_nonneg; lra|]. intros Ht.
  destruct (speed_up_ok l Hwf t s1 Hok1) as (Hok2 & Ht2 & Hl2 & _ & Hr2).
  unfold acquire_turn. rewrite Hc1. unfold take_tokens. cbn.
  set (deficit := charge l cost + floor_of l priority - lm_tokens s1) in *.
  assert (deficit <= (t - now) * lm_refill_per_sec s1) as Hd.
  { rewrite <-(Qmult_div_r deficit (lm_refill_per_sec s1)) by lra. rewrite Qmult_comm.
    apply Qmult_le_compat_r; lra. }
  assert (charge l cost + floor_of l priority <= available l t (speed_up l t s1)) as Hav.
  { unfold available. apply Q.min_glb; [|done]. rewrite Ht2, Hl2, Hl1.
    assert (t - now <= since t now) by apply Q.le_max_r. pose proof (since_nonneg t now).
    unfold deficit in *. nra. }
  destruct (Qle_bool_spec (floor_of l priority) (available l t (speed_up l t s1) - charge l cost)); [done|lra].
Qed.
Lemma granted_acquire fuel cost priority late now s :
  limiter_ok l s → lm_last s <= now → (acquire_turn l cost priority now s).2 = Granted →
  ∃ s', acquire l (S fuel) cost priority late now s = Some (s', now) ∧ limiter_ok l s' ∧
    floor_of l priority <= lm_tokens s'.
Proof.
  intros Hok Hlast E. cbn [acquire]. pose proof (acquire_turn_spec l Hwf cost priority now s Hok Hlast) as Hs.
  pose proof (acquire_turn_ok l Hwf cost priority now s Hok) as Hok1.
  destruct (acquire_turn l cost priority now s) as [s1 turn]. cbn [fst snd] in *. subst.
  exists s1. split_and!; [done..|apply Hs].
Qed.
(** Past the pause, two turns are enough. *)
Lemma acquire_two fuel cost priority late now s :
  limiter_ok l s → lm_last s <= now → (∀ n, 0 <= late n) → charge l cost + floor_of l priority <= rl_capacity l →
  (∀ u, lm_cooldown_until s = Some u → u <= now) →
  ∃ s' t, acquire l (S (S fuel)) cost priority late now s = Some (s', t) ∧ now <= t ∧ limiter_ok l s' ∧
    floor_of l priority <= lm_tokens s'.
Proof.
  intros Hok Hlast Hlate Hfit Hpast. pose proof (acquire_turn_spec l Hwf cost priority now s Hok Hlast) as Hs.
  pose proof (acquire_turn_ok l Hwf cost priority now s Hok) as Hok1.
  destruct (acquire_turn l cost priority now s) as [s1 [u| |wait]] eqn:E.
  - destruct Hs as (_ & Hc & Hu). specialize (Hpast u Hc). lra.
  - destruct (granted_acquire (S fuel) cost priority late now s) as (s' & Ea & Hs'); [done|done|by rewrite E|].
    exists s', now. split_and!; [done|lra|apply Hs'..].
  - destruct (short_then_granted cost priority now s s1 wait (now + wait + late (S fuel)) Hok Hlast Hfit E) as [Hw Hgr].
    pose proof (Hlate (S fuel)). destruct Hs as (Hl1 & _). cbn [fst] in Hok1.
    destruct (granted_acquire fuel cost priority late (now + wait + late (S fuel)) s1) as (s' & Ea & Hs');
      [done|rewrite Hl1; lra|apply Hgr; lra|].
    exists s', (now + wait + late (S fuel)). split_and!; [|lra|apply Hs'..]. rewrite <-Ea. cbn [acquire]. by rewrite E.
Qed.
End limiter_priorities.

(** What the user asked for never waits behind a sync: from any state in
    which background work was just granted its units, however much more of
    it follows, an interactive request that fits in the reserve is granted
    at once, without sleeping. *)
Theorem background_leaves_reserve units reserve now0 before cost now more icost t :
  let '(l, s0) := limiter_new units reserve now0 in
  let '(s, turn) := acquire_turn l cost Background now (run_limiter l before s0).1 in
  times_after now0 (before ++ [LAcquire cost Background now]) →
  turn = Granted → forallb is_background more = true → of_u32 icost <= rl_reserve l →
  (acquire_turn l icost Interactive t (run_limiter l more s).1).2 = Granted.
Proof.
  destruct (limiter_new units reserve now0) as [l s0] eqn:E.
  pose proof (limiter_new_ok units reserve now0) as [Hwf Hok]. rewrite E in Hwf, Hok. cbn [fst snd] in *.
  assert (lm_last s0 = now0) as Hl0 by by injection E as _ <-.
  pose proof (run_limiter_ok l Hwf before s0 Hok) as Hok1.
  pose proof (run_limiter_times l Hwf before [LAcquire cost Background now] s0 Hok) as Hs. rewrite Hl0 in Hs.
  destruct (run_limiter l before s0) as [s1 g]. cbn [fst] in *.
  pose proof (acquire_turn_spec l Hwf cost Background now s1 Hok1) as Hspec.
  pose proof (acquire_turn_ok l Hwf cost Background now s1 Hok1) as Hok2.
  destruct (acquire_turn l cost Background now s1) as [s turn]. intros Hsorted -> Hmore Hi. cbn [fst] in *.
  specialize (Hs Hsorted). inversion_clear Hs as [|? ? _ Hf]. apply Forall_cons in Hf as [Hle _].
  destruct (Hspec Hle) as (_ & Hc & Hfl & _).
  destruct (run_background l Hwf more s Hok2 Hc Hfl Hmore) as [Hc3 Hr].
  apply acquire_turn_granted; [done|by apply run_limiter_ok|done|].
  assert (charge l icost <= of_u32 icost) by apply Q.le_min_l. change (floor_of l Interactive) with 0. lra.
Qed.
Lemma background_leaves_reserve_witness :
  let '(l, s0) := limiter_new 600 200 0 in
  (acquire_turn l 20 Interactive 1
     (run_limiter l (replicate 29 (LAcquire 20 Background 1)) (acquire_turn l 20 Background 1 s0).1).1).2 = Granted.
Proof.
  pose proof (background_leaves_reserve 600 200 0 [] 20 1 (replicate 29 (LAcquire 20 Background 1)) 20 1) as H.
  destruct (limiter_new 600 200 0) as [l s0] eqn:E. cbn [run_limiter fst] in H.
  assert ((acquire_turn l 20 Background 1 s0).2 = Granted) as Eg
    by (injection E as <- <-; vm_compute; reflexivity).
  destruct (acquire_turn l 20 Background 1 s0) as [s turn]. cbn [fst snd] in *.
  apply H; [|exact Eg|reflexivity|].
  - repeat constructor; cbn; lra.
  - injection E as <- _. apply Qle_bool_iff. vm_compute. reflexivity.
Defined.

(** A request waits a bounded number of sleeps: alone, [acquire] is
    granted in its third turn at the latest (the pause of the provider, the
    missing units, the request), whenever its sleeps wake; it is granted
    whenever it and the reserve fit in the bucket.  Background work for
    which they do not fit is never granted. *)
Theorem acquire_ends l s cost priority late now :
  limiter_wf l → limiter_ok l s → lm_last s <= now → (∀ n, 0 <= late n) →
  if Qle_bool (charge l cost + floor_of l priority) (rl_capacity l)
  then ∃ s' t, acquire l 3 cost priority late now s = Some (s', t) ∧ now <= t ∧ limiter_ok l s' ∧
         floor_of l priority <= lm_tokens s'
  else ∀ fuel, acquire l fuel cost priority late now s = None.
Proof.
  intros Hwf Hok Hlast Hlate. destruct (Qle_bool_spec (charge l cost + floor_of l priority) (rl_capacity l)) as [Hfit|Hfit].
  - pose proof (acquire_turn_spec l Hwf cost priority now s Hok Hlast) as Hs.
    destruct (acquire_turn l cost priority now s) as [s1 [u| |wait]] eqn:E.
    + destruct Hs as (-> & Hc & Hu). pose proof (Hlate 2%nat).
      destruct (acquire_two l Hwf 0 cost priority late (now + (u - now) + late 2%nat) s) as (s' & t & Ea & Ht & Hs');
        [done|lra|done|done|intros u0 Hu0; rewrite Hc in Hu0; assert (u = u0) as -> by congruence; lra|].
      exists s', t. split_and!; [|lra|apply Hs'..]. rewrite <-Ea. cbn [acquire]. by rewrite E.
    + apply acquire_two; try done. intros u Hu. by apply (turn_past cost priority now u l s); rewrite ?E.
    + apply acquire_two; try done. intros u Hu. by apply (turn_past cost priority now u l s); rewrite ?E.
  - intros fuel. revert now s Hok Hlast. induction fuel as [|fuel IH]; intros now s Hok Hlast; [done|]. cbn [acquire].
    pose proof (acquire_turn_spec l Hwf cost priority now s Hok Hlast) as Hs.
    pose proof (acquire_turn_ok l Hwf cost priority now s Hok) as Hok1.
    destruct (acquire_turn l cost priority now s) as [s1 [u| |wait]]; cbn [fst] in *.
    + destruct Hs as (-> & _ & Hu). apply IH; [done|]. pose proof (Hlate fuel). lra.
    + destruct Hs as (_ & _ & Hfl & Hcap & _). lra.
    + destruct Hs as (Hl1 & _ & _ & _ & Hlt & ->). apply IH; [done|]. pose proof (Hlate fuel). rewrite Hl1.
      destruct Hok1 as [Ht Hr]. pose proof (nominal_nonneg l Hwf). unfold FLOOR in *.
      assert (0 <= (charge l cost + floor_of l priority - lm_tokens s1) / lm_refill_per_sec s1) by (apply Qdiv_nonneg; lra).
      lra.
Qed.
Lemma acquire_ends_witness :
  let '(l, s) := gmail_default 0 in
  limiter_wf l ∧ limiter_ok l s ∧ ∃ s' t, acquire l 3 100 Background (λ _, 1 # 1000) 0 s = Some (s', t).
Proof.
  pose proof (limiter_new_ok 5000 1000 0) as [Hwf Hok].
  pose proof (acquire_ends (gmail_default 0).1 (gmail_default 0).2 100 Background (λ _, 1 # 1000) 0 Hwf Hok) as H.
  split; [exact Hwf|split; [exact Hok|]]. destruct H as (s' & t & H & _).
  - apply Qle_refl.
  - intros n. apply Qle_bool_iff. reflexivity.
  - exists s', t. exact H.
Defined.
