(* ===== verification/Http.v ===== *)
(** * Http: requests with tokens, quota and retries
    ([provider-api/src/http.rs])

    [execute] is the loop around one request: take quota, get a token, send,
    read the answer, and refresh, pause or sleep before the next try.  The
    network, the token source, the limiter ([RateLimit]) and the random
    number are a class; what the loop does with them is logged.  The reading
    of JSON is a parameter. *)

From S2P Require Import Prelude.
From S2P Require Import Domain.
From S2P Require Import Text.
From S2P Require Import Json.
From S2P Require Import MailStore.
From S2P Require Import Provider.
From S2P Require Import RateLimit.

Close Scope Q_scope.

(** ** Durations, in milliseconds; a random share of one is rational seconds *)

Definition DURATION_MAX : Millis := ((2 ^ 64 - 1) * 1000 + 999)%Z.
Definition secs (d : Millis) : Q := Qmake d 1000.

Record RetryPolicy := mkRetry { rp_max_attempts : Z; rp_base_delay : Millis; rp_max_delay : Millis }.
Definition retry_default : RetryPolicy := mkRetry 5 500 60000.
Definition backoff (p : RetryPolicy) (attempt : Z) (retry_after : option Millis) (random : Q) : Q :=
  match retry_after with
  | Some after => secs (Z.min after (rp_max_delay p))
  | None =>
      let exp := Z.min (rp_base_delay p * Z.shiftl 1 (Z.min attempt 16)) DURATION_MAX in
      let capped := Z.min exp (rp_max_delay p) in
      (secs capped * random)%Q
  end.

(** ** Reading an error response *)

(** A response that is not yet known to be a success. [rs_retry_after]: the
    header as text; [rs_body]: empty when it could not be read. *)
Record Response := mkResponse { rs_status : Z; rs_retry_after : option string; rs_body : string }.
Definition is_success (r : Response) : bool := ((200 <=? rs_status r) && (rs_status r <? 300))%Z.
Definition ErrorHook : Type := Z → string → option ProviderError.

(** ** What a request needs, and its log *)

Class HttpNet (X : Type) := {
  hn_acquire : N → Priority → X → X;
  hn_access_token : Action X ProviderError string;
  hn_invalidate : string → X → X;
  hn_send : string → Action X string Response;
  hn_report_rate_limited : option Millis → X → X;
  hn_random : X → X * Q;
  hn_sleep : Q → X → X }.

Inductive HttpEvent :=
| EAcquired (cost : N) (priority : Priority)
| ESent (token : string) (outcome : result string Response)
| EInvalidated (token : string)
| EReported (retry_after : option Millis)
| ESlept (delay : Q).

Record HttpClient (X : Type) := mkClient { hc_retry : RetryPolicy; hc_hook : option ErrorHook; hc_net : X; hc_log : list HttpEvent }.
Arguments mkClient {X} _ _ _ _.
Arguments hc_retry {X} _.
Arguments hc_hook {X} _.
Arguments hc_net {X} _.
Arguments hc_log {X} _.

Section http.
Variable parse_json : string → option Json.

Definition google_error (body : string) : string * list string :=
  match parse_json body with
  | None => (take_chars 200 body, [])
  | Some v =>
      let err := json_get "error" v in
      let message := default "" (as_str (json_get "message" err)) in
      let reasons := omap (λ e, as_str (json_get "reason" e)) (default [] (as_array (json_get "errors" err))) in
      (message, reasons ++ option_list (as_str (json_get "code" err)))
  end.
Definition rate_limit_reason (r : string) : bool := contains "RateLimitExceeded" r || String.eqb r "rateLimitExceeded".
Definition classify (hook : option ErrorHook) (r : Response) : ProviderError :=
  let status := rs_status r in
  let retry_after := (λ n, n * 1000)%Z <$> (rs_retry_after r ≫= λ v, parse_u64 (trim v)) in
  match (if (status =? 429)%Z then None else hook ≫= λ h, h status (rs_body r)) with
  | Some e => e
  | None =>
      let '(message, reasons) := google_error (rs_body r) in
      if (status =? 429)%Z then RateLimited retry_after
      else if (status =? 403)%Z && existsb rate_limit_reason reasons
      then RateLimited (Some (default 60000%Z retry_after))
      else if (status =? 403)%Z then Forbidden message
      else if (status =? 404)%Z then NotFound message
      else if (status =? 410)%Z && existsb (String.eqb "cursor_expired") reasons then CursorExpired
      else if (500 <=? status)%Z then Server status message
      else InvalidResponse ("HTTP " +:+ pretty status +:+ ": " +:+ message)
  end.

(** ** The request loop *)

Context {X : Type} `{HttpNet X}.

Definition step_net (x : X) (e : HttpEvent) (c : HttpClient X) : HttpClient X :=
  mkClient (hc_retry c) (hc_hook c) x (hc_log c ++ [e]).
Definition with_net (x : X) (c : HttpClient X) : HttpClient X := mkClient (hc_retry c) (hc_hook c) x (hc_log c).
Definition with_error_hook (hook : ErrorHook) (c : HttpClient X) : HttpClient X :=
  mkClient (hc_retry c) (Some hook) (hc_net c) (hc_log c).
Definition with_retry (retry : RetryPolicy) (c : HttpClient X) : HttpClient X :=
  mkClient retry (hc_hook c) (hc_net c) (hc_log c).

(** The pause before the next try, by the error. *)
Definition pause_for (error : ProviderError) (attempt : Z) (c : HttpClient X) : HttpClient X :=
  match error with
  | RateLimited retry_after => step_net (hn_report_rate_limited retry_after (hc_net c)) (EReported retry_after) c
  | _ =>
      let '(x, random) := hn_random (hc_net c) in
      let delay := backoff (hc_retry c) (attempt - 1) None random in
      step_net (hn_sleep delay x) (ESlept delay) c
  end.
Definition after_error (error : ProviderError) (attempt : Z) (refreshed : bool) (c : HttpClient X) :
    HttpClient X * (Z * bool + ProviderResult Response) :=
  if negb (is_transient error) || (rp_max_attempts (hc_retry c) <=? attempt + 1)%Z
  then (c, inr (Err error))
  else (pause_for error (attempt + 1) c, inl ((attempt + 1)%Z, refreshed)).
(** A turn of the loop: the result, or the next turn's [attempt] and
    [refreshed]. *)
Definition execute_turn (cost : N) (priority : Priority) (attempt : Z) (refreshed : bool) (c : HttpClient X) :
    HttpClient X * (Z * bool + ProviderResult Response) :=
  let c := step_net (hn_acquire cost priority (hc_net c)) (EAcquired cost priority) c in
  match hn_access_token (hc_net c) with
  | (x, Err e) => (with_net x c, inr (Err e))
  | (x, Ok token) =>
      let '(x, outcome) := hn_send token x in
      let c := step_net x (ESent token outcome) c in
      match outcome with
      | Err e => after_error (Network e) attempt refreshed c
      | Ok response =>
          if is_success response then (c, inr (Ok response))
          else if (rs_status response =? 401)%Z then
            if refreshed then (c, inr (Err Unauthorized))
            else (step_net (hn_invalidate token (hc_net c)) (EInvalidated token) c, inl (attempt, true))
          else after_error (classify (hc_hook c) response) attempt refreshed c
      end
  end.
Fixpoint execute_loop (fuel : nat) (cost : N) (priority : Priority) (attempt : Z) (refreshed : bool) (c : HttpClient X) :
    option (HttpClient X * ProviderResult Response) :=
  match fuel with
  | O => None
  | S fuel =>
      match execute_turn cost priority attempt refreshed c with
      | (c, inr r) => Some (c, r)
      | (c, inl (attempt, refreshed)) => execute_loop fuel cost priority attempt refreshed c
      end
  end.
(** Turns one request can take: the attempts, and one for the refresh. *)
Definition turns (p : RetryPolicy) : nat := S (Z.to_nat (Z.max 1 (rp_max_attempts p))).
Definition execute (cost : N) (priority : Priority) (c : HttpClient X) : option (HttpClient X * ProviderResult Response) :=
  execute_loop (turns (hc_retry c)) cost priority 0 false c.

(** [json], with the reading of the body, which may fail, as an argument;
    [empty]. *)
Definition http_json {A} (read : Response → result string A) (cost : N) (priority : Priority) (c : HttpClient X) :
    option (HttpClient X * ProviderResult A) :=
  match execute cost priority c with
  | None => None
  | Some (c, Err e) => Some (c, Err e)
  | Some (c, Ok response) => Some (c, map_err Decode (read response))
  end.
Definition http_empty (cost : N) (priority : Priority) (c : HttpClient X) : option (HttpClient X * ProviderResult ()) :=
  match execute cost priority c with
  | None => None
  | Some (c, r) => Some (c, match r with Ok _ => Ok () | Err e => Err e end)
  end.

(** ** What a request did, by its log *)

Definition sent (log : list HttpEvent) : list (result string Response) :=
  omap (λ e, match e with ESent _ o => Some o | _ => None end) log.
Definition refreshes (log : list HttpEvent) : nat :=
  length (omap (λ e, match e with EInvalidated t => Some t | _ => None end) log).
Definition slept (log : list HttpEvent) : list Q :=
  omap (λ e, match e with ESlept d => Some d | _ => None end) log.
Definition is_401 (o : result string Response) : bool :=
  match o with Ok r => negb (is_success r) && (rs_status r =? 401)%Z | Err _ => false end.
(** The error an outcome stands for, when it is neither a success nor a 401. *)
Definition outcome_error (hook : option ErrorHook) (o : result string Response) : option ProviderError :=
  match o with
  | Err e => Some (Network e)
  | Ok r => if is_success r || (rs_status r =? 401)%Z then None else Some (classify hook r)
  end.
Definition failures (hook : option ErrorHook) (log : list HttpEvent) : list ProviderError :=
  omap (outcome_error hook) (sent log).

(** ** One request, from a turn of the loop on *)

Definition retriable (hook : option ErrorHook) (o : result string Response) : Prop :=
  is_401 o = true ∨ ∃ e, outcome_error hook o = Some e ∧ is_transient e = true.
Definition attempts (p : RetryPolicy) : Z := Z.max 1 (rp_max_attempts p).

(** How a request ends: what was answered before the last answer, and the
    last one, if the token source did not fail first. *)
Definition ends_with (p : RetryPolicy) (hook : option ErrorHook) (attempt : Z) (refreshed : bool)
    (retried : list (result string Response)) (final : option (result string Response)) (r : ProviderResult Response) : Prop :=
  match final, r with
  | None, Err e => ∃ x, (hn_access_token x).2 = Err e
  | Some o, Ok response => o = Ok response ∧ is_success response = true
  | Some o, Err e =>
      is_401 o = true ∧ e = Unauthorized ∧ (refreshed = true ∨ Exists (λ o, is_401 o = true) retried) ∨
      outcome_error hook o = Some e ∧
      (is_transient e = false ∨ (attempt + Z.of_nat (length (omap (outcome_error hook) (retried ++ [o]))) = attempts p)%Z)
  | None, Ok _ => False
  end.
Definition exchange (p : RetryPolicy) (hook : option ErrorHook) (attempt : Z) (refreshed : bool)
    (evs : list HttpEvent) (r : ProviderResult Response) : Prop :=
  (Z.of_nat (length (sent evs)) ≤ attempts p - attempt + Z.b2z (negb refreshed))%Z ∧
  refreshes evs ≤ (if refreshed then 0 else 1) ∧
  Forall (λ d, 0 <= d <= secs (rp_max_delay p))%Q (slept evs) ∧
  ∃ retried final, sent evs = retried ++ option_list final ∧ Forall (retriable hook) retried ∧
    ends_with p hook attempt refreshed retried final r.

Lemma sent_app a b : sent (a ++ b) = sent a ++ sent b.
Proof. apply omap_app. Qed.
Lemma slept_app a b : slept (a ++ b) = slept a ++ slept b.
Proof. apply omap_app. Qed.
Lemma refreshes_app a b : refreshes (a ++ b) = refreshes a + refreshes b.
Proof. unfold refreshes. by rewrite omap_app, length_app. Qed.

Lemma exchange_refresh p hook attempt pre evs r o :
  sent pre = [o] → slept pre = [] → refreshes pre = 1 → is_401 o = true →
  exchange p hook attempt true evs r → exchange p hook attempt false (pre ++ evs) r.
Proof.
  intros Hs Hd Hr Ho (Hlen & Href & Hdel & retried & final & Hsent & Hret & Hend).
  unfold exchange. rewrite sent_app, slept_app, refreshes_app, Hs, Hd, Hr. split_and!; [simpl in *; lia|simpl in *; lia|done|].
  exists (o :: retried), final. rewrite Hsent. split_and!; [done|by constructor; [left|]|].
  destruct final as [o'|], r as [resp|e]; simpl in *; try done.
  assert (outcome_error hook o = None) as He.
  { destruct o as [ro|]; [|done]. simpl in *. apply andb_true_iff in Ho as [_ ->]. by rewrite orb_true_r. }
  rewrite He. destruct Hend as [(H1 & H2 & _)|Hend]; [left|by right]. split_and!; [done..|right; by left].
Qed.
Lemma exchange_retry p hook attempt refreshed pre evs r o e :
  sent pre = [o] → refreshes pre = 0 → Forall (λ d, 0 <= d <= secs (rp_max_delay p))%Q (slept pre) →
  outcome_error hook o = Some e → is_transient e = true →
  exchange p hook (attempt + 1) refreshed evs r → exchange p hook attempt refreshed (pre ++ evs) r.
Proof.
  intros Hs Hr Hd Ho He (Hlen & Href & Hdel & retried & final & Hsent & Hret & Hend).
  unfold exchange. rewrite sent_app, slept_app, refreshes_app, Hs, Hr. split_and!; [cbn [app length]; lia|done|by apply Forall_app|].
  exists (o :: retried), final. rewrite Hsent. split_and!; [done|constructor; [right; by exists e|done]|].
  destruct final as [o'|], r as [resp|e']; cbn [ends_with] in *; try done.
  assert (length (omap (outcome_error hook) ((o :: retried) ++ [o'])) =
          S (length (omap (outcome_error hook) (retried ++ [o'])))) as -> by (cbn; by rewrite Ho).
  destruct Hend as [(H1 & H2 & H3)|[H1 H2]]; [left|right].
  - split_and!; [done..|]. destruct H3; [by left|right; by constructor].
  - split; [done|]. destruct H2; [by left|right; lia].
Qed.

Class HttpLaws : Prop := { hl_random x : (0 <= (hn_random x).2 <= 1)%Q }.
Definition policy_ok (p : RetryPolicy) : Prop := (0 ≤ rp_base_delay p)%Z ∧ (0 ≤ rp_max_delay p)%Z.

Lemma backoff_bounds p attempt random :
  policy_ok p → (0 <= random <= 1)%Q → (0 <= backoff p attempt None random <= secs (rp_max_delay p))%Q.
Proof.
  intros [Hb Hm] Hr. unfold backoff.
  set (capped := Z.min (Z.min (rp_base_delay p * Z.shiftl 1 (Z.min attempt 16)) DURATION_MAX) (rp_max_delay p)).
  assert (0 ≤ Z.shiftl 1 (Z.min attempt 16))%Z by (apply Z.shiftl_nonneg; lia).
  assert (0 ≤ capped ≤ rp_max_delay p)%Z as Hc.
  { unfold capped, DURATION_MAX. split; [|lia]. repeat apply Z.min_glb; [nia|lia..]. }
  assert (∀ a b, (a ≤ b)%Z → (secs a <= secs b)%Q) as Hmono.
  { intros a b Hab. unfold secs, Qle. cbn. lia. }
  pose proof (Hmono 0%Z capped (proj1 Hc)) as Hc0. pose proof (Hmono capped _ (proj2 Hc)) as Hc1.
  assert (secs 0 == 0)%Q as Hz by reflexivity. rewrite Hz in Hc0.
  split; [nra|]. eapply Qle_trans; [|exact Hc1]. nra.
Qed.

Context `{!HttpLaws}.

(** A turn from [c] that logged [pre]. *)
Definition turn_ok (c : HttpClient X) (attempt : Z) (refreshed : bool) (pre : list HttpEvent)
    (res : HttpClient X * (Z * bool + ProviderResult Response)) : Prop :=
  let '(c', next) := res in
  hc_log c' = hc_log c ++ pre ∧ hc_retry c' = hc_retry c ∧ hc_hook c' = hc_hook c ∧
  match next with
  | inl (attempt', refreshed') => ∃ o, sent pre = [o] ∧
      (is_401 o = true ∧ refreshed = false ∧ slept pre = [] ∧ refreshes pre = 1 ∧ attempt' = attempt ∧ refreshed' = true ∨
       (∃ e, outcome_error (hc_hook c) o = Some e ∧ is_transient e = true) ∧ refreshes pre = 0 ∧
         Forall (λ d, 0 <= d <= secs (rp_max_delay (hc_retry c)))%Q (slept pre) ∧
         attempt' = (attempt + 1)%Z ∧ (attempt' < rp_max_attempts (hc_retry c))%Z ∧ refreshed' = refreshed)
  | inr r => slept pre = [] ∧ refreshes pre = 0 ∧
      ∃ final, sent pre = option_list final ∧ length (sent pre) ≤ 1 ∧
        ((0 ≤ attempt < attempts (hc_retry c))%Z → ends_with (hc_retry c) (hc_hook c) attempt refreshed [] final r)
  end.

Lemma after_error_ok cost priority token o x c e attempt refreshed :
  policy_ok (hc_retry c) → outcome_error (hc_hook c) o = Some e →
  let pre := [EAcquired cost priority; ESent token o] in
  ∃ more, turn_ok c attempt refreshed (pre ++ more)
    (after_error e attempt refreshed (mkClient (hc_retry c) (hc_hook c) x (hc_log c ++ pre))).
Proof.
  intros Hp He pre. unfold after_error. cbn [hc_retry].
  destruct (is_transient e) eqn:Et; cbn [negb orb].
  - destruct (rp_max_attempts (hc_retry c) <=? attempt + 1)%Z eqn:Em.
    + exists []. split_and!; [done..|]. exists (Some o). split_and!; [done..|]. intros Ha. right.
      split; [done|right]. cbn. rewrite He. cbn. unfold attempts in *. lia.
    + assert (∃ x' ev, pause_for e (attempt + 1) (mkClient (hc_retry c) (hc_hook c) x (hc_log c ++ pre)) =
        mkClient (hc_retry c) (hc_hook c) x' ((hc_log c ++ pre) ++ [ev]) ∧ sent [ev] = [] ∧ refreshes [ev] = 0 ∧
        Forall (λ d, 0 <= d <= secs (rp_max_delay (hc_retry c)))%Q (slept [ev])) as (x' & ev & -> & Hs & Hr & Hd).
      { assert (∀ y, (0 <= backoff (hc_retry c) (attempt + 1 - 1) None (hn_random y).2 <= secs (rp_max_delay (hc_retry c)))%Q)
          as Hb by (intros; apply backoff_bounds, hl_random; done).
        specialize (Hb x). unfold pause_for. cbn [hc_net hc_retry]. destruct (hn_random x) as [y rnd]. cbn [snd] in Hb.
        destruct e; try done; eexists _, _; (split; [done|]); split_and!; try done; cbn;
          first [exact (Forall_nil_2 _) | exact (Forall_cons_2 _ _ _ Hb (Forall_nil_2 _))]. }
      exists [ev]. unfold turn_ok. cbn [hc_log hc_retry hc_hook]. rewrite app_assoc, sent_app, refreshes_app, slept_app, Hs, Hr.
      split_and!; [done..|]. exists o. split; [done|right]. split_and!; try done; [by exists e|lia].
  - exists []. split_and!; [done..|]. exists (Some o). split_and!; [done..|]. intros Ha. right. by split; [|left].
Qed.

Lemma execute_turn_ok cost priority attempt refreshed c :
  policy_ok (hc_retry c) → ∃ pre, turn_ok c attempt refreshed pre (execute_turn cost priority attempt refreshed c).
Proof.
  intros Hp. unfold execute_turn. cbn [step_net hc_net hc_log hc_retry hc_hook].
  destruct (hn_access_token _) as [x [token|e]] eqn:Etok; cycle 1.
  { exists [EAcquired cost priority]. split_and!; [done..|]. exists None. split_and!; [done|simpl; lia|]. intros _.
    eexists. by rewrite Etok. }
  destruct (hn_send token x) as [x' o]. unfold step_net. cbn [hc_net hc_log hc_retry hc_hook]. rewrite <-app_assoc. cbn [app].
  destruct o as [response|e].
  - destruct (is_success response) eqn:Es; [|destruct (rs_status response =? 401)%Z eqn:E4; [destruct refreshed|]].
    + eexists. split_and!; [done..|]. exists (Some (Ok response)). split_and!; [done..|]. by intros _.
    + eexists. split_and!; [done..|]. exists (Some (Ok response)). split_and!; [done..|]. intros _. left.
      cbn. rewrite Es, E4. split_and!; [done..|by left].
    + eexists. cbn [hc_log hc_retry hc_hook hc_net]. rewrite <-app_assoc. split_and!; [done..|].
      exists (Ok response). split; [done|left]. cbn. by rewrite Es, E4.
    + edestruct (after_error_ok cost priority token (Ok response) x' c) as [more Hm]; [done| |by eexists].
      cbn. by rewrite Es, E4.
  - edestruct (after_error_ok cost priority token (Err e) x' c) as [more Hm]; [done| |by eexists]. done.
Qed.

(** Turns that the loop may still need. *)
Definition turns_left (p : RetryPolicy) (attempt : Z) (refreshed : bool) : nat :=
  Z.to_nat (attempts p - attempt) + (if refreshed then 0 else 1).
Lemma execute_loop_ok fuel cost priority attempt refreshed c :
  policy_ok (hc_retry c) → (0 ≤ attempt < attempts (hc_retry c))%Z → turns_left (hc_retry c) attempt refreshed ≤ fuel →
  ∃ c' r evs, execute_loop fuel cost priority attempt refreshed c = Some (c', r) ∧
    hc_log c' = hc_log c ++ evs ∧ exchange (hc_retry c) (hc_hook c) attempt refreshed evs r.
Proof.
  revert attempt refreshed c. induction fuel as [|fuel IH]; intros attempt refreshed c Hp Ha Hfuel;
    unfold turns_left in *; [lia|]. cbn [execute_loop].
  destruct (execute_turn_ok cost priority attempt refreshed c Hp) as [pre Hturn].
  destruct (execute_turn cost priority attempt refreshed c) as [c1 [[attempt1 refreshed1]|r]].
  - destruct Hturn as (Hlog & Hretry & Hhook & o & Ho & Hcase).
    destruct (IH attempt1 refreshed1 c1) as (c' & r & evs & E & Hl & Hex).
    + by rewrite Hretry.
    + rewrite Hretry. unfold attempts in *. destruct Hcase as [(_ & _ & _ & _ & -> & _)|(_ & _ & _ & -> & ? & _)]; lia.
    + rewrite Hretry. destruct Hcase as [(_ & -> & _ & _ & -> & ->)|(_ & _ & _ & -> & ? & ->)]; [lia|].
      unfold attempts in *. destruct refreshed; lia.
    + exists c', r, (pre ++ evs). rewrite Hretry, Hhook in Hex. split_and!; [done|by rewrite Hl, Hlog, app_assoc|].
      destruct Hcase as [(H401 & -> & Hd & Hr & -> & ->)|((e & He & Ht) & Hr & Hd & -> & _ & ->)].
      * by eapply exchange_refresh.
      * by eapply exchange_retry.
  - destruct Hturn as (Hlog & _ & _ & Hd & Hr & final & Hs & Hlen & Hend).
    exists c1, r, pre. split_and!; [done..|]. split_and!; [lia|rewrite Hr; lia|by rewrite Hd|].
    exists [], final. split_and!; [done..|by apply Hend].
Qed.

(** One request, on every branch, against any network, token source and
    random numbers: the loop ends; the request is sent at most once per
    attempt and once more for a refreshed token; the token is refreshed at
    most once; every sleep is within the policy's longest delay; only a
    first 401 and transient errors are retried; the answer is a success that
    was the last response, the second 401, the token source's error, an
    error that is not worth a retry, or a transient one after the last of
    the attempts. *)
Theorem execute_spec (cost : N) (priority : Priority) c :
  policy_ok (hc_retry c) →
  ∃ c' r evs, execute cost priority c = Some (c', r) ∧ hc_log c' = hc_log c ++ evs ∧
    (Z.of_nat (length (sent evs)) ≤ Z.max 1 (rp_max_attempts (hc_retry c)) + 1)%Z ∧
    refreshes evs ≤ 1 ∧
    Forall (λ d, 0 <= d <= secs (rp_max_delay (hc_retry c)))%Q (slept evs) ∧
    ∃ retried final, sent evs = retried ++ option_list final ∧
      Forall (retriable (hc_hook c)) retried ∧ ends_with (hc_retry c) (hc_hook c) 0 false retried final r.
Proof.
  intros Hp. unfold execute.
  destruct (execute_loop_ok (turns (hc_retry c)) cost priority 0 false c Hp) as (c' & r & evs & E & Hl & Hex).
  - unfold attempts. lia.
  - unfold turns_left, turns, attempts. lia.
  - destruct Hex as (Hlen & Href & Hd & Hsent). exists c', r, evs. unfold attempts in *. split_and!; try done.
    simpl in Hlen. lia.
Qed.
End http.

(** A service that limits the rate once, then refuses the token, then answers. *)
Definition flaky : HttpNet nat := {|
  hn_acquire _ _ n := n;
  hn_access_token n := (n, Ok "token");
  hn_invalidate _ n := n;
  hn_send _ n := (S n, Ok (mkResponse (match n with 0 => 429 | 1 => 401 | _ => 200 end) (Some " 7 ") "{}"));
  hn_report_rate_limited _ n := n;
  hn_random n := (n, (1 # 2)%Q);
  hn_sleep _ n := n |}.
Lemma flaky_laws : HttpLaws (H := flaky).
Proof. constructor. intros x. split; apply Qle_bool_iff; reflexivity. Qed.
Definition flaky_client : HttpClient nat := mkClient retry_default None 0 [].
Lemma execute_spec_witness :
  ∃ c' evs, execute (λ _, None) (H := flaky) 5 Interactive flaky_client = Some (c', Ok (mkResponse 200 (Some " 7 ") "{}")) ∧
    hc_log c' = evs ∧ (Z.of_nat (length (sent evs)) ≤ 6)%Z ∧ EReported (Some 7000%Z) ∈ evs.
Proof.
  destruct (execute_spec (λ _, None) (H := flaky) (H0 := flaky_laws) 5 Interactive flaky_client)
    as (c' & r & evs & E & Hlog & Hlen & _).
  - split; vm_compute; discriminate.
  - pose proof E as E'. vm_compute in E'. injection E' as <- <-. eexists _, evs.
    split; [exact E|]. split; [exact Hlog|]. split; [exact Hlen|].
    cbn in Hlog. subst evs. right. right. left.
Defined.

(** How an error response is read without a hook: exactly 429, 403 with
    a rate limit among its reasons and 5xx are worth a retry; a 403 without
    a [Retry-After] pauses for a minute. *)
Theorem classify_transient parse_json r :
  is_transient (classify parse_json None r) =
    (rs_status r =? 429)%Z ||
    ((rs_status r =? 403)%Z && existsb rate_limit_reason (google_error parse_json (rs_body r)).2) ||
    (500 <=? rs_status r)%Z ∧
  (rs_status r = 403%Z → rs_retry_after r = None → is_transient (classify parse_json None r) = true →
   classify parse_json None r = RateLimited (Some 60000%Z)).
Proof.
  unfold classify. destruct (google_error parse_json (rs_body r)) as [message reasons]. cbn [snd].
  assert ((if (rs_status r =? 429)%Z then None else (None : option ErrorHook) ≫= λ h, h (rs_status r) (rs_body r)) = None)
    as -> by by case_match.
  destruct (rs_status r =? 429)%Z eqn:E429; cbn [orb]; [split; [done|lia]|].
  destruct (rs_status r =? 403)%Z eqn:E403; cbn [andb orb].
  - destruct (existsb rate_limit_reason reasons); cbn [orb]; split; try done; [by intros _ ->|].
    cbn. lia.
  - split; [|lia]. destruct (rs_status r =? 404)%Z eqn:E404; [cbn; lia|].
    destruct ((rs_status r =? 410)%Z && _) eqn:E410; [cbn; lia|]. by destruct (500 <=? rs_status r)%Z.
Qed.
Lemma classify_transient_witness :
  let r := mkResponse 403 None "{}" in
  let parse (_ : string) := Some (JObject [("error", JObject [("code", JString "userRateLimitExceeded")])]) in
  rs_status r = 403%Z ∧ classify parse None r = RateLimited (Some 60000%Z).
Proof.
  split; [reflexivity|]. apply classify_transient; reflexivity.
Defined.
