(* ===== verification/Search.v ===== *)
(** * Search: the search language and its queries
    ([mail-store/src/search/parse.rs], [search/exec.rs])

    A query is cut into tokens at its characters, parsed by recursive descent
    into a [SearchExpr], and asked of the messages: a thread matches when one
    of its messages does.  The recursion takes fuel, and a query that would
    need more says so ([Starved]); a slice inside a character is Rust's
    panic.  How SQLite's full-text index matches a phrase and [LIKE] are
    parameters. *)

From Stdlib Require Import Ascii.
From S2P Require Import Prelude.
From S2P Require Import Domain.
From S2P Require Import Text.
From S2P Require Import Guide.
From S2P Require Import MailStore.
From S2P Require Import Read.

(** ** The tree *)

Inductive SearchMailbox := InInbox | InArchive | InSent | InDrafts | InTrash | InSpam | InStarred | Anywhere.
Inductive SearchFlag := IsUnread | IsRead | IsStarred | IsImportant.
Inductive SearchExpr :=
| SAnd (all : list SearchExpr)
| SOr (any : list SearchExpr)
| SNot (expr : SearchExpr)
| SText (value : string)
| SPhrase (value : string)
| SFrom (value : string)
| STo (value : string)
| SCc (value : string)
| SBcc (value : string)
| SSubject (value : string)
| SLabel (value : string)
| SIn (mailbox : SearchMailbox)
| SIs (flag : SearchFlag)
| SHasAttachment
| SFilename (value : string)
| SAfter (at_ : Millis)
| SBefore (at_ : Millis)
| SNewerThan (days : Z)
| SOlderThan (days : Z)
| SLarger (bytes : Z)
| SSmaller (bytes : Z).

Record ParseError := mkParseError { pe_message : string; pe_position : nat }.
(** Why there is no tree. *)
Inductive Stop := Bad (e : ParseError) | Panics | Starved.
Definition bad {A} (message : string) (position : nat) : result Stop A := Err (Bad (mkParseError message position)).

Fixpoint mentions_spam_or_trash (e : SearchExpr) : bool :=
  match e with
  | SAnd all => List.existsb mentions_spam_or_trash all
  | SOr any => List.existsb mentions_spam_or_trash any
  | SNot e => mentions_spam_or_trash e
  | SIn mailbox => match mailbox with InTrash | InSpam | Anywhere => true | _ => false end
  | SLabel value => let v := ascii_lower value in String.eqb v "spam" || String.eqb v "trash"
  | _ => false
  end.

(** ** Tokens *)

Inductive TokenKind := Word (w : string) | Quoted (q : string) | FieldName (f : string) | Minus | OpenParen | CloseParen | OrWord.
Record Token := mkToken { tk_kind : TokenKind; tk_at : nat }.
Definition describe (k : TokenKind) : string :=
  match k with
  | Word w => quoted w
  | Quoted q => quoted q
  | FieldName f => f +:+ ":"
  | Minus => "-"
  | OpenParen => "("
  | CloseParen => ")"
  | OrWord => "OR"
  end.

Definition FIELDS : list string :=
  ["from"; "to"; "cc"; "bcc"; "subject"; "label"; "in"; "is"; "has"; "filename"; "after"; "before"; "older_than";
   "newer_than"; "larger"; "smaller"].

(** [char_indices]: each character at its byte. *)
Abbreviation Chars := (list (nat * string)) (only parsing).
Fixpoint char_indices (at_ : nat) (cs : list string) : Chars :=
  match cs with [] => [] | c :: cs => (at_, c) :: char_indices (at_ + String.length c) cs end.

Definition is_whitespace (c : string) : bool := bool_decide (c ∈ white_space).
Definition is_special (c : string) : bool := String.eqb c "(" || String.eqb c ")" || String.eqb c QUOTE.
Definition word_char (c : string) : bool := negb (is_whitespace c) && negb (is_special c).

(** What is read up to the closing quote, with how many characters. *)
Fixpoint read_quoted (open : nat) (cs : Chars) : result Stop (string * nat) :=
  match cs with
  | [] => bad "unclosed quote" open
  | (_, c) :: cs =>
      if String.eqb c QUOTE then Ok ("", 1)
      else '(value, n) ← read_quoted open cs; Ok (c +:+ value, S n)
  end.
(** The characters of the word [cs] starts with. *)
Fixpoint word_of (cs : Chars) : list string :=
  match cs with (_, c) :: cs => if word_char c then c :: word_of cs else [] | [] => [] end.
Definition concat_chars (cs : list string) : string := foldr String.append "" cs.
Definition starts_word (cs : Chars) : bool :=
  match cs with (_, c) :: _ => negb (is_whitespace c) | [] => false end.
Definition field_of (word : string) : option (string * string) :=
  '(field, rest) ← split_once ":" word;
  if bool_decide (ascii_lower field ∈ FIELDS) then Some (field, rest) else None.
Definition add_token (k : TokenKind) (at_ : nat) (r : result Stop (list Token)) : result Stop (list Token) :=
  ts ← r; Ok (mkToken k at_ :: ts).

(** [tokenize]; [skip] counts the characters already taken. *)
Fixpoint tokenize_from (skip : nat) (cs : Chars) : result Stop (list Token) :=
  match cs with
  | [] => Ok []
  | (at_, c) :: rest =>
      match skip with
      | S skip => tokenize_from skip rest
      | O =>
          if is_whitespace c then tokenize_from 0 rest
          else if String.eqb c "(" then add_token OpenParen at_ (tokenize_from 0 rest)
          else if String.eqb c ")" then add_token CloseParen at_ (tokenize_from 0 rest)
          else if String.eqb c "-" && starts_word rest then add_token Minus at_ (tokenize_from 0 rest)
          else if String.eqb c QUOTE then
            '(value, n) ← read_quoted at_ rest;
            add_token (Quoted value) at_ (tokenize_from n rest)
          else
            let n := length (word_of cs) in
            let word := concat_chars (word_of cs) in
            match field_of word with
            | Some (field, value) =>
                add_token (FieldName (ascii_lower field)) at_
                  (if negb (String.eqb value "")
                   then add_token (Word value) (at_ + String.length field + 1) (tokenize_from (n - 1) rest)
                   else match drop (n - 1) rest with
                        | (q, c') :: more =>
                            if String.eqb c' QUOTE then
                              '(value, k) ← read_quoted q more;
                              add_token (Quoted value) q (tokenize_from (n + k) rest)
                            else bad (field +:+ ": needs a value") at_
                        | [] => bad (field +:+ ": needs a value") at_
                        end)
            | None =>
                add_token (if String.eqb word "OR" || String.eqb word "|" then OrWord else Word word) at_
                  (tokenize_from (n - 1) rest)
            end
      end
  end.
Definition tokenize (input : string) : result Stop (list Token) := tokenize_from 0 (char_indices 0 (chars input)).

(** ** Values *)

(** [days_from_civil], Hinnant's formula. *)
Definition days_from_civil (y m d : Z) : Z :=
  let y := if (m <=? 2)%Z then (y - 1)%Z else y in
  let era := (y / 400)%Z in
  let yoe := (y - era * 400)%Z in
  let mp := ((m + 9) mod 12)%Z in
  let doy := ((153 * mp + 2) / 5 + d - 1)%Z in
  let doe := (yoe * 365 + yoe / 4 - yoe / 100 + doy)%Z in
  (era * 146097 + doe - 719468)%Z.

Section parse.
Context (debug : string → string). (** [{:?}] *)

Abbreviation Told A := (result string A) (only parsing).
Definition DAY : Millis := (86400 * 1000)%Z.
Definition parse_date (value : string) : Told Millis :=
  match split_chars (λ c, String.eqb c "-" || String.eqb c "/") value with
  | [y; m; d] =>
      y ← ok_or ("bad year in " +:+ debug value) (parse_i64 y);
      m ← ok_or ("bad month in " +:+ debug value) (parse_i64 m);
      d ← ok_or ("bad day in " +:+ debug value) (parse_i64 d);
      if (1970 <=? y)%Z && (y <=? 9999)%Z && (1 <=? m)%Z && (m <=? 12)%Z && (1 <=? d)%Z && (d <=? 31)%Z
      then Ok (days_from_civil y m d * DAY)%Z else Err (debug value +:+ " is not a date")
  | _ => Err ("dates look like 2026-01-31, not " +:+ debug value)
  end.

Definition U32_MAX : Z := (2 ^ 32 - 1)%Z.
Definition U64_MAX : Z := (2 ^ 64 - 1)%Z.
(** [split_at] before the last byte panics inside a character: [None]. *)
Definition parse_age (value : string) : option (Told Z) :=
  let len := String.length value in
  let n := String.substring 0 (len - 1) value in
  let unit := String.substring (len - 1) len value in
  let not_age := Err ("ages look like 7d, 2m or 1y, not " +:+ debug value) in
  if match unit with String a _ => continuation a | EmptyString => false end then None else
  Some match parse_u32 n with
       | None => not_age
       | Some n =>
           let unit := ascii_lower unit in
           if String.eqb unit "d" then Ok n
           else if String.eqb unit "m" then Ok (Z.min (n * 30) U32_MAX)
           else if String.eqb unit "y" then Ok (Z.min (n * 365) U32_MAX)
           else not_age
       end.

Definition multiplier (last : string) : option Z :=
  if String.eqb last "k" then Some 1024%Z
  else if String.eqb last "m" then Some (1024 * 1024)%Z
  else if String.eqb last "g" then Some (1024 * 1024 * 1024)%Z else None.
Definition parse_size (value : string) : Told Z :=
  let lower := ascii_lower value in
  let len := String.length lower in
  let '(n, mult) := match multiplier (String.substring (len - 1) 1 lower) with
                    | Some mult => (String.substring 0 (len - 1) lower, mult)
                    | None => (lower, 1%Z)
                    end in
  n ← ok_or ("sizes look like 5M or 200K, not " +:+ debug value) (parse_u64 n);
  Ok (Z.min (n * mult) U64_MAX).

Definition mailbox_named (lower : string) : option SearchMailbox :=
  if String.eqb lower "inbox" then Some InInbox
  else if String.eqb lower "archive" || String.eqb lower "archived" then Some InArchive
  else if String.eqb lower "sent" then Some InSent
  else if String.eqb lower "drafts" || String.eqb lower "draft" then Some InDrafts
  else if String.eqb lower "trash" then Some InTrash
  else if String.eqb lower "spam" then Some InSpam
  else if String.eqb lower "starred" then Some InStarred
  else if String.eqb lower "anywhere" || String.eqb lower "all" then Some Anywhere else None.
Definition flag_named (lower : string) : option SearchFlag :=
  if String.eqb lower "unread" then Some IsUnread
  else if String.eqb lower "read" then Some IsRead
  else if String.eqb lower "starred" then Some IsStarred
  else if String.eqb lower "important" then Some IsImportant else None.

Definition told {A} (f : A → SearchExpr) (r : Told A) : option (Told SearchExpr) := Some (f <$> r).
Definition aged (f : Z → SearchExpr) (r : option (Told Z)) : option (Told SearchExpr) := r ≫= told f.
Definition field_expr (field value : string) : option (Told SearchExpr) :=
  let lower := ascii_lower value in
  if String.eqb field "from" then Some (Ok (SFrom value))
  else if String.eqb field "to" then Some (Ok (STo value))
  else if String.eqb field "cc" then Some (Ok (SCc value))
  else if String.eqb field "bcc" then Some (Ok (SBcc value))
  else if String.eqb field "subject" then Some (Ok (SSubject value))
  else if String.eqb field "label" then Some (Ok (SLabel value))
  else if String.eqb field "filename" then Some (Ok (SFilename value))
  else if String.eqb field "in" then
    told SIn (ok_or ("unknown mailbox " +:+ debug value) (mailbox_named lower))
  else if String.eqb field "is" then told SIs (ok_or ("unknown is:" +:+ value) (flag_named lower))
  else if String.eqb field "has" then
    Some (if String.eqb lower "attachment" || String.eqb lower "attachments" then Ok SHasAttachment
          else Err ("unknown has:" +:+ value))
  else if String.eqb field "after" then told SAfter (parse_date value)
  else if String.eqb field "before" then told SBefore (parse_date value)
  else if String.eqb field "newer_than" then aged SNewerThan (parse_age value)
  else if String.eqb field "older_than" then aged SOlderThan (parse_age value)
  else if String.eqb field "larger" then told SLarger (parse_size value)
  else if String.eqb field "smaller" then told SSmaller (parse_size value)
  else Some (Err ("unknown field " +:+ field)).

(** ** The parser *)

Abbreviation Parsed A := (result Stop (A * list Token)) (only parsing).
(** [peek().map(|t| t.at).unwrap_or(0)] *)
Definition peek_at (ts : list Token) : nat := match ts with t :: _ => tk_at t | [] => 0 end.
Definition one_or (make : list SearchExpr → SearchExpr) (l : list SearchExpr) : SearchExpr :=
  match l with [e] => e | l => make l end.
(** The value after a field's name. *)
Definition field_value (field : string) (at_ : nat) (ts : list Token) : Parsed SearchExpr :=
  match ts with
  | mkToken (Word v) _ :: ts | mkToken (Quoted v) _ :: ts =>
      match field_expr field v with
      | Some (Ok e) => Ok (e, ts)
      | Some (Err message) => bad message at_
      | None => Err Panics
      end
  | _ => bad (field +:+ ": needs a value") at_
  end.

(** [Parser::or], [and], [unary] and [atom], with the loops of the first two. *)
Fixpoint parse_or (n : nat) (ts : list Token) : Parsed SearchExpr :=
  match n with
  | O => Err Starved
  | S n => '(e, ts) ← parse_and n ts; or_more n [e] ts
  end
with or_more (n : nat) (any : list SearchExpr) (ts : list Token) : Parsed SearchExpr :=
  match n with
  | O => Err Starved
  | S n =>
      match ts with
      | mkToken OrWord _ :: ts => '(e, ts) ← parse_and n ts; or_more n (any ++ [e]) ts
      | _ => Ok (one_or SOr any, ts)
      end
  end
with parse_and (n : nat) (ts : list Token) : Parsed SearchExpr :=
  match n with
  | O => Err Starved
  | S n => and_more n [] ts
  end
with and_more (n : nat) (all : list SearchExpr) (ts : list Token) : Parsed SearchExpr :=
  match n with
  | O => Err Starved
  | S n =>
      let finish := match all with
                    | [] => bad "expected a search term" (peek_at ts)
                    | _ => Ok (one_or SAnd all, ts)
                    end in
      match ts with
      | [] | mkToken OrWord _ :: _ | mkToken CloseParen _ :: _ => finish
      | _ => '(e, ts) ← parse_unary n ts; and_more n (all ++ [e]) ts
      end
  end
with parse_unary (n : nat) (ts : list Token) : Parsed SearchExpr :=
  match n with
  | O => Err Starved
  | S n =>
      match ts with
      | mkToken Minus _ :: ts => '(e, ts) ← parse_unary n ts; Ok (SNot e, ts)
      | _ => parse_atom n ts
      end
  end
with parse_atom (n : nat) (ts : list Token) : Parsed SearchExpr :=
  match n with
  | O => Err Starved
  | S n =>
      match ts with
      | [] => bad "unexpected end of query" 0
      | mkToken OpenParen at_ :: ts =>
          '(inner, ts) ← parse_or n ts;
          match ts with mkToken CloseParen _ :: ts => Ok (inner, ts) | _ => bad "missing )" at_ end
      | mkToken (Quoted q) _ :: ts => Ok (SPhrase q, ts)
      | mkToken (Word w) _ :: ts => Ok (SText w, ts)
      | mkToken (FieldName field) at_ :: ts => field_value field at_ ts
      | mkToken k at_ :: _ => bad ("unexpected " +:+ describe k) at_
      end
  end.

Definition parse_fuel (ts : list Token) : nat := 5 * length ts + 5.
Definition parse_tokens (ts : list Token) : result Stop SearchExpr :=
  match ts with
  | [] => Ok (SAnd [])
  | _ =>
      '(e, rest) ← parse_or (parse_fuel ts) ts;
      match rest with
      | [] => Ok e
      | t :: _ => bad ("unexpected " +:+ describe (tk_kind t)) (tk_at t)
      end
  end.
Definition parse (input : string) : result Stop SearchExpr := ts ← tokenize input; parse_tokens ts.
End parse.

(** ** The query *)

Definition MAX_RESULTS : Z := 500.
(** [as i64] of a [u64]. *)
Definition as_i64_cast (n : Z) : Z := if (n <? 2 ^ 63)%Z then n else (n - 2 ^ 64)%Z.
(** A [LIKE] of what is between two [%], [%] and [_] taken out. *)
Definition like_inside (value field : string) : bool :=
  contains (ascii_lower (replace "_" "" (replace "%" "" value))) (ascii_lower field).

Section search.
Context (is_alphanumeric : string → bool).
Context (fts_match : string → FtsRow → bool). (** [messages_fts MATCH ?] *)
Context (s : Store) (now : Millis).

(** Word tokens only, quoted again; [prefix] leaves the last one open. *)
Definition fts_phrase (value : string) (prefix : bool) : option string :=
  match List.filter non_empty (split_chars (λ c, negb (is_alphanumeric c)) value) with
  | [] => None
  | tokens => Some (quoted (join " " tokens) +:+ (if prefix then "*" else ""))
  end.
Definition fts (query : string) (m : MessageRow) : bool :=
  List.existsb (λ r, bool_decide (ft_rowid r = ms_id m) && fts_match query r) (messages_fts s).
Definition text_match (value : string) (prefix : bool) (m : MessageRow) : bool :=
  match fts_phrase value prefix with Some q => fts q m | None => true end.
Definition column (name value : string) (m : MessageRow) : bool :=
  match fts_phrase value true with Some q => fts (name +:+ " : " +:+ q) m | None => true end.
Definition participant (role value : string) (m : MessageRow) : bool :=
  List.existsb (λ p, bool_decide (pt_message p = ms_id m) && String.eqb (pt_role p) role &&
      (like_inside value (addr_email (pt_address p)) ||
       match addr_name (pt_address p) with Some n => like_inside value n | None => false end))
    (participants s).
Definition has_label (label : string) (m : MessageRow) : bool := message_has_label s (ms_id m) label.
Definition label_named (value : string) (m : MessageRow) : bool :=
  List.existsb (λ l, bool_decide ((ms_id m, lb_id l) ∈ message_labels s) &&
      (String.eqb (lb_gmail_id l) value || nocase_eqb (lb_name l) value ||
       nocase_eqb (replace " " "-" (lb_name l)) value)) (labels s).

(** [Sql::compile]: what the clause asks of a message. *)
Fixpoint asks (e : SearchExpr) (m : MessageRow) : bool :=
  match e with
  | SAnd all => forallb (λ e, asks e m) all
  | SOr any => List.existsb (λ e, asks e m) any
  | SNot e => negb (asks e m)
  | SText value => text_match value true m
  | SPhrase value => text_match value false m
  | SSubject value => column "subject" value m
  | SFrom value => column "from_text" value m
  | STo value => column "to_text" value m
  | SFilename value => column "attachment_names" value m
  | SCc value => participant "cc" value m
  | SBcc value => participant "bcc" value m
  | SLabel value => label_named value m
  | SIn mailbox =>
      match mailbox with
      | InInbox => has_label INBOX m
      | InSent => has_label SENT m
      | InDrafts => has_label DRAFT m
      | InTrash => has_label TRASH m
      | InSpam => has_label SPAM m
      | InStarred => is_starred (ms_flags m)
      | Anywhere => true
      | InArchive => negb (has_label INBOX m) && negb (has_label SPAM m) && negb (has_label TRASH m)
      end
  | SIs flag =>
      match flag with
      | IsUnread => negb (is_read (ms_flags m))
      | IsRead => is_read (ms_flags m)
      | IsStarred => is_starred (ms_flags m)
      | IsImportant => has_label IMPORTANT m
      end
  | SHasAttachment => ms_has_attachments m
  | SAfter at_ => (at_ <=? ms_internal_date m)%Z
  | SBefore at_ => (ms_internal_date m <? at_)%Z
  | SNewerThan days => (now - days * DAY <=? ms_internal_date m)%Z
  | SOlderThan days => (ms_internal_date m <? now - days * DAY)%Z
  | SLarger bytes => (as_i64_cast bytes <? ms_size m)%Z
  | SSmaller bytes => (ms_size m <? as_i64_cast bytes)%Z
  end.
(** An [Or] of nothing compiles to nothing, which is no SQL. *)
Fixpoint has_empty_or (e : SearchExpr) : bool :=
  match e with
  | SAnd all => List.existsb has_empty_or all
  | SOr any => match any with [] => true | _ => List.existsb has_empty_or any end
  | SNot e => has_empty_or e
  | _ => false
  end.

(** Spam and trash are left out unless asked for. *)
Definition message_matches (e : SearchExpr) (m : MessageRow) : bool :=
  asks e m && (mentions_spam_or_trash e || (negb (has_label SPAM m) && negb (has_label TRASH m))).
Definition search_rows (e : SearchExpr) : list (Z * Z * ThreadRow) :=
  (λ t, (th_last_at t, th_id t, t)) <$>
    List.filter (λ t, List.existsb (λ m, bool_decide (ms_thread m = th_id t) && message_matches e m) (messages s))
      (threads s).

(** [search]; what SQLite says of a query it cannot prepare is its own. *)
Definition search (e : SearchExpr) (cursor : option string) (limit : Z) : StoreResult ThreadPage :=
  let limit := Z.min (Z.max limit 1) MAX_RESULTS in
  after ← match cursor with Some c => decode_cursor c | None => Ok (I64_MAX, I64_MAX) end;
  if has_empty_or e then Err (Invalid "search: syntax error") else
  let found := take (S (Z.to_nat limit))
    (merge_sort newest (List.filter (λ r, key_lt r.1 after) (search_rows e))) in
  let shown := take (Z.to_nat limit) found in
  Ok (mkPage ((λ r, thread_summary s r.2) <$> shown)
        (if Z.to_nat limit <? length found then encode_cursor <$> (fst <$> list.last shown) else None)).
End search.
