(* ===== verification/SearchProperties.v ===== *)
(** * SearchProperties: the search language read back, and what a search finds

    The parser always ends, within the fuel it is given; a search shows the
    threads with a message that answers the query, spam and trash left out
    unless the query names them. *)

From Stdlib Require Import Ascii.
From S2P Require Import Prelude.
From S2P Require Import Domain.
From S2P Require Import Text.
From S2P Require Import MailStore.
From S2P Require Import StoreInvariant.
From S2P Require Import WriterProperties.
From S2P Require Import Read.
From S2P Require Import ReadProperties.
From S2P Require Import Search.

(** ** The parser ends *)

Section ends.
Context (debug : string → string).

(** A run that ended: with an error of its own, or with a tree whose [Or]s
    are not empty and at least [k] tokens read. *)
Definition ended (k : nat) (ts : list Token) (r : result Stop (SearchExpr * list Token)) : Prop :=
  match r with
  | Ok (e, ts') => has_empty_or e = false ∧ k + length ts' ≤ length ts
  | Err Starved => False
  | Err _ => True
  end.
Lemma ended_bind k j ts r f : ended k ts r → (∀ e ts', has_empty_or e = false → k + length ts' ≤ length ts →
    ended j ts (f (e, ts'))) → ended j ts (r ≫= f).
Proof. destruct r as [[e ts']|[]]; cbn; naive_solver. Qed.
Lemma ended_le k j ts ts' r : ended k ts' r → j + length ts' ≤ k + length ts → ended j ts r.
Proof. destruct r as [[e ts'']|[]]; cbn; intuition lia. Qed.

Lemma one_or_and l : Forall (λ e, has_empty_or e = false) l → has_empty_or (one_or SAnd l) = false.
Proof.
  intros Hl. destruct l as [|e [|e' l]]; [done|by apply Forall_inv in Hl|]. cbn -[List.existsb].
  apply existsb_false. intros x Hx. by rewrite Forall_forall in Hl; apply Hl.
Qed.
Lemma one_or_or l : l ≠ [] → Forall (λ e, has_empty_or e = false) l → has_empty_or (one_or SOr l) = false.
Proof.
  intros Hne Hl. destruct l as [|e [|e' l]]; [done|by apply Forall_inv in Hl|]. cbn -[List.existsb].
  apply existsb_false. intros x Hx. by rewrite Forall_forall in Hl; apply Hl.
Qed.
(** A field's tree has no parts. *)
Definition leaf (e : SearchExpr) : bool := match e with SAnd _ | SOr _ | SNot _ => false | _ => true end.
Lemma field_expr_leaf field v e : field_expr debug field v = Some (Ok e) → leaf e = true.
Proof.
  assert (∀ A (f : A → SearchExpr) r, (∀ x, leaf (f x) = true) → told f r = Some (Ok e) → leaf e = true) as Htold.
  { intros A f r Hf. unfold told. destruct r; cbn; intros [= <-]. apply Hf. }
  assert (∀ f r, (∀ x, leaf (f x) = true) → aged f r = Some (Ok e) → leaf e = true) as Haged.
  { intros f r Hf. unfold aged. destruct r; cbn; [by apply Htold|done]. }
  unfold field_expr.
  repeat (destruct (String.eqb field _);
    [first [by intros [= <-]|by apply Htold|by apply Haged|destruct (_ || _); [by intros [= <-]|done]]|]).
  done.
Qed.
Lemma leaf_no_or e : leaf e = true → has_empty_or e = false.
Proof. by destruct e. Qed.
Lemma field_value_ended field at_ ts : ended 0 ts (field_value debug field at_ ts).
Proof.
  unfold field_value. destruct ts as [|[[] ?] ts]; try exact I.
  all: destruct (field_expr debug field _) as [[e|m]|] eqn:E; try exact I; split; [|cbn; lia];
    by apply leaf_no_or, (field_expr_leaf _ _ _ E).
Qed.

(** With fuel for the tokens left, five calls a token. *)
Lemma parser_ends n :
  (∀ ts, 5 * length ts + 5 ≤ n → ended 1 ts (parse_or debug n ts)) ∧
  (∀ any ts, any ≠ [] → Forall (λ e, has_empty_or e = false) any → 5 * length ts + 1 ≤ n →
     ended 0 ts (or_more debug n any ts)) ∧
  (∀ ts, 5 * length ts + 4 ≤ n → ended 1 ts (parse_and debug n ts)) ∧
  (∀ all ts, Forall (λ e, has_empty_or e = false) all → 5 * length ts + 3 ≤ n →
     ended (match all with [] => 1 | _ => 0 end) ts (and_more debug n all ts)) ∧
  (∀ ts, 5 * length ts + 2 ≤ n → ended 1 ts (parse_unary debug n ts)) ∧
  (∀ ts, 5 * length ts + 1 ≤ n → ended 1 ts (parse_atom debug n ts)).
Proof.
  induction n as [|n (IHor & IHorm & IHand & IHandm & IHun & IHat)]; [repeat split; intros; lia|]. split_and!.
  - intros ts Hn. cbn. eapply ended_bind; [apply IHand; lia|]. intros e ts' He Hl.
    eapply ended_le; [apply IHorm; [done|by constructor|lia]|lia].
  - intros any ts Hne Hany Hn. cbn.
    destruct ts as [|[[] at_] ts]; try (split; [by apply one_or_or|lia]). cbn in Hn.
    eapply (ended_bind 2); [eapply ended_le; [apply IHand; lia|cbn; lia]|]. intros e ts' He Hl.
    eapply ended_le; [apply IHorm; [by destruct any|by apply Forall_app; repeat constructor|cbn in *; lia]|cbn in *; lia].
  - intros ts Hn. cbn. apply (IHandm []); [constructor|lia].
  - intros all ts Hall Hn. cbn.
    assert (ended (match all with [] => 1 | _ => 0 end) ts
      (match all with [] => bad "expected a search term" (peek_at ts) | _ => Ok (one_or SAnd all, ts) end)) as Hfin.
    { destruct all; [exact I|]. split; [by apply one_or_and|lia]. }
    assert (ended (match all with [] => 1 | _ => 0 end) ts
      ('(e, ts') ← parse_unary debug n ts; and_more debug n (all ++ [e]) ts')) as Hgo.
    { eapply ended_bind; [apply IHun; lia|]. intros e ts' He Hl.
      eapply ended_le; [apply IHandm; [by apply Forall_app; repeat constructor|lia]|].
      destruct all; cbn; lia. }
    by destruct ts as [|[[] at_] ts].
  - intros ts Hn. cbn.
    assert (ended 1 ts (parse_atom debug n ts)) as Hat by (apply IHat; lia).
    destruct ts as [|[[] at_] ts]; try exact Hat. cbn in Hn.
    eapply (ended_bind 2); [eapply ended_le; [apply IHun; lia|cbn; lia]|]. intros e ts' He Hl. split; [done|cbn in *; lia].
  - intros ts Hn. cbn. destruct ts as [|[[] at_] ts]; try exact I; try (split; [done|cbn; lia]); cbn in Hn.
    + eapply ended_le; [apply field_value_ended|cbn; lia].
    + eapply (ended_bind 2); [eapply ended_le; [apply IHor; lia|cbn; lia]|]. intros e ts' He Hl.
      destruct ts' as [|[[] ?] ts']; try exact I. split; [done|cbn in *; lia].
Qed.
End ends.

Lemma add_token_stop k at_ r : r ≠ Err Starved → add_token k at_ r ≠ Err Starved.
Proof. unfold add_token. by destruct r as [|[]]. Qed.
Lemma read_quoted_stop open cs : read_quoted open cs ≠ Err Starved.
Proof.
  induction cs as [|[a c] cs IH]; [done|]. cbn. destruct (String.eqb c QUOTE); [done|].
  by destruct (read_quoted open cs) as [[v n]|[]].
Qed.
Lemma tokenize_stop skip cs : tokenize_from skip cs ≠ Err Starved.
Proof.
  revert skip. induction cs as [|[a c] cs IH]; intros skip; [done|]. cbn -[is_whitespace word_of field_of].
  destruct skip; [|done]. repeat (case_match; [by auto using add_token_stop|]).
  case_match.
  - pose proof (read_quoted_stop a cs) as Hq. destruct (read_quoted a cs) as [[v n]|[]]; cbn; try done.
    by apply add_token_stop.
  - destruct (field_of _) as [[field value]|]; [|by apply add_token_stop]. apply add_token_stop.
    case_match; [by apply add_token_stop|]. destruct (drop _ cs) as [|[q c'] more]; [done|].
    case_match; [|done]. pose proof (read_quoted_stop q more) as Hq.
    destruct (read_quoted q more) as [[v n]|[]]; cbn; try done. by apply add_token_stop.
Qed.

Lemma parse_compiles debug input e : parse debug input = Ok e → has_empty_or e = false.
Proof.
  unfold parse. destruct (tokenize input) as [[|t ts]|]; [by intros [= <-]| |intros [=]].
  pose proof (proj1 (parser_ends debug _) (t :: ts) (le_n _)) as He. cbn [mbind result_bind]. unfold parse_tokens, parse_fuel.
  destruct (parse_or _ _ _) as [[e' rest]|]; cbn in *; [|intros [=]].
  destruct rest; intros [= <-]. by destruct He.
Qed.

(** Every query is answered: the parser, in the fuel [parse] gives it,
    either says what is wrong, or panics inside a character, or gives a tree,
    and the tree compiles to SQL (no [Or] in it is empty). *)
Theorem parse_ends (debug : string → string) (input : string) :
  match parse debug input with
  | Ok e => has_empty_or e = false
  | Err Starved => False
  | Err _ => True
  end.
Proof.
  unfold parse. pose proof (tokenize_stop 0 (char_indices 0 (chars input))) as Ht. unfold tokenize.
  destruct (tokenize_from 0 _) as [ts|[]]; cbn; [|done..]. unfold parse_tokens. destruct ts as [|t ts]; [done|].
  pose proof (proj1 (parser_ends debug _) (t :: ts) (le_n _)) as He. unfold parse_fuel.
  destruct (parse_or _ _ _) as [[e rest]|[]]; cbn in *; try done. destruct rest; [|done]. by destruct He.
Qed.

(** ** What a search finds *)

Section finds.
Context (is_alphanumeric : string → bool) (fts_match : string → FtsRow → bool).
Context (s : Store) (now : Millis) (e : SearchExpr) (limit : Z).
Abbreviation search_rows := (search_rows is_alphanumeric fts_match s now).
Abbreviation search := (search is_alphanumeric fts_match s now).

Definition search_size : nat := Z.to_nat (Z.min (Z.max limit 1) MAX_RESULTS).
Definition found_rows : list (Key * ThreadRow) := merge_sort newest (search_rows e).

Lemma search_page cursor k : has_empty_or e = false → NoDup (fst <$> search_rows e) → cursor_key cursor k →
  search e cursor limit = Ok (page_of s search_size (List.filter (λ r, key_lt r.1 k) found_rows)).
Proof.
  intros He Hkeys Hk. unfold Search.search.
  assert (match cursor with Some c => decode_cursor c | None => Ok (I64_MAX, I64_MAX) end = Ok k) as ->
    by (unfold cursor_key in Hk; destruct cursor; congruence).
  cbn [mbind result_bind]. rewrite He, merge_sort_filter by done. fold search_size found_rows. unfold page_of.
  f_equal. rewrite take_take, Nat.min_l by lia. done.
Qed.
End finds.

(** A message answers a query: what the query asks, outside spam and trash
    unless it names them. *)
Definition answers (is_alphanumeric : string → bool) (fts_match : string → FtsRow → bool) (s : Store) (now : Millis)
    (e : SearchExpr) (m : MessageRow) : Prop :=
  asks is_alphanumeric fts_match s now e m = true ∧
  (mentions_spam_or_trash e = false → SPAM ∉ message_label_ids s (ms_id m) ∧ TRASH ∉ message_label_ids s (ms_id m)).

Lemma message_has_label_spec s m n : message_has_label s m n = true ↔ n ∈ message_label_ids s m.
Proof.
  unfold message_has_label, message_label_ids. rewrite existsb_true, list_elem_of_fmap.
  setoid_rewrite bool_decide_eq_true. naive_solver.
Qed.
Lemma answers_spec ia fm s now e m : message_matches ia fm s now e m = true ↔ answers ia fm s now e m.
Proof.
  unfold message_matches, answers, has_label.
  rewrite andb_true_iff, orb_true_iff, andb_true_iff, !negb_true_iff, <- !not_true_iff_false, !message_has_label_spec.
  destruct (mentions_spam_or_trash e); naive_solver.
Qed.
Lemma elem_of_search_rows ia fm s now e k t : (k, t) ∈ search_rows ia fm s now e ↔
  k = (th_last_at t, th_id t) ∧ t ∈ threads s ∧ ∃ m, m ∈ messages_in s (th_id t) ∧ answers ia fm s now e m.
Proof.
  unfold search_rows, messages_in. rewrite list_elem_of_fmap. setoid_rewrite elem_of_List_filter.
  setoid_rewrite existsb_true. setoid_rewrite andb_true_iff. setoid_rewrite answers_spec. naive_solver.
Qed.
Lemma search_rows_keys ia fm s now e : NoDup (th_id <$> threads s) → NoDup (fst <$> search_rows ia fm s now e).
Proof.
  intros Hn. unfold search_rows. rewrite <- list_fmap_compose.
  apply (NoDup_fmap_1 snd). rewrite <- list_fmap_compose. by apply (NoDup_fmap_List_filter th_id).
Qed.

Section properties.
Context (to_lowercase : string → string).

(** C36. Searching: the cursors of [search], followed for a query that
    parses, end and show, each exactly once and newest first, the threads
    with one message that answers the whole query: what its tree asks, and
    neither spam nor trash unless the query names them. *)
Theorem search_pages debug is_alphanumeric fts_match s now input e limit fuel :
  reachable to_lowercase s → parse debug input = Ok e →
  (∀ t, t ∈ threads s → key_fits (th_last_at t, th_id t) ∧ key_lt (th_last_at t, th_id t) (I64_MAX, I64_MAX) = true) →
  length (threads s) < fuel →
  ∃ ts, follow_pages fuel (λ c, search is_alphanumeric fts_match s now e c limit) None = Some (thread_summary s <$> ts) ∧
    (∀ t, t ∈ ts ↔ t ∈ threads s ∧ ∃ m, m ∈ messages_in s (th_id t) ∧ answers is_alphanumeric fts_match s now e m) ∧
    NoDup (th_id <$> ts) ∧ StronglySorted newer ts.
Proof.
  intros Hr He Hfit Hfuel. apply parse_compiles in He. pose proof (reachable_consistent _ s Hr) as Hs.
  assert (NoDup (th_id <$> threads s)) as Hids by apply Hs.
  pose proof (search_rows_keys is_alphanumeric fts_match s now e Hids) as Hkeys.
  set (L := found_rows is_alphanumeric fts_match s now e).
  assert (∀ k t, (k, t) ∈ L ↔ (k, t) ∈ search_rows is_alphanumeric fts_match s now e) as HL.
  { intros k t. unfold L, found_rows. by rewrite merge_sort_Permutation. }
  destruct (follow_rows s (λ c, search is_alphanumeric fts_match s now e c limit) L (search_size limit) fuel)
    as (Hf & Hnd & Hsort); [|by apply merge_sort_descending| | |done..|].
  - unfold search_size, MAX_RESULTS. lia.
  - intros c k Hk. by apply search_page.
  - intros [k t] Hin. apply HL, elem_of_search_rows in Hin. tauto.
  - exists L.*2. split_and!; [done|intros t|done..]. rewrite list_elem_of_fmap. split.
    + intros ([k t'] & -> & Hk). apply HL, elem_of_search_rows in Hk. tauto.
    + intros H. exists ((th_last_at t, th_id t), t). split; [done|]. by apply HL, elem_of_search_rows.
Qed.
End properties.

(** An index of examples: the words of the query, anywhere in the row. *)
Definition holds_words (query : string) (r : FtsRow) : bool :=
  contains (replace "*" "" (replace QUOTE "" query)) (ascii_lower (ft_subject r +:+ " " +:+ ft_body r)).
Definition is_letter (c : string) : bool := negb (String.eqb c " ").

Lemma search_pages_witness :
  parse id "is:unread -label:tasks h" = Ok (SAnd [SIs IsUnread; SNot (SLabel "tasks"); SText "h"]) ∧
  option_map (List.map ts_id) (follow_pages 7 (λ c, search is_letter holds_words shelf 100
    (SAnd [SIs IsUnread; SNot (SLabel "tasks"); SText "h"]) c 2) None) = Some ["t5"; "t3"; "t1"] ∧
  ∃ ts : list ThreadRow, ∀ t, t ∈ ts ↔ t ∈ threads shelf ∧ ∃ m, m ∈ messages_in shelf (th_id t) ∧
    answers is_letter holds_words shelf 100 (SAnd [SIs IsUnread; SNot (SLabel "tasks"); SText "h"]) m.
Proof.
  split; [vm_compute; reflexivity|]. split; [vm_compute; reflexivity|].
  destruct (search_pages ascii_lower id is_letter holds_words shelf 100 "is:unread -label:tasks h"
    (SAnd [SIs IsUnread; SNot (SLabel "tasks"); SText "h"]) 2 7) as (ts & _ & H & _); [| | | |exists ts; exact H].
  - exact shelf_reachable.
  - vm_compute. reflexivity.
  - intros t Ht. apply thread_fits_key. revert t Ht. apply forallb_true. vm_compute. reflexivity.
  - apply Nat.ltb_lt. vm_compute. reflexivity.
Defined.
