(* ===== verification/SearchLanguage.v ===== *)
(** * SearchLanguage: a search query read back as it is written

    A tree of the search language is written as tokens, with parentheses
    where the grammar's levels need them, and the parser gives the tree. *)

From Stdlib Require Import Ascii.
From S2P Require Import Prelude.
From S2P Require Import Domain.
From S2P Require Import Text.
From S2P Require Import Time.
From S2P Require Import Search.

(** ** Writing a tree *)

(** The kinds of tokens between [OrWord]s. *)
Definition or_join (l : list (list TokenKind)) : list TokenKind :=
  match l with [] => [] | x :: l => x ++ concat (List.map (λ y, OrWord :: y) l) end.
Definition date_word (day : Z) : string :=
  let '(y, m, d) := Time.civil_from_days day in pretty y +:+ "-" +:+ pretty m +:+ "-" +:+ pretty d.
Definition mailbox_word (m : SearchMailbox) : string :=
  match m with
  | InInbox => "inbox" | InArchive => "archive" | InSent => "sent" | InDrafts => "drafts" | InTrash => "trash"
  | InSpam => "spam" | InStarred => "starred" | Anywhere => "anywhere"
  end.
Definition flag_word (f : SearchFlag) : string :=
  match f with IsUnread => "unread" | IsRead => "read" | IsStarred => "starred" | IsImportant => "important" end.
(** The field and the value that say a leaf. *)
Definition field_text (e : SearchExpr) : option (string * string) :=
  match e with
  | SFrom v => Some ("from", v) | STo v => Some ("to", v) | SCc v => Some ("cc", v) | SBcc v => Some ("bcc", v)
  | SSubject v => Some ("subject", v) | SLabel v => Some ("label", v) | SFilename v => Some ("filename", v)
  | SIn m => Some ("in", mailbox_word m)
  | SIs f => Some ("is", flag_word f)
  | SHasAttachment => Some ("has", "attachment")
  | SAfter at_ => Some ("after", date_word (at_ / DAY))
  | SBefore at_ => Some ("before", date_word (at_ / DAY))
  | SNewerThan n => Some ("newer_than", pretty n +:+ "d")
  | SOlderThan n => Some ("older_than", pretty n +:+ "d")
  | SLarger n => Some ("larger", pretty n)
  | SSmaller n => Some ("smaller", pretty n)
  | _ => None
  end.
Definition leaf_kinds (e : SearchExpr) : list TokenKind :=
  match e with
  | SText w => [Word w]
  | SPhrase q => [Quoted q]
  | e => match field_text e with Some (f, v) => [FieldName f; Quoted v] | None => [] end
  end.
(** A tree as tokens, at the level of [or] (0), [and] (1) or [unary] (2). *)
Fixpoint show (e : SearchExpr) (level : nat) : list TokenKind :=
  let group (own : nat) (l : list TokenKind) := if own <? level then OpenParen :: l ++ [CloseParen] else l in
  match e with
  | SAnd all => group 1 (concat (List.map (λ e, show e 2) all))
  | SOr any => group 0 (or_join (List.map (λ e, show e 1) any))
  | SNot e => Minus :: show e 2
  | e => leaf_kinds e
  end.

(** Trees the parser can give, and whose dates are days: no [And] or [Or]
    of fewer than two, values within their types. *)
Definition day_ok (at_ : Millis) : bool :=
  let '(y, _, _) := civil_from_days (at_ / DAY) in
  (at_ mod DAY =? 0)%Z && (1970 <=? y)%Z && (y <=? 9999)%Z.
Fixpoint parsed_tree (e : SearchExpr) : bool :=
  match e with
  | SAnd l | SOr l => (2 <=? length l) && forallb parsed_tree l
  | SNot e => parsed_tree e
  | SAfter at_ | SBefore at_ => day_ok at_
  | SNewerThan n | SOlderThan n => (0 <=? n)%Z && (n <=? U32_MAX)%Z
  | SLarger n | SSmaller n => (0 <=? n)%Z && (n <=? U64_MAX)%Z
  | _ => true
  end.

(** *** Values read back *)

Lemma days_civil z : let '(y, m, d) := civil_from_days z in days_from_civil y m d = z.
Proof.
  rewrite civil_in_year. set (era := ((z + 719468) / 146097)%Z). set (doe := ((z + 719468) mod 146097)%Z).
  assert (0 <= doe < 146097)%Z as Hdoe by (apply Z.mod_pos_bound; lia).
  destruct (year_of_era_spec doe Hdoe) as [Hy Hin]. set (yoe := year_of_era doe) in *.
  pose proof (year_length yoe era Hy) as Hlen. set (doy := (doe - year_start yoe)%Z).
  assert (0 <= doy < 366)%Z as Hdoy by (case_match; lia).
  assert (z + 719468 = era * 146097 + doe)%Z as Hz by (unfold era, doe; pose proof (Z.div_mod (z + 719468) 146097); lia).
  assert ((yoe + era * 400) / 400 = era)%Z as Hera by (Z.to_euclidean_division_equations; lia).
  assert (∀ m d, (1 <= m <= 12)%Z → (153 * ((m + 9) mod 12) + 2) / 5 + d - 1 = doy →
    days_from_civil (yoe + era * 400 + Z.b2z (m <=? 2)%Z) m d = z)%Z as Hgo.
  { intros m d Hm Hd. unfold days_from_civil. rewrite Hd.
    replace (if (m <=? 2)%Z then (yoe + era * 400 + Z.b2z (m <=? 2)%Z - 1)%Z else (yoe + era * 400 + Z.b2z (m <=? 2)%Z)%Z)
      with (yoe + era * 400)%Z by (destruct (m <=? 2)%Z; simpl; lia).
    rewrite Hera. replace (yoe + era * 400 - era * 400)%Z with yoe by lia. unfold doy, year_start. lia. }
  unfold date_in_year. apply Hgo; clear Hgo; clearbody doy; month_cases doy; simpl; lia.
Qed.


Definition all_digits (s : string) : Prop := Forall (λ a, is_Some (digit a)) (String.list_ascii_of_string s).
Lemma all_digits_pretty (n : N) : all_digits (pretty n).
Proof.
  apply Forall_forall. intros a Ha. destruct (digit a) as [d|] eqn:E; [by eexists|].
  pose proof (has_char_pretty_N a n E) as Hc. unfold has_char in Hc. rewrite existsb_false in Hc.
  specialize (Hc a Ha). by rewrite Ascii.eqb_refl in Hc.
Qed.
Lemma pretty_nonneg n : (0 ≤ n)%Z → pretty n = pretty (Z.to_N n).
Proof. intros Hn. by destruct n. Qed.
Lemma digit_plain a : is_Some (digit a) → continuation a = false ∧ ascii_lower_char a = a ∧
  Ascii.eqb a "-" = false ∧ Ascii.eqb a "/" = false ∧ Ascii.eqb a "+" = false ∧ multiplier (String a "") = None.
Proof. destruct a as [[] [] [] [] [] [] [] []]; intros [d [=]]; vm_compute; repeat split. Qed.
Lemma parse_unsigned_pretty bits n : (0 ≤ n < 2 ^ bits)%Z → parse_unsigned bits (pretty n) = Some n.
Proof.
  intros Hn. rewrite pretty_nonneg by lia. destruct (pretty_N_head (Z.to_N n)) as (a & s & E & Ha).
  unfold parse_unsigned. rewrite E, strip_prefix_digit by done. cbn [default from_option]. rewrite <- E, parse_N_pretty.
  cbn -[Z.pow]. rewrite Z2N.id by lia. destruct (Z.ltb_spec n (2 ^ bits)); [done|lia].
Qed.
Lemma ascii_lower_digits s : all_digits s → ascii_lower s = s.
Proof.
  unfold all_digits. induction s as [|a s IH]; [done|]. cbn. intros [Ha Hs]%Forall_cons.
  destruct (digit_plain a Ha) as (_ & -> & _). by rewrite IH.
Qed.
Lemma last_split (s : string) : s ≠ "" → ∃ x a, s = x +:+ String a "".
Proof.
  induction s as [|a s IH]; [done|]. intros _. destruct s as [|b s]; [by exists "", a|].
  destruct IH as (x & c & E); [done|]. exists (String a x), c. change (String a x +:+ String c "") with (String a (x +:+ String c "")).
  by rewrite <- E.
Qed.

Section values.
Context (debug : string → string).

Lemma parse_size_pretty n : (0 ≤ n ≤ U64_MAX)%Z → parse_size debug (pretty n) = Ok n.
Proof.
  intros Hn. pose proof (parse_unsigned_pretty 64 n) as Hp. unfold U64_MAX in Hn. specialize (Hp ltac:(lia)).
  pose proof (all_digits_pretty (Z.to_N n)) as Hd. rewrite <- pretty_nonneg in Hd by lia.
  unfold parse_size. rewrite ascii_lower_digits by done. destruct (last_split (pretty n)) as (x & a & E).
  { intros E. by rewrite E in Hp. }
  assert (multiplier (String.substring (String.length (pretty n) - 1) 1 (pretty n)) = None) as ->.
  { rewrite E, length_str_app. cbn [String.length]. replace (String.length x + 1 - 1) with (String.length x) by lia.
    rewrite substring_suffix. unfold all_digits in Hd. rewrite E, list_ascii_app in Hd. apply Forall_app in Hd as [_ Hd].
    apply Forall_inv, digit_plain in Hd as (_ & _ & _ & _ & _ & Hm). exact Hm. }
  unfold parse_u64. rewrite Hp. cbn -[Z.mul U64_MAX]. f_equal. unfold U64_MAX. lia.
Qed.
Lemma parse_age_days n : (0 ≤ n ≤ U32_MAX)%Z → parse_age debug (pretty n +:+ "d") = Some (Ok n).
Proof.
  intros Hn. unfold U32_MAX in Hn. unfold parse_age. rewrite length_str_app. cbn [String.length].
  replace (String.length (pretty n) + 1 - 1) with (String.length (pretty n)) by lia.
  rewrite substring_prefix, substring_suffix. unfold parse_u32. rewrite parse_unsigned_pretty by lia.
  assert (String.substring 0 (String.length (pretty n) + 1) "d" = "d") as ->; [|done].
  rewrite Nat.add_comm. cbn. by destruct (String.length (pretty n)).
Qed.

(** Strings of one-byte characters, split at a separator. *)
Definition split_step (sep : string → bool) (c : string) (acc : list string) : list string :=
  if sep c then "" :: acc else match acc with p :: acc => (c +:+ p) :: acc | [] => [c] end.
Lemma split_chars_plain sep x y : plain_bytes x →
  (∀ a, a ∈ String.list_ascii_of_string x → sep (String a "") = false) →
  match y with String b _ => continuation b = false | EmptyString => True end →
  split_chars sep (x +:+ y) =
    match split_chars sep y with p :: l => (x +:+ p) :: l | [] => [x] end.
Proof.
  unfold plain_bytes. intros Hx Hs Hy. induction x as [|a x IH].
  { change ("" +:+ y) with y. unfold split_chars. destruct (foldr _ _ _) as [|p l] eqn:E; [|done].
    exfalso. revert E. generalize (chars y). intros l. destruct l as [|c l]; cbn; [done|]. destruct (sep c); [done|].
    by destruct (foldr _ _ l). }
  change (String a x +:+ y) with (String a (x +:+ y)). cbn in Hx. apply Forall_cons in Hx as [_ Hx].
  unfold split_chars at 1. rewrite chars_cons.
  2:{ destruct x as [|b x]; [exact Hy|]. by apply Forall_inv in Hx. }
  cbn [foldr]. rewrite Hs by left. change (foldr _ _ (chars (x +:+ y))) with (split_chars sep (x +:+ y)).
  rewrite IH; [|done|intros b Hb; apply Hs; by right]. by destruct (split_chars sep y).
Qed.
Lemma split_chars_sep sep a y : sep (String a "") = true →
  match y with String b _ => continuation b = false | EmptyString => True end →
  split_chars sep (String a y) = "" :: split_chars sep y.
Proof. intros Hs Hy. unfold split_chars. rewrite chars_cons by done. cbn [foldr]. by rewrite Hs. Qed.
End values.
Lemma digits_plain s : all_digits s → plain_bytes s.
Proof. intros Hs. eapply Forall_impl; [exact Hs|]. intros a Ha. by apply digit_plain in Ha as [-> _]. Qed.
Definition date_sep (c : string) : bool := String.eqb c "-" || String.eqb c "/".
Lemma digits_no_sep s a : all_digits s → a ∈ String.list_ascii_of_string s → date_sep (String a "") = false.
Proof.
  intros Hs Ha. unfold all_digits in Hs. rewrite Forall_forall in Hs. apply Hs, digit_plain in Ha as (_ & _ & H1 & H2 & _).
  unfold date_sep. cbn. by rewrite H1, H2.
Qed.
Lemma digits_head s y : all_digits s → match s +:+ String "-" y with String b _ => continuation b = false | EmptyString => True end.
Proof.
  intros Hs. destruct s as [|a s]; [done|]. change (String a s +:+ ?z) with (String a (s +:+ z)).
  by apply Forall_inv, digit_plain in Hs as [Hs _].
Qed.

Section fields.
Context (debug : string → string).

Lemma parse_date_word at_ : day_ok at_ = true → parse_date debug (date_word (at_ / DAY)) = Ok at_.
Proof.
  unfold day_ok, date_word. pose proof (days_civil (at_ / DAY)) as Hday.
  pose proof (civil_from_days_valid (at_ / DAY)) as Hval. destruct (civil_from_days (at_ / DAY)) as [[y m] d].
  intros [[Hmod Hy1]%andb_true_iff Hy2]%andb_true_iff. destruct Hval as [Hm Hd].
  assert (d <= 31)%Z as Hd31 by (unfold month_days in Hd; repeat case_match; lia).
  assert (∀ n, (0 ≤ n)%Z → all_digits (pretty n)) as Hdig by (intros n Hn; rewrite pretty_nonneg by done; apply all_digits_pretty).
  assert (0 ≤ y ∧ 0 ≤ m ∧ 0 ≤ d)%Z as (H1 & H2 & H3) by lia.
  apply Hdig in H1, H2, H3. unfold parse_date.
  change (λ c, String.eqb c "-" || String.eqb c "/") with date_sep.
  change (pretty y +:+ "-" +:+ pretty m +:+ "-" +:+ pretty d)
    with (pretty y +:+ String "-" (pretty m +:+ String "-" (pretty d))).
  assert (∀ s, all_digits s → ∀ a, a ∈ String.list_ascii_of_string s → date_sep (String a "") = false) as Hsep
    by (intros; by eapply digits_no_sep).
  assert (split_chars date_sep (pretty d) = [pretty d]) as Ed.
  { pose proof (split_chars_plain date_sep (pretty d) "" (digits_plain _ H3) (Hsep _ H3) I) as E.
    change (split_chars date_sep "") with [""] in E. rewrite !str_app_nil in E. exact E. }
  assert (match pretty d with String b _ => continuation b = false | EmptyString => True end) as Hhd.
  { destruct (pretty d) as [|b s]; [done|]. by apply Forall_inv, digit_plain in H3 as [H3 _]. }
  assert (split_chars date_sep (pretty m +:+ String "-" (pretty d)) = [pretty m; pretty d]) as Em.
  { rewrite (split_chars_plain date_sep (pretty m)), split_chars_sep, Ed;
      [by rewrite str_app_nil|done|done|by apply digits_plain|by apply Hsep|done]. }
  rewrite (split_chars_plain date_sep (pretty y)), split_chars_sep, Em;
    [|done|by apply digits_head|by apply digits_plain|by apply Hsep|done].
  rewrite str_app_nil. rewrite !parse_i64_pretty by (unfold in_i64; lia). cbn [ok_or mbind result_bind].
  destruct (Z.leb_spec 1970 y), (Z.leb_spec y 9999), (Z.leb_spec 1 m), (Z.leb_spec m 12), (Z.leb_spec 1 d),
    (Z.leb_spec d 31); try lia. cbn [andb]. rewrite Hday. f_equal. unfold DAY in *.
  pose proof (Z.div_mod at_ (86400 * 1000)). lia.
Qed.

(** What a leaf says of itself is read back. *)
Lemma field_expr_text e f v : parsed_tree e = true → field_text e = Some (f, v) → field_expr debug f v = Some (Ok e).
Proof.
  destruct e; intros Hp [= <- <-]; try reflexivity.
  - by destruct mailbox.
  - by destruct flag.
  - cbn in Hp. unfold field_expr. cbn [String.eqb Ascii.eqb Bool.eqb]. unfold told. by rewrite parse_date_word.
  - cbn in Hp. unfold field_expr. cbn [String.eqb Ascii.eqb Bool.eqb]. unfold told. by rewrite parse_date_word.
  - cbn in Hp. unfold field_expr, aged. cbn [String.eqb Ascii.eqb Bool.eqb]. by rewrite parse_age_days by lia.
  - cbn in Hp. unfold field_expr, aged. cbn [String.eqb Ascii.eqb Bool.eqb]. by rewrite parse_age_days by lia.
  - cbn in Hp. unfold field_expr, told. cbn [String.eqb Ascii.eqb Bool.eqb]. by rewrite parse_size_pretty by lia.
  - cbn in Hp. unfold field_expr, told. cbn [String.eqb Ascii.eqb Bool.eqb]. by rewrite parse_size_pretty by lia.
Qed.
End fields.

(** ** Tokens read back *)

Section readback.
Context (debug : string → string).

Definition ors (e : SearchExpr) : list SearchExpr := match e with SOr l => l | e => [e] end.
Definition ands (e : SearchExpr) : list SearchExpr := match e with SAnd l => l | e => [e] end.
Lemma show_or e : show e 0 = or_join (List.map (λ e, show e 1) (ors e)).
Proof. destruct e; cbn; by rewrite ?app_nil_r. Qed.
Lemma show_and e : show e 1 = concat (List.map (λ e, show e 2) (ands e)).
Proof. destruct e; cbn; by rewrite ?app_nil_r. Qed.
Lemma one_ors e : parsed_tree e = true → one_or SOr (ors e) = e.
Proof. by destruct e as [|[|? [|? ?]]| | | | | | | | | | | | | | | | | | |]. Qed.
Lemma one_ands e : parsed_tree e = true → one_or SAnd (ands e) = e.
Proof. by destruct e as [[|? [|? ?]]| | | | | | | | | | | | | | | | | | | |]. Qed.

(** What may follow a term, and what may follow a whole query. *)
Definition starts_term (k : TokenKind) : bool := match k with OrWord | CloseParen => false | _ => true end.
Definition ends_and (ts : list Token) : Prop := match ts with [] => True | t :: _ => starts_term (tk_kind t) = false end.
Definition ends_or (ts : list Token) : Prop := match ts with [] => True | t :: _ => tk_kind t = CloseParen end.

(** [e] is read back by [p] from its tokens, before [rest]. *)
Definition reads (p : nat → list Token → result Stop (SearchExpr * list Token)) (fuel : nat) (ok : list Token → Prop)
    (level : nat) (e : SearchExpr) : Prop :=
  ∀ n ts rest, tk_kind <$> ts = show e level → ok rest → 5 * length (ts ++ rest) + fuel ≤ n →
    p n (ts ++ rest) = Ok (e, rest).
Definition reads_unary := reads (parse_unary debug) 2 (λ _, True) 2.
Definition reads_and := reads (parse_and debug) 4 ends_and 1.
Definition reads_or := reads (parse_or debug) 5 ends_or 0.

Lemma show_starts e : parsed_tree e = true → ∃ k ks, show e 2 = k :: ks ∧ starts_term k = true.
Proof. destruct e; intros Hp; cbn; by eauto. Qed.

Lemma and_more_reads l acc n ts rest :
  Forall reads_unary l → Forall (λ e, parsed_tree e = true) l → acc ++ l ≠ [] →
  tk_kind <$> ts = concat (List.map (λ e, show e 2) l) → ends_and rest → 5 * length (ts ++ rest) + 3 ≤ n →
  and_more debug n acc (ts ++ rest) = Ok (one_or SAnd (acc ++ l), rest).
Proof.
  revert acc n ts. induction l as [|e l IH]; intros acc n ts Hl Hp Hne Hk Hrest Hn.
  - rewrite app_nil_r in Hne |- *. apply fmap_nil_inv in Hk as ->. cbn in *.
    destruct n as [|n]; [lia|]. cbn. destruct acc as [|x acc]; [done|].
    destruct rest as [|[[] a] rest]; done.
  - apply Forall_cons in Hl as [He Hl]. apply Forall_cons in Hp as [Hpe Hp]. cbn in Hk.
    apply fmap_app_inv in Hk as (t1 & t2 & Hk1 & Hk2 & ->). rewrite <- app_assoc in Hn |- *.
    destruct n as [|n]; [lia|]. destruct (show_starts e Hpe) as (k & ks & Es & Hstart).
    assert (and_more debug (S n) acc (t1 ++ t2 ++ rest) =
      ('(e, ts) ← parse_unary debug n (t1 ++ t2 ++ rest); and_more debug n (acc ++ [e]) ts)) as ->.
    { rewrite Es in Hk1. destruct t1 as [|[k' a] t1]; [done|]. cbn in Hk1. injection Hk1 as Hk' _. cbn [app and_more].
      destruct k'; try reflexivity; by subst k. }
    rewrite (He n t1 (t2 ++ rest)) by (done || lia). cbn [mbind result_bind].
    rewrite (IH (acc ++ [e])), <- app_assoc; [done|done|done|by destruct acc|done|done|].
    rewrite Es in Hk1. destruct t1 as [|t t1]; [done|]. rewrite !length_app in Hn. rewrite length_app. cbn in Hn. lia.
Qed.
Lemma reads_and_all e : parsed_tree e = true → Forall reads_unary (ands e) →
  Forall (λ e, parsed_tree e = true) (ands e) → reads_and e.
Proof.
  intros Hp Hl Hpl n ts rest Hk Hrest Hn. destruct n as [|n]; [lia|]. cbn.
  rewrite (and_more_reads (ands e) []); [cbn [app]; by rewrite one_ands|done|done| |by rewrite <- show_and|done|lia].
  by destruct e as [[|]| | | | | | | | | | | | | | | | | | | |].
Qed.

Lemma or_ends_and l ts rest :
  tk_kind <$> ts = concat (List.map (λ e, OrWord :: show e 1) l) → ends_or rest → ends_and (ts ++ rest).
Proof.
  intros Hk Hrest. destruct ts as [|[k a] ts].
  - cbn. destruct rest as [|t rest]; [done|]. cbn in *. by rewrite Hrest.
  - destruct l as [|e l]; [done|]. cbn in Hk. injection Hk as -> _. reflexivity.
Qed.
Lemma or_more_reads l acc n ts rest :
  Forall reads_and l → tk_kind <$> ts = concat (List.map (λ e, OrWord :: show e 1) l) → ends_or rest →
  5 * length (ts ++ rest) + 1 ≤ n → or_more debug n acc (ts ++ rest) = Ok (one_or SOr (acc ++ l), rest).
Proof.
  revert acc n ts. induction l as [|e l IH]; intros acc n ts Hl Hk Hrest Hn.
  - rewrite app_nil_r. apply fmap_nil_inv in Hk as ->. cbn in *. destruct n as [|n]; [lia|]. cbn.
    destruct rest as [|[[] a] rest]; done.
  - apply Forall_cons in Hl as [He Hl]. cbn in Hk. destruct ts as [|[k a] ts]; [done|]. injection Hk as -> Hk.
    apply fmap_app_inv in Hk as (t1 & t2 & Hk1 & Hk2 & ->). cbn in Hn. rewrite <- app_assoc in Hn.
    destruct n as [|n]; [lia|]. cbn. rewrite <- app_assoc.
    assert (ends_and (t2 ++ rest)) as Hend by (by eapply or_ends_and).
    rewrite (He n t1 (t2 ++ rest)) by (done || lia). cbn [mbind result_bind].
    rewrite (IH (acc ++ [e])), <- app_assoc; [done|done|done|done|]. rewrite !length_app in Hn. rewrite length_app. lia.
Qed.
Lemma reads_or_all e : parsed_tree e = true → Forall reads_and (ors e) → reads_or e.
Proof.
  intros Hp Hl n ts rest Hk Hrest Hn. rewrite show_or in Hk.
  destruct (ors e) as [|x l] eqn:E; [by destruct e as [|[]| | | | | | | | | | | | | | | | | | |]|].
  apply Forall_cons in Hl as [Hx Hl]. cbn [List.map or_join] in Hk.
  apply fmap_app_inv in Hk as (t1 & t2 & Hk1 & Hk2 & ->). rewrite <- app_assoc in Hn |- *.
  destruct n as [|n]; [lia|]. cbn. rewrite List.map_map in Hk2.
  assert (ends_and (t2 ++ rest)) as Hend by (by eapply or_ends_and).
  rewrite (Hx n t1 (t2 ++ rest)) by (done || lia). cbn [mbind result_bind].
  rewrite (or_more_reads l [x]); [|done|done|done|rewrite !length_app in Hn; rewrite length_app; lia].
  cbn [app]. by rewrite <- E, one_ors.
Qed.

(** Every tree is read back, by induction on its nesting. *)
Fixpoint nesting (e : SearchExpr) : nat :=
  match e with
  | SAnd l | SOr l => S (foldr (λ e n, nesting e + n) 0 l)
  | SNot e => S (nesting e)
  | _ => 0
  end.
Lemma nesting_part l e : e ∈ l → nesting e ≤ foldr (λ e n, nesting e + n) 0 l.
Proof. induction 1 as [e l|e x l _ IH]; cbn; lia. Qed.
Lemma parsed_parts l : (2 <=? length l) && forallb parsed_tree l = true → ∀ e, e ∈ l → parsed_tree e = true.
Proof. intros [_ H]%andb_true_iff e He. rewrite forallb_forall in H. apply H. by apply list_elem_of_In. Qed.

Lemma reads_grouped e : reads_or e → show e 2 = OpenParen :: show e 0 ++ [CloseParen] → reads_unary e.
Proof.
  intros He Es n ts rest Hk _ Hn. rewrite Es in Hk. destruct ts as [|[k a] ts]; [done|]. injection Hk as -> Hk.
  apply fmap_app_inv in Hk as (t1 & t2 & Hk1 & Hk2 & ->). destruct t2 as [|[k' a'] [|? ?]]; [done| |done].
  injection Hk2 as <-. cbn [app] in *. rewrite <- app_assoc in Hn |- *. cbn [app length] in *.
  destruct n as [|[|n]]; [lia..|]. cbn. rewrite (He n t1); [done|done|done|lia].
Qed.
Lemma reads_leaf e : nesting e = 0 → parsed_tree e = true → reads_unary e.
Proof.
  intros Hz Hp n ts rest Hk _ Hn. destruct n as [|[|n]]; [lia..|].
  assert (∀ f v, field_text e = Some (f, v) → show e 2 = [FieldName f; Quoted v] →
    parse_unary debug (S (S n)) (ts ++ rest) = Ok (e, rest)) as Hfield.
  { intros f v Ef Es. rewrite Es in Hk. destruct ts as [|[k a] [|[k' a'] [|? ?]]]; try done. injection Hk as -> ->.
    cbn -[field_expr]. by rewrite (field_expr_text debug e f v). }
  destruct e; try discriminate Hz; try (by eapply Hfield).
  - destruct ts as [|[k a] [|? ?]]; try done. by injection Hk as ->.
  - destruct ts as [|[k a] [|? ?]]; try done. by injection Hk as ->.
Qed.
Lemma reads_all d e : nesting e ≤ d → parsed_tree e = true → reads_unary e.
Proof.
  revert e. induction d as [|d IH]; intros e Hd Hp; [by apply reads_leaf; [lia|]|].
  assert (∀ e', parsed_tree e' = true → (∀ x, x ∈ ands e' → parsed_tree x = true ∧ nesting x ≤ d) → reads_and e') as Hand.
  { intros e' He' Hx. apply reads_and_all; [done|apply Forall_forall..]; intros x Hxe; [apply IH|]; by apply Hx. }
  destruct e; try (by apply reads_leaf; cbn in *).
  - cbn in Hd. pose proof (parsed_parts _ Hp) as Hl. apply reads_grouped; [|reflexivity].
    apply reads_or_all; [done|]. constructor; [|constructor]. apply Hand; [done|]. intros x Hx.
    split; [by apply Hl|]. pose proof (nesting_part _ _ Hx) as Hn. cbn in Hn. lia.
  - cbn in Hd. pose proof (parsed_parts _ Hp) as Hl. apply reads_grouped; [|reflexivity].
    apply reads_or_all; [done|]. apply Forall_forall. intros y Hy. cbn [ors] in Hy. pose proof (nesting_part _ _ Hy).
    assert (nesting y ≤ d) as Hyd by lia. apply Hand; [by apply Hl|]. intros x Hx. pose proof (Hl y Hy) as Hpy.
    destruct y; try (apply list_elem_of_singleton in Hx as ->; by split).
    split; [by apply (parsed_parts _ Hpy)|]. pose proof (nesting_part _ _ Hx) as Hn. cbn in Hn, Hyd. lia.
  - cbn in Hd, Hp. intros n ts rest Hk _ Hn. destruct ts as [|[k a] ts]; [done|]. injection Hk as -> Hk.
    destruct n as [|n]; [lia|]. cbn. rewrite (IH e ltac:(lia) Hp n ts rest); [done|done|done|cbn in Hn; lia].
Qed.
Lemma tokens_read e : parsed_tree e = true → reads_or e.
Proof.
  intros Hp. assert (∀ x, parsed_tree x = true → reads_and x) as Hand.
  { intros x Hx. apply reads_and_all; [done|apply Forall_forall..]; intros y Hy.
    - destruct x; try (apply list_elem_of_singleton in Hy as ->; by eapply reads_all).
      eapply reads_all; [done|]. by apply (parsed_parts _ Hx).
    - destruct x; try (by apply list_elem_of_singleton in Hy as ->). by apply (parsed_parts _ Hx). }
  apply reads_or_all; [done|]. apply Forall_forall. intros x Hx. apply Hand.
  destruct e; try (by apply list_elem_of_singleton in Hx as ->). by apply (parsed_parts _ Hp).
Qed.
End readback.

Lemma parsed_head l : (2 <=? length l) && forallb parsed_tree l = true → ∃ x l', l = x :: l' ∧ parsed_tree x = true.
Proof. destruct l as [|x l]; [done|]. intros Hl. exists x, l. split; [done|]. by apply (parsed_parts _ Hl); left. Qed.
Lemma show_one e : parsed_tree e = true → show e 1 ≠ [].
Proof.
  intros He Hs. destruct e; try discriminate Hs. destruct (parsed_head _ He) as (x & l & -> & Hx).
  cbn in Hs. apply app_eq_nil in Hs as [Hs _]. by destruct (show_starts x Hx) as (k & ks & E & _); rewrite E in Hs.
Qed.
Lemma show_written e : parsed_tree e = true → show e 0 ≠ [].
Proof.
  intros He Hs. destruct e; try discriminate Hs; [by apply (show_one _ He)|].
  destruct (parsed_head _ He) as (x & l & -> & Hx). cbn in Hs. apply app_eq_nil in Hs as [Hs _]. by apply (show_one x Hx).
Qed.

(** A tree written as tokens and read back is the same tree: an [or] inside
    an [and] in parentheses, a [not] before its term, a field's value in
    quotes; the tokens stand where they will. *)
Lemma parse_shown (debug : string → string) (e : SearchExpr) (ts : list Token) :
  parsed_tree e = true → tk_kind <$> ts = show e 0 → parse_tokens debug ts = Ok e.
Proof.
  intros He Hts. destruct ts as [|t ts].
  { exfalso. by apply (show_written e He). }
  unfold parse_tokens. pose proof (λ n, tokens_read debug e He n (t :: ts) [] Hts I) as Hread. rewrite app_nil_r in Hread.
  unfold parse_fuel. rewrite (Hread _ (le_n _)). done.
Qed.

(** * A search query typed and read back

    The tokens of a tree, typed as a line of text, are the tokens the line is
    cut into: words are words, quotes close, a field keeps its value, a minus
    its term.  With [SearchLanguage], a tree typed and parsed is the tree. *)

(** ** Typing *)

Definition type_kind (k : TokenKind) : string :=
  match k with
  | Word w => w +:+ " "
  | Quoted q => quoted q +:+ " "
  | FieldName f => f +:+ ":"
  | Minus => "-"
  | OpenParen => "( "
  | CloseParen => ") "
  | OrWord => "OR "
  end.
Definition typed (ks : list TokenKind) : string := foldr (λ k s, type_kind k +:+ s) "" ks.

(** What does not start inside a character. *)
Definition starts_char (s : string) : Prop :=
  match s with String a _ => continuation a = false | EmptyString => True end.
#[global] Instance starts_char_dec s : Decision (starts_char s).
Proof. destruct s; apply _. Defined.
(** A word that is only a word: of word characters, no field, no minus, no
    [OR]. *)
Definition bare (w : string) : bool :=
  bool_decide (starts_char w) && negb (String.eqb w "") && forallb word_char (chars w) &&
  match chars w with c :: _ => negb (String.eqb c "-") | [] => false end &&
  negb (String.eqb w "OR") && negb (String.eqb w "|") &&
  match field_of w with Some _ => false | None => true end.
Definition quotable (q : string) : bool := bool_decide (starts_char q) && negb (has_char "034" q).
(** Tokens that can be typed: a field has its quoted value, a minus what it
    negates. *)
Fixpoint typable (ks : list TokenKind) : bool :=
  match ks with
  | [] => true
  | Word w :: ks => bare w && typable ks
  | Quoted q :: ks => quotable q && typable ks
  | FieldName f :: ks => bool_decide (f ∈ FIELDS) && match ks with Quoted _ :: _ => true | _ => false end && typable ks
  | Minus :: ks => match ks with [] => false | _ => true end && typable ks
  | _ :: ks => typable ks
  end.

(** ** Characters *)

Lemma chars_app x y : starts_char y → chars (x +:+ y) = chars x ++ chars y.
Proof.
  intros Hy. induction x as [|a x IH]; [done|]. change (String a x +:+ y) with (String a (x +:+ y)).
  destruct x as [|b x]; [by rewrite chars_cons|].
  change (chars (String a (String b x +:+ y))) with
    (match chars (String b x +:+ y), String b x +:+ y with
     | c :: cs, String b' _ => if continuation b' then String a c :: cs else String a "" :: c :: cs
     | _, _ => [String a ""] end).
  change (chars (String a (String b x))) with
    (match chars (String b x) with c :: cs => if continuation b then String a c :: cs else String a "" :: c :: cs
     | [] => [String a ""] end).
  rewrite IH. change (String b x +:+ y) with (String b (x +:+ y)).
  destruct (chars (String b x)) as [|c cs] eqn:E; [|by destruct (continuation b)].
  exfalso. cbn in E. destruct (chars x), x; try discriminate E; by destruct (continuation _).
Qed.
Lemma concat_chars_of s : concat_chars (chars s) = s.
Proof.
  induction s as [|a s IH]; [done|]. cbn [chars]. destruct (chars s) as [|c cs] eqn:E.
  - rewrite <- IH. done.
  - destruct s as [|b s]; [done|]. destruct (continuation b).
    + change (String a (concat_chars (c :: cs)) = String a (String b s)). by rewrite IH.
    + change (String a (concat_chars (c :: cs)) = String a (String b s)). by rewrite IH.
Qed.
Lemma chars_bytes s c a : c ∈ chars s → a ∈ String.list_ascii_of_string c → a ∈ String.list_ascii_of_string s.
Proof.
  intros Hc Ha. rewrite <- (concat_chars_of s). induction Hc as [c l|c d l _ IH]; cbn [concat_chars foldr].
  - rewrite list_ascii_app. apply elem_of_app. by left.
  - rewrite list_ascii_app. apply elem_of_app. right. by apply IH.
Qed.
Lemma no_quote q c : has_char "034" q = false → c ∈ chars q → String.eqb c QUOTE = false.
Proof.
  intros Hq Hc. apply String.eqb_neq. intros ->. unfold has_char in Hq. rewrite existsb_false in Hq.
  specialize (Hq "034"%char (chars_bytes q _ _ Hc ltac:(by left))). by rewrite Ascii.eqb_refl in Hq.
Qed.

(** ** Cutting into tokens *)

(** The characters [cs] are cut into tokens of the kinds [ks], wherever they
    stand. *)
Definition cuts (cs : list string) (ks : list TokenKind) : Prop :=
  ∀ at_, ∃ ts, tokenize_from 0 (char_indices at_ cs) = Ok ts ∧ tk_kind <$> ts = ks.
(** One token, then the rest. *)
Lemma cuts_add k xs ys ks :
  (∀ at_, ∃ here after, tokenize_from 0 (char_indices at_ xs) = add_token k here (tokenize_from 0 (char_indices after ys))) →
  cuts ys ks → cuts xs (k :: ks).
Proof.
  intros Hx Hy at_. destruct (Hx at_) as (here & after & ->). destruct (Hy after) as (ts & -> & <-).
  by exists (mkToken k here :: ts).
Qed.
Lemma cuts_space cs ks : cuts cs ks → cuts (" " :: cs) ks.
Proof. intros H at_. destruct (H (at_ + 1)) as (ts & H1 & H2). by exists ts. Qed.

Lemma skip_past xs ys at_ : ∃ after,
  tokenize_from (length xs) (char_indices at_ (xs ++ ys)) = tokenize_from 0 (char_indices after ys).
Proof.
  revert at_. induction xs as [|x xs IH]; intros at_; [by exists at_|]. apply (IH (at_ + String.length x)).
Qed.
Lemma drop_indices xs ys at_ : ∃ after, drop (length xs) (char_indices at_ (xs ++ ys)) = char_indices after ys.
Proof.
  revert at_. induction xs as [|x xs IH]; intros at_; [by exists at_|]. apply (IH (at_ + String.length x)).
Qed.
Lemma read_quoted_app open q ys at_ : (∀ c, c ∈ q → String.eqb c QUOTE = false) →
  read_quoted open (char_indices at_ (q ++ QUOTE :: ys)) = Ok (concat_chars q, S (length q)).
Proof.
  revert at_. induction q as [|c q IH]; intros at_ Hq; [done|]. cbn [app char_indices read_quoted].
  rewrite (Hq c) by by left. rewrite IH by (intros d Hd; apply Hq; by right). done.
Qed.
Lemma word_of_app at_ cs ys : forallb word_char cs = true → match ys with y :: _ => word_char y = false | [] => True end →
  word_of (char_indices at_ (cs ++ ys)) = cs.
Proof.
  revert at_. induction cs as [|c cs IH]; intros at_ Hc Hy.
  - destruct ys as [|y ys]; [done|]. cbn. by rewrite Hy.
  - cbn [forallb] in Hc. apply andb_true_iff in Hc as [Hc Hcs]. cbn [app char_indices word_of]. rewrite Hc. by rewrite IH.
Qed.

Lemma cuts_quoted q ys ks : quotable q = true → cuts ys ks → cuts (QUOTE :: chars q ++ QUOTE :: ys) (Quoted q :: ks).
Proof.
  intros [_ Hq%negb_true_iff]%andb_true_iff. apply cuts_add. intros at_. cbn [char_indices tokenize_from].
  change (is_whitespace QUOTE) with false. cbn [String.eqb Ascii.eqb Bool.eqb QUOTE andb]. cbn iota.
  rewrite (read_quoted_app _ (chars q)) by (intros c; by apply no_quote). rewrite concat_chars_of.
  cbn [mbind result_bind]. exists at_.
  destruct (skip_past (chars q ++ [QUOTE]) ys (at_ + String.length QUOTE)) as (after & E).
  rewrite length_app, Nat.add_1_r, <- app_assoc in E. by exists after; rewrite <- E.
Qed.

(** A run of word characters that does not start with a minus. *)
Definition word_run (c : string) (cs ys : list string) : Prop :=
  forallb word_char (c :: cs) = true ∧ String.eqb c "-" = false ∧ match ys with y :: _ => word_char y = false | [] => True end.
Lemma word_step c cs ys at_ : word_run c cs ys →
  tokenize_from 0 (char_indices at_ ((c :: cs) ++ ys)) =
    (let rest := char_indices (at_ + String.length c) (cs ++ ys) in
     match field_of (concat_chars (c :: cs)) with
     | Some (field, value) =>
         add_token (FieldName (ascii_lower field)) at_
           (if negb (String.eqb value "")
            then add_token (Word value) (at_ + String.length field + 1) (tokenize_from (length cs) rest)
            else match drop (length cs) rest with
                 | (q, c') :: more =>
                     if String.eqb c' QUOTE then
                       '(value, k) ← read_quoted q more;
                       add_token (Quoted value) q (tokenize_from (S (length cs) + k) rest)
                     else bad (field +:+ ": needs a value") at_
                 | [] => bad (field +:+ ": needs a value") at_
                 end)
     | None =>
         add_token (if String.eqb (concat_chars (c :: cs)) "OR" || String.eqb (concat_chars (c :: cs)) "|"
                    then OrWord else Word (concat_chars (c :: cs))) at_ (tokenize_from (length cs) rest)
     end).
Proof.
  intros (Hw & Hm & Hy). pose proof (word_of_app at_ (c :: cs) ys Hw Hy) as E.
  cbn [forallb] in Hw. apply andb_true_iff in Hw as [Hc _]. apply andb_true_iff in Hc as [Hc1%negb_true_iff Hc2].
  unfold is_special in Hc2. rewrite !negb_orb in Hc2. apply andb_true_iff in Hc2 as [[H1 H2]%andb_true_iff H3].
  rewrite negb_true_iff in H1, H2, H3. cbn [app char_indices] in E |- *. cbn [tokenize_from].
  rewrite Hc1, H1, H2, H3, Hm, E. cbn [andb length]. by rewrite Nat.sub_succ, Nat.sub_0_r.
Qed.
Lemma cuts_plain c cs ys ks k : word_run c cs ys → field_of (concat_chars (c :: cs)) = None →
  (if String.eqb (concat_chars (c :: cs)) "OR" || String.eqb (concat_chars (c :: cs)) "|"
   then OrWord else Word (concat_chars (c :: cs))) = k →
  cuts ys ks → cuts (c :: cs ++ ys) (k :: ks).
Proof.
  intros Hw Hf Hk. apply cuts_add. intros at_. change (c :: cs ++ ys) with ((c :: cs) ++ ys).
  rewrite word_step, Hf, Hk by done. cbn zeta. exists at_.
  destruct (skip_past cs ys (at_ + String.length c)) as (after & ->). by exists after.
Qed.
Lemma cuts_word w ys ks : bare w = true → match ys with y :: _ => word_char y = false | [] => True end →
  cuts ys ks → cuts (chars w ++ ys) (Word w :: ks).
Proof.
  unfold bare. rewrite !andb_true_iff. intros [[[[[[_ Hne] Hw] Hm] Hor] Hbar] Hf] Hy. pose proof (concat_chars_of w) as E.
  destruct (chars w) as [|c cs]; [done|]. apply negb_true_iff in Hm, Hor, Hbar.
  apply cuts_plain; [done| |]; rewrite E; [by destruct (field_of w)|by rewrite Hor, Hbar].
Qed.
(** A field's name and the quotes behind it. *)
Definition field_run (f : string) : bool :=
  match chars (f +:+ ":") with
  | c :: cs => forallb word_char (c :: cs) && negb (String.eqb c "-") && bool_decide (field_of (f +:+ ":") = Some (f, "")) &&
      String.eqb (ascii_lower f) f
  | [] => false
  end.
Lemma fields_run f : f ∈ FIELDS → field_run f = true.
Proof. intros Hf. revert f Hf. apply forallb_true. vm_compute. reflexivity. Qed.
Lemma cuts_field f q ys ks : f ∈ FIELDS → quotable q = true → cuts ys ks →
  cuts (chars (f +:+ ":") ++ QUOTE :: chars q ++ QUOTE :: ys) (FieldName f :: Quoted q :: ks).
Proof.
  intros Hf%fields_run [_ Hq%negb_true_iff]%andb_true_iff Hys at_. unfold field_run in Hf.
  pose proof (concat_chars_of (f +:+ ":")) as E. destruct (chars (f +:+ ":")) as [|c cs]; [done|].
  rewrite !andb_true_iff in Hf. destruct Hf as [[[Hw Hm%negb_true_iff] Hfield%bool_decide_eq_true] Hlow%String.eqb_eq].
  rewrite word_step by done. rewrite E, Hfield, Hlow. cbn zeta. cbn [String.eqb negb].
  destruct (drop_indices cs (QUOTE :: chars q ++ QUOTE :: ys) (at_ + String.length c)) as (after & ->).
  cbn [char_indices]. rewrite String.eqb_refl, (read_quoted_app _ (chars q)) by (intros d; by apply no_quote).
  rewrite concat_chars_of. cbn [mbind result_bind].
  destruct (skip_past (cs ++ QUOTE :: chars q ++ [QUOTE]) ys (at_ + String.length c)) as (after' & Es).
  rewrite !length_app in Es. cbn [length] in Es. rewrite length_app, <- app_assoc in Es. cbn [app length] in Es.
  rewrite <- app_assoc in Es. cbn [app] in Es.
  replace (S (length cs) + S (length (chars q))) with (length cs + S (length (chars q) + 1)) by lia.
  rewrite Es. destruct (Hys after') as (ts & -> & <-).
  by exists (mkToken (FieldName f) at_ :: mkToken (Quoted q) after :: ts).
Qed.

(** *** A typed line *)

Lemma field_starts f : f ∈ FIELDS → starts_char f.
Proof.
  intros Hf. apply (bool_decide_eq_true (starts_char f)). revert f Hf.
  apply (forallb_true (λ f, bool_decide (starts_char f))). vm_compute. reflexivity.
Qed.
Lemma starts_char_app x y : starts_char x → starts_char y → starts_char (x +:+ y).
Proof. by destruct x. Qed.
Lemma typed_starts ks : typable ks = true → starts_char (typed ks).
Proof.
  induction ks as [|k ks IH]; [done|]. intros Hk. cbn [typed foldr].
  assert (typable ks = true) as Hks by (destruct k; cbn in Hk; rewrite ?andb_true_iff in Hk; tauto).
  apply starts_char_app; [|by apply IH]. destruct k; try done; cbn [typable type_kind] in *.
  - unfold bare in Hk. rewrite !andb_true_iff, bool_decide_eq_true in Hk. by apply starts_char_app; [tauto|].
  - rewrite !andb_true_iff, bool_decide_eq_true in Hk. apply starts_char_app; [|done]. apply field_starts. tauto.
Qed.
(** The characters of the tokens, one kind at a time. *)
Definition kind_chars (k : TokenKind) : list string :=
  match k with
  | Word w => chars w ++ [" "]
  | Quoted q => QUOTE :: chars q ++ [QUOTE; " "]
  | k => chars (type_kind k)
  end.
Lemma typed_chars k ks : typable (k :: ks) = true → chars (typed (k :: ks)) = kind_chars k ++ chars (typed ks).
Proof.
  intros Hk. assert (typable ks = true) as Hks by (destruct k; cbn in Hk; rewrite ?andb_true_iff in Hk; tauto).
  cbn [typed foldr]. change (foldr _ _ ks) with (typed ks). rewrite chars_app by by apply typed_starts. f_equal.
  destruct k; try done; cbn [type_kind kind_chars].
  - by rewrite chars_app.
  - cbn [typable] in Hk. unfold quotable in Hk. rewrite !andb_true_iff, bool_decide_eq_true in Hk. destruct Hk as [[Hq _] _].
    unfold quoted. rewrite !chars_app by (done || by apply starts_char_app). cbn. by rewrite <- app_assoc.
Qed.
Lemma typed_head ks : typable ks = true → ks ≠ [] → starts_word (char_indices 0 (chars (typed ks))) = true.
Proof.
  destruct ks as [|k ks]; [done|]. intros Hk _. rewrite typed_chars by done. destruct k; try done; cbn [typable kind_chars] in *.
  - unfold bare in Hk. rewrite !andb_true_iff in Hk. destruct Hk as [[[[[[[_ _] Hw] Hm] _] _] _] _].
    destruct (chars w) as [|c cs]; [done|]. cbn in Hw |- *. unfold word_char in Hw. rewrite !andb_true_iff in Hw. tauto.
  - rewrite !andb_true_iff, bool_decide_eq_true in Hk. destruct Hk as [[Hf%fields_run _] _]. unfold field_run in Hf.
    cbn [type_kind]. destruct (chars (f +:+ ":")) as [|c cs]; [done|]. rewrite !andb_true_iff in Hf.
    cbn in Hf |- *. unfold word_char in Hf. rewrite !andb_true_iff in Hf. tauto.
Qed.
Lemma cuts_minus ys ks : starts_word (char_indices 0 ys) = true → cuts ys ks → cuts ("-" :: ys) (Minus :: ks).
Proof.
  intros Hy. apply cuts_add. intros at_. exists at_, (at_ + 1).
  assert (starts_word (char_indices (at_ + 1) ys) = true) as Hw by by destruct ys.
  cbn [char_indices tokenize_from]. change (is_whitespace "-") with false. cbn [String.eqb Ascii.eqb Bool.eqb andb].
  cbn [String.length]. by rewrite Hw.
Qed.
Lemma cuts_paren (open : bool) ys ks : cuts ys ks →
  cuts ((if open then "(" else ")") :: ys) ((if open then OpenParen else CloseParen) :: ks).
Proof. apply cuts_add. intros at_. exists at_, (at_ + 1). by destruct open. Qed.

Lemma typed_cuts ks : typable ks = true → cuts (chars (typed ks)) ks.
Proof.
  induction ks as [ks IH] using (induction_ltof1 _ length). unfold ltof in IH. intros Hk.
  destruct ks as [|k ks]; [intros at_; by exists []|].
  assert (typable ks = true) as Hks by (destruct k; cbn in Hk; rewrite ?andb_true_iff in Hk; tauto).
  rewrite typed_chars by done. pose proof (IH ks ltac:(cbn; lia) Hks) as Hcuts.
  destruct k; cbn [typable kind_chars] in *.
  - rewrite <- app_assoc. apply cuts_word; [|done|by apply cuts_space].
    rewrite andb_true_iff in Hk. tauto.
  - rewrite andb_true_iff in Hk. cbn [app]. rewrite <- app_assoc. cbn [app]. apply cuts_quoted; [tauto|by apply cuts_space].
  - rewrite !andb_true_iff, bool_decide_eq_true in Hk. destruct Hk as [[Hf Hn] _]. destruct ks as [|[] ks]; try done.
    rewrite typed_chars by done. cbn [typable kind_chars type_kind] in *. rewrite andb_true_iff in Hks. cbn [app].
    rewrite <- app_assoc. cbn [app]. apply cuts_field; [done|tauto|]. apply cuts_space, IH; [cbn; lia|tauto].
  - rewrite andb_true_iff in Hk. destruct Hk as [Hk _]. cbn [type_kind app]. apply cuts_minus; [|done]. apply typed_head; [done|]. by destruct ks.
  - apply (cuts_paren true (" " :: _)). by apply cuts_space.
  - apply (cuts_paren false (" " :: _)). by apply cuts_space.
  - apply (cuts_plain "O" ["R"] (" " :: _) ks); [done..|by apply cuts_space].
Qed.

(** ** Trees that can be typed *)

Fixpoint sayable (e : SearchExpr) : bool :=
  match e with
  | SAnd l | SOr l => forallb sayable l
  | SNot e => sayable e
  | SText w => bare w
  | SPhrase v | SFrom v | STo v | SCc v | SBcc v | SSubject v | SLabel v | SFilename v => quotable v
  | _ => true
  end.
(** The tokens of [e] can be typed in front of any that can. *)
Definition typed_before (e : SearchExpr) : Prop := ∀ level ks, typable (show e level ++ ks) = typable ks.

Lemma typed_group own level l ks : (∀ ks, typable (l ++ ks) = typable ks) →
  typable ((if own <? level then OpenParen :: l ++ [CloseParen] else l) ++ ks) = typable ks.
Proof. intros Hl. destruct (own <? level); [|done]. cbn. by rewrite <- app_assoc, Hl. Qed.
Lemma typed_all l ks : Forall typed_before l → typable (concat (List.map (λ e, show e 2) l) ++ ks) = typable ks.
Proof. induction 1 as [|e l He _ IH]; [done|]. cbn. by rewrite <- app_assoc, He. Qed.
Lemma typed_any l ks : Forall typed_before l → typable (or_join (List.map (λ e, show e 1) l) ++ ks) = typable ks.
Proof.
  intros [|e l' He Hl]; [done|]. cbn. rewrite <- app_assoc, He.
  induction Hl as [|x l'' Hx _ IH]; [done|]. cbn. by rewrite <- app_assoc, Hx.
Qed.

Lemma quotable_digits s y : all_digits s → quotable y = true → quotable (s +:+ y) = true.
Proof.
  unfold quotable. rewrite !andb_true_iff, !bool_decide_eq_true. intros Hs [H1 H2]. split.
  - destruct s as [|a s]; [done|]. by apply Forall_inv, digit_plain in Hs as [Hs _].
  - apply negb_true_iff, existsb_false. intros a. rewrite list_ascii_app. intros [Ha|Ha]%elem_of_app.
    + unfold all_digits in Hs. rewrite Forall_forall in Hs. apply Hs in Ha as [d Hd].
      destruct (Ascii.eqb_spec "034" a) as [<-|]; [discriminate Hd|done].
    + apply negb_true_iff in H2. unfold has_char in H2. rewrite existsb_false in H2. by apply H2.
Qed.
Lemma quotable_pretty n y : (0 ≤ n)%Z → quotable y = true → quotable (pretty n +:+ y) = true.
Proof. intros Hn. rewrite pretty_nonneg by done. apply quotable_digits, all_digits_pretty. Qed.
Lemma quotable_date at_ : day_ok at_ = true → quotable (date_word (at_ / DAY)) = true.
Proof.
  unfold day_ok, date_word. pose proof (civil_from_days_valid (at_ / DAY)) as Hval.
  destruct (civil_from_days (at_ / DAY)) as [[y m] d]. destruct Hval as [Hm Hd].
  rewrite !andb_true_iff. intros [[_ Hy%Z.leb_le] _].
  assert (∀ s, quotable s = true → quotable ("-" +:+ s) = true) as Hdash
    by (intros s [_ H]%andb_true_iff; apply andb_true_iff; split; [done|exact H]).
  assert (0 ≤ d)%Z as Hd0 by lia.
  apply quotable_pretty; [lia|]. apply Hdash, quotable_pretty; [lia|]. apply Hdash. rewrite <- (str_app_nil (pretty d)).
  by apply quotable_pretty.
Qed.
Lemma field_quotable e f v : parsed_tree e = true → sayable e = true → field_text e = Some (f, v) →
  f ∈ FIELDS ∧ quotable v = true.
Proof.
  intros Hp Hs Ef. split; [destruct e; try discriminate Ef; injection Ef as <- <-; by repeat constructor|].
  assert (∀ n y, (0 <=? n)%Z && (n <=? y)%Z = true → 0 ≤ n)%Z as Hn by lia.
  destruct e; try discriminate Ef; injection Ef as <- <-; try done; cbn in Hp, Hs.
  - by destruct mailbox.
  - by destruct flag.
  - by apply quotable_date.
  - by apply quotable_date.
  - apply quotable_pretty; [by eapply Hn|done].
  - apply quotable_pretty; [by eapply Hn|done].
  - rewrite <- (str_app_nil (pretty _)). apply quotable_pretty; [by eapply Hn|done].
  - rewrite <- (str_app_nil (pretty _)). apply quotable_pretty; [by eapply Hn|done].
Qed.
Lemma leaf_typed e level : nesting e = 0 → parsed_tree e = true → sayable e = true → ∀ ks, typable (show e level ++ ks) = typable ks.
Proof.
  intros Hz Hp Hs ks.
  assert (∀ f v, field_text e = Some (f, v) → show e level = [FieldName f; Quoted v] → typable (show e level ++ ks) = typable ks) as Hf.
  { intros f v Ef ->. destruct (field_quotable e f v Hp Hs Ef) as [H1 H2]. cbn [app typable].
    rewrite H2. by rewrite bool_decide_eq_true_2. }
  destruct e; try discriminate Hz; try (by eapply Hf); cbn in Hs |- *; by rewrite Hs.
Qed.
Lemma tree_typed d e : nesting e ≤ d → parsed_tree e = true → sayable e = true → typed_before e.
Proof.
  revert e. induction d as [|d IH]; intros e Hd Hp Hs level; [by apply leaf_typed; [lia|..]|].
  assert (∀ l, S (foldr (λ e n, nesting e + n) 0 l) ≤ S d → (2 <=? length l) && forallb parsed_tree l = true →
    forallb sayable l = true → Forall typed_before l) as Hl.
  { intros l Hn Hpl Hsl. apply Forall_forall. intros x Hx. rewrite forallb_true in Hsl. pose proof (nesting_part _ _ Hx).
    apply IH; [lia|by apply (parsed_parts _ Hpl)|by apply Hsl]. }
  destruct e; try (by apply leaf_typed); cbn [show]; intros ks.
  - apply typed_group. intros ks'. by apply typed_all, Hl.
  - apply typed_group. intros ks'. by apply typed_any, Hl.
  - cbn in Hd, Hp, Hs. destruct (show_starts e Hp) as (k & ks' & E & _).
    pose proof (IH e ltac:(lia) Hp Hs 2 ks) as He. rewrite E in He |- *. exact He.
Qed.

(** C35. A search typed is the search read: the line a query's tree is typed
    as, with its words, quotes, fields, minuses and parentheses, is cut and
    parsed to the tree, whatever its nesting: [and] binds tighter than [or],
    [not] than both, dates, ages and sizes mean what they say. *)
Theorem search_reads_back (debug : string → string) (e : SearchExpr)
    (He : parsed_tree e = true) (Hs : sayable e = true) :
  parse debug (typed (show e 0)) = Ok e.
Proof.
  assert (typable (show e 0) = true) as Ht.
  { rewrite <- (app_nil_r (show e 0)). by apply (tree_typed _ e (le_n _)). }
  unfold parse, tokenize. destruct (typed_cuts _ Ht 0) as (ts & -> & Hts). cbn [mbind result_bind].
  by apply parse_shown.
Qed.

(** A tree of three levels, with a date. *)
Definition written : SearchExpr :=
  SAnd [SOr [SText "plan"; SAnd [SPhrase "q3 plan"; SNot (SOr [SIs IsRead; SAfter 1767225600000])]]; SLarger 1024].
Lemma search_reads_back_witness :
  parsed_tree written = true ∧ sayable written = true ∧ parse id (typed (show written 0)) = Ok written.
Proof.
  split_and!; [vm_compute; reflexivity..|]. apply (search_reads_back id written).
  - vm_compute. reflexivity.
  - vm_compute. reflexivity.
Defined.

(** ** Queries as they are typed *)

Example parse_ex :
  parse id ("from:alice subject:" +:+ quoted "q3 plan" +:+ " -is:read (a OR b-c)") =
    Ok (SAnd [SFrom "alice"; SSubject "q3 plan"; SNot (SIs IsRead); SOr [SText "a"; SText "b-c"]]) ∧
  parse id "a b OR c" = Ok (SOr [SAnd [SText "a"; SText "b"]; SText "c"]) ∧
  parse id "after:2026-01-01" = Ok (SAfter 1767225600000) ∧ parse id "larger:5M" = Ok (SLarger 5242880) ∧
  parse id "re:meeting" = Ok (SText "re:meeting") ∧ parse id "  " = Ok (SAnd []) ∧
  parse id "in:nowhere" = bad "unknown mailbox nowhere" 0 ∧ parse id "(a b" = bad "missing )" 0 ∧
  parse id "a OR" = bad "expected a search term" 0 ∧
  parse id ("newer_than:7" +:+ bytes [195; 169]%N) = Err Panics.
Proof. vm_compute. done. Qed.
(** A size past 2^63 bytes is asked for as a negative one. *)
Example larger_wraps :
  parse id "larger:99999999999G" = Ok (SLarger U64_MAX) ∧ as_i64_cast U64_MAX = (-1)%Z.
Proof. vm_compute. done. Qed.
