(* ===== verification/RulesTokens.v ===== *)
(** * RulesTokens: the rules server's bearer tokens and codes
    ([rules-server/src/tokens.rs])

    A token's text, what is stored of it, and what a person types.  SHA-256
    and base64 are parameters; random bytes are arguments. *)

From Stdlib Require Import Ascii.
From S2P Require Import Prelude.
From S2P Require Import Text.
From S2P Require Import Guide.
From S2P Require Import Search.

Definition PUBLISHER_PREFIX := "oagc_pub_".
Definition AGENT_PREFIX := "oagc_agt_".
Definition ACCESS_PREFIX := "oagc_oat_".
Definition REFRESH_PREFIX := "oagc_ort_".
Definition CLIENT_PREFIX := "oagc_cli_".
Definition CONNECT_ALPHABET : string := "23456789ABCDEFGHJKMNPQRSTUVWXYZ".
Definition CONNECT_LEN : nat := 10.

(** ** Making tokens *)

(** 8 random bytes. *)
Definition new_id (random : string) : string := hex random.
Definition publisher_token (secret : string) : string := PUBLISHER_PREFIX +:+ secret.
Definition agent_token_text (id secret : string) : string := AGENT_PREFIX +:+ id +:+ "_" +:+ secret.
Definition access_token (secret grant_secret : string) : string := ACCESS_PREFIX +:+ secret +:+ "." +:+ grant_secret.
Definition refresh_token (secret grant_secret : string) : string := REFRESH_PREFIX +:+ secret +:+ "." +:+ grant_secret.

Definition alphabet_at (b : N) : string :=
  String.substring (N.to_nat (b mod 31)) 1 CONNECT_ALPHABET.
(** One random byte: those past the largest multiple of 31 are drawn again. *)
Definition code_byte (out : string) (b : N) : string :=
  if (248 <=? b)%N || (String.length out =? CONNECT_LEN + 1) then out
  else (if String.length out =? CONNECT_LEN / 2 then out +:+ "-" else out) +:+ alphabet_at b.
(** 16 random bytes at a time; [None] while there are too few. *)
Fixpoint connect_code_from (out : string) (random : list (list N)) : option string :=
  if String.length out <? CONNECT_LEN + 1
  then match random with bytes :: random => connect_code_from (foldl code_byte out bytes) random | [] => None end
  else Some out.
Definition connect_code (random : list (list N)) : option string := connect_code_from "" random.

(** ** Reading them *)

Definition ascii_alnum (a : Ascii.ascii) : bool :=
  let n := Ascii.N_of_ascii a in
  ((48 <=? n) && (n <=? 57) || (65 <=? n) && (n <=? 90) || (97 <=? n) && (n <=? 122))%N.
Definition base64_url (a : Ascii.ascii) : bool := ascii_alnum a || Ascii.eqb a "-" || Ascii.eqb a "_".
Definition bytes_all (p : Ascii.ascii → bool) (s : string) : bool := forallb p (String.list_ascii_of_string s).

Definition grant_secret_of (token : string) : option string :=
  '(_, secret) ← split_once "." token;
  if (String.length secret =? 43) && bytes_all base64_url secret then Some secret else None.

Fixpoint ascii_upper (s : string) : string :=
  match s with EmptyString => EmptyString | String a s => String (ascii_upper_char a) (ascii_upper s) end.
Definition in_alphabet (a : Ascii.ascii) : bool := has_char a CONNECT_ALPHABET.
Definition normalize_connect_code (typed : string) : option string :=
  let code := ascii_upper (concat_chars
    (List.filter (λ c, negb (is_whitespace c) && negb (String.eqb c "-")) (chars typed))) in
  if (String.length code =? CONNECT_LEN) && bytes_all in_alphabet code then Some code else None.

Definition unreserved (a : Ascii.ascii) : bool := ascii_alnum a || has_char a "-._~".
Definition valid_verifier (v : string) : bool :=
  (43 <=? String.length v) && (String.length v <=? 128) && bytes_all unreserved v.
Definition valid_challenge (c : string) : bool := (String.length c =? 43) && bytes_all base64_url c.

Definition agent_token_id (token : string) : option string :=
  rest ← strip_prefix AGENT_PREFIX token;
  '(id, secret) ← split_once "_" rest;
  if (String.length id =? 16) && bytes_all is_hex_digit id && negb (String.eqb secret "") then Some id else None.

(** Every byte's difference, or-ed. *)
Definition same (a b : string) : bool :=
  let a := Ascii.N_of_ascii <$> String.list_ascii_of_string a in
  let b := Ascii.N_of_ascii <$> String.list_ascii_of_string b in
  (length a =? length b) && (foldl (λ acc '(x, y), N.lor acc (N.lxor x y)) 0 (zip a b) =? 0)%N.

(** [bearer] of the [Authorization] header, when it is text. *)
Definition bearer (header : option string) : option string :=
  value ← header;
  '(scheme, token) ← split_once " " (trim value);
  let token := trim token in
  if nocase_eqb scheme "bearer" && negb (String.eqb token "") then Some token else None.

Section tokens.
Context (sha256 : string → string) (base64_url_of : string → string).

(** What the server keeps of a token. *)
Definition hash (token : string) : string := hex (sha256 token).
Definition pkce_matches (verifier challenge : string) : bool :=
  valid_verifier verifier && same (base64_url_of (sha256 verifier)) challenge.
End tokens.

(** ** The comparison, and the codes *)

Lemma lor_zero_fold l : ∀ acc, foldl (λ acc '(x, y), N.lor acc (N.lxor x y)) acc l = 0%N ↔
  acc = 0%N ∧ ∀ x y, (x, y) ∈ l → x = y.
Proof.
  induction l as [|[x y] l IH]; intros acc; cbn [foldl]; [set_solver|].
  rewrite IH, N.lor_eq_0_iff, N.lxor_eq_0_iff. set_solver.
Qed.
Lemma zip_equal {A} (l k : list A) : length l = length k → (∀ x y, (x, y) ∈ zip l k → x = y) → l = k.
Proof.
  revert k. induction l as [|x l IH]; intros [|y k] Hl Hxy; try done. f_equal; [apply Hxy; by left|].
  apply IH; [by injection Hl|]. intros. apply Hxy. by right.
Qed.
Lemma zip_same {A} (l : list A) x y : (x, y) ∈ zip l l → x = y.
Proof. induction l as [|z l IH]; [by intros ?%elem_of_nil|]. intros [[= -> ->]|H]%elem_of_cons; [done|by apply IH]. Qed.
#[export] Instance N_of_ascii_inj : Inj (=) (=) Ascii.N_of_ascii.
Proof. intros x y H. by rewrite <- (Ascii.ascii_N_embedding x), H, Ascii.ascii_N_embedding. Qed.
Lemma same_spec a b : same a b = true ↔ a = b.
Proof.
  unfold same. rewrite andb_true_iff, Nat.eqb_eq, N.eqb_eq, lor_zero_fold. split.
  - intros (Hl & _ & Hz). apply zip_equal in Hz; [|exact Hl].
    apply (list_fmap_eq_inj Ascii.N_of_ascii _) in Hz.
    rewrite <- (String.string_of_list_ascii_of_string a), Hz. apply String.string_of_list_ascii_of_string.
  - intros ->. split_and!; [done..|]. intros x y. apply zip_same.
Qed.

(** A code's characters in groups, as they are shown. *)
Definition grouped (r : string) : string :=
  if 5 <? String.length r then String.substring 0 5 r +:+ "-" +:+ String.substring 5 5 r else r.
Example grouped_ex : grouped "ABCDEFGHJK" = "ABCDE-FGHJK" ∧ normalize_connect_code " abcde fghjk" = Some "ABCDEFGHJK".
Proof. vm_compute. done. Qed.

(** *** A connect code typed back *)

Lemma alphabet_char a : in_alphabet a = true →
  continuation a = false ∧ continuation (ascii_lower_char a) = false ∧ ascii_upper_char a = a ∧
  ascii_upper_char (ascii_lower_char a) = a ∧
  forallb (λ a, negb (is_whitespace (String a "")) && negb (String.eqb (String a "") "-")) [a; ascii_lower_char a] = true.
Proof. destruct a as [[] [] [] [] [] [] [] []]; vm_compute; try done; intros; by split_and!. Qed.

Lemma ascii_substring m n s :
  String.list_ascii_of_string (String.substring m n s) = take n (drop m (String.list_ascii_of_string s)).
Proof.
  revert m n. induction s as [|a s IH]; intros [|m] [|n]; cbn; try done; rewrite ?IH; done.
Qed.
Lemma ascii_length s : String.length s = length (String.list_ascii_of_string s).
Proof. induction s; cbn; congruence. Qed.
Lemma bytes_all_spec p s : bytes_all p s = true ↔ ∀ a, a ∈ String.list_ascii_of_string s → p a = true.
Proof. unfold bytes_all. apply forallb_true. Qed.
Lemma ascii_lower_list s : String.list_ascii_of_string (ascii_lower s) = ascii_lower_char <$> String.list_ascii_of_string s.
Proof. induction s as [|a s IH]; [done|]. cbn. by rewrite IH. Qed.
Lemma ascii_string_inj x y : String.list_ascii_of_string x = String.list_ascii_of_string y → x = y.
Proof. intros E. by rewrite <- (String.string_of_list_ascii_of_string x), E, String.string_of_list_ascii_of_string. Qed.

(** [t] is [r] with its letters in some case and dashes between them. *)
Lemma normalize_letters t r (f : Ascii.ascii → Ascii.ascii) :
  plain_bytes t →
  List.filter (λ c, negb (is_whitespace c) && negb (String.eqb c "-")) ((λ a, String a "") <$> String.list_ascii_of_string t) =
    (λ a, String (f a) "") <$> String.list_ascii_of_string r →
  (∀ a, a ∈ String.list_ascii_of_string r → ascii_upper_char (f a) = a) →
  String.length r = CONNECT_LEN → bytes_all in_alphabet r = true →
  normalize_connect_code t = Some r.
Proof.
  intros Ht Hf Hup Hl Hr. unfold normalize_connect_code. rewrite chars_plain, Hf by done.
  assert (∀ l, (∀ a, a ∈ l → ascii_upper_char (f a) = a) →
    String.list_ascii_of_string (ascii_upper (concat_chars ((λ a, String (f a) "") <$> l))) = l) as E.
  { intros l Hin. induction l as [|a l IH]; [done|].
    change (concat_chars ((λ a, String (f a) "") <$> a :: l)) with (String (f a) (concat_chars ((λ a, String (f a) "") <$> l))).
    cbn. rewrite IH, Hin; [done|by left|]. intros b Hb. apply Hin. by right. }
  assert (ascii_upper (concat_chars ((λ a, String (f a) "") <$> String.list_ascii_of_string r)) = r) as ->.
  { apply ascii_string_inj, E, Hup. }
  by rewrite Hl, Hr.
Qed.
Lemma filter_keeps (f : Ascii.ascii → Ascii.ascii) l :
  (∀ a, a ∈ l → in_alphabet a = true ∧ (f a = a ∨ f a = ascii_lower_char a)) →
  List.filter (λ c, negb (is_whitespace c) && negb (String.eqb c "-")) ((λ a, String a "") <$> (f <$> l)) =
    (λ a, String (f a) "") <$> l.
Proof.
  intros Hl. rewrite <- list_fmap_compose. apply List_filter_all. intros c (a & -> & Ha)%list_elem_of_fmap.
  destruct (Hl a Ha) as [Hin Hf]. destruct (alphabet_char a Hin) as (_ & _ & _ & _ & Hk).
  cbn [forallb] in Hk. rewrite andb_true_r in Hk. apply andb_true_iff in Hk as [Hk1 Hk2]. by destruct Hf as [-> | ->].
Qed.
Lemma grouped_list r : String.length r = CONNECT_LEN → ∃ x y,
  String.list_ascii_of_string (grouped r) = x ++ "-"%char :: y ∧ String.list_ascii_of_string r = x ++ y.
Proof.
  intros Hl. unfold grouped. rewrite Hl. cbn [Nat.ltb Nat.leb CONNECT_LEN]. rewrite !list_ascii_app, !ascii_substring.
  exists (take 5 (String.list_ascii_of_string r)), (take 5 (drop 5 (String.list_ascii_of_string r))).
  split; [done|]. rewrite (take_ge (drop 5 _)); [by rewrite take_drop|]. rewrite length_drop, <- ascii_length, Hl. cbn. lia.
Qed.
Lemma normalize_grouped r f : String.length r = CONNECT_LEN → bytes_all in_alphabet r = true →
  (∀ a, f a = a) ∨ (∀ a, f a = ascii_lower_char a) → ∀ t, String.list_ascii_of_string t = f <$> String.list_ascii_of_string (grouped r) →
  normalize_connect_code t = Some r.
Proof.
  intros Hl Hr Hf t Ht. destruct (grouped_list r Hl) as (x & y & Eg & Er). pose proof (proj1 (bytes_all_spec _ _) Hr) as Hin.
  assert (∀ a, a ∈ x ++ y → in_alphabet a = true ∧ (f a = a ∨ f a = ascii_lower_char a)) as Hxy.
  { intros a Ha. rewrite Er in Hin. split; [by apply Hin|]. destruct Hf as [Hf|Hf]; [left|right]; apply Hf. }
  assert (f "-"%char = "-"%char) as Hdash by (by destruct Hf as [-> | ->]).
  apply (normalize_letters t r f); [| | |done|done].
  - unfold plain_bytes. rewrite Ht, Eg, fmap_app, fmap_cons, Hdash. apply Forall_forall. intros a Ha.
    assert (a = "-"%char ∨ a ∈ f <$> (x ++ y)) as [-> |Hin'] by (rewrite fmap_app; set_solver); [done|].
    apply list_elem_of_fmap in Hin' as (b & -> & Hb). destruct (Hxy b Hb) as [Hb1 Hb2].
    destruct (alphabet_char b Hb1) as (H1 & H2 & _). by destruct Hb2 as [-> | ->].
  - rewrite Ht, Eg, Er, fmap_app, fmap_cons, Hdash, fmap_app, fmap_cons, List.filter_app.
    rewrite filter_keeps by (intros; apply Hxy; set_solver). cbn [List.filter].
    change (is_whitespace "-") with false. cbn. rewrite fmap_app. f_equal. apply filter_keeps. intros. apply Hxy. set_solver.
  - intros a Ha. rewrite Er in Ha. destruct (Hxy a Ha) as [H1 H2]. destruct (alphabet_char a H1) as (_ & _ & H3 & H4 & _).
    by destruct H2 as [-> | ->].
Qed.

(** A code in the making is a grouping of letters of the alphabet. *)
Definition shaped (out : string) : Prop :=
  ∃ r, out = grouped r ∧ String.length r ≤ CONNECT_LEN ∧ bytes_all in_alphabet r = true.
Lemma alphabet_at_in b : ∃ a, alphabet_at b = String a "" ∧ in_alphabet a = true.
Proof.
  unfold alphabet_at. assert (N.to_nat (b mod 31) < 31) as Hb by (pose proof (N.mod_lt b 31); lia).
  revert Hb. generalize (N.to_nat (b mod 31)). intros n Hn.
  do 31 (destruct n as [|n]; [eexists; split; reflexivity|]). lia.
Qed.
Lemma grouped_add r a : String.length r < CONNECT_LEN →
  (if String.length (grouped r) =? CONNECT_LEN / 2 then grouped r +:+ "-" else grouped r) +:+ String a "" = grouped (r +:+ String a "").
Proof. intros Hr. unfold CONNECT_LEN in Hr. do 10 (destruct r as [|? r]; [reflexivity|]). cbn in Hr. lia. Qed.
Lemma grouped_full r : String.length r ≤ CONNECT_LEN →
  (String.length (grouped r) =? CONNECT_LEN + 1) = (String.length r =? CONNECT_LEN).
Proof. intros Hr. unfold CONNECT_LEN in Hr. do 11 (destruct r as [|? r]; [reflexivity|]). cbn in Hr. lia. Qed.
Lemma grouped_whole r : String.length r ≤ CONNECT_LEN → CONNECT_LEN + 1 ≤ String.length (grouped r) → String.length r = CONNECT_LEN.
Proof.
  unfold CONNECT_LEN. intros Hr Hg. do 10 (destruct r as [|? r]; [exfalso; vm_compute in Hg; lia|]). cbn in *. lia.
Qed.
Lemma code_byte_shaped out b : shaped out → shaped (code_byte out b).
Proof.
  intros (r & -> & Hr & Hin). unfold code_byte. case_match eqn:E; [by exists r|].
  apply orb_false_iff in E as [_ E]. rewrite grouped_full in E by done. apply Nat.eqb_neq in E.
  destruct (alphabet_at_in b) as (a & -> & Ha). exists (r +:+ String a ""). rewrite grouped_add by lia. split; [done|].
  rewrite length_str_app. cbn [String.length]. split; [lia|].
  apply bytes_all_spec. intros c. rewrite list_ascii_app. intros [Hc|Hc]%elem_of_app; [by apply (proj1 (bytes_all_spec _ _) Hin)|].
  by apply list_elem_of_singleton in Hc as ->.
Qed.
Lemma connect_code_shaped out random code : shaped out → connect_code_from out random = Some code →
  ∃ r, code = grouped r ∧ String.length r = CONNECT_LEN ∧ bytes_all in_alphabet r = true.
Proof.
  revert out. induction random as [|bytes random IH]; intros out Hout; cbn [connect_code_from].
  all: destruct (Nat.ltb_spec (String.length out) (CONNECT_LEN + 1)) as [Hl|Hl].
  1: done.
  2: { apply IH. clear -Hout. revert out Hout. induction bytes as [|b bytes IHb]; intros out Hout; [done|]. cbn. by apply IHb, code_byte_shaped. }
  all: intros [= <-]; destruct Hout as (r & -> & Hr & Hin); exists r; split_and!; [done| |done].
  all: by apply grouped_whole.
Qed.

(** A connect code can be typed back: every code the server shows,
    whatever was drawn, is ten letters of its alphabet in two groups, and
    typed as it is shown or in lower case it is read as those letters. *)
Theorem connect_code_typed random code (Hcode : connect_code random = Some code) :
  ∃ r, code = grouped r ∧ String.length r = CONNECT_LEN ∧ bytes_all in_alphabet r = true ∧
    normalize_connect_code code = Some r ∧ normalize_connect_code (ascii_lower code) = Some r.
Proof.
  apply connect_code_shaped in Hcode as (r & -> & Hl & Hr).
  2: { exists "". by split_and!; [|cbn; lia|]. }
  exists r. split_and!; [done..| |].
  - apply (normalize_grouped r id Hl Hr); [by left|]. by rewrite list_fmap_id.
  - apply (normalize_grouped r ascii_lower_char Hl Hr); [by right|]. apply ascii_lower_list.
Qed.
Lemma connect_code_typed_witness :
  ∃ r, "2ABYZ-23222" = grouped r ∧ normalize_connect_code "2abyz-23222" = Some r.
Proof.
  destruct (connect_code_typed [[0; 255; 8; 9; 250; 29; 30]; [31; 32; 0; 62; 93; 4]]%N "2ABYZ-23222") as (r & H1 & _ & _ & _ & H2).
  - vm_compute. reflexivity.
  - exists r. exact (conj H1 H2).
Defined.
