(* ===== verification/RulesLimit.v ===== *)
(** * RulesLimit: the rules server's limits on strangers
    ([rules-server/src/limit.rs])

    Token buckets by key, and the key a client's address counts under.
    Instants are rational seconds and the [f64] arithmetic is exact; a bucket
    is read and written under one mutex, so an operation is one step. *)

From Stdlib Require Import Ascii.
From S2P Require Import Prelude.
From S2P Require Import Text.
From S2P Require Import Guide.
From S2P Require Import RateLimit.

(** ** Buckets *)

Module Limit.

Definition PRUNE_AT : N := 10000.
Record Bucket := mkBucket { bk_tokens : Q; bk_last : Q }.
Abbreviation Buckets := (gmap string Bucket) (only parsing).
Definition per_second (per_minute : N) : Q := of_u32 per_minute / 60.
(** What a bucket holds at [now], before the cap. *)
Definition refilled (per_minute : N) (now : Q) (b : Bucket) : Q :=
  bk_tokens b + since now (bk_last b) * per_second per_minute.
(** Full buckets go once there are too many. *)
Definition prune (per_minute : N) (now : Q) (buckets : Buckets) : Buckets :=
  if (PRUNE_AT <? N.of_nat (size buckets))%N
  then base.filter (λ kb, Qltb (refilled per_minute now kb.2) (of_u32 per_minute) = true) buckets
  else buckets.
Definition bucket (per_minute : N) (key : string) (take : bool) (now : Q) (buckets : Buckets) :
    Buckets * result Q unit :=
  if (per_minute =? 0)%N then (buckets, Ok ()) else
  let capacity := of_u32 per_minute in
  let buckets := prune per_minute now buckets in
  let b := default (mkBucket capacity now) (buckets !! key) in
  let tokens := Qmin (refilled per_minute now b) capacity in
  if Qle_bool 1 tokens
  then (<[key := mkBucket (if take then tokens - 1 else tokens) now]> buckets, Ok ())
  else (<[key := mkBucket tokens now]> buckets, Err ((1 - tokens) / per_second per_minute)).
Definition take (per_minute : N) (key : string) : Q → Buckets → Buckets * result Q unit := bucket per_minute key true.
Definition peek (per_minute : N) (key : string) : Q → Buckets → Buckets * result Q unit := bucket per_minute key false.

(** A burst of the minute's allowance, then a wait. *)
Example burst :
  let '(st, r) := foldl (λ '(st, _) _, take 3 "a" 0 st) (∅, Ok ()) (seq 0 4) in
  (is_ok r, (take 3 "a" 21 st).2, (peek 3 "b" 0 st).2) = (false, Ok (), Ok ()).
Proof. vm_compute. reflexivity. Qed.
End Limit.

(** ** What a key has left *)

Section level.
Variable n : N.
Hypothesis Hn : n ≠ 0%N.
#[local] Abbreviation cap := (of_u32 n).
#[local] Abbreviation rate := (Limit.per_second n).

Lemma cap_pos : 1 <= cap.
Proof. unfold of_u32. change 1 with (inject_Z 1). rewrite <- Zle_Qle. lia. Qed.
Lemma rate_pos : 0 < rate.
Proof. unfold Limit.per_second. pose proof cap_pos. apply Qlt_shift_div_l; lra. Qed.

Definition bucket_level (b : option Limit.Bucket) (t : Q) : Q :=
  match b with Some b => Qmin (Limit.refilled n t b) cap | None => cap end.
Definition level (st : Limit.Buckets) (k : string) (t : Q) : Q := bucket_level (st !! k) t.
(** Every bucket was last touched by [now]. *)
Definition touched_by (now : Q) (st : Limit.Buckets) : Prop := ∀ k b, st !! k = Some b → Limit.bk_last b <= now.

Lemma since_after t s : s <= t → since t s == t - s.
Proof. intros H. unfold since. apply Q.max_r. lra. Qed.
Lemma refilled_later b t t' : Limit.bk_last b <= t → t <= t' →
  Limit.refilled n t' b == Limit.refilled n t b + (t' - t) * rate.
Proof. intros H1 H2. unfold Limit.refilled. rewrite !since_after by lra. ring. Qed.

(** Pruning drops what is full, and nothing else. *)
Lemma prune_level now st k t : touched_by now st → now <= t → level (Limit.prune n now st) k t == level st k t.
Proof.
  intros Ht Hle. unfold Limit.prune, level. case_match; [|reflexivity].
  destruct (base.filter _ st !! k) as [b|] eqn:E.
  - apply map_lookup_filter_Some in E as [-> _]. reflexivity.
  - destruct (st !! k) as [b|] eqn:Eb; [|reflexivity]. cbn [bucket_level].
    apply map_lookup_filter_None in E as [E|E]; [congruence|]. specialize (E b Eb).
    apply not_true_iff_false, Qltb_false in E. cbn [snd] in E.
    symmetry. apply Q.min_r. rewrite (refilled_later b now) by (done || by apply (Ht k)). pose proof rate_pos. nra.
Qed.
Lemma prune_touched now st : touched_by now st → touched_by now (Limit.prune n now st).
Proof.
  intros Ht k b. unfold Limit.prune. case_match; [|apply Ht]. intros [E _]%map_lookup_filter_Some. by apply (Ht k).
Qed.
(** One operation: its answer, and what every key has left afterwards. *)
Definition spent (key : string) (take : bool) (now : Q) (st : Limit.Buckets) (k : string) : Q :=
  if bool_decide (k = key) && take && Qle_bool 1 (level st key now) then 1 else 0.
Lemma qmin_later x y : 0 <= y → Qmin (Qmin x cap + y) cap == Qmin (x + y) cap.
Proof. intros Hy. destruct (Q.min_spec x cap) as [[? ->]|[? ->]], (Q.min_spec (x + y) cap) as [[? ->]|[? ->]];
  first [apply Q.min_l; lra|rewrite Q.min_r; lra|lra]. Qed.
Lemma level_later st k now t : touched_by now st → now <= t →
  level st k t == Qmin (level st k now + (t - now) * rate) cap.
Proof.
  intros Ht Hle. pose proof rate_pos. assert (0 <= (t - now) * rate) by nra. unfold level.
  destruct (st !! k) as [b|] eqn:E; cbn [bucket_level].
  - rewrite qmin_later by done. by rewrite (refilled_later b now t) by (done || by apply (Ht k)).
  - symmetry. apply Q.min_r. lra.
Qed.
Lemma level_cap st k t : level st k t <= cap.
Proof. unfold level. destruct (st !! k); [apply Q.le_min_r|apply Qle_refl]. Qed.

Lemma bucket_found key now st :
  Qmin (Limit.refilled n now (default (Limit.mkBucket cap now) (st !! key))) cap == level st key now.
Proof.
  unfold level. destruct (st !! key) as [b|]; [reflexivity|]. cbn. apply Q.min_r. unfold Limit.refilled. cbn.
  rewrite since_after by lra. lra.
Qed.
Lemma touched_insert now st key x : touched_by now st → touched_by now (<[key := Limit.mkBucket x now]> st).
Proof. intros Ht k b. rewrite lookup_insert_Some. intros [[_ <-]|[_ Hb]]; [cbn; lra|by apply (Ht k)]. Qed.
Lemma level_insert now st key x k t : now <= t →
  level (<[key := Limit.mkBucket x now]> st) k t ==
    if bool_decide (k = key) then Qmin (x + (t - now) * rate) cap else level st k t.
Proof.
  intros Ht. unfold level. case_bool_decide as E.
  - subst. rewrite lookup_insert_eq. cbn. unfold Limit.refilled. cbn. by rewrite since_after.
  - by rewrite lookup_insert_ne.
Qed.
Lemma bucket_level_step key take now st k t : touched_by now st → now <= t →
  is_ok (Limit.bucket n key take now st).2 = Qle_bool 1 (level st key now) ∧
  touched_by now (Limit.bucket n key take now st).1 ∧
  level (Limit.bucket n key take now st).1 k t ==
    Qmin (level st k now - spent key take now st k + (t - now) * rate) cap.
Proof.
  intros Ht Hle. unfold Limit.bucket. destruct (N.eqb_spec n 0) as [|_]; [done|]. cbn zeta.
  pose proof (prune_touched now st Ht) as Ht'. pose proof (prune_level now st key now Ht (Qle_refl _)) as Hlev.
  pose proof (prune_level now st k t Ht Hle) as Hk. pose proof (bucket_found key now (Limit.prune n now st)) as Hb.
  rewrite Hlev in Hb. set (tokens := Qmin (Limit.refilled _ _ _) _) in *.
  assert (Qle_bool 1 tokens = Qle_bool 1 (level st key now)) as E by by rewrite Hb.
  assert (∀ x, x == level st key now - spent key take now st key →
    level (<[key := Limit.mkBucket x now]> (Limit.prune n now st)) k t ==
      Qmin (level st k now - spent key take now st k + (t - now) * rate) cap) as Hgo.
  { intros x Hx. rewrite level_insert by done. case_bool_decide as Ek; [subst k; by rewrite Hx|].
    rewrite Hk, (level_later st k now t) by done. unfold spent. rewrite bool_decide_eq_false_2 by done. cbn [andb].
    assert (level st k now - 0 == level st k now) as -> by ring. reflexivity. }
  rewrite E. destruct (Qle_bool 1 (level st key now)) eqn:E1; cbn [fst snd is_ok]; (split; [done|split; [by apply touched_insert|]]);
    apply Hgo; unfold spent; rewrite bool_decide_eq_true_2, E1 by done; destruct take; cbn [andb]; rewrite Hb; ring.
Qed.

(** ** Many requests *)

Record Request := mkRequest { rq_key : string; rq_take : bool; rq_now : Q }.
(** The answers, in order. *)
Fixpoint run (rs : list Request) (st : Limit.Buckets) : list bool :=
  match rs with
  | [] => []
  | r :: rs =>
      let '(st, a) := Limit.bucket n (rq_key r) (rq_take r) (rq_now r) st in
      is_ok a :: run rs st
  end.
(** A bucket of its own, never dropped: what a key has left, and when. *)
Fixpoint alone (rs : list Request) (left : Q) (at_ : Q) : list bool :=
  match rs with
  | [] => []
  | r :: rs =>
      let left := Qmin (left + (rq_now r - at_) * rate) cap in
      let ok := Qle_bool 1 left in
      ok :: alone rs (if ok && rq_take r then left - 1 else left) (rq_now r)
  end.
Definition answers_for (k : string) (rs : list Request) (answers : list bool) : list bool :=
  snd <$> List.filter (λ ra, bool_decide (rq_key ra.1 = k)) (zip rs answers).
Definition of_key (k : string) (rs : list Request) : list Request :=
  List.filter (λ r, bool_decide (rq_key r = k)) rs.
Lemma answers_for_cons k r rs a l : answers_for k (r :: rs) (a :: l) =
  (if bool_decide (rq_key r = k) then [a] else []) ++ answers_for k rs l.
Proof. unfold answers_for. cbn. by case_bool_decide. Qed.
Lemma of_key_cons k r rs : of_key k (r :: rs) = (if bool_decide (rq_key r = k) then [r] else []) ++ of_key k rs.
Proof. unfold of_key. cbn. by case_bool_decide. Qed.
(** Instants never go back. *)
Fixpoint in_time (t : Q) (rs : list Request) : Prop :=
  match rs with [] => True | r :: rs => t <= rq_now r ∧ in_time (rq_now r) rs end.

Lemma alone_left rs left left' at_ : left == left' → alone rs left at_ = alone rs left' at_.
Proof.
  revert left left' at_. induction rs as [|r rs IH]; intros left left' at_ E; [done|]. cbn [alone]. rewrite E. f_equal.
  apply IH. destruct (_ && _); by rewrite E.
Qed.
Lemma alone_later rs left left' at_ now :
  (∀ r, r ∈ rs → now <= rq_now r) → at_ <= now → left' == Qmin (left + (now - at_) * rate) cap →
  alone rs left' now = alone rs left at_.
Proof.
  intros Hrs Hat Hl. destruct rs as [|r rs]; [done|]. cbn [alone]. specialize (Hrs r ltac:(by left)).
  pose proof rate_pos.
  assert (Qmin (left' + (rq_now r - now) * rate) cap == Qmin (left + (rq_now r - at_) * rate) cap) as E.
  { rewrite Hl, qmin_later by nra. assert (left + (now - at_) * rate + (rq_now r - now) * rate == left + (rq_now r - at_) * rate) as -> by ring.
    reflexivity. }
  rewrite E. f_equal. apply alone_left. destruct (_ && _); by rewrite E.
Qed.
Lemma in_time_after t rs r : in_time t rs → r ∈ rs → t <= rq_now r.
Proof.
  revert t. induction rs as [|r' rs IH]; intros t; [by intros _ ?%elem_of_nil|]. intros [H1 H2] [->|Hr]%elem_of_cons; [done|].
  specialize (IH _ H2 Hr). lra.
Qed.
Lemma run_alone k rs t st left : in_time t rs → touched_by t st → left == level st k t →
  answers_for k rs (run rs st) = alone (of_key k rs) left t.
Proof.
  revert t st left. induction rs as [|r rs IH]; intros t st left Hin Ht Hl; [done|]. destruct Hin as [Htr Hin].
  assert (touched_by (rq_now r) st) as Ht' by (intros k' b Hb; specialize (Ht k' b Hb); lra).
  pose proof (bucket_level_step (rq_key r) (rq_take r) (rq_now r) st k (rq_now r) Ht' (Qle_refl _)) as (Hok & Htouch & Hlev).
  pose proof (level_later st k t (rq_now r) Ht Htr) as Hlater. rewrite <- Hl in Hlater.
  cbn [run]. destruct (Limit.bucket _ _ _ _ _) as [st' a]. cbn [fst snd] in *. rewrite answers_for_cons, of_key_cons.
  assert ((rq_now r - rq_now r) * rate == 0) as Hz by ring. rewrite Hz, Qplus_0_r in Hlev.
  destruct (decide (rq_key r = k)) as [Ek|Ek].
  - rewrite bool_decide_eq_true_2 by done. subst k. cbn [app alone].
    assert (Qle_bool 1 (level st (rq_key r) (rq_now r)) = Qle_bool 1 (Qmin (left + (rq_now r - t) * rate) cap)) as E by by rewrite Hlater.
    rewrite Hok, E. f_equal. rewrite <- E.
    apply (IH _ _ _ Hin Htouch). rewrite Hlev. unfold spent. rewrite bool_decide_eq_true_2 by done. cbn [andb].
    pose proof (level_cap st (rq_key r) (rq_now r)).
    destruct (rq_take r); cbn [andb]; rewrite ?andb_true_r, ?andb_false_r; [destruct (Qle_bool 1 _)|].
    all: rewrite <- Hlater, Q.min_l by lra; ring.
  - rewrite bool_decide_eq_false_2 by done. cbn [app]. rewrite (IH _ _ (level st' k (rq_now r)) Hin Htouch) by reflexivity.
    apply alone_later; [|done|].
    + intros r' Hr'. apply elem_of_List_filter in Hr' as [_ Hr']. by eapply in_time_after.
    + rewrite Hlev. unfold spent. rewrite bool_decide_eq_false_2 by done. cbn [andb].
      assert (level st k (rq_now r) - 0 == level st k (rq_now r)) as -> by ring. rewrite <- Hlater. apply Q.min_l, level_cap.
Qed.

(** Requests granted to [k]. *)
Fixpoint granted (k : string) (rs : list Request) (answers : list bool) : N :=
  match rs, answers with
  | r :: rs, a :: answers => (if bool_decide (rq_key r = k) && rq_take r && a then 1 else 0) + granted k rs answers
  | _, _ => 0
  end.
Lemma spent_level key take now st k : 0 <= level st k now → 0 <= level st k now - spent key take now st k.
Proof.
  intros H. unfold spent. case_bool_decide; [subst|cbn [andb]; lra]. destruct take; cbn [andb]; [|lra].
  destruct (Qle_bool_spec 1 (level st key now)); lra.
Qed.
Lemma granted_level k rs t t1 st : in_time t rs → touched_by t st → 0 <= level st k t → t <= t1 →
  Forall (λ r, rq_now r <= t1) rs → of_u32 (granted k rs (run rs st)) <= level st k t + (t1 - t) * rate.
Proof.
  revert t st. pose proof rate_pos as Hrate. induction rs as [|r rs IH]; intros t st Hin Ht Hlev H1 Hall; cbn [granted run].
  - change (of_u32 0) with 0. nra.
  - destruct Hin as [Htr Hin]. apply Forall_cons in Hall as [Hr1 Hall].
    assert (touched_by (rq_now r) st) as Ht' by (intros k' b Hb; specialize (Ht k' b Hb); lra).
    pose proof (bucket_level_step (rq_key r) (rq_take r) (rq_now r) st k (rq_now r) Ht' (Qle_refl _)) as (Hok & Htouch & Hl).
    destruct (Limit.bucket _ _ _ _ _) as [st' a]. cbn [fst snd] in *.
    assert (level st k (rq_now r) <= level st k t + (rq_now r - t) * rate ∧ 0 <= level st k (rq_now r)) as [Hup Hpos].
    { rewrite (level_later st k t (rq_now r)) by done. split; [apply Q.le_min_l|].
      apply Q.min_glb; [nra|]. pose proof cap_pos. lra. }
    pose proof (spent_level (rq_key r) (rq_take r) (rq_now r) st k Hpos) as Hsp.
    assert (level st' k (rq_now r) == level st k (rq_now r) - spent (rq_key r) (rq_take r) (rq_now r) st k) as E.
    { rewrite Hl. assert ((rq_now r - rq_now r) * rate == 0) as -> by ring. rewrite Qplus_0_r.
      apply Q.min_l. pose proof (level_cap st k (rq_now r)). unfold spent in *. destruct (_ && _); lra. }
    specialize (IH (rq_now r) st' Hin Htouch ltac:(rewrite E; exact Hsp) Hr1 Hall). rewrite E in IH.
    assert (of_u32 (if bool_decide (rq_key r = k) && rq_take r && is_ok a then 1 else 0) ==
      spent (rq_key r) (rq_take r) (rq_now r) st k) as Hs.
    { unfold spent. rewrite Hok. case_bool_decide as Ek; [|rewrite bool_decide_eq_false_2 by congruence; reflexivity].
      rewrite bool_decide_eq_true_2 by done. cbn [andb]. destruct (rq_take r && _); reflexivity. }
    unfold of_u32 in *. rewrite N2Z.inj_add, inject_Z_plus, Hs. nra.
Qed.
End level.

(** The buckets after some requests. *)
Fixpoint after (n : N) (rs : list Request) (st : Limit.Buckets) : Limit.Buckets :=
  match rs with [] => st | r :: rs => after n rs (Limit.bucket n (rq_key r) (rq_take r) (rq_now r) st).1 end.
Lemma after_ok n k rs t st : n ≠ 0%N → in_time t rs → touched_by t st → 0 <= level n st k t →
  ∀ t', Forall (λ r, rq_now r <= t') rs → t <= t' → touched_by t' (after n rs st) ∧ 0 <= level n (after n rs st) k t'.
Proof.
  intros Hn. revert t st. pose proof (rate_pos n Hn). pose proof (cap_pos n Hn).
  induction rs as [|r rs IH]; intros t st Hin Ht Hl t' Hall Hle; cbn [after].
  - split; [intros k' b Hb; specialize (Ht k' b Hb); lra|]. rewrite (level_later n Hn st k t t') by done. apply Q.min_glb; [nra|lra].
  - destruct Hin as [Htr Hin]. apply Forall_cons in Hall as [Hr Hall].
    assert (touched_by (rq_now r) st) as Ht' by (intros k' b Hb; specialize (Ht k' b Hb); lra).
    assert (0 <= level n st k (rq_now r)) as Hpos.
    { rewrite (level_later n Hn st k t (rq_now r)) by done. apply Q.min_glb; [nra|lra]. }
    pose proof (bucket_level_step n Hn (rq_key r) (rq_take r) (rq_now r) st k (rq_now r) Ht' (Qle_refl _)) as (_ & Htouch & E).
    apply (IH (rq_now r)); [done|done| |done|done]. rewrite E. assert ((rq_now r - rq_now r) * Limit.per_second n == 0) as -> by ring.
    rewrite Qplus_0_r. apply Q.min_glb; [by apply spent_level|lra].
Qed.

(** Each key has a bucket of its own: whatever the keys of others, and
    although full buckets are dropped, every request is answered as a bucket
    that only its key's requests ever touched would answer it. *)
Theorem limit_by_key (n : N) (k : string) (rs : list Request) (t : Q)
    (Hn : n ≠ 0%N) (Hrs : in_time t rs) :
  answers_for k rs (run n rs ∅) = alone n (of_key k rs) (of_u32 n) t.
Proof. apply run_alone; [done|done|intros ??; by rewrite lookup_empty|reflexivity]. Qed.

(** What one key is granted: between two instants, at most a full
    bucket and what a minute's allowance refills evenly in between, after
    any requests and whatever others ask. *)
Theorem limit_bound (n : N) (k : string) (before window : list Request) (t t0 t1 : Q)
    (Hn : n ≠ 0%N) (Hbefore : in_time t before) (Hall : Forall (λ r, rq_now r <= t0) before) (Ht : t <= t0)
    (Hwindow : in_time t0 window) (H1 : Forall (λ r, rq_now r <= t1) window) (H01 : t0 <= t1) :
  of_u32 (granted k window (run n window (after n before ∅))) <= of_u32 n * (1 + (t1 - t0) / 60).
Proof.
  pose proof (cap_pos n Hn). assert (touched_by t ∅) as He by (intros k' b; by rewrite lookup_empty).
  assert (0 <= level n ∅ k t) as Hl0 by (change (level n ∅ k t) with (of_u32 n); lra).
  destruct (after_ok n k before t ∅ Hn Hbefore He Hl0 t0 Hall Ht) as [Htouch Hl].
  pose proof (granted_level n Hn k window t0 t1 _ Hwindow Htouch Hl H01 H1) as Hg.
  pose proof (level_cap n (after n before ∅) k t0). unfold Limit.per_second in *.
  assert (of_u32 n * (1 + (t1 - t0) / 60) == of_u32 n + (t1 - t0) * (of_u32 n / 60)) as -> by field. lra.
Qed.
Definition tries : list Request := (λ i, mkRequest (if Nat.even i then "a" else "b") true (inject_Z (Z.of_nat i))) <$> seq 0 12.
Lemma limit_by_key_witness :
  in_time 0 tries ∧ answers_for "a" tries (run 2 tries ∅) = [true; true; false; false; false; false] ∧
  answers_for "a" tries (run 2 tries ∅) = alone 2 (of_key "a" tries) (of_u32 2) 0.
Proof.
  assert (in_time 0 tries) as H by (repeat (split; [apply Qle_bool_iff; vm_compute; reflexivity|]); exact I).
  split; [exact H|]. split; [vm_compute; reflexivity|]. apply (limit_by_key 2 "a" tries 0); [done|exact H].
Defined.
Lemma limit_bound_witness :
  in_time 0 tries ∧ of_u32 (granted "a" tries (run 2 tries (after 2 [] ∅))) <= of_u32 2 * (1 + (11 - 0) / 60).
Proof.
  assert (in_time 0 tries) as H by (repeat (split; [apply Qle_bool_iff; vm_compute; reflexivity|]); exact I).
  split; [exact H|]. apply (limit_bound 2 "a" [] tries 0 0 11); [done|done|constructor|lra|exact H| |lra].
  repeat (apply Forall_cons; split; [apply Qle_bool_iff; vm_compute; reflexivity|]). constructor.
Defined.

Close Scope Q_scope.

(** * Whose request it is ([rules-server/src/limit.rs])

    IP addresses as [std::net] reads and writes them, the networks trusted
    as proxies, and the address a request's limits count under. *)

(** ** Addresses *)

(** Four bytes, or eight 16-bit segments. *)
Inductive IpAddr := V4 (octets : list N) | V6 (segments : list N).
#[export] Instance ip_eq_dec : EqDecision IpAddr.
Proof. solve_decision. Defined.

(** A byte in decimal: at most three digits, no zero in front. *)
Definition read_octet (s : string) : option N :=
  if String.length s <=? 3 then
    match s with
    | String a (String _ _) => if Ascii.eqb a "0" then None else n ← parse_N s; if (n <? 256)%N then Some n else None
    | _ => parse_N s
    end
  else None.
Definition read_ipv4 (s : string) : option (list N) :=
  match split_on "." s with [a; b; c; d] => mapM read_octet [a; b; c; d] | _ => None end.
Definition hex_value (a : Ascii.ascii) : option N :=
  let n := Ascii.N_of_ascii (ascii_lower_char a) in
  if ((48 <=? n) && (n <=? 57))%N then Some (n - 48)%N
  else if ((97 <=? n) && (n <=? 102))%N then Some (n - 87)%N else None.
Fixpoint read_hex (acc : N) (s : string) : option N :=
  match s with EmptyString => Some acc | String a s => d ← hex_value a; read_hex (acc * 16 + d)%N s end.
(** A segment: one to four hex digits. *)
Definition read_segment (s : string) : option N :=
  if (1 <=? String.length s) && (String.length s <=? 4) then read_hex 0 s else None.
(** Segments between colons; the last two may be an IPv4 address. *)
Fixpoint read_groups (parts : list string) : option (list N) :=
  match parts with
  | [] => Some []
  | [last] =>
      match read_ipv4 last with
      | Some [a; b; c; d] => Some [(a * 256 + b)%N; (c * 256 + d)%N]
      | _ => x ← read_segment last; Some [x]
      end
  | p :: parts => x ← read_segment p; xs ← read_groups parts; Some (x :: xs)
  end.
Fixpoint split_double (s : string) : option (string * string) :=
  match s with
  | String ":" (String ":" t) => Some ("", t)
  | String a s => '(x, y) ← split_double s; Some (String a x, y)
  | EmptyString => None
  end.
Definition read_ipv6 (s : string) : option (list N) :=
  match split_double s with
  | None => gs ← read_groups (split_on ":" s); if length gs =? 8 then Some gs else None
  | Some (head, tail) =>
      hs ← (if String.eqb head "" then Some [] else mapM read_segment (split_on ":" head));
      ts ← (if String.eqb tail "" then Some [] else read_groups (split_on ":" tail));
      if length hs + length ts <=? 7 then Some (hs ++ replicate (8 - (length hs + length ts)) 0%N ++ ts) else None
  end.
(** [s.parse::<IpAddr>().ok()] *)
Definition parse_ip (s : string) : option IpAddr :=
  match read_ipv4 s with Some o => Some (V4 o) | None => V6 <$> read_ipv6 s end.

(** An IPv4 address mapped into IPv6 as itself. *)
Definition canonical (ip : IpAddr) : IpAddr :=
  match ip with
  | V6 [a; b; c; d; e; f; x; y] =>
      if forallb (N.eqb 0) [a; b; c; d; e] && (f =? 65535)%N
      then V4 [(x / 256)%N; (x mod 256)%N; (y / 256)%N; (y mod 256)%N] else ip
  | _ => ip
  end.
Definition octets (ip : IpAddr) : list N :=
  match ip with V4 o => o | V6 s => concat (List.map (λ x, [(x / 256)%N; (x mod 256)%N]) s) end.

(** ** Trusted networks *)

Record Cidr := mkCidr { ci_net : IpAddr; ci_prefix : nat }.
Definition prefix_eq (a b : list N) (bits : nat) : bool :=
  let whole := bits / 8 in
  let rest := bits mod 8 in
  if negb (bool_decide (take whole a = take whole b)) then false
  else (rest =? 0) || (N.shiftr (N.lxor (nth whole a 0%N) (nth whole b 0%N)) (N.of_nat (8 - rest)) =? 0)%N.
Definition cidr_contains (c : Cidr) (ip : IpAddr) : bool :=
  match ci_net c, canonical ip with
  | V4 n, V4 a => prefix_eq (octets (V4 n)) (octets (V4 a)) (ci_prefix c)
  | V6 n, V6 a => prefix_eq (octets (V6 n)) (octets (V6 a)) (ci_prefix c)
  | _, _ => false
  end.

Section parse.
Context (debug : string → string). (** [{:?}] *)
Definition cidr_parse (s : string) : result string Cidr :=
  let s := trim s in
  let '(addr, prefix) := match split_once "/" s with Some (a, p) => (a, Some p) | None => (s, None) end in
  net ← ok_or (debug s +:+ " is not an address or CIDR network") (parse_ip addr);
  let max := match net with V4 _ => 32 | V6 _ => 128 end in
  prefix ← match prefix with
           | None => Ok max
           | Some p => ok_or (debug s +:+ ": bad prefix length")
               (n ← parse_unsigned 8 p; if Z.to_nat n <=? max then Some (Z.to_nat n) else None)
           end;
  Ok (mkCidr net prefix).
(** [KALUTA_RULES_TRUSTED_PROXY]: comma- or space-separated. *)
Definition parse_trusted (given : list string) : result string (list Cidr) :=
  let parts := List.filter (λ s, non_empty (trim s))
    (concat (List.map (split_chars (λ c, String.eqb c "," || String.eqb c " ")) given)) in
  foldr (λ s r, c ← cidr_parse s; cs ← r; Ok (c :: cs)) (Ok []) parts.
End parse.

(** ** The client *)

(** [{:x}] *)
Fixpoint hex_digits (fuel : nat) (n : N) (acc : string) : string :=
  let acc := String (hex_digit (n mod 16)) acc in
  match fuel with O => acc | S fuel => if (n / 16 =? 0)%N then acc else hex_digits fuel (n / 16) acc end.
Definition hex_of (n : N) : string := hex_digits 3 n "".
(** IPv6 addresses by their /64. *)
Definition show_client (ip : IpAddr) : string :=
  match ip with
  | V4 o => join "." (List.map (pretty (A:=N)) o)
  | V6 s => join ":" (List.map hex_of (take 4 s)) +:+ "::/64"
  end.
(** The addresses of [X-Forwarded-For], [None] where there is none. *)
Definition forwarded_addresses (headers : list (option string)) : list (option IpAddr) :=
  List.map (λ a, canonical <$> parse_ip (trim a)) (concat (List.map (split_on ",") (omap id headers))).
Definition is_trusted (trusted : list Cidr) (ip : IpAddr) : bool := List.existsb (λ c, cidr_contains c ip) trusted.
(** The loop, over the addresses from the right. *)
Fixpoint nearest (trusted : list Cidr) (client : IpAddr) (ips : list (option IpAddr)) : IpAddr :=
  match ips with
  | Some ip :: ips => if is_trusted trusted ip then nearest trusted ip ips else ip
  | _ => client
  end.
Definition client_key (peer : option IpAddr) (headers : list (option string)) (trusted : list Cidr) : string :=
  match peer with
  | None => "unknown"
  | Some peer =>
      let peer := canonical peer in
      show_client (if is_trusted trusted peer then nearest trusted peer (rev (forwarded_addresses headers)) else peer)
  end.

Example client_key_ex :
  let trusted := default [] (ok (parse_trusted id ["127.0.0.1/32, 10.0.0.0/8"])) in
  let key xff := client_key (parse_ip "127.0.0.1") [Some xff] trusted in
  (client_key (parse_ip "127.0.0.1") [Some "203.0.113.9"] [], key "203.0.113.9", key "1.2.3.4, 203.0.113.9, 10.0.0.2",
   key "10.0.0.3, 10.0.0.2", key "junk, 203.0.113.9", key "203.0.113.9, junk",
   client_key (parse_ip "2001:db8:1:2:3:4:5:6") [] trusted,
   client_key (parse_ip "::ffff:127.0.0.1") [Some "203.0.113.9"] trusted) =
  ("127.0.0.1", "203.0.113.9", "203.0.113.9", "10.0.0.3", "203.0.113.9", "127.0.0.1", "2001:db8:1:2::/64", "203.0.113.9").
Proof. vm_compute. reflexivity. Qed.

(** ** Networks by their bits *)

(** The [i]th bit of bytes, the first byte's highest first. *)
Definition bit_at (l : list N) (i : nat) : bool := N.testbit (nth (i / 8) l 0%N) (N.of_nat (7 - i mod 8)).
Definition are_bytes (l : list N) : Prop := Forall (λ x, (x < 256)%N) l.

Lemma nth_byte l j : are_bytes l → (nth j l 0 < 256)%N.
Proof.
  intros Hl. destruct (nth_in_or_default j l 0%N) as [Hin| ->]; [|lia].
  unfold are_bytes in Hl. rewrite Forall_forall in Hl. by apply Hl, list_elem_of_In.
Qed.
Lemma byte_high x i : (x < 256)%N → (8 <= i)%N → N.testbit x i = false.
Proof.
  intros Hx Hi. destruct (N.eq_dec x 0) as [->|]; [apply N.bits_0|]. apply N.bits_above_log2.
  assert (N.log2 x < 8)%N by (apply N.log2_lt_pow2; lia). lia.
Qed.
Lemma bit_of_byte l j k : k < 8 → bit_at l (8 * j + k) = N.testbit (nth j l 0%N) (N.of_nat (7 - k)).
Proof.
  intros Hk. unfold bit_at. rewrite (Nat.mul_comm 8), Nat.div_add_l, Nat.div_small, Nat.add_0_r by lia.
  by rewrite (Nat.add_comm _ k), Nat.Div0.mod_add, Nat.mod_small.
Qed.
Lemma byte_eq a b j : are_bytes a → are_bytes b → (∀ k, k < 8 → bit_at a (8 * j + k) = bit_at b (8 * j + k)) →
  nth j a 0%N = nth j b 0%N.
Proof.
  intros Ha Hb Hk. apply N.bits_inj. intros i. destruct (decide (i < 8)%N) as [Hi|Hi].
  - specialize (Hk (N.to_nat (7 - i)) ltac:(lia)). rewrite !bit_of_byte in Hk by lia.
    replace (N.of_nat (7 - N.to_nat (7 - i))) with i in Hk by lia. done.
  - rewrite !byte_high; [done|by apply nth_byte|lia|by apply nth_byte|lia].
Qed.
Lemma prefix_eq_spec a b bits : are_bytes a → are_bytes b → length a = length b → bits ≤ 8 * length a →
  prefix_eq a b bits = true ↔ ∀ i, i < bits → bit_at a i = bit_at b i.
Proof.
  intros Ha Hb Hl Hbits. unfold prefix_eq. set (w := bits / 8). set (r := bits mod 8).
  assert (bits = 8 * w + r ∧ r < 8) as [E Hr] by (split; [apply Nat.div_mod_eq|apply Nat.mod_upper_bound; lia]).
  clearbody w r. subst bits.
  assert (take w a = take w b ↔ ∀ j, j < w → nth j a 0%N = nth j b 0%N) as Htake.
  { split.
    - intros Et j Hj. by rewrite !nth_lookup, <- (lookup_take_lt a w), <- (lookup_take_lt b w), Et.
    - intros Hj. apply list_eq_same_length with w; [rewrite length_take; lia..|]. intros j x y Hlt.
      rewrite !lookup_take_lt by done. specialize (Hj j Hlt). rewrite !nth_lookup in Hj. intros Hx Hy.
      rewrite Hx, Hy in Hj. done. }
  assert ((∀ i, i < 8 * w + r → bit_at a i = bit_at b i) ↔
    (∀ j, j < w → nth j a 0%N = nth j b 0%N) ∧ ∀ k, k < r → bit_at a (8 * w + k) = bit_at b (8 * w + k)) as ->.
  { split.
    - intros Hi. split; [|intros k Hk; apply Hi; lia]. intros j Hj. apply byte_eq; [done..|]. intros k Hk. apply Hi. lia.
    - intros [Hj Hk] i Hi. destruct (decide (i < 8 * w)) as [Hlt|Hge].
      + pose proof (Nat.div_mod_eq i 8) as Ei. pose proof (Nat.mod_upper_bound i 8 ltac:(lia)) as Hm.
        rewrite Ei, !bit_of_byte by done. rewrite Hj; [done|]. lia.
      + replace i with (8 * w + (i - 8 * w)) by lia. apply Hk. lia. }
  rewrite <- Htake. case_bool_decide as Et; cbn [negb]; [|split; [done|by intros [? _]]].
  rewrite orb_true_iff, Nat.eqb_eq, N.eqb_eq. split.
  - intros Hor. split; [done|]. intros k Hk. destruct Hor as [->|Hz]; [lia|]. rewrite !bit_of_byte by lia.
    assert (N.testbit (N.shiftr (N.lxor (nth w a 0%N) (nth w b 0%N)) (N.of_nat (8 - r))) (N.of_nat (r - 1 - k)) = false) as Hb0
      by (by rewrite Hz, N.bits_0).
    rewrite N.shiftr_spec', N.lxor_spec in Hb0. replace (N.of_nat (r - 1 - k) + N.of_nat (8 - r))%N with (N.of_nat (7 - k)) in Hb0 by lia.
    revert Hb0. by destruct (N.testbit _ _), (N.testbit _ _).
  - intros [_ Hk]. destruct (decide (r = 0)) as [|Hr0]; [by left|right]. apply N.bits_inj. intros i.
    rewrite N.bits_0, N.shiftr_spec', N.lxor_spec. destruct (decide (i < N.of_nat r)%N) as [Hi|Hi].
    + specialize (Hk (r - 1 - N.to_nat i) ltac:(lia)). rewrite !bit_of_byte in Hk by lia.
      replace (N.of_nat (7 - (r - 1 - N.to_nat i))) with (i + N.of_nat (8 - r))%N in Hk by lia. by rewrite Hk, xorb_nilpotent.
    + rewrite !byte_high; [done|by apply nth_byte|lia|by apply nth_byte|lia].
Qed.

(** ** The header *)

Lemma split_on_app c x y : split_on c (x +:+ String c y) = split_on c x ++ split_on c y.
Proof.
  induction x as [|a x IH].
  - change ("" +:+ String c y) with (String c y). cbn. by rewrite Ascii.eqb_refl.
  - change (String a x +:+ String c y) with (String a (x +:+ String c y)). cbn. rewrite IH.
    destruct (Ascii.eqb a c); [done|]. destruct (split_on c x) as [|p l] eqn:E; [|done].
    exfalso. destruct x as [|b x]; [done|]. cbn in E. destruct (Ascii.eqb b c); [done|]. by destruct (split_on c x).
Qed.
Lemma forwarded_app earlier sent appended :
  forwarded_addresses (earlier ++ [Some (sent +:+ String "," appended)]) =
  forwarded_addresses (earlier ++ [Some sent]) ++ forwarded_addresses [Some appended].
Proof.
  unfold forwarded_addresses. rewrite !omap_app, !List.map_app, !concat_app, !List.map_app. cbn [omap list_omap id List.map concat].
  by rewrite !app_nil_r, split_on_app, List.map_app, app_assoc.
Qed.
Lemma nearest_hops trusted client ip forged hops :
  Forall (λ h, is_trusted trusted h = true) hops → is_trusted trusted ip = false →
  nearest trusted client (rev (forged ++ Some ip :: (Some <$> hops))) = ip.
Proof.
  intros Hh Hip. change (Some ip :: (Some <$> hops)) with ([Some ip] ++ (Some <$> hops)). rewrite app_assoc, rev_app_distr, rev_app_distr.
  cbn [rev app]. rewrite <- (reverse_involutive hops) in Hh |- *. rewrite Forall_reverse in Hh. revert client.
  induction (reverse hops) as [|h l IH]; intros client.
  - cbn. by rewrite Hip.
  - apply Forall_cons in Hh as [Hh Hl]. rewrite reverse_cons, fmap_app, rev_app_distr. cbn. rewrite Hh. by apply IH.
Qed.

(** A client cannot choose the address it is counted under.  Unless its
    connection comes from a proxy the operator trusts, the header is not
    looked at; behind such proxies it is the address the first of them saw,
    whatever the client wrote in the header before they added to it. *)
Theorem client_unforgeable (trusted : list Cidr) (peer ip : IpAddr) (hops : list IpAddr)
    (earlier : list (option string)) (sent appended : string)
    (Hip : is_trusted trusted ip = false) (Hhops : Forall (λ h, is_trusted trusted h = true) hops)
    (Happended : forwarded_addresses [Some appended] = Some ip :: (Some <$> hops)) :
  client_key (Some peer) (earlier ++ [Some (sent +:+ "," +:+ appended)]) trusted =
    show_client (if is_trusted trusted (canonical peer) then ip else canonical peer).
Proof.
  unfold client_key. change (sent +:+ "," +:+ appended) with (sent +:+ String "," appended).
  rewrite forwarded_app, Happended. case_match; [|done]. by rewrite nearest_hops.
Qed.
Lemma client_unforgeable_witness :
  client_key (parse_ip "127.0.0.1") [Some "junk"; Some ("10.0.0.7" +:+ "," +:+ "203.0.113.9, 10.0.0.2")]
    [mkCidr (V4 [127; 0; 0; 1]%N) 32; mkCidr (V4 [10; 0; 0; 0]%N) 8] = "203.0.113.9".
Proof.
  apply (client_unforgeable [mkCidr (V4 [127; 0; 0; 1]%N) 32; mkCidr (V4 [10; 0; 0; 0]%N) 8] (V4 [127; 0; 0; 1]%N)
    (V4 [203; 0; 113; 9]%N) [V4 [10; 0; 0; 2]%N] [Some "junk"] "10.0.0.7" "203.0.113.9, 10.0.0.2").
  - vm_compute. reflexivity.
  - repeat constructor.
  - vm_compute. reflexivity.
Defined.

(** A trusted network is its prefix: an address is in it exactly when
    it is of the network's family, IPv4 mapped into IPv6 taken as IPv4, and
    their first bits, as many as the prefix says, are the same. *)
Theorem cidr_by_bits (c : Cidr) (ip : IpAddr)
    (Hnet : are_bytes (octets (ci_net c))) (Hip : are_bytes (octets (canonical ip)))
    (Hlen : ci_prefix c ≤ 8 * length (octets (ci_net c)))
    (Hfam : match ci_net c, canonical ip with V4 n, V4 a => length n = length a | V6 n, V6 a => length n = length a | _, _ => True end) :
  cidr_contains c ip = true ↔
    match ci_net c, canonical ip with V4 _, V4 _ | V6 _, V6 _ => True | _, _ => False end ∧
    ∀ i, i < ci_prefix c → bit_at (octets (ci_net c)) i = bit_at (octets (canonical ip)) i.
Proof.
  unfold cidr_contains. destruct (ci_net c) as [n|n] eqn:En, (canonical ip) as [a|a]; try (by split; [|intros []]).
  - rewrite (prefix_eq_spec (octets (V4 n)) (octets (V4 a))) by done. naive_solver.
  - rewrite (prefix_eq_spec (octets (V6 n)) (octets (V6 a))); [naive_solver|done..| |done].
    cbn [octets]. clear -Hfam. revert a Hfam. induction n as [|x n IH]; intros [|y a]; try done. cbn. intros [= H]. by rewrite (IH a).
Qed.
Lemma cidr_by_bits_witness :
  cidr_contains (mkCidr (V4 [172; 16; 0; 0]%N) 12) (V4 [172; 31; 255; 1]%N) = true ∧
  ∀ i, i < 12 → bit_at (octets (V4 [172; 16; 0; 0]%N)) i = bit_at (octets (canonical (V4 [172; 31; 255; 1]%N))) i.
Proof.
  assert (cidr_contains (mkCidr (V4 [172; 16; 0; 0]%N) 12) (V4 [172; 31; 255; 1]%N) = true) as H by (vm_compute; reflexivity).
  split; [exact H|]. apply (cidr_by_bits (mkCidr (V4 [172; 16; 0; 0]%N) 12) (V4 [172; 31; 255; 1]%N)); [..|exact H].
  - repeat constructor.
  - repeat constructor.
  - cbn. lia.
  - done.
Defined.
