(* ===== verification/RulesDb.v ===== *)
(** * RulesDb: the rules server's tables ([rules-server/src/db.rs])

    One record for the database, one operation per function: it reads, or
    changes the tables, or fails as a constraint makes SQLite fail.  A
    transaction that fails leaves the tables as they were. *)

From Stdlib Require Import Ascii.
From S2P Require Import Prelude.
From S2P Require Import Domain.
From S2P Require Import MailStore.
From S2P Require Import RulesTokens.

(** ** Rows *)

Definition Bytes := string.
Record MailboxRow := mkMailbox {
  mb_id : Z; mb_address : string; mb_publisher_token_hash : string; mb_created_at : Millis;
  mb_reports_dropped : Z; mb_app_key : option string }.
Record SnapshotRow := mkSnapshot {
  sn_version : Z; sn_json : string; sn_published_at : Millis; sn_key_id : option string; sn_sealed : option Bytes;
  sn_schema_version : option Z }.
Definition KIND_TOKEN := "token".
Definition KIND_OAUTH := "oauth".
Record AgentTokenRow := mkAgent {
  ag_id : string; ag_mailbox_id : Z; ag_name : string; ag_token_hash : string; ag_created_at : Millis;
  ag_revoked_at : option Millis; ag_kind : string; ag_client_id : option string }.
(** A row of [agent_tokens] with its other columns. *)
Record AgentRow := mkAgentRow {
  ar_row : AgentTokenRow; ar_last_used_at : option Millis; ar_key_wrap : option Bytes; ar_app_seal : option Bytes }.
Record ClientRow := mkClient { cl_id : string; cl_name : string; cl_redirect_uris : list string; cl_created_at : Millis }.
Record ConnectCodeRow := mkConnect {
  cc_id : string; cc_mailbox_id : Z; cc_name : string; cc_code_hash : string; cc_created_at : Millis;
  cc_expires_at : Millis; cc_used_at : option Millis }.
Record AuthCodeRow := mkAuthCode {
  ac_grant_id : string; ac_client_id : string; ac_redirect_uri : string; ac_code_challenge : string;
  ac_resource : string; ac_expires_at : Millis; ac_used_at : option Millis }.
Definition TOKEN_ACCESS := "access".
Definition TOKEN_REFRESH := "refresh".
Record OAuthTokenRow := mkOAuthToken {
  ot_kind : string; ot_grant_id : string; ot_resource : string; ot_expires_at : Millis; ot_used_at : option Millis }.
Record SnapshotKeyRow := mkSnapshotKey { sk_mailbox_id : Z; sk_key_id : string; sk_agent_id : string; sk_wrap : Bytes }.
Record ReportRow := mkReport {
  rp_id : Z; rp_mailbox_id : Z; rp_agent_id : string; rp_received_at : Millis; rp_message_id : option string;
  rp_recipients : list string; rp_subject : string; rp_sent_at : option Millis; rp_body_markdown : string;
  rp_checked_version : option Z; rp_check_version : option Z; rp_guide_check : list string; rp_sealed : option Bytes }.

(** ** The database *)

Record RulesDb := mkDb {
  d_mailboxes : list MailboxRow;
  d_snapshots : list (Z * SnapshotRow); (** by mailbox *)
  d_agents : list AgentRow;
  d_clients : list ClientRow;
  d_connect_codes : list ConnectCodeRow;
  d_codes : list (string * AuthCodeRow); (** by hash *)
  d_tokens : list (string * OAuthTokenRow); (** by hash *)
  d_snapshot_keys : list SnapshotKeyRow;
  d_reports : list ReportRow;
  d_report_seq : Z (** [AUTOINCREMENT]'s last id *) }.
Definition empty_db : RulesDb := mkDb [] [] [] [] [] [] [] [] [] 0.

Definition on_mailboxes f d := mkDb (f (d_mailboxes d)) (d_snapshots d) (d_agents d) (d_clients d) (d_connect_codes d)
  (d_codes d) (d_tokens d) (d_snapshot_keys d) (d_reports d) (d_report_seq d).
Definition on_snapshots f d := mkDb (d_mailboxes d) (f (d_snapshots d)) (d_agents d) (d_clients d) (d_connect_codes d)
  (d_codes d) (d_tokens d) (d_snapshot_keys d) (d_reports d) (d_report_seq d).
Definition on_agents f d := mkDb (d_mailboxes d) (d_snapshots d) (f (d_agents d)) (d_clients d) (d_connect_codes d)
  (d_codes d) (d_tokens d) (d_snapshot_keys d) (d_reports d) (d_report_seq d).
Definition on_clients f d := mkDb (d_mailboxes d) (d_snapshots d) (d_agents d) (f (d_clients d)) (d_connect_codes d)
  (d_codes d) (d_tokens d) (d_snapshot_keys d) (d_reports d) (d_report_seq d).
Definition on_connect_codes f d := mkDb (d_mailboxes d) (d_snapshots d) (d_agents d) (d_clients d) (f (d_connect_codes d))
  (d_codes d) (d_tokens d) (d_snapshot_keys d) (d_reports d) (d_report_seq d).
Definition on_codes f d := mkDb (d_mailboxes d) (d_snapshots d) (d_agents d) (d_clients d) (d_connect_codes d)
  (f (d_codes d)) (d_tokens d) (d_snapshot_keys d) (d_reports d) (d_report_seq d).
Definition on_tokens f d := mkDb (d_mailboxes d) (d_snapshots d) (d_agents d) (d_clients d) (d_connect_codes d)
  (d_codes d) (f (d_tokens d)) (d_snapshot_keys d) (d_reports d) (d_report_seq d).
Definition on_snapshot_keys f d := mkDb (d_mailboxes d) (d_snapshots d) (d_agents d) (d_clients d) (d_connect_codes d)
  (d_codes d) (d_tokens d) (f (d_snapshot_keys d)) (d_reports d) (d_report_seq d).
Definition on_reports f d := mkDb (d_mailboxes d) (d_snapshots d) (d_agents d) (d_clients d) (d_connect_codes d)
  (d_codes d) (d_tokens d) (d_snapshot_keys d) (f (d_reports d)) (d_report_seq d).
Definition with_report_seq n d := mkDb (d_mailboxes d) (d_snapshots d) (d_agents d) (d_clients d) (d_connect_codes d)
  (d_codes d) (d_tokens d) (d_snapshot_keys d) (d_reports d) n.

(** What runs on the connection: it may fail, and keeps what it did. *)
Abbreviation Sql A := (Action RulesDb string A) (only parsing).
Definition query {A} (f : RulesDb → A) : Sql A := λ d, (d, Ok (f d)).
Definition execute (f : RulesDb → RulesDb) : Sql unit := λ d, (f d, Ok ()).
(** A statement that fails when a constraint does not hold. *)
Definition insert_if (holds : RulesDb → bool) (f : RulesDb → RulesDb) : Sql unit :=
  λ d, if holds d then (f d, Ok ()) else (d, Err "constraint failed").
(** [c.transaction()] and its [commit]: rolled back when dropped before. *)
Definition transaction {A} (a : Sql A) : Sql A :=
  λ d, match a d with (d', Ok x) => (d', Ok x) | (_, Err e) => (d, Err e) end.

(** ** Mailboxes and snapshots *)

Definition KEEP_VERSIONS : nat := 5.
Definition mailbox_by_address (address : string) (d : RulesDb) : option MailboxRow :=
  List.find (λ m, String.eqb (mb_address m) address) (d_mailboxes d).
(** Registered, or [None] when the address already is. *)
Definition insert_mailbox (address token_hash : string) (now : Millis) : Sql (option Z) := λ d,
  if List.existsb (λ m, String.eqb (mb_address m) address) (d_mailboxes d) then (d, Ok None) else
  let id := next_rowid (mb_id <$> d_mailboxes d) in
  (on_mailboxes (λ l, l ++ [mkMailbox id address token_hash now 0 None]) d, Ok (Some id)).
(** [ON DELETE CASCADE]: what belongs to the mailbox, and to its agents. *)
Definition delete_mailbox (id : Z) (d : RulesDb) : RulesDb :=
  let others (i : Z) := negb (i =? id)%Z in
  let gone := (λ a, ag_id (ar_row a)) <$> List.filter (λ a, negb (others (ag_mailbox_id (ar_row a)))) (d_agents d) in
  let kept (g : string) := negb (bool_decide (g ∈ gone)) in
  mkDb (List.filter (λ m, others (mb_id m)) (d_mailboxes d))
    (List.filter (λ s, others s.1) (d_snapshots d))
    (List.filter (λ a, others (ag_mailbox_id (ar_row a))) (d_agents d))
    (d_clients d)
    (List.filter (λ c, others (cc_mailbox_id c)) (d_connect_codes d))
    (List.filter (λ c, kept (ac_grant_id c.2)) (d_codes d))
    (List.filter (λ t, kept (ot_grant_id t.2)) (d_tokens d))
    (List.filter (λ k, others (sk_mailbox_id k) && kept (sk_agent_id k)) (d_snapshot_keys d))
    (List.filter (λ r, others (rp_mailbox_id r)) (d_reports d))
    (d_report_seq d).

Definition newest_version (a b : SnapshotRow) : Prop := (sn_version b ≤ sn_version a)%Z.
#[export] Instance newest_version_dec a b : Decision (newest_version a b).
Proof. unfold newest_version. apply _. Defined.
(** A mailbox's snapshots, newest first. *)
Definition snapshots_of (mailbox : Z) (d : RulesDb) : list SnapshotRow :=
  merge_sort newest_version (snd <$> List.filter (λ s, (s.1 =? mailbox)%Z) (d_snapshots d)).
Definition latest_snapshot (mailbox : Z) (d : RulesDb) : option SnapshotRow := head (snapshots_of mailbox d).
Definition newest_snapshot_for (mailbox : Z) (agent : option string) (d : RulesDb) : option (SnapshotRow * option Bytes) :=
  (λ s, (s, sk_wrap <$> List.find (λ k, bool_decide (Some (sk_key_id k) = sn_key_id s) &&
                                        String.eqb (sk_agent_id k) (default "" agent)) (d_snapshot_keys d)))
    <$> latest_snapshot mailbox d.
Definition app_key (mailbox : Z) (d : RulesDb) : option string :=
  List.find (λ m, (mb_id m =? mailbox)%Z) (d_mailboxes d) ≫= mb_app_key.
Definition on_agent (p : AgentRow → bool) (f : AgentRow → AgentRow) : RulesDb → RulesDb :=
  on_agents (List.map (λ a, if p a then f a else a)).
Definition is_agent (id : string) (a : AgentRow) : bool := String.eqb (ag_id (ar_row a)) id.
Definition is_live (a : AgentRow) : bool := match ag_revoked_at (ar_row a) with None => true | Some _ => false end.
Definition with_keys (key_wrap app_seal : option Bytes) (a : AgentRow) : AgentRow :=
  mkAgentRow (ar_row a) (ar_last_used_at a) key_wrap app_seal.
(** A new key for the app: the seals for the old one go. *)
Definition set_app_key (mailbox : Z) (key : string) (d : RulesDb) : RulesDb :=
  let changes (m : MailboxRow) := (mb_id m =? mailbox)%Z && negb (bool_decide (mb_app_key m = Some key)) in
  if List.existsb changes (d_mailboxes d)
  then on_agent (λ a, (ag_mailbox_id (ar_row a) =? mailbox)%Z) (λ a, with_keys (ar_key_wrap a) None a)
         (on_mailboxes (List.map (λ m, if changes m
            then mkMailbox (mb_id m) (mb_address m) (mb_publisher_token_hash m) (mb_created_at m) (mb_reports_dropped m) (Some key)
            else m)) d)
  else d.
Definition agent_keys (agent : string) (d : RulesDb) : option Bytes * option Bytes :=
  match List.find (is_agent agent) (d_agents d) with Some a => (ar_key_wrap a, ar_app_seal a) | None => (None, None) end.
Definition drop_snapshot_keys (agent : string) : RulesDb → RulesDb :=
  on_snapshot_keys (List.filter (λ k, negb (String.eqb (sk_agent_id k) agent))).
Definition set_agent_keys (agent : string) (key_wrap : Bytes) (app_seal : option Bytes) (d : RulesDb) : RulesDb :=
  drop_snapshot_keys agent
    (on_agent (λ a, is_agent agent a && is_live a) (with_keys (Some key_wrap) app_seal) d).
Definition set_key_wrap (agent : string) (key_wrap : Bytes) : RulesDb → RulesDb :=
  on_agent (λ a, is_agent agent a && is_live a) (λ a, with_keys (Some key_wrap) (ar_app_seal a) a).
Definition set_app_seal (agent : string) (app_seal : Bytes) : RulesDb → RulesDb :=
  on_agent (λ a, is_agent agent a && is_live a && match ar_key_wrap a with Some _ => true | None => false end)
    (λ a, with_keys (ar_key_wrap a) (Some app_seal) a).
(** [INSERT OR REPLACE]: for the mailbox's live agents, how many. *)
Definition insert_snapshot_key (mailbox : Z) (key_id : string) (w : string * Bytes) (dn : RulesDb * nat) : RulesDb * nat :=
  let '(d, n) := dn in
  if List.existsb (λ a, is_agent w.1 a && (ag_mailbox_id (ar_row a) =? mailbox)%Z && is_live a) (d_agents d)
  then (on_snapshot_keys (λ l, List.filter (λ k, negb (String.eqb (sk_key_id k) key_id && String.eqb (sk_agent_id k) w.1)) l
                               ++ [mkSnapshotKey mailbox key_id w.1 w.2]) d, S n)
  else (d, n).
Definition insert_snapshot_keys (mailbox : Z) (key_id : string) (wraps : list (string * Bytes)) (d : RulesDb) : RulesDb * nat :=
  foldl (λ dn w, insert_snapshot_key mailbox key_id w dn) (d, 0) wraps.
Definition has_key_id (mailbox : Z) (key_id : string) (d : RulesDb) : bool :=
  List.existsb (λ s, (s.1 =? mailbox)%Z && bool_decide (sn_key_id s.2 = Some key_id)) (d_snapshots d).
(** Whether the newest snapshot is readable to an agent. *)
Definition readable (mailbox : Z) (agent : string) (d : RulesDb) : bool :=
  match latest_snapshot mailbox d with
  | Some s =>
      match sn_sealed s with
      | None => true
      | Some _ => List.existsb (λ k, bool_decide (Some (sk_key_id k) = sn_key_id s) && String.eqb (sk_agent_id k) agent)
                    (d_snapshot_keys d)
      end
  | None => false
  end.
Definition agent_readability (mailbox : Z) (d : RulesDb) : list (string * option Bytes * bool) :=
  (λ a, (ag_id (ar_row a), ar_app_seal a, readable mailbox (ag_id (ar_row a)) d))
    <$> List.filter (λ a, (ag_mailbox_id (ar_row a) =? mailbox)%Z) (d_agents d).
Definition is_plain (mailbox : Z) (s : Z * SnapshotRow) : bool :=
  (s.1 =? mailbox)%Z && match sn_sealed s.2 with None => true | Some _ => false end.
Definition delete_plain_snapshots (mailbox : Z) (d : RulesDb) : RulesDb * nat :=
  (on_snapshots (List.filter (λ s, negb (is_plain mailbox s))) d, count (is_plain mailbox) (d_snapshots d)).
Definition versions (mailbox : Z) (d : RulesDb) : list Z := sn_version <$> snapshots_of mailbox d.
(** Stored, all but the newest few dropped, and wraps of keys no kept
    snapshot uses. *)
Definition insert_snapshot (mailbox : Z) (row : SnapshotRow) (now : Millis) : Sql unit := λ d,
  if List.existsb (λ s, (s.1 =? mailbox)%Z && (sn_version s.2 =? sn_version row)%Z) (d_snapshots d)
     || negb (List.existsb (λ m, (mb_id m =? mailbox)%Z) (d_mailboxes d))
  then (d, Err "constraint failed") else
  let d := on_snapshots (λ l, l ++ [(mailbox, row)]) d in
  let kept := take KEEP_VERSIONS (versions mailbox d) in
  let d := on_snapshots (List.filter (λ s, negb (s.1 =? mailbox)%Z || bool_decide (sn_version s.2 ∈ kept))) d in
  let used := omap sn_key_id (snapshots_of mailbox d) in
  (on_snapshot_keys (List.filter (λ k, negb (sk_mailbox_id k =? mailbox)%Z || bool_decide (sk_key_id k ∈ used))) d, Ok ()).

(** ** Agents *)

Definition with_row (f : AgentTokenRow → AgentTokenRow) (a : AgentRow) : AgentRow :=
  mkAgentRow (f (ar_row a)) (ar_last_used_at a) (ar_key_wrap a) (ar_app_seal a).
(** An agent with the address of its mailbox. *)
Definition agent_token (id : string) (d : RulesDb) : option (AgentTokenRow * string) :=
  a ← List.find (is_agent id) (d_agents d);
  m ← List.find (λ m, (mb_id m =? ag_mailbox_id (ar_row a))%Z) (d_mailboxes d);
  Some (ar_row a, mb_address m).
Definition insert_agent_token (row : AgentTokenRow) : Sql unit :=
  insert_if (λ d, negb (List.existsb (is_agent (ag_id row)) (d_agents d)) &&
                  List.existsb (λ m, (mb_id m =? ag_mailbox_id row)%Z) (d_mailboxes d))
    (on_agents (λ l, l ++ [mkAgentRow row None None None])).
Definition older_agent (a b : AgentRow) : Prop :=
  (ag_created_at (ar_row a) < ag_created_at (ar_row b))%Z ∨
  (ag_created_at (ar_row a) = ag_created_at (ar_row b) ∧ String.leb (ag_id (ar_row a)) (ag_id (ar_row b)) = true).
#[export] Instance older_agent_dec a b : Decision (older_agent a b).
Proof. unfold older_agent. apply _. Defined.
(** A mailbox's agents, oldest first, with their client's name and when
    they were last let in. *)
Definition agent_tokens (mailbox : Z) (d : RulesDb) : list (AgentTokenRow * option string * option Millis) :=
  (λ a, (ar_row a, cl_name <$> (ag_client_id (ar_row a) ≫= λ c, List.find (λ cl, String.eqb (cl_id cl) c) (d_clients d)),
         ar_last_used_at a))
    <$> merge_sort older_agent (List.filter (λ a, (ag_mailbox_id (ar_row a) =? mailbox)%Z) (d_agents d)).
Definition LAST_USED_GRAIN_MS : Millis := 60000.
Definition touch_agent (id : string) (now : Millis) : RulesDb → RulesDb :=
  on_agent (λ a, is_agent id a && match ar_last_used_at a with Some t => (t <=? now - LAST_USED_GRAIN_MS)%Z | None => true end)
    (λ a, mkAgentRow (ar_row a) (Some now) (ar_key_wrap a) (ar_app_seal a)).
(** [COALESCE(revoked_at, now)] *)
Definition revoked_row (now : Millis) (r : AgentTokenRow) : AgentTokenRow :=
  mkAgent (ag_id r) (ag_mailbox_id r) (ag_name r) (ag_token_hash r) (ag_created_at r)
    (Some (default now (ag_revoked_at r))) (ag_kind r) (ag_client_id r).
(** Its codes, tokens, key and wraps: of no use any more. *)
Definition forget_grant_secrets (id : string) (d : RulesDb) : RulesDb :=
  drop_snapshot_keys id
    (on_agent (is_agent id) (with_keys None None)
       (on_codes (List.filter (λ c, negb (String.eqb (ac_grant_id c.2) id)))
          (on_tokens (List.filter (λ t, negb (String.eqb (ot_grant_id t.2) id))) d))).
Definition revoke_agent_token (mailbox : Z) (id : string) (now : Millis) (d : RulesDb) : RulesDb * bool :=
  let named (a : AgentRow) := (ag_mailbox_id (ar_row a) =? mailbox)%Z && is_agent id a in
  if List.existsb named (d_agents d)
  then (forget_grant_secrets id (on_agent named (with_row (revoked_row now)) d), true) else (d, false).
Definition revoke_grant (id : string) (now : Millis) (d : RulesDb) : RulesDb :=
  forget_grant_secrets id (on_agent (is_agent id) (with_row (revoked_row now)) d).

(** ** OAuth *)

Definition insert_client (row : ClientRow) : Sql unit :=
  insert_if (λ d, negb (List.existsb (λ c, String.eqb (cl_id c) (cl_id row)) (d_clients d))) (on_clients (λ l, l ++ [row])).
Definition client (id : string) (d : RulesDb) : option ClientRow := List.find (λ c, String.eqb (cl_id c) id) (d_clients d).
Definition HOUR : Millis := 3600000.
Definition UNUSED_CLIENT_MS : Millis := (7 * 24 * HOUR)%Z.
Definition SPENT_MS : Millis := (24 * HOUR)%Z.
Definition prune (now : Millis) (d : RulesDb) : RulesDb :=
  let kept (at_ : Millis) := negb (at_ <? now - SPENT_MS)%Z in
  let used := omap (λ a, ag_client_id (ar_row a)) (d_agents d) in
  on_clients (List.filter (λ c, negb (cl_created_at c <? now - UNUSED_CLIENT_MS)%Z || bool_decide (cl_id c ∈ used)))
    (on_tokens (List.filter (λ t, kept (ot_expires_at t.2)))
      (on_codes (List.filter (λ c, kept (ac_expires_at c.2)))
        (on_connect_codes (List.filter (λ c, kept (cc_expires_at c))) d))).

Definition insert_connect_code (row : ConnectCodeRow) : Sql unit :=
  insert_if (λ d, negb (List.existsb (λ c, String.eqb (cc_id c) (cc_id row) || String.eqb (cc_code_hash c) (cc_code_hash row))
                          (d_connect_codes d)) &&
                  List.existsb (λ m, (mb_id m =? cc_mailbox_id row)%Z) (d_mailboxes d))
    (on_connect_codes (λ l, l ++ [row])).
Definition connect_code_live (now : Millis) (c : ConnectCodeRow) : bool :=
  match cc_used_at c with None => (now <? cc_expires_at c)%Z | Some _ => false end.
Definition live_connect_codes (mailbox : Z) (now : Millis) (d : RulesDb) : nat :=
  count (λ c, (cc_mailbox_id c =? mailbox)%Z && connect_code_live now c) (d_connect_codes d).
Definition used_connect_code (now : Millis) (c : ConnectCodeRow) : ConnectCodeRow :=
  mkConnect (cc_id c) (cc_mailbox_id c) (cc_name c) (cc_code_hash c) (cc_created_at c) (cc_expires_at c) (Some now).
(** A connect code's mailbox and name, once. *)
Definition redeem_connect_code (code_hash : string) (now : Millis) (d : RulesDb) : RulesDb * option (Z * string) :=
  match List.find (λ c, String.eqb (cc_code_hash c) code_hash && connect_code_live now c) (d_connect_codes d) with
  | None => (d, None)
  | Some c =>
      (on_connect_codes (List.map (λ c', if String.eqb (cc_id c') (cc_id c) then used_connect_code now c' else c')) d,
       Some (cc_mailbox_id c, cc_name c))
  end.

Definition has_agent (id : string) (d : RulesDb) : bool := List.existsb (is_agent id) (d_agents d).
Definition insert_auth_code (code_hash : string) (row : AuthCodeRow) : Sql unit :=
  insert_if (λ d, negb (List.existsb (λ c, String.eqb c.1 code_hash) (d_codes d)) && has_agent (ac_grant_id row) d)
    (on_codes (λ l, l ++ [(code_hash, row)])).
Definition auth_code (code_hash : string) (d : RulesDb) : option AuthCodeRow :=
  snd <$> List.find (λ c, String.eqb c.1 code_hash) (d_codes d).
Definition used_code (now : Millis) (c : AuthCodeRow) : AuthCodeRow :=
  mkAuthCode (ac_grant_id c) (ac_client_id c) (ac_redirect_uri c) (ac_code_challenge c) (ac_resource c) (ac_expires_at c) (Some now).
Definition use_auth_code (code_hash : string) (now : Millis) : RulesDb → RulesDb :=
  on_codes (List.map (λ c, if String.eqb c.1 code_hash then (c.1, used_code now c.2) else c)).

Definition insert_oauth_token (token_hash : string) (row : OAuthTokenRow) : Sql unit :=
  insert_if (λ d, negb (List.existsb (λ t, String.eqb t.1 token_hash) (d_tokens d)) && has_agent (ot_grant_id row) d)
    (on_tokens (λ l, l ++ [(token_hash, row)])).
Definition oauth_token (token_hash : string) (d : RulesDb) : option OAuthTokenRow :=
  snd <$> List.find (λ t, String.eqb t.1 token_hash) (d_tokens d).
Definition delete_access_tokens (grant : string) : RulesDb → RulesDb :=
  on_tokens (List.filter (λ t, negb (String.eqb (ot_grant_id t.2) grant && String.eqb (ot_kind t.2) TOKEN_ACCESS))).
Definition used_token (now : Millis) (t : OAuthTokenRow) : OAuthTokenRow :=
  mkOAuthToken (ot_kind t) (ot_grant_id t) (ot_resource t) (ot_expires_at t) (Some now).
Definition use_oauth_token (token_hash : string) (now : Millis) : RulesDb → RulesDb :=
  on_tokens (List.map (λ t, if String.eqb t.1 token_hash then (t.1, used_token now t.2) else t)).

(** ** Reports *)

Definition MAX_PENDING_REPORTS : nat := Z.to_nat 10000.
Definition REPORT_RETENTION_MS : Millis := (30 * 24 * HOUR)%Z.
Definition with_report_id (id : Z) (r : ReportRow) : ReportRow :=
  mkReport id (rp_mailbox_id r) (rp_agent_id r) (rp_received_at r) (rp_message_id r) (rp_recipients r) (rp_subject r)
    (rp_sent_at r) (rp_body_markdown r) (rp_checked_version r) (rp_check_version r) (rp_guide_check r) (rp_sealed r).
Definition of_mailbox (mailbox : Z) (r : ReportRow) : bool := (rp_mailbox_id r =? mailbox)%Z.
(** A mailbox's report ids, newest first; ids are in order of insertion. *)
Definition report_ids (mailbox : Z) (d : RulesDb) : list Z := reverse (rp_id <$> List.filter (of_mailbox mailbox) (d_reports d)).
(** Stored under an id never used before, the mailbox's oldest dropped
    beyond [max_pending] and counted. *)
Definition insert_report (r : ReportRow) (max_pending : nat) : Sql Z := λ d,
  let m := rp_mailbox_id r in
  if negb (List.existsb (λ mb, (mb_id mb =? m)%Z) (d_mailboxes d)) then (d, Err "constraint failed") else
  let id := (d_report_seq d + 1)%Z in
  let d := with_report_seq id (on_reports (λ l, l ++ [with_report_id id r]) d) in
  let goes (r : ReportRow) := of_mailbox m r && match report_ids m d !! max_pending with Some last => (rp_id r <=? last)%Z | None => false end in
  let dropped := count goes (d_reports d) in
  let d' := on_reports (List.filter (λ r, negb (goes r))) d in
  (if 0 <? dropped
   then on_mailboxes (List.map (λ mb, if (mb_id mb =? m)%Z
          then mkMailbox (mb_id mb) (mb_address mb) (mb_publisher_token_hash mb) (mb_created_at mb)
                 (mb_reports_dropped mb + Z.of_nat dropped) (mb_app_key mb) else mb)) d'
   else d', Ok id).
Definition ListedReport : Type := ReportRow * string * string.
(** [LIMIT n] *)
Definition limit_to {A} (n : Z) (l : list A) : list A := if (Z.of_nat (length l) <=? n)%Z then l else take (Z.to_nat n) l.
(** A mailbox's reports after an id, oldest first, with their agent's name
    and kind. *)
Definition reports (mailbox after limit : Z) (d : RulesDb) : list ListedReport :=
  (λ r, match List.find (is_agent (rp_agent_id r)) (d_agents d) with
        | Some a => (r, ag_name (ar_row a), ag_kind (ar_row a))
        | None => (r, "", KIND_TOKEN)
        end)
    <$> limit_to limit (List.filter (λ r, of_mailbox mailbox r && (after <? rp_id r)%Z) (d_reports d)).
Definition plain_reports (mailbox : Z) (d : RulesDb) : list ReportRow :=
  List.filter (λ r, match rp_sealed r with None => true | Some _ => false end) ((λ r, r.1.1) <$> reports mailbox 0 (2 ^ 63 - 1) d).
Definition sealed_report (sealed : Bytes) (r : ReportRow) : ReportRow :=
  mkReport (rp_id r) (rp_mailbox_id r) (rp_agent_id r) (rp_received_at r) None [] "" (rp_sent_at r) ""
    (rp_checked_version r) (rp_check_version r) [] (Some sealed).
Definition seal_report (id : Z) (sealed : Bytes) : RulesDb → RulesDb :=
  on_reports (List.map (λ r, if (rp_id r =? id)%Z then sealed_report sealed r else r)).
(** How many wait, and how many were dropped for room. *)
Definition report_counts (mailbox : Z) (d : RulesDb) : nat * Z :=
  (count (of_mailbox mailbox) (d_reports d),
   match List.find (λ m, (mb_id m =? mailbox)%Z) (d_mailboxes d) with Some m => mb_reports_dropped m | None => 0%Z end).
Definition ack_reports (mailbox up_to_id : Z) (d : RulesDb) : RulesDb * nat :=
  let goes (r : ReportRow) := of_mailbox mailbox r && (rp_id r <=? up_to_id)%Z in
  (on_reports (List.filter (λ r, negb (goes r))) d, count goes (d_reports d)).
Definition sweep_reports (now : Millis) (d : RulesDb) : RulesDb * nat :=
  let goes (r : ReportRow) := (rp_received_at r <? now - REPORT_RETENTION_MS)%Z in
  (on_reports (List.filter (λ r, negb (goes r))) d, count goes (d_reports d)).

(** ** Finding an agent *)

Lemma find_List_map {A} (p : A → bool) (g : A → A) l : (∀ x, p (g x) = p x) → List.find p (List.map g l) = g <$> List.find p l.
Proof. intros Hg. induction l as [|x l IH]; [done|]. cbn [List.map List.find]. rewrite Hg. by destruct (p x). Qed.
Lemma find_Some {A} (p : A → bool) l x : List.find p l = Some x → p x = true ∧ x ∈ l.
Proof. intros [Hin Hp]%List.find_some. by rewrite list_elem_of_In. Qed.
Lemma find_None {A} (p : A → bool) l : List.find p l = None ↔ ∀ x, x ∈ l → p x = false.
Proof.
  split; [intros H x Hx%list_elem_of_In; exact (List.find_none p l H x Hx)|].
  induction l as [|x l IH]; intros H; [done|]. cbn [List.find]. rewrite H by set_solver. apply IH. set_solver.
Qed.

Definition find_agent (id : string) (d : RulesDb) : option AgentRow := List.find (is_agent id) (d_agents d).
Lemma find_agent_id id d a : find_agent id d = Some a → ag_id (ar_row a) = id ∧ a ∈ d_agents d.
Proof. intros [Hp Hin]%find_Some. split; [by apply String.eqb_eq in Hp|done]. Qed.
Lemma find_on_agent id p f d : (∀ a, ag_id (ar_row (f a)) = ag_id (ar_row a)) →
  find_agent id (on_agent p f d) = (λ a, if p a then f a else a) <$> find_agent id d.
Proof. intros Hf. apply find_List_map. intros a. unfold is_agent. by destruct (p a); rewrite ?Hf. Qed.
Lemma agent_keys_find id d :
  agent_keys id d = match find_agent id d with Some a => (ar_key_wrap a, ar_app_seal a) | None => (None, None) end.
Proof. done. Qed.
