(* ===== verification/RulesCrypto.v ===== *)
(** * RulesCrypto: encryption at rest ([rules-crypto/src/lib.rs],
    [rules-server/src/crypto.rs])

    Boxes, what is bound to them, and an agent's key as the server makes,
    opens and wraps it again.  XChaCha20-Poly1305, HKDF-SHA256, X25519 and
    base64 are the class [Crypto], with the laws their libraries promise;
    keys, nonces and ephemeral keys that are drawn are arguments. *)

From Stdlib Require Import Ascii.
From S2P Require Import Prelude.
From S2P Require Import Text.
From S2P Require Import RulesTokens.
From S2P Require Import RulesDb.

(** ** Primitives *)

Class Crypto := {
  aead_encrypt : Bytes → Bytes → Bytes → Bytes → Bytes; (** key, nonce, message, associated data *)
  aead_decrypt : Bytes → Bytes → Bytes → Bytes → option Bytes;
  hkdf : Bytes → Bytes → Bytes → Bytes; (** salt, secret, info: 32 bytes *)
  x25519_public : Bytes → Bytes;
  diffie_hellman : Bytes → Bytes → option Bytes; (** [None]: not contributory *)
  b64 : Bytes → string;
  base64_decode : string → option Bytes }.
Class CryptoLaws `{Crypto} := {
  aead_opens key nonce m ad : aead_decrypt key nonce (aead_encrypt key nonce m ad) ad = Some m;
  aead_length key nonce m ad : String.length (aead_encrypt key nonce m ad) = String.length m + 16;
  hkdf_length salt secret info : String.length (hkdf salt secret info) = 32;
  x25519_length s : String.length (x25519_public s) = 32;
  dh_agrees a b : diffie_hellman a (x25519_public b) = diffie_hellman b (x25519_public a);
  b64_decode b : base64_decode (b64 b) = Some b;
  b64_trimmed b : trim (b64 b) = b64 b }.

Definition NONCE_LEN : nat := 24.
Definition KEY_LEN : nat := 32.
Definition TAG_LEN : nat := 16.
Inductive SealError := NotBase64 | Short | NotOpened | NotKey | NotUtf8.
Definition before (n : nat) (s : Bytes) : Bytes := String.substring 0 n s.
Definition behind (n : nat) (s : Bytes) : Bytes := String.substring n (String.length s - n) s.

(** [std::str::from_utf8] *)
Fixpoint tail_bytes (n : nat) (s : string) : option string :=
  match n, s with
  | O, _ => Some s
  | S n, String a s => if continuation a then tail_bytes n s else None
  | S _, EmptyString => None
  end.
Definition utf8_char (s : string) : option string :=
  match s with
  | EmptyString => None
  | String a s =>
      let x := Ascii.N_of_ascii a in
      let next := match s with String b _ => Ascii.N_of_ascii b | EmptyString => 0%N end in
      if (x <? 128)%N then Some s
      else if ((194 <=? x) && (x <=? 223))%N then tail_bytes 1 s
      else if ((224 <=? x) && (x <=? 239))%N then
        if ((x =? 224) && (next <? 160) || (x =? 237) && (160 <=? next))%N then None else tail_bytes 2 s
      else if ((240 <=? x) && (x <=? 244))%N then
        if ((x =? 240) && (next <? 144) || (x =? 244) && (144 <=? next))%N then None else tail_bytes 3 s
      else None
  end.
Fixpoint utf8_from (fuel : nat) (s : string) : bool :=
  match fuel, s with
  | _, EmptyString => true
  | O, _ => false
  | S fuel, _ => match utf8_char s with Some s => utf8_from fuel s | None => false end
  end.
Definition is_utf8 (s : string) : bool := utf8_from (String.length s) s.

Section crypto.
Context `{Crypto}.

Definition unb64 (s : string) : result SealError Bytes := ok_or NotBase64 (base64_decode (trim s)).
Definition from_bytes (bytes : Bytes) : result SealError Bytes :=
  if String.length bytes =? KEY_LEN then Ok bytes else Err NotKey.
Definition from_base64 (s : string) : result SealError Bytes := b ← unb64 s; from_bytes b.

(** ** Boxes *)

Definition seal (key nonce plaintext ad : Bytes) : Bytes := nonce +:+ aead_encrypt key nonce plaintext ad.
Definition open (key sealed ad : Bytes) : result SealError Bytes :=
  if String.length sealed <? NONCE_LEN + TAG_LEN then Err Short
  else ok_or NotOpened (aead_decrypt key (before NONCE_LEN sealed) (behind NONCE_LEN sealed) ad).

Definition LABEL_PREFIX := "openagc-rules/v1/".
Definition NUL : string := String "000" EmptyString.
(** A label and fields, each behind a zero byte. *)
Definition context (label : string) (fields : list string) : Bytes :=
  LABEL_PREFIX +:+ label +:+ foldr (λ f s, NUL +:+ f +:+ s) "" fields.

Context (to_lowercase : string → string).
Definition snapshot_ad (address : string) (version : Z) (key_id : string) (schema_version : option Z) : Bytes :=
  let address := to_lowercase (trim address) in
  match schema_version with
  | Some schema => context "snapshot/2" [address; pretty version; key_id; pretty schema]
  | None => context "snapshot" [address; pretty version; key_id]
  end.
Definition seal_snapshot (key nonce : Bytes) (key_id address : string) (version schema_version : Z) (json : string) : Bytes :=
  seal key nonce json (snapshot_ad address version key_id (Some schema_version)).
Definition open_snapshot (key : Bytes) (key_id address : string) (version : Z) (schema_version : option Z) (sealed : Bytes) :
    result SealError string :=
  bytes ← open key sealed (snapshot_ad address version key_id schema_version);
  if is_utf8 bytes then Ok bytes else Err NotUtf8.

Definition credential_key (secret agent_id : string) : Bytes := hkdf "openagc-rules/v1/credential" secret agent_id.
Definition wrap_agent_key (credential nonce agent_key : Bytes) (agent_id : string) : Bytes :=
  seal credential nonce agent_key (context "agent-key" [agent_id]).
Definition unwrap_agent_key (credential wrapped : Bytes) (agent_id : string) : result SealError Bytes :=
  b ← open credential wrapped (context "agent-key" [agent_id]); from_bytes b.
Definition wrap_snapshot_key (agent_key nonce snapshot_key : Bytes) (agent_id key_id : string) : Bytes :=
  seal agent_key nonce snapshot_key (context "snapshot-key" [agent_id; key_id]).
Definition unwrap_snapshot_key (agent_key wrapped : Bytes) (agent_id key_id : string) : result SealError Bytes :=
  b ← open agent_key wrapped (context "snapshot-key" [agent_id; key_id]); from_bytes b.

(** ** Boxes sealed to the app *)

Definition app_public_key (s : string) : result SealError Bytes := b ← unb64 s; from_bytes b.
Definition sealed_box_key (shared ephemeral recipient ctx : Bytes) : Bytes := hkdf (ephemeral +:+ recipient) shared ctx.
Definition seal_for_app (app_public ephemeral nonce plaintext ctx : Bytes) : result SealError Bytes :=
  shared ← ok_or NotKey (diffie_hellman ephemeral app_public);
  let key := sealed_box_key shared (x25519_public ephemeral) app_public ctx in
  Ok (x25519_public ephemeral +:+ seal key nonce plaintext ctx).
Definition open_for_app (app sealed ctx : Bytes) : result SealError Bytes :=
  if String.length sealed <? KEY_LEN + NONCE_LEN + TAG_LEN then Err Short else
  let ephemeral := before KEY_LEN sealed in
  shared ← ok_or NotOpened (diffie_hellman app ephemeral);
  open (sealed_box_key shared ephemeral (x25519_public app) ctx) (behind KEY_LEN sealed) ctx.
Definition agent_key_for_app_context (agent_id : string) : Bytes := context "agent-key-for-app" [agent_id].
Definition report_context (address agent_id : string) : Bytes := context "report" [to_lowercase (trim address); agent_id].
Definition seal_agent_key_for_app (app_public ephemeral nonce agent_key : Bytes) (agent_id : string) : result SealError Bytes :=
  seal_for_app app_public ephemeral nonce agent_key (agent_key_for_app_context agent_id).
Definition open_agent_key (app sealed : Bytes) (agent_id : string) : result SealError Bytes :=
  b ← open_for_app app sealed (agent_key_for_app_context agent_id); from_bytes b.
End crypto.

(** ** An agent's key *)

Inductive Unopened := Replace | Keep.
#[export] Instance unopened_eq_dec : EqDecision Unopened.
Proof. solve_decision. Defined.
(** What is drawn to make a key: the key, and each box's nonce and
    ephemeral key. *)
Record KeyDice := mkDice { kd_key : Bytes; kd_wrap_nonce : Bytes; kd_ephemeral : Bytes; kd_seal_nonce : Bytes }.

Section agent_key.
Context `{Crypto}.

(** The mailbox's public key, when it reads. *)
Definition app_public (mailbox : Z) (d : RulesDb) : option Bytes := app_key mailbox d ≫= λ k, ok (app_public_key k).
(** The agent's key as its credential opens it. *)
Definition opened_key (secret agent_id : string) (d : RulesDb) : option Bytes :=
  (agent_keys agent_id d).1 ≫= λ w, ok (unwrap_agent_key (credential_key secret agent_id) w agent_id).

(** Opened, and sealed to the app if it is not yet; or made; or neither. *)
Definition agent_key (dice : KeyDice) (agent_id : string) (mailbox : Z) (secret : string) (unopened : Unopened)
    (d : RulesDb) : RulesDb * option Bytes :=
  let '(wrapped, sealed) := agent_keys agent_id d in
  let for_app public key := seal_agent_key_for_app public (kd_ephemeral dice) (kd_seal_nonce dice) key agent_id in
  match opened_key secret agent_id d with
  | Some key =>
      (match sealed, app_public mailbox d with
       | None, Some public => match for_app public key with Ok s => set_app_seal agent_id s d | Err _ => d end
       | _, _ => d
       end, Some key)
  | None =>
      if match wrapped with Some _ => bool_decide (unopened = Keep) | None => false end then (d, None) else
      match app_public mailbox d with
      | None => (d, None)
      | Some public =>
          match for_app public (kd_key dice) with
          | Err _ => (d, None)
          | Ok s =>
              let wrap := wrap_agent_key (credential_key secret agent_id) (kd_wrap_nonce dice) (kd_key dice) agent_id in
              (set_agent_keys agent_id wrap (Some s) d, Some (kd_key dice))
          end
      end
  end.

(** A grant's refresh rotated its secret: the same key under the new one. *)
Definition rewrap_agent_key (nonce : Bytes) (agent_id old new : string) (d : RulesDb) : RulesDb * bool :=
  match opened_key old agent_id d with
  | Some key => (set_key_wrap agent_id (wrap_agent_key (credential_key new agent_id) nonce key agent_id) d, true)
  | None => (d, false)
  end.
End agent_key.

(** ** The published guide, opened for an agent *)

Inductive NotRead := Unpublished | Unreadable | PlaintextRefused.
Definition not_read_code (n : NotRead) : string := match n with Unpublished => "not_published" | _ => "not_readable" end.
Definition not_read_status (n : NotRead) : nat := match n with Unpublished => 404 | _ => 409 end.

Section snapshot_for.
Context `{Crypto} (to_lowercase : string → string).

(** The newest snapshot's JSON; an error is a box or wrap that did not
    open. *)
Definition open_newest (require_encryption : bool) (mailbox : Z) (agent_id address : string) (key : option Bytes)
    (d : RulesDb) : result NotRead (result SealError string) :=
  match newest_snapshot_for mailbox (Some agent_id) d with
  | None => Err Unpublished
  | Some (row, wrap) =>
      match sn_sealed row, sn_key_id row, wrap, key with
      | None, _, _, _ => if require_encryption then Err PlaintextRefused else Ok (Ok (sn_json row))
      | Some _, _, None, _ | Some _, _, _, None => Err Unreadable
      | Some sealed, Some key_id, Some wrap, Some agent_key =>
          Ok (k ← unwrap_snapshot_key agent_key wrap agent_id key_id;
              open_snapshot to_lowercase k key_id address (sn_version row) (sn_schema_version row) sealed)
      | Some _, None, Some _, Some _ => Ok (Err NotKey) (** "a sealed snapshot without its key id" *)
      end
  end.
(** What does not open is not readable. *)
Definition snapshot_json (opened : result NotRead (result SealError string)) : result NotRead string :=
  j ← opened; match j with Ok j => Ok j | Err _ => Err Unreadable end.
End snapshot_for.

(** ** Round trips *)

Lemma before_app x y n : String.length x = n → before n (x +:+ y) = x.
Proof. intros <-. apply substring_prefix. Qed.
Lemma behind_app x y n : String.length x = n → behind n (x +:+ y) = y.
Proof.
  intros <-. unfold behind. rewrite substring_suffix, length_str_app.
  replace (_ - _) with (String.length y) by lia. rewrite <- (str_app_nil y) at 2. apply substring_prefix.
Qed.
Lemma ok_Some {E A} (r : result E A) a : ok r = Some a ↔ r = Ok a.
Proof. destruct r; cbn; naive_solver. Qed.
Lemma from_bytes_Ok b k : from_bytes b = Ok k ↔ b = k ∧ String.length b = KEY_LEN.
Proof. unfold from_bytes. destruct (Nat.eqb_spec (String.length b) KEY_LEN); naive_solver. Qed.

Section boxes.
Context `{CryptoLaws}.

Lemma open_seal key nonce m ad : String.length nonce = NONCE_LEN → open key (seal key nonce m ad) ad = Ok m.
Proof.
  intros Hn. unfold open, seal. rewrite length_str_app, aead_length, Hn.
  destruct (Nat.ltb_spec (NONCE_LEN + (String.length m + 16)) (NONCE_LEN + TAG_LEN)) as [Hl|_]; [unfold TAG_LEN in Hl; lia|].
  by rewrite before_app, behind_app, aead_opens by done.
Qed.
Lemma unwrap_wrap credential nonce key id : String.length nonce = NONCE_LEN → String.length key = KEY_LEN →
  unwrap_agent_key credential (wrap_agent_key credential nonce key id) id = Ok key.
Proof. intros Hn Hk. unfold unwrap_agent_key, wrap_agent_key. rewrite open_seal by done. cbn. by apply from_bytes_Ok. Qed.
Lemma unwrap_wrap_snapshot agent_key nonce key id key_id : String.length nonce = NONCE_LEN → String.length key = KEY_LEN →
  unwrap_snapshot_key agent_key (wrap_snapshot_key agent_key nonce key id key_id) id key_id = Ok key.
Proof. intros Hn Hk. unfold unwrap_snapshot_key, wrap_snapshot_key. rewrite open_seal by done. cbn. by apply from_bytes_Ok. Qed.
Lemma unwrap_length credential w id key : unwrap_agent_key credential w id = Ok key → String.length key = KEY_LEN.
Proof.
  unfold unwrap_agent_key. destruct (open _ _ _) as [b|]; cbn; [|done]. intros [-> ?]%from_bytes_Ok. done.
Qed.
(** What anyone seals to the app's public key, the app opens. *)
Lemma open_sealed_for_app app ephemeral nonce m ctx sealed : String.length nonce = NONCE_LEN →
  seal_for_app (x25519_public app) ephemeral nonce m ctx = Ok sealed → open_for_app app sealed ctx = Ok m.
Proof.
  intros Hn. unfold seal_for_app. rewrite dh_agrees. destruct (diffie_hellman app _) as [shared|] eqn:E; cbn; [|done].
  intros [= <-]. unfold open_for_app. rewrite before_app, behind_app by apply x25519_length.
  rewrite E. unfold seal at 1. rewrite !length_str_app, aead_length, x25519_length, Hn.
  match goal with |- context [?x <? ?y] => destruct (Nat.ltb_spec x y) as [Hl|_] end; [unfold KEY_LEN, TAG_LEN in Hl; lia|].
  cbn. by apply open_seal.
Qed.
Lemma open_sealed_agent_key app ephemeral nonce key id sealed : String.length nonce = NONCE_LEN →
  String.length key = KEY_LEN → seal_agent_key_for_app (x25519_public app) ephemeral nonce key id = Ok sealed →
  open_agent_key app sealed id = Ok key.
Proof.
  intros Hn Hk Hs. unfold open_agent_key. erewrite open_sealed_for_app by done. cbn. by apply from_bytes_Ok.
Qed.
End boxes.

(** *** What is bound to a box *)

Definition no_nul (s : string) : bool := bytes_all (λ a, negb (Ascii.eqb a "000")) s.
Definition fields_bytes (fields : list string) : Bytes := foldr (λ f s, NUL +:+ f +:+ s) "" fields.
(** Text up to the first zero byte, or the end. *)
Lemma until_nul x x' fs fs' : no_nul x = true → no_nul x' = true →
  x +:+ fields_bytes fs = x' +:+ fields_bytes fs' → x = x' ∧ fields_bytes fs = fields_bytes fs'.
Proof.
  revert x'. induction x as [|a x IH]; intros [|a' x'] Hx Hx' E.
  - done.
  - apply andb_true_iff in Hx' as [Ha _]. destruct fs; [done|]. injection E as <- _. done.
  - apply andb_true_iff in Hx as [Ha _]. destruct fs'; [done|]. injection E as -> _. done.
  - apply andb_true_iff in Hx as [_ Hx], Hx' as [_ Hx']. injection E as -> E. destruct (IH x' Hx Hx' E) as [-> ->]. done.
Qed.
Lemma fields_bytes_inj fs fs' : Forall (λ f, no_nul f = true) fs → Forall (λ f, no_nul f = true) fs' →
  fields_bytes fs = fields_bytes fs' → fs = fs'.
Proof.
  intros Hfs. revert fs'. induction Hfs as [|f fs Hf Hfs IH]; intros fs' Hfs' E; destruct Hfs' as [|f' fs' Hf' Hfs']; [done..|].
  injection E as E. apply until_nul in E as [-> E]; [|done..]. f_equal. by apply IH.
Qed.
Lemma str_app_cancel x y z : x +:+ y = x +:+ z → y = z.
Proof. induction x as [|a x IH]; [done|]. intros [= E]. by apply IH. Qed.
Lemma context_inj label fs label' fs' : no_nul label = true → no_nul label' = true →
  Forall (λ f, no_nul f = true) fs → Forall (λ f, no_nul f = true) fs' →
  context label fs = context label' fs' → label = label' ∧ fs = fs'.
Proof.
  intros Hl Hl' Hfs Hfs' E. apply str_app_cancel, until_nul in E as [-> E]; [|done..]. split; [done|].
  by apply fields_bytes_inj.
Qed.

(** *** An agent's key, from its making to a rotated credential *)

Section agent_key_laws.
Context `{CryptoLaws}.
Definition well_drawn (dice : KeyDice) : Prop :=
  String.length (kd_key dice) = KEY_LEN ∧ String.length (kd_wrap_nonce dice) = NONCE_LEN ∧
  String.length (kd_seal_nonce dice) = NONCE_LEN.

Lemma opened_key_find secret id d a : find_agent id d = Some a →
  opened_key secret id d = ar_key_wrap a ≫= λ w, ok (unwrap_agent_key (credential_key secret id) w id).
Proof. intros Ha. unfold opened_key. by rewrite agent_keys_find, Ha. Qed.
Lemma opened_key_length secret id d key : opened_key secret id d = Some key → String.length key = KEY_LEN.
Proof. unfold opened_key. destruct (agent_keys id d).1 as [w|]; cbn; [|done]. rewrite ok_Some. apply unwrap_length. Qed.
Lemma set_agent_keys_find id w s d a : find_agent id d = Some a → is_live a = true →
  find_agent id (set_agent_keys id w s d) = Some (with_keys (Some w) s a).
Proof.
  intros Ha Hl. unfold set_agent_keys.
  change (find_agent id (on_agent (λ a, is_agent id a && is_live a) (with_keys (Some w) s) d) = Some (with_keys (Some w) s a)).
  rewrite find_on_agent, Ha by done. cbn. apply find_agent_id in Ha as [Hid _].
  unfold is_agent. by rewrite Hid, String.eqb_refl, Hl.
Qed.
Lemma set_app_seal_find id s d a w : find_agent id d = Some a → is_live a = true → ar_key_wrap a = Some w →
  find_agent id (set_app_seal id s d) = Some (with_keys (Some w) (Some s) a).
Proof.
  intros Ha Hl Hw. unfold set_app_seal. rewrite find_on_agent, Ha by done. cbn. apply find_agent_id in Ha as [Hid _].
  unfold is_agent. by rewrite Hid, String.eqb_refl, Hl, Hw.
Qed.
Lemma set_key_wrap_find id w d a : find_agent id d = Some a → is_live a = true →
  find_agent id (set_key_wrap id w d) = Some (with_keys (Some w) (ar_app_seal a) a).
Proof.
  intros Ha Hl. unfold set_key_wrap. rewrite find_on_agent, Ha by done. cbn. apply find_agent_id in Ha as [Hid _].
  unfold is_agent. by rewrite Hid, String.eqb_refl, Hl.
Qed.

(** Where a key is had, the agent's row has it wrapped under the
    credential; the row's other columns stay. *)
Lemma agent_key_row dice id mailbox secret u d d' key a : well_drawn dice →
  find_agent id d = Some a → is_live a = true → agent_key dice id mailbox secret u d = (d', Some key) →
  ∃ w s, find_agent id d' = Some (with_keys (Some w) s a) ∧
    unwrap_agent_key (credential_key secret id) w id = Ok key ∧
    (ar_app_seal a = None ∨ ar_key_wrap a ≠ Some w → ∀ app, app_public mailbox d = Some (x25519_public app) →
       is_Some (diffie_hellman (kd_ephemeral dice) (x25519_public app)) →
       ∃ sealed, s = Some sealed ∧ open_agent_key app sealed id = Ok key).
Proof.
  intros (Hk & Hn & Hs) Ha Hl. unfold agent_key. rewrite agent_keys_find, Ha, (opened_key_find _ _ _ _ Ha).
  destruct (ar_key_wrap a ≫= _) as [k|] eqn:Ew.
  - destruct (ar_key_wrap a) as [w|] eqn:Ew'; cbn in Ew; [|done]. apply ok_Some in Ew. intros [= <- <-].
    assert (∃ w0 s0, find_agent id d = Some (with_keys (Some w0) s0 a) ∧ w0 = w ∧ s0 = ar_app_seal a) as Hsame.
    { exists w, (ar_app_seal a). rewrite Ha. destruct a; cbn in *. subst. done. }
    destruct Hsame as (w0 & s0 & Hfind & -> & ->).
    destruct (ar_app_seal a) as [s|] eqn:Es.
    { exists w, (Some s). split_and!; [done..|]. by intros [?|?]. }
    destruct (app_public mailbox d) as [public|].
    + destruct (seal_agent_key_for_app _ _ _ _ _) as [s|e] eqn:E.
      * exists w, (Some s). split_and!; [by apply set_app_seal_find|done|]. intros _ app [= ->] _.
        exists s. split; [done|]. eapply open_sealed_agent_key; [exact Hs| |exact E]. by eapply unwrap_length.
      * exists w, None. split_and!; [done..|]. intros _ app [= ->] [sh Hsh]. exfalso.
        unfold seal_agent_key_for_app, seal_for_app in E. rewrite Hsh in E. done.
    + exists w, None. split_and!; [done..|]. by intros _ app.
  - case_match; [done|]. destruct (app_public mailbox d) as [public|]; [|done].
    destruct (seal_agent_key_for_app _ _ _ _ _) as [s|e] eqn:E; [|done]. intros [= <- <-].
    eexists _, (Some s). split_and!; [by apply set_agent_keys_find|by apply unwrap_wrap|]. intros _ app [= ->] _.
    exists s. split; [done|]. by eapply open_sealed_agent_key.
Qed.
End agent_key_laws.

Section lasts.
Context `{CryptoLaws}.

(** An agent's key lasts.  Where the server has an agent's key while it
    holds the agent's credential, made or opened, then a later request with
    that credential has the same key; when a refresh rotates the credential,
    the new one opens the same key and every snapshot key the app wrapped
    for the agent stays; and a key just made, or not yet sealed to the app,
    is sealed so that the app opens it with its private key. *)
Theorem agent_key_lasts dice dice' nonce id mailbox secret new u d d' key a
    (Hdice : well_drawn dice) (Hnonce : String.length nonce = NONCE_LEN) (Ha : find_agent id d = Some a)
    (Hlive : is_live a = true) (Hkey : agent_key dice id mailbox secret u d = (d', Some key)) :
  (agent_key dice' id mailbox secret Keep d').2 = Some key ∧
  (∃ d'', rewrap_agent_key nonce id secret new d' = (d'', true) ∧
     (agent_key dice' id mailbox new Keep d'').2 = Some key ∧ d_snapshot_keys d'' = d_snapshot_keys d') ∧
  (∀ app, ar_key_wrap a = None ∨ ar_app_seal a = None → app_public mailbox d = Some (x25519_public app) →
     is_Some (diffie_hellman (kd_ephemeral dice) (x25519_public app)) →
     ∃ sealed, (agent_keys id d').2 = Some sealed ∧ open_agent_key app sealed id = Ok key).
Proof.
  destruct (agent_key_row _ _ _ _ _ _ _ _ _ Hdice Ha Hlive Hkey) as (w & s & Ha' & Hw & Hs).
  assert (opened_key secret id d' = Some key) as Ho.
  { erewrite opened_key_find by done. cbn. by rewrite Hw. }
  assert (∀ c d0, opened_key c id d0 = Some key → (agent_key dice' id mailbox c Keep d0).2 = Some key) as Hopen.
  { intros c d0 Hc. unfold agent_key. rewrite Hc. by destruct (agent_keys id d0). }
  split_and!; [by apply Hopen| |].
  - unfold rewrap_agent_key. rewrite Ho. eexists. split_and!; [done| |done]. apply Hopen.
    erewrite opened_key_find by (by apply (set_key_wrap_find _ _ _ _ Ha')). cbn.
    rewrite unwrap_wrap; [done..|]. by eapply opened_key_length.
  - intros app Hnew Happ Hdh. rewrite agent_keys_find, Ha'. cbn. apply Hs; [|done..].
    destruct Hnew as [Hn|Hn]; [right; congruence|by left].
Qed.
End lasts.

(** *** Boxes are not interchangeable *)

(** What each box is sealed for. *)
Inductive Box :=
| AgentKeyBox (agent : string)
| SnapshotKeyBox (agent key_id : string)
| AppBox (agent : string)
| ReportBox (address agent : string)
| SnapshotBox (address : string) (version : Z) (key_id : string) (schema : option Z).

Section contexts.
Context (to_lowercase : string → string).
#[local] Abbreviation lowered a := (to_lowercase (trim a)).
Definition box_context (b : Box) : Bytes :=
  match b with
  | AgentKeyBox agent => context "agent-key" [agent]
  | SnapshotKeyBox agent key_id => context "snapshot-key" [agent; key_id]
  | AppBox agent => agent_key_for_app_context agent
  | ReportBox address agent => report_context to_lowercase address agent
  | SnapshotBox address version key_id schema => snapshot_ad to_lowercase address version key_id schema
  end.
(** No zero byte in what it names. *)
Definition plain_box (b : Box) : Prop :=
  match b with
  | AgentKeyBox agent | AppBox agent => no_nul agent = true
  | SnapshotKeyBox agent key_id => no_nul agent = true ∧ no_nul key_id = true
  | ReportBox address agent => no_nul (lowered address) = true ∧ no_nul agent = true
  | SnapshotBox address _ key_id _ => no_nul (lowered address) = true ∧ no_nul key_id = true
  end.
(** The same box, whatever an address's case. *)
Definition same_box (b b' : Box) : Prop :=
  match b, b' with
  | ReportBox address agent, ReportBox address' agent' => lowered address = lowered address' ∧ agent = agent'
  | SnapshotBox address v k s, SnapshotBox address' v' k' s' => lowered address = lowered address' ∧ v = v' ∧ k = k' ∧ s = s'
  | _, _ => b = b'
  end.

Lemma no_nul_digit n : (n < 10)%N → Ascii.eqb (pretty_N_char n) "000" = false.
Proof. intros. destruct n as [|n]; [done|]. do 4 (destruct n as [n|n|]; try done); lia. Qed.
Lemma no_nul_N (n : N) s : no_nul s = true → no_nul (pretty_N_go n s) = true.
Proof.
  revert s. induction (N.lt_wf_0 n) as [n _ IH]; intros s Hs.
  destruct (decide (n = 0%N)) as [->|Hn]; [by rewrite pretty_N_go_0|]. rewrite pretty_N_go_step by lia.
  apply IH; [by apply N.div_lt; lia|]. unfold no_nul, bytes_all. cbn. rewrite no_nul_digit by (apply N.mod_lt; lia). exact Hs.
Qed.
Lemma no_nul_Z (z : Z) : no_nul (pretty z) = true.
Proof.
  assert (∀ n : N, no_nul (pretty n) = true) as Hn.
  { intros n. unfold pretty, pretty_N. case_decide; [done|]. by apply no_nul_N. }
  destruct z as [|p|p]; [done|apply (Hn (N.pos p))|].
  change (no_nul ("-" +:+ pretty (N.pos p)) = true). unfold no_nul, bytes_all. cbn. apply (Hn (N.pos p)).
Qed.

Lemma box_fields b : plain_box b → ∃ label fields, box_context b = context label fields ∧ no_nul label = true ∧
  Forall (λ f, no_nul f = true) fields ∧
  (label, fields) = match b with
  | AgentKeyBox agent => ("agent-key", [agent])
  | SnapshotKeyBox agent key_id => ("snapshot-key", [agent; key_id])
  | AppBox agent => ("agent-key-for-app", [agent])
  | ReportBox address agent => ("report", [lowered address; agent])
  | SnapshotBox address v key_id (Some schema) => ("snapshot/2", [lowered address; pretty v; key_id; pretty schema])
  | SnapshotBox address v key_id None => ("snapshot", [lowered address; pretty v; key_id])
  end.
Proof.
  destruct b as [ | | | |address v key_id [schema|] ]; cbn; intros Hp; eexists _, _; (split; [reflexivity|split; [reflexivity|split; [|reflexivity]]]);
    repeat (apply Forall_cons; split; [first [apply no_nul_Z | tauto]|]); apply Forall_nil_2.
Qed.

(** No box can be taken for another: the bytes bound to a box tell its
    purpose, its agent, mailbox, version, key id and schema apart, so a box
    sealed for one of them never opens as one for anything else. *)
Theorem boxes_not_interchangeable b b' (Hb : plain_box b) (Hb' : plain_box b') (Heq : box_context b = box_context b') :
  same_box b b'.
Proof.
  destruct (box_fields b Hb) as (l & fs & E & Hl & Hfs & D), (box_fields b' Hb') as (l' & fs' & E' & Hl' & Hfs' & D').
  rewrite E, E' in Heq. apply context_inj in Heq as [<- <-]; [|done..]. rewrite D in D'. clear -D'.
  destruct b as [ | | | |? ? ? [|] ], b' as [ | | | |? ? ? [|] ]; cbn in *; try discriminate D'; simplify_eq; done.
Qed.
End contexts.

Lemma boxes_not_interchangeable_witness :
  same_box id (SnapshotBox " a@b.c" 12 "k" (Some 1%Z)) (SnapshotBox "a@b.c " 12 "k" (Some 1%Z)) ∧
  box_context id (SnapshotBox "a" 1 "2" (Some 1%Z)) ≠ box_context id (SnapshotBox "a" 12 "" (Some 1%Z)).
Proof.
  split; [apply (boxes_not_interchangeable id); [by vm_compute..|reflexivity]|].
  intros E. assert (same_box id (SnapshotBox "a" 1 "2" (Some 1%Z)) (SnapshotBox "a" 12 "" (Some 1%Z))) as H.
  { apply (boxes_not_interchangeable id); [by vm_compute..|exact E]. }
  destruct H as (_ & H & _). discriminate H.
Defined.

(** ** A toy instance: the laws can hold *)

Module Toy.
Definition fit (n : nat) (s : Bytes) : Bytes := String.substring 0 n (s +:+ String.string_of_list_ascii (replicate n "000"%char)).
Definition xor_bytes (a b : Bytes) : Bytes :=
  String.string_of_list_ascii (zip_with (λ x y, Ascii.ascii_of_N (N.lxor (Ascii.N_of_ascii x) (Ascii.N_of_ascii y)))
    (String.list_ascii_of_string a) (String.list_ascii_of_string b)).
Definition between (s : Bytes) : option Bytes :=
  match s with
  | String "x" s => if String.eqb (behind (String.length s - 1) s) "x" then Some (before (String.length s - 1) s) else None
  | _ => None
  end.
Definition crypto : Crypto := {|
  aead_encrypt key nonce m ad := m +:+ fit TAG_LEN key;
  aead_decrypt key nonce c ad :=
    let n := String.length c - TAG_LEN in if String.eqb (behind n c) (fit TAG_LEN key) then Some (before n c) else None;
  hkdf salt secret info := fit KEY_LEN (secret +:+ info);
  x25519_public s := fit KEY_LEN s;
  diffie_hellman a p := Some (xor_bytes (fit KEY_LEN a) p);
  b64 b := "x" +:+ b +:+ "x";
  base64_decode := between |}.
#[local] Existing Instance crypto.

Lemma toy_fit_length n s : String.length (fit n s) = n.
Proof.
  unfold fit. rewrite ascii_length, ascii_substring, drop_0, length_take, list_ascii_app, length_app.
  rewrite String.list_ascii_of_string_of_list_ascii, length_replicate. cbn. lia.
Qed.
Lemma xor_bytes_comm a b : xor_bytes a b = xor_bytes b a.
Proof.
  unfold xor_bytes. f_equal. generalize (String.list_ascii_of_string a) (String.list_ascii_of_string b).
  intros l. induction l as [|x l IH]; intros [|y k]; [done..|]. cbn. by rewrite IH, N.lxor_comm.
Qed.
#[local] Instance laws : CryptoLaws.
Proof.
  split.
  - intros. cbn [aead_decrypt aead_encrypt crypto]. cbv zeta.
    rewrite length_str_app, toy_fit_length, Nat.add_sub, before_app, behind_app by done. by rewrite String.eqb_refl.
  - intros. cbn. by rewrite length_str_app, toy_fit_length.
  - intros. apply toy_fit_length.
  - intros. apply toy_fit_length.
  - intros. cbn. f_equal. apply xor_bytes_comm.
  - intros b. change (between (String "x" (b +:+ "x")) = Some b). cbn [between]. rewrite length_str_app. cbn [String.length].
    rewrite Nat.add_sub, before_app, behind_app by done. done.
  - intros b. change (trim (String "x" (b +:+ "x")) = String "x" (b +:+ "x")). unfold trim.
    assert (∀ s, trim_start (String "x" s) = String "x" s) as Hs by done. rewrite Hs. unfold trim_end.
    assert (string_rev_of (String "x" (b +:+ "x")) = String "x" (string_rev_of (String "x" b))) as E.
    { unfold string_rev_of. change (String "x" (b +:+ "x")) with (String "x" b +:+ "x"). rewrite list_ascii_app, reverse_app. done. }
    rewrite E. assert (∀ s n, strip_all n (string_rev_of <$> white_space) (String "x" s) = String "x" s) as Hs' by (by intros s []).
    rewrite Hs', <- E. unfold string_rev_of. by rewrite String.list_ascii_of_string_of_list_ascii, reverse_involutive, String.string_of_list_ascii_of_string.
Qed.

Definition dice : KeyDice := mkDice (fit KEY_LEN "k") (fit NONCE_LEN "n") "e" (fit NONCE_LEN "m").
Definition app_secret : Bytes := "app".
(** A mailbox that has pushed its public key, with one agent. *)
Definition mailbox : RulesDb :=
  mkDb [mkMailbox 1 "scout@a.example" "h" 0 0 (Some (b64 (x25519_public app_secret)))] []
    [mkAgentRow (mkAgent "00aa" 1 "Scout" "h" 0 None KIND_TOKEN None) None None None] [] [] [] [] [] [] 0.
End Toy.

Lemma agent_key_lasts_witness :
  let _ := Toy.crypto in
  ∃ d' key sealed, agent_key Toy.dice "00aa" 1 "secret" Keep Toy.mailbox = (d', Some key) ∧
    (agent_keys "00aa" d').2 = Some sealed ∧ open_agent_key Toy.app_secret sealed "00aa" = Ok key.
Proof.
  cbv zeta. destruct (@agent_key Toy.crypto Toy.dice "00aa" 1 "secret" Keep Toy.mailbox) as [d' [key|]] eqn:E;
    [|by vm_compute in E].
  destruct (@agent_key_lasts Toy.crypto Toy.laws Toy.dice Toy.dice (Toy.fit NONCE_LEN "") "00aa" 1 "secret" "new" Keep
    Toy.mailbox d' key (mkAgentRow (mkAgent "00aa" 1 "Scout" "h" 0 None KIND_TOKEN None) None None None)) as (_ & _ & H).
  - split_and!; by vm_compute.
  - by vm_compute.
  - by vm_compute.
  - reflexivity.
  - exact E.
  - destruct (H Toy.app_secret) as (sealed & H1 & H2); [by left|by vm_compute|by eexists|]. by exists d', key, sealed.
Defined.
