(* ===== verification/RulesOAuth.v ===== *)
(** * RulesOAuth: the rules server as an authorization server
    ([rules-server/src/oauth.rs])

    What the server keeps in memory of consent pages and wrong codes, the
    checks of addresses and parameters, and each database transaction of
    the code flow and the token endpoint.  URLs and forms are read by the
    class [Web]; what is drawn is an argument. *)

From Stdlib Require Import Ascii.
From S2P Require Import Prelude.
From S2P Require Import Domain.
From S2P Require Import Text.
From S2P Require Import MailStore.
From S2P Require Import RulesTokens.
From S2P Require Import RulesDb.
From S2P Require Import RulesCrypto.

(** ** Constants *)

Definition SCOPE := "rules".
Definition ACCESS_TTL_MS : Millis := 3600000.
Definition REFRESH_TTL_MS : Millis := (30 * 24 * 3600000)%Z.
Definition AUTH_CODE_TTL_MS : Millis := 120000.
Definition CONNECT_CODE_TTL_MS : Millis := 600000.
Definition CONSENT_TTL_MS : Millis := 600000.
Definition TRIES_PER_CONSENT : Z := 5.
Definition TRIES_PER_CLIENT : Z := 5.
Definition CLIENT_LOCK_MS : Millis := 3600000.
Definition CODES_PER_ADDRESS_PER_MINUTE : N := 10.
Definition WRONG_CODES_PER_MINUTE : N := 60.
Definition LIVE_CODES_PER_MAILBOX : nat := 10.
Definition REGISTRATIONS_PER_ADDRESS_PER_MINUTE : N := 10.
Definition REGISTRATIONS_PER_MINUTE : N := 120.
Definition CONSENTS_PER_ADDRESS_PER_MINUTE : N := 30.
Definition CONSENTS_PER_MINUTE : N := 600.
Definition MAX_PENDING : N := 10000.
Definition MAX_REDIRECT_URIS : nat := 10.
Definition MAX_CLIENT_NAME : nat := 100.

(** ** Consent pages and wrong codes *)

(** A consent page waiting for its connect code. *)
Record Pending := mkPendingPage {
  pp_client_id : string; pp_client_name : string; pp_redirect_uri : string; pp_state : option string;
  pp_challenge : string; pp_csrf_hash : string; pp_created_at : Millis; pp_tries : Z }.
Record ClientFailures := mkFailures { cf_count : Z; cf_since : Millis; cf_locked_until : option Millis }.
Abbreviation Pages := (gmap string Pending) (only parsing).
Abbreviation Failures := (gmap string ClientFailures) (only parsing).

Definition lock_key (client_id address : string) : string := client_id +:+ " " +:+ address.
Definition is_locked (f : ClientFailures) (now : Millis) : bool :=
  match cf_locked_until f with Some until => (now <? until)%Z | None => false end.
(** Whether a client is locked out for requests from an address. *)
Definition locked (client_id address : string) (now : Millis) (fs : Failures) : bool :=
  match fs !! lock_key client_id address with Some f => is_locked f now | None => false end.
(** Count a wrong code; whether that locks the client there. *)
Definition count_failure (client_id address : string) (now : Millis) (fs : Failures) : Failures * bool :=
  let key := lock_key client_id address in
  let fs := if (MAX_PENDING <? N.of_nat (size fs))%N
            then base.filter (λ kf, is_locked kf.2 now || (now - cf_since kf.2 <? CLIENT_LOCK_MS)%Z = true) fs else fs in
  let f := default (mkFailures 0 0 None) (fs !! key) in
  let f := if (CLIENT_LOCK_MS <=? now - cf_since f)%Z then mkFailures 0 now None else f in
  let count := (cf_count f + 1)%Z in
  if (TRIES_PER_CLIENT <=? count)%Z
  then (<[key := mkFailures count (cf_since f) (Some (now + CLIENT_LOCK_MS)%Z)]> fs, true)
  else (<[key := mkFailures count (cf_since f) (cf_locked_until f)]> fs, false).
Definition take_pending (id : string) (pages : Pages) : Pages * option Pending := (delete id pages, pages !! id).
Definition put_pending (id : string) (p : Pending) (now : Millis) (pages : Pages) : Pages * bool :=
  let pages := base.filter (λ kp, (now - pp_created_at kp.2 <? CONSENT_TTL_MS)%Z = true) pages in
  if (MAX_PENDING <=? N.of_nat (size pages))%N then (pages, false) else (<[id := p]> pages, true).
Definition one_more_try (p : Pending) : Pending :=
  mkPendingPage (pp_client_id p) (pp_client_name p) (pp_redirect_uri p) (pp_state p) (pp_challenge p) (pp_csrf_hash p)
    (pp_created_at p) (pp_tries p + 1).

(** ** Addresses and parameters *)

Record Url := mkUrl {
  u_scheme : string; u_host : option string; u_port : option N; u_path : string; u_query : option string; u_fragment : option string;
  u_username : string; u_password : option string; u_origin : string (** [ascii_serialization] *) }.
Class Web := {
  url_parse : string → option Url;
  form_parse : string → list (string * string); (** [form_urlencoded::parse] *)
  append_pairs : string → list (string * string) → string (** [query_pairs_mut] and [append_pair]s *) }.

Inductive PublicUrlError := NotUrl | NoHost | NotHttps | NotOriginAlone.
Definition is_loopback (host : string) : bool :=
  String.eqb host "127.0.0.1" || String.eqb host "[::1]" || String.eqb host "::1" || String.eqb host "localhost".
Definition has (o : option string) : bool := match o with Some _ => true | None => false end.

(** Less each [c] at its end. *)
Definition trim_end_char (c : string) (s : string) : string :=
  string_rev_of (strip_all (String.length s) [c] (string_rev_of s)).

Section web.
Context `{Web}.

Definition public_base (input : string) : result PublicUrlError string :=
  url ← ok_or NotUrl (url_parse (trim input));
  let host := default "" (u_host url) in
  if String.eqb host "" then Err NoHost
  else if negb (String.eqb (u_scheme url) "https" || String.eqb (u_scheme url) "http" && is_loopback host) then Err NotHttps
  else if negb (String.eqb (u_path url) "/") || has (u_query url) || has (u_fragment url) || negb (String.eqb (u_username url) "")
  then Err NotOriginAlone else Ok (u_origin url).
Definition valid_redirect_uri (s : string) : bool :=
  match url_parse s with
  | Some url =>
      let host := default "" (u_host url) in
      negb (String.eqb host "") && negb (has (u_fragment url)) && String.eqb (u_username url) "" && negb (has (u_password url)) &&
      (String.eqb (u_scheme url) "https" || String.eqb (u_scheme url) "http" && is_loopback host)
  | None => false
  end.
Definition loopback_url (u : Url) : bool :=
  String.eqb (u_scheme u) "http" && match u_host u with Some h => is_loopback h | None => false end.
(** The same string, or for a loopback address the same but its port. *)
Definition redirect_matches (registered given : string) : bool :=
  String.eqb registered given ||
  match url_parse registered, url_parse given with
  | Some a, Some b =>
      loopback_url a && loopback_url b && bool_decide (u_host a = u_host b) && String.eqb (u_path a) (u_path b) &&
      bool_decide (u_query a = u_query b) && negb (has (u_fragment b)) && String.eqb (u_username b) "" && negb (has (u_password b))
  | _, _ => false
  end.
Definition same_resource (given ours : string) : bool :=
  match url_parse given with
  | Some url =>
      negb (has (u_fragment url) || has (u_query url)) &&
      String.eqb (u_origin url +:+ trim_end_char "/" (u_path url)) ours
  | None => false
  end.

(** Form or query parameters, each at most once; else which is not. *)
Definition params (raw : string) : result string (gmap string string) :=
  foldl (λ out '(k, v), m ← out; match m !! k with Some _ => Err k | None => Ok (<[k := v]> m) end) (Ok ∅) (form_parse raw).
End web.

(** ** HTML *)

Definition DQUOTE : Ascii.ascii := "034".
Definition escape_char (a : Ascii.ascii) : string :=
  if Ascii.eqb a "&" then "&amp;" else if Ascii.eqb a "<" then "&lt;" else if Ascii.eqb a ">" then "&gt;"
  else if Ascii.eqb a DQUOTE then "&quot;" else if Ascii.eqb a "'" then "&#39;" else String a "".
Fixpoint escape (s : string) : string :=
  match s with EmptyString => "" | String a s => escape_char a +:+ escape s end.
(** The first 16 bytes of a page's id name its cookie. *)
Definition cookie_name (request : string) : string := "oagc_consent_" +:+ before 16 request.
(** A cookie of the headers; those that are not text are passed over. *)
Definition cookie (headers : list (option string)) (name : string) : option string :=
  head (omap (λ kv, '(k, v) ← split_once "=" (trim kv); if String.eqb k name then Some v else None)
    (omap id headers ≫= split_on ";")).

(** ** Transactions *)

(** What a token request came to. *)
Inductive Exchange := Issued (grant_id access refresh : string) | Refused (why : string) | Replayed (grant_id : string).
(** What is drawn to issue tokens: their secrets, and the agent's key. *)
Record IssueDice := mkIssueDice { is_access : string; is_refresh : string; is_key : KeyDice }.

Section transactions.
Context `{Crypto} (sha256 : string → string) (base64_url_of : string → string).
#[local] Abbreviation hash := (RulesTokens.hash sha256).

Definition token_row (kind grant_id resource : string) (expires_at : Millis) : OAuthTokenRow :=
  mkOAuthToken kind grant_id resource expires_at None.
(** An access and a refresh token for a grant, and its key. *)
Definition issue (dice : IssueDice) (grant_id resource : string) (now : Millis) (secret : string) : Sql (string * string) := λ d,
  let access := access_token (is_access dice) secret in
  let refresh := refresh_token (is_refresh dice) secret in
  let d := match agent_token grant_id d with
           | Some (g, _) => (agent_key (is_key dice) grant_id (ag_mailbox_id g) secret Replace d).1
           | None => d
           end in
  (_ ← insert_oauth_token (hash access) (token_row TOKEN_ACCESS grant_id resource (now + ACCESS_TTL_MS)%Z);
   _ ← insert_oauth_token (hash refresh) (token_row TOKEN_REFRESH grant_id resource (now + REFRESH_TTL_MS)%Z);
   mret (access, refresh)) d.
Definition issued (grant_id : string) (tokens : string * string) : Exchange := Issued grant_id tokens.1 tokens.2.
(** The grant behind a code or token, if it is live and the client's. *)
Definition live_grant (grant_id client_id : string) (d : RulesDb) : bool :=
  match agent_token grant_id d with
  | Some (g, _) =>
      String.eqb (ag_kind g) KIND_OAUTH && match ag_revoked_at g with None => true | Some _ => false end &&
      bool_decide (ag_client_id g = Some client_id)
  | None => false
  end.

(** A client registered. *)
Definition register_client (row : ClientRow) : Sql unit :=
  _ ← execute (prune (cl_created_at row)); insert_client row.
(** A connect code minted, unless the mailbox has too many. *)
Definition mint_connect_code (row : ConnectCodeRow) (now : Millis) : Sql bool :=
  _ ← execute (prune now);
  live ← query (live_connect_codes (cc_mailbox_id row) now);
  if LIVE_CODES_PER_MAILBOX <=? live then mret false else _ ← insert_connect_code row; mret true.
(** A connect code made into a grant and its authorization code. *)
Definition redeem (code_hash auth_hash : string) (row : AuthCodeRow) (now : Millis) : Sql (option (Z * string)) :=
  transaction (λ d,
    match redeem_connect_code code_hash now d with
    | (_, None) => (d, Ok None)
    | (d, Some (mailbox, name)) =>
        (_ ← insert_agent_token (mkAgent (ac_grant_id row) mailbox name "" now None KIND_OAUTH (Some (ac_client_id row)));
         _ ← insert_auth_code auth_hash row;
         mret (Some (mailbox, ac_grant_id row))) d
    end).
(** An authorization code exchanged; a check that fails spends it. *)
Definition exchange_code (code verifier : string) (redirect_uri : option string) (client_id resource : string)
    (now : Millis) (dice : IssueDice) (secret : string) : Sql Exchange :=
  transaction (λ d,
    let code_hash := hash code in
    match auth_code code_hash d with
    | None => (d, Ok (Refused "unknown code"))
    | Some row =>
        match ac_used_at row with
        | Some _ => (revoke_grant (ac_grant_id row) now d, Ok (Replayed (ac_grant_id row)))
        | None =>
            let d := use_auth_code code_hash now d in
            if (ac_expires_at row <=? now)%Z then (d, Ok (Refused "the code expired"))
            else if negb (String.eqb (ac_client_id row) client_id)
            then (d, Ok (Refused "the code was issued to another client"))
            else if negb (bool_decide (redirect_uri = Some (ac_redirect_uri row)))
            then (d, Ok (Refused "redirect_uri is not the one the code was issued for"))
            else if negb (pkce_matches sha256 base64_url_of verifier (ac_code_challenge row))
            then (d, Ok (Refused "code_verifier does not match the code_challenge"))
            else if negb (same (ac_resource row) resource) || negb (live_grant (ac_grant_id row) client_id d)
            then (d, Ok (Refused "the grant was revoked"))
            else (tokens ← issue dice (ac_grant_id row) resource now secret; mret (issued (ac_grant_id row) tokens)) d
        end
    end).
(** A refresh token rotated, with its grant's secret and key. *)
Definition exchange_refresh (refresh : string) (client_id resource : string) (now : Millis) (dice : IssueDice)
    (nonce : Bytes) (secret : string) : Sql Exchange :=
  transaction (λ d,
    let token_hash := hash refresh in
    match oauth_token token_hash d with
    | Some row =>
        if negb (String.eqb (ot_kind row) TOKEN_REFRESH) then (d, Ok (Refused "unknown refresh token")) else
        match ot_used_at row with
        | Some _ => (revoke_grant (ot_grant_id row) now d, Ok (Replayed (ot_grant_id row)))
        | None =>
            if (ot_expires_at row <=? now)%Z then (d, Ok (Refused "the refresh token expired"))
            else if negb (same (ot_resource row) resource) || negb (live_grant (ot_grant_id row) client_id d)
            then (d, Ok (Refused "the grant was revoked or is another client's"))
            else
              let d := delete_access_tokens (ot_grant_id row) (use_oauth_token token_hash now d) in
              let d := match grant_secret_of refresh with
                       | Some old => (rewrap_agent_key nonce (ot_grant_id row) old secret d).1
                       | None => d
                       end in
              (tokens ← issue dice (ot_grant_id row) resource now secret; mret (issued (ot_grant_id row) tokens)) d
        end
    | None => (d, Ok (Refused "unknown refresh token"))
    end).
(** The grant of an access token presented. *)
Definition find_access (presented : string) : RulesDb → option (OAuthTokenRow * (AgentTokenRow * string)) := λ d,
  t ← oauth_token presented d; g ← agent_token (ot_grant_id t) d; Some (t, g).
End transactions.
