(* ===== verification/RulesPublish.v ===== *)
(** * RulesPublish: what the rules server reads, answers and stores
    ([rules-server/src/answers.rs], [normalize_address] of [lib.rs],
    the checked bodies of [rest.rs] and [reports.rs])

    The guide's, the facts' and the check's answers from a snapshot, and
    the bodies of requests, checked as far as the server can without a key.
    Text conversions, dates, JSON text and serde's reading of a snapshot
    are the class [RulesText]. *)

From Stdlib Require Import Ascii.
From S2P Require Import Prelude.
From S2P Require Import Domain.
From S2P Require Import Text.
From S2P Require Import Json.
From S2P Require Import Guide.
From S2P Require Import MailStore.
From S2P Require Import Search.
From S2P Require Import RulesTokens.
From S2P Require Import RulesDb.
From S2P Require Import RulesCrypto.
From S2P Require Import RulesOAuth.

Class RulesText := {
  lowercase : string → string;               (** [str::to_lowercase] *)
  alphanumeric : string → bool;              (** [char::is_alphanumeric] *)
  sha_256 : string → string;
  base64_url_of : string → string;           (** URL-safe, no padding *)
  markdown_text : string → string;           (** [pulldown_cmark], as text *)
  rfc3339 : Millis → option string;          (** [from_timestamp_millis] and [to_rfc3339_opts] *)
  parse_rfc3339 : string → option Millis;
  json_of : string → option Json;            (** [serde_json::from_str::<Value>] *)
  json_strict : string → option Json;        (** as a derived reader takes it: no key twice *)
  json_string : Json → string;
  snapshot_of : Json → result string Snapshot;
  snapshot_text : Snapshot → string }.

(** ** Characters *)

(** [char::is_control] *)
Definition is_control (c : string) : bool :=
  match c with
  | String a EmptyString => let n := Ascii.N_of_ascii a in ((n <? 32) || (n =? 127))%N
  | String a (String b EmptyString) =>
      ((Ascii.N_of_ascii a =? 194) && (128 <=? Ascii.N_of_ascii b) && (Ascii.N_of_ascii b <? 160))%N
  | _ => false
  end.
Definition any_char (p : string → bool) (s : string) : bool := List.existsb p (chars s).
Definition char_count (s : string) : nat := length (chars s).

Section answers.
Context `{RulesText}.

(** An address as stored: trimmed, lower-cased, and shaped like one. *)
Definition bad_address_char (c : string) : bool :=
  is_whitespace c || is_control c ||
  bool_decide (c ∈ ["/"; "?"; "#"; "@"; "\"; String "034" ""; "<"; ">"; ","; ";"]).
Definition normalize_address (s : string) : option string :=
  let a := lowercase (trim s) in
  '(local, domain) ← split_once "@" a;
  if (3 <=? String.length a) && (String.length a <=? 254) && negb (String.eqb local "") && negb (String.eqb domain "") &&
     negb (any_char bad_address_char local) && negb (any_char bad_address_char domain)
  then Some a else None.

(** ** Arguments *)

Record GuideArgs := mkGuideArgs { ga_to : list string; ga_message_type : option string }.
Record FactsArgs := mkFactsArgs { fg_category : option string; fg_query : option string }.
Record CheckArgs := mkCheckArgs {
  ka_to : list string; ka_message_type : option string; ka_subject : string; ka_body_markdown : string }.
Definition MESSAGE_TYPES : list string := ["new"; "reply"; "forward"].
Definition MAX_BODY_MARKDOWN : Z := (256 * 1024)%Z.

(** Whether a message type is one of mailbox mode's, when given. *)
Definition check_message_type (t : option string) : bool :=
  match t with Some t => bool_decide (t ∈ MESSAGE_TYPES) | None => true end.
Inductive DraftRefused := BadMessageType (given : string) | BodyTooBig.
Definition too_big (body : string) : bool := (MAX_BODY_MARKDOWN <? Z.of_nat (String.length body))%Z.
Definition check_draft_args (a : CheckArgs) : result DraftRefused unit :=
  if negb (check_message_type (ka_message_type a)) then Err (BadMessageType (default "" (ka_message_type a)))
  else if too_big (ka_body_markdown a) then Err BodyTooBig else Ok ().

(** ** Answers *)

Definition message_type_of (subject : string) : string :=
  let s := lowercase (trim subject) in
  if starts_with "fwd:" s || starts_with "fw:" s then "forward" else if starts_with "re:" s then "reply" else "new".
Definition recipients (to : list string) : list string :=
  List.filter (λ t, negb (String.eqb t "")) ((λ t, lowercase (trim t)) <$> to).
Definition guide_check (s : Snapshot) (to : list string) (message_type : option string) (subject body : string) : list string :=
  cf_message <$> snapshot_check lowercase alphanumeric sha_256 s
    (mkTarget (recipients to) (Some (default (message_type_of subject) message_type)) None) (markdown_text body).
Definition time (ms : Millis) : Json := json_opt JString (rfc3339 ms).
Definition check_draft (s : Snapshot) (a : CheckArgs) : Json :=
  obj [("guide_check", json_strings (guide_check s (ka_to a) (ka_message_type a) (ka_subject a) (ka_body_markdown a)));
       ("guide_version", json_int (sn_guide_version s)); ("version", json_int (Guide.sn_version s));
       ("published_at", time (Guide.sn_published_at s))].
Definition guide_rules (s : Snapshot) (a : GuideArgs) : Json :=
  let guide := snapshot_guide lowercase sha_256 s (Some (mkTarget (recipients (ga_to a)) (ga_message_type a) None)) in
  obj [("mailbox", JString (mx_address (sn_mailbox s)));
       ("sends_as", JString (mx_name (sn_mailbox s) +:+ " <" +:+ mx_address (sn_mailbox s) +:+ ">"));
       ("about", JString (trim (mx_about (sn_mailbox s)))); ("writing_guide", JString (re_text guide));
       ("guide_version", json_int (re_version guide)); ("version", json_int (Guide.sn_version s));
       ("published_at", time (Guide.sn_published_at s))].
Definition facts_answer (s : Snapshot) (a : FactsArgs) : Json :=
  set_field "published_at" (time (Guide.sn_published_at s))
    (set_field "version" (json_int (Guide.sn_version s))
       (facts_lookup lowercase (sn_facts s) (fg_category a) (fg_query a))).

(** ** Bodies *)

(** A JSON body with the fields of a struct. *)
Definition parse_json {A} (fs : list Field) (read : Fields → option A) (body : string) : option A :=
  v ← json_strict body; f ← struct_fields fs v; read f.
Definition register_body : string → option string := parse_json [field "address"] (λ f, required as_str f "address").
Definition name_body : string → option string := parse_json [field "name"] (λ f, required as_str f "name").
Definition ack_body : string → option Z := parse_json [field "up_to_id"] (λ f, required as_i64 f "up_to_id").
Definition check_fields : list Field := [defaulted "to"; defaulted "message_type"; defaulted "subject"; field "body_markdown"].
Definition check_args (f : Fields) : option CheckArgs :=
  to ← with_default strings [] f "to"; mt ← optional as_str f "message_type";
  subject ← with_default as_str "" f "subject"; body ← required as_str f "body_markdown";
  Some (mkCheckArgs to mt subject body).
Definition check_body : string → option CheckArgs := parse_json check_fields check_args.

(** An agent's name: 1 to 100 characters on one line. *)
Definition agent_name (name : string) : option string :=
  let name := trim name in
  if String.eqb name "" || (100 <? char_count name) || any_char is_control name then None else Some name.
(** [If-Match]'s value: a version, bare or as a quoted entity tag. *)
Definition trim_quotes (s : string) : string :=
  let q := String "034" "" in
  string_rev_of (strip_all (String.length s) [q] (string_rev_of (strip_all (String.length s) [q] s))).
Definition if_match (header : option (option string)) : option (option Z) :=
  match header with
  | None => Some None
  | Some value =>
      let s := trim (default "" value) in
      Some <$> parse_i64 (trim_quotes (default s (strip_prefix "W/" s)))
  end.

Definition valid_key_id (k : string) : bool :=
  (1 <=? String.length k) && (String.length k <=? 64) && bytes_all base64_url k.
Definition valid_agent_id (id : string) : bool := (String.length id =? 16) && bytes_all is_hex_digit id.
End answers.

(** * What publishers and agents store
    ([rules-server/src/rest.rs], [reports.rs])

    A push checked and stored, snapshot keys and agents added, and reports
    filed, listed and acknowledged: each database transaction, and the
    checks before it.  What is drawn is an argument. *)

(** ** An encrypted push *)

Definition ENCRYPTION_VERSION : Z := 2.
Record KeyWrap := mkKeyWrap { kw_agent_id : string; kw_wrap : string }.
Record SealedSnapshot := mkSealed {
  ss_encryption : Z; ss_key_id : string; ss_version : Z; ss_published_at : Millis; ss_schema_version : Z;
  ss_address : string; ss_ciphertext : string; ss_app_key : string; ss_wraps : list KeyWrap }.
Record SealedPush := mkPush { pu_app_key : string; pu_wraps : list (string * Bytes) }.

(** A struct's fields where others are passed over. *)
Definition open_fields (fs : list Field) (v : Json) : option Fields :=
  match v with JObject fields => Some (λ n, lookup_field n fields) | _ => struct_fields fs v end.
Definition key_wrap (v : Json) : option KeyWrap :=
  f ← open_fields [field "agent_id"; field "wrap"] v;
  id ← required as_str f "agent_id"; w ← required as_str f "wrap"; Some (mkKeyWrap id w).
Definition key_wraps (v : Json) : option (list KeyWrap) := l ← as_array v; mapM key_wrap l.
Definition sealed_fields : list Field :=
  [field "encryption"; field "key_id"; field "version"; field "published_at"; defaulted "schema_version"; field "address";
   field "ciphertext"; field "app_key"; defaulted "wraps"].
Definition sealed_snapshot (v : Json) : option SealedSnapshot :=
  f ← open_fields sealed_fields v;
  encryption ← required json_u32 f "encryption"; key_id ← required as_str f "key_id";
  version ← required as_i64 f "version"; published_at ← required as_i64 f "published_at";
  schema ← with_default json_u32 0%Z f "schema_version"; address ← required as_str f "address";
  ciphertext ← required as_str f "ciphertext"; app ← required as_str f "app_key";
  wraps ← with_default key_wraps [] f "wraps";
  Some (mkSealed encryption key_id version published_at schema address ciphertext app wraps).

Section publish.
Context `{Crypto} `{RulesText}.

(** The app's wraps, read from base64. *)
Definition wrap_of (w : KeyWrap) : option (string * Bytes) :=
  bytes ← ok (unb64 (kw_wrap w));
  if negb (valid_agent_id (kw_agent_id w)) || (256 <? String.length bytes) then None else Some (kw_agent_id w, bytes).
Definition wraps_of (wraps : list KeyWrap) : option (list (string * Bytes)) :=
  if 1000 <? length wraps then None else mapM wrap_of wraps.
(** A push checked as far as the server can without a key. *)
Definition sealed_push (ephemeral nonce : Bytes) (body address : string) : option (SnapshotRow * SealedPush) :=
  v ← json_strict body; s ← sealed_snapshot v;
  if negb (ss_encryption s =? ENCRYPTION_VERSION)%Z || negb (ss_schema_version s =? SCHEMA_VERSION)%Z ||
     negb (bool_decide (normalize_address (ss_address s) = Some address)) || negb (valid_key_id (ss_key_id s)) then None else
  sealed ← ok (unb64 (ss_ciphertext s));
  if String.length sealed <? 40 then None else
  public ← ok (app_public_key (ss_app_key s));
  _ ← ok (seal_for_app public ephemeral nonce "" "check");
  wraps ← wraps_of (ss_wraps s);
  Some (mkSnapshot (ss_version s) "" (ss_published_at s) (Some (ss_key_id s)) (Some sealed) (Some (ss_schema_version s)),
        mkPush (ss_app_key s) wraps).
Definition is_sealed (body : string) : bool :=
  match json_of body with
  | Some (JObject fields) => match lookup_field "encryption" fields with Some _ => true | None => false end
  | _ => false
  end.
(** A plaintext push; [None] when it is not the mailbox's, with the code. *)
Definition plain_push (body address : string) : result string SnapshotRow :=
  v ← ok_or "invalid_snapshot" (json_of body);
  s ← map_err (λ _, "invalid_snapshot") (read_snapshot snapshot_of v);
  if negb (bool_decide (normalize_address (mx_address (sn_mailbox s)) = Some address)) then Err "mailbox_mismatch"
  else Ok (mkSnapshot (Guide.sn_version s) (snapshot_text s) (Guide.sn_published_at s) None None None).

(** ** Reports sealed to the app *)

Definition report_content (r : ReportRow) : Json :=
  obj [("message_id", json_opt JString (rp_message_id r)); ("to", json_strings (rp_recipients r));
       ("subject", JString (rp_subject r)); ("body_markdown", JString (rp_body_markdown r));
       ("guide_check", json_strings (rp_guide_check r))].
Definition seal_report_for_app (ephemeral nonce public : Bytes) (address : string) (r : ReportRow) : result SealError Bytes :=
  seal_for_app public ephemeral nonce (json_string (report_content r)) (report_context lowercase address (rp_agent_id r)).
(** What each report's box is drawn with. *)
Definition ReportDice : Type := Z → Bytes * Bytes.
Definition drop_report (id : Z) : RulesDb → RulesDb := on_reports (List.filter (λ r, negb (rp_id r =? id)%Z)).
(** A mailbox's plaintext reports sealed, or gone. *)
Definition seal_plain_reports (dice : ReportDice) (mailbox : Z) (address app_key : string) (d : RulesDb) : RulesDb :=
  match app_public_key app_key with
  | Err _ => d
  | Ok public =>
      foldl (λ d r, match seal_report_for_app (dice (rp_id r)).1 (dice (rp_id r)).2 public address r with
                    | Ok sealed => seal_report (rp_id r) sealed d
                    | Err _ => drop_report (rp_id r) d
                    end) d (plain_reports mailbox d)
  end.

(** ** Pushing *)

Inductive Pushed := Stored (kept : list Z) | Downgrade | Mismatch (current : option Z) | NeedsIfMatch (current : Z) | NotNewer (current : Z).
(** What else an encrypted push stores. *)
Definition encrypt_mailbox (dice : ReportDice) (mailbox : Z) (address key_id : string) (s : SealedPush) (d : RulesDb) : RulesDb :=
  seal_plain_reports dice mailbox address (pu_app_key s)
    (delete_plain_snapshots mailbox
       (insert_snapshot_keys mailbox key_id (pu_wraps s) (set_app_key mailbox (pu_app_key s) d)).1).1.
(** A push stored: the versions kept. *)
Definition store_push (dice : ReportDice) (mailbox : Z) (address : string) (row : SnapshotRow) (sealed : option SealedPush)
    (now : Millis) : Sql Pushed :=
  _ ← insert_snapshot mailbox row now;
  _ ← execute (match sealed with
               | Some s => encrypt_mailbox dice mailbox address (default "" (sn_key_id row)) s
               | None => id
               end);
  kept ← query (versions mailbox); mret (Stored kept).
(** Whether a push may be stored, by the version there is and the one
    expected; else what it comes to. *)
Definition push_refused (mailbox : Z) (row : SnapshotRow) (sealed : option SealedPush) (expected : option Z) (d : RulesDb) :
    option Pushed :=
  match sealed, app_key mailbox d with
  | None, Some _ => Some Downgrade
  | _, _ =>
      match sn_version <$> latest_snapshot mailbox d, expected with
      | None, Some v => if (v =? 0)%Z then None else Some (Mismatch None)
      | None, None => None
      | Some c, None => Some (NeedsIfMatch c)
      | Some c, Some v =>
          if negb (v =? c)%Z then Some (Mismatch (Some c))
          else if (sn_version row <=? c)%Z then Some (NotNewer c) else None
      end
  end.
Definition publish (dice : ReportDice) (mailbox : Z) (address : string) (row : SnapshotRow) (sealed : option SealedPush)
    (expected : option Z) (now : Millis) : Sql Pushed :=
  transaction (λ d,
    match push_refused mailbox row sealed expected d with
    | Some p => (d, Ok p)
    | None => store_push dice mailbox address row sealed now d
    end).
(** The app's wraps of a kept snapshot's key; [None] for another key. *)
Definition store_keys (mailbox : Z) (key_id : string) (wraps : list (string * Bytes)) (d : RulesDb) : RulesDb * option nat :=
  if has_key_id mailbox key_id d
  then let '(d, n) := insert_snapshot_keys mailbox key_id wraps d in (d, Some n) else (d, None).
(** An agent token minted, and its key. *)
Definition mint_agent (dice : KeyDice) (row : AgentTokenRow) (secret : string) : Sql unit :=
  transaction (_ ← insert_agent_token row; execute (λ d, (agent_key dice (ag_id row) (ag_mailbox_id row) secret Replace d).1)).

(** ** Reports *)

Record ReportArgs := mkReportArgs {
  ra_message_id : option string; ra_to : list string; ra_subject : string; ra_sent_at : option string;
  ra_body_markdown : string; ra_checked_version : option Z }.
Definition MAX_RECIPIENTS : nat := 100.
Definition MAX_FIELD : nat := 998.
Definition MAX_LIST : Z := 500.
Definition report_fields : list Field :=
  [defaulted "message_id"; field "to"; defaulted "subject"; defaulted "sent_at"; field "body_markdown"; defaulted "checked_version"].
Definition report_args (f : Fields) : option ReportArgs :=
  id ← optional as_str f "message_id"; to ← required strings f "to"; subject ← with_default as_str "" f "subject";
  sent ← optional as_str f "sent_at"; body ← required as_str f "body_markdown";
  checked ← optional as_i64 f "checked_version"; Some (mkReportArgs id to subject sent body checked).
Definition report_body : string → option ReportArgs := parse_json report_fields report_args.

Inductive ReportRefused := NoRecipient | TooManyRecipients | BadRecipient | BadSubject | ReportTooBig | BadMessageId | BadSentAt | BadVersion.
Definition field_ok (s : string) : bool :=
  (char_count s <=? MAX_FIELD) && negb (any_char (λ c, is_control c && negb (String.eqb c (String "009" ""))) s).
Definition trim_start_char (c s : string) : string := strip_all (String.length s) [c] s.
Definition not_empty (s : string) : bool := negb (String.eqb s "").
Definition Checked : Type := option string * list string * option Millis.
Definition validate (a : ReportArgs) : result ReportRefused Checked :=
  let to := List.filter not_empty (trim <$> ra_to a) in
  if is_empty to then Err NoRecipient
  else if MAX_RECIPIENTS <? length to then Err TooManyRecipients
  else if negb (forallb (λ t, field_ok t && has_char "@" t) to) then Err BadRecipient
  else if negb (field_ok (ra_subject a)) then Err BadSubject
  else if too_big (ra_body_markdown a) then Err ReportTooBig else
  let message_id := m ← ra_message_id a;
                    let m := trim (trim_end_char ">" (trim_start_char "<" (trim m))) in
                    if not_empty m then Some m else None in
  if match message_id with Some m => negb (field_ok m) || any_char is_whitespace m | None => false end then Err BadMessageId else
  sent_at ← match (s ← ra_sent_at a; let s := trim s in if not_empty s then Some s else None) with
            | None => Ok None
            | Some s => ok_or BadSentAt (Some <$> parse_rfc3339 s)
            end;
  if match ra_checked_version a with Some v => (v <? 0)%Z | None => false end then Err BadVersion
  else Ok (message_id, to, sent_at).
(** 413 for a body too big, 422 for the rest. *)
Definition invalid_report (r : ReportRefused) : nat * string :=
  match r with ReportTooBig => (413, "too_large") | _ => (422, "invalid_arguments") end.

(** Kept under an id of its own, what has waited too long gone first. *)
Definition file_report (row : ReportRow) (now : Millis) : Sql Z :=
  transaction (_ ← execute (λ d, (sweep_reports now d).1); insert_report row MAX_PENDING_REPORTS).
(** One pull: a report more than is answered, to tell whether there are. *)
Definition list_reports (mailbox after limit : Z) (now : Millis) (d : RulesDb) : RulesDb * (list ListedReport * (nat * Z)) :=
  let d := (sweep_reports now d).1 in
  (d, (reports mailbox after (limit + 1) d, report_counts mailbox d)).
Definition clamp_limit (limit : Z) : Z := Z.max 1 (Z.min limit MAX_LIST).
(** What is answered of a pull, and whether there is more. *)
Definition answered (limit : Z) (rows : list ListedReport) : list ListedReport * bool :=
  (limit_to limit rows, (limit <? Z.of_nat (length rows))%Z).
End publish.
