(* ===== verification/RulesServer.v ===== *)
(** * RulesServer: the rules server's requests
    ([rules-server/src/lib.rs], [rest.rs], [oauth.rs], [mcp.rs])

    A request is a program over what it shares with the others: one
    operation for each lock taken, so that requests interleave between any
    two of them ([RulesWorld]).  A database closure runs under the
    connection's lock and is one operation.  Logs, pages and headers of
    answers are left out; so is a database that fails for other reasons
    than a constraint. *)

From Stdlib Require Import Ascii.
From S2P Require Import Prelude.
From S2P Require Import Domain.
From S2P Require Import Text.
From S2P Require Import Json.
From S2P Require Import Guide.
From S2P Require Import MailStore.
From S2P Require Import RateLimit.
From S2P Require Import Search.
From S2P Require Import RulesTokens.
From S2P Require Import RulesLimit.
From S2P Require Import RulesDb.
From S2P Require Import RulesCrypto.
From S2P Require Import RulesPublish.
From S2P Require Import RulesOAuth.
From S2P Require Import Effects.
#[local] Close Scope Q_scope.

(** ** The server *)

Record Config := mkConfig {
  cf_rate_limit_per_minute : N; cf_registration_token_hash : option string; cf_issuer : option string;
  cf_require_encryption : bool; cf_epoch : string }.
Definition resource_of (issuer : string) : string := issuer +:+ "/mcp".
Definition FAILED_AUTH_PER_MINUTE : N := 30.

(** Its limits, by name. *)
Inductive Lane := Limiter | FailedAuth | WrongCodes | CodeChecks | Registrations | RegistrationsAll | Consents | ConsentsAll.
#[export] Instance lane_eq_dec : EqDecision Lane.
Proof. solve_decision. Defined.
Definition per_minute (c : Config) (l : Lane) : N :=
  match l with
  | Limiter => cf_rate_limit_per_minute c
  | FailedAuth => if (cf_rate_limit_per_minute c =? 0)%N then 0 else FAILED_AUTH_PER_MINUTE
  | WrongCodes => WRONG_CODES_PER_MINUTE
  | CodeChecks => CODES_PER_ADDRESS_PER_MINUTE
  | Registrations => REGISTRATIONS_PER_ADDRESS_PER_MINUTE
  | RegistrationsAll => REGISTRATIONS_PER_MINUTE
  | Consents => CONSENTS_PER_ADDRESS_PER_MINUTE
  | ConsentsAll => CONSENTS_PER_MINUTE
  end.
Record Server := mkServer {
  sv_db : RulesDb; sv_lanes : Lane → Limit.Buckets; sv_pending : Pages; sv_failures : Failures }.
Definition new_server (d : RulesDb) : Server := mkServer d (λ _, ∅) ∅ ∅.

(** ** Errors *)

Record ApiError := mkApiError {
  ae_status : nat; ae_code : string; ae_current : option (option Z) (** [current_version] *); ae_retry_after : option Z }.
Definition api_error (status : nat) (code : string) : ApiError := mkApiError status code None None.
Definition with_current (v : option Z) (e : ApiError) : ApiError :=
  mkApiError (ae_status e) (ae_code e) (Some v) (ae_retry_after e).
Definition unauthorized (given : bool) : ApiError := api_error 401 (if given then "invalid_token" else "missing_token").
Definition too_many (wait : Q) : ApiError :=
  mkApiError 429 "rate_limited" None (Some (Qround.Qfloor wait + 1)%Z).
Definition internal : ApiError := api_error 500 "internal".

(** ** Operations *)

(** A closure run on the database. *)
Inductive Tx :=
| FindMailbox (address : string)
| AddMailbox (address token_hash : string)
| ForgetMailbox (mailbox : Z)
| PublishSnapshot (dice : ReportDice) (mailbox : Z) (address : string) (row : SnapshotRow) (sealed : option SealedPush)
    (expected : option Z)
| StoreKeys (mailbox : Z) (key_id : string) (wraps : list (string * Bytes))
| ReadVersions (mailbox : Z)
| MintAgent (dice : KeyDice) (row : AgentTokenRow) (secret : string)
| ListAgents (mailbox : Z)
| RevokeAgent (mailbox : Z) (id : string)
| MintCode (row : ConnectCodeRow) (now : Millis)
| ListReports (mailbox after limit : Z) (now : Millis)
| AckReports (mailbox up_to_id : Z)
| ReadAppKey (mailbox : Z)
| OpenSnapshot (mailbox : Z) (agent address : string) (key : option Bytes)
| FileReport (row : ReportRow) (now : Millis)
| FindAccess (presented : string)
| FindAgent (id : string)
| TouchAgent (id : string)
| OpenAgentKey (dice : KeyDice) (agent : string) (mailbox : Z) (secret : string)
| FindClient (id : string)
| AddClient (row : ClientRow)
| Redeem (code_hash auth_hash : string) (row : AuthCodeRow) (now : Millis)
| ExchangeCode (code verifier : string) (redirect_uri : option string) (client resource : string) (now : Millis)
    (dice : IssueDice) (secret : string)
| ExchangeRefresh (refresh client resource : string) (now : Millis) (dice : IssueDice) (nonce : Bytes) (secret : string).
Definition tx_answer (t : Tx) : Type :=
  match t with
  | FindMailbox _ => option MailboxRow
  | AddMailbox _ _ => option Z
  | PublishSnapshot _ _ _ _ _ _ => Pushed
  | StoreKeys _ _ _ => option nat
  | ReadVersions _ => option SnapshotRow * list Z
  | ListAgents _ => list (AgentTokenRow * option string * option Millis) * list (string * option Bytes * bool) * option string
  | RevokeAgent _ _ => bool
  | MintCode _ _ => bool
  | ListReports _ _ _ _ => list ListedReport * (nat * Z)
  | AckReports _ _ => nat
  | ReadAppKey _ => option string
  | OpenSnapshot _ _ _ _ => result NotRead (result SealError string)
  | FileReport _ _ => Z
  | FindAccess _ => option (OAuthTokenRow * (AgentTokenRow * string))
  | FindAgent _ => option (AgentTokenRow * string)
  | OpenAgentKey _ _ _ _ => option Bytes
  | FindClient _ => option ClientRow
  | Redeem _ _ _ _ => option (Z * string)
  | ExchangeCode _ _ _ _ _ _ _ _ | ExchangeRefresh _ _ _ _ _ _ _ => Exchange
  | ForgetMailbox _ | MintAgent _ _ _ | TouchAgent _ | AddClient _ => unit
  end.

Inductive Op :=
| Now
| Draw (bytes : nat)
| DrawCode (** a connect code *)
| DrawKey
| DrawReports
| Take (l : Lane) (key : string)
| Peek (l : Lane) (key : string)
| IsLocked (client address : string) (now : Millis)
| CountFailure (client address : string) (now : Millis)
| TakePending (id : string)
| PutPending (id : string) (p : Pending)
| Run (t : Tx).
Definition answer (o : Op) : Type :=
  match o with
  | Now => Millis
  | Draw _ => Bytes
  | DrawCode => string
  | DrawKey => KeyDice
  | DrawReports => ReportDice
  | Take _ _ | Peek _ _ => result Q unit
  | IsLocked _ _ _ | CountFailure _ _ _ | PutPending _ _ => bool
  | TakePending _ => option Pending
  | Run t => result string (tx_answer t)
  end.

Section perform.
Context `{Crypto} `{RulesText}.

Definition ok_sql {A} (x : RulesDb * A) : RulesDb * result string A := (x.1, Ok x.2).
(** A closure's run; [clock] is the time it reads. *)
Definition run_tx (c : Config) (clock : Millis) (t : Tx) : Sql (tx_answer t) :=
  match t return Sql (tx_answer t) with
  | FindMailbox address => query (mailbox_by_address address)
  | AddMailbox address token_hash => insert_mailbox address token_hash clock
  | ForgetMailbox mailbox => execute (delete_mailbox mailbox)
  | PublishSnapshot dice mailbox address row sealed expected => publish dice mailbox address row sealed expected clock
  | StoreKeys mailbox key_id wraps => λ d, ok_sql (store_keys mailbox key_id wraps d)
  | ReadVersions mailbox => query (λ d, (latest_snapshot mailbox d, versions mailbox d))
  | MintAgent dice row secret => mint_agent dice row secret
  | ListAgents mailbox =>
      query (λ d, (agent_tokens mailbox d, agent_readability mailbox d, latest_snapshot mailbox d ≫= sn_key_id))
  | RevokeAgent mailbox id => λ d, ok_sql (revoke_agent_token mailbox id clock d)
  | MintCode row now => mint_connect_code row now
  | ListReports mailbox after limit now => λ d, ok_sql (list_reports mailbox after limit now d)
  | AckReports mailbox up_to_id => λ d, ok_sql (ack_reports mailbox up_to_id d)
  | ReadAppKey mailbox => query (app_key mailbox)
  | OpenSnapshot mailbox agent address key => query (open_newest lowercase (cf_require_encryption c) mailbox agent address key)
  | FileReport row now => file_report row now
  | FindAccess presented => query (find_access presented)
  | FindAgent id => query (agent_token id)
  | TouchAgent id => execute (touch_agent id clock)
  | OpenAgentKey dice agent mailbox secret => λ d, ok_sql (agent_key dice agent mailbox secret Keep d)
  | FindClient id => query (client id)
  | AddClient row => register_client row
  | Redeem code_hash auth_hash row now => redeem code_hash auth_hash row now
  | ExchangeCode code verifier redirect_uri client resource now dice secret =>
      exchange_code sha_256 base64_url_of code verifier redirect_uri client resource now dice secret
  | ExchangeRefresh refresh client resource now dice nonce secret =>
      exchange_refresh sha_256 refresh client resource now dice nonce secret
  end.

Definition with_db (d : RulesDb) (s : Server) : Server := mkServer d (sv_lanes s) (sv_pending s) (sv_failures s).
Definition with_lane (l : Lane) (b : Limit.Buckets) (s : Server) : Server :=
  mkServer (sv_db s) (λ l', if bool_decide (l' = l) then b else sv_lanes s l') (sv_pending s) (sv_failures s).
Definition with_pages (p : Pages) (s : Server) : Server := mkServer (sv_db s) (sv_lanes s) p (sv_failures s).
Definition with_failures (f : Failures) (s : Server) : Server := mkServer (sv_db s) (sv_lanes s) (sv_pending s) f.
(** Whether [a] can be what was drawn. *)
Definition drawn (o : Op) : answer o → Prop :=
  match o with
  | Draw n => λ a, String.length a = n
  | DrawCode => λ a, ∃ random, connect_code random = Some a
  | DrawKey => well_drawn
  | DrawReports => λ a, ∀ i, String.length (a i).1 = KEY_LEN ∧ String.length (a i).2 = NONCE_LEN
  | _ => λ _, True
  end.
(** One operation at a time and instant: what it answers, unless it draws. *)
Definition perform_op (c : Config) (clock : Millis) (instant : Q) (o : Op) (s : Server) : option (Server * answer o) :=
  match o return option (Server * answer o) with
  | Now => Some (s, clock)
  | Draw _ | DrawCode | DrawKey | DrawReports => None
  | Take l key => let '(b, r) := Limit.take (per_minute c l) key instant (sv_lanes s l) in Some (with_lane l b s, r)
  | Peek l key => let '(b, r) := Limit.peek (per_minute c l) key instant (sv_lanes s l) in Some (with_lane l b s, r)
  | IsLocked client address now => Some (s, locked client address now (sv_failures s))
  | CountFailure client address now =>
      let '(f, locked) := count_failure client address now (sv_failures s) in Some (with_failures f s, locked)
  | TakePending id => let '(p, found) := take_pending id (sv_pending s) in Some (with_pages p s, found)
  | PutPending id p => let '(ps, put) := put_pending id p clock (sv_pending s) in Some (with_pages ps s, put)
  | Run t => let '(d, r) := run_tx c clock t (sv_db s) in Some (with_db d s, r)
  end.
End perform.

(** ** Programs *)

Abbreviation Prog := (Eff answer).
Abbreviation Try := (Attempt answer).
Abbreviation Done := (Performed answer).
