(* ===== verification/RulesHandlers.v ===== *)
(** * RulesHandlers: what each of the rules server's endpoints does
    ([rules-server/src/lib.rs], [crypto.rs], [rest.rs], [reports.rs],
    [oauth.rs], [mcp.rs])

    The sign-in checks, and one program per endpoint.  An answer is a
    [Reply]: what it says, before it is rendered as JSON, a redirect or a
    page. *)

From Stdlib Require Import Ascii.
From S2P Require Import Prelude.
From S2P Require Import Domain.
From S2P Require Import Text.
From S2P Require Import Json.
From S2P Require Import Guide.
From S2P Require Import MailStore.
From S2P Require Import RateLimit.
From S2P Require Import Search.
From S2P Require Import RulesTokens.
From S2P Require Import RulesDb.
From S2P Require Import RulesCrypto.
From S2P Require Import RulesPublish.
From S2P Require Import RulesOAuth.
From S2P Require Import RulesServer.
From S2P Require Import Effects.
#[local] Close Scope Q_scope.

(** ** Requests and replies *)

(** The headers read: as text, or none. *)
Record Headers := mkHeaders {
  hd_authorization : option string; hd_if_match : option (option string); hd_origin : option (option string);
  hd_cookies : list (option string) }.
Inductive Request :=
| RegisterMailbox (body : string)
| Forget (address : string)
| PutSnapshot (address body : string)
| PostKeys (address body : string)
| GetVersion (address : string)
| PostToken (address body : string)
| GetTokens (address : string)
| DeleteToken (address id : string)
| PostCode (address body : string)
| GetReports (address : string) (query : option string)
| PostAck (address body : string)
| GetGuide (address : string) (query : option string)
| GetFacts (address : string) (query : option string)
| PostCheck (address body : string)
| PostReport (address body : string)
| CallTool (name : string) (arguments : Json)
| OAuthRegister (body : string)
| Authorize (query : option string)
| Consent (body : string)
| Token (body : string).

Inductive Reply :=
| Failed (e : ApiError)
| MailboxRegistered (address publisher_token : string)
| NoContent
| SnapshotVersion (latest : option (Z * Millis)) (kept : list Z)
| KeysStored (n : nat)
| TokenMinted (row : AgentTokenRow) (token : string)
| TokensListed (rows : list (AgentTokenRow * option string * option Millis)) (keys : list (string * option Bytes * bool))
    (key_id : option string)
| CodeMinted (row : ConnectCodeRow) (code : string)
| ReportsListed (rows : list ListedReport) (pending : nat) (dropped : Z) (more : bool) (epoch : string)
| Acknowledged (n : nat)
| Answered (answer : Json)
| ReportQueued (answer : Json)
| ToolFailed (code : string)
| NoSuchTool
| ClientRegistered (row : ClientRow)
| RegistrationRefused (code : string)
| ErrorPage (status : nat) (message : string)
| ConsentPage (request : string) (p : Pending) (error : option string) (cookie : option string)
| Redirected (location : string) (clear_cookie : bool)
| TokenRefused (status : nat) (code description : string)
| TokensIssued (access refresh : string).

(** An agent that was let in. *)
Record AgentAuth := mkAuth { aa_id : string; aa_mailbox : Z; aa_address : string; aa_key : option Bytes }.

Section handlers.
Context `{Crypto} `{RulesText} `{Web} (c : Config).
#[local] Abbreviation hash := (RulesTokens.hash sha_256).
#[local] Abbreviation Api := (Try ApiError).

Definition db (t : Tx) : Api (tx_answer t) := r ← op (Run t); ask (map_err (λ _, internal) r).
Definition take_from (l : Lane) (key : string) : Api unit := r ← op (Take l key); ask (map_err too_many r).
Definition draw_secret {E} : Try E string := b ← op (Draw 32); mret (base64_url_of b).
Definition draw_id {E} : Try E string := b ← op (Draw 8); mret (new_id b).

(** ** Signing in *)

(** A check of a client's token, not made once too many have failed. *)
Definition limit_failed_auth {A} (client : string) (check : Api A) : Api A :=
  let key := "failed:" +:+ client in
  r ← op (Peek FailedAuth key);
  _ ← ask (map_err too_many r);
  mkTry (outcome ← run_try check;
         match outcome with
         | Err e => if String.eqb (ae_code e) "invalid_token" then _ ← perform (Take FailedAuth key); Ret outcome else Ret outcome
         | Ok _ => Ret outcome
         end).
Definition access_live (t : OAuthTokenRow) (g : AgentTokenRow) (resource : string) (now : Millis) : bool :=
  String.eqb (ot_kind t) TOKEN_ACCESS && (now <? ot_expires_at t)%Z && String.eqb (ag_kind g) KIND_OAUTH &&
  match ag_revoked_at g with None => true | Some _ => false end && same (ot_resource t) resource.
Definition token_live (row : AgentTokenRow) (presented : string) : bool :=
  String.eqb (ag_kind row) KIND_TOKEN && match ag_revoked_at row with None => true | Some _ => false end &&
  same presented (ag_token_hash row).
(** Whose token it is, and the secret that opens its key. *)
Definition identify (token : string) (oauth_ok : bool) : Api (string * Z * string * option string) :=
  let presented := hash token in
  if starts_with ACCESS_PREFIX token then
    resource ← or_fail (unauthorized true) (if oauth_ok then resource_of <$> cf_issuer c else None);
    now ← op Now;
    found ← db (FindAccess presented);
    '(t, (grant, address)) ← or_fail (unauthorized true) found;
    _ ← check_that (access_live t grant resource now) (unauthorized true);
    mret (ag_id grant, ag_mailbox_id grant, address, grant_secret_of token)
  else
    id ← or_fail (unauthorized true) (agent_token_id token);
    found ← db (FindAgent id);
    '(row, address) ← or_fail (unauthorized true) found;
    _ ← check_that (token_live row presented) (unauthorized true);
    mret (id, ag_mailbox_id row, address, Some token).
Definition agent_auth_checked (h : Headers) (oauth_ok : bool) : Api AgentAuth :=
  token ← or_fail (unauthorized false) (bearer (hd_authorization h));
  '(id, mailbox, address, secret) ← identify token oauth_ok;
  _ ← take_from Limiter ("agent:" +:+ id);
  _ ← op (Run (TouchAgent id));
  key ← match secret with
        | Some secret => dice ← op DrawKey; db (OpenAgentKey dice id mailbox secret)
        | None => mret None
        end;
  mret (mkAuth id mailbox address key).
Definition agent_auth (client : string) (h : Headers) (oauth_ok : bool) : Api AgentAuth :=
  limit_failed_auth client (agent_auth_checked h oauth_ok).
Definition address_in_path (address : string) : Api string := or_fail (api_error 400 "invalid_address") (normalize_address address).
(** The mailbox in the path, if the publisher token is its own. *)
Definition publisher (client : string) (h : Headers) (address : string) : Api MailboxRow :=
  address ← address_in_path address;
  token ← or_fail (unauthorized false) (bearer (hd_authorization h));
  row ← limit_failed_auth client
          (row ← db (FindMailbox address);
           match row with
           | Some row => if same (hash token) (mb_publisher_token_hash row) then mret row else fail (unauthorized true)
           | None => fail (unauthorized true)
           end);
  _ ← take_from Limiter ("publisher:" +:+ pretty (mb_id row));
  mret row.
(** The agent let in, whose mailbox must be the one in the path. *)
Definition agent_in_path (client : string) (h : Headers) (address : string) : Api AgentAuth :=
  auth ← agent_auth client h false;
  _ ← check_that (bool_decide (normalize_address address = Some (aa_address auth))) (api_error 404 "not_found");
  mret auth.

(** ** The published guide *)

Definition snapshot_for (auth : AgentAuth) : Api (result NotRead Snapshot) :=
  opened ← db (OpenSnapshot (aa_mailbox auth) (aa_id auth) (aa_address auth) (aa_key auth));
  match snapshot_json opened with
  | Err not_read => mret (Err not_read)
  | Ok json =>
      s ← or_fail internal (v ← json_of json; ok (read_snapshot snapshot_of v));
      mret (Ok s)
  end.
Definition published (auth : AgentAuth) : Api Snapshot :=
  s ← snapshot_for auth; ask (map_err (λ n, api_error (not_read_status n) (not_read_code n)) s).

(** ** Reports *)

Definition queued_answer (id : Z) (guide_check : list string) (version : option Z) : Json :=
  obj [("queued", JBool true); ("report_id", json_int id); ("guide_check", json_strings guide_check);
       ("version", json_opt json_int version);
       ("message", JString "Queued for Kaluta, which records it the next time it syncs this mailbox.")].
(** Checked again, sealed to the app if it has a key, and kept. *)
Definition file (auth : AgentAuth) (a : ReportArgs) : Api Json :=
  '(message_id, to, sent_at) ← ask (map_err (λ r, api_error (invalid_report r).1 (invalid_report r).2) (validate a));
  key ← db (ReadAppKey (aa_mailbox auth));
  _ ← check_that (negb (negb (has key) && cf_require_encryption c)) (api_error 409 "not_encrypted");
  snapshot ← snapshot_for auth;
  let check_version := Guide.sn_version <$> ok snapshot in
  let broken := match snapshot with
                | Ok s => guide_check s to None (ra_subject a) (ra_body_markdown a)
                | Err _ => []
                end in
  now ← op Now;
  let row := mkReport 0 (aa_mailbox auth) (aa_id auth) now message_id to (trim (ra_subject a)) sent_at (ra_body_markdown a)
               (ra_checked_version a) check_version broken None in
  row ← match key ≫= λ k, ok (app_public_key k) with
        | Some public =>
            dice ← op DrawReports;
            sealed ← or_fail internal (ok (seal_report_for_app (dice 0%Z).1 (dice 0%Z).2 public (aa_address auth) row));
            mret (sealed_report sealed row)
        | None => mret row
        end;
  id ← db (FileReport row now);
  mret (queued_answer id broken check_version).

(** ** Publishers *)

Definition register (client : string) (h : Headers) (body : string) : Api Reply :=
  _ ← take_from Limiter ("register:" +:+ client);
  _ ← match cf_registration_token_hash c with
      | Some expected =>
          limit_failed_auth client
            (match bearer (hd_authorization h) with
             | Some t => check_that (same (hash t) expected) (unauthorized true)
             | None => fail (unauthorized false)
             end)
      | None => mret ()
      end;
  address ← or_fail (api_error 400 "invalid_body") (register_body body);
  address ← or_fail (api_error 422 "invalid_address") (normalize_address address);
  secret ← draw_secret;
  let token := publisher_token secret in
  id ← db (AddMailbox address (hash token));
  _ ← or_fail (api_error 409 "already_registered") id;
  mret (MailboxRegistered address token).
Definition forget (client : string) (h : Headers) (address : string) : Api Reply :=
  m ← publisher client h address;
  _ ← db (ForgetMailbox (mb_id m));
  mret NoContent.
(** What a push's body is: a row, and what an encrypted one adds. *)
Definition pushed_row (body address : string) : Api (SnapshotRow * option SealedPush) :=
  if is_sealed body then
    dice ← op DrawReports;
    '(row, sealed) ← or_fail (api_error 422 "invalid_snapshot") (sealed_push (dice 0%Z).1 (dice 0%Z).2 body address);
    mret (row, Some sealed)
  else
    _ ← check_that (negb (cf_require_encryption c)) (api_error 422 "encryption_required");
    row ← ask (map_err (api_error 422) (plain_push body address));
    mret (row, None).
Definition pushed_reply (row : SnapshotRow) (p : Pushed) : Api Reply :=
  match p with
  | Stored kept => mret (SnapshotVersion (Some (sn_version row, sn_published_at row)) kept)
  | Downgrade => fail (api_error 422 "encryption_required")
  | Mismatch v => fail (with_current v (api_error 412 "version_mismatch"))
  | NeedsIfMatch v => fail (with_current (Some v) (api_error 428 "if_match_required"))
  | NotNewer v => fail (with_current (Some v) (api_error 409 "version_not_newer"))
  end.
Definition publish_snapshot (client : string) (h : Headers) (address body : string) : Api Reply :=
  m ← publisher client h address;
  expected ← or_fail (api_error 400 "invalid_if_match") (if_match (hd_if_match h));
  '(row, sealed) ← pushed_row body (mb_address m);
  _ ← check_that (1 <=? sn_version row)%Z (api_error 422 "invalid_snapshot");
  dice ← op DrawReports;
  pushed ← db (PublishSnapshot dice (mb_id m) (mb_address m) row sealed expected);
  pushed_reply row pushed.
Definition keys_body : string → option (string * list KeyWrap) :=
  parse_json [field "key_id"; field "wraps"]
    (λ f, id ← required as_str f "key_id"; ws ← required key_wraps f "wraps"; Some (id, ws)).
Definition snapshot_keys (client : string) (h : Headers) (address body : string) : Api Reply :=
  m ← publisher client h address;
  '(key_id, wraps) ← or_fail (api_error 400 "invalid_body") (keys_body body);
  _ ← check_that (valid_key_id key_id) (api_error 422 "invalid_wraps");
  wraps ← or_fail (api_error 422 "invalid_wraps") (wraps_of wraps);
  stored ← db (StoreKeys (mb_id m) key_id wraps);
  n ← or_fail (api_error 404 "unknown_key") stored;
  mret (KeysStored n).
Definition version (client : string) (h : Headers) (address : string) : Api Reply :=
  m ← publisher client h address;
  '(latest, kept) ← db (ReadVersions (mb_id m));
  mret (SnapshotVersion ((λ s, (sn_version s, sn_published_at s)) <$> latest) kept).
Definition named (body : string) : Api string :=
  name ← or_fail (api_error 400 "invalid_body") (name_body body); or_fail (api_error 422 "invalid_name") (agent_name name).
Definition mint (client : string) (h : Headers) (address body : string) : Api Reply :=
  m ← publisher client h address;
  name ← named body;
  id ← draw_id;
  secret ← draw_secret;
  let token := agent_token_text id secret in
  now ← op Now;
  let row := mkAgent id (mb_id m) name (hash token) now None KIND_TOKEN None in
  dice ← op DrawKey;
  _ ← db (MintAgent dice row token);
  mret (TokenMinted row token).
Definition list_tokens (client : string) (h : Headers) (address : string) : Api Reply :=
  m ← publisher client h address;
  '(rows, keys, key_id) ← db (ListAgents (mb_id m));
  mret (TokensListed rows keys key_id).
Definition revoke (client : string) (h : Headers) (address id : string) : Api Reply :=
  m ← publisher client h address;
  found ← db (RevokeAgent (mb_id m) id);
  _ ← check_that found (api_error 404 "not_found");
  mret NoContent.
Definition post_connect_code (client : string) (h : Headers) (address body : string) : Api Reply :=
  m ← publisher client h address;
  _ ← or_fail (api_error 409 "oauth_off") (cf_issuer c);
  name ← named body;
  code ← op DrawCode;
  now ← op Now;
  id ← draw_id;
  let row := mkConnect id (mb_id m) name (hash (default "" (normalize_connect_code code))) now (now + CONNECT_CODE_TTL_MS)%Z None in
  made ← db (MintCode row now);
  _ ← check_that made (api_error 429 "too_many_codes");
  mret (CodeMinted row code).
(** [?after=<id>&limit=<n>], in the query's order. *)
Definition report_range (query : option string) : result ApiError (Z * Z) :=
  foldl (λ r '(k, v), '(after, limit) ← r;
           let number := n ← ok_or (api_error 400 "invalid_arguments") (parse_i64 v);
                         if (0 <=? n)%Z then Ok n else Err (api_error 400 "invalid_arguments") in
           if String.eqb k "after" then n ← number; Ok (n, limit)
           else if String.eqb k "limit" then n ← number; Ok (after, n)
           else Err (api_error 400 "invalid_arguments"))
    (Ok (0%Z, 100%Z)) (form_parse (default "" query)).
Definition get_reports (client : string) (h : Headers) (address : string) (query : option string) : Api Reply :=
  m ← publisher client h address;
  '(after, limit) ← ask (report_range query);
  let limit := clamp_limit limit in
  now ← op Now;
  '(rows, (pending, dropped)) ← db (ListReports (mb_id m) after limit now);
  mret (ReportsListed (answered limit rows).1 pending dropped (answered limit rows).2 (cf_epoch c)).
Definition post_ack (client : string) (h : Headers) (address body : string) : Api Reply :=
  m ← publisher client h address;
  up_to ← or_fail (api_error 400 "invalid_body") (ack_body body);
  n ← db (AckReports (mb_id m) up_to);
  mret (Acknowledged n).

(** ** Agents *)

(** [to] may repeat or hold a list; an empty type is none. *)
Definition guide_args (query : option string) : result ApiError GuideArgs :=
  foldl (λ r '(k, v), a ← r;
           if String.eqb k "to"
           then Ok (mkGuideArgs (ga_to a ++ List.filter not_empty (trim <$> split_on "," v)) (ga_message_type a))
           else if String.eqb k "message_type" then Ok (if not_empty v then mkGuideArgs (ga_to a) (Some v) else a)
           else Err (api_error 400 "invalid_arguments"))
    (Ok (mkGuideArgs [] None)) (form_parse (default "" query)).
Definition facts_args (query : option string) : result ApiError FactsArgs :=
  foldl (λ r '(k, v), a ← r;
           let v := if not_empty v then Some v else None in
           if String.eqb k "category" then Ok (mkFactsArgs v (fg_query a))
           else if String.eqb k "query" then Ok (mkFactsArgs (fg_category a) v)
           else Err (api_error 400 "invalid_arguments"))
    (Ok (mkFactsArgs None None)) (form_parse (default "" query)).
Definition guide (client : string) (h : Headers) (address : string) (query : option string) : Api Reply :=
  auth ← agent_in_path client h address;
  a ← ask (guide_args query);
  _ ← check_that (check_message_type (ga_message_type a)) (api_error 400 "invalid_arguments");
  s ← published auth;
  mret (Answered (guide_rules s a)).
Definition facts (client : string) (h : Headers) (address : string) (query : option string) : Api Reply :=
  auth ← agent_in_path client h address;
  a ← ask (facts_args query);
  s ← published auth;
  mret (Answered (facts_answer s a)).
(** By the message's words: one that says " KB", as it does of a body too
    big, and when the type it quotes does. *)
Definition draft_refused (r : DraftRefused) : ApiError :=
  match r with
  | BodyTooBig => api_error 413 "too_large"
  | BadMessageType given => if contains " KB" given then api_error 413 "too_large" else api_error 422 "invalid_arguments"
  end.
Definition check_handler (client : string) (h : Headers) (address body : string) : Api Reply :=
  auth ← agent_in_path client h address;
  a ← or_fail (api_error 400 "invalid_body") (check_body body);
  _ ← ask (map_err draft_refused (check_draft_args a));
  s ← published auth;
  mret (Answered (check_draft s a)).
Definition report (client : string) (h : Headers) (address body : string) : Api Reply :=
  auth ← agent_in_path client h address;
  a ← or_fail (api_error 400 "invalid_body") (report_body body);
  answer ← file auth a;
  mret (ReportQueued answer).

(** ** Tools over MCP *)

Inductive Call := GuideCall (a : GuideArgs) | FactsCall (a : FactsArgs) | CheckCall (a : CheckArgs).
Definition TOOL_NAMES : list string := ["guide_rules"; "facts_lookup"; "check_draft"; "report_send"].
Definition guide_tool_args (v : Json) : option GuideArgs :=
  f ← struct_fields [defaulted "to"; defaulted "message_type"] v;
  to ← with_default strings [] f "to"; mt ← optional as_str f "message_type"; Some (mkGuideArgs to mt).
Definition facts_tool_args (v : Json) : option FactsArgs :=
  f ← struct_fields [defaulted "category"; defaulted "query"] v;
  category ← optional as_str f "category"; q ← optional as_str f "query"; Some (mkFactsArgs category q).
Definition tool_call (name : string) (arguments : Json) : option Call :=
  if String.eqb name "guide_rules" then
    a ← guide_tool_args arguments; if check_message_type (ga_message_type a) then Some (GuideCall a) else None
  else if String.eqb name "check_draft" then
    f ← struct_fields check_fields arguments; a ← check_args f; _ ← ok (check_draft_args a); Some (CheckCall a)
  else FactsCall <$> facts_tool_args arguments.
Definition call_answer (s : Snapshot) (call : Call) : Json :=
  match call with
  | GuideCall a => guide_rules s a
  | FactsCall a => facts_answer s a
  | CheckCall a => check_draft s a
  end.
(** A tool's error names what went wrong, to the agent. *)
Definition tool_failed (e : ApiError) : Reply := ToolFailed (ae_code e).
Definition call_tool (auth : AgentAuth) (name : string) (arguments : Json) : Try Reply Reply :=
  if negb (bool_decide (name ∈ TOOL_NAMES)) then fail NoSuchTool
  else if String.eqb name "report_send" then
    a ← or_fail (ToolFailed "invalid_arguments") (f ← struct_fields report_fields arguments; report_args f);
    answer ← map_fail tool_failed (file auth a);
    mret (Answered answer)
  else
    call ← or_fail (ToolFailed "invalid_arguments") (tool_call name arguments);
    s ← map_fail (λ _, ToolFailed "failed") (snapshot_for auth);
    s ← ask (map_err (λ n, ToolFailed (not_read_code n)) s);
    mret (Answered (call_answer s call)).
Definition mcp (client : string) (h : Headers) (name : string) (arguments : Json) : Try Reply Reply :=
  auth ← map_fail Failed (agent_auth client h true);
  call_tool auth name arguments.

(** ** OAuth *)

#[local] Abbreviation OAuth := (Try Reply).
Definition api {A} (p : Api A) : OAuth A := map_fail Failed p.
Definition code_of (v : Json) : bool := match v with JString s => String.eqb s "code" | _ => false end.
Definition text_is (t : string) (v : Json) : bool := match v with JString s => String.eqb s t | _ => false end.
(** A list that is given must hold [t]. *)
Definition lists (t : string) (v : option Json) : bool :=
  match v with Some (JArray l) => List.existsb (text_is t) l | _ => true end.
Definition redirect_uris_of (v : option Json) : option (list string) :=
  match v with
  | Some (JArray l) => if negb (is_empty l) && (length l <=? MAX_REDIRECT_URIS) then mapM as_str l else None
  | _ => None
  end.
Definition client_name_of (v : option Json) : string :=
  let name := trim (concat_chars (take MAX_CLIENT_NAME (List.filter (λ c, negb (is_control c)) (chars (default "" (v ≫= as_str)))))) in
  if not_empty name then name else "An unnamed app".
(** A client's metadata, or which part is refused. *)
Definition client_metadata (body : string) : result string (string * list string) :=
  match json_of body with
  | Some (JObject meta) =>
      uris ← ok_or "invalid_redirect_uri" (redirect_uris_of (lookup_field "redirect_uris" meta));
      if negb (forallb valid_redirect_uri uris) then Err "invalid_redirect_uri"
      else if negb (lists "code" (lookup_field "response_types" meta)) ||
              negb (lists "authorization_code" (lookup_field "grant_types" meta))
      then Err "invalid_client_metadata" else Ok (client_name_of (lookup_field "client_name" meta), uris)
  | _ => Err "invalid_client_metadata"
  end.
Definition oauth_register (client : string) (body : string) : OAuth Reply :=
  _ ← api (take_from Registrations ("register:" +:+ client));
  _ ← api (take_from RegistrationsAll "all");
  '(name, uris) ← ask (map_err RegistrationRefused (client_metadata body));
  id1 ← draw_id; id2 ← draw_id;
  now ← op Now;
  let row := mkClient (CLIENT_PREFIX +:+ id1 +:+ id2) name uris now in
  _ ← api (db (AddClient row));
  mret (ClientRegistered row).

(** Where the browser goes back to: the answer, [state] and [iss]. *)
Definition back_to (issuer : string) (p : Pending) (pairs : list (string * string)) (clear : bool) : Reply :=
  match url_parse (pp_redirect_uri p) with
  | None => ErrorPage 400 "the app's return address is not a URL"
  | Some _ =>
      Redirected (append_pairs (pp_redirect_uri p)
                    (pairs ++ match pp_state p with Some s => [("state", s)] | None => [] end ++ [("iss", issuer)])) clear
  end.
Definition form_back_with_error (issuer : string) (p : Pending) (why : string) (clear : bool) : Reply :=
  back_to issuer p [("error", "access_denied"); ("error_description", why)] clear.
Definition page {A} (status : nat) (message : string) : OAuth A := fail (ErrorPage status message).
Definition page_params (raw : string) : OAuth (gmap string string) :=
  ask (map_err (λ k, ErrorPage 400 (k +:+ " is given more than once")) (params raw)).
Definition unusable {A} (code why : string) : OAuth A :=
  page 400 ("The app's request cannot be used (" +:+ code +:+ "): " +:+ why +:+ ".").
(** The return address asked for, if it is the client's. *)
Definition chosen_redirect (cl : ClientRow) (given : option string) : OAuth string :=
  match given, cl_redirect_uris cl with
  | Some given, uris =>
      if List.existsb (λ r, redirect_matches r given) uris then mret given
      else page 400 "The app's return address is not one it registered."
  | None, [only] => mret only
  | None, _ => page 400 "The app did not say where to return (redirect_uri)."
  end.
Definition challenge_of (q : gmap string string) : OAuth string :=
  match q !! "code_challenge", bool_decide (q !! "code_challenge_method" = Some "S256") with
  | Some ch, true =>
      if valid_challenge ch then mret ch else unusable "invalid_request" "code_challenge is not an S256 challenge"
  | _, _ => unusable "invalid_request" "PKCE is required: send code_challenge with code_challenge_method=S256"
  end.
Definition resource_ok (given : option string) (ours : string) : bool :=
  match given with Some r => same_resource r ours | None => true end.
Definition consent_cookie (issuer request csrf : string) : string :=
  cookie_name request +:+ "=" +:+ csrf +:+ "; Path=/oauth/authorize; HttpOnly; SameSite=Lax; Max-Age=" +:+
    pretty (CONSENT_TTL_MS / 1000)%Z +:+ (if starts_with "https://" issuer then "; Secure" else "").
(** [GET /oauth/authorize]: the request checked, and the consent page. *)
Definition authorize (issuer client : string) (query : option string) : OAuth Reply :=
  r ← op (Take Consents ("consent:" +:+ client));
  _ ← check_that (is_ok r) (ErrorPage 429 "Too many sign-in pages from here; try again in a minute.");
  r ← op (Take ConsentsAll "all");
  _ ← check_that (is_ok r) (ErrorPage 429 "This server is busy; try again in a minute.");
  q ← page_params (default "" query);
  client_id ← or_fail (ErrorPage 400 "The app did not say who it is (client_id).") (q !! "client_id");
  found ← api (db (FindClient client_id));
  cl ← or_fail (ErrorPage 400 "This app is not registered here (unknown client_id).") found;
  redirect_uri ← chosen_redirect cl (q !! "redirect_uri");
  _ ← (if bool_decide (q !! "response_type" = Some "code") then mret ()
       else unusable "unsupported_response_type" "only response_type=code is supported");
  challenge ← challenge_of q;
  _ ← (if resource_ok (q !! "resource") (resource_of issuer) then mret ()
       else unusable "invalid_target" "this server issues tokens only for its own /mcp");
  now ← op Now;
  is_locked ← op (IsLocked (cl_id cl) client now);
  _ ← check_that (negb is_locked)
        (ErrorPage 403 "Too many wrong connect codes were tried for this app from here. Try again in an hour.");
  request ← draw_secret;
  csrf ← draw_secret;
  let p := mkPendingPage (cl_id cl) (cl_name cl) redirect_uri (q !! "state") challenge (hash csrf) now 0 in
  put ← op (PutPending request p);
  _ ← check_that put (ErrorPage 503 "This server is busy; try again in a few minutes.");
  mret (ConsentPage request p None (Some (consent_cookie issuer request csrf))).

(** Posted from the page itself: no other [Origin], and its cookie. *)
Definition from_own_page (issuer : string) (h : Headers) (request : string) (p : Pending) : bool :=
  match hd_origin h with Some v => bool_decide (v = Some issuer) | None => true end &&
  match cookie (hd_cookies h) (cookie_name request) with Some csrf => same (hash csrf) (pp_csrf_hash p) | None => false end.
Definition wrong_code (left : Z) : string :=
  "That code is wrong, used or expired. Check it in Kaluta, or make a new one. " +:+ pretty left +:+ " " +:+
  (if (left =? 1)%Z then "try" else "tries") +:+ " left.".
(** Too many tries just now, here or on the whole server. *)
Definition busy (client : string) : OAuth (option string) :=
  r ← op (Take CodeChecks ("codes:" +:+ client));
  match r with
  | Err _ => mret (Some "Too many codes were tried from here just now. Wait a minute and try again.")
  | Ok _ =>
      r ← op (Peek WrongCodes "all");
      mret (match r with
            | Err _ => Some "Too many wrong codes were tried on this server just now. Wait a minute and try again."
            | Ok _ => None
            end)
  end.
(** The connect code typed, made into a grant: its authorization code. *)
Definition redeem_typed (issuer typed : string) (p : Pending) (now : Millis) : OAuth (option string) :=
  match normalize_connect_code typed with
  | None => mret None
  | Some code =>
      auth_code ← draw_secret;
      grant ← draw_id;
      let row := mkAuthCode grant (pp_client_id p) (pp_redirect_uri p) (pp_challenge p) (resource_of issuer)
                   (now + AUTH_CODE_TTL_MS)%Z None in
      made ← api (db (Redeem (hash code) (hash auth_code) row now));
      mret (match made with Some _ => Some auth_code | None => None end)
  end.
(** The page shown again, with a message. *)
Definition page_again (request : string) (p : Pending) (message : string) : OAuth Reply :=
  _ ← op (PutPending request p); mret (ConsentPage request p (Some message) None).
(** [POST /oauth/authorize]: the consent form, with its connect code. *)
Definition consent (issuer client : string) (h : Headers) (body : string) : OAuth Reply :=
  form ← page_params body;
  let request := default "" (form !! "request") in
  found ← op (TakePending request);
  p ← or_fail (ErrorPage 400 "This page has expired or was already used.") found;
  _ ← check_that (from_own_page issuer h request p) (ErrorPage 403 "This form was not sent from its own page.");
  now ← op Now;
  _ ← check_that (now - pp_created_at p <? CONSENT_TTL_MS)%Z (form_back_with_error issuer p "the consent page expired" false);
  _ ← check_that (negb (bool_decide (form !! "action" = Some "deny"))) (form_back_with_error issuer p "the user said no" true);
  is_locked ← op (IsLocked (pp_client_id p) client now);
  _ ← check_that (negb is_locked)
        (form_back_with_error issuer p "too many wrong connect codes from this app; try again in an hour" true);
  wait ← busy client;
  match wait with
  | Some message =>
      page_again request p message
  | None =>
      redeemed ← redeem_typed issuer (default "" (form !! "connect_code")) p now;
      match redeemed with
      | Some auth_code => mret (back_to issuer p [("code", auth_code)] true)
      | None =>
          let p := one_more_try p in
          _ ← op (Take WrongCodes "all");
          is_locked ← op (CountFailure (pp_client_id p) client now);
          if is_locked || (TRIES_PER_CONSENT <=? pp_tries p)%Z
          then mret (form_back_with_error issuer p "too many wrong connect codes" true)
          else
            page_again request p (wrong_code (TRIES_PER_CONSENT - pp_tries p)%Z)
      end
  end.

(** The client of a token request: of the form, or Basic's user. *)
Definition client_of (form : gmap string string) (h : Headers) : option string :=
  match form !! "client_id" with
  | Some id => Some id
  | None =>
      value ← hd_authorization h;
      '(scheme, b64) ← split_once " " (trim value);
      if negb (nocase_eqb scheme "basic") then None else
      decoded ← ok (unb64 b64);
      if negb (is_utf8 decoded) then None else
      '(user, _) ← split_once ":" decoded;
      snd <$> head (form_parse ("u=" +:+ user))
  end.
Definition draw_issue : OAuth (IssueDice * string) :=
  secret ← draw_secret; access ← draw_secret; refresh ← draw_secret; key ← op DrawKey;
  mret (mkIssueDice access refresh key, secret).
Definition exchanged (e : Exchange) : OAuth Reply :=
  match e with
  | Issued _ access refresh => mret (TokensIssued access refresh)
  | Refused why => fail (TokenRefused 400 "invalid_grant" why)
  | Replayed _ =>
      fail (TokenRefused 400 "invalid_grant" "this was used already; the connection is revoked, and the user must connect again")
  end.
(** [POST /oauth/token] *)
Definition token (issuer : string) (h : Headers) (body : string) : OAuth Reply :=
  form ← ask (map_err (λ k, TokenRefused 400 "invalid_request" (k +:+ " is given more than once")) (params body));
  client_id ← or_fail (TokenRefused 401 "invalid_client" "send client_id") (client_of form h);
  _ ← api (take_from Limiter ("client:" +:+ client_id));
  found ← api (db (FindClient client_id));
  _ ← or_fail (TokenRefused 401 "invalid_client" "this client is not registered here") found;
  _ ← check_that (resource_ok (form !! "resource") (resource_of issuer))
        (TokenRefused 400 "invalid_target" "this server issues tokens only for its own /mcp");
  now ← op Now;
  match form !! "grant_type" with
  | None => fail (TokenRefused 400 "invalid_request" "send grant_type")
  | Some grant_type =>
      if String.eqb grant_type "authorization_code" then
        '(code, verifier) ← or_fail (TokenRefused 400 "invalid_request" "send code and code_verifier")
                              (code ← form !! "code"; v ← form !! "code_verifier"; Some (code, v));
        '(dice, secret) ← draw_issue;
        e ← api (db (ExchangeCode code verifier (form !! "redirect_uri") client_id (resource_of issuer) now dice secret));
        exchanged e
      else if String.eqb grant_type "refresh_token" then
        refresh ← or_fail (TokenRefused 400 "invalid_request" "send refresh_token") (form !! "refresh_token");
        '(dice, secret) ← draw_issue;
        nonce ← op (Draw NONCE_LEN);
        e ← api (db (ExchangeRefresh refresh client_id (resource_of issuer) now dice nonce secret));
        exchanged e
      else fail (TokenRefused 400 "unsupported_grant_type" "grant_type is authorization_code or refresh_token")
  end.

(** ** Routing *)

(** The OAuth routes exist only with a public URL. *)
Definition oauth_route (p : string → OAuth Reply) : Prog Reply :=
  match cf_issuer c with Some issuer => finish (p issuer) | None => Ret (Failed (api_error 404 "not_found")) end.
Definition api_route (p : Api Reply) : Prog Reply := finish (api p).
(** A request of the client at an address. *)
Definition handle (client : string) (h : Headers) (r : Request) : Prog Reply :=
  match r with
  | RegisterMailbox body => api_route (register client h body)
  | Forget address => api_route (forget client h address)
  | PutSnapshot address body => api_route (publish_snapshot client h address body)
  | PostKeys address body => api_route (snapshot_keys client h address body)
  | GetVersion address => api_route (version client h address)
  | PostToken address body => api_route (mint client h address body)
  | GetTokens address => api_route (list_tokens client h address)
  | DeleteToken address id => api_route (revoke client h address id)
  | PostCode address body => api_route (post_connect_code client h address body)
  | GetReports address query => api_route (get_reports client h address query)
  | PostAck address body => api_route (post_ack client h address body)
  | GetGuide address query => api_route (guide client h address query)
  | GetFacts address query => api_route (facts client h address query)
  | PostCheck address body => api_route (check_handler client h address body)
  | PostReport address body => api_route (report client h address body)
  | CallTool name arguments => finish (mcp client h name arguments)
  | OAuthRegister body => oauth_route (λ _, oauth_register client body)
  | Authorize query => oauth_route (λ issuer, authorize issuer client query)
  | Consent body => oauth_route (λ issuer, consent issuer client h body)
  | Token body => oauth_route (λ issuer, token issuer h body)
  end.
End handlers.
