(* ===== verification/RulesWorld.v ===== *)
(** * RulesWorld: requests to the rules server, interleaved

    Any number of requests in progress: at each step one performs its next
    operation, is answered, is started, or is dropped by its client.  What
    a request may do given what it has done is a predicate on its program
    ([wp]), for every answer its operations can have: what holds of each
    handler alone then holds of every request in every reachable world. *)

From S2P Require Import Prelude.
From S2P Require Import Domain.
From S2P Require Import Text.
From S2P Require Import Guide.
From S2P Require Import MailStore.
From S2P Require Import RateLimit.
From S2P Require Import RulesTokens.
From S2P Require Import RulesLimit.
From S2P Require Import RulesDb.
From S2P Require Import RulesCrypto.
From S2P Require Import RulesOAuth.
From S2P Require Import RulesPublish.
From S2P Require Import RulesServer.
From S2P Require Import RulesHandlers.
From S2P Require Import Effects.

#[local] Close Scope Q_scope.

(** ** Worlds *)

(** A request in progress: its client and headers, what it has done, newest
    first, and what is left. *)
Record InProgress := mkInProgress {
  ip_client : string; ip_headers : Headers; ip_request : Request; ip_done : list Done; ip_left : Prog Reply }.
(** [wd_log] is what was done to the server, newest first, and by which
    request. *)
Record World := mkWorld {
  wd_server : Server; wd_instant : Q; wd_started : nat; wd_running : gmap nat InProgress; wd_log : list (nat * Done) }.
Definition new_world (d : RulesDb) : World := mkWorld (new_server d) 0%Q 0 ∅ [].

Section world.
Context `{Crypto} `{RulesText} `{Web} (c : Config).

Definition went_on (r : nat) (ip : InProgress) (o : Op) (a : answer o) (left : Prog Reply) (s : Server) (instant : Q)
    (w : World) : World :=
  mkWorld s instant (wd_started w)
    (<[r := mkInProgress (ip_client ip) (ip_headers ip) (ip_request ip) (Did o a :: ip_done ip) left]> (wd_running w))
    ((r, Did o a) :: wd_log w).
(** The clock may stand anywhere; instants never go back. *)
Inductive step : World → World → Prop :=
| step_start w client h r :
    step w (mkWorld (wd_server w) (wd_instant w) (S (wd_started w))
              (<[wd_started w := mkInProgress client h r [] (handle c client h r)]> (wd_running w)) (wd_log w))
| step_op w r ip o k clock instant s a :
    wd_running w !! r = Some ip → ip_left ip = Vis o k → (wd_instant w <= instant)%Q →
    perform_op c clock instant o (wd_server w) = Some (s, a) → step w (went_on r ip o a (k a) s instant w)
| step_draw w r ip o k a :
    wd_running w !! r = Some ip → ip_left ip = Vis o k →
    perform_op c 0%Z 0%Q o (wd_server w) = None → drawn o a → step w (went_on r ip o a (k a) (wd_server w) (wd_instant w) w)
| step_gone w r : (** answered, or dropped by its client *)
    step w (mkWorld (wd_server w) (wd_instant w) (wd_started w) (delete r (wd_running w)) (wd_log w))
| step_sweep w clock : (** [sweep_reports_hourly] *)
    step w (mkWorld (with_db (sweep_reports clock (sv_db (wd_server w))).1 (wd_server w)) (wd_instant w) (wd_started w)
              (wd_running w) (wd_log w)).
Definition reachable (w : World) : Prop := rtc step (new_world empty_db) w.

(** ** From handlers to worlds *)

(** What every handler may do. *)
Definition allowed (P : string → Headers → Request → list Done → Op → Prop) : Prop :=
  ∀ client h r, wp drawn (P client h r) [] (handle c client h r) (λ _ _, True).
(** Every operation a request did was allowed, and so is what is left. *)
Definition keeps (P : string → Headers → Request → list Done → Op → Prop) (ip : InProgress) : Prop :=
  let P := P (ip_client ip) (ip_headers ip) (ip_request ip) in
  all_allowed drawn P (ip_done ip) ∧ wp drawn P (ip_done ip) (ip_left ip) (λ _ _, True).

Lemma drawn_performed clock instant o s s' a : perform_op c clock instant o s = Some (s', a) → drawn o a.
Proof. destruct o; done. Qed.
Lemma step_keeps P w w' : allowed P → map_Forall (λ _, keeps P) (wd_running w) → step w w' →
  map_Forall (λ _, keeps P) (wd_running w').
Proof.
  intros HP Hw Hs. destruct Hs as [w client h r|w r ip o k clock instant s a Hr Hl _ Ho|w r ip o k a Hr Hl Ho Ha|w r|w clock]; cbn.
  - apply map_Forall_insert_2; [|done]. split; [done|]. apply HP.
  - apply map_Forall_insert_2; [|done]. destruct (Hw _ _ Hr) as [Hd Hp]. rewrite Hl in Hp. destruct Hp as [Hpo Hp].
    pose proof (drawn_performed _ _ _ _ _ _ Ho). split; cbn; [done|by apply Hp].
  - apply map_Forall_insert_2; [|done]. destruct (Hw _ _ Hr) as [Hd Hp]. rewrite Hl in Hp. destruct Hp as [Hpo Hp].
    split; cbn; [done|by apply Hp].
  - by apply map_Forall_delete.
  - done.
Qed.
Lemma reachable_keeps P w : allowed P → reachable w → map_Forall (λ _, keeps P) (wd_running w).
Proof.
  intros HP. apply (rtc_ind_r (λ w, map_Forall (λ _, keeps P) (wd_running w))).
  - apply map_Forall_empty.
  - intros w1 w2 _ Hs IH. by eapply step_keeps.
Qed.
End world.

(** ** Answers are from the database at the time *)

Section truth.
Context `{Crypto} `{RulesText} `{Web} (c : Config).

Definition truthful (w : World) (d : Done) : Prop :=
  match dn_op d as o return answer o → Prop with
  | Run t => λ a, ∃ w0 clock, reachable c w0 ∧ rtc (step c) w0 w ∧ a = (run_tx c clock t (sv_db (wd_server w0))).2
  | _ => λ _, True
  end (dn_answer d).
Lemma truthful_later w w' d : step c w w' → truthful w d → truthful w' d.
Proof.
  intros Hs. destruct d as [o a]. destruct o; try done. unfold truthful. cbn. intros (w0 & clock & Hr & Hw & Ha).
  exists w0, clock. split_and!; [done| |done]. eapply rtc_r; [exact Hw|exact Hs].
Qed.
Lemma truthful_op w r ip o k clock instant s a w' : reachable c w → perform_op c clock instant o (wd_server w) = Some (s, a) →
  step c w w' → wd_running w !! r = Some ip → ip_left ip = Vis o k → truthful w' (Did o a).
Proof.
  intros Hw Ho Hs _ _. destruct o; try done. unfold truthful. cbn in *.
  destruct (run_tx _ _ _ _) as [d res] eqn:E. injection Ho as <- <-. exists w, clock. rewrite E. split_and!; [done| |done].
  by apply rtc_once.
Qed.
Lemma reachable_truthful w : reachable c w →
  map_Forall (λ _ ip, Forall (truthful w) (ip_done ip)) (wd_running w) ∧ Forall (λ rd, truthful w rd.2) (wd_log w).
Proof.
  apply (rtc_ind_r (λ w, map_Forall (λ _ ip, Forall (truthful w) (ip_done ip)) (wd_running w) ∧
    Forall (λ rd, truthful w rd.2) (wd_log w))); [split; [apply map_Forall_empty|constructor]|].
  clear w. intros w w' Hw Hs [IH IHlog].
  assert (map_Forall (λ _ ip, Forall (truthful w') (ip_done ip)) (wd_running w)) as IH'.
  { intros i ip Hi. eapply Forall_impl; [exact (IH i ip Hi)|]. intros d. by apply truthful_later. }
  assert (Forall (λ rd, truthful w' rd.2) (wd_log w)) as IHlog'.
  { eapply Forall_impl; [exact IHlog|]. intros d. by apply truthful_later. }
  destruct Hs as [w client h r|w r ip o k clock instant s a Hr Hl Hi Ho|w r ip o k a Hr Hl Ho Ha|w r|w clock]; cbn in *.
  - split; [|done]. by apply map_Forall_insert_2.
  - assert (truthful (went_on r ip o a (k a) s instant w) (Did o a)) as Ht.
    { eapply truthful_op; [done|exact Ho| |exact Hr|exact Hl]. by eapply step_op. }
    split; [|by constructor]. apply map_Forall_insert_2; [|done]. constructor; [done|]. exact (IH' _ _ Hr).
  - assert (truthful (went_on r ip o a (k a) (wd_server w) (wd_instant w) w) (Did o a)) as Ht.
    { destruct o; try done. cbn in Ho. by destruct (run_tx _ _ _ _). }
    split; [|by constructor]. apply map_Forall_insert_2; [|done]. constructor; [done|]. exact (IH' _ _ Hr).
  - split; [|done]. by apply map_Forall_delete.
  - done.
Qed.
(** What a request was answered, the database answered then. *)
Lemma answered_then w r ip t a : reachable c w → wd_running w !! r = Some ip → Did (Run t) a ∈ ip_done ip →
  ∃ w0 clock, reachable c w0 ∧ rtc (step c) w0 w ∧ a = (run_tx c clock t (sv_db (wd_server w0))).2.
Proof.
  intros Hw Hr Hin. destruct (reachable_truthful w Hw) as [Hf _]. specialize (Hf _ _ Hr). rewrite Forall_forall in Hf.
  exact (Hf _ Hin).
Qed.
Lemma done_past ip newer d past d' : ip_done ip = newer ++ d :: past → d' ∈ past → d' ∈ ip_done ip.
Proof. intros -> Hd. apply elem_of_app. right. by right. Qed.
Lemma done_allowed P w r ip newer o a past : allowed c P → reachable c w → wd_running w !! r = Some ip →
  ip_done ip = newer ++ Did o a :: past → P (ip_client ip) (ip_headers ip) (ip_request ip) past o.
Proof.
  intros HP Hw Hr Hd. destruct (reachable_keeps c P w HP Hw r ip Hr) as [Ha _]. rewrite Hd in Ha. by apply all_allowed_at in Ha.
Qed.
End truth.

(** * What a request to the rules server may do

    Every operation of every handler has what it needs behind it: a
    publisher's token checked for the mailbox it changes, an agent's
    sign-in for what it reads and files, a consent page of its own and a
    try from the client's allowance for a connect code. *)

#[local] Close Scope Q_scope.

#[local] Abbreviation twp_bind := (@Effects.twp_bind _ answer drawn _ _ _).
#[local] Abbreviation twp_op := (@Effects.twp_op _ answer drawn _).

(** The mailbox a publisher's request names. *)
Definition path_of (r : Request) : option string :=
  match r with
  | Forget a | PutSnapshot a _ | PostKeys a _ | GetVersion a | PostToken a _ | GetTokens a | DeleteToken a _
  | PostCode a _ | GetReports a _ | PostAck a _ => Some a
  | _ => None
  end.
(** The mailbox a closure reads or changes on behalf of its publisher. *)
Definition publisher_call (t : Tx) : option Z :=
  match t with
  | ForgetMailbox m | PublishSnapshot _ m _ _ _ _ | StoreKeys m _ _ | ReadVersions m | ListAgents m | RevokeAgent m _
  | ListReports m _ _ _ | AckReports m _ => Some m
  | MintAgent _ row _ => Some (ag_mailbox_id row)
  | MintCode row _ => Some (cc_mailbox_id row)
  | _ => None
  end.
(** The agent and mailbox a closure acts for. *)
Definition agent_call (t : Tx) : option (string * Z) :=
  match t with
  | OpenSnapshot m id _ _ | OpenAgentKey _ id m _ => Some (id, m)
  | FileReport row _ => Some (rp_agent_id row, rp_mailbox_id row)
  | _ => None
  end.

Section rights.
Context `{Crypto} `{RulesText} `{Web} (c : Config).
#[local] Abbreviation hash := (RulesTokens.hash sha_256).

(** The mailbox was found with the token's hash. *)
Definition publisher_of (h : Headers) (r : Request) (past : list Done) (mailbox : Z) : Prop :=
  ∃ path address token row,
    path_of r = Some path ∧ normalize_address path = Some address ∧ bearer (hd_authorization h) = Some token ∧
    Did (Run (FindMailbox address)) (Ok (Some row)) ∈ past ∧ mb_publisher_token_hash row = hash token ∧ mb_id row = mailbox.
(** The agent was found, live, with the token or by an access token. *)
Definition signed_in (h : Headers) (past : list Done) (id : string) (mailbox : Z) : Prop :=
  ∃ token address, bearer (hd_authorization h) = Some token ∧
    ((∃ row, agent_token_id token = Some id ∧ Did (Run (FindAgent id)) (Ok (Some (row, address))) ∈ past ∧
        token_live row (hash token) = true ∧ ag_mailbox_id row = mailbox) ∨
     (∃ t g now issuer, cf_issuer c = Some issuer ∧ Did Now now ∈ past ∧
        Did (Run (FindAccess (hash token))) (Ok (Some (t, (g, address)))) ∈ past ∧
        access_live t g (resource_of issuer) now = true ∧ ag_id g = id ∧ ag_mailbox_id g = mailbox)).
Definition is_redeem (o : Op) : bool := match o with Run (Redeem _ _ _ _) => true | _ => false end.
(** A page of its own, one try of the client's, and no code tried before. *)
Definition may_redeem (client : string) (h : Headers) (past : list Done) (row : AuthCodeRow) : Prop :=
  (∃ request p issuer, cf_issuer c = Some issuer ∧ Did (TakePending request) (Some p) ∈ past ∧
     from_own_page issuer h request p = true ∧
     ac_client_id row = pp_client_id p ∧ ac_redirect_uri row = pp_redirect_uri p ∧ ac_code_challenge row = pp_challenge p) ∧
  ac_used_at row = None ∧
  Did (Take CodeChecks ("codes:" +:+ client)) (Ok ()) ∈ past ∧ (∀ o a, Did o a ∈ past → is_redeem o = false).
(** A page is one just made for a registered return address, or one that
    was taken, put back. *)
Definition may_put (past : list Done) (request : string) (p : Pending) : Prop :=
  (∃ id cl, Did (Run (FindClient id)) (Ok (Some cl)) ∈ past ∧ pp_client_id p = cl_id cl ∧ pp_tries p = 0%Z ∧ List.existsb (λ r, redirect_matches r (pp_redirect_uri p)) (cl_redirect_uris cl) = true ∧
     valid_challenge (pp_challenge p) = true) ∨
  (∃ p0, Did (TakePending request) (Some p0) ∈ past ∧ (p = p0 ∨ p = one_more_try p0 ∧ (pp_tries p < TRIES_PER_CONSENT)%Z)).
(** A push's row is sealed whole, or not at all. *)
Definition push_ok (row : SnapshotRow) (sealed : option SealedPush) : Prop :=
  match sealed with
  | Some _ => is_Some (sn_sealed row) ∧ is_Some (sn_key_id row)
  | None => sn_sealed row = None ∧ sn_key_id row = None
  end.

Definition may_run (client : string) (h : Headers) (r : Request) (past : list Done) (t : Tx) : Prop :=
  (∀ m, publisher_call t = Some m → publisher_of h r past m) ∧
  (∀ id m, agent_call t = Some (id, m) → signed_in h past id m) ∧
  match t with
  | PublishSnapshot _ _ _ row sealed _ => push_ok row sealed ∧ (1 ≤ sn_version row)%Z
  | MintAgent dice row secret =>
      well_drawn dice ∧ ag_revoked_at row = None ∧ ag_kind row = KIND_TOKEN ∧ ag_client_id row = None ∧ ag_token_hash row = hash secret
  | MintCode row now => cc_used_at row = None ∧ cc_expires_at row = (now + CONNECT_CODE_TTL_MS)%Z
  | Redeem _ _ row now => may_redeem client h past row ∧ ac_expires_at row = (now + AUTH_CODE_TTL_MS)%Z
  | ExchangeCode _ _ _ client_id _ _ dice _ => well_drawn (is_key dice) ∧ ∃ cl, Did (Run (FindClient client_id)) (Ok (Some cl)) ∈ past
  | ExchangeRefresh _ client_id _ _ dice nonce _ =>
      well_drawn (is_key dice) ∧ String.length nonce = NONCE_LEN ∧ ∃ cl, Did (Run (FindClient client_id)) (Ok (Some cl)) ∈ past
  | OpenAgentKey dice _ _ _ => well_drawn dice
  | _ => True
  end.
Definition may (client : string) (h : Headers) (r : Request) (past : list Done) (o : Op) : Prop :=
  match o with
  | Run t => may_run client h r past t
  | PutPending request p => may_put past request p
  | _ => True
  end.

(** ** Handler by handler *)

Section one.
Context (client : string) (h : Headers) (r : Request).
#[local] Abbreviation can := (twp drawn (may client h r)).

(** A closure that acts for nobody. *)
Definition open_call (t : Tx) : bool :=
  match t with
  | FindMailbox _ | AddMailbox _ _ | ReadAppKey _ | FindAccess _ | FindAgent _ | TouchAgent _ | FindClient _ | AddClient _ => true
  | _ => false
  end.
Lemma may_open past t : open_call t = true → may_run client h r past t.
Proof. intros Ht. destruct t; try discriminate Ht; by split_and!. Qed.
Lemma can_db past t Q : may_run client h r past t →
  (∀ a, Q (Did (Run t) (Ok a) :: past) a) → can past (db t) Q.
Proof.
  intros Ht HQ. apply twp_bind, twp_op; [done|]. intros [a|e] _; apply twp_ask; [|done]. intros a' [= <-]. apply HQ.
Qed.
Lemma can_take past l key Q : Q (Did (Take l key) (Ok ()) :: past) () → can past (take_from l key) Q.
Proof. intros HQ. apply twp_bind, twp_op; [done|]. intros [[]|e] _; by apply twp_ask; intros [] ?. Qed.
Lemma can_secret {E} past Q : (∀ b s, Q (Did (Draw 32) b :: past) s) → twp drawn (E:=E) (may client h r) past draw_secret Q.
Proof. intros HQ. apply twp_bind, twp_op; [done|]. intros b _. apply twp_ret, HQ. Qed.
Lemma can_id {E} past Q : (∀ b s, Q (Did (Draw 8) b :: past) s) → twp drawn (E:=E) (may client h r) past draw_id Q.
Proof. intros HQ. apply twp_bind, twp_op; [done|]. intros b _. apply twp_ret, HQ. Qed.

(** A check and its failures counted: what holds where it passes. *)
Lemma can_limited {A} past (check : Try ApiError A) (Q : list Done → A → Prop) :
  (∀ a, can (Did (Peek FailedAuth ("failed:" +:+ client)) a :: past) check Q) → can past (limit_failed_auth client check) Q.
Proof.
  intros Hc. apply twp_bind, twp_op; [done|]. intros a _. apply twp_bind, twp_ask. intros [] _.
  apply wp_bind. eapply wp_mono; [|apply Hc]. intros past' [x|e] HQ; cbn; [done|]. by case_match.
Qed.
Lemma publisher_ok past address Q : path_of r = Some address →
  (∀ past' row, publisher_of h r past' (mb_id row) → Q past' row) → can past (publisher client h address) Q.
Proof.
  intros Hr HQ. apply twp_bind, twp_or_fail. intros a Ha. apply twp_bind, twp_or_fail. intros token Ht.
  apply twp_bind, can_limited. intros x. apply twp_bind, can_db; [by apply may_open|]. intros [row|]; [|done].
  destruct (same _ _) eqn:Es; [|done]. apply twp_ret. apply twp_bind, can_take, twp_ret, HQ.
  apply same_spec in Es. exists address, a, token, row. split_and!; try done. set_solver.
Qed.
Lemma publisher_later past past' m : publisher_of h r past m → past ⊆ past' → publisher_of h r past' m.
Proof. intros (path & a & token & row & E1 & E2 & E3 & E4 & E5) Hsub. exists path, a, token, row. split_and!; try done; [by apply Hsub|apply E5|apply E5]. Qed.
Lemma may_publisher past t m : publisher_call t = Some m → publisher_of h r past m → may_run client h r past t ↔
  match t with
  | PublishSnapshot _ _ _ row sealed _ => push_ok row sealed ∧ (1 ≤ sn_version row)%Z
  | MintAgent dice row secret =>
      well_drawn dice ∧ ag_revoked_at row = None ∧ ag_kind row = KIND_TOKEN ∧ ag_client_id row = None ∧ ag_token_hash row = hash secret
  | MintCode row now => cc_used_at row = None ∧ cc_expires_at row = (now + CONNECT_CODE_TTL_MS)%Z
  | _ => True
  end.
Proof.
  intros Ht Hp. unfold may_run. rewrite Ht. split; [intros (_ & _ & Hrest); by destruct t|].
  intros Hrest. split_and!; [by intros m' [= <-]|by destruct t|by destruct t].
Qed.

Lemma signed_in_later past past' id m : signed_in h past id m → past ⊆ past' → signed_in h past' id m.
Proof.
  intros (token & address & Et & [(row & E1 & E2 & E3)|(t & g & now & issuer & E1 & E2 & E3 & E4)]) Hsub.
  - exists token, address. split; [done|]. left. exists row. split_and!; try done; [by apply Hsub|apply E3|apply E3].
  - exists token, address. split; [done|]. right. exists t, g, now, issuer.
    split_and!; try done; [by apply Hsub..|apply E4|apply E4|apply E4].
Qed.
Lemma identify_ok past token oauth_ok (Q : list Done → string * Z * string * option string → Prop) :
  bearer (hd_authorization h) = Some token →
  (∀ past' id m address secret, signed_in h past' id m → past ⊆ past' → Q past' (id, m, address, secret)) →
  can past (identify c token oauth_ok) Q.
Proof.
  intros Ht HQ. unfold identify. case_match.
  - apply twp_bind, twp_or_fail. intros resource Hr. destruct oauth_ok; [|done].
    destruct (cf_issuer c) as [issuer|] eqn:Ei; [|done]. injection Hr as <-.
    apply twp_bind, twp_op; [done|]. intros now _. apply twp_bind, can_db; [by apply may_open|]. intros found.
    apply twp_bind, twp_or_fail. intros [t [g address]] ->. apply twp_bind, twp_check. intros Hl.
    apply twp_ret, HQ; [|set_solver]. exists token, address. split; [done|]. right. exists t, g, now, issuer.
    split_and!; try done; set_solver.
  - apply twp_bind, twp_or_fail. intros id Hid. apply twp_bind, can_db; [by apply may_open|]. intros found.
    apply twp_bind, twp_or_fail. intros [row address] ->. apply twp_bind, twp_check. intros Hl.
    apply twp_ret, HQ; [|set_solver]. exists token, address. split; [done|]. left. exists row. split_and!; try done. set_solver.
Qed.
Lemma may_agent past t id m : agent_call t = Some (id, m) → signed_in h past id m →
  match t with OpenAgentKey dice _ _ _ => well_drawn dice | _ => True end → may_run client h r past t.
Proof. intros Ht Hs Hd. split_and!; [by destruct t|by intros id' m'; rewrite Ht; intros [= <- <-]|by destruct t]. Qed.
Lemma agent_auth_ok past oauth_ok Q :
  (∀ past' auth, signed_in h past' (aa_id auth) (aa_mailbox auth) → Q past' auth) →
  can past (agent_auth c client h oauth_ok) Q.
Proof.
  intros HQ. apply can_limited. intros x. apply twp_bind, twp_or_fail. intros token Ht.
  apply twp_bind, identify_ok; [done|]. intros past1 id m address secret Hs _.
  apply twp_bind, can_take. apply twp_bind, twp_op; [by apply may_open|]. intros a _. apply twp_bind.
  destruct secret as [secret|].
  - apply twp_bind, twp_op; [done|]. intros dice Hdice. apply can_db.
    { eapply may_agent; [done| |done]. eapply signed_in_later; [exact Hs|set_solver]. }
    intros key. apply twp_ret, HQ. eapply signed_in_later; [exact Hs|set_solver].
  - apply twp_ret, twp_ret, HQ. eapply signed_in_later; [exact Hs|set_solver].
Qed.
Lemma agent_in_path_ok past address Q :
  (∀ past' auth, signed_in h past' (aa_id auth) (aa_mailbox auth) → Q past' auth) →
  can past (agent_in_path c client h address) Q.
Proof.
  intros HQ. apply twp_bind, agent_auth_ok. intros past' auth Hs. apply twp_bind, twp_check. intros _. by apply twp_ret, HQ.
Qed.
Lemma snapshot_for_ok past auth Q : signed_in h past (aa_id auth) (aa_mailbox auth) →
  (∀ past' s, signed_in h past' (aa_id auth) (aa_mailbox auth) → Q past' s) → can past (snapshot_for auth) Q.
Proof.
  intros Hs HQ. apply twp_bind, can_db; [by eapply may_agent|]. intros a.
  assert (∀ s, Q (Did (Run (OpenSnapshot (aa_mailbox auth) (aa_id auth) (aa_address auth) (aa_key auth))) (Ok a) :: past) s) as HQ'.
  { intros s. apply HQ. eapply signed_in_later; [exact Hs|set_solver]. }
  destruct (snapshot_json a); [|apply twp_ret, HQ']. apply twp_bind, twp_or_fail. intros s _. apply twp_ret, HQ'.
Qed.
Lemma published_ok past auth Q : signed_in h past (aa_id auth) (aa_mailbox auth) →
  (∀ past' s, Q past' s) → can past (published auth) Q.
Proof.
  intros Hs HQ. apply twp_bind, snapshot_for_ok; [done|]. intros past' s _. apply twp_ask. intros a _. apply HQ.
Qed.
Lemma file_ok past auth a Q : signed_in h past (aa_id auth) (aa_mailbox auth) →
  (∀ past' j, Q past' j) → can past (file c auth a) Q.
Proof.
  intros Hs HQ. apply twp_bind, twp_ask. intros [[id to] at_] _. apply twp_bind, can_db; [by apply may_open|]. intros key.
  apply twp_bind, twp_check. intros _. apply twp_bind, snapshot_for_ok; [eapply signed_in_later; [exact Hs|set_solver]|].
  intros past1 s Hs1. apply twp_bind, twp_op; [done|]. intros now _. apply twp_bind.
  assert (∀ past2 row, signed_in h past2 (aa_id auth) (aa_mailbox auth) → rp_agent_id row = aa_id auth →
    rp_mailbox_id row = aa_mailbox auth → ∀ v b, can past2 (id0 ← db (FileReport row now); mret (queued_answer id0 b v)) Q) as Hfile.
  { intros past2 row Hs2 Ha Hm v b. apply twp_bind, can_db; [|intros; by apply twp_ret, HQ].
    eapply may_agent; [reflexivity| |done]. by rewrite Ha, Hm. }
  destruct (key ≫= _) as [public|].
  - apply twp_bind, twp_op; [done|]. intros dice _. apply twp_bind, twp_or_fail. intros sealed _. apply twp_ret.
    apply Hfile; [|done..]. eapply signed_in_later; [exact Hs1|set_solver].
  - apply twp_ret. apply Hfile; [|done..]. eapply signed_in_later; [exact Hs1|set_solver].
Qed.

(** *** Publishers *)

(** A publisher's closure, where its mailbox was checked. *)
Ltac publisher_call :=
  apply twp_bind, can_db;
  [eapply may_publisher; [reflexivity| |try exact I];
   match goal with Hp : publisher_of _ _ _ _ |- publisher_of _ _ _ _ => eapply publisher_later; [exact Hp|set_solver] end|].
Lemma forget_ok past address : path_of r = Some address → can past (forget client h address) (λ _ _, True).
Proof. intros Hr. apply twp_bind, publisher_ok; [done|]. intros past' m Hp. publisher_call. by intros []. Qed.
Lemma sealed_push_row ephemeral nonce body address row sealed :
  sealed_push ephemeral nonce body address = Some (row, sealed) → is_Some (sn_sealed row) ∧ is_Some (sn_key_id row).
Proof.
  unfold sealed_push. destruct (json_strict body) as [v|]; cbn [mbind option_bind]; [|done].
  destruct (sealed_snapshot v) as [ss|]; cbn [mbind option_bind]; [|done]. case_match; [done|].
  destruct (ok (unb64 _)) as [b|]; cbn [mbind option_bind]; [|done]. case_match; [done|].
  destruct (ok (app_public_key _)) as [k|]; cbn [mbind option_bind]; [|done].
  destruct (ok (seal_for_app _ _ _ _ _)); cbn [mbind option_bind]; [|done].
  destruct (wraps_of _); cbn [mbind option_bind]; [|done]. intros [= <- <-]. by split; eexists.
Qed.
Lemma publish_ok past address body : path_of r = Some address → can past (publish_snapshot c client h address body) (λ _ _, True).
Proof.
  intros Hr. apply twp_bind, publisher_ok; [done|]. intros past' m Hp. apply twp_bind, twp_or_fail. intros expected _.
  assert (∀ past2 row sealed, push_ok row sealed → publisher_of h r past2 (mb_id m) →
    can past2 (_ ← check_that (1 <=? sn_version row)%Z (api_error 422 "invalid_snapshot"); dice ← op DrawReports;
               pushed ← db (PublishSnapshot dice (mb_id m) (mb_address m) row sealed expected); pushed_reply row pushed)
      (λ _ _, True)) as Hpush.
  { intros past2 row sealed Hrow Hp2. apply twp_bind, twp_check. intros Hv%Z.leb_le. apply twp_bind, twp_op; [done|].
    intros dice _. apply twp_bind, can_db.
    - eapply may_publisher; [reflexivity| |done]. eapply publisher_later; [exact Hp2|set_solver].
    - intros []; done. }
  apply twp_bind. unfold pushed_row. case_match eqn:Es.
  - apply twp_bind, twp_op; [done|]. intros dice _. apply twp_bind, twp_or_fail. intros [row sealed] Hsp. apply twp_ret, Hpush.
    + by eapply sealed_push_row.
    + eapply publisher_later; [exact Hp|set_solver].
  - apply twp_bind, twp_check. intros _. apply twp_bind, twp_ask. intros row Hrow. apply twp_ret, Hpush; [|done].
    unfold plain_push in Hrow. destruct (json_of body) as [v|]; cbn in Hrow; [|done].
    destruct (read_snapshot _ _) as [s|]; cbn in Hrow; [|done]. case_match; [done|]. by injection Hrow as <-.
Qed.
Lemma snapshot_keys_ok past address body : path_of r = Some address → can past (snapshot_keys client h address body) (λ _ _, True).
Proof.
  intros Hr. apply twp_bind, publisher_ok; [done|]. intros past' m Hp. apply twp_bind, twp_or_fail. intros [key_id ws] _.
  apply twp_bind, twp_check. intros _. apply twp_bind, twp_or_fail. intros wraps _. publisher_call.
  intros a. by apply twp_bind, twp_or_fail.
Qed.
Lemma version_ok past address : path_of r = Some address → can past (version client h address) (λ _ _, True).
Proof. intros Hr. apply twp_bind, publisher_ok; [done|]. intros past' m Hp. publisher_call. by intros []. Qed.
Lemma named_ok past body (Q : list Done → string → Prop) : (∀ n, Q past n) → can past (named body) Q.
Proof. intros HQ. apply twp_bind, twp_or_fail. intros n _. apply twp_or_fail. intros a _. apply HQ. Qed.
Lemma mint_ok past address body : path_of r = Some address → can past (mint client h address body) (λ _ _, True).
Proof.
  intros Hr. apply twp_bind, publisher_ok; [done|]. intros past' m Hp. apply twp_bind, named_ok. intros n.
  apply twp_bind, can_id. intros b1 id. apply twp_bind, can_secret. intros b2 secret. apply twp_bind, twp_op; [done|].
  intros now _. apply twp_bind, twp_op; [done|]. intros dice Hdice. apply twp_bind, can_db; [|done].
  eapply may_publisher; [reflexivity| |by split_and!]. eapply publisher_later; [exact Hp|set_solver].
Qed.
Lemma list_tokens_ok past address : path_of r = Some address → can past (list_tokens client h address) (λ _ _, True).
Proof. intros Hr. apply twp_bind, publisher_ok; [done|]. intros past' m Hp. publisher_call. by intros [[]]. Qed.
Lemma revoke_ok past address id : path_of r = Some address → can past (revoke client h address id) (λ _ _, True).
Proof.
  intros Hr. apply twp_bind, publisher_ok; [done|]. intros past' m Hp. publisher_call. intros a. by apply twp_bind, twp_check.
Qed.
Lemma connect_code_ok past address body : path_of r = Some address → can past (post_connect_code c client h address body) (λ _ _, True).
Proof.
  intros Hr. apply twp_bind, publisher_ok; [done|]. intros past' m Hp. apply twp_bind, twp_or_fail. intros issuer _.
  apply twp_bind, named_ok. intros n. apply twp_bind, twp_op; [done|]. intros code _. apply twp_bind, twp_op; [done|].
  intros now _. apply twp_bind, can_id. intros b id. apply twp_bind, can_db; [|intros a; by apply twp_bind, twp_check].
  eapply may_publisher; [reflexivity| |by split]. eapply publisher_later; [exact Hp|set_solver].
Qed.
Lemma get_reports_ok past address query : path_of r = Some address → can past (get_reports c client h address query) (λ _ _, True).
Proof.
  intros Hr. apply twp_bind, publisher_ok; [done|]. intros past' m Hp. apply twp_bind, twp_ask. intros [after limit] _.
  apply twp_bind, twp_op; [done|]. intros now _. publisher_call. by intros [? []].
Qed.
Lemma post_ack_ok past address body : path_of r = Some address → can past (post_ack client h address body) (λ _ _, True).
Proof.
  intros Hr. apply twp_bind, publisher_ok; [done|]. intros past' m Hp. apply twp_bind, twp_or_fail. intros up _.
  publisher_call. done.
Qed.
Lemma register_ok past body : can past (register c client h body) (λ _ _, True).
Proof.
  apply twp_bind, can_take. apply twp_bind.
  assert (∀ past2, can past2 (address ← or_fail (api_error 400 "invalid_body") (register_body body);
    address ← or_fail (api_error 422 "invalid_address") (normalize_address address); secret ← draw_secret;
    id ← db (AddMailbox address (hash (publisher_token secret))); _ ← or_fail (api_error 409 "already_registered") id;
    mret (MailboxRegistered address (publisher_token secret))) (λ _ _, True)) as Hrest.
  { intros past2. apply twp_bind, twp_or_fail. intros a _. apply twp_bind, twp_or_fail. intros a' _.
    apply twp_bind, can_secret. intros b s. apply twp_bind, can_db; [by apply may_open|]. intros o. by apply twp_bind, twp_or_fail. }
  destruct (cf_registration_token_hash c); [|apply twp_ret, Hrest]. apply can_limited. intros x.
  destruct (bearer _); [|done]. apply twp_check. intros _. apply Hrest.
Qed.

(** *** Agents *)

Lemma guide_ok past address query : can past (guide c client h address query) (λ _ _, True).
Proof.
  apply twp_bind, agent_in_path_ok. intros past' auth Hs. apply twp_bind, twp_ask. intros a _. apply twp_bind, twp_check.
  intros _. by apply twp_bind, published_ok.
Qed.
Lemma facts_ok past address query : can past (facts c client h address query) (λ _ _, True).
Proof.
  apply twp_bind, agent_in_path_ok. intros past' auth Hs. apply twp_bind, twp_ask. intros a _. by apply twp_bind, published_ok.
Qed.
Lemma check_ok past address body : can past (check_handler c client h address body) (λ _ _, True).
Proof.
  apply twp_bind, agent_in_path_ok. intros past' auth Hs. apply twp_bind, twp_or_fail. intros a _. apply twp_bind, twp_ask.
  intros u _. by apply twp_bind, published_ok.
Qed.
Lemma report_handler_ok past address body : can past (report c client h address body) (λ _ _, True).
Proof.
  apply twp_bind, agent_in_path_ok. intros past' auth Hs. apply twp_bind, twp_or_fail. intros a _. by apply twp_bind, file_ok.
Qed.
Lemma mcp_ok past name arguments : can past (mcp c client h name arguments) (λ _ _, True).
Proof.
  apply twp_bind, twp_map_fail, agent_auth_ok. intros past' auth Hs. unfold call_tool. case_match; [done|]. case_match.
  - apply twp_bind, twp_or_fail. intros a _. by apply twp_bind, twp_map_fail, file_ok.
  - apply twp_bind, twp_or_fail. intros call _. apply twp_bind, twp_map_fail, snapshot_for_ok; [done|].
    intros past2 s _. by apply twp_bind, twp_ask.
Qed.

(** *** OAuth *)

Lemma page_params_ok past raw (Q : list Done → gmap string string → Prop) : (∀ m, Q past m) → can past (page_params raw) Q.
Proof. intros HQ. apply twp_ask. intros m _. apply HQ. Qed.
Lemma oauth_register_ok past body : can past (oauth_register client body) (λ _ _, True).
Proof.
  apply twp_bind, twp_map_fail, can_take. apply twp_bind, twp_map_fail, can_take. apply twp_bind, twp_ask. intros [name uris] _.
  apply twp_bind, can_id. intros b1 i1. apply twp_bind, can_id. intros b2 i2. apply twp_bind, twp_op; [done|]. intros now _.
  apply twp_bind, twp_map_fail, can_db; [by apply may_open|]. done.
Qed.
(** What is drawn and read leaves the rest of what was done. *)
Lemma chosen_redirect_ok past cl given (Q : list Done → string → Prop) :
  (∀ uri, List.existsb (λ r, redirect_matches r uri) (cl_redirect_uris cl) = true → Q past uri) →
  can past (chosen_redirect cl given) Q.
Proof.
  intros HQ. unfold chosen_redirect. destruct given as [g|].
  - destruct (List.existsb _ _) eqn:E; [by apply HQ|done].
  - destruct (cl_redirect_uris cl) as [|only [|? ?]] eqn:E; [done| |done]. apply HQ. cbn.
    unfold redirect_matches. by rewrite String.eqb_refl.
Qed.
Lemma challenge_ok past q (Q : list Done → string → Prop) :
  (∀ ch, valid_challenge ch = true → Q past ch) → can past (challenge_of q) Q.
Proof.
  intros HQ. unfold challenge_of. destruct (q !! "code_challenge") as [ch|]; [|done]. case_bool_decide; [|done].
  destruct (valid_challenge ch) eqn:E; [by apply HQ|done].
Qed.
Lemma authorize_ok past issuer query : can past (authorize issuer client query) (λ _ _, True).
Proof.
  apply twp_bind, twp_op; [done|]. intros r1 _. apply twp_bind, twp_check. intros _. apply twp_bind, twp_op; [done|].
  intros r2 _. apply twp_bind, twp_check. intros _. apply twp_bind, page_params_ok. intros q.
  apply twp_bind, twp_or_fail. intros client_id _. apply twp_bind, twp_map_fail, can_db; [by apply may_open|]. intros found.
  apply twp_bind, twp_or_fail. intros cl ->. apply twp_bind, chosen_redirect_ok. intros uri Huri.
  apply twp_bind. case_match; [|done]. apply twp_ret, twp_bind, challenge_ok. intros ch Hch. apply twp_bind.
  case_match; [|done]. apply twp_ret. apply twp_bind, twp_op; [done|]. intros now _. apply twp_bind, twp_op; [done|].
  intros l _. apply twp_bind, twp_check. intros _. apply twp_bind, can_secret. intros b1 request.
  apply twp_bind, can_secret. intros b2 csrf. apply twp_bind, twp_op; [|intros put _; by apply twp_bind, twp_check].
  left. exists client_id, cl. split_and!; try done. set_solver.
Qed.

(** Nothing redeemed so far. *)
Definition none_redeemed (past : list Done) : Prop := ∀ o a, Did o a ∈ past → is_redeem o = false.
Lemma none_redeemed_cons past o a : is_redeem o = false → none_redeemed past → none_redeemed (Did o a :: past).
Proof. intros Ho Hp o' a' [E|Hin]%elem_of_cons; [|by eapply Hp]. apply (f_equal dn_op) in E. cbn in E. by subst. Qed.
Lemma redeem_typed_ok past issuer typed p now (Q : list Done → option string → Prop) :
  cf_issuer c = Some issuer → none_redeemed past →
  (∃ request, Did (TakePending request) (Some p) ∈ past ∧ from_own_page issuer h request p = true) →
  Did (Take CodeChecks ("codes:" +:+ client)) (Ok ()) ∈ past →
  (∀ past' a, past ⊆ past' → Q past' a) → can past (redeem_typed issuer typed p now) Q.
Proof.
  intros Hi Hn (request & Hp & Hown) Ht HQ. unfold redeem_typed. destruct (normalize_connect_code typed); [|by apply twp_ret, HQ].
  apply twp_bind, can_secret. intros b1 auth. apply twp_bind, can_id. intros b2 grant.
  apply twp_bind, twp_map_fail, can_db; [|intros a; apply twp_ret, HQ; set_solver].
  split_and!; [done|done| |done]. split_and!; [|done| |].
  - exists request, p, issuer. split_and!; try done. set_solver.
  - set_solver.
  - by apply none_redeemed_cons, none_redeemed_cons.
Qed.
Lemma consent_ok issuer body : cf_issuer c = Some issuer → can [] (consent issuer client h body) (λ _ _, True).
Proof.
  intros Hi. apply twp_bind, page_params_ok. intros form. apply twp_bind, twp_op; [done|]. intros found _.
  apply twp_bind, twp_or_fail. intros p ->. apply twp_bind, twp_check. intros Hown. apply twp_bind, twp_op; [done|].
  intros now _. apply twp_bind, twp_check. intros _. apply twp_bind, twp_check. intros _. apply twp_bind, twp_op; [done|].
  intros l _. apply twp_bind, twp_check. intros _. apply twp_bind, twp_bind, twp_op; [done|]. intros r1 _.
  assert (∀ past2 message, Did (TakePending (default "" (form !! "request"))) (Some p) ∈ past2 →
can past2 (page_again (default "" (form !! "request")) p message) (λ _ _, True)) as Hback.
  { intros past2 message Hin. apply twp_bind, twp_op; [|done]. right. exists p. by split; [|left]. }
  destruct r1 as [[]|w]; [|apply twp_ret, Hback; set_solver].
  apply twp_bind, twp_op; [done|]. intros r2 _. apply twp_ret. destruct r2 as [[]|w]; [|apply Hback; set_solver].
  apply twp_bind, redeem_typed_ok; [done| | |set_solver|].
  - repeat (apply none_redeemed_cons; [done|]). intros o a Hin. by apply elem_of_nil in Hin.
  - eexists. split; [|exact Hown]. set_solver.
  - intros past3 [code|] Hsub; [done|]. apply twp_bind, twp_op; [done|]. intros x1 _. apply twp_bind, twp_op; [done|].
    intros locked _. case_match eqn:El; [done|]. apply twp_bind, twp_op; [|done]. right. exists p. split; [set_solver|].
    right. split; [done|]. apply orb_false_iff in El as [_ El]. by apply Z.leb_gt in El.
Qed.
Lemma token_ok past issuer body : can past (token issuer h body) (λ _ _, True).
Proof.
  apply twp_bind, twp_ask. intros form _. apply twp_bind, twp_or_fail. intros client_id _.
  apply twp_bind, twp_map_fail, can_take. apply twp_bind, twp_map_fail, can_db; [by apply may_open|]. intros found.
  apply twp_bind, twp_or_fail. intros cl ->. apply twp_bind, twp_check. intros _. apply twp_bind, twp_op; [done|]. intros now _.
  assert (∀ past2 (f : IssueDice * string → Try Reply Reply),
    (∀ past3 dice secret, past2 ⊆ past3 → well_drawn (is_key dice) → can past3 (f (dice, secret)) (λ _ _, True)) →
    can past2 (x ← draw_issue; f x) (λ _ _, True)) as Hdraw.
  { intros past2 f Hf. apply twp_bind, twp_bind, can_secret. intros b1 s1. apply twp_bind, can_secret. intros b2 s2.
    apply twp_bind, can_secret. intros b3 s3. apply twp_bind, twp_op; [done|]. intros key Hkey. apply twp_ret, Hf; [set_solver|done]. }
  assert (∀ past2 e, can past2 (exchanged e) (λ _ _, True)) as Hex by (by intros past2 []).
  destruct (form !! "grant_type") as [grant|]; [|done]. case_match; [|case_match; [|done]].
  - apply twp_bind, twp_or_fail. intros [code verifier] _. apply Hdraw. intros past3 dice secret Hsub Hd.
    apply twp_bind, twp_map_fail, can_db; [|intros; apply Hex]. split_and!; [done..|]. exists cl. apply Hsub. set_solver.
  - apply twp_bind, twp_or_fail. intros refresh _. apply Hdraw. intros past3 dice secret Hsub Hd.
    apply twp_bind, twp_op; [done|]. intros nonce Hn. apply twp_bind, twp_map_fail, can_db; [|intros; apply Hex].
    split_and!; [done..|]. exists cl. apply elem_of_cons. right. apply Hsub. set_solver.
Qed.
End one.

Lemma handlers_may : allowed c may.
Proof.
  intros client h r. unfold handle.
  assert (∀ p : Try ApiError Reply, twp drawn (may client h r) [] p (λ _ _, True) →
    wp drawn (may client h r) [] (api_route p) (λ _ _, True)) as Hapi by (intros p Hp; by apply wp_finish, twp_map_fail).
  assert (∀ f, (∀ issuer, cf_issuer c = Some issuer → twp drawn (may client h r) [] (f issuer) (λ _ _, True)) →
    wp drawn (may client h r) [] (oauth_route c f) (λ _ _, True)) as Hoauth.
  { intros f Hf. unfold oauth_route. destruct (cf_issuer c); [|done]. by apply wp_finish, Hf. }
  destruct r; first [apply Hapi|apply Hoauth; intros issuer Hi|apply wp_finish].
  - apply register_ok.
  - by apply forget_ok.
  - by apply publish_ok.
  - by apply snapshot_keys_ok.
  - by apply version_ok.
  - by apply mint_ok.
  - by apply list_tokens_ok.
  - by apply revoke_ok.
  - by apply connect_code_ok.
  - by apply get_reports_ok.
  - by apply post_ack_ok.
  - by apply guide_ok.
  - by apply facts_ok.
  - by apply check_ok.
  - by apply report_handler_ok.
  - by apply mcp_ok.
  - by apply oauth_register_ok.
  - by apply authorize_ok.
  - by apply consent_ok.
  - by apply token_ok.
Qed.
End rights.

(** ** Every call is authorised *)

Section authorised.
Context `{Crypto} `{RulesText} `{Web} (c : Config).
#[local] Abbreviation hash := (RulesTokens.hash sha_256).

(** C15. Publishers change their own mailbox only.  However requests
    interleave, whenever one reads or changes a mailbox for a publisher (a
    push, keys, an agent minted, listed or revoked, a connect code, reports,
    or forgetting it all), the token it was sent with had, earlier in that
    request, been found to be the one whose hash is stored with the mailbox
    the request names, under the very id it acts on. *)
Theorem publishers_authorised w r ip newer t a past mailbox (Hw : reachable c w) (Hr : wd_running w !! r = Some ip)
    (Hdone : ip_done ip = newer ++ Did (Run t) a :: past) (Ht : publisher_call t = Some mailbox) :
  ∃ path address token, path_of (ip_request ip) = Some path ∧ normalize_address path = Some address ∧
    bearer (hd_authorization (ip_headers ip)) = Some token ∧
    ∃ w0 row, reachable c w0 ∧ rtc (step c) w0 w ∧ mailbox_by_address address (sv_db (wd_server w0)) = Some row ∧
      mb_publisher_token_hash row = hash token ∧ mb_id row = mailbox.
Proof.
  destruct (done_allowed c _ _ _ _ _ _ _ _ (handlers_may c) Hw Hr Hdone) as (Hp & _).
  destruct (Hp _ Ht) as (path & address & token & row & H1' & H2' & H3' & Hin & H4' & H5').
  destruct (answered_then c w r ip (FindMailbox address) (Ok (Some row)) Hw Hr) as (w0 & clock & Hw0 & Hs & Ha); [by eapply done_past|].
  exists path, address, token. split_and!; [done..|]. exists w0, row. by injection Ha.
Qed.

(** C16. Agents read and report only as themselves.  Whenever a request
    opens a mailbox's guide or an agent's key, or files a report, its token
    had been found, earlier in that request, to sign in that agent of that
    mailbox: its own live agent token, or, only at the tools' endpoint, an
    unexpired access token of a live grant for this server. *)
Theorem agents_authorised w r ip newer t a past id mailbox (Hw : reachable c w) (Hr : wd_running w !! r = Some ip)
    (Hdone : ip_done ip = newer ++ Did (Run t) a :: past) (Ht : agent_call t = Some (id, mailbox)) :
  ∃ token w0, bearer (hd_authorization (ip_headers ip)) = Some token ∧ reachable c w0 ∧ rtc (step c) w0 w ∧
    ((∃ row address, agent_token_id token = Some id ∧ agent_token id (sv_db (wd_server w0)) = Some (row, address) ∧
        token_live row (hash token) = true ∧ ag_mailbox_id row = mailbox) ∨
     (∃ t g address now issuer, cf_issuer c = Some issuer ∧
        find_access (hash token) (sv_db (wd_server w0)) = Some (t, (g, address)) ∧
        access_live t g (resource_of issuer) now = true ∧ ag_id g = id ∧ ag_mailbox_id g = mailbox)).
Proof.
  destruct (done_allowed c _ _ _ _ _ _ _ _ (handlers_may c) Hw Hr Hdone) as (_ & Hp & _).
  destruct (Hp _ _ Ht) as (token & address & Htok & [(row & H1' & Hin & H2' & H3')|(t' & g & now & issuer & H1' & _ & Hin & H2' & H3' & H4')]).
  - destruct (answered_then c w r ip (FindAgent id) (Ok (Some (row, address))) Hw Hr)
      as (w0 & clock & Hw0 & Hs & Ha); [by eapply done_past|].
    exists token, w0. split_and!; [done..|]. left. exists row, address. injection Ha as Ha. by rewrite <- Ha.
  - destruct (answered_then c w r ip (FindAccess (hash token)) (Ok (Some (t', (g, address)))) Hw Hr)
      as (w0 & clock & Hw0 & Hs & Ha); [by eapply done_past|].
    exists token, w0. split_and!; [done..|]. right. exists t', g, address, now, issuer. injection Ha as Ha. by rewrite <- Ha.
Qed.
End authorised.

(** ** Invariants of the database *)

Section invariants.
Context `{Crypto} `{RulesText} `{Web} (c : Config).

Lemma perform_db clock instant o s s' a : perform_op c clock instant o s = Some (s', a) →
  sv_db s' = match o with Run t => (run_tx c clock t (sv_db s)).1 | _ => sv_db s end.
Proof.
  destruct o; cbn [perform_op]; try done.
  - by intros [= <- _].
  - by destruct (Limit.take _ _ _ _); intros [= <- _].
  - by destruct (Limit.peek _ _ _ _); intros [= <- _].
  - by intros [= <- _].
  - by destruct (count_failure _ _ _ _); intros [= <- _].
  - by intros [= <- _].
  - by destruct (put_pending _ _ _ _); intros [= <- _].
  - by destruct (run_tx _ _ _ _); intros [= <- _].
Qed.
(** A world's next operation may be done. *)
Lemma next_may w r ip o k : reachable c w → wd_running w !! r = Some ip → ip_left ip = Vis o k →
  may c (ip_client ip) (ip_headers ip) (ip_request ip) (ip_done ip) o.
Proof.
  intros Hw Hr Hl. destruct (reachable_keeps c _ w (handlers_may c) Hw r ip Hr) as [_ Hp]. rewrite Hl in Hp. apply Hp.
Qed.
Lemma reachable_db (I : RulesDb → Prop) w :
  I empty_db →
  (∀ clock client h r past t d, may_run c client h r past t → I d → I (run_tx c clock t d).1) →
  (∀ clock d, I d → I (sweep_reports clock d).1) →
  reachable c w → I (sv_db (wd_server w)).
Proof.
  intros H0' Htx Hsweep. apply (rtc_ind_r (λ w, I (sv_db (wd_server w)))); [done|]. clear w. intros w w' Hw Hs IH.
  change (reachable c w) in Hw. destruct Hs as [w client h r|w r ip o k clock instant s a Hr Hl Hi Ho|w r ip o k a Hr Hl Ho Ha|w r|w clock];
    cbn; try done.
  - rewrite (perform_db _ _ _ _ _ _ Ho). pose proof (next_may w r ip o k Hw Hr Hl) as Hm. destruct o; try done.
    by eapply Htx.
  - by apply Hsweep.
Qed.
End invariants.
