(* ===== verification/RulesGrants.v ===== *)
(** * RulesGrants: what the rules server keeps of agents and grants

    The tables of agents, codes, tokens and wraps keep in step: what holds
    of them in every reachable world, by each closure the handlers run. *)

From S2P Require Import Prelude.
From S2P Require Import Domain.
From S2P Require Import MailStore.
From S2P Require Import RateLimit.
From S2P Require Import RulesTokens.
From S2P Require Import RulesDb.
From S2P Require Import RulesCrypto.
From S2P Require Import RulesPublish.
From S2P Require Import RulesOAuth.
From S2P Require Import RulesServer.
From S2P Require Import RulesHandlers.
From S2P Require Import RulesWorld.
From S2P Require Import Effects.
#[local] Close Scope Q_scope.

(** ** The invariant *)

Definition keyless (a : AgentRow) : Prop := ar_key_wrap a = None ∧ ar_app_seal a = None.
Definition is_grant (a : AgentRow) : bool := is_live a && String.eqb (ag_kind (ar_row a)) KIND_OAUTH.
Definition live_grant_row (id : string) (d : RulesDb) : Prop := ∃ a, find_agent id d = Some a ∧ is_grant a = true.
Definition unspent_code (g : string) (c : string * AuthCodeRow) : bool :=
  String.eqb (ac_grant_id c.2) g && match ac_used_at c.2 with None => true | Some _ => false end.
Definition token_of (g : string) (t : string * OAuthTokenRow) : bool := String.eqb (ot_grant_id t.2) g.
Definition access_of (g : string) (t : string * OAuthTokenRow) : bool := token_of g t && String.eqb (ot_kind t.2) TOKEN_ACCESS.
Definition unused_refresh_of (g : string) (t : string * OAuthTokenRow) : bool :=
  token_of g t && String.eqb (ot_kind t.2) TOKEN_REFRESH && match ot_used_at t.2 with None => true | Some _ => false end.

Record GrantsOk (d : RulesDb) : Prop := mkGrantsOk {
  go_agents : NoDup ((λ a, ag_id (ar_row a)) <$> d_agents d);
  go_codes : NoDup (d_codes d).*1;
  go_tokens : NoDup (d_tokens d).*1;
  go_code_grants : NoDup ((λ c, ac_grant_id c.2) <$> d_codes d);
  go_code c : c ∈ d_codes d → ∃ a, find_agent (ac_grant_id c.2) d = Some a ∧ is_grant a = true ∧
    ag_client_id (ar_row a) = Some (ac_client_id c.2);
  go_token t : t ∈ d_tokens d → live_grant_row (ot_grant_id t.2) d;
  go_revoked a : a ∈ d_agents d → is_live a = false → keyless a;
  go_wrap k : k ∈ d_snapshot_keys d → ∃ a, find_agent (sk_agent_id k) d = Some a ∧ is_live a = true ∧
    ag_mailbox_id (ar_row a) = sk_mailbox_id k;
  go_access g : count (access_of g) (d_tokens d) ≤ 1;
  go_refresh g : count (unused_refresh_of g) (d_tokens d) ≤ 1;
  go_unspent g : List.existsb (unspent_code g) (d_codes d) = true → count (token_of g) (d_tokens d) = 0 }.

(** What the other tables do not touch. *)
Definition same_grants (d d' : RulesDb) : Prop :=
  d_agents d' = d_agents d ∧ d_codes d' = d_codes d ∧ d_tokens d' = d_tokens d ∧ d_snapshot_keys d' = d_snapshot_keys d.
Lemma find_agent_agents id d d' : d_agents d' = d_agents d → find_agent id d' = find_agent id d.
Proof. unfold find_agent. by intros ->. Qed.
Lemma grants_same d d' : same_grants d d' → GrantsOk d → GrantsOk d'.
Proof.
  intros (Ea & Ec & Et & Ek) [H1 H2 H3 H4 H5 H6 H7 H8 H9 H10 H11].
  split; rewrite ?Ea, ?Ec, ?Et, ?Ek; try done; intros x; unfold live_grant_row; rewrite (find_agent_agents _ d d' Ea).
  - apply H5.
  - apply H6.
  - apply H8.
Qed.

(** ** Rows gone *)

Lemma NoDup_fmap_filter {A B} (f : A → B) p l : NoDup (f <$> l) → NoDup (f <$> List.filter p l).
Proof. apply NoDup_fmap_List_filter. Qed.
Lemma count_filter_le {A} (p q : A → bool) l : count p (List.filter q l) ≤ count p l.
Proof.
  induction l as [|x l IH]; [done|]. cbn [List.filter]. rewrite count_cons. destruct (q x); rewrite ?count_cons; lia.
Qed.
(** Fewer codes, tokens and wraps. *)
Lemma grants_fewer d pc pt pk d' :
  d_agents d' = d_agents d → d_codes d' = List.filter pc (d_codes d) → d_tokens d' = List.filter pt (d_tokens d) →
  d_snapshot_keys d' = List.filter pk (d_snapshot_keys d) → GrantsOk d → GrantsOk d'.
Proof.
  intros Ea Ec Et Ek [H1 H2 H3 H4 H5 H6 H7 H8 H9 H10 H11].
  split; rewrite ?Ea, ?Ec, ?Et, ?Ek; try done; try (by apply NoDup_fmap_filter).
  - intros x [_ Hx]%elem_of_List_filter. rewrite (find_agent_agents _ d d' Ea). eauto.
  - intros x [_ Hx]%elem_of_List_filter. unfold live_grant_row. rewrite (find_agent_agents _ d d' Ea). by apply H6.
  - intros x [_ Hx]%elem_of_List_filter. rewrite (find_agent_agents _ d d' Ea). eauto.
  - intros g. etrans; [apply count_filter_le|apply H9].
  - intros g. etrans; [apply count_filter_le|apply H10].
  - intros g (x & [_ Hx]%elem_of_List_filter & Hp)%existsb_true.
    assert (count (token_of g) (d_tokens d) = 0) as E by (apply H11; apply existsb_true; eauto).
    pose proof (count_filter_le (token_of g) pt (d_tokens d)). lia.
Qed.

(** ** Agents changed *)

(** A change of an agent's other columns, no keys given to a revoked one. *)
Definition keys_only (p : AgentRow → bool) (f : AgentRow → AgentRow) : Prop :=
  ∀ a, p a = true → ar_row (f a) = ar_row a ∧ (is_live a = false → keyless a → keyless (f a)).
Lemma find_on_agent_row id p f d a : (∀ a, p a = true → ag_id (ar_row (f a)) = ag_id (ar_row a)) →
  find_agent id d = Some a → find_agent id (on_agent p f d) = Some (if p a then f a else a).
Proof.
  intros Hf Ha. unfold on_agent, on_agents, find_agent. cbn. rewrite find_List_map; [|].
  - unfold find_agent in Ha. by rewrite Ha.
  - intros x. unfold is_agent. destruct (p x) eqn:E; [by rewrite Hf|done].
Qed.
Lemma agents_ids p f d : (∀ a, p a = true → ag_id (ar_row (f a)) = ag_id (ar_row a)) →
  (λ a, ag_id (ar_row a)) <$> d_agents (on_agent p f d) = (λ a, ag_id (ar_row a)) <$> d_agents d.
Proof.
  intros Hf. unfold on_agent, on_agents. cbn. induction (d_agents d) as [|x l IH]; [done|].
  cbn [List.map]. rewrite !fmap_cons, IH. f_equal. destruct (p x) eqn:E; [by apply Hf|done].
Qed.
Lemma grants_keys_only p f d : keys_only p f → GrantsOk d → GrantsOk (on_agent p f d).
Proof.
  intros Hf [H1 H2 H3 H4 H5 H6 H7 H8 H9 H10 H11].
  assert (∀ a, p a = true → ag_id (ar_row (f a)) = ag_id (ar_row a)) as Hid by (intros a Hp; by destruct (Hf a Hp) as [-> _]).
  assert (∀ id a, find_agent id d = Some a → ∃ a', find_agent id (on_agent p f d) = Some a' ∧ ar_row a' = ar_row a) as Hfind.
  { intros id a Ha. eexists. split; [by apply find_on_agent_row|]. destruct (p a) eqn:E; [by apply Hf|done]. }
  split; try done.
  - by rewrite agents_ids.
  - intros c Hc. destruct (H5 c Hc) as (a & Ha & Hg & Hcl). destruct (Hfind _ _ Ha) as (a' & Ha' & Er).
    exists a'. unfold is_grant, is_live in *. by rewrite Er.
  - intros t Ht. destruct (H6 t Ht) as (a & Ha & Hg). destruct (Hfind _ _ Ha) as (a' & Ha' & Er).
    exists a'. unfold is_grant, is_live in *. by rewrite Er.
  - intros a. unfold on_agent, on_agents. cbn. intros (x & <- & Hx%list_elem_of_In)%list_elem_of_In%List.in_map_iff.
    destruct (p x) eqn:E; [|by apply H7]. destruct (Hf x E) as [Er Hk]. intros Hl. apply Hk.
    + unfold is_live in *. by rewrite <- Er.
    + apply H7; [done|]. unfold is_live in *. by rewrite <- Er.
  - intros k Hk. destruct (H8 k Hk) as (a & Ha & Hl & Hm). destruct (Hfind _ _ Ha) as (a' & Ha' & Er).
    exists a'. unfold is_live in *. by rewrite Er.
Qed.

Lemma is_agent_eq id a : is_agent id a = true ↔ ag_id (ar_row a) = id.
Proof. unfold is_agent. apply String.eqb_eq. Qed.
Lemma in_agents_on p f d a : a ∈ d_agents (on_agent p f d) → ∃ x, x ∈ d_agents d ∧ a = (if p x then f x else x).
Proof.
  unfold on_agent, on_agents. cbn. intros (x & <- & Hx%list_elem_of_In)%list_elem_of_In%List.in_map_iff. eauto.
Qed.
(** A grant revoked, and all it had. *)
Lemma grants_revoked p id now d : (∀ a, p a = true → is_agent id a = true) → GrantsOk d →
  GrantsOk (forget_grant_secrets id (on_agent p (with_row (revoked_row now)) d)).
Proof.
  intros Hp Hd. set (d1 := on_agent p (with_row (revoked_row now)) d). set (d2 := forget_grant_secrets id d1).
  assert (∀ id' a, id' ≠ id → find_agent id' d = Some a → find_agent id' d2 = Some a) as Hfind.
  { intros id' a Hne Ha. pose proof (find_agent_id _ _ _ Ha) as [Eid _].
    assert (p a = false) as Hpa. { destruct (p a) eqn:E; [|done]. apply Hp, is_agent_eq in E. congruence. }
    assert (find_agent id' d1 = Some a) as H1.
    { unfold d1. rewrite (find_on_agent_row _ _ _ _ a) by done. by rewrite Hpa. }
    change (find_agent id' (on_agent (is_agent id) (with_keys None None) d1) = Some a).
    rewrite (find_on_agent_row _ _ _ _ a) by done. destruct (is_agent id a) eqn:E; [|done]. apply is_agent_eq in E. congruence. }
  destruct Hd as [H1 H2 H3 H4 H5 H6 H7 H8 H9 H10 H11].
  assert (d_codes d2 = List.filter (λ c, negb (String.eqb (ac_grant_id c.2) id)) (d_codes d)) as Ec by done.
  assert (d_tokens d2 = List.filter (λ t, negb (String.eqb (ot_grant_id t.2) id)) (d_tokens d)) as Et by done.
  assert (d_snapshot_keys d2 = List.filter (λ k, negb (String.eqb (sk_agent_id k) id)) (d_snapshot_keys d)) as Ek by done.
  assert (∀ x y, negb (String.eqb x y) = true → x ≠ y) as Hneq.
  { intros x y E%negb_true_iff. by apply String.eqb_neq in E. }
  split; rewrite ?Ec, ?Et, ?Ek; try (by apply NoDup_fmap_filter).
  - change (NoDup ((λ a, ag_id (ar_row a)) <$> d_agents (on_agent (is_agent id) (with_keys None None) d1))).
    rewrite agents_ids by done. unfold d1. by rewrite agents_ids by done.
  - intros c [Hne%Hneq Hc]%elem_of_List_filter. destruct (H5 c Hc) as (a & Ha & Hg). exists a. split; [by apply Hfind|done].
  - intros t [Hne%Hneq Ht]%elem_of_List_filter. destruct (H6 t Ht) as (a & Ha & Hg). exists a. split; [by apply Hfind|done].
  - intros a Ha Hl. apply (in_agents_on (is_agent id) (with_keys None None) d1) in Ha as (x & Hx & ->).
    destruct (is_agent id x) eqn:E; [done|]. apply in_agents_on in Hx as (y & Hy & ->).
    destruct (p y) eqn:Ep; [|by apply H7]. apply Hp, is_agent_eq in Ep. apply not_true_iff_false in E. destruct E.
    by apply is_agent_eq.
  - intros k [Hne%Hneq Hk]%elem_of_List_filter. destruct (H8 k Hk) as (a & Ha & Hg). exists a. split; [by apply Hfind|done].
  - intros g. etrans; [apply count_filter_le|apply H9].
  - intros g. etrans; [apply count_filter_le|apply H10].
  - intros g (x & [_ Hx]%elem_of_List_filter & Hpx)%existsb_true.
    assert (count (token_of g) (d_tokens d) = 0) as E by (apply H11; apply existsb_true; eauto).
    pose proof (count_filter_le (token_of g) (λ t, negb (String.eqb (ot_grant_id t.2) id)) (d_tokens d)). lia.
Qed.
Lemma grants_revoke_token mailbox id now d : GrantsOk d → GrantsOk (revoke_agent_token mailbox id now d).1.
Proof.
  intros Hd. unfold revoke_agent_token. case_match; [|done]. apply grants_revoked; [|done].
  by intros a [_ ?]%andb_true_iff.
Qed.
Lemma grants_revoke_grant id now d : GrantsOk d → GrantsOk (revoke_grant id now d).
Proof. intros Hd. by apply grants_revoked. Qed.

(** ** Rows added *)

Lemma find_app {A} (p : A → bool) l k : List.find p (l ++ k) = match List.find p l with Some x => Some x | None => List.find p k end.
Proof. induction l as [|x l IH]; [done|]. cbn. by destruct (p x). Qed.
(** A new agent, without keys. *)
Lemma grants_agent row d d' : insert_agent_token row d = (d', Ok ()) → GrantsOk d → GrantsOk d'.
Proof.
  unfold insert_agent_token, insert_if. case_match eqn:E; [|done]. intros [= <-] [H1 H2 H3 H4 H5 H6 H7 H8 H9 H10 H11].
  apply andb_true_iff in E as [E _]. apply negb_true_iff in E. rewrite existsb_false in E.
  assert (∀ id a, find_agent id d = Some a →
    find_agent id (on_agents (λ l, l ++ [mkAgentRow row None None None]) d) = Some a) as Hfind.
  { intros id a Ha. unfold find_agent in *. cbn. by rewrite find_app, Ha. }
  split; try done.
  - cbn. rewrite fmap_app. apply NoDup_app. split_and!; [done| |apply NoDup_singleton].
    intros x (a & -> & Ha)%list_elem_of_fmap Hx. apply list_elem_of_singleton in Hx. apply E in Ha. cbn in Hx.
    apply not_true_iff_false in Ha. destruct Ha. by apply is_agent_eq.
  - intros c Hc. destruct (H5 c Hc) as (a & Ha & Hg). eauto.
  - intros t Ht. destruct (H6 t Ht) as (a & Ha & Hg). exists a. eauto.
  - cbn. intros a [Ha|Ha]%elem_of_app; [by apply H7|]. by apply list_elem_of_singleton in Ha as ->.
  - intros k Hk. destruct (H8 k Hk) as (a & Ha & Hg). eauto.
Qed.
(** A grant's first code. *)
Lemma grants_code h row a d d' : insert_auth_code h row d = (d', Ok ()) →
  find_agent (ac_grant_id row) d = Some a → is_grant a = true → ag_client_id (ar_row a) = Some (ac_client_id row) →
  (∀ c, c ∈ d_codes d → ac_grant_id c.2 ≠ ac_grant_id row) → (∀ t, t ∈ d_tokens d → ot_grant_id t.2 ≠ ac_grant_id row) →
  GrantsOk d → GrantsOk d'.
Proof.
  unfold insert_auth_code, insert_if. case_match eqn:E; [|done]. intros [= <-] Ha Hg Hcl Hc Ht [H1 H2 H3 H4 H5 H6 H7 H8 H9 H10 H11].
  apply andb_true_iff in E as [E _]. apply negb_true_iff in E. rewrite existsb_false in E.
  split; try done; cbn.
  - rewrite fmap_app. apply NoDup_app. split_and!; [done| |apply NoDup_singleton].
    intros x (c & -> & Hx)%list_elem_of_fmap Hin. apply list_elem_of_singleton in Hin. apply E in Hx. cbn in Hin. subst.
    by rewrite String.eqb_refl in Hx.
  - rewrite fmap_app. apply NoDup_app. split_and!; [done| |apply NoDup_singleton].
    intros x (c & -> & Hx)%list_elem_of_fmap Hin. apply list_elem_of_singleton in Hin. by apply (Hc c).
  - intros c [Hx|Hx]%elem_of_app; [by apply H5|]. apply list_elem_of_singleton in Hx as ->. eauto.
  - intros g. rewrite existsb_app. intros [Hx|Hx]%orb_true_iff; [by apply H11|]. cbn in Hx. rewrite orb_false_r in Hx.
    apply andb_true_iff in Hx as [Hx%String.eqb_eq _]. cbn in Hx. subst g. apply count_zero. intros t Hin.
    apply String.eqb_neq. by apply Ht.
Qed.

(** A token for a live grant, with no other of its kind. *)
Lemma grants_token h row d d' : insert_oauth_token h row d = (d', Ok ()) → live_grant_row (ot_grant_id row) d →
  List.existsb (unspent_code (ot_grant_id row)) (d_codes d) = false →
  (∀ g, access_of g (h, row) = true → count (access_of g) (d_tokens d) = 0) →
  (∀ g, unused_refresh_of g (h, row) = true → count (unused_refresh_of g) (d_tokens d) = 0) →
  GrantsOk d → GrantsOk d' ∧ d_tokens d' = d_tokens d ++ [(h, row)] ∧ d_agents d' = d_agents d ∧ d_codes d' = d_codes d.
Proof.
  unfold insert_oauth_token, insert_if. case_match eqn:E; [|done]. intros [= <-] Hl Hu Ha Hr [H1 H2 H3 H4 H5 H6 H7 H8 H9 H10 H11].
  apply andb_true_iff in E as [E _]. apply negb_true_iff in E. rewrite existsb_false in E.
  split; [|done]. split; try done; cbn [d_codes d_tokens d_agents d_snapshot_keys on_tokens on_codes].
  - rewrite fmap_app. apply NoDup_app. split_and!; [done| |apply NoDup_singleton].
    intros x (c & -> & Hx)%list_elem_of_fmap Hin. apply list_elem_of_singleton in Hin. apply E in Hx. cbn in Hin. subst.
    by rewrite String.eqb_refl in Hx.
  - intros t [Hx|Hx]%elem_of_app; [by apply H6|]. by apply list_elem_of_singleton in Hx as ->.
  - intros g. rewrite count_app, count_cons, count_nil. specialize (H9 g). destruct (access_of g (h, row)) eqn:Eg; [|lia].
    rewrite Ha by done. lia.
  - intros g. rewrite count_app, count_cons, count_nil. specialize (H10 g). destruct (unused_refresh_of g (h, row)) eqn:Eg; [|lia].
    rewrite Hr by done. lia.
  - intros g Hx. rewrite count_app, count_cons, count_nil, H11 by done.
    destruct (token_of g (h, row)) eqn:Eg; [|done]. apply String.eqb_eq in Eg. cbn in Eg. subst g. congruence.
Qed.

(** ** Rows used *)

Lemma elem_of_List_map {A B} (f : A → B) l y : y ∈ List.map f l → ∃ x, x ∈ l ∧ y = f x.
Proof. intros (x & <- & Hx)%list_elem_of_In%List.in_map_iff. exists x. by rewrite list_elem_of_In. Qed.
Lemma count_map {A B} (p : B → bool) (f : A → B) l : count p (List.map f l) = count (λ x, p (f x)) l.
Proof. induction l as [|x l IH]; [done|]. cbn [List.map]. by rewrite !count_cons, IH. Qed.
Lemma fmap_List_map {A B C} (g : B → C) (f : A → B) (g' : A → C) l : (∀ x, g (f x) = g' x) → g <$> List.map f l = g' <$> l.
Proof. intros E. induction l as [|x l IH]; [done|]. cbn [List.map]. by rewrite !fmap_cons, IH, E. Qed.
Lemma count_le {A} (p q : A → bool) l : (∀ x, x ∈ l → p x = true → q x = true) → count p l ≤ count q l.
Proof.
  induction l as [|x l IH]; intros Hpq; [done|]. rewrite !count_cons.
  assert (count p l ≤ count q l) by (apply IH; set_solver). specialize (Hpq x ltac:(by left)).
  destruct (p x), (q x); lia.
Qed.
Lemma find_code h row d : auth_code h d = Some row → ∃ c, c ∈ d_codes d ∧ c = (h, row).
Proof.
  unfold auth_code. destruct (List.find _ _) as [[h' row']|] eqn:E; [|done]. intros [= <-]. apply find_Some in E as [E Hin].
  apply String.eqb_eq in E. cbn in E. subst. eauto.
Qed.
Lemma find_token h row d : oauth_token h d = Some row → (h, row) ∈ d_tokens d.
Proof.
  unfold oauth_token. destruct (List.find _ _) as [[h' row']|] eqn:E; [|done]. intros [= <-]. apply find_Some in E as [E Hin].
  apply String.eqb_eq in E. cbn in E. by subst.
Qed.
(** A code spent: its grant has none left. *)
Lemma grants_use_code h row now d : auth_code h d = Some row → GrantsOk d →
  GrantsOk (use_auth_code h now d) ∧ List.existsb (unspent_code (ac_grant_id row)) (d_codes (use_auth_code h now d)) = false.
Proof.
  intros Hrow [H1 H2 H3 H4 H5 H6 H7 H8 H9 H10 H11]. unfold use_auth_code, on_codes.
  set (f := λ c : string * AuthCodeRow, if String.eqb c.1 h then (c.1, used_code now c.2) else c).
  assert (∀ c, (f c).1 = c.1 ∧ ac_grant_id (f c).2 = ac_grant_id c.2 ∧ ac_client_id (f c).2 = ac_client_id c.2) as Hf.
  { intros c. unfold f. by case_match. }
  assert (∀ g c, unspent_code g (f c) = true → unspent_code g c = true) as Hu.
  { intros g c. unfold f. case_match; [|done]. unfold unspent_code. cbn. by rewrite andb_false_r. }
  split.
  - split; try done; cbn [d_codes d_tokens d_agents d_snapshot_keys on_tokens on_codes].
    + by rewrite (fmap_List_map _ _ fst) by apply Hf.
    + by rewrite (fmap_List_map _ _ (λ c, ac_grant_id c.2)) by apply Hf.
    + intros c (x & Hx & ->)%elem_of_List_map. destruct (Hf x) as (_ & -> & ->). by apply H5.
    + intros g (x & (y & Hy & ->)%elem_of_List_map & Hp)%existsb_true. apply H11. apply existsb_true. eauto.
  - cbn. apply existsb_false. intros c (x & Hx & ->)%elem_of_List_map. destruct (find_code _ _ _ Hrow) as (y & Hy & ->).
    destruct (decide (ac_grant_id x.2 = ac_grant_id row)) as [E|E].
    + assert (x = (h, row)) as -> by (eapply (NoDup_fmap_inj (λ c, ac_grant_id c.2)); [exact H4|done..]).
      unfold f, unspent_code. cbn. rewrite String.eqb_refl. cbn. by rewrite andb_false_r.
    + unfold unspent_code. destruct (Hf x) as (_ & -> & _). by rewrite (proj2 (String.eqb_neq _ _) E).
Qed.
(** A refresh token used: its grant has no unused one left. *)
Lemma grants_use_token h row now d : oauth_token h d = Some row → ot_kind row = TOKEN_REFRESH → ot_used_at row = None →
  GrantsOk d →
  GrantsOk (use_oauth_token h now d) ∧ count (unused_refresh_of (ot_grant_id row)) (d_tokens (use_oauth_token h now d)) = 0.
Proof.
  intros Hrow Hkind Hnone [H1 H2 H3 H4 H5 H6 H7 H8 H9 H10 H11]. unfold use_oauth_token, on_tokens.
  set (f := λ t : string * OAuthTokenRow, if String.eqb t.1 h then (t.1, used_token now t.2) else t).
  assert (∀ t, (f t).1 = t.1 ∧ ot_grant_id (f t).2 = ot_grant_id t.2 ∧ ot_kind (f t).2 = ot_kind t.2) as Hf.
  { intros t. unfold f. by case_match. }
  assert (∀ g t, unused_refresh_of g (f t) = true → unused_refresh_of g t = true ∧ String.eqb t.1 h = false) as Hu.
  { intros g t. unfold f. case_match; [|done]. unfold unused_refresh_of. cbn. by rewrite andb_false_r. }
  split.
  - split; try done; cbn [d_codes d_tokens d_agents d_snapshot_keys on_tokens on_codes].
    + by rewrite (fmap_List_map _ _ fst) by apply Hf.
    + intros t (x & Hx & ->)%elem_of_List_map. destruct (Hf x) as (_ & -> & _). by apply H6.
    + intros g. rewrite count_map. etrans; [|exact (H9 g)]. apply count_le. intros t _. unfold access_of, token_of.
      by destruct (Hf t) as (_ & -> & ->).
    + intros g. rewrite count_map. etrans; [|exact (H10 g)]. apply count_le. intros t _ Ht. by apply Hu.
    + intros g Hx. rewrite count_map. rewrite <- (H11 g Hx). apply count_ext. intros t _. unfold token_of. by destruct (Hf t) as (_ & -> & _).
  - cbn [d_tokens on_tokens]. rewrite count_map. specialize (H10 (ot_grant_id row)). apply find_token in Hrow.
    assert (count (λ x, unused_refresh_of (ot_grant_id row) (f x)) (d_tokens d) +
            count (λ x, String.eqb x.1 h) (d_tokens d) ≤ count (unused_refresh_of (ot_grant_id row)) (d_tokens d)) as Hle.
    { assert (∀ x, x ∈ d_tokens d → String.eqb x.1 h = true → unused_refresh_of (ot_grant_id row) x = true) as Hh.
      { intros x Hx Ex%String.eqb_eq. assert (x = (h, row)) as -> by (eapply (NoDup_fmap_inj fst); [exact H3|done..]).
        unfold unused_refresh_of, token_of. cbn. by rewrite String.eqb_refl, Hkind, Hnone. }
      clear -Hu Hh. induction (d_tokens d) as [|x l IH]; [done|]. rewrite !count_cons.
      specialize (IH ltac:(intros; apply Hh; [by right|done])). specialize (Hh x ltac:(by left)). specialize (Hu (ot_grant_id row) x).
      destruct (unused_refresh_of (ot_grant_id row) (f x)); [destruct (Hu eq_refl) as [-> ->]; lia|].
      destruct (String.eqb x.1 h); [rewrite (Hh eq_refl); lia|]. destruct (unused_refresh_of _ x); lia. }
    assert (count (λ x : string * OAuthTokenRow, String.eqb x.1 h) (d_tokens d) ≠ 0) as Hne.
    { apply elem_of_count. exists (h, row). split; [done|]. apply String.eqb_refl. }
    lia.
Qed.
Lemma grants_delete_access g d : GrantsOk d → GrantsOk (delete_access_tokens g d) ∧
  count (access_of g) (d_tokens (delete_access_tokens g d)) = 0.
Proof.
  intros Hd. split.
  - apply (grants_fewer d (λ _, true) (λ t, negb (String.eqb (ot_grant_id t.2) g && String.eqb (ot_kind t.2) TOKEN_ACCESS)) (λ _, true));
      [done|by rewrite List_filter_all|done|by rewrite List_filter_all|done].
  - apply count_zero. intros t [Ht _]%elem_of_List_filter. by apply negb_true_iff in Ht.
Qed.

(** ** Keys and wraps *)

Lemma keys_only_live id w s : keys_only (λ a, is_agent id a && is_live a) (λ a, with_keys w (s a) a).
Proof. intros a [_ Hl]%andb_true_iff. split; [done|congruence]. Qed.
Lemma grants_drop_wraps id d : GrantsOk d → GrantsOk (drop_snapshot_keys id d).
Proof.
  apply (grants_fewer d (λ _, true) (λ _, true) (λ k, negb (String.eqb (sk_agent_id k) id)));
    first [done|by rewrite List_filter_all].
Qed.
Lemma grants_set_keys id w s d : GrantsOk d → GrantsOk (set_agent_keys id w s d).
Proof. intros Hd. apply grants_drop_wraps, grants_keys_only; [|done]. apply (keys_only_live id (Some w) (λ _, s)). Qed.
Lemma grants_set_wrap id w d : GrantsOk d → GrantsOk (set_key_wrap id w d).
Proof. intros Hd. apply grants_keys_only; [|done]. apply (keys_only_live id (Some w) ar_app_seal). Qed.
Lemma grants_set_seal id s d : GrantsOk d → GrantsOk (set_app_seal id s d).
Proof. intros Hd. apply grants_keys_only; [|done]. intros a [[_ Hl]%andb_true_iff _]%andb_true_iff. split; [done|congruence]. Qed.
Lemma grants_touch id now d : GrantsOk d → GrantsOk (touch_agent id now d).
Proof. intros Hd. apply grants_keys_only; [|done]. by intros a _. Qed.
Lemma grants_set_app_key mailbox key d : GrantsOk d → GrantsOk (set_app_key mailbox key d).
Proof.
  intros Hd. unfold set_app_key. case_match; [|done]. apply grants_keys_only.
  - intros a _. split; [done|]. by intros _ [Hw _].
  - by apply (grants_same d).
Qed.
(** A key's wrap for a live agent of the mailbox. *)
Lemma grants_insert_wrap mailbox key_id w dn : GrantsOk dn.1 → GrantsOk (insert_snapshot_key mailbox key_id w dn).1.
Proof.
  destruct dn as [d n]. cbn [fst]. intros Hd. unfold insert_snapshot_key. case_match eqn:E; [|done]. cbn [fst].
  apply existsb_true in E as (a & Ha & [[Hid%is_agent_eq Hm%Z.eqb_eq]%andb_true_iff Hl]%andb_true_iff).
  destruct Hd as [H1 H2 H3 H4 H5 H6 H7 H8 H9 H10 H11]. split; try done; cbn.
  intros k [Hk|Hk]%elem_of_app; [apply elem_of_List_filter in Hk as [_ Hk]; by apply H8|].
  apply list_elem_of_singleton in Hk as ->. cbn. exists a. split_and!; [|done|done].
  unfold find_agent, on_snapshot_keys. cbn. destruct (List.find (is_agent w.1) (d_agents d)) as [a'|] eqn:E.
  - f_equal. apply find_Some in E as [E%is_agent_eq Ha']. eapply (NoDup_fmap_inj (λ a, ag_id (ar_row a))); [exact H1|done..|congruence].
  - exfalso. apply find_None with (x := a) in E; [|done]. apply not_true_iff_false in E. destruct E. by apply is_agent_eq.
Qed.
Lemma grants_insert_wraps mailbox key_id ws d : GrantsOk d → GrantsOk (insert_snapshot_keys mailbox key_id ws d).1.
Proof.
  intros Hd. unfold insert_snapshot_keys. generalize 0. intros n. change d with (d, n).1 in Hd. revert Hd.
  generalize (d, n). clear d n. induction ws as [|w ws IH]; intros dn Hd; [done|]. cbn [foldl]. by apply IH, grants_insert_wrap.
Qed.
Lemma grants_agent_key `{Crypto} dice id mailbox secret u d : GrantsOk d → GrantsOk (agent_key dice id mailbox secret u d).1.
Proof.
  intros Hd. unfold agent_key. destruct (agent_keys id d) as [wrapped sealed]. destruct (opened_key secret id d).
  - cbn [fst]. destruct sealed, (app_public mailbox d); try done. case_match; [by apply grants_set_seal|done].
  - destruct (match wrapped with Some _ => _ | None => _ end); [done|]. destruct (app_public mailbox d); [|done].
    case_match; [by apply grants_set_keys|done].
Qed.
Lemma grants_rewrap `{Crypto} nonce id old new d : GrantsOk d → GrantsOk (rewrap_agent_key nonce id old new d).1.
Proof. intros Hd. unfold rewrap_agent_key. case_match; [by apply grants_set_wrap|done]. Qed.

(** ** A mailbox gone *)

Lemma find_filter {A} (p q : A → bool) l a : List.find p l = Some a → q a = true → List.find p (List.filter q l) = Some a.
Proof.
  induction l as [|x l IH]; [done|]. cbn [List.find List.filter]. destruct (p x) eqn:Ep.
  - intros [= ->] Hq. rewrite Hq. cbn [List.find]. by rewrite Ep.
  - intros Hf Hq. destruct (q x); [cbn [List.find]; rewrite Ep|]; by apply IH.
Qed.
Lemma grants_forget mailbox d : GrantsOk d → GrantsOk (delete_mailbox mailbox d).
Proof.
  intros [H1 H2 H3 H4 H5 H6 H7 H8 H9 H10 H11].
  set (d' := delete_mailbox mailbox d).
  assert (∀ id a, find_agent id d = Some a → ag_mailbox_id (ar_row a) ≠ mailbox → find_agent id d' = Some a) as Hfind.
  { intros id a Ha Hm. unfold find_agent, d', delete_mailbox. cbn. apply find_filter; [done|]. by apply negb_true_iff, Z.eqb_neq. }
  set (gone := (λ a, ag_id (ar_row a)) <$> List.filter (λ a, negb (negb (ag_mailbox_id (ar_row a) =? mailbox)%Z)) (d_agents d)).
  assert (∀ id a, negb (bool_decide (id ∈ gone)) = true → find_agent id d = Some a → ag_mailbox_id (ar_row a) ≠ mailbox) as Hkept.
  { intros id a Hk Ha Hm. apply negb_true_iff, bool_decide_eq_false in Hk. destruct Hk.
    apply find_agent_id in Ha as [<- Ha]. apply list_elem_of_fmap. exists a. split; [done|]. apply elem_of_List_filter.
    split; [|done]. by rewrite Hm, Z.eqb_refl. }
  assert (d_codes d' = List.filter (λ c, negb (bool_decide (ac_grant_id c.2 ∈ gone))) (d_codes d)) as Ec by done.
  assert (d_tokens d' = List.filter (λ t, negb (bool_decide (ot_grant_id t.2 ∈ gone))) (d_tokens d)) as Et by done.
  split; rewrite ?Ec, ?Et; try (by apply NoDup_fmap_filter).
  - intros c [Hg Hc]%elem_of_List_filter. destruct (H5 c Hc) as (a & Ha & Hl). exists a. split; [|done]. eauto.
  - intros t [Hg Ht]%elem_of_List_filter. destruct (H6 t Ht) as (a & Ha & Hl). exists a. split; [|done]. eauto.
  - intros a [_ Ha]%elem_of_List_filter. by apply H7.
  - intros k [[_ Hg]%andb_true_iff Hk]%elem_of_List_filter. destruct (H8 k Hk) as (a & Ha & Hl). exists a. split; [|done]. eauto.
  - intros g. etrans; [apply count_filter_le|apply H9].
  - intros g. etrans; [apply count_filter_le|apply H10].
  - intros g (x & [_ Hx]%elem_of_List_filter & Hp)%existsb_true.
    assert (count (token_of g) (d_tokens d) = 0) as E by (apply H11; apply existsb_true; eauto).
    pose proof (count_filter_le (token_of g) (λ t, negb (bool_decide (ot_grant_id t.2 ∈ gone))) (d_tokens d)). lia.
Qed.

(** ** Transactions *)

Definition same_rows (d d' : RulesDb) : Prop :=
  d_codes d' = d_codes d ∧ d_tokens d' = d_tokens d ∧ d_mailboxes d' = d_mailboxes d ∧ d_snapshots d' = d_snapshots d ∧
  d_clients d' = d_clients d ∧ d_connect_codes d' = d_connect_codes d ∧ d_reports d' = d_reports d ∧ d_report_seq d' = d_report_seq d ∧
  ∀ id a, find_agent id d = Some a → ∃ a', find_agent id d' = Some a' ∧ ar_row a' = ar_row a.
Lemma same_rows_refl d : same_rows d d.
Proof. split_and!; try done. eauto. Qed.
Lemma same_rows_keys p f d : (∀ a, p a = true → ar_row (f a) = ar_row a) → same_rows d (on_agent p f d).
Proof.
  intros Hf. split_and!; try done. intros id a Ha. exists (if p a then f a else a).
  split; [apply find_on_agent_row; [intros x Hx; by rewrite Hf|done]|]. by destruct (p a) eqn:E; [apply Hf|].
Qed.
Lemma same_rows_agent_key `{Crypto} dice id mailbox secret u d : same_rows d (agent_key dice id mailbox secret u d).1.
Proof.
  unfold agent_key. destruct (agent_keys id d) as [wrapped sealed]. destruct (opened_key secret id d).
  - cbn [fst]. destruct sealed, (app_public mailbox d); try apply same_rows_refl. case_match; [|apply same_rows_refl].
    by apply same_rows_keys.
  - destruct (match wrapped with Some _ => _ | None => _ end); [apply same_rows_refl|].
    destruct (app_public mailbox d); [|apply same_rows_refl]. case_match; [|apply same_rows_refl].
    by apply (same_rows_keys (λ a, is_agent id a && is_live a)).
Qed.
Lemma same_rows_rewrap `{Crypto} nonce id old new d : same_rows d (rewrap_agent_key nonce id old new d).1.
Proof. unfold rewrap_agent_key. case_match; [by apply same_rows_keys|apply same_rows_refl]. Qed.
Lemma same_rows_grant d d' g : same_rows d d' → live_grant_row g d → live_grant_row g d'.
Proof.
  intros (_ & _ & _ & _ & _ & _ & _ & _ & Hf) (a & Ha & Hg). destruct (Hf _ _ Ha) as (a' & Ha' & E). exists a'. split; [done|].
  unfold is_grant, is_live in *. by rewrite E.
Qed.
Lemma live_grant_spec g client d : live_grant g client d = true →
  ∃ a, find_agent g d = Some a ∧ is_grant a = true ∧ ag_client_id (ar_row a) = Some client.
Proof.
  unfold live_grant, agent_token. fold (find_agent g d). destruct (find_agent g d) as [a|]; cbn; [|done].
  destruct (List.find _ _); cbn; [|done]. intros [[Hk Hl]%andb_true_iff Hc%bool_decide_eq_true]%andb_true_iff.
  exists a. split_and!; [done| |done]. unfold is_grant, is_live. by rewrite Hl, Hk.
Qed.
Lemma transaction_keeps {A} (I : RulesDb → Prop) (a : Sql A) d : I d → (∀ d' x, a d = (d', Ok x) → I d') → I (transaction a d).1.
Proof. intros Hd Ha. unfold transaction. destruct (a d) as [d' [x|e]] eqn:E; [by eapply Ha|done]. Qed.
Lemma insert_token_ok h row d d' r : insert_oauth_token h row d = (d', r) → r = Ok () ∨ d' = d.
Proof. unfold insert_oauth_token, insert_if. case_match; intros [= <- <-]; [by left|by right]. Qed.

Lemma grants_issue `{Crypto} sha256 dice g resource now secret d d' x :
  issue sha256 dice g resource now secret d = (d', Ok x) → live_grant_row g d →
  List.existsb (unspent_code g) (d_codes d) = false →
  count (access_of g) (d_tokens d) = 0 → count (unused_refresh_of g) (d_tokens d) = 0 → GrantsOk d → GrantsOk d'.
Proof.
  unfold issue. intros Hi Hl Hu Ha Hr Hd. revert Hi.
  set (d1 := match agent_token g d with Some (a, _) => (agent_key (is_key dice) g (ag_mailbox_id a) secret Replace d).1 | None => d end).
  assert (GrantsOk d1 ∧ same_rows d d1) as [Hd1 Hs].
  { unfold d1. destruct (agent_token g d) as [[a _]|]; [|by split; [|apply same_rows_refl]].
    split; [by apply grants_agent_key|apply same_rows_agent_key]. }
  clearbody d1. pose proof Hs as (Ec & Et & _). pose proof (same_rows_grant _ _ g Hs Hl) as Hl1.
  set (h1 := hash sha256 (access_token _ _)). set (h2 := hash sha256 (refresh_token _ _)). set (r1 := token_row TOKEN_ACCESS _ _ _). set (r2 := token_row TOKEN_REFRESH _ _ _).
  unfold mbind, action_bind. destruct (insert_oauth_token h1 r1 d1) as [d2 [[]|e]] eqn:E1; [|done].
  destruct (insert_oauth_token h2 r2 d2) as [d3 [[]|e]] eqn:E2; [|done]. intros [= <- _].
  assert (∀ g', String.eqb g g' = true → g' = g) as Heq by (by intros g' ?%String.eqb_eq).
  destruct (grants_token _ _ _ _ E1) as (Hd2 & Et2 & Ea2 & Ec2); try done.
  - cbn. by rewrite Ec.
  - intros g' [Hg%Heq _]%andb_true_iff. by rewrite Hg, Et.
  - intros g' Hg. unfold unused_refresh_of in Hg. cbn in Hg. by rewrite andb_false_r in Hg.
  - destruct (grants_token _ _ _ _ E2) as (Hd3 & _); try done.
    + cbn. destruct Hl1 as (a & Hfa & Hga). exists a. by rewrite (find_agent_agents _ _ _ Ea2).
    + cbn. by rewrite Ec2, Ec.
    + intros g' Hg. unfold access_of in Hg. cbn in Hg. by rewrite andb_false_r in Hg.
    + intros g' Hg. assert (g' = g) as ->.
      { apply Heq. unfold unused_refresh_of, token_of in Hg. cbn in Hg. apply andb_true_iff in Hg as [Hg _]. by apply andb_true_iff in Hg as [Hg _]. }
      rewrite Et2, Et, count_app, count_cons, count_nil, Hr. unfold unused_refresh_of at 1. cbn. by rewrite andb_false_r.
Qed.

Lemma grants_exchange_code `{Crypto} sha256 b64u code verifier redirect client resource now dice secret d :
  GrantsOk d → GrantsOk (exchange_code sha256 b64u code verifier redirect client resource now dice secret d).1.
Proof.
  intros Hd. unfold exchange_code. apply transaction_keeps; [done|]. intros d' x. destruct (auth_code _ d) as [row|] eqn:Erow; [|by intros [= <- _]].
  destruct (ac_used_at row) eqn:Eused; [intros [= <- _]; by apply grants_revoke_grant|].
  destruct (grants_use_code _ _ now _ Erow Hd) as [Hd1 Hu]. revert Hd1 Hu. set (d1 := use_auth_code _ _ _). intros Hd1 Hu. cbv zeta.
  repeat (case_match; [by intros [= <- _]|]).
  unfold mbind, action_bind. destruct (issue _ _ _ _ _ _ d1) as [d2 [tokens|e]] eqn:Ei; [|done]. intros [= <- _].
  match goal with E : _ || _ = false |- _ => apply orb_false_iff in E as [_ E%negb_false_iff]; apply live_grant_spec in E as (a & Ha & Hg & _) end.
  assert (count (token_of (ac_grant_id row)) (d_tokens d1) = 0) as Hnone.
  { destruct Hd as [_ _ _ _ _ _ _ _ _ _ H11]. apply H11. apply existsb_true. destruct (find_code _ _ _ Erow) as (cd & Hc & ->).
    eexists. split; [exact Hc|]. unfold unspent_code. cbn. rewrite String.eqb_refl.
    by rewrite Eused. }
  eapply grants_issue; [exact Ei|by exists a|done| | |done].
  - enough (count (access_of (ac_grant_id row)) (d_tokens d1) ≤ count (token_of (ac_grant_id row)) (d_tokens d1)) by lia.
    apply count_le. by intros t _ [? _]%andb_true_iff.
  - enough (count (unused_refresh_of (ac_grant_id row)) (d_tokens d1) ≤ count (token_of (ac_grant_id row)) (d_tokens d1)) by lia.
    apply count_le. by intros t _ [[? _]%andb_true_iff _]%andb_true_iff.
Qed.

Lemma grants_exchange_refresh `{Crypto} sha256 refresh client resource now dice nonce secret d :
  GrantsOk d → GrantsOk (exchange_refresh sha256 refresh client resource now dice nonce secret d).1.
Proof.
  intros Hd. unfold exchange_refresh. apply transaction_keeps; [done|]. intros d' x.
  destruct (oauth_token _ d) as [row|] eqn:Erow; [|by intros [= <- _]].
  destruct (String.eqb_spec (ot_kind row) TOKEN_REFRESH) as [Ek|]; [|by intros [= <- _]]. cbn [negb].
  destruct (ot_used_at row) eqn:Eused; [intros [= <- _]; by apply grants_revoke_grant|].
  case_match; [by intros [= <- _]|]. case_match eqn:El; [by intros [= <- _]|]. cbv zeta.
  apply orb_false_iff in El as [_ El%negb_false_iff]. apply live_grant_spec in El as (a & Ha & Hg & _).
  destruct (grants_use_token _ _ now _ Erow Ek Eused Hd) as [Hd1 Hr]. revert Hd1 Hr.
  assert (live_grant_row (ot_grant_id row) (use_oauth_token (hash sha256 refresh) now d)) as Hl1 by (by exists a).
  assert (d_codes (use_oauth_token (hash sha256 refresh) now d) = d_codes d) as Ec1 by done. revert Hl1 Ec1.
  generalize (use_oauth_token (hash sha256 refresh) now d). intros d1 Hl1 Ec1 Hd1 Hr.
  destruct (grants_delete_access (ot_grant_id row) _ Hd1) as [Hd2 Hacc].
  set (d2 := delete_access_tokens (ot_grant_id row) d1) in *.
  assert (count (unused_refresh_of (ot_grant_id row)) (d_tokens d2) = 0) as Hr2.
  { pose proof (count_filter_le (unused_refresh_of (ot_grant_id row))
      (λ t, negb (String.eqb (ot_grant_id t.2) (ot_grant_id row) && String.eqb (ot_kind t.2) TOKEN_ACCESS)) (d_tokens d1)).
    change (List.filter _ (d_tokens d1)) with (d_tokens d2) in *. lia. }
  assert (live_grant_row (ot_grant_id row) d2) as Hl2 by done. assert (d_codes d2 = d_codes d) as Ec2 by done.
  clearbody d2. clear d1 Hl1 Ec1 Hd1 Hr.
  set (d3 := match grant_secret_of refresh with Some old => _ | None => _ end).
  assert (GrantsOk d3 ∧ same_rows d2 d3) as [Hd3 Hs].
  { unfold d3. destruct (grant_secret_of refresh); [|by split; [|apply same_rows_refl]].
    split; [by apply grants_rewrap|apply same_rows_rewrap]. }
  clearbody d3. unfold mbind, action_bind. destruct (issue _ _ _ _ _ _ d3) as [d4 [tokens|e]] eqn:Ei; [|done]. intros [= <- _].
  pose proof Hs as (Ec & Et & _).
  eapply grants_issue; [exact Ei|by eapply same_rows_grant| | | |done].
  - rewrite Ec, Ec2. apply not_true_iff_false. intros Hu. destruct Hd as [_ _ _ _ _ _ _ _ _ _ H11].
    specialize (H11 _ Hu). apply find_token in Erow.
    assert (count (token_of (ot_grant_id row)) (d_tokens d) ≠ 0) as Hne; [|done].
    apply elem_of_count. eexists. split; [exact Erow|]. apply String.eqb_refl.
  - by rewrite Et.
  - by rewrite Et.
Qed.
(** A grant is new: no code or token has its id. *)
Lemma grants_redeem code_hash auth_hash row now d : ac_used_at row = None → GrantsOk d →
  GrantsOk (redeem code_hash auth_hash row now d).1.
Proof.
  intros Hrow Hd. unfold redeem. apply transaction_keeps; [done|]. intros d' x.
  unfold redeem_connect_code. destruct (List.find _ _) as [cc|] eqn:Ecc; [|by intros [= <- _]].
  set (d1 := on_connect_codes _ d). assert (GrantsOk d1) as Hd1 by (by apply (grants_same d)).
  clearbody d1. unfold mbind, action_bind.
  set (a := mkAgent _ _ _ _ _ _ _ _). destruct (insert_agent_token a d1) as [d2 [[]|e]] eqn:E1; [|done].
  destruct (insert_auth_code auth_hash row d2) as [d3 [[]|e]] eqn:E2; [|done]. intros [= <- _].
  pose proof (grants_agent _ _ _ E1 Hd1) as Hd2.
  unfold insert_agent_token, insert_if in E1. case_match eqn:E; [|done]. injection E1 as <-.
  apply andb_true_iff in E as [E _]. apply negb_true_iff in E. rewrite existsb_false in E.
  assert (∀ g a', find_agent g d1 = Some a' → g ≠ ac_grant_id row) as Hnew.
  { intros g a' [Hid Ha']%find_agent_id ->. apply E in Ha'. apply not_true_iff_false in Ha'. destruct Ha'. by apply is_agent_eq. }
  eapply (grants_code _ _ (mkAgentRow a None None None)); [exact E2| |done|done| | |done].
  - unfold find_agent. cbn. rewrite find_app.
    destruct (List.find _ (d_agents d1)) as [a'|] eqn:Ef; [by apply Hnew in Ef|]. cbn. unfold is_agent. cbn. by rewrite String.eqb_refl.
  - intros c Hc. destruct (go_code _ Hd1 c Hc) as (a' & Ha' & _). by eapply Hnew.
  - intros t Ht. destruct (go_token _ Hd1 t Ht) as (a' & Ha' & _). by eapply Hnew.
Qed.
Lemma grants_prune now d : GrantsOk d → GrantsOk (prune now d).
Proof.
  apply (grants_fewer d (λ c, negb (ac_expires_at c.2 <? now - SPENT_MS)%Z) (λ t, negb (ot_expires_at t.2 <? now - SPENT_MS)%Z) (λ _, true));
    first [done|by rewrite List_filter_all].
Qed.
Lemma grants_mint `{Crypto} dice row secret d : GrantsOk d → GrantsOk (mint_agent dice row secret d).1.
Proof.
  intros Hd. unfold mint_agent. apply transaction_keeps; [done|]. intros d' x. unfold mbind, action_bind.
  destruct (insert_agent_token row d) as [d1 [[]|e]] eqn:E; [|done]. intros [= <- _]. by eapply grants_agent_key, grants_agent.
Qed.
(** Sealing reports changes reports only. *)
Lemma seal_reports_only `{Crypto} `{RulesText} dice mailbox address key d :
  ∃ f, seal_plain_reports dice mailbox address key d = on_reports f d.
Proof.
  unfold seal_plain_reports. case_match; [|by exists id; destruct d].
  generalize (plain_reports mailbox d). intros rs. revert d.
  induction rs as [|r rs IH]; intros d; [by exists id; destruct d|]. cbn [foldl].
  destruct (IH (match seal_report_for_app (dice (rp_id r)).1 (dice (rp_id r)).2 a address r with
                | Ok sealed => seal_report (rp_id r) sealed d | Err _ => drop_report (rp_id r) d end)) as [f Hf].
  rewrite Hf. case_match; by eexists (λ l, f (_ l)).
Qed.
(** A push that was stored, or changed nothing. *)
Lemma publish_cases `{Crypto} `{RulesText} dice mailbox address row sealed expected now d d' r :
  publish dice mailbox address row sealed expected now d = (d', r) →
  d' = d ∨
  (∃ d1, push_refused mailbox row sealed expected d = None ∧ insert_snapshot mailbox row now d = (d1, Ok ()) ∧
     d' = match sealed with Some s => encrypt_mailbox dice mailbox address (default "" (sn_key_id row)) s d1 | None => d1 end ∧
     r = Ok (Stored (versions mailbox d'))).
Proof.
  unfold publish, transaction. destruct (push_refused _ _ _ _ d) eqn:Ep; [intros [= <- _]; by left|].
  unfold store_push, mbind, action_bind. destruct (insert_snapshot mailbox row now d) as [d1 [[]|e]] eqn:E; cbn; intros [= <- <-].
  - right. exists d1. split_and!; try done. by destruct sealed.
  - by left.
Qed.
Lemma grants_insert_snapshot mailbox row now d d' r : insert_snapshot mailbox row now d = (d', r) → GrantsOk d → GrantsOk d'.
Proof.
  unfold insert_snapshot. case_match; intros [= <- _]; [done|].
  eapply (grants_fewer d (λ _, true) (λ _, true)); try done; cbn; by rewrite ?List_filter_all.
Qed.
Lemma grants_publish `{Crypto} `{RulesText} dice mailbox address row sealed expected now d : GrantsOk d →
  GrantsOk (publish dice mailbox address row sealed expected now d).1.
Proof.
  intros Hd. destruct (publish _ _ _ _ _ _ _ d) as [d' r] eqn:E.
  apply publish_cases in E as [->|(d1 & _ & E & -> & _)]; [done|]. cbn [fst].
  pose proof (grants_insert_snapshot _ _ _ _ _ _ E Hd) as Hd1. destruct sealed as [s|]; [|done]. unfold encrypt_mailbox.
  destruct (seal_reports_only dice mailbox address (pu_app_key s)
    (delete_plain_snapshots mailbox (insert_snapshot_keys mailbox (default "" (sn_key_id row)) (pu_wraps s)
       (set_app_key mailbox (pu_app_key s) d1)).1).1) as [f ->].
  eapply grants_same; [|by apply grants_insert_wraps, grants_set_app_key, Hd1]. by split_and!.
Qed.

(** ** Every closure, every world *)

Lemma grants_tx `{Crypto} `{RulesText} `{Web} c clock client h r past t d :
  may_run c client h r past t → GrantsOk d → GrantsOk (run_tx c clock t d).1.
Proof.
  intros (_ & _ & Ht) Hd. destruct t; cbn -[publish mint_agent redeem exchange_code exchange_refresh agent_key mint_connect_code]; try done.
  - unfold insert_mailbox. case_match; [done|]. by apply (grants_same d).
  - by apply grants_forget.
  - by apply grants_publish.
  - unfold store_keys. case_match; [|done]. destruct (insert_snapshot_keys _ _ _ _) as [d' n] eqn:E. cbn.
    change d' with (d', n).1. rewrite <- E. by apply grants_insert_wraps.
  - by apply grants_mint.
  - by apply grants_revoke_token.
  - unfold mint_connect_code, mbind, action_bind, execute, query. cbv beta iota. case_match; [by apply grants_prune|].
    unfold insert_connect_code, insert_if. destruct (_ && _); cbv beta iota; [|by apply grants_prune].
    apply (grants_same (prune now d)); [done|]. by apply grants_prune.
  - by apply (grants_same d).
  - by apply (grants_same d).
  - unfold file_report, transaction, mbind, action_bind, execute. cbv beta iota. unfold insert_report.
    destruct (negb _); cbv beta iota zeta; [done|]. case_match; by apply (grants_same d).
  - by apply grants_touch.
  - by apply grants_agent_key.
  - unfold register_client, mbind, action_bind, execute. cbv beta iota. unfold insert_client, insert_if.
    destruct (negb _); cbv beta iota; [|by apply grants_prune].
    apply (grants_same (prune (cl_created_at row) d)); [done|]. by apply grants_prune.
  - apply grants_redeem; [|done]. apply Ht.
  - by apply grants_exchange_code.
  - by apply grants_exchange_refresh.
Qed.

Lemma reachable_grants `{Crypto} `{RulesText} `{Web} c w : reachable c w → GrantsOk (sv_db (wd_server w)).
Proof.
  apply (reachable_db c).
  - split; cbn; try (by intros ? ?%elem_of_nil); first [apply NoDup_nil_2|intros; lia|done].
  - intros clock client h r past t d Ht Hd. by eapply grants_tx.
  - intros clock d. by apply (grants_same d).
Qed.
(** Grants are kept in step.  In every reachable world every
    authorization code and OAuth token belongs to a live grant, codes to
    their own client's; a revoked agent has no code, token, key or snapshot
    key of any form; and a grant has at most one access token and one unused
    refresh token, and none at all before its code is spent. *)
Theorem grants_in_step `{Crypto} `{RulesText} `{Web} c w (Hw : reachable c w) : GrantsOk (sv_db (wd_server w)).
Proof. by apply (reachable_grants c). Qed.

(** What holds of the log and the database together. *)
Lemma reachable_log `{Crypto} `{RulesText} `{Web} c (I : list (nat * Done) → RulesDb → Prop) w :
  I [] empty_db →
  (∀ log d r o a, match o with Run _ => False | _ => True end → I log d → I ((r, Did o a) :: log) d) →
  (∀ log d r clock client h rq past t, may_run c client h rq past t → GrantsOk d → I log d →
     I ((r, Did (Run t) (run_tx c clock t d).2) :: log) (run_tx c clock t d).1) →
  (∀ log clock d, I log d → I log (sweep_reports clock d).1) →
  reachable c w → I (wd_log w) (sv_db (wd_server w)).
Proof.
  intros Hnil Hother Htx Hsweep. apply (rtc_ind_r (λ w, I (wd_log w) (sv_db (wd_server w)))); [done|]. clear w.
  intros w w' Hw Hs IH. change (reachable c w) in Hw.
  destruct Hs as [w client h r|w r ip o k clock instant s a Hr Hl Hi Ho|w r ip o k a Hr Hl Ho Ha|w r|w clock]; cbn; try done.
  - pose proof (perform_db _ _ _ _ _ _ _ Ho) as Edb. pose proof (next_may c w r ip o k Hw Hr Hl) as Hm. rewrite Edb.
    destruct o; try (by apply Hother). cbn in Ho.
    specialize (Htx (wd_log w) (sv_db (wd_server w)) r clock _ _ _ _ _ Hm (reachable_grants c w Hw) IH).
    destruct (run_tx _ _ _ _) as [d res] eqn:E. by injection Ho as _ <-.
  - destruct o; try (by apply Hother). cbn in Ho. by destruct (run_tx _ _ _ _).
  - by apply Hsweep.
Qed.
