(* ===== verification/RulesDescent.v ===== *)
(** * RulesDescent: where the rules server's grants come from

    The log of what was done to the server, newest first, against what its
    tables hold: each row descends from the closures that made it, in their
    order, and each code or refresh token was used once. *)

From Stdlib Require Import Ascii.
From S2P Require Import Prelude.
From S2P Require Import Domain.
From S2P Require Import Text.
From S2P Require Import Json.
From S2P Require Import Guide.
From S2P Require Import MailStore.
From S2P Require Import RateLimit.
From S2P Require Import Search.
From S2P Require Import RulesTokens.
From S2P Require Import RulesDb.
From S2P Require Import RulesCrypto.
From S2P Require Import RulesOAuth.
From S2P Require Import RulesPublish.
From S2P Require Import RulesServer.
From S2P Require Import RulesHandlers.
From S2P Require Import RulesWorld.
From S2P Require Import RulesGrants.
From S2P Require Import Effects.

#[local] Close Scope Q_scope.

Abbreviation Log := (list (nat * Done)) (only parsing).
#[local] Abbreviation ran r t a := (r, Did (Run t) a).

(** ** Rows that were there *)

(** What of a row names its origin. *)
Definition agent_origin (a : AgentRow) : string * Z * string * option string :=
  (ag_id (ar_row a), ag_mailbox_id (ar_row a), ag_kind (ar_row a), ag_client_id (ar_row a)).
Definition code_origin (c : string * AuthCodeRow) : string * string * string * string * string :=
  (c.1, ac_grant_id c.2, ac_client_id c.2, ac_redirect_uri c.2, ac_code_challenge c.2).
Record RowsFrom (d d' : RulesDb) : Prop := mkRowsFrom {
  rf_connect cc : cc ∈ d_connect_codes d' → ∃ cc0, cc0 ∈ d_connect_codes d ∧
    cc_mailbox_id cc0 = cc_mailbox_id cc ∧ cc_code_hash cc0 = cc_code_hash cc;
  rf_agent a : a ∈ d_agents d' → ∃ a0, a0 ∈ d_agents d ∧ agent_origin a0 = agent_origin a;
  rf_code x : x ∈ d_codes d' → ∃ x0, x0 ∈ d_codes d ∧ code_origin x0 = code_origin x;
  rf_token x : x ∈ d_tokens d' → ∃ x0, x0 ∈ d_tokens d ∧ ot_grant_id x0.2 = ot_grant_id x.2 }.
#[export] Instance rows_from_refl : Reflexive RowsFrom.
Proof. intros d. split; eauto. Qed.
#[export] Instance rows_from_trans : Transitive RowsFrom.
Proof.
  intros d d' d'' [H1 H2 H3 H4] [H1' H2' H3' H4']. split.
  - intros cc Hcc. destruct (H1' cc Hcc) as (x & Hx & <- & <-). by apply H1.
  - intros a Ha. destruct (H2' a Ha) as (x & Hx & <-). by apply H2.
  - intros a Ha. destruct (H3' a Ha) as (x & Hx & <-). by apply H3.
  - intros a Ha. destruct (H4' a Ha) as (x & Hx & <-). by apply H4.
Qed.
Lemma rows_same d d' : d_connect_codes d' = d_connect_codes d → d_agents d' = d_agents d → d_codes d' = d_codes d →
  d_tokens d' = d_tokens d → RowsFrom d d'.
Proof. intros E Ea Ec Et. split; rewrite ?E, ?Ea, ?Ec, ?Et; eauto. Qed.
Lemma rows_fewer pc pa pk pt d d' :
  d_connect_codes d' = List.filter pc (d_connect_codes d) → d_agents d' = List.filter pa (d_agents d) →
  d_codes d' = List.filter pk (d_codes d) → d_tokens d' = List.filter pt (d_tokens d) → RowsFrom d d'.
Proof. intros E1 E2 E3 E4. split; rewrite ?E1, ?E2, ?E3, ?E4; intros x [_ Hx]%elem_of_List_filter; eauto. Qed.
Lemma rows_on_agent p f d : (∀ a, p a = true → agent_origin (f a) = agent_origin a) → RowsFrom d (on_agent p f d).
Proof.
  intros Hf. split; try (cbn; by eauto). intros a (x & Hx & ->)%in_agents_on. exists x. split; [done|].
  destruct (p x) eqn:E; [by rewrite Hf|done].
Qed.
Lemma rows_revoked p id now d : RowsFrom d (forget_grant_secrets id (on_agent p (with_row (revoked_row now)) d)).
Proof.
  etrans; [by apply (rows_on_agent p (with_row (revoked_row now)))|].
  generalize (on_agent p (with_row (revoked_row now)) d). clear d. intros d.
  transitivity (on_agent (is_agent id) (with_keys None None) d); [by apply rows_on_agent|].
  split; cbn; intros x; try (intros [_ Hx]%elem_of_List_filter); eauto.
Qed.
Lemma rows_use_code h now d : RowsFrom d (use_auth_code h now d).
Proof. split; try (cbn; by eauto). cbn. intros x (y & Hy & ->)%elem_of_List_map. exists y. split; [done|]. by case_match. Qed.
Lemma rows_use_token h now d : RowsFrom d (use_oauth_token h now d).
Proof. split; try (cbn; by eauto). cbn. intros x (y & Hy & ->)%elem_of_List_map. exists y. split; [done|]. by case_match. Qed.
Lemma rows_delete_access g d : RowsFrom d (delete_access_tokens g d).
Proof. split; try (cbn; by eauto). cbn. intros x [_ Hx]%elem_of_List_filter. eauto. Qed.
Lemma rows_prune now d : RowsFrom d (prune now d).
Proof.
  split; cbn; intros x; try (intros [_ Hx]%elem_of_List_filter; by eauto). eauto.
Qed.
Lemma rows_set_keys id w s d : RowsFrom d (set_agent_keys id w s d).
Proof.
  transitivity (on_agent (λ a, is_agent id a && is_live a) (with_keys (Some w) s) d); [by apply rows_on_agent|by apply rows_same].
Qed.
Lemma rows_agent_key `{Crypto} dice id mailbox secret u d : RowsFrom d (agent_key dice id mailbox secret u d).1.
Proof.
  unfold agent_key. destruct (agent_keys id d) as [wrapped sealed]. destruct (opened_key secret id d).
  - cbn [fst]. destruct sealed, (app_public mailbox d); try reflexivity. case_match; [|reflexivity]. by apply rows_on_agent.
  - destruct (match wrapped with Some _ => _ | None => _ end); [reflexivity|].
    destruct (app_public mailbox d); [|reflexivity]. case_match; [|reflexivity]. apply rows_set_keys.
Qed.
Lemma rows_rewrap `{Crypto} nonce id old new d : RowsFrom d (rewrap_agent_key nonce id old new d).1.
Proof. unfold rewrap_agent_key. case_match; [by apply rows_on_agent|reflexivity]. Qed.
Lemma rows_insert_wraps mailbox key_id ws d : RowsFrom d (insert_snapshot_keys mailbox key_id ws d).1.
Proof.
  unfold insert_snapshot_keys. generalize 0. intros n. change d with (d, n).1 at 1. generalize (d, n). clear d n.
  induction ws as [|w ws IH]; intros [d n]; [reflexivity|]. cbn [foldl]. etrans; [|apply IH]. unfold insert_snapshot_key.
  case_match; [by apply rows_same|reflexivity].
Qed.
Lemma rows_publish `{Crypto} `{RulesText} dice mailbox address row sealed expected now d :
  RowsFrom d (publish dice mailbox address row sealed expected now d).1.
Proof.
  destruct (publish _ _ _ _ _ _ _ d) as [d' r] eqn:E.
  apply publish_cases in E as [->|(d1 & _ & E & -> & _)]; [reflexivity|]. cbn [fst].
  assert (RowsFrom d d1) as H1.
  { unfold insert_snapshot in E. case_match; [done|]. injection E as <-. by apply rows_same. }
  etrans; [exact H1|]. destruct sealed as [s|]; [|reflexivity]. unfold encrypt_mailbox.
  destruct (seal_reports_only dice mailbox address (pu_app_key s)
    (delete_plain_snapshots mailbox (insert_snapshot_keys mailbox (default "" (sn_key_id row)) (pu_wraps s)
       (set_app_key mailbox (pu_app_key s) d1)).1).1) as [f ->].
  transitivity (set_app_key mailbox (pu_app_key s) d1).
  - unfold set_app_key. case_match; [|reflexivity]. split; try (cbn; by eauto). intros x (y & Hy & ->)%in_agents_on.
    exists y. split; [done|]. by case_match.
  - etrans; [apply (rows_insert_wraps mailbox (default "" (sn_key_id row)) (pu_wraps s))|]. by apply rows_same.
Qed.
Lemma rows_forget mailbox d : RowsFrom d (delete_mailbox mailbox d).
Proof. split; cbn; intros x [_ Hx]%elem_of_List_filter; eauto. Qed.

(** ** What made a grant *)

Section descent.
Context `{Crypto} `{RulesText} `{Web} (c : Config).
#[local] Abbreviation hash := (RulesTokens.hash sha_256).

(** A connect code was minted for a mailbox. *)
Definition minted (log : Log) (mailbox : Z) (code_hash : string) : Prop :=
  ∃ r row now, ran r (MintCode row now) (Ok true) ∈ log ∧ cc_mailbox_id row = mailbox ∧ cc_code_hash row = code_hash.
(** A grant of a mailbox, and its authorization code, were made of a connect
    code minted for it before. *)
Definition redeemed (log : Log) (mailbox : Z) (auth_hash : string) (row : AuthCodeRow) : Prop :=
  ∃ newer older r code_hash now, log = newer ++ ran r (Redeem code_hash auth_hash row now) (Ok (Some (mailbox, ac_grant_id row))) :: older ∧
    minted older mailbox code_hash.
(** Its code was exchanged after that by its client, to its return address,
    with a verifier of its challenge. *)
Definition exchanged_for (log : Log) (mailbox : Z) (grant : string) : Prop :=
  ∃ newer older r code verifier client resource now dice secret access refresh row,
    log = newer ++ ran r (ExchangeCode code verifier (Some (ac_redirect_uri row)) client resource now dice secret)
                     (Ok (Issued grant access refresh)) :: older ∧
    redeemed older mailbox (hash code) row ∧ ac_grant_id row = grant ∧ ac_client_id row = client ∧
    pkce_matches sha_256 base64_url_of verifier (ac_code_challenge row) = true.

Record Descends (log : Log) (d : RulesDb) : Prop := mkDescends {
  de_connect cc : cc ∈ d_connect_codes d → minted log (cc_mailbox_id cc) (cc_code_hash cc);
  de_agent a : a ∈ d_agents d → ag_kind (ar_row a) = KIND_OAUTH →
    ∃ h row, redeemed log (ag_mailbox_id (ar_row a)) h row ∧ ac_grant_id row = ag_id (ar_row a) ∧
      ag_client_id (ar_row a) = Some (ac_client_id row);
  de_code x a : x ∈ d_codes d → a ∈ d_agents d → ag_id (ar_row a) = ac_grant_id x.2 →
    ∃ row, redeemed log (ag_mailbox_id (ar_row a)) x.1 row ∧ code_origin (x.1, row) = code_origin x;
  de_token x a : x ∈ d_tokens d → a ∈ d_agents d → ag_id (ar_row a) = ot_grant_id x.2 →
    exchanged_for log (ag_mailbox_id (ar_row a)) (ot_grant_id x.2) }.

Lemma minted_later log e m h : minted log m h → minted (e :: log) m h.
Proof. intros (r & row & now & Hin & Hrest). exists r, row, now. split; [by right|done]. Qed.
Lemma redeemed_later log e m h row : redeemed log m h row → redeemed (e :: log) m h row.
Proof. intros (newer & older & r & ch & now & -> & Hm). by exists (e :: newer), older, r, ch, now. Qed.
Lemma exchanged_later log e m g : exchanged_for log m g → exchanged_for (e :: log) m g.
Proof.
  intros (newer & older & r & code & verifier & client & resource & now & dice & secret & access & refresh & row & -> & Hrest).
  by exists (e :: newer), older, r, code, verifier, client, resource, now, dice, secret, access, refresh, row.
Qed.
Lemma descends_later log e d : Descends log d → Descends (e :: log) d.
Proof.
  intros [H1' H2' H3' H4']. split.
  - intros cc Hcc. by apply minted_later, H1'.
  - intros a Ha Hk. destruct (H2' a Ha Hk) as (h & row & Hr & Hrest). exists h, row. split; [by apply redeemed_later|done].
  - intros x a Hx Ha Hid. destruct (H3' x a Hx Ha Hid) as (row & Hr & Hrest). exists row. split; [by apply redeemed_later|done].
  - intros x a Hx Ha Hid. by apply exchanged_later, H4'.
Qed.
(** Rows that were there descend from what they did. *)
Lemma descends_from log d d' : RowsFrom d d' → Descends log d → Descends log d'.
Proof.
  intros [F1 F2 F3 F4] [H1' H2' H3' H4']. split.
  - intros cc Hcc. destruct (F1 cc Hcc) as (x & Hx & <- & <-). by apply H1'.
  - intros a Ha Hk. destruct (F2 a Ha) as (a0 & Ha0 & [= E1 E2 E3 E4]). rewrite <- E3 in Hk.
    destruct (H2' a0 Ha0 Hk) as (h & row & Hr & Hid & Hcl). exists h, row. rewrite <- E2, <- E1, <- E4. done.
  - intros x a Hx Ha Hid. destruct (F3 x Hx) as (x0 & Hx0 & [= G1 G2 G3 G4 G5]). destruct (F2 a Ha) as (a0 & Ha0 & [= E1 E2 E3 E4]).
    destruct (H3' x0 a0 Hx0 Ha0) as (row & Hr & Ho); [congruence|]. exists row. rewrite <- E2, <- G1. split; [done|].
    rewrite Ho. unfold code_origin. congruence.
  - intros x a Hx Ha Hid. destruct (F4 x Hx) as (x0 & Hx0 & E). destruct (F2 a Ha) as (a0 & Ha0 & [= E1 E2 E3 E4]).
    rewrite <- E, <- E2. apply H4'; [done..|congruence].
Qed.
Lemma rows_issue dice g resource now secret d d' tokens :
  issue sha_256 dice g resource now secret d = (d', Ok tokens) →
  ∃ d1 x1 x2, RowsFrom d d1 ∧ d_agents d' = d_agents d1 ∧ d_codes d' = d_codes d1 ∧ d_connect_codes d' = d_connect_codes d1 ∧
    d_tokens d' = d_tokens d1 ++ [x1; x2] ∧ ot_grant_id x1.2 = g ∧ ot_grant_id x2.2 = g.
Proof.
  unfold issue.
  set (d1 := match agent_token g d with Some (a, _) => (agent_key (is_key dice) g (ag_mailbox_id a) secret Replace d).1 | None => d end).
  assert (RowsFrom d d1) as Hs by (unfold d1; destruct (agent_token g d) as [[a ?]|]; [apply rows_agent_key|reflexivity]).
  clearbody d1. unfold mbind, action_bind, insert_oauth_token, insert_if.
  destruct (_ && _); [|done]. destruct (_ && _); [|done]. intros [= <- _].
  exists d1, (hash (access_token (is_access dice) secret), token_row TOKEN_ACCESS g resource (now + ACCESS_TTL_MS)),
    (hash (refresh_token (is_refresh dice) secret), token_row TOKEN_REFRESH g resource (now + REFRESH_TTL_MS)).
  split_and!; try done. cbn. by rewrite <- app_assoc.
Qed.
(** Tokens issued for a grant whose code was exchanged. *)
Lemma descends_issue log dice g resource now secret d d' tokens :
  issue sha_256 dice g resource now secret d = (d', Ok tokens) → Descends log d →
  (∀ a, a ∈ d_agents d → ag_id (ar_row a) = g → exchanged_for log (ag_mailbox_id (ar_row a)) g) → Descends log d'.
Proof.
  intros Hi Hd Hg. destruct (rows_issue _ _ _ _ _ _ _ _ Hi) as (d1 & x1 & x2 & Hs & Ea & Ec & Ecc & Et & E1 & E2).
  destruct (descends_from _ _ _ Hs Hd) as [H1' H2' H3' H4']. split; rewrite ?Ea, ?Ec, ?Ecc, ?Et; try done.
  intros x a [Hx|Hx]%elem_of_app Ha Hid; [by apply H4'|].
  assert (ot_grant_id x.2 = g) as E by (apply elem_of_cons in Hx as [->|Hx]; [done|by apply list_elem_of_singleton in Hx as ->]).
  destruct (rf_agent _ _ Hs a Ha) as (a0 & Ha0 & [= F1 F2 F3 F4]). rewrite E, <- F2. apply Hg; [done|congruence].
Qed.

Lemma transaction_cases {A} (a : Sql A) d d' r : transaction a d = (d', r) → d' = d ∨ ∃ x, a d = (d', Ok x) ∧ r = Ok x.
Proof. unfold transaction. destruct (a d) as [d1 [x|e]]; intros [= <- <-]; [right; eauto|by left]. Qed.

Lemma descends_exchange_code log r code verifier redirect client resource now dice secret d : GrantsOk d → Descends log d →
  let o := exchange_code sha_256 base64_url_of code verifier redirect client resource now dice secret d in
  Descends (ran r (ExchangeCode code verifier redirect client resource now dice secret) o.2 :: log) o.1.
Proof.
  intros Hok Hd. cbv zeta. destruct (exchange_code _ _ _ _ _ _ _ _ _ _ d) as [d' res] eqn:E. cbn [fst snd].
  unfold exchange_code in E. apply transaction_cases in E as [->|(x & E & ->)]; [by apply descends_later|].
  destruct (auth_code _ d) as [row|] eqn:Erow; [|by injection E as <- <-; apply descends_later].
  destruct (ac_used_at row) eqn:Eused.
  { injection E as <- <-. apply descends_later. eapply descends_from; [|exact Hd]. apply rows_revoked. }
  cbv zeta in E. set (d1 := use_auth_code (hash code) now d) in E.
  assert (∀ log', Descends log' d → Descends log' d1) as Hd1 by (intros log'; apply descends_from, rows_use_code).
  case_match; [injection E as <- <-; by apply Hd1, descends_later|].
  destruct (String.eqb_spec (ac_client_id row) client) as [Ecl|]; cbn [negb] in E; [|injection E as <- <-; by apply Hd1, descends_later].
  case_bool_decide as Er; cbn [negb] in E; [|injection E as <- <-; by apply Hd1, descends_later].
  destruct (pkce_matches _ _ _ _) eqn:Ep; cbn [negb] in E; [|injection E as <- <-; by apply Hd1, descends_later].
  case_match; [injection E as <- <-; by apply Hd1, descends_later|].
  unfold mbind, action_bind in E. destruct (issue _ _ _ _ _ _ d1) as [d2 [tokens|e]] eqn:Ei; [|done].
  injection E as <- <-. eapply descends_issue; [exact Ei|by apply Hd1, descends_later|].
  intros a Ha Hid. destruct (find_code _ _ _ Erow) as (x & Hx & ->).
  destruct (de_code _ _ Hd _ a Hx) as (row' & Hred & Ho); [exact Ha|done|]. injection Ho as G2 G3 G4 G5.
  exists [], log, r, code, verifier, client, resource, now, dice, secret, tokens.1, tokens.2, row'.
  rewrite G2, G3, G4, G5, Er. done.
Qed.
Lemma descends_exchange_refresh log r refresh client resource now dice nonce secret d : Descends log d →
  let o := exchange_refresh sha_256 refresh client resource now dice nonce secret d in
  Descends (ran r (ExchangeRefresh refresh client resource now dice nonce secret) o.2 :: log) o.1.
Proof.
  intros Hd. cbv zeta. apply descends_later. destruct (exchange_refresh _ _ _ _ _ _ _ _ d) as [d' res] eqn:E. cbn [fst].
  unfold exchange_refresh in E. apply transaction_cases in E as [->|(x & E & ->)]; [done|].
  destruct (oauth_token _ d) as [row|] eqn:Erow; [|by injection E as <- <-].
  destruct (negb _); [by injection E as <- <-|].
  destruct (ot_used_at row); [injection E as <- <-; by eapply descends_from; [apply rows_revoked|]|].
  case_match; [by injection E as <- <-|]. case_match; [by injection E as <- <-|]. cbv zeta in E.
  set (d1 := delete_access_tokens (ot_grant_id row) (use_oauth_token (hash refresh) now d)) in E.
  set (d2 := match grant_secret_of refresh with Some old => _ | None => _ end) in E.
  assert (RowsFrom d d2) as Hs.
  { transitivity d1; [etrans; [apply rows_use_token|apply rows_delete_access]|].
    unfold d2. destruct (grant_secret_of refresh); [apply rows_rewrap|reflexivity]. }
  clearbody d2. unfold mbind, action_bind in E. destruct (issue _ _ _ _ _ _ d2) as [d3 [tokens|e]] eqn:Ei; [|done].
  injection E as <- <-. eapply descends_issue; [exact Ei|by eapply descends_from|].
  intros a Ha Hid. destruct (rf_agent _ _ Hs a Ha) as (a0 & Ha0 & [= F1 F2 F3 F4]). apply find_token in Erow.
  rewrite <- F2. apply (de_token _ _ Hd _ a0 Erow); [done|cbn; congruence].
Qed.
Lemma descends_redeem log r code_hash auth_hash row now d : GrantsOk d → Descends log d →
  let o := redeem code_hash auth_hash row now d in
  Descends (ran r (Redeem code_hash auth_hash row now) o.2 :: log) o.1.
Proof.
  intros Hok Hd. cbv zeta. destruct (redeem code_hash auth_hash row now d) as [d' res] eqn:E. cbn [fst snd].
  unfold redeem in E. apply transaction_cases in E as [->|(x & E & ->)]; [by apply descends_later|].
  unfold redeem_connect_code in E. destruct (List.find _ _) as [cc|] eqn:Ecc; [|injection E as <- <-; by apply descends_later].
  apply find_Some in Ecc as [[Eh%String.eqb_eq _]%andb_true_iff Hcc]. pose proof (de_connect _ _ Hd _ Hcc) as Hm. rewrite Eh in Hm.
  set (d1 := on_connect_codes _ d) in E.
  assert (RowsFrom d d1) as Hs.
  { split; try (cbn; by eauto). cbn. intros y (z & Hz & ->)%elem_of_List_map. exists z. split; [done|]. by case_match. }
  assert (GrantsOk d1) as Hok1 by (by apply (grants_same d)). clearbody d1.
  unfold mbind, action_bind in E. set (a := mkAgent _ _ _ _ _ _ _ _) in E.
  destruct (insert_agent_token a d1) as [d2 [[]|e]] eqn:E1; [|done].
  destruct (insert_auth_code auth_hash row d2) as [d3 [[]|e]] eqn:E2; [|done]. injection E as <- <-.
  unfold insert_agent_token, insert_if in E1. case_match eqn:En; [|done]. injection E1 as <-.
  unfold insert_auth_code, insert_if in E2. case_match; [|done]. injection E2 as <-.
  apply andb_true_iff in En as [En _]. apply negb_true_iff in En. rewrite existsb_false in En.
  assert (∀ g a', find_agent g d1 = Some a' → g ≠ ac_grant_id row) as Hnew.
  { intros g a' [Hid Ha']%find_agent_id ->. apply En in Ha'. apply not_true_iff_false in Ha'. destruct Ha'. by apply is_agent_eq. }
  destruct (descends_later log (ran r (Redeem code_hash auth_hash row now) (Ok (Some (cc_mailbox_id cc, ac_grant_id row)))) d1
    (descends_from _ _ _ Hs Hd)) as [H1' H2' H3' H4'].
  assert (redeemed (ran r (Redeem code_hash auth_hash row now) (Ok (Some (cc_mailbox_id cc, ac_grant_id row))) :: log)
    (cc_mailbox_id cc) auth_hash row) as Hred by (by exists [], log, r, code_hash, now).
  split; cbn.
  - done.
  - intros a' [Ha|Ha]%elem_of_app; [by apply H2'|]. apply list_elem_of_singleton in Ha as ->. intros _. cbn. by exists auth_hash, row.
  - intros x a' Hx [Ha|Ha]%elem_of_app Hid.
    + apply elem_of_app in Hx as [Hx|Hx]; [by apply H3'|]. apply list_elem_of_singleton in Hx as ->. cbn in Hid.
      exfalso. apply En in Ha. apply not_true_iff_false in Ha. destruct Ha. by apply is_agent_eq.
    + apply list_elem_of_singleton in Ha as ->. cbn in Hid |- *. apply elem_of_app in Hx as [Hx|Hx].
      * exfalso. destruct (go_code _ Hok1 x Hx) as (a' & Ha' & _). by eapply Hnew.
      * apply list_elem_of_singleton in Hx as ->. by exists row.
  - intros x a' Hx [Ha|Ha]%elem_of_app Hid; [by apply H4'|]. apply list_elem_of_singleton in Ha as ->. cbn in Hid.
    exfalso. destruct (go_token _ Hok1 x Hx) as (a' & Ha' & _). by eapply Hnew.
Qed.
Lemma descends_mint_agent log row d d' : insert_agent_token row d = (d', Ok ()) → ag_kind row = KIND_TOKEN → GrantsOk d →
  Descends log d → Descends log d'.
Proof.
  unfold insert_agent_token, insert_if. case_match eqn:En; [|done]. intros [= <-] Hk Hok [H1' H2' H3' H4'].
  apply andb_true_iff in En as [En _]. apply negb_true_iff in En. rewrite existsb_false in En.
  assert (∀ g a', find_agent g d = Some a' → g ≠ ag_id row) as Hnew.
  { intros g a' [Hid Ha']%find_agent_id ->. apply En in Ha'. apply not_true_iff_false in Ha'. destruct Ha'. by apply is_agent_eq. }
  split; cbn; [done|..].
  - intros a [Ha|Ha]%elem_of_app; [by apply H2'|]. apply list_elem_of_singleton in Ha as ->. cbn. by rewrite Hk.
  - intros x a Hx [Ha|Ha]%elem_of_app Hid; [by apply H3'|]. apply list_elem_of_singleton in Ha as ->. cbn in Hid.
    exfalso. destruct (go_code _ Hok x Hx) as (a & Ha & _). by eapply Hnew.
  - intros x a Hx [Ha|Ha]%elem_of_app Hid; [by apply H4'|]. apply list_elem_of_singleton in Ha as ->. cbn in Hid.
    exfalso. destruct (go_token _ Hok x Hx) as (a & Ha & _). by eapply Hnew.
Qed.
Lemma descends_mint_code log r row now d : Descends log d →
  let o := mint_connect_code row now d in Descends (ran r (MintCode row now) o.2 :: log) o.1.
Proof.
  intros Hd. cbv zeta. unfold mint_connect_code, mbind, action_bind, execute, query. cbv beta iota.
  assert (∀ e, Descends (e :: log) (prune now d)) as Hp.
  { intros e. apply descends_later. eapply descends_from; [apply rows_prune|done]. }
  case_match; [apply Hp|]. unfold insert_connect_code, insert_if. destruct (_ && _); cbv beta iota; [|apply Hp].
  cbn [fst snd]. destruct (Hp (ran r (MintCode row now) (Ok true))) as [H1' H2' H3' H4']. split; cbn; try done.
  intros cc [Hcc|Hcc]%elem_of_app; [by apply H1'|]. apply list_elem_of_singleton in Hcc as ->.
  exists r, row, now. split; [by left|done].
Qed.

Lemma rows_others clock t d :
  match t with
  | MintAgent _ _ _ | MintCode _ _ | Redeem _ _ _ _ | ExchangeCode _ _ _ _ _ _ _ _ | ExchangeRefresh _ _ _ _ _ _ _ => True
  | _ => RowsFrom d (run_tx c clock t d).1
  end.
Proof.
  destruct t; cbn -[publish agent_key]; try done.
  - unfold insert_mailbox. case_match; [reflexivity|]. by apply rows_same.
  - apply rows_forget.
  - apply rows_publish.
  - unfold store_keys. case_match; [|reflexivity]. destruct (insert_snapshot_keys _ _ _ _) as [d' n] eqn:E. cbn.
    change d' with (d', n).1. rewrite <- E. apply rows_insert_wraps.
  - unfold revoke_agent_token. case_match; [|reflexivity]. apply rows_revoked.
  - by apply rows_same.
  - by apply rows_same.
  - unfold file_report, transaction, mbind, action_bind, execute. cbv beta iota. unfold insert_report.
    destruct (negb _); cbv beta iota zeta; [reflexivity|]. case_match; by apply rows_same.
  - by apply rows_on_agent.
  - apply rows_agent_key.
  - unfold register_client, mbind, action_bind, execute. cbv beta iota. unfold insert_client, insert_if.
    destruct (negb _); cbv beta iota; [|apply rows_prune]. etrans; [apply (rows_prune (cl_created_at row))|]. by apply rows_same.
Qed.
Lemma reachable_descends w : reachable c w → Descends (wd_log w) (sv_db (wd_server w)).
Proof.
  apply (reachable_log c Descends).
  - split; cbn; intros; set_solver.
  - intros log d r o a _. apply descends_later.
  - intros log d r clock client h rq past t Hm Hok Hd. pose proof (rows_others clock t d) as Hrows.
    destruct t; try (by apply descends_later; eapply descends_from; [exact Hrows|]).
    + destruct Hm as (_ & _ & _ & _ & Hk & _). apply descends_later. cbn -[mint_agent].
      destruct (mint_agent dice row secret d) as [d' res] eqn:E. unfold mint_agent in E.
      apply transaction_cases in E as [->|(x & E & ->)]; [done|]. unfold mbind, action_bind in E.
      destruct (insert_agent_token row d) as [d1 [[]|e]] eqn:E1; [|done]. injection E as <- _.
      eapply descends_from; [apply rows_agent_key|]. by eapply descends_mint_agent.
    + by apply descends_mint_code.
    + by apply descends_redeem.
    + by apply descends_exchange_code.
    + by apply descends_exchange_refresh.
  - intros log clock d. apply descends_from. by apply rows_same.
Qed.
End descent.

(** C31. Every access token goes back to its mailbox's publisher.  When an
    access token is found to sign in a grant, then the server had, in this
    order, minted a connect code for the grant's mailbox; redeemed that code
    for a consent page of one client, making this grant; and exchanged the
    authorization code made with it, sent by the same client for the return
    address the page was for, with a verifier of the page's challenge. *)
Theorem access_descends `{Crypto} `{RulesText} `{Web} c w presented t g address
    (Hw : reachable c w) (Hfound : find_access presented (sv_db (wd_server w)) = Some (t, (g, address))) :
  exchanged_for (wd_log w) (ag_mailbox_id g) (ag_id g).
Proof.
  pose proof (reachable_descends c w Hw) as Hd. unfold find_access in Hfound.
  destruct (oauth_token _ _) as [t'|] eqn:Et; cbn in Hfound; [|done]. apply find_token in Et.
  unfold agent_token in Hfound. destruct (List.find _ (d_agents _)) as [a|] eqn:Ea; cbn in Hfound; [|done].
  destruct (List.find _ (d_mailboxes _)); cbn in Hfound; [|done]. injection Hfound as <- <- _.
  apply find_Some in Ea as [Ea%is_agent_eq Ha]. rewrite Ea. by apply (de_token _ _ Hd _ a Et).
Qed.

(** * Runs of the rules server

    Requests served one operation at a time, computed, as steps of
    [RulesWorld].  One run with a toy cryptography and text registers a
    mailbox, connects an app through its consent page, and lets it read:
    the theorems on worlds are applied there. *)

#[local] Close Scope Q_scope.

(** ** Runs *)

Definition bytes_drawn : list (list N) := [[0; 1; 2; 3; 4; 5; 6; 7; 8; 9; 10; 11; 12; 13; 14; 15]%N].
(** What is drawn in a run: from how much was done before. *)
Definition roll (n : nat) (o : Op) : option (answer o) :=
  match o return option (answer o) with
  | Draw len => Some (Toy.fit len (pretty n))
  | DrawCode => connect_code bytes_drawn
  | DrawKey => Some Toy.dice
  | DrawReports => Some (λ _, (Toy.fit KEY_LEN (pretty n), Toy.fit NONCE_LEN (pretty n)))
  | _ => None
  end.
Lemma roll_drawn n o a : roll n o = Some a → drawn o a.
Proof.
  destruct o; cbn [roll drawn]; try (intros E; match type of E with None = _ => discriminate E end).
  - intros [= <-]. apply Toy.toy_fit_length.
  - intros Ha. by exists bytes_drawn.
  - intros [= <-]. split_and!; vm_compute; reflexivity.
  - intros [= <-] i. split; apply Toy.toy_fit_length.
Qed.

Section runs.
Context `{Crypto} `{RulesText} `{Web} (c : Config).

(** A request's next operation, at a time. *)
Definition go_on (r : nat) (clock : Millis) (w : World) : option World :=
  ip ← wd_running w !! r;
  match ip_left ip with
  | Ret _ => None
  | Vis o k =>
      match perform_op c clock (wd_instant w) o (wd_server w) with
      | Some (s, a) => Some (went_on r ip o a (k a) s (wd_instant w) w)
      | None => a ← roll (length (wd_log w)) o; Some (went_on r ip o a (k a) (wd_server w) (wd_instant w) w)
      end
  end.
Fixpoint go_on_for (n r : nat) (clock : Millis) (w : World) : World :=
  match n with
  | 0 => w
  | S n => match go_on r clock w with Some w => go_on_for n r clock w | None => w end
  end.
Definition start (client : string) (h : Headers) (r : Request) (w : World) : World :=
  mkWorld (wd_server w) (wd_instant w) (S (wd_started w))
    (<[wd_started w := mkInProgress client h r [] (handle c client h r)]> (wd_running w)) (wd_log w).
(** A request served whole, with no other meanwhile; none does more than
    [40] operations. *)
Definition serve (client : string) (h : Headers) (r : Request) (clock : Millis) (w : World) : World :=
  go_on_for 40 (wd_started w) clock (start client h r w).
Definition reply_to (r : nat) (w : World) : option Reply :=
  ip ← wd_running w !! r; match ip_left ip with Ret a => Some a | Vis _ _ => None end.
Definition last_reply (w : World) : option Reply := reply_to (wd_started w - 1) w.

Lemma draws_undetermined o clock clock' instant instant' s : perform_op c clock instant o s = None →
  perform_op c clock' instant' o s = None.
Proof.
  destruct o; cbn [perform_op]; try done;
    repeat match goal with |- context [let '(_, _) := ?x in _] => destruct x end; try done.
Qed.
Lemma go_on_step r clock w w' : go_on r clock w = Some w' → step c w w'.
Proof.
  unfold go_on. destruct (wd_running w !! r) as [ip|] eqn:Hr; cbn; [|done].
  destruct (ip_left ip) as [|o k] eqn:Hl; [done|]. destruct (perform_op _ _ _ _ _) as [[s a]|] eqn:Ho.
  - intros [= <-]. by eapply step_op; [..|apply Qle_refl|].
  - destruct (roll _ o) as [a|] eqn:Ea; cbn; [|done]. intros [= <-].
    eapply step_draw; [done|done|by eapply draws_undetermined|by eapply roll_drawn].
Qed.
Lemma go_on_for_steps n r clock w : rtc (step c) w (go_on_for n r clock w).
Proof.
  revert w. induction n as [|n IH]; intros w; cbn; [done|]. destruct (go_on r clock w) eqn:E; [|done].
  eapply rtc_l; [by eapply go_on_step|apply IH].
Qed.
Lemma reachable_start client h r w : reachable c w → reachable c (start client h r w).
Proof. intros Hw. eapply rtc_r; [exact Hw|apply step_start]. Qed.
Lemma reachable_go_on n r clock w : reachable c w → reachable c (go_on_for n r clock w).
Proof. intros Hw. unfold reachable. etrans; [exact Hw|apply go_on_for_steps]. Qed.
Lemma reachable_serve client h r clock w : reachable c w → reachable c (serve client h r clock w).
Proof. intros Hw. by apply reachable_go_on, reachable_start. Qed.
End runs.

(** A closure among what was done, and what was done before. *)
Fixpoint find_run (p : Tx → bool) (l : list Done) : option (list Done * { t & answer (Run t) } * list Done) :=
  match l with
  | [] => None
  | Did o a :: past =>
      let next := '(newer, ta, past') ← find_run p past; Some (Did o a :: newer, ta, past') in
      match o return answer o → option (list Done * { t & answer (Run t) } * list Done) with
      | Run t => λ a, if p t then Some ([], existT t a, past) else next
      | _ => λ _, next
      end a
  end.
Lemma find_run_split p l newer ta past : find_run p l = Some (newer, ta, past) →
  l = newer ++ Did (Run (projT1 ta)) (projT2 ta) :: past ∧ p (projT1 ta) = true.
Proof.
  revert newer past. induction l as [|[o a] l IH]; intros newer past; [done|].
  assert (∀ newer, ('(newer, ta, past') ← find_run p l; Some (Did o a :: newer, ta, past')) = Some (newer, ta, past) →
    Did o a :: l = newer ++ Did (Run (projT1 ta)) (projT2 ta) :: past ∧ p (projT1 ta) = true) as Hnext.
  { intros newer' E. destruct (find_run p l) as [[[n1 t1] p1]|]; cbn in E; [|done].
    injection E as <- <- <-. by destruct (IH n1 p1) as [-> Hp]. }
  cbn [find_run]. destruct o; try apply Hnext. destruct (p t) eqn:Hp; [|apply Hnext]. by intros [= <- <- <-].
Qed.

(** ** One run *)

Module ToyServer.
#[local] Existing Instance Toy.crypto.
(** Bodies are named; each names the JSON it says. *)
Definition json (body : string) : option Json :=
  if String.eqb body "mailbox" then Some (JObject [("address", JString "Scout@A.example")])
  else if String.eqb body "other" then Some (JObject [("address", JString "other@b.example")])
  else if String.eqb body "name" then Some (JObject [("name", JString "Scout")])
  else if String.eqb body "app" then
    Some (JObject [("client_name", JString "An app"); ("redirect_uris", JArray [JString "https://app.example/back"])])
  else None.
#[export] Instance rules_text : RulesText := {|
  lowercase := ascii_lower; alphanumeric _ := true; sha_256 s := s; base64_url_of b := before 43 (hex b);
  markdown_text s := s; rfc3339 ms := Some (pretty ms); parse_rfc3339 := parse_i64; json_of := json; json_strict := json;
  json_string _ := ""; snapshot_of _ := Err ""; snapshot_text _ := "" |}.
Definition pair_of (kv : string) : string * string := default (kv, "") (split_once "=" kv).
#[export] Instance web : Web := {|
  url_parse s :=
    rest ← strip_prefix "https://" s;
    let '(host, path) := default (rest, "") (split_once "/" rest) in
    Some (mkUrl "https" (Some host) None ("/" +:+ path) None None "" None ("https://" +:+ host));
  form_parse s := if String.eqb s "" then [] else pair_of <$> split_on "&" s;
  append_pairs s kvs := foldl (λ s kv, s +:+ "&" +:+ kv.1 +:+ "=" +:+ kv.2) s kvs |}.

Definition config : Config := mkConfig 60 None (Some "https://rules.example") false "epoch".
Definition no_headers : Headers := mkHeaders None None None [].
Definition with_token (t : string) : Headers := mkHeaders (Some ("Bearer " +:+ t)) None None [].
Definition at_ : string := "scout@a.example".
Definition browser := "10.0.0.1".
#[local] Abbreviation serve := (serve config).

Definition registered : World := serve "10.0.0.2" no_headers (RegisterMailbox "mailbox") 1000 (new_world empty_db).
Definition publisher_token : string :=
  match last_reply registered with Some (MailboxRegistered _ t) => t | _ => "" end.
Definition invited : World := serve "10.0.0.2" (with_token publisher_token) (PostCode at_ "name") 2000 registered.
Definition code : string := match last_reply invited with Some (CodeMinted _ code) => code | _ => "" end.
Definition app_known : World := serve "10.0.0.3" no_headers (OAuthRegister "app") 3000 invited.
Definition client_id : string := match last_reply app_known with Some (ClientRegistered row) => cl_id row | _ => "" end.
Definition verifier : string := "ABCDEFGHIJKLMNOPQRSTUVWXYZ0123456789abcdefg".
Definition asked : World :=
  serve browser no_headers
    (Authorize (Some ("client_id=" +:+ client_id +:+ "&redirect_uri=https://app.example/back&response_type=code&code_challenge=" +:+
       base64_url_of verifier +:+ "&code_challenge_method=S256&state=s"))) 4000 app_known.
Definition page : string * string :=
  match last_reply asked with Some (ConsentPage request _ _ (Some cookie)) => (request, before (30 + 43) cookie) | _ => ("", "") end.
Definition allowed : World :=
  serve browser (mkHeaders None None (Some (Some "https://rules.example")) [Some page.2])
    (Consent ("request=" +:+ page.1 +:+ "&connect_code=" +:+ code)) 5000 asked.
Definition auth_code : string :=
  match last_reply allowed with
  | Some (Redirected location _) => match form_parse location with [_; (_, code); _; _] => code | _ => "" end
  | _ => ""
  end.
Definition connected : World :=
  serve "10.0.0.4" no_headers
    (Token ("grant_type=authorization_code&client_id=" +:+ client_id +:+ "&redirect_uri=https://app.example/back&code=" +:+ auth_code +:+
       "&code_verifier=" +:+ verifier)) 6000 allowed.
Definition access : string := match last_reply connected with Some (TokensIssued access _) => access | _ => "" end.
Definition reading : World := serve "10.0.0.4" (with_token access) (CallTool "facts_lookup" (JObject [])) 7000 connected.

(** A mint, and its mailbox forgotten and another registered meanwhile. *)
Definition minting : World :=
  go_on_for config 3 (wd_started registered) 2000 (start config "10.0.0.2" (with_token publisher_token) (PostToken at_ "name") registered).
Definition other_registered : World :=
  serve "10.0.0.5" no_headers (RegisterMailbox "other") 4000
    (serve "10.0.0.2" (with_token publisher_token) (Forget at_) 3000 minting).
Definition minted_after : World := go_on_for config 40 (wd_started registered) 5000 other_registered.
Definition agent_minted : string :=
  match reply_to (wd_started registered) minted_after with Some (TokenMinted row _) => ag_id row | _ => "" end.
End ToyServer.

#[local] Existing Instance Toy.crypto.
#[local] Existing Instance ToyServer.rules_text.
#[local] Existing Instance ToyServer.web.
Lemma toy_reachable :
  reachable ToyServer.config ToyServer.registered ∧ reachable ToyServer.config ToyServer.connected ∧
  reachable ToyServer.config ToyServer.reading.
Proof.
  assert (reachable ToyServer.config (new_world empty_db)) as H0 by apply rtc_refl.
  split_and!; repeat apply reachable_serve; exact H0.
Qed.

(** What request [r] of the run did. *)
Definition toy_done (r : nat) : list Done := default [] (ip_done <$> wd_running ToyServer.reading !! r).
Lemma toy_running r newer d past : toy_done r = newer ++ d :: past →
  ∃ ip, wd_running ToyServer.reading !! r = Some ip ∧ ip_done ip = newer ++ d :: past.
Proof.
  unfold toy_done. destruct (wd_running ToyServer.reading !! r) as [ip|]; cbn; [by exists ip|]. by destruct newer.
Qed.
Definition is_mint_code (t : Tx) : bool := match t with MintCode _ _ => true | _ => false end.
Definition is_open (t : Tx) : bool := match t with OpenSnapshot _ _ _ _ => true | _ => false end.

Lemma publishers_authorised_witness :
  ∃ row w0, reachable ToyServer.config w0 ∧ mailbox_by_address ToyServer.at_ (sv_db (wd_server w0)) = Some row ∧
    mb_publisher_token_hash row = RulesTokens.hash sha_256 ToyServer.publisher_token ∧ mb_id row = 1%Z.
Proof.
  destruct toy_reachable as (_ & _ & Hw). destruct (find_run is_mint_code (toy_done 1)) as [[[newer ta] past]|] eqn:E.
  2: { exfalso. revert E. by vm_compute. }
  assert (publisher_call <$> (projT1 ∘ snd ∘ fst <$> find_run is_mint_code (toy_done 1)) = Some (Some 1%Z)) as Em by by vm_compute.
  rewrite E in Em. cbn in Em. injection Em as Em. apply find_run_split in E as [E _].
  destruct (toy_running _ _ _ _ E) as (ip & Hip & Hd).
  assert ((λ ip, (path_of (ip_request ip), bearer (hd_authorization (ip_headers ip)))) <$> wd_running ToyServer.reading !! 1 =
    Some (Some ToyServer.at_, Some ToyServer.publisher_token)) as Er by by vm_compute.
  rewrite Hip in Er. cbn in Er. injection Er as Ep Eb.
  destruct (publishers_authorised ToyServer.config ToyServer.reading 1 ip newer _ _ past 1
    Hw Hip Hd Em) as (path & address & token & H1 & H2 & H3 & w0 & row & H4 & _ & H5 & H6 & H7).
  rewrite Ep in H1. injection H1 as <-. rewrite Eb in H3. injection H3 as <-.
  assert (address = ToyServer.at_) as -> by (revert H2; vm_compute; congruence).
  exists row, w0. exact (conj H4 (conj H5 (conj H6 H7))).
Defined.
Lemma agents_authorised_witness :
  ∃ w0 t g address, reachable ToyServer.config w0 ∧
    find_access (RulesTokens.hash sha_256 ToyServer.access) (sv_db (wd_server w0)) = Some (t, (g, address)) ∧
    ag_mailbox_id g = 1%Z.
Proof.
  destruct toy_reachable as (_ & _ & Hw). destruct (find_run is_open (toy_done 6)) as [[[newer ta] past]|] eqn:E.
  2: { exfalso. revert E. by vm_compute. }
  assert ((x ← find_run is_open (toy_done 6); snd <$> agent_call (projT1 x.1.2)) = Some 1%Z) as Em by by vm_compute.
  rewrite E in Em. change (snd <$> agent_call (projT1 ta) = Some 1%Z) in Em.
  destruct (agent_call (projT1 ta)) as [[id mailbox]|] eqn:Ec; [|discriminate Em]. injection Em as ->.
  apply find_run_split in E as [E _]. destruct (toy_running _ _ _ _ E) as (ip & Hip & Hd).
  assert ((λ ip, bearer (hd_authorization (ip_headers ip))) <$> wd_running ToyServer.reading !! 6 = Some (Some ToyServer.access)) as Er
    by by vm_compute.
  rewrite Hip in Er. cbn in Er. injection Er as Eb.
  destruct (agents_authorised ToyServer.config ToyServer.reading 6 ip newer _ _ past id 1 Hw Hip Hd Ec)
    as (token & w0 & H1 & H2 & _ & [(row & address & H3 & _)|(t & g & address & now & issuer & _ & H3 & _ & _ & H4)]).
  all: rewrite Eb in H1.
  all: apply (inj Some) in H1; rewrite <- H1 in H3.
  - exfalso. revert H3. vm_compute. discriminate.
  - exists w0, t, g, address. exact (conj H2 (conj H3 H4)).
Defined.
Lemma grants_in_step_witness : ∃ t, t ∈ d_tokens (sv_db (wd_server ToyServer.connected)) ∧
  live_grant_row (ot_grant_id t.2) (sv_db (wd_server ToyServer.connected)).
Proof.
  destruct toy_reachable as (_ & Hw & _). pose proof (grants_in_step ToyServer.config _ Hw) as Hok.
  destruct (head (d_tokens (sv_db (wd_server ToyServer.connected)))) as [t|] eqn:E.
  2: { exfalso. revert E. by vm_compute. }
  assert (t ∈ d_tokens (sv_db (wd_server ToyServer.connected))) as Ht.
  { revert E. generalize (d_tokens (sv_db (wd_server ToyServer.connected))). intros [|t' l]; [discriminate|]. intros [= ->]. by left. }
  exists t. exact (conj Ht (go_token _ Hok t Ht)).
Defined.
Lemma access_descends_witness : ∃ g, ag_mailbox_id g = 1%Z ∧ exchanged_for (wd_log ToyServer.connected) 1 (ag_id g).
Proof.
  destruct toy_reachable as (_ & Hw & _).
  destruct (find_access (RulesTokens.hash sha_256 ToyServer.access) (sv_db (wd_server ToyServer.connected)))
    as [[t [g address]]|] eqn:E; [|exfalso; revert E; vm_compute; discriminate].
  assert ((λ x, ag_mailbox_id x.2.1) <$> find_access (RulesTokens.hash sha_256 ToyServer.access) (sv_db (wd_server ToyServer.connected)) =
    Some 1%Z) as Em by by vm_compute.
  rewrite E in Em. cbn in Em. injection Em as Em. exists g. rewrite <- Em at 2.
  exact (conj Em (access_descends ToyServer.config _ _ t g address Hw E)).
Defined.

(** The agent a reply says was minted. *)
Definition minted_row (r : option Reply) : option AgentTokenRow :=
  match r with Some (TokenMinted row _) => Some row | _ => None end.
(** A mailbox's id is used again once it is forgotten, and a publisher's
    check and its act are two closures: a mint that began before can make
    an agent of another address's mailbox. *)
Example forgotten_id_reused : ∃ w row, reachable ToyServer.config w ∧
  path_of ∘ ip_request <$> wd_running w !! 1 = Some (Some ToyServer.at_) ∧ minted_row (reply_to 1 w) = Some row ∧
  agent_token (ag_id row) (sv_db (wd_server w)) = Some (row, "other@b.example").
Proof.
  exists ToyServer.minted_after, (mkAgent "3133000000000000" 1 "Scout"
    (RulesTokens.hash sha_256 "oagc_agt_3133000000000000_3134000000000000000000000000000000000000000") 5000 None KIND_TOKEN None).
  split_and!; [|vm_compute; reflexivity..].
  destruct toy_reachable as (Hw & _). by apply reachable_go_on, reachable_serve, reachable_serve, reachable_go_on, reachable_start.
Qed.
