(* ===== verification/AgentLog.v ===== *)
(** * AgentLog: agent sessions, their transcripts and the activity log
    ([mail-store/src/agents.rs])

    The three tables, each operation a statement on them; [REAL] costs are
    rationals, and a title is the prompt serde reads back. *)

From Stdlib Require Import QArith.
From S2P Require Import Prelude.
From S2P Require Import Domain.
From S2P Require Import MailStore.

Record TranscriptRow := mkTranscript { tr_session : Z; tr_seq : Z; tr_role : string; tr_content_json : string }.
Record SessionRow := mkSessionRow {
  sr_id : Z; sr_uuid : string; sr_provider : string; sr_external_id : option string; sr_state : string;
  sr_started_at : Millis; sr_ended_at : option Millis; sr_prompt_count : Z; sr_cost_usd : option Q }.
Record ActionRow := mkActionRow {
  ar_id : Z; ar_session : Z; ar_tool : string; ar_args_json : string; ar_risk : string; ar_state : string;
  ar_result_summary : option string; ar_created_at : Millis; ar_resolved_at : option Millis }.
Record AgentTables := mkAgentTables {
  agent_sessions : list SessionRow; agent_transcript : list TranscriptRow; agent_actions : list ActionRow }.
Definition no_agents : AgentTables := mkAgentTables [] [] [].

Definition with_session_rows (x : list SessionRow) (t : AgentTables) : AgentTables :=
  mkAgentTables x (agent_transcript t) (agent_actions t).
Definition with_actions (x : list ActionRow) (t : AgentTables) : AgentTables :=
  mkAgentTables (agent_sessions t) (agent_transcript t) x.

Definition rowid (uuid : string) (t : AgentTables) : option Z :=
  sr_id <$> find_by sr_uuid uuid (agent_sessions t).
(** [UPDATE agent_sessions SET ... WHERE uuid = ?] *)
Definition update_session_row (uuid : string) (f : SessionRow → SessionRow) (t : AgentTables) : AgentTables :=
  with_session_rows ((λ r, if String.eqb (sr_uuid r) uuid then f r else r) <$> agent_sessions t) t.

(** ** Sessions *)

(** Idempotent: resuming reuses the row. *)
Definition start_session (uuid provider : string) (now : Millis) (t : AgentTables) : AgentTables :=
  match rowid uuid t with
  | Some _ => update_session_row uuid
      (λ r, mkSessionRow (sr_id r) (sr_uuid r) (sr_provider r) (sr_external_id r) "active" (sr_started_at r) None
              (sr_prompt_count r) (sr_cost_usd r)) t
  | None => with_session_rows (agent_sessions t ++
      [mkSessionRow (next_rowid (sr_id <$> agent_sessions t)) uuid provider None "active" now None 0 None]) t
  end.
Definition set_external_id (uuid external_id : string) : AgentTables → AgentTables :=
  update_session_row uuid
    (λ r, mkSessionRow (sr_id r) (sr_uuid r) (sr_provider r) (Some external_id) (sr_state r) (sr_started_at r)
            (sr_ended_at r) (sr_prompt_count r) (sr_cost_usd r)).
Definition end_session (uuid : string) (now : Millis) : AgentTables → AgentTables :=
  update_session_row uuid
    (λ r, mkSessionRow (sr_id r) (sr_uuid r) (sr_provider r) (sr_external_id r) "ended" (sr_started_at r) (Some now)
            (sr_prompt_count r) (sr_cost_usd r)).
Definition add_cost (uuid : string) (cost_usd : Q) : AgentTables → AgentTables :=
  update_session_row uuid
    (λ r, mkSessionRow (sr_id r) (sr_uuid r) (sr_provider r) (sr_external_id r) (sr_state r) (sr_started_at r)
            (sr_ended_at r) (sr_prompt_count r) (Some (default 0%Q (sr_cost_usd r) + cost_usd)%Q)).

(** ** Transcripts *)

Definition count_prompt (session : Z) (t : AgentTables) : AgentTables :=
  with_session_rows ((λ r, if bool_decide (sr_id r = session)
    then mkSessionRow (sr_id r) (sr_uuid r) (sr_provider r) (sr_external_id r) (sr_state r) (sr_started_at r)
           (sr_ended_at r) (sr_prompt_count r + 1) (sr_cost_usd r)
    else r) <$> agent_sessions t) t.
Definition lines_of (session : Z) (t : AgentTables) : list TranscriptRow :=
  List.filter (λ l, bool_decide (tr_session l = session)) (agent_transcript t).
(** [COALESCE(MAX(seq), 0) + 1] of the session's lines. *)
Definition next_seq (session : Z) (t : AgentTables) : Z := next_rowid (tr_seq <$> lines_of session t).
Definition append (uuid role content_json : string) (t : AgentTables) : AgentTables :=
  match rowid uuid t with
  | None => t
  | Some session =>
      let t := mkAgentTables (agent_sessions t)
                 (agent_transcript t ++ [mkTranscript session (next_seq session t) role content_json])
                 (agent_actions t) in
      if String.eqb role "user" then count_prompt session t else t
  end.

Definition seq_le (a b : TranscriptRow) : Prop := (tr_seq a ≤ tr_seq b)%Z.
#[export] Instance seq_le_dec a b : Decision (seq_le a b).
Proof. unfold seq_le. apply _. Defined.
#[export] Instance seq_le_total : Total seq_le.
Proof. intros a b. unfold seq_le. lia. Qed.
#[export] Instance seq_le_trans : Transitive seq_le.
Proof. intros a b c. unfold seq_le. lia. Qed.
Definition transcript (uuid : string) (t : AgentTables) : list (string * string) :=
  match rowid uuid t with
  | Some session => (λ l, (tr_role l, tr_content_json l)) <$> merge_sort seq_le (lines_of session t)
  | None => []
  end.

(** *** Reading sessions *)

Record AgentSessionRow := mkAgentSession {
  as_uuid : string; as_provider : string; as_external_id : option string; as_started_at : Millis;
  as_ended_at : option Millis; as_prompt_count : Z; as_cost_usd : option Q; as_title : string }.
Definition session_row (title : string) (r : SessionRow) : AgentSessionRow :=
  mkAgentSession (sr_uuid r) (sr_provider r) (sr_external_id r) (sr_started_at r) (sr_ended_at r)
    (as_u32 (Z.max (sr_prompt_count r) 0)) (sr_cost_usd r) title.
Definition get_session (uuid : string) (t : AgentTables) : option AgentSessionRow :=
  session_row "" <$> find_by sr_uuid uuid (agent_sessions t).

Definition newest_session (a b : SessionRow) : Prop :=
  (sr_started_at b < sr_started_at a ∨ sr_started_at a = sr_started_at b ∧ sr_id b ≤ sr_id a)%Z.
#[export] Instance newest_session_dec a b : Decision (newest_session a b).
Proof. unfold newest_session. apply _. Defined.

Section titles.
Context (json_string : string → option string). (** [serde_json::from_str::<String>] *)

(** The first prompt of a session. *)
Definition first_prompt (r : SessionRow) (t : AgentTables) : option string :=
  tr_content_json <$> head (merge_sort seq_le
    (List.filter (λ l, String.eqb (tr_role l) "user") (lines_of (sr_id r) t))).
Definition list_sessions (limit : Z) (t : AgentTables) : list AgentSessionRow :=
  (λ r, session_row (default "" (first_prompt r t ≫= json_string)) r) <$>
    take (Z.to_nat limit)
      (merge_sort newest_session (List.filter (λ r, 0 <? sr_prompt_count r)%Z (agent_sessions t))).
End titles.

(** ** The activity log *)

Definition record_action (uuid tool args_json risk state : string) (now : Millis) (t : AgentTables) :
    AgentTables * option Z :=
  match rowid uuid t with
  | None => (t, None)
  | Some session =>
      let id := next_rowid (ar_id <$> agent_actions t) in
      (with_actions (agent_actions t ++ [mkActionRow id session tool args_json risk state None now None]) t, Some id)
  end.
Definition update_action (id : Z) (state : string) (summary : option string) (now : Millis) (t : AgentTables) :
    AgentTables :=
  with_actions ((λ a, if bool_decide (ar_id a = id)
    then mkActionRow (ar_id a) (ar_session a) (ar_tool a) (ar_args_json a) (ar_risk a) state
           (match summary with Some s => Some s | None => ar_result_summary a end) (ar_created_at a) (Some now)
    else a) <$> agent_actions t) t.

Definition newest_action (a b : ActionRow) : Prop := (ar_id b ≤ ar_id a)%Z.
#[export] Instance newest_action_dec a b : Decision (newest_action a b).
Proof. unfold newest_action. apply _. Defined.
(** With the session's uuid; the log keeps no row of a session it lost. *)
Definition list_actions (limit : Z) (t : AgentTables) : list (string * ActionRow) :=
  take (Z.to_nat limit)
    (omap (λ a, r ← find_by sr_id (ar_session a) (agent_sessions t); Some (sr_uuid r, a))
       (merge_sort newest_action (agent_actions t))).

(** ** What the tables keep *)

(** A session's lines are numbered from 1 in the order they were added. *)
Definition tables_ok (t : AgentTables) : Prop :=
  NoDup (sr_uuid <$> agent_sessions t) ∧ NoDup (sr_id <$> agent_sessions t) ∧
  Forall (λ l, tr_session l ∈ sr_id <$> agent_sessions t) (agent_transcript t) ∧
  ∀ session, tr_seq <$> lines_of session t = seqZ 1 (Z.of_nat (length (lines_of session t))).

Lemma next_rowid_seqZ n : next_rowid (seqZ 1 (Z.of_nat n)) = (Z.of_nat n + 1)%Z.
Proof.
  destruct n as [|n]; [done|]. rewrite seqZ_cons by lia. cbn [next_rowid].
  assert (∀ (m : nat) a i, (i ≤ a)%Z → foldr Z.max i (seqZ (a + 1) (Z.of_nat m)) = if decide (m = 0%nat) then i else (a + Z.of_nat m)%Z) as Hm.
  { clear n. induction m as [|m IH]; intros a i Hi; [done|]. rewrite seqZ_cons by lia. cbn [foldr].
    replace (Z.pred (Z.of_nat (S m))) with (Z.of_nat m) by lia. replace (Z.succ (a + 1)) with (a + 1 + 1)%Z by lia.
    rewrite (IH (a + 1)%Z i) by lia. rewrite (decide_False (P := S m = 0)) by lia. case_decide; lia. }
  replace (Z.succ 1) with (1 + 1)%Z by lia. replace (Z.pred (Z.of_nat (S n))) with (Z.of_nat n) by lia.
  rewrite Hm by lia. case_decide; lia.
Qed.
Lemma seqZ_seq_sorted (l : list TranscriptRow) a n : tr_seq <$> l = seqZ a n → Sorted seq_le l.
Proof.
  intros Hl. apply StronglySorted_Sorted. revert a n Hl. induction l as [|x l IH]; intros a n Hl; [constructor|].
  assert (0 < n)%Z as Hn by (destruct (decide (0 < n)%Z); [done|]; by rewrite seqZ_nil in Hl by lia).
  rewrite seqZ_cons in Hl by done. cbn in Hl. injection Hl as Hx Hl. constructor; [by eapply IH|].
  apply Forall_forall. intros y Hy. assert (tr_seq y ∈ seqZ (Z.succ a) (Z.pred n)) as Hin.
  { rewrite <- Hl. by apply list_elem_of_fmap_2. }
  apply elem_of_seqZ in Hin. unfold seq_le. lia.
Qed.

Definition add_line (l : TranscriptRow) (t : AgentTables) : AgentTables :=
  mkAgentTables (agent_sessions t) (agent_transcript t ++ [l]) (agent_actions t).
Lemma lines_of_add session l t :
  lines_of session (add_line l t) = lines_of session t ++ (if bool_decide (tr_session l = session) then [l] else []).
Proof. unfold lines_of. cbn. rewrite List.filter_app. cbn. by case_bool_decide. Qed.
Lemma sessions_update_ids f t : (∀ r, sr_uuid (f r) = sr_uuid r ∧ sr_id (f r) = sr_id r) →
  sr_uuid <$> (f <$> agent_sessions t) = sr_uuid <$> agent_sessions t ∧
  sr_id <$> (f <$> agent_sessions t) = sr_id <$> agent_sessions t.
Proof. intros Hf. rewrite <- !list_fmap_compose. split; apply list_fmap_ext; intros; apply Hf. Qed.

(** The sessions change, but not who they are. *)
Lemma tables_ok_sessions f t : (∀ r, sr_uuid (f r) = sr_uuid r ∧ sr_id (f r) = sr_id r) →
  tables_ok t → tables_ok (with_session_rows (f <$> agent_sessions t) t).
Proof.
  intros Hf (H1 & H2 & H3 & H4). destruct (sessions_update_ids f t Hf) as [E1 E2].
  split; [by cbn; rewrite E1|]. split; [by cbn; rewrite E2|]. split; [by cbn; rewrite E2|apply H4].
Qed.
Lemma tables_ok_add session role c t : session ∈ sr_id <$> agent_sessions t → tables_ok t →
  tables_ok (add_line (mkTranscript session (next_seq session t) role c) t).
Proof.
  intros Hin (H1 & H2 & H4 & H3). split; [done|]. split; [done|].
  split; [apply Forall_app; split; [done|by constructor]|]. intros s. rewrite lines_of_add. cbn.
  case_bool_decide as Hs; [subst|by rewrite app_nil_r].
  rewrite fmap_app, H3, length_app, Nat2Z.inj_add, seqZ_app by lia. f_equal. unfold next_seq.
  rewrite H3, next_rowid_seqZ. cbn. rewrite (seqZ_cons _ 1), seqZ_nil by lia. f_equal; lia.
Qed.

Lemma append_eq uuid role c t : append uuid role c t =
  match rowid uuid t with
  | None => t
  | Some s => (if String.eqb role "user" then count_prompt s else id) (add_line (mkTranscript s (next_seq s t) role c) t)
  end.
Proof. unfold append, add_line. destruct (rowid uuid t); [|done]. by destruct (String.eqb role "user"). Qed.
Lemma count_prompt_ok s t : tables_ok t → tables_ok (count_prompt s t).
Proof. apply tables_ok_sessions. intros r. by case_bool_decide. Qed.
Lemma rowid_some uuid t s : rowid uuid t = Some s → s ∈ sr_id <$> agent_sessions t.
Proof.
  unfold rowid. intros (r & [Hr _]%find_by_Some_2 & ->)%fmap_Some. by apply list_elem_of_fmap_2.
Qed.
Lemma append_ok uuid role c t : tables_ok t → tables_ok (append uuid role c t).
Proof.
  intros Ht. rewrite append_eq. destruct (rowid uuid t) as [s|] eqn:E; [|done]. apply rowid_some in E.
  destruct (String.eqb role "user"); [apply count_prompt_ok|]; by apply tables_ok_add.
Qed.
Lemma update_session_ok uuid f t : (∀ r, sr_uuid (f r) = sr_uuid r ∧ sr_id (f r) = sr_id r) →
  tables_ok t → tables_ok (update_session_row uuid f t).
Proof. intros Hf. apply tables_ok_sessions. intros r. by destruct (String.eqb _ _). Qed.
Lemma rowid_none uuid t : rowid uuid t = None → uuid ∉ sr_uuid <$> agent_sessions t.
Proof.
  unfold rowid. intros Hf%fmap_None. by apply find_by_None.
Qed.
Lemma start_session_ok uuid provider now t : tables_ok t → tables_ok (start_session uuid provider now t).
Proof.
  intros Ht. unfold start_session. destruct (rowid uuid t) eqn:E; [by apply update_session_ok|].
  destruct Ht as (H1 & H2 & H4 & H3). split_and!; [| | |done]; cbn; rewrite fmap_app; cbn.
  3: { eapply Forall_impl; [exact H4|]. intros l Hl. apply elem_of_app. by left. }
  all: apply NoDup_app.
  - split_and!; [done| |apply NoDup_singleton]. intros x Hx ->%list_elem_of_singleton. by apply rowid_none in E.
  - split_and!; [done| |apply NoDup_singleton]. intros x Hx ->%list_elem_of_singleton.
    by apply next_rowid_fresh, Z.lt_irrefl in Hx.
Qed.

(** What the log does to the tables, and any run of it. *)
Inductive LogOp :=
| StartSession (uuid provider : string) | SetExternalId (uuid external_id : string) | EndSession (uuid : string)
| AddCost (uuid : string) (cost_usd : Q) | Append (uuid role content_json : string)
| RecordAction (uuid tool args_json risk state : string) | UpdateAction (id : Z) (state : string) (summary : option string).
Definition log_step (t : AgentTables) (o : Millis * LogOp) : AgentTables :=
  match o.2 with
  | StartSession uuid provider => start_session uuid provider o.1 t
  | SetExternalId uuid external_id => set_external_id uuid external_id t
  | EndSession uuid => end_session uuid o.1 t
  | AddCost uuid cost => add_cost uuid cost t
  | Append uuid role c => append uuid role c t
  | RecordAction uuid tool args risk state => (record_action uuid tool args risk state o.1 t).1
  | UpdateAction id state summary => update_action id state summary o.1 t
  end.
(** The lines a run adds to a session's transcript: those after it started. *)
Fixpoint lines_added (uuid : string) (started : bool) (l : list (Millis * LogOp)) : list (string * string) :=
  match l with
  | [] => []
  | (_, StartSession u _) :: l => lines_added uuid (started || String.eqb u uuid) l
  | (_, Append u role c) :: l =>
      (if started && String.eqb u uuid then [(role, c)] else []) ++ lines_added uuid started l
  | _ :: l => lines_added uuid started l
  end.

Lemma record_action_ok uuid tool args risk state now t : tables_ok t → tables_ok (record_action uuid tool args risk state now t).1.
Proof. unfold record_action. by destruct (rowid uuid t). Qed.
Lemma log_step_ok t o : tables_ok t → tables_ok (log_step t o).
Proof.
  intros Ht. destruct o as [now []]; cbn;
    first [by apply start_session_ok|by apply append_ok|by apply record_action_ok|by apply update_session_ok|destruct Ht as (? & ? & ? & ?); by repeat split].
Qed.

Lemma transcript_eq uuid t : tables_ok t → transcript uuid t =
  match rowid uuid t with Some s => (λ l, (tr_role l, tr_content_json l)) <$> lines_of s t | None => [] end.
Proof.
  intros (_ & _ & _ & Hq). unfold transcript. destruct (rowid uuid t) as [s|]; [|done]. f_equal.
  assert (Sorted seq_le (lines_of s t)) as Hs by by eapply seqZ_seq_sorted.
  pose proof (merge_sort_Permutation seq_le (lines_of s t)) as Hp.
  eapply (Sorted_unique_strong seq_le); [| |done|done]; [|apply (Sorted_merge_sort seq_le)].
  intros x y Hx Hy Hxy Hyx. rewrite Hp in Hx. unfold seq_le in *.
  apply list_elem_of_lookup in Hx as (i & Hi). apply list_elem_of_lookup in Hy as (j & Hj).
  assert (∀ k z, lines_of s t !! k = Some z → tr_seq z = (1 + Z.of_nat k)%Z) as Hseq.
  { intros k z Hk. pose proof (f_equal (λ l, l !! k) (Hq s)) as E. cbn in E.
    rewrite list_lookup_fmap, Hk in E. symmetry in E. by apply lookup_seqZ in E as [? _]. }
  pose proof (Hseq _ _ Hi). pose proof (Hseq _ _ Hj). assert (i = j) as -> by lia. congruence.
Qed.

(** One step: who is on record, and what a transcript gains. *)
Lemma rowid_map uuid f t : (∀ r, sr_uuid (f r) = sr_uuid r ∧ sr_id (f r) = sr_id r) →
  rowid uuid (with_session_rows (f <$> agent_sessions t) t) = rowid uuid t.
Proof.
  intros Hf. unfold rowid. change (agent_sessions (with_session_rows ?x ?y)) with x.
  rewrite find_by_fmap by (intros; apply Hf). destruct (find_by _ _ _); [cbn; f_equal; apply Hf|done].
Qed.
Lemma rowid_append uuid u role c t : rowid uuid (append u role c t) = rowid uuid t.
Proof.
  rewrite append_eq. destruct (rowid u t); [|done].
  destruct (String.eqb role "user"); [|done]. unfold count_prompt. rewrite rowid_map; [done|].
  intros r. by case_bool_decide.
Qed.
Lemma rowid_start uuid u provider now t : tables_ok t →
  (rowid uuid (start_session u provider now t) = rowid uuid t ∨
   rowid uuid t = None ∧ uuid = u ∧ rowid uuid (start_session u provider now t) = Some (next_rowid (sr_id <$> agent_sessions t))).
Proof.
  intros Ht. unfold start_session. destruct (rowid u t) eqn:E.
  - left. apply rowid_map. intros r. by destruct (String.eqb _ _).
  - unfold rowid in *. change (agent_sessions (with_session_rows ?x ?y)) with x. rewrite find_by_app. destruct (decide (uuid = u)) as [->|Hne].
    + right. apply fmap_None in E. rewrite E. unfold find_by. cbn. by rewrite bool_decide_true.
    + left. destruct (find_by sr_uuid uuid (agent_sessions t)); [done|].
      unfold find_by. cbn. by rewrite bool_decide_false by congruence.
Qed.

Definition joined (uuid : string) (t : AgentTables) : bool := bool_decide (is_Some (rowid uuid t)).
Lemma transcript_unknown uuid t : tables_ok t → rowid uuid t = None → transcript uuid t = [].
Proof. intros Ht E. by rewrite transcript_eq, E. Qed.
Lemma transcript_same uuid t t' : tables_ok t → tables_ok t' → rowid uuid t' = rowid uuid t →
  agent_transcript t' = agent_transcript t → transcript uuid t' = transcript uuid t.
Proof. intros Ht Ht' Hr Hl. rewrite !transcript_eq, Hr by done. unfold lines_of. by rewrite Hl. Qed.
Lemma agent_transcript_start u provider now t : agent_transcript (start_session u provider now t) = agent_transcript t.
Proof. unfold start_session. by destruct (rowid u t). Qed.
Lemma rowid_inj t u v s : tables_ok t → rowid u t = Some s → rowid v t = Some s → u = v.
Proof.
  intros (_ & Hn & _). unfold rowid. intros (r & [Hr <-]%find_by_Some_2 & ->)%fmap_Some.
  intros (r' & [Hr' <-]%find_by_Some_2 & Hid)%fmap_Some. f_equal. by eapply NoDup_fmap_inj.
Qed.
Lemma transcript_append_line uuid u role c t : tables_ok t →
  transcript uuid (append u role c t) =
  transcript uuid t ++ (if joined uuid t && String.eqb u uuid then [(role, c)] else []).
Proof.
  intros Ht. rewrite !transcript_eq by auto using append_ok. rewrite rowid_append. unfold joined.
  destruct (rowid uuid t) as [s|] eqn:E; [|done]. rewrite bool_decide_true by done. cbn. rewrite append_eq.
  destruct (String.eqb_spec u uuid) as [->|Hne].
  - rewrite E. assert (∀ b : bool, lines_of s ((if b then count_prompt s else id)
        (add_line (mkTranscript s (next_seq s t) role c) t)) = lines_of s t ++ [mkTranscript s (next_seq s t) role c]) as ->.
    { intros b. transitivity (lines_of s (add_line (mkTranscript s (next_seq s t) role c) t)); [by destruct b|].
      rewrite lines_of_add. cbn. by rewrite bool_decide_true by done. }
    by rewrite fmap_app.
  - rewrite app_nil_r. destruct (rowid u t) as [s'|] eqn:E'; [|done]. f_equal.
    assert (s' ≠ s) as Hs by (intros ->; by apply Hne; eapply rowid_inj).
    assert (∀ b : bool, lines_of s ((if b then count_prompt s' else id)
        (add_line (mkTranscript s' (next_seq s' t) role c) t)) = lines_of s t) as ->; [|done].
    intros b. transitivity (lines_of s (add_line (mkTranscript s' (next_seq s' t) role c) t)); [by destruct b|].
    rewrite lines_of_add. cbn. by rewrite bool_decide_false, app_nil_r by done.
Qed.

Lemma joined_start uuid u provider now t : tables_ok t →
  joined uuid (start_session u provider now t) = joined uuid t || String.eqb u uuid ∧
  transcript uuid (start_session u provider now t) = transcript uuid t.
Proof.
  intros Ht. pose proof (start_session_ok u provider now t Ht) as Ht'. unfold joined. split.
  - destruct (String.eqb_spec u uuid) as [->|Hne].
    + rewrite orb_true_r. apply bool_decide_eq_true. unfold start_session.
      destruct (rowid uuid t) eqn:E; [|unfold rowid in *].
      * unfold update_session_row. rewrite rowid_map; [by rewrite E|]. intros r. by destruct (String.eqb _ _).
      * change (agent_sessions (with_session_rows ?x ?y)) with x. apply fmap_None in E. rewrite find_by_app, E.
        unfold find_by. cbn. by rewrite bool_decide_true.
    + rewrite orb_false_r. by destruct (rowid_start uuid u provider now t Ht) as [->|(_ & He & _)].
  - destruct (rowid_start uuid u provider now t Ht) as [Hr|(Hn & <- & Hr)].
    + apply transcript_same; [done|done|done|apply agent_transcript_start].
    + rewrite (transcript_unknown uuid t Ht Hn), transcript_eq, Hr by done. unfold lines_of.
      rewrite agent_transcript_start. destruct Ht as (_ & _ & Hl & _).
      rewrite List_filter_none; [done|]. intros l Hin. apply bool_decide_eq_false. intros He.
      rewrite Forall_forall in Hl. specialize (Hl l Hin). rewrite He in Hl. by apply next_rowid_fresh, Z.lt_irrefl in Hl.
Qed.

(** A step on the sessions that says nothing new. *)
Lemma joined_update uuid u f t : (∀ r, sr_uuid (f r) = sr_uuid r ∧ sr_id (f r) = sr_id r) → tables_ok t →
  joined uuid (update_session_row u f t) = joined uuid t ∧
  transcript uuid (update_session_row u f t) = transcript uuid t.
Proof.
  intros Hf Ht. assert (rowid uuid (update_session_row u f t) = rowid uuid t) as Hr.
  { apply rowid_map. intros r. by destruct (String.eqb _ _). }
  split; [unfold joined; by rewrite Hr|]. by apply transcript_same; [|apply update_session_ok|..].
Qed.
Lemma log_transcript uuid l t : tables_ok t →
  transcript uuid (foldl log_step t l) = transcript uuid t ++ lines_added uuid (joined uuid t) l.
Proof.
  revert t. induction l as [|[now o] l IH]; intros t Ht; [by rewrite app_nil_r|]. cbn.
  rewrite IH by by apply log_step_ok.
  assert (∀ u f, (∀ r, sr_uuid (f r) = sr_uuid r ∧ sr_id (f r) = sr_id r) →
    transcript uuid (update_session_row u f t) ++ lines_added uuid (joined uuid (update_session_row u f t)) l =
    transcript uuid t ++ lines_added uuid (joined uuid t) l) as Hquiet
    by (intros u f Hf; by destruct (joined_update uuid u f t Hf Ht) as [-> ->]).
  destruct o; cbn.
  - by destruct (joined_start uuid uuid0 provider now t Ht) as [-> ->].
  - by apply Hquiet.
  - by apply Hquiet.
  - by apply Hquiet.
  - rewrite transcript_append_line, <- app_assoc by done. do 2 f_equal. unfold joined. by rewrite rowid_append.
  - unfold record_action. by destruct (rowid uuid0 t).
  - done.
Qed.

(** The transcript of a session reads back every line appended to it since
    it was first started, in order, whatever else is recorded in between:
    other sessions' lines, resumes, endings, costs, actions; a line appended
    before that is dropped. *)
Theorem transcript_complete (uuid : string) (l : list (Millis * LogOp)) :
  transcript uuid (foldl log_step no_agents l) = lines_added uuid false l.
Proof.
  rewrite log_transcript; [done|]. split; [apply NoDup_nil_2|]. split; [apply NoDup_nil_2|]. by split.
Qed.
