(* ===== verification/Agents.v ===== *)
(** * Agents: the tools an agent calls ([kaluta-core/src/agents/tools.rs],
    [agents/approvals.rs])

    A tool call is a program over the operations it performs, one for each
    lock taken or await on the rest of the core, so that calls, the user and
    the core interleave between any two of them ([AgentHub]).  Text
    conversions and serde's texts are a class. *)

From Stdlib Require Import Ascii.
From S2P Require Import Prelude.
From S2P Require Import Domain.
From S2P Require Import Text.
From S2P Require Import Time.
From S2P Require Import Json.
From S2P Require Import Guide.
From S2P Require Import MailStore.
From S2P Require Import Read.
From S2P Require Import LocalDb.
From S2P Require Import Drain.
From S2P Require Import Permissions.

(** ** Answers and errors *)

Inductive Outcome := OkOutcome (text : string) (structured : option Json) | ErrorOutcome (code message : string).
Definition outcome_ok (o : Outcome) : bool := match o with OkOutcome _ _ => true | _ => false end.

Inductive ErrorKind :=
| InvalidInput | NotFound | Storage | Network | Auth | RateLimitedError | AgentError | PermissionDenied
| Cancelled | Internal.
Record CoreError := mkCoreError { ce_kind : ErrorKind; ce_message : string }.
Definition failed (e : CoreError) : Outcome :=
  match ce_kind e with
  | NotFound => ErrorOutcome "not_found" (ce_message e)
  | InvalidInput => ErrorOutcome "invalid_arguments" (ce_message e)
  | _ => ErrorOutcome "failed" (ce_message e)
  end.
Abbreviation CoreResult := (result CoreError).

(** ** Drafts as the app sees them *)

Record DraftInfo := mkDraftInfo {
  di_id : Z; di_thread_id : option string; di_in_reply_to : option string; di_to : list EmailAddress;
  di_cc : list EmailAddress; di_bcc : list EmailAddress; di_subject : string; di_body_html : string;
  di_quoted_html : string; di_attachments : list DraftAttachment; di_status : DraftState;
  di_error : option string; di_updated_at : Millis }.

Definition draft_info (d : DraftRecord) : DraftInfo :=
  mkDraftInfo (d_id d) (d_thread_id d) (d_in_reply_to d) (d_to d) (d_cc d) (d_bcc d) (d_subject d)
    (d_body_html d) (d_quoted_html d) (d_attachments d) (d_state d) (d_last_error d) (d_updated_at d).
Definition info_address (a : EmailAddress) : EmailAddress := address_new (addr_name a) (addr_email a).
Definition draft_record (d : DraftInfo) : DraftRecord :=
  mkDraft (di_id d) None (di_thread_id d) (di_in_reply_to d) (info_address <$> di_to d)
    (info_address <$> di_cc d) (info_address <$> di_bcc d) (di_subject d) (di_body_html d) (di_quoted_html d)
    (di_attachments d) (di_updated_at d) Editing None.

Definition new_draft : DraftInfo := mkDraftInfo 0 None None [] [] [] "" "" "" [] Editing None 0.
Definition set_id (id : Z) (d : DraftInfo) : DraftInfo :=
  mkDraftInfo id (di_thread_id d) (di_in_reply_to d) (di_to d) (di_cc d) (di_bcc d) (di_subject d)
    (di_body_html d) (di_quoted_html d) (di_attachments d) (di_status d) (di_error d) (di_updated_at d).
Definition set_recipients (to cc : list EmailAddress) (d : DraftInfo) : DraftInfo :=
  mkDraftInfo (di_id d) (di_thread_id d) (di_in_reply_to d) to cc (di_bcc d) (di_subject d)
    (di_body_html d) (di_quoted_html d) (di_attachments d) (di_status d) (di_error d) (di_updated_at d).
Definition set_text (subject body quote : string) (d : DraftInfo) : DraftInfo :=
  mkDraftInfo (di_id d) (di_thread_id d) (di_in_reply_to d) (di_to d) (di_cc d) (di_bcc d) subject
    body quote (di_attachments d) (di_status d) (di_error d) (di_updated_at d).

(** ** The operations a call performs *)

Inductive AgentEvent :=
| ActionProposed (action_id : Z) (tool summary : string) (draft_id : option Z)
| ActionResolved (action_id : Z) (approved : bool)
| ResultsAvailable (thread_ids : list ThreadId) (title : option string).

Inductive Source := Routine | Agent.
Record AiText := mkAiText {
  ai_source : Source; ai_agent : option string; ai_instruction : string; ai_text : string;
  ai_html : option string; ai_guide_version : option Z }.

Record AttachmentFile := mkFile { file_path : string; file_name : string; file_mime : string }.

(** A message as read, with its attachments' row ids. *)
Abbreviation Seen := (Message * list Z)%type (only parsing).

(** What the core does for a call, on the account it acts on. *)
Inductive CoreOp :=
| EffectiveAccount | OpenDb | RefuseIfArchive | AgentSendsFreely | IsHeadless | AgentAddress
| WriteAction (session name args risk state : string)
| UpdateAction (id : Z) (state : string) (summary : option string)
| GetDraft (id : Z) | SaveDraft (d : DraftInfo) | DeleteDraft (id : Z) | SendDraft (id : Z)
| ReplyDraft (message : string) (all : bool) | ForwardDraft (message : string)
| Mutate (change : LocalChange) | CreateUserLabel (name : string) (color : option string)
| ReadMessage (id : MessageId) | ReadThread (id : ThreadId) | ReadSummary (id : ThreadId)
| ReadBody (id : MessageId) | ReadLabels | ListMailboxes
| SearchThreads (query : string) (cursor : option string) (limit : Z)
| EnsureBodies (ids : list MessageId)
| AttachmentMessage (row : Z) | FetchAttachment (id : string) | PdfText (path : string) | ReadFile (path : string)
| CheckAgainstGuide (t : Target) (text : string) | RenderGuide (t : option Target)
| RecordDraftGuide (draft version : Z) | DraftGuideVersion (draft : Z)
| RecordComposition (draft : Z) (ai : AiText) | CompositionReaddressed (draft : Z)
| ListFacts | FactCategories.

Definition core_answer (o : CoreOp) : Type :=
  match o with
  | EffectiveAccount | AgentAddress => option string
  | OpenDb | RefuseIfArchive => CoreResult ()
  | AgentSendsFreely | IsHeadless => bool
  | WriteAction _ _ _ _ _ => option Z
  | UpdateAction _ _ _ | EnsureBodies _ => ()
  | GetDraft _ => CoreResult (option DraftInfo)
  | SaveDraft _ => CoreResult Z
  | DeleteDraft _ => CoreResult ()
  | SendDraft _ => CoreResult bool
  | ReplyDraft _ _ | ForwardDraft _ => CoreResult DraftInfo
  | Mutate _ => CoreResult ()
  | CreateUserLabel _ _ => CoreResult (string * string)
  | ReadMessage _ => CoreResult (option Seen)
  | ReadThread _ => CoreResult (option (ThreadSummary * list Seen))
  | ReadSummary _ => CoreResult (option ThreadSummary)
  | ReadBody _ => CoreResult (option Body)
  | ReadLabels => CoreResult (list Label)
  | ListMailboxes => CoreResult (list Read.Mailbox)
  | SearchThreads _ _ _ => CoreResult (list ThreadId * option string)
  | AttachmentMessage _ => CoreResult (option MessageId)
  | FetchAttachment _ => CoreResult AttachmentFile
  | PdfText _ => option (result string (option string))
  | ReadFile _ => result string string
  | CheckAgainstGuide _ _ => CoreResult (list CheckFailure)
  | RenderGuide _ => CoreResult Rendered
  | RecordDraftGuide _ _ | CompositionReaddressed _ => CoreResult ()
  | DraftGuideVersion _ => CoreResult (option Z)
  | RecordComposition _ _ => CoreResult (option Z)
  | ListFacts => CoreResult (list FactInfo)
  | FactCategories => CoreResult (list FactCategory)
  end.

(** What a call does to the session it belongs to and to the approvals, and
    to the core.  [Await] blocks until the ticket is decided: the answer of
    the user, or none when the wait timed out. *)
Inductive Op :=
| Now
| CheckGuard (a : ProposedAction) (now : Millis)
| IsReadOnly
| ReadPolicy
| InScope (thread : ThreadId)
| AllowDraft (d : Z)
| KeepDraft (d : Z) (quote : string)
| DraftQuote (d : Z)
| IsFrozen (account : option string) (d : Z)
| NewTicket
| Park (ticket : Z) (account : option string) (draft : option Z)
| Emit (e : AgentEvent)
| Await (ticket : Z)
| Unpark (ticket : Z)
| IsRoutine
| AgentAndPrompt
| Do (o : CoreOp).

Definition answer (o : Op) : Type :=
  match o with
  | Now | NewTicket => Z
  | CheckGuard _ _ => option (result DenyReason ())
  | IsReadOnly | InScope _ | IsFrozen _ _ | IsRoutine => bool
  | ReadPolicy => Policy
  | AllowDraft _ | KeepDraft _ _ | Park _ _ _ | Emit _ | Unpark _ => ()
  | DraftQuote _ => option string
  | Await _ => option bool
  | AgentAndPrompt => option string * string
  | Do o => core_answer o
  end.

(** ** Programs *)

Inductive Prog (A : Type) : Type :=
| Ret (a : A)
| Vis (o : Op) (k : answer o → Prog A).
Arguments Ret {A} a.
Arguments Vis {A} o k.

Fixpoint prog_bind {A B} (f : A → Prog B) (p : Prog A) : Prog B :=
  match p with Ret a => f a | Vis o k => Vis o (λ x, prog_bind f (k x)) end.
#[export] Instance prog_ret : MRet Prog := λ A, Ret.
#[export] Instance prog_mbind : MBind Prog := @prog_bind.
Definition perform (o : Op) : Prog (answer o) := Vis o Ret.

(** A program that may end the call with an answer: [Result<A, Outcome>]
    and [?]. *)
Record Try (A : Type) : Type := mkTry { run_try : Prog (result Outcome A) }.
Arguments mkTry {A} _.
Arguments run_try {A} _.
#[export] Instance try_ret : MRet Try := λ A a, mkTry (Ret (Ok a)).
#[export] Instance try_bind : MBind Try := λ A B f p,
  mkTry (r ← run_try p; match r with Ok a => run_try (f a) | Err e => Ret (Err e) end).
Definition fail {A} (o : Outcome) : Try A := mkTry (Ret (Err o)).
Definition error {A} (code message : string) : Try A := fail (ErrorOutcome code message).
Definition lift {A} (p : Prog A) : Try A := mkTry (a ← p; Ret (Ok a)).
Definition op (o : Op) : Try (answer o) := lift (perform o).
Definition check_result {A} (r : result Outcome A) : Try A := mkTry (Ret r).
Definition or_fail {A} (e : Outcome) (o : option A) : Try A := check_result (ok_or e o).
(** [.map_err(failed)?] *)
Definition core_as {A} (o : CoreOp) (as_ : core_answer o → CoreResult A) : Try A :=
  r ← op (Do o); check_result (map_err failed (as_ r)).
Notation core o := (core_as o (λ r, r)) (only parsing).
Definition or_else (p : Try Outcome) : Prog Outcome :=
  r ← run_try p; Ret (match r with Ok o | Err o => o end).

Fixpoint try_map {A B} (f : A → Try B) (l : list A) : Try (list B) :=
  match l with [] => mret [] | a :: l => b ← f a; bs ← try_map f l; mret (b :: bs) end.

(** ** Text conversions and what serde says of bad arguments *)

Class AgentText := {
  lower : string → string;                 (** [str::to_lowercase] *)
  markdown_to_html : string → string;
  html_to_text : string → string;
  strip_quoted : string → string;
  extract_text : string → string → string → result string string;
  json_text : Json → string;               (** [Value::to_string] *)
  invalid_text : list Field → Json → string;
  debug_text : string → string             (** [{:?}] *) }.

Section tools.
Context `{AgentText}.

Definition outcome_json (v : Json) : Outcome := OkOutcome (json_text v) (Some v).
Definition found (fields : list (string * Json)) : Outcome := outcome_json (obj fields).

(** [args::<T>]: the fields of [T], then each of them read. *)
Definition args {A} (fs : list Field) (read : Fields → option A) (arguments : Json) : Try A :=
  let v := or_empty arguments in
  or_fail (ErrorOutcome "invalid_arguments" (invalid_text fs v)) (struct_fields fs v ≫= read).

Definition MAX_SEARCH : Z := 50.
Definition MAX_BODY_CHARS : nat := 20 * 1000.
Definition MAX_ATTACHMENT_CHARS : nat := 100 * 1000.

(** Threads a call names, for the per-call and session caps. *)
Definition thread_ids_of (t : Tool) (arguments : Json) : list ThreadId :=
  if bool_decide (tool_risk t = ReadOnly) then []
  else omap as_str (default [] (as_array (json_get "thread_ids" arguments))).

(** At most [max] characters, and whether anything was cut. *)
Definition truncate_chars (max : nat) (text : string) : string * bool :=
  let t := take_chars max text in (t, negb (String.eqb t text)).

(** ** What tools write *)

Definition address (a : EmailAddress) : string :=
  match addr_name a with
  | Some name => if String.eqb name "" then addr_email a else name +:+ " <" +:+ addr_email a +:+ ">"
  | None => addr_email a
  end.
Definition label_name (names : list Label) (l : LabelId) : string :=
  default l (l_name <$> List.find (λ n, String.eqb (l_id n) l) names).
Definition labels_json (ids : list LabelId) (names : list Label) : Json := json_strings (label_name names <$> ids).
Definition thread_json (t : ThreadSummary) (names : list Label) : Json :=
  obj [("thread_id", JString (ts_id t)); ("subject", JString (ts_subject t));
       ("participants", json_strings (address <$> ts_participants t));
       ("date", JString (iso8601_utc (ts_last_message_at t))); ("snippet", JString (ts_snippet t));
       ("labels", labels_json (ts_label_ids t) names); ("unread", JBool (0 <? ts_unread_count t)%Z);
       ("messages", json_int (ts_message_count t)); ("has_attachments", JBool (ts_has_attachments t))].
Definition attachment_json (a : Z * IncomingAttachment) : Json :=
  obj [("attachment_id", JString (pretty a.1)); ("filename", JString (a_filename a.2));
       ("mime_type", JString (a_mime_type a.2)); ("size", json_int (a_size a.2))].
Definition message_fields (m : Seen) (body : option string) (include_quoted : bool) : list (string * Json) :=
  let '(m, rowids) := m in
  let text := (λ b, truncate_chars MAX_BODY_CHARS (if include_quoted then b else strip_quoted b)) <$> body in
  [("message_id", JString (g_id m)); ("from", json_opt (λ a, JString (address a)) (g_from m));
   ("to", json_strings (address <$> g_to m)); ("cc", json_strings (address <$> g_cc m));
   ("date", JString (iso8601_utc (g_date m))); ("subject", JString (g_subject m));
   ("unread", JBool (negb (is_read (g_flags m)))); ("sent_by_me", JBool (is_sent_by_me (g_flags m)));
   ("body", json_opt (λ t, JString t.1) text); ("body_available", JBool (bool_decide (is_Some body)));
   ("truncated", JBool (default false (snd <$> text)));
   ("attachments", JArray (attachment_json <$> List.filter (λ a, negb (a_is_inline a.2))
                                                 (zip rowids (g_attachments m))))].
Definition message_json (m : Seen) (body : option string) (include_quoted : bool) : Json :=
  obj (message_fields m body include_quoted).

(** ** Reading *)

Definition in_scope (thread : ThreadId) : Try bool := op (InScope thread).
Definition label_names : Try (list Label) := _ ← core OpenDb; core ReadLabels.

(** [search]: a page of the results in scope. *)
Fixpoint search_rows (names : list Label) (ids : list ThreadId) : Try (list Json) :=
  match ids with
  | [] => mret []
  | id :: ids =>
      ok ← in_scope id;
      if ok : bool then
        t ← core (ReadSummary id);
        rest ← search_rows names ids;
        mret (match t with Some t => thread_json t names :: rest | None => rest end)
      else search_rows names ids
  end.
Definition search (arguments : Json) : Try Outcome :=
  '(query, limit, cursor) ← args [field "query"; field "limit"; field "cursor"]
    (λ f, q ← required as_str f "query"; l ← optional json_u32 f "limit"; c ← optional as_str f "cursor";
          Some (q, l, c)) arguments;
  let query := if String.eqb (trim query) "" then "in:inbox" else query in
  let limit := Z.max 1 (Z.min (default 20%Z limit) MAX_SEARCH) in
  '(ids, next) ← core (SearchThreads query cursor limit);
  names ← label_names;
  _ ← core OpenDb;
  threads ← search_rows names ids;
  mret (found [("threads", JArray threads); ("next_cursor", json_opt JString next)]).

Definition body_text (id : MessageId) : Try (option string) :=
  _ ← core OpenDb; body ← core (ReadBody id); mret (body ≫= text_plain).
Definition header_only (m : Seen) : bool := bool_decide (g_body_state m.1 ≠ Full).

Definition NO_THREAD : Outcome := ErrorOutcome "not_found" "no such thread".
Definition NO_MESSAGE : Outcome := ErrorOutcome "not_found" "no such message".

Definition get_thread (arguments : Json) : Try Outcome :=
  id ← args [field "thread_id"] (λ f, required as_str f "thread_id") arguments;
  ok ← in_scope id;
  if negb ok then fail NO_THREAD else
  _ ← core OpenDb;
  t ← core (ReadThread id);
  t ← or_fail NO_THREAD t;
  let missing := List.map (λ m : Seen, g_id m.1) (List.filter header_only t.2) in
  messages ← (if is_empty missing then mret t.2
              else _ ← op (Do (EnsureBodies missing));
                   t ← core (ReadThread id);
                   t ← or_fail NO_THREAD t;
                   mret t.2);
  summary ← core (ReadSummary id);
  summary ← or_fail NO_THREAD summary;
  names ← label_names;
  out ← try_map (λ m : Seen, body ← body_text (g_id m.1); mret (message_json m body false)) messages;
  mret (found [("thread_id", JString (ts_id summary)); ("subject", JString (ts_subject summary));
               ("labels", labels_json (ts_label_ids summary) names); ("messages", JArray out)]).

(** The message a tool names, when its thread is in scope. *)
Definition message_in_scope (id : MessageId) : Try Seen :=
  _ ← core OpenDb;
  m ← core (ReadMessage id);
  m ← or_fail NO_MESSAGE m;
  ok ← in_scope (g_thread m.1);
  if ok : bool then mret m else fail NO_MESSAGE.

Definition get_message (arguments : Json) : Try Outcome :=
  '(id, include_quoted) ← args [field "message_id"; defaulted "include_quoted"]
    (λ f, m ← required as_str f "message_id"; q ← with_default as_bool false f "include_quoted"; Some (m, q))
    arguments;
  m ← message_in_scope id;
  m ← (if header_only m
       then _ ← op (Do (EnsureBodies [id])); m ← core (ReadMessage id); or_fail NO_MESSAGE m
       else mret m);
  body ← body_text id;
  mret (outcome_json (set_field "thread_id" (JString (g_thread m.1)) (message_json m body include_quoted))).

Definition list_labels : Try Outcome :=
  mailboxes ← core ListMailboxes;
  mret (found [("labels", JArray (omap (λ m : Read.Mailbox, l ← mb_label m;
     Some (obj [("label_id", JString l); ("name", JString (mb_name m));
                ("system", JBool (bool_decide (mb_kind m ≠ LabelBox)));
                ("unread", json_int (mb_unread m)); ("total", json_int (mb_total m))])) mailboxes))]).

Definition is_pdf (mime_type filename : string) : bool :=
  nocase_eqb mime_type "application/pdf" || ends_with ".pdf" (ascii_lower filename).
Definition NO_ATTACHMENT : Outcome := ErrorOutcome "not_found" "no such attachment on that message".
Definition attachment_text (arguments : Json) : Try Outcome :=
  '(message_id, attachment_id) ← args [field "message_id"; field "attachment_id"]
    (λ f, m ← required as_str f "message_id"; a ← required as_str f "attachment_id"; Some (m, a)) arguments;
  row ← or_fail NO_ATTACHMENT (parse_i64 attachment_id);
  _ ← core OpenDb;
  named ← core (ReadMessage message_id);
  _ ← (match named with
       | Some m =>
           if header_only m then
             ok ← in_scope (g_thread m.1);
             if ok : bool then op (Do (EnsureBodies [message_id])) else mret ()
           else mret ()
       | None => mret ()
       end);
  source ← core (AttachmentMessage row);
  let source := match source with Some m => if String.eqb m message_id then Some m else None | None => None end in
  source ← or_fail NO_ATTACHMENT source;
  m ← core (ReadMessage source);
  ok ← (match m with Some m => in_scope (g_thread m.1) | None => mret false end);
  if negb ok then fail NO_ATTACHMENT else
  file ← core (FetchAttachment attachment_id);
  text ← (if is_pdf (file_mime file) (file_name file) then
            text ← op (Do (PdfText (file_path file)));
            text ← or_fail (ErrorOutcome "unsupported" "PDF text is not available") text;
            text ← check_result (map_err (ErrorOutcome "failed") text);
            mret (default "" text)
          else
            bytes ← op (Do (ReadFile (file_path file)));
            bytes ← check_result (map_err (ErrorOutcome "failed") bytes);
            check_result (map_err (ErrorOutcome "unsupported") (extract_text bytes (file_mime file) (file_name file))));
  let '(text, truncated) := truncate_chars MAX_ATTACHMENT_CHARS text in
  mret (found [("filename", JString (file_name file)); ("mime_type", JString (file_mime file));
               ("text", JString text); ("truncated", JBool truncated)]).

Fixpoint filter_scope (ids : list ThreadId) : Try (list ThreadId) :=
  match ids with
  | [] => mret []
  | id :: ids => ok ← in_scope id; rest ← filter_scope ids; mret (if ok : bool then id :: rest else rest)
  end.
Definition present_threads (arguments : Json) : Try Outcome :=
  '(ids, title) ← args [field "thread_ids"; defaulted "title"]
    (λ f, t ← required strings f "thread_ids"; ti ← optional as_str f "title"; Some (t, ti)) arguments;
  ids ← filter_scope ids;
  let title := match trim <$> title with Some t => if String.eqb t "" then None else Some t | None => None end in
  _ ← op (Emit (ResultsAvailable ids title));
  mret (found [("shown", json_int (Z.of_nat (length ids)))]).

Definition facts_tool (arguments : Json) : Try Outcome :=
  '(category, query) ← args [field "category"; field "query"]
    (λ f, c ← optional as_str f "category"; q ← optional as_str f "query"; Some (c, q)) arguments;
  facts ← core ListFacts;
  categories ← core FactCategories;
  mret (outcome_json (lookup_json lower facts categories category query)).

(** ** Writing drafts *)

Definition rfind (c : Ascii.ascii) (s : string) : option nat := String.length ∘ fst <$> rsplit_once c s.
(** [trim_matches] of double quotes. *)
Definition trim_quotes (s : string) : string :=
  let strip := strip_all (String.length s) [QUOTE] in string_rev_of (strip (string_rev_of (strip s))).
(** "Name <a@b.c>" or "a@b.c". *)
Definition parse_address (text : string) : result Outcome EmailAddress :=
  let t := trim text in
  let plain := (None, t) in
  let '(name, email) :=
    match rfind "<" t, rfind ">" t with
    | Some open, Some close =>
        if open <? close then
          let name := trim (trim_quotes (trim (String.substring 0 open t))) in
          (if String.eqb name "" then None else Some name,
           trim (String.substring (open + 1) (close - (open + 1)) t))
        else plain
    | _, _ => plain
    end in
  if valid_email email then Ok (mkAddress name email)
  else Err (ErrorOutcome "invalid_arguments" (debug_text text +:+ " is not an email address")).
Fixpoint parse_addresses (l : list string) : result Outcome (list EmailAddress) :=
  match l with
  | [] => Ok []
  | a :: l => a ← parse_address a; l ← parse_addresses l; Ok (a :: l)
  end.
Definition addresses (l : option (list string)) : Try (option (list EmailAddress)) :=
  match l with None => mret None | Some l => l ← check_result (parse_addresses l); mret (Some l) end.

Definition recipient_emails (l : list EmailAddress) : list string := addr_email <$> l.
Definition draft_target (d : DraftInfo) : Target * string :=
  let subject := lower (trim (di_subject d)) in
  let kind := if starts_with "fwd:" subject || starts_with "fw:" subject then "forward"
              else match di_in_reply_to d with Some _ => "reply" | None => "new" end in
  (mkTarget (recipient_emails (di_to d ++ di_cc d)) (Some kind) None, html_to_text (di_body_html d)).

Definition GUIDE_BREACH : string := " · Breaks your writing guide: ".
Definition breach_text (failures : list CheckFailure) : string := join "; " (cf_message <$> failures).
Definition guide_warning (d : DraftInfo) : Try string :=
  let '(t, text) := draft_target d in
  failures ← op (Do (CheckAgainstGuide t text));
  mret (match failures with
        | Ok (f :: fs) => GUIDE_BREACH +:+ breach_text (f :: fs)
        | _ => ""
        end).

Definition draft_json (d : DraftInfo) : Json :=
  obj [("draft_id", json_int (di_id d)); ("subject", JString (di_subject d));
       ("to", json_strings (recipient_emails (di_to d))); ("cc", json_strings (recipient_emails (di_cc d)));
       ("reply_to_message_id", json_opt JString (di_in_reply_to d))].
Definition draft_with_guide (d : DraftInfo) : Try Json :=
  let value := draft_json d in
  let '(t, text) := draft_target d in
  guide ← op (Do (RenderGuide (Some t)));
  match guide with
  | Ok guide =>
      if String.eqb (re_text guide) "" then mret value else
      let value := set_field "writing_guide" (JString (re_text guide)) value in
      failures ← op (Do (CheckAgainstGuide t text));
      let value := match failures with
                   | Ok (f :: fs) => set_field "guide_check" (json_strings (cf_message <$> f :: fs)) value
                   | _ => value
                   end in
      _ ← op (Do (RecordDraftGuide (di_id d) (re_version guide)));
      mret value
  | Err _ => mret value
  end.

Definition record_body (draft_id : Z) (html : string) : Try () :=
  routine ← op IsRoutine;
  who ← op AgentAndPrompt;
  version ← op (Do (DraftGuideVersion draft_id));
  let ai := mkAiText (if routine : bool then Routine else Agent) who.1 who.2 (trim (html_to_text html)) (Some html)
              (match version with Ok v => v | Err _ => None end) in
  _ ← op (Do (RecordComposition draft_id ai));
  mret ().

Definition set_addressed (to cc : option (list string)) (subject : option string) (d : DraftInfo) : Try DraftInfo :=
  to ← addresses to;
  let d := match to with Some to => set_recipients to (di_cc d) d | None => d end in
  cc ← addresses cc;
  let d := match cc with Some cc => set_recipients (di_to d) cc d | None => d end in
  mret (match subject with Some s => set_text s (di_body_html d) (di_quoted_html d) d | None => d end).

Definition start_draft (reply_to : option string) (all : bool) : Try DraftInfo :=
  match reply_to with
  | Some id => _ ← message_in_scope id; core (ReplyDraft id all)
  | None => mret new_draft
  end.
Definition create_draft (arguments : Json) : Try Outcome :=
  '(reply_to, all, to, cc, subject, body) ←
    args [field "reply_to_message_id"; defaulted "reply_all"; field "to"; field "cc"; field "subject";
          field "body_markdown"]
      (λ f, r ← optional as_str f "reply_to_message_id"; a ← with_default as_bool false f "reply_all";
            to ← optional strings f "to"; cc ← optional strings f "cc"; s ← optional as_str f "subject";
            b ← required as_str f "body_markdown"; Some (r, a, to, cc, s, b)) arguments;
  draft ← start_draft reply_to all;
  draft ← set_addressed to cc subject draft;
  let quote := di_quoted_html draft in
  let draft := set_text (di_subject draft) (markdown_to_html body) quote draft in
  id ← core (SaveDraft draft);
  let draft := set_id id draft in
  _ ← op (KeepDraft id quote);
  value ← draft_with_guide draft;
  _ ← record_body id (di_body_html draft);
  mret (outcome_json value).

Definition NOT_YOURS : Outcome := ErrorOutcome "denied" "only drafts created in this conversation can be changed".
Definition REVIEWING : Outcome := ErrorOutcome "denied" "the user is reviewing this draft; wait for their answer".
Definition NO_DRAFT : Outcome := ErrorOutcome "not_found" "that draft no longer exists".
Definition update_draft (arguments : Json) : Try Outcome :=
  '(draft_id, to, cc, subject, body) ←
    args [field "draft_id"; field "to"; field "cc"; field "subject"; field "body_markdown"]
      (λ f, d ← required as_i64 f "draft_id"; to ← optional strings f "to"; cc ← optional strings f "cc";
            s ← optional as_str f "subject"; b ← optional as_str f "body_markdown"; Some (d, to, cc, s, b)) arguments;
  quote ← op (DraftQuote draft_id);
  quote ← or_fail NOT_YOURS quote;
  account ← op (Do EffectiveAccount);
  frozen ← op (IsFrozen account draft_id);
  if frozen : bool then fail REVIEWING else
  draft ← core (GetDraft draft_id);
  draft ← or_fail NO_DRAFT draft;
  draft ← set_addressed to cc subject draft;
  let draft := match body with
               | Some body => set_text (di_subject draft) (markdown_to_html body) quote draft
               | None => draft
               end in
  _ ← core (SaveDraft draft);
  value ← draft_with_guide draft;
  _ ← (match body with
       | Some _ => record_body draft_id (di_body_html draft)
       | None => _ ← op (Do (CompositionReaddressed draft_id)); mret ()
       end);
  mret (outcome_json value).

(** ** Changing threads and labels *)

Inductive ThreadChange := ArchiveThreads | MarkThreads (read : bool).
Definition change_of (change : ThreadChange) (ids : list ThreadId) : LocalChange * string :=
  match change with
  | ArchiveThreads => (Drain.archive ids, "archived")
  | MarkThreads read => (set_read ids read, if read then "marked_read" else "marked_unread")
  end.
Definition threads_arg (arguments : Json) : Try (list string) :=
  args [field "thread_ids"] (λ f, required strings f "thread_ids") arguments.
Definition change_threads (arguments : Json) (change : ThreadChange) : Try Outcome :=
  ids ← threads_arg arguments;
  let '(c, key) := change_of change ids in
  _ ← core (Mutate c);
  mret (found [(key, json_int (Z.of_nat (length ids)))]).

Definition label_threads (arguments : Json) (add : bool) : Try Outcome :=
  '(ids, wanted) ← args [field "thread_ids"; field "label"]
    (λ f, t ← required strings f "thread_ids"; l ← required as_str f "label"; Some (t, l)) arguments;
  _ ← core OpenDb;
  labels ← core ReadLabels;
  let wanted := trim wanted in
  let system s := error "invalid_arguments" (s +:+ " is a system label; only user labels can be set here") in
  if List.existsb (λ s, nocase_eqb s wanted) (PROTECTED ++ [INBOX; UNREAD; STARRED; IMPORTANT])
  then system wanted else
  let found_label := match List.find (λ l, String.eqb (l_id l) wanted) labels with
                     | Some l => Some l
                     | None => List.find (λ l, nocase_eqb (l_name l) wanted) labels
                     end in
  label ← or_fail (ErrorOutcome "not_found" ("there is no label " +:+ debug_text wanted +:+
                                             "; create it with mail_create_label")) found_label;
  if negb (bool_decide (l_kind label = UserLabel)) then system (l_name label) else
  _ ← core (Mutate (if add then ChangeLabels ids [l_id label] [] else ChangeLabels ids [] [l_id label]));
  mret (found [("label", JString (l_name label));
               (if add then "labeled" else "unlabeled", json_int (Z.of_nat (length ids)))]).

Definition hex_color (c : string) : bool :=
  match c with
  | String "#" digits => (String.length digits =? 6) && string_all is_hex_digit digits
  | _ => false
  end.
Definition create_label (arguments : Json) : Try Outcome :=
  '(name, color) ← args [field "name"; field "color"]
    (λ f, n ← required as_str f "name"; c ← optional as_str f "color"; Some (n, c)) arguments;
  if match color with Some c => negb (hex_color c) | None => false end
  then error "invalid_arguments" "color must look like #rrggbb" else
  label ← core (CreateUserLabel name color);
  mret (found [("label_id", JString label.1); ("name", JString label.2)]).

(** ** Running a tool *)

Definition run (t : Tool) (arguments : Json) : Prog Outcome :=
  or_else match t with
          | Permissions.Search => search arguments
          | Permissions.GetThread => get_thread arguments
          | Permissions.GetMessage => get_message arguments
          | Permissions.ListLabels => list_labels
          | GetAttachmentText => attachment_text arguments
          | PresentThreads => present_threads arguments
          | FactsLookup => facts_tool arguments
          | CreateDraft => create_draft arguments
          | UpdateDraft => update_draft arguments
          | Archive => change_threads arguments ArchiveThreads
          | MarkRead => change_threads arguments (MarkThreads true)
          | MarkUnread => change_threads arguments (MarkThreads false)
          | AddLabel => label_threads arguments true
          | RemoveLabel => label_threads arguments false
          | CreateLabel => create_label arguments
          | Permissions.Send | Forward | Delete => error "failed" "external actions run only after approval"
          end.

(** ** The audit log *)

Definition risk_name (t : Tool) : string :=
  match tool_risk t with ReadOnly => "read_only" | Reversible => "reversible" | External => "external" end.
Definition record_action (session : string) (t : Tool) (arguments : Json) (state : string) : Prog (option Z) :=
  headless ← perform (Do IsHeadless);
  if (headless : bool) && String.eqb (risk_name t) "read_only" then Ret None
  else perform (Do (WriteAction session (tool_name t) (json_text arguments) (risk_name t) state)).
Definition finish_action (id : option Z) (state : string) (summary : option string) : Prog () :=
  match id with Some id => perform (Do (UpdateAction id state summary)) | None => Ret () end.

Definition id_key (k : string) : bool :=
  List.existsb (String.eqb k) ["thread_id"; "message_id"; "draft_id"; "label_id"].
Definition id_text (v : Json) : option string :=
  match v with JString s => Some s | _ => pretty <$> as_i64 v end.
Definition push_id (s : string) (out : list string) : list string :=
  if (length out <? 50) && negb (List.existsb (String.eqb s) out) then out ++ [s] else out.
(** Up to 50 ids mentioned in a result. *)
Fixpoint ids_in (v : Json) (out : list string) : list string :=
  match v with
  | JObject fields =>
      foldl (λ out f, match (if id_key f.1 then id_text f.2 else None) with
                      | Some s => push_id s out
                      | None => ids_in f.2 out
                      end) out fields
  | JArray items => foldl (λ out v, ids_in v out) out items
  | _ => out
  end.
Definition outcome_summary (o : Outcome) : string :=
  match o with
  | OkOutcome text (Some v) =>
      match ids_in v [] with [] => (truncate_chars 200 text).1 | ids => join ", " ids end
  | OkOutcome text None => (truncate_chars 200 text).1
  | ErrorOutcome code message => code +:+ ": " +:+ message
  end.
Definition end_state (o : Outcome) : string := if outcome_ok o then "done" else "failed".
Definition refusal_state (o : Outcome) : bool :=
  match o with ErrorOutcome code _ => String.eqb code "denied" | _ => false end.

(** ** Asking the user *)

Record Proposal := mkProposal { pr_summary : string; pr_draft_id : option Z }.

Definition plural (n : nat) (one : string) : string :=
  pretty (Z.of_nat n) +:+ " " +:+ one +:+ (if n =? 1 then "" else "s").
Definition recipients_text (d : DraftInfo) : string :=
  match recipient_emails (di_to d ++ di_cc d ++ di_bcc d) with
  | [] => "no recipients"
  | all => join ", " all
  end.
Definition thread_count (arguments : Json) : nat :=
  length (default [] (as_array (json_get "thread_ids" arguments))).

Definition prepare_send (arguments : Json) : Try Proposal :=
  draft_id ← or_fail (ErrorOutcome "invalid_arguments" "draft_id is required") (as_i64 (json_get "draft_id" arguments));
  d ← core (GetDraft draft_id);
  d ← or_fail NO_DRAFT d;
  if is_empty (di_to d) && is_empty (di_cc d) && is_empty (di_bcc d)
  then error "invalid_arguments" "the draft has no recipients" else
  warning ← guide_warning d;
  mret (mkProposal ("Send “" +:+ di_subject d +:+ "” to " +:+ recipients_text d +:+ warning) (Some draft_id)).

Definition prepare_forward (arguments : Json) : Try Proposal :=
  '(message_id, to, note) ← args [field "message_id"; field "to"; field "note_markdown"]
    (λ f, m ← required as_str f "message_id"; to ← required strings f "to"; n ← optional as_str f "note_markdown";
          Some (m, to, n)) arguments;
  m ← message_in_scope message_id;
  to ← addresses (Some to);
  let to := default [] to in
  if is_empty to then error "invalid_arguments" "say who to forward it to" else
  draft ← core (ForwardDraft message_id);
  let draft := set_recipients to (di_cc draft) draft in
  let draft := set_text (di_subject draft) (default "" (markdown_to_html <$> note)) (di_quoted_html draft) draft in
  id ← core (SaveDraft draft);
  _ ← op (AllowDraft id);
  warning ← guide_warning draft;
  mret (mkProposal ("Forward “" +:+ g_subject m.1 +:+ "” to " +:+ recipients_text draft +:+ warning) (Some id)).

Definition prepare (t : Tool) (arguments : Json) : Try Proposal :=
  match t with
  | Permissions.Send => prepare_send arguments
  | Forward => prepare_forward arguments
  | Delete => mret (mkProposal ("Move " +:+ plural (thread_count arguments) "thread" +:+ " to Trash") None)
  | other =>
      let n := thread_count arguments in
      mret (mkProposal (tool_name other +:+ (if 0 <? n then " on " +:+ plural n "thread" else "")) None)
  end.

Definition SESSION_PREFIX : string := "outside-".
Definition client_name (label : string) : string :=
  if String.eqb label "claude-code" || String.eqb label "claude" then "Claude Code"
  else if starts_with "codex" label then "Codex" else label.
(** Who an outside session's proposals come from. *)
Definition outside_label (session : string) : Prog (option string) :=
  match strip_prefix SESSION_PREFIX session with
  | None => Ret None
  | Some rest =>
      let label := match rsplit_once "-" rest with Some (l, _) => l | None => rest end in
      agent ← perform (Do AgentAddress);
      Ret (Some (client_name label +:+ " outside Kaluta" +:+
                 match agent with Some a => ", as " +:+ a | None => "" end))
  end.
Definition card_text (draft_id : option Z) : Prog string :=
  match draft_id with
  | Some id =>
      d ← perform (Do (GetDraft id));
      Ret (match d with
           | Ok (Some d) => NL +:+ NL +:+ (truncate_chars 600 (trim (html_to_text (di_body_html d)))).1
           | _ => ""
           end)
  | None => Ret ""
  end.

Definition DECLINED : Outcome := ErrorOutcome "rejected_by_user" "The user declined this action.".
Definition TIMED_OUT : Outcome := ErrorOutcome "approval_timeout" "The user did not answer within 10 minutes.".

Definition await_approval (session : string) (action_id : option Z) (t : Tool) (summary : string)
    (draft_id : option Z) : Prog (result Outcome ()) :=
  match action_id with
  | None => Ret (Err (ErrorOutcome "failed" "could not record the proposal"))
  | Some action_id =>
      who ← outside_label session;
      summary ← (match who with
                 | Some who => text ← card_text draft_id; Ret (who +:+ ": " +:+ summary +:+ text)
                 | None => Ret summary
                 end);
      ticket ← perform NewTicket;
      account ← perform (Do EffectiveAccount);
      _ ← perform (Park ticket account draft_id);
      _ ← perform (Emit (ActionProposed ticket (tool_name t) summary draft_id));
      decision ← perform (Await ticket);
      _ ← perform (Unpark ticket);
      let '(approved, state, outcome) :=
        match decision with
        | Some true => (true, "approved", Ok ())
        | Some false => (false, "rejected", Err DECLINED)
        | None => (false, "expired", Err TIMED_OUT)
        end in
      _ ← perform (Emit (ActionResolved ticket approved));
      _ ← finish_action (Some action_id) state None;
      Ret outcome
  end.

(** A preparation that failed, on the record. *)
Definition record_failed (session : string) (t : Tool) (arguments : Json) (o : Outcome) : Prog Outcome :=
  id ← record_action session t arguments "failed";
  _ ← finish_action id "failed" (Some (outcome_summary o));
  Ret o.

Definition NO_DRAFT_TO_SEND : Outcome := ErrorOutcome "failed" "no draft to send".
Definition approved_send (draft_id : option Z) : Prog Outcome :=
  match draft_id with
  | Some draft =>
      sent ← perform (Do (SendDraft draft));
      Ret (match sent with
           | Ok _ => found [("sent", JBool true); ("draft_id", json_int draft)]
           | Err e => failed e
           end)
  | None => Ret NO_DRAFT_TO_SEND
  end.
Definition trash_threads (arguments : Json) : Try Outcome :=
  ids ← threads_arg arguments;
  _ ← core (Mutate (ChangeTrash ids));
  mret (found [("trashed", json_int (Z.of_nat (length ids)))]).
Definition approved (t : Tool) (arguments : Json) (draft_id : option Z) : Prog Outcome :=
  match t with
  | Permissions.Send | Forward => approved_send draft_id
  | Delete => or_else (trash_threads arguments)
  | _ => run t arguments
  end.

(** A forward that does not go leaves no draft behind. *)
Definition drop_forward (t : Tool) (draft_id : option Z) : Prog () :=
  match t, draft_id with
  | Forward, Some draft => _ ← perform (Do (DeleteDraft draft)); Ret ()
  | _, _ => Ret ()
  end.

Definition approve_then_run (session : string) (t : Tool) (arguments : Json) : Prog Outcome :=
  proposal ← run_try (prepare t arguments);
  match proposal with
  | Err o => record_failed session t arguments o
  | Ok proposal =>
      action_id ← record_action session t arguments "pending";
      answer ← await_approval session action_id t (pr_summary proposal) (pr_draft_id proposal);
      match answer with
      | Err declined => _ ← drop_forward t (pr_draft_id proposal); Ret declined
      | Ok _ =>
          outcome ← approved t arguments (pr_draft_id proposal);
          _ ← finish_action action_id (end_state outcome) (Some (outcome_summary outcome));
          Ret outcome
      end
  end.

(** What follows the first [p] in [s]. *)
Fixpoint after_first (p s : string) : option string :=
  match strip_prefix p s with
  | Some rest => Some rest
  | None => match s with EmptyString => None | String _ s => after_first p s end
  end.
Definition send_freely (session : string) (t : Tool) (arguments : Json) : Prog Outcome :=
  proposal ← run_try (prepare t arguments);
  match proposal with
  | Err o => record_failed session t arguments o
  | Ok proposal =>
      action_id ← record_action session t arguments "allowed";
      let breaches := after_first GUIDE_BREACH (pr_summary proposal) in
      outcome ← (match pr_draft_id proposal with
                 | Some draft =>
                     sent ← perform (Do (SendDraft draft));
                     Ret (match sent with
                          | Ok _ =>
                              let value := obj [("sent", JBool true); ("draft_id", json_int draft)] in
                              outcome_json (match breaches with
                                            | Some b => set_field "writing_guide_breaches" (JString b) value
                                            | None => value
                                            end)
                          | Err e => failed e
                          end)
                 | None => Ret NO_DRAFT_TO_SEND
                 end);
      _ ← (if outcome_ok outcome then Ret () else drop_forward t (pr_draft_id proposal));
      _ ← finish_action action_id (end_state outcome)
            (Some (if outcome_ok outcome then pr_summary proposal else outcome_summary outcome));
      Ret outcome
  end.

(** ** A call *)

Definition deny_text (r : DenyReason) : string :=
  match r with
  | TooManyThreadsInCall => "a single call may change at most 200 threads"
  | SessionBulkCap => "this session has changed 2000 threads; ask the user before changing more"
  | RateLimited => "too many tool calls; at most 60 per minute"
  | OutOfScope => "this thread is outside what the user asked about"
  | DraftNotFromSession => "only drafts created in this session can be sent"
  | MissingDraft => "a draft id is required"
  end.
Definition CANNOT_SEND : string :=
  "This account is an imported mailbox: it cannot draft, reply, forward or send mail.".
Definition ASK_WHILE_CLOSED : string :=
  "This mailbox is set to ask before each send, and Kaluta is closed, so no one can approve it. Nothing was sent or queued. Ask the user to open Kaluta and try again, or to set When Agents Send to Send freely in the mailbox's settings.".

Definition action_of (t : Tool) (arguments : Json) : ProposedAction :=
  mkAction t (thread_ids_of t arguments) (as_i64 (json_get "draft_id" arguments)).
Definition writes_mail (t : Tool) : bool :=
  bool_decide (t ∈ [CreateDraft; UpdateDraft; Permissions.Send; Forward]).
Definition sends_mail (t : Tool) : bool := bool_decide (t ∈ [Permissions.Send; Forward]).

(** The end of a call that was refused or is allowed. *)
Definition recorded_run (session : string) (t : Tool) (arguments : Json) (refusal : option string) : Prog Outcome :=
  action_id ← record_action session t arguments (match refusal with Some _ => "denied" | None => "allowed" end);
  outcome ← (match refusal with
             | Some reason => Ret (ErrorOutcome "denied" reason)
             | None => run t arguments
             end);
  let state := if refusal_state outcome then "denied" else end_state outcome in
  _ ← finish_action action_id state (Some (outcome_summary outcome));
  Ret outcome.

Definition call (session : string) (t : Tool) (arguments : Json) : Prog Outcome :=
  let action := action_of t arguments in
  now ← perform Now;
  checked ← perform (CheckGuard action now);
  read_only ← perform IsReadOnly;
  if (read_only : bool) && negb (bool_decide (tool_risk t = ReadOnly))
  then Ret (ErrorOutcome "denied" "this is a preview: nothing may be changed") else
  cannot ← (if writes_mail t then r ← perform (Do RefuseIfArchive); Ret (negb (is_ok r)) else Ret false);
  if cannot : bool then Ret (ErrorOutcome "cannot_send" CANNOT_SEND) else
  match checked with
  | None => Ret (ErrorOutcome "unknown_session" "this agent session has ended")
  | Some (Err reason) => recorded_run session t arguments (Some (deny_text reason))
  | Some (Ok _) =>
      policy ← perform ReadPolicy;
      match decide_action policy action with
      | Deny reason => recorded_run session t arguments (Some (deny_text reason))
      | Allow => recorded_run session t arguments None
      | RequireApproval =>
          freely ← (if sends_mail t then perform (Do AgentSendsFreely) else Ret false);
          if freely : bool then send_freely session t arguments else
          headless ← perform (Do IsHeadless);
          if headless : bool then Ret (ErrorOutcome "needs_kaluta" ASK_WHILE_CLOSED)
          else approve_then_run session t arguments
      end
  end.
End tools.

#[export] Instance plain_text : AgentText := {|
  lower := ascii_lower; markdown_to_html := λ s, s; html_to_text := λ s, s; strip_quoted := λ s, s;
  extract_text := λ s _ _, Ok s; json_text := λ _, "{}"; invalid_text := λ _ _, "bad"; debug_text := quoted |}.

Example parse_address_ex :
  parse_address (QUOTE +:+ "Ann Lee" +:+ QUOTE +:+ " <a@b.c>") = Ok (mkAddress (Some "Ann Lee") "a@b.c") ∧
  is_ok (parse_address "Ann <a@b.c>, x@y.z") = true ∧ is_ok (parse_address "a@b@c") = false.
Proof. vm_compute. done. Qed.
