(* ===== verification/Facade.v ===== *)
(** * Facade: the core's accounts and what it does on them
    ([kaluta-core/src/compose.rs], [mutations.rs], [archive.rs],
    [agent_mailbox.rs], [mail.rs], [registry.rs])

    Each function of [Core] acts on the account its task is scoped to, or
    else the window's; the operations on mail, drafts and the outbox are
    those of the store, and what needs the network, files or another
    conversion is a parameter. *)

From Stdlib Require Import Ascii.
From S2P Require Import Prelude.
From S2P Require Import Domain.
From S2P Require Import Text.
From S2P Require Import Time.
From S2P Require Import Guide.
From S2P Require Import MailStore.
From S2P Require Import Finish.
From S2P Require Import Read.
From S2P Require Import LocalDb.
From S2P Require Import Outbox.
From S2P Require Import Compose.
From S2P Require Import Provider.
From S2P Require Import Drain.
From S2P Require Import AgentLog.
From S2P Require Import Agents.

(** ** State *)

Inductive AgentService := Primitive | AgentMail.
Inductive AgentSendMode := Freely | Ask.
Record AgentMeta := mkAgentMeta {
  am_service : AgentService; am_address : string; am_name : string; am_send_mode : AgentSendMode;
  am_service_account : string }.
Record ServiceMeta := mkServiceMeta { sm_verified : bool; sm_human_email : option string }.

(** An account's store: its database, [sync_state]'s account_email, and the
    agents' tables. *)
Record Account := mkAccount { ac_db : Db; ac_email : option string; ac_agents : AgentTables }.

(** The open accounts ([stores], [current], [syncing]), the records on disk
    ([archives], [agents], [services]), the settings, and the counters behind
    random tokens and local label ids. *)
Record Kaluta := mkKaluta {
  stores : gmap string Account; current : option string; syncing : gset string;
  archives : gset string; agents : gmap string AgentMeta; services : gmap string ServiceMeta;
  headless : bool; send_delay_ms : Millis; next_random : nat; next_label : nat }.
Definition with_stores (x : gmap string Account) (k : Kaluta) : Kaluta :=
  mkKaluta x (current k) (syncing k) (archives k) (agents k) (services k) (headless k) (send_delay_ms k)
    (next_random k) (next_label k).
Definition set_send_delay (seconds : Z) (k : Kaluta) : Kaluta :=
  mkKaluta (stores k) (current k) (syncing k) (archives k) (agents k) (services k) (headless k)
    (Z.min seconds 60 * 1000)%Z (next_random k) (next_label k).
Definition take_random (n : nat) (k : Kaluta) : Kaluta :=
  mkKaluta (stores k) (current k) (syncing k) (archives k) (agents k) (services k) (headless k)
    (send_delay_ms k) (next_random k + n) (next_label k).
Definition take_label (k : Kaluta) : Kaluta :=
  mkKaluta (stores k) (current k) (syncing k) (archives k) (agents k) (services k) (headless k)
    (send_delay_ms k) (next_random k) (S (next_label k)).

(** ** Errors *)

Definition core_error (kind : ErrorKind) (message : string) : CoreError := mkCoreError kind message.
(** [StoreError]'s display, and [From<StoreError>]. *)
Definition store_text (e : StoreError) : string :=
  match e with
  | Sqlite s => "database error: " +:+ s
  | NotFoundError s => "not found: " +:+ s
  | Invalid s => "invalid data: " +:+ s
  | Io s => "i/o error: " +:+ s
  end.
Definition from_store (e : StoreError) : CoreError :=
  core_error match e with NotFoundError _ => NotFound | Invalid _ => InvalidInput | _ => Storage end (store_text e).
(** [send_draft]'s own: what is wrong with the draft, in its words. *)
Definition from_send (e : StoreError) : CoreError :=
  match e with Invalid m => core_error InvalidInput m | _ => from_store e end.
(** [ProviderError]'s display, and [From<ProviderError>]. *)
Definition provider_text (e : ProviderError) : string :=
  match e with
  | Unauthorized => "not authorized; sign in again"
  | CursorExpired => "sync cursor expired"
  | Provider.NotFound s => "not found: " +:+ s
  | Provider.RateLimited after =>
      "rate limited" +:+ match after with Some d => "; retry after " +:+ pretty (d / 1000)%Z +:+ "s" | None => "" end
  | Provider.Network s => "network error: " +:+ s
  | Server status s => "server error " +:+ pretty status +:+ ": " +:+ s
  | Decode s => "undecodable response: " +:+ s
  | InvalidResponse s => "unexpected response: " +:+ s
  | Forbidden s => "permission denied: " +:+ s
  | Unavailable s => "unavailable: " +:+ s
  end.
Definition from_provider (e : ProviderError) : CoreError :=
  core_error match e with
             | Unauthorized => Auth
             | Forbidden _ => PermissionDenied
             | Provider.NotFound _ => NotFound
             | Provider.RateLimited _ => RateLimitedError
             | Provider.Network _ | Server _ _ | Decode _ | Unavailable _ => Network
             | CursorExpired | InvalidResponse _ => Internal
             end (provider_text e).

(** ** Accounts *)

(** [effective_account_id], [db], [sync_service], [refuse_if_archive];
    [scoped] is the account the task is scoped to. *)
Definition effective_account_id (scoped : option string) (k : Kaluta) : option string :=
  match scoped with Some a => Some a | None => current k end.
Definition db (scoped : option string) (k : Kaluta) : CoreResult (string * Account) :=
  id ← ok_or (core_error NotFound "no account is open") (effective_account_id scoped k);
  a ← ok_or (core_error NotFound "that account is not open") (stores k !! id);
  Ok (id, a).
Definition has_service (scoped : option string) (k : Kaluta) : bool :=
  match effective_account_id scoped k with Some id => bool_decide (id ∈ syncing k) | None => false end.
Definition is_archive (id : string) (k : Kaluta) : bool := bool_decide (id ∈ archives k).
Definition refuse_if_archive (scoped : option string) (k : Kaluta) : CoreResult () :=
  match effective_account_id scoped k with
  | Some id => if is_archive id k then Err (core_error InvalidInput CANNOT_SEND) else Ok ()
  | None => Ok ()
  end.

(** What a function does with the account's database. *)
Definition set_db (id : string) (d : Db) (k : Kaluta) : Kaluta :=
  with_stores (alter (λ a, mkAccount d (ac_email a) (ac_agents a)) id (stores k)) k.
Definition set_agents (id : string) (t : AgentTables) (k : Kaluta) : Kaluta :=
  with_stores (alter (λ a, mkAccount (ac_db a) (ac_email a) t) id (stores k)) k.
Definition read_db {A} (scoped : option string) (k : Kaluta) (f : Db → A) : CoreResult A :=
  '(_, a) ← db scoped k; Ok (f (ac_db a)).
Definition write_db {A} (scoped : option string) (k : Kaluta) (f : Db → StoreResult (Db * A)) : Kaluta * CoreResult A :=
  match db scoped k with
  | Err e => (k, Err e)
  | Ok (id, a) =>
      match f (ac_db a) with
      | Ok (d, x) => (set_db id d k, Ok x)
      | Err e => (k, Err (from_store e))
      end
  end.

(** ** Agent mailboxes *)

Definition agent_meta (id : string) (k : Kaluta) : option AgentMeta := agents k !! id.
Definition effective_meta (scoped : option string) (k : Kaluta) : option AgentMeta :=
  id ← effective_account_id scoped k; agent_meta id k.
Definition agent_sends_freely (scoped : option string) (k : Kaluta) : bool :=
  match effective_meta scoped k with
  | Some m => match am_send_mode m with Freely => true | Ask => false end
  | None => false
  end.
Definition ONE_RECIPIENT_ONLY : string := "Primitive sends to one recipient per message; remove the others".
Definition agent_mail_only (human : string) : string :=
  "Until this AgentMail service account is verified, it can write only to " +:+
  (if String.eqb human "" then "the email it was created with" else human) +:+
  ". Verify it in Settings › Accounts, or write to " +:+
  (if String.eqb human "" then "that email" else human) +:+ " alone.".
Definition check_agent_recipients (scoped : option string) (recipients : list string) (k : Kaluta) : CoreResult () :=
  match effective_meta scoped k with
  | None => Ok ()
  | Some m =>
      match am_service m with
      | Primitive =>
          if 1 <? length recipients then Err (core_error InvalidInput ONE_RECIPIENT_ONLY) else Ok ()
      | AgentMail =>
          match services k !! am_service_account m with
          | None => Ok ()
          | Some service =>
              if sm_verified service then Ok () else
              let human := default "" (sm_human_email service) in
              let others := List.filter (λ r, negb (nocase_eqb (trim r) (trim human))) recipients in
              if is_empty others then Ok () else Err (core_error InvalidInput (agent_mail_only human))
          end
      end
  end.

(** ** Reading and writing mail *)

(** What the functions take from elsewhere. *)
Class FacadeText := {
  read_file : string → result string string;
  write_mime : OutgoingMessage → result string string;
  text_to_html : string → string;
  html_to_quoted_text : string → string;
  sanitize_html : string → string;
  encode64 : string → string;
  token_of : nat → string;                         (** [random_token]'s draws *)
  attachment_rows : Store → MessageId → list Z;    (** the rows' ids *)
  create_remote : string → option (string * string) → Kaluta → Kaluta * ProviderResult Label;
  elsewhere : ∀ o : CoreOp, option string → Millis → Kaluta → Kaluta * core_answer o }.

Section facade.
Context `{AgentText} `{FacadeText}.

Definition DEMO_ADDRESS : string := "me@example.com".
(** [own_address], [account_address]; [own_addresses] *)
Definition own_address (scoped : option string) (k : Kaluta) : CoreResult string :=
  '(_, a) ← db scoped k; Ok (default DEMO_ADDRESS (ac_email a)).
Definition own_addresses (scoped : option string) (k : Kaluta) : CoreResult (list string) :=
  account ← own_address scoped k;
  let account := lower account in
  sent ← read_db scoped k (λ d, sent_from_addresses (mail d));
  Ok (if bool_decide (account ∈ sent) then sent else account :: sent).

(** A panic in a task is an error of the call. *)
Definition in_task {A} (r : option (StoreResult A)) : CoreResult A :=
  match r with
  | Some r => map_err from_store r
  | None => Err (core_error Internal "task panicked")
  end.
Definition reply_draft (scoped : option string) (message_id : MessageId) (reply_all : bool) (k : Kaluta) :
    CoreResult DraftInfo :=
  _ ← refuse_if_archive scoped k;
  me ← own_addresses scoped k;
  '(_, a) ← db scoped k;
  draft_info <$> in_task (Compose.reply_draft lower text_to_html message_id reply_all me (mail (ac_db a))).
Definition forward_draft (scoped : option string) (message_id : MessageId) (k : Kaluta) : CoreResult DraftInfo :=
  _ ← refuse_if_archive scoped k;
  '(_, a) ← db scoped k;
  draft_info <$> in_task (Compose.forward_draft text_to_html message_id (mail (ac_db a))).

Definition save_draft (scoped : option string) (draft : DraftInfo) (now : Millis) (k : Kaluta) : Kaluta * CoreResult Z :=
  match refuse_if_archive scoped k with
  | Err e => (k, Err e)
  | Ok _ => write_db scoped k (save (draft_record draft) now)
  end.
Definition get_draft (scoped : option string) (id : Z) (k : Kaluta) : CoreResult (option DraftInfo) :=
  read_db scoped k (λ d, draft_info <$> LocalDb.get id d).
Definition list_drafts (scoped : option string) (k : Kaluta) : CoreResult (list DraftInfo) :=
  read_db scoped k (λ d, draft_info <$> LocalDb.list_drafts d).
Definition delete_draft (scoped : option string) (id : Z) (now : Millis) (k : Kaluta) : Kaluta * CoreResult () :=
  write_db scoped k (λ d, Ok (discard id now d, ())).

(** *** Sending *)

Definition recipients_of (d : DraftRecord) : list string := addr_email <$> d_to d ++ d_cc d ++ d_bcc d.
(** An agent mailbox's limits, on the draft as it is now. *)
Definition check_send (scoped : option string) (draft : Z) (k : Kaluta) : CoreResult () :=
  match effective_meta scoped k with
  | None => Ok ()
  | Some _ =>
      recipients ← read_db scoped k (λ d, default [] (recipients_of <$> LocalDb.get draft d));
      check_agent_recipients scoped recipients k
  end.
Definition send_draft (scoped : option string) (draft : Z) (now : Millis) (k : Kaluta) : Kaluta * CoreResult bool :=
  let ready :=
    _ ← refuse_if_archive scoped k;
    '(account, a) ← db scoped k;
    _ ← check_send scoped draft k;
    me ← own_address scoped k;
    Ok (account, a, address_new (am_name <$> effective_meta scoped k) me) in
  match ready with
  | Err e => (k, Err e)
  | Ok (account, a, from) =>
      let always_queue := headless k || bool_decide (is_Some (effective_meta scoped k)) in
      let hold := if headless k then 0%Z else send_delay_ms k in
      let queue := has_service scoped k || always_queue in
      let '(d, r) := Compose.send_draft lower read_file write_mime html_to_quoted_text sanitize_html encode64 id id
                       draft from queue hold (token_of (next_random k)) (token_of (S (next_random k))) now (ac_db a) in
      (set_db account d (take_random 2 k),
       match r with Ok _ => Ok (queue && (0 <? hold)%Z) | Err e => Err (from_send e) end)
  end.

(** Undo Send, and the sends waiting out their delay. *)
Definition cancel_send (scoped : option string) (draft_id : Z) (now : Millis) (k : Kaluta) : Kaluta * CoreResult bool :=
  let '(k, r) := write_db scoped k (Outbox.cancel_send lower draft_id now) in
  (k, (λ changes, bool_decide (is_Some changes)) <$> r).
Definition send_held_until (scoped : option string) (draft_id : Z) (now : Millis) (k : Kaluta) :
    CoreResult (option Millis) :=
  read_db scoped k (Outbox.send_held_until draft_id now).
Definition over_stores (f : Db → Z) (k : Kaluta) : Z :=
  foldr (λ p n, (f (ac_db p.2) + n)%Z) 0%Z (map_to_list (stores k)).
Definition held_send_count (now : Millis) (k : Kaluta) : Z := over_stores (held_sends now) k.
Definition unsent_send_count_now (k : Kaluta) : Z := over_stores unsent_sends k.
(** [send_held_now], before it waits. *)
Definition release_all (now : Millis) (k : Kaluta) : Kaluta :=
  with_stores ((λ a, mkAccount (release_held_sends now (ac_db a)).1 (ac_email a) (ac_agents a)) <$> stores k) k.

(** ** Changes *)

(** [apply], the events it emits left out. *)
Definition apply (scoped : option string) (change : LocalChange) (record : option string) (now : Millis) (k : Kaluta) :
    Kaluta * CoreResult (option (string * Z) * nat) :=
  let queue := has_service scoped k in
  let '(k', r) := write_db scoped k (apply_local_change_recorded lower change queue record now) in
  (k', (λ applied, (account ← effective_account_id scoped k; action ← ap_action applied; Some (account, action),
                    ap_messages applied)) <$> r).
Definition mutate (scoped : option string) (change : LocalChange) (kind : string) (now : Millis) (k : Kaluta) :
    Kaluta * CoreResult (option (string * Z)) :=
  let '(k, r) := apply scoped change (Some kind) now k in (k, fst <$> r).
Definition mutate_unrecorded (scoped : option string) (change : LocalChange) (now : Millis) (k : Kaluta) :
    Kaluta * CoreResult () :=
  let '(k, r) := apply scoped change None now k in (k, (λ _, ()) <$> r).

(** The user's actions: threads must be given. *)
Definition threads (ids : list string) : CoreResult (list ThreadId) :=
  if is_empty ids then Err (core_error InvalidInput "no threads given") else Ok ids.
Definition user_change (scoped : option string) (ids : list string) (change : list ThreadId → LocalChange)
    (kind : string) (now : Millis) (k : Kaluta) : Kaluta * CoreResult (option (string * Z)) :=
  match threads ids with
  | Err e => (k, Err e)
  | Ok ids => mutate scoped (change ids) kind now k
  end.
Definition archive_threads scoped ids := user_change scoped ids Drain.archive "archive".
Definition move_to_inbox_threads scoped ids := user_change scoped ids move_to_inbox "move_to_inbox".
Definition mark_junk_threads scoped ids := user_change scoped ids mark_junk "junk".
Definition not_junk_threads scoped ids := user_change scoped ids not_junk "not_junk".
Definition set_read_threads scoped ids (read : bool) :=
  user_change scoped ids (λ ts, set_read ts read) (if read then "read" else "unread").
Definition set_starred_threads scoped ids (starred : bool) :=
  user_change scoped ids (λ ts, set_starred ts starred) (if starred then "star" else "unstar").
Definition trash_user_threads scoped ids := user_change scoped ids ChangeTrash "trash".
Definition modify_labels (scoped : option string) (ids add remove : list string) (now : Millis) (k : Kaluta) :
    Kaluta * CoreResult (option (string * Z)) :=
  if List.existsb (λ l, bool_decide (l ∈ PROTECTED)) (add ++ remove)
  then (k, Err (core_error InvalidInput "spam, trash, draft and sent are not labels to set"))
  else user_change scoped ids (λ ts, ChangeLabels ts add remove)
         (if is_empty remove then "label" else if is_empty add then "unlabel" else "relabel") now k.

(** [cleanup::is_cleanup_action] *)
Definition is_cleanup_action (kind : string) : bool := starts_with "cleanup_" kind.
(** [replay]: a recorded action's diffs, or their inverse, in its account. *)
Definition replay (token : string * Z) (inverse : bool) (now : Millis) (k : Kaluta) : Kaluta * CoreResult () :=
  let scoped := Some token.1 in
  let found :=
    action ← read_db scoped k (get_action token.2);
    ok_or (core_error NotFound "that action can no longer be undone") action in
  match found with
  | Err e => (k, Err e)
  | Ok action =>
      let diffs := if inverse then Outbox.inverse <$> ua_diffs action else ua_diffs action in
      mutate_unrecorded scoped (ChangeExact diffs (is_cleanup_action (ua_kind action))) now k
  end.

(** *** Labels *)

(** [text_color_for]: a channel that is not two hex digits counts 0. *)
Definition hex_value (c : Ascii.ascii) : option Z :=
  let n := Z.of_nat (Ascii.nat_of_ascii c) in
  if (48 <=? n)%Z && (n <=? 57)%Z then Some (n - 48)%Z
  else if (97 <=? n)%Z && (n <=? 102)%Z then Some (n - 87)%Z
  else if (65 <=? n)%Z && (n <=? 70)%Z then Some (n - 55)%Z else None.
(** [u8::from_str_radix(_, 16)] of two characters: a sign is allowed. *)
Definition radix16 (s : string) : option Z :=
  match s with
  | String a (String b EmptyString) =>
      if Ascii.eqb a "+" then hex_value b
      else x ← hex_value a; y ← hex_value b; Some (16 * x + y)%Z
  | _ => None
  end.
Definition channel (hex : string) (i : nat) : Z := default 0%Z (radix16 (String.substring i 2 hex)).
Definition text_color_for (background : string) : string :=
  let hex := strip_all (String.length background) ["#"] background in
  let luminance := (299 * channel hex 0 + 587 * channel hex 2 + 114 * channel hex 4)%Z in
  if (150 * 1000 <? luminance)%Z then "#000000" else "#ffffff".

(** [trim_matches('/')] *)
Definition trim_slashes (s : string) : string :=
  let strip := strip_all (String.length s) ["/"] in string_rev_of (strip (string_rev_of (strip s))).
Definition label_segments (name : string) : list string := split_on "/" name.

Definition label_upserted (l : Label) (d : Db) : StoreResult (Db * ()) :=
  '(s, _) ← finish lower (upsert_labels [l] (writer_new (mail d)));
  Ok (with_mail s d, ()).
Definition name_refusal (name : string) : option CoreError :=
  if String.eqb name "" || (225 <? String.length name) ||
     List.existsb (λ part, String.eqb (trim part) "") (label_segments name)
  then Some (core_error InvalidInput "a label needs a name (nest with /)")
  else if List.existsb (λ s, nocase_eqb s name) (PROTECTED ++ [INBOX; UNREAD; STARRED; IMPORTANT])
  then Some (core_error InvalidInput (name +:+ " is a system label")) else None.
(** The label from the server, again without a color it refuses; or a local
    one. *)
Definition new_label (scoped : option string) (name : string) (color : option (string * string)) (now : Millis)
    (k : Kaluta) : Kaluta * CoreResult Label :=
  if has_service scoped k then
    match create_remote name color k with
    | (k, Err (InvalidResponse e)) =>
        match color with
        | Some _ => let '(k, r) := create_remote name None k in (k, map_err from_provider r)
        | None => (k, Err (from_provider (InvalidResponse e)))
        end
    | (k, r) => (k, map_err from_provider r)
    end
  else
    (take_label k,
     Ok (mkLabel ("Label_local_" +:+ pretty now +:+ "_" +:+ pretty (Z.of_nat (next_label k))) name UserLabel color true)).
Definition create_single_label (scoped : option string) (name : string) (color : option string) (now : Millis)
    (k : Kaluta) : Kaluta * CoreResult Label :=
  let name := trim_slashes (trim name) in
  match name_refusal name with
  | Some e => (k, Err e)
  | None =>
      match read_db scoped k (λ d, Read.list_labels (mail d)) with
      | Err e => (k, Err e)
      | Ok labels =>
          match List.find (λ l, nocase_eqb (l_name l) name) labels with
          | Some existing => (k, Ok existing)
          | None =>
              let '(k, r) := new_label scoped name ((λ bg, (bg, text_color_for bg)) <$> color) now k in
              match r with
              | Err e => (k, Err e)
              | Ok label => let '(k, r) := write_db scoped k (label_upserted label) in (k, (λ _, label) <$> r)
              end
          end
      end
  end.
(** A path's missing parents first, without a color. *)
Fixpoint create_parents (scoped : option string) (parents : list string) (now : Millis) (k : Kaluta) :
    Kaluta * CoreResult () :=
  match parents with
  | [] => (k, Ok ())
  | p :: parents =>
      let '(k, r) := create_single_label scoped p None now k in
      match r with Ok _ => create_parents scoped parents now k | Err e => (k, Err e) end
  end.
Definition create_label (scoped : option string) (name : string) (color : option string) (now : Millis) (k : Kaluta) :
    Kaluta * CoreResult Label :=
  let name := trim_slashes (trim name) in
  let segments := label_segments name in
  let parents := (λ depth, join "/" (take depth segments)) <$> seq 1 (length segments - 1) in
  let '(k, r) := create_parents scoped parents now k in
  match r with Ok _ => create_single_label scoped name color now k | Err e => (k, Err e) end.

(** ** The activity log *)

(** [record_named_action], past its check; [finish_action]. *)
Definition write_action (scoped : option string) (session name args risk state : string) (now : Millis) (k : Kaluta) :
    Kaluta * option Z :=
  match db scoped k with
  | Ok (id, a) =>
      let '(t, row) := AgentLog.record_action session name args risk state now (ac_agents a) in (set_agents id t k, row)
  | Err _ => (k, None)
  end.
Definition update_action_row (scoped : option string) (id : Z) (state : string) (summary : option string) (now : Millis)
    (k : Kaluta) : Kaluta :=
  match db scoped k with
  | Ok (account, a) => set_agents account (update_action id state summary now (ac_agents a)) k
  | Err _ => k
  end.

(** ** What agents' calls do on it *)

Definition seen (s : Store) (m : Message) : Seen := (m, attachment_rows s (g_id m)).
Definition open_db (scoped : option string) (k : Kaluta) : CoreResult () := (λ _, ()) <$> db scoped k.
Definition agent_address (scoped : option string) (k : Kaluta) : option string :=
  am_address <$> (scoped ≫= λ id, agent_meta id k).
Definition user_label (scoped : option string) (name : string) (color : option string) (now : Millis) (k : Kaluta) :
    Kaluta * CoreResult (string * string) :=
  let '(k, r) := create_label scoped name color now k in (k, (λ l, (l_id l, l_name l)) <$> r).
Definition see_message (id : MessageId) (d : Db) : option Seen := seen (mail d) <$> Read.get_message (mail d) id.
Definition see_thread (id : ThreadId) (d : Db) : option (ThreadSummary * list Seen) :=
  match Read.get_thread (mail d) id with Some (t, ms) => Some (t, seen (mail d) <$> ms) | None => None end.

(** Operations not modelled here go elsewhere: search, downloads, files, the
    guide, facts and compositions. *)
Definition facade_perform (o : CoreOp) (scoped : option string) (now : Millis) (k : Kaluta) : Kaluta * core_answer o :=
  match o return Kaluta * core_answer o with
  | EffectiveAccount => (k, effective_account_id scoped k)
  | OpenDb => (k, open_db scoped k)
  | RefuseIfArchive => (k, refuse_if_archive scoped k)
  | AgentSendsFreely => (k, agent_sends_freely scoped k)
  | IsHeadless => (k, headless k)
  | AgentAddress => (k, agent_address scoped k)
  | WriteAction session name args risk state => write_action scoped session name args risk state now k
  | UpdateAction id state summary => (update_action_row scoped id state summary now k, ())
  | GetDraft id => (k, get_draft scoped id k)
  | SaveDraft d => save_draft scoped d now k
  | DeleteDraft id => delete_draft scoped id now k
  | SendDraft id => send_draft scoped id now k
  | ReplyDraft message all => (k, reply_draft scoped message all k)
  | ForwardDraft message => (k, forward_draft scoped message k)
  | Mutate change => mutate_unrecorded scoped change now k
  | CreateUserLabel name color => user_label scoped name color now k
  | ReadMessage id => (k, read_db scoped k (see_message id))
  | ReadThread id => (k, read_db scoped k (see_thread id))
  | ReadSummary id => (k, read_db scoped k (λ d, get_thread_summary (mail d) id))
  | ReadBody id => (k, read_db scoped k (λ d, get_body (mail d) id))
  | ReadLabels => (k, read_db scoped k (λ d, Read.list_labels (mail d)))
  | ListMailboxes => (k, read_db scoped k (λ d, Read.list_mailboxes (mail d)))
  | o => elsewhere o scoped now k
  end.
End facade.
