(* ===== verification/AgentHub.v ===== *)
(** * AgentHub: sessions, approvals and running calls
    ([kaluta-core/src/agents/mod.rs], [agents/approvals.rs],
    [agents/sessions.rs])

    The state tool calls share with the user, and the system of running
    calls: at each step one call performs its next operation, or the user,
    the clock or the rest of the core acts.  What the core does for a call
    is a class; the trace keeps all that happened. *)

From S2P Require Import Prelude.
From S2P Require Import Domain.
From S2P Require Import Json.
From S2P Require Import Agents.
From S2P Require Import Permissions.

(** ** The shared state *)

Record ToolSession := mkSession {
  guard : SessionGuard;
  draft_quotes : gmap Z string;
  read_only : bool;
  agent : option string;
  last_prompt : string }.
Definition with_guard (f : SessionGuard → SessionGuard) (s : ToolSession) : ToolSession :=
  mkSession (f (guard s)) (draft_quotes s) (read_only s) (agent s) (last_prompt s).

Record Pending := mkPending { pe_session : string; pe_account : option string; pe_frozen : option Z }.

(** [decisions] holds what was sent on the channels of the tickets and not
    read yet. *)
Record AgentHub := mkHub {
  sessions : gmap string ToolSession;
  session_accounts : gmap string string;
  policy : Policy;
  pending : gmap Z Pending;
  next_ticket : Z;
  decisions : gmap Z bool;
  routine_sessions : gset string }.
Definition with_sessions (x : gmap string ToolSession) (h : AgentHub) : AgentHub :=
  mkHub x (session_accounts h) (policy h) (pending h) (next_ticket h) (decisions h) (routine_sessions h).
Definition with_pending (x : gmap Z Pending) (h : AgentHub) : AgentHub :=
  mkHub (sessions h) (session_accounts h) (policy h) x (next_ticket h) (decisions h) (routine_sessions h).
Definition with_decisions (x : gmap Z bool) (h : AgentHub) : AgentHub :=
  mkHub (sessions h) (session_accounts h) (policy h) (pending h) (next_ticket h) x (routine_sessions h).
Definition empty_hub : AgentHub := mkHub ∅ ∅ (mkPolicy ∅) ∅ 0 ∅ ∅.

(** [AgentHub::register], [bind_account], [unregister] *)
Definition register (session : string) (sc : Permissions.Scope) (h : AgentHub) : AgentHub :=
  with_sessions (<[session := mkSession (guard_new sc) ∅ false None ""]> (sessions h)) h.
Definition bind_account (session account : string) (h : AgentHub) : AgentHub :=
  mkHub (sessions h) (<[session := account]> (session_accounts h)) (policy h) (pending h) (next_ticket h)
    (decisions h) (routine_sessions h).
Definition unregister (session : string) (h : AgentHub) : AgentHub :=
  with_sessions (delete session (sessions h)) h.
(** [with_session] for an update. *)
Definition update_session (session : string) (f : ToolSession → ToolSession) (h : AgentHub) : AgentHub :=
  with_sessions (alter f session (sessions h)) h.

(** *** Approvals *)

Definition is_frozen (account : option string) (draft : Z) (h : AgentHub) : bool :=
  existsb (λ p, bool_decide (pe_frozen p.2 = Some draft) && bool_decide (pe_account p.2 = account))
    (map_to_list (pending h)).
Definition ticket (h : AgentHub) : AgentHub * Z :=
  let t := (next_ticket h + 1)%Z in
  (mkHub (sessions h) (session_accounts h) (policy h) (pending h) t (decisions h) (routine_sessions h), t).
(** [resolve_agent_action]: whether the action was waiting. *)
Definition resolve (t : Z) (approve : bool) (h : AgentHub) : AgentHub * bool :=
  match pending h !! t with
  | Some _ => (with_decisions (<[t := approve]> (decisions h)) (with_pending (delete t (pending h)) h), true)
  | None => (h, false)
  end.
Definition waiting_for (session : string) (h : AgentHub) : list Z :=
  fst <$> List.filter (λ p, String.eqb (pe_session p.2) session) (map_to_list (pending h)).
Definition reject_session (session : string) (h : AgentHub) : AgentHub :=
  foldl (λ h t, (resolve t false h).1) h (waiting_for session h).

(** ** What the core does for a call *)

(** Every operation on the account a call acts on; [now] is the clock. *)
Class AgentCore (X : Type) :=
  core_perform : ∀ o : CoreOp, option string → Millis → X → X * core_answer o.

(** A draft comes back under its id, a reply or forward as a new one. *)
Definition draft_answer_ok (o : CoreOp) : core_answer o → Prop :=
  match o with
  | GetDraft id => λ r, ∀ d, r = Ok (Some d) → di_id d = id
  | ReplyDraft _ _ | ForwardDraft _ => λ r, ∀ d, r = Ok d → di_id d = 0%Z
  | _ => λ _, True
  end.
Class AgentCoreLaws (X : Type) `{AgentCore X} :=
  core_draft_ids : ∀ o account now x, draft_answer_ok o (core_perform o account now x).2.

Section system.
Context {X : Type} `{AgentCore X}.

(** [with_session(session, f)] *)
Definition on_session {A} (session : string) (f : ToolSession → A) (h : AgentHub) : option A :=
  f <$> sessions h !! session.
Definition set_guard (session : string) (g : SessionGuard) : AgentHub → AgentHub :=
  update_session session (with_guard (λ _, g)).

(** One operation of a call in [session]; none when it must wait. *)
Definition perform_op (session : string) (account : option string) (now : Millis) (h : AgentHub) (x : X) (o : Op) :
    option (AgentHub * X * answer o) :=
  match o return option (AgentHub * X * answer o) with
  | Now => Some (h, x, now)
  | CheckGuard a at_ =>
      match sessions h !! session with
      | Some s => let '(g, r) := guard_check (guard s) a at_ in Some (set_guard session g h, x, Some r)
      | None => Some (h, x, None)
      end
  | IsReadOnly => Some (h, x, default false (on_session session read_only h))
  | ReadPolicy => Some (h, x, policy h)
  | InScope thread => Some (h, x, default false (on_session session (λ s, allows (scope (guard s)) thread) h))
  | AllowDraft d => Some (update_session session (with_guard (λ g, allow_draft g d)) h, x, ())
  | KeepDraft d quote =>
      Some (update_session session
              (λ s, mkSession (allow_draft (guard s) d) (<[d := quote]> (draft_quotes s)) (read_only s) (agent s)
                      (last_prompt s)) h, x, ())
  | DraftQuote d =>
      Some (h, x, s ← sessions h !! session;
                  if owns_draft (guard s) d then Some (default "" (draft_quotes s !! d)) else None)
  | IsFrozen account d => Some (h, x, is_frozen account d h)
  | NewTicket => let '(h, t) := ticket h in Some (h, x, t)
  | Park t account draft => Some (with_pending (<[t := mkPending session account draft]> (pending h)) h, x, ())
  | Emit _ => Some (h, x, ())
  | Await t =>
      match decisions h !! t with
      | Some approve => Some (with_decisions (delete t (decisions h)) h, x, Some approve)
      | None => None
      end
  | Unpark t => Some (with_pending (delete t (pending h)) h, x, ())
  | IsRoutine => Some (h, x, bool_decide (session ∈ routine_sessions h))
  | AgentAndPrompt => Some (h, x, default (None, "") (on_session session (λ s, (agent s, last_prompt s)) h))
  | Do o => let '(x, r) := core_perform o account now x in Some (h, x, r)
  end.

(** ** The user *)

Inductive UserAction :=
| Register (session : string) (sc : Permissions.Scope) (account provider : option string)
| SetReadOnly (session : string)
| Prompt (session text : string)
| Resolve (ticket : Z) (approve : bool)
| CancelTurn (session : string)
| CloseSession (session : string)
| SetPolicy (approve_tools : list string).

(** [set_agent_policy] *)
Fixpoint policy_of (names : list string) (p : Policy) : option Policy :=
  match names with
  | [] => Some p
  | n :: names =>
      t ← from_name n;
      match set_requires_approval p t true with Ok p => policy_of names p | Err _ => None end
  end.

Definition user_step (u : UserAction) (h : AgentHub) : AgentHub :=
  match u with
  | Register session sc account provider =>
      update_session session (λ s, mkSession (guard s) (draft_quotes s) (read_only s) provider (last_prompt s))
        (register session sc (match account with Some a => bind_account session a h | None => h end))
  | SetReadOnly session =>
      update_session session (λ s, mkSession (guard s) (draft_quotes s) true (agent s) (last_prompt s)) h
  | Prompt session text =>
      update_session session (λ s, mkSession (new_user_prompt (guard s)) (draft_quotes s) (read_only s) (agent s) text) h
  | Resolve t approve => (resolve t approve h).1
  | CancelTurn session => reject_session session h
  | CloseSession session => unregister session (reject_session session h)
  | SetPolicy names =>
      match policy_of names (mkPolicy ∅) with
      | Some p => mkHub (sessions h) (session_accounts h) p (pending h) (next_ticket h) (decisions h) (routine_sessions h)
      | None => h
      end
  end.

(** ** The system *)

Inductive Event :=
| Started (c : nat) (session : string) (t : Tool) (arguments : Json)
| Performed (c : nat) (o : Op) (r : answer o)
| UserDid (u : UserAction).

Record Running := mkRunning { rn_session : string; rn_account : option string; rn_prog : Prog Outcome }.

(** [started] calls were made; [replies] are the answers given. *)
Record Sys := mkSys {
  hub : AgentHub; core_state : X; clock : Millis; started : nat; running : gmap nat Running;
  replies : gmap nat Outcome; trace : list Event }.
Definition init (h : AgentHub) (x : X) : Sys := mkSys h x 0 0 ∅ ∅ [].

Inductive Act :=
| StartCall (session : string) (t : Tool) (arguments : Json)
| StepCall (c : nat)
| ExpireWait (c : nat)
| User (u : UserAction)
| SetClock (now : Millis)
| Elsewhere (f : X → X).

Context `{AgentText}.

Definition continue (s : Sys) (c : nat) (r : Running) (h : AgentHub) (x : X) (o : Op) (a : answer o)
    (p : Prog Outcome) : Sys :=
  mkSys h x (clock s) (started s) (<[c := mkRunning (rn_session r) (rn_account r) p]> (running s)) (replies s)
    (trace s ++ [Performed c o a]).
(** One operation of call [c], or its reply. *)
Definition step_call (s : Sys) (c : nat) : option Sys :=
  r ← running s !! c;
  match rn_prog r with
  | Ret o => Some (mkSys (hub s) (core_state s) (clock s) (started s) (delete c (running s))
                     (<[c := o]> (replies s)) (trace s))
  | Vis o k =>
      '(h, x, a) ← perform_op (rn_session r) (rn_account r) (clock s) (hub s) (core_state s) o;
      Some (continue s c r h x o a (k a))
  end.
(** The wait of call [c] timed out; a decision made by then is read first. *)
Definition expire (s : Sys) (c : nat) : option Sys :=
  r ← running s !! c;
  match rn_prog r with
  | Vis (Await t) k =>
      match decisions (hub s) !! t with
      | Some _ => None
      | None => Some (continue s c r (hub s) (core_state s) (Await t) None (k None))
      end
  | _ => None
  end.
Definition act (s : Sys) (a : Act) : option Sys :=
  match a with
  | StartCall session t arguments =>
      Some (mkSys (hub s) (core_state s) (clock s) (S (started s))
              (<[started s := mkRunning session (session_accounts (hub s) !! session) (call session t arguments)]>
                 (running s)) (replies s) (trace s ++ [Started (started s) session t arguments]))
  | StepCall c => step_call s c
  | ExpireWait c => expire s c
  | User u => Some (mkSys (user_step u (hub s)) (core_state s) (clock s) (started s) (running s) (replies s)
                      (trace s ++ [UserDid u]))
  | SetClock now => Some (mkSys (hub s) (core_state s) now (started s) (running s) (replies s) (trace s))
  | Elsewhere f => Some (mkSys (hub s) (f (core_state s)) (clock s) (started s) (running s) (replies s) (trace s))
  end.
Fixpoint acts (s : Sys) (l : list Act) : option Sys :=
  match l with [] => Some s | a :: l => s ← act s a; acts s l end.
Definition reachable (h : AgentHub) (x : X) (s : Sys) : Prop := ∃ l, acts (init h x) l = Some s.

(** As many of [n] operations of call [c] as it can perform. *)
Fixpoint run_call (n : nat) (s : Sys) (c : nat) : Sys :=
  match n with O => s | S n => match step_call s c with Some s => run_call n s c | None => s end end.
End system.
