(* ===== verification/FacadeProperties.v ===== *)
(** * FacadeProperties: what the facade does to its accounts

    The facade as the core of agents' calls, and what it keeps. *)

From S2P Require Import Prelude.
From S2P Require Import Domain.
From S2P Require Import Text.
From S2P Require Import MailStore.
From S2P Require Import LocalDb.
From S2P Require Import Compose.
From S2P Require Import Provider.
From S2P Require Import Drain.
From S2P Require Import ComposeProperties.
From S2P Require Import AgentLog.
From S2P Require Import Agents.
From S2P Require Import Facade.
From S2P Require Import AgentHub.

(** ** The core of agents' calls *)

Section facade_core.
Context `{AgentText} `{FacadeText}.

#[export] Instance facade_core : AgentCore Kaluta := facade_perform.
#[export] Instance facade_laws : AgentCoreLaws Kaluta.
Proof.
  intros o scoped now k. destruct o; try exact I; cbn.
  - intros d. unfold get_draft, read_db. destruct (db scoped k) as [[account a]|e]; cbn; [|done].
    intros [= (r & Hr & ->)%fmap_Some]. unfold LocalDb.get, get_row in Hr.
    apply fmap_Some in Hr as (row & [_ <-]%find_by_Some_2 & ->). done.
  - intros d. unfold reply_draft. destruct (refuse_if_archive scoped k); cbn; [|done].
    destruct (own_addresses scoped k) as [me|]; cbn; [|done]. destruct (db scoped k) as [[account acc]|]; cbn; [|done].
    unfold Compose.reply_draft. destruct (Read.get_message _ _) as [parent|]; cbn; [|done].
    destruct (reply_recipients _ _ _ _ _ _ _). destruct (reply_subject _); cbn; [|done]. by intros [= <-].
  - intros d. unfold forward_draft. destruct (refuse_if_archive scoped k); cbn; [|done].
    destruct (db scoped k) as [[account acc]|]; cbn; [|done].
    unfold Compose.forward_draft. destruct (Read.get_message _ _) as [parent|]; cbn; [|done].
    destruct (forward_subject _); cbn; [|done]. by intros [= <-].
Qed.
End facade_core.

(** ** One account at a time *)

(** Nothing but the account [scoped] names is changed, and the window still
    shows the same one. *)
Definition keeps_others (scoped : option string) (k k' : Kaluta) : Prop :=
  current k' = current k ∧
  ∀ a, effective_account_id scoped k ≠ Some a → stores k' !! a = stores k !! a.

#[export] Instance keeps_others_refl scoped : Reflexive (keeps_others scoped).
Proof. by split. Qed.
#[export] Instance keeps_others_trans scoped : Transitive (keeps_others scoped).
Proof.
  intros k1 k2 k3 [H1 H2] [H3 H4]. split; [congruence|]. intros a Ha. rewrite H4; [by apply H2|].
  unfold effective_account_id in *. by rewrite H1.
Qed.

Lemma db_effective scoped k id a : db scoped k = Ok (id, a) → effective_account_id scoped k = Some id.
Proof.
  unfold db. destruct (effective_account_id scoped k) as [i|]; cbn; [|done]. destruct (stores k !! i); cbn; [|done].
  by intros [= -> _].
Qed.
Lemma keeps_set f scoped k id : effective_account_id scoped k = Some id →
  keeps_others scoped k (with_stores (alter f id (stores k)) k).
Proof.
  intros He. split; [done|]. intros a Ha. cbn. rewrite lookup_alter_ne; [done|]. intros ->. by apply Ha.
Qed.
Lemma keeps_write {A} scoped k (f : Db → StoreResult (Db * A)) : keeps_others scoped k (write_db scoped k f).1.
Proof.
  unfold write_db. destruct (db scoped k) as [[id a]|] eqn:E; [|done]. destruct (f (ac_db a)) as [[d x]|]; [|done].
  by apply keeps_set, (db_effective _ _ _ a).
Qed.

Section isolation.
Context `{AgentText} `{FacadeText}.
(** What is done elsewhere is also done on one account; a label is made on
    the server only. *)
Context (elsewhere_scoped : ∀ o scoped now k, keeps_others scoped k (elsewhere o scoped now k).1).
Context (remote_label : ∀ name color k, stores (create_remote name color k).1 = stores k ∧
                                        current (create_remote name color k).1 = current k).

Lemma keeps_remote scoped name color k : keeps_others scoped k (create_remote name color k).1.
Proof. destruct (remote_label name color k) as [H1 H2]. split; [done|]. intros a _. by rewrite H1. Qed.
Lemma keeps_new_label scoped name color now k : keeps_others scoped k (new_label scoped name color now k).1.
Proof.
  unfold new_label. destruct (has_service scoped k); [|by split].
  pose proof (keeps_remote scoped name color k) as H1. destruct (create_remote name color k) as [k1 [l|[]]] eqn:E1; try done.
  destruct color as [c|]; [|done].
  pose proof (keeps_remote scoped name None k1) as H2. destruct (create_remote name None k1) as [k2 r].
  by transitivity k1.
Qed.
Lemma keeps_single scoped name color now k : keeps_others scoped k (create_single_label scoped name color now k).1.
Proof.
  unfold create_single_label. destruct (name_refusal _); [done|]. destruct (read_db _ _ _); [|done].
  destruct (List.find _ _); [done|].
  pose proof (keeps_new_label scoped (trim_slashes (trim name)) ((λ bg, (bg, text_color_for bg)) <$> color) now k) as H1.
  destruct (new_label _ _ _ _ _) as [k1 [label|e]]; [|done].
  pose proof (keeps_write scoped k1 (label_upserted label)) as H2. destruct (write_db _ _ _) as [k2 r].
  by transitivity k1.
Qed.
Lemma keeps_parents scoped parents now k : keeps_others scoped k (create_parents scoped parents now k).1.
Proof.
  revert k. induction parents as [|p ps IH]; intros k; [done|]. cbn.
  pose proof (keeps_single scoped p None now k) as H1. destruct (create_single_label _ _ _ _ _) as [k1 [l|e]]; [|done].
  transitivity k1; [done|apply IH].
Qed.
Lemma keeps_label scoped name color now k : keeps_others scoped k (create_label scoped name color now k).1.
Proof.
  unfold create_label. set (parents := _ <$> seq _ _). pose proof (keeps_parents scoped parents now k) as H1.
  destruct (create_parents _ _ _ _) as [k1 [l|e]]; [|done]. transitivity k1; [done|]. apply keeps_single.
Qed.
Lemma keeps_send scoped draft now k : keeps_others scoped k (send_draft scoped draft now k).1.
Proof.
  unfold send_draft. destruct (refuse_if_archive scoped k); cbn; [|done].
  destruct (db scoped k) as [[account acc]|] eqn:E; cbn; [|done]. destruct (check_send scoped draft k); cbn; [|done].
  destruct (own_address scoped k); cbn; [|done]. destruct (Compose.send_draft _ _ _ _ _ _ _ _ _ _ _ _ _ _ _ _) as [d r].
  cbn. split; [done|]. destruct (keeps_set (λ x, mkAccount d (ac_email x) (ac_agents x)) scoped k account) as [_ Hs];
    [by eapply db_effective|exact Hs].
Qed.

(** Work scoped to an account changes that account only: whatever an
    agent's call asks of the core, every other account's store is as it was,
    and so is the one the window shows. *)
Theorem scoped_to_account (o : CoreOp) (scoped : option string) (now : Millis) (k : Kaluta) (a : string) :
  effective_account_id scoped k ≠ Some a →
  stores (facade_perform o scoped now k).1 !! a = stores k !! a ∧ current (facade_perform o scoped now k).1 = current k.
Proof.
  intros Ha. assert (keeps_others scoped k (facade_perform o scoped now k).1) as [H1 H2]; [|by split; [apply H2|]].
  destruct o; try done; cbn [facade_perform]; try apply elsewhere_scoped.
  - unfold write_action. destruct (db scoped k) as [[id acc]|] eqn:E; [|done]. destruct (AgentLog.record_action _ _ _ _ _ _ _).
    by apply keeps_set, (db_effective _ _ _ acc).
  - unfold update_action_row. destruct (db scoped k) as [[id' acc]|] eqn:E; [|done].
    by apply keeps_set, (db_effective _ _ _ acc).
  - unfold save_draft. destruct (refuse_if_archive scoped k); [apply keeps_write|done].
  - apply keeps_write.
  - apply keeps_send.
  - unfold mutate_unrecorded, apply.
    pose proof (keeps_write scoped k (apply_local_change_recorded lower change (has_service scoped k) None now)) as Hw.
    by destruct (write_db _ _ _).
  - unfold user_label. pose proof (keeps_label scoped name color now k) as Hw. by destruct (create_label _ _ _ _ _).
Qed.
End isolation.

(** ** An account to try *)

(** What is done elsewhere, done by no one. *)
Definition refuse {A} : CoreResult A := Err (core_error Internal "not here").
Definition no_answer (o : CoreOp) (scoped : option string) (now : Millis) (k : Kaluta) : Kaluta * core_answer o :=
  (k, match o return core_answer o with
      | EffectiveAccount | AgentAddress => None
      | OpenDb | RefuseIfArchive | DeleteDraft _ | Mutate _ | RecordDraftGuide _ _ | CompositionReaddressed _
      | GetDraft _ | SaveDraft _ | SendDraft _ | ReplyDraft _ _ | ForwardDraft _ | CreateUserLabel _ _ | ReadMessage _
      | ReadThread _ | ReadSummary _ | ReadBody _ | ReadLabels | ListMailboxes | SearchThreads _ _ _
      | AttachmentMessage _ | FetchAttachment _ | CheckAgainstGuide _ _ | RenderGuide _ | DraftGuideVersion _
      | RecordComposition _ _ | ListFacts | FactCategories => refuse
      | AgentSendsFreely | IsHeadless => false
      | WriteAction _ _ _ _ _ => None
      | UpdateAction _ _ _ | EnsureBodies _ => ()
      | PdfText _ => None
      | ReadFile _ => Err "not here"
      end).
Definition no_label (name : string) (color : option (string * string)) (k : Kaluta) : Kaluta * ProviderResult Label :=
  (k, Err (Provider.Network "offline")).
Definition demo_text : FacadeText := {|
  read_file := no_file; write_mime := demo_mime; text_to_html := id; html_to_quoted_text := id; sanitize_html := id;
  encode64 := id; token_of := λ n, "tok" +:+ pretty (Z.of_nat n); attachment_rows := λ _ _, [];
  create_remote := no_label; elsewhere := no_answer |}.
Definition demo_agents : AgentTables := start_session "a-1" "claude-code" 1 no_agents.
Definition demo_core : Kaluta :=
  mkKaluta {[ "home" := mkAccount desk (Some "me@example.com") demo_agents;
              "work" := mkAccount empty_db None no_agents ]} (Some "work") {[ "home" ]} ∅ ∅ ∅ false 5000 0 0.

Lemma scoped_to_account_witness :
  effective_account_id (Some "home") demo_core ≠ Some "work" ∧
  stores (@facade_perform plain_text demo_text (SendDraft 1) (Some "home") 100 demo_core).1 !! "work" =
    Some (mkAccount empty_db None no_agents).
Proof.
  split; [discriminate|].
  destruct (@scoped_to_account plain_text demo_text (λ o scoped now k, keeps_others_refl scoped k) (λ name color k, conj eq_refl eq_refl)
    (SendDraft 1) (Some "home") 100 demo_core "work") as [H _]; [discriminate|].
  rewrite H. reflexivity.
Defined.
(** The draft was sent from the account named, not from the window's. *)
Example demo_send_ex :
  (@facade_perform plain_text demo_text (SendDraft 1) (Some "home") 100 demo_core).2 = Ok true ∧
  (@facade_perform plain_text demo_text (SendDraft 1) None 100 demo_core).2 = Err (core_error NotFound "not found: draft").
Proof. vm_compute. done. Qed.
