(* ===== verification/AgentRules.v ===== *)
(** * AgentRules: what a tool call may do, from what it did before

    [permitted] is the rule book of the spec for one operation of a call,
    given the call's own history; [safe] says that a program keeps to it
    whatever answers it gets.  Every tool does ([call_safe]). *)

From S2P Require Import Prelude.
From S2P Require Import Domain.
From S2P Require Import Text.
From S2P Require Import Json.
From S2P Require Import Guide.
From S2P Require Import MailStore.
From S2P Require Import Read.
From S2P Require Import Drain.
From S2P Require Import Agents.
From S2P Require Import AgentHub.
From S2P Require Import Permissions.

(** ** Histories *)

Record Entry := mkEntry { e_op : Op; e_answer : answer e_op }.
Abbreviation History := (list Entry) (only parsing).

(** Sends and changes of threads, of which a call makes at most one. *)
Definition final_op (o : Op) : bool :=
  match o with Do (SendDraft _) | Do (Mutate _) => true | _ => false end.
Definition unspent (h : History) : Prop := Forall (λ e, final_op (e_op e) = false) h.

(** Operations that change the mailbox, its drafts or what is kept of them. *)
Definition changes (o : Op) : bool :=
  match o with
  | Do (SaveDraft _ | DeleteDraft _ | SendDraft _ | Mutate _ | CreateUserLabel _ _ | RecordDraftGuide _ _
       | RecordComposition _ _ | CompositionReaddressed _) => true
  | _ => false
  end.

Section rules.
Context (t : Tool) (arguments : Json).

(** The session's hard limits passed the call, and it may change things. *)
Definition passed (h : History) : Prop :=
  ∃ now, mkEntry (CheckGuard (action_of t arguments) now) (Some (Ok ())) ∈ h.
Definition may_change (h : History) : Prop :=
  tool_risk t ≠ ReadOnly ∧ passed h ∧ mkEntry IsReadOnly false ∈ h.

(** The user approved this call's own proposal of [draft]. *)
Definition approved_by_user (draft : option Z) (h : History) : Prop :=
  ∃ k account, mkEntry NewTicket k ∈ h ∧ mkEntry (Park k account draft) () ∈ h ∧ mkEntry (Await k) (Some true) ∈ h.
Definition sends_freely (h : History) : Prop := mkEntry (Do AgentSendsFreely) true ∈ h.

Definition scope_allows (thread : ThreadId) (h : History) : Prop := mkEntry (InScope thread) true ∈ h.
Definition message_allowed (m : MessageId) (h : History) : Prop :=
  ∃ seen, mkEntry (Do (ReadMessage m)) (Ok (Some seen)) ∈ h ∧ scope_allows (g_thread seen.1) h.
(** A message read on its own, or with its thread. *)
Definition body_allowed (m : MessageId) (h : History) : Prop :=
  message_allowed m h ∨
  ∃ id summary ms seen, mkEntry (Do (ReadThread id)) (Ok (Some (summary, ms))) ∈ h ∧ seen ∈ ms ∧
    g_id (seen : Seen).1 = m ∧ scope_allows id h.
Definition saved_by_call (d : Z) (h : History) : Prop := ∃ x, mkEntry (Do (SaveDraft x)) (Ok d) ∈ h.
(** A draft of this session that no one was reviewing when it was looked up. *)
Definition own_unfrozen (d : Z) (h : History) : Prop :=
  (∃ quote, mkEntry (DraftQuote d) (Some quote) ∈ h) ∧ ∃ account, mkEntry (IsFrozen account d) false ∈ h.

Definition change_threads_of (c : LocalChange) : list ThreadId :=
  match c with ChangeLabels ts _ _ | ChangeTrash ts => ts | ChangeExact _ _ | ChangeCleanup _ _ _ => [] end.
Definition user_label (l : Label) (h : History) : Prop :=
  l_kind l = UserLabel ∧ ∃ labels, l ∈ labels ∧ mkEntry (Do ReadLabels) (Ok labels) ∈ h.
(** The change a tool makes: its own, of the threads the limits were checked
    for when the arguments are an object. *)
Definition change_rule (c : LocalChange) (h : History) : Prop :=
  match t with
  | Archive => ∃ ts, c = Drain.archive ts
  | MarkRead => ∃ ts, c = set_read ts true
  | MarkUnread => ∃ ts, c = set_read ts false
  | AddLabel => ∃ ts l, c = ChangeLabels ts [l_id l] [] ∧ user_label l h
  | RemoveLabel => ∃ ts l, c = ChangeLabels ts [] [l_id l] ∧ user_label l h
  | Delete => ∃ ts, c = ChangeTrash ts
  | _ => False
  end ∧
  (is_object arguments = true → change_threads_of c = thread_ids_of t arguments) ∧
  (t = Delete → approved_by_user None h).

(** What an operation needs of the call's history. *)
Definition op_rule (o : CoreOp) (h : History) : Prop :=
  match o with
  | SendDraft d =>
      unspent h ∧ (approved_by_user (Some d) h ∨ sends_freely h) ∧
      ((t = Permissions.Send ∧ as_i64 (json_get "draft_id" arguments) = Some d) ∨ (t = Forward ∧ saved_by_call d h))
  | Mutate c => unspent h ∧ change_rule c h
  | SaveDraft d => di_id d = 0%Z ∨ own_unfrozen (di_id d) h
  | DeleteDraft d => t = Forward ∧ saved_by_call d h
  | CreateUserLabel _ _ => t = CreateLabel
  | ReplyDraft m _ | ForwardDraft m => message_allowed m h
  | ReadThread id | ReadSummary id => scope_allows id h
  | ReadBody m => body_allowed m h
  | FetchAttachment a => ∃ row m, parse_i64 a = Some row ∧
      mkEntry (Do (AttachmentMessage row)) (Ok (Some m)) ∈ h ∧ message_allowed m h
  | _ => True
  end.
Definition permitted (h : History) (o : Op) : Prop :=
  (changes o = true → may_change h) ∧ match o with Do o => op_rule o h | _ => True end.
End rules.

(** ** Programs that keep to rules *)

(** What is assumed of an answer: drafts come back under their id. *)
Definition answer_ok (o : Op) : answer o → Prop :=
  match o with Do o => draft_answer_ok o | _ => λ _, True end.

Section safe.
Context (P : History → Op → Prop).

(** Whatever it is answered, [p] keeps to [P] from history [h] on, and ends
    in [Q]. *)
Fixpoint safe {A} (Q : History → A → Prop) (h : History) (p : Prog A) : Prop :=
  match p with
  | Ret a => Q h a
  | Vis o k => P h o ∧ ∀ x, answer_ok o x → safe Q (h ++ [mkEntry o x]) (k x)
  end.

Lemma safe_mono {A} (Q Q' : History → A → Prop) h p :
  (∀ h' a, Q h' a → Q' h' a) → safe Q h p → safe Q' h p.
Proof.
  intros HQ. revert h. induction p as [a|o k IH]; intros h; cbn; [apply HQ|].
  intros [HP Hk]. split; [done|]. auto.
Qed.
Lemma safe_bind {A B} (Q : History → A → Prop) (R : History → B → Prop) h p f :
  safe Q h p → (∀ h' a, Q h' a → safe R h' (f a)) → safe R h (p ≫= f).
Proof.
  intros Hp Hf. revert h Hp. change (p ≫= f) with (prog_bind f p).
  induction p as [a|o k IH]; intros h; cbn; [apply Hf|]. intros [HP Hk]. split; [done|]. auto.
Qed.

(** The same for a program that may end the call: [Q] when it goes on. *)
Definition safe_try {A} (Q : History → A → Prop) (h : History) (p : Try A) : Prop :=
  safe (λ h' r, match r with Ok a => Q h' a | Err _ => True end) h (run_try p).

Lemma try_mono {A} (Q Q' : History → A → Prop) h p :
  (∀ h' a, Q h' a → Q' h' a) → safe_try Q h p → safe_try Q' h p.
Proof. intros HQ. apply safe_mono. intros h' [a|e]; cbn; auto. Qed.
Lemma try_bind_safe {A B} (Q : History → A → Prop) (R : History → B → Prop) h p f :
  safe_try Q h p → (∀ h' a, Q h' a → safe_try R h' (f a)) → safe_try R h (p ≫= f).
Proof.
  intros Hp Hf. unfold safe_try. cbn. eapply safe_bind; [exact Hp|]. intros h' [a|e]; cbn; [apply Hf|done].
Qed.
(** The same by continuation, for walking down a program. *)
Lemma try_bind_k {A B} (R : History → B → Prop) h (p : Try A) (f : A → Try B) :
  safe_try (λ h' a, safe_try R h' (f a)) h p → safe_try R h (p ≫= f).
Proof. intros Hp. by eapply try_bind_safe. Qed.
Lemma bind_k {A B} (R : History → B → Prop) h (p : Prog A) (f : A → Prog B) :
  safe (λ h' a, safe R h' (f a)) h p → safe R h (p ≫= f).
Proof. intros Hp. by eapply safe_bind. Qed.
Lemma ret_p {A} (a : A) (Q : History → A → Prop) h : Q h a → safe Q h (Ret a).
Proof. done. Qed.
Lemma op_safe (o : Op) (Q : History → answer o → Prop) h :
  P h o → (∀ x, answer_ok o x → Q (h ++ [mkEntry o x]) x) → safe_try Q h (op o).
Proof. intros HP HQ. split; [done|]. cbn. auto. Qed.
Lemma core_safe {A} (o : CoreOp) as_ (Q : History → A → Prop) h :
  P h (Do o) →
  (∀ x a, draft_answer_ok o x → as_ x = Ok a → Q (h ++ [mkEntry (Do o) x]) a) → safe_try Q h (core_as o as_).
Proof. intros HP HQ. split; [done|]. cbn. intros x Hx. destruct (as_ x) eqn:E; cbn; [by apply HQ|done]. Qed.
Lemma check_safe {A} (r : result Outcome A) (Q : History → A → Prop) h :
  (∀ a, r = Ok a → Q h a) → safe_try Q h (check_result r).
Proof. intros HQ. unfold safe_try. cbn. destruct r; cbn; auto. Qed.
Lemma or_fail_safe {A} e (o : option A) (Q : History → A → Prop) h :
  (∀ a, o = Some a → Q h a) → safe_try Q h (or_fail e o).
Proof. intros HQ. apply check_safe. destruct o; cbn; naive_solver. Qed.
Lemma ret_safe {A} (a : A) (Q : History → A → Prop) h : Q h a → safe_try Q h (mret a).
Proof. done. Qed.
Lemma fail_safe {A} (o : Outcome) (Q : History → A → Prop) h : safe_try Q h (fail o).
Proof. done. Qed.
Lemma or_else_safe (p : Try Outcome) h : safe_try (λ _ _, True) h p → safe (λ _ _, True) h (or_else p).
Proof. intros Hp. eapply safe_bind; [exact Hp|]. done. Qed.
End safe.

(** ** Histories that grow *)

Lemma mem_last (e : Entry) h : e ∈ h ++ [e].
Proof. apply elem_of_app. right. by apply list_elem_of_singleton. Qed.
Lemma mem_init (e e' : Entry) h : e ∈ h → e ∈ h ++ [e'].
Proof. intros. apply elem_of_app. by left. Qed.
Lemma unspent_snoc h e : unspent h → final_op (e_op e) = false → unspent (h ++ [e]).
Proof. intros. apply Forall_app. split; [done|]. by constructor. Qed.

Definition extends (h h' : History) : Prop := (∀ e, e ∈ h → e ∈ h') ∧ (unspent h → unspent h').
#[export] Instance extends_preorder : PreOrder extends.
Proof. unfold extends. split; [split; auto|]. intros ??? [] []. split; auto. Qed.
Lemma extends_snoc h h' e : extends h h' → final_op (e_op e) = false → extends h (h' ++ [e]).
Proof. intros [Hi Hu] He. split; [auto using mem_init|]. auto using unspent_snoc. Qed.
Lemma extends_mem h h' e : extends h h' → e ∈ h → e ∈ h'.
Proof. intros [Hi _]. auto. Qed.
Lemma extends_unspent h h' : extends h h' → unspent h → unspent h'.
Proof. by intros [_ Hu]. Qed.
Lemma extends_refl h : extends h h.
Proof. done. Qed.
Create HintDb rules.
#[export] Hint Resolve mem_last mem_init unspent_snoc extends_refl extends_snoc extends_mem extends_unspent : rules.

Section tools.
Context `{AgentText} (t : Tool) (arguments : Json).
#[local] Abbreviation ok := (permitted t arguments).
#[local] Abbreviation safe_t := (safe_try ok).

Lemma may_change_mono h h' : extends h h' → may_change t arguments h → may_change t arguments h'.
Proof.
  intros [Hi _] (Hr & (now & Hp) & Hro). split; [done|]. split; [|by apply Hi]. exists now. by apply Hi.
Qed.
Lemma approved_mono d h h' : extends h h' → approved_by_user d h → approved_by_user d h'.
Proof. intros [Hi _] (k & a & H1 & H2 & H3). exists k, a. auto. Qed.
Lemma allowed_mono m h h' : extends h h' → message_allowed m h → message_allowed m h'.
Proof. intros [Hi _] (s & H1 & H2). exists s. split; [auto|]. apply Hi, H2. Qed.
Lemma saved_mono d h h' : extends h h' → saved_by_call d h → saved_by_call d h'.
Proof. intros [Hi _] (x & Hx). exists x. auto. Qed.

(** Operations that need nothing of the history. *)
Definition free (o : Op) : bool :=
  negb (changes o) &&
  match o with
  | Do (ReplyDraft _ _ | ForwardDraft _ | ReadThread _ | ReadSummary _ | ReadBody _ | FetchAttachment _) => false
  | _ => true
  end.
Lemma free_ok o h : free o = true → ok h o.
Proof. destruct o as [| | | | | | | | | | | | | | | |o]; try done. by destruct o. Qed.

Lemma free_op {o : Op} (Q : History → answer o → Prop) h :
  free o = true → (∀ x, answer_ok o x → Q (h ++ [mkEntry o x]) x) → safe_t Q h (op o).
Proof. intros Ho. apply op_safe, free_ok, Ho. Qed.
Lemma free_core {A} o as_ (Q : History → A → Prop) h :
  free (Do o) = true →
  (∀ x a, draft_answer_ok o x → as_ x = Ok a → Q (h ++ [mkEntry (Do o) x]) a) → safe_t Q h (core_as o as_).
Proof. intros Ho. apply core_safe, free_ok, Ho. Qed.
Lemma free_perform {o : Op} (Q : History → answer o → Prop) h :
  free o = true → (∀ x, answer_ok o x → Q (h ++ [mkEntry o x]) x) → safe ok Q h (perform o).
Proof. intros Ho HQ. split; [by apply free_ok|]. cbn. auto. Qed.
Lemma args_safe {A} fs (read : Fields → option A) (v : Json) (Q : History → A → Prop) h :
  (∀ f a, struct_fields fs (or_empty v) = Some f → read f = Some a → Q h a) → safe_t Q h (args fs read v).
Proof. intros HQ. apply or_fail_safe. intros a (f & Hf & Ha)%bind_Some. eauto. Qed.

End tools.

Definition ANY {A} : History → A → Prop := λ _ _, True.

(** Walk down a tool: operations that need nothing of the history, answers
    read, cases. *)
Ltac walk_step :=
  match goal with
  | |- safe_try _ _ _ (_ ≫= _) => apply try_bind_k
  | |- safe_try _ _ _ (core_as _ _) => apply free_core; [reflexivity|intros ????]
  | |- safe_try _ _ _ (op ?o) => apply (free_op _ _ (o := o)); [reflexivity|intros ??]
  | |- safe_try _ _ _ (in_scope ?x) => apply (free_op _ _ (o := InScope x)); [reflexivity|intros ??]
  | |- safe_try _ _ _ (args _ _ _) => apply args_safe; intros ????
  | |- safe_try _ _ _ (or_fail _ _) => apply or_fail_safe; intros ??
  | |- safe_try _ _ _ (check_result _) => apply check_safe; intros ??
  | |- safe_try _ _ _ (mret _) => apply ret_safe
  | |- safe_try _ _ _ (fail _) => apply fail_safe
  | |- safe_try _ _ _ (error _ _) => apply fail_safe
  | |- safe_try _ _ _ (match ?x with _ => _ end) => destruct x eqn:?
  | |- safe_try _ _ _ (let '(_, _) := ?x in _) => destruct x eqn:?
  | |- safe_try _ _ _ (let x := _ in _) => intros x
  | |- ANY _ _ => exact I
  end.
Ltac walk := repeat (walk_step; cbn beta).

Ltac walk_prog_step :=
  match goal with
  | |- safe _ _ _ (_ ≫= _) => apply bind_k
  | |- safe _ _ _ (perform ?o) => apply (free_perform _ _ (o := o)); [reflexivity|intros ??]
  | |- safe _ _ _ (Ret _) => apply ret_p
  | |- safe _ _ _ (match ?x with _ => _ end) => destruct x eqn:?
  | |- safe _ _ _ (let '(_, _) := ?x in _) => destruct x eqn:?
  | |- ANY _ _ => exact I
  end.
Ltac walk_prog := repeat (walk_prog_step; cbn beta zeta).

(** A read that is in scope. *)
Ltac scoped Hs := apply core_safe; [split; [done|apply Hs; eauto 20 with rules]|intros ????]; walk.

Section reading_and_writing.
Context `{AgentText} (t : Tool) (arguments : Json).
#[local] Abbreviation ok := (permitted t arguments).
#[local] Abbreviation safe_t := (safe_try ok).

Lemma body_allowed_mono m h h' : extends h h' → body_allowed m h → body_allowed m h'.
Proof.
  intros He [Ha|(id & su & ms & se & H1 & H2 & H3 & H4)]; [left; by eapply allowed_mono|right].
  exists id, su, ms, se. split_and!; [by eapply extends_mem|done|done|by eapply extends_mem].
Qed.
Lemma body_text_safe id Q h :
  body_allowed id h → (∀ h' b, extends h h' → Q h' b) → safe_t Q h (body_text id).
Proof.
  intros Hb HQ. unfold body_text. walk.
  apply core_safe; [split; [done|]; eapply body_allowed_mono; [|exact Hb]; eauto 10 with rules|].
  intros. walk. apply HQ. eauto 10 with rules.
Qed.
Lemma label_names_safe Q h : (∀ h' b, extends h h' → Q h' b) → safe_t Q h label_names.
Proof. intros HQ. unfold label_names. walk. apply HQ. eauto 10 with rules. Qed.
Lemma message_safe id Q h :
  (∀ h' m, extends h h' → message_allowed id h' → Q h' m) → safe_t Q h (message_in_scope id).
Proof.
  intros HQ. unfold message_in_scope. walk. apply HQ; [eauto 10 with rules|]. subst.
  eexists. split; [|apply mem_last]. eauto 10 with rules.
Qed.

(** *** Reading *)

Lemma search_rows_safe names ids h : safe_t ANY h (search_rows names ids).
Proof.
  revert h. induction ids as [|id ids IH]; intros h; cbn [search_rows]; walk.
  - subst. apply core_safe; [split; [done|apply mem_last]|intros]. walk.
    eapply try_mono; [|apply IH]. intros. by walk.
  - apply IH.
Qed.
Lemma search_safe h : safe_t ANY h (search arguments).
Proof.
  unfold search. walk. apply label_names_safe. intros h' names _. walk.
  eapply try_mono; [|apply search_rows_safe]. intros. by walk.
Qed.

Lemma try_map_safe {A B} (f : A → Try B) l h :
  (∀ h' a, extends h h' → a ∈ l → safe_t (λ h2 _, extends h h2) h' (f a)) → safe_t ANY h (try_map f l).
Proof.
  intros Hf. assert (extends h h) as He by done. revert He. generalize h at 2 3. intros h0 He.
  revert h0 He. induction l as [|a l IH]; intros h0 He; cbn [try_map]; walk.
  eapply try_mono; [|apply Hf; [done|set_solver]]. intros h2 b He2. cbn beta in He2. walk.
  eapply try_mono; [|apply IH; [|done]]; [intros; by walk|]. intros. apply Hf; [done|set_solver].
Qed.
Lemma bodies_safe (ms : list Seen) h : (∀ m, m ∈ ms → body_allowed (g_id m.1) h) →
  safe_t ANY h (try_map (λ m : Seen, body ← body_text (g_id m.1); mret (message_json m body false)) ms).
Proof.
  intros Hms. apply try_map_safe. intros h' m He Hm. walk. apply body_text_safe.
  - eapply body_allowed_mono; [exact He|auto].
  - intros. walk. by trans h'.
Qed.

Lemma get_thread_safe h : safe_t ANY h (get_thread arguments).
Proof.
  unfold get_thread. walk. apply negb_false_iff in Heqb. subst.
  assert (∀ h', extends (h ++ [mkEntry (InScope a) true]) h' → scope_allows a h') as Hs
    by (intros h' [Hi _]; apply Hi, mem_last).
  assert (∀ h1 h2 su ms, extends (h ++ [mkEntry (InScope a) true]) h1 →
    mkEntry (Do (ReadThread a)) (Ok (Some (su, ms))) ∈ h1 → extends h1 h2 →
    ∀ m, m ∈ ms → body_allowed (g_id (m : Seen).1) h2) as Hb.
  { intros h1 h2 su ms He1 Hr He2 m Hm. right. exists a, su, ms, m.
    split_and!; [by eapply extends_mem|done|done|]. apply Hs. by trans h1. }
  scoped Hs. all: scoped Hs. 2: scoped Hs.
  all: apply label_names_safe; intros h9 ? He9; walk; subst;
    match goal with p : (ThreadSummary * list _)%type |- safe_try _ _ _ (try_map _ ?ms) =>
      match ms with p.2 => destruct p as [su ms'] end end;
    (eapply try_mono; [|apply bodies_safe; eapply Hb; [| |exact He9]]); [intros; by walk| |];
    [eauto 20 with rules|eauto 20 with rules].
Qed.

Lemma get_message_safe h : safe_t ANY h (get_message arguments).
Proof.
  unfold get_message. walk. apply message_safe. intros h' m _ Ha. walk; apply body_text_safe; try (intros; by walk);
    left; (eapply allowed_mono; [|exact Ha]; eauto 10 with rules).
Qed.
Lemma attachment_text_safe h : safe_t ANY h (attachment_text arguments).
Proof.
  unfold attachment_text. walk; subst.
  all: match goal with Hn : negb _ = false |- _ => apply negb_false_iff in Hn end; try done; subst.
  all: match goal with Hs : match ?m with _ => _ end = Some ?s |- _ =>
         assert (m = Some s) as -> by (destruct m; [|done]; destruct (String.eqb _ _); naive_solver) end.
  all: apply core_safe; [split; [done|]|intros; by walk].
  all: eexists _, _; split; [eassumption|]; split; [by eauto 20 with rules|].
  all: eexists; split; [by eauto 20 with rules|apply mem_last].
Qed.

Lemma filter_scope_safe ids h : safe_t ANY h (filter_scope ids).
Proof.
  revert h. induction ids as [|id ids IH]; intros h; cbn [filter_scope]; walk.
  eapply try_mono; [|apply IH]. intros. by walk.
Qed.
Lemma present_safe h : safe_t ANY h (present_threads arguments).
Proof. unfold present_threads. walk. eapply try_mono; [|apply filter_scope_safe]. intros. by walk. Qed.
Lemma facts_safe h : safe_t ANY h (facts_tool arguments).
Proof. unfold facts_tool. by walk. Qed.
Lemma list_labels_safe h : safe_t ANY h list_labels.
Proof. unfold list_labels. by walk. Qed.

(** *** Writing drafts *)

(** An operation that changes something but is bound to nothing more. *)
Lemma change_op {o : CoreOp} (Q : History → core_answer o → Prop) h :
  may_change t arguments h → (∀ h', op_rule t arguments o h') →
  (∀ x, Q (h ++ [mkEntry (Do o) x]) x) → safe_t Q h (op (Do o)).
Proof. intros Hm Ho HQ. apply (op_safe ok (Do o)); [split; auto|auto]. Qed.

Lemma addresses_safe l Q h : (∀ a, Q h a) → safe_t Q h (addresses l).
Proof. intros HQ. unfold addresses. walk; apply HQ. Qed.
Lemma set_addressed_safe to cc subject d Q h :
  (∀ d', di_id d' = di_id d → Q h d') → safe_t Q h (set_addressed to cc subject d).
Proof.
  intros HQ. unfold set_addressed. walk. apply addresses_safe. intros a. walk. apply addresses_safe. intros b.
  walk. apply HQ. by destruct a, b, subject.
Qed.
Lemma guide_warning_safe d Q h : (∀ h' w, extends h h' → Q h' w) → safe_t Q h (guide_warning d).
Proof. intros HQ. unfold guide_warning. walk. apply HQ. eauto 10 with rules. Qed.
Lemma draft_with_guide_safe d Q h :
  may_change t arguments h → (∀ h' v, extends h h' → Q h' v) → safe_t Q h (draft_with_guide d).
Proof.
  intros Hm HQ. unfold draft_with_guide. walk.
  1, 3: apply HQ; eauto 10 with rules.
  apply (change_op (o := RecordDraftGuide _ _)).
  - eapply may_change_mono; [|exact Hm]. eauto 10 with rules.
  - exact (λ _, I).
  - intros. walk. apply HQ. eauto 10 with rules.
Qed.
Lemma record_body_safe id html h : may_change t arguments h → safe_t ANY h (record_body id html).
Proof.
  intros Hm. unfold record_body. walk. apply (change_op (o := RecordComposition _ _)); [|exact (λ _, I)|intros; by walk].
  eapply may_change_mono; [|exact Hm]. eauto 10 with rules.
Qed.

Lemma save_safe d Q h :
  may_change t arguments h → op_rule t arguments (SaveDraft d) h →
  (∀ id, Q (h ++ [mkEntry (Do (SaveDraft d)) (Ok id)]) id) →
  safe_t Q h (core (SaveDraft d)).
Proof. intros Hm Ho HQ. apply core_safe; [by split|]. intros ?? _ ->. apply HQ. Qed.
Lemma start_draft_safe id all h (Q : History → DraftInfo → Prop) :
  (∀ h' d, extends h h' → di_id d = 0%Z → Q h' d) →
  safe_t Q h (start_draft id all).
Proof.
  intros HQ. unfold start_draft. walk; [|by apply HQ]. apply message_safe. intros h' m He Ha.
  apply core_safe; [by split|]. intros x d Hd Hx. apply HQ; [eauto 10 with rules|by apply (Hd d)].
Qed.

Lemma create_draft_safe h : may_change t arguments h → safe_t ANY h (create_draft arguments).
Proof.
  intros Hm. unfold create_draft. walk. apply start_draft_safe. intros h' d He Hd. walk.
  apply set_addressed_safe. intros d' Hd'. walk.
  assert (∀ h2, extends h' h2 → may_change t arguments h2) as Hmay
    by (intros h2 He2; eapply may_change_mono; [|exact Hm]; by trans h').
  apply save_safe; [by apply Hmay|left; cbn; congruence|]. intros id. walk.
  apply draft_with_guide_safe; [apply Hmay; eauto 10 with rules|]. intros h2 v He2. walk.
  eapply try_mono; [|apply record_body_safe, Hmay]; [intros; by walk|].
  etrans; [|exact He2]. eauto 10 with rules.
Qed.

Lemma update_draft_safe h : may_change t arguments h → safe_t ANY h (update_draft arguments).
Proof.
  intros Hm. unfold update_draft. walk. subst.
  match goal with |- safe_try _ _ ?h0 _ => set (h1 := h0) end.
  assert (∀ h2, extends h1 h2 → may_change t arguments h2) as Hmay.
  { intros h2 He2. eapply may_change_mono; [|exact Hm]. etrans; [|exact He2]. unfold h1. eauto 20 with rules. }
  assert (own_unfrozen z h1) as Hown by (unfold h1; split; eexists; try eexists; eauto 20 with rules).
  match goal with Hd : draft_answer_ok (GetDraft z) _ |- _ => cbn in Hd; specialize (Hd _ eq_refl) end.
  apply set_addressed_safe. intros d' Hd'. cbn beta zeta.
  assert (∀ d2, di_id d2 = z → safe_t ANY h1
    (_ ← core (SaveDraft d2); value ← draft_with_guide d2;
     _ ← (match o with
          | Some _ => record_body z (di_body_html d2)
          | None => _ ← op (Do (CompositionReaddressed z)); mret ()
          end);
     mret (outcome_json value))) as Hsave.
  { intros d2 Hd2. walk. apply save_safe; [by apply Hmay|right; by rewrite Hd2|]. intros id. walk.
    apply draft_with_guide_safe; [apply Hmay; eauto 10 with rules|]. intros h2 v He2.
    assert (may_change t arguments h2) as Hm2 by (apply Hmay; etrans; [|exact He2]; eauto 10 with rules). walk.
    - eapply try_mono; [|by apply record_body_safe]. intros; by walk.
    - apply (change_op (o := CompositionReaddressed _)); [done|exact (λ _, I)|]. intros. by walk. }
  destruct o; apply Hsave; cbn; congruence.
Qed.

(** *** Changing threads and labels *)

Lemma threads_checked fs f ids :
  tool_risk t ≠ ReadOnly → struct_fields fs (or_empty arguments) = Some f →
  required strings f "thread_ids" = Some ids → is_object arguments = true → ids = thread_ids_of t arguments.
Proof.
  intros Hr Hf Hids Hobj. destruct arguments as [| | | | |fields]; try done.
  unfold thread_ids_of. rewrite bool_decide_false by done. symmetry. by eapply required_strings_get.
Qed.

Lemma mutate_safe c h (Q : History → () → Prop) :
  may_change t arguments h → unspent h → change_rule t arguments c h →
  (∀ x, Q (h ++ [mkEntry (Do (Mutate c)) x]) ()) → safe_t Q h (core (Mutate c)).
Proof. intros Hm Hu Hc HQ. apply core_safe; [by split|]. intros ? [] ??. apply HQ. Qed.

Lemma change_threads_safe change h :
  match t, change with
  | Archive, ArchiveThreads | MarkRead, MarkThreads true | MarkUnread, MarkThreads false => True
  | _, _ => False
  end → may_change t arguments h → unspent h → safe_t ANY h (change_threads arguments change).
Proof.
  intros Ht Hm Hu. unfold change_threads, threads_arg. walk. apply mutate_safe; [done..| |intros; by walk].
  assert (is_object arguments = true → a = thread_ids_of t arguments) as Ha
    by (eapply threads_checked; [apply Hm|done..]).
  destruct t, change as [|[]]; try done; cbn [change_of] in *; simplify_eq; (split; [by eexists|split; [exact Ha|done]]).
Qed.

Lemma label_threads_safe add h :
  match t, add with AddLabel, true | RemoveLabel, false => True | _, _ => False end → may_change t arguments h → unspent h →
  safe_t ANY h (label_threads arguments add).
Proof.
  intros Ht Hm Hu. unfold label_threads. walk. subst. apply mutate_safe.
  - eapply may_change_mono; [|exact Hm]. eauto 10 with rules.
  - eauto 10 with rules.
  - assert (is_object arguments = true → l = thread_ids_of t arguments) as Ha.
    { apply bind_Some in H1 as (ts & Hts & (lb & _ & [= <- <-])%bind_Some).
      eapply threads_checked; [apply Hm|done..]. }
    assert (user_label a2 ((h ++ [mkEntry (Do OpenDb) (Ok a0)]) ++ [mkEntry (Do ReadLabels) (Ok a1)])) as Hl.
    { apply negb_false_iff, bool_decide_eq_true in Heqb0. split; [done|]. exists a1. split; [|apply mem_last].
      apply list_elem_of_In. destruct (List.find _ a1) eqn:E in H6;
        [simplify_eq; by apply find_some in E as [? _]|by apply find_some in H6 as [? _]]. }
    destruct t, add; try done; (split; [by eexists _, _|split; [exact Ha|done]]).
  - intros. by walk.
Qed.

Lemma create_label_safe h : t = CreateLabel → may_change t arguments h → safe_t ANY h (create_label arguments).
Proof.
  intros Ht Hm. unfold create_label. walk. apply core_safe; [by split|]. intros. by walk.
Qed.

(** *** Any tool *)

(** What a call has when it runs a tool. *)
Definition ready (h : History) : Prop :=
  (tool_risk t ≠ ReadOnly → passed t arguments h ∧ mkEntry IsReadOnly false ∈ h) ∧ unspent h.
Lemma ready_change h : ready h → tool_risk t ≠ ReadOnly → may_change t arguments h.
Proof. intros [Hr _] Ht. split; [done|]. by apply Hr. Qed.
Lemma ready_mono h h' : extends h h' → ready h → ready h'.
Proof.
  intros He [Hr Hu]. split; [|by eapply extends_unspent]. intros Ht. destruct (Hr Ht) as [(now & Hp) Hi].
  split; [exists now|]; by eapply extends_mem.
Qed.

End reading_and_writing.

Section calls.
Context `{AgentText} (session : string).

Lemma run_safe t arguments h : ready t arguments h → safe (permitted t arguments) ANY h (run t arguments).
Proof.
  intros Hr. pose proof (ready_change t arguments h Hr) as Hm. pose proof (proj2 Hr) as Hu. unfold run. apply or_else_safe.
  destruct t; try (specialize (Hm ltac:(done))).
  - apply search_safe.
  - apply get_thread_safe.
  - apply get_message_safe.
  - apply list_labels_safe.
  - apply facts_safe.
  - apply attachment_text_safe.
  - apply present_safe.
  - by apply create_draft_safe.
  - by apply update_draft_safe.
  - by apply change_threads_safe.
  - by apply change_threads_safe.
  - by apply change_threads_safe.
  - by apply (label_threads_safe AddLabel arguments true).
  - by apply (label_threads_safe RemoveLabel arguments false).
  - by apply create_label_safe.
  - apply fail_safe.
  - apply fail_safe.
  - apply fail_safe.
Qed.

(** *** Asking the user *)

(** The draft a proposal is about: the one named, the one just made, none. *)
Definition proposal_rule (t : Tool) (arguments : Json) (p : Proposal) (h : History) : Prop :=
  match t with
  | Permissions.Send => ∃ d, pr_draft_id p = Some d ∧ as_i64 (json_get "draft_id" arguments) = Some d
  | Forward => ∃ d, pr_draft_id p = Some d ∧ saved_by_call d h
  | _ => pr_draft_id p = None
  end.

Lemma proposal_sub t arguments p h h' :
  (∀ e, e ∈ h → e ∈ h') → proposal_rule t arguments p h → proposal_rule t arguments p h'.
Proof.
  intros Hi. unfold proposal_rule. destruct t; try done. intros (d & Hd & x & Hx). exists d. split; [done|].
  exists x. auto.
Qed.
Lemma proposal_mono t arguments p h h' :
  extends h h' → proposal_rule t arguments p h → proposal_rule t arguments p h'.
Proof. intros [Hi _]. by apply proposal_sub. Qed.

Section asking.
Context (arguments : Json).

Lemma prepare_send_safe t h : t = Permissions.Send →
  safe_try (permitted t arguments) (λ h' p, extends h h' ∧ proposal_rule t arguments p h') h (prepare_send arguments).
Proof.
  intros Ht. unfold prepare_send. walk. apply guide_warning_safe. intros h' w He. walk. split.
  - etrans; [|exact He]. eauto 10 with rules.
  - unfold proposal_rule. rewrite Ht. by eexists.
Qed.
Lemma prepare_forward_safe t h : t = Forward → may_change t arguments h →
  safe_try (permitted t arguments) (λ h' p, extends h h' ∧ proposal_rule t arguments p h') h (prepare_forward arguments).
Proof.
  intros Ht Hm. unfold prepare_forward. walk. apply message_safe. intros h1 m He1 Ha. walk.
  apply addresses_safe. intros to. walk.
  apply core_safe; [by split|]. intros x d Hd Hx. walk.
  assert (extends h1 (h1 ++ [mkEntry (Do (ForwardDraft s)) x])) as He2 by eauto 10 with rules.
  apply save_safe; [eapply may_change_mono; [|exact Hm]; by trans h1|left; cbn; by apply (Hd d)|]. intros id. walk.
  apply guide_warning_safe. intros h3 w He3. walk.
  match type of He3 with extends ((?h2 ++ [?e]) ++ _) _ =>
    assert (saved_by_call id h3) as Hs by (eexists; eapply extends_mem; [exact He3|]; eauto with rules) end.
  split; [|unfold proposal_rule; rewrite Ht; by exists id].
  trans h1; [done|]. etrans; [|exact He3]. eauto 10 with rules.
Qed.
Lemma prepare_safe t h : ready t arguments h →
  safe_try (permitted t arguments) (λ h' p, extends h h' ∧ proposal_rule t arguments p h') h (prepare t arguments).
Proof.
  intros Hr. pose proof (ready_change _ _ _ Hr) as Hm. unfold prepare. destruct t.
  16: by apply prepare_send_safe.
  16: by apply prepare_forward_safe, Hm.
  all: by apply ret_safe.
Qed.

Lemma record_action_safe t name state h (Q : History → option Z → Prop) :
  (∀ h' id, extends h h' → Q h' id) → safe (permitted t arguments) Q h (record_action session name arguments state).
Proof. intros HQ. unfold record_action. walk_prog; apply HQ; eauto 10 with rules. Qed.
Lemma finish_action_safe t id state summary h (Q : History → () → Prop) :
  (∀ h', extends h h' → Q h' ()) → safe (permitted t arguments) Q h (finish_action id state summary).
Proof. intros HQ. unfold finish_action. walk_prog; [destruct x|]; apply HQ; eauto 10 with rules. Qed.
Lemma outside_label_safe t h (Q : History → option string → Prop) :
  (∀ h' l, extends h h' → Q h' l) → safe (permitted t arguments) Q h (outside_label session).
Proof. intros HQ. unfold outside_label. walk_prog; apply HQ; eauto 10 with rules. Qed.
Lemma card_text_safe t d h (Q : History → string → Prop) :
  (∀ h' s, extends h h' → Q h' s) → safe (permitted t arguments) Q h (card_text d).
Proof. intros HQ. unfold card_text. walk_prog; apply HQ; eauto 10 with rules. Qed.

Lemma await_approval_safe t action_id summary d h :
  safe (permitted t arguments) (λ h' r, extends h h' ∧ (r = Ok () → approved_by_user d h')) h
    (await_approval session action_id t summary d).
Proof.
  unfold await_approval. walk_prog; [|by split].
  apply outside_label_safe. intros h1 who He1. cbn beta.
  assert (∀ h2 s, extends h h2 → safe (permitted t arguments) (λ h' r, extends h h' ∧ (r = Ok () → approved_by_user d h')) h2
    (ticket ← perform NewTicket;
     account ← perform (Do EffectiveAccount);
     _ ← perform (Park ticket account d);
     _ ← perform (Emit (ActionProposed ticket (tool_name t) s d));
     decision ← perform (Await ticket);
     _ ← perform (Unpark ticket);
     let '(approved, state, outcome) :=
       match decision with
       | Some true => (true, "approved", Ok ())
       | Some false => (false, "rejected", Err DECLINED)
       | None => (false, "expired", Err TIMED_OUT)
       end in
     _ ← perform (Emit (ActionResolved ticket approved));
     _ ← finish_action (Some z) state None;
     Ret outcome)) as Hrest.
  { intros h2 s He2. walk_prog. apply finish_action_safe. intros h3 He3. walk_prog.
    split; [etrans; [|exact He3]; eauto 20 with rules|]. intros ->.
    destruct x3 as [[]|]; simplify_eq. exists x, x0. destruct x1.
    split_and!; (eapply extends_mem; [exact He3|]; eauto 20 with rules). }
  apply bind_k. destruct who.
  - apply bind_k, card_text_safe. intros h2 su He2. apply ret_p, Hrest. by trans h1.
  - by apply ret_p, Hrest.
Qed.

Lemma record_failed_safe t o h : safe (permitted t arguments) ANY h (record_failed session t arguments o).
Proof.
  unfold record_failed. walk_prog. apply record_action_safe. intros h1 id _. walk_prog.
  apply finish_action_safe. intros. by walk_prog.
Qed.

(** Whoever may send: with the user's approval of the draft, or freely. *)
Lemma send_safe t d h (Q : History → CoreResult bool → Prop) :
  sends_mail t = true → ready t arguments h → (approved_by_user (Some d) h ∨ sends_freely h) →
  proposal_rule t arguments (mkProposal "" (Some d)) h →
  (∀ x, Q (h ++ [mkEntry (Do (SendDraft d)) x]) x) → safe (permitted t arguments) Q h (perform (Do (SendDraft d))).
Proof.
  intros Ht Hr Ha Hp HQ. unfold sends_mail in Ht. apply bool_decide_eq_true in Ht.
  assert (t = Permissions.Send ∨ t = Forward) as Ht' by set_solver.
  split; [|cbn; auto]. split; [intros _; apply ready_change; [done|by destruct Ht' as [-> | ->]]|].
  split; [apply Hr|]. split; [done|]. unfold proposal_rule in Hp.
  destruct Ht' as [Ht'|Ht']; rewrite Ht' in Hp |- *; destruct Hp as (d' & [= <-] & Hp); auto.
Qed.
Lemma drop_forward_safe t p h (Q : History → () → Prop) :
  (t = Forward → may_change t arguments h) → proposal_rule t arguments p h → (∀ h', Q h' ()) →
  safe (permitted t arguments) Q h (drop_forward t (pr_draft_id p)).
Proof.
  intros Hm Hp HQ. unfold drop_forward.
  destruct t; try (apply ret_p, HQ). destruct Hp as (d & -> & Hs). split; [|cbn; auto].
  split; [intros _; by apply Hm|by split].
Qed.

Lemma approved_send_safe t p h :
  sends_mail t = true → ready t arguments h → approved_by_user (pr_draft_id p) h → proposal_rule t arguments p h →
  safe (permitted t arguments) ANY h (approved_send (pr_draft_id p)).
Proof.
  intros Ht Hr Ha Hp. unfold approved_send. destruct (pr_draft_id p) as [d|] eqn:Hd; [|by apply ret_p].
  apply bind_k, send_safe; [done|done|by left| |by intros; apply ret_p].
  unfold proposal_rule in *. destruct t; naive_solver.
Qed.
Lemma trash_safe h : ready Delete arguments h → approved_by_user None h →
  safe_try (permitted Delete arguments) ANY h (trash_threads arguments).
Proof.
  intros Hr Ha. unfold trash_threads, threads_arg. walk. apply mutate_safe; [by apply ready_change|apply Hr| |intros; by walk].
  split; [by eexists|]. split; [|done]. by eapply threads_checked.
Qed.
Lemma approved_safe t p h :
  ready t arguments h → approved_by_user (pr_draft_id p) h → proposal_rule t arguments p h →
  safe (permitted t arguments) ANY h (approved t arguments (pr_draft_id p)).
Proof.
  intros Hr Ha Hp. unfold approved. destruct t; try by apply run_safe.
  - by apply approved_send_safe.
  - by apply approved_send_safe.
  - cbn in Hp. rewrite Hp in Ha. by apply or_else_safe, trash_safe.
Qed.

Lemma approve_then_run_safe t h : ready t arguments h →
  safe (permitted t arguments) ANY h (approve_then_run session t arguments).
Proof.
  intros Hr. unfold approve_then_run. apply bind_k. eapply safe_mono; [|by apply prepare_safe].
  intros h1 [p|o]; [|intros _; apply record_failed_safe]. intros [He1 Hp].
  apply bind_k, record_action_safe. intros h2 id He2. apply bind_k. eapply safe_mono; [|apply await_approval_safe].
  intros h3 r [He3 Ha]. assert (extends h1 h3) as He by (by trans h2).
  assert (ready t arguments h3) as Hr3 by (eapply ready_mono; [|done]; by trans h1).
  assert (proposal_rule t arguments p h3) as Hp3 by by eapply proposal_mono.
  destruct r as [[]|o].
  - apply bind_k. eapply safe_mono; [|apply approved_safe; [done|by apply Ha|done]]. intros h4 o _.
    apply bind_k, finish_action_safe. intros. by apply ret_p.
  - apply bind_k, drop_forward_safe; [intros ->; by apply ready_change|done|]. intros. by apply ret_p.
Qed.

Lemma send_freely_safe t h : sends_mail t = true → ready t arguments h → sends_freely h →
  safe (permitted t arguments) ANY h (send_freely session t arguments).
Proof.
  intros Ht Hr Hf. unfold send_freely. apply bind_k. eapply safe_mono; [|by apply prepare_safe].
  intros h1 [p|o]; [|intros _; apply record_failed_safe]. intros [He1 Hp].
  apply bind_k, record_action_safe. intros h2 id He2. cbn zeta.
  assert (extends h h2) as He by (by trans h1).
  assert (ready t arguments h2) as Hr2 by by eapply ready_mono.
  assert (proposal_rule t arguments p h2) as Hp2 by exact (proposal_mono _ _ _ _ _ He2 Hp).
  assert (∀ h3 o, (∀ e, e ∈ h2 → e ∈ h3) → safe (permitted t arguments) ANY h3
    (_ ← (if outcome_ok o then Ret () else drop_forward t (pr_draft_id p));
     _ ← finish_action id (end_state o) (Some (if outcome_ok o then pr_summary p else outcome_summary o));
     Ret o)) as Hend.
  { intros h3 o Hi. apply bind_k.
    assert (∀ h4, safe (permitted t arguments) ANY h4
      (_ ← finish_action id (end_state o) (Some (if outcome_ok o then pr_summary p else outcome_summary o)); Ret o))
      as Hfin by (intros h4; apply bind_k, finish_action_safe; intros; by apply ret_p).
    destruct (outcome_ok o); [apply ret_p, Hfin|]. apply drop_forward_safe; [|exact (proposal_sub _ _ _ _ _ Hi Hp2)|intros; apply Hfin].
    intros ->. destruct (ready_change _ _ _ Hr2 ltac:(done)) as (Hrisk & (now & Hpass) & Hro).
    split; [done|]. split; [exists now|]; auto. }
  apply bind_k. destruct (pr_draft_id p) as [d|] eqn:Hd; [|by apply ret_p, Hend].
  apply bind_k, send_safe; [done|done|right; by eapply extends_mem| |].
  - unfold proposal_rule in *. destruct t; naive_solver.
  - intros x. apply ret_p, Hend. auto using mem_init.
Qed.

Lemma recorded_run_safe t refusal h : (refusal = None → ready t arguments h) →
  safe (permitted t arguments) ANY h (recorded_run session t arguments refusal).
Proof.
  intros Hr. unfold recorded_run. apply bind_k, record_action_safe. intros h1 id He.
  assert (∀ h2 o, safe (permitted t arguments) ANY h2
    (_ ← finish_action id (if refusal_state o then "denied" else end_state o) (Some (outcome_summary o)); Ret o))
    as Hend by (intros h2 o; apply bind_k, finish_action_safe; intros; by apply ret_p).
  apply bind_k. destruct refusal; [by apply ret_p, Hend|].
  eapply safe_mono; [|apply run_safe; by eapply ready_mono; [|apply Hr]]. intros h2 o _. apply Hend.
Qed.

(** Every operation of a call is one the rules permit. *)
Lemma call_safe t : safe (permitted t arguments) ANY [] (call session t arguments).
Proof.
  unfold call. do 3 (apply bind_k, free_perform; [reflexivity|intros ? _; cbn beta]).
  match goal with |- safe _ _ ?h _ => set (h0 := h) end.
  destruct (_ && _) eqn:Hro; [by apply ret_p|].
  assert (x0 = Some (Ok ()) → ∀ h, extends h0 h → ready t arguments h) as Hready.
  { intros -> h He. eapply ready_mono; [exact He|]. split; [|by repeat constructor]. intros Hr.
    split; [exists x; unfold h0; eauto 10 with rules|]. rewrite bool_decide_false, andb_true_r in Hro by done.
    rewrite <- Hro. apply mem_last. }
  eapply (safe_bind _ (λ h _, extends h0 h)); [walk_prog; unfold h0; eauto 10 with rules|].
  intros h [] He; [by apply ret_p|]. destruct x0 as [[[]|r]|]; [|by apply recorded_run_safe|by apply ret_p].
  apply bind_k, free_perform; [reflexivity|]. intros policy _. cbn beta.
  assert (extends h0 (h ++ [mkEntry ReadPolicy policy])) as He1 by eauto with rules.
  destruct (decide_action policy (action_of t arguments)); [|clear Hro|by apply recorded_run_safe].
  - apply recorded_run_safe. intros _. by apply Hready.
  - eapply (safe_bind _ (λ h f, extends h0 h ∧ (f = true → sends_mail t = true ∧ sends_freely h))).
    + destruct (sends_mail t) eqn:Hs; [|by apply ret_p]. apply free_perform; [reflexivity|]. intros f _.
      split; [eauto with rules|]. intros ->. split; [done|]. apply mem_last.
    + intros h1 [] [He2 Hf]; [destruct Hf as [Hs Hf]; [done|]; apply send_freely_safe; auto|].
      apply bind_k, free_perform; [reflexivity|]. intros [] _; [by apply ret_p|].
      apply approve_then_run_safe, Hready; [done|]. eauto with rules.
Qed.
End asking.
End calls.
