(* ===== verification/AgentProperties.v ===== *)
(** * AgentProperties: what agents can do to a mailbox

    Invariants of the system of [AgentHub]: every operation of a call is one
    the rules of [AgentRules] permit, and what those rules refer to, the
    session's limits, its drafts, the user's approvals, is traced back to
    what the user and the session did before. *)

From S2P Require Import Prelude.
From S2P Require Import Domain.
From S2P Require Import Json.
From S2P Require Import LocalDb.
From S2P Require Import Read.
From S2P Require Import Text.
From S2P Require Import Drain.
From S2P Require Import Agents.
From S2P Require Import AgentHub.
From S2P Require Import AgentRules.
From S2P Require Import Permissions.
From S2P Require Import Facade.
From S2P Require Import FacadeProperties.

(** ** Traces *)

Definition entry_of (c : nat) (e : Event) : option Entry :=
  match e with Performed c' o a => if decide (c' = c) then Some (mkEntry o a) else None | _ => None end.
Definition history (c : nat) (tr : list Event) : list Entry := omap (entry_of c) tr.

Lemma history_app c tr tr' : history c (tr ++ tr') = history c tr ++ history c tr'.
Proof. apply omap_app. Qed.
Lemma history_in c tr o a : mkEntry o a ∈ history c tr ↔ Performed c o a ∈ tr.
Proof.
  unfold history. rewrite list_elem_of_omap. split.
  - intros ([| c' o' a'|] & Hin & He); try done. cbn in He. case_decide; [|done]. subst.
    apply (inj Some) in He. change (Performed c (e_op (mkEntry o' a')) (e_answer (mkEntry o' a')) ∈ tr) in Hin.
    by rewrite He in Hin.
  - intros Hin. exists (Performed c o a). split; [done|]. cbn. by rewrite decide_True.
Qed.

(** Whether a session is open, and then whether it may only read. *)
Definition status_step (session : string) (st : option bool) (e : Event) : option bool :=
  match e with
  | UserDid (Register s _ _ _) => if String.eqb s session then Some false else st
  | UserDid (SetReadOnly s) => if String.eqb s session then (λ _, true) <$> st else st
  | UserDid (CloseSession s) => if String.eqb s session then None else st
  | _ => st
  end.
Definition status (session : string) (tr : list Event) : option bool := foldl (status_step session) None tr.

(** [session] made draft [d], or was given it. *)
Definition gave (session : string) (d : Z) (tr : list Event) : Prop :=
  ∃ c t arguments, Started c session t arguments ∈ tr ∧
    ((∃ quote, Performed c (KeepDraft d quote) () ∈ tr) ∨ Performed c (AllowDraft d) () ∈ tr).

(** What holds of each event from the events before it. *)
Definition limits_hold (session : string) (a : ProposedAction) (tr : list Event) : Prop :=
  (∃ sc account provider, UserDid (Register session sc account provider) ∈ tr ∧
     (tool_risk (tool a) ≠ ReadOnly →
      (∀ thread, thread ∈ thread_ids a → allows sc thread = true) ∧ length (thread_ids a) ≤ MAX_THREADS_PER_CALL)) ∧
  (tool a = Permissions.Send → ∃ d, draft_id a = Some d ∧ gave session d tr).
(** The user opened [session] with a scope [thread] is in. *)
Definition in_scope_of (session : string) (thread : ThreadId) (tr : list Event) : Prop :=
  ∃ sc account provider, UserDid (Register session sc account provider) ∈ tr ∧ allows sc thread = true.
Definition answer_rule (c : nat) (session : string) (o : Op) : answer o → list Event → Prop :=
  match o with
  | Await k => λ a tr, a = Some true → UserDid (Resolve k true) ∈ tr
  | NewTicket => λ k tr, ∀ c', Performed c' NewTicket k ∉ tr
  | CheckGuard act _ => λ a tr, a = Some (Ok ()) → limits_hold session act tr
  | IsReadOnly => λ a tr, a = default false (status session tr)
  | InScope thread => λ a tr, a = true → in_scope_of session thread tr
  | DraftQuote d => λ a tr, is_Some a → gave session d tr
  | _ => λ _ _, True
  end.
Definition event_rule (tr : list Event) (e : Event) : Prop :=
  match e with
  | Started c _ _ _ => ∀ session t arguments, Started c session t arguments ∉ tr
  | Performed c o a => ∃ session t arguments, Started c session t arguments ∈ tr ∧
      permitted t arguments (history c tr) o ∧ answer_ok o a ∧ answer_rule c session o a tr
  | UserDid _ => True
  end.
Definition valid (tr : list Event) : Prop := ∀ l1 e l2, tr = l1 ++ e :: l2 → event_rule l1 e.

Lemma valid_snoc tr e : valid tr → event_rule tr e → valid (tr ++ [e]).
Proof.
  intros Hv He l1 e' l2 Heq. destruct l2 as [|e2 l2] using rev_ind.
  - by apply app_inj_tail in Heq as [-> ->].
  - assert (tr ++ [e] = (l1 ++ e' :: l2) ++ [e2]) as Heq' by (rewrite Heq; by rewrite <- app_assoc).
    apply app_inj_tail in Heq' as [-> _]. by eapply Hv.
Qed.
Lemma valid_in tr e : valid tr → e ∈ tr → ∃ l1, (∀ e', e' ∈ l1 → e' ∈ tr) ∧ event_rule l1 e.
Proof.
  intros Hv (l1 & l2 & ->)%list_elem_of_split. exists l1. split; [set_solver|]. by eapply Hv.
Qed.

Lemma gave_mono session d tr tr' : (∀ e, e ∈ tr → e ∈ tr') → gave session d tr → gave session d tr'.
Proof. intros Hi (c & t & a & Hs & [(q & Hq)|Ha]); exists c, t, a; split; eauto. Qed.

(** ** The invariant of the hub *)

Record session_ok (session : string) (s : ToolSession) (tr : list Event) : Prop := {
  so_scope : ∃ account provider, UserDid (Register session (scope (guard s)) account provider) ∈ tr;
  so_drafts : ∀ d, d ∈ sendable_drafts (guard s) → gave session d tr;
  so_status : status session tr = Some (read_only s) }.
Record hub_ok (h : AgentHub) (tr : list Event) : Prop := {
  ho_decisions : ∀ k, decisions h !! k = Some true → UserDid (Resolve k true) ∈ tr;
  ho_tickets : ∀ c k, Performed c NewTicket k ∈ tr → (k ≤ next_ticket h)%Z;
  ho_sessions : ∀ session s, sessions h !! session = Some s → session_ok session s tr;
  ho_closed : ∀ session, sessions h !! session = None → status session tr = None }.

Lemma status_snoc session tr e : status session (tr ++ [e]) = status_step session (status session tr) e.
Proof. unfold status. by rewrite foldl_app. Qed.
Lemma in_snoc {A} (x : A) l y : x ∈ l → x ∈ l ++ [y].
Proof. set_solver. Qed.

Lemma in_last {A} (x : A) l : x ∈ l ++ [x].
Proof. set_solver. Qed.

Lemma session_ok_keep session s s' tr e :
  session_ok session s tr → scope (guard s') = scope (guard s) → read_only s' = read_only s →
  (∀ d, d ∈ sendable_drafts (guard s') → d ∈ sendable_drafts (guard s) ∨ gave session d (tr ++ [e])) →
  (∀ st, status_step session st e = st) → session_ok session s' (tr ++ [e]).
Proof.
  intros [(ac & pv & Hs) Hd Hst] Hsc Hr Hdr He. split.
  - exists ac, pv. rewrite Hsc. by apply in_snoc.
  - intros d [Hin|Hg]%Hdr; [|done]. eapply gave_mono; [|by apply Hd]. intros. by apply in_snoc.
  - rewrite status_snoc, He, Hr. done.
Qed.

(** A guard's check keeps the scope and the drafts. *)
Lemma guard_check_keeps g a now : let g' := (guard_check g a now).1 in
  scope g' = scope g ∧ sendable_drafts g' = sendable_drafts g.
Proof. unfold guard_check. destruct (check_limits _ a); done. Qed.

Lemma guard_check_passed g a now g' : guard_check g a now = (g', Ok ()) →
  (tool_risk (tool a) ≠ ReadOnly →
   (∀ thread, thread ∈ thread_ids a → allows (scope g) thread = true) ∧ length (thread_ids a) ≤ MAX_THREADS_PER_CALL) ∧
  (tool a = Permissions.Send → ∃ d, draft_id a = Some d ∧ d ∈ sendable_drafts g).
Proof.
  unfold guard_check. destruct (check_limits _ a) as [[]|] eqn:E; [intros _|done]. unfold check_limits in E.
  destruct (_ <=? _); [done|]. apply bind_Ok in E as ([] & E1 & E2). split.
  - intros Hr. rewrite bool_decide_true in E1 by done. destruct (_ <? _) eqn:El; [done|].
    destruct (List.existsb _ _) eqn:Ex; [done|]. split; [|lia]. intros th Hth. cbn in Ex.
    apply not_false_iff_true. intros Hf. apply not_true_iff_false in Ex. apply Ex, existsb_exists.
    exists th. split; [by apply list_elem_of_In|by rewrite Hf].
  - intros Hs. rewrite bool_decide_true in E2 by done. apply bind_Ok in E2 as (d & Hd & E2). exists d.
    destruct (draft_id a); [|done]. injection Hd as ->. split; [done|]. by case_bool_decide.
Qed.

(** *** A call's operation keeps it *)

Definition is_performed (e : Event) : Prop := match e with Performed _ _ _ => True | _ => False end.
Lemma performed_status session st e : is_performed e → status_step session st e = st.
Proof. by destruct e. Qed.

Definition event_op (e : Event) : option Op := match e with Performed _ o _ => Some o | _ => None end.
Definition event_ticket (e : Event) : option Z :=
  match e with
  | Performed _ o a => match o return answer o → option Z with NewTicket => Some | _ => λ _, None end a
  | _ => None
  end.
Lemma no_ticket c o a : o ≠ NewTicket → ∀ c' k, Performed c o a = Performed c' NewTicket k → False.
Proof. intros Ho c' k Heq. apply (f_equal event_op) in Heq. by injection Heq. Qed.

(** Sessions changed one by one, by updates that keep a session's rules. *)
Lemma hub_ok_update h tr e session f h' :
  hub_ok h tr → is_performed e → sessions h' = alter f session (sessions h) →
  (∀ s, sessions h !! session = Some s → session_ok session s tr → session_ok session (f s) (tr ++ [e])) →
  (∀ k, decisions h' !! k = Some true → decisions h !! k = Some true) →
  (∀ c k, e = Performed c NewTicket k → (k ≤ next_ticket h')%Z) → (next_ticket h ≤ next_ticket h')%Z →
  hub_ok h' (tr ++ [e]).
Proof.
  intros [Hd Ht Hs Hc] He Hsess Hf Hdec Hk Hnext. split.
  - intros k Hin. by apply in_snoc, Hd, Hdec.
  - intros c k [Hin|Hin%list_elem_of_singleton]%elem_of_app; [|by eapply Hk]. etrans; [by eapply Ht|done].
  - intros s st. rewrite Hsess. destruct (decide (s = session)) as [->|Hne].
    + rewrite lookup_alter_eq, fmap_Some. intros (st0 & Hst & ->). by apply Hf, Hs.
    + rewrite lookup_alter_ne by done. intros Hst. apply (session_ok_keep _ st _ _ _ (Hs _ _ Hst)); try done; [auto|].
      intros. by apply performed_status.
  - intros s. rewrite Hsess. destruct (decide (s = session)) as [->|Hne].
    + rewrite lookup_alter_eq, fmap_None. intros Hn. rewrite status_snoc, performed_status by done. auto.
    + rewrite lookup_alter_ne by done. intros Hn. rewrite status_snoc, performed_status by done. auto.
Qed.
Lemma hub_ok_keep h tr e h' :
  hub_ok h tr → is_performed e → sessions h' = sessions h →
  (∀ k, decisions h' !! k = Some true → decisions h !! k = Some true) →
  (∀ c k, e = Performed c NewTicket k → (k ≤ next_ticket h')%Z) → (next_ticket h ≤ next_ticket h')%Z →
  hub_ok h' (tr ++ [e]).
Proof.
  intros Ho He Hsess. apply (hub_ok_update h tr e "" (λ s, s)); [done|done| |].
  - by rewrite alter_id.
  - intros s Hs Hok. apply (session_ok_keep _ s _ _ _ Hok); try done; [auto|]. intros. by apply performed_status.
Qed.

Section invariant.
Context `{AgentText} {X : Type} `{AgentCore X} `{!AgentCoreLaws X}.

Ltac other_op := intros ?? Heq; exfalso; revert Heq; by apply no_ticket.
Ltac same Hok := split; [eapply hub_ok_keep; [exact Hok|done|done|done|other_op|cbn; lia]|].

Lemma perform_ok c session account now h x o h' x' a tr :
  (∃ t arguments, Started c session t arguments ∈ tr) → hub_ok h tr →
  perform_op session account now h x o = Some (h', x', a) →
  hub_ok h' (tr ++ [Performed c o a]) ∧ answer_rule c session o a tr ∧ answer_ok o a.
Proof.
  intros (t & arguments & Hst) Hok Hp. destruct o; cbn in Hp; try (injection Hp as <- <- <-).
  - same Hok. done.
  - destruct (sessions h !! session) as [s|] eqn:Es; [|injection Hp as <- <- <-; same Hok; done].
    destruct (guard_check (guard s) a0 now0) as [g r] eqn:Eg. injection Hp as <- <- <-.
    pose proof (guard_check_keeps (guard s) a0 now0) as [Hsc Hdr]. rewrite Eg in Hsc, Hdr. cbn in Hsc, Hdr.
    split; [|split; [|done]].
    + eapply hub_ok_update; [exact Hok|done|reflexivity| |done|other_op|cbn; lia].
      intros s' Hs' Hs. rewrite Es in Hs'. injection Hs' as <-.
      apply (session_ok_keep _ s _ _ _ Hs); cbn; [done|done| |done]. intros d. rewrite Hdr. auto.
    + cbn. intros [= ->]. apply guard_check_passed in Eg as [Hl Hd].
      destruct (ho_sessions _ _ Hok _ _ Es) as [(ac & pv & Hreg) Hg _]. split; [by eauto|].
      intros Hsend. destruct (Hd Hsend) as (d & Hd1 & Hd2). eauto.
  - same Hok. split; [|done]. cbn. unfold on_session.
    destruct (sessions h !! session) as [s|] eqn:Es; cbn.
    + by rewrite (so_status _ _ _ (ho_sessions _ _ Hok _ _ Es)).
    + by rewrite (ho_closed _ _ Hok _ Es).
  - same Hok. done.
  - same Hok. split; [|done]. cbn. unfold on_session. destruct (sessions h !! session) as [s|] eqn:Es; [|done].
    cbn. intros Ha. destruct (so_scope _ _ _ (ho_sessions _ _ Hok _ _ Es)) as (ac & pv & Hreg).
    exists (scope (guard s)), ac, pv. done.
  - split; [|done]. eapply hub_ok_update; [exact Hok|done|reflexivity| |done|other_op|cbn; lia].
    intros s _ Hs. apply (session_ok_keep _ s _ _ _ Hs); cbn; [done|done| |done].
    intros d' [->%elem_of_singleton|Hin]%elem_of_union; [right|by left].
    exists c, t, arguments. split; [by apply in_snoc|]. right. set_solver.
  - split; [|done]. eapply hub_ok_update; [exact Hok|done|reflexivity| |done|other_op|cbn; lia].
    intros s _ Hs. apply (session_ok_keep _ s _ _ _ Hs); cbn; [done|done| |done].
    intros d' [->%elem_of_singleton|Hin]%elem_of_union; [right|by left].
    exists c, t, arguments. split; [by apply in_snoc|]. left. exists quote. set_solver.
  - same Hok. split; [|done]. cbn. intros [q Hq]. apply bind_Some in Hq as (s & Hs & Hq).
    unfold owns_draft in Hq. case_bool_decide; [|done]. by apply (so_drafts _ _ _ (ho_sessions _ _ Hok _ _ Hs)).
  - same Hok. done.
  - split; [|split; [|done]].
    + eapply hub_ok_keep; [exact Hok|done|done|done| |cbn; lia].
      intros c' k [= <-]%(f_equal event_ticket). done.
    + cbn. intros c' Hin. pose proof (ho_tickets _ _ Hok _ _ Hin). lia.
  - same Hok. done.
  - same Hok. done.
  - destruct (decisions h !! ticket) as [b|] eqn:Ed; [|done]. injection Hp as <- <- <-. split; [|split; [|done]].
    + eapply hub_ok_keep; [exact Hok|done|done| |other_op|cbn; lia]. cbn. intros k Hk.
      by apply lookup_delete_Some in Hk as [_ Hk].
    + cbn. intros [= ->]. by apply (ho_decisions _ _ Hok).
  - same Hok. done.
  - same Hok. done.
  - same Hok. done.
  - destruct (core_perform o account now x) as [x2 r] eqn:Ec. injection Hp as <- <- <-. same Hok. split; [done|].
    cbn. pose proof (core_draft_ids o account now x) as Hl. by rewrite Ec in Hl.
Qed.

(** *** So do the user's actions *)

Lemma reject_keeps session h : let h' := reject_session session h in
  sessions h' = sessions h ∧ next_ticket h' = next_ticket h ∧
  ∀ k, decisions h' !! k = Some true → decisions h !! k = Some true.
Proof.
  cbn. unfold reject_session. generalize (waiting_for session h). intros l. revert h.
  induction l as [|k l IH]; intros h; [done|]. cbn. destruct (IH (resolve k false h).1) as (Hs & Hn & Hd).
  rewrite Hs, Hn. unfold resolve in *. destruct (pending h !! k); [|done]. split_and!; [done..|].
  intros k' Hk'. apply Hd in Hk'. cbn in Hk'. by apply lookup_insert_Some in Hk' as [[_ [=]]|[_ Hk']].
Qed.

(** A user's action that leaves the sessions it does not name as they are. *)
Lemma hub_ok_user h tr u h' :
  hub_ok h tr → (next_ticket h ≤ next_ticket h')%Z →
  (∀ k, decisions h' !! k = Some true → decisions h !! k = Some true ∨ UserDid u = UserDid (Resolve k true)) →
  (∀ s, (∀ st, status_step s st (UserDid u) = st) ∧ sessions h' !! s = sessions h !! s ∨
        (∀ st, sessions h' !! s = Some st → session_ok s st (tr ++ [UserDid u])) ∧
        (sessions h' !! s = None → status s (tr ++ [UserDid u]) = None)) →
  hub_ok h' (tr ++ [UserDid u]).
Proof.
  intros [Hd Ht Hs Hc] Hn Hdec Hsess. split.
  - intros k [Hk|Hk]%Hdec; [by apply in_snoc, Hd|]. rewrite Hk. set_solver.
  - intros c k Hin. etrans; [eapply Ht|exact Hn]. apply elem_of_app in Hin as [Hin|Hin%list_elem_of_singleton]; [exact Hin|done].
  - intros s st. destruct (Hsess s) as [[Hst ->]|[Ho _]]; [|apply Ho]. intros Hl.
    apply (session_ok_keep _ st _ _ _ (Hs _ _ Hl)); auto.
  - intros s. destruct (Hsess s) as [[Hst ->]|[_ Ho]]; [|apply Ho]. intros Hl. rewrite status_snoc, Hst. auto.
Qed.

Lemma status_other s st u session : s ≠ session →
  match u with Register x _ _ _ | SetReadOnly x | CloseSession x => x = session | _ => True end →
  status_step s st (UserDid u) = st.
Proof. intros Hne. destruct u; cbn; try done; intros ->; destruct (String.eqb_spec session s); congruence. Qed.

Lemma user_ok u h tr : hub_ok h tr → hub_ok (user_step u h) (tr ++ [UserDid u]).
Proof.
  intros Hok. destruct u as [session sc account provider|session|session text|k approve|session|session|names].
  - eapply hub_ok_user; [exact Hok|destruct account; cbn; lia|destruct account; cbn; auto|]. intros s.
    destruct (decide (s = session)) as [->|Hne].
    + right. destruct account; cbn; rewrite lookup_alter_eq, lookup_insert_eq; cbn; (split; [|done]);
        intros st [= <-]; (split; cbn; [eexists _, _; apply in_last|set_solver|]); rewrite status_snoc; cbn;
        by rewrite String.eqb_refl.
    + left. split; [intros; by eapply status_other|].
      destruct account; cbn; rewrite lookup_alter_ne, lookup_insert_ne; done.
  - eapply hub_ok_user; [exact Hok|cbn; lia|cbn; auto|]. intros s. destruct (decide (s = session)) as [->|Hne].
    + right. cbn. rewrite lookup_alter_eq. split.
      * intros st (st0 & Hst & ->)%fmap_Some. pose proof (ho_sessions _ _ Hok _ _ Hst) as [(ac & pv & Hr) Hd Hs].
        split; cbn; [exists ac, pv; by apply in_snoc| |rewrite status_snoc, Hs; cbn; by rewrite String.eqb_refl].
        intros d Hin. eapply gave_mono; [|by apply Hd]. intros. by apply in_snoc.
      * intros Hn%fmap_None. rewrite status_snoc, (ho_closed _ _ Hok _ Hn). cbn. by rewrite String.eqb_refl.
    + left. split; [intros; by eapply status_other|]. cbn. by rewrite lookup_alter_ne.
  - eapply hub_ok_user; [exact Hok|cbn; lia|cbn; auto|]. intros s. destruct (decide (s = session)) as [->|Hne].
    + right. cbn. rewrite lookup_alter_eq. split.
      * intros st (st0 & Hst & ->)%fmap_Some.
        apply (session_ok_keep _ st0 _ _ _ (ho_sessions _ _ Hok _ _ Hst)); cbn; auto.
      * intros Hn%fmap_None. by rewrite status_snoc, (ho_closed _ _ Hok _ Hn).
    + left. split; [done|]. cbn. by rewrite lookup_alter_ne.
  - eapply hub_ok_user; [exact Hok| | |]; cbn; unfold resolve; destruct (pending h !! k); cbn; try lia; auto.
    intros k' [[-> [= ->]]|[_ Hk]]%lookup_insert_Some; auto.
  - destruct (reject_keeps session h) as (Hs & Hn & Hd). eapply hub_ok_user; [exact Hok|cbn; lia|cbn; auto|].
    intros s. left. cbn. by rewrite Hs.
  - destruct (reject_keeps session h) as (Hs & Hn & Hd). eapply hub_ok_user; [exact Hok|cbn; lia|cbn; auto|].
    intros s. cbn. rewrite Hs. destruct (decide (s = session)) as [->|Hne].
    + right. rewrite lookup_delete_eq. split; [done|]. intros _. rewrite status_snoc. cbn. by rewrite String.eqb_refl.
    + left. split; [|by rewrite lookup_delete_ne]. intros st. destruct (String.eqb_spec session s); congruence.
  - cbn. destruct (policy_of names _); (eapply hub_ok_user; [exact Hok|cbn; lia|cbn; auto|intros s; by left]).
Qed.

(** ** The invariant of the system *)

Record running_ok (c : nat) (r : Running) (tr : list Event) : Prop := {
  ro_started : ∃ t arguments, Started c (rn_session r) t arguments ∈ tr ∧
                 safe (permitted t arguments) ANY (history c tr) (rn_prog r) }.
Record sys_ok (s : Sys (X := X)) : Prop := {
  sk_valid : valid (trace s);
  sk_hub : hub_ok (hub s) (trace s);
  sk_new : ∀ c e, e ∈ trace s → started s ≤ c →
             match e with Started c' _ _ _ | Performed c' _ _ => c' ≠ c | UserDid _ => True end;
  sk_running : ∀ c r, running s !! c = Some r → c < started s ∧ running_ok c r (trace s) }.

Lemma history_other c tr e :
  match e with Started _ _ _ _ | UserDid _ => True | Performed c' _ _ => c' ≠ c end → history c (tr ++ [e]) = history c tr.
Proof.
  intros He. rewrite history_app. destruct e; cbn; rewrite ?decide_False by done; apply app_nil_r.
Qed.
Lemma history_own c tr o a : history c (tr ++ [Performed c o a]) = history c tr ++ [mkEntry o a].
Proof. rewrite history_app. cbn. by rewrite decide_True. Qed.
Lemma running_ok_other c r tr e :
  match e with Started _ _ _ _ | UserDid _ => True | Performed c' _ _ => c' ≠ c end →
  running_ok c r tr → running_ok c r (tr ++ [e]).
Proof.
  intros He [(t & arguments & Hin & Hs)]. split. exists t, arguments. split; [by apply in_snoc|].
  by rewrite history_other.
Qed.

(** An event of a running call. *)
Lemma continue_ok s c r h x o a k :
  sys_ok s → running s !! c = Some r → rn_prog r = Vis o k → hub_ok h (trace s ++ [Performed c o a]) →
  answer_rule c (rn_session r) o a (trace s) → answer_ok o a → sys_ok (continue s c r h x o a (k a)).
Proof.
  intros [Hv Hh Hn Hr] Hc Hp Hok Ha Hx. destruct (Hr c r Hc) as [Hlt [(t & arguments & Hin & Hs)]].
  rewrite Hp in Hs. destruct Hs as [Hperm Hk]. split; cbn.
  - apply valid_snoc; [done|]. cbn. by exists (rn_session r), t, arguments.
  - done.
  - intros c' e [He|He%list_elem_of_singleton]%elem_of_app Hle; [by apply Hn|]. subst. lia.
  - intros c' r' [[<- <-]|[Hne Hl]]%lookup_insert_Some.
    + split; [done|]. split. exists t, arguments. cbn. split; [by apply in_snoc|]. rewrite history_own. by apply Hk.
    + destruct (Hr _ _ Hl) as [Hlt' Hok']. split; [done|]. by apply running_ok_other.
Qed.

Lemma act_ok s a s' : sys_ok s → act s a = Some s' → sys_ok s'.
Proof.
  intros Hs. pose proof Hs as [Hv Hh Hn Hr]. destruct a as [session t arguments|c|c|u|now|f]; cbn [act].
  - intros [= <-]. split; cbn.
    + apply valid_snoc; [done|]. cbn. intros s1 t1 a1 Hin. by apply (Hn (started s) _ Hin).
    + destruct Hh as [H1 H2 H3 H4]. split; cbn.
      * intros k Hk. by apply in_snoc, H1.
      * intros c k [Hin|Hin%list_elem_of_singleton]%elem_of_app; [by eapply H2|done].
      * intros s1 st Hst. apply (session_ok_keep _ st _ _ _ (H3 _ _ Hst)); auto.
      * intros s1 Hst. rewrite status_snoc. by apply H4.
    + intros c e [He|He%list_elem_of_singleton]%elem_of_app Hle; [apply Hn; [done|lia]|]. subst. lia.
    + intros c r [[<- <-]|[Hne Hl]]%lookup_insert_Some.
      * split; [lia|]. split. exists t, arguments. cbn. split; [apply in_last|]. rewrite history_other by done.
        assert (history (started s) (trace s) = []) as ->; [|apply call_safe].
        destruct (history (started s) (trace s)) as [|[o x] l] eqn:E; [done|]. exfalso.
        assert (Performed (started s) o x ∈ trace s) as Hin by (apply history_in; rewrite E; set_solver).
        by apply (Hn (started s) _ Hin).
      * destruct (Hr _ _ Hl) as [Hlt Hok]. split; [lia|]. by apply running_ok_other.
  - unfold step_call. destruct (running s !! c) as [r|] eqn:Ec; [|done]. cbn.
    destruct (rn_prog r) as [o|o k] eqn:Ep.
    + intros [= <-]. split; cbn; [done|done|done|]. intros c' r' [_ Hl]%lookup_delete_Some. by apply Hr.
    + destruct (perform_op _ _ _ _ _ _) as [[[h x] a]|] eqn:Eo; [|done]. cbn. intros [= <-].
      destruct (Hr c r Ec) as [_ [(t & arguments & Hin & _)]].
      destruct (perform_ok c _ _ _ _ _ _ _ _ _ _ (ex_intro _ t (ex_intro _ arguments Hin)) Hh Eo) as (Ho & Ha & Hx).
      by eapply continue_ok.
  - unfold expire. destruct (running s !! c) as [r|] eqn:Ec; [|done]. cbn.
    destruct (rn_prog r) as [|[| | | | | | | | | | | |ticket| | | |] k] eqn:Ep; try done.
    destruct (decisions (hub s) !! ticket); [done|].
    intros [= <-]. eapply continue_ok; [done|done|done| |done|done].
    eapply hub_ok_keep; [exact Hh|done|done|done|other_op|cbn; lia].
  - intros [= <-]. split; cbn.
    + by apply valid_snoc.
    + by apply user_ok.
    + intros c e [He|He%list_elem_of_singleton]%elem_of_app Hle; [by apply Hn|by subst].
    + intros c r Hl. destruct (Hr _ _ Hl) as [Hlt Hok]. split; [done|]. by apply running_ok_other.
  - intros [= <-]. by split.
  - intros [= <-]. by split.
Qed.

Lemma init_ok x : sys_ok (init empty_hub x).
Proof.
  split; cbn; [|split; cbn; intros *; rewrite ?lookup_empty; set_solver|set_solver|intros *; by rewrite lookup_empty].
  intros [] ??; done.
Qed.
Lemma reachable_ok x s : reachable empty_hub x s → sys_ok s.
Proof.
  intros (l & Hl). revert Hl. generalize (init_ok x). generalize (init empty_hub x). intros s0. revert s0.
  induction l as [|a l IH]; intros s0 Hok; cbn; [by intros [= <-]|].
  destruct (act s0 a) as [s1|] eqn:E; [|done]. cbn. apply IH. by eapply act_ok.
Qed.

(** ** From a call's history to the trace *)

Lemma valid_prefix l1 l2 : valid (l1 ++ l2) → valid l1.
Proof. intros Hv m1 e m2 ->. apply (Hv m1 e (m2 ++ l2)). by rewrite <- app_assoc. Qed.

Lemma in_order {A} (x y : A) l : x ∈ l → y ∈ l →
  x = y ∨ (∃ m1 m2, l = m1 ++ y :: m2 ∧ x ∈ m1) ∨ (∃ m1 m2, l = m1 ++ x :: m2 ∧ y ∈ m1).
Proof.
  intros (l1 & l2 & ->)%list_elem_of_split Hy. apply elem_of_app in Hy as [Hy|Hy]; [right; right; eauto|].
  apply elem_of_cons in Hy as [->|(m1 & m2 & ->)%list_elem_of_split]; [by left|]. right. left.
  exists (l1 ++ x :: m1), m2. split; [by rewrite <- app_assoc|set_solver].
Qed.
Lemma started_once tr c s t a s' t' a' : valid tr → Started c s t a ∈ tr → Started c s' t' a' ∈ tr →
  s = s' ∧ t = t' ∧ a = a'.
Proof.
  intros Hv H1 H2. destruct (in_order _ _ _ H1 H2) as [Heq|[(m1 & m2 & -> & Hin)|(m1 & m2 & -> & Hin)]];
    [by simplify_eq|exfalso..]; by apply (Hv _ _ _ eq_refl) in Hin.
Qed.
Definition event_call (e : Event) : option nat :=
  match e with Started c _ _ _ | Performed c _ _ => Some c | UserDid _ => None end.
Lemma ticket_once tr c c' k : valid tr → Performed c NewTicket k ∈ tr → Performed c' NewTicket k ∈ tr → c' = c.
Proof.
  intros Hv H1 H2.
  destruct (in_order _ _ _ H1 H2) as [Heq|[(m1 & m2 & -> & Hin)|(m1 & m2 & -> & Hin)]];
    [apply (f_equal event_call) in Heq; by simplify_eq/=|exfalso..]; destruct (Hv _ _ _ eq_refl) as (? & ? & ? & _ & _ & _ & Hr); by apply Hr in Hin.
Qed.

(** What a call performed, and what its history says of the trace. *)
Lemma call_rule c o a l1 l2 : valid (l1 ++ Performed c o a :: l2) →
  ∃ session t arguments, Started c session t arguments ∈ l1 ∧ permitted t arguments (history c l1) o ∧
    ∀ o' a', mkEntry o' a' ∈ history c l1 →
      Performed c o' a' ∈ l1 ∧
      ∃ l0, l0 `sublist_of` l1 ∧ answer_rule c session o' a' l0 ∧ answer_ok o' a'.
Proof.
  intros Hv. destruct (Hv _ _ _ eq_refl) as (session & t & arguments & Hst & Hp & _). exists session, t, arguments.
  split; [done|]. split; [done|]. intros o' a' Hin%history_in. split; [done|].
  apply valid_prefix in Hv. apply list_elem_of_split in Hin as (m1 & m2 & ->).
  destruct (Hv _ _ _ eq_refl) as (session' & t' & arguments' & Hst' & _ & Hx & Ha). exists m1.
  destruct (started_once _ _ _ _ _ _ _ _ Hv Hst (proj2 (elem_of_app _ _ _) (or_introl Hst'))) as (-> & _ & _).
  split; [|done]. by apply sublist_inserts_r.
Qed.
Lemma in_sublist {A} (l0 l : list A) x : l0 `sublist_of` l → x ∈ l0 → x ∈ l.
Proof. intros Hs. by apply sublist_subseteq. Qed.

Lemma limits_mono session act tr tr' : (∀ e, e ∈ tr → e ∈ tr') → limits_hold session act tr → limits_hold session act tr'.
Proof.
  intros Hi [(sc & ac & pv & H1 & H2) H3]. split; [exists sc, ac, pv; auto|].
  intros Hs. destruct (H3 Hs) as (d & Hd & Hg). exists d. split; [done|]. by eapply gave_mono.
Qed.
(** The limits passed the call, as the trace shows. *)
Lemma passed_limits c session t arguments l1 :
  (∀ o a, mkEntry o a ∈ history c l1 →
     Performed c o a ∈ l1 ∧ ∃ l0, l0 `sublist_of` l1 ∧ answer_rule c session o a l0 ∧ answer_ok o a) →
  passed t arguments (history c l1) → limits_hold session (action_of t arguments) l1.
Proof.
  intros Hh (now & Hp). destruct (Hh _ _ Hp) as [_ (l0 & Hs & Ha & _)]. eapply limits_mono; [|by apply Ha].
  intros e. by apply in_sublist.
Qed.
(** An approval of the call's own proposal, as the trace shows. *)
Definition approval (c : nat) (draft : option Z) (l1 tr : list Event) : Prop :=
  ∃ k account, Performed c (Park k account draft) () ∈ l1 ∧ UserDid (Resolve k true) ∈ l1 ∧
    ∀ c', Performed c' NewTicket k ∈ tr → c' = c.
Lemma approved_trace c session draft l1 tr :
  valid tr → (∀ e, e ∈ l1 → e ∈ tr) →
  (∀ o a, mkEntry o a ∈ history c l1 →
     Performed c o a ∈ l1 ∧ ∃ l0, l0 `sublist_of` l1 ∧ answer_rule c session o a l0 ∧ answer_ok o a) →
  approved_by_user draft (history c l1) → approval c draft l1 tr.
Proof.
  intros Hv Hi Hh (k & account & H1 & H2 & H3). exists k, account.
  destruct (Hh _ _ H1) as [Hk _]. destruct (Hh _ _ H2) as [Hp _].
  destruct (Hh _ _ H3) as [_ (l0 & Hs & Ha & _)]. split; [done|].
  split; [by eapply in_sublist; [|apply Ha]|]. intros c' Hc'. eapply ticket_once; [done| |done]. auto.
Qed.

(** ** What agents can do *)

(** C5. No mail leaves without the user: when a call sends a draft, it is a
    send or a forward that has sent nothing before, and either the mailbox is
    set to send freely or the user approved, before, a proposal of that very
    draft which this call, and no other, put to them.  The draft is one that
    the call's own session made, or for a forward the call itself.  This holds
    in every interleaving of calls, users and the rest of the core. *)
Theorem sends_approved (x : X) (s : Sys) (c : nat) (d : Z) (r : CoreResult bool) (l1 l2 : list Event) :
  reachable empty_hub x s → trace s = l1 ++ Performed c (Do (SendDraft d)) r :: l2 →
  ∃ session t arguments, Started c session t arguments ∈ l1 ∧ sends_mail t = true ∧
    (Performed c (Do AgentSendsFreely) true ∈ l1 ∨ approval c (Some d) l1 (trace s)) ∧
    (if decide (t = Forward) then ∃ draft, Performed c (Do (SaveDraft draft)) (Ok d) ∈ l1
     else gave session d l1) ∧
    ∀ d' r', Performed c (Do (SendDraft d')) r' ∉ l1.
Proof.
  intros Hr Heq. pose proof (sk_valid _ (reachable_ok _ _ Hr)) as Hv. rewrite Heq in Hv |- *.
  destruct (call_rule _ _ _ _ _ Hv) as (session & t & arguments & Hst & [Hch Hp] & Hh). cbn in Hp.
  destruct Hp as (Hu & Ha & Hd). exists session, t, arguments. split; [done|].
  assert (∀ d' r', Performed c (Do (SendDraft d')) r' ∉ l1) as Hnone.
  { intros d' r' Hin%history_in. by apply (proj1 (Forall_forall _ _) Hu) in Hin. }
  assert (∀ e, e ∈ l1 → e ∈ l1 ++ Performed c (Do (SendDraft d)) r :: l2) as Hi by set_solver.
  split; [destruct Hd as [[-> _]|[-> _]]; done|]. split; [|split; [|done]].
  - destruct Ha as [Ha|Hf]; [right; by eapply approved_trace|left]. by apply Hh in Hf as [Hf _].
  - destruct Hd as [[-> Hd]|[-> (draft & Hs)]].
    + rewrite decide_False by done. destruct (passed_limits _ _ _ _ _ Hh (proj1 (proj2 (Hch eq_refl)))) as [_ Hg].
      destruct (Hg eq_refl) as (d' & Hd' & Hgave). cbn in Hd'. by simplify_eq.
    + rewrite decide_True by done. exists draft. by apply Hh in Hs as [Hs _].
Qed.


(** A call in a session that may only read, and stays open, changes
    nothing: no draft, no label, no thread, no record of a composition. *)
Theorem read_only_changes_nothing (x : X) (s : Sys) (c : nat) (session : string) (t : Tool) (arguments : Json)
    (o : Op) (r : answer o) :
  reachable empty_hub x s →
  (∀ l1 l2, trace s = l1 ++ l2 → Started c session t arguments ∈ l1 → status session l1 = Some true) →
  Started c session t arguments ∈ trace s → Performed c o r ∈ trace s → changes o = false.
Proof.
  intros Hr Hst Hc Ho. apply not_true_iff_false. intros Hch.
  pose proof (sk_valid _ (reachable_ok _ _ Hr)) as Hv. apply list_elem_of_split in Ho as (l1 & l2 & Heq).
  rewrite Heq in Hv, Hst, Hc. destruct (Hv _ _ _ eq_refl) as (s1 & t1 & a1 & Hst1 & [Hp _] & _).
  destruct (started_once _ _ _ _ _ _ _ _ Hv Hc ltac:(set_solver)) as (? & ? & ?); subst.
  destruct (Hp Hch) as (_ & _ & Hro%history_in). apply list_elem_of_split in Hro as (m1 & m2 & ->).
  rewrite <- app_assoc in Hv, Hst, Hc. destruct (Hv _ _ _ eq_refl) as (s2 & t2 & a2 & Hst2 & _ & _ & Ha). cbn in Ha.
  destruct (started_once _ _ _ _ _ _ _ _ Hv Hc (proj2 (elem_of_app _ _ _) (or_introl Hst2))) as (? & ? & ?); subst.
  by rewrite (Hst m1 _ eq_refl Hst2) in Ha.
Qed.

(** A call saves over a draft only if its session made that draft, and
    the user was not reviewing it when the call looked; anything else it
    saves is a new draft. *)
Theorem saves_own_drafts (x : X) (s : Sys) (c : nat) (draft : DraftInfo) (r : CoreResult Z) (l1 l2 : list Event) :
  reachable empty_hub x s → trace s = l1 ++ Performed c (Do (SaveDraft draft)) r :: l2 →
  ∃ session t arguments, Started c session t arguments ∈ l1 ∧
    (di_id draft = 0%Z ∨
     gave session (di_id draft) l1 ∧ ∃ account, Performed c (IsFrozen account (di_id draft)) false ∈ l1).
Proof.
  intros Hr Heq. pose proof (sk_valid _ (reachable_ok _ _ Hr)) as Hv. rewrite Heq in Hv.
  destruct (call_rule _ _ _ _ _ Hv) as (session & t & arguments & Hst & [_ Hp] & Hh). cbn in Hp.
  exists session, t, arguments. split; [done|]. destruct Hp as [Hp|[(quote & Hq) (account & Hf)]]; [by left|right].
  split; [|exists account; by apply Hh in Hf as [Hf _]]. destruct (Hh _ _ Hq) as [_ (l0 & Hs & Ha & _)].
  eapply gave_mono; [|by apply Ha]. intros e. by apply in_sublist.
Qed.

(** C23. What a call reads out of a thread, its messages, a body, an
    attachment, or takes into a reply or a forward, is of a thread in the
    scope the user opened its session with. *)
Theorem reads_in_scope (x : X) (s : Sys) (c : nat) (o : CoreOp) (r : core_answer o) (l1 l2 : list Event) :
  reachable empty_hub x s → trace s = l1 ++ Performed c (Do o) r :: l2 →
  match o with
  | ReadThread _ | ReadSummary _ | ReadBody _ | ReplyDraft _ _ | ForwardDraft _ | FetchAttachment _ => True
  | _ => False
  end →
  ∃ session t arguments thread, Started c session t arguments ∈ l1 ∧ in_scope_of session thread l1 ∧
    match o with
    | ReadThread id | ReadSummary id => thread = id
    | ReadBody m => (∃ seen, Performed c (Do (ReadMessage m)) (Ok (Some seen)) ∈ l1 ∧ thread = g_thread seen.1) ∨
        ∃ summary ms seen, Performed c (Do (ReadThread thread)) (Ok (Some (summary, ms))) ∈ l1 ∧ seen ∈ ms ∧
          g_id seen.1 = m
    | ReplyDraft m _ | ForwardDraft m =>
        ∃ seen, Performed c (Do (ReadMessage m)) (Ok (Some seen)) ∈ l1 ∧ thread = g_thread seen.1
    | FetchAttachment a => ∃ row m seen, parse_i64 a = Some row ∧
        Performed c (Do (AttachmentMessage row)) (Ok (Some m)) ∈ l1 ∧
        Performed c (Do (ReadMessage m)) (Ok (Some seen)) ∈ l1 ∧ thread = g_thread seen.1
    | _ => True
    end.
Proof.
  intros Hr Heq Ho. pose proof (sk_valid _ (reachable_ok _ _ Hr)) as Hv. rewrite Heq in Hv.
  destruct (call_rule _ _ _ _ _ Hv) as (session & t & arguments & Hst & [_ Hp] & Hh). cbn in Hp.
  assert (∀ thread, scope_allows thread (history c l1) → in_scope_of session thread l1) as Hscope.
  { intros thread Hs. destruct (Hh _ _ Hs) as [_ (l0 & Hsub & Ha & _)].
    destruct (Ha eq_refl) as (sc & ac & pv & Hreg & Hall). exists sc, ac, pv. split; [|done]. by eapply in_sublist. }
  assert (∀ e a, mkEntry e a ∈ history c l1 → Performed c e a ∈ l1) as Hin by (intros e a He; by apply Hh in He as [He _]).
  exists session, t, arguments. destruct o; try done; cbn in Hp.
  - destruct Hp as (seen & H1 & H2). exists (g_thread seen.1). eauto 10.
  - destruct Hp as (seen & H1 & H2). exists (g_thread seen.1). eauto 10.
  - eauto 10.
  - eauto 10.
  - destruct Hp as [(seen & H1 & H2)|(thr & su & ms & seen & H1 & H2 & H3 & H4)].
    + exists (g_thread seen.1). split; [done|]. split; [auto|]. left. eauto.
    + exists thr. split; [done|]. split; [auto|]. right. exists su, ms, seen. auto.
  - destruct Hp as (row & m & Ha & H1 & seen & H2 & H3). exists (g_thread seen.1). eauto 20.
Qed.
End invariant.

(** * Agents at work on a concrete account

    Runs of the system of [AgentHub] over the facade's functions: the
    properties of [AgentProperties] on them, and what interleavings let
    happen. *)

#[local] Existing Instance demo_text.

Definition demo_init : @Sys Kaluta := init empty_hub demo_core.
Definition demo_run (l : list Act) : @Sys Kaluta := default demo_init (acts demo_init l).
Lemma demo_reachable l : is_ok (ok_or () (acts demo_init l)) = true → reachable empty_hub demo_core (demo_run l).
Proof. unfold demo_run. intros H. exists l. unfold demo_init. destruct (acts _ l); [done|discriminate H]. Qed.

Definition steps (c n : nat) : list (@Act Kaluta) := repeat (StepCall c) n.
Definition opening (sc : Permissions.Scope) : list (@Act Kaluta) := [User (Register "a-1" sc (Some "home") None)].
Definition some_args (fields : list (string * Json)) : Json := obj fields.
Definition to_bob : Json :=
  obj [("to", json_strings ["bob@example.com"]); ("subject", JString "Hi"); ("body_markdown", JString "See you")].
Definition the_draft : Json := obj [("draft_id", json_int 2)].
Definition new_subject : Json := obj [("draft_id", json_int 2); ("subject", JString "Changed")].
Definition thread_t1 : Json := obj [("thread_ids", json_strings ["t1"])].

(** *** A draft, proposed, approved and sent *)
Definition composed : list (@Act Kaluta) := opening Mailbox ++ StartCall "a-1" CreateDraft to_bob :: steps 0 16.
Definition sent_run : list (@Act Kaluta) :=
  composed ++ StartCall "a-1" Permissions.Send the_draft :: steps 1 15 ++ User (Resolve 1 true) :: steps 1 5.
Definition before_send : list Event := removelast (trace (demo_run sent_run)).

Lemma sends_approved_witness :
  trace (demo_run sent_run) = before_send ++ [Performed 1 (Do (SendDraft 2)) (Ok true)] ∧
  (Performed 1 (Do AgentSendsFreely) true ∈ before_send ∨
   ∃ k account, Performed 1 (Park k account (Some 2%Z)) () ∈ before_send ∧ UserDid (Resolve k true) ∈ before_send).
Proof.
  assert (trace (demo_run sent_run) = before_send ++ [Performed 1 (Do (SendDraft 2)) (Ok true)]) as Ht
    by (vm_compute; reflexivity).
  split; [exact Ht|].
  destruct (sends_approved demo_core (demo_run sent_run) 1 2 (Ok true) before_send []) as (s & t & a & _ & _ & Ha & _).
  - apply demo_reachable. vm_compute. reflexivity.
  - exact Ht.
  - destruct Ha as [Ha|(k & account & H1 & H2 & _)]; [left; exact Ha|right; exists k, account; split; [exact H1|exact H2]].
Defined.

(** *** A thread archived, in a session opened on it *)
Definition archived_run : list (@Act Kaluta) := opening (Selection {["t1"]}) ++ StartCall "a-1" Permissions.Archive thread_t1 :: steps 0 7.
Definition before_change : list Event := removelast (trace (demo_run archived_run)).


(** *** The agent's own draft, changed *)
Definition updated_run : list (@Act Kaluta) := composed ++ StartCall "a-1" UpdateDraft new_subject :: steps 1 12.
Definition changed_draft : DraftInfo :=
  mkDraftInfo 2 None None [MailStore.mkAddress None "bob@example.com"] [] [] "Changed" "See you" "" [] Editing None 0.
Definition before_update : list Event := removelast (trace (demo_run updated_run)).

Lemma saves_own_drafts_witness :
  trace (demo_run updated_run) = before_update ++ [Performed 1 (Do (SaveDraft changed_draft)) (Ok 2%Z)] ∧
  ∃ session, gave session 2 before_update ∧ ∃ account, Performed 1 (IsFrozen account 2) false ∈ before_update.
Proof.
  assert (trace (demo_run updated_run) = before_update ++ [Performed 1 (Do (SaveDraft changed_draft)) (Ok 2%Z)]) as Ht
    by (vm_compute; reflexivity).
  split; [exact Ht|].
  destruct (saves_own_drafts demo_core (demo_run updated_run) 1 changed_draft (Ok 2%Z) before_update [])
    as (s & t & a & _ & [H0|[H1 H2]]).
  - apply demo_reachable. vm_compute. reflexivity.
  - exact Ht.
  - discriminate H0.
  - exists s. split; [exact H1|exact H2].
Defined.

(** *** A thread in scope, read *)
Definition read_run : list (@Act Kaluta) :=
  opening (Selection {["t1"]}) ++
  StartCall "a-1" Permissions.GetThread (obj [("thread_id", JString "t1")]) :: steps 0 16.
Definition before_read : list Event := removelast (trace (demo_run read_run)).

Lemma reads_in_scope_witness :
  trace (demo_run read_run) = before_read ++ [Performed 0 (Do (ReadBody "m1")) (Ok None)] ∧
  ∃ session thread, in_scope_of session thread before_read.
Proof.
  assert (trace (demo_run read_run) = before_read ++ [Performed 0 (Do (ReadBody "m1")) (Ok None)]) as Ht
    by (vm_compute; reflexivity).
  split; [exact Ht|].
  destruct (reads_in_scope demo_core (demo_run read_run) 0 (ReadBody "m1") (Ok None) before_read [])
    as (s & t & a & thread & _ & H & _).
  - apply demo_reachable. vm_compute. reflexivity.
  - exact Ht.
  - exact I.
  - exists s, thread. exact H.
Defined.

(** *** A preview: a session that may only read *)
Definition preview_run : list (@Act Kaluta) :=
  opening Mailbox ++ User (SetReadOnly "a-1") :: StartCall "a-1" Permissions.Archive thread_t1 :: steps 0 4.

Lemma status_running session st tr : Forall (λ e, match e with UserDid _ => False | _ => True end) tr →
  foldl (status_step session) st tr = st.
Proof. intros Htr. revert st. induction Htr as [|[] tr He Htr IH]; intros st; cbn; [done|apply IH..|done]. Qed.
Lemma read_only_changes_nothing_witness :
  replies (demo_run preview_run) !! 0 = Some (ErrorOutcome "denied" "this is a preview: nothing may be changed") ∧
  Performed 0 IsReadOnly true ∈ trace (demo_run preview_run) ∧ changes IsReadOnly = false.
Proof.
  assert (∃ rest, trace (demo_run preview_run) =
    UserDid (Register "a-1" Mailbox (Some "home") None) :: UserDid (SetReadOnly "a-1") ::
    Started 0 "a-1" Permissions.Archive thread_t1 :: rest ∧
    Forall (λ e, match e with UserDid _ => False | _ => True end) rest) as (rest & Ht & Hrest).
  { eexists. split; [vm_compute; reflexivity|]. repeat constructor. }
  assert (Performed 0 IsReadOnly true ∈ trace (demo_run preview_run)) as Hin.
  { vm_compute. do 5 apply list_elem_of_further. apply list_elem_of_here. }
  split; [vm_compute; reflexivity|]. split; [exact Hin|].
  apply (read_only_changes_nothing demo_core (demo_run preview_run) 0 "a-1" Permissions.Archive thread_t1 IsReadOnly true).
  - apply demo_reachable. vm_compute. reflexivity.
  - intros l1 l2 Hl Hs. rewrite Ht in Hl. destruct l1 as [|e1 [|e2 l1]]; [by apply not_elem_of_nil in Hs|..].
    + injection Hl as <- _. by apply list_elem_of_singleton in Hs.
    + injection Hl as <- <- Hl. unfold status. cbn. apply status_running.
      assert (Forall (λ e, match e with UserDid _ => False | _ => True end) (l1 ++ l2)) as Hall
        by (rewrite <- Hl; by constructor).
      by apply Forall_app in Hall as [Hall _].
  - rewrite Ht. do 2 apply list_elem_of_further. apply list_elem_of_here.
  - exact Hin.
Defined.

(** ** What interleavings let happen *)

Definition to_eve : Json := obj [("draft_id", json_int 2); ("to", json_strings ["eve@example.com"])].
(** The answer unfreezes the draft before the send reads it: an update that
    runs in between is in what is sent. *)
Definition changed_after_approval : list (@Act Kaluta) :=
  composed ++ StartCall "a-1" Permissions.Send the_draft :: steps 1 15 ++ User (Resolve 1 true) ::
  StartCall "a-1" UpdateDraft to_eve :: steps 2 12 ++ steps 1 5.
Definition sent_to (s : @Sys Kaluta) : list (list string) :=
  match stores (core_state s) !! "home" with
  | Some a => (λ m, MailStore.addr_email <$> g_to m) <$>
      List.filter (λ m, String.eqb (g_subject m) "Hi")
        (omap (λ r, Read.get_message (mail (ac_db a)) (MailStore.ms_gmail_id r)) (MailStore.messages (mail (ac_db a))))
  | None => []
  end.
Definition proposed (s : @Sys Kaluta) : list string :=
  omap (λ e, match e with Performed _ (Emit (ActionProposed _ _ summary _)) _ => Some summary | _ => None end) (trace s).
Example sends_what_was_not_approved :
  proposed (demo_run changed_after_approval) = ["Send “Hi” to bob@example.com"] ∧
  sent_to (demo_run changed_after_approval) = [["eve@example.com"]].
Proof. vm_compute. done. Qed.

(** A preview closed between the limits and the look at whether it may only
    read: a session that is gone is not read-only, and the call goes on. *)
Definition closed_preview : list (@Act Kaluta) :=
  opening Mailbox ++ User (SetReadOnly "a-1") :: StartCall "a-1" Permissions.Archive thread_t1 :: steps 0 2 ++
  User (CloseSession "a-1") :: steps 0 5.
Example preview_changes :
  last (trace (demo_run closed_preview)) = Some (Performed 0 (Do (Mutate (Drain.archive ["t1"]))) (Ok ())).
Proof. vm_compute. done. Qed.

(** Arguments as an array instead of an object name no threads to the limits,
    and are read all the same: a thread out of scope is archived. *)
Example array_arguments :
  last (trace (demo_run (opening (Selection {["t2"]}) ++
    StartCall "a-1" Permissions.Archive (JArray [json_strings ["t1"]]) :: steps 0 7))) =
  Some (Performed 0 (Do (Mutate (Drain.archive ["t1"]))) (Ok ())).
Proof. vm_compute. done. Qed.
