(* ===== verification/RulesApp.v ===== *)
(** * RulesApp: publishing an agent mailbox to a rules server
    ([kaluta-core/src/rules_publish.rs], [rules_publish/encryption.rs])

    What the app keeps of a publication, what it pushes, and the pushes,
    keys and agents it manages with its publisher token, as programs over
    the record on disk, the Keychain, the guide as it is, and requests to
    the server, which may be any. *)

From Stdlib Require Import Ascii.
From S2P Require Import Prelude.
From S2P Require Import Domain.
From S2P Require Import Text.
From S2P Require Import Json.
From S2P Require Import Guide.
From S2P Require Import Facade.
From S2P Require Import Agents.
From S2P Require Import RulesTokens.
From S2P Require Import RulesDb.
From S2P Require Import RulesCrypto.
From S2P Require Import RulesPublish.
From S2P Require Import RulesOAuth.
From S2P Require Import Effects.

Class AppText := {
  hash64 : string → string;                        (** [DefaultHasher], as 16 hex digits *)
  endpoint_text : string → list string → string;   (** a base URL with segments *)
  query_text : list (string * string) → string     (** [append_pair]s on a URL without a query *) }.

Module App.

(** ** What is kept of a publication *)

Record PublishRecord := mkRecord {
  pr_server_url : string; pr_enabled : bool; pr_salt : string; pr_last_version : Z; pr_published_at : option Millis;
  pr_error : option string; pr_content : option string; pr_sample : bool; pr_encrypt : option bool;
  pr_key_id : option string; pr_unreadable_reports : Z }.
Definition encrypts (r : PublishRecord) : bool := default true (pr_encrypt r).
Definition with_error (e : option string) (r : PublishRecord) : PublishRecord :=
  mkRecord (pr_server_url r) (pr_enabled r) (pr_salt r) (pr_last_version r) (pr_published_at r) e (pr_content r)
    (pr_sample r) (pr_encrypt r) (pr_key_id r) (pr_unreadable_reports r).
Definition with_salt (salt : string) (r : PublishRecord) : PublishRecord :=
  mkRecord (pr_server_url r) (pr_enabled r) salt (pr_last_version r) (pr_published_at r) (pr_error r) (pr_content r)
    (pr_sample r) (pr_encrypt r) (pr_key_id r) (pr_unreadable_reports r).
Definition without_content (r : PublishRecord) : PublishRecord :=
  mkRecord (pr_server_url r) (pr_enabled r) (pr_salt r) (pr_last_version r) (pr_published_at r) (pr_error r) None
    (pr_sample r) (pr_encrypt r) (pr_key_id r) (pr_unreadable_reports r).
Definition with_encrypt (e : bool) (r : PublishRecord) : PublishRecord :=
  mkRecord (pr_server_url r) (pr_enabled r) (pr_salt r) (pr_last_version r) (pr_published_at r) (pr_error r) (pr_content r)
    (pr_sample r) (Some e) (pr_key_id r) (pr_unreadable_reports r).
Definition with_enabled (b : bool) (r : PublishRecord) : PublishRecord :=
  mkRecord (pr_server_url r) b (pr_salt r) (pr_last_version r) (pr_published_at r) (pr_error r) (pr_content r)
    (pr_sample r) (pr_encrypt r) (pr_key_id r) (pr_unreadable_reports r).
(** [saturating_add] of a [u32] *)
Definition gave_up (n : Z) (r : PublishRecord) : PublishRecord :=
  mkRecord (pr_server_url r) (pr_enabled r) (pr_salt r) (pr_last_version r) (pr_published_at r) (pr_error r) (pr_content r)
    (pr_sample r) (pr_encrypt r) (pr_key_id r) (Z.min (2 ^ 32 - 1) (pr_unreadable_reports r + n)).
(** The server took a version. *)
Definition took (version : Z) (at_ : Millis) (content salt : string) (encrypt : bool) (key_id : option string)
    (r : PublishRecord) : PublishRecord :=
  mkRecord (pr_server_url r) (pr_enabled r) salt version (Some at_) None (Some content) (pr_sample r) (Some encrypt)
    key_id (pr_unreadable_reports r).

Definition publish_token_key (server account : string) : string := "rules.publish_token." +:+ server +:+ "." +:+ account.
Definition snapshot_key_key (account : string) : string := "rules.snapshot_key." +:+ account.
Definition report_key_key (account : string) : string := "rules.report_key." +:+ account.

(** ** Servers, failures and answers *)

Record Server := mkServer { sv_base : Url; sv_url : string; sv_key : string; sv_host : string }.
Inductive Failure := Transient (m : string) | Final (m : string).
Definition failure_message (f : Failure) : string := match f with Transient m | Final m => m end.
Definition is_final (f : Failure) : bool := match f with Final _ => true | Transient _ => false end.
Definition failure_error (f : Failure) : CoreError :=
  match f with Transient m => mkCoreError Network m | Final m => mkCoreError InvalidInput m end.
Definition from_core (e : CoreError) : Failure := Final (ce_message e).
Record Answer := mkAnswer { an_status : nat; an_body : Json }.
Definition says (a : Answer) : string :=
  default ("status " +:+ pretty (an_status a)) (as_str (json_get "message" (an_body a))).
Definition transient (host : string) (a : Answer) : option Failure :=
  if an_status a =? 429 then Some (Transient (host +:+ " is limiting requests; trying again shortly"))
  else if (500 <=? an_status a) && (an_status a <=? 599)
  then Some (Transient (host +:+ " failed (" +:+ pretty (an_status a) +:+ "); trying again shortly")) else None.

Inductive Method := GET | PUT | POST | DELETE.
Inductive HttpBody := JsonBody (v : Json) | TextBody (s : string).
Record HttpRequest := mkRequest {
  rq_server : Server; rq_method : Method; rq_path : list string; rq_query : list (string * string);
  rq_bearer : option string; rq_if_match : option Z; rq_body : option HttpBody }.

Section server.
Context `{RulesText} `{Web}.

(** Less the slashes at its end. *)
Definition with_path (path : string) (u : Url) : Url :=
  mkUrl (u_scheme u) (u_host u) (u_port u) path (u_query u) (u_fragment u) (u_username u) (u_password u) (u_origin u).
Definition invalid {A} (m : string) : CoreResult A := Err (mkCoreError InvalidInput m).
Definition parse_server (input : string) : CoreResult Server :=
  let input := trim input in
  if String.eqb input "" then invalid "enter the rules server's address, such as https://rules.example.com" else
  let with_scheme := if contains "://" input then input else "https://" +:+ input in
  match url_parse with_scheme with
  | None => invalid "that is not a web address"
  | Some url =>
      let host := lowercase (default "" (u_host url)) in
      if String.eqb host "" then invalid "that is not a web address" else
      let loopback := String.eqb host "localhost" || String.eqb host "127.0.0.1" || String.eqb host "[::1]" in
      if String.eqb (u_scheme url) "http" && negb loopback
      then invalid "use https://: tokens and your guide must not cross the network in the clear"
      else if negb (String.eqb (u_scheme url) "https") && negb (String.eqb (u_scheme url) "http")
      then invalid "use an https:// address"
      else if negb (String.eqb (u_username url) "") || has (u_password url) || has (u_query url) || has (u_fragment url)
      then invalid "give the server's address alone, without a name, password, query or #" else
      let path := trim_end_char "/" (u_path url) in
      let host_port := match u_port url with Some port => host +:+ ":" +:+ pretty port | None => host end in
      Ok (mkServer (with_path path url) (u_scheme url +:+ "://" +:+ host_port +:+ path) (host_port +:+ path) host_port)
  end.

(** An agent's name: 1 to 100 characters on one line. *)
Definition agent_name (name : string) : CoreResult string :=
  let name := join " " (split_whitespace name) in
  if String.eqb name "" || (100 <? char_count name) then invalid "give the agent a name of up to 100 characters" else Ok name.

(** ** What is published *)

Definition service_limits (s : AgentService) : string :=
  match s with
  | Primitive =>
      "Each message goes to exactly one recipient (no Cc or Bcc): to write to several people, write to each separately."
  | AgentMail =>
      "A message may go to several people (To, Cc and Bcc). AgentMail's free plan sends 3,000 messages a month across the service account, and a new inbox may write to at most 3 different people in its first hour, 5 in its first day and 10 in its first week. A message with its attachments may be up to 6 MB."
  end.
Definition published_about (m : AgentMeta) (others : list string) (verified : bool) : string :=
  let '(service, site) := match am_service m with
                          | Primitive => ("Primitive", "primitive.dev") | AgentMail => ("AgentMail", "agentmail.to") end in
  let unverified :=
    if match am_service m with AgentMail => negb verified | Primitive => false end
    then " Until its service account is verified, it can write only to the user's own email, the one it was created with; AgentMail refuses anyone else."
    else "" in
  let shared := match others with
                | [] => ""
                | [one] => " Another agent's mailbox, " +:+ one +:+ "'s, shares these limits: its sends count against them too."
                | many => " The mailboxes of " +:+ pretty (length many) +:+ " other agents (" +:+ join ", " many +:+
                          ") share these limits: their sends count against them too."
                end in
  "## This is an agent's mailbox" +:+ NL +:+ NL +:+ "This mailbox, " +:+ am_address m +:+ ", belongs to an agent called " +:+
  am_name m +:+ ", not to the user. Mail sent from it goes out as " +:+ am_name m +:+ " <" +:+ am_address m +:+ ">. Write as " +:+
  am_name m +:+ ", on the user's behalf. It sends through " +:+ service +:+ " (" +:+ site +:+
  ") with the mailbox's own key; this server only serves its writing guide and facts." +:+ unverified +:+ " " +:+
  service_limits (am_service m) +:+ shared.

(** What a snapshot is made of: the accepted entries, the confirmed
    groups, and the facts with whether they are shared. *)
Record Source := mkSource {
  so_meta : AgentMeta; so_others : list string; so_verified : bool; so_entries : list Entry;
  so_groups : list AudienceGroup; so_guide_version : Z; so_categories : list FactCategory;
  so_facts : list (FactInfo * bool) }.
Definition used_facts (s : Source) : list (FactInfo * bool) :=
  List.filter (λ f, negb (bool_decide (fi_use f.1 = Never)))
    (List.filter (λ f, negb (hidden_category (so_categories s) (fi_category f.1)))
       (List.filter (λ f, negb (fi_overridden f.1)) (List.filter (λ f, accepted_fact f.1) (so_facts s)))).
Definition rules_snapshot (s : Source) : Snapshot * nat :=
  let used := used_facts s in
  let facts := omap (λ f, shared f.1 (category_name (so_categories s) (fi_category f.1))) (List.filter snd used) in
  (Guide.mkSnapshot 0 (so_guide_version s) 0
     (Guide.mkMailbox (am_address (so_meta s)) (am_name (so_meta s)) (trim (published_about (so_meta s) (so_others s) (so_verified s))))
     (List.filter (λ e, negb (String.eqb (en_category e) "F3")) (so_entries s)) (plain (so_groups s)) facts,
   length used - length facts).
(** A snapshot with its version and time. *)
Definition versioned (version : Z) (at_ : Millis) (s : Snapshot) : Snapshot :=
  Guide.mkSnapshot version (sn_guide_version s) at_ (sn_mailbox s) (sn_entries s) (sn_audiences s) (sn_facts s).
Definition digest `{AppText} (s : Snapshot) : string := hash64 (snapshot_text (versioned 0 0 s)).

(** The publish sheet's words. *)
Definition scope_summary (s : Scope) : string :=
  join "; " ((if is_empty (sc_groups s) then [] else ["for " +:+ join ", " (sc_groups s)]) ++
             match length (sc_people s) with
             | 0 => [] | 1 => ["to 1 person"] | n => ["to " +:+ pretty n +:+ " people"]
             end ++
             (if is_empty (sc_message_types s) then [] else ["in " +:+ join ", " (sc_message_types s)]) ++
             (if is_empty (sc_languages s) then [] else ["when writing in " +:+ join " or " (sc_languages s)])).
Record Preview := mkPreview {
  pv_address : string; pv_name : string; pv_entries : list (Kind * string * string * bool);
  pv_facts : list (string * string * bool); pv_audiences : list (string * nat); pv_facts_kept : nat }.
Definition preview_of (s : Snapshot) (kept : nat) : Preview :=
  mkPreview (mx_address (sn_mailbox s)) (mx_name (sn_mailbox s))
    ((λ e, (en_kind e, en_statement e, scope_summary (en_scope e), match en_check e with Some _ => true | None => false end)) <$> sn_entries s)
    ((λ f, (fa_category f, fa_label f, fa_ask f)) <$> sn_facts s)
    ((λ g, (au_name g, length (au_members g))) <$> gs_groups (sn_audiences s)) kept.
End server.
End App.
