(* ===== verification/CloudReports.v ===== *)
(** * CloudReports: what cloud agents say they sent
    ([mail-store/src/cloud_reports.rs], [compositions.rs])

    Reports pulled from a rules server, each kept once, recorded as an AI
    composition, and matched to the message it is about in the mailbox. *)

From Stdlib Require Import Ascii.
From S2P Require Import Prelude.
From S2P Require Import Domain.
From S2P Require Import Text.
From S2P Require Import MailStore.
From S2P Require Import LocalDb.
From S2P Require Import RulesDb.
From S2P Require Import RulesOAuth.

Definition MATCH_WINDOW_MS : Millis := (10 * 60 * 1000)%Z.
Definition NOT_SEEN_AFTER_MS : Millis := (24 * 60 * 60 * 1000)%Z.
Definition MATCH_FOR_MS : Millis := (14 * 24 * 60 * 60 * 1000)%Z.
Definition BY_MESSAGE_ID := "message_id".
Definition BY_RECIPIENT_SUBJECT := "recipient_subject".

Record NewReport := mkNewReport {
  nr_server : string; nr_server_id : Z; nr_agent_id : string; nr_agent_name : string; nr_agent_kind : string;
  nr_received_at : Millis; nr_message_id : option string; nr_to : list string; nr_subject : string;
  nr_sent_at : option Millis; nr_body_markdown : string; nr_checked_version : option Z; nr_check_version : option Z;
  nr_guide_check : list string }.
Record Report := mkCloudReport {
  cr_id : Z; cr_server : string; cr_server_id : Z; cr_agent_id : string; cr_agent_name : string; cr_agent_kind : string;
  cr_received_at : Millis; cr_pulled_at : Millis; cr_message_id : option string; cr_to : list string; cr_subject : string;
  cr_sent_at : option Millis; cr_body_markdown : option string; cr_checked_version : option Z; cr_check_version : option Z;
  cr_guide_check : list string; cr_composition_id : option Z; cr_matched_message_id : option string;
  cr_match_method : option string; cr_matched_at : option Millis }.
(** When the agent says it sent the message, or when the server heard. *)
Definition report_at (r : Report) : Millis := default (cr_received_at r) (cr_sent_at r).

(** A reported send, as [ai_compositions] records it. *)
Inductive CompositionKind := NewMail | ReplyMail | ForwardMail.
Record ReportedComposition := mkReported {
  rc_agent : string; rc_kind : CompositionKind; rc_recipients : list string; rc_subject : string; rc_ai_text : string;
  rc_ai_html : option string; rc_rfc822 : option string; rc_at : Millis }.
(** An account's store: its database, the reports and their last id, what
    reported sends were recorded with, the last composition's id, and
    whether compositions are recorded. *)
Record CloudDb := mkCloudDb {
  cd_db : Db; cd_reports : list Report; cd_seq : Z; cd_reported : list (Z * ReportedComposition);
  cd_composition_seq : Z; cd_recording : bool }.
Definition on_cloud_reports (f : list Report → list Report) (c : CloudDb) : CloudDb :=
  mkCloudDb (cd_db c) (f (cd_reports c)) (cd_seq c) (cd_reported c) (cd_composition_seq c) (cd_recording c).
Definition update_report (id : Z) (f : Report → Report) : CloudDb → CloudDb :=
  on_cloud_reports (List.map (λ r, if (cr_id r =? id)%Z then f r else r)).

(** ** Keeping *)

Definition normalize_message_id (id : string) : string :=
  trim (trim_end_char ">" (strip_all (String.length id) ["<"] (trim id))).
Definition is_report (server : string) (server_id : Z) (r : Report) : bool :=
  String.eqb (cr_server r) server && (cr_server_id r =? server_id)%Z.
(** Kept, or [None] when it was pulled before. *)
Definition insert (r : NewReport) (now : Millis) (c : CloudDb) : CloudDb * option Z :=
  if List.existsb (is_report (nr_server r) (nr_server_id r)) (cd_reports c) then (c, None) else
  let id := (cd_seq c + 1)%Z in
  (mkCloudDb (cd_db c)
     (cd_reports c ++
        [mkCloudReport id (nr_server r) (nr_server_id r) (nr_agent_id r) (nr_agent_name r) (nr_agent_kind r) (nr_received_at r) now
           (nr_message_id r) (nr_to r) (nr_subject r) (nr_sent_at r) (Some (nr_body_markdown r)) (nr_checked_version r)
           (nr_check_version r) (nr_guide_check r) None None None None])
     id (cd_reported c) (cd_composition_seq c) (cd_recording c), Some id).
Definition with_composition (id : option Z) (r : Report) : Report :=
  mkCloudReport (cr_id r) (cr_server r) (cr_server_id r) (cr_agent_id r) (cr_agent_name r) (cr_agent_kind r) (cr_received_at r)
    (cr_pulled_at r) (cr_message_id r) (cr_to r) (cr_subject r) (cr_sent_at r) (cr_body_markdown r) (cr_checked_version r)
    (cr_check_version r) (cr_guide_check r) id (cr_matched_message_id r) (cr_match_method r) (cr_matched_at r).
Definition with_match (message method : string) (at_ : Millis) (r : Report) : Report :=
  mkCloudReport (cr_id r) (cr_server r) (cr_server_id r) (cr_agent_id r) (cr_agent_name r) (cr_agent_kind r) (cr_received_at r)
    (cr_pulled_at r) (cr_message_id r) (cr_to r) (cr_subject r) (cr_sent_at r) (cr_body_markdown r) (cr_checked_version r)
    (cr_check_version r) (cr_guide_check r) (cr_composition_id r) (Some message) (Some method) (Some at_).
Definition without_body (r : Report) : Report :=
  mkCloudReport (cr_id r) (cr_server r) (cr_server_id r) (cr_agent_id r) (cr_agent_name r) (cr_agent_kind r) (cr_received_at r)
    (cr_pulled_at r) (cr_message_id r) (cr_to r) (cr_subject r) (cr_sent_at r) None (cr_checked_version r)
    (cr_check_version r) (cr_guide_check r) (cr_composition_id r) (cr_matched_message_id r) (cr_match_method r) (cr_matched_at r).
Definition set_composition (id composition : Z) : CloudDb → CloudDb := update_report id (with_composition (Some composition)).
Definition with_cloud_db (f : Db → Db) (c : CloudDb) : CloudDb :=
  mkCloudDb (f (cd_db c)) (cd_reports c) (cd_seq c) (cd_reported c) (cd_composition_seq c) (cd_recording c).
(** The record's id. *)
Definition record_reported (r : ReportedComposition) (now : Millis) (c : CloudDb) : CloudDb * Z :=
  let id := (cd_composition_seq c + 1)%Z in
  (mkCloudDb (with_compositions (compositions (cd_db c) ++ [mkComposition id None (rc_rfc822 r) LocalDb.Waiting now]) (cd_db c))
     (cd_reports c) (cd_seq c) (cd_reported c ++ [(id, r)]) id (cd_recording c), id).

(** The latest first. *)
Definition latest_report (a b : Report) : Prop :=
  (report_at b < report_at a)%Z ∨ (report_at a = report_at b ∧ (cr_id b ≤ cr_id a)%Z).
#[export] Instance latest_report_dec a b : Decision (latest_report a b).
Proof. unfold latest_report. apply _. Defined.
Definition recent (limit : nat) (c : CloudDb) : list Report := take limit (merge_sort latest_report (cd_reports c)).
Definition count_since (since : Millis) (c : CloudDb) : nat := count (λ r, (since <=? cr_received_at r)%Z) (cd_reports c).
(** Retention: bodies cleared. *)
Definition purge (keep_ms now : Millis) (c : CloudDb) : CloudDb * nat :=
  let old (r : Report) := has (cr_body_markdown r) && (cr_received_at r <? now - keep_ms)%Z in
  (on_cloud_reports (List.map (λ r, if old r then without_body r else r)) c, count old (cd_reports c)).

(** ** Matching *)

Section matching.
Context (lowercase : string → string).

(** The address in [Name <a@x.com>]. *)
Definition address (s : string) : string :=
  let s := trim s in
  let inner := match rsplit_once "<" s, rsplit_once ">" s with
               | Some (before, _), Some (upto, _) =>
                   if String.length before <? String.length upto
                   then String.substring (S (String.length before)) (String.length upto - S (String.length before)) s else s
               | _, _ => s
               end in
  lowercase (trim inner).
Definition subject_key (s : string) : string := lowercase (join " " (split_whitespace s)).

Record Sent := mkSent { se_gmail_id : string; se_rfc822 : option string; se_at : Millis; se_subject : string; se_people : list string }.
Definition sent_people (local : Z) (s : Store) : list string :=
  (λ p, lowercase (trim (addr_email (pt_address p)))) <$>
    List.filter (λ p, (pt_message p =? local)%Z &&
      (String.eqb (pt_role p) "to" || String.eqb (pt_role p) "cc" || String.eqb (pt_role p) "bcc")) (participants s).
Definition earlier_sent (a b : MessageRow) : Prop := (ms_internal_date a ≤ ms_internal_date b)%Z.
#[export] Instance earlier_sent_dec a b : Decision (earlier_sent a b).
Proof. unfold earlier_sent. apply _. Defined.
(** Sent mail there is, oldest first, less what waits in the outbox. *)
Definition sent_rows (p : MessageRow → bool) (s : Store) : list Sent :=
  (λ m, mkSent (ms_gmail_id m) (ms_rfc822 m) (ms_internal_date m) (ms_subject m) (sent_people (ms_id m) s)) <$>
    List.filter (λ m, negb (starts_with LOCAL_PREFIX (ms_gmail_id m)))
      (merge_sort earlier_sent
         (List.filter (λ m, is_sent_by_me (ms_flags m) && negb (is_draft (ms_flags m)) && p m) (messages s))).
(** The first of the closest. *)
Fixpoint closest (at_ : Millis) (l : list Sent) : option Sent :=
  match l with
  | [] => None
  | s :: l => match closest at_ l with
              | Some t => if (Z.abs (se_at t - at_) <? Z.abs (se_at s - at_))%Z then Some t else Some s
              | None => Some s
              end
  end.
Definition unused (used : list string) (s : Sent) : bool := negb (bool_decide (se_gmail_id s ∈ used)).
Definition by_message_id (r : Report) (used : list string) (s : Store) : option Sent :=
  match cr_message_id r with
  | Some mid => if String.eqb mid "" then None
                else List.find (unused used) (sent_rows (λ m, bool_decide (ms_rfc822 m = Some mid)) s)
  | None => None
  end.
Definition by_recipient (r : Report) (used : list string) (s : Store) : option Sent :=
  let at_ := report_at r in
  let to := address <$> cr_to r in
  closest at_
    (List.filter (λ x, List.existsb (λ p, bool_decide (p ∈ to)) (se_people x))
       (List.filter (λ x, String.eqb (subject_key (se_subject x)) (subject_key (cr_subject r)))
          (List.filter (unused used)
             (sent_rows (λ m, (at_ - MATCH_WINDOW_MS <=? ms_internal_date m)%Z && (ms_internal_date m <=? at_ + MATCH_WINDOW_MS)%Z) s)))).
Definition found_for (r : Report) (used : list string) (s : Store) : option (Sent * string) :=
  match by_message_id r used s with
  | Some x => Some (x, BY_MESSAGE_ID)
  | None => (λ x, (x, BY_RECIPIENT_SUBJECT)) <$> by_recipient r used s
  end.
Record Matched := mkMatched { mt_report : Z; mt_message : string; mt_method : string }.
Definition waiting_composition (id : Z) (r : CompositionRow) : bool :=
  (co_id r =? id)%Z && bool_decide (co_status r = LocalDb.Waiting).
(** The composition of a matched report takes the sent message's id. *)
Definition pair_composition (r : Report) (x : Sent) (now : Millis) : CloudDb → CloudDb :=
  match cr_composition_id r, se_rfc822 x with
  | Some composition, Some rfc822 =>
      with_cloud_db (λ d, with_compositions ((λ co, if waiting_composition composition co
                            then mkComposition (co_id co) (co_draft_id co) (Some rfc822) (co_status co) now else co) <$> compositions d) d)
  | _, _ => id
  end.
Definition match_one (now : Millis) (st : CloudDb * list string * list Matched) (r : Report) : CloudDb * list string * list Matched :=
  let '(c, used, out) := st in
  match found_for r used (mail (cd_db c)) with
  | None => st
  | Some (x, method) =>
      (pair_composition r x now (update_report (cr_id r) (with_match (se_gmail_id x) method now) c),
       se_gmail_id x :: used, out ++ [mkMatched (cr_id r) (se_gmail_id x) method])
  end.
Definition earlier_report (a b : Report) : Prop :=
  (report_at a < report_at b)%Z ∨ (report_at a = report_at b ∧ (cr_id a ≤ cr_id b)%Z).
#[export] Instance earlier_report_dec a b : Decision (earlier_report a b).
Proof. unfold earlier_report. apply _. Defined.
Definition waits (now : Millis) (r : Report) : bool := negb (has (cr_matched_message_id r)) && (now - MATCH_FOR_MS <=? cr_received_at r)%Z.
Definition match_reports (now : Millis) (c : CloudDb) : CloudDb * list Matched :=
  let waiting := merge_sort earlier_report (List.filter (waits now) (cd_reports c)) in
  let '(c, _, out) := foldl (match_one now) (c, omap cr_matched_message_id (cd_reports c), []) waiting in (c, out).
End matching.
