(* ===== verification/RulesPush.v ===== *)
(** * RulesPush: the app's publications, pushed and managed
    ([kaluta-core/src/rules_publish.rs], [rules_publish/encryption.rs],
    [rules_publish/reports.rs])

    Each function as a program over what it shares with the rest of the
    app, one operation for each lock taken or request sent.  The lock that
    lets one push run at a time is outside. *)

From Stdlib Require Import Ascii.
From S2P Require Import Prelude.
From S2P Require Import Domain.
From S2P Require Import Text.
From S2P Require Import Json.
From S2P Require Import Guide.
From S2P Require Import Facade.
From S2P Require Import Agents.
From S2P Require Import RulesTokens.
From S2P Require Import RulesDb.
From S2P Require Import RulesCrypto.
From S2P Require Import RulesPublish.
From S2P Require Import RulesOAuth.
From S2P Require Import RulesApp.
From S2P Require Import CloudReports.
From S2P Require Import Effects.
Import App.

(** ** Operations *)

Module Publisher.
Inductive Op :=
| Now
| Roll (bytes : nat)
| RollNonces (** one for each wrap *)
| IsHeadless
| ReadRecord (account : string)
| UpdateRecord (account : string) (change : PublishRecord → PublishRecord)
| WriteRecord (account : string) (r : PublishRecord)
| RemoveRecord (account : string)
| GetSecret (key : string)
| SetSecret (key value : string)
| DeleteSecret (key : string)
| ReadMeta (account : string)
| ReadSource (account : string)
| Send (rq : HttpRequest)
| SetPending (account : string) (b : bool)
| IsPending (account : string)
| FailingReports (account : string)
| Acknowledgeable (account server : string) (read : list (Z * option NewReport))
| RecordReports (account : string) (reports : list NewReport) (now : Millis)
| MatchReports (account : string) (now : Millis)
| PullDue (account : string)
| RewrapSoon (account : string) (** in a task of its own *)
| PanicNow
| Emit (account : string).
Definition answer (o : Op) : Type :=
  match o with
  | Now => Millis
  | Roll _ => Bytes
  | RollNonces => nat → Bytes
  | IsHeadless | IsPending _ | PullDue _ => bool
  | ReadRecord _ => option PublishRecord
  | UpdateRecord _ _ | WriteRecord _ _ | SetSecret _ _ | DeleteSecret _ => CoreResult ()
  | GetSecret _ => CoreResult (option string)
  | ReadMeta _ => option AgentMeta
  | ReadSource _ => CoreResult Source
  | Send _ => result string Answer
  | RemoveRecord _ | SetPending _ _ | RewrapSoon _ | Emit _ => ()
  | PanicNow => Empty_set
  | FailingReports _ => nat
  | Acknowledgeable _ _ _ => option Z * nat
  | RecordReports _ _ _ => CoreResult nat
  | MatchReports _ _ => CoreResult bool
  end.
Abbreviation Prog := (Eff answer).
Abbreviation Try := (Attempt answer).

Section programs.
Context `{Crypto} `{RulesText} `{Web} `{AppText}.
#[local] Abbreviation Push := (Try Failure).

(** ** Requests *)

Definition core {A} (r : CoreResult A) : Push A := ask (map_err from_core r).
Definition send (rq : HttpRequest) : Push Answer :=
  a ← op (Send rq);
  ask (map_err (λ e, Transient ("Could not reach " +:+ sv_host (rq_server rq) +:+ ": " +:+ e)) a).
Definition not_transient (host : string) (a : Answer) : Push () :=
  match transient host a with Some f => fail f | None => mret () end.
Definition request (server : Server) (m : Method) (path : list string) (token : option string) (body : option Json) : HttpRequest :=
  mkRequest server m path [] token None (JsonBody <$> body).
Definition mailbox_path (address : string) (rest : list string) : list string := ["v1"; "mailboxes"; address] ++ rest.

Definition new_salt : Push string := b ← op (Roll 16); mret (hex b).
(** A publisher token for the address, answered once. *)
Definition registered (server : Server) (address : string) (registration_token : option string) (a : Answer) : result Failure string :=
  let host := sv_host server in
  match transient host a with
  | Some f => Err f
  | None =>
      if (an_status a =? 200) || (an_status a =? 201) then
        match as_str (json_get "publisher_token" (an_body a)) with
        | Some t => if not_empty t then Ok t
                    else Err (Final (host +:+ " did not answer with a publisher token; is it a rules server?"))
        | None => Err (Final (host +:+ " did not answer with a publisher token; is it a rules server?"))
        end
      else if an_status a =? 409 then
        Err (Final (address +:+ " is already registered on " +:+ host +:+ ". If this Mac registered it before and lost its token, the server's operator can forget it (kaluta-rules forget-mailbox), and then you can publish again."))
      else if an_status a =? 401 then
        Err (Final (match registration_token with
                    | Some _ => host +:+ " did not accept that registration token."
                    | None => host +:+ " asks for its registration token to add a mailbox; its operator has it."
                    end))
      else if (an_status a =? 404) || (an_status a =? 405) then Err (Final (host +:+ " does not look like a rules server."))
      else Err (Final (host +:+ " did not add the mailbox: " +:+ says a))
  end.
Definition register_request (server : Server) (address : string) (bearer : option string) : HttpRequest :=
  request server POST ["v1"; "mailboxes"] bearer (Some (obj [("address", JString address)])).
Definition rules_register (server : Server) (address : string) (registration_token : option string) : Push string :=
  let bearer := t ← registration_token; let t := trim t in if not_empty t then Some t else None in
  a ← send (register_request server address bearer);
  ask (registered server address registration_token a).
(** A new token and salt, for a token lost or a mailbox forgotten. *)
Definition rules_register_again (account : string) (server : Server) (address key : string) : Push (string * string) :=
  token ← rules_register server address None;
  r ← op (SetSecret key token);
  _ ← core r;
  salt ← new_salt;
  r ← op (UpdateRecord account (λ r, without_content (with_salt salt r)));
  _ ← core r;
  mret (token, salt).

(** ** Keys *)

(** The private key read back; as for a snapshot key, 32 bytes. *)
Definition rules_app_key (account : string) (create : bool) : Push (option Bytes) :=
  r ← op (GetSecret (report_key_key account));
  stored ← core r;
  match stored ≫= λ s, ok (from_base64 s) with
  | Some key => mret (Some key)
  | None =>
      if create then
        key ← op (Roll KEY_LEN);
        r ← op (SetSecret (report_key_key account) (b64 key));
        _ ← core r;
        mret (Some key)
      else mret None
  end.
Definition stored_key (key_id : string) (key : Bytes) : Json := JObject [("key_id", JString key_id); ("key", JString (b64 key))].
Definition read_stored_key (text : string) : option (Bytes * string) :=
  v ← json_strict text; f ← open_fields [field "key_id"; field "key"] v;
  id ← required as_str f "key_id"; k ← required as_str f "key"; key ← ok (from_base64 k); Some (key, id).
Definition rules_snapshot_key (account : string) : Push (option (Bytes * string)) :=
  r ← op (GetSecret (snapshot_key_key account)); stored ← core r; mret (stored ≫= read_stored_key).

Record Sealing := mkSealing { se_app : Bytes; se_key : Bytes; se_key_id : string; se_wraps : list KeyWrap }.
Definition sealed_json (s : Sealing) (nonce : Bytes) (snapshot : Snapshot) : Json :=
  let address := mx_address (sn_mailbox snapshot) in
  let version := Guide.sn_version snapshot in
  let sealed := seal_snapshot lowercase (se_key s) nonce (se_key_id s) address version SCHEMA_VERSION (snapshot_text snapshot) in
  JObject
    [("encryption", json_int ENCRYPTION_VERSION); ("key_id", JString (se_key_id s)); ("version", json_int version);
     ("published_at", json_int (Guide.sn_published_at snapshot)); ("schema_version", json_int SCHEMA_VERSION);
     ("address", JString address); ("ciphertext", JString (b64 sealed)); ("app_key", JString (b64 (x25519_public (se_app s))));
     ("wraps", JArray ((λ w, JObject [("agent_id", JString (kw_agent_id w)); ("wrap", JString (kw_wrap w))]) <$> se_wraps s))].
Definition sealed_body (s : Sealing) (nonce : Bytes) (snapshot : Snapshot) : string := json_string (sealed_json s nonce snapshot).

Definition is_null (v : Json) : bool := match v with JNull => true | _ => false end.
Definition is_true (v : Json) : bool := match v with JBool true => true | _ => false end.
(** A wrap for an agent whose key opens. *)
Definition wrap_for (app key nonce : Bytes) (key_id : string) (a : Json) : option KeyWrap :=
  id ← as_str (json_get "id" a);
  text ← as_str (json_get "agent_key" a);
  sealed ← ok (unb64 text);
  agent ← ok (open_agent_key app sealed id);
  Some (mkKeyWrap id (b64 (wrap_snapshot_key agent nonce key id key_id))).
Definition wraps_for (nonces : nat → Bytes) (app : Bytes) (agents : Json) (key : Bytes) (key_id : string) (only_unreadable : bool) :
    list KeyWrap :=
  match as_array (json_get "agent_tokens" agents) with
  | None => []
  | Some l =>
      omap (λ na, wrap_for app key (nonces na.1) key_id na.2)
        (List.filter (λ na, is_null (json_get "revoked_at" na.2) && negb (only_unreadable && is_true (json_get "readable" na.2)))
           (zip (seq 0 (length l)) l))
  end.
Definition agents_request (server : Server) (address token : string) : HttpRequest :=
  request server GET (mailbox_path address ["agent-tokens"]) (Some token) None.
Definition rules_list_agents (server : Server) (address token : string) : Push Json :=
  a ← send (agents_request server address token);
  _ ← not_transient (sv_host server) a;
  if an_status a =? 200 then mret (an_body a)
  else if (an_status a =? 401) || (an_status a =? 404) then mret (obj [("agent_tokens", JArray [])])
  else fail (Final (sv_host server +:+ " did not list the agents: " +:+ says a)).
(** A fresh key, kept before the push, and its wraps. *)
Definition rules_sealing (account : string) (server : Server) (address token : string) : Push Sealing :=
  app ← rules_app_key account true;
  app ← or_fail (Final "could not make the mailbox's key") app;
  agents ← rules_list_agents server address token;
  key ← op (Roll KEY_LEN);
  id ← op (Roll 8);
  let key_id := hex id in
  nonces ← op RollNonces;
  let wraps := wraps_for nonces app agents key key_id false in
  r ← op (SetSecret (snapshot_key_key account) (json_string (stored_key key_id key)));
  _ ← core r;
  mret (mkSealing app key key_id wraps).

(** ** Pushing *)

Definition ATTEMPTS : nat := 4.
(** What a push carries from one attempt to the next. *)
Record Pushing := mkPushing {
  ps_token : string; ps_salt : string; ps_expected : option Z; ps_version : Z; ps_encrypt : bool;
  ps_sealing : option Sealing; ps_registered_again : bool }.
Record Publication := mkPublication {
  pb_account : string; pb_server : Server; pb_address : string; pb_key : string; pb_plain : Snapshot; pb_content : string }.
Definition wrap64 (z : Z) : Z := ((z + 2 ^ 63) mod 2 ^ 64 - 2 ^ 63)%Z.

(** The body of one attempt. *)
Definition attempt_body (p : Publication) (ps : Pushing) (published_at : Millis) : Push (string * option Sealing) :=
  let snapshot := hashed_snapshot lowercase sha_256 (ps_salt ps) (versioned (ps_version ps) published_at (pb_plain p)) in
  if ps_encrypt ps then
    s ← match ps_sealing ps with
        | Some s => mret s
        | None => rules_sealing (pb_account p) (pb_server p) (pb_address p) (ps_token ps)
        end;
    nonce ← op (Roll NONCE_LEN);
    mret (sealed_body s nonce snapshot, Some s)
  else mret (snapshot_text snapshot, ps_sealing ps).
Definition put_request (p : Publication) (ps : Pushing) (body : string) : HttpRequest :=
  mkRequest (pb_server p) PUT (mailbox_path (pb_address p) ["snapshot"]) [] (Some (ps_token ps)) (ps_expected ps) (Some (TextBody body)).
Definition token_refused (host address : string) : Failure :=
  Final (host +:+ " no longer accepts this Mac's publisher token for " +:+ address +:+ ". The server's operator can forget the mailbox (kaluta-rules forget-mailbox); then publish again.").
(** Another version is current: above it, matching it. *)
Definition above (current : option Z) (ps : Pushing) : Pushing :=
  mkPushing (ps_token ps) (ps_salt ps) current (Z.max (ps_version ps) (wrap64 (default 0%Z current + 1))) (ps_encrypt ps)
    (ps_sealing ps) (ps_registered_again ps).
(** The mailbox registered again, once. *)
Definition register_and_go_on (p : Publication) (ps : Pushing) (status : nat) : Push Pushing :=
  mkTry (r ← run_try (rules_register_again (pb_account p) (pb_server p) (pb_address p) (pb_key p));
         run_try (match r with
                  | Ok (token, salt) => mret (mkPushing token salt None (ps_version ps) (ps_encrypt ps) None true)
                  | Err f => if is_final f && (status =? 401) then fail (token_refused (sv_host (pb_server p)) (pb_address p))
                             else fail f
                  end)).
Definition encrypting (ps : Pushing) : Pushing :=
  mkPushing (ps_token ps) (ps_salt ps) (ps_expected ps) (ps_version ps) true (ps_sealing ps) (ps_registered_again ps).
Definition is_error (code : string) (a : Answer) : bool :=
  match as_str (json_get "error" (an_body a)) with Some e => String.eqb e code | None => false end.
(** What an attempt's answer comes to: done, or another attempt. *)
Definition after_answer (p : Publication) (ps : Pushing) (published_at : Millis) (a : Answer) : Push (option Pushing) :=
  let host := sv_host (pb_server p) in
  let st := an_status a in
  if (st =? 200) || (st =? 201) then
    r ← op (UpdateRecord (pb_account p)
              (took (ps_version ps) published_at (pb_content p) (ps_salt ps) (ps_encrypt ps) (se_key_id <$> ps_sealing ps)));
    _ ← core r;
    mret None
  else if (st =? 409) || (st =? 412) || (st =? 428) then
    mret (Some (above (as_i64 (json_get "current_version" (an_body a))) ps))
  else if ((st =? 404) || (st =? 401)) && negb (ps_registered_again ps) then ps ← register_and_go_on p ps st; mret (Some ps)
  else if st =? 401 then fail (token_refused host (pb_address p))
  else if st =? 422 then
    if negb (ps_encrypt ps) && is_error "encryption_required" a then
      r ← op (UpdateRecord (pb_account p) (with_encrypt true));
      _ ← core r;
      mret (Some (encrypting ps))
    else if ps_encrypt ps && (contains "schema_version" (says a) || contains "not a snapshot" (says a)) then
      fail (Final (host +:+ " runs an older kaluta-rules that cannot keep the guide encrypted. Its operator can update it; or stop publishing and publish again with encryption off."))
    else fail (Final (host +:+ " refused the snapshot: " +:+ says a))
  else fail (Final (host +:+ " did not take the snapshot: " +:+ says a)).
Definition with_sealing (s : option Sealing) (ps : Pushing) : Pushing :=
  mkPushing (ps_token ps) (ps_salt ps) (ps_expected ps) (ps_version ps) (ps_encrypt ps) s (ps_registered_again ps).
Definition attempt (p : Publication) (ps : Pushing) : Push (option Pushing) :=
  published_at ← op Now;
  '(body, sealing) ← attempt_body p ps published_at;
  let ps := with_sealing sealing ps in
  a ← send (put_request p ps body);
  _ ← not_transient (sv_host (pb_server p)) a;
  after_answer p ps published_at a.
Fixpoint attempts (n : nat) (p : Publication) (ps : Pushing) : Push bool :=
  match n with
  | 0 => fail (Final (sv_host (pb_server p) +:+ " kept refusing the snapshot's version; try Publish Now"))
  | S n => next ← attempt p ps; match next with Some ps => attempts n p ps | None => mret true end
  end.
Definition push_enabled (account : string) (force : bool) (record : PublishRecord) : Push bool :=
  server ← core (parse_server (pr_server_url record));
  r ← op (ReadSource account);
  source ← core r;
  let plain := (rules_snapshot source).1 in
  let address := mx_address (sn_mailbox plain) in
  let content := digest plain in
  let migrating := encrypts record && negb (has (pr_key_id record)) in
  if negb force && negb migrating && negb (has (pr_error record)) && bool_decide (pr_content record = Some content)
  then mret false
  else
    let key := publish_token_key (sv_key server) account in
    r ← op (GetSecret key);
    stored ← core r;
    '(token, salt) ← match stored with
                     | Some t => mret (t, pr_salt record)
                     | None => rules_register_again account server address key
                     end;
    attempts ATTEMPTS (mkPublication account server address key plain content)
      (mkPushing token salt (if (0 <? pr_last_version record)%Z then Some (pr_last_version record) else None)
         (wrap64 (pr_last_version record + 1)) (encrypts record) None false).
Definition rules_push_locked (account : string) (force : bool) : Push bool :=
  record ← op (ReadRecord account);
  match record with
  | Some record => if pr_enabled record && negb (pr_sample record) then push_enabled account force record else mret false
  | None => mret false
  end.
(** A push and what it came to, kept for Settings. *)
Definition rules_push (account : string) (force : bool) : Prog (result Failure bool) :=
  outcome ← run_try (rules_push_locked account force);
  _ ← match outcome with
      | Ok _ => perform (SetPending account false)
      | Err f =>
          _ ← (if is_final f then perform (SetPending account false) else Ret ());
          _ ← perform (UpdateRecord account (with_error (Some (failure_message f))));
          Ret ()
      end;
  _ ← perform (Emit account);
  Ret outcome.

(** ** Managing agents *)

(** The programs the app calls: their errors are the app's. *)
#[local] Abbreviation Call := (Try CoreError).
Definition pushed {A} (p : Push A) : Call A := map_fail failure_error p.
Definition checked {A} (r : CoreResult A) : Call A := ask r.
Definition invalid_input {A} (m : string) : Call A := fail (mkCoreError InvalidInput m).
(** The record of a publication that is not for show. *)
Definition published_record (account : string) : Call PublishRecord :=
  record ← op (ReadRecord account);
  or_fail (mkCoreError InvalidInput "this mailbox does not publish to a rules server; publish it first")
    (r ← record; if pr_sample r then None else Some r).
Definition meta_or_err (account : string) : Call AgentMeta :=
  m ← op (ReadMeta account); or_fail (mkCoreError NotFound "not an agent mailbox") m.
(** What a management call's answer comes to. *)
Definition managed (host address : string) (a : Answer) : CoreResult Json :=
  match transient host a with
  | Some f => Err (failure_error f)
  | None =>
      if (200 <=? an_status a) && (an_status a <=? 299) then Ok (an_body a)
      else if an_status a =? 401 then
        Err (mkCoreError InvalidInput (host +:+ " does not accept this Mac's publisher token for " +:+ address +:+ ": it may have forgotten the mailbox, which Publish Now registers again; if not, its operator can forget it (kaluta-rules forget-mailbox), and then publish again."))
      else if (an_status a =? 404) && is_error "not_registered" a then
        Err (mkCoreError InvalidInput (host +:+ " has forgotten " +:+ address +:+ "; Publish Now registers it again"))
      else if (an_status a =? 404) && is_error "not_found" a then
        Err (mkCoreError NotFound (host +:+ " has no such agent for " +:+ address))
      else if (an_status a =? 404) || (an_status a =? 405) then
        Err (mkCoreError InvalidInput (host +:+ " does not offer this; it may run an older kaluta-rules"))
      else Err (mkCoreError InvalidInput (host +:+ ": " +:+ says a))
  end.
Definition rules_manage (account : string) (m : Method) (segments : list string) (body : option Json) : Call Json :=
  record ← published_record account;
  server ← checked (parse_server (pr_server_url record));
  meta ← meta_or_err account;
  r ← op (GetSecret (publish_token_key (sv_key server) account));
  stored ← checked r;
  token ← or_fail (mkCoreError InvalidInput ("this Mac has lost its publisher token for " +:+ sv_host server +:+ "; Publish Now registers again")) stored;
  a ← pushed (send (request server m (mailbox_path (am_address meta) segments) (Some token) body));
  checked (managed (sv_host server) (am_address meta) a).

(** The newest key wrapped for agents that connected since: how many. *)
Definition stored_of (a : Answer) : nat :=
  match json_get "stored" (an_body a) with JNumber t => Z.to_nat (default 0%Z (parse_u64 t)) | _ => 0 end.
Definition keys_request (server : Server) (address token key_id : string) (wraps : list KeyWrap) : HttpRequest :=
  request server POST (mailbox_path address ["snapshot"; "keys"]) (Some token)
    (Some (obj [("key_id", JString key_id);
                ("wraps", JArray ((λ w, obj [("agent_id", JString (kw_agent_id w)); ("wrap", JString (kw_wrap w))]) <$> wraps))])).
Definition wrap_now (server : Server) (address token key_id : string) (wraps : list KeyWrap) : Push nat :=
  a ← send (keys_request server address token key_id wraps);
  _ ← not_transient (sv_host server) a;
  if an_status a =? 200 then mret (stored_of a)
  else if an_status a =? 404 then mret 0
  else fail (Final (sv_host server +:+ " did not take the keys: " +:+ says a)).
Definition meta_or_final (account : string) : Push AgentMeta :=
  map_fail from_core (meta_or_err account).
(** What is to be wrapped with, if the app has it all. *)
Definition wrapping (account : string) : Push (option (PublishRecord * string * Bytes * Bytes)) :=
  record ← op (ReadRecord account);
  match record with
  | Some record =>
      if negb (pr_enabled record) || pr_sample record then mret None else
      match pr_key_id record with
      | None => mret None
      | Some key_id =>
          kept ← rules_snapshot_key account;
          match kept with
          | None => mret None
          | Some (key, kept_id) =>
              app ← rules_app_key account false;
              mret (match app with
                    | Some app => if String.eqb kept_id key_id then Some (record, key_id, key, app) else None
                    | None => None
                    end)
          end
      end
  | None => mret None
  end.
Definition rules_rewrap (account : string) : Push nat :=
  w ← wrapping account;
  match w with
  | None => mret 0
  | Some (record, key_id, key, app) =>
      server ← core (parse_server (pr_server_url record));
      meta ← meta_or_final account;
      r ← op (GetSecret (publish_token_key (sv_key server) account));
      token ← core r;
      match token with
      | None => mret 0
      | Some token =>
          agents ← rules_list_agents server (am_address meta) token;
          if negb (bool_decide (as_str (json_get "key_id" agents) = Some key_id)) then mret 0 else
          nonces ← op RollNonces;
          match wraps_for nonces app agents key key_id true with
          | [] => mret 0
          | wraps => wrap_now server (am_address meta) token key_id wraps
          end
      end
  end.

Definition millis (v : Json) : option Millis := s ← as_str v; parse_rfc3339 s.
Definition name_arg (name : string) : Json := obj [("name", JString name)].
Definition rules_connect_code_mint (account name : string) : Call (string * string * Millis) :=
  name ← checked (agent_name name);
  a ← rules_manage account POST ["connect-codes"] (Some (name_arg name));
  or_fail (mkCoreError Network "the rules server did not answer with a connect code")
    (code ← as_str (json_get "code" a);
     if not_empty code then t ← millis (json_get "expires_at" a); Some (code, default name (as_str (json_get "name" a)), t) else None).
Definition rules_agent_token_mint (account name : string) : Call (string * string * string) :=
  name ← checked (agent_name name);
  a ← rules_manage account POST ["agent-tokens"] (Some (name_arg name));
  _ ← lift (run_try (rules_rewrap account));
  or_fail (mkCoreError Network "the rules server did not answer with a token")
    (id ← as_str (json_get "id" a); t ← as_str (json_get "token" a);
     if not_empty t then Some (id, default name (as_str (json_get "name" a)), t) else None).
Inductive RulesAgentKind := AgentToken | Connector.
Record RulesAgent := mkRulesAgent {
  ra_id : string; ra_name : string; ra_kind : RulesAgentKind; ra_client_name : option string; ra_created_at : Millis;
  ra_revoked_at : option Millis; ra_last_used_at : option Millis }.
Definition rules_agent (v : Json) : option RulesAgent :=
  id ← as_str (json_get "id" v); name ← as_str (json_get "name" v); created ← millis (json_get "created_at" v);
  Some (mkRulesAgent id name (if bool_decide (as_str (json_get "kind" v) = Some "oauth") then Connector else AgentToken)
          (as_str (json_get "client_name" v)) created (millis (json_get "revoked_at" v)) (millis (json_get "last_used_at" v))).
(** Whether an agent waits for the newest key: it is wrapped in the
    background. *)
Definition rewrap_waits (agents : Json) : bool :=
  match as_array (json_get "agent_tokens" agents) with
  | Some l => List.existsb (λ a, is_null (json_get "revoked_at" a) && has (as_str (json_get "agent_key" a)) &&
                                 match json_get "readable" a with JBool false => true | _ => false end) l
  | None => false
  end.
Definition rules_agents (account : string) : Call (list RulesAgent) :=
  a ← rules_manage account GET ["agent-tokens"] None;
  _ ← (if rewrap_waits a then op (RewrapSoon account) else mret ());
  mret (omap rules_agent (default [] (as_array (json_get "agent_tokens" a)))).
Definition rules_agent_revoke (account agent : string) : Call () :=
  _ ← check_that (not_empty agent && bytes_all is_hex_digit agent) (mkCoreError InvalidInput "not an agent id");
  _ ← rules_manage account DELETE ["agent-tokens"; agent] None;
  mret ().

(** ** Starting and stopping *)

Definition token_key_of (url account : string) : option string :=
  (λ s, publish_token_key (sv_key s) account) <$> ok (parse_server url).
(** A new registration: its record. *)
Definition register_new (account : string) (server : Server) (address key : string) (registration_token : option string)
    (existing : option PublishRecord) (encrypt : bool) : Call PublishRecord :=
  token ← pushed (rules_register server address registration_token);
  r ← op (SetSecret key token);
  _ ← checked r;
  let elsewhere := r ← existing; if String.eqb (pr_server_url r) (sv_url server) then None else token_key_of (pr_server_url r) account in
  _ ← match elsewhere with
      | Some old => lift (perform (DeleteSecret old))
      | None => mret (Ok ())
      end;
  salt ← pushed new_salt;
  let last := match existing with
              | Some r => if String.eqb (pr_server_url r) (sv_url server) then pr_last_version r else 0%Z
              | None => 0%Z
              end in
  mret (mkRecord (sv_url server) true salt last None None None false (Some encrypt) None 0).
Definition restarted (encrypt : bool) (r : PublishRecord) : PublishRecord :=
  mkRecord (pr_server_url r) true (pr_salt r) (pr_last_version r) (pr_published_at r) (pr_error r) (pr_content r)
    (pr_sample r) (Some encrypt) (pr_key_id r) 0.
Record RulesPublication := mkStatus {
  rs_server_url : string; rs_enabled : bool; rs_version : option Z; rs_published_at : option Millis; rs_error : option string;
  rs_pending : bool; rs_encrypted : bool; rs_unreadable : Z }.
Definition rules_status (account : string) : Prog (option RulesPublication) :=
  record ← perform (ReadRecord account);
  match record with
  | None => Ret None
  | Some r =>
      pending ← perform (IsPending account);
      failing ← perform (FailingReports account);
      Ret (Some (mkStatus (pr_server_url r) (pr_enabled r) (if (0 <? pr_last_version r)%Z then Some (pr_last_version r) else None)
        (pr_published_at r) (pr_error r) (pr_enabled r && pending) (has (pr_key_id r))
        (Z.min (2 ^ 32 - 1) (pr_unreadable_reports r + Z.of_nat failing))))
  end.
Definition status_or_gone (account : string) : Call RulesPublication :=
  s ← lift (rules_status account); or_fail (mkCoreError Internal "the record is gone") s.
Definition rules_publish_start (account server_url : string) (registration_token : option string) (encrypt : bool) :
    Call RulesPublication :=
  headless ← op IsHeadless;
  _ ← check_that (negb headless) (mkCoreError PermissionDenied "Kaluta publishes; open it");
  meta ← meta_or_err account;
  server ← checked (parse_server server_url);
  existing ← op (ReadRecord account);
  _ ← match existing with
      | Some r =>
          check_that (negb (pr_enabled r && negb (String.eqb (pr_server_url r) (sv_url server))))
            (mkCoreError InvalidInput ("this mailbox publishes to " +:+ pr_server_url r +:+ " already; stop publishing there first"))
      | None => mret ()
      end;
  let key := publish_token_key (sv_key server) account in
  r ← op (GetSecret key);
  stored ← checked r;
  record ← match existing, stored with
           | Some r, Some _ => if String.eqb (pr_server_url r) (sv_url server) then mret (restarted encrypt r)
                               else register_new account server (am_address meta) key registration_token existing encrypt
           | _, _ => register_new account server (am_address meta) key registration_token existing encrypt
           end;
  r ← op (WriteRecord account record);
  _ ← checked r;
  _ ← lift (rules_push account true);
  status_or_gone account.
(** The server's side of leaving it: the mailbox gone there, or why not. *)
Definition removed (server : Server) (address : string) (a : Answer) : CoreResult () :=
  if an_status a =? 401 then
    Err (mkCoreError InvalidInput (sv_host server +:+ " does not accept this Mac's publisher token for " +:+ address +:+ ": it may have forgotten the mailbox already. Stop publishing without removing it, or ask the server's operator to forget it (kaluta-rules forget-mailbox)."))
  else if negb ((an_status a =? 200) || (an_status a =? 204) || (an_status a =? 404)) then
    Err (mkCoreError Network (sv_host server +:+ " did not remove the mailbox: " +:+ says a))
  else Ok ().
Definition rules_forget_keys (account : string) : Prog () :=
  _ ← perform (DeleteSecret (snapshot_key_key account)); _ ← perform (DeleteSecret (report_key_key account)); Ret ().
Definition rules_publish_stop (account : string) (remove_from_server : bool) : Call () :=
  record ← op (ReadRecord account);
  match record with
  | None => mret ()
  | Some record =>
      if negb remove_from_server then
        r ← op (UpdateRecord account (with_enabled false));
        _ ← checked r;
        _ ← op (SetPending account false);
        _ ← op (Emit account); mret ()
      else
        server ← checked (parse_server (pr_server_url record));
        meta ← meta_or_err account;
        let key := publish_token_key (sv_key server) account in
        r ← op (GetSecret key);
        stored ← checked r;
        _ ← match stored with
            | Some token =>
                a ← pushed (send (request server DELETE (mailbox_path (am_address meta) []) (Some token) None));
                checked (removed server (am_address meta) a)
            | None => mret ()
            end;
        r ← op (DeleteSecret key);
        _ ← checked r;
        _ ← lift (rules_forget_keys account);
        _ ← op (RemoveRecord account);
        _ ← op (SetPending account false);
        _ ← op (Emit account); mret ()
  end.
(** The mailbox is being removed: asked for, whatever it comes to. *)
Definition rules_forget (account : string) : Prog () :=
  record ← perform (ReadRecord account);
  match (r ← record; if pr_sample r then None else ok (parse_server (pr_server_url r))) with
  | None => Ret ()
  | Some server =>
      let key := publish_token_key (sv_key server) account in
      r ← perform (GetSecret key);
      _ ← match r with
          | Ok (Some token) =>
              meta ← perform (ReadMeta account);
              match meta with
              | Some meta =>
                  _ ← perform (Send (request server DELETE (mailbox_path (am_address meta) []) (Some token) None)); Ret ()
              | None => Ret ()
              end
          | _ => Ret ()
          end;
      _ ← perform (DeleteSecret key);
      _ ← rules_forget_keys account;
      perform (SetPending account false)
  end.

(** ** What a server offers *)

Inductive RulesEncryption := Required | Optional | Unsupported.
Definition encryption_of (host : string) (a : Answer) : CoreResult RulesEncryption :=
  match transient host a with
  | Some f => Err (failure_error f)
  | None =>
      match as_str (json_get "encryption" (an_body a)) with
      | Some s => if an_status a =? 200 then Ok (if String.eqb s "required" then Required else Optional)
                  else if (an_status a =? 404) || (an_status a =? 405) then Ok Unsupported
                  else Err (mkCoreError Network (host +:+ " does not look like a rules server"))
      | None => if (an_status a =? 404) || (an_status a =? 405) then Ok Unsupported
                else Err (mkCoreError Network (host +:+ " does not look like a rules server"))
      end
  end.
Definition rules_server_encryption (server_url : string) : Call RulesEncryption :=
  server ← checked (parse_server server_url);
  a ← pushed (send (request server GET ["v1"; "server"] None None));
  checked (encryption_of (sv_host server) a).
(** The MCP resource the metadata names, if an agent can be sent there. *)
Definition mcp_resource (v : Json) : option string :=
  resource ← as_str (json_get "resource" v);
  base ← (if ends_with "/mcp" resource then Some (before (String.length resource - 4) resource) else None);
  server ← ok (parse_server base);
  if String.eqb (endpoint_text (sv_url server) ["mcp"]) resource then Some resource else None.
(** [trim_end_matches("/mcp")] *)
Fixpoint trim_mcp (fuel : nat) (url : string) : string :=
  match fuel with
  | 0 => url
  | S fuel => if ends_with "/mcp" url then trim_mcp fuel (before (String.length url - 4) url) else url
  end.
Record ConnectInfo := mkConnectInfo { ci_base_url : string; ci_mcp_url : string; ci_oauth : bool }.
Definition connect_info (server : Server) (a : Answer) : ConnectInfo :=
  match (if an_status a =? 200 then mcp_resource (an_body a) else None) with
  | Some url => mkConnectInfo (trim_mcp (String.length url) url) url true
  | None => mkConnectInfo (sv_url server) (endpoint_text (sv_url server) ["mcp"]) false
  end.
Definition rules_connect_info (account : string) : Call ConnectInfo :=
  record ← published_record account;
  server ← checked (parse_server (pr_server_url record));
  a ← pushed (send (request server GET [".well-known"; "oauth-protected-resource"] None None));
  match transient (sv_host server) a with
  | Some f => fail (failure_error f)
  | None => mret (connect_info server a)
  end.
End programs.
End Publisher.
