(* ===== verification/RulesVersions.v ===== *)
(** * RulesVersions: what a push sends, whatever the server answers

    Every snapshot sent is above every version the app knows of, and sealed
    while the mailbox is encrypted; the record says a version was published
    only when the server took it. *)

From Stdlib Require Import Ascii.
From S2P Require Import Prelude.
From S2P Require Import Domain.
From S2P Require Import Text.
From S2P Require Import Json.
From S2P Require Import Guide.
From S2P Require Import Facade.
From S2P Require Import Agents.
From S2P Require Import RulesTokens.
From S2P Require Import RulesDb.
From S2P Require Import RulesCrypto.
From S2P Require Import RulesPublish.
From S2P Require Import RulesOAuth.
From S2P Require Import RulesApp.
From S2P Require Import CloudReports.
From S2P Require Import RulesPush.
From S2P Require Import Effects.
Import App.
Import Publisher.

Section versions.
Context `{Crypto} `{RulesText} `{Web} `{AppText}.
#[local] Abbreviation Done := (Performed answer).

(** ** What was done so far *)

(** The record the push began with. *)
Fixpoint record_read (past : list Done) : option PublishRecord :=
  match past with
  | [] => None
  | Did (ReadRecord _) r :: [] => r
  | _ :: past => record_read past
  end.
(** A version the app knows of: its record's, or one a refused push was
    told is current. *)
Definition refused (a : Answer) : bool := let st := an_status a in (st =? 409) || (st =? 412) || (st =? 428).
Definition told_version (d : Done) : option Z :=
  match d with
  | Did (Send rq) (Ok a) =>
      match rq_method rq with PUT => if refused a then as_i64 (json_get "current_version" (an_body a)) else None | _ => None end
  | _ => None
  end.
Definition knows_version (past : list Done) (v : Z) : Prop :=
  (∃ r, record_read past = Some r ∧ pr_last_version r = v) ∨ ∃ d, d ∈ past ∧ told_version d = Some v.
(** Encryption on: in the record, or asked for by the server. *)
Definition turned_on (d : Done) : Prop := match d with Did (UpdateRecord _ f) _ => ∀ r, pr_encrypt (f r) = Some true | _ => False end.
Definition encrypting_since (past : list Done) : Prop :=
  (∃ r, record_read past = Some r ∧ encrypts r = true) ∨ ∃ d, d ∈ past ∧ turned_on d.

(** ** What may be sent *)

(** A snapshot above what is known, sealed when it must be. *)
Definition carries (past : list Done) (rq : HttpRequest) (s : Snapshot) : Prop :=
  (rq_body rq = Some (TextBody (snapshot_text s)) ∧ ¬ encrypting_since past) ∨
  ∃ sealing nonce, rq_body rq = Some (TextBody (sealed_body sealing nonce s)).
Definition published_of (past : list Done) (v : Z) : Prop :=
  match past with
  | Did (Send rq) (Ok a) :: earlier =>
      rq_method rq = PUT ∧ (an_status a = 200 ∨ an_status a = 201) ∧ ∃ s, Guide.sn_version s = v ∧ carries earlier rq s
  | _ => False
  end.
Definition in_step (past : list Done) (o : Op) : Prop :=
  match o with
  | Send rq =>
      rq_method rq = PUT → ∃ s, carries past rq s ∧ ∀ v, knows_version past v → (v < 2 ^ 63 - 1)%Z → (v < Guide.sn_version s)%Z
  | UpdateRecord _ f => ∀ r, pr_last_version (f r) = pr_last_version r ∨ published_of past (pr_last_version (f r))
  | _ => True
  end.

(** ** Through a push *)

(** A record's version is a 64-bit integer. *)
Definition can_be (o : Op) : answer o → Prop :=
  match o return answer o → Prop with
  | ReadRecord _ => λ a, ∀ r, a = Some r → in_i64 (pr_last_version r)
  | _ => λ _, True
  end.
#[local] Abbreviation step_wp := (wp can_be in_step).
#[local] Abbreviation step_twp := (twp can_be in_step).
Record going (past : list Done) (ps : Pushing) : Prop := {
  go_nonempty : past ≠ [];
  go_version v : knows_version past v → (v < 2 ^ 63 - 1)%Z → (v < ps_version ps)%Z;
  go_encrypt : encrypting_since past → ps_encrypt ps = true }.
Lemma record_read_cons d past : past ≠ [] → record_read (d :: past) = record_read past.
Proof. intros Hne. destruct d as [[] a]; cbn; try done. by destruct past. Qed.
Lemma knows_cons d past v : past ≠ [] → knows_version (d :: past) v → knows_version past v ∨ told_version d = Some v.
Proof.
  intros Hne [(r & Hr & Hv)|(d' & [->|Hd]%elem_of_cons & Ht)].
  - left. left. rewrite record_read_cons in Hr by done. by exists r.
  - by right.
  - left. right. by exists d'.
Qed.
Lemma encrypting_cons d past : past ≠ [] → encrypting_since (d :: past) → encrypting_since past ∨ turned_on d.
Proof.
  intros Hne [(r & Hr & Hv)|(d' & [->|Hd]%elem_of_cons & Ht)].
  - left. left. rewrite record_read_cons in Hr by done. by exists r.
  - by right.
  - left. right. by exists d'.
Qed.
(** An operation that tells and changes nothing of that. *)
Definition quiet (o : Op) : Prop :=
  match o with
  | Send rq => rq_method rq ≠ PUT
  | UpdateRecord _ f => ∀ r, pr_last_version (f r) = pr_last_version r ∧ pr_encrypt (f r) = pr_encrypt r
  | _ => True
  end.
Lemma quiet_in_step o past : quiet o → in_step past o.
Proof. destruct o; cbn; try done. intros Hq r. left. apply Hq. Qed.
Lemma quiet_not_on o a : quiet o → ¬ turned_on (Did o a).
Proof.
  destruct o; cbn; try (by intros _ []). intros Hq Hon. set (r := mkRecord "" true "" 0 None None None false None None 0).
  specialize (Hon r). destruct (Hq r) as [_ Hs]. rewrite Hs in Hon. done.
Qed.
Lemma quiet_tells o a : quiet o → told_version (Did o a) = None.
Proof. destruct o; cbn; try done. intros Hq. destruct a as [a|]; [|done]. by destruct (rq_method rq). Qed.
Lemma going_quiet past ps o a : quiet o → going past ps → going (Did o a :: past) ps.
Proof.
  intros Hq [Hn Hv He]. split; [done| |].
  - intros v Hk. apply Hv. destruct (knows_cons _ _ _ Hn Hk) as [?|Ht]; [done|]. by rewrite (quiet_tells o a Hq) in Ht.
  - intros Ho. apply He. destruct (encrypting_cons _ _ Hn Ho) as [?|Ht]; [done|]. by destruct (quiet_not_on o a Hq Ht).
Qed.
Lemma wp_quiet {A} past ps (p : Eff answer A) : always quiet p → going past ps → step_wp past p (λ past _, going past ps).
Proof.
  revert past. induction p as [a|o k IH]; intros past; cbn; [done|]. intros [Ho Hk] Hg. split; [by apply quiet_in_step|].
  intros a _. apply IH; [apply Hk|by apply going_quiet].
Qed.
Lemma twp_quiet {E A} past ps (p : Try E A) : talways quiet p → going past ps → step_twp past p (λ past _, going past ps).
Proof. intros Hq Hg. eapply wp_mono; [|by eapply wp_quiet]. by intros past' [a|e]. Qed.
Lemma rules_register_quiet server address token : talways quiet (rules_register server address token).
Proof. unfold rules_register, send. by repeat always_step. Qed.
Lemma rules_register_again_quiet account server address key : talways quiet (rules_register_again account server address key).
Proof. unfold rules_register_again, new_salt, core. repeat (always_step || apply rules_register_quiet); done. Qed.
Lemma rules_sealing_quiet account server address token : talways quiet (rules_sealing account server address token).
Proof.
  unfold rules_sealing, rules_app_key, rules_list_agents, send, not_transient, core. by repeat always_step.
Qed.
Lemma going_same past ps ps' :
  ps_version ps' = ps_version ps → ps_encrypt ps' = ps_encrypt ps → going past ps → going past ps'.
Proof. intros Hv He [Hn Hw Hc]. split; [done|by rewrite Hv|by rewrite He]. Qed.

Lemma hashed_version salt s : Guide.sn_version (hashed_snapshot lowercase sha_256 salt s) = Guide.sn_version s.
Proof. unfold hashed_snapshot. by destruct (is_hashed _). Qed.
(** The body of an attempt carries its version. *)
Lemma attempt_body_carries p ps at_ past :
  going past ps →
  step_twp past (attempt_body p ps at_) (λ past bs, going past ps ∧
    ∃ s, Guide.sn_version s = ps_version ps ∧ carries past (put_request p (with_sealing bs.2 ps) bs.1) s).
Proof.
  intros Hg. unfold attempt_body. set (s := hashed_snapshot _ _ _ _).
  assert (Guide.sn_version s = ps_version ps) as Hs by by unfold s; rewrite hashed_version.
  destruct (ps_encrypt ps) eqn:He.
  - apply twp_bind. apply twp_mono with (λ past _, going past ps).
    + intros past' sealing Hg'. op_step; [done|]. intros nonce _. apply twp_ret.
      split; [by apply going_quiet|]. exists s. split; [done|]. right. by exists sealing, nonce.
    + destruct (ps_sealing ps) as [sealing|]; [done|]. by apply twp_quiet; [apply rules_sealing_quiet|].
  - apply twp_ret. split; [done|]. exists s. split; [done|]. left. split; [done|]. intros Ho. by rewrite (go_encrypt _ _ Hg Ho) in He.
Qed.

(** A refusal tells a version, and the next attempt is above it. *)
Lemma as_i64_range v z : as_i64 v = Some z → in_i64 z.
Proof.
  destruct v as [| |t| | |]; try done. cbn. unfold parse_i64, in_i64.
  destruct (strip_prefix "-" t); (destruct (parse_N _) as [n|]; [|done]); cbn; case_match eqn:E; try done; intros [= <-];
    [apply Z.leb_le in E|apply Z.ltb_lt in E]; lia.
Qed.
Lemma wrap64_next c : in_i64 c → (c < 2 ^ 63 - 1)%Z → wrap64 (c + 1) = (c + 1)%Z.
Proof. unfold in_i64, wrap64. intros ??. rewrite Z.mod_small by lia. lia. Qed.
Lemma going_above past ps rq a :
  rq_method rq = PUT → refused a = true → going past ps →
  going (Did (Send rq) (Ok a) :: past) (above (as_i64 (json_get "current_version" (an_body a))) ps).
Proof.
  intros Hm Hr [Hn Hv He]. split; [done| |].
  - intros v Hk Hlt. cbn [above ps_version]. destruct (knows_cons _ _ _ Hn Hk) as [Hold|Ht]; [specialize (Hv v Hold Hlt); lia|].
    cbn in Ht. rewrite Hm, Hr in Ht. rewrite Ht. cbn [default from_option id]. rewrite wrap64_next; [lia| |done]. by eapply as_i64_range.
  - intros Ho. apply He. by destruct (encrypting_cons _ _ Hn Ho).
Qed.
(** An answer that is no refusal tells none. *)
Lemma going_put past ps rq a : (∀ b, a = Ok b → refused b = false) → going past ps → going (Did (Send rq) a :: past) ps.
Proof.
  intros Hr [Hn Hv He]. split; [done| |].
  - intros v Hk. apply Hv. destruct (knows_cons _ _ _ Hn Hk) as [?|Ht]; [done|]. destruct a as [b|]; [|done]. cbn in Ht.
    rewrite (Hr b eq_refl) in Ht. by destruct (rq_method rq).
  - intros Ho. apply He. by destruct (encrypting_cons _ _ Hn Ho).
Qed.
Lemma going_turned_on past ps acc r : going past ps → going (Did (UpdateRecord acc (with_encrypt true)) r :: past) (encrypting ps).
Proof. intros [Hn Hv He]. split; [done| |done]. intros v Hk. apply Hv. by destruct (knows_cons _ _ _ Hn Hk). Qed.

Lemma after_answer_in_step p ps at_ past a s :
  going past ps → Guide.sn_version s = ps_version ps → carries past (put_request p ps a.1) s →
  step_twp (Did (Send (put_request p ps a.1)) (Ok a.2) :: past) (after_answer p ps at_ a.2)
    (λ past next, match next with Some ps => going past ps | None => True end).
Proof.
  intros Hg Hs Hc. destruct a as [body a]. cbn [fst snd] in *. unfold after_answer.
  destruct ((an_status a =? 200) || (an_status a =? 201)) eqn:E1.
  { op_step.
    - intros r. right. cbn. split; [done|]. split; [|by exists s]. apply orb_true_iff in E1 as [?%Nat.eqb_eq|?%Nat.eqb_eq]; auto.
    - intros u _. apply twp_bind, twp_ask. intros [] _. by apply twp_ret. }
  destruct (refused a) eqn:Er; unfold refused in Er; cbn zeta in Er; rewrite Er.
  { apply twp_ret. by apply going_above. }
  assert (going (Did (Send (put_request p ps body)) (Ok a) :: past) ps) as Hg' by (apply going_put; [by intros b [= <-]|done]).
  destruct (_ && _).
  { apply twp_bind. apply twp_mono with (λ past ps, going past ps); [done|]. unfold register_and_go_on. apply wp_bind.
    eapply wp_mono; [|eapply wp_quiet; [apply rules_register_again_quiet|exact Hg']].
    intros past' [[token salt]|f] Hp; [by apply (going_same past' ps)|]. by destruct (_ && _). }
  destruct (_ =? 401); [done|]. destruct (_ =? 422); [|done]. destruct (negb _ && _).
  { op_step; [by left|]. intros u _. apply twp_bind, twp_ask. intros [] _. apply twp_ret. by apply going_turned_on. }
  by destruct (_ && _).
Qed.
Lemma attempt_in_step p ps past :
  going past ps → step_twp past (attempt p ps) (λ past next, match next with Some ps => going past ps | None => True end).
Proof.
  intros Hg. unfold attempt. op_step; [done|]. intros at_ _. apply twp_bind.
  eapply twp_mono; [|apply attempt_body_carries; by apply going_quiet]. intros past' [body sealing] (Hg' & s & Hs & Hc).
  cbn [fst snd] in Hc. unfold send. assert (going past' (with_sealing sealing ps)) as Hg2 by by apply (going_same past' ps). op_step.
  { cbn. intros _. exists s. split; [done|]. rewrite Hs. apply Hg'. }
  intros a _. apply twp_ask. intros b Hb. destruct a as [a|e]; [|done]. injection Hb as ->.
  apply twp_bind. unfold not_transient. destruct (transient _ _); [done|]. apply twp_ret.
  by eapply (after_answer_in_step p (with_sealing sealing ps) at_ past' (body, b)).
Qed.
Lemma attempts_in_step n p ps past : going past ps → step_twp past (attempts n p ps) (λ _ _, True).
Proof.
  revert past ps. induction n as [|n IH]; intros past ps Hg; [done|]. cbn [attempts]. apply twp_bind.
  eapply twp_mono; [|by apply attempt_in_step]. intros past' [ps'|] Hn; [by apply IH|done].
Qed.
Lemma going_started account record :
  in_i64 (pr_last_version record) →
  going [Did (ReadRecord account) (Some record)]
    (mkPushing "" "" None (wrap64 (pr_last_version record + 1)) (encrypts record) None false).
Proof.
  intros Hr. split; [done| |].
  - intros v [(r & [= <-] & <-)|(d & ->%list_elem_of_singleton & Ht)] Hlt; [|done]. cbn [ps_version]. rewrite wrap64_next by done. lia.
  - intros [(r & [= <-] & He)|(d & ->%list_elem_of_singleton & Ht)]; done.
Qed.
End versions.
