(* ===== verification/RulesPull.v ===== *)
(** * RulesPull: cloud agents' reports pulled, and when the app publishes
    ([kaluta-core/src/rules_publish/reports.rs], [encryption.rs],
    [rules_publish.rs])

    Reports read defensively, kept, then acknowledged; the pull as a
    program; and the worker that pushes once changes stop. *)

From Stdlib Require Import Ascii.
From S2P Require Import Prelude.
From S2P Require Import Domain.
From S2P Require Import Text.
From S2P Require Import Json.
From S2P Require Import Guide.
From S2P Require Import Facade.
From S2P Require Import Agents.
From S2P Require Import LocalDb.
From S2P Require Import Search.
From S2P Require Import RulesTokens.
From S2P Require Import RulesDb.
From S2P Require Import RulesCrypto.
From S2P Require Import RulesPublish.
From S2P Require Import RulesOAuth.
From S2P Require Import RulesApp.
From S2P Require Import CloudReports.
From S2P Require Import RulesPush.
From S2P Require Import Effects.
Import App.
Import Publisher.

(** The app's rendering of a report's body ([mail-mime]). *)
Class BodyText := { markdown_to_html : string → string; html_to_text : string → string }.

Module Reports.
Definition PULL_EVERY : Millis := 60000%Z.
Definition PAGE : Z := 200%Z.
Definition MAX_PAGES : nat := 20.
Definition MAX_REPORT_TRIES : nat := 5.
Definition MAX_BODY : nat := 256 * 1024.
Definition MAX_LINE : nat := 998.
Definition MAX_RECIPIENTS : nat := 100.
Definition MAX_CHECKS : nat := 50.
Definition CLOUD_AGENT_PREFIX : string := "cloud:".

(** ** A report from the list *)

Section reading.
Context `{Crypto} `{RulesText} `{BodyText}.

Definition line (s : string) (max : nat) : string :=
  trim (concat_chars (take max (List.filter (λ c, negb (is_control c)) (chars s)))).
(** A cut is at a character when what follows does not continue one. *)
Definition is_char_boundary (n : nat) (s : string) : bool :=
  match String.get n s with Some a => negb (continuation a) | None => true end.
Fixpoint back_to_boundary (n : nat) (s : string) : nat :=
  match n with 0 => 0 | S n' => if is_char_boundary n s then n else back_to_boundary n' s end.
Definition capped (s : string) (max : nat) : string :=
  if String.length s <=? max then s else String.substring 0 (back_to_boundary max s) s.
Definition lines (v : Json) (max_items max : nat) : list string :=
  match as_array v with
  | Some l => take max_items (List.filter not_empty ((λ s, line s max) <$> omap as_str l))
  | None => []
  end.
Definition report_id (v : Json) : option Z := id ← as_i64 (json_get "id" v); if (0 <? id)%Z then Some id else None.
Definition message_id_of (v : Json) : option string :=
  s ← as_str (json_get "message_id" v);
  let m := line (normalize_message_id s) MAX_LINE in
  if not_empty m && negb (any_char is_whitespace m) then Some m else None.
Definition str_or_empty (v : Json) : string := default "" (as_str v).
Definition parse (v : Json) (server : string) : option NewReport :=
  server_id ← report_id v;
  agent_id ← as_str (json_get "agent_id" v);
  received_at ← millis (json_get "received_at" v);
  let name := line (str_or_empty (json_get "agent_name" v)) 100 in
  Some (mkNewReport server server_id (line agent_id 64) (if not_empty name then name else "A cloud agent")
    (if bool_decide (as_str (json_get "agent_kind" v) = Some "oauth") then "oauth" else "token") received_at (message_id_of v)
    (lines (json_get "to" v) MAX_RECIPIENTS MAX_LINE) (line (str_or_empty (json_get "subject" v)) MAX_LINE)
    (millis (json_get "sent_at" v)) (capped (str_or_empty (json_get "body_markdown" v)) MAX_BODY)
    (as_i64 (json_get "checked_version" v)) (as_i64 (json_get "version" (json_get "check" v)))
    (lines (json_get "guide_check" (json_get "check" v)) MAX_CHECKS 500)).

(** [v[key] = x]: an object or null takes it, anything else panics. *)
Definition index_mut (key : string) (x v : Json) : option Json :=
  match v with JObject _ => Some (set_field key x v) | JNull => Some (JObject [(key, x)]) | _ => None end.
Definition taken_fields : list string := ["message_id"; "to"; "subject"; "body_markdown"].
(** The opened fields put in their places; [None] is a panic. *)
Definition put_fields (fields v : Json) : option Json :=
  v ← foldl (λ v k, v ≫= index_mut k (json_get k fields)) (Some v) taken_fields;
  check ← index_mut "guide_check" (json_get "guide_check" fields) (json_get "check" v);
  index_mut "check" check v.
(** Opened, or as it is; [Some None] when it does not open, [None] a panic. *)
Definition opened_report (app : option Bytes) (address : string) (v : Json) : option (option Json) :=
  match as_str (json_get "sealed" v) with
  | None => Some (Some v)
  | Some sealed =>
      match (bytes ← ok (unb64 sealed); app ← app;
             opened ← ok (open_for_app app bytes (report_context lowercase address (str_or_empty (json_get "agent_id" v))));
             json_of opened) with
      | None => Some None
      | Some fields => Some <$> put_fields fields v
      end
  end.

(** ** The composition a report is recorded as *)

Definition kind_of (subject : string) (replying : bool) : CompositionKind :=
  let subject := lowercase (trim subject) in
  if starts_with "fwd:" subject || starts_with "fw:" subject then ForwardMail else if replying then ReplyMail else NewMail.
Definition composition_of (r : NewReport) : ReportedComposition :=
  let html := markdown_to_html (nr_body_markdown r) in
  mkReported (CLOUD_AGENT_PREFIX +:+ nr_agent_name r)
    (kind_of (nr_subject r) (starts_with "re:" (lowercase (trim (nr_subject r)))))
    ((λ a, lowercase (trim a)) <$> nr_to r) (nr_subject r) (trim (html_to_text html)) (Some html) (nr_message_id r)
    (default (nr_received_at r) (nr_sent_at r)).
Definition record_one (now : Millis) (st : CloudDb * nat) (r : NewReport) : CloudDb * nat :=
  let '(c, new) := st in
  let '(c', id) := insert r now c in
  match id with
  | None => st
  | Some id =>
      (if cd_recording c then let '(c2, composition) := record_reported (composition_of r) now c' in set_composition id composition c2
       else c', S new)
  end.
Definition record_reports (reports : list NewReport) (now : Millis) (c : CloudDb) : CloudDb * nat :=
  let '(c, new) := foldl (record_one now) (c, 0) reports in ((match_reports lowercase now c).1, new).

(** ** What Settings lists *)

Inductive CloudReportMatch := MessageId | RecipientAndSubject | WaitingMatch | NotSeen.
Definition matched_of (r : Report) (now : Millis) : CloudReportMatch :=
  match cr_match_method r with
  | Some m => if String.eqb m BY_MESSAGE_ID then MessageId else RecipientAndSubject
  | None => if (NOT_SEEN_AFTER_MS <=? now - cr_received_at r)%Z then NotSeen else WaitingMatch
  end.
Record CloudReportInfo := mkReportInfo {
  ri_id : Z; ri_agent_name : string; ri_agent_kind : RulesAgentKind; ri_to : list string; ri_subject : string; ri_sent_at : Millis;
  ri_guide_check : list string; ri_checked_version : option Z; ri_matched : CloudReportMatch; ri_message_id : option string;
  ri_recorded : bool }.
Definition info (r : Report) (now : Millis) : CloudReportInfo :=
  mkReportInfo (cr_id r) (cr_agent_name r) (if String.eqb (cr_agent_kind r) "oauth" then Connector else AgentToken) (cr_to r)
    (cr_subject r) (report_at r) (cr_guide_check r) (cr_checked_version r) (matched_of r now) (cr_matched_message_id r)
    (bool_decide (is_Some (cr_composition_id r))).
Definition rules_reports (limit : nat) (now : Millis) (c : CloudDb) : list CloudReportInfo := (λ r, info r now) <$> recent limit c.

(** ** What may be acknowledged *)

(** The pulls each report failed, by the server's key and its id (of one
    account). *)
Abbreviation Failures := (gmap (string * Z) nat) (only parsing).
Record Reading := mkReading { rd_failures : Failures; rd_up_to : option Z; rd_given_up : nat; rd_held : bool }.
Definition read_one (server : string) (st : Reading) (r : Z * option NewReport) : Reading :=
  let key := (server, r.1) in
  let '(failures, given_up, held) :=
    match r.2 with
    | Some _ => (delete key (rd_failures st), rd_given_up st, rd_held st)
    | None =>
        let tries := S (default 0 (rd_failures st !! key)) in
        if (MAX_REPORT_TRIES <=? tries) && negb (rd_held st)
        then (delete key (rd_failures st), S (rd_given_up st), rd_held st)
        else (<[key := tries]> (rd_failures st), rd_given_up st, true)
    end in
  mkReading failures (if held then rd_up_to st else Some r.1) given_up held.
Definition acknowledgeable (server : string) (read : list (Z * option NewReport)) (failures : Failures) : Failures * (option Z * nat) :=
  let st := foldl (read_one server) (mkReading failures None 0 false) read in (rd_failures st, (rd_up_to st, rd_given_up st)).

(** ** The list, as the server answered it *)

Definition earlier_id (a b : Z * Json) : Prop := (a.1 ≤ b.1)%Z.
#[export] Instance earlier_id_dec a b : Decision (earlier_id a b).
Proof. unfold earlier_id. apply _. Defined.
#[export] Instance earlier_id_total : Total earlier_id.
Proof. intros a b. unfold earlier_id. lia. Qed.
#[export] Instance earlier_id_trans : Transitive earlier_id.
Proof. intros a b c. unfold earlier_id. lia. Qed.
Definition listed (body : Json) : list (Z * Json) :=
  merge_sort earlier_id (omap (λ v, (λ id, (id, v)) <$> report_id v) (default [] (as_array (json_get "reports" body)))).
(** The server's key for its report ids: its database's epoch too. *)
Definition reports_key (server : Server) (body : Json) : string :=
  match as_str (json_get "epoch" body) with
  | Some e => if not_empty e then sv_url server +:+ "#" +:+ line e 64 else sv_url server
  | None => sv_url server
  end.
(** Each opened and read; [None] when one panics. *)
Definition read_reports (app : option Bytes) (address key : string) (l : list (Z * Json)) : option (list (Z * option NewReport)) :=
  mapM (λ r, (λ v, (r.1, v ≫= λ v, parse v key)) <$> opened_report app address r.2) l.
End reading.

(** ** The pull *)

Section pull.
Context `{Crypto} `{RulesText} `{Web} `{AppText} `{BodyText}.
#[local] Abbreviation Push := (Try Failure).

Definition list_request (server : Server) (address token : string) (after : Z) : HttpRequest :=
  mkRequest server GET (mailbox_path address ["reports"]) [("after", pretty after); ("limit", pretty PAGE)] (Some token) None None.
Definition ack_request (server : Server) (address token : string) (up_to : Z) : HttpRequest :=
  request server POST (mailbox_path address ["reports"; "ack"]) (Some token) (Some (obj [("up_to_id", json_int up_to)])).
(** The list asked for: its answer, or how many were new when the server
    has none to give. *)
Definition list_answer (host : string) (a : Answer) : result Failure bool :=
  match transient host a with
  | Some f => Err f
  | None =>
      if an_status a =? 200 then Ok true
      else if (an_status a =? 404) || (an_status a =? 405) then Ok false
      else if an_status a =? 401 then Err (Final (host +:+ " no longer accepts this Mac's publisher token"))
      else Err (Final (host +:+ " did not give the reports: " +:+ says a))
  end.
Definition acknowledge (server : Server) (address token : string) (up_to : Z) : Push () :=
  a ← send (ack_request server address token up_to);
  if an_status a =? 200 then mret ()
  else fail (default (Final (sv_host server +:+ " did not take the acknowledgement: " +:+ says a)) (transient (sv_host server) a)).
(** What a page's pull comes to. *)
Inductive Page := NoReports (** the server has none to give *) | Last (new : nat) | More (new : nat) (after : Z).
(** A page: asked for, opened, kept, and then acknowledged. *)
Definition pull_page (account : string) (server : Server) (address token : string) (app : option Bytes) (after : Z) : Push Page :=
  a ← send (list_request server address token after);
  listing ← ask (list_answer (sv_host server) a);
  if negb listing then mret NoReports else
  let key := reports_key server (an_body a) in
  let l := listed (an_body a) in
  match last l with
  | None => mret (Last 0)
  | Some (last_id, _) =>
      match read_reports app address key l with
      | None => void ← op PanicNow; match void : Empty_set with end
      | Some read =>
          now ← op Now;
          r ← op (RecordReports account (omap snd read) now);
          new ← core r;
          '(up_to, given_up) ← op (Acknowledgeable account key read);
          _ ← (if 0 <? given_up
               then r ← op (UpdateRecord account (gave_up (Z.of_nat given_up))); core r
               else mret ());
          _ ← match up_to with Some up_to => acknowledge server address token up_to | None => mret () end;
          mret (if bool_decide (up_to = Some last_id) && is_true (json_get "more" (an_body a)) then More new last_id else Last new)
      end
  end.
(** Up to [MAX_PAGES] pages: how many were new, and whether the pull goes
    on from there. *)
Fixpoint pull_pages (n : nat) (account : string) (server : Server) (address token : string) (app : option Bytes)
    (after : Z) (new : nat) : Push (nat * bool) :=
  match n with
  | 0 => mret (new, true)
  | S n =>
      page ← pull_page account server address token app after;
      match page with
      | NoReports => mret (new, false)
      | Last more => mret (new + more, true)
      | More more after => pull_pages n account server address token app after (new + more)
      end
  end.
Definition rules_pull_reports (account : string) : Push nat :=
  record ← op (ReadRecord account);
  match record with
  | None => mret 0
  | Some record =>
      if negb (pr_enabled record) || pr_sample record then mret 0 else
      server ← core (parse_server (pr_server_url record));
      meta ← meta_or_final account;
      r ← op (GetSecret (publish_token_key (sv_key server) account));
      stored ← core r;
      match stored with
      | None => mret 0
      | Some token =>
          app ← rules_app_key account false;
          '(new, go_on) ← pull_pages MAX_PAGES account server (am_address meta) token app 0 0;
          if negb go_on then mret new else
          _ ← ((if has (pr_key_id record) then _ ← lift (run_try (rules_rewrap account)); mret () else mret ()) : Push ());
          now ← op Now;
          r ← op (MatchReports account now);
          matched ← core r;
          _ ← (if (0 <? new) || matched then op (Emit account) else mret ());
          mret new
      end
  end.
(** After a sync. *)
Definition rules_match_reports (account : string) : Prog () :=
  now ← perform Now;
  r ← perform (MatchReports account now);
  match r with Ok true => perform (Emit account) | _ => Ret () end.
Definition rules_after_sync (account : string) : Prog () :=
  headless ← perform IsHeadless;
  if (headless : bool) then Ret () else
  record ← perform (ReadRecord account);
  match record with
  | None => Ret ()
  | Some record =>
      if pr_sample record then Ret () else
      due ← (if pr_enabled record then perform (PullDue account) else Ret false);
      if (due : bool) then (_ ← run_try (rules_pull_reports account); Ret ()) else rules_match_reports account
  end.
(** Publish Now. *)
Definition rules_publish_now (account : string) : Try CoreError RulesPublication :=
  record ← op (ReadRecord account);
  if match record with Some r => pr_enabled r | None => false end then
    _ ← lift (rules_push account true);
    _ ← lift (E:=CoreError) (run_try (rules_pull_reports account));
    status_or_gone account
  else fail (mkCoreError InvalidInput "this mailbox does not publish to a rules server").
End pull.
End Reports.
