(* ===== verification/RulesReports.v ===== *)
(** * RulesReports: no report is acknowledged that is not kept

    What is kept of the reports pulled ([record_reports]), how far a page
    may be acknowledged ([acknowledgeable]), and so what a pull may delete
    on the server, whatever the server answers and whatever other tasks do
    to the account's store. *)

From Stdlib Require Import Ascii.
From S2P Require Import Prelude.
From S2P Require Import Domain.
From S2P Require Import Text.
From S2P Require Import Json.
From S2P Require Import Guide.
From S2P Require Import Facade.
From S2P Require Import Agents.
From S2P Require Import LocalDb.
From S2P Require Import Search.
From S2P Require Import RulesTokens.
From S2P Require Import RulesDb.
From S2P Require Import RulesCrypto.
From S2P Require Import RulesPublish.
From S2P Require Import RulesOAuth.
From S2P Require Import RulesApp.
From S2P Require Import CloudReports.
From S2P Require Import RulesPush.
From S2P Require Import RulesPull.
From S2P Require Import Effects.
Import App.
Import Publisher.
Import Reports.

(** ** What is kept *)

Definition report_keys (c : CloudDb) : list (string * Z) := (λ r, (cr_server r, cr_server_id r)) <$> cd_reports c.
Definition new_key (r : NewReport) : string * Z := (nr_server r, nr_server_id r).

Section kept.
Context `{Crypto} `{RulesText} `{BodyText}.

Lemma is_report_key server id c : List.existsb (is_report server id) (cd_reports c) = true ↔ (server, id) ∈ report_keys c.
Proof.
  rewrite List.existsb_exists. unfold report_keys. rewrite list_elem_of_fmap. split.
  - intros (r & Hr & Hk). exists r. apply andb_true_iff in Hk as [->%String.eqb_eq ->%Z.eqb_eq]. by rewrite list_elem_of_In.
  - intros (r & [= -> ->] & Hr). exists r. rewrite <-list_elem_of_In. split; [done|]. unfold is_report. by rewrite String.eqb_refl, Z.eqb_refl.
Qed.
Lemma update_report_keys id f c :
  (∀ r, cr_server (f r) = cr_server r ∧ cr_server_id (f r) = cr_server_id r) → report_keys (update_report id f c) = report_keys c.
Proof.
  intros Hf. unfold report_keys, update_report. cbn. change (@List.map) with (@fmap list _). rewrite <-list_fmap_compose.
  apply list_fmap_ext. intros _ r _. cbn. destruct (cr_id r =? id)%Z; [|done]. by destruct (Hf r) as [-> ->].
Qed.
Lemma insert_keys r now c :
  report_keys (insert r now c).1 = report_keys c ++ (if (insert r now c).2 then [new_key r] else []) ∧
  ((insert r now c).2 = None ↔ new_key r ∈ report_keys c).
Proof.
  unfold insert, new_key. rewrite <-is_report_key. destruct (List.existsb _ _) eqn:E; cbn.
  - rewrite app_nil_r. by split.
  - split; [by unfold report_keys; cbn; rewrite fmap_app|]. naive_solver.
Qed.
Lemma match_keys now c : report_keys (match_reports lowercase now c).1 = report_keys c.
Proof.
  unfold match_reports. set (waiting := merge_sort _ _). generalize (omap cr_matched_message_id (cd_reports c)) (@nil Matched).
  generalize waiting. clear waiting. intros l. revert c. induction l as [|r l IH]; intros c used out; [done|]. cbn [foldl].
  unfold match_one at 2. destruct (found_for lowercase r used (mail (cd_db c))) as [[x m]|]; [|apply IH].
  rewrite IH. unfold pair_composition. destruct (cr_composition_id r), (se_rfc822 x); by rewrite <-(update_report_keys (cr_id r) (with_match (se_gmail_id x) m now) c).
Qed.
(** A report of a page: kept now, or kept before. *)
Lemma record_one_keys now c n r c' n' :
  record_one now (c, n) r = (c', n') →
  (new_key r ∈ report_keys c ∧ c' = c ∧ n' = n) ∨ (new_key r ∉ report_keys c ∧ report_keys c' = report_keys c ++ [new_key r] ∧ n' = S n).
Proof.
  unfold record_one. destruct (insert r now c) as [c1 [id|]] eqn:Ei.
  - destruct (insert_keys r now c) as [Hk Hn]. rewrite Ei in Hk, Hn. cbn in Hk, Hn. intros [= <- <-]. right.
    split; [naive_solver|]. split; [|done]. destruct (cd_recording c); [|done].
    unfold record_reported, set_composition. rewrite update_report_keys by done. exact Hk.
  - destruct (insert_keys r now c) as [_ Hn]. rewrite Ei in Hn. intros [= <- <-]. left. naive_solver.
Qed.
Lemma record_all_keys now reports c n c' n' :
  foldl (record_one now) (c, n) reports = (c', n') →
  ∃ new, report_keys c' = report_keys c ++ new ∧ n' = n + length new ∧ (NoDup (report_keys c) → NoDup (report_keys c')) ∧
         ∀ r, r ∈ reports → new_key r ∈ report_keys c'.
Proof.
  revert c n. induction reports as [|r reports IH]; intros c n; cbn [foldl].
  - intros [= <- <-]. exists []. rewrite app_nil_r. repeat split; [cbn; lia|done|]. by intros r ?%elem_of_nil.
  - destruct (record_one now (c, n) r) as [c1 n1] eqn:E1. intros (new & Hk & Hn & Hd & Hin)%IH.
    assert (new_key r ∈ report_keys c1) as Hr by (destruct (record_one_keys _ _ _ _ _ _ E1) as [(? & -> & _)|(_ & -> & _)]; set_solver).
    assert (∀ r', r' ∈ r :: reports → new_key r' ∈ report_keys c') as Hall.
    { intros r' [->|Hr']%elem_of_cons; [|by apply Hin]. rewrite Hk. set_solver. }
    destruct (record_one_keys _ _ _ _ _ _ E1) as [(_ & -> & ->)|(Hnew & Hk1 & ->)]; [by exists new|].
    exists (new_key r :: new). split; [by rewrite Hk, Hk1, <-app_assoc|]. split; [cbn; lia|]. split; [|done].
    intros Hc. apply Hd. rewrite Hk1. apply NoDup_app. split; [done|]. split; [set_solver|apply NoDup_singleton].
Qed.
End kept.

(** ** How far a page may be acknowledged *)

Definition unread (r : Z * option NewReport) : bool := match r.2 with None => true | Some _ => false end.
Definition tries_of (server : string) (failures : gmap (string * Z) nat) (id : Z) : nat := default 0 (failures !! (server, id)).

Section acknowledging.
Context (server : string) (failures : gmap (string * Z) nat).

(** A page read so far, and its leading run. *)
Definition read_so_far (p : list (Z * option NewReport)) (st : Reading) : Prop :=
  ∃ front rest, p = front ++ rest ∧ rd_up_to st = last front.*1 ∧ rd_given_up st = length (List.filter unread front) ∧
    (rd_held st = false ↔ rest = []) ∧
    (∀ id, id ∉ p.*1 → rd_failures st !! (server, id) = failures !! (server, id)) ∧
    (NoDup p.*1 → ∀ id, (id, None) ∈ front → MAX_REPORT_TRIES ≤ S (tries_of server failures id)) ∧
    match rest with [] => True | r :: _ => unread r = true ∧ (NoDup p.*1 → S (tries_of server failures r.1) < MAX_REPORT_TRIES) end.
Lemma read_one_failures st r id : id ≠ r.1 → rd_failures (read_one server st r) !! (server, id) = rd_failures st !! (server, id).
Proof.
  intros Hne. unfold read_one. destruct (r.2); [|destruct (_ && _)]; cbn; rewrite ?lookup_delete_ne, ?lookup_insert_ne by congruence; done.
Qed.
Lemma read_one_held st r :
  rd_held st = true →
  rd_up_to (read_one server st r) = rd_up_to st ∧ rd_given_up (read_one server st r) = rd_given_up st ∧
  rd_held (read_one server st r) = true.
Proof. intros Eh. unfold read_one. rewrite Eh, andb_false_r. destruct (r.2); cbn; rewrite ?Eh; done. Qed.
Lemma last_id front (r : Z * option NewReport) : last (front ++ [r]).*1 = Some r.1.
Proof. rewrite fmap_app. cbn. by rewrite last_snoc. Qed.
Lemma unread_snoc front r :
  length (List.filter unread (front ++ [r])) = (if unread r then S (length (List.filter unread front)) else length (List.filter unread front)).
Proof. rewrite List.filter_app, length_app. cbn. destruct (unread r); cbn; lia. Qed.
Lemma read_snoc p st r : read_so_far p st → read_so_far (p ++ [r]) (read_one server st r).
Proof.
  intros (front & rest & -> & Hu & Hg & Hh & Hf & Hm & Hr). destruct r as [id rep].
  assert (∀ id', id' ∉ ((front ++ rest) ++ [(id, rep)]).*1 →
            rd_failures (read_one server st (id, rep)) !! (server, id') = failures !! (server, id')) as Hf'.
  { intros id' Hid'. rewrite fmap_app in Hid'. cbn in Hid'. rewrite read_one_failures by set_solver. apply Hf. set_solver. }
  assert (NoDup ((front ++ rest) ++ [(id, rep)]).*1 → NoDup (front ++ rest).*1 ∧ default 0 (rd_failures st !! (server, id)) = tries_of server failures id) as Hnd.
  { rewrite (fmap_app _ (front ++ rest)). intros (Hnd & Hdisj & _)%NoDup_app. split; [done|]. unfold tries_of. rewrite Hf; [done|].
    intros Hin. apply (Hdisj _ Hin). cbn. set_solver. }
  destruct (rd_held st) eqn:Eh.
  - (* held already *)
    exists front, (rest ++ [(id, rep)]). destruct rest as [|r0 rest]; [by destruct Hh as [_ Hh]; discriminate Hh|].
    destruct (read_one_held st (id, rep) Eh) as (-> & -> & ->). rewrite app_assoc.
    split; [done|]. split; [done|]. split; [done|]. split; [by split|]. split; [exact Hf'|].
    split; [intros Hn; apply Hm, Hnd, Hn|]. destruct Hr as [? Hr]. split; [done|]. intros Hn. apply Hr, Hnd, Hn.
  - assert (rest = []) as -> by by apply Hh. rewrite app_nil_r in *.
    assert (MAX_REPORT_TRIES ≤ S (default 0 (rd_failures st !! (server, id))) ∨ S (default 0 (rd_failures st !! (server, id))) < MAX_REPORT_TRIES)
      as Hcase by lia.
    destruct rep as [rep|]; [|destruct Hcase as [Hle|Hlt]].
    + exists (front ++ [(id, Some rep)]), []. rewrite app_nil_r, last_id, unread_snoc. cbn [unread snd].
      assert (read_one server st (id, Some rep) = mkReading (delete (server, id) (rd_failures st)) (Some id) (rd_given_up st) false) as E
        by (unfold read_one; cbn [fst snd]; by rewrite Eh).
      rewrite E in *. cbn [rd_up_to rd_given_up rd_held rd_failures fst] in *.
      split; [done|]. split; [done|]. split; [done|]. split; [done|]. split; [exact Hf'|]. split; [|done].
      intros Hn id' [Hin|Hin%list_elem_of_singleton]%elem_of_app; [|done]. apply Hm; [apply Hnd, Hn|done].
    + exists (front ++ [(id, None)]), []. rewrite app_nil_r, last_id, unread_snoc. cbn [unread snd].
      assert (read_one server st (id, None) =
        mkReading (delete (server, id) (rd_failures st)) (Some id) (S (rd_given_up st)) false) as E.
      { unfold read_one. cbn [fst snd]. rewrite Eh. apply Nat.leb_le in Hle. by rewrite Hle. }
      rewrite E in *. cbn [rd_up_to rd_given_up rd_held rd_failures] in *. split; [done|]. split; [done|]. split; [by rewrite Hg|]. split; [done|]. split; [exact Hf'|].
      split; [|done]. intros Hn id' [Hin|[= ->]%list_elem_of_singleton]%elem_of_app; [apply Hm; [apply Hnd, Hn|done]|].
      destruct (Hnd Hn) as [_ <-]. done.
    + exists front, [(id, None)].
      assert (read_one server st (id, None) =
        mkReading (<[(server, id) := S (default 0 (rd_failures st !! (server, id)))]> (rd_failures st)) (rd_up_to st) (rd_given_up st) true) as E.
      { unfold read_one. cbn [fst snd]. apply Nat.leb_gt in Hlt. rewrite Hlt. done. }
      rewrite E in *. cbn [rd_up_to rd_given_up rd_held rd_failures] in *. split; [done|]. split; [done|]. split; [done|]. split; [done|]. split; [exact Hf'|].
      split; [intros Hn; apply Hm, Hnd, Hn|]. split; [done|]. intros Hn. destruct (Hnd Hn) as [_ Ht]. cbn [fst]. by rewrite <-Ht.
Qed.
Lemma read_page p : read_so_far p (foldl (read_one server) (mkReading failures None 0 false) p).
Proof.
  induction p as [|r p IH] using rev_ind; [|rewrite foldl_app; by apply read_snoc].
  exists [], []. split_and!; try done. intros _ id ?%elem_of_nil. done.
Qed.
End acknowledging.

(** ** What a page reads as *)

Section reading.
Context `{Crypto} `{RulesText} `{BodyText}.

Lemma lookup_insert_field key k x fields : key ≠ k → lookup_field key (insert_field (k, x) fields) = lookup_field key fields.
Proof.
  intros Hne. induction fields as [|[g y] fields IH]; cbn.
  - unfold lookup_field. cbn. assert (String.eqb k key = false) as -> by (apply String.eqb_neq; congruence). done.
  - unfold lookup_field in *. destruct (String.eqb k g) eqn:Eg; [apply String.eqb_eq in Eg as ->|destruct (key_leb k g)]; cbn.
    + assert (String.eqb g key = false) as -> by (apply String.eqb_neq; congruence). done.
    + assert (String.eqb k key = false) as -> by (apply String.eqb_neq; congruence). done.
    + destruct (String.eqb g key); [done|apply IH].
Qed.
Lemma index_mut_get key k x v v' : key ≠ k → index_mut k x v = Some v' → json_get key v' = json_get key v.
Proof.
  intros Hne. destruct v; cbn; try done; intros [= <-]; cbn.
  - unfold lookup_field. cbn. assert (String.eqb k key = false) as -> by (apply String.eqb_neq; congruence). done.
  - by rewrite lookup_insert_field.
Qed.
(** Opening a report leaves its id. *)
Lemma opened_report_id app address v v' : opened_report app address v = Some (Some v') → report_id v' = report_id v.
Proof.
  unfold opened_report. destruct (as_str (json_get "sealed" v)); [|by intros [= <-]].
  destruct (_ ≫= _) as [fields|]; [|done]. intros Hp. unfold put_fields in Hp.
  assert (∀ l (o : option Json), "id" ∉ l → (∀ u, o = Some u → json_get "id" u = json_get "id" v) →
            ∀ u, foldl (λ v k, v ≫= index_mut k (json_get k fields)) o l = Some u → json_get "id" u = json_get "id" v) as Hfold.
  { induction l as [|k l IH]; intros o Hl Ho u; [apply Ho|]. cbn [foldl]. apply IH; [set_solver|]. intros u' Hu'.
    destruct o as [u0|]; [|done]. cbn in Hu'. rewrite <-(Ho u0 eq_refl). eapply index_mut_get; [|exact Hu']. set_solver. }
  destruct (foldl _ (Some v) taken_fields) as [v1|] eqn:E1; [|done]. cbn [mbind option_bind] in Hp.
  assert (json_get "id" v1 = json_get "id" v) as Hid.
  { apply (Hfold taken_fields (Some v)); [unfold taken_fields; set_solver|by intros u [= <-]|exact E1]. }
  destruct (index_mut "guide_check" _ _) as [check|]; [|done]. cbn in Hp.
  destruct (index_mut "check" check v1) as [v2|] eqn:E2; [|done]. injection Hp as <-.
  unfold report_id. by rewrite (index_mut_get "id" "check" check v1 v2), Hid.
Qed.
Lemma parse_key v key r : parse v key = Some r → nr_server r = key ∧ report_id v = Some (nr_server_id r).
Proof.
  unfold parse. intros (id & Hid & Hr)%bind_Some. apply bind_Some in Hr as (agent & _ & Hr). apply bind_Some in Hr as (at_ & _ & Hr).
  by injection Hr as <-.
Qed.
Lemma listed_ids body r : r ∈ listed body → report_id r.2 = Some r.1.
Proof.
  unfold listed. rewrite merge_sort_Permutation, list_elem_of_omap. intros (v & _ & Hv).
  destruct (report_id v) as [id|] eqn:E; [|done]. by injection Hv as <-.
Qed.
Lemma read_reports_keys app address key l read :
  (∀ r, r ∈ l → report_id r.2 = Some r.1) → read_reports app address key l = Some read →
  read.*1 = l.*1 ∧ ∀ id r, (id, Some r) ∈ read → new_key r = (key, id).
Proof.
  unfold read_reports. revert read. induction l as [|[id v] l IH]; intros read Hl; cbn.
  - intros [= <-]. split; [done|]. by intros id r ?%elem_of_nil.
  - intros ([id' rep] & Hrep & Hread)%bind_Some. apply bind_Some in Hread as (read' & Hr & [= <-]).
    destruct (IH read' ltac:(set_solver) Hr) as [Hids Hkeys]. destruct (opened_report app address v) as [o|] eqn:Eo; [|done].
    injection Hrep as <- <-. split; [cbn; by rewrite Hids|]. intros id1 r [[= -> Hp]|Hin]%elem_of_cons; [|by apply Hkeys].
    destruct o as [v'|]; [|done]. cbn in Hp. symmetry in Hp. apply parse_key in Hp as [Hs Hi]. unfold new_key. rewrite Hs.
    specialize (Hl (id, v) ltac:(left)). cbn in Hl. rewrite (opened_report_id _ _ _ _ Eo), Hl in Hi. by injection Hi as ->.
Qed.
Lemma listed_sorted body : StronglySorted earlier_id (listed body).
Proof. apply (StronglySorted_merge_sort earlier_id). Qed.
Lemma front_ids (l1 l2 : list (Z * Json)) (up_to id : Z) :
  StronglySorted earlier_id (l1 ++ l2) → last l1.*1 = Some up_to → id ∈ (l1 ++ l2).*1 → (id ≤ up_to)%Z → id ∈ l1.*1.
Proof.
  intros Hs Hl Hin Hle. rewrite fmap_app, elem_of_app in Hin. destruct Hin as [?|Hin]; [done|].
  apply last_Some_elem_of in Hl. assert (up_to ≤ id)%Z.
  { apply list_elem_of_fmap in Hin as (r2 & -> & Hr2). pose proof Hl as Hl'. apply list_elem_of_fmap in Hl' as (r1 & -> & Hr1).
    by eapply (StronglySorted_app_1_elem_of earlier_id l1 l2 r1 r2). }
  by assert (id = up_to) as -> by lia.
Qed.
End reading.

(** ** A pull, whatever the server answers *)

(** The account's store and the tries, as the pull and other tasks leave
    them.  Besides: the body last listed, and the tries there were, the
    reading they were of, how many were given up on and how many of those
    Settings was told of. *)
Record Mac := mkMac {
  mc_cloud : CloudDb; mc_failures : gmap (string * Z) nat; mc_body : Json; mc_before : gmap (string * Z) nat;
  mc_read : list (Z * option NewReport); mc_given_up : nat; mc_told : Z }.
Definition with_cloud (c : CloudDb) (s : Mac) : Mac :=
  mkMac c (mc_failures s) (mc_body s) (mc_before s) (mc_read s) (mc_given_up s) (mc_told s).
Definition with_body (b : Json) (s : Mac) : Mac :=
  mkMac (mc_cloud s) (mc_failures s) b (mc_before s) (mc_read s) (mc_given_up s) (mc_told s).
Definition tells (n : Z) (s : Mac) : Mac :=
  mkMac (mc_cloud s) (mc_failures s) (mc_body s) (mc_before s) (mc_read s) (mc_given_up s) (mc_told s + n).
(** What a change of the record adds to the reports Settings counts. *)
Definition blank : PublishRecord := mkRecord "" true "" 0 None None None false None None 0.
Definition adds (change : PublishRecord → PublishRecord) : Z := pr_unreadable_reports (change blank).
(** Other tasks keep what is kept. *)
Definition others (s s' : Mac) : Prop := ∃ c, (∀ k, k ∈ report_keys (mc_cloud s) → k ∈ report_keys c) ∧ s' = with_cloud c s.

Section pulling.
Context `{Crypto} `{RulesText} `{Web} `{AppText} `{BodyText}.

Definition does (s : Mac) (o : Op) : answer o → Mac → Prop :=
  match o return answer o → Mac → Prop with
  | RecordReports _ reports now => λ a s', match a with
      | Ok n => ∃ c, record_reports reports now (mc_cloud s) = (c, n) ∧ s' = with_cloud c s
      | Err _ => s' = s
      end
  | MatchReports _ now => λ a s', match a with
      | Ok b => s' = with_cloud (match_reports lowercase now (mc_cloud s)).1 s
      | Err _ => s' = s
      end
  | Acknowledgeable _ server read => λ a s', ∃ f, acknowledgeable server read (mc_failures s) = (f, a) ∧
      s' = mkMac (mc_cloud s) f (mc_body s) (mc_failures s) read a.2 0
  | UpdateRecord _ change => λ a s', match a with Ok _ => s' = tells (adds change) s | Err _ => s' = s end
  | Send rq => λ a s', match a with
      | Ok a => s' = match rq_method rq with GET => with_body (an_body a) s | _ => s end
      | Err _ => s' = s
      end
  | _ => λ _ s', s' = s
  end.
Definition takes (s : Mac) (o : Op) (a : answer o) (s' : Mac) : Prop := ∃ s1, others s s1 ∧ does s1 o a s'.

(** An acknowledgement of what was listed: every report up to it is kept,
    or was tried [MAX_REPORT_TRIES] times and is counted. *)
Definition may_acknowledge (s : Mac) (server : Server) (address : string) (up_to : Z) : Prop :=
  let key := reports_key server (mc_body s) in
  ∃ app, read_reports app address key (listed (mc_body s)) = Some (mc_read s) ∧
    (Z.min (2 ^ 32 - 1) (Z.of_nat (mc_given_up s)) ≤ mc_told s)%Z ∧
    ∃ front rest, mc_read s = front ++ rest ∧ length (List.filter unread front) = mc_given_up s ∧
      (∀ id, id ∈ (listed (mc_body s)).*1 → (id ≤ up_to)%Z → id ∈ front.*1) ∧
      ∀ id rep, (id, rep) ∈ front →
        match rep with
        | Some _ => (key, id) ∈ report_keys (mc_cloud s)
        | None => NoDup (listed (mc_body s)).*1 → MAX_REPORT_TRIES ≤ S (tries_of key (mc_before s) id)
        end.
Definition acknowledges_kept (s : Mac) (o : Op) : Prop :=
  ∀ server address token up_to, o = Send (ack_request server address token up_to) → may_acknowledge s server address up_to.

Definition no_ack (o : Op) : Prop := ∀ server address token up_to, o ≠ Send (ack_request server address token up_to).
Lemma no_ack_fine s o : no_ack o → acknowledges_kept s o.
Proof. intros Hn server address token up_to Ho. by destruct (Hn server address token up_to). Qed.
Lemma no_ack_get rq : rq_method rq ≠ POST → no_ack (Send rq).
Proof. intros Hm server address token up_to [= ->]. by apply Hm. Qed.
Lemma no_ack_other o : (∀ rq, o ≠ Send rq) → no_ack o.
Proof. intros Hn server address token up_to ->. by eapply Hn. Qed.
Lemma rules_app_key_no_ack account create : talways no_ack (rules_app_key account create).
Proof. unfold rules_app_key, core. repeat always_step; by apply no_ack_other. Qed.
Lemma rules_list_agents_no_ack server address token : talways no_ack (rules_list_agents server address token).
Proof. unfold rules_list_agents, send, not_transient. repeat always_step; try by apply no_ack_other. by apply no_ack_get. Qed.
Lemma rules_rewrap_no_ack account : talways no_ack (rules_rewrap account).
Proof.
  unfold rules_rewrap, wrapping, meta_or_final, meta_or_err, rules_snapshot_key, wrap_now, core, send, not_transient.
  repeat (always_step || apply rules_app_key_no_ack || apply rules_list_agents_no_ack); try by apply no_ack_other.
  intros ? ? ? ? [=].
Qed.

#[local] Abbreviation rule := (tswp takes acknowledges_kept).
#[local] Abbreviation ok_after := (λ _ _, True).
#[local] Abbreviation ends := (λ _ : Mac, True).
Lemma ack_request_inj server address token up_to server' address' token' up_to' :
  ack_request server address token up_to = ack_request server' address' token' up_to' → server = server' ∧ address = address' ∧ up_to = up_to'.
Proof. intros [= -> -> _ E]. by apply (inj pretty) in E as ->. Qed.
Lemma acknowledge_rule s server address token up_to :
  may_acknowledge s server address up_to → rule s (acknowledge server address token up_to) ok_after ends.
Proof.
  intros Hm. unfold acknowledge, send. op_step.
  { intros server' address' token' up_to' E. assert (ack_request server address token up_to = ack_request server' address' token' up_to') as Ea by congruence.
    by apply ack_request_inj in Ea as (<- & <- & <-). }
  intros a s' _. apply tswp_ask; [|done]. intros b _. by destruct (_ =? _).
Qed.
(** What the page read may be acknowledged up to, once it is kept. *)
Lemma acknowledgeable_may body told server address app read before c f up_to given :
  read_reports app address (reports_key server body) (listed body) = Some read →
  acknowledgeable (reports_key server body) read before = (f, (Some up_to, given)) →
  (∀ r, r ∈ omap snd read → new_key r ∈ report_keys c) →
  (Z.min (2 ^ 32 - 1) (Z.of_nat given) ≤ told)%Z →
  may_acknowledge (mkMac c f body before read given told) server address up_to.
Proof.
  intros Hr Ha Hc Hg. destruct (read_reports_keys _ _ _ _ _ (listed_ids body) Hr) as [Hids Hkeys].
  destruct (read_page (reports_key server body) before read) as (front & rest & -> & Hu & Hn & _ & _ & Ht & _).
  unfold acknowledgeable in Ha. injection Ha as Hf Hup Hgiven. exists app. cbn. split; [exact Hr|]. split; [exact Hg|].
  exists front, rest. split; [done|]. split; [congruence|]. split.
  - intros id Hin Hle. rewrite Hup in Hu. rewrite fmap_app in Hids. pose proof (listed_sorted body) as Hs.
    assert (front.*1 = (take (length front) (listed body)).*1) as E.
    { rewrite fmap_take, <-Hids. cbn. rewrite take_app_length'; [done|by rewrite length_fmap]. }
    rewrite E. rewrite E in Hu. rewrite <-(take_drop (length front) (listed body)) in Hs, Hin.
    by eapply front_ids.
  - intros id [r|] Hin.
    + rewrite <-(Hkeys id r); [apply Hc, list_elem_of_omap; by exists (id, Some r); split; [set_solver|]|set_solver].
    + intros Hd. apply Ht; [by rewrite Hids|done].
Qed.
Lemma pull_page_rule s account server address token app after :
  rule s (pull_page account server address token app after) ok_after ends.
Proof.
  unfold pull_page, send. op_step; [by apply no_ack_fine, no_ack_get|].
  intros a s0 (s1 & _ & Hdo). apply tswp_ask; [|done]. intros b Hb. destruct a as [a|e]; [|done]. injection Hb as <-.
  cbn in Hdo. subst s0. apply tswp_bind, tswp_ask; [|done]. intros listing _. destruct listing; [|done]. cbn [negb].
  set (s0 := with_body (an_body a) s1). change (an_body a) with (mc_body s0).
  destruct (last (listed (mc_body s0))) as [[last_id v]|]; [|done].
  destruct (read_reports app address (reports_key server (mc_body s0)) (listed (mc_body s0))) as [read|] eqn:Hread;
    [|op_step; [by apply no_ack_fine, no_ack_other|done]].
  op_step; [by apply no_ack_fine, no_ack_other|]. intros now s2 (s2' & (c2 & _ & ->) & ->).
  op_step; [by apply no_ack_fine, no_ack_other|]. intros r s3 (s3' & (c3 & _ & ->) & Hrec).
  apply tswp_bind. unfold core. apply tswp_ask; [|done]. intros new Hnew. destruct r as [n|e]; [|done]. injection Hnew as ->.
  destruct Hrec as (c4 & Hrec & ->).
  assert (∀ r, r ∈ omap snd read → new_key r ∈ report_keys c4) as Hkept.
  { unfold record_reports in Hrec. destruct (foldl _ _ _) as [c5 n5] eqn:Ef. injection Hrec as <- <-.
    destruct (record_all_keys _ _ _ _ _ _ Ef) as (newk & Hk & _ & _ & Hall). intros r Hr. rewrite match_keys. by apply Hall. }
  clear Hrec. op_step; [by apply no_ack_fine, no_ack_other|]. intros [up_to given] s5 (s5' & (c5 & Hc5 & ->) & (f & Hack & ->)).
  cbn [mc_failures with_cloud with_body s0 mc_body mc_cloud] in Hack, Hc5.
  apply tswp_bind. apply tswp_mono with (λ s' _, ∃ c told, (∀ k, k ∈ report_keys c4 → k ∈ report_keys c) ∧
    (Z.min (2 ^ 32 - 1) (Z.of_nat given) ≤ told)%Z ∧ s' = mkMac c f (an_body a) (mc_failures s1) read given told).
  - intros s6 _ (c6 & told & Hc6 & Htold & ->). apply tswp_bind. destruct up_to as [up_to|]; [|done].
    apply (acknowledge_rule _ server address token up_to). by eapply acknowledgeable_may; eauto.
  - destruct given as [|given]; [by exists c5, 0%Z|]. cbn [Nat.ltb Nat.leb].
    op_step; [by apply no_ack_fine, no_ack_other|]. intros u s6 (s6' & (c6 & Hc6 & ->) & Hu).
    apply tswp_ask; [|done]. intros x Hx. destruct u as [u|e]; [|done]. cbn in Hu. subst s6. exists c6, (0 + adds (gave_up (Z.of_nat (S given))))%Z.
    split; [by intros k Hk; apply Hc6, Hc5|]. split; [cbn; lia|done].
Qed.
Lemma pull_pages_rule n s account server address token app after new :
  rule s (pull_pages n account server address token app after new) ok_after ends.
Proof.
  revert s after new. induction n as [|n IH]; intros s after new; [done|]. cbn [pull_pages]. apply tswp_bind.
  eapply tswp_mono; [|apply pull_page_rule]. intros s' [|more|more after'] _; [done|done|apply IH].
Qed.
(** C17. Whatever the rules server answers, and whatever other tasks do to
    the account's store meanwhile: each acknowledgement a pull sends, which
    deletes the reports up to its id on the server, comes when every report
    listed up to that id is in the account's store, or did not open or read
    at [MAX_REPORT_TRIES] (5) pulls and is counted in what Settings shows. *)
Theorem acknowledged_are_kept account s :
  swp takes acknowledges_kept s (run_try (rules_pull_reports account)) (λ _ _, True).
Proof.
  enough (rule s (rules_pull_reports account) ok_after ends) as Hr by (eapply swp_mono; [|exact Hr]; done).
  unfold rules_pull_reports. op_step; [by apply no_ack_fine, no_ack_other|]. intros record s1 _.
  destruct record as [record|]; [|done]. destruct (_ || _); [done|]. unfold core, meta_or_final, meta_or_err.
  apply tswp_bind, tswp_ask; [|done]. intros server _. apply tswp_bind, tswp_map_fail. op_step; [by apply no_ack_fine, no_ack_other|].
  intros meta s2 _. apply tswp_or_fail; [|done]. intros m _. op_step; [by apply no_ack_fine, no_ack_other|]. intros r s3 _.
  apply tswp_bind, tswp_ask; [|done]. intros [token|] _; [|done]. apply tswp_bind.
  eapply tswp_mono; [|eapply (tswp_always no_ack); [intros; by apply no_ack_fine|apply rules_app_key_no_ack]]. intros s4 app _.
  apply tswp_bind. eapply tswp_mono; [|apply pull_pages_rule]. intros s5 [new go_on] _. destruct go_on; [|done]. cbn [negb].
  eapply (tswp_always no_ack); [intros; by apply no_ack_fine|]. repeat (always_step || apply rules_rewrap_no_ack); by apply no_ack_other.
Qed.
End pulling.

(** ** Kept once; and never in the way for ever *)

Section once.
Context `{Crypto} `{RulesText} `{BodyText}.

Lemma reported_length now r c n c' n' :
  cd_recording c = true → record_one now (c, n) r = (c', n') →
  cd_recording c' = true ∧ length (cd_reported c') + n = length (cd_reported c) + n'.
Proof.
  intros Hrec. unfold record_one. destruct (insert r now c) as [c1 [id|]] eqn:Ei; [|intros [= <- <-]; split; [done|lia]].
  unfold insert in Ei. destruct (List.existsb _ _); [done|]. injection Ei as <- <-. rewrite Hrec. cbn.
  intros [= <- <-]. cbn. rewrite length_app. cbn. split; [done|lia].
Qed.
Lemma match_reported now c : cd_reported (match_reports lowercase now c).1 = cd_reported c.
Proof.
  unfold match_reports. set (waiting := merge_sort _ _). generalize (omap cr_matched_message_id (cd_reports c)) (@nil Matched).
  generalize waiting. clear waiting. intros l. revert c. induction l as [|r l IH]; intros c used out; [done|]. cbn [foldl].
  unfold match_one at 2. destruct (found_for lowercase r used (mail (cd_db c))) as [[x m]|]; [|apply IH].
  rewrite IH. unfold pair_composition. by destruct (cr_composition_id r), (se_rfc822 x).
Qed.
Lemma reported_all now reports c n c' n' :
  cd_recording c = true → foldl (record_one now) (c, n) reports = (c', n') → length (cd_reported c') + n = length (cd_reported c) + n'.
Proof.
  revert c n. induction reports as [|r reports IH]; intros c n Hrec; cbn [foldl]; [intros [= <- <-]; lia|].
  destruct (record_one now (c, n) r) as [c1 n1] eqn:E1. destruct (reported_length _ _ _ _ _ _ Hrec E1) as [Hrec1 Hl].
  intros Hf%IH; [lia|done].
Qed.
Lemma record_none now reports c n : (∀ r, r ∈ reports → new_key r ∈ report_keys c) → foldl (record_one now) (c, n) reports = (c, n).
Proof.
  induction reports as [|r reports IH]; intros Hin; [done|]. cbn [foldl]. destruct (record_one now (c, n) r) as [c1 n1] eqn:E1.
  destruct (record_one_keys _ _ _ _ _ _ E1) as [(_ & -> & ->)|(Hn & _)]; [apply IH; set_solver|]. destruct Hn. apply Hin. set_solver.
Qed.
(** The reports of a page are each kept, once: by server and id the
    store keeps no report twice, what is counted as new is what was added,
    with an AI composition for each while the account records them, and a
    page pulled again adds nothing. *)
Theorem reports_kept_once reports now c c' n :
  record_reports reports now c = (c', n) → NoDup (report_keys c) →
  NoDup (report_keys c') ∧ (∃ new, report_keys c' = report_keys c ++ new ∧ n = length new) ∧
  (∀ r, r ∈ reports → new_key r ∈ report_keys c') ∧
  (cd_recording c = true → length (cd_reported c') = length (cd_reported c) + n) ∧
  ∀ later, (record_reports reports later c').2 = 0 ∧ report_keys (record_reports reports later c').1 = report_keys c' ∧
           cd_reported (record_reports reports later c').1 = cd_reported c'.
Proof.
  unfold record_reports. destruct (foldl _ _ _) as [c1 n1] eqn:Ef. intros [= <- <-] Hd.
  destruct (record_all_keys _ _ _ _ _ _ Ef) as (new & Hk & Hn & Hnd & Hall). rewrite match_keys, match_reported.
  split; [by apply Hnd|]. split; [by exists new|]. split; [done|]. split; [intros Hrec; pose proof (reported_all _ _ _ _ _ _ Hrec Ef); lia|].
  intros later. rewrite (record_none later); [|by intros r Hr; rewrite match_keys; apply Hall]. cbn.
  rewrite match_keys, match_reported. by rewrite match_keys, match_reported.
Qed.

(** Successive pulls, none acknowledging anything. *)
Lemma head_held server id rest failures f up_to given :
  NoDup (id :: rest.*1) → acknowledgeable server ((id, None) :: rest) failures = (f, (up_to, given)) → up_to = None →
  S (tries_of server failures id) < MAX_REPORT_TRIES ∧ tries_of server f id = S (tries_of server failures id).
Proof.
  intros Hd Ha ->. destruct (read_page server failures ((id, None) :: rest)) as (front & back & Hp & Hu & _ & Hh & _ & _ & Hb).
  unfold acknowledgeable in Ha. injection Ha as Hf Hup _. assert (last front.*1 = None) as Hlast by (etrans; [symmetry; exact Hu|exact Hup]).
  apply last_None in Hlast. destruct front as [|x front]; [|done]. cbn in Hp. subst back. destruct Hb as [_ Hb]. specialize (Hb Hd). cbn in Hb. split; [done|].
  subst f. cbn [foldl]. assert (id ∉ rest.*1) as Hni by by apply NoDup_cons in Hd as [? _].
  assert (∀ st, rd_failures (foldl (read_one server) st rest) !! (server, id) = rd_failures st !! (server, id)) as Hkeep.
  { clear -Hni. induction rest as [|r rest IH]; intros st; [done|]. cbn [foldl]. rewrite IH by set_solver. apply read_one_failures. set_solver. }
  unfold tries_of at 1. rewrite Hkeep. unfold read_one. cbn [fst snd rd_failures rd_held].
  assert ((MAX_REPORT_TRIES <=? S (default 0 (failures !! (server, id)))) = false) as -> by (apply Nat.leb_gt; exact Hb).
  cbn. by rewrite lookup_insert_eq.
Qed.
Fixpoint pulls (server : string) (pages : list (list (Z * option NewReport))) (failures : gmap (string * Z) nat) : list (option Z) :=
  match pages with
  | [] => []
  | p :: pages => let '(f, (up_to, _)) := acknowledgeable server p failures in up_to :: pulls server pages f
  end.
(** A report that does not open or read holds its page back at four
    pulls at most: of [MAX_REPORT_TRIES] (5) pulls that list it first, one
    acknowledges past it. *)
Theorem unread_gives_way server id (rests : list (list (Z * option NewReport))) failures :
  length rests = MAX_REPORT_TRIES → (∀ rest, rest ∈ rests → NoDup (id :: rest.*1)) →
  ∃ up_to, Some up_to ∈ pulls server ((λ rest, (id, None) :: rest) <$> rests) failures.
Proof.
  intros Hl Hd. assert (MAX_REPORT_TRIES ≤ tries_of server failures id + length rests ∧ rests ≠ []) as [Hle Hne].
  { unfold MAX_REPORT_TRIES in *. split; [lia|]. by intros ->. }
  clear Hl. revert failures Hle Hne. induction rests as [|rest rests IH]; intros failures Hle Hne; [done|]. cbn [fmap list_fmap pulls].
  destruct (acknowledgeable server ((id, None) :: rest) failures) as [f [[up_to|] given]] eqn:Ea; [exists up_to; left|].
  destruct (head_held _ _ _ _ _ _ _ (Hd rest ltac:(left)) Ea eq_refl) as [Hlt Ht]. cbn [length] in Hle.
  destruct (IH ltac:(intros r Hr; apply Hd; by right) f) as [u Hu]; [lia|by intros ->; cbn in Hle; lia|]. exists u. by right.
Qed.
End once.
