(* ===== verification/RulesWorker.v ===== *)
(** * RulesWorker: when the app publishes
    ([kaluta-core/src/rules_publish.rs]: [rules_changed], [worker])

    The tasks that edit, the worker that pushes once changes stop, and the
    pushes the user asks for, interleaved.  A push is here what it takes and
    what it comes to; [RulesPush] is what it does. *)

From S2P Require Import Prelude.
From S2P Require Import Domain.

Module Worker.
Definition DEBOUNCE : Millis := 5000%Z.
Definition MAX_WAIT : Millis := 30000%Z.
Definition RETRY : Millis := 60000%Z.

(** ** State *)

(** Who holds the lock that lets one push run at a time. *)
Inductive Who := ByWorker | ByUser.
(** What the worker is at: waiting, or going through the accounts that are
    ready, one of them being pushed. *)
Inductive Task := Waiting | Going (current : option string) (ready : list string).
(** The clock, the mailboxes that publish, those with a change not pushed
    as Settings shows it, the worker's queue, what it is to push and when
    (the first change, the time), what it is at, and the push running.
    Besides, what is not in the program: the mailboxes whose newest content
    is not on their server and not in a push, the edits made whose
    [rules_changed] is still to come, the pushes [rules_publish_start] is
    about to make, and the mailboxes whose last push left an error nothing
    tries again. *)
Record World := mkWorld {
  w_now : Millis; w_enabled : gset string; w_pending : gset string; w_queue : list (option string);
  w_due : gmap string (Millis * Millis); w_task : Task; w_lock : option (Who * string);
  w_dirty : gset string; w_owed : list (option string); w_starting : gset string; w_told : gset string }.
Definition with_now (t : Millis) (w : World) : World :=
  mkWorld t (w_enabled w) (w_pending w) (w_queue w) (w_due w) (w_task w) (w_lock w) (w_dirty w) (w_owed w) (w_starting w) (w_told w).
Definition with_pending (p : gset string) (w : World) : World :=
  mkWorld (w_now w) (w_enabled w) p (w_queue w) (w_due w) (w_task w) (w_lock w) (w_dirty w) (w_owed w) (w_starting w) (w_told w).
Definition with_queue (q : list (option string)) (w : World) : World :=
  mkWorld (w_now w) (w_enabled w) (w_pending w) q (w_due w) (w_task w) (w_lock w) (w_dirty w) (w_owed w) (w_starting w) (w_told w).
Definition with_due (d : gmap string (Millis * Millis)) (w : World) : World :=
  mkWorld (w_now w) (w_enabled w) (w_pending w) (w_queue w) d (w_task w) (w_lock w) (w_dirty w) (w_owed w) (w_starting w) (w_told w).
Definition with_task (t : Task) (w : World) : World :=
  mkWorld (w_now w) (w_enabled w) (w_pending w) (w_queue w) (w_due w) t (w_lock w) (w_dirty w) (w_owed w) (w_starting w) (w_told w).
Definition with_lock (l : option (Who * string)) (w : World) : World :=
  mkWorld (w_now w) (w_enabled w) (w_pending w) (w_queue w) (w_due w) (w_task w) l (w_dirty w) (w_owed w) (w_starting w) (w_told w).
Definition with_dirty (d : gset string) (w : World) : World :=
  mkWorld (w_now w) (w_enabled w) (w_pending w) (w_queue w) (w_due w) (w_task w) (w_lock w) d (w_owed w) (w_starting w) (w_told w).
Definition with_owed (o : list (option string)) (w : World) : World :=
  mkWorld (w_now w) (w_enabled w) (w_pending w) (w_queue w) (w_due w) (w_task w) (w_lock w) (w_dirty w) o (w_starting w) (w_told w).
Definition with_starting (s : gset string) (w : World) : World :=
  mkWorld (w_now w) (w_enabled w) (w_pending w) (w_queue w) (w_due w) (w_task w) (w_lock w) (w_dirty w) (w_owed w) s (w_told w).
Definition with_told (t : gset string) (w : World) : World :=
  mkWorld (w_now w) (w_enabled w) (w_pending w) (w_queue w) (w_due w) (w_task w) (w_lock w) (w_dirty w) (w_owed w) (w_starting w) t.
Definition with_enabled (e : gset string) (w : World) : World :=
  mkWorld (w_now w) e (w_pending w) (w_queue w) (w_due w) (w_task w) (w_lock w) (w_dirty w) (w_owed w) (w_starting w) (w_told w).

(** ** The functions *)

(** The mailboxes that publish: this one, or every one. *)
Definition publishing (target : option string) (enabled : gset string) : list string :=
  match target with
  | Some a => if bool_decide (a ∈ enabled) then [a] else []
  | None => elements enabled
  end.
Definition message_for (targets : list string) : option string := match targets with [a] => Some a | _ => None end.
Definition rules_changed (account : option string) (w : World) : World :=
  match publishing account (w_enabled w) with
  | [] => w
  | targets => with_queue (w_queue w ++ [message_for targets]) (with_pending (w_pending w ∪ list_to_set targets) w)
  end.
(** Pushed once changes stop, or when the first has waited long enough. *)
Definition waits_for (now : Millis) (entry : option (Millis * Millis)) : Millis * Millis :=
  let first := match entry with Some (first, _) => first | None => now end in
  (first, Z.min (now + DEBOUNCE) (first + MAX_WAIT)).
Definition put_due (now : Millis) (due : gmap string (Millis * Millis)) (account : string) : gmap string (Millis * Millis) :=
  <[account := waits_for now (due !! account)]> due.
Definition take_message (target : option string) (w : World) : World :=
  let targets := publishing target (w_enabled w) in
  with_due (foldl (put_due (w_now w)) (w_due w) targets) (with_pending (w_pending w ∪ list_to_set targets) w).
Definition is_ready (now : Millis) (due : gmap string (Millis * Millis)) (a : string) : bool :=
  match due !! a with Some (_, t) => (t <=? now)%Z | None => false end.
Definition retry_at (now : Millis) : Millis * Millis := ((now + RETRY)%Z, (now + RETRY)%Z).

(** What a push comes to. *)
Inductive Outcome := Pushed | FailedTransient | FailedFinal.
(** [rules_push] once it has its outcome. *)
Definition settled (a : string) (o : Outcome) (w : World) : World :=
  let w := with_lock None w in
  match o with
  | Pushed => with_told (w_told w ∖ {[a]}) (with_pending (w_pending w ∖ {[a]}) w)
  | FailedTransient => with_dirty (w_dirty w ∪ ({[a]} ∩ w_enabled w)) w
  | FailedFinal => with_dirty (w_dirty w ∪ ({[a]} ∩ w_enabled w)) (with_pending (w_pending w ∖ {[a]}) w)
  end.
Definition left_error (a : string) (w : World) : World := with_told (w_told w ∪ {[a]}) w.
Definition after_worker (a : string) (ready : list string) (o : Outcome) (w : World) : World :=
  let w := with_task (Going None ready) (settled a o w) in
  match o with
  | Pushed => w
  | FailedTransient => with_due (<[a := retry_at (w_now w)]> (w_due w)) w
  | FailedFinal => left_error a w
  end.
Definition after_user (a : string) (o : Outcome) (w : World) : World :=
  let w := settled a o w in match o with Pushed => w | _ => left_error a w end.

(** ** The system *)

Definition idle (t : Task) : bool := match t with Waiting | Going None [] => true | _ => false end.
(** A push that holds the lock takes the content as it is. *)
Definition taken (who : Who) (a : string) (w : World) : World :=
  with_lock (Some (who, a)) (with_dirty (w_dirty w ∖ {[a]}) w).

Inductive step : World → World → Prop :=
| s_tick w t : (w_now w ≤ t)%Z → step w (with_now t w)
| s_edit w m : (** the guide or the facts change for one mailbox, or all *)
    step w (with_owed (m :: w_owed w) (with_dirty (w_dirty w ∪ list_to_set (publishing m (w_enabled w))) w))
| s_changed w before m after : w_owed w = before ++ m :: after →
    step w (rules_changed m (with_owed (before ++ after) w))
| s_resume w : step w (rules_changed None w)
| s_receive w m rest : idle (w_task w) = true → w_queue w = m :: rest →
    step w (take_message m (with_task Waiting (with_queue rest w)))
| s_wake w ready : idle (w_task w) = true → NoDup ready → (∀ a, a ∈ ready ↔ is_ready (w_now w) (w_due w) a = true) → ready ≠ [] →
    step w (with_task (Going None ready) w)
| s_begin w a ready : w_task w = Going None (a :: ready) →
    step w (with_task (Going (Some a) ready) (with_due (delete a (w_due w)) w))
| s_worker_takes w a ready : w_task w = Going (Some a) ready → w_lock w = None → step w (taken ByWorker a w)
| s_worker_ends w a ready o : w_task w = Going (Some a) ready → w_lock w = Some (ByWorker, a) → step w (after_worker a ready o w)
| s_user_takes w a : w_lock w = None → step w (taken ByUser a (with_starting (w_starting w ∖ {[a]}) w))
| s_user_ends w a o : w_lock w = Some (ByUser, a) → step w (after_user a o w)
| s_start w a : (** [rules_publish_start], its push to come *)
    step w (with_enabled (w_enabled w ∪ {[a]}) (with_starting (w_starting w ∪ {[a]}) (with_dirty (w_dirty w ∪ {[a]}) w)))
| s_stop w a : (** [rules_publish_stop] *)
    step w (with_enabled (w_enabled w ∖ {[a]}) (with_pending (w_pending w ∖ {[a]}) (with_dirty (w_dirty w ∖ {[a]}) w))).
(** The app opened: what was not on the servers when it closed, with
    [resume_rules_publishing] to come. *)
Definition opened (now : Millis) (enabled dirty told : gset string) : World :=
  mkWorld now enabled ∅ [] ∅ Waiting None (dirty ∩ enabled) [None] ∅ told.
Inductive reachable : World → Prop :=
| r_opened now enabled dirty told : reachable (opened now enabled dirty told)
| r_step w w' : reachable w → step w w' → reachable w'.

(** ** What is on its way *)

Definition covers (m : option string) (a : string) : bool := match m with Some b => bool_decide (b = a) | None => true end.
Definition on_its_way (w : World) (a : string) : Prop :=
  (∃ m, m ∈ w_owed w ∧ covers m a) ∨ (∃ m, m ∈ w_queue w ∧ covers m a) ∨ is_Some (w_due w !! a) ∨
  (∃ ready, w_task w = Going (Some a) ready ∧ w_lock w ≠ Some (ByWorker, a)) ∨ a ∈ w_starting w.

Lemma publishing_covers m enabled a : a ∈ publishing m enabled ↔ a ∈ enabled ∧ covers m a.
Proof.
  destruct m as [b|]; cbn; [|rewrite elem_of_elements; naive_solver].
  case_bool_decide; rewrite ?list_elem_of_singleton, ?elem_of_nil, bool_decide_spec; naive_solver.
Qed.
Lemma message_covers targets a : a ∈ targets → covers (message_for targets) a.
Proof. destruct targets as [|b [|]]; cbn; [done| |done]. rewrite list_elem_of_singleton, bool_decide_spec. done. Qed.
Lemma due_put now due targets a :
  is_Some (foldl (put_due now) due targets !! a) ↔ is_Some (due !! a) ∨ a ∈ targets.
Proof.
  revert due. induction targets as [|b targets IH]; intros due; cbn; [rewrite elem_of_nil; naive_solver|].
  rewrite IH, elem_of_cons. unfold put_due.
  destruct (decide (b = a)) as [->|E]; [rewrite lookup_insert_eq|rewrite lookup_insert_ne by done]; naive_solver.
Qed.

(** What is not pushed is on its way, or its last push left an error; the
    one being pushed is on its way. *)
Definition sound_at (w : World) (a : string) : Prop :=
  a ∈ w_dirty w → a ∈ w_enabled w ∧ (on_its_way w a ∨ a ∈ w_told w ∧ ¬ ∃ who, w_lock w = Some (who, a)).
Definition holds_lock (w : World) : Prop :=
  ∀ b, w_lock w = Some (ByWorker, b) → ∃ ready, w_task w = Going (Some b) ready.
Definition sound (w : World) : Prop := holds_lock w ∧ ∀ a, sound_at w a.

(** A clause each. *)
Inductive way (w : World) (a : string) : Prop :=
| way_owed m : m ∈ w_owed w → covers m a → way w a
| way_queued m : m ∈ w_queue w → covers m a → way w a
| way_due : is_Some (w_due w !! a) → way w a
| way_current ready : w_task w = Going (Some a) ready → w_lock w ≠ Some (ByWorker, a) → way w a
| way_starting : a ∈ w_starting w → way w a.
Lemma on_its_way_iff w a : on_its_way w a ↔ way w a.
Proof.
  split; unfold on_its_way.
  - intros [(m & ? & ?)|[(m & ? & ?)|[?|[(r & ? & ?)|?]]]]; eauto using way.
  - intros []; naive_solver.
Qed.
Lemma rules_changed_sound w before m after :
  w_owed w = before ++ m :: after → sound w → sound (rules_changed m (with_owed (before ++ after) w)).
Proof.
  intros Ho [Hl Hs]. unfold rules_changed. cbn.
  assert (∀ m', m' ∈ w_owed w → m' = m ∨ m' ∈ before ++ after) as Hin by (intros m'; rewrite Ho; set_solver).
  destruct (publishing m (w_enabled w)) as [|t ts] eqn:Ep; (split; [exact Hl|]); intros a Ha; cbn in Ha;
    destruct (Hs a Ha) as [He [Hw|Hw]]; (split; [done|]); try (by right); left; rewrite on_its_way_iff in *;
    destruct Hw as [m' Hm Hc|m' Hm Hc| | |]; eauto using way; try (apply way_queued with m'; [cbn; set_solver|done]);
    (destruct (Hin m' Hm) as [->|Hm']; [|by apply way_owed with m']).
  - exfalso. assert (a ∈ publishing m (w_enabled w)) as Hp by by apply publishing_covers. rewrite Ep in Hp. set_solver.
  - apply way_queued with (message_for (t :: ts)); [cbn; set_solver|]. apply message_covers. rewrite <-Ep. by apply publishing_covers.
Qed.
Lemma resumed_sound w : sound w → sound (rules_changed None w).
Proof.
  intros Hs. assert (sound (with_owed (None :: w_owed w) w)) as Hs'.
  { destruct Hs as [Hl Hs]. split; [done|]. intros a Ha. destruct (Hs a Ha) as [He [Hw|Hw]]; (split; [done|]); [left|by right].
    rewrite on_its_way_iff in *. destruct Hw; eauto using way. apply way_owed with m; [cbn; set_solver|done]. }
  apply (rules_changed_sound (with_owed (None :: w_owed w) w) [] None (w_owed w) eq_refl) in Hs'.
  by destruct w.
Qed.
Lemma received_sound w m rest :
  idle (w_task w) = true → w_queue w = m :: rest → sound w → sound (take_message m (with_task Waiting (with_queue rest w))).
Proof.
  intros Hi Hq [Hl Hs]. split.
  { intros b Hb. destruct (Hl b Hb) as [ready Ht]. by rewrite Ht in Hi. }
  intros a Ha. destruct (Hs a Ha) as [He [Hw|Hw]]; (split; [done|]); [left|by right].
  rewrite on_its_way_iff in *. destruct Hw as [m' Hm Hc|m' Hm Hc|Hd|ready Ht|]; eauto using way.
  - rewrite Hq, elem_of_cons in Hm. destruct Hm as [->|Hm]; [|by apply way_queued with m'].
    apply way_due. cbn. apply due_put. right. by apply publishing_covers.
  - apply way_due. cbn. apply due_put. by left.
  - by rewrite Ht in Hi.
Qed.
Lemma begun_sound w a ready :
  w_task w = Going None (a :: ready) → sound w → sound (with_task (Going (Some a) ready) (with_due (delete a (w_due w)) w)).
Proof.
  intros Ht [Hl Hs]. assert (∀ b, w_lock w ≠ Some (ByWorker, b)) as Hn.
  { intros b Hb. destruct (Hl b Hb) as [r Hr]. by rewrite Ht in Hr. }
  split; [intros b Hb; by destruct (Hn b)|]. intros b Hb. destruct (Hs b Hb) as [He [Hw|Hw]]; (split; [done|]); [left|by right].
  rewrite on_its_way_iff in *. destruct Hw as [m' Hm Hc|m' Hm Hc|Hd|r Hr|]; eauto using way; [|by rewrite Ht in Hr].
  destruct (decide (b = a)) as [->|E].
  - by apply way_current with ready; [|apply Hn].
  - apply way_due. cbn. by rewrite lookup_delete_ne.
Qed.
(** Taking the content leaves nothing of it for later. *)
Lemma taken_sound who a w :
  w_lock w = None → (who = ByWorker → ∃ ready, w_task w = Going (Some a) ready) → sound w →
  sound (taken who a (with_starting (match who with ByUser => w_starting w ∖ {[a]} | ByWorker => w_starting w end) w)).
Proof.
  intros Hn Ht [Hl Hs]. split.
  { intros b [= -> ->]. destruct (Ht eq_refl) as [r Hr]. by exists r. }
  intros b Hb. cbn in Hb. assert (b ≠ a) as E by set_solver. destruct (Hs b ltac:(set_solver)) as [He [Hw|[Hw _]]]; (split; [done|]).
  - left. rewrite on_its_way_iff in *. destruct Hw as [m' Hm Hc|m' Hm Hc|Hd|r Hr Hnl|]; eauto using way.
    + apply way_current with r; [done|]. cbn. congruence.
    + apply way_starting. cbn. destruct who; set_solver.
  - right. split; [done|]. intros [who' [= _ ?]]. congruence.
Qed.
Lemma with_starting_same w : with_starting (w_starting w) w = w.
Proof. by destruct w. Qed.
(** A push of [a] that ends: what was not taken is on its way already. *)
Lemma locked_way w who a : w_lock w = Some (who, a) → sound w → a ∈ w_dirty w → a ∈ w_enabled w ∧ way w a.
Proof. intros Hk [_ Hs] Ha. destruct (Hs a Ha) as [He [Hw|[_ []]]]; [|by exists who]. by rewrite on_its_way_iff in Hw. Qed.
Lemma worker_ended_sound w a ready o :
  w_task w = Going (Some a) ready → w_lock w = Some (ByWorker, a) → sound w → sound (after_worker a ready o w).
Proof.
  intros Ht Hk Hs. pose proof (locked_way w ByWorker a Hk Hs) as Hown. destruct Hs as [Hl Hs]. split.
  { intros b Hb. by destruct o. }
  intros b Hb. destruct (decide (b = a)) as [->|E].
  - destruct o; cbn in Hb.
    + destruct (Hown Hb) as [He Hw]. split; [done|]. left. rewrite on_its_way_iff.
      destruct Hw as [| | |r Hr Hnl|]; eauto using way. congruence.
    + assert (a ∈ w_enabled w) as He by (rewrite elem_of_union in Hb; destruct Hb as [Hb|Hb]; [by apply Hown|set_solver]).
      split; [done|]. left. rewrite on_its_way_iff. apply way_due. cbn. rewrite lookup_insert_eq. by eexists.
    + assert (a ∈ w_enabled w) as He by (rewrite elem_of_union in Hb; destruct Hb as [Hb|Hb]; [by apply Hown|set_solver]).
      split; [done|]. right. split; [cbn; set_solver|]. by intros [who Hw].
  - assert (b ∈ w_dirty w) as Hb' by (destruct o; cbn in Hb; set_solver). destruct (Hs b Hb') as [He [Hw|[Hw _]]]; (split; [by destruct o|]).
    + left. rewrite on_its_way_iff in *. destruct Hw as [m' Hm Hc|m' Hm Hc|Hd|r Hr Hnl|].
      * apply way_owed with m'; [by destruct o|done].
      * apply way_queued with m'; [by destruct o|done].
      * apply way_due. destruct o; cbn; [done| |done]. by rewrite lookup_insert_ne.
      * congruence.
      * apply way_starting. by destruct o.
    + right. split; [destruct o; cbn; set_solver|]. intros [who Hwho]. by destruct o.
Qed.
Lemma user_ended_sound w a o : w_lock w = Some (ByUser, a) → sound w → sound (after_user a o w).
Proof.
  intros Hk Hs. pose proof (locked_way w ByUser a Hk Hs) as Hown. destruct Hs as [Hl Hs]. split.
  { intros b Hb. by destruct o. }
  assert (∀ b, way w b → way (after_user a o w) b) as Hkeep.
  { intros b Hw. destruct o; (destruct Hw as [| | |r Hr Hnl|]; eauto using way; by apply way_current with r). }
  intros b Hb. destruct (decide (b = a)) as [->|E].
  - destruct o; cbn in Hb.
    + destruct (Hown Hb) as [He Hw]. split; [done|]. left. rewrite on_its_way_iff. by apply Hkeep.
    + assert (a ∈ w_enabled w) as He by (rewrite elem_of_union in Hb; destruct Hb as [Hb|Hb]; [by apply Hown|set_solver]).
      split; [done|]. right. split; [cbn; set_solver|]. by intros [who Hw].
    + assert (a ∈ w_enabled w) as He by (rewrite elem_of_union in Hb; destruct Hb as [Hb|Hb]; [by apply Hown|set_solver]).
      split; [done|]. right. split; [cbn; set_solver|]. by intros [who Hw].
  - assert (b ∈ w_dirty w) as Hb' by (destruct o; cbn in Hb; set_solver). destruct (Hs b Hb') as [He [Hw|[Hw _]]]; (split; [by destruct o|]).
    + left. rewrite on_its_way_iff in *. by apply Hkeep.
    + right. split; [destruct o; cbn; set_solver|]. intros [who Hwho]. by destruct o.
Qed.
Lemma edited_sound w m :
  sound w → sound (with_owed (m :: w_owed w) (with_dirty (w_dirty w ∪ list_to_set (publishing m (w_enabled w))) w)).
Proof.
  intros [Hl Hs]. split; [done|]. intros a Ha. cbn in Ha. rewrite elem_of_union, elem_of_list_to_set, publishing_covers in Ha.
  destruct Ha as [Ha|[He Hc]].
  - destruct (Hs a Ha) as [He [Hw|Hw]]; (split; [done|]); [left|by right]. rewrite on_its_way_iff in *.
    destruct Hw as [m' Hm Hc| | | |]; eauto using way. apply way_owed with m'; [cbn; set_solver|done].
  - split; [done|]. left. rewrite on_its_way_iff. apply way_owed with m; [cbn; set_solver|done].
Qed.
Lemma started_sound w a :
  sound w → sound (with_enabled (w_enabled w ∪ {[a]}) (with_starting (w_starting w ∪ {[a]}) (with_dirty (w_dirty w ∪ {[a]}) w))).
Proof.
  intros [Hl Hs]. split; [done|]. intros b Hb. cbn in Hb. destruct (decide (b = a)) as [->|E].
  - split; [cbn; set_solver|]. left. rewrite on_its_way_iff. apply way_starting. cbn. set_solver.
  - destruct (Hs b ltac:(set_solver)) as [He [Hw|Hw]]; (split; [cbn; set_solver|]); [left|by right]. rewrite on_its_way_iff in *.
    destruct Hw; eauto using way. apply way_starting. cbn. set_solver.
Qed.
Lemma stopped_sound w a :
  sound w → sound (with_enabled (w_enabled w ∖ {[a]}) (with_pending (w_pending w ∖ {[a]}) (with_dirty (w_dirty w ∖ {[a]}) w))).
Proof.
  intros [Hl Hs]. split; [done|]. intros b Hb. cbn in Hb. destruct (Hs b ltac:(set_solver)) as [He Hw]. split; [cbn; set_solver|].
  destruct Hw as [Hw|Hw]; [left|by right]. rewrite on_its_way_iff in *. destruct Hw; eauto using way.
Qed.
Lemma woken_sound w ready :
  idle (w_task w) = true → sound w → sound (with_task (Going None ready) w).
Proof.
  intros Hi [Hl Hs]. split; [intros b Hb; destruct (Hl b Hb) as [r Hr]; by rewrite Hr in Hi|].
  intros b Hb. destruct (Hs b Hb) as [He Hw]. split; [done|]. destruct Hw as [Hw|Hw]; [left|by right]. rewrite on_its_way_iff in *.
  destruct Hw as [| | |r Hr|]; eauto using way. by rewrite Hr in Hi.
Qed.
Lemma step_sound w w' : step w w' → sound w → sound w'.
Proof.
  intros Hst Hs. destruct Hst.
  - destruct Hs as [Hl Hs]. split; [done|]. intros a Ha. exact (Hs a Ha).
  - by apply edited_sound.
  - by apply rules_changed_sound.
  - by apply resumed_sound.
  - by apply received_sound.
  - by apply woken_sound.
  - by apply begun_sound.
  - assert (sound (taken ByWorker a (with_starting (w_starting w) w))) as Ht by (eapply (taken_sound ByWorker); eauto).
    by rewrite with_starting_same in Ht.
  - by apply worker_ended_sound.
  - by apply (taken_sound ByUser).
  - by apply user_ended_sound.
  - by apply started_sound.
  - by apply stopped_sound.
Qed.
Lemma opened_sound now enabled dirty told : sound (opened now enabled dirty told).
Proof.
  split; [done|]. intros a Ha. cbn in Ha. split; [cbn; set_solver|]. left. left. exists None. cbn. by split; [left|].
Qed.

(** ** How long it may wait *)

(** A mailbox that waits is not the one being pushed. *)
Definition bounded (w : World) : Prop :=
  ∀ a first at_, w_due w !! a = Some (first, at_) → (at_ ≤ first + MAX_WAIT)%Z ∧ ∀ r, w_task w ≠ Going (Some a) r.
Lemma put_due_bounded now due targets :
  (∀ a first at_, due !! a = Some (first, at_) → (at_ ≤ first + MAX_WAIT)%Z) →
  ∀ a first at_, foldl (put_due now) due targets !! a = Some (first, at_) → (at_ ≤ first + MAX_WAIT)%Z.
Proof.
  revert due. induction targets as [|b targets IH]; intros due Hd; [done|]. cbn [foldl]. apply IH. intros a first at_.
  unfold put_due. destruct (decide (b = a)) as [->|E]; [rewrite lookup_insert_eq|rewrite lookup_insert_ne by done; apply Hd].
  unfold waits_for. intros [= <- <-]. lia.
Qed.
Lemma put_due_first now due targets a first at_ :
  due !! a = Some (first, at_) → ∃ at', foldl (put_due now) due targets !! a = Some (first, at').
Proof.
  revert due at_. induction targets as [|b targets IH]; intros due at_ Hd; [by exists at_|]. cbn [foldl].
  destruct (decide (b = a)) as [->|E]; eapply IH; unfold put_due; [rewrite Hd; apply lookup_insert_eq|by rewrite lookup_insert_ne].
Qed.
Lemma step_bounded w w' : step w w' → bounded w → bounded w'.
Proof.
  intros Hst Hb. destruct Hst; try exact Hb; try (intros b first at_ Hd; split; [by apply (Hb b first)|done]).
  - unfold rules_changed. destruct (publishing m _); exact Hb.
  - unfold rules_changed. destruct (publishing None _); exact Hb.
  - intros b first at_ Hd. split; [|done]. revert Hd. cbn. apply put_due_bounded. intros c f t Hc. by apply (Hb c).
  - intros b first at_. cbn. rewrite lookup_delete_Some. intros [E Hd]. split; [by apply (Hb b)|]. intros r [= -> _]. done.
  - intros b first at_ Hd. split; [|by destruct o]. destruct o; cbn in Hd; [by apply (Hb b)| |by apply (Hb b)].
    destruct (decide (a = b)) as [->|E].
    + rewrite lookup_insert_eq in Hd. injection Hd as <- <-. unfold RETRY, MAX_WAIT. lia.
    + rewrite lookup_insert_ne in Hd by done. by apply (Hb b).
  - by destruct o.
Qed.
Lemma reachable_bounded w : reachable w → bounded w.
Proof. induction 1; [|by eapply step_bounded]. intros a first at_. cbn. by rewrite lookup_empty. Qed.
Lemma step_first w w' a first at_ first' at' :
  bounded w → step w w' → w_due w !! a = Some (first, at_) → w_due w' !! a = Some (first', at') → first' = first.
Proof.
  intros Hb Hst Hd Hd'. destruct Hst; cbn in Hd'; try congruence.
  - unfold rules_changed in Hd'. destruct (publishing m _); cbn in Hd'; congruence.
  - unfold rules_changed in Hd'. destruct (publishing None _); cbn in Hd'; congruence.
  - destruct (put_due_first (w_now w) (w_due w) (publishing m (w_enabled w)) a first at_ Hd) as [t Ht]. cbn in Hd'. congruence.
  - rewrite lookup_delete_Some in Hd'. destruct Hd'. congruence.
  - destruct o; cbn in Hd'; try congruence. destruct (decide (a0 = a)) as [->|E]; [|rewrite lookup_insert_ne in Hd' by done; congruence].
    destruct (Hb a first at_ Hd) as [_ Hn]. by destruct (Hn ready).
  - destruct o; cbn in Hd'; congruence.
Qed.
(** Steady changes do not put a push off for ever: while a mailbox
    waits, its first change stays the first, and its push is due at the
    latest [MAX_WAIT] (30 s) after that, whatever happens. *)
Theorem waits_at_most w w' a first at_ first' at' :
  reachable w → step w w' → w_due w !! a = Some (first, at_) → w_due w' !! a = Some (first', at') →
  first' = first ∧ (at' ≤ first + MAX_WAIT)%Z.
Proof.
  intros Hr Hst Hd Hd'. assert (reachable w') as Hr' by by eapply r_step.
  pose proof (step_first _ _ _ _ _ _ _ (reachable_bounded w Hr) Hst Hd Hd') as ->. split; [done|].
  by apply (reachable_bounded w' Hr' a).
Qed.

(** ** A run: two changes of a mailbox that publishes *)

Definition at_launch : World := opened 0 {["m"]} ∅ ∅.
Definition told_once : World := rules_changed None (with_owed [] at_launch).
Definition due_once : World := take_message (Some "m") (with_task Waiting (with_queue [] told_once)).
Definition edited : World :=
  let w := with_now 3000%Z due_once in
  with_owed (Some "m" :: w_owed w) (with_dirty (w_dirty w ∪ list_to_set (publishing (Some "m") (w_enabled w))) w).
Definition told_twice : World := rules_changed (Some "m") (with_owed [] edited).
Definition due_twice : World := take_message (Some "m") (with_task Waiting (with_queue [] told_twice)).
Lemma edited_reachable : reachable edited.
Proof.
  eapply r_step; [|apply s_edit]. eapply r_step; [|by apply s_tick].
  eapply r_step; [|by apply s_receive with (m := Some "m") (rest := [])].
  eapply r_step; [apply r_opened|]. by apply s_changed with (before := []) (m := None) (after := []).
Qed.
Lemma told_twice_reachable : reachable told_twice.
Proof. eapply r_step; [apply edited_reachable|]. by apply s_changed with (before := []) (m := Some "m") (after := []). Qed.

Lemma waits_at_most_witness :
  w_due told_twice !! "m" = Some (0, 5000)%Z ∧ w_due due_twice !! "m" = Some (0, 8000)%Z ∧ (0 = 0)%Z ∧ (8000 ≤ 0 + MAX_WAIT)%Z.
Proof.
  split; [vm_compute; reflexivity|]. split; [vm_compute; reflexivity|].
  apply (waits_at_most told_twice due_twice "m" 0 5000 0 8000);
    [apply told_twice_reachable|by apply s_receive with (m := Some "m") (rest := [])|vm_compute; reflexivity|vm_compute; reflexivity].
Defined.
End Worker.
