(* ===== verification/RulesWire.v ===== *)
(** * RulesWire: what the app and the rules server say to each other
    ([rules-server/src/rest.rs], [reports.rs], [lib.rs])

    The server's answers as JSON, as the app reads them, and the app's
    requests as the server's router takes them. *)

From Stdlib Require Import Ascii.
From S2P Require Import Prelude.
From S2P Require Import Domain.
From S2P Require Import Text.
From S2P Require Import Json.
From S2P Require Import Guide.
From S2P Require Import Facade.
From S2P Require Import Agents.
From S2P Require Import RulesTokens.
From S2P Require Import RulesDb.
From S2P Require Import RulesCrypto.
From S2P Require Import RulesPublish.
From S2P Require Import RulesOAuth.
From S2P Require Import RulesServer.
From S2P Require Import RulesHandlers.
From S2P Require Import RulesApp.
From S2P Require Import CloudReports.
From S2P Require Import RulesPush.
From S2P Require Import RulesPull.
From S2P Require Import Effects.

Import App.

Module Wire.
Section wire.
Context `{Crypto} `{RulesText} `{Web} `{AppText}.

(** ** Answers *)

Definition time_or_null (t : option Millis) : Json := match t with Some t => time t | None => JNull end.
Definition bool_json (b : bool) : Json := JBool b.
(** An agent as listed; its key sealed to the app and whether it reads the
    newest version. *)
Definition token_json_with (t : AgentTokenRow) (client : option string) (used : option Millis) (keys : option (option Bytes * bool)) : Json :=
  let v := obj [("id", JString (ag_id t)); ("name", JString (ag_name t)); ("kind", JString (ag_kind t));
                ("created_at", time (ag_created_at t)); ("revoked_at", time_or_null (ag_revoked_at t)); ("last_used_at", time_or_null used)] in
  let v := if String.eqb (ag_kind t) KIND_OAUTH then set_field "client_name" (json_opt JString client) v else v in
  match keys with
  | Some (seal, reads) => set_field "readable" (bool_json reads) (set_field "agent_key" (json_opt (λ s, JString (b64 s)) seal) v)
  | None => v
  end.
Definition token_json (t : AgentTokenRow) (client : option string) (used : option Millis) : Json := token_json_with t client used None.
(** A later row of an id replaces an earlier one, as a map collects them. *)
Definition keys_of (id : string) (keys : list (string * option Bytes * bool)) : option (option Bytes * bool) :=
  (λ k, (k.1.2, k.2)) <$> List.find (λ k, String.eqb k.1.1 id) (List.rev keys).
Definition tokens_json (rows : list (AgentTokenRow * option string * option Millis)) (keys : list (string * option Bytes * bool))
    (key_id : option string) : Json :=
  obj [("agent_tokens", JArray ((λ r, token_json_with r.1.1 r.1.2 r.2 (keys_of (ag_id r.1.1) keys)) <$> rows));
       ("key_id", json_opt JString key_id)].
Definition version_body (latest : option (Z * Millis)) (kept : list Z) : Json :=
  obj [("version", json_opt json_int (fst <$> latest)); ("published_at", time_or_null (snd <$> latest));
       ("versions_kept", JArray (json_int <$> kept))].
Definition report_json (r : ReportRow) (agent_name agent_kind : string) : Json :=
  obj [("id", json_int (rp_id r)); ("agent_id", JString (rp_agent_id r)); ("agent_name", JString agent_name);
       ("agent_kind", JString agent_kind); ("received_at", time (rp_received_at r)); ("message_id", json_opt JString (rp_message_id r));
       ("to", json_strings (rp_recipients r)); ("subject", JString (rp_subject r)); ("sent_at", time_or_null (rp_sent_at r));
       ("body_markdown", JString (rp_body_markdown r)); ("checked_version", json_opt json_int (rp_checked_version r));
       ("check", obj [("version", json_opt json_int (rp_check_version r)); ("guide_check", json_strings (rp_guide_check r))]);
       ("sealed", json_opt (λ s, JString (b64 s)) (rp_sealed r))].
Definition reports_json (rows : list ListedReport) (pending : nat) (dropped : Z) (more : bool) (epoch : string) : Json :=
  obj [("reports", JArray ((λ r, report_json r.1.1 r.1.2 r.2) <$> rows)); ("pending", json_int (Z.of_nat pending));
       ("dropped", json_int dropped); ("more", bool_json more); ("epoch", JString epoch)].
Definition connect_code_json (row : ConnectCodeRow) (code : string) : Json :=
  obj [("id", JString (cc_id row)); ("name", JString (cc_name row)); ("code", JString code); ("expires_at", time (cc_expires_at row))].
(** An error with its words. *)
Definition error_json (words : string) (e : ApiError) : Json :=
  let v := obj [("error", JString (ae_code e)); ("message", JString words)] in
  match ae_current e with Some current => set_field "current_version" (json_opt json_int current) v | None => v end.
(** What a publisher is answered; a body that is not JSON reads as null. *)
Definition answer_of (words : string) (r : Reply) : option Answer :=
  match r with
  | Failed e => Some (mkAnswer (ae_status e) (error_json words e))
  | MailboxRegistered address token => Some (mkAnswer 201 (obj [("address", JString address); ("publisher_token", JString token)]))
  | NoContent => Some (mkAnswer 204 JNull)
  | SnapshotVersion latest kept => Some (mkAnswer 200 (version_body latest kept))
  | KeysStored n => Some (mkAnswer 200 (obj [("stored", json_int (Z.of_nat n))]))
  | TokenMinted row token => Some (mkAnswer 201 (set_field "token" (JString token) (token_json row None None)))
  | TokensListed rows keys key_id => Some (mkAnswer 200 (tokens_json rows keys key_id))
  | CodeMinted row code => Some (mkAnswer 201 (connect_code_json row code))
  | ReportsListed rows pending dropped more epoch => Some (mkAnswer 200 (reports_json rows pending dropped more epoch))
  | Acknowledged n => Some (mkAnswer 200 (obj [("deleted", json_int (Z.of_nat n))]))
  | _ => None
  end.

(** ** Requests *)

Definition body_text (b : option HttpBody) : string :=
  match b with Some (JsonBody v) => json_string v | Some (TextBody s) => s | None => "" end.
(** [If-Match] as a quoted entity tag; the token as a bearer. *)
Definition headers_of (rq : HttpRequest) : Headers :=
  mkHeaders ((λ t, "Bearer " +:+ t) <$> rq_bearer rq) ((λ v, Some (quoted (pretty v))) <$> rq_if_match rq) None [].
Definition query_text_of (rq : HttpRequest) : option string :=
  match rq_query rq with [] => None | kvs => Some (query_text kvs) end.
(** The publishers' routes. *)
Definition mailbox_route (rq : HttpRequest) (address : string) (rest : list string) : option Request :=
  let body := body_text (rq_body rq) in
  match rq_method rq, rest with
  | DELETE, [] => Some (Forget address)
  | PUT, [a] => if String.eqb a "snapshot" then Some (PutSnapshot address body) else None
  | GET, [a] =>
      if String.eqb a "agent-tokens" then Some (GetTokens address)
      else if String.eqb a "reports" then Some (GetReports address (query_text_of rq)) else None
  | POST, [a] =>
      if String.eqb a "agent-tokens" then Some (PostToken address body)
      else if String.eqb a "connect-codes" then Some (PostCode address body) else None
  | GET, [a; b] => if String.eqb a "snapshot" && String.eqb b "version" then Some (GetVersion address) else None
  | POST, [a; b] =>
      if String.eqb a "snapshot" && String.eqb b "keys" then Some (PostKeys address body)
      else if String.eqb a "reports" && String.eqb b "ack" then Some (PostAck address body) else None
  | DELETE, [a; id] => if String.eqb a "agent-tokens" then Some (DeleteToken address id) else None
  | _, _ => None
  end.
Definition route (rq : HttpRequest) : option Request :=
  match rq_path rq with
  | v1 :: mailboxes :: rest =>
      if String.eqb v1 "v1" && String.eqb mailboxes "mailboxes" then
        match rest with
        | [] => match rq_method rq with POST => Some (RegisterMailbox (body_text (rq_body rq))) | _ => None end
        | address :: rest => mailbox_route rq address rest
        end
      else None
  | _ => None
  end.
End wire.
End Wire.

(** * The app and the rules server understand each other

    Each request the app makes is routed and read by the server as what was
    meant, and what the server answers is read by the app as what it said. *)

Import App.
Import Publisher.
Import Reports.
Import Wire.

(** ** Headers *)

Lemma str_app_assoc x y z : x +:+ (y +:+ z) = (x +:+ y) +:+ z.
Proof. induction x as [|a x IH]; [done|]. change (String a (x +:+ (y +:+ z)) = String a ((x +:+ y) +:+ z)). by rewrite IH. Qed.
(** What begins and ends with a quote is trimmed already. *)
Lemma trim_quoted s : trim (quoted s) = quoted s.
Proof.
  unfold trim, quoted. assert (∀ s n, strip_all n white_space (QUOTE +:+ s) = QUOTE +:+ s) as Hs by (by intros ? []).
  unfold trim_start. rewrite Hs. unfold trim_end.
  assert (∀ s n, strip_all n (string_rev_of <$> white_space) (QUOTE +:+ s) = QUOTE +:+ s) as Hs' by (by intros ? []).
  rewrite !string_rev_app. change (string_rev_of QUOTE) with QUOTE. rewrite <-str_app_assoc, Hs', !string_rev_app.
  change (string_rev_of QUOTE) with QUOTE. by rewrite string_rev_rev, <-str_app_assoc.
Qed.
(** A version as an entity tag is read back. *)
Definition unquoted (s : string) : Prop := ∀ a s', s = String a s' → a ≠ "034"%char.
Lemma strip_quote n s : unquoted s → strip_all n [QUOTE] s = s.
Proof.
  intros Hs. destruct n as [|n]; [done|]. destruct s as [|a s]; [done|]. specialize (Hs a s eq_refl).
  cbn -[Ascii.eqb]. destruct (Ascii.eqb_spec "034"%char a) as [<-|_]; done.
Qed.
Lemma strip_quoted n s : unquoted s → strip_all (S n) [QUOTE] (QUOTE +:+ s) = s.
Proof. intros Hs. cbn [strip_all foldr]. by apply strip_quote. Qed.
Lemma trim_quotes_quoted s : unquoted (s +:+ QUOTE) → unquoted (string_rev_of s) → trim_quotes (quoted s) = s.
Proof.
  intros H1 H2. unfold trim_quotes, quoted. change (String "034" "") with QUOTE.
  change (String.length (QUOTE +:+ s +:+ QUOTE)) with (S (String.length (s +:+ QUOTE))).
  rewrite strip_quoted by done. rewrite string_rev_app. change (string_rev_of QUOTE) with QUOTE.
  rewrite strip_quoted by done. apply string_rev_rev.
Qed.
Definition quoteless (s : string) : Prop := "034"%char ∉ String.list_ascii_of_string s.
Lemma has_char_quoteless s : has_char "034"%char s = false → quoteless s.
Proof. intros Hc Hin. unfold has_char in Hc. rewrite existsb_false in Hc. specialize (Hc _ Hin). by rewrite Ascii.eqb_refl in Hc. Qed.
Lemma quoteless_head s t : quoteless s → s ≠ "" → unquoted (s +:+ t).
Proof.
  intros Hq Hne a s' E ->. destruct s as [|b s]; [done|]. injection E as -> _. apply Hq. cbn. by left.
Qed.
Lemma if_match_version v : in_i64 v → if_match (Some (Some (quoted (pretty v)))) = Some (Some v).
Proof.
  intros Hv. assert (quoteless (pretty v)) as Hq by (apply has_char_quoteless, has_char_pretty_Z; done).
  assert (pretty v ≠ "") as Hne by (intros E; pose proof (parse_i64_pretty v Hv) as Hp; rewrite E in Hp; done).
  unfold if_match. cbn [default from_option id]. rewrite trim_quoted. change (strip_prefix "W/" (quoted (pretty v))) with (@None string).
  cbn [default from_option]. rewrite trim_quotes_quoted; [by rewrite parse_i64_pretty|by apply quoteless_head|].
  rewrite <-(str_app_nil (string_rev_of (pretty v))). apply quoteless_head.
  - unfold quoteless, string_rev_of. rewrite String.list_ascii_of_string_of_list_ascii, elem_of_reverse. exact Hq.
  - intros E. apply Hne. rewrite <-(string_rev_rev (pretty v)), E. done.
Qed.

(** ** Requests *)

Section requests.
Context `{Crypto} `{RulesText} `{Web} `{AppText}.

(** A value the server's reader takes as it was written. *)
Definition written (v : Json) : Prop := json_strict (json_string v) = Some v.
Definition named_json (name : string) : Json := obj [("name", JString name)].
Definition reads_as (rq : HttpRequest) (r : Request) : Prop := route rq = Some r.
(** The server takes each request of the app for what the app means.
    Its headers give the token and the version expected; and each request
    is routed to its handler, with the address, the body or the query, from
    which the handler's reader gets what the app put there. *)
Theorem requests_are_read server address token (Htoken : token ≠ "") (Htrim : trim token = token)
    (Hbearer : trim ("Bearer " +:+ token) = "Bearer " +:+ token) :
  (∀ p ps body, ps_token ps = token → match ps_expected ps with Some v => in_i64 v | None => True end →
     let rq := put_request p ps body in
     reads_as rq (PutSnapshot (pb_address p) body) ∧ bearer (hd_authorization (headers_of rq)) = Some token ∧
     if_match (hd_if_match (headers_of rq)) = Some (ps_expected ps)) ∧
  (∀ b, written (obj [("address", JString address)]) →
     ∃ body, reads_as (register_request server address b) (RegisterMailbox body) ∧ register_body body = Some address) ∧
  (∀ key_id wraps, let v := obj [("key_id", JString key_id);
       ("wraps", JArray ((λ w, obj [("agent_id", JString (kw_agent_id w)); ("wrap", JString (kw_wrap w))]) <$> wraps))] in
     written v → ∃ body, reads_as (keys_request server address token key_id wraps) (PostKeys address body) ∧
       keys_body body = Some (key_id, wraps)) ∧
  (∀ after, in_i64 after → (0 ≤ after)%Z →
     form_parse (query_text [("after", pretty after); ("limit", pretty PAGE)]) = [("after", pretty after); ("limit", pretty PAGE)] →
     ∃ query, reads_as (list_request server address token after) (GetReports address query) ∧
       report_range query = Ok (after, PAGE) ∧ clamp_limit PAGE = PAGE) ∧
  (∀ up_to, in_i64 up_to → written (obj [("up_to_id", json_int up_to)]) →
     ∃ body, reads_as (ack_request server address token up_to) (PostAck address body) ∧ ack_body body = Some up_to) ∧
  (∀ name, written (name_arg name) → ∃ body, name_body body = Some name ∧
     reads_as (request server POST (mailbox_path address ["connect-codes"]) (Some token) (Some (name_arg name))) (PostCode address body) ∧
     reads_as (request server POST (mailbox_path address ["agent-tokens"]) (Some token) (Some (name_arg name))) (PostToken address body)) ∧
  reads_as (agents_request server address token) (GetTokens address) ∧
  (∀ id, reads_as (request server DELETE (mailbox_path address ["agent-tokens"; id]) (Some token) None) (DeleteToken address id)) ∧
  reads_as (request server DELETE (mailbox_path address []) (Some token) None) (Forget address).
Proof.
  split_and!; try reflexivity.
  - intros p ps body <- Hv rq. split; [reflexivity|]. split.
    + unfold bearer, rq. cbn [headers_of hd_authorization rq_bearer put_request fmap option_fmap option_map mbind option_bind].
      rewrite Hbearer. change ("Bearer " +:+ ps_token ps) with ("Bearer" +:+ String " " (ps_token ps)).
      rewrite split_once_app by reflexivity. cbn [mbind option_bind]. rewrite Htrim. apply String.eqb_neq in Htoken. by rewrite Htoken.
    + cbn. destruct (ps_expected ps) as [v|]; [|done]. cbn. by apply if_match_version.
  - intros b Hw. eexists. split; [reflexivity|]. unfold register_body, parse_json. cbn. rewrite Hw. reflexivity.
  - intros key_id wraps v Hw. eexists. split; [reflexivity|]. unfold keys_body, parse_json. cbn [body_text rq_body keys_request request fmap option_fmap option_map].
    unfold v, written in Hw. rewrite Hw. assert (key_wraps (JArray ((λ w, obj [("agent_id", JString (kw_agent_id w)); ("wrap", JString (kw_wrap w))]) <$> wraps)) = Some wraps) as E.
    { clear. unfold key_wraps. cbn [as_array mbind option_bind]. induction wraps as [|[id w] l IH]; [done|]. cbn [fmap list_fmap mapM]. rewrite IH. reflexivity. }
    transitivity (ws ← key_wraps (JArray ((λ w, obj [("agent_id", JString (kw_agent_id w)); ("wrap", JString (kw_wrap w))]) <$> wraps)); Some (key_id, ws));
      [reflexivity|by rewrite E].
  - intros after Hi Hp Hq. eexists. split; [reflexivity|]. split; [|reflexivity]. unfold report_range.
    cbn [query_text_of rq_query list_request default from_option id]. rewrite Hq. cbn -[pretty parse_i64 Z.leb].
    rewrite (parse_i64_pretty after Hi), (parse_i64_pretty PAGE) by (unfold PAGE, in_i64; lia). cbn -[Z.leb]. apply Z.leb_le in Hp. rewrite Hp. reflexivity.
  - intros up_to Hi Hw. eexists. split; [reflexivity|]. unfold ack_body, parse_json. cbn [body_text rq_body ack_request request fmap option_fmap option_map].
    rewrite Hw. cbn -[pretty parse_i64]. by apply parse_i64_pretty.
  - intros name Hw. eexists. split; [|split; reflexivity]. unfold name_body, parse_json. cbn [body_text rq_body request fmap option_fmap option_map]. rewrite Hw. reflexivity.
Qed.
End requests.

(** ** Answers *)

Section answers.
Context `{Crypto} `{RulesText} `{Web} `{AppText} `{BodyText}.

(** The answer to a push, and what the app makes of it. *)
Definition answers (words : string) (r : Reply) (a : Answer) : Prop := answer_of words r = Some a.
Definition fits (o : option Z) : Prop := match o with Some z => in_i64 z | None => True end.
Lemma current_version words status code v :
  as_i64 (json_get "current_version" (error_json words (with_current v (api_error status code)))) = v ↔
  as_i64 (json_opt json_int v) = v.
Proof. done. Qed.
Lemma as_i64_fits v : fits v → as_i64 (json_opt json_int v) = v.
Proof. destruct v as [z|]; [|done]. intros Hz. by apply parse_i64_pretty. Qed.
(** The list's rows, oldest first, as the app lists them. *)
Definition listed_row (r : ListedReport) : Z * Json := (rp_id r.1.1, report_json r.1.1 r.1.2 r.2).
Lemma report_json_id r name kind : in_i64 (rp_id r) → (0 < rp_id r)%Z → report_id (report_json r name kind) = Some (rp_id r).
Proof.
  intros Hi Hp. unfold report_id. change (json_get "id" (report_json r name kind)) with (json_int (rp_id r)). cbn [as_i64 json_int].
  rewrite parse_i64_pretty by done. cbn [mbind option_bind]. apply Z.ltb_lt in Hp. by rewrite Hp.
Qed.
Lemma strict_ids (l : list (Z * Json)) x y :
  StronglySorted (λ a b, a.1 < b.1)%Z l → x ∈ l → y ∈ l → x.1 = y.1 → x = y.
Proof.
  induction 1 as [|z l Hs IH Hz]; [by intros ?%elem_of_nil|]. rewrite Forall_forall in Hz.
  intros [->|Hx]%elem_of_cons [->|Hy]%elem_of_cons E; [done| | |by apply IH].
  - specialize (Hz y Hy). lia.
  - specialize (Hz x Hx). lia.
Qed.
Lemma sorted_merge_sort (l : list (Z * Json)) : StronglySorted (λ a b, a.1 < b.1)%Z l → merge_sort earlier_id l = l.
Proof.
  intros Hs. apply (StronglySorted_unique_strong earlier_id).
  - intros x1 x2 Hx1 Hx2 H12 H21. rewrite merge_sort_Permutation in Hx1. unfold earlier_id in *. eapply strict_ids; [done..|lia].
  - apply (StronglySorted_merge_sort earlier_id).
  - induction Hs as [|x l Hs IH Hx]; constructor; [done|]. eapply Forall_impl; [exact Hx|]. intros y. unfold earlier_id. lia.
  - apply merge_sort_Permutation.
Qed.
Lemma listed_rows rows pending dropped more epoch :
  (∀ r, r ∈ rows → in_i64 (rp_id r.1.1) ∧ (0 < rp_id r.1.1)%Z) → StronglySorted (λ a b, rp_id a.1.1 < rp_id b.1.1)%Z rows →
  listed (reports_json rows pending dropped more epoch) = listed_row <$> rows.
Proof.
  intros Hids Hs. unfold listed.
  change (as_array (json_get "reports" (reports_json rows pending dropped more epoch))) with
    (Some ((λ r : ListedReport, report_json r.1.1 r.1.2 r.2) <$> rows)). cbn [default from_option id].
  assert (omap (λ v, (λ id, (id, v)) <$> report_id v) ((λ r : ListedReport, report_json r.1.1 r.1.2 r.2) <$> rows) = listed_row <$> rows) as ->.
  { clear Hs. induction rows as [|r rows IH]; [done|]. cbn [fmap list_fmap omap list_omap]. destruct (Hids r ltac:(by left)) as [Hi Hp].
    rewrite report_json_id by done. cbn [fmap option_fmap option_map]. rewrite IH; [done|]. intros r' Hr'. apply Hids. by right. }
  apply sorted_merge_sort. induction Hs as [|r rows Hs IH Hr]; cbn; constructor; [apply IH; intros r' Hr'; apply Hids; by right|].
  rewrite Forall_fmap. eapply Forall_impl; [exact Hr|]. done.
Qed.
Lemma parse_u64_nat n : (Z.of_nat n < 2 ^ 64)%Z → parse_u64 (pretty (Z.of_nat n)) = Some (Z.of_nat n).
Proof.
  intros Hn. replace (pretty (Z.of_nat n)) with (pretty (N.of_nat n)) by (by destruct n).
  destruct (pretty_N_head (N.of_nat n)) as (a & s & E & Ha). unfold parse_u64, parse_unsigned.
  rewrite E, strip_prefix_digit by done. cbn [default from_option]. rewrite <-E, parse_N_pretty. cbn [mbind option_bind].
  rewrite nat_N_Z. by apply Z.ltb_lt in Hn as ->.
Qed.
(** The app takes each answer of the server for what it says: the token
    of a registration; a push that was refused for another version, whose
    number it goes on from, or for want of encryption, which it turns on;
    how many keys were stored; an agent's token, a connect code; and the
    reports, in the order of their ids, under the server's epoch. *)
Theorem answers_are_read words server :
  (∀ address token a rt, token ≠ "" → answers words (MailboxRegistered address token) a → registered server address rt a = Ok token) ∧
  (∀ latest kept a, answers words (SnapshotVersion latest kept) a → an_status a = 200) ∧
  (∀ v e a p ps at_, e ∈ [api_error 412 "version_mismatch"; api_error 428 "if_match_required"; api_error 409 "version_not_newer"] → fits v →
     answers words (Failed (with_current v e)) a →
     transient (sv_host server) a = None ∧ after_answer p ps at_ a = mret (Some (above v ps))) ∧
  (∀ a p ps at_, ps_encrypt ps = false → answers words (Failed (api_error 422 "encryption_required")) a →
     after_answer p ps at_ a = (r ← op (UpdateRecord (pb_account p) (with_encrypt true)); _ ← core r; mret (Some (encrypting ps)))) ∧
  (∀ n a, (Z.of_nat n < 2 ^ 64)%Z → answers words (KeysStored n) a → an_status a = 200 ∧ stored_of a = n) ∧
  (∀ row token a, answers words (TokenMinted row token) a →
     managed (sv_host server) "" a = Ok (an_body a) ∧ as_str (json_get "id" (an_body a)) = Some (ag_id row) ∧
     as_str (json_get "token" (an_body a)) = Some token) ∧
  (∀ row code a, answers words (CodeMinted row code) a →
     managed (sv_host server) "" a = Ok (an_body a) ∧ as_str (json_get "code" (an_body a)) = Some code ∧
     millis (json_get "expires_at" (an_body a)) = millis (time (cc_expires_at row))) ∧
  (∀ rows pending dropped more epoch a, epoch ≠ "" → (∀ r, r ∈ rows → in_i64 (rp_id r.1.1) ∧ (0 < rp_id r.1.1)%Z) →
     StronglySorted (λ x y, rp_id x.1.1 < rp_id y.1.1)%Z rows → answers words (ReportsListed rows pending dropped more epoch) a →
     list_answer (sv_host server) a = Ok true ∧ listed (an_body a) = listed_row <$> rows ∧
     is_true (json_get "more" (an_body a)) = more ∧ reports_key server (an_body a) = sv_url server +:+ "#" +:+ line epoch 64).
Proof.
  unfold answers. split_and!.
  - intros address token a rt Hne [= <-]. apply String.eqb_neq in Hne.
    match goal with |- ?l = _ => assert (∃ X, l = if not_empty token then Ok token else X) as [X ->] by (eexists; reflexivity) end.
    unfold not_empty. by rewrite Hne.
  - by intros latest kept a [= <-].
  - intros v e a p ps at_ He Hv Ha. injection Ha as <-. rewrite <-(as_i64_fits v Hv) at 3.
    repeat (apply elem_of_cons in He as [->|He]; [split; reflexivity|]). by apply elem_of_nil in He.
  - intros a p ps at_ Hps [= <-]. unfold after_answer. cbn -[mret]. rewrite Hps. reflexivity.
  - intros n a Hn [= <-]. split; [done|]. unfold stored_of. change (json_get "stored" _) with (json_int (Z.of_nat n)).
    cbn [json_int]. rewrite parse_u64_nat by done. cbn [default from_option id]. apply Nat2Z.id.
  - intros row token a [= <-]. split; [done|]. unfold token_json, token_json_with. by destruct (String.eqb (ag_kind row) KIND_OAUTH).
  - by intros row code a [= <-].
  - intros rows pending dropped more epoch a Hne Hids Hs [= <-]. split; [done|]. split; [by apply listed_rows|]. split; [by destruct more|].
    unfold reports_key. change (as_str (json_get "epoch" _)) with (Some epoch). apply String.eqb_neq in Hne. unfold not_empty. by rewrite Hne.
Qed.
End answers.
