(* ===== verification/RulesReading.v ===== *)
(** * RulesReading: what the app publishes is what its agents read

    The app's sealed push, as the server checks and stores it, opened for
    each agent the app wrapped the key for, and for no other. *)

From Stdlib Require Import Ascii.
From S2P Require Import Prelude.
From S2P Require Import Domain.
From S2P Require Import Text.
From S2P Require Import Json.
From S2P Require Import Guide.
From S2P Require Import Facade.
From S2P Require Import Agents.
From S2P Require Import RulesTokens.
From S2P Require Import RulesDb.
From S2P Require Import RulesCrypto.
From S2P Require Import RulesPublish.
From S2P Require Import RulesOAuth.
From S2P Require Import RulesServer.
From S2P Require Import RulesHandlers.
From S2P Require Import RulesWorld.
From S2P Require Import RulesGrants.
From S2P Require Import RulesApp.
From S2P Require Import CloudReports.
From S2P Require Import RulesPush.
From S2P Require Import RulesPull.
From S2P Require Import RulesWire.
From S2P Require Import Effects.
Import App.
Import Publisher.
Import Wire.

(** ** Wraps as the server stores them *)

Definition key_for (key_id agent : string) (d : RulesDb) : option SnapshotKeyRow :=
  List.find (λ k, bool_decide (Some (sk_key_id k) = Some key_id) && String.eqb (sk_agent_id k) agent) (d_snapshot_keys d).
(** An agent of the mailbox that may be given a key. *)
Definition takes_keys (mailbox : Z) (agent : string) (d : RulesDb) : bool :=
  List.existsb (λ a, is_agent agent a && (ag_mailbox_id (ar_row a) =? mailbox)%Z && is_live a) (d_agents d).
Lemma find_none_filter {A} (p q : A → bool) l : (∀ x, p x = true → q x = false) → List.find p (List.filter q l) = None.
Proof.
  intros Hpq. induction l as [|x l IH]; [done|]. cbn. destruct (q x) eqn:Eq; [|done]. cbn. destruct (p x) eqn:Ep; [|done].
  by rewrite (Hpq x Ep) in Eq.
Qed.
Lemma find_same_filter {A} (p q : A → bool) l : (∀ x, p x = true → q x = true) → List.find p (List.filter q l) = List.find p l.
Proof.
  intros Hpq. induction l as [|x l IH]; [done|]. cbn. destruct (p x) eqn:Ep.
  - rewrite (Hpq x Ep). cbn. by rewrite Ep.
  - destruct (q x); [|done]. cbn. by rewrite Ep.
Qed.
Lemma insert_key_agents mailbox key_id w d n : d_agents (insert_snapshot_key mailbox key_id w (d, n)).1 = d_agents d.
Proof. unfold insert_snapshot_key. by case_match. Qed.
Lemma insert_key_snapshots mailbox key_id w d n : d_snapshots (insert_snapshot_key mailbox key_id w (d, n)).1 = d_snapshots d.
Proof. unfold insert_snapshot_key. by case_match. Qed.
Lemma key_for_inserted mailbox key_id agent w d n :
  takes_keys mailbox agent d = true →
  key_for key_id agent (insert_snapshot_key mailbox key_id (agent, w) (d, n)).1 = Some (mkSnapshotKey mailbox key_id agent w).
Proof.
  intros Ht. unfold insert_snapshot_key. cbn [fst snd]. unfold takes_keys in Ht. rewrite Ht. unfold key_for. cbn.
  rewrite find_app, find_none_filter; [cbn; by rewrite bool_decide_true, String.eqb_refl|].
  intros k Hk. apply andb_true_iff in Hk as [Hk%bool_decide_eq_true ->]. injection Hk as ->. by rewrite String.eqb_refl.
Qed.
Lemma key_for_other mailbox key_id agent w d n :
  w.1 ≠ agent → key_for key_id agent (insert_snapshot_key mailbox key_id w (d, n)).1 = key_for key_id agent d.
Proof.
  intros Hne. unfold insert_snapshot_key. case_match; [|done]. unfold key_for. cbn. rewrite find_app, find_same_filter.
  - destruct (List.find _ _); [done|]. cbn. apply String.eqb_neq in Hne. by rewrite Hne, andb_false_r.
  - intros k [_ ->%String.eqb_eq]%andb_true_iff. assert (String.eqb agent w.1 = false) as -> by (apply String.eqb_neq; congruence).
    by rewrite andb_false_r.
Qed.
Lemma insert_keys_agents mailbox key_id ws dn :
  d_agents (foldl (λ dn w, insert_snapshot_key mailbox key_id w dn) dn ws).1 = d_agents dn.1 ∧
  d_snapshots (foldl (λ dn w, insert_snapshot_key mailbox key_id w dn) dn ws).1 = d_snapshots dn.1.
Proof.
  revert dn. induction ws as [|w ws IH]; intros [d n]; [done|]. cbn [foldl].
  destruct (IH (insert_snapshot_key mailbox key_id w (d, n))) as [-> ->]. by rewrite insert_key_agents, insert_key_snapshots.
Qed.
Lemma keys_for_other mailbox key_id agent ws dn :
  agent ∉ ws.*1 → key_for key_id agent (foldl (λ dn w, insert_snapshot_key mailbox key_id w dn) dn ws).1 = key_for key_id agent dn.1.
Proof.
  revert dn. induction ws as [|w ws IH]; intros [d n] Hn; [done|]. cbn [foldl]. rewrite IH by set_solver.
  apply key_for_other. set_solver.
Qed.
Lemma keys_for_inserted mailbox key_id agent w ws dn :
  NoDup ws.*1 → (agent, w) ∈ ws → takes_keys mailbox agent dn.1 = true →
  key_for key_id agent (foldl (λ dn w, insert_snapshot_key mailbox key_id w dn) dn ws).1 = Some (mkSnapshotKey mailbox key_id agent w).
Proof.
  revert dn. induction ws as [|w' ws IH]; intros [d n] Hd Hin Ht; [by apply elem_of_nil in Hin|]. cbn [foldl].
  cbn in Hd. apply NoDup_cons in Hd as [Hni Hd]. apply elem_of_cons in Hin as [<-|Hin].
  - rewrite keys_for_other by done. by apply key_for_inserted.
  - apply IH; [done..|]. unfold takes_keys. by rewrite insert_key_agents.
Qed.

(** None for an agent revoked, or of another mailbox. *)
Lemma keys_for_barred mailbox key_id agent ws dn :
  takes_keys mailbox agent dn.1 = false →
  key_for key_id agent (foldl (λ dn w, insert_snapshot_key mailbox key_id w dn) dn ws).1 = key_for key_id agent dn.1.
Proof.
  revert dn. induction ws as [|[id w] ws IH]; intros [d n] Ht; [done|]. cbn [foldl].
  rewrite IH; [|unfold takes_keys; rewrite insert_key_agents; exact Ht]. destruct (decide (id = agent)) as [->|Hne]; [|by apply key_for_other].
  unfold insert_snapshot_key. cbn [fst snd]. unfold takes_keys in Ht. cbn [fst] in Ht. by rewrite Ht.
Qed.

(** ** The newest snapshot *)

#[local] Instance newest_version_total : Total newest_version.
Proof. intros a b. unfold newest_version. lia. Qed.
#[local] Instance newest_version_trans : Transitive newest_version.
Proof. intros a b c. unfold newest_version. lia. Qed.
Lemma head_sorted_max (l : list SnapshotRow) row :
  row ∈ l → (∀ s, s ∈ l → s = row ∨ (sn_version s < sn_version row)%Z) → head (merge_sort newest_version l) = Some row.
Proof.
  intros Hin Hmax. pose proof (StronglySorted_merge_sort newest_version l) as Hs. pose proof (merge_sort_Permutation newest_version l) as Hp.
  destruct (merge_sort newest_version l) as [|x m]; [by rewrite <-Hp in Hin; apply elem_of_nil in Hin|]. cbn. f_equal.
  assert (x ∈ l) as Hx by (rewrite <-Hp; by left). destruct (Hmax x Hx) as [?|Hlt]; [done|]. exfalso.
  rewrite <-Hp in Hin. apply elem_of_cons in Hin as [->|Hin]; [lia|]. apply StronglySorted_inv in Hs as [_ Hall].
  rewrite Forall_forall in Hall. specialize (Hall row Hin). unfold newest_version in Hall. lia.
Qed.
Lemma latest_max mailbox d row : latest_snapshot mailbox d = Some row → ∀ s, (mailbox, s) ∈ d_snapshots d → (sn_version s ≤ sn_version row)%Z.
Proof.
  unfold latest_snapshot, snapshots_of. set (l := snd <$> _). intros Hh s Hs.
  assert (s ∈ l) as Hl by (apply list_elem_of_fmap; exists (mailbox, s); split; [done|]; apply list_elem_of_In, List.filter_In; rewrite <-list_elem_of_In; by rewrite Z.eqb_refl).
  pose proof (StronglySorted_merge_sort newest_version l) as Hst. pose proof (merge_sort_Permutation newest_version l) as Hp.
  destruct (merge_sort newest_version l) as [|x m]; [done|]. injection Hh as ->. rewrite <-Hp in Hl.
  apply elem_of_cons in Hl as [->|Hl]; [lia|]. apply StronglySorted_inv in Hst as [_ Hall]. rewrite Forall_forall in Hall. exact (Hall s Hl).
Qed.

Lemma latest_none mailbox d : latest_snapshot mailbox d = None → ∀ s, (mailbox, s) ∉ d_snapshots d.
Proof.
  unfold latest_snapshot, snapshots_of. set (l := snd <$> _). intros Hh s Hs.
  assert (s ∈ l) as Hl by (apply list_elem_of_fmap; exists (mailbox, s); split; [done|]; apply list_elem_of_In, List.filter_In; rewrite <-list_elem_of_In; by rewrite Z.eqb_refl).
  rewrite <-(merge_sort_Permutation newest_version l) in Hl. apply head_None in Hh. rewrite Hh in Hl. by apply elem_of_nil in Hl.
Qed.
Lemma elem_of_filter_bool {A} (p : A → bool) x l : x ∈ List.filter p l ↔ x ∈ l ∧ p x = true.
Proof. rewrite !list_elem_of_In. apply List.filter_In. Qed.
(** Stored and the newest: what is above every version there is. *)
Lemma latest_is mailbox d row :
  (mailbox, row) ∈ d_snapshots d → (∀ s, (mailbox, s) ∈ d_snapshots d → s = row ∨ (sn_version s < sn_version row)%Z) →
  latest_snapshot mailbox d = Some row.
Proof.
  intros Hin Hmax. apply head_sorted_max.
  - apply list_elem_of_fmap. exists (mailbox, row). split; [done|]. apply elem_of_filter_bool. by rewrite Z.eqb_refl.
  - intros s ([m s'] & -> & Hs)%list_elem_of_fmap. apply elem_of_filter_bool in Hs as [Hs Hm]. cbn in Hm. apply Z.eqb_eq in Hm as ->.
    by apply Hmax.
Qed.

Section pushed.
Context `{Crypto} `{RulesText}.

Lemma not_refused_newer mailbox row push expected d :
  push_refused mailbox row (Some push) expected d = None → ∀ s, (mailbox, s) ∈ d_snapshots d → (sn_version s < sn_version row)%Z.
Proof.
  unfold push_refused. destruct (latest_snapshot mailbox d) as [l|] eqn:El; cbn.
  - intros Hp s Hs. pose proof (latest_max _ _ _ El s Hs) as Hle. destruct (app_key mailbox d), expected as [v|]; try done;
      (destruct (negb _); [done|]; destruct (Z.leb_spec (sn_version row) (sn_version l)); [done|lia]).
  - intros _ s Hs. by apply (latest_none _ _ El) in Hs.
Qed.
Lemma insert_snapshot_stored mailbox row now d :
  List.existsb (λ m, (mb_id m =? mailbox)%Z) (d_mailboxes d) = true →
  (∀ s, (mailbox, s) ∈ d_snapshots d → (sn_version s < sn_version row)%Z) →
  ∃ d', insert_snapshot mailbox row now d = (d', Ok ()) ∧ d_agents d' = d_agents d ∧
    (mailbox, row) ∈ d_snapshots d' ∧ (∀ s, (mailbox, s) ∈ d_snapshots d' → s = row ∨ (sn_version s < sn_version row)%Z) ∧
    ∀ k, k ∈ d_snapshot_keys d' → k ∈ d_snapshot_keys d.
Proof.
  intros Hm Hnew. unfold insert_snapshot.
  assert (List.existsb (λ s, (s.1 =? mailbox)%Z && (sn_version s.2 =? sn_version row)%Z) (d_snapshots d) = false) as ->.
  { apply not_true_iff_false. intros ([m s] & Hs & Hv)%existsb_true. cbn in Hv.
    apply andb_true_iff in Hv as [->%Z.eqb_eq Hv%Z.eqb_eq]. specialize (Hnew s Hs). lia. }
  rewrite Hm. cbn [negb orb]. set (d1 := on_snapshots _ d).
  assert ((mailbox, row) ∈ d_snapshots d1) as Hin1 by (cbn; set_solver).
  assert (∀ s, (mailbox, s) ∈ d_snapshots d1 → s = row ∨ (sn_version s < sn_version row)%Z) as Hmax1.
  { intros s. cbn. rewrite elem_of_app, list_elem_of_singleton. intros [Hs|[= ->]]; [right; by apply Hnew|by left]. }
  pose proof (latest_is mailbox d1 row Hin1 Hmax1) as Hl. eexists. split; [done|]. split; [done|]. cbn [d_snapshots on_snapshots on_snapshot_keys].
  split; [|split].
  - apply elem_of_filter_bool. split; [exact Hin1|]. rewrite Z.eqb_refl. cbn [negb orb fst snd]. apply bool_decide_eq_true.
    unfold versions. unfold latest_snapshot in Hl. destruct (snapshots_of mailbox d1) as [|x l]; [done|]. injection Hl as ->. cbn. by left.
  - intros s [Hs _]%elem_of_filter_bool. by apply Hmax1.
  - intros k. cbn. intros [Hk _]%elem_of_filter_bool. exact Hk.
Qed.
Lemma takes_keys_set_app mailbox key m id d : takes_keys m id (set_app_key mailbox key d) = takes_keys m id d.
Proof.
  unfold set_app_key. case_match; [|done]. unfold takes_keys. cbn.
  induction (d_agents d) as [|a l IH]; [done|]. cbn. rewrite IH. by destruct (ag_mailbox_id (ar_row a) =? mailbox)%Z.
Qed.
Lemma set_app_snapshots mailbox key d : d_snapshots (set_app_key mailbox key d) = d_snapshots d.
Proof. unfold set_app_key. by case_match. Qed.
Lemma set_app_keys_same mailbox key d : d_snapshot_keys (set_app_key mailbox key d) = d_snapshot_keys d.
Proof. unfold set_app_key. by case_match. Qed.
Lemma key_for_none key_id id d : (∀ k, k ∈ d_snapshot_keys d → sk_key_id k ≠ key_id) → key_for key_id id d = None.
Proof.
  intros Hf. apply find_None. intros k Hk. rewrite bool_decide_false; [done|]. intros [= E]. by destruct (Hf k Hk).
Qed.
(** A sealed push is stored, is the newest, and is wrapped for the agents
    in it that are the mailbox's and live, and for no other. *)
Lemma publish_stored dice mailbox address row push expected now d sealed key_id :
  List.existsb (λ m, (mb_id m =? mailbox)%Z) (d_mailboxes d) = true →
  push_refused mailbox row (Some push) expected d = None → sn_key_id row = Some key_id → sn_sealed row = Some sealed →
  (∀ k, k ∈ d_snapshot_keys d → sk_key_id k ≠ key_id) → NoDup (pu_wraps push).*1 →
  ∃ d' kept, publish dice mailbox address row (Some push) expected now d = (d', Ok (Stored kept)) ∧
    latest_snapshot mailbox d' = Some row ∧
    (∀ id w, (id, w) ∈ pu_wraps push → takes_keys mailbox id d = true → key_for key_id id d' = Some (mkSnapshotKey mailbox key_id id w)) ∧
    (∀ id, id ∉ (pu_wraps push).*1 ∨ takes_keys mailbox id d = false → key_for key_id id d' = None).
Proof.
  intros Hm Hr Hk Hs Hfresh Hd. pose proof (not_refused_newer _ _ _ _ _ Hr) as Hnew.
  destruct (insert_snapshot_stored mailbox row now d Hm Hnew) as (d1 & Hi & Ha & Hin & Hmax & Hkeys).
  destruct (insert_keys_agents mailbox key_id (pu_wraps push) (set_app_key mailbox (pu_app_key push) d1, 0)) as [_ Hsn].
  pose proof (λ id w Hw, keys_for_inserted mailbox key_id id w (pu_wraps push) (set_app_key mailbox (pu_app_key push) d1, 0) Hd Hw) as Hins.
  pose proof (λ id, keys_for_other mailbox key_id id (pu_wraps push) (set_app_key mailbox (pu_app_key push) d1, 0)) as Hoth.
  set (d2 := foldl _ _ _) in Hsn, Hins, Hoth. cbn [fst] in Hsn, Hins, Hoth. rewrite set_app_snapshots in Hsn.
  set (d3 := (delete_plain_snapshots mailbox d2.1).1).
  destruct (seal_reports_only dice mailbox address (pu_app_key push) d3) as [f Hf].
  exists (on_reports f d3), (versions mailbox (on_reports f d3)). split; [|split; [|split]].
  - unfold publish, transaction. rewrite Hr. unfold store_push, mbind, action_bind. rewrite Hi. cbn [execute query].
    unfold encrypt_mailbox. rewrite Hk. cbn [default from_option id]. fold d2. unfold insert_snapshot_keys.
    change (foldl _ (set_app_key mailbox (pu_app_key push) d1, 0) (pu_wraps push)) with d2. fold d3. by rewrite Hf.
  - change (latest_snapshot mailbox (on_reports f d3)) with (latest_snapshot mailbox d3). apply latest_is.
    + apply elem_of_filter_bool. rewrite Hsn. split; [done|]. unfold is_plain. cbn [fst snd]. by rewrite Hs, andb_false_r.
    + intros s [Hs' _]%elem_of_filter_bool. rewrite Hsn in Hs'. by apply Hmax.
  - intros id w Hw Ht. change (key_for key_id id d2.1 = Some (mkSnapshotKey mailbox key_id id w)). apply Hins; [done|].
    rewrite takes_keys_set_app. unfold takes_keys. rewrite Ha. exact Ht.
  - intros id Hid. change (key_for key_id id d2.1 = None).
    assert (key_for key_id id (set_app_key mailbox (pu_app_key push) d1) = None) as Hnone.
    { apply key_for_none. intros k. rewrite set_app_keys_same. intros Hk'. by apply Hfresh, Hkeys. }
    destruct Hid as [Hid|Hid]; [by rewrite Hoth|]. unfold d2. rewrite keys_for_barred; [done|].
    cbn [fst]. rewrite takes_keys_set_app. unfold takes_keys. by rewrite Ha.
Qed.
End pushed.

(** ** Wraps as the app makes them *)

Section wraps.
Context `{CryptoLaws} `{RulesText}.

Lemma NoDup_omap {A B C} (f : A → option B) (g : B → C) (h : A → C) l :
  (∀ x y, f x = Some y → g y = h x) → NoDup (h <$> l) → NoDup (g <$> omap f l).
Proof.
  intros Hf. induction l as [|x l IH]; cbn; [done|]. intros [Hx Hd]%NoDup_cons. destruct (f x) as [y|] eqn:Ey; [|by apply IH].
  cbn. apply NoDup_cons. split; [|by apply IH]. rewrite (Hf x y Ey). intros (y' & Hy' & Hin)%list_elem_of_fmap. apply Hx.
  apply list_elem_of_omap in Hin as (x' & Hx' & E'). rewrite Hy', (Hf x' y' E'). apply list_elem_of_fmap. by exists x'.
Qed.
Definition id_of (a : Json) : option string := as_str (json_get "id" a).
Lemma token_id t client used keys : json_get "id" (token_json_with t client used keys) = JString (ag_id t).
Proof. unfold token_json_with. destruct (String.eqb (ag_kind t) KIND_OAUTH), keys as [[[s|] r]|]; reflexivity. Qed.
Lemma token_revoked t client used keys :
  json_get "revoked_at" (token_json_with t client used keys) = time_or_null (ag_revoked_at t).
Proof. unfold token_json_with. destruct (String.eqb (ag_kind t) KIND_OAUTH), keys as [[[s|] r]|]; reflexivity. Qed.
Lemma token_key t client used keys :
  as_str (json_get "agent_key" (token_json_with t client used keys)) = b64 <$> (keys ≫= fst).
Proof. unfold token_json_with. destruct (String.eqb (ag_kind t) KIND_OAUTH), keys as [[[s|] r]|]; reflexivity. Qed.
Lemma unb64_b64 s : unb64 (b64 s) = Ok s.
Proof. unfold unb64. by rewrite b64_trimmed, b64_decode. Qed.
Lemma tokens_listed rows keys key_id :
  as_array (json_get "agent_tokens" (tokens_json rows keys key_id)) =
  Some ((λ r, token_json_with r.1.1 r.1.2 r.2 (keys_of (ag_id r.1.1) keys)) <$> rows).
Proof. reflexivity. Qed.
Lemma rev_reverse {A} (l : list A) : List.rev l = reverse l.
Proof. apply List.rev_alt. Qed.
Lemma find_unique {A} (f : A → string) l x : NoDup (f <$> l) → x ∈ l → List.find (λ y, String.eqb (f y) (f x)) l = Some x.
Proof.
  induction l as [|y l IH]; intros Hd Hx; [by apply elem_of_nil in Hx|]. cbn in Hd. apply NoDup_cons in Hd as [Hy Hd]. cbn.
  apply elem_of_cons in Hx as [->|Hx]; [by rewrite String.eqb_refl|]. destruct (String.eqb_spec (f y) (f x)) as [E|_]; [|by apply IH].
  destruct Hy. rewrite E. apply list_elem_of_fmap. by exists x.
Qed.
Definition of_box (mailbox : Z) (d : RulesDb) : list AgentRow := List.filter (λ a, (ag_mailbox_id (ar_row a) =? mailbox)%Z) (d_agents d).
Definition agent_ids (d : RulesDb) : list string := (λ a, ag_id (ar_row a)) <$> d_agents d.
Lemma keys_of_agent mailbox d a :
  NoDup (agent_ids d) → a ∈ of_box mailbox d →
  keys_of (ag_id (ar_row a)) (agent_readability mailbox d) = Some (ar_app_seal a, readable mailbox (ag_id (ar_row a)) d).
Proof.
  intros Hd Ha. unfold keys_of, agent_readability. fold (of_box mailbox d).
  set (row := λ a, (ag_id (ar_row a), ar_app_seal a, readable mailbox (ag_id (ar_row a)) d)).
  change (ag_id (ar_row a)) with ((λ k : string * option Bytes * bool, k.1.1) (row a)) at 1. rewrite find_unique; [done| |].
  - rewrite rev_reverse, fmap_reverse, reverse_Permutation, <-list_fmap_compose. by apply NoDup_fmap_filter.
  - rewrite rev_reverse, elem_of_reverse. by apply list_elem_of_fmap_2.
Qed.
(** An agent as the app sees it listed. *)
Definition listed_as (mailbox : Z) (d : RulesDb) (r : AgentTokenRow * option string * option Millis) : Json :=
  token_json_with r.1.1 r.1.2 r.2 (keys_of (ag_id r.1.1) (agent_readability mailbox d)).
Definition listing (mailbox : Z) (d : RulesDb) (key_id : option string) : Json :=
  tokens_json (agent_tokens mailbox d) (agent_readability mailbox d) key_id.
Lemma agent_tokens_rows mailbox d r : r ∈ agent_tokens mailbox d ↔ ∃ a, a ∈ of_box mailbox d ∧ r.1.1 = ar_row a ∧
  r = (ar_row a, cl_name <$> (ag_client_id (ar_row a) ≫= λ c, List.find (λ cl, String.eqb (cl_id cl) c) (d_clients d)), ar_last_used_at a).
Proof.
  unfold agent_tokens. rewrite list_elem_of_fmap. setoid_rewrite merge_sort_Permutation. fold (of_box mailbox d).
  split; [intros (a & -> & Ha); by exists a|intros (a & Ha & _ & ->); by exists a].
Qed.
Lemma agent_tokens_ids mailbox d : NoDup (agent_ids d) → NoDup ((λ r, ag_id r.1.1) <$> agent_tokens mailbox d).
Proof.
  intros Hd. unfold agent_tokens. rewrite <-list_fmap_compose, merge_sort_Permutation. by apply NoDup_fmap_filter.
Qed.

Context (app key : Bytes) (nonces : nat → Bytes) (key_id : string) (mailbox : Z) (d : RulesDb) (listed_id : option string).
#[local] Abbreviation wraps := (wraps_for nonces app (listing mailbox d listed_id) key key_id false).
#[local] Abbreviation numbered := (zip (seq 0 (length (agent_tokens mailbox d))) (listed_as mailbox d <$> agent_tokens mailbox d)).
Lemma wraps_eq :
  wraps = omap (λ na, wrap_for app key (nonces na.1) key_id na.2)
            (List.filter (λ na, is_null (json_get "revoked_at" na.2) && negb (false && is_true (json_get "readable" na.2))) numbered).
Proof. unfold wraps_for, listing. rewrite tokens_listed, length_fmap. reflexivity. Qed.
(** A wrap is of an agent listed, under its own key. *)
Lemma wrap_for_is nonce a w :
  wrap_for app key nonce key_id a = Some w →
  id_of a = Some (kw_agent_id w) ∧ ∃ agent sealed, as_str (json_get "agent_key" a) ≫= (λ t, ok (unb64 t)) = Some sealed ∧
    open_agent_key app sealed (kw_agent_id w) = Ok agent ∧ kw_wrap w = b64 (wrap_snapshot_key agent nonce key (kw_agent_id w) key_id).
Proof.
  unfold wrap_for. intros (id & Hid & Hw)%bind_Some. apply bind_Some in Hw as (text & Ht & Hw).
  apply bind_Some in Hw as (sealed & Hs & Hw). apply bind_Some in Hw as (agent & Ha & [= <-]). split; [done|].
  exists agent, sealed. rewrite Ht. cbn. split; [done|]. split; [by apply ok_Some|done].
Qed.
Lemma wraps_ids : NoDup (agent_ids d) → NoDup (kw_agent_id <$> wraps).
Proof.
  intros Hd. rewrite wraps_eq. apply (NoDup_fmap_1 Some). rewrite <-list_fmap_compose.
  apply (NoDup_omap _ _ (λ na, id_of na.2)); [by intros na w (-> & _)%wrap_for_is|]. apply NoDup_fmap_filter.
  change (λ na : nat * Json, id_of na.2) with (id_of ∘ @snd nat Json).
  rewrite (list_fmap_compose snd id_of), snd_zip by (rewrite length_seq, length_fmap; lia). rewrite <-list_fmap_compose.
  rewrite (list_fmap_ext _ (Some ∘ λ r, ag_id r.1.1)), list_fmap_compose.
  - apply NoDup_fmap_2; [apply _|by apply agent_tokens_ids].
  - intros i r _. cbn. unfold id_of, listed_as. by rewrite token_id.
Qed.
Lemma wrapped a s agent :
  NoDup (agent_ids d) → a ∈ of_box mailbox d → is_live a = true → ar_app_seal a = Some s →
  open_agent_key app s (ag_id (ar_row a)) = Ok agent →
  ∃ i, mkKeyWrap (ag_id (ar_row a)) (b64 (wrap_snapshot_key agent (nonces i) key (ag_id (ar_row a)) key_id)) ∈ wraps.
Proof.
  intros Hd Ha Hl Hs Ho. set (client := cl_name <$> (ag_client_id (ar_row a) ≫= λ c, List.find (λ cl, String.eqb (cl_id cl) c) (d_clients d))).
  assert ((ar_row a, client, ar_last_used_at a) ∈ agent_tokens mailbox d) as Hr by (apply agent_tokens_rows; by exists a).
  apply list_elem_of_lookup in Hr as [i Hi]. exists i. rewrite wraps_eq. apply list_elem_of_omap.
  exists (i, listed_as mailbox d (ar_row a, client, ar_last_used_at a)). split.
  - apply elem_of_filter_bool. split.
    + apply list_elem_of_lookup. exists i. rewrite lookup_zip_with. rewrite lookup_seq_lt by by eapply lookup_lt_Some.
      rewrite list_lookup_fmap, Hi. done.
    + cbn [snd]. unfold listed_as. rewrite token_revoked. unfold is_live in Hl. cbn [fst]. by destruct (ag_revoked_at (ar_row a)).
  - unfold wrap_for. cbn [snd fst]. unfold listed_as. rewrite token_id, token_key. cbn [fst]. rewrite keys_of_agent by done. cbn [mbind option_bind as_str fst].
    rewrite Hs. cbn [fmap option_fmap option_map mbind option_bind]. rewrite unb64_b64. cbn [ok mbind option_bind]. by rewrite Ho.
Qed.
Lemma wraps_are w :
  NoDup (agent_ids d) → w ∈ wraps → ∃ a s agent i, a ∈ of_box mailbox d ∧ kw_agent_id w = ag_id (ar_row a) ∧ ar_app_seal a = Some s ∧
    open_agent_key app s (ag_id (ar_row a)) = Ok agent ∧
    kw_wrap w = b64 (wrap_snapshot_key agent (nonces i) key (ag_id (ar_row a)) key_id).
Proof.
  intros Hd Hw. rewrite wraps_eq in Hw. apply list_elem_of_omap in Hw as ([i v] & [Hin _]%elem_of_filter_bool & Hw).
  apply wrap_for_is in Hw as (Hid & agent & s & Hs & Ho & Hwrap). cbn [fst snd] in *. apply elem_of_zip_r in Hin.
  apply list_elem_of_fmap in Hin as (r & -> & Hr). apply agent_tokens_rows in Hr as (a & Ha & Hrow & _).
  unfold id_of, listed_as in Hid. rewrite token_id in Hid. injection Hid as Hid. rewrite Hrow in Hid. rewrite <-Hid in Ho, Hwrap.
  unfold listed_as in Hs. rewrite token_key, Hrow, keys_of_agent in Hs by done. cbn [mbind option_bind fst] in Hs.
  destruct (ar_app_seal a) as [s'|] eqn:Es; [|done]. cbn [fmap option_fmap option_map mbind option_bind] in Hs.
  rewrite unb64_b64 in Hs. injection Hs as ->. by exists a, s, agent, i.
Qed.
End wraps.

Section decoding.
Context `{CryptoLaws} `{RulesText}.
Lemma mapM_wrap_of ws :
  (∀ w, w ∈ ws → valid_agent_id (kw_agent_id w) = true ∧ ∃ bytes, kw_wrap w = b64 bytes ∧ String.length bytes ≤ 256) →
  ∃ pairs, mapM wrap_of ws = Some pairs ∧ pairs.*1 = kw_agent_id <$> ws ∧
    ∀ id bytes, mkKeyWrap id (b64 bytes) ∈ ws → (id, bytes) ∈ pairs.
Proof.
  induction ws as [|w ws IH]; intros Hw; [exists []; split; [done|]; split; [done|]; by intros ?? ?%elem_of_nil|].
  destruct IH as (pairs & Hp & Hids & Hin); [intros w' Hw'; apply Hw; by right|].
  destruct (Hw w ltac:(by left)) as (Hv & bytes & Hb & Hlen). exists ((kw_agent_id w, bytes) :: pairs).
  assert (wrap_of w = Some (kw_agent_id w, bytes)) as E.
  { unfold wrap_of. rewrite Hb, unb64_b64. cbn [ok mbind option_bind]. rewrite Hv. cbn [negb orb].
    destruct (Nat.ltb_spec 256 (String.length bytes)) as [Hlt|_]; [exfalso; clear -Hlt Hlen; lia|done]. }
  cbn. rewrite E. cbn. rewrite Hp. cbn. split; [done|]. split; [by rewrite Hids|]. intros id b [Hw'|Hin']%elem_of_cons; [|right; by apply Hin].
  subst w. cbn in *. assert (bytes = b) as -> by (apply (inj Some); by rewrite <-(b64_decode bytes), <-(b64_decode b), Hb). by left.
Qed.
End decoding.

(** ** Published, and read *)

Section published.
Context `{CryptoLaws} `{RulesText}.

(** The push as the app makes it, from what the server listed. *)
Definition app_sealing (nonces : nat → Bytes) (app key : Bytes) (key_id : string) (mailbox : Z) (d : RulesDb) (listed_id : option string) : Sealing :=
  mkSealing app key key_id (wraps_for nonces app (listing mailbox d listed_id) key key_id false).
Lemma length_omap_le {A B} (f : A → option B) l : length (omap f l) ≤ length l.
Proof. induction l as [|x l IH]; cbn; [done|]. destruct (f x); cbn; lia. Qed.
(** What the server can read of a sealed push. *)
Lemma sealed_snapshot_reads s nonce snap :
  in_i64 (Guide.sn_version snap) → in_i64 (Guide.sn_published_at snap) →
  sealed_snapshot (sealed_json s nonce snap) =
  Some (mkSealed ENCRYPTION_VERSION (se_key_id s) (Guide.sn_version snap) (Guide.sn_published_at snap) SCHEMA_VERSION
          (mx_address (sn_mailbox snap))
          (b64 (seal_snapshot lowercase (se_key s) nonce (se_key_id s) (mx_address (sn_mailbox snap)) (Guide.sn_version snap) SCHEMA_VERSION (snapshot_text snap)))
          (b64 (x25519_public (se_app s))) (se_wraps s)).
Proof.
  intros Hv Hp. unfold sealed_snapshot, sealed_json. cbn [open_fields mbind option_bind].
  assert (key_wraps (JArray ((λ w, JObject [("agent_id", JString (kw_agent_id w)); ("wrap", JString (kw_wrap w))]) <$> se_wraps s)) = Some (se_wraps s)) as Hw.
  { unfold key_wraps. cbn. induction (se_wraps s) as [|[id w] l IH]; [done|]. cbn. by rewrite IH. }
  unfold required, with_default. cbn -[key_wraps pretty parse_i64 parse_u32 seal_snapshot].
  rewrite !parse_i64_pretty by done. cbn -[key_wraps pretty parse_u32 seal_snapshot]. rewrite Hw. done.
Qed.
(** What an encrypted push is drawn with. *)
Record push_drawn (key nonce : Bytes) (nonces : nat → Bytes) (key_id : string) : Prop := {
  pd_key : String.length key = KEY_LEN; pd_nonce : String.length nonce = NONCE_LEN;
  pd_nonces i : String.length (nonces i) = NONCE_LEN; pd_key_id : valid_key_id key_id = true }.
(** A mailbox of the server as a push finds it: its agents have ids of
    their own, the key id is new, and the version there is is the one
    expected, below the new one. *)
Record takes_push (mailbox : Z) (key_id : string) (version : Z) (expected : option Z) (d : RulesDb) : Prop := {
  tp_mailbox : List.existsb (λ m, (mb_id m =? mailbox)%Z) (d_mailboxes d) = true;
  tp_agents : NoDup (agent_ids d); tp_ids a : a ∈ d_agents d → valid_agent_id (ag_id (ar_row a)) = true;
  tp_room : length (of_box mailbox d) ≤ 1000;
  tp_key_id k : k ∈ d_snapshot_keys d → sk_key_id k ≠ key_id;
  tp_next : match latest_snapshot mailbox d with
            | Some l => expected = Some (sn_version l) ∧ (sn_version l < version)%Z
            | None => expected = None
            end }.
Lemma next_not_refused mailbox row push expected d :
  match latest_snapshot mailbox d with
  | Some l => expected = Some (sn_version l) ∧ (sn_version l < sn_version row)%Z
  | None => expected = None
  end → push_refused mailbox row (Some push) expected d = None.
Proof.
  unfold push_refused. destruct (latest_snapshot mailbox d) as [l|]; cbn.
  - intros [-> Hlt]. rewrite Z.eqb_refl. cbn. destruct (Z.leb_spec (sn_version row) (sn_version l)); [lia|]. by destruct (app_key mailbox d).
  - intros ->. by destruct (app_key mailbox d).
Qed.
Lemma normalized_is s a : normalize_address s = Some a → a = lowercase (trim s).
Proof.
  unfold normalize_address. intros ([l dm] & _ & Hn)%bind_Some. by case_match; [injection Hn as <-|].
Qed.
Lemma wrap_length agent nonce key id key_id :
  String.length nonce = NONCE_LEN → String.length key = KEY_LEN → String.length (wrap_snapshot_key agent nonce key id key_id) ≤ 256.
Proof. intros Hn Hk. unfold wrap_snapshot_key, seal. rewrite length_str_app, aead_length, Hn, Hk. unfold NONCE_LEN, KEY_LEN. lia. Qed.

Context (app key nonce : Bytes) (nonces : nat → Bytes) (key_id : string) (snap : Snapshot) (mailbox : Z) (address : string) (d : RulesDb)
  (expected : option Z) (listed_id : option string).
#[local] Abbreviation sealing := (app_sealing nonces app key key_id mailbox d listed_id).
#[local] Abbreviation the_row := (mkSnapshot (Guide.sn_version snap) "" (Guide.sn_published_at snap) (Some key_id)
  (Some (seal_snapshot lowercase key nonce key_id (mx_address (sn_mailbox snap)) (Guide.sn_version snap) SCHEMA_VERSION (snapshot_text snap)))
  (Some SCHEMA_VERSION)).
(** The push passes the server's checks, with its wraps. *)
Lemma push_is_read ephemeral check_nonce version' expected' :
  push_drawn key nonce nonces key_id → takes_push mailbox key_id version' expected' d →
  in_i64 (Guide.sn_version snap) → in_i64 (Guide.sn_published_at snap) →
  normalize_address (mx_address (sn_mailbox snap)) = Some address → is_Some (diffie_hellman ephemeral (x25519_public app)) →
  json_strict (sealed_body sealing nonce snap) = Some (sealed_json sealing nonce snap) →
  ∃ pairs, sealed_push ephemeral check_nonce (sealed_body sealing nonce snap) address =
             Some (the_row, mkPush (b64 (x25519_public app)) pairs) ∧
    pairs.*1 = kw_agent_id <$> se_wraps sealing ∧ ∀ id bytes, mkKeyWrap id (b64 bytes) ∈ se_wraps sealing → (id, bytes) ∈ pairs.
Proof.
  intros [Hk Hn Hns Hid] [_ Hd Hids Hroom _ _] Hv Hp Ha [shared Hsh] Hjson.
  assert (length (se_wraps sealing) ≤ 1000) as Hlen.
  { pose proof (wraps_eq app key nonces key_id mailbox d listed_id) as E. cbn [se_wraps app_sealing]. rewrite E.
    etrans; [apply length_omap_le|]. etrans; [apply List.filter_length_le|]. rewrite length_zip_with, length_seq, length_fmap.
    unfold agent_tokens. rewrite length_fmap, (Permutation_length (merge_sort_Permutation older_agent _)). unfold of_box in Hroom. lia. }
  destruct (mapM_wrap_of (se_wraps sealing)) as (pairs & Hm & Hfst & Hin).
  { intros w Hw. destruct (wraps_are app key nonces key_id mailbox d listed_id w Hd Hw) as (a & s & agent & i & Hbox & -> & _ & _ & ->).
    split; [apply Hids; by apply elem_of_filter_bool in Hbox as [? _]|]. eexists. split; [done|]. by apply wrap_length. }
  exists pairs. split; [|done]. unfold sealed_push. rewrite Hjson. cbn [mbind option_bind].
  rewrite sealed_snapshot_reads by done. cbn [mbind option_bind ss_encryption ss_schema_version ss_address ss_key_id ss_ciphertext ss_app_key ss_wraps ss_version ss_published_at app_sealing se_key se_key_id se_app].
  rewrite Ha, Hid, !Z.eqb_refl, bool_decide_true by done. cbn [negb orb]. rewrite unb64_b64. cbn [ok mbind option_bind].
  assert ((String.length (seal_snapshot lowercase key nonce key_id (mx_address (sn_mailbox snap)) (Guide.sn_version snap) SCHEMA_VERSION (snapshot_text snap)) <? 40) = false) as ->.
  { unfold seal_snapshot, seal. rewrite length_str_app, aead_length, Hn. apply Nat.ltb_ge. unfold NONCE_LEN. lia. }
  unfold app_public_key. rewrite unb64_b64. cbn [mbind result_bind]. assert (from_bytes (x25519_public app) = Ok (x25519_public app)) as ->.
  { apply from_bytes_Ok. split; [done|]. apply x25519_length. }
  cbn [ok mbind option_bind]. unfold seal_for_app at 1. rewrite Hsh. cbn [ok_or mbind result_bind ok option_bind].
  unfold wraps_of. cbn [app_sealing se_wraps] in Hlen, Hm |- *. apply Nat.ltb_ge in Hlen. rewrite Hlen, Hm. done.
Qed.
Lemma newest_for id d' wrap :
  latest_snapshot mailbox d' = Some the_row → sk_wrap <$> key_for key_id id d' = wrap →
  newest_snapshot_for mailbox (Some id) d' = Some (the_row, wrap).
Proof. intros Hl <-. unfold newest_snapshot_for. by rewrite Hl. Qed.
(** C18. What the app publishes encrypted is what its agents read.  The app
    seals a snapshot under a fresh key that it wraps for the agents the
    server listed, and pushes it above the version there is: the server
    takes and stores it without its text, and from then on each live agent
    of the mailbox whose key the app could open reads exactly that text with
    its key, while anyone else, whatever key they have, reads nothing. *)
Theorem published_is_read dice ephemeral check_nonce now
    (Hdrawn : push_drawn key nonce nonces key_id) (Htakes : takes_push mailbox key_id (Guide.sn_version snap) expected d)
    (Hversion : in_i64 (Guide.sn_version snap)) (Hpublished : in_i64 (Guide.sn_published_at snap))
    (Haddress : normalize_address (mx_address (sn_mailbox snap)) = Some address) (Hnormal : lowercase (trim address) = address)
    (Hdh : is_Some (diffie_hellman ephemeral (x25519_public app))) (Htext : is_utf8 (snapshot_text snap) = true)
    (Hjson : json_strict (sealed_body sealing nonce snap) = Some (sealed_json sealing nonce snap)) :
  ∃ row push d' kept,
    sealed_push ephemeral check_nonce (sealed_body sealing nonce snap) address = Some (row, push) ∧ sn_json row = "" ∧
    publish dice mailbox address row (Some push) expected now d = (d', Ok (Stored kept)) ∧
    (∀ a s agent required, a ∈ of_box mailbox d → is_live a = true → ar_app_seal a = Some s →
       open_agent_key app s (ag_id (ar_row a)) = Ok agent →
       snapshot_json (open_newest lowercase required mailbox (ag_id (ar_row a)) address (Some agent) d') = Ok (snapshot_text snap)) ∧
    (∀ id required k,
       (∀ a s agent, a ∈ of_box mailbox d → ag_id (ar_row a) = id → is_live a = true → ar_app_seal a = Some s →
          open_agent_key app s id ≠ Ok agent) →
       snapshot_json (open_newest lowercase required mailbox id address k d') = Err Unreadable).
Proof.
  destruct (push_is_read ephemeral check_nonce _ _ Hdrawn Htakes Hversion Hpublished Haddress Hdh Hjson) as (pairs & Hpush & Hfst & Hin).
  pose proof Hdrawn as [Hk Hn Hns _]. pose proof Htakes as [Hm Hd _ _ Hfresh Hnext].
  assert (NoDup pairs.*1) as Hnd by (rewrite Hfst; by apply wraps_ids).
  destruct (publish_stored dice mailbox address the_row (mkPush (b64 (x25519_public app)) pairs) expected now d _ key_id Hm
              (next_not_refused _ the_row _ _ _ Hnext) eq_refl eq_refl Hfresh Hnd) as (d' & kept & Hpub & Hlatest & Hyes & Hno).
  exists the_row, (mkPush (b64 (x25519_public app)) pairs), d', kept. split; [done|]. split; [done|]. split; [done|]. cbn [pu_wraps] in Hyes, Hno. split.
  - intros a s agent required Ha Hl Hs Ho. destruct (wrapped app key nonces key_id mailbox d listed_id a s agent Hd Ha Hl Hs Ho) as [i Hw].
    apply Hin in Hw. assert (takes_keys mailbox (ag_id (ar_row a)) d = true) as Ht.
    { apply existsb_true. apply elem_of_filter_bool in Ha as [Ha Hb]. exists a. split; [done|]. unfold is_agent. by rewrite String.eqb_refl, Hb, Hl. }
    unfold open_newest. rewrite (newest_for _ _ _ Hlatest eq_refl), (Hyes _ _ Hw Ht). cbn [fmap option_fmap option_map sk_wrap sn_sealed sn_key_id].
    rewrite unwrap_wrap_snapshot by done. cbn [mbind result_bind]. unfold open_snapshot, seal_snapshot.
    unfold snapshot_ad. rewrite Hnormal, <-(normalized_is _ _ Haddress). cbn [sn_schema_version sn_version].
    rewrite open_seal by done. cbn [mbind result_bind]. by rewrite Htext.
  - intros id required k Hnone. assert (key_for key_id id d' = None) as Hkey.
    { apply Hno. destruct (takes_keys mailbox id d) eqn:Et; [left|by right]. rewrite Hfst. intros (w & Hid & Hw)%list_elem_of_fmap.
      destruct (wraps_are app key nonces key_id mailbox d listed_id w Hd Hw) as (a & s & agent & i & Ha & Hwa & Hs & Ho & _).
      unfold takes_keys in Et. apply existsb_true in Et as (a' & Ha' & Hp). apply andb_true_iff in Hp as [Hp Hl]. apply andb_true_iff in Hp as [Hi Hb].
      apply is_agent_eq in Hi. rewrite Hwa in Hid. assert (a' = a) as ->.
      { apply elem_of_filter_bool in Ha as [Ha _]. apply list_elem_of_lookup in Ha as [i1 E1], Ha' as [i2 E2].
        assert (i1 = i2) as ->; [|congruence]. eapply (NoDup_lookup (agent_ids d)); [exact Hd| |]; unfold agent_ids; rewrite list_lookup_fmap, ?E1, ?E2; cbn; [done|congruence]. }
      rewrite <-Hid in Ho. by destruct (Hnone a s agent Ha (eq_sym Hid) Hl Hs). }
    unfold open_newest. rewrite (newest_for _ _ _ Hlatest eq_refl), Hkey. done.
Qed.
End published.

(** ** Filed, and read *)

Section filed.
Context `{CryptoLaws} `{RulesText} `{BodyText}.
Import Reports.

(** A report as the app keeps it, of the one the server has. *)
Definition read_report (key : string) (r : ReportRow) (agent_name agent_kind : string) (received : Millis) : NewReport :=
  let name := line agent_name 100 in
  mkNewReport key (rp_id r) (line (rp_agent_id r) 64) (if not_empty name then name else "A cloud agent")
    (if bool_decide (Some agent_kind = Some "oauth") then "oauth" else "token") received
    (message_id_of (report_json r agent_name agent_kind)) (lines (json_strings (rp_recipients r)) Reports.MAX_RECIPIENTS MAX_LINE)
    (line (rp_subject r) MAX_LINE) (rp_sent_at r ≫= λ t, millis (time t)) (capped (rp_body_markdown r) MAX_BODY)
    (rp_checked_version r) (rp_check_version r) (lines (json_strings (rp_guide_check r)) MAX_CHECKS 500).
Lemma as_i64_opt o : match o with Some z => in_i64 z | None => True end → as_i64 (json_opt json_int o) = o.
Proof. destruct o as [z|]; [|done]. intros Hz. by apply parse_i64_pretty. Qed.
Lemma parse_listed key r name kind received :
  (0 < rp_id r)%Z → in_i64 (rp_id r) → match rp_checked_version r with Some z => in_i64 z | None => True end →
  match rp_check_version r with Some z => in_i64 z | None => True end → millis (time (rp_received_at r)) = Some received →
  Reports.parse (report_json r name kind) key = Some (read_report key r name kind received).
Proof.
  intros Hpos Hid Hc1 Hc2 Hrec. unfold Reports.parse, report_id.
  change (json_get "id" (report_json r name kind)) with (json_int (rp_id r)). cbn [as_i64 json_int].
  rewrite parse_i64_pretty by done. cbn [mbind option_bind]. apply Z.ltb_lt in Hpos. rewrite Hpos. cbn [mbind option_bind].
  change (json_get "agent_id" (report_json r name kind)) with (JString (rp_agent_id r)).
  change (json_get "received_at" (report_json r name kind)) with (time (rp_received_at r)). cbn [as_str mbind option_bind]. rewrite Hrec.
  cbn [mbind option_bind]. unfold read_report. f_equal.
  change (json_get "checked_version" (report_json r name kind)) with (json_opt json_int (rp_checked_version r)). rewrite as_i64_opt by done.
  change (json_get "version" (json_get "check" (report_json r name kind))) with (json_opt json_int (rp_check_version r)).
  rewrite as_i64_opt by done. change (json_get "sent_at" (report_json r name kind)) with (time_or_null (rp_sent_at r)).
  f_equal. by destruct (rp_sent_at r).
Qed.
(** What an agent reports is what the app keeps.  A report the server
    seals to the app's public key as it files it, with its recipients,
    subject, body, Message-ID and check gone from the row, is opened by the
    app from the list and read as the report that was filed, whose id,
    agent and times are the row's; an app that has no private key is told
    that it does not open. *)
Theorem reports_are_read app ephemeral nonce address own_address r sealed key name kind received
    (Hnonce : String.length nonce = NONCE_LEN) (Haddress : lowercase (trim own_address) = lowercase (trim address))
    (Hsealed : seal_report_for_app ephemeral nonce (x25519_public app) address r = Ok sealed)
    (Hjson : json_of (json_string (report_content r)) = Some (report_content r))
    (Hpos : (0 < rp_id r)%Z) (Hid : in_i64 (rp_id r)) (Hchecked : match rp_checked_version r with Some z => in_i64 z | None => True end)
    (Hcheck : match rp_check_version r with Some z => in_i64 z | None => True end)
    (Hreceived : millis (time (rp_received_at r)) = Some received) :
  let listed := report_json (sealed_report sealed r) name kind in
  (∃ v, opened_report (Some app) own_address listed = Some (Some v) ∧
        Reports.parse v key = Some (read_report key r name kind received)) ∧
  opened_report None own_address listed = Some None ∧
  (rp_recipients (sealed_report sealed r), rp_subject (sealed_report sealed r), rp_body_markdown (sealed_report sealed r),
   rp_message_id (sealed_report sealed r), rp_guide_check (sealed_report sealed r)) = ([], "", "", None, []).
Proof.
  intros listed. split; [|split; [|done]].
  - unfold opened_report. change (json_get "sealed" listed) with (JString (b64 sealed)). cbn [as_str].
    rewrite unb64_b64. cbn [ok mbind option_bind]. change (json_get "agent_id" listed) with (JString (rp_agent_id r)).
    cbn [str_or_empty as_str default from_option id]. unfold seal_report_for_app in Hsealed.
    assert (report_context lowercase own_address (rp_agent_id r) = report_context lowercase address (rp_agent_id r)) as ->
      by (unfold report_context; by rewrite Haddress).
    rewrite (open_sealed_for_app app ephemeral nonce _ _ _ Hnonce Hsealed). cbn [ok mbind option_bind]. rewrite Hjson. cbn [mbind option_bind].
    eexists. split; [reflexivity|]. rewrite <-(parse_listed key r name kind received) by done. reflexivity.
  - unfold opened_report. change (json_get "sealed" listed) with (JString (b64 sealed)). cbn [as_str]. by rewrite unb64_b64.
Qed.
End filed.
