(* ===== verification/RulesAppRuns.v ===== *)
(** * RulesAppRuns: publishing, computed

    One reading of the parameters, and what the theorems say of it at
    concrete pushes, reports, requests and answers. *)

From Stdlib Require Import Ascii.
From S2P Require Import Prelude.
From S2P Require Import Domain.
From S2P Require Import Text.
From S2P Require Import Json.
From S2P Require Import Guide.
From S2P Require Import Facade.
From S2P Require Import Agents.
From S2P Require Import LocalDb.
From S2P Require Import RulesTokens.
From S2P Require Import RulesDb.
From S2P Require Import RulesCrypto.
From S2P Require Import RulesPublish.
From S2P Require Import RulesOAuth.
From S2P Require Import RulesServer.
From S2P Require Import RulesHandlers.
From S2P Require Import RulesApp.
From S2P Require Import CloudReports.
From S2P Require Import RulesPush.
From S2P Require Import RulesPull.
From S2P Require Import RulesReports.
From S2P Require Import RulesWire.
From S2P Require Import RulesReading.
From S2P Require Import Effects.
Import App.
Import Publisher.
Import Reports.
Import Wire.

Module ToyApp.
#[local] Existing Instance Toy.crypto.
#[local] Existing Instance Toy.laws.

(** ** JSON, each character behind a mark *)

Definition marked (s : string) : string := foldr (λ a t, String "'" (String a t)) "." (String.list_ascii_of_string s).
Fixpoint unmarked (s : string) : option (string * string) :=
  match s with
  | String m (String a s) =>
      if Ascii.eqb m "'" then '(t, rest) ← unmarked s; Some (String a t, rest)
      else if Ascii.eqb m "." then Some ("", String a s) else None
  | String m EmptyString => if Ascii.eqb m "." then Some ("", "") else None
  | EmptyString => None
  end.
Fixpoint printed (v : Json) : string :=
  match v with
  | JNull => "n"
  | JBool b => if b then "t" else "f"
  | JNumber t => "#" +:+ marked t
  | JString s => "$" +:+ marked s
  | JArray l => "[" +:+ foldr (λ v t, "," +:+ printed v +:+ t) "]" l
  | JObject l => "{" +:+ foldr (λ f t, ":" +:+ marked f.1 +:+ printed f.2 +:+ t) "}" l
  end.
Fixpoint parsed (fuel : nat) (s : string) : option (Json * string) :=
  let fix items (n : nat) (s : string) : option (list Json * string) :=
    match n, fuel, s with
    | S n, S fuel', String a s =>
        if Ascii.eqb a "]" then Some ([], s)
        else if Ascii.eqb a "," then '(v, s) ← parsed fuel' s; '(l, s) ← items n s; Some (v :: l, s) else None
    | _, _, _ => None
    end in
  let fix fields (n : nat) (s : string) : option (list (string * Json) * string) :=
    match n, fuel, s with
    | S n, S fuel', String a s =>
        if Ascii.eqb a "}" then Some ([], s)
        else if Ascii.eqb a ":" then '(k, s) ← unmarked s; '(v, s) ← parsed fuel' s; '(l, s) ← fields n s; Some ((k, v) :: l, s) else None
    | _, _, _ => None
    end in
  match s with
  | EmptyString => None
  | String a s =>
      if Ascii.eqb a "n" then Some (JNull, s)
      else if Ascii.eqb a "t" then Some (JBool true, s)
      else if Ascii.eqb a "f" then Some (JBool false, s)
      else if Ascii.eqb a "#" then '(t, s) ← unmarked s; Some (JNumber t, s)
      else if Ascii.eqb a "$" then '(t, s) ← unmarked s; Some (JString t, s)
      else if Ascii.eqb a "[" then '(l, s) ← items 50 s; Some (JArray l, s)
      else if Ascii.eqb a "{" then '(l, s) ← fields 50 s; Some (JObject l, s)
      else None
  end.
Definition json (s : string) : option Json := match parsed 10 s with Some (v, EmptyString) => Some v | _ => None end.
#[export] Instance rules_text : RulesText := {|
  lowercase := ascii_lower; alphanumeric _ := true; sha_256 s := s; base64_url_of b := before 43 (hex b);
  markdown_text s := s; rfc3339 ms := Some (pretty ms); parse_rfc3339 := parse_i64; json_of := json; json_strict := json;
  json_string := printed; snapshot_of _ := Err ""; snapshot_text s := "the guide, version " +:+ pretty (Guide.sn_version s) |}.
Definition pair_of (kv : string) : string * string := default (kv, "") (split_once "=" kv).
#[export] Instance web : Web := {|
  url_parse s := None; form_parse s := pair_of <$> split_on "&" s; append_pairs s kvs := s |}.
#[export] Instance app_text : AppText := {|
  hash64 s := s; endpoint_text s l := s +:+ join "/" l; query_text kvs := join "&" ((λ kv, kv.1 +:+ "=" +:+ kv.2) <$> kvs) |}.
#[export] Instance body_text : BodyText := {| markdown_to_html s := s; html_to_text s := s |}.

(** ** A push, and its readers *)

Definition app_secret : Bytes := Toy.fit KEY_LEN "app".
Definition agent_key : Bytes := Toy.fit KEY_LEN "agent".
Definition agent : string := "00000000000000aa".
Definition other : string := "00000000000000bb".
Definition nonce : Bytes := Toy.fit NONCE_LEN "n".
Definition agent_seal : Bytes :=
  default "" (ok (seal_agent_key_for_app (x25519_public app_secret) "e" nonce agent_key agent)).
Definition address : string := "scout@a.example".
(** A mailbox with an agent whose key is sealed to the app, and one with
    none yet. *)
Definition server_db : RulesDb :=
  mkDb [mkMailbox 1 address "h" 0 0 (Some (b64 (x25519_public app_secret)))] []
    [mkAgentRow (mkAgent agent 1 "Scout" "h" 0 None KIND_TOKEN None) None (Some "w") (Some agent_seal);
     mkAgentRow (mkAgent other 1 "Late" "h" 1 None KIND_TOKEN None) None None None] [] [] [] [] [] [] 0.
Definition snapshot : Snapshot := Guide.mkSnapshot 1 0 1000 (Guide.mkMailbox "Scout@a.example" "Scout" "") [] (mkGroups None []) [].
Definition fresh_key : Bytes := Toy.fit KEY_LEN "fresh".
Definition key_id : string := "0011aabb0011aabb".
Definition toy_sealing : Sealing := app_sealing (λ _, nonce) app_secret fresh_key key_id 1 server_db None.
Definition dice : ReportDice := λ _, ("e", nonce).
(** The agent with a key, and a stranger's reading. *)
Lemma push_toy_drawn : push_drawn fresh_key nonce (λ _, nonce) key_id.
Proof. split; [vm_compute; reflexivity|vm_compute; reflexivity|intros _; vm_compute; reflexivity|vm_compute; reflexivity]. Qed.
Lemma toy_takes_push : takes_push 1 key_id 1 None server_db.
Proof.
  split.
  - vm_compute; reflexivity.
  - change (NoDup [agent; other]). apply (bool_decide_unpack (NoDup [agent; other])). vm_compute. exact I.
  - intros a. cbn [server_db d_agents]. rewrite !elem_of_cons, elem_of_nil. intros [->|[->|[]]]; vm_compute; reflexivity.
  - apply Nat.leb_le. vm_compute. reflexivity.
  - cbn. by intros k ?%elem_of_nil.
  - vm_compute. reflexivity.
Qed.
Definition reads (d : RulesDb) (id : string) (k : option Bytes) : result NotRead string :=
  snapshot_json (open_newest ascii_lower true 1 id address k d).
Lemma published_is_read_witness :
  ∃ d', reads d' agent (Some agent_key) = Ok "the guide, version 1" ∧ reads d' other (Some agent_key) = Err Unreadable.
Proof.
  destruct (published_is_read app_secret fresh_key nonce (λ _, nonce) key_id snapshot 1 address server_db None None dice "e" nonce 5000
    push_toy_drawn toy_takes_push) as (row & push & d' & kept & _ & _ & _ & Hreads & Hnot).
  - split; vm_compute; [discriminate|reflexivity].
  - split; vm_compute; [discriminate|reflexivity].
  - vm_compute; reflexivity.
  - vm_compute; reflexivity.
  - vm_compute. eexists. reflexivity.
  - vm_compute; reflexivity.
  - vm_compute; reflexivity.
  - exists d'. split.
    + apply (Hreads (mkAgentRow (mkAgent agent 1 "Scout" "h" 0 None KIND_TOKEN None) None (Some "w") (Some agent_seal)) agent_seal agent_key true);
        [left|vm_compute; reflexivity|reflexivity|vm_compute; reflexivity].
    + apply (Hnot other true (Some agent_key)). intros a s k Ha Hid _ Hs. unfold of_box in Ha. apply elem_of_filter_bool in Ha as [Ha _].
      cbn [server_db d_agents] in Ha. rewrite !elem_of_cons, elem_of_nil in Ha. destruct Ha as [->|[->|[]]]; [|discriminate Hs].
      assert (String.eqb agent other = true) as E by (apply String.eqb_eq; exact Hid). exfalso. clear -E. vm_compute in E. discriminate E.
Defined.

(** ** A report, filed and read *)

Definition filed : ReportRow :=
  mkReport 7 1 agent 1000 (Some "m@x") ["ann@acme.example"] "Plan" (Some 900%Z) "Hello" (Some 1%Z) (Some 1%Z) ["no greeting"] None.
Definition filed_sealed : Bytes := default "" (ok (seal_report_for_app "e" nonce (x25519_public app_secret) address filed)).
Lemma reports_are_read_witness :
  ∃ v, opened_report (Some app_secret) "Scout@A.example" (report_json (sealed_report filed_sealed filed) "Scout" "token") = Some (Some v) ∧
       Reports.parse v "server" = Some (read_report "server" filed "Scout" "token" 1000).
Proof.
  apply (reports_are_read app_secret "e" nonce address "Scout@A.example" filed filed_sealed "server" "Scout" "token" 1000).
  - vm_compute; reflexivity.
  - vm_compute; reflexivity.
  - vm_compute; reflexivity.
  - vm_compute; reflexivity.
  - vm_compute; reflexivity.
  - split; vm_compute; [discriminate|reflexivity].
  - split; vm_compute; [discriminate|reflexivity].
  - split; vm_compute; [discriminate|reflexivity].
  - vm_compute; reflexivity.
Defined.

(** ** Kept once, and given way to *)

Definition a_report : NewReport := read_report "server" filed "Scout" "token" 1000.
Definition store : CloudDb := mkCloudDb LocalDb.empty_db [] 0 [] 0 true.
Lemma reports_kept_once_witness :
  (record_reports [a_report; a_report] 5000 store).2 = 1 ∧
  length (cd_reported (record_reports [a_report; a_report] 5000 store).1) = length (cd_reported store) + 1 ∧
  (record_reports [a_report] 6000 (record_reports [a_report; a_report] 5000 store).1).2 = 0.
Proof.
  split; [vm_compute; reflexivity|].
  destruct (reports_kept_once [a_report; a_report] 5000 store (record_reports [a_report; a_report] 5000 store).1 1) as (_ & _ & _ & Hl & _).
  - vm_compute; reflexivity.
  - constructor.
  - split; [apply Hl; reflexivity|vm_compute; reflexivity].
Defined.
Lemma unread_gives_way_witness :
  ∃ up_to, Some up_to ∈ pulls "server" ((λ rest, (3%Z, None) :: rest) <$> [[]; []; [(4%Z, None)]; []; []]) ∅.
Proof.
  apply (unread_gives_way "server" 3 [[]; []; [(4%Z, None)]; []; []] ∅); [reflexivity|].
  intros rest Hr. apply (bool_decide_unpack (NoDup (3%Z :: rest.*1))).
  rewrite !elem_of_cons, elem_of_nil in Hr. destruct Hr as [->|[->|[->|[->|[->|[]]]]]]; vm_compute; exact I.
Defined.

(** ** Requests and answers *)

Definition toy_url : Url := mkUrl "https" (Some "rules.example") None "" None None "" None "https://rules.example".
Definition rules_server : Server := mkServer toy_url "https://rules.example" "rules.example" "rules.example".
Lemma requests_are_read_witness :
  ∃ body, reads_as (ack_request rules_server address "token" 7) (PostAck address body) ∧ ack_body body = Some 7%Z.
Proof.
  apply (requests_are_read rules_server address "token").
  - discriminate.
  - vm_compute; reflexivity.
  - vm_compute; reflexivity.
  - split; vm_compute; [discriminate|reflexivity].
  - vm_compute; reflexivity.
Defined.
Lemma answers_are_read_witness :
  ∃ a, answers "" (MailboxRegistered address "token") a ∧ registered rules_server address None a = Ok "token".
Proof. eexists. split; [reflexivity|]. by eapply (answers_are_read "" rules_server). Defined.
End ToyApp.
