(* ===== verification/Transactions.v ===== *)
(** * Transactions: what runs against a database and is kept whole or not at all

    A transaction takes the state it runs on to another with an answer, or
    fails, and then nothing of it is kept ([Db::write] of
    [mail-store/src/db.rs]).  [post] is what holds where it ends well. *)

From S2P Require Import Prelude.
From S2P Require Import Domain.
From S2P Require Import MailStore.
From S2P Require Import Effects.

Definition Tx (S A : Type) : Type := S → StoreResult (S * A).
#[export] Instance tx_ret S : MRet (Tx S) := λ A a s, Ok (s, a).
#[export] Instance tx_bind S : MBind (Tx S) := λ A B f m s, '(s, a) ← m s; f a s.

Section transactions.
Context {S : Type}.

Definition tx_get {A} (f : S → A) : Tx S A := λ s, Ok (s, f s).
Definition tx_do (f : S → S) : Tx S () := λ s, Ok (f s, ()).
Definition tx_fail {A} (e : StoreError) : Tx S A := λ _, Err e.
Definition tx_some {A} (e : StoreError) (o : option A) : Tx S A := match o with Some a => mret a | None => tx_fail e end.
Definition tx_check (b : bool) (e : StoreError) : Tx S () := if b then mret () else tx_fail e.
(** A check of what is there, and a change that answers. *)
Definition tx_where (p : S → bool) (e : StoreError) : Tx S () := λ s, if p s then Ok (s, ()) else Err e.
Definition tx_new {A} (f : S → S * A) : Tx S A := λ s, Ok (f s).
(** [for x in l { f(x)?; }] *)
Fixpoint each {A} (f : A → Tx S ()) (l : list A) : Tx S () :=
  match l with [] => mret () | a :: l => _ ← f a; each f l end.
(** [let mut acc; for x in l { acc = f(acc, x)?; }] *)
Fixpoint folding {A B} (f : B → A → Tx S B) (b : B) (l : list A) : Tx S B :=
  match l with [] => mret b | a :: l => b ← f b a; folding f b l end.
Definition commit {A} (t : Tx S A) (s : S) : S * StoreResult A :=
  match t s with Ok (s', a) => (s', Ok a) | Err e => (s, Err e) end.

Definition post {A} (s : S) (t : Tx S A) (Q : S → A → Prop) : Prop :=
  match t s with Ok (s', a) => Q s' a | Err _ => True end.

Lemma post_ok {A} s (t : Tx S A) Q s' a : post s t Q → t s = Ok (s', a) → Q s' a.
Proof. unfold post. intros Hp E. by rewrite E in Hp. Qed.
Lemma post_commit {A} s (t : Tx S A) (Q : S → Prop) : Q s → post s t (λ s' _, Q s') → Q (commit t s).1.
Proof. unfold post, commit. by destruct (t s) as [[]|]. Qed.
Lemma post_bind {A B} s (t : Tx S A) (f : A → Tx S B) Q : post s t (λ s' a, post s' (f a) Q) → post s (t ≫= f) Q.
Proof. unfold post, mbind, tx_bind. by destruct (t s) as [[s' a]|e]. Qed.
Lemma post_mono {A} s (t : Tx S A) (Q Q' : S → A → Prop) : (∀ s a, Q s a → Q' s a) → post s t Q → post s t Q'.
Proof. unfold post. destruct (t s) as [[s' a]|e]; auto. Qed.
Lemma post_conj {A} s (t : Tx S A) (Q Q' : S → A → Prop) : post s t Q → post s t Q' → post s t (λ s a, Q s a ∧ Q' s a).
Proof. unfold post. destruct (t s) as [[s' a]|e]; auto. Qed.
Lemma post_ret {A} s (a : A) (Q : S → A → Prop) : Q s a → post s (mret a) Q.
Proof. done. Qed.
Lemma post_get {A} s (f : S → A) (Q : S → A → Prop) : Q s (f s) → post s (tx_get f) Q.
Proof. done. Qed.
Lemma post_do s (f : S → S) (Q : S → () → Prop) : Q (f s) () → post s (tx_do f) Q.
Proof. done. Qed.
Lemma post_fail {A} s e (Q : S → A → Prop) : post s (tx_fail e) Q.
Proof. done. Qed.
Lemma post_some {A} s e (o : option A) (Q : S → A → Prop) : (∀ a, o = Some a → Q s a) → post s (tx_some e o) Q.
Proof. destruct o; [|done]. intros H. by apply H. Qed.
Lemma post_check s b e (Q : S → () → Prop) : (b = true → Q s ()) → post s (tx_check b e) Q.
Proof. destruct b; [|done]. intros H. by apply H. Qed.
Lemma post_where s (p : S → bool) e (Q : S → () → Prop) : (p s = true → Q s ()) → post s (tx_where p e) Q.
Proof. unfold post, tx_where. destruct (p s); [|done]. intros H. by apply H. Qed.
Lemma post_new {A} s (f : S → S * A) (Q : S → A → Prop) : Q (f s).1 (f s).2 → post s (tx_new f) Q.
Proof. unfold post, tx_new. by destruct (f s). Qed.
Lemma post_each {A} (I : S → Prop) (f : A → Tx S ()) l s :
  (∀ s a, I s → a ∈ l → post s (f a) (λ s' _, I s')) → I s → post s (each f l) (λ s' _, I s').
Proof.
  revert s. induction l as [|a l IH]; intros s Hf Hs; [done|]. apply post_bind.
  eapply post_mono; [|apply Hf; [done|left]]. intros s' ? Hs'. apply IH; [|done]. intros. apply Hf; [done|by right].
Qed.
Lemma post_folding {A B} (I : S → B → Prop) (f : B → A → Tx S B) l b s :
  (∀ s b a, I s b → a ∈ l → post s (f b a) I) → I s b → post s (folding f b l) I.
Proof.
  revert s b. induction l as [|a l IH]; intros s b Hf Hs; [done|]. apply post_bind.
  eapply post_mono; [|apply Hf; [done|left]]. intros s' b' Hs'. apply IH; [|done]. intros. apply Hf; [done|by right].
Qed.
Lemma each_app {A} (f : A → Tx S ()) l k s : each f (l ++ k) s = (_ ← each f l; each f k) s.
Proof.
  revert s. induction l as [|a l IH]; intros s; [done|]. cbn. unfold mbind, tx_bind in *.
  destruct (f a s) as [[s' []]|e]; [|done]. cbn. rewrite IH. done.
Qed.

(** What leaves something of the state as it is. *)
Definition keeps {B A} (f : S → B) (t : Tx S A) : Prop := ∀ s, post s t (λ s' _, f s' = f s).
Lemma keeps_bind {T A B} (f : S → T) (t : Tx S A) (k : A → Tx S B) : keeps f t → (∀ a, keeps f (k a)) → keeps f (t ≫= k).
Proof.
  intros Ht Hf s. apply post_bind. eapply post_mono; [|apply Ht]. intros s' a E. eapply post_mono; [|apply Hf]. intros s'' b E'. cbn in *. congruence.
Qed.
Lemma keeps_each {T A} (f : S → T) (k : A → Tx S ()) l : (∀ a, keeps f (k a)) → keeps f (each k l).
Proof. intros Hf. induction l as [|a l IH]; [done|]. by apply keeps_bind. Qed.
Lemma keeps_folding {T A B} (f : S → T) (k : B → A → Tx S B) b l : (∀ b a, keeps f (k b a)) → keeps f (folding k b l).
Proof. intros Hf. revert b. induction l as [|a l IH]; intros b; [done|]. cbn. by apply keeps_bind. Qed.
Lemma keeps_some {T A} (f : S → T) e (o : option A) : keeps f (tx_some e o).
Proof. by destruct o. Qed.
Lemma keeps_check {T} (f : S → T) b e : keeps f (tx_check b e).
Proof. by destruct b. Qed.
Lemma keeps_where {T} (f : S → T) p e : keeps f (tx_where p e).
Proof. intros s. unfold tx_where, post. by destruct (p s). Qed.
End transactions.

(** What a transaction on a part does to the whole. *)
Definition within {S T A} (get : S → T) (set : T → S → S) (t : Tx T A) : Tx S A := λ s,
  '(x, a) ← t (get s); Ok (set x s, a).
Lemma post_within {S T A} (get : S → T) (set : T → S → S) (t : Tx T A) s Q :
  post (get s) t (λ x a, Q (set x s) a) → post s (within get set t) Q.
Proof. unfold post, within. by destruct (t (get s)) as [[x a]|e]. Qed.

(** Through a transaction one step at a time. *)
Ltac tx_step :=
  match goal with
  | |- post _ (_ ≫= _) _ => apply post_bind
  | |- post _ (mret _) _ => apply post_ret
  | |- post _ (tx_get _) _ => apply post_get
  | |- post _ (tx_do _) _ => apply post_do
  | |- post _ (tx_fail _) _ => apply post_fail
  | |- post _ (tx_some _ _) _ => apply post_some; intros ? ?
  | |- post _ (tx_check _ _) _ => apply post_check; intros ?
  | |- post _ (tx_where _ _) _ => apply post_where; intros ?
  | |- post _ (tx_new _) _ => apply post_new
  | |- post _ (within _ _ _) _ => apply post_within
  end.
Ltac tx_steps := repeat (tx_step; cbn beta).

(** Through a transaction that has nothing to do with what is kept. *)
Create HintDb keeps.
Ltac keeps :=
  repeat match goal with
  | |- keeps _ (_ ≫= _) => apply keeps_bind
  | |- keeps _ (each _ _) => apply keeps_each
  | |- keeps _ (folding _ _ _) => apply keeps_folding
  | |- keeps _ (tx_some _ _) => apply keeps_some
  | |- keeps _ (tx_check _ _) => apply keeps_check
  | |- keeps _ (tx_where _ _) => apply keeps_where
  | |- ∀ _, _ => intros ?
  | |- keeps _ (match ?x with _ => _ end) => destruct x
  | |- keeps _ _ => solve [auto with keeps]
  | |- keeps _ _ => intros ?; reflexivity
  end.

(** ** Tables by id *)

(** [SELECT ... ORDER BY]: the rows, sorted. *)
Definition rows {A} (m : gmap Z A) : list (Z * A) := map_to_list m.
Definition last_id {A} (m : gmap Z A) : Z := foldr Z.max 0%Z (rows m).*1.
Lemma last_id_ge {A} (m : gmap Z A) i : is_Some (m !! i) → (i ≤ last_id m)%Z.
Proof.
  intros [x Hx]. apply elem_of_map_to_list in Hx. unfold last_id, rows. revert Hx.
  induction (map_to_list m) as [|[j y] l IH]; [by intros ?%not_elem_of_nil|].
  intros [[= -> ->]|Hx]%elem_of_cons; cbn; [lia|]. apply IH in Hx. lia.
Qed.
Lemma last_id_nonneg {A} (m : gmap Z A) : (0 ≤ last_id m)%Z.
Proof. unfold last_id. induction ((rows m).*1); cbn; lia. Qed.
Lemma last_id_fresh {A} (m : gmap Z A) i : (last_id m < i)%Z → m !! i = None.
Proof. intros Hi. apply eq_None_not_Some. intros Hs%last_id_ge. lia. Qed.
(** A statement that changes the row of an id, if there is one. *)
Definition update_row {A} (id : Z) (f : A → A) : gmap Z A → gmap Z A := alter f id.

(** ** Programs of transactions

    What a function does that runs several, with what other tasks commit
    between them. *)

Inductive DbOp (S : Type) : Type := InTx (A : Type) (t : Tx S A) | Now.
Arguments InTx {S A} t.
Arguments Now {S}.
Definition db_answer {S} (o : DbOp S) : Type := match o with @InTx _ A _ => StoreResult A | Now => Millis end.

Section programs.
Context {S : Type}.

Definition db_does (s : S) (o : DbOp S) : db_answer o → S → Prop :=
  match o with
  | InTx t => λ a s', commit t s = (s', a)
  | Now => λ _ s', s' = s
  end.
(** [others] is what other tasks may do meanwhile. *)
Definition db_takes (others : S → S → Prop) (s : S) (o : DbOp S) (a : db_answer o) (s' : S) : Prop :=
  ∃ s1, others s s1 ∧ db_does s1 o a s'.

(** Run alone, at one time. *)
Definition db_perform (now : Millis) (o : DbOp S) : S → S * db_answer o :=
  match o with InTx t => commit t | Now => λ s, (s, now) end.
Fixpoint db_run {A} (now : Millis) (p : Eff (@db_answer S) A) (s : S) : S * A :=
  match p with
  | Ret a => (s, a)
  | Vis o k => let '(s, a) := db_perform now o s in db_run now (k a) s
  end.
Lemma db_run_bind {A B} now (p : Eff (@db_answer S) A) (f : A → Eff (@db_answer S) B) s :
  db_run now (p ≫= f) s = let '(s, a) := db_run now p s in db_run now (f a) s.
Proof.
  revert s. induction p as [a|o k IH]; intros s; [done|]. cbn. destruct (db_perform now o s) as [s' a]. apply IH.
Qed.
Lemma db_run_swp {A} now (p : Eff (@db_answer S) A) s (Q : S → A → Prop) :
  swp (db_takes eq) (λ _ _, True) s p Q → Q (db_run now p s).1 (db_run now p s).2.
Proof.
  revert s. induction p as [a|o k IH]; intros s; [done|]. cbn. intros [_ Hk].
  destruct (db_perform now o s) as [s' a] eqn:E. apply IH, Hk. exists s. split; [done|].
  destruct o; cbn in *; [done|]. by injection E as <- <-.
Qed.
Lemma swp_tx {A E} (others : S → S → Prop) (I : S → Prop) s (t : Tx S A) (k : StoreResult A → Eff db_answer E) Q :
  (∀ s s', I s → others s s' → I s') → I s → (∀ s, I s → post s t (λ s' _, I s')) →
  (∀ s a, I s → swp (db_takes others) (λ s _, I s) s (k a) Q) →
  swp (db_takes others) (λ s _, I s) s (Vis (InTx t) k) Q.
Proof.
  intros Ho Hs Ht Hk. cbn. split; [done|]. intros a s' (s1 & H1 & H2). apply Hk.
  cbn in H2. assert (I s1) as Hs1 by by eapply Ho.
  pose proof (post_commit s1 t I Hs1 (Ht s1 Hs1)) as Hc. by rewrite H2 in Hc.
Qed.
End programs.
