(* ===== verification/ProposalStore.v ===== *)
(** * ProposalStore: what the daily review proposes
    ([mail-store/src/analysis.rs], from "Proposals" on)

    Proposed changes to the guide and the facts, the pairs of an AI text
    and what was sent that show them, and their counts. *)

From S2P Require Import Prelude.
From S2P Require Import Domain.
From S2P Require Import MailStore.
From S2P Require Import Transactions.

Module Proposals.
Record ProposalRow := mkProposalRow {
  po_id : Z; po_target : string; po_op : string; po_entry_id : option Z; po_category : string; po_kind : option string;
  po_statement : string; po_scope_json : string; po_match_key : string; po_status : string; po_support : Z;
  po_contradicts : option Z; po_payload : option string; po_created_at : Millis; po_updated_at : Millis;
  po_shown_at : option Millis; po_decided_at : option Millis }.
Record EvidenceRow := mkPairEvidence { ev_composition : Z; ev_sent_quote : string; ev_ai_quote : string }.
Record NewProposal := mkNewProposal {
  np_target : string; np_op : string; np_entry_id : option Z; np_category : string; np_kind : option string;
  np_statement : string; np_scope_json : string; np_match_key : string; np_contradicts : option Z;
  np_payload : option string; np_threshold : Z }.

(** The tables: proposals and their last id, the evidence by proposal and
    composition, and the compositions there are. *)
Record AnalysisDb := mkAnalysis {
  an_proposals : gmap Z ProposalRow; an_seq : Z; an_evidence : gmap (Z * Z) (EvidenceRow * Millis); an_compositions : gset Z }.
Definition on_proposals (f : gmap Z ProposalRow → gmap Z ProposalRow) (d : AnalysisDb) : AnalysisDb :=
  mkAnalysis (f (an_proposals d)) (an_seq d) (an_evidence d) (an_compositions d).
Definition on_pair_evidence (f : gmap (Z * Z) (EvidenceRow * Millis) → gmap (Z * Z) (EvidenceRow * Millis)) (d : AnalysisDb) : AnalysisDb :=
  mkAnalysis (an_proposals d) (an_seq d) (f (an_evidence d)) (an_compositions d).

Definition with_po_status (status : string) (p : ProposalRow) : ProposalRow :=
  mkProposalRow (po_id p) (po_target p) (po_op p) (po_entry_id p) (po_category p) (po_kind p) (po_statement p) (po_scope_json p)
    (po_match_key p) status (po_support p) (po_contradicts p) (po_payload p) (po_created_at p) (po_updated_at p) (po_shown_at p)
    (po_decided_at p).
Definition with_po_support (n : Z) (p : ProposalRow) : ProposalRow :=
  mkProposalRow (po_id p) (po_target p) (po_op p) (po_entry_id p) (po_category p) (po_kind p) (po_statement p) (po_scope_json p)
    (po_match_key p) (po_status p) n (po_contradicts p) (po_payload p) (po_created_at p) (po_updated_at p) (po_shown_at p)
    (po_decided_at p).
Definition with_po_times (updated : Millis) (shown decided : option Millis) (p : ProposalRow) : ProposalRow :=
  mkProposalRow (po_id p) (po_target p) (po_op p) (po_entry_id p) (po_category p) (po_kind p) (po_statement p) (po_scope_json p)
    (po_match_key p) (po_status p) (po_support p) (po_contradicts p) (po_payload p) (po_created_at p) updated shown decided.
Definition with_po_content (contradicts : option Z) (payload : option string) (p : ProposalRow) : ProposalRow :=
  mkProposalRow (po_id p) (po_target p) (po_op p) (po_entry_id p) (po_category p) (po_kind p) (po_statement p) (po_scope_json p)
    (po_match_key p) (po_status p) (po_support p) contradicts payload (po_created_at p) (po_updated_at p) (po_shown_at p)
    (po_decided_at p).

Abbreviation Tx := (Tx AnalysisDb).

(** ** Reading *)

Definition proposal (id : Z) (d : AnalysisDb) : option ProposalRow := an_proposals d !! id.
Definition by_id (a b : Z * ProposalRow) : Prop := (a.1 ≤ b.1)%Z.
#[export] Instance by_id_dec a b : Decision (by_id a b).
Proof. unfold by_id. apply _. Defined.
Definition proposals (statuses : list string) (d : AnalysisDb) : list ProposalRow :=
  List.filter (λ p, bool_decide (po_status p ∈ statuses)) (merge_sort by_id (rows (an_proposals d))).*2.
(** A proposal's pairs, oldest first. *)
Definition older_pair (a b : EvidenceRow * Millis) : Prop :=
  (a.2 < b.2)%Z ∨ a.2 = b.2 ∧ (ev_composition a.1 ≤ ev_composition b.1)%Z.
#[export] Instance older_pair_dec a b : Decision (older_pair a b).
Proof. unfold older_pair. apply _. Defined.
Definition pairs_of (id : Z) (m : gmap (Z * Z) (EvidenceRow * Millis)) : list (EvidenceRow * Millis) :=
  snd <$> List.filter (λ x, (x.1.1 =? id)%Z) (map_to_list m).
Definition evidence (id : Z) (d : AnalysisDb) : list EvidenceRow := (merge_sort older_pair (pairs_of id (an_evidence d))).*1.
(** Open proposals a pair is evidence for. *)
Definition open_status (p : ProposalRow) : bool := bool_decide (po_status p ∈ ["watching"; "proposed"]).
Definition pair_proposals (composition : Z) (d : AnalysisDb) : list Z :=
  po_id <$> List.filter (λ p, open_status p && bool_decide (is_Some (an_evidence d !! (po_id p, composition))))
              (merge_sort by_id (rows (an_proposals d))).*2.

(** ** Writing *)

Definition NO_COMPOSITION : StoreError := FOREIGN_KEY.
(** [INSERT OR IGNORE]: what is there stays; a pair that is not there is
    refused. *)
Definition add_pair (id : Z) (now : Millis) (e : EvidenceRow) : Tx () :=
  _ ← tx_where (λ d, bool_decide (is_Some (an_evidence d !! (id, ev_composition e))) ||
                     bool_decide (ev_composition e ∈ an_compositions d)) NO_COMPOSITION;
  tx_do (on_pair_evidence (λ m, match m !! (id, ev_composition e) with Some _ => m | None => <[(id, ev_composition e) := (e, now)]> m end)).
Definition recount (id : Z) (d : AnalysisDb) : AnalysisDb :=
  on_proposals (update_row id (with_po_support (Z.of_nat (length (pairs_of id (an_evidence d)))))) d.
Definition show (threshold : Z) (now : Millis) (p : ProposalRow) : ProposalRow :=
  if String.eqb (po_status p) "watching" && (Z.max threshold 1 <=? po_support p)%Z
  then with_po_times (po_updated_at p) (Some now) (po_decided_at p) (with_po_status "proposed" p) else p.
Definition same_proposal (n : NewProposal) (p : ProposalRow) : bool :=
  String.eqb (po_target p) (np_target n) && String.eqb (po_match_key p) (np_match_key n).
Definition find_proposal (n : NewProposal) (d : AnalysisDb) : option ProposalRow :=
  List.find (same_proposal n) (rows (an_proposals d)).*2.
Definition decided (p : ProposalRow) : bool := bool_decide (po_status p ∈ ["accepted"; "rejected"]).
Definition new_row (n : NewProposal) (support : Z) (now : Millis) (id : Z) : ProposalRow :=
  mkProposalRow id (np_target n) (np_op n) (np_entry_id n) (np_category n) (np_kind n) (np_statement n) (np_scope_json n)
    (np_match_key n) "watching" support (np_contradicts n) (np_payload n) now now None None.
(** [CHECK (target IN ...)], [CHECK (op IN ...)] *)
Definition proposal_checks (target o status : string) : bool :=
  bool_decide (target ∈ ["guide"; "fact"]) && bool_decide (o ∈ ["add"; "edit"; "rescope"; "remove"]) &&
  bool_decide (status ∈ ["watching"; "proposed"; "accepted"; "rejected"]).
Definition CHECK_FAILED : StoreError := Sqlite "CHECK constraint failed".
Definition insert_new (n : NewProposal) (support : Z) (now : Millis) : Tx Z :=
  _ ← tx_check (proposal_checks (np_target n) (np_op n) "watching") CHECK_FAILED;
  tx_new (λ d, let id := (an_seq d + 1)%Z in
                (mkAnalysis (<[id := new_row n support now id]> (an_proposals d)) id (an_evidence d) (an_compositions d), id)).

Definition upsert_proposal (n : NewProposal) (pairs : list EvidenceRow) (now : Millis) : Tx (option Z) :=
  existing ← tx_get (find_proposal n);
  match existing with
  | Some p =>
      if decided p then mret None else
      _ ← tx_do (on_proposals (update_row (po_id p) (λ p,
             with_po_times now (po_shown_at p) (po_decided_at p)
               (with_po_content (match po_contradicts p with Some c => Some c | None => np_contradicts n end) (po_payload p) p))));
      _ ← each (add_pair (po_id p) now) pairs;
      _ ← tx_do (recount (po_id p));
      _ ← tx_do (on_proposals (update_row (po_id p) (show (np_threshold n) now)));
      mret (Some (po_id p))
  | None =>
      id ← insert_new n 0 now;
      _ ← each (add_pair id now) pairs;
      _ ← tx_do (recount id);
      _ ← tx_do (on_proposals (update_row id (show (np_threshold n) now)));
      mret (Some id)
  end.
Definition upsert_counted (n : NewProposal) (now : Millis) : Tx (option Z) :=
  existing ← tx_get (find_proposal n);
  match existing with
  | Some p =>
      if decided p then mret None else
      _ ← tx_do (on_proposals (update_row (po_id p) (λ p,
             with_po_times now (po_shown_at p) (po_decided_at p)
               (with_po_content (po_contradicts p) (match np_payload n with Some t => Some t | None => po_payload p end)
                  (with_po_support (po_support p + 1) p)))));
      _ ← tx_do (on_proposals (update_row (po_id p) (show (np_threshold n) now)));
      mret (Some (po_id p))
  | None =>
      id ← insert_new n 1 now;
      _ ← tx_do (on_proposals (update_row id (show (np_threshold n) now)));
      mret (Some id)
  end.
Definition set_proposal_status (id : Z) (status : string) (now : Millis) : Tx () :=
  _ ← tx_where (λ d, negb (bool_decide (is_Some (an_proposals d !! id))) ||
                     bool_decide (status ∈ ["watching"; "proposed"; "accepted"; "rejected"])) CHECK_FAILED;
  tx_do (on_proposals (update_row id (λ p,
    with_po_times now (po_shown_at p) (if bool_decide (status ∈ ["accepted"; "rejected"]) then Some now else None)
      (with_po_status status p)))).

(** ** Undo *)

Record ProposalSnapshot := mkPSnapshot { ps_proposal : ProposalRow; ps_evidence : list EvidenceRow }.
Definition snapshot_proposal (id : Z) (d : AnalysisDb) : option ProposalSnapshot :=
  (λ p, mkPSnapshot p (evidence id d)) <$> proposal id d.
Definition drop_evidence (id : Z) (m : gmap (Z * Z) (EvidenceRow * Millis)) : gmap (Z * Z) (EvidenceRow * Millis) :=
  base.filter (λ x, x.1.1 ≠ id) m.
(** [INSERT OR REPLACE]: rows with its id, or its target and key, go, and
    their evidence with them. *)
Definition replaced_by (p q : ProposalRow) : bool :=
  (po_id q =? po_id p)%Z || String.eqb (po_target q) (po_target p) && String.eqb (po_match_key q) (po_match_key p).
Definition replace_proposal (p : ProposalRow) (d : AnalysisDb) : AnalysisDb :=
  let gone := po_id <$> List.filter (replaced_by p) (rows (an_proposals d)).*2 in
  mkAnalysis (<[po_id p := p]> (foldr delete (an_proposals d) gone)) (Z.max (an_seq d) (po_id p))
    (foldr drop_evidence (an_evidence d) gone) (an_compositions d).
Definition restore_proposal (now : Millis) (s : ProposalSnapshot) : Tx () :=
  let p := ps_proposal s in
  _ ← tx_check (proposal_checks (po_target p) (po_op p) (po_status p)) CHECK_FAILED;
  _ ← tx_do (replace_proposal p);
  _ ← tx_do (on_pair_evidence (drop_evidence (po_id p)));
  each (add_pair (po_id p) now) (ps_evidence s).
Definition restore_proposals (snapshots : list ProposalSnapshot) (now : Millis) : Tx () := each (restore_proposal now) snapshots.

(** One pair left out of every open proposal; what was removed. *)
Definition drop_pair_from (composition : Z) (removed : list (Z * EvidenceRow)) (id : Z) : Tx (list (Z * EvidenceRow)) :=
  row ← tx_get (λ d, List.find (λ e, (ev_composition e =? composition)%Z) (evidence id d));
  _ ← tx_do (on_pair_evidence (delete (id, composition)));
  _ ← tx_do (recount id);
  _ ← tx_do (on_proposals (update_row id (λ p, if (po_support p =? 0)%Z then with_po_status "watching" p else p)));
  mret (removed ++ match row with Some e => [(id, e)] | None => [] end).
Definition drop_pair (composition : Z) : Tx (list (Z * EvidenceRow)) :=
  ids ← tx_get (pair_proposals composition);
  folding (drop_pair_from composition) [] ids.
Definition shown_again (p : ProposalRow) : ProposalRow :=
  if String.eqb (po_status p) "watching" && match po_shown_at p with Some _ => true | None => false end
  then with_po_status "proposed" p else p.
Definition restore_pair (removed : list (Z * EvidenceRow)) (now : Millis) : Tx () :=
  each (λ r, _ ← tx_where (λ d, bool_decide (is_Some (an_proposals d !! r.1))) FOREIGN_KEY;
             _ ← add_pair r.1 now r.2;
             _ ← tx_do (recount r.1);
             tx_do (on_proposals (update_row r.1 shown_again))) removed.
End Proposals.
