(* ===== verification/GuideStore.v ===== *)
(** * GuideStore: the writing guide's tables ([mail-store/src/guide.rs])

    Entries with their evidence, learning runs batch by batch, audience
    groups, model examples, the change log for exact undo and the versions
    of the accepted guide.  Snapshots are kept as values; their JSON text,
    which serde writes and reads back, is left out. *)

From Stdlib Require Import Ascii.
From S2P Require Import Prelude.
From S2P Require Import Domain.
From S2P Require Import Text.
From S2P Require Import Json.
From S2P Require Import Guide.
From S2P Require Import MailStore.
From S2P Require Import Transactions.
From S2P Require Import ProposalStore.

(** What the standard library and serde_json do with text. *)
Class CoreText := {
  lower : string → string;               (** [str::to_lowercase] *)
  json_write : Json → string;            (** [serde_json::to_string] *)
  json_read : string → option Json;      (** [serde_json::from_str] *)
  json_first : string → option Json }.   (** the first value of a [serde_json] stream *)

Module GuideStore.

(** ** Rows *)

Record EntryRow := mkEntryRow {
  er_id : Z; er_category : string; er_kind : string; er_statement : string; er_scope_json : string; er_status : string;
  er_source : string; er_origin : option string; er_check_json : option string; er_support : Z; er_contradict : Z;
  er_contradiction_of : option Z; er_run_id : option Z; er_created_at : Millis; er_updated_at : Millis;
  er_decided_at : option Millis }.
Definition with_er_id (id : Z) (e : EntryRow) : EntryRow :=
  mkEntryRow id (er_category e) (er_kind e) (er_statement e) (er_scope_json e) (er_status e) (er_source e) (er_origin e)
    (er_check_json e) (er_support e) (er_contradict e) (er_contradiction_of e) (er_run_id e) (er_created_at e) (er_updated_at e)
    (er_decided_at e).
Definition with_counts (support contradict : Z) (e : EntryRow) : EntryRow :=
  mkEntryRow (er_id e) (er_category e) (er_kind e) (er_statement e) (er_scope_json e) (er_status e) (er_source e) (er_origin e)
    (er_check_json e) support contradict (er_contradiction_of e) (er_run_id e) (er_created_at e) (er_updated_at e)
    (er_decided_at e).
Definition with_fields (category kind statement scope : string) (check : option string) (e : EntryRow) : EntryRow :=
  mkEntryRow (er_id e) category kind statement scope (er_status e) (er_source e) (er_origin e) check (er_support e)
    (er_contradict e) (er_contradiction_of e) (er_run_id e) (er_created_at e) (er_updated_at e) (er_decided_at e).
Definition with_er_updated (now : Millis) (e : EntryRow) : EntryRow :=
  mkEntryRow (er_id e) (er_category e) (er_kind e) (er_statement e) (er_scope_json e) (er_status e) (er_source e) (er_origin e)
    (er_check_json e) (er_support e) (er_contradict e) (er_contradiction_of e) (er_run_id e) (er_created_at e) now
    (er_decided_at e).
Definition with_er_status (status : string) (decided : option Millis) (e : EntryRow) : EntryRow :=
  mkEntryRow (er_id e) (er_category e) (er_kind e) (er_statement e) (er_scope_json e) status (er_source e) (er_origin e)
    (er_check_json e) (er_support e) (er_contradict e) (er_contradiction_of e) (er_run_id e) (er_created_at e) (er_updated_at e)
    decided.

Record EvidenceRow := mkEvidence { ev_message : string; ev_quote : string; ev_contradicts : bool }.
#[export] Instance evidence_eq_dec : EqDecision EvidenceRow.
Proof. solve_decision. Defined.
Record Snapshot := mkSnap { sn_entry : EntryRow; sn_evidence : list EvidenceRow }.
(** What a guide change recorded for Analysis: the proposals decided, or a
    pair left out and the evidence that removed. *)
Inductive AnalysisRecord :=
| ProposalsWere (l : list Proposals.ProposalSnapshot)
| Ignored (pair : Z) (removed : list (Z * Proposals.EvidenceRow)).
Record ChangeRow := mkChange {
  ch_reason : string; ch_before : list Snapshot; ch_after : list Snapshot; ch_created_at : Millis;
  ch_analysis : option (AnalysisRecord * AnalysisRecord) }.
Record VersionRow := mkVersion { ve_reason : string; ve_entries : list EntryRow; ve_created_at : Millis }.
Record RunRow := mkRun {
  ru_id : Z; ru_kind : string; ru_focus : option string; ru_status : string; ru_batch_size : Z; ru_total : Z; ru_done : Z;
  ru_agent : option string; ru_error : option string; ru_started_at : Millis; ru_finished_at : option Millis;
  ru_timed_batches : Z; ru_timed_ms : Z }.
Record RunMessage := mkRunMessage { rm_batch : Z; rm_position : Z; rm_done : bool }.
Record GroupRow := mkGroupRow {
  gr_id : Z; gr_name : string; gr_status : string; gr_description : string; gr_position : Z; gr_members : list string }.
Definition with_members (members : list string) (g : GroupRow) : GroupRow :=
  mkGroupRow (gr_id g) (gr_name g) (gr_status g) (gr_description g) (gr_position g) members.
Record SentRow := mkSent {
  se_message_id : string; se_subject : string; se_date : Millis; se_in_reply_to : option string;
  se_to : list (option string * string); se_cc : list (option string * string); se_labels : list string }.

(** The tables, with the mail they are about and what Analysis keeps.
    Evidence is keyed by its primary key (entry, message and quote), a
    group's row is without its members, which are kept lower-cased. *)
Record GuideDb := mkGuideDb {
  g_mail : Store;
  g_entries : gmap Z EntryRow;
  g_evidence : gmap (Z * string * string) bool;
  g_changes : gmap Z ChangeRow; g_change_seq : Z;
  g_versions : gmap Z VersionRow; g_version_seq : Z;
  g_runs : gmap Z RunRow;
  g_run_messages : gmap (Z * string) RunMessage;
  g_groups : gmap Z GroupRow;
  g_members : gset (Z * string);
  g_examples : gmap string (string * Millis);
  g_meta : gmap string string;
  g_analysis : Proposals.AnalysisDb }.
Definition on_entries (f : gmap Z EntryRow → gmap Z EntryRow) (g : GuideDb) : GuideDb :=
  mkGuideDb (g_mail g) (f (g_entries g)) (g_evidence g) (g_changes g) (g_change_seq g) (g_versions g) (g_version_seq g) (g_runs g)
    (g_run_messages g) (g_groups g) (g_members g) (g_examples g) (g_meta g) (g_analysis g).
Definition on_evidence (f : gmap (Z * string * string) bool → gmap (Z * string * string) bool) (g : GuideDb) : GuideDb :=
  mkGuideDb (g_mail g) (g_entries g) (f (g_evidence g)) (g_changes g) (g_change_seq g) (g_versions g) (g_version_seq g) (g_runs g)
    (g_run_messages g) (g_groups g) (g_members g) (g_examples g) (g_meta g) (g_analysis g).
Definition with_changes (c : gmap Z ChangeRow) (seq : Z) (g : GuideDb) : GuideDb :=
  mkGuideDb (g_mail g) (g_entries g) (g_evidence g) c seq (g_versions g) (g_version_seq g) (g_runs g)
    (g_run_messages g) (g_groups g) (g_members g) (g_examples g) (g_meta g) (g_analysis g).
Definition with_versions (v : gmap Z VersionRow) (seq : Z) (g : GuideDb) : GuideDb :=
  mkGuideDb (g_mail g) (g_entries g) (g_evidence g) (g_changes g) (g_change_seq g) v seq (g_runs g)
    (g_run_messages g) (g_groups g) (g_members g) (g_examples g) (g_meta g) (g_analysis g).
Definition on_runs (f : gmap Z RunRow → gmap Z RunRow) (g : GuideDb) : GuideDb :=
  mkGuideDb (g_mail g) (g_entries g) (g_evidence g) (g_changes g) (g_change_seq g) (g_versions g) (g_version_seq g) (f (g_runs g))
    (g_run_messages g) (g_groups g) (g_members g) (g_examples g) (g_meta g) (g_analysis g).
Definition on_run_messages (f : gmap (Z * string) RunMessage → gmap (Z * string) RunMessage) (g : GuideDb) : GuideDb :=
  mkGuideDb (g_mail g) (g_entries g) (g_evidence g) (g_changes g) (g_change_seq g) (g_versions g) (g_version_seq g) (g_runs g)
    (f (g_run_messages g)) (g_groups g) (g_members g) (g_examples g) (g_meta g) (g_analysis g).
Definition with_groups (m : gmap Z GroupRow) (members : gset (Z * string)) (g : GuideDb) : GuideDb :=
  mkGuideDb (g_mail g) (g_entries g) (g_evidence g) (g_changes g) (g_change_seq g) (g_versions g) (g_version_seq g) (g_runs g)
    (g_run_messages g) m members (g_examples g) (g_meta g) (g_analysis g).
Definition on_examples (f : gmap string (string * Millis) → gmap string (string * Millis)) (g : GuideDb) : GuideDb :=
  mkGuideDb (g_mail g) (g_entries g) (g_evidence g) (g_changes g) (g_change_seq g) (g_versions g) (g_version_seq g) (g_runs g)
    (g_run_messages g) (g_groups g) (g_members g) (f (g_examples g)) (g_meta g) (g_analysis g).
Definition on_meta (f : gmap string string → gmap string string) (g : GuideDb) : GuideDb :=
  mkGuideDb (g_mail g) (g_entries g) (g_evidence g) (g_changes g) (g_change_seq g) (g_versions g) (g_version_seq g) (g_runs g)
    (g_run_messages g) (g_groups g) (g_members g) (g_examples g) (f (g_meta g)) (g_analysis g).
Definition with_analysis (a : Proposals.AnalysisDb) (g : GuideDb) : GuideDb :=
  mkGuideDb (g_mail g) (g_entries g) (g_evidence g) (g_changes g) (g_change_seq g) (g_versions g) (g_version_seq g) (g_runs g)
    (g_run_messages g) (g_groups g) (g_members g) (g_examples g) (g_meta g) a.

Abbreviation Tx := (Tx GuideDb).
Definition in_analysis {A} (t : Transactions.Tx Proposals.AnalysisDb A) : Tx A := within g_analysis with_analysis t.

(** [ORDER BY] *)
Definition by_category (a b : EntryRow) : Prop :=
  match String.compare (er_category a) (er_category b) with Lt => True | Eq => (er_id a ≤ er_id b)%Z | Gt => False end.
#[export] Instance by_category_dec a b : Decision (by_category a b).
Proof. unfold by_category. destruct (String.compare _ _); apply _. Defined.
Definition newest_id {A} (a b : Z * A) : Prop := (b.1 ≤ a.1)%Z.
#[export] Instance newest_id_dec {A} (a b : Z * A) : Decision (newest_id a b).
Proof. unfold newest_id. apply _. Defined.
Definition by_position (a b : GroupRow) : Prop := (gr_position a < gr_position b)%Z ∨ gr_position a = gr_position b ∧ (gr_id a ≤ gr_id b)%Z.
#[export] Instance by_position_dec a b : Decision (by_position a b).
Proof. unfold by_position. apply _. Defined.
Definition quote_le (a b : EvidenceRow) : Prop :=
  match ev_contradicts a, ev_contradicts b with
  | false, true => True
  | true, false => False
  | _, _ => match String.compare (ev_message a) (ev_message b) with
            | Lt => True | Gt => False | Eq => key_leb (ev_quote a) (ev_quote b) = true end
  end.
#[export] Instance quote_le_dec a b : Decision (quote_le a b).
Proof. unfold quote_le. destruct (ev_contradicts a), (ev_contradicts b), (String.compare (ev_message a) (ev_message b)); apply _. Defined.

Section store.
Context `{CoreText}.

(** The statement as compared for merging. *)
Definition norm (statement : string) : string :=
  let s := join " " (lower <$> split_whitespace statement) in
  string_rev_of (strip_all (String.length s) ["."; "!"] (string_rev_of s)).

(** ** Settings *)

Definition meta (key : string) (g : GuideDb) : option string := g_meta g !! key.
Definition set_meta (key value : string) : Tx () := tx_do (on_meta (insert key value)).

(** ** Entries *)

Definition get_entry (id : Z) (g : GuideDb) : option EntryRow := g_entries g !! id.
Definition list_entries (statuses : list string) (g : GuideDb) : list EntryRow :=
  List.filter (λ e, is_empty statuses || bool_decide (er_status e ∈ statuses)) (merge_sort by_category (rows (g_entries g)).*2).
Definition find_by_norm (category statement : string) (g : GuideDb) : option EntryRow :=
  head (merge_sort by_category
          (List.filter (λ e, String.eqb (er_category e) category && String.eqb (norm (er_statement e)) (norm statement))
             (rows (g_entries g)).*2)).
Definition quotes_of (id : Z) (m : gmap (Z * string * string) bool) : list EvidenceRow :=
  (λ x, mkEvidence x.1.1.2 x.1.2 x.2) <$> List.filter (λ x, (x.1.1.1 =? id)%Z) (map_to_list m).
Definition evidence (id : Z) (g : GuideDb) : list EvidenceRow := merge_sort quote_le (quotes_of id (g_evidence g)).

(** [CAST(value AS INTEGER)] of an integer's text. *)
Definition cast_integer (s : string) : Z :=
  match s with
  | String a r => if Ascii.eqb a "-"%char then match parse_N r with Some n => (- Z.of_N n)%Z | None => 0%Z end
                  else match parse_N s with Some n => Z.of_N n | None => 0%Z end
  | EmptyString => 0%Z
  end.
(** The largest id ever used. *)
Definition LAST_ENTRY_ID : string := "last_entry_id".
Definition last_entry_id (g : GuideDb) : Z :=
  Z.max (last_id (g_entries g)) (default 0%Z (cast_integer <$> meta LAST_ENTRY_ID g)).
(** The [CHECK] constraints of [guide_entries]. *)
Definition KINDS : list string := ["rule"; "guideline"; "fact"].
Definition STATUSES : list string := ["proposed"; "accepted"; "rejected"].
Definition SOURCES : list string := ["learned"; "you"; "merged"].
Definition entry_checks (e : EntryRow) : bool :=
  bool_decide (er_kind e ∈ KINDS) && bool_decide (er_status e ∈ STATUSES) && bool_decide (er_source e ∈ SOURCES).
Definition CHECK_FAILED : StoreError := Sqlite "CHECK constraint failed".
Definition UNIQUE_FAILED : StoreError := Sqlite "UNIQUE constraint failed".
Definition insert_entry (e : EntryRow) : Tx Z :=
  last ← tx_get last_entry_id;
  let id := if (er_id e =? 0)%Z then (last + 1)%Z else er_id e in
  _ ← set_meta LAST_ENTRY_ID (pretty (Z.max last id));
  _ ← tx_check (entry_checks e) CHECK_FAILED;
  _ ← tx_where (λ g, bool_decide (g_entries g !! id = None)) UNIQUE_FAILED;
  _ ← tx_do (on_entries (insert id (with_er_id id e)));
  mret id.
(** Whether it was there. *)
Definition write_entry (e : EntryRow) : Tx bool :=
  there ← tx_get (λ g, bool_decide (is_Some (get_entry (er_id e) g)));
  if (there : bool) then
    _ ← tx_check (entry_checks e) CHECK_FAILED;
    _ ← tx_do (on_entries (insert (er_id e) e));
    mret true
  else mret false.
(** Its evidence goes with it. *)
Definition without_quotes (id : Z) (m : gmap (Z * string * string) bool) : gmap (Z * string * string) bool :=
  base.filter (λ x, x.1.1.1 ≠ id) m.
Definition delete_entry (id : Z) : Tx bool :=
  there ← tx_get (λ g, bool_decide (is_Some (get_entry id g)));
  _ ← tx_do (λ g, on_evidence (without_quotes id) (on_entries (delete id) g));
  mret there.

(** Distinct messages, not quotes. *)
Definition messages_of (contradicts : bool) (id : Z) (g : GuideDb) : gset string :=
  list_to_set (ev_message <$> List.filter (λ q, Bool.eqb (ev_contradicts q) contradicts) (quotes_of id (g_evidence g))).
Definition counted (contradicts : bool) (id : Z) (g : GuideDb) : Z := Z.of_nat (size (messages_of contradicts id g)).
Definition recount (id : Z) (g : GuideDb) : GuideDb :=
  on_entries (update_row id (with_counts (counted false id g) (counted true id g))) g.
(** [INSERT OR IGNORE]: a quote that is there stays as it is; of an entry
    that is not there it is refused. *)
Definition add_quote (id : Z) (q : EvidenceRow) : Tx () :=
  _ ← tx_where (λ g, bool_decide (is_Some (get_entry id g))) FOREIGN_KEY;
  tx_do (on_evidence (λ m, let k := (id, ev_message q, ev_quote q) in
                           match m !! k with Some _ => m | None => <[k := ev_contradicts q]> m end)).
Definition add_evidence (id : Z) (quotes : list EvidenceRow) : Tx () :=
  _ ← each (add_quote id) quotes;
  tx_do (recount id).

(** ** Undo *)

Definition snapshot (id : Z) (g : GuideDb) : option Snapshot :=
  (λ e, mkSnap e (evidence id g)) <$> get_entry id g.
Definition max_counts (support contradict : Z) (e : EntryRow) : EntryRow :=
  with_counts (Z.max (er_support e) support) (Z.max (er_contradict e) contradict) e.
Definition restore_one (snapshots : list Snapshot) (id : Z) : Tx () :=
  match List.find (λ s, (er_id (sn_entry s) =? id)%Z) snapshots with
  | Some s =>
      now ← tx_get (get_entry id);
      written ← write_entry (sn_entry s);
      _ ← (if (written : bool) then mret 0%Z else insert_entry (sn_entry s));
      _ ← add_evidence id (sn_evidence s);
      let support := Z.max (from_option er_support 0%Z now) (er_support (sn_entry s)) in
      let contradict := Z.max (from_option er_contradict 0%Z now) (er_contradict (sn_entry s)) in
      tx_do (on_entries (update_row id (max_counts support contradict)))
  | None => _ ← delete_entry id; mret ()
  end.
Definition restore (ids : list Z) (snapshots : list Snapshot) : Tx () := each (restore_one snapshots) ids.

(** The last 200 changes are kept. *)
Definition KEPT_CHANGES : Z := 200.
Definition record_change_with (reason : string) (before after : list Snapshot)
    (analysis : option (AnalysisRecord * AnalysisRecord)) (now : Millis) : Tx Z :=
  tx_new (λ g,
    let id := (g_change_seq g + 1)%Z in
    let changes := <[id := mkChange reason before after now analysis]> (g_changes g) in
    (with_changes (base.filter (λ x, id - KEPT_CHANGES < x.1)%Z changes) id g, id)).
Definition get_change (id : Z) (g : GuideDb) : option (string * list Snapshot * list Snapshot) :=
  (λ c, (ch_reason c, ch_before c, ch_after c)) <$> g_changes g !! id.
Definition change_analysis (id : Z) (g : GuideDb) : option (AnalysisRecord * AnalysisRecord) := g_changes g !! id ≫= ch_analysis.

Definition accepted_rows (g : GuideDb) : list EntryRow :=
  merge_sort by_category (List.filter (λ e, String.eqb (er_status e) "accepted") (rows (g_entries g)).*2).
Definition record_version (reason : string) (now : Millis) : Tx Z :=
  tx_new (λ g, let id := (g_version_seq g + 1)%Z in
               (with_versions (<[id := mkVersion reason (accepted_rows g) now]> (g_versions g)) id g, id)).
Definition current_version (g : GuideDb) : Z := last_id (g_versions g).
Definition version_entries (id : Z) (g : GuideDb) : option (list EntryRow) := ve_entries <$> g_versions g !! id.
Definition versions (limit : nat) (g : GuideDb) : list (Z * string * Millis * nat) :=
  (λ x, (x.1, ve_reason x.2, ve_created_at x.2, length (ve_entries x.2))) <$> take limit (merge_sort newest_id (rows (g_versions g))).
End store.
End GuideStore.

(** * Runs, sent mail, audience groups and examples
    ([mail-store/src/guide.rs], from "Runs" on) *)

Import GuideStore.

Module GuideTables.
Section tables.
Context `{CoreText}.

(** ** Runs, batch by batch *)

Definition RUN_STATUSES : list string := ["running"; "paused"; "done"; "cancelled"; "failed"].
Definition with_ru_status (status : string) (error : option string) (finished : option Millis) (r : RunRow) : RunRow :=
  mkRun (ru_id r) (ru_kind r) (ru_focus r) status (ru_batch_size r) (ru_total r) (ru_done r) (ru_agent r) error (ru_started_at r)
    finished (ru_timed_batches r) (ru_timed_ms r).
Definition with_ru_done (done : Z) (r : RunRow) : RunRow :=
  mkRun (ru_id r) (ru_kind r) (ru_focus r) (ru_status r) (ru_batch_size r) (ru_total r) done (ru_agent r) (ru_error r)
    (ru_started_at r) (ru_finished_at r) (ru_timed_batches r) (ru_timed_ms r).
Definition timed (ms : Z) (r : RunRow) : RunRow :=
  mkRun (ru_id r) (ru_kind r) (ru_focus r) (ru_status r) (ru_batch_size r) (ru_total r) (ru_done r) (ru_agent r) (ru_error r)
    (ru_started_at r) (ru_finished_at r) (ru_timed_batches r + 1) (ru_timed_ms r + ms).

(** A message listed twice keeps its first place. *)
Definition add_run_message (run : Z) (batch_size : nat) (im : nat * string) : GuideDb → GuideDb :=
  on_run_messages (λ m, match m !! (run, im.2) with
    | Some _ => m
    | None => <[(run, im.2) := mkRunMessage (Z.of_nat (im.1 / batch_size)) (Z.of_nat im.1) false]> m
    end).
Definition indexed {A} (l : list A) : list (nat * A) := imap (λ i x, (i, x)) l.
Definition create_run (kind : string) (focus agent : option string) (message_ids : list string) (batch_size : nat) (now : Millis) : Tx Z :=
  let batch_size := Nat.max batch_size 1 in
  id ← tx_new (λ g, let id := (last_id (g_runs g) + 1)%Z in
    (on_runs (insert id (mkRun id kind focus "running" (Z.of_nat batch_size) (Z.of_nat (length message_ids)) 0 agent None now None 0 0)) g, id));
  _ ← tx_do (λ g, foldl (λ g im, add_run_message id batch_size im g) g (indexed message_ids));
  mret id.
Definition get_run (id : Z) (g : GuideDb) : option RunRow := g_runs g !! id.
Definition going (r : RunRow) : bool := bool_decide (ru_status r ∈ ["running"; "paused"]).
Definition runs (limit : nat) (g : GuideDb) : list RunRow := take limit (merge_sort newest_id (rows (g_runs g))).*2.
Definition active_run (g : GuideDb) : option RunRow :=
  head (List.filter going (merge_sort newest_id (rows (g_runs g))).*2).

Definition messages_in (run : Z) (g : GuideDb) : list (string * RunMessage) :=
  (λ x, (x.1.2, x.2)) <$> List.filter (λ x, (x.1.1 =? run)%Z) (map_to_list (g_run_messages g)).
Definition by_place (a b : string * RunMessage) : Prop := (rm_position a.2 ≤ rm_position b.2)%Z.
#[export] Instance by_place_dec a b : Decision (by_place a b).
Proof. unfold by_place. apply _. Defined.
(** [SELECT MIN(...)] *)
Definition min_of (l : list Z) : option Z := match l with [] => None | x :: l => Some (foldr Z.min x l) end.
Definition max_of (l : list Z) : option Z := match l with [] => None | x :: l => Some (foldr Z.max x l) end.
Definition next_batch (run : Z) (g : GuideDb) : option (Z * list string) :=
  let l := messages_in run g in
  batch ← min_of ((λ x, rm_batch x.2) <$> List.filter (λ x, negb (rm_done x.2)) l);
  Some (batch, (merge_sort by_place (List.filter (λ x, (rm_batch x.2 =? batch)%Z) l)).*1).
Definition mark_batch (run batch : Z) (k : Z * string) (m : RunMessage) : RunMessage :=
  if (k.1 =? run)%Z && (rm_batch m =? batch)%Z then mkRunMessage (rm_batch m) (rm_position m) true else m.
Definition done_in (run : Z) (g : GuideDb) : Z := Z.of_nat (length (List.filter (λ x, rm_done x.2) (messages_in run g))).
Definition finish_batch (run batch : Z) (elapsed_ms : option Z) : Tx () :=
  _ ← match elapsed_ms with
      | Some ms => tx_do (on_runs (update_row run (timed (Z.max ms 0))))
      | None => mret ()
      end;
  _ ← tx_do (on_run_messages (map_imap (λ k m, Some (mark_batch run batch k m))));
  tx_do (λ g, on_runs (update_row run (with_ru_done (done_in run g))) g).
Definition ended (status : string) : bool := bool_decide (status ∈ ["done"; "cancelled"; "failed"]).
Definition set_run_status (run : Z) (status : string) (error : option string) (now : Millis) : Tx () :=
  _ ← tx_where (λ g, negb (bool_decide (is_Some (get_run run g))) || bool_decide (status ∈ RUN_STATUSES)) CHECK_FAILED;
  tx_do (on_runs (update_row run (with_ru_status status error (if ended status then Some now else None)))).
(** Every message some run has analysed. *)
Definition analysed_messages (g : GuideDb) : gset string :=
  list_to_set ((λ x, x.1.2) <$> List.filter (λ x, rm_done x.2) (map_to_list (g_run_messages g))).
Definition analysed_range (g : GuideDb) : option (Millis * Millis) :=
  let dates := ms_date <$> List.filter (λ m, bool_decide (ms_gmail_id m ∈ analysed_messages g)) (messages (g_mail g)) in
  oldest ← min_of dates; newest ← max_of dates; Some (oldest, newest).
(** Of the runs that ended: their entries, and those decided. *)
Definition of_ended_run (g : GuideDb) (e : EntryRow) : bool :=
  match er_run_id e ≫= λ r, get_run r g with Some r => negb (going r) | None => false end.
Definition decision_counts (g : GuideDb) : nat * nat :=
  let l := List.filter (of_ended_run g) (rows (g_entries g)).*2 in
  (length l, length (List.filter (λ e, negb (String.eqb (er_status e) "proposed")) l)).

(** ** Sent mail *)

Definition is_sent (m : MessageRow) : bool := is_sent_by_me (ms_flags m) && negb (is_draft (ms_flags m)).
Definition sent_count (g : GuideDb) : nat := length (List.filter is_sent (messages (g_mail g))).
Definition newest_sent (a b : MessageRow) : Prop :=
  (ms_internal_date b < ms_internal_date a)%Z ∨ ms_internal_date a = ms_internal_date b ∧ (ms_id b ≤ ms_id a)%Z.
#[export] Instance newest_sent_dec a b : Decision (newest_sent a b).
Proof. unfold newest_sent. apply _. Defined.
Definition by_pt_position (a b : ParticipantRow) : Prop := (pt_position a ≤ pt_position b)%Z.
#[export] Instance by_pt_position_dec a b : Decision (by_pt_position a b).
Proof. unfold by_pt_position. apply _. Defined.
Definition people_of (role : string) (message : Z) (s : Store) : list (option string * string) :=
  (λ p, (addr_name (pt_address p), addr_email (pt_address p))) <$>
    merge_sort by_pt_position (List.filter (λ p, (pt_message p =? message)%Z && String.eqb (pt_role p) role) (participants s)).
Definition sent_row (s : Store) (m : MessageRow) : SentRow :=
  mkSent (ms_gmail_id m) (ms_subject m) (ms_date m) (ms_in_reply_to m) (people_of "to" (ms_id m) s) (people_of "cc" (ms_id m) s)
    (lb_gmail_id <$> labels_of_message s (ms_id m)).
Definition sent_messages (limit : nat) (skip : gset string) (g : GuideDb) : list SentRow :=
  take limit (sent_row (g_mail g) <$>
    List.filter (λ m, negb (bool_decide (ms_gmail_id m ∈ skip))) (merge_sort newest_sent (List.filter is_sent (messages (g_mail g))))).

(** ** Audience groups *)

Definition string_le (a b : string) : Prop := key_leb a b = true.
#[export] Instance string_le_dec a b : Decision (string_le a b).
Proof. unfold string_le. apply _. Defined.
Definition members_of (id : Z) (g : GuideDb) : list string :=
  merge_sort string_le (snd <$> List.filter (λ x, (x.1 =? id)%Z) (elements (g_members g))).
Definition groups (g : GuideDb) : list GroupRow :=
  (λ r, with_members (members_of (gr_id r) g) r) <$> merge_sort by_position (rows (g_groups g)).*2.
Definition group_named (name : string) (g : GuideDb) : option GroupRow :=
  List.find (λ r, nocase_eqb (gr_name r) name) (rows (g_groups g)).*2.
Definition GROUP_STATUSES : list string := ["suggested"; "confirmed"; "rejected"].
Definition set_group (r : GroupRow) (old : GroupRow) : GroupRow :=
  mkGroupRow (gr_id old) (gr_name old) (gr_status r) (gr_description r) (gr_position r) [].
Definition save_group (r : GroupRow) : Tx Z :=
  _ ← tx_check (bool_decide (gr_status r ∈ GROUP_STATUSES)) CHECK_FAILED;
  old ← tx_get (group_named (gr_name r));
  id ← match old with
       | Some old => _ ← tx_do (λ g, with_groups (update_row (gr_id old) (set_group r) (g_groups g)) (g_members g) g); mret (gr_id old)
       | None => tx_new (λ g,
           let id := (last_id (g_groups g) + 1)%Z in
           (with_groups (<[id := mkGroupRow id (gr_name r) (gr_status r) (gr_description r) (gr_position r) []]> (g_groups g)) (g_members g) g, id))
       end;
  _ ← tx_do (λ g, with_groups (g_groups g)
         (list_to_set ((λ m, (id, lower (trim m))) <$> gr_members r) ∪ base.filter (λ x, x.1 ≠ id) (g_members g)) g);
  mret id.
Definition rename_group (id : Z) (name : string) : Tx () :=
  _ ← tx_where (λ g, negb (bool_decide (is_Some (g_groups g !! id))) ||
                     match group_named name g with Some r => (gr_id r =? id)%Z | None => true end) UNIQUE_FAILED;
  tx_do (λ g, with_groups (update_row id (λ r, mkGroupRow (gr_id r) name (gr_status r) (gr_description r) (gr_position r) []) (g_groups g))
                (g_members g) g).
Definition delete_group (id : Z) : Tx bool :=
  there ← tx_get (λ g, bool_decide (is_Some (g_groups g !! id)));
  _ ← tx_do (λ g, with_groups (delete id (g_groups g)) (base.filter (λ x, x.1 ≠ id) (g_members g)) g);
  mret there.

(** ** Examples *)

Definition older_example (a b : string * (string * Millis)) : Prop := (a.2.2 ≤ b.2.2)%Z.
#[export] Instance older_example_dec a b : Decision (older_example a b).
Proof. unfold older_example. apply _. Defined.
Definition examples (g : GuideDb) : list (string * string) :=
  (λ x, (x.1, x.2.1)) <$> merge_sort older_example (map_to_list (g_examples g)).
Definition set_example (message : string) (message_type : option string) (now : Millis) : Tx () :=
  tx_do (on_examples (λ m,
    match message_type with
    | Some t => <[message := (t, match m !! message with Some (_, at_) => at_ | None => now end)]> m
    | None => delete message m
    end)).
End tables.
End GuideTables.
