(* ===== verification/GuideEdits.v ===== *)
(** * GuideEdits: deciding on the writing guide ([kaluta-core/src/guide.rs])

    The taxonomy, the entries' fields checked and tidied, edits applied as
    one change and replayed, audience groups renamed and merged, and the
    guide exported and read back.  Telling the app that the guide changed
    is left out; what the publisher then does is [RulesWorker]. *)

From S2P Require Import Prelude.
From S2P Require Import Domain.
From S2P Require Import Text.
From S2P Require Import Json.
From S2P Require Import Guide.
From S2P Require Import MailStore.
From S2P Require Import Agents.
From S2P Require Import Facade.
From S2P Require Import Effects.
From S2P Require Import Transactions.
From S2P Require Import ProposalStore.
From S2P Require Import GuideStore.

Import GuideStore.
Import GuideTables.

Module GuideEdits.

(** ** The taxonomy *)

Record Category := mkCategory { ca_id : string; ca_name : string; ca_looks_for : string; ca_learned : bool; ca_asked : bool }.
Definition GROUPS : list (string * string) := [
  ("A", "Voice and tone"); ("B", "Structure"); ("C", "Language"); ("D", "Audience"); ("E", "Message types");
  ("F", "Content rules"); ("G", "Format"); ("H", "When unsure")].
Definition CATEGORIES : list Category := [
  mkCategory "A1" "Overall voice" "formality, warmth, directness, confidence or hedging" true false;
  mkCategory "A2" "Tone by situation" "saying no, bad news, apologising, asking favours, chasing, thanking, disagreeing, congratulating" true false;
  mkCategory "A3" "Humour, emoji and exclamation marks" "whether, how much and with whom" true false;
  mkCategory "A4" "Directness" "how plainly requests are stated: 'Can you send this by Friday?' or 'Would you be able to…'" true false;
  mkCategory "A5" "Uncertainty" "hedges such as 'I think', 'My understanding is'; when the user avoids sounding certain" true false;
  mkCategory "A6" "Enthusiasm and acknowledgements" "'Great', 'Sounds good', 'Perfect', 'Love it'; how often" true false;
  mkCategory "A7" "Personality markers" "regional words, colloquialisms, lowercase replies" true false;
  mkCategory "B1" "Greeting" "'Hi Ann,', first name only, none in a running thread" true false;
  mkCategory "B2" "Opening line" "straight to the point or a pleasantry; 'hope you're well' or never" true false;
  mkCategory "B3" "Body" "answer first, paragraph length, bullets, numbered lists, bold" true false;
  mkCategory "B4" "Length" "typical length by message type" true false;
  mkCategory "B5" "Closing line" "a next step, 'let me know', or none" true false;
  mkCategory "B6" "Sign-off and name" "'Best,', 'Thanks,', none; the name used" true false;
  mkCategory "B7" "Signature block" "when a signature is included and which" true true;
  mkCategory "B8" "Subject lines" "style for new messages; when a subject is changed" true false;
  mkCategory "B9" "Context" "how much background comes before the point; what recipients are assumed to know" true false;
  mkCategory "B10" "Calls to action" "where the ask goes, explicit deadlines, one clear next step" true false;
  mkCategory "B11" "Questions" "one at a time or several; inline or bulleted; open or specific" true false;
  mkCategory "C1" "Spelling variant" "US or UK spelling" true false;
  mkCategory "C2" "Punctuation" "serial comma, dashes, ellipses, semicolons" true false;
  mkCategory "C3" "Capitalisation" "product names, titles, headings" true false;
  mkCategory "C4" "Contractions" "'I'll' or 'I will'" true false;
  mkCategory "C5" "Numbers, dates, times and money" "forms such as '3pm PT', 'Oct 2', '$5k'" true false;
  mkCategory "C6" "Abbreviations and jargon" "which are used, and with whom" true false;
  mkCategory "C7" "Favoured words and phrases" "phrases the user really uses" true false;
  mkCategory "C8" "Things never done" "banned words, phrases and clichés; formatting never used; AI habits to avoid" true true;
  mkCategory "C9" "Sentence style" "sentence length, fragments, active voice" true false;
  mkCategory "C10" "Languages" "which language to answer in" true false;
  mkCategory "D1" "Audience groups" "the register used with colleagues, customers, investors, vendors, friends and so on" true true;
  mkCategory "D2" "Particular people" "a nickname, formality or something to remember for one person or domain" true false;
  mkCategory "D3" "Forms of address" "first names, titles" true false;
  mkCategory "D4" "First contact or established" "how a first or cold message differs; warm or transactional" true false;
  mkCategory "D5" "Seniority" "writing to someone senior, a peer or a direct report" true true;
  mkCategory "E1" "Replies" "answering inline or in a fresh note" true false;
  mkCategory "E2" "Forwards" "the note on top: 'FYI', a summary, an ask" true false;
  mkCategory "E3" "Introductions" "the pattern for introducing two people" true false;
  mkCategory "E4" "Scheduling" "how times are offered, time zones, calendar links" true true;
  mkCategory "E5" "Follow-ups and chasers" "after how long, how firm, first and later nudges" true false;
  mkCategory "E6" "Declines" "how the user says no" true false;
  mkCategory "E7" "Requests and delegating" "how asks are phrased, deadlines" true false;
  mkCategory "E8" "Status updates and hand-offs" "shape and headings" true false;
  mkCategory "E9" "Thanks and acknowledgements" "one line or more" true false;
  mkCategory "E10" "Recipients" "reply all, who is copied, Cc or Bcc" true false;
  mkCategory "E11" "Attachments and links" "how they are mentioned" true false;
  mkCategory "E12" "Disagreeing and negotiating" "correcting, pushing back, negotiating" true false;
  mkCategory "F1" "Commitments" "dates, prices or terms never promised without the user" false true;
  mkCategory "F2" "Confidentiality" "topics and figures never mentioned, or only to some audiences" false true;
  mkCategory "F3" "Facts about me" "role, company, phone, calendar link, time zone, working hours, pronouns" false true;
  mkCategory "F4" "Never invent" "no made-up facts, names or figures; what to do instead" false true;
  mkCategory "F5" "AI disclosure" "whether a message may say an AI helped" false true;
  mkCategory "F6" "Required wording" "legal or compliance text for some audiences" false true;
  mkCategory "G1" "Plain or rich text" "links as text or URLs, bold, lists" true false;
  mkCategory "G2" "Quoting" "trimming quoted text, answering inline" true false;
  mkCategory "H1" "Missing information" "ask the user, leave a [bracket], or offer options" false true;
  mkCategory "H2" "Conflicts and precedence" "rules beat guidelines; a narrower scope beats a wider one" false false;
  mkCategory "H3" "Model examples" "real sent messages kept as examples of a message type" false false;
  mkCategory "H4" "Draft, send or stay silent" "when only to draft, when to ask first, when not to reply" false true].
Definition category (id : string) : option Category := List.find (λ c, nocase_eqb (ca_id c) id) CATEGORIES.

(** ** Entries as the app has them *)

Inductive GuideStatus := Proposed | Accepted | Rejected.
#[export] Instance guide_status_eq_dec : EqDecision GuideStatus.
Proof. solve_decision. Defined.
Inductive GuideSource := Learned | You | Merged.
Inductive AudienceStatus := Suggested | Confirmed | RejectedGroup.
#[export] Instance audience_status_eq_dec : EqDecision AudienceStatus.
Proof. solve_decision. Defined.
(** The names they are stored under, read in any case. *)
Definition kind_text (k : Kind) : string := match k with Rule => "rule" | Guideline => "guideline" | FactEntry => "fact" end.
Definition status_text (s : GuideStatus) : string := match s with Proposed => "proposed" | Accepted => "accepted" | Rejected => "rejected" end.
Definition source_text (s : GuideSource) : string := match s with Learned => "learned" | You => "you" | Merged => "merged" end.
Definition audience_text (s : AudienceStatus) : string :=
  match s with Suggested => "suggested" | Confirmed => "confirmed" | RejectedGroup => "rejected" end.
Definition parse_name {A} (text : A → string) (all : list A) (s : string) : option A :=
  List.find (λ a, String.eqb (text a) (ascii_lower (trim s))) all.
Definition parse_kind : string → option Kind := parse_name kind_text [Rule; Guideline; FactEntry].
Definition parse_status : string → option GuideStatus := parse_name status_text [Proposed; Accepted; Rejected].
Definition parse_source : string → option GuideSource := parse_name source_text [Learned; You; Merged].
Definition parse_audience : string → option AudienceStatus := parse_name audience_text [Suggested; Confirmed; RejectedGroup].

Record GuideEntry := mkGuideEntry {
  ge_id : Z; ge_category : string; ge_kind : Kind; ge_statement : string; ge_scope : Scope; ge_status : GuideStatus;
  ge_source : GuideSource; ge_origin : option string; ge_check : option GuideCheck; ge_support : Z; ge_contradict : Z;
  ge_contradiction_of : option Z; ge_run_id : option Z; ge_evidence : list EvidenceRow; ge_created_at : Millis;
  ge_updated_at : Millis; ge_decided_at : option Millis }.
Record GuideEntryFields := mkFields {
  gf_category : string; gf_kind : Kind; gf_statement : string; gf_scope : Scope; gf_check : option GuideCheck }.
Inductive GuideEdit :=
| Add (fields : GuideEntryFields) (status : GuideStatus) (source : GuideSource) (origin : option string)
| Update (id : Z) (fields : GuideEntryFields)
| Decide (id : Z) (status : GuideStatus)
| Delete (id : Z).
Record GuideChange := mkGuideChange { gc_change_id : Z; gc_version : Z; gc_entries : list GuideEntry }.
Record AudienceGroupInfo := mkAudience {
  ag_id : Z; ag_name : string; ag_status : AudienceStatus; ag_description : string; ag_members : list string }.
Inductive AnalysisStep := StepDecide (ids : list Z) (status : string) | StepIgnorePair (id : Z).

Definition STATEMENT_CAP : nat := 400.
Definition MIN_GROUPS : nat := 5.
Definition GAP_GROUPS : list (string * string) := [
  ("Colleagues", "People you work with"); ("Customers", "People who buy from you or use your product");
  ("Investors", "Investors and board members"); ("Vendors", "Suppliers and service providers");
  ("Candidates", "People you are hiring"); ("Direct reports", "People who report to you");
  ("Advisers", "Lawyers, accountants and other advisers"); ("Friends and family", "Personal mail");
  ("Strangers", "People you have not written to before")].

(** ** JSON, as serde derives it *)

Definition scope_json (s : Scope) : Json :=
  JObject [("groups", json_strings (sc_groups s)); ("people", json_strings (sc_people s));
           ("message_types", json_strings (sc_message_types s)); ("languages", json_strings (sc_languages s))].
(** Every field may be missing; from an array, in order. *)
Definition strings_or_none (v : option Json) : option (list string) := match v with None => Some [] | Some v => strings v end.
Definition scope_of_json (v : Json) : option Scope :=
  match v with
  | JObject fields =>
      groups ← strings_or_none (lookup_field "groups" fields);
      people ← strings_or_none (lookup_field "people" fields);
      types ← strings_or_none (lookup_field "message_types" fields);
      languages ← strings_or_none (lookup_field "languages" fields);
      Some (mkScope groups people types languages)
  | JArray l =>
      if 4 <? length l then None else
      groups ← strings_or_none (l !! 0); people ← strings_or_none (l !! 1); types ← strings_or_none (l !! 2);
      languages ← strings_or_none (l !! 3);
      Some (mkScope groups people types languages)
  | _ => None
  end.
Definition check_kind_text (k : CheckKind) : string :=
  match k with BannedPhrase => "banned_phrase" | RequiredPhrase => "required_phrase" | MaxWords => "max_words" end.
Definition check_json (c : GuideCheck) : Json := JObject [("kind", JString (check_kind_text (ck_kind c))); ("value", JString (ck_value c))].
Definition check_kind_of (s : string) : option CheckKind :=
  List.find (λ k, String.eqb (check_kind_text k) s) [BannedPhrase; RequiredPhrase; MaxWords].
Definition check_kind_of_json (v : Json) : option CheckKind :=
  match v with
  | JString s => check_kind_of s
  | JObject [(s, JNull)] => check_kind_of s
  | _ => None
  end.
Definition check_of_json (v : Json) : option GuideCheck :=
  match v with
  | JObject fields =>
      kind ← lookup_field "kind" fields; kind ← check_kind_of_json kind;
      value ← lookup_field "value" fields; value ← as_str value;
      Some (mkCheck kind value)
  | JArray [kind; value] => kind ← check_kind_of_json kind; value ← as_str value; Some (mkCheck kind value)
  | _ => None
  end.

Section edits.
Context `{CoreText}.
Abbreviation Tx := (Transactions.Tx GuideDb).
Abbreviation Call := (Attempt (@db_answer GuideDb) CoreError).

(** ** Fields checked and tidied *)

Definition invalid (m : string) : CoreError := mkCoreError InvalidInput m.
Definition clean_text (s : string) : string := join " " (split_whitespace s).
(** Kept once each, whatever the case. *)
Fixpoint retain_clean (tidy : string → string) (seen : list string) (l : list string) : list string :=
  match l with
  | [] => []
  | s :: l =>
      let s := tidy s in
      if String.eqb s "" || bool_decide (lower s ∈ seen) then retain_clean tidy seen l
      else s :: retain_clean tidy (lower s :: seen) l
  end.
Definition MESSAGE_TYPES : list string := ["new"; "reply"; "forward"].
Definition cleaned (s : Scope) : Scope :=
  let lowered x := lower (clean_text x) in
  mkScope (retain_clean clean_text [] (sc_groups s)) (retain_clean lowered [] (sc_people s))
    (List.filter (λ t, bool_decide (t ∈ MESSAGE_TYPES)) (retain_clean lowered [] (sc_message_types s)))
    (retain_clean clean_text [] (sc_languages s)).
Definition validate_check (c : option GuideCheck) : CoreResult (option GuideCheck) :=
  match c with
  | None => Ok None
  | Some c =>
      let value := clean_text (ck_value c) in
      if String.eqb value "" then Ok None else
      match ck_kind c, parse_u32 value with
      | MaxWords, Some n => if (n =? 0)%Z then Err (invalid "a word limit is a whole number") else Ok (Some (mkCheck MaxWords value))
      | MaxWords, None => Err (invalid "a word limit is a whole number")
      | kind, _ => Ok (Some (mkCheck kind value))
      end
  end.
Definition validate (f : GuideEntryFields) : CoreResult GuideEntryFields :=
  cat ← ok_or (invalid (gf_category f +:+ " is not a category")) (category (gf_category f));
  if String.eqb (ca_id cat) "F3" then Err (invalid "facts about you live in Analysis › Facts") else
  let statement := clean_text (gf_statement f) in
  if String.eqb statement "" then Err (invalid "an entry needs a statement") else
  if STATEMENT_CAP <? length (chars statement) then Err (invalid ("keep an entry under " +:+ pretty STATEMENT_CAP +:+ " characters")) else
  check ← validate_check (gf_check f);
  Ok (mkFields (ca_id cat) (gf_kind f) statement (cleaned (gf_scope f)) check).

Definition to_row (f : GuideEntryFields) : EntryRow → EntryRow :=
  with_fields (gf_category f) (kind_text (gf_kind f)) (gf_statement f) (json_write (scope_json (gf_scope f)))
    (json_write ∘ check_json <$> gf_check f).
Definition from_snapshot (s : Snapshot) : GuideEntry :=
  let e := sn_entry s in
  mkGuideEntry (er_id e) (er_category e) (default Guideline (parse_kind (er_kind e))) (er_statement e)
    (default scope_default (j ← json_read (er_scope_json e); scope_of_json j)) (default Proposed (parse_status (er_status e)))
    (default Learned (parse_source (er_source e))) (er_origin e) (s ← er_check_json e; j ← json_read s; check_of_json j)
    (as_u32 (er_support e)) (as_u32 (er_contradict e)) (er_contradiction_of e) (er_run_id e) (sn_evidence s)
    (er_created_at e) (er_updated_at e) (er_decided_at e).
Definition fields_of (e : GuideEntry) : GuideEntryFields := mkFields (ge_category e) (ge_kind e) (ge_statement e) (ge_scope e) (ge_check e).

(** ** Edits, as one change *)

Definition checked_edit (e : GuideEdit) : CoreResult GuideEdit :=
  match e with
  | Add f status source origin => f ← validate f; Ok (Add f status source origin)
  | Update id f => f ← validate f; Ok (Update id f)
  | e => Ok e
  end.
Definition decided_at (status : GuideStatus) (now : Millis) : option Millis :=
  match status with Proposed => None | _ => Some now end.
Definition new_entry (f : GuideEntryFields) (status : GuideStatus) (source : GuideSource) (origin : option string) (now : Millis) : EntryRow :=
  to_row f (mkEntryRow 0 "" "" "" "" (status_text status) (source_text source) origin None 0 0 None None now now (decided_at status now)).
Definition NO_ENTRY : StoreError := Invalid "that entry no longer exists".
Definition note_before (id : Z) (st : list Z * list Snapshot) : Tx (list Snapshot) :=
  if bool_decide (id ∈ st.1) then mret st.2 else
  s ← tx_get (snapshot id);
  mret (st.2 ++ match s with Some s => [s] | None => [] end).
Definition note_id (id : Z) (ids : list Z) : list Z := if bool_decide (id ∈ ids) then ids else ids ++ [id].
(** The ids touched and their state before the first edit to each. *)
Definition apply_edit (now : Millis) (st : list Z * list Snapshot) (e : GuideEdit) : Tx (list Z * list Snapshot) :=
  match e with
  | Add f status source origin =>
      id ← insert_entry (new_entry f status source origin now);
      mret (note_id id st.1, st.2)
  | Update id f =>
      before ← note_before id st;
      row ← tx_get (get_entry id);
      row ← tx_some NO_ENTRY row;
      _ ← write_entry (with_er_updated now (to_row f row));
      mret (note_id id st.1, before)
  | Decide id status =>
      before ← note_before id st;
      row ← tx_get (get_entry id);
      row ← tx_some NO_ENTRY row;
      _ ← write_entry (with_er_updated now (with_er_status (status_text status) (decided_at status now) row));
      mret (note_id id st.1, before)
  | Delete id =>
      before ← note_before id st;
      _ ← delete_entry id;
      mret (note_id id st.1, before)
  end.
Definition step_apply (step : AnalysisStep) (now : Millis) : Tx (AnalysisRecord * AnalysisRecord) :=
  match step with
  | StepDecide ids status =>
      before ← tx_get (λ g, omap (λ id, Proposals.snapshot_proposal id (g_analysis g)) ids);
      _ ← in_analysis (each (λ id, Proposals.set_proposal_status id status now) ids);
      after ← tx_get (λ g, omap (λ id, Proposals.snapshot_proposal id (g_analysis g)) ids);
      mret (ProposalsWere before, ProposalsWere after)
  | StepIgnorePair p =>
      removed ← in_analysis (Proposals.drop_pair p);
      mret (Ignored p removed, Ignored p removed)
  end.
Definition any_accepted (l : list Snapshot) : bool := List.existsb (λ s, String.eqb (er_status (sn_entry s)) (status_text Accepted)) l.
Definition apply_checked (edits : list GuideEdit) (reason : string) (step : option AnalysisStep) (now : Millis) : Tx GuideChange :=
  '(ids, before) ← folding (apply_edit now) ([], []) edits;
  after ← tx_get (λ g, omap (λ id, snapshot id g) ids);
  analysis ← match step with
             | None => mret None
             | Some step => r ← step_apply step now; mret (Some r)
             end;
  change ← record_change_with reason before after analysis now;
  version ← (if any_accepted before || any_accepted after then record_version reason now else tx_get current_version);
  mret (mkGuideChange change version (from_snapshot <$> after)).

Definition read {A} (f : GuideDb → A) : Call A := r ← op (InTx (tx_get f)); ask (map_err from_store r).
Definition write {A} (t : Tx A) : Call A := r ← op (InTx t); ask (map_err from_store r).
Definition apply_edits_with (edits : list GuideEdit) (reason : string) (step : option AnalysisStep) : Call GuideChange :=
  _ ← check_that (negb (is_empty edits && match step with None => true | Some _ => false end)) (invalid "nothing to change");
  edits ← ask (mapM checked_edit edits);
  now ← op Now;
  write (apply_checked edits reason step now).
Definition apply_edits (edits : list GuideEdit) (reason : string) : Call GuideChange := apply_edits_with edits reason None.

(** ** Undo and redo *)

Definition GONE : StoreError := Invalid "that change can no longer be undone".
Definition ids_of (before after : list Snapshot) : list Z :=
  merge_sort Z.le (remove_dups ((λ s, er_id (sn_entry s)) <$> before ++ after)).
Definition replay_analysis (r : AnalysisRecord) (undo : bool) (now : Millis) : Transactions.Tx Proposals.AnalysisDb () :=
  match r with
  | ProposalsWere snapshots => Proposals.restore_proposals snapshots now
  | Ignored p removed =>
      if undo then Proposals.restore_pair removed now else _ ← Proposals.drop_pair p; mret ()
  end.
Definition replay (change_id : Z) (undo : bool) (now : Millis) : Tx () :=
  c ← tx_get (get_change change_id);
  '(reason, before, after) ← tx_some GONE c;
  let ids := ids_of before after in
  _ ← restore ids (if undo then before else after);
  a ← tx_get (change_analysis change_id);
  _ ← match a with
      | Some (was, is_) => in_analysis (replay_analysis (if undo then was else is_) undo now)
      | None => mret ()
      end;
  if is_empty ids then mret () else
  _ ← record_version ((if undo then "undo" else "redo") +:+ " " +:+ reason) now; mret ().
Definition replay_change (change_id : Z) (undo : bool) : Call () := now ← op Now; write (replay change_id undo now).

(** ** Reading *)

Definition list_guide_entries (statuses : list GuideStatus) (g : GuideDb) : list GuideEntry :=
  (λ e, from_snapshot (mkSnap e (evidence (er_id e) g))) <$> list_entries (status_text <$> statuses) g.
Definition guide_entry (id : Z) (g : GuideDb) : option GuideEntry := from_snapshot <$> snapshot id g.
Record GuideCategoryInfo := mkCategoryInfo {
  gi_id : string; gi_group : string; gi_group_name : string; gi_accepted : nat; gi_proposed : nat; gi_evidence : nat }.
Definition category_info (entries : list GuideEntry) (c : Category) : GuideCategoryInfo :=
  let here := List.filter (λ e, String.eqb (ge_category e) (ca_id c)) entries in
  let accepted := List.filter (λ e, bool_decide (ge_status e = Accepted)) here in
  let messages := list_to_set (C := gset string)
    (e ← accepted; ev_message <$> List.filter (λ q, negb (ev_contradicts q)) (ge_evidence e)) in
  let group := String.substring 0 1 (ca_id c) in
  mkCategoryInfo (ca_id c) group (default "" (snd <$> List.find (λ x, String.eqb x.1 group) GROUPS)) (length accepted)
    (length (List.filter (λ e, bool_decide (ge_status e = Proposed)) here)) (size messages).
Definition guide_categories (g : GuideDb) : list GuideCategoryInfo := category_info (list_guide_entries [] g) <$> CATEGORIES.

(** ** Audience groups *)

Definition group_info (g : GroupRow) : AudienceGroupInfo :=
  mkAudience (gr_id g) (gr_name g) (default Suggested (parse_audience (gr_status g))) (gr_description g) (gr_members g).
Definition list_audience_groups (g : GuideDb) : list AudienceGroupInfo := group_info <$> groups g.
(** Groups suggested until there are [MIN_GROUPS]. *)
Definition fill_gap (existing : list GroupRow) (live added : nat) (gap : string * string) : Tx nat :=
  if MIN_GROUPS <=? live + added then mret added else
  if List.existsb (λ g, nocase_eqb (gr_name g) gap.1) existing then mret added else
  _ ← save_group (mkGroupRow 0 gap.1 (audience_text Suggested) gap.2 (Z.of_nat (length existing + added)) []);
  mret (S added).
Definition fill_gaps : Tx nat :=
  existing ← tx_get groups;
  let live := length (List.filter (λ g, negb (String.eqb (gr_status g) "rejected")) existing) in
  folding (fill_gap existing live) 0 GAP_GROUPS.
Definition fill_audience_groups : Call (list AudienceGroupInfo) := _ ← write fill_gaps; read list_audience_groups.

(** Entries scoped to a group are scoped to another, or to none. *)
Definition rescoped (old : string) (new : option string) (s : Scope) : Scope :=
  let groups := List.filter (λ g, negb (nocase_eqb g old)) (sc_groups s) in
  let groups := match new with
                | Some n => if List.existsb (λ g, nocase_eqb g n) groups then groups else groups ++ [n]
                | None => groups
                end in
  mkScope groups (sc_people s) (sc_message_types s) (sc_languages s).
Definition rescope_edit (old : string) (new : option string) (e : GuideEntry) : option GuideEdit :=
  if List.existsb (λ g, nocase_eqb g old) (sc_groups (ge_scope e))
  then Some (Update (ge_id e) (mkFields (ge_category e) (ge_kind e) (ge_statement e) (rescoped old new (ge_scope e)) (ge_check e)))
  else None.
Definition rescope_group (old : string) (new : option string) : Call (option Z) :=
  entries ← read (list_guide_entries []);
  let edits := omap (rescope_edit old new) entries in
  if is_empty edits then mret None else
  change ← apply_edits edits ("group " +:+ old);
  mret (Some (gc_change_id change)).

Definition not_empty (s : string) : bool := negb (String.eqb s "").
Definition NEEDS_NAME : CoreError := invalid "a group needs a name".
Definition NO_GROUP : CoreError := mkCoreError NotFound "no such group".
Definition save_audience_group (group : AudienceGroupInfo) : Call (list AudienceGroupInfo) :=
  let name := clean_text (ag_name group) in
  _ ← check_that (not_empty name) NEEDS_NAME;
  _ ← write (save_group (mkGroupRow (ag_id group) name (audience_text (ag_status group)) (clean_text (ag_description group)) 0
                           (List.filter not_empty (clean_text <$> ag_members group))));
  read list_audience_groups.
Definition rename_audience_group (id : Z) (name : string) : Call (list AudienceGroupInfo) :=
  let name := clean_text name in
  _ ← check_that (not_empty name) NEEDS_NAME;
  groups ← read list_audience_groups;
  old ← or_fail NO_GROUP (List.find (λ g, (ag_id g =? id)%Z) groups);
  _ ← check_that (negb (List.existsb (λ g, negb (ag_id g =? id)%Z && nocase_eqb (ag_name g) name) groups))
        (invalid ("there is already a group called " +:+ name +:+ "; merge them instead"));
  _ ← rescope_group (ag_name old) (Some name);
  _ ← write (rename_group id name);
  read list_audience_groups.
Definition delete_audience_group (id : Z) : Call () := _ ← write (delete_group id); mret ().
Definition merge_members (mine theirs : list string) : list string :=
  foldl (λ l m, if bool_decide (m ∈ l) then l else l ++ [m]) mine theirs.
Definition merge_audience_groups (into from : Z) : Call (option Z) :=
  groups ← read list_audience_groups;
  target ← or_fail NO_GROUP (List.find (λ g, (ag_id g =? into)%Z) groups);
  source ← or_fail NO_GROUP (List.find (λ g, (ag_id g =? from)%Z) groups);
  _ ← check_that (negb (into =? from)%Z) (invalid "a group cannot merge into itself");
  change ← rescope_group (ag_name source) (Some (ag_name target));
  _ ← save_audience_group (mkAudience (ag_id target) (ag_name target) (ag_status target) (ag_description target)
                             (merge_members (ag_members target) (ag_members source)));
  _ ← delete_audience_group from;
  mret change.
(** The confirmed groups recipients belong to. *)
Definition audience_for (addresses : list string) (g : GuideDb) : list string :=
  ag_name <$> List.filter (λ a, bool_decide (ag_status a = Confirmed) && List.existsb (λ x, is_member lower x (ag_members a)) addresses)
                (list_audience_groups g).
Definition set_guide_example (message : string) (message_type : option string) : Call () :=
  _ ← check_that (match message_type with Some t => bool_decide (t ∈ MESSAGE_TYPES) | None => true end)
        (invalid "a model example is a new message, a reply or a forward");
  now ← op Now;
  write (set_example message message_type now).
End edits.
End GuideEdits.

(** * The guide as Markdown and as a file ([kaluta-core/src/guide.rs])

    The accepted guide to read or share, and to import or merge elsewhere,
    without evidence: quotes are another account's mail. *)

Import GuideStore.
Import GuideTables.
Import GuideEdits.

Module GuideExport.

(** ** Markdown *)

Definition kind_title (k : Kind) : string := match k with Rule => "Rule" | Guideline => "Guideline" | FactEntry => "Fact" end.
Definition audience_line (g : AudienceGroupInfo) : string :=
  "- **" +:+ ag_name g +:+ "**" +:+ (if is_empty (ag_members g) then "" else ": " +:+ join ", " (ag_members g)) +:+ NL.
Definition evidence_lines (e : GuideEntry) : string :=
  join "" ((λ q, "  - “" +:+ ev_quote q +:+ "”" +:+ NL) <$> take 3 (List.filter (λ q, negb (ev_contradicts q)) (ge_evidence e))).
Definition entry_lines (with_evidence : bool) (e : GuideEntry) : string :=
  let scope := scope_text (ge_scope e) in
  "- **" +:+ kind_title (ge_kind e) +:+ ".** " +:+ ge_statement e +:+
  (if String.eqb scope "" then "" else " *(" +:+ scope +:+ ")*") +:+ NL +:+
  (if with_evidence then evidence_lines e else "").
Definition category_block (with_evidence : bool) (in_group : list GuideEntry) (c : Category) : string :=
  let here := List.filter (λ e, String.eqb (ge_category e) (ca_id c)) in_group in
  if is_empty here then "" else
  NL +:+ "### " +:+ ca_id c +:+ " " +:+ ca_name c +:+ NL +:+ NL +:+ join "" (entry_lines with_evidence <$> here).
Definition group_block (with_evidence : bool) (entries : list GuideEntry) (g : string * string) : string :=
  let in_group := List.filter (λ e, bool_decide (ge_status e = Accepted) && starts_with g.1 (ge_category e)) entries in
  if is_empty in_group then "" else
  NL +:+ "## " +:+ g.2 +:+ NL +:+
  join "" (category_block with_evidence in_group <$> List.filter (λ c, starts_with g.1 (ca_id c)) CATEGORIES).
Definition markdown (entries : list GuideEntry) (groups : list AudienceGroupInfo) (with_evidence : bool) : string :=
  let confirmed := List.filter (λ g, bool_decide (ag_status g = Confirmed)) groups in
  "# Writing guide" +:+ NL +:+
  (if is_empty confirmed then "" else NL +:+ "## Audiences" +:+ NL +:+ NL +:+ join "" (audience_line <$> confirmed)) +:+
  join "" (group_block with_evidence entries <$> GROUPS).

(** ** The file *)

Record ExportGroup := mkExportGroup { xg_name : string; xg_description : string; xg_members : list string }.
Definition EXPORT_FORMAT : string := "kaluta-writing-guide".
Definition LEGACY_EXPORT_FORMAT : string := "openagc-writing-guide".
Definition entry_json (e : GuideEntry) : Json :=
  JObject [("category", JString (ge_category e)); ("kind", JString (kind_text (ge_kind e))); ("statement", JString (ge_statement e));
           ("scope", scope_json (ge_scope e)); ("check", json_opt check_json (ge_check e))].
Definition group_json (g : AudienceGroupInfo) : Json :=
  JObject [("name", JString (ag_name g)); ("description", JString (ag_description g)); ("members", json_strings (ag_members g))].
Definition export_file (entries : list GuideEntry) (groups : list AudienceGroupInfo) : Json :=
  JObject [("format", JString EXPORT_FORMAT); ("version", JNumber "1"); ("entries", JArray (entry_json <$> entries));
           ("groups", JArray (group_json <$> List.filter (λ g, bool_decide (ag_status g = Confirmed)) groups))].

(** A struct's fields: by name, or in order from an array. *)
Definition by_name (names : list string) (v : Json) : option (string → option Json) :=
  match v with
  | JObject fields => Some (λ n, lookup_field n fields)
  | JArray l => if length names <? length l then None
                else Some (λ n, i ← fst <$> list_find (λ x, x = n) names; l !! i)
  | _ => None
  end.
Definition if_there {A} (d : A) (read : Json → option A) (o : option Json) : option A :=
  match o with None => Some d | Some v => read v end.
Definition option_of {A} (read : Json → option A) (v : Json) : option (option A) :=
  match v with JNull => Some None | _ => Some <$> read v end.
Record ExportEntry := mkExportEntry {
  xe_category : string; xe_kind : string; xe_statement : string; xe_scope : Scope; xe_check : option GuideCheck }.
Definition entry_of_json (v : Json) : option ExportEntry :=
  f ← by_name ["category"; "kind"; "statement"; "scope"; "check"] v;
  category ← f "category" ≫= as_str; kind ← f "kind" ≫= as_str; statement ← f "statement" ≫= as_str;
  scope ← if_there scope_default scope_of_json (f "scope");
  check ← if_there None (option_of check_of_json) (f "check");
  Some (mkExportEntry category kind statement scope check).
Definition group_of_json (v : Json) : option ExportGroup :=
  f ← by_name ["name"; "description"; "members"] v;
  name ← f "name" ≫= as_str; description ← if_there "" as_str (f "description"); members ← if_there [] strings (f "members");
  Some (mkExportGroup name description members).
Definition list_of {A} (read : Json → option A) (v : Json) : option (list A) := l ← as_array v; mapM read l.
Definition file_of_json (v : Json) : option (string * list ExportEntry * list ExportGroup) :=
  f ← by_name ["format"; "version"; "entries"; "groups"] v;
  format ← f "format" ≫= as_str; version ← f "version" ≫= json_u32;
  entries ← f "entries" ≫= list_of entry_of_json;
  groups ← if_there [] (list_of group_of_json) (f "groups");
  Some (format, entries, groups).

Section export.
Context `{CoreText}.
Abbreviation Call := (Attempt (@db_answer GuideDb) CoreError).

Definition NOT_EXPORT : CoreError := invalid "that file is not an exported Kaluta writing guide".
Definition fields_of_export (e : ExportEntry) : GuideEntryFields :=
  mkFields (xe_category e) (default Guideline (parse_kind (xe_kind e))) (xe_statement e) (xe_scope e) (xe_check e).
Definition read_export (json : string) : CoreResult (list GuideEntryFields * list ExportGroup) :=
  match (v ← json_read json; file_of_json v) with
  | Some (format, entries, groups) =>
      if negb (String.eqb format EXPORT_FORMAT) && negb (String.eqb format LEGACY_EXPORT_FORMAT) then Err NOT_EXPORT else
      Ok (omap (λ e, ok (validate (fields_of_export e))) entries, groups)
  | None => Err NOT_EXPORT
  end.
(** For a look before importing or merging. *)
Definition read_guide_export (json : string) : CoreResult (list GuideEntryFields * list AudienceGroupInfo) :=
  match read_export json with
  | Ok (entries, groups) => Ok (entries, (λ g, mkAudience 0 (xg_name g) Suggested (xg_description g) (xg_members g)) <$> groups)
  | Err e => Err e
  end.
(** [pretty] is serde_json's writer with indentation. *)
Definition export_guide (pretty : Json → string) (json with_evidence : bool) : Call string :=
  entries ← read (list_guide_entries [Accepted]);
  groups ← read list_audience_groups;
  mret (if json then pretty (export_file entries groups) else markdown entries groups with_evidence).
End export.

Example exported : markdown
  [mkGuideEntry 1 "B6" Rule "Sign off with 'John'" (mkScope ["Customers"] [] [] []) Accepted Learned None None 3 0 None None
     [mkEvidence "m1" "Thanks, John" false] 0 0 None] [] true =
  "# Writing guide

## Structure

### B6 Sign-off and name

- **Rule.** Sign off with 'John' *(for Customers)*
  - “Thanks, John”
".
Proof. vm_compute. reflexivity. Qed.
End GuideExport.
