(* ===== verification/GuideRun.v ===== *)
(** * GuideRun: learning runs ([kaluta-core/src/guide_run.rs])

    Which messages a run looks at, the run started, paused, resumed and
    cancelled, and the job that asks the agent batch by batch and merges
    what it answers.  The agent's session, the bodies downloaded and the
    clock are operations of the job; progress events are left out. *)

From S2P Require Import Prelude.
From S2P Require Import Domain.
From S2P Require Import Text.
From S2P Require Import Json.
From S2P Require Import Guide.
From S2P Require Import MailStore.
From S2P Require Import Agents.
From S2P Require Import Facade.
From S2P Require Import Effects.
From S2P Require Import Transactions.
From S2P Require Import GuideStore.
From S2P Require Import GuideEdits.
From S2P Require Import GuideLearn.
Import GuideStore.
Import GuideTables.
Import GuideEdits.
Import GuideLearn.

Module GuideRun.

Inductive GuideRunKind := Latest | Newer | Older | Improve | Recheck.
#[export] Instance run_kind_eq_dec : EqDecision GuideRunKind.
Proof. solve_decision. Defined.
Definition run_kind_text (k : GuideRunKind) : string :=
  match k with Latest => "latest" | Newer => "newer" | Older => "older" | Improve => "improve" | Recheck => "recheck" end.
Definition parse_run_kind (s : string) : GuideRunKind :=
  default Latest (List.find (λ k, String.eqb (run_kind_text k) s) [Newer; Older; Improve; Recheck]).
Inductive GuideRunStatus := RunRunning | RunPaused | RunDone | RunCancelled | RunFailed.
Definition run_status_text (s : GuideRunStatus) : string :=
  match s with RunRunning => "running" | RunPaused => "paused" | RunDone => "done" | RunCancelled => "cancelled" | RunFailed => "failed" end.
Definition parse_run_status (s : string) : GuideRunStatus :=
  default RunRunning (List.find (λ x, String.eqb (run_status_text x) s) [RunPaused; RunDone; RunCancelled; RunFailed]).
#[export] Instance error_kind_eq_dec : EqDecision ErrorKind.
Proof. solve_decision. Defined.
Record GuideRunRequest := mkRequest {
  rq_kind : GuideRunKind; rq_count : nat; rq_filter : GuideSampleFilter; rq_focus : option string; rq_agent : string }.
Record GuideRunInfo := mkRunInfo {
  rn_id : Z; rn_kind : GuideRunKind; rn_focus : option string; rn_status : GuideRunStatus; rn_total : Z; rn_done : Z;
  rn_batches : Z; rn_batches_done : Z; rn_agent : option string; rn_error : option string; rn_started_at : Millis;
  rn_finished_at : option Millis; rn_seconds_left : option Z }.
Record GuideProgress := mkProgress { gp_run : option GuideRunInfo; gp_total : nat; gp_done : nat }.

Definition ceil_div (n size : Z) : Z := ((n + (size - 1)) / size)%Z.
(** The mean time of the batches done, for each one left. *)
Definition seconds_left (r : RunRow) (batches batches_done : Z) : option Z :=
  if (ru_timed_batches r <=? 0)%Z || negb (going r) then None else
  let mean_ms := Z.quot (ru_timed_ms r) (ru_timed_batches r) in
  Some (Z.quot (mean_ms * Z.max 0 (batches - batches_done)) 1000 mod 2 ^ 32)%Z.
Definition info (r : RunRow) : GuideRunInfo :=
  let size := (Z.max (ru_batch_size r) 1 mod 2 ^ 32)%Z in
  let batches := ceil_div (as_u32 (ru_total r)) size in
  let batches_done := ceil_div (as_u32 (ru_done r)) size in
  mkRunInfo (ru_id r) (parse_run_kind (ru_kind r)) (ru_focus r) (parse_run_status (ru_status r)) (as_u32 (ru_total r))
    (as_u32 (ru_done r)) batches batches_done (ru_agent r) (ru_error r) (ru_started_at r) (ru_finished_at r)
    (seconds_left r batches batches_done).

(** ** The agent *)

Inductive ProviderId := ClaudeCode | Codex.
#[export] Instance provider_eq_dec : EqDecision ProviderId.
Proof. solve_decision. Defined.
Definition provider_text (p : ProviderId) : string := match p with ClaudeCode => "claude-code" | Codex => "codex" end.
Definition display_name (p : ProviderId) : string := match p with ClaudeCode => "Claude" | Codex => "Codex" end.
Inductive AgentStatus := AgentReady | NotInstalled | NotAuthenticated | UpdateRequired | StatusError (message : string).
(** The id as [Debug] has it, where it needs no escapes. *)
Definition provider (id : string) : CoreResult ProviderId :=
  ok_or (invalid ("unknown agent " +:+ quoted id)) (List.find (λ p, String.eqb (provider_text p) id) [ClaudeCode; Codex]).
Definition not_ready (name : string) (status : AgentStatus) : option string :=
  let say why := Some (why +:+ ". Connect Claude Code or Codex in Settings › Agents to learn from your mail.") in
  match status with
  | AgentReady => None
  | NotInstalled => say (name +:+ " is not installed")
  | NotAuthenticated => say (name +:+ " is not signed in")
  | UpdateRequired => say (name +:+ " needs updating")
  | StatusError m => say (name +:+ " could not be checked (" +:+ m +:+ ")")
  end.

(** ** Operations *)

Inductive RunOp :=
| OnDb (o : DbOp GuideDb)
| Statuses                                  (** the agents there are, checked *)
| AskAgent (agent prompt : string)          (** a hidden, read-only session *)
| Bodies (ids : list string)                (** downloads what it can, and reads *)
| ElapsedMs.
Definition run_answer (o : RunOp) : Type :=
  match o with
  | OnDb o => db_answer o
  | Statuses => CoreResult (list (ProviderId * AgentStatus))
  | AskAgent _ _ => CoreResult string
  | Bodies _ => string → string * string
  | ElapsedMs => Z
  end.
Fixpoint on_db_eff {A} (p : Eff (@db_answer GuideDb) A) : Eff run_answer A :=
  match p with Ret a => Ret a | Vis o k => Vis (answer := run_answer) (OnDb o) (λ a, on_db_eff (k a)) end.
Definition on_db {A} (p : Attempt (@db_answer GuideDb) CoreError A) : Attempt run_answer CoreError A := mkTry (on_db_eff (run_try p)).
Abbreviation Job := (Attempt run_answer CoreError).
Definition asking {A} (o : RunOp) (f : run_answer o → CoreResult A) : Job A := r ← op o; ask (f r).
(** A call's result, kept. *)
Definition tried {A} (p : Job A) : Job (CoreResult A) := lift (run_try p).

Definition NO_AGENT : string := "No agent is available. Connect Claude Code or Codex in Settings › Agents.".
Definition agent_not_ready (agent : string) : Job (option string) :=
  id ← ask (provider agent);
  asking Statuses (λ r, statuses ← r;
    Ok match List.find (λ x, bool_decide (x.1 = id)) statuses with
       | Some (p, status) => not_ready (display_name p) status
       | None => Some NO_AGENT
       end).

Section run.
Context `{CoreText}.

(** ** The sample *)

Definition shows_focus (focus : string) (groups : list AudienceGroupInfo) (r : SentRow) : bool :=
  let low s := lower (trim s) in
  let subject := low (se_subject r) in
  let mentions l := List.existsb (λ w, contains w subject) l in
  match ca_id <$> category focus with
  | Some c =>
      if String.eqb c "E1" then starts_with "re:" subject || match se_in_reply_to r with Some _ => true | None => false end
      else if String.eqb c "E2" then starts_with "fwd:" subject || starts_with "fw:" subject
      else if String.eqb c "E3" then contains "intro" subject
      else if String.eqb c "E4" then mentions ["meet"; "call"; "time"; "schedul"; "calendar"]
      else if String.eqb c "E5" then mentions ["follow"; "checking in"; "nudge"; "reminder"]
      else if String.eqb c "E8" then mentions ["update"; "status"; "handoff"; "hand-off"]
      else false
  | None =>
      List.existsb (λ g, List.existsb (λ x, matches_person x.2 (ag_members g)) (se_to r ++ se_cc r))
        (List.filter (λ g, nocase_eqb (ag_name g) focus) groups)
  end.
Definition first_those {A} (p : A → bool) (l : list A) : list A := List.filter p l ++ List.filter (λ x, negb (p x)) l.
Definition rank_for_focus (rows : list SentRow) (focus : string) (groups : list AudienceGroupInfo) : list SentRow :=
  first_those (shows_focus focus groups) rows.
Definition run_sample_of (req : GuideRunRequest) (groups : list AudienceGroupInfo) (g : GuideDb) : list string :=
  let analysed := analysed_messages g in
  let skip := if bool_decide (rq_kind req = Recheck) then ∅ else analysed in
  let rows := List.filter (λ r, keep r (rq_filter req)) (sent_messages (sent_count g) skip g) in
  let range := analysed_range g in
  let rows := match rq_kind req with
              | Newer => match range with Some (_, newest) => List.filter (λ r, newest <? se_date r)%Z rows
                                        | None => List.filter (λ r, - 2 ^ 63 <? se_date r)%Z rows end
              | Older => match range with Some (oldest, _) => List.filter (λ r, se_date r <? oldest)%Z rows
                                        | None => List.filter (λ r, se_date r <? 2 ^ 63 - 1)%Z rows end
              | Improve => rank_for_focus rows (default "" (rq_focus req)) groups
              | Recheck => first_those (λ r, negb (bool_decide (se_message_id r ∈ analysed))) rows
              | Latest => rows
              end in
  se_message_id <$> take (rq_count req) rows.
Definition run_sample (req : GuideRunRequest) : Job (list string) :=
  groups ← on_db (read list_audience_groups);
  on_db (read (run_sample_of req groups)).
Definition guide_run_preview (req : GuideRunRequest) : Job nat := ids ← run_sample req; mret (length ids).

(** ** Starting and stopping *)

Definition start_run (req : GuideRunRequest) (ids : list string) (now : Millis) : Transactions.Tx GuideDb (option (option RunRow)) :=
  active ← tx_get active_run;
  match active with
  | Some _ => mret None
  | None =>
      let focus := (λ f, default f (ca_id <$> category f)) <$> rq_focus req in
      id ← create_run (run_kind_text (rq_kind req)) focus (Some (rq_agent req)) ids BATCH_SIZE now;
      r ← tx_get (get_run id);
      mret (Some r)
  end.
(** The job is spawned for the run it answers with. *)
Definition start_guide_run (req : GuideRunRequest) : Job RunRow :=
  _ ← check_that (negb (rq_count req =? 0)) (invalid "choose at least one message");
  _ ← check_that (negb (bool_decide (rq_kind req = Improve) &&
                        match rq_focus req with Some f => String.eqb (trim f) "" | None => true end))
        (invalid "choose a category or audience to improve");
  why ← agent_not_ready (rq_agent req);
  _ ← match why with Some why => fail (mkCoreError AgentError why) | None => mret () end;
  ids ← run_sample req;
  _ ← check_that (negb (is_empty ids)) (mkCoreError NotFound "there is no sent mail left to analyse");
  now ← on_db (op Now);
  run ← on_db (write (start_run req ids now));
  run ← or_fail (invalid "a learning run is already in progress") run;
  or_fail (mkCoreError Internal "the run was not recorded") run.
Definition set_status (run : Z) (status : string) (error : option string) : Job () :=
  now ← on_db (op Now); on_db (write (set_run_status run status error now)).
Definition pause_guide_run : Job () :=
  run ← on_db (read active_run);
  match run with Some r => set_status (ru_id r) "paused" None | None => mret () end.
Definition agent_of (r : RunRow) : string := default "claude-code" (ru_agent r).
(** The run to spawn the job for, if any. *)
Definition resume_guide_run : Job (option GuideRunInfo) :=
  run ← on_db (read active_run);
  match run with
  | None => mret None
  | Some run =>
      why ← agent_not_ready (agent_of run);
      match why with
      | Some why => _ ← set_status (ru_id run) "paused" (Some why); fail (mkCoreError AgentError why)
      | None =>
          _ ← set_status (ru_id run) "running" None;
          r ← on_db (read (get_run (ru_id run)));
          mret (info <$> r)
      end
  end.
Definition cancel_guide_run : Job () :=
  run ← on_db (read active_run);
  match run with Some r => set_status (ru_id r) "cancelled" None | None => mret () end.

(** ** The job *)

Definition is_status (s : string) (r : RunRow) : bool := String.eqb (ru_status r) s.
Definition end_run (run : Z) : Job () :=
  _ ← set_status run "done" None;
  now ← on_db (op Now);
  on_db (write (_ ← set_meta "last_run_at" (pretty now); _ ← fill_gaps; mret ())).
(** A batch asked for, once more where it failed; whether the job ends. *)
Fixpoint ask_batch (more : nat) (run : Z) (agent prompt : string) (batch : list Prepared) (known : list Z) : Job bool :=
  answer ← op (AskAgent agent prompt);
  match answer with
  | Err e =>
      match more with
      | S more => if bool_decide (ce_kind e = AgentError) then ask_batch more run agent prompt batch known
                  else _ ← set_status run "paused" (Some ("The agent stopped: " +:+ ce_message e)); mret true
      | O => _ ← set_status run "paused" (Some ("The agent stopped: " +:+ ce_message e)); mret true
      end
  | Ok answer =>
      now ← on_db (read (get_run run));
      if match now with Some r => is_status "cancelled" r | None => true end then mret false else
      merged ← tried (on_db (GuideAnswers.guide_merge_answer run batch known answer));
      match merged, more with
      | Err _, S more => ask_batch more run agent prompt batch known
      | _, _ => mret false
      end
  end.
(** Around the loop once: the run to go on with, or none. *)
Definition work (run : Z) (row : RunRow) (batch_no : Z) (ids : list string) : Job (option Z) :=
  why ← agent_not_ready (agent_of row);
  match why with
  | Some why => _ ← set_status run "paused" (Some why); mret None
  | None =>
      bodies ← op (Bodies ids);
      '(batch, prompt, known) ← on_db (GuideAnswers.guide_batch_prompt bodies ids (ru_focus row) (String.eqb (ru_kind row) "recheck"));
      stop ← (if is_empty batch then mret false else ask_batch 1 run (agent_of row) prompt batch known);
      if (stop : bool) then mret None else
      elapsed ← (if is_empty batch then mret None else ms ← op ElapsedMs; mret (Some (ms : Z)));
      _ ← on_db (write (finish_batch run batch_no elapsed));
      mret (Some run)
  end.
Definition turn (run : Z) : Job (option Z) :=
  '(row, next, active) ← on_db (read (λ g, (get_run run g, next_batch run g, active_run g)));
  match row with
  | None => mret None
  | Some row =>
      if negb (is_status "running" row) then
        mret match active with
             | Some a => if negb (ru_id a =? run)%Z && is_status "running" a then Some (ru_id a) else None
             | None => None
             end
      else match next with
           | None => _ ← end_run run; mret None
           | Some (batch_no, ids) => work run row batch_no ids
           end
  end.
(** [fuel] turns at most: whether it ended. *)
Fixpoint run_job (fuel : nat) (run : Z) : Job bool :=
  match fuel with
  | O => mret false
  | S fuel => next ← turn run; match next with Some run => run_job fuel run | None => mret true end
  end.
(** What is spawned: a job that fails marks the run it was spawned for. *)
Definition job (fuel : nat) (run : Z) : Job bool :=
  r ← tried (run_job fuel run);
  match r with
  | Ok ended => mret ended
  | Err e => _ ← tried (set_status run "failed" (Some (ce_message e))); mret true
  end.

(** ** Reading *)

Definition guide_progress_of (g : GuideDb) : GuideProgress :=
  let run := match active_run g with Some r => Some r | None => head (runs 1 g) end in
  mkProgress (info <$> run) (decision_counts g).1 (decision_counts g).2.
Definition guide_progress : Job GuideProgress := on_db (read guide_progress_of).
Definition category_place (id : string) : nat :=
  default (length CATEGORIES) (fst <$> list_find (λ c, ca_id c = id) CATEGORIES).
Definition decides_before (a b : GuideEntry) : Prop :=
  let x := category_place (ge_category a) in let y := category_place (ge_category b) in
  x < y ∨ x = y ∧ ((ge_support b < ge_support a)%Z ∨ ge_support a = ge_support b ∧ (ge_id a ≤ ge_id b)%Z).
#[export] Instance decides_before_dec a b : Decision (decides_before a b).
Proof. unfold decides_before. apply _. Defined.
(** From finished runs only. *)
Definition guide_decisions : Job (list GuideEntry) :=
  active ← on_db (read active_run);
  entries ← on_db (read (list_guide_entries [Proposed]));
  mret (merge_sort decides_before
          (List.filter (λ e, match ge_run_id e with Some r => negb (bool_decide (Some r = (ru_id <$> active))) | None => true end) entries)).
Definition guide_runs (limit : nat) : Job (list GuideRunInfo) := on_db (read (λ g, info <$> runs limit g)).
End run.
End GuideRun.
