(* ===== verification/GuideUndo.v ===== *)
(** * GuideUndo: a guide change undone and redone exactly

    First an entry and its evidence through the store's operations: what
    [mail-store/src/guide.rs] keeps of one entry, what each operation does to
    it, and the states from which it can be brought back. *)

From Stdlib Require Import Ascii.
From S2P Require Import Prelude.
From S2P Require Import Text.
From S2P Require Import SearchLanguage.
From S2P Require Import MailStore.
From S2P Require Import Transactions.
From S2P Require Import GuideStore.
From S2P Require Import Json.
From S2P Require Import Guide.
From S2P Require Import Domain.
From S2P Require Import Agents.
From S2P Require Import Effects.
From S2P Require Import ProposalStore.
From S2P Require Import GuideEdits.

Import GuideStore.

Abbreviation Quotes := (gmap (Z * string * string) bool).

Section views.
Context `{CoreText}.

(** ** What there is at an id *)

Definition at_id (id : Z) (V : Quotes) : Quotes := base.filter (λ x, x.1.1.1 = id) V.
Definition view (id : Z) (g : GuideDb) : option EntryRow * Quotes := (g_entries g !! id, at_id id (g_evidence g)).
Definition with_tables (E : gmap Z EntryRow) (V : Quotes) (M : gmap string string) (g : GuideDb) : GuideDb :=
  on_meta (λ _, M) (on_evidence (λ _, V) (on_entries (λ _, E) g)).

Lemma lookup_at id V i m q : at_id id V !! (i, m, q) = if bool_decide (i = id) then V !! (i, m, q) else None.
Proof.
  unfold at_id. case_bool_decide as Hi.
  - destruct (V !! (i, m, q)) as [c|] eqn:E; [apply map_lookup_filter_Some; done|]. apply map_lookup_filter_None. by left.
  - apply map_lookup_filter_None. right. intros c _. cbn. done.
Qed.
Lemma at_id_eq id V V' : (∀ m q, V !! (id, m, q) = V' !! (id, m, q)) → at_id id V = at_id id V'.
Proof. intros Hl. apply map_eq. intros [[i m] q]. rewrite !lookup_at. case_bool_decide; [|done]. subst. apply Hl. Qed.
Lemma at_id_lookup id V V' m q : at_id id V = at_id id V' → V !! (id, m, q) = V' !! (id, m, q).
Proof. intros E. pose proof (f_equal (.!! (id, m, q)) E) as El. cbn in El. rewrite !lookup_at in El. by rewrite bool_decide_true in El. Qed.
Lemma at_id_empty id V m q : at_id id V = ∅ → V !! (id, m, q) = None.
Proof. intros E. rewrite (at_id_lookup id V ∅); [by rewrite lookup_empty|]. rewrite E. symmetry. apply map_filter_empty. Qed.
(** The quotes of an entry are those at its id. *)
Definition quote_row (id : Z) (q : EvidenceRow) : Z * string * string * bool := ((id, ev_message q, ev_quote q), ev_contradicts q).
Lemma quote_rows id V : quote_row id <$> quotes_of id V = List.filter (λ x, (x.1.1.1 =? id)%Z) (map_to_list V).
Proof.
  unfold quotes_of. induction (map_to_list V) as [|[[[i m] q] c] l IH]; [done|]. cbn -[Z.eqb].
  destruct (Z.eqb_spec i id) as [->|]; [|done]. rewrite !fmap_cons, IH. done.
Qed.
Lemma quote_rows_nodup id V : NoDup (quote_row id <$> quotes_of id V).*1.
Proof.
  rewrite quote_rows. pose proof (NoDup_fst_map_to_list V) as Hn. induction (map_to_list V) as [|x l IH]; [constructor|].
  rewrite fmap_cons in Hn. apply NoDup_cons in Hn as [Hx Hl]. cbn -[Z.eqb]. destruct (_ =? _)%Z; [|by apply IH].
  rewrite fmap_cons. constructor; [|by apply IH]. intros (y & Ey & Hy)%list_elem_of_fmap. apply Hx, list_elem_of_fmap.
  exists y. split; [done|]. by apply list_elem_of_In, List.filter_In in Hy as [?%list_elem_of_In ?].
Qed.
Lemma quotes_at id V l : l ≡ₚ quotes_of id V → list_to_map (quote_row id <$> l) = at_id id V.
Proof.
  intros Hl. assert (quote_row id <$> l ≡ₚ quote_row id <$> quotes_of id V) as Hp by by rewrite Hl.
  rewrite <-(list_to_map_proper _ _ (quote_rows_nodup id V) (symmetry Hp)). apply map_eq. intros [[i m] q].
  rewrite lookup_at. destruct (list_to_map _ !! _) as [c|] eqn:E.
  - apply (elem_of_list_to_map_2) in E. rewrite quote_rows in E. apply list_elem_of_In, List.filter_In in E as [E Hi].
    apply list_elem_of_In, elem_of_map_to_list in E. apply Z.eqb_eq in Hi. cbn in Hi. subst. rewrite bool_decide_true; done.
  - case_bool_decide as Hi; [|done]. subst i. destruct (V !! (id, m, q)) as [c|] eqn:Ev; [|done]. exfalso.
    apply not_elem_of_list_to_map_2 in E. apply E, list_elem_of_fmap. exists (id, m, q, c). split; [done|].
    rewrite quote_rows. apply list_elem_of_In, List.filter_In. split; [by apply list_elem_of_In, elem_of_map_to_list|]. cbn. lia.
Qed.

(** Distinct messages counted: only what is at the id matters. *)
Lemma elem_of_messages c id g m : m ∈ messages_of c id g ↔ ∃ q, g_evidence g !! (id, m, q) = Some c.
Proof.
  unfold messages_of. rewrite elem_of_list_to_set, list_elem_of_fmap. split.
  - intros (r & -> & Hr). apply list_elem_of_In, List.filter_In in Hr as [Hr Hc]. apply list_elem_of_In in Hr.
    apply (list_elem_of_fmap_2' (quote_row id)) with (y := quote_row id r) in Hr; [|done]. rewrite quote_rows in Hr.
    apply list_elem_of_In, List.filter_In in Hr as [Hr _]. apply list_elem_of_In, elem_of_map_to_list in Hr.
    exists (ev_quote r). apply Bool.eqb_prop in Hc. by rewrite <-Hc.
  - intros [q Hq]. exists (mkEvidence m q c). split; [done|]. apply list_elem_of_In, List.filter_In. split; [|by destruct c].
    apply list_elem_of_In. unfold quotes_of. apply list_elem_of_fmap. exists ((id, m, q), c). split; [done|].
    apply list_elem_of_In, List.filter_In. split; [by apply list_elem_of_In, elem_of_map_to_list|]. cbn. lia.
Qed.
Lemma counted_view c id g g' : at_id id (g_evidence g) = at_id id (g_evidence g') → counted c id g = counted c id g'.
Proof.
  intros E. unfold counted. f_equal. f_equal. apply set_eq. intros m. rewrite !elem_of_messages.
  by split; intros [q Hq]; exists q; rewrite <-Hq; [symmetry|]; apply at_id_lookup.
Qed.
Lemma counted_nonneg c id g : (0 ≤ counted c id g)%Z.
Proof. unfold counted. lia. Qed.

(** ** A store in order *)

(** An entry has its id, is what its table allows, and counts at least the
    distinct messages of its evidence; there is no evidence of another. *)
Definition ok_at (id : Z) (g : GuideDb) : Prop :=
  match g_entries g !! id with
  | Some e => er_id e = id ∧ (0 < id)%Z ∧ entry_checks e = true ∧
              (counted false id g ≤ er_support e)%Z ∧ (counted true id g ≤ er_contradict e)%Z
  | None => at_id id (g_evidence g) = ∅
  end.
(** The largest id noted. *)
Definition noted_id (g : GuideDb) : Z := default 0%Z (cast_integer <$> meta LAST_ENTRY_ID g).
Record store_ok (g : GuideDb) : Prop := {
  so_at id : ok_at id g;
  so_noted id : is_Some (g_entries g !! id) → (id ≤ noted_id g)%Z;
  so_changes id : is_Some (g_changes g !! id) → (id ≤ g_change_seq g)%Z }.
Lemma ok_at_view id g g' : view id g = view id g' → ok_at id g → ok_at id g'.
Proof.
  unfold view, ok_at. intros [= -> Ev]. rewrite Ev. destruct (g_entries g' !! id); [|done].
  by rewrite !(counted_view _ id g g' Ev).
Qed.
Lemma cast_pretty z : (0 ≤ z)%Z → cast_integer (pretty z) = z.
Proof.
  intros Hz. rewrite pretty_nonneg by done. pose proof (pretty_N_head (Z.to_N z)) as (a & s & E & Hd).
  pose proof (parse_N_pretty (Z.to_N z)) as Hp. unfold cast_integer. rewrite E in *. rewrite Hp.
  destruct (Ascii.eqb_spec a "-"%char); [subst; by destruct Hd|]. lia.
Qed.

(** ** Operations, as what they do to the tables *)

Definition tables (g : GuideDb) := (g_entries g, g_evidence g, g_meta g).
Lemma with_tables_same g : with_tables (g_entries g) (g_evidence g) (g_meta g) g = g.
Proof. by destruct g. Qed.
Lemma with_tables_twice E V M E' V' M' g : with_tables E V M (with_tables E' V' M' g) = with_tables E V M g.
Proof. done. Qed.
Lemma with_tables_tables E V M g : tables (with_tables E V M g) = (E, V, M).
Proof. done. Qed.

Definition noting (id : Z) (g : GuideDb) : gmap string string :=
  <[LAST_ENTRY_ID := pretty (Z.max (last_entry_id g) id)]> (g_meta g).
Lemma last_entry_nonneg g : (0 ≤ last_entry_id g)%Z.
Proof. unfold last_entry_id. pose proof (last_id_nonneg (g_entries g)). lia. Qed.
Lemma noted_after id E V g : noted_id (with_tables E V (noting id g) g) = Z.max (last_entry_id g) id.
Proof.
  unfold noted_id, meta. cbn. unfold noting. rewrite lookup_insert_eq. cbn. apply cast_pretty. pose proof (last_entry_nonneg g). lia.
Qed.
Lemma insert_entry_known e g :
  er_id e ≠ 0%Z → entry_checks e = true → g_entries g !! er_id e = None →
  insert_entry e g = Ok (with_tables (<[er_id e := with_er_id (er_id e) e]> (g_entries g)) (g_evidence g) (noting (er_id e) g) g, er_id e).
Proof.
  intros Hi Hc Hn. unfold insert_entry, mbind, tx_bind, tx_get, set_meta, tx_do, tx_check, tx_where. cbn.
  rewrite (proj2 (Z.eqb_neq _ _) Hi), Hc. cbn. by rewrite bool_decide_true by done.
Qed.
Lemma insert_entry_new e g :
  er_id e = 0%Z → entry_checks e = true →
  insert_entry e g = Ok (with_tables (<[(last_entry_id g + 1)%Z := with_er_id (last_entry_id g + 1) e]> (g_entries g)) (g_evidence g)
                           (noting (last_entry_id g + 1) g) g, (last_entry_id g + 1)%Z).
Proof.
  intros Hi Hc. unfold insert_entry, mbind, tx_bind, tx_get, set_meta, tx_do, tx_check, tx_where. cbn.
  rewrite (proj2 (Z.eqb_eq _ _) Hi), Hc. cbn. rewrite bool_decide_true; [done|].
  apply last_id_fresh. unfold last_entry_id. lia.
Qed.
Lemma write_entry_there e g :
  is_Some (g_entries g !! er_id e) → entry_checks e = true →
  write_entry e g = Ok (with_tables (<[er_id e := e]> (g_entries g)) (g_evidence g) (g_meta g) g, true).
Proof.
  intros Hs Hc. unfold write_entry, mbind, tx_bind, tx_get, tx_do, tx_check, get_entry. cbn.
  rewrite bool_decide_true by done. cbn. by rewrite Hc.
Qed.
Lemma write_entry_none e g : g_entries g !! er_id e = None → write_entry e g = Ok (g, false).
Proof. intros Hs. unfold write_entry, mbind, tx_bind, tx_get, get_entry. cbn. rewrite Hs. by rewrite bool_decide_false by by intros []. Qed.
Lemma delete_entry_tables id g :
  ∃ b, delete_entry id g = Ok (with_tables (delete id (g_entries g)) (without_quotes id (g_evidence g)) (g_meta g) g, b).
Proof. unfold delete_entry. eexists. by destruct g. Qed.

Definition add_quote_to (id : Z) (V : Quotes) (q : EvidenceRow) : Quotes :=
  match V !! (id, ev_message q, ev_quote q) with Some _ => V | None => <[(id, ev_message q, ev_quote q) := ev_contradicts q]> V end.
Lemma add_quotes_union id V l : foldl (add_quote_to id) V l = V ∪ list_to_map (quote_row id <$> l).
Proof.
  revert V. induction l as [|q l IH]; intros V; cbn; [by rewrite map_union_empty|]. rewrite IH.
  rewrite insert_union_singleton_l, map_union_assoc. f_equal. unfold add_quote_to.
  destruct (V !! _) as [c|] eqn:E.
  - apply map_eq. intros k. rewrite lookup_union. destruct (decide (k = (id, ev_message q, ev_quote q))) as [->|Hk].
    + rewrite E, lookup_singleton_eq. done.
    + rewrite lookup_singleton_ne by done. by destruct (V !! k).
  - by rewrite insert_union_singleton_r.
Qed.
Lemma each_add_quote id l g :
  is_Some (g_entries g !! id) → each (add_quote id) l g = Ok (on_evidence (λ V, foldl (add_quote_to id) V l) g, ()).
Proof.
  revert g. induction l as [|q l IH]; intros g Hs; [by destruct g|]. cbn. unfold mbind, tx_bind, add_quote, tx_where, get_entry at 1.
  unfold mbind, tx_bind. rewrite bool_decide_true by done. cbn. unfold tx_do. cbn. rewrite IH by done. done.
Qed.
Lemma without_quotes_at id V i m q : without_quotes id V !! (i, m, q) = if bool_decide (i = id) then None else V !! (i, m, q).
Proof.
  unfold without_quotes. case_bool_decide as Hi.
  - apply map_lookup_filter_None. right. intros c _. cbn. subst. auto.
  - destruct (V !! (i, m, q)) as [c|] eqn:E; [apply map_lookup_filter_Some; done|]. apply map_lookup_filter_None. by left.
Qed.
Lemma at_without i id V : at_id i (without_quotes id V) = if bool_decide (i = id) then ∅ else at_id i V.
Proof.
  apply map_eq. intros [[j m] q]. rewrite lookup_at, without_quotes_at. repeat case_bool_decide; subst; try done.
  all: rewrite ?lookup_empty, ?lookup_at; try done; by repeat case_bool_decide.
Qed.
Lemma at_union i id V W : at_id i (V ∪ at_id id W) = if bool_decide (i = id) then at_id id V ∪ at_id id W else at_id i V.
Proof.
  apply map_eq. intros [[j m] q]. rewrite lookup_at, lookup_union, lookup_at.
  repeat case_bool_decide; subst; try done; rewrite ?lookup_union, ?lookup_at; repeat case_bool_decide; subst; try done; by destruct (V !! _).
Qed.
End views.

(** * A guide change undone and redone

    [apply_guide_edits] and [replay_guide_change] of
    [kaluta-core/src/guide.rs]: what a change did to the entries and their
    evidence is taken back exactly, and done again exactly. *)

Import GuideStore.
Import GuideTables.
Import GuideEdits.

Section undo.
Context `{CoreText}.

(** An entry both states have was counted as it is, with its evidence. *)
Definition kept (id : Z) (g0 g : GuideDb) : Prop :=
  match g_entries g0 !! id, g_entries g !! id with
  | Some e0, Some e => er_support e0 = er_support e ∧ er_contradict e0 = er_contradict e ∧
                       at_id id (g_evidence g0) = at_id id (g_evidence g)
  | _, _ => True
  end.
Lemma kept_refl id g : kept id g g.
Proof. unfold kept. by destruct (g_entries g !! id). Qed.
Lemma kept_sym id g g' : kept id g g' → kept id g' g.
Proof. unfold kept. destruct (g_entries g !! id), (g_entries g' !! id); try done. intros (?&?&?). auto. Qed.
Lemma kept_view id g0 g g' : view id g = view id g' → kept id g0 g → kept id g0 g'.
Proof. unfold kept, view. intros [= -> Ev]. by rewrite Ev. Qed.

(** ** Restoring *)

(** The tables changed at one id, to what [g0] has there. *)
Definition moved (id : Z) (g0 g : GuideDb) (E : gmap Z EntryRow) (V : Quotes) : Prop :=
  (∀ i, E !! i = if bool_decide (i = id) then g_entries g0 !! id else g_entries g !! i) ∧
  (∀ i, at_id i V = if bool_decide (i = id) then at_id id (g_evidence g0) else at_id i (g_evidence g)).

Lemma add_evidence_tables id l g :
  is_Some (g_entries g !! id) →
  add_evidence id l g =
    let g' := on_evidence (λ V, foldl (add_quote_to id) V l) g in Ok (recount id g', ()).
Proof. intros Hs. unfold add_evidence, mbind, tx_bind. by rewrite each_add_quote. Qed.
Lemma settled (id : Z) (sup con : Z) g e0 :
  g_entries g !! id = Some e0 → (counted false id g ≤ er_support e0)%Z → (counted true id g ≤ er_contradict e0)%Z →
  (sup ≤ er_support e0)%Z → (con ≤ er_contradict e0)%Z →
  update_row id (max_counts (Z.max sup (er_support e0)) (Z.max con (er_contradict e0))) (g_entries (recount id g)) = g_entries g.
Proof.
  intros He Hs Hc Hsup Hcon. apply map_eq. intros i. unfold update_row. destruct (decide (i = id)) as [->|Hi].
  - rewrite lookup_alter_eq. cbn. unfold update_row. rewrite lookup_alter_eq, He. cbn. f_equal. unfold max_counts, with_counts.
    cbn. rewrite !Z.max_r by lia. by destruct e0.
  - rewrite lookup_alter_ne by done. cbn. unfold update_row. by rewrite lookup_alter_ne by done.
Qed.
(** What is left to do once the entry is back. *)
Lemma settle id g0 g e0 l sup con :
  list_to_map (quote_row id <$> l) = at_id id (g_evidence g0) →
  g_entries g0 !! id = Some e0 → ok_at id g0 → g_entries g !! id = Some e0 →
  (at_id id (g_evidence g) = ∅ ∨ at_id id (g_evidence g) = at_id id (g_evidence g0)) →
  (sup ≤ er_support e0)%Z → (con ≤ er_contradict e0)%Z →
  ∃ V, (_ ← add_evidence id l;
        tx_do (on_entries (update_row id (max_counts (Z.max sup (er_support e0)) (Z.max con (er_contradict e0)))))) g =
       Ok (with_tables (g_entries g) V (g_meta g) g, ()) ∧
       ∀ i, at_id i V = if bool_decide (i = id) then at_id id (g_evidence g0) else at_id i (g_evidence g).
Proof.
  intros Hl He0 Hok He Hev Hsup Hcon. unfold mbind, tx_bind. rewrite add_evidence_tables by by eexists. cbn zeta.
  set (g1 := on_evidence _ g).
  assert (g_evidence g1 = g_evidence g ∪ at_id id (g_evidence g0)) as Hg1.
  { unfold g1. cbn. rewrite add_quotes_union. by rewrite Hl. }
  assert (at_id id (g_evidence g1) = at_id id (g_evidence g0)) as Hat.
  { rewrite Hg1, at_union, bool_decide_true by done. destruct Hev as [->| ->]; [by rewrite map_empty_union|apply map_union_idemp]. }
  unfold ok_at in Hok. rewrite He0 in Hok. destruct Hok as (_ & _ & _ & Hs & Hc).
  assert (g_entries g1 !! id = Some e0) as He1 by done.
  rewrite <-(counted_view _ id g1 g0 Hat) in Hs. rewrite <-(counted_view _ id g1 g0 Hat) in Hc.
  exists (g_evidence g1). split.
  - unfold tx_do. cbn [mbind result_bind]. f_equal. f_equal. unfold on_entries at 1. cbn -[g1].
    pose proof (settled id sup con g1 e0 He1 Hs Hc Hsup Hcon) as Hx. cbn -[g1] in Hx. rewrite Hx. done.
  - intros i. rewrite Hg1, at_union. case_bool_decide; [|done].
    by rewrite Hg1, at_union, bool_decide_true in Hat by done.
Qed.
(** A snapshot, or none, of what there is at an id. *)
Definition shot (id : Z) (g : GuideDb) (o : option Snapshot) : Prop :=
  match o, g_entries g !! id with
  | Some s, Some e => sn_entry s = e ∧ list_to_map (quote_row id <$> sn_evidence s) = at_id id (g_evidence g)
  | None, None => True
  | _, _ => False
  end.
Lemma snapshot_shot id g : shot id g (snapshot id g).
Proof.
  unfold shot, snapshot, get_entry. destruct (g_entries g !! id); [|done]. split; [done|]. apply quotes_at. cbn. apply merge_sort_Permutation.
Qed.
Lemma shot_view id g g' o : view id g = view id g' → shot id g o → shot id g' o.
Proof. unfold shot, view. by intros [= -> ->]. Qed.
Definition find_snap (l : list Snapshot) (id : Z) : option Snapshot := List.find (λ s, (er_id (sn_entry s) =? id)%Z) l.
Lemma restore_one_moves snaps id g0 g :
  ok_at id g0 → ok_at id g → kept id g0 g → shot id g0 (find_snap snaps id) →
  ∃ E V M, restore_one snaps id g = Ok (with_tables E V M g, ()) ∧ moved id g0 g E V.
Proof.
  intros H0 Hg Hk Hf. unfold restore_one. change (List.find _ snaps) with (find_snap snaps id). unfold shot, get_entry, kept, moved in *.
  pose proof H0 as Hok. unfold ok_at in H0, Hg.
  destruct (find_snap snaps id) as [s|], (g_entries g0 !! id) as [e0|] eqn:E0; [|done|done|].
  - destruct Hf as [-> Hl]. destruct H0 as (Hid & Hp & Hch & Hs & Hc).
    destruct (g_entries g !! id) as [e|] eqn:Ee.
    + destruct Hk as (Ks & Kc & Kv). unfold mbind at 1, tx_bind at 1, tx_get. cbn [mbind result_bind].
      unfold mbind at 1, tx_bind at 1. rewrite write_entry_there; [|rewrite Hid; by eexists|done]. cbn [mbind result_bind].
      unfold mbind at 1, tx_bind at 1. cbn [mret tx_ret mbind result_bind]. rewrite Hid, Ee. cbn [from_option].
      set (g1 := with_tables _ _ _ _).
      destruct (settle id g0 g1 e0 (sn_evidence s) (er_support e) (er_contradict e)) as (V & -> & HV);
        [done..|by apply lookup_insert_eq|by right|lia|lia|].
      eexists _, _, _. unfold g1. rewrite with_tables_twice. split; [done|]. split; [|done].
      intros i. cbn. case_bool_decide; [subst; by rewrite lookup_insert_eq|by rewrite lookup_insert_ne by done].
    + unfold mbind at 1, tx_bind at 1, tx_get. cbn [mbind result_bind].
      unfold mbind at 1, tx_bind at 1. rewrite write_entry_none by by rewrite Hid. cbn [mbind result_bind].
      unfold mbind at 1, tx_bind at 1. rewrite insert_entry_known; [|lia|done|by rewrite Hid]. cbn [mbind result_bind].
      rewrite Hid, Ee. cbn [from_option]. set (g1 := with_tables _ _ _ _).
      assert (with_er_id id e0 = e0) as Hw by (rewrite <-Hid; by destruct e0).
      pose proof (counted_nonneg false id g0). pose proof (counted_nonneg true id g0).
      destruct (settle id g0 g1 e0 (sn_evidence s) 0 0) as (V & -> & HV);
        [done..|unfold g1; cbn; by rewrite Hw, lookup_insert_eq|by left|lia|lia|].
      eexists _, _, _. unfold g1. rewrite with_tables_twice. split; [done|]. split; [|done].
      intros i. cbn. case_bool_decide; [subst; by rewrite Hw, lookup_insert_eq|by rewrite lookup_insert_ne by done].
  - cbn. unfold mbind, tx_bind. destruct (delete_entry_tables id g) as [b ->]. cbn. eexists _, _, _. split; [done|]. split.
    + intros i. case_bool_decide; [subst; by rewrite lookup_delete_eq|by rewrite lookup_delete_ne by done].
    + intros i. rewrite at_without. by case_bool_decide.
Qed.

(** Each id as [g0] has it, the others as [g] has them. *)
Definition towards (ids : list Z) (g0 g : GuideDb) (E : gmap Z EntryRow) (V : Quotes) : Prop :=
  ∀ i, (E !! i, at_id i V) = if bool_decide (i ∈ ids) then view i g0 else view i g.
Lemma restore_moves snaps ids g0 g :
  (∀ i, ok_at i g0) → (∀ i, ok_at i g) → (∀ i, i ∈ ids → kept i g0 g) →
  (∀ i, i ∈ ids → shot i g0 (find_snap snaps i)) →
  ∃ E V M, restore ids snaps g = Ok (with_tables E V M g, ()) ∧ towards ids g0 g E V.
Proof.
  intros H0. revert g. induction ids as [|i ids IH]; intros g Hg Hk Hf.
  - exists (g_entries g), (g_evidence g), (g_meta g). rewrite with_tables_same. done.
  - destruct (restore_one_moves snaps i g0 g) as (E & V & M & Er & HE & HV);
      [done|done|apply Hk; by left|apply Hf; by left|].
    set (g1 := with_tables E V M g) in *.
    assert (∀ j, view j g1 = if bool_decide (j = i) then view i g0 else view j g) as Hv.
    { intros j. unfold view. unfold g1. cbn. rewrite HE, HV. by case_bool_decide. }
    destruct (IH g1) as (E' & V' & M' & Er' & Ht).
    + intros j. pose proof (Hv j) as Hj. case_bool_decide; [subst; by apply (ok_at_view _ g0)|by apply (ok_at_view _ g)].
    + intros j Hj. pose proof (Hv j) as Hvj. case_bool_decide.
      * subst. eapply kept_view; [by symmetry|]. apply kept_refl.
      * eapply kept_view; [by symmetry|]. apply Hk. by right.
    + intros j Hj. apply Hf. by right.
    + exists E', V', M'. split.
      * unfold restore in *. cbn [each]. unfold mbind, tx_bind. rewrite Er. cbn [mbind result_bind]. fold g1. rewrite Er'. done.
      * intros j. rewrite Ht, Hv. repeat case_bool_decide; subst; try done; exfalso; set_solver.
Qed.

(** ** Applying *)

(** What of an entry [to_row], a decision and a new date leave alone. *)
Definition same_counts (e e' : EntryRow) : Prop :=
  er_id e' = er_id e ∧ er_support e' = er_support e ∧ er_contradict e' = er_contradict e.
(** A change of the tables at one id leaves a store in order. *)
Lemma store_ok_move id E V M g :
  store_ok g → (∀ i, i ≠ id → (E !! i, at_id i V) = view i g) → ok_at id (with_tables E V M g) →
  (noted_id g ≤ noted_id (with_tables E V M g))%Z → (is_Some (E !! id) → id ≤ noted_id (with_tables E V M g))%Z →
  store_ok (with_tables E V M g).
Proof.
  intros Hg Ho Hid Hn Hi. split.
  - intros i. destruct (decide (i = id)) as [->|Hne]; [done|]. apply (ok_at_view i g); [by rewrite <-Ho|apply Hg].
  - intros i Hs. destruct (decide (i = id)) as [->|Hne]; [by apply Hi|]. etrans; [apply Hg|done].
    pose proof (Ho i Hne) as [= <- _]. done.
  - intros i. apply Hg.
Qed.

(** From [g0], with the ids touched and what they were. *)
Record applying (g0 : GuideDb) (st : list Z * list Snapshot) (g : GuideDb) : Prop := {
  ap_ok : store_ok g;
  ap_noted : (noted_id g0 ≤ noted_id g)%Z;
  ap_others i : i ∉ st.1 → view i g = view i g0;
  ap_before i : i ∈ st.1 → shot i g0 (find_snap st.2 i);
  ap_ids s : s ∈ st.2 → er_id (sn_entry s) ∈ st.1;
  ap_kept i : kept i g0 g;
  ap_log : g_changes g = g_changes g0 ∧ g_change_seq g = g_change_seq g0 ∧ g_analysis g = g_analysis g0 }.
Lemma find_snap_none l id : (∀ s, s ∈ l → er_id (sn_entry s) ≠ id) → find_snap l id = None.
Proof.
  intros Hl. unfold find_snap. destruct (List.find _ l) as [s|] eqn:E; [|done].
  apply List.find_some in E as [Hs Hi]. apply Z.eqb_eq in Hi. exfalso. apply (Hl s); [by apply list_elem_of_In|done].
Qed.
Lemma find_snap_app l k id : find_snap (l ++ k) id = match find_snap l id with Some s => Some s | None => find_snap k id end.
Proof. induction l as [|s l IH]; [done|]. unfold find_snap in *. cbn. destruct (_ =? _)%Z; [done|apply IH]. Qed.
Lemma elem_note id i ids : i ∈ note_id id ids ↔ i = id ∨ i ∈ ids.
Proof. unfold note_id. case_bool_decide; [|rewrite elem_of_app, list_elem_of_singleton; tauto]. split; [by right|]. by intros [->|]. Qed.
(** The list as [note_before] leaves it. *)
Definition noted_before (g0 : GuideDb) (id : Z) (st : list Z * list Snapshot) (before : list Snapshot) : Prop :=
  (∀ i, i ∈ note_id id st.1 → shot i g0 (find_snap before i)) ∧ (∀ s, s ∈ before → er_id (sn_entry s) ∈ note_id id st.1).
Lemma note_before_post g0 id st g Q :
  applying g0 st g → (∀ before, noted_before g0 id st before → Q g before) → post g (note_before id st) Q.
Proof.
  intros Ha HQ. unfold note_before. case_bool_decide as Hi.
  - apply post_ret, HQ. unfold noted_before, note_id. rewrite bool_decide_true by done. split; apply Ha.
  - tx_steps. apply HQ. pose proof (ap_others _ _ _ Ha id Hi) as Hv.
    assert (find_snap st.2 id = None) as Hnone.
    { apply find_snap_none. intros s Hs E. apply Hi. rewrite <-E. by eapply ap_ids. }
    pose proof (shot_view id g g0 _ Hv (snapshot_shot id g)) as Hshot.
    assert (∀ s, snapshot id g = Some s → er_id (sn_entry s) = id) as Hid.
    { intros s. unfold snapshot, get_entry. pose proof (so_at _ (ap_ok _ _ _ Ha) id) as Hok. unfold ok_at in Hok.
      destruct (g_entries g !! id); [|done]. intros [= <-]. cbn. tauto. }
    split.
    + intros i Hin. rewrite find_snap_app. apply elem_note in Hin as [->|Hin].
      * rewrite Hnone. destruct (snapshot id g) as [s|] eqn:Es; [|done]. unfold find_snap. cbn. rewrite (Hid s eq_refl), Z.eqb_refl. done.
      * pose proof (ap_before _ _ _ Ha i Hin) as Hb. destruct (find_snap st.2 i) as [s|] eqn:Es; [done|].
        rewrite find_snap_none; [done|]. intros s Hs E. apply Hi. destruct (snapshot id g) as [s'|] eqn:Ess; [|set_solver].
        apply list_elem_of_singleton in Hs as ->. rewrite Hid in E by done. by subst.
    + intros s [Hs|Hs]%elem_of_app; apply elem_note; [right; by eapply ap_ids|left].
      destruct (snapshot id g) as [s'|] eqn:Ess; [|set_solver]. apply list_elem_of_singleton in Hs as ->. by apply Hid.
Qed.
(** One edit done: the tables changed at its id. *)
Lemma applying_move g0 st g id before E V M :
  applying g0 st g → noted_before g0 id st before → (∀ i, i ≠ id → (E !! i, at_id i V) = view i g) →
  ok_at id (with_tables E V M g) → (noted_id g ≤ noted_id (with_tables E V M g))%Z →
  (is_Some (E !! id) → id ≤ noted_id (with_tables E V M g))%Z → kept id g0 (with_tables E V M g) →
  applying g0 (note_id id st.1, before) (with_tables E V M g).
Proof.
  intros Ha [Hb Hs] Ho Hid Hn Hsome Hk. split; cbn.
  - apply (store_ok_move id); [apply Ha|done..].
  - etrans; [exact (ap_noted _ _ _ Ha)|done].
  - intros i Hi. rewrite elem_note in Hi. transitivity (view i g); [apply Ho; tauto|apply Ha; tauto].
  - apply Hb.
  - apply Hs.
  - intros i. destruct (decide (i = id)) as [->|Hne]; [done|]. eapply kept_view; [|by apply (ap_kept _ _ _ Ha)].
    symmetry. by apply Ho.
  - apply Ha.
Qed.
Lemma view_insert e id g i : i ≠ id → (<[id := e]> (g_entries g) !! i, at_id i (g_evidence g)) = view i g.
Proof. intros Hi. unfold view. by rewrite lookup_insert_ne by done. Qed.
(** An entry written over with its counts as they were. *)
Lemma applying_write g0 st g before id e e' :
  applying g0 st g → noted_before g0 id st before → g_entries g !! id = Some e → same_counts e e' → entry_checks e' = true →
  applying g0 (note_id id st.1, before) (with_tables (<[id := e']> (g_entries g)) (g_evidence g) (g_meta g) g).
Proof.
  intros Ha Hb He (Si & Ss & Sc) Hc. pose proof (so_at _ (ap_ok _ _ _ Ha) id) as Hok. unfold ok_at in Hok. rewrite He in Hok.
  pose proof (so_noted _ (ap_ok _ _ _ Ha) id) as Hn.
  apply applying_move; [done..| | | | |].
  - intros i Hi. by apply view_insert.
  - unfold ok_at. cbn. rewrite lookup_insert_eq, Si, Ss, Sc. destruct Hok as (?&?&?&?&?). done.
  - done.
  - intros _. apply Hn. by eexists.
  - pose proof (ap_kept _ _ _ Ha id) as Hk. unfold kept in *. cbn. rewrite lookup_insert_eq. rewrite He in Hk.
    destruct (g_entries g0 !! id); [|done]. by rewrite Ss, Sc.
Qed.
Lemma post_write e g Q :
  (is_Some (g_entries g !! er_id e) → entry_checks e = true →
   Q (with_tables (<[er_id e := e]> (g_entries g)) (g_evidence g) (g_meta g) g) true) →
  (g_entries g !! er_id e = None → Q g false) → post g (write_entry e) Q.
Proof.
  intros Hs Hn. unfold post. destruct (g_entries g !! er_id e) as [x|] eqn:E; [|rewrite write_entry_none by done; by apply Hn].
  destruct (entry_checks e) eqn:Ec; [rewrite write_entry_there; [by apply Hs|rewrite E; by eexists|done]|].
  unfold write_entry, mbind, tx_bind, tx_get, tx_do, tx_check, get_entry. cbn. rewrite bool_decide_true by (rewrite E; by eexists). cbn. by rewrite Ec.
Qed.
Lemma post_insert e g Q :
  er_id e = 0%Z →
  (entry_checks e = true →
   let n := (last_entry_id g + 1)%Z in
   Q (with_tables (<[n := with_er_id n e]> (g_entries g)) (g_evidence g) (noting n g) g) n) → post g (insert_entry e) Q.
Proof.
  intros Hi HQ. unfold post. destruct (entry_checks e) eqn:Ec; [rewrite insert_entry_new by done; by apply HQ|].
  unfold insert_entry, mbind, tx_bind, tx_get, set_meta, tx_do, tx_check, tx_where. cbn. by rewrite Ec.
Qed.
Lemma noted_last g : (noted_id g ≤ last_entry_id g)%Z.
Proof. unfold last_entry_id, noted_id. lia. Qed.
(** The id of a new entry was never one of the store's. *)
Lemma fresh_id g : store_ok g → ok_at (last_entry_id g + 1) g ∧ g_entries g !! (last_entry_id g + 1)%Z = None ∧
  at_id (last_entry_id g + 1) (g_evidence g) = ∅.
Proof.
  intros Hg. pose proof (so_at _ Hg (last_entry_id g + 1)) as Hok. split; [done|].
  assert (g_entries g !! (last_entry_id g + 1)%Z = None) as Hn by (apply last_id_fresh; unfold last_entry_id; lia).
  unfold ok_at in Hok. rewrite Hn in Hok. done.
Qed.
Lemma counted_none c id g : at_id id (g_evidence g) = ∅ → counted c id g = 0%Z.
Proof.
  intros Hat. unfold counted. replace (messages_of c id g) with (∅ : gset string); [done|]. apply set_eq. intros m.
  rewrite elem_of_messages. split; [set_solver|]. intros [q Hq]. by rewrite at_id_empty in Hq.
Qed.
Lemma store_ok_insert g n e M :
  store_ok g → n = (last_entry_id g + 1)%Z → entry_checks e = true → (0 ≤ er_support e)%Z → (0 ≤ er_contradict e)%Z → M = noting n g →
  ok_at n (with_tables (<[n := with_er_id n e]> (g_entries g)) (g_evidence g) M g).
Proof.
  intros Hg -> Hc Hs Hcon ->. destruct (fresh_id g Hg) as (_ & _ & Hat). unfold ok_at. cbn. rewrite lookup_insert_eq.
  pose proof (last_entry_nonneg g). rewrite !counted_none by done. cbn. repeat split; [lia|done|lia|lia].
Qed.

Lemma apply_edit_post g0 now st e g :
  store_ok g0 → applying g0 st g → post g (apply_edit now st e) (λ g st, applying g0 st g).
Proof.
  intros H0 Ha. destruct e as [f status source origin|id f|id status|id]; cbn [apply_edit].
  - tx_step. apply post_insert; [done|]. intros Hc. cbn zeta. tx_steps. set (n := (last_entry_id g + 1)%Z).
    destruct (fresh_id g (ap_ok _ _ _ Ha)) as (_ & Hn & Hat). fold n in Hn, Hat.
    assert (g_entries g0 !! n = None) as Hn0.
    { apply eq_None_not_Some. intros Hs%(so_noted _ H0). pose proof (ap_noted _ _ _ Ha). pose proof (noted_last g). unfold n in Hs. lia. }
    pose proof (last_entry_nonneg g). pose proof (noted_last g).
    apply applying_move; [done| | | | | |].
    + split.
      * intros i. rewrite elem_note. intros Hi. destruct (decide (i ∈ st.1)) as [Hin|Hin]; [by apply Ha|]. destruct Hi as [->|]; [|done].
        unfold shot. rewrite find_snap_none, Hn0; [done|]. intros s Hs E. apply Hin. rewrite <-E. by eapply ap_ids.
      * intros s Hs. apply elem_note. right. by eapply ap_ids.
    + intros i Hi. by apply view_insert.
    + by apply store_ok_insert; [apply Ha|..].
    + rewrite noted_after. unfold n. lia.
    + intros _. rewrite noted_after. lia.
    + unfold kept. by rewrite Hn0.
  - tx_step. eapply note_before_post; [done|]. intros before Hb. cbn beta. tx_steps.
    unfold get_entry in *. pose proof (so_at _ (ap_ok _ _ _ Ha) id) as Hok. unfold ok_at in Hok.
    match goal with Hs : g_entries g !! id = Some ?r |- _ => rename r into row; rewrite Hs in Hok; destruct Hok as (Hid & _) end.
    apply post_write; intros; tx_steps; cbn [to_row with_fields with_er_updated er_id] in *; rewrite ?Hid in *; [|congruence].
    by apply (applying_write g0 st g before id row).
  - tx_step. eapply note_before_post; [done|]. intros before Hb. cbn beta. tx_steps.
    unfold get_entry in *. pose proof (so_at _ (ap_ok _ _ _ Ha) id) as Hok. unfold ok_at in Hok.
    match goal with Hs : g_entries g !! id = Some ?r |- _ => rename r into row; rewrite Hs in Hok; destruct Hok as (Hid & _) end.
    apply post_write; intros; tx_steps; cbn [with_er_status with_er_updated er_id] in *; rewrite ?Hid in *; [|congruence].
    by apply (applying_write g0 st g before id row).
  - tx_step. eapply note_before_post; [done|]. intros before Hb. cbn beta. tx_step. unfold post.
    destruct (delete_entry_tables id g) as [b ->]. cbn. apply applying_move; [done|done| | | | |].
    + intros i Hi. unfold view. rewrite lookup_delete_ne, at_without by done. by rewrite bool_decide_false.
    + unfold ok_at. cbn. rewrite lookup_delete_eq, at_without. by rewrite bool_decide_true.
    + done.
    + rewrite lookup_delete_eq. by intros [].
    + unfold kept. cbn. rewrite lookup_delete_eq. by destruct (g_entries g0 !! id).
Qed.
Lemma applying_start g0 : store_ok g0 → applying g0 ([], []) g0.
Proof. intros H0. split; cbn; try done; try (intros; exfalso; set_solver). intros i. apply kept_refl. Qed.

(** The entries and their evidence. *)
Definition same_guide (a b : GuideDb) : Prop := g_entries a = g_entries b ∧ g_evidence a = g_evidence b.
Lemma same_views a b : (∀ i, view i a = view i b) → same_guide a b.
Proof.
  intros Hv. split.
  - apply map_eq. intros i. by pose proof (f_equal fst (Hv i)).
  - apply map_eq. intros [[i m] q]. apply at_id_lookup. by pose proof (f_equal snd (Hv i)).
Qed.
Lemma view_same i a b : same_guide a b → view i a = view i b.
Proof. unfold view. by intros [-> ->]. Qed.

(** What a change leaves: the tables at the end, and its record. *)
Definition logged (g0 : GuideDb) (reason : string) (now : Millis) (analysis : option (AnalysisRecord * AnalysisRecord))
    (g1 : GuideDb) (c : GuideChange) : Prop :=
  ∃ ids before g, applying g0 (ids, before) g ∧ same_guide g1 g ∧
    g_changes g1 !! gc_change_id c = Some (mkChange reason before (omap (λ id, snapshot id g) ids) now analysis).
Lemma apply_checked_logged g0 edits reason now :
  store_ok g0 → post g0 (apply_checked edits reason None now) (logged g0 reason now None).
Proof.
  intros H0. unfold apply_checked. tx_step. eapply post_mono; [|apply (post_folding (λ g st, applying g0 st g))].
  - intros g [ids before] Ha. cbn beta. tx_steps.
    assert (∀ (b : bool) (t u : Transactions.Tx GuideDb Z) s Q, post s t Q → post s u Q → post s (if b then t else u) Q) as Hif by by intros [].
    unfold record_change_with. tx_step. cbn [fst snd]. tx_step. apply Hif; unfold record_version; tx_steps; unfold logged; exists ids, before, g;
      (split; [done|]; split; [done|]; cbn -[Z.lt_dec]; apply map_lookup_filter_Some; split; [by apply lookup_insert_eq|]; unfold KEPT_CHANGES; cbn; lia).
  - intros g st e Ha _. by apply apply_edit_post.
  - by apply applying_start.
Qed.

(** Replaying a change whose ids can be restored. *)
Lemma replay_runs id (undo : bool) at_ g ch E V M :
  g_changes g !! id = Some ch → ch_analysis ch = None →
  restore (ids_of (ch_before ch) (ch_after ch)) (if (undo : bool) then ch_before ch else ch_after ch) g = Ok (with_tables E V M g, ()) →
  ∃ g2, replay id undo at_ g = Ok (g2, ()) ∧ g_entries g2 = E ∧ g_evidence g2 = V ∧ g_changes g2 = g_changes g.
Proof.
  intros Hc Ha Hr. unfold replay, get_change, change_analysis. unfold mbind at 1, tx_bind at 1, tx_get. rewrite Hc. cbn [mbind result_bind fmap option_fmap option_map].
  unfold mbind at 1, tx_bind at 1, tx_some. cbn [mret tx_ret mbind result_bind]. unfold mbind at 1, tx_bind at 1. rewrite Hr. cbn [mbind result_bind].
  unfold mbind at 1, tx_bind at 1. cbn [mbind result_bind with_tables g_changes on_meta on_evidence on_entries]. rewrite Hc. cbn [mbind option_bind].
  rewrite Ha. unfold mbind at 1, tx_bind at 1. cbn [mret tx_ret mbind result_bind].
  destruct (is_empty _); [by eexists|]. unfold record_version, tx_new, mbind, tx_bind. cbn. by eexists.
Qed.
Lemma elem_of_ids before after i : i ∈ ids_of before after ↔ ∃ s, s ∈ before ++ after ∧ er_id (sn_entry s) = i.
Proof.
  unfold ids_of. rewrite merge_sort_Permutation, elem_of_remove_dups, list_elem_of_fmap. split; intros (s & E & Hs); by exists s.
Qed.
Lemma snapshot_id g id s : ok_at id g → snapshot id g = Some s → er_id (sn_entry s) = id.
Proof. unfold snapshot, get_entry, ok_at. destruct (g_entries g !! id); [|done]. intros (? & _) [= <-]. done. Qed.
Lemma find_snapshots g ids i :
  (∀ j, ok_at j g) → find_snap (omap (λ id, snapshot id g) ids) i = if bool_decide (i ∈ ids) then snapshot i g else None.
Proof.
  intros Hok. induction ids as [|j ids IH]; [done|]. cbn [omap list_omap]. destruct (snapshot j g) as [s|] eqn:Es.
  - pose proof (snapshot_id g j s (Hok j) Es) as Hid. unfold find_snap in *. cbn [List.find]. rewrite Hid. destruct (Z.eqb_spec j i) as [->|Hne].
    + rewrite bool_decide_true by by left. done.
    + rewrite IH. apply bool_decide_ext_if. set_solver.
  - rewrite IH. destruct (decide (j = i)) as [->|Hne].
    + rewrite (bool_decide_true (i ∈ i :: ids)) by by left. rewrite Es. by case_bool_decide.
    + apply bool_decide_ext_if. set_solver.
Qed.

(** The ids a change touched have the snapshots of both sides. *)
Section change.
Context (g0 g : GuideDb) (ids : list Z) (before : list Snapshot) (Ha : applying g0 (ids, before) g) (H0 : store_ok g0).
Let after := omap (λ id, snapshot id g) ids.
Lemma after_in s : s ∈ after → er_id (sn_entry s) ∈ ids ∧ snapshot (er_id (sn_entry s)) g = Some s.
Proof.
  unfold after. intros (i & Hi & Hs)%list_elem_of_omap. pose proof (snapshot_id g i s (so_at _ (ap_ok _ _ _ Ha) i) Hs) as ->. done.
Qed.
Lemma touched_in i : i ∈ ids_of before after → i ∈ ids.
Proof.
  intros (s & [Hs|Hs]%elem_of_app & <-)%elem_of_ids; [by apply (ap_ids _ _ _ Ha)|by apply after_in].
Qed.
Lemma shot_before i : i ∈ ids_of before after → shot i g0 (find_snap before i).
Proof. intros Hi%touched_in. by apply (ap_before _ _ _ Ha). Qed.
Lemma shot_after i : i ∈ ids_of before after → shot i g (find_snap after i).
Proof.
  intros Hi%touched_in. unfold after. rewrite find_snapshots by (intros j; apply (so_at _ (ap_ok _ _ _ Ha))).
  rewrite bool_decide_true by done. apply snapshot_shot.
Qed.
Lemma untouched i : i ∉ ids_of before after → view i g = view i g0.
Proof.
  intros Hi. destruct (decide (i ∈ ids)) as [Hin|]; [|by apply (ap_others _ _ _ Ha)].
  assert (g_entries g !! i = None) as Hn.
  { destruct (g_entries g !! i) as [e|] eqn:E; [|done]. exfalso. apply Hi, elem_of_ids.
    assert (snapshot i g = Some (mkSnap e (evidence i g))) as Hs by (unfold snapshot, get_entry; by rewrite E).
    eexists. split; [apply elem_of_app; right; apply list_elem_of_omap; by exists i|].
    by apply (snapshot_id g); [apply (so_at _ (ap_ok _ _ _ Ha))|]. }
  assert (g_entries g0 !! i = None) as Hn0.
  { pose proof (ap_before _ _ _ Ha i Hin) as Hs. unfold shot in Hs. cbn [snd] in Hs.
    destruct (find_snap before i) as [s|] eqn:Ef; [|by destruct (g_entries g0 !! i) eqn:?].
    exfalso. apply Hi, elem_of_ids. apply List.find_some in Ef as [Hs' Hid]. exists s. split; [|by apply Z.eqb_eq].
    apply elem_of_app. left. by apply list_elem_of_In. }
  pose proof (so_at _ (ap_ok _ _ _ Ha) i) as Hok. pose proof (so_at _ H0 i) as Hok0. unfold ok_at in *. rewrite Hn in Hok. rewrite Hn0 in Hok0.
  unfold view. congruence.
Qed.
End change.
End undo.
