(* ===== verification/GuideTyped.v ===== *)
(** * GuideTyped: what the guide's tables hold

    Every entry stored is one the app can read: of a category of the
    taxonomy, with a statement of the length allowed, and a scope and a
    check that parse; and so for what the change log and the versions keep.
    The operations of the store keep it so. *)

From S2P Require Import Prelude.
From S2P Require Import Text.
From S2P Require Import Json.
From S2P Require Import Guide.
From S2P Require Import Domain.
From S2P Require Import MailStore.
From S2P Require Import Agents.
From S2P Require Import Effects.
From S2P Require Import Transactions.
From S2P Require Import ProposalStore.
From S2P Require Import GuideStore.
From S2P Require Import GuideEdits.
From S2P Require Import GuideLearn.
From S2P Require Import GuideUndo.

Import GuideStore.
Import GuideTables.
Import GuideEdits.
Import GuideLearn.

(** serde_json reads back what it writes. *)
Class CoreTextLaws `{CoreText} : Prop := { json_round j : json_read (json_write j) = Some j }.

Section typed.
Context `{CoreTextLaws}.

(** ** Entries the app can read *)

Definition guide_category (c : string) : bool := List.existsb (λ x, String.eqb (ca_id x) c && negb (String.eqb c "F3")) CATEGORIES.
Definition good_statement (s : string) : Prop := s ≠ "" ∧ length (chars s) ≤ STATEMENT_CAP ∧ ∃ t, s = clean_text t.
Definition readable (json : string) {A} (of_json : Json → option A) : Prop := is_Some (j ← json_read json; of_json j).
Record typed (e : EntryRow) : Prop := {
  ty_category : guide_category (er_category e) = true;
  ty_kind : is_Some (parse_kind (er_kind e));
  ty_status : is_Some (parse_status (er_status e));
  ty_source : is_Some (parse_source (er_source e));
  ty_statement : good_statement (er_statement e);
  ty_scope : readable (er_scope_json e) scope_of_json;
  ty_check c : er_check_json e = Some c → readable c check_of_json }.
Definition snap_ok (s : Snapshot) : Prop := (0 < er_id (sn_entry s))%Z ∧ typed (sn_entry s).
Record guide_ok (g : GuideDb) : Prop := {
  gk_store : store_ok g;
  gk_entries : map_Forall (λ _ e, typed e) (g_entries g);
  gk_log : map_Forall (λ _ c, Forall snap_ok (ch_before c ++ ch_after c)) (g_changes g);
  gk_versions : map_Forall (λ _ v, Forall typed (ve_entries v)) (g_versions g) }.

(** ** What is written reads back *)

Lemma mapM_strings l : mapM as_str (JString <$> l) = Some l.
Proof. induction l as [|s l IH]; [done|]. rewrite fmap_cons. cbn. by rewrite IH. Qed.
Lemma strings_json l : strings (json_strings l) = Some l.
Proof. unfold strings, json_strings. cbn. apply mapM_strings. Qed.
Lemma scope_round s : scope_of_json (scope_json s) = Some s.
Proof. destruct s. unfold scope_of_json, scope_json, lookup_field. cbn -[strings json_strings]. by rewrite !strings_json. Qed.
Lemma check_round c : check_of_json (check_json c) = Some c.
Proof. by destruct c as [[] v]. Qed.
Lemma scope_readable s : readable (json_write (scope_json s)) scope_of_json.
Proof. unfold readable. rewrite json_round. cbn [mbind option_bind]. rewrite scope_round. by eexists. Qed.
Lemma check_readable o c : json_write ∘ check_json <$> o = Some c → readable c check_of_json.
Proof. destruct o as [x|]; [|done]. intros [= <-]. unfold readable. rewrite json_round. cbn [mbind option_bind]. rewrite check_round. by eexists. Qed.
Lemma kind_known k : is_Some (parse_kind (kind_text k)).
Proof. by destruct k; vm_compute; eexists. Qed.
Lemma status_known k : is_Some (parse_status (status_text k)).
Proof. by destruct k; vm_compute; eexists. Qed.
Lemma source_known k : is_Some (parse_source (source_text k)).
Proof. by destruct k; vm_compute; eexists. Qed.

(** Fields that were checked. *)
Definition fields_ok (f : GuideEntryFields) : Prop := guide_category (gf_category f) = true ∧ good_statement (gf_statement f).
Lemma category_in s c : category s = Some c → c ∈ CATEGORIES.
Proof. intros [Hc _]%List.find_some. by apply list_elem_of_In. Qed.
Lemma category_is_known s c : category s = Some c → ca_id c ≠ "F3" → guide_category (ca_id c) = true.
Proof.
  intros Hc%category_in Hn. apply List.existsb_exists. exists c. split; [by apply list_elem_of_In|].
  rewrite String.eqb_refl. cbn. by destruct (String.eqb_spec (ca_id c) "F3").
Qed.
Lemma validate_ok f f' : validate f = Ok f' → fields_ok f'.
Proof.
  unfold validate. destruct (category (gf_category f)) as [c|] eqn:Ec; [|done]. cbn [ok_or mbind result_bind].
  destruct (String.eqb_spec (ca_id c) "F3") as [|Hf]; [done|]. destruct (String.eqb_spec (clean_text (gf_statement f)) "") as [|Hs]; [done|].
  destruct (STATEMENT_CAP <? _) eqn:Hl; [discriminate|]. apply Nat.ltb_ge in Hl.
  destruct (validate_check (gf_check f)); [|done]. intros [= <-]. split; [by apply (category_is_known (gf_category f))|].
  split; [done|]. split; [done|]. by eexists.
Qed.
Definition edit_ok (e : GuideEdit) : Prop := match e with Add f _ _ _ | Update _ f => fields_ok f | _ => True end.
Lemma checked_ok e e' : checked_edit e = Ok e' → edit_ok e'.
Proof.
  destruct e as [f st so o|i f|i st|i]; cbn; try (by intros [= <-]);
    destruct (validate f) as [f'|] eqn:E; try done; intros [= <-]; by apply (validate_ok f).
Qed.
Lemma all_checked edits edits' : mapM checked_edit edits = Ok edits' → Forall edit_ok edits'.
Proof.
  revert edits'. induction edits as [|e l IH]; intros l'; [intros [= <-]; constructor|]. cbn.
  destruct (checked_edit e) as [e'|] eqn:E; [|done]. cbn. destruct (mapM checked_edit l) as [k|]; [|done]. cbn. intros [= <-].
  constructor; [by apply (checked_ok e)|by apply IH].
Qed.
Lemma to_row_typed f e : fields_ok f → is_Some (parse_status (er_status e)) → is_Some (parse_source (er_source e)) → typed (to_row f e).
Proof.
  intros [Hc Hs] Hst Hso. split; cbn; [done|apply kind_known|done..| |].
  - apply scope_readable.
  - intros c. apply check_readable.
Qed.

(** ** The store's operations *)

Lemma guide_ok_move id E V M g :
  guide_ok g → (∀ i, i ≠ id → (E !! i, at_id i V) = view i g) → ok_at id (with_tables E V M g) →
  (noted_id g ≤ noted_id (with_tables E V M g))%Z → (is_Some (E !! id) → id ≤ noted_id (with_tables E V M g))%Z →
  (∀ e, E !! id = Some e → typed e) → guide_ok (with_tables E V M g).
Proof.
  intros Hg Ho Hid Hn Hi Ht. split.
  - apply (store_ok_move id); [apply Hg|done..].
  - intros i e He. destruct (decide (i = id)) as [->|Hne]; [by apply Ht|]. cbn in He. pose proof (Ho i Hne) as [= Ei _].
    apply (gk_entries g Hg i). by rewrite <-Ei.
  - apply (gk_log g Hg).
  - apply (gk_versions g Hg).
Qed.
Lemma ok_write g id e e' :
  guide_ok g → g_entries g !! id = Some e → same_counts e e' → entry_checks e' = true → typed e' →
  guide_ok (with_tables (<[id := e']> (g_entries g)) (g_evidence g) (g_meta g) g).
Proof.
  intros Hg He (Si & Ss & Sc) Hc Ht. pose proof (so_at _ (gk_store _ Hg) id) as Hok. unfold ok_at in Hok. rewrite He in Hok.
  pose proof (so_noted _ (gk_store _ Hg) id) as Hn. apply (guide_ok_move id); [done|intros i Hi; by apply view_insert| |done| |].
  - unfold ok_at. cbn. rewrite lookup_insert_eq, Si, Ss, Sc. destruct Hok as (?&?&?&?&?). done.
  - intros _. apply Hn. by eexists.
  - intros x. rewrite lookup_insert_eq. by intros [= <-].
Qed.
Lemma ok_insert g e :
  guide_ok g → entry_checks e = true → typed e → (0 ≤ er_support e)%Z → (0 ≤ er_contradict e)%Z →
  let n := (last_entry_id g + 1)%Z in
  guide_ok (with_tables (<[n := with_er_id n e]> (g_entries g)) (g_evidence g) (noting n g) g).
Proof.
  intros Hg Hc Ht Hs Hcon n. pose proof (last_entry_nonneg g). pose proof (noted_last g).
  apply (guide_ok_move n); [done|intros i Hi; by apply view_insert| | | |].
  - by apply store_ok_insert; [apply Hg|..].
  - rewrite noted_after. unfold n. lia.
  - intros _. rewrite noted_after. lia.
  - intros x. rewrite lookup_insert_eq. intros [= <-]. by destruct Ht; split.
Qed.
Lemma ok_delete g id : guide_ok g → post g (delete_entry id) (λ g' _, guide_ok g').
Proof.
  intros Hg. unfold post. destruct (delete_entry_tables id g) as [b ->]. apply (guide_ok_move id); [done| | |done| |].
  - intros i Hi. unfold view. rewrite lookup_delete_ne, at_without by done. by rewrite bool_decide_false.
  - unfold ok_at. cbn. rewrite lookup_delete_eq, at_without. by rewrite bool_decide_true.
  - rewrite lookup_delete_eq. by intros [].
  - intros e. by rewrite lookup_delete_eq.
Qed.
(** The entry's counts set at least to what there is. *)
Lemma ok_counts g id e V f :
  guide_ok g → is_Some (g_entries g !! id) ∨ (id ≤ noted_id g)%Z → er_id e = id → (0 < id)%Z → entry_checks e = true → typed e →
  (∀ i, i ≠ id → at_id i V = at_id i (g_evidence g)) →
  (∀ g', g_evidence g' = V → let '(s, c) := f in (counted false id g' ≤ s)%Z ∧ (counted true id g' ≤ c)%Z) →
  ∀ M, (noted_id g ≤ noted_id (with_tables (<[id := with_counts f.1 f.2 e]> (g_entries g)) V M g))%Z →
  (id ≤ noted_id (with_tables (<[id := with_counts f.1 f.2 e]> (g_entries g)) V M g))%Z →
  guide_ok (with_tables (<[id := with_counts f.1 f.2 e]> (g_entries g)) V M g).
Proof.
  intros Hg _ Hi Hp Hc Ht HV Hf M Hn1 Hn2. apply (guide_ok_move id); [done| | |done|done|].
  - intros i Hne. unfold view. rewrite lookup_insert_ne by done. by rewrite HV.
  - unfold ok_at. cbn. rewrite lookup_insert_eq. destruct f as [s c]. cbn in *.
    destruct (Hf (with_tables (<[id := with_counts s c e]> (g_entries g)) V M g) eq_refl). done.
  - intros x. rewrite lookup_insert_eq. intros [= <-]. by destruct Ht; split.
Qed.
Lemma add_quotes_at i id V l : i ≠ id → at_id i (foldl (add_quote_to id) V l) = at_id i V.
Proof.
  intros Hi. rewrite add_quotes_union. apply at_id_eq. intros m q. rewrite lookup_union.
  destruct (list_to_map _ !! _) as [c|] eqn:E; [|by destruct (V !! _)]. apply elem_of_list_to_map_2 in E.
  apply list_elem_of_fmap in E as (r & [= Ei] & _). congruence.
Qed.
Lemma recount_none id g : g_entries g !! id = None → recount id g = g.
Proof.
  intros E. destruct g; unfold recount, on_entries, update_row; cbn in *. f_equal. apply map_eq. intros i.
  destruct (decide (i = id)) as [->|]; [by rewrite lookup_alter_eq, E|by rewrite lookup_alter_ne].
Qed.
Lemma post_add_evidence g id l (Q : GuideDb → () → Prop) :
  (is_Some (g_entries g !! id) → Q (recount id (on_evidence (λ V, foldl (add_quote_to id) V l) g)) ()) →
  (g_entries g !! id = None → Q g ()) → post g (add_evidence id l) Q.
Proof.
  intros Hs Hn. unfold post. destruct (g_entries g !! id) as [e|] eqn:E.
  - rewrite add_evidence_tables by by rewrite E. apply Hs. by eexists.
  - unfold add_evidence, mbind, tx_bind. destruct l as [|q l].
    + cbn. rewrite recount_none by done. by apply Hn.
    + cbn. unfold mbind, tx_bind, add_quote, tx_where, get_entry at 1. unfold mbind, tx_bind. 
      by rewrite bool_decide_false by (unfold get_entry; rewrite E; by intros []).
Qed.

(** Tables the entries do not depend on. *)
Lemma guide_ok_same g g' :
  g_entries g' = g_entries g → g_evidence g' = g_evidence g → noted_id g' = noted_id g → g_changes g' = g_changes g →
  g_change_seq g' = g_change_seq g → g_versions g' = g_versions g → guide_ok g → guide_ok g'.
Proof.
  intros He Hv Hm Hc Hs Hvs [[Ha Hn Hl] Ht Hlog Hver]. split; [split|..].
  - intros id. apply (ok_at_view id g); [|apply Ha]. unfold view. by rewrite He, Hv.
  - intros id. rewrite He, Hm. apply Hn.
  - intros id. rewrite Hc, Hs. apply Hl.
  - by rewrite He.
  - by rewrite Hc.
  - by rewrite Hvs.
Qed.
Lemma ok_add_evidence g id l : guide_ok g → post g (add_evidence id l) (λ g' _, guide_ok g').
Proof.
  intros Hg. apply post_add_evidence; [|done]. intros [e He].
  pose proof (so_at _ (gk_store _ Hg) id) as Hok. unfold ok_at in Hok. rewrite He in Hok. destruct Hok as (Hid & Hp & Hc & _).
  pose proof (so_noted _ (gk_store _ Hg) id) as Hn. set (V := foldl (add_quote_to id) (g_evidence g) l). set (g1 := on_evidence _ g).
  change (recount id g1) with (with_tables (update_row id (with_counts (counted false id g1) (counted true id g1)) (g_entries g)) V (g_meta g) g).
  apply (guide_ok_move id); [done| | |done| |].
  - intros i Hi. unfold view, update_row. rewrite lookup_alter_ne by done. unfold V. by rewrite add_quotes_at.
  - unfold ok_at, update_row. cbn. rewrite lookup_alter_eq, He. cbn. repeat split; [done..| |]; by apply Z.eq_le_incl, counted_view.
  - intros _. apply Hn. by eexists.
  - intros x. unfold update_row. rewrite lookup_alter_eq, He. intros [= <-]. pose proof (gk_entries _ Hg id e He) as Ht. by destruct Ht; split.
Qed.

(** ** Restoring *)

Lemma ok_restore_at g id s E M sup con :
  guide_ok g → snap_ok s → er_id (sn_entry s) = id → entry_checks (sn_entry s) = true →
  E = <[id := sn_entry s]> (g_entries g) →
  (noted_id g ≤ noted_id (with_tables E (g_evidence g) M g))%Z → (id ≤ noted_id (with_tables E (g_evidence g) M g))%Z →
  post (with_tables E (g_evidence g) M g)
    (_ ← add_evidence id (sn_evidence s); tx_do (on_entries (update_row id (max_counts sup con)))) (λ g' _, guide_ok g').
Proof.
  intros Hg [Hp Ht] Hid Hc -> Hn1 Hn2. tx_step. apply post_add_evidence; [|cbn; by rewrite lookup_insert_eq]. intros _. tx_steps.
  set (g1 := with_tables _ _ _ g) in *. set (V := foldl (add_quote_to id) (g_evidence g) (sn_evidence s)). set (g2 := on_evidence _ g1).
  change (on_entries _ (recount id g2)) with
    (with_tables (update_row id (max_counts sup con) (update_row id (with_counts (counted false id g2) (counted true id g2)) (g_entries g1)))
       V M g).
  apply (guide_ok_move id); [done| | |done|done|].
  - intros i Hi. unfold view, update_row. rewrite !lookup_alter_ne by done. cbn. rewrite lookup_insert_ne by done. unfold V. by rewrite add_quotes_at.
  - unfold ok_at, update_row. cbn. rewrite !lookup_alter_eq, lookup_insert_eq. cbn.
    repeat split; [done|by rewrite <-Hid|done|..];
      (etrans; [apply Z.eq_le_incl; by apply (counted_view _ id _ g2)|apply Z.le_max_l]).
  - intros x. unfold update_row. rewrite !lookup_alter_eq. cbn. rewrite lookup_insert_eq. cbn. intros [= <-]. by destruct Ht; split.
Qed.
Lemma ok_restore_one snaps id g :
  Forall snap_ok snaps → guide_ok g → post g (restore_one snaps id) (λ g' _, guide_ok g').
Proof.
  intros Hs Hg. unfold restore_one. destruct (List.find _ snaps) as [s|] eqn:E; [|tx_step; eapply post_mono; [|by apply ok_delete]; done].
  apply List.find_some in E as [Hin Hid%Z.eqb_eq]. apply list_elem_of_In in Hin. rewrite Forall_forall in Hs. pose proof (Hs _ Hin) as Hok.
  tx_step. tx_step. cbn beta. tx_step. pose proof Hok as [Hp Ht]. apply post_write.
  - intros Hsome Hc. cbn beta. tx_step. tx_step. cbn beta. apply ok_restore_at; [done..|by rewrite Hid| |]; [done|].
    rewrite Hid in Hsome. by apply (so_noted _ (gk_store _ Hg)).
  - intros Hn. cbn beta. tx_step. unfold post at 1. destruct (entry_checks (sn_entry s)) eqn:Hc.
    + rewrite insert_entry_known by (done || lia). cbn beta iota. pose proof (noted_last g).
      apply ok_restore_at; [done..| |rewrite Hid, noted_after; lia|rewrite Hid, noted_after; lia]. rewrite Hid. by destruct s as [[] ?]; cbn in *; subst.
    + unfold insert_entry, mbind, tx_bind, tx_get, set_meta, tx_do, tx_check, tx_where. cbn. by rewrite Hc.
Qed.
Lemma ok_restore snaps ids g : Forall snap_ok snaps → guide_ok g → post g (restore ids snaps) (λ g' _, guide_ok g').
Proof. intros Hs. apply (post_each guide_ok). intros. by apply ok_restore_one. Qed.

(** ** The log, the versions and Analysis *)

Lemma ok_snapshot g id s : guide_ok g → snapshot id g = Some s → snap_ok s.
Proof.
  intros Hg. unfold snapshot, get_entry. pose proof (so_at _ (gk_store _ Hg) id) as Hok. unfold ok_at in Hok.
  destruct (g_entries g !! id) as [e|] eqn:E; [|done]. intros [= <-]. destruct Hok as (<- & Hp & _). split; [done|]. by apply (gk_entries _ Hg (er_id e)).
Qed.
Lemma ok_snapshots g ids : guide_ok g → Forall snap_ok (omap (λ id, snapshot id g) ids).
Proof. intros Hg. apply Forall_forall. intros s (id & _ & Hs)%list_elem_of_omap. by apply (ok_snapshot g id). Qed.
Lemma ok_record_change g reason before after analysis now :
  guide_ok g → Forall snap_ok before → Forall snap_ok after →
  post g (record_change_with reason before after analysis now) (λ g' _, guide_ok g').
Proof.
  intros [[Ha Hn Hl] Ht Hlog Hver] Hb Haf. unfold record_change_with. tx_step. cbn. split; [split|..]; try done.
  - intros id [c Hc]. cbn in *. apply map_lookup_filter_Some in Hc as [Hc _]. apply lookup_insert_Some in Hc as [[<- _]|[_ Hc]]; [lia|].
    pose proof (Hl id ltac:(by eexists)). lia.
  - intros id c Hc. cbn in *. apply map_lookup_filter_Some in Hc as [Hc _]. apply lookup_insert_Some in Hc as [[_ <-]|[_ Hc]]; [|by apply (Hlog id)].
    cbn. by apply Forall_app.
Qed.
Lemma ok_record_version g reason now : guide_ok g → post g (record_version reason now) (λ g' _, guide_ok g').
Proof.
  intros [Hs Ht Hlog Hver]. unfold record_version. tx_step. cbn. destruct Hs. split; [by split|done|done|]. cbn. apply map_Forall_insert_2; [|done].
  cbn. unfold accepted_rows. rewrite merge_sort_Permutation. apply Forall_forall. intros e He.
  apply list_elem_of_In, List.filter_In in He as [He _]. apply list_elem_of_In, list_elem_of_fmap in He as ([i x] & -> & Hi).
  apply elem_of_map_to_list in Hi. by apply (Ht i).
Qed.
Lemma ok_analysis {A} g (t : Transactions.Tx Proposals.AnalysisDb A) : guide_ok g → post g (in_analysis t) (λ g' _, guide_ok g').
Proof. intros Hg. unfold in_analysis, post, within. destruct (t (g_analysis g)) as [[x a]|]; [|done]. cbn. by apply (guide_ok_same g). Qed.

(** ** Edits *)

Lemma ok_note_before id st g Q :
  guide_ok g → Forall snap_ok st.2 → (∀ before, Forall snap_ok before → Q g before) → post g (note_before id st) Q.
Proof.
  intros Hg Hs HQ. unfold note_before. case_bool_decide; [by apply post_ret, HQ|]. tx_steps. apply HQ, Forall_app. split; [done|].
  destruct (snapshot id g) as [s|] eqn:E; [|done]. constructor; [by apply (ok_snapshot g id)|done].
Qed.
Definition editing (g : GuideDb) (st : list Z * list Snapshot) : Prop := guide_ok g ∧ Forall snap_ok st.2.
Lemma ok_update g id row row' Q :
  guide_ok g → g_entries g !! id = Some row → same_counts row row' → (typed row → typed row') →
  (∀ g', guide_ok g' → ∀ b, Q g' b) → post g (write_entry row') Q.
Proof.
  intros Hg Hrow Hsame Hty HQ. pose proof (so_at _ (gk_store _ Hg) id) as Hok. unfold ok_at in Hok. rewrite Hrow in Hok. destruct Hok as (Hid & _).
  pose proof Hsame as (Hi & _). apply post_write; [|intros _; by apply HQ]. intros _ Hc. apply HQ. rewrite Hi, Hid.
  apply (ok_write g id row); [done..|]. by apply Hty, (gk_entries _ Hg id).
Qed.
Lemma ok_apply_edit now st e g : edit_ok e → editing g st → post g (apply_edit now st e) editing.
Proof.
  intros He [Hg Hs]. destruct e as [f status source origin|id f|id status|id]; cbn [apply_edit].
  - tx_step. apply post_insert; [done|]. intros Hc. cbn zeta. tx_steps. split; [|done]. apply ok_insert; [done..| |done|done].
    apply to_row_typed; [done|apply status_known|apply source_known].
  - tx_step. apply ok_note_before; [done..|]. intros before Hb. cbn beta. tx_steps.
    match goal with Hx : get_entry id g = Some ?r |- _ => rename Hx into Hrow; rename r into row end.
    apply (ok_update g id row); [done|done|done| |intros g' Hg' b; by tx_steps].
    intros []. destruct (to_row_typed f row) as []; [done..|]. by split.
  - tx_step. apply ok_note_before; [done..|]. intros before Hb. cbn beta. tx_steps.
    match goal with Hx : get_entry id g = Some ?r |- _ => rename Hx into Hrow; rename r into row end.
    apply (ok_update g id row); [done|done|done| |intros g' Hg' b; by tx_steps].
    intros []. split; try done. apply status_known.
  - tx_step. apply ok_note_before; [done..|]. intros before Hb. cbn beta. tx_step. eapply post_mono; [|by apply ok_delete].
    intros g' b Hg'. cbn beta. by tx_steps.
Qed.
Lemma ok_step_apply step now g : guide_ok g → post g (step_apply step now) (λ g' _, guide_ok g').
Proof.
  intros Hg. destruct step; cbn [step_apply]; repeat (tx_step; cbn beta); (eapply post_mono; [|by apply ok_analysis]); intros g' ? Hg'; cbn beta; by tx_steps.
Qed.
Lemma ok_apply_checked edits reason step now g :
  Forall edit_ok edits → guide_ok g → post g (apply_checked edits reason step now) (λ g' _, guide_ok g').
Proof.
  intros He Hg. unfold apply_checked. tx_step. eapply post_mono; [|apply (post_folding editing)]; [|intros g' st e Hst Hin; apply ok_apply_edit; [by eapply Forall_forall|done]|by split].
  intros g' [ids before] [Hg' Hb]. cbn beta. tx_step. tx_step. cbn beta. tx_step. apply (post_mono _ _ (λ s _, guide_ok s)).
  - intros g1 an Hg1. cbn beta. tx_step. eapply post_mono; [|apply ok_record_change; [done|done|]].
    + intros g2 id Hg2. cbn beta. tx_step. apply (post_mono _ _ (λ s _, guide_ok s)); [intros; by tx_steps|].
      destruct (_ || _); [by apply ok_record_version|by apply post_get].
    + by apply ok_snapshots.
  - destruct step; [|by tx_steps]. tx_step. eapply post_mono; [|by apply ok_step_apply]. intros; by tx_steps.
Qed.
Lemma ok_replay id undo now g : guide_ok g → post g (replay id undo now) (λ g' _, guide_ok g').
Proof.
  intros Hg. unfold replay. tx_step. tx_step. cbn beta. tx_step. tx_step. destruct a as [[reason before] after]. cbn beta.
  match goal with Hx : get_change id g = Some _ |- _ => unfold get_change in Hx; destruct (g_changes g !! id) as [c|] eqn:Ec; [|done]; injection Hx as <- <- <- end.
  pose proof (gk_log _ Hg id c Ec) as Hs. apply Forall_app in Hs as [Hb Ha]. tx_step.
  eapply post_mono; [|apply ok_restore; [destruct undo; [exact Hb|exact Ha]|done]]. intros g1 ? Hg1. cbn beta. tx_step. tx_step. cbn beta. tx_step.
  apply (post_mono _ _ (λ s _, guide_ok s)).
  - intros g2 ? Hg2. cbn beta. destruct (is_empty _); [by tx_steps|]. tx_step. eapply post_mono; [|by apply ok_record_version]. intros; by tx_steps.
  - destruct (change_analysis id g1) as [[was is_]|]; [by apply ok_analysis|by tx_steps].
Qed.
End typed.

(** * An agent's answer in the store

    What merging an answer about sent mail ([guide_ai.rs]) changes of the
    guide, whatever the answer says. *)

Import GuideStore.
Import GuideTables.
Import GuideEdits.
Import GuideLearn.

(** ** Audience groups *)

Section groups.
Context `{CoreText}.

Lemma nocase_sym a b : nocase_eqb a b = nocase_eqb b a.
Proof. unfold nocase_eqb. by apply bool_decide_ext. Qed.
Lemma nocase_trans a b c : nocase_eqb a b = true → nocase_eqb b c = true → nocase_eqb a c = true.
Proof. unfold nocase_eqb. rewrite !bool_decide_eq_true. congruence. Qed.

(** Rows under their ids, and no two of a name. *)
Record groups_ok (m : gmap Z GroupRow) : Prop := {
  go_id i r : m !! i = Some r → gr_id r = i;
  go_name i j r s : m !! i = Some r → m !! j = Some s → nocase_eqb (gr_name r) (gr_name s) = true → i = j }.
Lemma group_named_some name g r :
  groups_ok (g_groups g) → group_named name g = Some r → g_groups g !! gr_id r = Some r ∧ nocase_eqb (gr_name r) name = true.
Proof.
  intros Hg [Hin Hn]%List.find_some. split; [|done]. apply list_elem_of_In, list_elem_of_fmap in Hin as ([i x] & -> & Hx).
  apply elem_of_map_to_list in Hx. cbn. by rewrite (go_id _ Hg i x Hx).
Qed.
Lemma group_named_none name g i r : group_named name g = None → g_groups g !! i = Some r → nocase_eqb (gr_name r) name = false.
Proof.
  intros Hn Hi. apply (List.find_none _ _ Hn). apply list_elem_of_In, list_elem_of_fmap. exists (i, r). split; [done|]. by apply elem_of_map_to_list.
Qed.
Lemma elem_of_groups g x : x ∈ groups g ↔ ∃ i r, g_groups g !! i = Some r ∧ x = with_members (members_of (gr_id r) g) r.
Proof.
  unfold groups. rewrite list_elem_of_fmap. split.
  - intros (r & -> & Hr). rewrite merge_sort_Permutation in Hr. apply list_elem_of_fmap in Hr as ([i r'] & -> & Hr).
    apply elem_of_map_to_list in Hr. by exists i, r'.
  - intros (i & r & Hr & ->). exists r. split; [done|]. rewrite merge_sort_Permutation. apply list_elem_of_fmap.
    exists (i, r). split; [done|]. by apply elem_of_map_to_list.
Qed.

(** Groups the user decided on are as they were; the others keep their
    names and their suggestion. *)
Record groups_kept (g0 g : GuideDb) : Prop := {
  gp_ok : groups_ok (g_groups g);
  gp_old i r : g_groups g0 !! i = Some r → ∃ r', g_groups g !! i = Some r' ∧ gr_name r' = gr_name r ∧ gr_status r' = gr_status r;
  gp_decided i r : g_groups g0 !! i = Some r → gr_status r ≠ "suggested" →
    g_groups g !! i = Some r ∧ ∀ m, (i, m) ∈ g_members g ↔ (i, m) ∈ g_members g0;
  gp_new i r : g_groups g0 !! i = None → g_groups g !! i = Some r → gr_status r = "suggested" }.
Lemma groups_kept_refl g : groups_ok (g_groups g) → groups_kept g g.
Proof. intros Hg. split; [done| | |]; [by eauto|done|congruence]. Qed.
(** Everything else. *)
Definition rest (g : GuideDb) :=
  (g_mail g, g_entries g, g_evidence g, (g_changes g, g_change_seq g), (g_versions g, g_version_seq g), (g_runs g, g_run_messages g),
   g_examples g, g_meta g, g_analysis g).

(** The rows stay in order, and what the group is not part of stays. *)
Lemma save_group_ok g r : groups_ok (g_groups g) → post g (save_group r) (λ g' _, groups_ok (g_groups g') ∧ rest g' = rest g).
Proof.
  intros Hg. unfold save_group. do 4 (tx_step; cbn beta). destruct (group_named (gr_name r) g) as [old|] eqn:E.
  - destruct (group_named_some _ _ _ Hg E) as [Hold Hn]. tx_steps. split; [|done]. cbn. set (id := gr_id old) in *.
    assert (∀ i x, update_row id (set_group r) (g_groups g) !! i = Some x → ∃ x', g_groups g !! i = Some x' ∧ gr_name x = gr_name x' ∧ gr_id x = gr_id x') as Hrow.
    { intros i x Hx. unfold update_row in Hx. apply lookup_alter_Some in Hx as [(-> & y & Hy & ->)|[_ Hx]]; by eexists. }
    split.
    + intros i x (x' & Hx' & _ & ->)%Hrow. by apply (go_id _ Hg).
    + intros i j x y (x' & Hx' & -> & _)%Hrow (y' & Hy' & -> & _)%Hrow. by apply (go_name _ Hg i j x' y').
  - tx_steps. split; [|done]. cbn. set (id := (last_id (g_groups g) + 1)%Z). split.
    + intros i x [[<- <-]|[_ Hx]]%lookup_insert_Some; [done|by apply (go_id _ Hg)].
    + intros i j x y [[<- <-]|[_ Hx]]%lookup_insert_Some [[<- <-]|[_ Hy]]%lookup_insert_Some; cbn; [done| | |by apply (go_name _ Hg)].
      * rewrite nocase_sym, (group_named_none _ _ _ _ E Hy). done.
      * rewrite (group_named_none _ _ _ _ E Hx). done.
Qed.
(** The members of the other groups. *)
Lemma other_members (id : Z) (f : string → string) (l : list string) (s : gset (Z * string)) i m :
  i ≠ id → (i, m) ∈ list_to_set ((λ m, (id, f m)) <$> l) ∪ base.filter (λ x, x.1 ≠ id) s ↔ (i, m) ∈ s.
Proof.
  intros Hi. rewrite elem_of_union, elem_of_list_to_set, list_elem_of_fmap, elem_of_filter.
  split; [intros [(? & [= -> _] & _)|[_ ?]]; done|]. intros Hin. by right.
Qed.
Lemma save_group_kept g0 g r :
  groups_kept g0 g → gr_status r = "suggested" →
  (∀ i s, g_groups g0 !! i = Some s → nocase_eqb (gr_name s) (gr_name r) = true → gr_status s = "suggested") →
  post g (save_group r) (λ g' _, groups_kept g0 g' ∧ rest g' = rest g).
Proof.
  intros Hk Hr Hs. eapply post_mono; [|apply post_conj; [apply (save_group_ok g r), Hk|]].
  { intros g' a [[Ho Hrest] Hk']. split; [|exact Hrest]. exact (Hk' Ho). }
  unfold save_group. do 4 (tx_step; cbn beta). destruct (group_named (gr_name r) g) as [old|] eqn:E.
  - destruct (group_named_some _ _ _ (gp_ok _ _ Hk) E) as [Hold Hn]. tx_steps. intros Ho. set (id := gr_id old) in *.
    assert (∀ s, g_groups g0 !! id = Some s → gr_status s = "suggested") as Hid.
    { intros s Hi. apply (Hs id s Hi). destruct (gp_old _ _ Hk id s Hi) as (r' & Hr' & <- & _). congruence. }
    split; cbn; [done|..].
    + intros i s Hi. unfold update_row. destruct (gp_old _ _ Hk i s Hi) as (r' & Hr' & Hn' & Hst). destruct (decide (i = id)) as [->|Hne].
      * rewrite lookup_alter_eq, Hr'. eexists. split; [done|]. rewrite Hold in Hr'. injection Hr' as <-. split; [done|]. cbn. rewrite Hr. symmetry. by apply Hid.
      * rewrite lookup_alter_ne by done. by eauto.
    + intros i s Hi Hst. assert (i ≠ id) as Hne by (intros ->; by apply Hst, Hid). destruct (gp_decided _ _ Hk i s Hi Hst) as [Hg Hm].
      unfold update_row. rewrite lookup_alter_ne by done. split; [done|]. intros m. rewrite <-Hm.
      by apply (other_members id (λ m, lower (trim m))).
    + intros i x Hi. unfold update_row. rewrite lookup_alter_Some. intros [(-> & y & Hy & ->)|[_ Hx]]; [done|by apply (gp_new _ _ Hk i)].
  - tx_steps. intros Ho. set (id := (last_id (g_groups g) + 1)%Z) in *. assert (g_groups g !! id = None) as Hfresh by (apply last_id_fresh; lia).
    split; cbn; [done|..].
    + intros i s Hi. destruct (gp_old _ _ Hk i s Hi) as (r' & Hr' & ?). exists r'. split; [|done]. rewrite lookup_insert_ne; [done|]. congruence.
    + intros i s Hi Hst. destruct (gp_decided _ _ Hk i s Hi Hst) as [Hg Hm]. assert (i ≠ id) as Hne by congruence.
      rewrite lookup_insert_ne by done. split; [done|]. intros m. rewrite <-Hm.
      by apply (other_members id (λ m, lower (trim m))).
    + intros i x Hi [[<- <-]|[_ Hx]]%lookup_insert_Some; [done|by apply (gp_new _ _ Hk i)].
Qed.
Lemma merge_audience_kept g0 g a :
  groups_ok (g_groups g0) → groups_kept g0 g → post g (GuideAnswers.merge_audience (groups g0) a) (λ g' _, groups_kept g0 g' ∧ rest g' = rest g).
Proof.
  intros H0 Hk. unfold GuideAnswers.merge_audience. destruct (List.find _ (groups g0)) as [x|] eqn:E.
  - apply List.find_some in E as [Hin Hn]. apply list_elem_of_In, elem_of_groups in Hin as (i & r & Hr & ->). cbn in Hn.
    destruct (negb _) eqn:Hst; [by tx_steps|]. cbn in Hst. apply negb_false_iff, String.eqb_eq in Hst. case_bool_decide; [by tx_steps|].
    tx_step. eapply post_mono; [|apply (save_group_kept g0)]; [intros; by tx_steps|done|done|]. cbn. intros j s Hj Hname.
    rewrite (go_name _ H0 j i s r Hj Hr Hname) in Hj. congruence.
  - tx_step. eapply post_mono; [|apply (save_group_kept g0)]; [intros; by tx_steps|done|done|]. cbn. intros j s Hj Hname. exfalso.
    assert (nocase_eqb (gr_name (with_members (members_of (gr_id s) g0) s)) (GuideAnswers.fa_name a) = false) as Hf; [|cbn in Hf; congruence].
    apply (List.find_none _ _ E). apply list_elem_of_In, elem_of_groups. by eauto.
Qed.
End groups.

(** ** Proposals *)

Section proposals.
Context `{CoreTextLaws}.

Definition backed (texts : gmap string string) (q : EvidenceRow) : Prop :=
  ∃ t, texts !! ev_message q = Some t ∧ contains (GuideAnswers.loose (ev_quote q)) t = true.
Definition proposal_ok (texts : gmap string string) (p : GuideAnswers.Proposal) : Prop :=
  guide_category (GuideAnswers.pp_category p) = true ∧ good_statement (GuideAnswers.pp_statement p) ∧ GuideAnswers.pp_evidence p ≠ [] ∧
  Forall (λ q, ev_contradicts q = false ∧ backed texts q) (GuideAnswers.pp_evidence p).
(** Not the facts about the user, which are not learned from mail. *)
Lemma learned_guide c : c ∈ CATEGORIES → ca_learned c = true → guide_category (ca_id c) = true.
Proof.
  intros Hc. assert (Forall (λ c, ca_learned c = true → guide_category (ca_id c) = true) CATEGORIES) as Hall.
  { repeat constructor; done. }
  rewrite Forall_forall in Hall. by apply Hall.
Qed.
Lemma quote_backed texts j q : GuideAnswers.quote_of texts j = Some q → ev_contradicts q = false ∧ backed texts q.
Proof.
  unfold GuideAnswers.quote_of. intros (m & _ & (x & _ & Hq)%bind_Some)%bind_Some. destruct (_ || _); [done|].
  apply bind_Some in Hq as (t & Ht & Hq). destruct (contains _ _) eqn:Hc; [|done]. injection Hq as <-. split; [done|]. by exists t.
Qed.
Lemma keep_quote_in l q x : x ∈ GuideAnswers.keep_quote l q → x ∈ l ∨ x = q.
Proof. unfold GuideAnswers.keep_quote. destruct (List.existsb _ _); [by left|]. by intros [?| ->%list_elem_of_singleton]%elem_of_app; [left|right]. Qed.
Lemma quotes_backed texts p : Forall (λ q, ev_contradicts q = false ∧ backed texts q) (GuideAnswers.quotes texts p).
Proof.
  unfold GuideAnswers.quotes. assert (∀ l acc, Forall (λ q, ev_contradicts q = false ∧ backed texts q) l →
    Forall (λ q, ev_contradicts q = false ∧ backed texts q) acc → Forall (λ q, ev_contradicts q = false ∧ backed texts q) (foldl GuideAnswers.keep_quote acc l)) as Hf.
  { intros l. induction l as [|q l IH]; intros acc Hl Hacc; [done|]. apply Forall_cons in Hl as [Hq Hl]. cbn. apply IH; [done|].
    apply Forall_forall. intros x [Hx| ->]%keep_quote_in; [|done]. rewrite Forall_forall in Hacc. by apply Hacc. }
  apply Hf; [|constructor]. apply Forall_forall. intros q (j & _ & Hj)%list_elem_of_omap. by apply (quote_backed texts j).
Qed.
Lemma proposal_of_ok texts known j p : GuideAnswers.proposal_of texts known j = Some p → proposal_ok texts p.
Proof.
  unfold GuideAnswers.proposal_of. intros (c & _ & (cat & Hcat & Hp)%bind_Some)%bind_Some. destruct (ca_learned cat) eqn:Hl; [|done]. cbn [negb] in Hp.
  destruct (String.eqb_spec (clean_text (default "" (text_at "statement" j))) "") as [|Hs]; [done|]. cbn [orb] in Hp.
  destruct (STATEMENT_CAP <? _) eqn:Hcap; [done|]. apply Nat.ltb_ge in Hcap. destruct (is_empty _) eqn:He; [done|]. injection Hp as <-.
  split; [|split; [|split]]; cbn [GuideAnswers.pp_category GuideAnswers.pp_statement GuideAnswers.pp_evidence].
  - apply learned_guide; [by apply (category_in c)|done].
  - split; [done|]. split; [done|]. by eexists.
  - by destruct (GuideAnswers.quotes texts j).
  - apply quotes_backed.
Qed.

(** What merging proposals makes of the entries; [X] is an entry that has
    no evidence yet. *)
Record entries_merged (run : Z) (texts : gmap string string) (g0 : GuideDb) (X : option Z) (g : GuideDb) : Prop := {
  em_ok : guide_ok g;
  em_old id e : g_entries g0 !! id = Some e → ∃ s c, g_entries g !! id = Some (with_counts s c e);
  em_new id e : g_entries g0 !! id = None → g_entries g !! id = Some e →
    er_status e = "proposed" ∧ er_source e = "learned" ∧ er_run_id e = Some run ∧
    (X = Some id ∨ ∃ m q, g_evidence g !! (id, m, q) = Some false);
  em_kept k c : g_evidence g0 !! k = Some c → g_evidence g !! k = Some c;
  em_quotes i m q c : g_evidence g !! (i, m, q) = Some c → g_evidence g0 !! (i, m, q) = Some c ∨ backed texts (mkEvidence m q c);
  em_groups : g_groups g = g_groups g0 ∧ g_members g = g_members g0;
  em_rest : (g_mail g, (g_changes g, g_change_seq g), (g_versions g, g_version_seq g), (g_runs g, g_run_messages g), g_examples g, g_analysis g) =
            (g_mail g0, (g_changes g0, g_change_seq g0), (g_versions g0, g_version_seq g0), (g_runs g0, g_run_messages g0), g_examples g0, g_analysis g0) }.
Lemma entries_merged_refl run texts g : guide_ok g → entries_merged run texts g None g.
Proof.
  intros Hg. split; [done| | | | | |]; try done.
  - intros id e He. exists (er_support e), (er_contradict e). rewrite He. by destruct e.
  - congruence.
  - by left.
Qed.
Lemma lookup_add_quotes id V l k c :
  foldl (add_quote_to id) V l !! k = Some c → V !! k = Some c ∨ ∃ q, q ∈ l ∧ (k, c) = quote_row id q.
Proof.
  rewrite add_quotes_union, lookup_union_Some_raw. intros [?|[_ Hk]]; [by left|right]. apply elem_of_list_to_map_2, list_elem_of_fmap in Hk as (q & E & Hq). by exists q.
Qed.
Lemma add_quotes_old id V l k c : V !! k = Some c → foldl (add_quote_to id) V l !! k = Some c.
Proof. intros Hk. rewrite add_quotes_union. by apply lookup_union_Some_l. Qed.
(** New quotes of an entry that had none. *)
Lemma add_quotes_first id V l :
  at_id id V = ∅ → l ≠ [] → Forall (λ q, ev_contradicts q = false) l → ∃ m q, foldl (add_quote_to id) V l !! (id, m, q) = Some false.
Proof.
  destruct l as [|q l]; [done|]. intros Hat _ [Hq _]%Forall_cons. exists (ev_message q), (ev_quote q). cbn. apply add_quotes_old.
  unfold add_quote_to. rewrite (at_id_empty id V) by done. rewrite lookup_insert_eq. by rewrite Hq.
Qed.
Lemma merged_evidence run texts g0 X g id l :
  entries_merged run texts g0 X g → Forall (backed texts) l → (X = Some id → l ≠ [] ∧ at_id id (g_evidence g) = ∅ ∧ Forall (λ q, ev_contradicts q = false) l) →
  (X = Some id ∨ X = None) → is_Some (g_entries g !! id) →
  post g (add_evidence id l) (λ g' _, entries_merged run texts g0 None g').
Proof.
  intros Hm Hl Hx HX Hs. pose proof (ok_add_evidence g id l (em_ok _ _ _ _ _ Hm)) as Hok. unfold post in *.
  rewrite add_evidence_tables in * by done. cbn zeta in *. set (V := foldl (add_quote_to id) (g_evidence g) l) in *.
  split; [done| | | | | |]; cbn.
  - intros i e He. destruct (em_old _ _ _ _ _ Hm i e He) as (s & c & Hi). unfold update_row. destruct (decide (i = id)) as [->|Hne].
    + rewrite lookup_alter_eq, Hi. by eexists _, _.
    + rewrite lookup_alter_ne by done. eauto.
  - intros i e Hn. unfold update_row. intros Hi. assert (∃ e', g_entries g !! i = Some e' ∧ er_status e = er_status e' ∧ er_source e = er_source e' ∧ er_run_id e = er_run_id e') as (e' & He' & -> & -> & ->).
    { apply lookup_alter_Some in Hi as [(-> & y & Hy & ->)|[_ Hi]]; by eexists. }
    destruct (em_new _ _ _ _ _ Hm i e' Hn He') as (? & ? & ? & Hev). split; [done|]. split; [done|]. split; [done|]. right.
    destruct Hev as [HXi|(m & q & Hq)]; [|exists m, q; by apply add_quotes_old].
    destruct HX as [HX|HX]; [|congruence]. rewrite HX in HXi. injection HXi as <-. destruct (Hx HX) as (Hl0 & Hat & Hf). by apply add_quotes_first.
  - intros k c Hk. by apply add_quotes_old, (em_kept _ _ _ _ _ Hm).
  - intros i m q c [Hk|(r & Hr & [= -> -> -> ->])]%lookup_add_quotes; [by apply (em_quotes _ _ _ _ _ Hm)|right].
    rewrite Forall_forall in Hl. specialize (Hl r Hr). by destruct r.
  - apply Hm.
  - apply Hm.
Qed.
Lemma merged_insert run texts g0 g p contra now :
  entries_merged run texts g0 None g → proposal_ok texts p →
  post g (GuideAnswers.insert p run contra now)
    (λ g' n, entries_merged run texts g0 (Some n) g' ∧ at_id n (g_evidence g') = ∅ ∧ is_Some (g_entries g' !! n)).
Proof.
  intros Hm (Hc & Hst & _). unfold GuideAnswers.insert. apply post_insert; [done|]. intros Hchecks. cbn zeta. set (n := (last_entry_id g + 1)%Z).
  destruct (fresh_id g (gk_store _ (em_ok _ _ _ _ _ Hm))) as (_ & Hn & Hat). fold n in Hn, Hat.
  assert (g_entries g0 !! n = None) as Hn0 by (destruct (g_entries g0 !! n) as [e|] eqn:E; [|done]; destruct (em_old _ _ _ _ _ Hm n e E) as (? & ? & ?); congruence).
  split; [|split; [done|cbn; rewrite lookup_insert_eq; by eexists]]. split.
  - apply ok_insert; [apply Hm|done| |done|done]. split; cbn; [done|apply kind_known|by eexists|by eexists|done|apply scope_readable|intros c; apply check_readable].
  - intros i e He. destruct (em_old _ _ _ _ _ Hm i e He) as (s & c & Hi). exists s, c. cbn. rewrite lookup_insert_ne; [done|]. congruence.
  - intros i e Hi0. cbn. intros [[<- <-]|[_ Hi]]%lookup_insert_Some.
    + cbn. repeat split. by left.
    + destruct (em_new _ _ _ _ _ Hm i e Hi0 Hi) as (? & ? & ? & [?|?]); [done|]. auto.
  - apply Hm.
  - apply Hm.
  - apply Hm.
  - apply Hm.
Qed.
Lemma merged_count run texts g0 g p target contra now :
  entries_merged run texts g0 None g → proposal_ok texts p → (∀ e, target = Some e → is_Some (g_entries g !! er_id e)) →
  post g (GuideAnswers.count_or_insert p run target contra now) (λ g' _, entries_merged run texts g0 None g').
Proof.
  intros Hm Hp Ht. unfold GuideAnswers.count_or_insert. pose proof Hp as (_ & _ & Hne & Hq). assert (Forall (backed texts) (GuideAnswers.pp_evidence p)) as Hb by (eapply Forall_impl; [done|]; by intros ? []).
  destruct target as [e|].
  - destruct (String.eqb _ _); [by tx_steps|]. tx_step. eapply post_mono; [|apply (merged_evidence run texts g0 None); [done|done|done|by right|by apply Ht]]. intros; by tx_steps.
  - tx_step. eapply post_mono; [|by apply merged_insert]. intros g1 n (Hm1 & Hat & Hs). cbn beta. tx_step.
    eapply post_mono; [|apply (merged_evidence run texts g0 (Some n)); [done|done| |by left|done]]; [intros; by tx_steps|]. intros _. split; [done|]. split; [done|].
    eapply Forall_impl; [exact Hq|]. by intros ? [].
Qed.
Lemma find_by_norm_some c s g e : find_by_norm c s g = Some e → guide_ok g → is_Some (g_entries g !! er_id e).
Proof.
  unfold find_by_norm. intros Hh Hg. assert (e ∈ merge_sort by_category (List.filter (λ e, String.eqb (er_category e) c && String.eqb (norm (er_statement e)) (norm s)) (rows (g_entries g)).*2)) as Hin.
  { destruct (merge_sort _ _); [done|]. injection Hh as <-. by left. }
  rewrite merge_sort_Permutation in Hin. apply list_elem_of_In, List.filter_In in Hin as [Hin _]. apply list_elem_of_In, list_elem_of_fmap in Hin as ([i x] & -> & Hx).
  apply elem_of_map_to_list in Hx. pose proof (so_at _ (gk_store _ Hg) i) as Hok. unfold ok_at in Hok. rewrite Hx in Hok. destruct Hok as (Hi & _). cbn. rewrite Hi, Hx. by eexists.
Qed.
Lemma entry_there g id e : guide_ok g → get_entry id g = Some e → is_Some (g_entries g !! er_id e).
Proof.
  unfold get_entry. intros Hg He. pose proof (so_at _ (gk_store _ Hg) id) as Hok. unfold ok_at in Hok. rewrite He in Hok. destruct Hok as (-> & _). by eexists.
Qed.
Lemma with_status_some keep o e : GuideAnswers.with_status keep o = Some e → o = Some e.
Proof. destruct o as [x|]; [|done]. cbn. by destruct (keep _). Qed.
Lemma merged_proposal run texts g0 g p new now :
  entries_merged run texts g0 None g → proposal_ok texts p →
  post g (GuideAnswers.merge_proposal run now new p) (λ g' _, entries_merged run texts g0 None g').
Proof.
  intros Hm Hp. unfold GuideAnswers.merge_proposal. do 2 (tx_step; cbn beta). destruct (GuideAnswers.with_status _ _) as [a|] eqn:E.
  - apply with_status_some, bind_Some in E as (id & _ & Ha). pose proof Hp as (_ & _ & _ & Hq).
    tx_step. eapply post_mono; [|apply (merged_evidence run texts g0 None); [done| |done|by right|by eapply entry_there; [apply Hm|]]].
    + intros g1 ? Hm1. cbn beta. destruct (String.eqb _ _); [by tx_steps|]. do 2 (tx_step; cbn beta). tx_step.
      eapply post_mono; [|apply (merged_count run texts g0); [done|done|]]; [intros; by tx_steps|]. intros e He. by eapply find_by_norm_some; [|apply Hm1].
    + apply Forall_forall. intros x (q & -> & Hin)%list_elem_of_fmap. rewrite Forall_forall in Hq. by destruct (Hq q Hin) as [_ ?].
  - do 2 (tx_step; cbn beta). tx_step. eapply post_mono; [|apply (merged_count run texts g0); [done|done|]]; [intros; by tx_steps|].
    intros e He. destruct (GuideAnswers.with_status _ (GuideAnswers.pp_supports p ≫= _)) as [x|] eqn:Ex; [|by eapply find_by_norm_some; [|apply Hm]].
    injection He as <-. apply with_status_some, bind_Some in Ex as (id & _ & Hx). eapply entry_there; [apply Hm|done].
Qed.

(** The whole answer: the groups, then the proposals. *)
Lemma merge_post run texts found now g0 :
  guide_ok g0 → groups_ok (g_groups g0) → Forall (proposal_ok texts) (GuideAnswers.fo_proposals found) →
  post g0 (GuideAnswers.merge run found now) (λ g _, ∃ ga, groups_kept g0 ga ∧ rest ga = rest g0 ∧ entries_merged run texts ga None g).
Proof.
  intros Hg0 Hg Hp. unfold GuideAnswers.merge. do 2 (tx_step; cbn beta). tx_step.
  eapply post_mono; [|apply (post_each (λ g, groups_kept g0 g ∧ rest g = rest g0))].
  - intros ga ? [Hk Hr]. cbn beta. assert (guide_ok ga) as Hga.
    { unfold rest in Hr. injection Hr as ? ? ? ? ? ? ? ? ? ? Hmeta ?. apply (guide_ok_same g0); try done. unfold noted_id, meta. by rewrite Hmeta. }
    eapply post_mono; [|apply (post_folding (λ g (_ : nat), entries_merged run texts ga None g)); [|by apply entries_merged_refl]].
    + intros g n Hm. by exists ga.
    + intros g n p Hm Hin. apply merged_proposal; [done|]. rewrite Forall_forall in Hp. by apply Hp.
  - intros g a [Hk Hr] _. eapply post_mono; [|by apply merge_audience_kept]. intros g' ? [Hk' Hr']. split; [done|]. congruence.
  - split; [by apply groups_kept_refl|done].
Qed.
Lemma parse_ok text batch known found :
  GuideAnswers.parse text batch known = Some found → Forall (proposal_ok (GuideAnswers.batch_texts batch)) (GuideAnswers.fo_proposals found).
Proof.
  unfold GuideAnswers.parse. intros (v & _ & [= <-])%bind_Some. cbn. apply Forall_forall. intros p (j & _ & Hj)%list_elem_of_omap. by eapply proposal_of_ok.
Qed.
Lemma batch_texts_in batch m t :
  GuideAnswers.batch_texts batch !! m = Some t → ∃ p, p ∈ batch ∧ pr_message_id p = m ∧ GuideAnswers.batch_text p = t.
Proof.
  unfold GuideAnswers.batch_texts. assert (∀ l (T : gmap string string), foldl (λ t m, <[pr_message_id m := GuideAnswers.batch_text m]> t) T l !! m = Some t →
    T !! m = Some t ∨ ∃ p, p ∈ l ∧ pr_message_id p = m ∧ GuideAnswers.batch_text p = t) as Hf.
  { intros l. induction l as [|p l IH]; intros T; cbn; [by left|]. intros [Ht|(x & ? & ?)]%IH; [|right; exists x; split; [by right|done]].
    apply lookup_insert_Some in Ht as [[<- <-]|[_ ?]]; [right; exists p; by split; [left|]|by left]. }
  intros [Ht|?]%Hf; [by rewrite lookup_empty in Ht|done].
Qed.
End proposals.
