(* ===== verification/GuideSteps.v ===== *)
(** * GuideSteps: the transactions the writing guide goes through

    Everything [kaluta-core]'s guide files commit to the guide's tables, as
    one step relation, and what each step keeps. *)

From S2P Require Import Prelude.
From S2P Require Import Text.
From S2P Require Import Json.
From S2P Require Import Guide.
From S2P Require Import Domain.
From S2P Require Import MailStore.
From S2P Require Import Agents.
From S2P Require Import Transactions.
From S2P Require Import ProposalStore.
From S2P Require Import GuideStore.
From S2P Require Import GuideEdits.
From S2P Require Import GuideLearn.
From S2P Require Import GuideRun.
From S2P Require Import GuideUndo.
From S2P Require Import GuideTyped.
From S2P Require Import Facade.
From S2P Require Import Effects.

Import GuideStore.
Import GuideTables.
Import GuideEdits.
Import GuideLearn.

Section steps.
Context `{CoreTextLaws}.

(** A transaction committed, or nothing where it failed. *)
Definition done_by {A} (t : Transactions.Tx GuideDb A) (g : GuideDb) : GuideDb := (commit t g).1.
Inductive guide_step (g : GuideDb) : GuideDb → Prop :=
| step_edits asked edits reason analysis now :
    mapM checked_edit asked = Ok edits → guide_step g (done_by (apply_checked edits reason analysis now) g)
| step_replay id undo now : guide_step g (done_by (replay id undo now) g)
| step_answer run batch known answer found now :
    GuideAnswers.parse answer batch known = Some found → guide_step g (done_by (GuideAnswers.merge run found now) g)
| step_save_group r : guide_step g (done_by (save_group r) g)
| step_rename_group id name : guide_step g (done_by (rename_group id name) g)
| step_delete_group id : guide_step g (done_by (delete_group id) g)
| step_fill_gaps : guide_step g (done_by fill_gaps g)
| step_example m t now : guide_step g (done_by (set_example m t now) g)
| step_start req ids now : guide_step g (done_by (GuideRun.start_run req ids now) g)
| step_finish run batch ms : guide_step g (done_by (finish_batch run batch ms) g)
| step_status run status error now : guide_step g (done_by (set_run_status run status error now) g)
| step_meta key v : key ≠ LAST_ENTRY_ID → guide_step g (done_by (set_meta key v) g)
| step_elsewhere mail analysis :   (** mail synced, proposals of Analysis *)
    guide_step g (mkGuideDb mail (g_entries g) (g_evidence g) (g_changes g) (g_change_seq g) (g_versions g) (g_version_seq g) (g_runs g)
                    (g_run_messages g) (g_groups g) (g_members g) (g_examples g) (g_meta g) analysis).

Definition in_order (g : GuideDb) : Prop := guide_ok g ∧ groups_ok (g_groups g).

Lemma done_post {A} (t : Transactions.Tx GuideDb A) g (I : GuideDb → Prop) : I g → post g t (λ g' _, I g') → I (done_by t g).
Proof. intros Hg Ht. by apply (post_commit g t I). Qed.
(** Transactions that leave the entries, or the groups, as they are. *)
Definition entry_tables (g : GuideDb) :=
  (g_entries g, g_evidence g, g_changes g, g_change_seq g, (g_versions g, g_meta g)).
Lemma guide_ok_tables g g' : entry_tables g' = entry_tables g → guide_ok g → guide_ok g'.
Proof. unfold entry_tables. intros [= ? ? ? ? ? Hm]. apply guide_ok_same; try done. unfold noted_id, meta. by rewrite Hm. Qed.
Lemma rest_tables g g' : rest g' = rest g → entry_tables g' = entry_tables g.
Proof. unfold rest, entry_tables. intros [=]. congruence. Qed.
Definition group_tables (g : GuideDb) := (g_groups g, g_members g).

Lemma entries_leave_groups {A} (t : Transactions.Tx GuideDb A) g :
  guide_ok g → groups_ok (g_groups g) → post g t (λ g' _, guide_ok g') → post g t (λ g' _, group_tables g' = group_tables g) →
  in_order (done_by t g).
Proof.
  intros Hg Hgr Hok Hgt. apply done_post; [done|]. eapply post_mono; [|apply post_conj; [exact Hok|exact Hgt]].
  intros g' a [? [= Eg _]]. split; [done|]. by rewrite Eg.
Qed.
Lemma groups_leave_entries {A} (t : Transactions.Tx GuideDb A) g :
  guide_ok g → groups_ok (g_groups g) → post g t (λ g' _, groups_ok (g_groups g') ∧ entry_tables g' = entry_tables g) → in_order (done_by t g).
Proof.
  intros Hg Hgr Ht. apply done_post; [done|]. eapply post_mono; [|exact Ht]. intros g' a [? ?]. split; [by eapply guide_ok_tables|done].
Qed.

(** ** Tables untouched *)

(** The groups, and the runs. *)
Definition other_tables (g : GuideDb) := ((g_groups g, g_members g), (g_runs g, g_run_messages g)).
Definition run_tables (g : GuideDb) := (g_runs g, g_run_messages g).
Lemma keeps_analysis {A} (t : Transactions.Tx Proposals.AnalysisDb A) : keeps other_tables (in_analysis t).
Proof. intros g. unfold post, in_analysis, within. by destruct (t (g_analysis g)) as [[]|]. Qed.
Lemma keeps_groups {A} (t : Transactions.Tx GuideDb A) : keeps other_tables t → keeps group_tables t.
Proof. intros Ht g. eapply post_mono; [|apply Ht]. by intros g' a [=]; unfold group_tables; congruence. Qed.
Lemma keeps_runs {A} (t : Transactions.Tx GuideDb A) : keeps other_tables t → keeps run_tables t.
Proof. intros Ht g. eapply post_mono; [|apply Ht]. by intros g' a [=]; unfold run_tables; congruence. Qed.
End steps.

#[export] Hint Resolve keeps_analysis : keeps.

Section kept.
Context `{CoreTextLaws}.
Lemma insert_entry_keeps e : keeps other_tables (insert_entry e).
Proof. unfold insert_entry. keeps. Qed.
Lemma write_entry_keeps e : keeps other_tables (write_entry e).
Proof. unfold write_entry. keeps. Qed.
Lemma delete_entry_keeps id : keeps other_tables (delete_entry id).
Proof. unfold delete_entry. keeps. Qed.
Lemma add_evidence_keeps id l : keeps other_tables (add_evidence id l).
Proof. unfold add_evidence, add_quote. keeps. Qed.
Lemma restore_keeps snaps ids : keeps other_tables (restore ids snaps).
Proof.
  unfold restore, restore_one. apply keeps_each. intros id. destruct (List.find _ snaps); keeps;
    auto using insert_entry_keeps, write_entry_keeps, delete_entry_keeps, add_evidence_keeps.
Qed.
Lemma record_version_keeps reason now : keeps other_tables (record_version reason now).
Proof. unfold record_version. keeps. Qed.
Lemma apply_edit_keeps now st e : keeps other_tables (apply_edit now st e).
Proof.
  destruct e; cbn [apply_edit]; repeat first [apply insert_entry_keeps|apply write_entry_keeps|apply delete_entry_keeps|progress unfold note_before|progress keeps].
Qed.
Lemma apply_checked_keeps edits reason step now : keeps other_tables (apply_checked edits reason step now).
Proof.
  unfold apply_checked, record_change_with, step_apply. repeat first [apply apply_edit_keeps|apply record_version_keeps|progress keeps].
Qed.
Lemma replay_keeps id undo now : keeps other_tables (replay id undo now).
Proof. unfold replay. repeat first [apply restore_keeps|apply record_version_keeps|progress keeps]. Qed.

(** ** Every step *)

Lemma rename_group_ok g id name : groups_ok (g_groups g) → post g (rename_group id name) (λ g' _, groups_ok (g_groups g') ∧ entry_tables g' = entry_tables g).
Proof.
  intros Hg. unfold rename_group. tx_step. unfold post, tx_where. destruct (_ || _) eqn:E; [|done]. cbn. split; [|done]. unfold update_row. split.
  - intros i x [(-> & y & Hy & ->)|[_ Hx]]%lookup_alter_Some; cbn; by apply (go_id _ Hg).
  - assert (∀ i x, alter (λ r, mkGroupRow (gr_id r) name (gr_status r) (gr_description r) (gr_position r) []) id (g_groups g) !! i = Some x →
              (i = id ∧ gr_name x = name ∧ is_Some (g_groups g !! id)) ∨ (i ≠ id ∧ g_groups g !! i = Some x)) as Hrow.
    { intros i x [(-> & y & Hy & ->)|[Hne Hx]]%lookup_alter_Some; [left|by right]. by rewrite Hy. }
    assert (∀ j y, is_Some (g_groups g !! id) → g_groups g !! j = Some y → j ≠ id → nocase_eqb (gr_name y) name = false) as Hother.
    { intros j y Hs Hy Hne. rewrite (bool_decide_true _ Hs) in E. cbn in E. destruct (group_named name g) as [r|] eqn:Er; [|by eapply group_named_none].
      apply Z.eqb_eq in E. destruct (group_named_some _ _ _ Hg Er) as [Hr Hn]. rewrite E in Hr. destruct (nocase_eqb (gr_name y) name) eqn:En; [|done].
      exfalso. apply Hne, (go_name _ Hg j id y r Hy Hr). rewrite (nocase_sym (gr_name r)) in Hn. by apply (nocase_trans _ name). }
    intros i j x y [(-> & Hx & Hs)|[Hi Hx]]%Hrow [(-> & Hy & Hs')|[Hj Hy]]%Hrow; [done| | |by apply (go_name _ Hg)]; intros Hn.
    + rewrite Hx, nocase_sym, (Hother j y) in Hn by done. done.
    + rewrite Hy, (Hother i x) in Hn by done. done.
Qed.
Lemma fill_gaps_ok g : groups_ok (g_groups g) → post g fill_gaps (λ g' _, groups_ok (g_groups g') ∧ entry_tables g' = entry_tables g).
Proof.
  intros Hg. unfold fill_gaps. do 2 (tx_step; cbn beta).
  apply (post_folding (λ g' (_ : nat), groups_ok (g_groups g') ∧ entry_tables g' = entry_tables g)); [|done].
  intros g' n gap [Hg' Ht] _. unfold fill_gap. destruct (_ <=? _); [done|]. destruct (List.existsb _ _); [done|]. tx_step.
  eapply post_mono; [|by apply save_group_ok]. intros g'' a [? Hr]. split; [done|]. by rewrite (rest_tables _ _ Hr).
Qed.
Lemma in_order_tables g g' : entry_tables g' = entry_tables g → group_tables g' = group_tables g → in_order g → in_order g'.
Proof. intros He [= Hgr _] [Hg Hgo]. split; [by eapply guide_ok_tables|by rewrite Hgr]. Qed.
Lemma run_messages_tables l id size g : let g' := foldl (λ g im, add_run_message id size im g) g l in
  entry_tables g' = entry_tables g ∧ group_tables g' = group_tables g.
Proof. revert g. induction l as [|x l IH]; intros g; [done|]. cbn. destruct (IH (add_run_message id size x g)) as [-> ->]. done. Qed.
Lemma start_run_tables req ids now g :
  post g (GuideRun.start_run req ids now) (λ g' _, entry_tables g' = entry_tables g ∧ group_tables g' = group_tables g).
Proof.
  unfold GuideRun.start_run. do 2 (tx_step; cbn beta). destruct (active_run g); [done|]. unfold create_run. tx_step. tx_step. tx_step. cbn beta. tx_step. tx_step. cbn beta.
  tx_steps. match goal with |- context [foldl ?f ?g1 ?l] => pose proof (run_messages_tables l (last_id (g_runs g) + 1) (BATCH_SIZE `max` 1) g1) as Hm end.
  cbn zeta in Hm. cbn in *. destruct Hm as [-> ->]. done.
Qed.
Lemma guide_step_keeps g g' : guide_step g g' → in_order g → in_order g'.
Proof.
  intros Hs [Hg Hgr]. destruct Hs.
  - apply entries_leave_groups; [done..|apply ok_apply_checked; [by eapply all_checked|done]|apply keeps_groups, apply_checked_keeps].
  - apply entries_leave_groups; [done..|by apply ok_replay|apply keeps_groups, replay_keeps].
  - apply done_post; [done|]. eapply post_mono; [|eapply merge_post; [done|done|by eapply parse_ok]].
    intros g' a (ga & Hk & _ & Hm). split; [apply Hm|]. destruct (em_groups _ _ _ _ _ Hm) as [-> _]. apply Hk.
  - apply groups_leave_entries; [done..|]. eapply post_mono; [|by apply save_group_ok]. intros g' a [? Hr]. split; [done|by apply rest_tables].
  - apply groups_leave_entries; [done..|by apply rename_group_ok].
  - apply groups_leave_entries; [done..|]. unfold delete_group. tx_steps. split; [|done]. cbn. split.
    + intros i r [_ Hr]%lookup_delete_Some. by apply (go_id _ Hgr).
    + intros i j r s [_ Hr]%lookup_delete_Some [_ Hs]%lookup_delete_Some. by apply (go_name _ Hgr).
  - apply groups_leave_entries; [done..|by apply fill_gaps_ok].
  - by apply (in_order_tables g).
  - apply done_post; [done|]. eapply post_mono; [|apply start_run_tables]. intros g' a [? ?]. by apply (in_order_tables g).
  - apply done_post; [done|]. unfold finish_batch. tx_step. destruct ms; tx_steps; by apply (in_order_tables g).
  - apply done_post; [done|]. unfold set_run_status. tx_steps. by apply (in_order_tables g).
  - apply done_post; [done|]. unfold set_meta. tx_steps. split; [|done]. apply (guide_ok_same g); try done. unfold noted_id, meta. cbn. by rewrite lookup_insert_ne.
  - by apply (in_order_tables g).
Qed.
End kept.

(** * A learning run's job comes to an end

    The job of [kaluta-core/src/guide_run.rs] alone with the store, whatever
    the agent, the bodies and the clock answer: every turn marks a batch
    analysed or ends the job. *)

Import GuideStore.
Import GuideTables.
Import GuideEdits.
Import GuideLearn.
Import GuideRun.

(** The store changes as the transactions say; the rest answers anything. *)
Definition run_takes (s : GuideDb) (o : RunOp) : run_answer o → GuideDb → Prop :=
  match o with OnDb o => db_does s o | _ => λ _ s', s' = s end.
Abbreviation job_post := (tswp run_takes (λ _ _, True)).

Section ends.
Context `{CoreText}.

(** ** Programs that leave the runs alone *)

Definition op_keeps (o : DbOp GuideDb) : Prop := match o with InTx t => keeps run_tables t | Now => True end.
Lemma commit_keeps {A} (t : Transactions.Tx GuideDb A) g : keeps run_tables t → run_tables (commit t g).1 = run_tables g.
Proof. intros Ht. apply (post_commit g t (λ g', run_tables g' = run_tables g)); [done|apply Ht]. Qed.
Lemma on_db_keeps {A} (p : Attempt (@db_answer GuideDb) CoreError A) s (Q : GuideDb → A → Prop) (X : GuideDb → Prop) :
  talways op_keeps p → (∀ s' a, run_tables s' = run_tables s → Q s' a) → (∀ s', run_tables s' = run_tables s → X s') → job_post s (on_db p) Q X.
Proof.
  unfold talways, tswp, on_db. cbn. intros Hp HQ HX.
  assert (∀ (q : Eff (@db_answer GuideDb) (result CoreError A)) s0, always op_keeps q → run_tables s0 = run_tables s →
    swp run_takes (λ _ _, True) s0 (on_db_eff q) (λ s' r, match r with Ok a => Q s' a | Err _ => X s' end)) as Hq; [|by apply Hq].
  intros q. induction q as [r|o k IH]; intros s0 Ha Es; cbn in *.
  - destruct r; [by apply HQ|by apply HX].
  - destruct Ha as [Ho Hk]. split; [done|]. intros a s' Hs. apply IH; [apply Hk|]. destruct o as [B t|]; cbn in *; [|by subst].
    pose proof (commit_keeps t s0 Ho) as Hc. rewrite Hs in Hc. cbn in Hc. congruence.
Qed.
Lemma on_db_tables {A} (p : Attempt (@db_answer GuideDb) CoreError A) s :
  talways op_keeps p → swp run_takes (λ _ _, True) s (run_try (on_db p)) (λ s' _, run_tables s' = run_tables s).
Proof.
  intros Hp. eapply swp_mono; [|apply (on_db_keeps p s (λ s' _, run_tables s' = run_tables s) (λ s', run_tables s' = run_tables s)); done].
  by intros s' [|].
Qed.
Lemma read_keeps {A} (f : GuideDb → A) : talways op_keeps (read f).
Proof. unfold read. apply talways_bind; [|intros ?; apply talways_ask]. split; [by intros g|done]. Qed.
Lemma write_keeps {A} (t : Transactions.Tx GuideDb A) : keeps run_tables t → talways op_keeps (write t).
Proof. intros Ht. unfold write. apply talways_bind; [|intros ?; apply talways_ask]. by split. Qed.
Lemma save_group_keeps r : keeps run_tables (save_group r).
Proof. unfold save_group. keeps. Qed.
Lemma merge_keeps run found now : keeps run_tables (GuideAnswers.merge run found now).
Proof.
  unfold GuideAnswers.merge, GuideAnswers.merge_audience, GuideAnswers.merge_proposal, GuideAnswers.count_or_insert, GuideAnswers.insert.
  repeat first [apply save_group_keeps|apply keeps_runs, insert_entry_keeps|apply keeps_runs, add_evidence_keeps|progress keeps].
Qed.
Lemma merge_answer_keeps run batch known answer : talways op_keeps (GuideAnswers.guide_merge_answer run batch known answer).
Proof.
  unfold GuideAnswers.guide_merge_answer. repeat always_step; [done|]. apply write_keeps, merge_keeps.
Qed.
Lemma batch_prompt_keeps bodies ids focus recheck : talways op_keeps (GuideAnswers.guide_batch_prompt bodies ids focus recheck).
Proof.
  unfold GuideAnswers.guide_batch_prompt, prepare_batch.
  repeat first [apply read_keeps|apply write_keeps; by intros g|always_step].
Qed.
Lemma end_writes_keep (now : Millis) : keeps run_tables (_ ← set_meta "last_run_at" (pretty now); _ ← fill_gaps; mret ()).
Proof. unfold fill_gaps, fill_gap. repeat first [apply save_group_keeps|progress keeps]. Qed.

(** ** One run among the others *)

Definition running (run : Z) (g : GuideDb) : Prop := ∃ r, g_runs g !! run = Some r ∧ ru_status r = "running".
Definition stopped (run : Z) (g : GuideDb) : Prop := ∃ r, g_runs g !! run = Some r ∧ ru_status r ≠ "running".
(** The other runs as they were. *)
Definition only (run : Z) (g0 g : GuideDb) : Prop :=
  is_Some (g_runs g !! run) ∧ ∀ i, i ≠ run → g_runs g !! i = g_runs g0 !! i.
Definition undone (run : Z) (g : GuideDb) : nat := size (base.filter (λ x, x.1.1 = run ∧ rm_done x.2 = false) (g_run_messages g)).
Lemma only_same run g0 g g' : run_tables g' = run_tables g → only run g0 g → only run g0 g'.
Proof. unfold only. by intros [= -> _]. Qed.
Lemma running_same run g g' : run_tables g' = run_tables g → running run g → running run g'.
Proof. unfold running. by intros [= -> _]. Qed.
Lemma undone_same run g g' : run_tables g' = run_tables g → undone run g' = undone run g.
Proof. unfold undone. by intros [= _ ->]. Qed.
Lemma only_running run g : running run g → only run g g.
Proof. intros (r & Hr & _). split; [by eexists|done]. Qed.

Lemma set_status_post run status error s0 s (Q : GuideDb → () → Prop) (X : GuideDb → Prop) :
  only run s0 s → status ∈ RUN_STATUSES → status ≠ "running" → (∀ s', only run s0 s' → stopped run s' → Q s' ()) →
  job_post s (set_status run status error) Q X.
Proof.
  intros [[r Hr] Ho] Hin Hne HQ. unfold set_status, tswp, on_db, write. cbn. split; [done|]. intros now s' ->. split; [done|]. intros a s'.
  unfold commit, set_run_status, mbind, tx_bind, tx_where, tx_do. cbn. rewrite (bool_decide_true _ Hin), orb_true_r. cbn. intros [= <- <-]. cbn. apply HQ.
  - split; cbn; unfold update_row.
    + rewrite lookup_alter_eq, Hr. by eexists.
    + intros i Hi. rewrite lookup_alter_ne by done. by apply Ho.
  - eexists. cbn. unfold update_row. rewrite lookup_alter_eq, Hr. by split.
Qed.

(** ** A batch finished *)

Lemma next_batch_undone run g b ids :
  next_batch run g = Some (b, ids) → ∃ m x, g_run_messages g !! (run, m) = Some x ∧ rm_batch x = b ∧ rm_done x = false.
Proof.
  unfold next_batch. intros (b' & Hb & [= -> _])%bind_Some.
  assert (b ∈ (λ x : string * RunMessage, rm_batch x.2) <$> List.filter (λ x, negb (rm_done x.2)) (messages_in run g)) as Hin.
  { destruct (_ <$> _) as [|y l]; [done|]. injection Hb as <-. apply foldr_min_elem. }
  apply list_elem_of_fmap in Hin as ([m x] & -> & Hx). apply list_elem_of_In, List.filter_In in Hx as [Hx Hd%negb_true_iff].
  apply list_elem_of_In in Hx. unfold messages_in in Hx. apply list_elem_of_fmap in Hx as ([[r m'] x'] & [= -> ->] & Hx).
  apply list_elem_of_In, List.filter_In in Hx as [Hx Hr%Z.eqb_eq]. apply list_elem_of_In, elem_of_map_to_list in Hx. cbn in *. subst. by exists m', x'.
Qed.
Definition marked (run b : Z) (m : gmap (Z * string) RunMessage) : gmap (Z * string) RunMessage := map_imap (λ k x, Some (mark_batch run b k x)) m.
Lemma lookup_marked run b m k : marked run b m !! k = mark_batch run b k <$> m !! k.
Proof. unfold marked. rewrite map_lookup_imap. by destruct (m !! k). Qed.
Lemma marked_fewer (run b : Z) (ms : gmap (Z * string) RunMessage) :
  (∃ m x, ms !! (run, m) = Some x ∧ rm_batch x = b ∧ rm_done x = false) →
  size (base.filter (λ x : Z * string * RunMessage, x.1.1 = run ∧ rm_done x.2 = false) (marked run b ms)) <
  size (base.filter (λ x : Z * string * RunMessage, x.1.1 = run ∧ rm_done x.2 = false) ms).
Proof.
  intros (m & x & Hx & Hb & Hd). rewrite <-!size_dom. apply subset_size. split.
  - intros k [y [Hy Hc]%map_lookup_filter_Some]%elem_of_dom. rewrite lookup_marked in Hy. apply elem_of_dom.
    destruct (ms !! k) as [z|] eqn:Ez; [|done]. injection Hy as <-. destruct Hc as [Hk Hz]. cbn in *. exists z. apply map_lookup_filter_Some.
    split; [done|]. split; [done|]. unfold mark_batch in Hz. by destruct (_ && _).
  - intros Hsub. assert ((run, m) ∈ dom (base.filter (λ x : Z * string * RunMessage, x.1.1 = run ∧ rm_done x.2 = false) ms)) as Hin.
    { apply elem_of_dom. exists x. by apply map_lookup_filter_Some. }
    apply Hsub, elem_of_dom in Hin as [y [Hy [_ Hn]]%map_lookup_filter_Some]. rewrite lookup_marked, Hx in Hy. injection Hy as <-.
    unfold mark_batch in Hn. cbn in Hn. by rewrite Z.eqb_refl, Hb, Z.eqb_refl in Hn.
Qed.
(** A batch finished: the run goes on, with less to do. *)
Lemma finish_post run b ms s0 s :
  only run s0 s → running run s → (∃ m x, g_run_messages s !! (run, m) = Some x ∧ rm_batch x = b ∧ rm_done x = false) →
  job_post s (on_db (write (finish_batch run b ms)))
    (λ s' _, only run s0 s' ∧ running run s' ∧ undone run s' < undone run s) (λ s', only run s0 s').
Proof.
  intros [Hs Ho] (r & Hr & Hrun) Hb. unfold tswp, on_db, write. cbn. split; [done|]. intros a s'.
  unfold commit, finish_batch, mbind, tx_bind, tx_do. cbn. intros E.
  assert (∃ r', g_runs s' !! run = Some r' ∧ ru_status r' = ru_status r ∧ (∀ i, i ≠ run → g_runs s' !! i = g_runs s !! i) ∧
                g_run_messages s' = marked run b (g_run_messages s) ∧ a = Ok ()) as (r' & Er & Est & Eo & Em & ->).
  { destruct ms; cbn in E; injection E as <- <-; cbn; unfold update_row; rewrite !lookup_alter_eq, Hr; eexists; (split; [done|]);
      (split; [done|]); (split; [|done]); intros i Hi; by rewrite !lookup_alter_ne by done. }
  cbn. split; [|split].
  - split; [rewrite Er; by eexists|]. intros i Hi. rewrite Eo by done. by apply Ho.
  - exists r'. split; [done|]. by rewrite Est.
  - unfold undone. rewrite Em. by apply marked_fewer.
Qed.

(** ** A turn *)

Section turn.
Context (run : Z) (s0 : GuideDb).
Abbreviation failing := (only run s0).

Lemma not_ready_post agent s (Q : GuideDb → option string → Prop) :
  (∀ why, Q s why) → failing s → job_post s (agent_not_ready agent) Q failing.
Proof.
  intros HQ Hx. unfold agent_not_ready. apply tswp_bind, tswp_ask; [|done]. intros id _. unfold asking. op_step; [done|].
  intros a s' ->. apply tswp_ask; [|done]. intros why _. apply HQ.
Qed.
Lemma ask_batch_post more agent prompt batch known s1 s :
  only run s0 s1 → running run s1 → run_tables s = run_tables s1 →
  job_post s (ask_batch more run agent prompt batch known)
    (λ s' (stop : bool), if stop then only run s0 s' ∧ stopped run s' else run_tables s' = run_tables s1) failing.
Proof.
  intros Ho Hr. revert s. induction more as [|more IH]; intros s Hs; cbn [ask_batch]; op_step; [done| |done|]; intros [answer|e] s' ->.
  1,3: apply tswp_bind, on_db_keeps; [apply read_keeps| |intros s2 E; by apply (only_same run s0 s1); [rewrite E|]].
  1,2: intros s2 now E; destruct (match now with Some r => _ | None => true end); [apply tswp_ret; congruence|].
  1,2: apply tswp_bind; unfold tried; apply tswp_lift; eapply swp_mono; [|apply on_db_tables, merge_answer_keeps].
  1: intros s3 [merged|e] E3; apply tswp_ret; congruence.
  1: intros s3 [merged|e] E3; [apply tswp_ret; congruence|apply IH; congruence].
  1: apply tswp_bind; apply (set_status_post run _ _ s0); [by eapply only_same|set_solver|done|]; intros s2 Ho2 Hst2; by apply tswp_ret.
  case_bool_decide; [by apply IH|].
  apply tswp_bind; apply (set_status_post run _ _ s0); [by eapply only_same|set_solver|done|]; intros s2 Ho2 Hst2; by apply tswp_ret.
Qed.
(** A turn ends the run, or finishes a batch of it. *)
Definition turned (s : GuideDb) (s' : GuideDb) (next : option Z) : Prop :=
  only run s0 s' ∧ match next with None => stopped run s' | Some r => r = run ∧ running run s' ∧ undone run s' < undone run s end.
Lemma work_post row b ids s :
  only run s0 s → running run s → (∃ m x, g_run_messages s !! (run, m) = Some x ∧ rm_batch x = b ∧ rm_done x = false) →
  job_post s (work run row b ids) (turned s) failing.
Proof.
  intros Ho Hr Hb. unfold work. apply tswp_bind, not_ready_post; [|done]. intros [why|].
  - apply tswp_bind, (set_status_post run _ _ s0); [done|set_solver|done|]. intros s2 Ho2 Hst2. by apply tswp_ret.
  - op_step; [done|]. intros bodies s1 ->. apply tswp_bind, on_db_keeps; [apply batch_prompt_keeps| |intros s2 E; by eapply only_same].
    intros s1 [[batch prompt] known] E1. apply tswp_bind. apply (tswp_mono _ _ _ _ (λ s' (stop : bool), if stop then only run s0 s' ∧ stopped run s' else run_tables s' = run_tables s)).
    + intros s2 [] Hs2; [by apply tswp_ret|]. apply tswp_bind. apply (tswp_mono _ _ _ _ (λ s' _, run_tables s' = run_tables s)).
      * intros s3 elapsed E3. apply tswp_bind. eapply tswp_mono; [|apply (finish_post run b elapsed s0); [by eapply only_same|by eapply running_same|]].
        -- intros s4 ? (? & ? & Hu). apply tswp_ret. split; [done|]. split; [done|]. split; [done|]. by rewrite (undone_same run s s3) in Hu.
        -- injection E3 as _ ->. done.
      * destruct (is_empty batch); [by apply tswp_ret|]. op_step; [done|]. intros ms s3 ->. by apply tswp_ret.
    + destruct (is_empty batch); [by apply tswp_ret|]. by apply (ask_batch_post 1 _ _ _ _ s).
Qed.
Lemma end_run_post s : only run s0 s → job_post s (end_run run) (λ s' _, only run s0 s' ∧ stopped run s') failing.
Proof.
  intros Ho. unfold end_run. apply tswp_bind, (set_status_post run _ _ s0); [done|set_solver|done|]. intros s1 Ho1 (r & Hr & Hst).
  apply tswp_bind, on_db_keeps; [by split| |intros s2 E; by eapply only_same]. intros s2 now E.
  apply on_db_keeps; [apply write_keeps, end_writes_keep| |intros s3 E3; eapply only_same; [by rewrite E3|done]].
  intros s3 ? E3. rewrite E in E3. split; [by eapply only_same|]. exists r. by injection E3 as -> _.
Qed.
Lemma turn_post s : only run s0 s → running run s → job_post s (turn run) (turned s) failing.
Proof.
  intros Ho Hr. unfold turn. apply tswp_bind. unfold tswp, on_db, read. cbn. split; [done|]. intros a s' Hc. unfold commit, tx_get in Hc. cbn in Hc.
  injection Hc as <- <-. cbn. pose proof Hr as (r & Hr' & Hst). unfold get_run. rewrite Hr'. unfold is_status. rewrite Hst. cbn.
  destruct (next_batch run s) as [[b ids]|] eqn:En.
  - apply work_post; [done..|]. by eapply next_batch_undone.
  - change (job_post s (_ ← end_run run; mret None) (turned s) failing). apply tswp_bind.
    eapply tswp_mono; [|by apply end_run_post]. intros s1 ? [? ?]. by apply tswp_ret.
Qed.
End turn.
Lemma run_job_post fuel run s0 s :
  only run s0 s → running run s → undone run s < fuel →
  job_post s (run_job fuel run) (λ s' ended, ended = true ∧ only run s0 s' ∧ stopped run s') (only run s0).
Proof.
  revert s. induction fuel as [|fuel IH]; intros s Ho Hr Hf; [lia|]. cbn [run_job]. apply tswp_bind.
  eapply tswp_mono; [|by apply turn_post]. intros s1 [r|] (Ho1 & Hn); [|by apply tswp_ret].
  destruct Hn as (-> & Hr1 & Hu). apply IH; [done..|lia].
Qed.
Lemma job_ended fuel run g :
  running run g → undone run g < fuel →
  job_post g (job fuel run) (λ g' ended, ended = true ∧ only run g g' ∧ stopped run g') (λ _, False).
Proof.
  intros Hr Hf. unfold job. apply tswp_bind, tswp_lift. eapply swp_mono; [|by apply (run_job_post fuel run g); [apply only_running|..]].
  intros g' [ended|e]; [by intros (-> & ? & ?); apply tswp_ret|]. intros Ho. apply tswp_bind, tswp_lift.
  eapply swp_mono; [|apply (set_status_post run "failed" (Some (ce_message e)) g g' (λ g2 _, only run g g2 ∧ stopped run g2) (λ g2, only run g g2 ∧ stopped run g2));
    [done|set_solver|done|done]].
  intros g2 [[]|] [? ?]; by apply tswp_ret.
Qed.
End ends.
