(* ===== verification/GuideDecided.v ===== *)
(** * GuideDecided: what makes deciding on the writing guide correct

    A text library that keeps its laws and a small guide, on which the
    theorems about the guide, which follow, are shown to say something. *)

From Stdlib Require Import Ascii.
From S2P Require Import Prelude.
From S2P Require Import Text.
From S2P Require Import Json.
From S2P Require Import Guide.
From S2P Require Import Domain.
From S2P Require Import MailStore.
From S2P Require Import Agents.
From S2P Require Import Transactions.
From S2P Require Import ProposalStore.
From S2P Require Import GuideStore.
From S2P Require Import GuideEdits.
From S2P Require Import GuideLearn.
From S2P Require Import GuideUndo.
From S2P Require Import GuideTyped.
From S2P Require Import GuideSteps.
From S2P Require Import Effects.
From S2P Require Import GuideRun.

Import GuideStore.
Import GuideTables.
Import GuideEdits.
Import GuideLearn.

(** ** JSON as text that reads back *)

Fixpoint json_tree (j : Json) : gen_tree string :=
  match j with
  | JNull => GenLeaf "null"
  | JBool b => GenNode (if b then 1 else 0) []
  | JNumber t => GenNode 2 [GenLeaf t]
  | JString s => GenNode 3 [GenLeaf s]
  | JArray l => GenNode 4 (json_tree <$> l)
  | JObject fields => GenNode 5 ((λ f, GenNode 6 [GenLeaf f.1; json_tree f.2]) <$> fields)
  end.
Fixpoint tree_json (t : gen_tree string) : Json :=
  match t with
  | GenLeaf _ => JNull
  | GenNode 0 _ => JBool false
  | GenNode 1 _ => JBool true
  | GenNode 2 [GenLeaf t] => JNumber t
  | GenNode 3 [GenLeaf s] => JString s
  | GenNode 4 l => JArray (tree_json <$> l)
  | GenNode 5 l => JObject ((λ t, match t with GenNode _ [GenLeaf n; v] => (n, tree_json v) | _ => ("", JNull) end) <$> l)
  | GenNode _ _ => JNull
  end.
Fixpoint tree_round (j : Json) : tree_json (json_tree j) = j.
Proof.
  destruct j as [|b|t|s|l|fields]; [reflexivity|by destruct b|reflexivity|reflexivity|cbn|cbn].
  - f_equal. induction l as [|x l IH]; [done|]. cbn. by rewrite tree_round, IH.
  - f_equal. induction fields as [|[n x] l IH]; [done|]. cbn. by rewrite tree_round, IH.
Qed.
Fixpoint bits (p : positive) : string :=
  match p with xH => "" | xO p => String "0" (bits p) | xI p => String "1" (bits p) end.
Fixpoint unbits (s : string) : positive :=
  match s with EmptyString => xH | String a s => if Ascii.eqb a "1" then xI (unbits s) else xO (unbits s) end.
Lemma bits_round p : unbits (bits p) = p.
Proof. induction p as [p IH|p IH|]; cbn; by rewrite ?IH. Qed.
Definition write_json (j : Json) : string := bits (encode (json_tree j)).
Definition read_json (s : string) : option Json := tree_json <$> decode (unbits s).
Lemma json_law j : read_json (write_json j) = Some j.
Proof. unfold read_json, write_json. rewrite bits_round, decode_encode. cbn. by rewrite tree_round. Qed.

(** What the agent says: a new habit, and a group. *)
Definition said_json : Json :=
  JObject [("proposals", JArray [JObject [
             ("category", JString "B1"); ("statement", JString "Greet with 'Hi Ann,'"); ("evidence", JArray [
               JObject [("message_id", JString "m2"); ("quote", JString "Hi Ann,")]])]]);
           ("audiences", JArray [JObject [("name", JString "customers"); ("members", JArray [JString "bob@acme.com"])]])].
#[export] Instance sample_text : CoreText := {|
  lower := ascii_lower; json_write := write_json; json_read := read_json; json_first := λ _, Some said_json |}.
#[export] Instance sample_laws : CoreTextLaws := {| json_round := json_law |}.

(** ** A guide with an accepted entry, a confirmed group and a run *)

Definition sign_off : GuideEntryFields := mkFields "B6" Rule "Sign off with 'John'" scope_default None.
Definition sample_entry : EntryRow :=
  to_row sign_off (mkEntryRow 1 "" "" "" "" "accepted" "you" None None 1 0 None None 0 0 (Some 0%Z)).
Definition sample_mail : Store := mkStore [] [] [] [] [] ∅ ∅ [] ∅ [] [] [].
Definition sample : GuideDb :=
  mkGuideDb sample_mail {[1%Z := sample_entry]} {[(1%Z, "m1", "Thanks, John") := false]} ∅ 0 ∅ 0
    {[1%Z := mkRun 1 "latest" None "running" 20 1 0 (Some "claude-code") None 0 None 0 0]} {[(1%Z, "m2") := mkRunMessage 0 0 false]}
    {[1%Z := mkGroupRow 1 "Customers" "confirmed" "" 0 []]} {[(1%Z, "@acme.com")]} ∅ {[LAST_ENTRY_ID := "1"]}
    (Proposals.mkAnalysis ∅ 0 ∅ ∅).

Lemma sample_in_order : in_order sample.
Proof.
  assert (typed sample_entry) as Ht.
  { apply to_row_typed; [|by vm_compute; eexists|by vm_compute; eexists]. split; [done|]. split; [done|]. split; [vm_compute; lia|]. exists "Sign off with 'John'". by vm_compute. }
  split; [split; [split|..]|split].
  - intros id. unfold ok_at. destruct (decide (id = 1%Z)) as [->|Hi].
    + change (g_entries sample !! 1%Z) with (Some sample_entry). split; [done|]. split; [done|]. split; [by vm_compute|].
      split; apply Z.leb_le; vm_compute; reflexivity.
    + change (g_entries sample) with ({[1%Z := sample_entry]} : gmap Z EntryRow). rewrite lookup_singleton_ne by done.
      apply map_eq. intros [[i m] q]. rewrite lookup_at, lookup_empty. case_bool_decide; [subst|done]. cbn. by apply lookup_singleton_ne; intros [=].
  - intros id [e He]. cbn in He. apply lookup_singleton_Some in He as [<- _]. apply Z.leb_le. vm_compute. reflexivity.
  - intros id [c Hc]. cbn in Hc. by rewrite lookup_empty in Hc.
  - intros id e He. cbn in He. by apply lookup_singleton_Some in He as [<- <-].
  - intros id c Hc. cbn in Hc. by rewrite lookup_empty in Hc.
  - intros id c Hc. cbn in Hc. by rewrite lookup_empty in Hc.
  - intros i r Hr. cbn in Hr. by apply lookup_singleton_Some in Hr as [<- <-].
  - intros i j r s Hr Hs. cbn in Hr, Hs. apply lookup_singleton_Some in Hr as [<- _]. by apply lookup_singleton_Some in Hs as [<- _].
Qed.
Definition sample_batch : list Prepared := [mkPrepared "m2" "new" "Hello" ["Ann <ann@x.com>"] [] "Hi Ann, see you Friday. Thanks, John" 7].

(** * What makes deciding on the writing guide correct *)

Import GuideStore.
Import GuideTables.
Import GuideEdits.
Import GuideLearn.
Import GuideRun.

Section changes.
Context `{CoreText}.

(** C9. A guide change is undone exactly and redone exactly: after any edits
    applied as one change to a store in order, undoing it does not fail and
    gives back every entry and every quote as they were before, deleted
    ones and their evidence included, and redoing it then gives what the
    change had made. *)
Theorem guide_change_undone (g0 g1 : GuideDb) (edits : list GuideEdit) (reason : string) (c : GuideChange) (now undo_at redo_at : Millis) :
  store_ok g0 → apply_checked edits reason None now g0 = Ok (g1, c) →
  ∃ g2, replay (gc_change_id c) true undo_at g1 = Ok (g2, ()) ∧ same_guide g2 g0 ∧
  ∃ g3, replay (gc_change_id c) false redo_at g2 = Ok (g3, ()) ∧ same_guide g3 g1.
Proof.
  intros H0 Hd. pose proof (post_ok _ _ _ _ _ (apply_checked_logged g0 edits reason now H0) Hd) as (ids & before & g & Ha & Hs & Hc).
  set (after := omap (λ id, snapshot id g) ids) in *.
  assert (∀ i, ok_at i g) as Hok by (intros i; apply (so_at _ (ap_ok _ _ _ Ha))).
  assert (∀ i, ok_at i g1) as Hok1 by (intros i; apply (ok_at_view i g); [by symmetry; apply view_same|done]).
  destruct (restore_moves before (ids_of before after) g0 g1) as (E & V & M & Hr & Ht); [apply H0|done| |by apply shot_before|].
  { intros i _. eapply kept_view; [by symmetry; apply view_same|]. by apply (ap_kept _ _ _ Ha). }
  destruct (replay_runs (gc_change_id c) true undo_at g1 _ E V M Hc eq_refl Hr) as (g2 & E2 & He2 & Hv2 & Hc2).
  assert (∀ i, view i g2 = view i g0) as Hg2.
  { intros i. unfold view at 1. rewrite He2, Hv2, Ht. case_bool_decide as Hi; [done|].
    rewrite (view_same i g1 g) by done. by apply (untouched g0 g ids before Ha H0). }
  exists g2. split; [done|]. split; [by apply same_views|].
  rewrite <-Hc2 in Hc.
  destruct (restore_moves after (ids_of before after) g g2) as (E' & V' & M' & Hr' & Ht');
    [done|intros i; apply (ok_at_view i g0); [symmetry; apply Hg2|apply H0]| |by apply (shot_after g0 g ids before)|].
  { intros i _. eapply kept_view; [symmetry; apply Hg2|]. apply kept_sym. by apply (ap_kept _ _ _ Ha). }
  destruct (replay_runs (gc_change_id c) false redo_at g2 _ E' V' M' Hc eq_refl Hr') as (g3 & E3 & He3 & Hv3 & _).
  exists g3. split; [done|]. apply same_views. intros i. unfold view at 1. rewrite He3, Hv3, Ht', (view_same i g1 g) by done.
  case_bool_decide as Hi; [done|]. rewrite Hg2. symmetry. by apply (untouched g0 g ids before Ha H0).
Qed.
End changes.

Section answers.
Context `{CoreTextLaws}.

(** C7. Whatever is done to the writing guide, what is stored is what the
    app can read: from a store in order, after any number of edits, undos,
    redos, agents' answers, group changes and learning-run steps, in any
    order, each entry is under its own id, of a category of the taxonomy
    that is not the facts', with a statement that is tidied and of the
    length allowed, and with a scope and a check that parse; its counts are
    at least the messages of its evidence, and evidence is of an entry
    there is; the change log and the versions keep only such entries. *)
Theorem guide_always_typed (g g' : GuideDb) :
  in_order g → rtc guide_step g g' →
  in_order g' ∧ ∀ id e, g_entries g' !! id = Some e → er_id e = id ∧ typed e ∧
    (counted false id g' ≤ er_support e)%Z ∧ (counted true id g' ≤ er_contradict e)%Z.
Proof.
  intros Hg Hs. assert (in_order g') as Hg' by (induction Hs as [|g1 g2 g3 Hst _ IH]; [done|by eapply IH, guide_step_keeps]). split; [done|].
  intros id e He. destruct Hg' as [Hok _]. pose proof (so_at _ (gk_store _ Hok) id) as Hat. unfold ok_at in Hat. rewrite He in Hat.
  destruct Hat as (? & _ & _ & ? & ?). split; [done|]. split; [by apply (gk_entries _ Hok id)|done].
Qed.

(** C8. Mail never decides: whatever the agent answers about a batch of
    sent mail, an entry that was there keeps its statement, scope, kind,
    check and status, only the counts of its evidence change; what is new
    is a proposal of the run, as learned; a group the user confirmed or
    rejected keeps its row and its members, and a new group is only
    suggested; versions, the change log, model examples, runs and Analysis
    are as they were. *)
Theorem answer_keeps_decisions (g g' : GuideDb) (run : Z) (batch : list Prepared) (known : list Z) (answer : string)
    (found : GuideAnswers.Found) (now : Millis) (n : nat) :
  in_order g → GuideAnswers.parse answer batch known = Some found → GuideAnswers.merge run found now g = Ok (g', n) →
  (∀ id e, g_entries g !! id = Some e → ∃ support contradict, g_entries g' !! id = Some (with_counts support contradict e)) ∧
  (∀ id e, g_entries g !! id = None → g_entries g' !! id = Some e →
     er_status e = "proposed" ∧ er_source e = "learned" ∧ er_run_id e = Some run) ∧
  (∀ i r, g_groups g !! i = Some r → gr_status r ≠ "suggested" →
     g_groups g' !! i = Some r ∧ ∀ m, (i, m) ∈ g_members g' ↔ (i, m) ∈ g_members g) ∧
  (∀ i r, g_groups g !! i = None → g_groups g' !! i = Some r → gr_status r = "suggested") ∧
  (g_versions g', g_changes g', g_examples g', g_runs g', g_analysis g') = (g_versions g, g_changes g, g_examples g, g_runs g, g_analysis g).
Proof.
  intros [Hg Hgr] Hp Hm. destruct (post_ok _ _ _ _ _ (merge_post run _ found now g Hg Hgr (parse_ok _ _ _ _ Hp)) Hm) as (ga & Hk & Hr & He).
  destruct He as [_ Hold Hnew _ _ [Eg Em] Erest]. unfold rest in Hr. injection Hr as Hmail Hent Hev Hch Hseq Hve Hvs Hru Hrm Hex Hme Han.
  injection Erest as ? ? ? ? ? ? ? ? ?. rewrite Hent in *. split; [done|]. split.
  { intros id e Hi Hi'. destruct (Hnew id e Hi Hi') as (?&?&?&_). done. }
  split; [|split; [|congruence]].
  - intros i r. rewrite Eg, Em. apply (gp_decided _ _ Hk).
  - intros i r. rewrite Eg. apply (gp_new _ _ Hk).
Qed.

(** C24. Nothing is learned without the user's own words: after any answer,
    every quote that was not there before is found, without regard to case
    and spacing, in the text of the message it cites, and that message is
    of the batch the agent was given; every quote there was is kept; and
    each new entry has a quote in its favour. *)
Theorem answer_is_quoted (g g' : GuideDb) (run : Z) (batch : list Prepared) (known : list Z) (answer : string)
    (found : GuideAnswers.Found) (now : Millis) (n : nat) :
  in_order g → GuideAnswers.parse answer batch known = Some found → GuideAnswers.merge run found now g = Ok (g', n) →
  (∀ i m q c, g_evidence g' !! (i, m, q) = Some c → g_evidence g !! (i, m, q) = Some c ∨
     ∃ p, p ∈ batch ∧ pr_message_id p = m ∧ contains (GuideAnswers.loose q) (GuideAnswers.batch_text p) = true) ∧
  (∀ k c, g_evidence g !! k = Some c → g_evidence g' !! k = Some c) ∧
  (∀ id e, g_entries g !! id = None → g_entries g' !! id = Some e → ∃ m q, g_evidence g' !! (id, m, q) = Some false).
Proof.
  intros [Hg Hgr] Hp Hm. destruct (post_ok _ _ _ _ _ (merge_post run _ found now g Hg Hgr (parse_ok _ _ _ _ Hp)) Hm) as (ga & Hk & Hr & He).
  destruct He as [_ _ Hnew Hkept Hq _ _]. unfold rest in Hr. injection Hr as Hmail Hent Hev Hch Hseq Hve Hvs Hru Hrm Hex Hme Han. rewrite Hent, Hev in *.
  split; [|split; [done|]].
  - intros i m q c Hi. destruct (Hq i m q c Hi) as [?|(t & Ht & Hc)]; [by left|right]. cbn in *.
    destruct (batch_texts_in batch m t Ht) as (p & ? & ? & <-). by exists p.
  - intros id e Hi Hi'. by destruct (Hnew id e Hi Hi') as (_ & _ & _ & [?|?]).
Qed.
End answers.

Section jobs.
Context `{CoreText}.

(** C26. A learning run comes to an end: the job spawned for a run that is
    going, alone with its store, ends after at most one turn more than the
    run has messages left, whatever the agent answers or fails with, each
    time it is asked, and whatever the bodies and the clock are; then the
    run is no longer marked as running, so it can be resumed or another
    started, and no other run has changed. *)
Theorem job_ends (g : GuideDb) (run : Z) (fuel : nat) :
  running run g → undone run g < fuel →
  swp run_takes (λ _ _, True) g (run_try (job fuel run)) (λ g' ended, ended = Ok true ∧ only run g g' ∧ stopped run g').
Proof.
  intros Hr Hf. eapply swp_mono; [|by apply (job_ended fuel run g)]. intros g' [ended|e]; [|done]. by intros (-> & ? & ?).
Qed.
End jobs.

(** ** The theorems at work on a small guide *)

Definition sample_edits : list GuideEdit := [Update 1 (mkFields "B6" Guideline "Sign off with 'J.'" scope_default None); Delete 1; Add sign_off Accepted You None].
Lemma guide_change_undone_witness :
  ∃ g1 c, apply_checked sample_edits "tidied" None 5 sample = Ok (g1, c) ∧ ¬ same_guide g1 sample ∧
  ∃ g2, replay (gc_change_id c) true 6 g1 = Ok (g2, ()) ∧ same_guide g2 sample ∧
  ∃ g3, replay (gc_change_id c) false 7 g2 = Ok (g3, ()) ∧ same_guide g3 g1.
Proof.
  destruct (apply_checked sample_edits "tidied" None 5 sample) as [[g1 c]|e] eqn:E; [|vm_compute in E; discriminate E].
  exists g1, c. split; [reflexivity|]. split.
  - intros [Es _]. apply (f_equal (.!! 1%Z)) in Es. revert Es. vm_compute in E. injection E as <- _. vm_compute. discriminate.
  - exact (guide_change_undone sample g1 sample_edits "tidied" c 5 6 7 (gk_store _ (proj1 sample_in_order)) E).
Defined.

Definition asked_edits : list GuideEdit := [Add (mkFields "b1" Rule "  Greet with  'Hi' " scope_default (Some (mkCheck MaxWords "80"))) Accepted You None].
Lemma guide_always_typed_witness :
  ∃ edits g', mapM checked_edit asked_edits = Ok edits ∧ g' = done_by (apply_checked edits "added" None 5) sample ∧
  is_Some (g_entries g' !! 2%Z) ∧ (in_order g' ∧ ∀ id e, g_entries g' !! id = Some e → er_id e = id ∧ typed e ∧
    (counted false id g' ≤ er_support e)%Z ∧ (counted true id g' ≤ er_contradict e)%Z).
Proof.
  destruct (mapM checked_edit asked_edits) as [edits|e] eqn:E; [|vm_compute in E; discriminate E].
  exists edits, (done_by (apply_checked edits "added" None 5) sample). split; [reflexivity|]. split; [reflexivity|]. split.
  - vm_compute in E. injection E as <-. vm_compute. eexists. reflexivity.
  - apply (guide_always_typed sample); [exact sample_in_order|]. apply rtc_once. exact (step_edits sample asked_edits edits "added" None 5 E).
Defined.

Lemma answer_keeps_decisions_witness :
  ∃ found g' n, GuideAnswers.parse "{}" sample_batch [1%Z] = Some found ∧ GuideAnswers.merge 1 found 5 sample = Ok (g', n) ∧ n = 1 ∧
  (∀ id e, g_entries sample !! id = Some e → ∃ support contradict, g_entries g' !! id = Some (with_counts support contradict e)) ∧
  (∀ id e, g_entries sample !! id = None → g_entries g' !! id = Some e →
     er_status e = "proposed" ∧ er_source e = "learned" ∧ er_run_id e = Some 1%Z) ∧
  (∀ i r, g_groups sample !! i = Some r → gr_status r ≠ "suggested" →
     g_groups g' !! i = Some r ∧ ∀ m, (i, m) ∈ g_members g' ↔ (i, m) ∈ g_members sample) ∧
  (∀ i r, g_groups sample !! i = None → g_groups g' !! i = Some r → gr_status r = "suggested") ∧
  (g_versions g', g_changes g', g_examples g', g_runs g', g_analysis g') =
    (g_versions sample, g_changes sample, g_examples sample, g_runs sample, g_analysis sample).
Proof.
  destruct (GuideAnswers.parse "{}" sample_batch [1%Z]) as [found|] eqn:E; [|vm_compute in E; discriminate E].
  destruct (GuideAnswers.merge 1 found 5 sample) as [[g' n]|e] eqn:Em; [|vm_compute in E; injection E as <-; vm_compute in Em; discriminate Em].
  exists found, g', n. split; [reflexivity|]. split; [exact Em|]. split.
  - clear -E Em. vm_compute in E. injection E as <-. vm_compute in Em. by injection Em.
  - exact (answer_keeps_decisions sample g' 1 sample_batch [1%Z] "{}" found 5 n sample_in_order E Em).
Defined.
Lemma answer_is_quoted_witness :
  ∃ found g' n, GuideAnswers.parse "{}" sample_batch [1%Z] = Some found ∧ GuideAnswers.merge 1 found 5 sample = Ok (g', n) ∧
  (∀ i m q c, g_evidence g' !! (i, m, q) = Some c → g_evidence sample !! (i, m, q) = Some c ∨
     ∃ p, p ∈ sample_batch ∧ pr_message_id p = m ∧ contains (GuideAnswers.loose q) (GuideAnswers.batch_text p) = true) ∧
  (∀ k c, g_evidence sample !! k = Some c → g_evidence g' !! k = Some c) ∧
  (∀ id e, g_entries sample !! id = None → g_entries g' !! id = Some e → ∃ m q, g_evidence g' !! (id, m, q) = Some false).
Proof.
  destruct (GuideAnswers.parse "{}" sample_batch [1%Z]) as [found|] eqn:E; [|vm_compute in E; discriminate E].
  destruct (GuideAnswers.merge 1 found 5 sample) as [[g' n]|e] eqn:Em; [|vm_compute in E; injection E as <-; vm_compute in Em; discriminate Em].
  exists found, g', n. split; [reflexivity|]. split; [exact Em|].
  exact (answer_is_quoted sample g' 1 sample_batch [1%Z] "{}" found 5 n sample_in_order E Em).
Defined.
Lemma job_ends_witness :
  running 1 sample ∧ undone 1 sample < 2 ∧
  swp run_takes (λ _ _, True) sample (run_try (job 2 1)) (λ g' ended, ended = Ok true ∧ only 1 sample g' ∧ stopped 1 g').
Proof.
  assert (running 1 sample) as Hr by (eexists; split; [reflexivity|reflexivity]).
  assert (undone 1 sample < 2) as Hu by (apply Nat.ltb_lt; vm_compute; reflexivity).
  split; [exact Hr|]. split; [exact Hu|]. exact (job_ends sample 1 2 Hr Hu).
Defined.
