(* ===== verification/FactStore.v ===== *)
(** * FactStore: the facts about the user ([mail-store/src/facts.rs])

    Facts with their evidence, the stored categories, and the log of
    changes for exact undo.  One schema serves an account's store and the
    store of the facts every account shares.  Snapshots are kept as values;
    their JSON text is left out. *)

From Stdlib Require Import Ascii.
From S2P Require Import Prelude.
From S2P Require Import Domain.
From S2P Require Import Text.
From S2P Require Import Json.
From S2P Require Import Guide.
From S2P Require Import MailStore.
From S2P Require Import Agents.
From S2P Require Import Transactions.
From S2P Require Import ProposalStore.
From S2P Require Import GuideStore.

(** What the standard library does with characters. *)
Class CharText := {
  alphanumeric : string → bool;          (** [char::is_alphanumeric] *)
  char_lower : string → string;          (** [char::to_lowercase] *)
  char_upper : string → string }.        (** [char::to_uppercase] *)

Module FactStore.

(** ** Rows *)

Record FactRow := mkFactRow {
  fr_id : Z; fr_category : string; fr_label : string; fr_value : string; fr_use : string; fr_as_of : option Millis;
  fr_source : string; fr_status : string; fr_created_at : Millis; fr_updated_at : Millis; fr_share : option bool }.
#[export] Instance fact_row_eq_dec : EqDecision FactRow.
Proof. solve_decision. Defined.
Definition no_fact : FactRow := mkFactRow 0 "" "" "" "" None "" "" 0 0 None.
Definition with_fr_id (id : Z) (f : FactRow) : FactRow :=
  mkFactRow id (fr_category f) (fr_label f) (fr_value f) (fr_use f) (fr_as_of f) (fr_source f) (fr_status f) (fr_created_at f)
    (fr_updated_at f) (fr_share f).
Definition with_fr_updated (now : Millis) (f : FactRow) : FactRow :=
  mkFactRow (fr_id f) (fr_category f) (fr_label f) (fr_value f) (fr_use f) (fr_as_of f) (fr_source f) (fr_status f) (fr_created_at f)
    now (fr_share f).
Definition with_fr_category (category : string) (f : FactRow) : FactRow :=
  mkFactRow (fr_id f) category (fr_label f) (fr_value f) (fr_use f) (fr_as_of f) (fr_source f) (fr_status f) (fr_created_at f)
    (fr_updated_at f) (fr_share f).
Definition with_fr_status (status : string) (f : FactRow) : FactRow :=
  mkFactRow (fr_id f) (fr_category f) (fr_label f) (fr_value f) (fr_use f) (fr_as_of f) (fr_source f) status (fr_created_at f)
    (fr_updated_at f) (fr_share f).
Definition with_fr_share (share : option bool) (f : FactRow) : FactRow :=
  mkFactRow (fr_id f) (fr_category f) (fr_label f) (fr_value f) (fr_use f) (fr_as_of f) (fr_source f) (fr_status f) (fr_created_at f)
    (fr_updated_at f) share.

Record CategoryRow := mkCategoryRow {
  cr_key : string; cr_name : string; cr_description : string; cr_position : Z; cr_builtin : bool; cr_hidden : bool;
  cr_default_use : string; cr_starter : option string; cr_created_at : Millis }.
#[export] Instance category_row_eq_dec : EqDecision CategoryRow.
Proof. solve_decision. Defined.
Definition with_cr_names (name description : string) (c : CategoryRow) : CategoryRow :=
  mkCategoryRow (cr_key c) name description (cr_position c) (cr_builtin c) (cr_hidden c) (cr_default_use c) (cr_starter c)
    (cr_created_at c).
Definition with_cr_hidden (hidden : bool) (c : CategoryRow) : CategoryRow :=
  mkCategoryRow (cr_key c) (cr_name c) (cr_description c) (cr_position c) (cr_builtin c) hidden (cr_default_use c) (cr_starter c)
    (cr_created_at c).
Definition with_cr_position (position : Z) (c : CategoryRow) : CategoryRow :=
  mkCategoryRow (cr_key c) (cr_name c) (cr_description c) position (cr_builtin c) (cr_hidden c) (cr_default_use c) (cr_starter c)
    (cr_created_at c).

Record FactEvidence := mkFactEvidence { fe_message : string; fe_quote : string }.
#[export] Instance fact_evidence_eq_dec : EqDecision FactEvidence.
Proof. solve_decision. Defined.
(** A fact with its evidence. *)
Abbreviation Evidenced := (FactRow * list FactEvidence)%type.
Record Snapshot := mkFactSnapshot {
  fs_facts : list Evidenced; fs_categories : list CategoryRow;
  fs_global_facts : list Evidenced; fs_global_categories : list CategoryRow;
  fs_proposals : list Proposals.ProposalSnapshot }.
Definition no_snapshot : Snapshot := mkFactSnapshot [] [] [] [] [].
Record ChangeRow := mkFactChangeRow { ch_reason : string; ch_before : Snapshot; ch_after : Snapshot; ch_created_at : Millis }.

(** The tables, with the last ids used and what Analysis keeps.  Evidence is
    keyed by fact and message, with when it was added. *)
Record FactDb := mkFactDb {
  fd_facts : gmap Z FactRow; fd_seq : Z;
  fd_evidence : gmap (Z * string) (string * Millis);
  fd_categories : gmap string CategoryRow;
  fd_changes : gmap Z ChangeRow; fd_change_seq : Z;
  fd_analysis : Proposals.AnalysisDb }.
Definition with_facts (facts : gmap Z FactRow) (seq : Z) (d : FactDb) : FactDb :=
  mkFactDb facts seq (fd_evidence d) (fd_categories d) (fd_changes d) (fd_change_seq d) (fd_analysis d).
Definition on_evidence (f : gmap (Z * string) (string * Millis) → gmap (Z * string) (string * Millis)) (d : FactDb) : FactDb :=
  mkFactDb (fd_facts d) (fd_seq d) (f (fd_evidence d)) (fd_categories d) (fd_changes d) (fd_change_seq d) (fd_analysis d).
Definition on_categories (f : gmap string CategoryRow → gmap string CategoryRow) (d : FactDb) : FactDb :=
  mkFactDb (fd_facts d) (fd_seq d) (fd_evidence d) (f (fd_categories d)) (fd_changes d) (fd_change_seq d) (fd_analysis d).
Definition with_changes (changes : gmap Z ChangeRow) (seq : Z) (d : FactDb) : FactDb :=
  mkFactDb (fd_facts d) (fd_seq d) (fd_evidence d) (fd_categories d) changes seq (fd_analysis d).
Definition with_analysis (a : Proposals.AnalysisDb) (d : FactDb) : FactDb :=
  mkFactDb (fd_facts d) (fd_seq d) (fd_evidence d) (fd_categories d) (fd_changes d) (fd_change_seq d) a.

Abbreviation Tx := (Tx FactDb).
Definition in_analysis {A} (t : Transactions.Tx Proposals.AnalysisDb A) : Tx A := within fd_analysis with_analysis t.

(** ** Reading *)

(** [ORDER BY category, label COLLATE NOCASE, id] *)
Definition fact_le (a b : FactRow) : Prop :=
  match String.compare (fr_category a) (fr_category b) with
  | Lt => True | Gt => False
  | Eq => match String.compare (ascii_lower (fr_label a)) (ascii_lower (fr_label b)) with
          | Lt => True | Gt => False | Eq => (fr_id a ≤ fr_id b)%Z end
  end.
#[export] Instance fact_le_dec a b : Decision (fact_le a b).
Proof. unfold fact_le. repeat case_match; apply _. Defined.
(** [ORDER BY position, created_at, key] *)
Definition category_le (a b : CategoryRow) : Prop :=
  (cr_position a < cr_position b)%Z ∨ cr_position a = cr_position b ∧
  ((cr_created_at a < cr_created_at b)%Z ∨ cr_created_at a = cr_created_at b ∧ key_leb (cr_key a) (cr_key b) = true).
#[export] Instance category_le_dec a b : Decision (category_le a b).
Proof. unfold category_le. apply _. Defined.
(** [ORDER BY added_at, message_id] *)
Definition added_le (a b : FactEvidence * Millis) : Prop :=
  (a.2 < b.2)%Z ∨ a.2 = b.2 ∧ key_leb (fe_message a.1) (fe_message b.1) = true.
#[export] Instance added_le_dec a b : Decision (added_le a b).
Proof. unfold added_le. apply _. Defined.

Definition listed (statuses : list string) (d : FactDb) : list FactRow :=
  List.filter (λ f, bool_decide (fr_status f ∈ statuses)) (merge_sort fact_le (rows (fd_facts d)).*2).
Definition get (id : Z) (d : FactDb) : option FactRow := fd_facts d !! id.
Definition quotes_of (id : Z) (m : gmap (Z * string) (string * Millis)) : list (FactEvidence * Millis) :=
  (λ x, (mkFactEvidence x.1.2 x.2.1, x.2.2)) <$> List.filter (λ x, (x.1.1 =? id)%Z) (map_to_list m).
Definition evidence (id : Z) (d : FactDb) : list FactEvidence := (merge_sort added_le (quotes_of id (fd_evidence d))).*1.
Definition categories (d : FactDb) : list CategoryRow := merge_sort category_le (map_to_list (fd_categories d)).*2.
Definition get_category (key : string) (d : FactDb) : option CategoryRow := fd_categories d !! key.

(** ** Writing *)

(** The [CHECK] constraints of the tables. *)
Definition USES : list string := ["free"; "ask"; "never"].
Definition SOURCES : list string := ["you"; "learned"; "writing_help"].
Definition STATUSES : list string := ["proposed"; "accepted"; "rejected"].
Definition fact_checks (f : FactRow) : bool :=
  bool_decide (fr_use f ∈ USES) && bool_decide (fr_source f ∈ SOURCES) && bool_decide (fr_status f ∈ STATUSES).
Definition CHECK_FAILED : StoreError := Sqlite "CHECK constraint failed".
Definition UNIQUE_FAILED : StoreError := Sqlite "UNIQUE constraint failed".
(** A new id, never used before, when the row's is 0. *)
Definition insert (f : FactRow) : Tx Z :=
  last ← tx_get (λ d, Z.max (fd_seq d) (last_id (fd_facts d)));
  let id := if (fr_id f =? 0)%Z then (last + 1)%Z else fr_id f in
  _ ← tx_check (fact_checks f) CHECK_FAILED;
  _ ← tx_where (λ d, bool_decide (fd_facts d !! id = None)) UNIQUE_FAILED;
  _ ← tx_do (λ d, with_facts (<[id := with_fr_id id f]> (fd_facts d)) (Z.max last id) d);
  mret id.
Definition insert_at_v17 (f : FactRow) : Tx Z := insert (with_fr_share None (with_fr_id 0 f)).
(** Whether it was there. *)
Definition write (f : FactRow) : Tx bool :=
  there ← tx_get (λ d, bool_decide (is_Some (get (fr_id f) d)));
  if (there : bool) then
    _ ← tx_check (fact_checks f) CHECK_FAILED;
    _ ← tx_do (λ d, with_facts (<[fr_id f := f]> (fd_facts d)) (fd_seq d) d);
    mret true
  else mret false.
(** Its evidence goes with it. *)
Definition without_quotes (id : Z) (m : gmap (Z * string) (string * Millis)) : gmap (Z * string) (string * Millis) :=
  base.filter (λ x, x.1.1 ≠ id) m.
Definition delete_row (id : Z) (d : FactDb) : FactDb :=
  on_evidence (without_quotes id) (with_facts (base.delete id (fd_facts d)) (fd_seq d) d).
Definition delete (id : Z) : Tx () := tx_do (delete_row id).

(** [INSERT OR IGNORE]: one quote of a message is kept; of a fact that is
    not there it is refused. *)
Definition add_quote (id : Z) (now : Millis) (q : FactEvidence) : Tx () :=
  _ ← tx_where (λ d, bool_decide (is_Some (get id d))) FOREIGN_KEY;
  tx_do (on_evidence (λ m, match m !! (id, fe_message q) with
                           | Some _ => m
                           | None => <[(id, fe_message q) := (fe_quote q, now)]> m end)).
Definition add_evidence (id : Z) (quotes : list FactEvidence) (now : Millis) : Tx () := each (add_quote id now) quotes.

Definition put_category (c : CategoryRow) : Tx () :=
  _ ← tx_check (bool_decide (cr_default_use c ∈ USES)) CHECK_FAILED;
  tx_do (on_categories (<[cr_key c := c]>)).
Definition delete_category (key : string) : Tx () := tx_do (on_categories (base.delete key)).

(** ** Undo *)

Definition evidenced (d : FactDb) (f : FactRow) : Evidenced := (f, evidence (fr_id f) d).
Definition snapshot (fact_ids : list Z) (keys : list string) (d : FactDb) : Snapshot :=
  mkFactSnapshot (evidenced d <$> omap (λ id, get id d) fact_ids) (omap (λ k, get_category k d) keys) [] [] [].
Definition find_fact (id : Z) (l : list Evidenced) : option Evidenced := List.find (λ x, (fr_id x.1 =? id)%Z) l.
Definition find_category (key : string) (l : list CategoryRow) : option CategoryRow :=
  List.find (λ c, String.eqb (cr_key c) key) l.
Definition restore_fact (to : list Evidenced) (now : Millis) (id : Z) : Tx () :=
  match find_fact id to with
  | Some (f, quotes) =>
      written ← write f;
      _ ← (if (written : bool) then mret 0%Z else insert f);
      _ ← tx_do (on_evidence (without_quotes id));
      add_evidence id quotes now
  | None => delete id
  end.
Definition restore_category (to : list CategoryRow) (key : string) : Tx () :=
  match find_category key to with
  | Some c => put_category c
  | None => delete_category key
  end.
Definition restore (fact_ids : list Z) (keys : list string) (to : Snapshot) (now : Millis) : Tx () :=
  _ ← each (restore_fact (fs_facts to) now) fact_ids;
  _ ← each (restore_category (fs_categories to)) keys;
  in_analysis (Proposals.restore_proposals (fs_proposals to) now).

(** The last 200 changes are kept. *)
Definition KEPT_CHANGES : Z := 200.
Definition record_change (reason : string) (before after : Snapshot) (now : Millis) : Tx Z :=
  tx_new (λ d,
    let id := (fd_change_seq d + 1)%Z in
    let changes := <[id := mkFactChangeRow reason before after now]> (fd_changes d) in
    (with_changes (base.filter (λ x, id - KEPT_CHANGES < x.1)%Z changes) id d, id)).
Definition get_change (id : Z) (d : FactDb) : option (string * Snapshot * Snapshot) :=
  (λ c, (ch_reason c, ch_before c, ch_after c)) <$> fd_changes d !! id.

(** ** The guide's facts, moved here once *)

(** The text before the first colon that white space follows, and the rest. *)
Fixpoint split_label (s : string) : option (string * string) :=
  match s with
  | EmptyString => None
  | String a r =>
      if Ascii.eqb a ":" && List.existsb (λ w, starts_with w r) white_space then Some ("", r)
      else '(label, value) ← split_label r; Some (String a label, value)
  end.
Definition label_and_value (statement : string) : string * string :=
  match split_label statement with
  | Some (label, value) =>
      if negb (String.eqb (trim value) "") && (String.length label <=? 60) then (trim label, trim value)
      else ("Note", trim statement)
  | None => ("Note", trim statement)
  end.

Section move.
Context `{CoreText, CharText}.

Definition capitalised (s : string) : string :=
  match chars s with c :: cs => char_upper c +:+ String.concat "" cs | [] => "Note" end.
(** Where a fact the interview wrote belongs: its category, label and
    value. *)
Definition place (statement : string) : string * string * string :=
  let '(label, value) := label_and_value statement in
  let bare := trim (match strip_prefix "My " label with
                    | Some s => s
                    | None => match strip_prefix "my " label with Some s => s | None => label end
                    end) in
  let l := lower bare in
  if starts_with "role" l || String.eqb l "title" || starts_with "job" l then ("work", "Occupation or role", value)
  else if contains "calendar" l then ("availability", "Calendar link", value)
  else if contains "time zone" l || String.eqb l "timezone" then ("availability", "Time zone", value)
  else if contains "working hours" l || contains "usual hours" l then ("availability", "Usual hours", value)
  else if contains "phone" l then ("contact", "Phone", value)
  else if contains "pronoun" l then ("identity", "Pronouns", value)
  else ("other", capitalised bare, value).

(** [while !used.insert(..) { n += 1; label = .. }] *)
Fixpoint free_label (fuel : nat) (used : gset (string * string)) (category base label : string) (n : nat) : string :=
  match fuel with
  | O => label
  | S fuel =>
      if bool_decide ((category, lower label) ∈ used)
      then free_label fuel used category base (base +:+ " " +:+ pretty (S n)) (S n) else label
  end.
Definition placed_fact (e : GuideStore.EntryRow) (category label value : string) : FactRow :=
  mkFactRow 0 category label value (if String.eqb category "people" then "ask" else "free") None
    (if String.eqb (GuideStore.er_source e) "learned" then "learned" else "you") (GuideStore.er_status e)
    (GuideStore.er_created_at e) (GuideStore.er_updated_at e) None.
Abbreviation Both := (Transactions.Tx (GuideStore.GuideDb * FactDb)).
Definition in_guide {A} (t : Transactions.Tx GuideStore.GuideDb A) : Both A := within fst (λ g s, (g, s.2)) t.
Definition in_facts {A} (t : Tx A) : Both A := within snd (λ d s, (s.1, d)) t.
Definition move_one (now : Millis) (used : gset (string * string)) (e : GuideStore.EntryRow) : Both (gset (string * string)) :=
  let '(category, base, value) := place (GuideStore.er_statement e) in
  let accepted := String.eqb (GuideStore.er_status e) "accepted" in
  let label := if accepted then free_label (S (size used)) used category base base 1 else base in
  id ← in_facts (insert_at_v17 (placed_fact e category label value));
  quotes ← tx_get (λ s, GuideStore.evidence (GuideStore.er_id e) s.1);
  _ ← in_facts (add_evidence id
         ((λ q, mkFactEvidence (GuideStore.ev_message q) (GuideStore.ev_quote q)) <$>
            List.filter (λ q, negb (GuideStore.ev_contradicts q)) quotes) now);
  _ ← in_guide (GuideStore.delete_entry (GuideStore.er_id e));
  mret (if accepted then {[(category, lower label)]} ∪ used else used).
(** The guide's entries of "Facts about me", in the order of their ids. *)
Definition by_er_id (a b : GuideStore.EntryRow) : Prop := (GuideStore.er_id a ≤ GuideStore.er_id b)%Z.
#[export] Instance by_er_id_dec a b : Decision (by_er_id a b).
Proof. unfold by_er_id. apply _. Defined.
Definition about_me (g : GuideStore.GuideDb) : list GuideStore.EntryRow :=
  merge_sort by_er_id (List.filter (λ e, String.eqb (GuideStore.er_category e) "F3") (rows (GuideStore.g_entries g)).*2).
Definition move_guide_facts (now : Millis) : Both nat :=
  rows ← tx_get (λ s, about_me s.1);
  if is_empty rows then mret 0 else
  _ ← folding (move_one now) ∅ rows;
  _ ← (if List.existsb (λ e, String.eqb (GuideStore.er_status e) "accepted") rows
       then in_guide (GuideStore.record_version "facts moved to Facts" now) else mret 0%Z);
  mret (length rows).
End move.
End FactStore.
