(* ===== verification/FactEdits.v ===== *)
(** * FactEdits: changing the facts about the user ([kaluta-core/src/facts.rs])

    The categories, edits of facts and categories applied as one change and
    replayed, facts moved between an account's store and the one every
    account shares, and what drafting is told.  Telling the app that facts
    changed is left out; what the publisher then does is [RulesWorker]. *)

From S2P Require Import Prelude.
From S2P Require Import Domain.
From S2P Require Import Text.
From S2P Require Import Json.
From S2P Require Import MailStore.
From S2P Require Import Agents.
From S2P Require Import Facade.
From S2P Require Import Guide.
From S2P Require Import Effects.
From S2P Require Import Transactions.
From S2P Require Import ProposalStore.
From S2P Require Import GuideStore.
From S2P Require Import FactStore.

Import FactStore.

Module FactEdits.

(** ** The data *)

Inductive FactSource := You | Learned | WritingHelp.
#[export] Instance fact_source_eq_dec : EqDecision FactSource.
Proof. solve_decision. Defined.
Definition use_text (u : FactUse) : string := match u with Free => "free" | Ask => "ask" | Never => "never" end.
Definition parse_use (s : string) : FactUse :=
  if String.eqb s "ask" then Ask else if String.eqb s "never" then Never else Free.
Definition source_text (s : FactSource) : string :=
  match s with You => "you" | Learned => "learned" | WritingHelp => "writing_help" end.
Definition parse_source (s : string) : FactSource :=
  if String.eqb s "learned" then Learned else if String.eqb s "writing_help" then WritingHelp else You.
Definition status_text (s : FactStatus) : string :=
  match s with FactProposed => "proposed" | FactAccepted => "accepted" | FactRejected => "rejected" end.
Definition parse_status (s : string) : FactStatus :=
  if String.eqb s "proposed" then FactProposed else if String.eqb s "rejected" then FactRejected else FactAccepted.

Record FactInfo := mkInfo {
  fn_id : Z; fn_category : string; fn_label : string; fn_value : string; fn_use : FactUse; fn_as_of : option Millis;
  fn_source : FactSource; fn_status : FactStatus; fn_evidence : list FactEvidence; fn_created_at : Millis;
  fn_updated_at : Millis; fn_scope : FactScope; fn_overridden : bool; fn_stale : bool; fn_share_with_cloud : bool }.
Definition STALE_AFTER_MS : Z := 180 * 24 * 60 * 60 * 1000.
Record FactFields := mkFactFields {
  ff_category : string; ff_label : string; ff_value : string; ff_use : FactUse; ff_as_of : option Millis }.
Inductive FactEdit :=
| Add (fields : FactFields) (status : FactStatus) (source : FactSource)
| Update (id : Z) (fields : FactFields)
| Decide (id : Z) (status : FactStatus)
| Delete (id : Z)
| Share (id : Z) (share : bool).
Inductive CategoryEdit :=
| AddCategory (name description : string)
| UpdateCategory (key name description : string)
| HideCategory (key : string) (hidden : bool)
| ReorderCategories (keys : list string)
| DeleteCategory (key : string).
Record FactCategoryInfo := mkFactCategoryInfo {
  fg_key : string; fg_name : string; fg_description : string; fg_builtin : bool; fg_hidden : bool; fg_default_use : FactUse;
  fg_suggested_labels : list string; fg_starter : option string; fg_global : bool }.
Record FactChange := mkFactChange { fh_change_id : Z; fh_facts : list FactInfo; fh_categories : list string }.
Inductive StarterSet := Business | Freelance | Household | JobSearch.
#[export] Instance starter_set_eq_dec : EqDecision StarterSet.
Proof. solve_decision. Defined.
Record StarterSetInfo := mkStarterSetInfo { ss_set : StarterSet; ss_name : string; ss_categories : list string }.

Record Builtin := mkBuiltin { bu_key : string; bu_name : string; bu_description : string; bu_labels : list string; bu_default_use : FactUse }.
Definition BUILTINS : list Builtin := [
  mkBuiltin "identity" "Identity" "Who the user is: their name and how to refer to them"
    ["Full name"; "Preferred name"; "Pronouns"; "Name pronunciation"] Free;
  mkBuiltin "contact" "Contact" "How to reach the user"
    ["Phone"; "Other email addresses"; "Mailing address"; "Website or profiles"] Free;
  mkBuiltin "availability" "Availability" "When and where the user can be reached or meet"
    ["Time zone"; "Usual hours"; "Calendar link"; "Where I usually am"; "Away or travel dates"] Free;
  mkBuiltin "people" "People" "Who the people the user mentions are to them, and how to refer to them" [] Ask;
  mkBuiltin "work" "Work" "The user's occupation, organisation and team" ["Occupation or role"; "Organisation"; "Team"] Free;
  mkBuiltin "preferences" "Preferences" "How the user likes to be reached or to meet, and what to keep in mind when making plans" [] Free;
  mkBuiltin "other" "Other" "Anything that fits nowhere else" [] Free].
Definition builtin (key : string) : option Builtin := List.find (λ b, String.eqb (bu_key b) key) BUILTINS.

Abbreviation Starter := (StarterSet * string * list (string * string * FactUse))%type.
Definition STARTERS : list Starter := [
  (Business, "Business", [
    ("Company", "The company: name, what it does, founded, size, offices, website", Free);
    ("Products and services", "What the company sells or offers", Free);
    ("Customers and markets", "Who the company serves, and where", Free);
    ("Pricing and terms", "Prices, discounts, payment and contract terms", Ask);
    ("Funding and investors", "Funding rounds, investors and figures", Ask);
    ("Policies and support", "Support hours, response times, refunds, compliance", Free);
    ("Approved wording", "Boilerplate, taglines and disclaimers to use word for word", Free);
    ("Links and resources", "Links worth sharing: decks, docs, booking pages", Free)]);
  (Freelance, "Freelance or consulting", [
    ("Services and rates", "What the user offers and what it costs", Ask);
    ("Portfolio and references", "Past work and people who can vouch for it", Free);
    ("Availability for new work", "When the user can take on new work", Free)]);
  (Household, "Household", [
    ("Home", "The home: address details and service providers", Free);
    ("Family logistics", "School, activities and who does what", Ask);
    ("Health providers", "Doctors and other providers, names only", Ask)]);
  (JobSearch, "Job search", [
    ("Experience and skills", "The user's background and strengths", Free);
    ("Roles I'm looking for", "The roles, places and terms the user wants", Free);
    ("References", "People who will vouch for the user", Ask)])].
Definition starter (set : StarterSet) : option Starter := List.find (λ s, bool_decide (s.1.1 = set)) STARTERS.
Definition starter_categories (set : StarterSet) : list (string * string) :=
  match starter set with Some s => fst <$> s.2 | None => [] end.
Definition fact_starter_sets : list StarterSetInfo := (λ s, mkStarterSetInfo s.1.1 s.1.2 ((λ c, c.1.1) <$> s.2)) <$> STARTERS.

(** The categories stored and built in, as the user sees them. *)
Definition categories_from (rows : list CategoryRow) : list FactCategoryInfo :=
  ((λ b, mkFactCategoryInfo (bu_key b) (bu_name b) (bu_description b) true
           (List.existsb (λ r, String.eqb (cr_key r) (bu_key b) && cr_hidden r) rows) (bu_default_use b) (bu_labels b) None false)
     <$> BUILTINS) ++
  ((λ r, mkFactCategoryInfo (cr_key r) (cr_name r) (cr_description r) false (cr_hidden r) (parse_use (cr_default_use r)) []
           (cr_starter r) false) <$> List.filter (λ r, negb (cr_builtin r)) rows).
Definition info (now : Millis) (scope : FactScope) (e : Evidenced) : FactInfo :=
  let f := e.1 in
  let use := parse_use (fr_use f) in
  mkInfo (fr_id f) (fr_category f) (fr_label f) (fr_value f) use (fr_as_of f) (parse_source (fr_source f)) (parse_status (fr_status f))
    e.2 (fr_created_at f) (fr_updated_at f) scope false
    match fr_as_of f with Some t => (STALE_AFTER_MS <? now - t)%Z | None => false end
    (shares_with_cloud use scope (fr_share f)).
(** The columns drafting reads. *)
Definition drafted (f : FactInfo) : Guide.FactInfo :=
  mkFactInfo (fn_category f) (fn_label f) (fn_value f) (fn_use f) (fn_status f) (fn_overridden f).
Definition prompt_line (f : FactInfo) (category : string) : option string := fact_line <$> shared (drafted f) category.

Section names.
Context `{CharText}.

Definition clean (s : string) : string := join " " (split_whitespace s).
Definition squash (s : string) : string := String.concat "" (char_lower <$> List.filter alphanumeric (chars s)).
Definition similar (a b : string) : bool :=
  let a := squash a in
  let b := squash b in
  if String.eqb a "" || String.eqb b "" then false
  else String.eqb a b || (5 <=? Nat.min (String.length a) (String.length b)) && (starts_with b a || starts_with a b).
End names.

Section edits.
Context `{CoreText, CharText}.
Abbreviation Tx := (Transactions.Tx FactDb).

(** ** Edits, as one change *)

Definition invalid (m : string) : CoreError := mkCoreError InvalidInput m.
Definition invalid_store : string → StoreError := Invalid.
Definition edited_fields (e : FactEdit) : option FactFields :=
  match e with Add f _ _ | Update _ f => Some f | _ => None end.
Definition added_name (c : CategoryEdit) : option string := match c with AddCategory name _ => Some name | _ => None end.
Definition validate_fields (known : list FactCategoryInfo) (category_edits : list CategoryEdit) (f : FactFields) : CoreResult () :=
  if String.eqb (clean (ff_label f)) "" || String.eqb (trim (ff_value f)) "" then Err (invalid "a fact needs a label and a value") else
  if negb (List.existsb (λ c, String.eqb (fg_key c) (ff_category f)) known) &&
     negb (bool_decide (ff_category f ∈ omap added_name category_edits))
  then Err (invalid "choose one of your categories") else Ok ().
Definition validate (known : list FactCategoryInfo) (edits : list FactEdit) (category_edits : list CategoryEdit) : CoreResult () :=
  _ ← mapM (validate_fields known category_edits) (omap edited_fields edits); Ok ().

(** The rows a change touches that are there already. *)
Definition edited_id (e : FactEdit) : option Z :=
  match e with Update id _ | Decide id _ | Delete id | Share id _ => Some id | Add _ _ _ => None end.
Definition touched_keys (c : CategoryEdit) : list string :=
  match c with
  | UpdateCategory key _ _ | HideCategory key _ | DeleteCategory key => [key]
  | ReorderCategories keys => keys
  | AddCategory _ _ => []
  end.
Definition in_category (key : string) (d : FactDb) : list FactRow :=
  List.filter (λ f, String.eqb (fr_category f) key) (listed STATUSES d).
Definition emptied_facts (d : FactDb) (c : CategoryEdit) : list Z :=
  match c with DeleteCategory key => fr_id <$> in_category key d | _ => [] end.

Definition max_position (rows : list CategoryRow) : Z :=
  match cr_position <$> rows with [] => 0%Z | p :: l => foldr Z.max p l end.
(** [while get_category(key).is_some() { key.push('x') }] *)
Fixpoint free_key (fuel : nat) (m : gmap string CategoryRow) (key : string) : string :=
  match fuel with
  | O => key
  | S fuel => if bool_decide (is_Some (m !! key)) then free_key fuel m (key +:+ "x") else key
  end.
Definition from_starter (set : option StarterSet) (name : string) : option (string * FactUse) :=
  set ← set; s ← starter set; c ← List.find (λ c, String.eqb c.1.1 name) s.2; Some (s.1.2, c.2).
Definition NEEDS_NAME : StoreError := invalid_store "a category needs a name".
Definition taken_name (stored : list CategoryRow) (name : string) : bool :=
  List.existsb (λ b, similar (bu_name b) name) BUILTINS ||
  List.existsb (λ r, negb (cr_builtin r) && similar (cr_name r) name) stored.
(** What the loop over the category edits keeps: the categories added, by
    name and key, and the keys touched. *)
Abbreviation Added := (list (string * string) * list string)%type.
Definition reorder_one (x : nat * string) : Tx () :=
  c ← tx_get (get_category x.2);
  match c with
  | Some c => if cr_builtin c then mret () else put_category (with_cr_position (Z.of_nat x.1) c)
  | None => mret ()
  end.
Definition to_other (now : Millis) (f : FactRow) : Tx () := _ ← write (with_fr_updated now (with_fr_category "other" f)); mret ().
Definition edit_category (set : option StarterSet) (stored : list CategoryRow) (now : Millis) (st : Added) (c : CategoryEdit) : Tx Added :=
  match c with
  | AddCategory name description =>
      let name := clean name in
      _ ← tx_check (negb (String.eqb name "")) NEEDS_NAME;
      _ ← tx_check (negb (taken_name stored name)) (invalid_store ("you already have a category like “" +:+ name +:+ "”"));
      let from := from_starter set name in
      key ← tx_get (λ d, free_key (S (size (fd_categories d))) (fd_categories d)
                           ("c" +:+ pretty now +:+ pretty (length st.1)));
      _ ← put_category (mkCategoryRow key name (clean description) (max_position stored + 1 + Z.of_nat (length st.1)) false false
             (match from with Some (_, u) => use_text u | None => "free" end) (fst <$> from) now);
      mret (st.1 ++ [(name, key)], st.2 ++ [key])
  | UpdateCategory key name description =>
      c ← tx_get (get_category key);
      c ← tx_some (invalid_store "built-in categories cannot be renamed") (c ← c; if cr_builtin c then None else Some c);
      _ ← tx_check (negb (String.eqb (clean name) "")) NEEDS_NAME;
      _ ← put_category (with_cr_names (clean name) (clean description) c);
      mret st
  | HideCategory key hidden =>
      c ← tx_get (get_category key);
      c ← match c with
          | Some c => mret (with_cr_hidden hidden c)
          | None => b ← tx_some (invalid_store "no such category") (builtin key);
                    mret (mkCategoryRow (bu_key b) (bu_name b) "" 0 true hidden (use_text (bu_default_use b)) None now)
          end;
      _ ← put_category c;
      mret st
  | ReorderCategories keys => _ ← each reorder_one (imap pair keys); mret st
  | DeleteCategory key =>
      _ ← tx_check (negb (bool_decide (is_Some (builtin key)))) (invalid_store "built-in categories cannot be deleted; hide them");
      facts ← tx_get (in_category key);
      _ ← each (to_other now) facts;
      _ ← delete_category key;
      mret st
  end.

Definition resolve (added : list (string * string)) (category : string) : string :=
  default category (snd <$> List.find (λ x, String.eqb x.1 category) added).
Definition NO_FACT : StoreError := invalid_store "that fact no longer exists".
Definition set_fields (added : list (string * string)) (now : Millis) (f : FactFields) (r : FactRow) : FactRow :=
  mkFactRow (fr_id r) (resolve added (ff_category f)) (clean (ff_label f)) (trim (ff_value f)) (use_text (ff_use f)) (ff_as_of f)
    (fr_source r) (fr_status r) (fr_created_at r) now (fr_share r).
Definition change_fact (id : Z) (f : FactRow → FactRow) : Tx () :=
  old ← tx_get (get id);
  old ← tx_some NO_FACT old;
  _ ← write (f old);
  mret ().
(** The ids touched grow by those added. *)
Definition edit_fact (added : list (string * string)) (now : Millis) (ids : list Z) (e : FactEdit) : Tx (list Z) :=
  match e with
  | Add f status source =>
      id ← insert (set_fields added now f (mkFactRow 0 "" "" "" "" None (source_text source) (status_text status) now now None));
      mret (ids ++ [id])
  | Update id f => _ ← change_fact id (set_fields added now f); mret ids
  | Decide id status => _ ← change_fact id (λ r, with_fr_updated now (with_fr_status (status_text status) r)); mret ids
  | Delete id => _ ← delete id; mret ids
  | Share id share => _ ← change_fact id (λ r, with_fr_updated now (with_fr_share (Some share) r)); mret ids
  end.

(** One accepted fact per label in a category, of those touched. *)
Definition same_label (f o : FactRow) : bool :=
  String.eqb (fr_category o) (fr_category f) && String.eqb (lower (fr_label o)) (lower (fr_label f)).
Definition twin (ids : list Z) (d : FactDb) : option FactRow :=
  let accepted := listed ["accepted"] d in
  List.find (λ f, bool_decide (fr_id f ∈ ids) && (1 <? count (same_label f) accepted)) accepted.
Definition DUPLICATE (label : string) : StoreError := invalid_store ("you already have “" +:+ label +:+ "” in that category").
Definition proposal_snapshots (decide : option (list Z * string)) (d : FactDb) : list Proposals.ProposalSnapshot :=
  match decide with Some (ids, _) => omap (λ id, Proposals.snapshot_proposal id (fd_analysis d)) ids | None => [] end.
Definition with_proposals (p : list Proposals.ProposalSnapshot) (s : Snapshot) : Snapshot :=
  mkFactSnapshot (fs_facts s) (fs_categories s) (fs_global_facts s) (fs_global_categories s) p.
Definition apply_change (scope : FactScope) (edits : list FactEdit) (category_edits : list CategoryEdit) (reason : string)
    (decide : option (list Z * string)) (set : option StarterSet) (now : Millis) : Tx FactChange :=
  stored ← tx_get categories;
  emptied ← tx_get (λ d, mjoin (emptied_facts d <$> category_edits));
  let ids := omap edited_id edits ++ emptied in
  let keys := mjoin (touched_keys <$> category_edits) in
  before ← tx_get (λ d, with_proposals (proposal_snapshots decide d) (snapshot ids keys d));
  _ ← match decide with
      | Some (proposals, status) => in_analysis (each (λ id, Proposals.set_proposal_status id status now) proposals)
      | None => mret ()
      end;
  '(added, keys) ← folding (edit_category set stored now) ([], keys) category_edits;
  ids ← folding (edit_fact added now) ids edits;
  duplicate ← tx_get (twin ids);
  _ ← match duplicate with Some f => tx_fail (DUPLICATE (fr_label f)) | None => mret () end;
  after ← tx_get (λ d, with_proposals (proposal_snapshots decide d) (snapshot ids keys d));
  change ← record_change reason before after now;
  mret (mkFactChange change (info now scope <$> fs_facts after) keys).

(** ** The two stores *)

Record Stores := mkStores { st_account : FactDb; st_global : FactDb }.
Abbreviation Call := (Attempt (@db_answer Stores) CoreError).
Definition in_scope {A} (scope : FactScope) (t : Tx A) : Transactions.Tx Stores A :=
  match scope with
  | AccountFact => within st_account (λ d s, mkStores d (st_global s)) t
  | GlobalFact => within st_global (λ d s, mkStores (st_account s) d) t
  end.
Definition write {A} (scope : FactScope) (t : Tx A) : Call A := r ← op (InTx (in_scope scope t)); ask (map_err from_store r).
Definition read {A} (scope : FactScope) (f : FactDb → A) : Call A := write scope (tx_get f).

(** [no_global]: without the app, on a Mac where it never made the store of
    global facts. *)
Section calls.
Context (no_global : bool).

Definition no_global_facts (scope : FactScope) : bool := no_global && bool_decide (scope = GlobalFact).
Definition listed_facts (statuses : list FactStatus) (d : FactDb) : list Evidenced :=
  evidenced d <$> listed (status_text <$> statuses) d.
Definition infos (scope : FactScope) (now : Millis) (l : list Evidenced) : list FactInfo := info now scope <$> l.
Definition facts_in (scope : FactScope) (statuses : list FactStatus) : Call (list FactInfo) :=
  if no_global_facts scope then mret (M := Call) [] else
  rows ← read scope (listed_facts statuses);
  now ← op Now;
  mret (infos scope now rows).
Definition category_rows (scope : FactScope) : Call (list CategoryRow) :=
  if no_global_facts scope then mret (M := Call) [] else read scope categories.
Definition with_global (c : FactCategoryInfo) : FactCategoryInfo :=
  mkFactCategoryInfo (fg_key c) (fg_name c) (fg_description c) (fg_builtin c) (fg_hidden c) (fg_default_use c)
    (fg_suggested_labels c) (fg_starter c) true.
(** A global category marks the one of its key, or is added. *)
Fixpoint mark_global (key : string) (l : list FactCategoryInfo) : option (list FactCategoryInfo) :=
  match l with
  | [] => None
  | c :: l => if String.eqb (fg_key c) key then Some (with_global c :: l) else cons c <$> mark_global key l
  end.
Definition add_global (out : list FactCategoryInfo) (c : FactCategoryInfo) : list FactCategoryInfo :=
  default (out ++ [with_global c]) (mark_global (fg_key c) out).
Definition merge_global (global own : list CategoryRow) : list FactCategoryInfo :=
  foldl add_global (categories_from own) (List.filter (λ c, negb (fg_builtin c)) (categories_from global)).
Definition categories_for (scope : FactScope) : Call (list FactCategoryInfo) :=
  global ← category_rows GlobalFact;
  own ← match scope with AccountFact => category_rows AccountFact | GlobalFact => mret global end;
  mret (merge_global global own).
Definition fact_categories : Call (list FactCategoryInfo) := categories_for AccountFact.
Definition global_fact_categories : Call (list FactCategoryInfo) := categories_for GlobalFact.

Definition set_overridden (mine : list FactInfo) (g : FactInfo) : FactInfo :=
  mkInfo (fn_id g) (fn_category g) (fn_label g) (fn_value g) (fn_use g) (fn_as_of g) (fn_source g) (fn_status g) (fn_evidence g)
    (fn_created_at g) (fn_updated_at g) (fn_scope g)
    (bool_decide (fn_status g = FactAccepted) &&
     List.existsb (λ m, bool_decide (fn_status m = FactAccepted) && String.eqb (fn_category m) (fn_category g) &&
                        nocase_eqb (fn_label m) (fn_label g)) mine)
    (fn_stale g) (fn_share_with_cloud g).
Definition with_globals (mine global : list FactInfo) : list FactInfo := mine ++ (set_overridden mine <$> global).
Definition list_facts (statuses : list FactStatus) : Call (list FactInfo) :=
  mine ← facts_in AccountFact statuses;
  global ← facts_in GlobalFact statuses;
  mret (with_globals mine global).
Definition list_global_facts (statuses : list FactStatus) : Call (list FactInfo) := facts_in GlobalFact statuses.
Definition name_of (categories : list FactCategoryInfo) (key : string) : string :=
  default "Other" (fg_name <$> List.find (λ c, String.eqb (fg_key c) key) categories).
Definition hidden_key (categories : list FactCategoryInfo) (key : string) : bool :=
  List.existsb (λ c, String.eqb (fg_key c) key && fg_hidden c) categories.
(** What drafting is told. *)
Definition lines_of (categories : list FactCategoryInfo) (facts : list FactInfo) : list string :=
  omap (λ f, prompt_line f (name_of categories (fn_category f)))
    (List.filter (λ f, negb (hidden_key categories (fn_category f))) (List.filter (λ f, negb (fn_overridden f)) facts)).
Definition fact_lines : Call (list string) :=
  categories ← fact_categories;
  facts ← list_facts [FactAccepted];
  mret (lines_of categories facts).

(** ** Changes *)

Definition apply_facts_full (scope : FactScope) (edits : list FactEdit) (category_edits : list CategoryEdit) (reason : string)
    (decide : option (list Z * string)) (set : option StarterSet) : Call FactChange :=
  _ ← check_that (negb (is_empty edits && is_empty category_edits && match decide with None => true | Some _ => false end))
        (invalid "nothing to change");
  known ← categories_for scope;
  _ ← ask (validate known edits category_edits);
  now ← op Now;
  write scope (apply_change scope edits category_edits reason decide set now).
Definition apply_facts_with (scope : FactScope) (edits : list FactEdit) (category_edits : list CategoryEdit) (reason : string)
    (decide : option (list Z * string)) : Call FactChange :=
  apply_facts_full scope edits category_edits reason decide None.
Definition apply_facts (scope : FactScope) (edits : list FactEdit) (category_edits : list CategoryEdit) (reason : string) : Call FactChange :=
  apply_facts_with scope edits category_edits reason None.

(** The ids and keys on both sides of a change. *)
Definition string_leb (a b : string) : Prop := key_leb a b = true.
#[export] Instance string_leb_dec a b : Decision (string_leb a b).
Proof. unfold string_leb. apply _. Defined.
Definition touched (a b : list Evidenced) (ca cb : list CategoryRow) : list Z * list string :=
  (merge_sort Z.le (remove_dups ((λ x, fr_id x.1) <$> a ++ b)), merge_sort string_leb (remove_dups (cr_key <$> ca ++ cb))).
Definition GONE : StoreError := invalid_store "that change can no longer be undone".
Definition replay_of (change_id : Z) : Tx (Snapshot * Snapshot) :=
  c ← tx_get (get_change change_id);
  c ← tx_some GONE c;
  mret (c.1.2, c.2).
Definition global_side (s : Snapshot) : Snapshot := mkFactSnapshot (fs_global_facts s) (fs_global_categories s) [] [] [].
(** The side that gets the fact back goes first: a failure between the two
    leaves a copy, never a fact in neither store. *)
Definition restore_here (scope : FactScope) (before after to : Snapshot) (now : Millis) : Call () :=
  let '(ids, keys) := touched (fs_facts before) (fs_facts after) (fs_categories before) (fs_categories after) in
  write scope (restore ids keys to now).
Definition restore_global (before after to : Snapshot) (now : Millis) : Call () :=
  let '(ids, keys) := touched (fs_global_facts before) (fs_global_facts after)
                        (fs_global_categories before) (fs_global_categories after) in
  if is_empty ids && is_empty keys then mret () else write GlobalFact (restore ids keys (global_side to) now).
Definition replay_facts (scope : FactScope) (change_id : Z) (undo : bool) : Call () :=
  now ← op Now;
  change ← write scope (replay_of change_id);
  let '(before, after) := change in
  let to := if undo then before else after in
  if is_empty (fs_global_facts to) then
    _ ← restore_here scope before after to now;
    restore_global before after to now
  else
    _ ← restore_global before after to now;
    restore_here scope before after to now.

(** ** Moving a fact between the stores *)

Definition FACT_GONE : StoreError := invalid_store "that fact is gone".
Definition THERE_ALREADY (label : string) : StoreError :=
  invalid_store ("“" +:+ label +:+ "” is there already; change or delete one first").
Definition custom_category (f : FactRow) (d : FactDb) : option CategoryRow :=
  match builtin (fr_category f) with None => get_category (fr_category f) d | Some _ => None end.
Definition move_read (id : Z) : Tx (Evidenced * option CategoryRow) :=
  f ← tx_get (get id);
  f ← tx_some FACT_GONE f;
  tx_get (λ d, (evidenced d f, custom_category f d)).
Definition clashes (f : FactRow) (d : FactDb) : bool :=
  String.eqb (fr_status f) "accepted" &&
  List.existsb (λ o, String.eqb (fr_category o) (fr_category f) && nocase_eqb (fr_label o) (fr_label f)) (listed ["accepted"] d).
Definition category_there (category : option CategoryRow) (d : FactDb) : option CategoryRow :=
  category ≫= λ c, get_category (cr_key c) d.
(** Quotes are of one account's mail: the global copy has none. *)
Definition move_in (to : FactScope) (e : Evidenced) (category : option CategoryRow) (now : Millis)
    : Tx (Evidenced * option CategoryRow * option CategoryRow) :=
  let f := e.1 in
  _ ← tx_where (λ d, negb (clashes f d)) (THERE_ALREADY (fr_label f));
  before ← tx_get (category_there category);
  _ ← match category, before with Some c, None => put_category c | _, _ => mret () end;
  id ← insert (with_fr_updated now (with_fr_id 0 f));
  _ ← match to with AccountFact => add_evidence id e.2 now | GlobalFact => mret () end;
  moved ← tx_get (λ d, (default no_fact (get id d), evidence id d));
  after ← tx_get (category_there category);
  mret (moved, before, after).
Definition list_of {A} (o : option A) : list A := match o with Some a => [a] | None => [] end.
(** Recorded in the account's store with both sides; this account's row as
    it is now, not as first read. *)
Definition move_out (to : FactScope) (e moved : Evidenced) (before after : option CategoryRow) (now : Millis) : Tx Z :=
  match to with
  | GlobalFact =>
      gone ← tx_get (λ d, match get (fr_id e.1) d with Some f => evidenced d f | None => e end);
      _ ← delete (fr_id gone.1);
      record_change "make global" (mkFactSnapshot [gone] [] [] (list_of before) [])
        (mkFactSnapshot [] [] [moved] (list_of after) []) now
  | AccountFact =>
      record_change "make this account's only" (mkFactSnapshot [] (list_of before) [e] [] [])
        (mkFactSnapshot [moved] (list_of after) [] [] []) now
  end.
Definition other_store (to : FactScope) : FactScope := match to with GlobalFact => AccountFact | AccountFact => GlobalFact end.
Definition move_fact (id : Z) (to : FactScope) : Call FactChange :=
  '(e, category) ← write (other_store to) (move_read id);
  now ← op Now;
  '(moved, before, after) ← write to (move_in to e category now);
  change ← write AccountFact (move_out to e moved before after now);
  _ ← (match to with AccountFact => write GlobalFact (delete id) | GlobalFact => mret () end);
  at_ ← op Now;
  mret (mkFactChange change [info at_ to moved] (list_of (cr_key <$> category))).

(** ** What the app calls *)

Definition apply_global_fact_edits (edits : list FactEdit) (reason : string) : Call FactChange := apply_facts GlobalFact edits [] reason.
Definition edit_global_fact_categories (edits : list CategoryEdit) : Call FactChange := apply_facts GlobalFact [] edits "categories".
Definition undo_global_fact_change (change_id : Z) : Call () := replay_facts GlobalFact change_id true.
Definition redo_global_fact_change (change_id : Z) : Call () := replay_facts GlobalFact change_id false.
Definition make_fact_global (id : Z) : Call FactChange := move_fact id GlobalFact.
Definition make_fact_local (global_id : Z) : Call FactChange := move_fact global_id AccountFact.
Definition similar_fact_category (name : string) : Call (option FactCategoryInfo) :=
  l ← fact_categories; mret (List.find (λ c, similar (fg_name c) name) l).
Definition apply_fact_edits (edits : list FactEdit) (reason : string) : Call FactChange := apply_facts AccountFact edits [] reason.
Definition edit_fact_categories (edits : list CategoryEdit) : Call FactChange := apply_facts AccountFact [] edits "categories".
Definition starter_edits (have : list FactCategoryInfo) (s : Starter) : list CategoryEdit :=
  (λ c, AddCategory c.1.1 c.1.2) <$> List.filter (λ c, negb (List.existsb (λ h, similar (fg_name h) c.1.1) have)) s.2.
Definition add_fact_starter_set (set : StarterSet) : Call FactChange :=
  have ← fact_categories;
  s ← or_fail (invalid "no such starter set") (starter set);
  let edits := starter_edits have s in
  if is_empty edits then fail (invalid ("you already have the " +:+ s.1.2 +:+ " categories")) else
  apply_facts_full AccountFact [] edits ("starter set " +:+ s.1.2) None (Some set).
Definition undo_fact_change (change_id : Z) : Call () := replay_facts AccountFact change_id true.
Definition redo_fact_change (change_id : Z) : Call () := replay_facts AccountFact change_id false.
End calls.
End edits.
End FactEdits.
