(* ===== verification/FactProperties.v ===== *)
(** * FactProperties: what makes changing the facts about the user correct

    What edits of facts touch and what undo puts back, one accepted fact a
    label, and a fact moved between stores that is never lost. *)

From Stdlib Require Import Ascii.
From S2P Require Import Prelude.
From S2P Require Import Domain.
From S2P Require Import Text.
From S2P Require Import MailStore.
From S2P Require Import Agents.
From S2P Require Import Facade.
From S2P Require Import Guide.
From S2P Require Import Effects.
From S2P Require Import Transactions.
From S2P Require Import ProposalStore.
From S2P Require Import GuideStore.
From S2P Require Import FactStore.
From S2P Require Import FactEdits.
From S2P Require Import Json.

Import FactStore.
Import FactEdits.

(** ** Stores in order *)

Record facts_ok (d : FactDb) : Prop := {
  fok_fact i f : fd_facts d !! i = Some f → fr_id f = i ∧ (0 < i)%Z ∧ fact_checks f = true;
  fok_quote i m : is_Some (fd_evidence d !! (i, m)) → is_Some (fd_facts d !! i);
  fok_category k c : fd_categories d !! k = Some c → cr_key c = k ∧ cr_default_use c ∈ USES }.

(** The quote of a message, without when it was added. *)
Definition quote_at (i : Z) (m : string) (d : FactDb) : option string := fst <$> fd_evidence d !! (i, m).
(** The same fact with the same evidence, or in neither. *)
Definition agree_at (i : Z) (d d' : FactDb) : Prop :=
  fd_facts d !! i = fd_facts d' !! i ∧ ∀ m, quote_at i m d = quote_at i m d'.
Definition same_facts (d d' : FactDb) : Prop :=
  (∀ i, agree_at i d d') ∧ fd_categories d = fd_categories d'.

Lemma agree_refl i d : agree_at i d d.
Proof. done. Qed.
Lemma agree_sym i d d' : agree_at i d d' → agree_at i d' d.
Proof. intros [H1 H2]. split; [done|]. intros m. by rewrite H2. Qed.
Lemma agree_trans i d1 d2 d3 : agree_at i d1 d2 → agree_at i d2 d3 → agree_at i d1 d3.
Proof. intros [H1 H2] [H3 H4]. split; [congruence|]. intros m. by rewrite H2. Qed.
Lemma fact_no_quote i m d : facts_ok d → fd_facts d !! i = None → quote_at i m d = None.
Proof.
  intros Hd Hi. unfold quote_at. destruct (fd_evidence d !! (i, m)) eqn:E; [|done].
  destruct (fok_quote d Hd i m) as [x Hx]; [by eexists|congruence].
Qed.
Lemma agree_none i d d' : facts_ok d → facts_ok d' → fd_facts d !! i = None → fd_facts d' !! i = None → agree_at i d d'.
Proof. intros Hd Hd' H1 H2. split; [congruence|]. intros m. by rewrite !fact_no_quote. Qed.

(** ** Evidence as listed *)

(** One quote of each message, and these. *)
Definition lists (i : Z) (l : list FactEvidence) (d : FactDb) : Prop :=
  NoDup (fe_message <$> l) ∧ ∀ q, q ∈ l ↔ quote_at i (fe_message q) d = Some (fe_quote q).
Lemma elem_of_quotes i m q t : (q, t) ∈ quotes_of i m ↔ m !! (i, fe_message q) = Some (fe_quote q, t).
Proof.
  unfold quotes_of. rewrite list_elem_of_fmap. split.
  - intros ([[j x] [s u]] & [= -> ->] & [Hj Hin]%elem_of_List_filter). cbn in *. apply Z.eqb_eq in Hj as ->.
    by apply elem_of_map_to_list.
  - intros Hm. exists ((i, fe_message q), (fe_quote q, t)). split; [by destruct q|].
    apply elem_of_List_filter. split; [by apply Z.eqb_eq|]. by apply elem_of_map_to_list.
Qed.
Lemma quotes_nodup i m : NoDup (fe_message ∘ fst <$> quotes_of i m).
Proof.
  unfold quotes_of. rewrite <- list_fmap_compose.
  rewrite (list_fmap_ext _ (snd ∘ fst)) by done.
  assert (NoDup (fst <$> List.filter (λ x, (x.1.1 =? i)%Z) (map_to_list m))) as Hn.
  { apply NoDup_fmap_List_filter, NoDup_fst_map_to_list. }
  assert (∀ x, x ∈ List.filter (λ x, (x.1.1 =? i)%Z) (map_to_list m) → x.1.1 = i) as Hi.
  { intros x [Hx _]%elem_of_List_filter. by apply Z.eqb_eq. }
  induction (List.filter _ _) as [|x l IH]; cbn; [constructor|]. cbn in Hn. apply NoDup_cons in Hn as [Hx Hn].
  constructor; [|apply IH; [done|intros; apply Hi; by right]].
  intros (y & E & Hy)%list_elem_of_fmap. apply Hx, list_elem_of_fmap. exists y. split; [|done].
  pose proof (Hi x ltac:(left)). pose proof (Hi y ltac:(by right)). cbn in E. destruct x as [[] ?], y as [[] ?]; cbn in *; congruence.
Qed.
Lemma evidence_lists i d : lists i (evidence i d) d.
Proof.
  unfold lists, evidence. pose proof (merge_sort_Permutation added_le (quotes_of i (fd_evidence d))) as Hp. split.
  - rewrite <- list_fmap_compose. rewrite Hp. apply quotes_nodup.
  - intros q. unfold quote_at. rewrite list_elem_of_fmap. split.
    + intros ([q' t] & -> & Hq). rewrite Hp in Hq. apply elem_of_quotes in Hq. cbn in *. by rewrite Hq.
    + destruct (fd_evidence d !! (i, fe_message q)) as [[s t]|] eqn:E; cbn; [|done]. intros [= ->].
      exists (q, t). split; [done|]. rewrite Hp. by apply elem_of_quotes.
Qed.

Definition with_evidence (m : gmap (Z * string) (string * Millis)) (d : FactDb) : FactDb := on_evidence (λ _, m) d.
Lemma add_quotes i now l d :
  is_Some (fd_facts d !! i) → NoDup (fe_message <$> l) → (∀ q, q ∈ l → quote_at i (fe_message q) d = None) →
  ∃ m, add_evidence i l now d = Ok (with_evidence m d, ()) ∧
    (∀ j x, j ≠ i → m !! (j, x) = fd_evidence d !! (j, x)) ∧
    ∀ q, quote_at i (fe_message q) (with_evidence m d) = Some (fe_quote q) ↔ q ∈ l ∨ quote_at i (fe_message q) d = Some (fe_quote q).
Proof.
  unfold add_evidence. revert d. induction l as [|q l IH]; intros d Hi Hn Hnew.
  - exists (fd_evidence d). split; [by destruct d|]. split; [done|]. intros q. split; [by right|].
    intros [Hq|Hq]; [by apply not_elem_of_nil in Hq|done].
  - apply NoDup_cons in Hn as [Hq Hn]. pose proof (Hnew q ltac:(left)) as Hq0.
    set (m1 := <[(i, fe_message q) := (fe_quote q, now)]> (fd_evidence d)).
    assert (add_quote i now q d = Ok (with_evidence m1 d, ())) as E1.
    { unfold add_quote, mbind, tx_bind, tx_where, tx_do, get. rewrite bool_decide_true by done. cbn.
      unfold quote_at in Hq0. destruct (fd_evidence d !! (i, fe_message q)) eqn:E; [discriminate Hq0|].
      unfold with_evidence, on_evidence. by rewrite E. }
    destruct (IH (with_evidence m1 d)) as (m & Em & Hj & Hm); [done|done| |].
    { intros q' Hq'. unfold quote_at. cbn. unfold m1. rewrite lookup_insert_ne; [by apply Hnew; right|].
      intros [= E]. apply Hq, list_elem_of_fmap. by exists q'. }
    exists m. split; [|split].
    + cbn. unfold mbind, tx_bind at 1. rewrite E1. cbn. exact Em.
    + intros j x Hji. rewrite Hj by done. cbn. unfold m1. rewrite lookup_insert_ne; [done|congruence].
    + intros q'. change (with_evidence m (with_evidence m1 d)) with (with_evidence m d) in Hm. rewrite Hm, elem_of_cons.
      unfold quote_at at 1. cbn. unfold m1. destruct (decide (fe_message q' = fe_message q)) as [E|E].
      * rewrite E, lookup_insert_eq. cbn. rewrite Hq0. split.
        -- intros [?|[= ?]]; [by left; right|]. left. left. destruct q, q'; cbn in *; congruence.
        -- intros [[->|?]|?]; [by right|by left|done].
      * rewrite lookup_insert_ne by congruence. fold (quote_at i (fe_message q') d). split.
        -- intros [?|?]; [by left; right|by right].
        -- intros [[->|?]|?]; [done|by left|by right].
Qed.

(** ** The statements *)

Definition put_fact (f : FactRow) (d : FactDb) : FactDb := FactStore.with_facts (<[fr_id f := f]> (fd_facts d)) (fd_seq d) d.
Lemma write_there f d : is_Some (fd_facts d !! fr_id f) → fact_checks f = true → FactStore.write f d = Ok (put_fact f d, true).
Proof.
  intros Hi Hc. unfold FactStore.write, mbind, tx_bind, tx_get, get. cbn. rewrite bool_decide_true by done.
  unfold tx_check. by rewrite Hc.
Qed.
Lemma write_none f d : fd_facts d !! fr_id f = None → FactStore.write f d = Ok (d, false).
Proof. intros Hi. unfold FactStore.write, mbind, tx_bind, tx_get, get. cbn. rewrite Hi. by rewrite bool_decide_false by (by intros []). Qed.
Definition new_fact_id (d : FactDb) : Z := (Z.max (fd_seq d) (last_id (fd_facts d)) + 1)%Z.
Definition insert_fact (id : Z) (f : FactRow) (d : FactDb) : FactDb :=
  FactStore.with_facts (<[id := with_fr_id id f]> (fd_facts d)) (Z.max (Z.max (fd_seq d) (last_id (fd_facts d))) id) d.
Lemma with_same_id f : with_fr_id (fr_id f) f = f.
Proof. by destruct f. Qed.
Lemma insert_known f d : fr_id f ≠ 0%Z → fd_facts d !! fr_id f = None → fact_checks f = true →
  insert f d = Ok (insert_fact (fr_id f) f d, fr_id f).
Proof.
  intros H0 Hi Hc. unfold insert, mbind, tx_bind, tx_get, tx_check, tx_where, tx_do. cbn.
  apply Z.eqb_neq in H0. rewrite H0, Hc. cbn. by rewrite bool_decide_true.
Qed.
Lemma new_fact_none d : fd_facts d !! new_fact_id d = None.
Proof. apply last_id_fresh. unfold new_fact_id. lia. Qed.
Lemma new_fact_pos d : (0 < new_fact_id d)%Z.
Proof. unfold new_fact_id. pose proof (last_id_nonneg (fd_facts d)). lia. Qed.
Lemma post_insert_fact f d Q : fr_id f = 0%Z → (fact_checks f = true → Q (insert_fact (new_fact_id d) f d) (new_fact_id d)) → post d (insert f) Q.
Proof.
  intros H0 HQ. unfold insert. rewrite H0. tx_steps. by apply HQ.
Qed.
Lemma post_write_fact f d Q :
  (is_Some (fd_facts d !! fr_id f) → fact_checks f = true → Q (put_fact f d) true) →
  (fd_facts d !! fr_id f = None → Q d false) → post d (FactStore.write f) Q.
Proof.
  intros H1 H2. unfold FactStore.write. apply post_bind, post_get. destruct (get (fr_id f) d) eqn:E; unfold get in E.
  - rewrite bool_decide_true by done. tx_steps. apply H1; [by rewrite E|done].
  - rewrite bool_decide_false by (by intros []). by apply post_ret, H2.
Qed.

(** What they change. *)
Lemma put_fact_ok f d : facts_ok d → is_Some (fd_facts d !! fr_id f) → fact_checks f = true → facts_ok (put_fact f d).
Proof.
  intros Hd [f0 Hi] Hc. split; cbn.
  - intros i g. destruct (decide (i = fr_id f)) as [->|Hne].
    + rewrite lookup_insert_eq. intros [= <-]. split; [done|]. split; [|done]. by destruct (fok_fact d Hd _ _ Hi) as (_ & ? & _).
    + rewrite lookup_insert_ne by done. apply (fok_fact d Hd).
  - intros i m Hm. apply lookup_insert_is_Some. destruct (decide (fr_id f = i)); [by left|right]. split; [done|]. by apply (fok_quote d Hd i m).
  - apply (fok_category d Hd).
Qed.
Lemma put_fact_agree f d i : i ≠ fr_id f → agree_at i (put_fact f d) d.
Proof. intros Hi. split; [|done]. cbn. by rewrite lookup_insert_ne. Qed.
Lemma insert_fact_ok id f d : facts_ok d → (0 < id)%Z → fact_checks f = true → facts_ok (insert_fact id f d).
Proof.
  intros Hd Hi Hc. split; cbn.
  - intros i g. destruct (decide (i = id)) as [->|Hne].
    + rewrite lookup_insert_eq. by intros [= <-].
    + rewrite lookup_insert_ne by done. apply (fok_fact d Hd).
  - intros i m Hm. apply lookup_insert_is_Some. destruct (decide (id = i)); [by left|right]. split; [done|]. by apply (fok_quote d Hd i m).
  - apply (fok_category d Hd).
Qed.
Lemma insert_fact_agree id f d i : i ≠ id → agree_at i (insert_fact id f d) d.
Proof. intros Hi. split; [|done]. cbn. by rewrite lookup_insert_ne. Qed.
Lemma lookup_without id m i x : without_quotes id m !! (i, x) = if bool_decide (i = id) then None else m !! (i, x).
Proof.
  unfold without_quotes. case_bool_decide as Hi.
  - apply map_lookup_filter_None. right. cbn. intros q _ Hn. by apply Hn.
  - destruct (m !! (i, x)) as [q|] eqn:E; [by apply map_lookup_filter_Some|apply map_lookup_filter_None; by left].
Qed.
Lemma delete_row_ok id d : facts_ok d → facts_ok (delete_row id d).
Proof.
  intros Hd. split; cbn.
  - intros i f. rewrite lookup_delete_Some. intros [_ Hi]. by apply (fok_fact d Hd).
  - intros i m. rewrite lookup_without. case_bool_decide; [by intros []|]. intros Hm. rewrite lookup_delete_ne by done.
    by apply (fok_quote d Hd i m).
  - apply (fok_category d Hd).
Qed.
Lemma delete_row_agree id d i : i ≠ id → agree_at i (delete_row id d) d.
Proof.
  intros Hi. split; cbn; [by rewrite lookup_delete_ne|]. intros m. unfold quote_at. cbn. rewrite lookup_without.
  by rewrite bool_decide_false.
Qed.
Definition put_cat (c : CategoryRow) (d : FactDb) : FactDb := on_categories <[cr_key c := c]> d.
Lemma put_cat_ok c d : facts_ok d → cr_default_use c ∈ USES → facts_ok (put_cat c d).
Proof.
  intros Hd Hc. split; [apply (fok_fact d Hd)|apply (fok_quote d Hd)|]. cbn. intros k c'.
  destruct (decide (k = cr_key c)) as [->|Hne]; [rewrite lookup_insert_eq; by intros [= <-]|].
  rewrite lookup_insert_ne by done. apply (fok_category d Hd).
Qed.
Lemma post_put_category c d Q : (cr_default_use c ∈ USES → Q (put_cat c d) ()) → post d (put_category c) Q.
Proof. intros HQ. unfold put_category. tx_steps. apply HQ. by eapply bool_decide_eq_true_1. Qed.
Lemma delete_category_ok k d : facts_ok d → facts_ok (on_categories (base.delete k) d).
Proof.
  intros Hd. split; [apply (fok_fact d Hd)|apply (fok_quote d Hd)|]. cbn. intros k' c.
  rewrite lookup_delete_Some. intros [_ Hc]. by apply (fok_category d Hd).
Qed.

(** ** What restoring does *)

(** A snapshot's side of a fact: what it has of the fact in [t]. *)
Definition shows (l : list Evidenced) (i : Z) (t : FactDb) : Prop :=
  match find_fact i l with
  | Some (f, quotes) => fd_facts t !! i = Some f ∧ lists i quotes t
  | None => fd_facts t !! i = None
  end.
Lemma lists_agree i l d t : facts_ok t → lists i l t → (∀ q, quote_at i (fe_message q) d = Some (fe_quote q) ↔ q ∈ l) →
  ∀ m, quote_at i m d = quote_at i m t.
Proof.
  intros Ht [_ Hl] Hd m.
  assert (∀ s, quote_at i m d = Some s ↔ quote_at i m t = Some s) as Hs.
  { intros s. specialize (Hd (mkFactEvidence m s)). specialize (Hl (mkFactEvidence m s)). cbn in *. by rewrite Hd. }
  destruct (quote_at i m t) as [s|]; [by apply Hs|]. destruct (quote_at i m d) as [s|]; [symmetry; by apply (Hs s)|done].
Qed.

(** Only the facts, their evidence, the categories and the last id differ. *)
Definition same_rest (d d' : FactDb) : Prop :=
  fd_changes d = fd_changes d' ∧ fd_change_seq d = fd_change_seq d' ∧ fd_analysis d = fd_analysis d'.
Lemma restore_fact_run l now i d t : facts_ok d → facts_ok t → shows l i t →
  ∃ d', restore_fact l now i d = Ok (d', ()) ∧ facts_ok d' ∧ agree_at i d' t ∧ (∀ j, j ≠ i → agree_at j d' d) ∧
        fd_categories d' = fd_categories d ∧ same_rest d' d.
Proof.
  unfold shows, restore_fact. intros Hd Ht Hs. destruct (find_fact i l) as [[f quotes]|] eqn:E.
  - destruct Hs as [Hf Hq]. destruct (fok_fact t Ht i f Hf) as (Hid & Hpos & Hc).
    set (d1 := if bool_decide (is_Some (fd_facts d !! i)) then put_fact f d else insert_fact (fr_id f) f d).
    assert (∀ k : bool → Tx (), (written ← FactStore.write f; _ ← (if (written : bool) then mret 0%Z else insert f); k true) d = k true d1) as E1.
    { intros k. unfold d1. unfold mbind, tx_bind at 1. case_bool_decide as Hi.
      - rewrite write_there by (by rewrite ?Hid). done.
      - rewrite write_none by (rewrite Hid; destruct (fd_facts d !! i); [exfalso; eauto|done]). cbn. unfold tx_bind.
        rewrite insert_known; [done|lia| |done]. rewrite Hid. destruct (fd_facts d !! i); [exfalso; eauto|done]. }
    pose proof (with_same_id f) as Hsame.
    assert (facts_ok d1) as H1.
    { unfold d1. case_bool_decide; [apply put_fact_ok|apply insert_fact_ok]; rewrite ?Hid; done. }
    assert (fd_facts d1 = <[i := f]> (fd_facts d) ∧ fd_evidence d1 = fd_evidence d ∧ fd_categories d1 = fd_categories d ∧ same_rest d1 d) as (Hf1 & He1 & Hc1 & Hr1).
    { unfold d1. case_bool_decide; cbn; rewrite ?Hsame, Hid; done. }
    rewrite (E1 (λ _, _ ← tx_do (on_evidence (without_quotes i)); add_evidence i quotes now)).
    unfold mbind, tx_bind, tx_do at 1. cbn.
    destruct (add_quotes i now quotes (on_evidence (without_quotes i) d1)) as (m & Em & Hj & Hm).
    { cbn. rewrite Hf1, lookup_insert_eq. by eexists. }
    { apply Hq. }
    { intros q _. unfold quote_at. cbn. rewrite lookup_without. by rewrite bool_decide_true. }
    exists (with_evidence m (on_evidence (without_quotes i) d1)). split; [exact Em|].
    assert (∀ j, j ≠ i → ∀ x, m !! (j, x) = fd_evidence d !! (j, x)) as Hother.
    { intros j Hji x. rewrite Hj by done. cbn. by rewrite lookup_without, bool_decide_false, He1. }
    split; [|split; [|split; [|split; [done|exact Hr1]]]].
    + split; cbn; [apply (fok_fact d1 H1)| |apply (fok_category d1 H1)]. intros j x Hx. rewrite Hf1.
      apply lookup_insert_is_Some. destruct (decide (i = j)) as [|Hne]; [by left|right]. split; [done|].
      rewrite Hother in Hx by done. by apply (fok_quote d Hd j x).
    + split; cbn; [by rewrite Hf1, lookup_insert_eq|]. apply (lists_agree i quotes); [done|done|]. intros q. rewrite Hm.
      unfold quote_at at 1. cbn. rewrite lookup_without, bool_decide_true by done. cbn. split; [by intros [|]|by left].
    + intros j Hji. split; cbn; [by rewrite Hf1, lookup_insert_ne|]. intros x. unfold quote_at. cbn. by rewrite Hother.
  - exists (delete_row i d). split; [done|]. split; [by apply delete_row_ok|]. split; [|split; [|done]].
    + apply agree_none; [by apply delete_row_ok|done| |done]. cbn. apply lookup_delete_eq.
    + intros j Hj. by apply delete_row_agree.
Qed.
Lemma restore_facts_run l now ids d t : facts_ok d → facts_ok t → (∀ i, i ∈ ids → shows l i t) →
  ∃ d', each (restore_fact l now) ids d = Ok (d', ()) ∧ facts_ok d' ∧
        (∀ i, i ∈ ids → agree_at i d' t) ∧ (∀ i, i ∉ ids → agree_at i d' d) ∧
        fd_categories d' = fd_categories d ∧ same_rest d' d.
Proof.
  revert d. induction ids as [|i ids IH]; intros d Hd Ht Hs.
  - exists d. split; [done|]. split; [done|]. split; [by intros i ?%not_elem_of_nil|done].
  - destruct (restore_fact_run l now i d t Hd Ht (Hs i ltac:(left))) as (d1 & E1 & H1 & Ha & Hb & Hc1 & Hr1).
    destruct (IH d1 H1 Ht) as (d' & E & Hd' & Hin & Hout & Hc & Hr); [intros; apply Hs; by right|].
    exists d'. split; [|split; [done|split; [|split; [|split]]]].
    + cbn. unfold mbind, tx_bind at 1. rewrite E1. exact E.
    + intros j [->|Hj]%elem_of_cons; [|by apply Hin]. destruct (decide (i ∈ ids)); [by apply Hin|].
      eapply agree_trans; [by apply Hout|exact Ha].
    + intros j [Hji Hj]%not_elem_of_cons. eapply agree_trans; [by apply Hout|by apply Hb].
    + congruence.
    + destruct Hr as (? & ? & ?), Hr1 as (? & ? & ?). repeat split; congruence.
Qed.
Lemma restore_categories_run l keys d (m : gmap string CategoryRow) : facts_ok d →
  (∀ k c, m !! k = Some c → cr_key c = k ∧ cr_default_use c ∈ USES) → (∀ k, k ∈ keys → find_category k l = m !! k) →
  ∃ m', each (restore_category l) keys d = Ok (on_categories (λ _, m') d, ()) ∧ facts_ok (on_categories (λ _, m') d) ∧
        (∀ k, k ∈ keys → m' !! k = m !! k) ∧ (∀ k, k ∉ keys → m' !! k = fd_categories d !! k).
Proof.
  intros Hd Hm. revert d Hd. induction keys as [|k keys IH]; intros d Hd Hs.
  - exists (fd_categories d). split; [by destruct d|]. split; [by destruct d|]. split; [by intros k ?%not_elem_of_nil|done].
  - pose proof (Hs k ltac:(left)) as Hk.
    assert (∃ m1, restore_category l k d = Ok (on_categories (λ _, m1) d, ()) ∧ facts_ok (on_categories (λ _, m1) d) ∧
              m1 !! k = m !! k ∧ ∀ j, j ≠ k → m1 !! j = fd_categories d !! j) as (m1 & E1 & H1 & Hk1 & Hj1).
    { unfold restore_category. rewrite Hk. destruct (m !! k) as [c|] eqn:E.
      - destruct (Hm k c E) as [<- Hu]. exists (<[cr_key c := c]> (fd_categories d)). split; [|split; [by apply put_cat_ok|split]].
        + unfold put_category, mbind, tx_bind, tx_check. by rewrite bool_decide_true.
        + apply lookup_insert_eq.
        + intros j Hj. by rewrite lookup_insert_ne.
      - exists (base.delete k (fd_categories d)). split; [done|]. split; [by apply delete_category_ok|]. split.
        + apply lookup_delete_eq.
        + intros j Hj. by rewrite lookup_delete_ne. }
    destruct (IH _ H1) as (m' & E & H' & Hin & Hout); [intros; apply Hs; by right|].
    exists m'. split; [|split; [exact H'|split]].
    + cbn. unfold mbind, tx_bind at 1. rewrite E1. cbn. exact E.
    + intros j [->|Hj]%elem_of_cons; [|by apply Hin]. destruct (decide (k ∈ keys)); [by apply Hin|]. by rewrite Hout.
    + intros j [Hji Hj]%not_elem_of_cons. rewrite Hout by done. by apply Hj1.
Qed.

Lemma restore_run ids keys to now d t : facts_ok d → facts_ok t → fs_proposals to = [] →
  (∀ i, i ∈ ids → shows (fs_facts to) i t) → (∀ k, k ∈ keys → find_category k (fs_categories to) = fd_categories t !! k) →
  ∃ d', restore ids keys to now d = Ok (d', ()) ∧ facts_ok d' ∧
    (∀ i, i ∈ ids → agree_at i d' t) ∧ (∀ i, i ∉ ids → agree_at i d' d) ∧
    (∀ k, k ∈ keys → fd_categories d' !! k = fd_categories t !! k) ∧ (∀ k, k ∉ keys → fd_categories d' !! k = fd_categories d !! k) ∧
    same_rest d' d.
Proof.
  intros Hd Ht Hp Hi Hk.
  destruct (restore_facts_run (fs_facts to) now ids d t Hd Ht Hi) as (d1 & E1 & H1 & Ha & Hb & Hc & Hr).
  destruct (restore_categories_run (fs_categories to) keys d1 (fd_categories t) H1) as (m & E2 & H2 & Hin & Hout);
    [apply (fok_category t Ht)|done|].
  exists (on_categories (λ _, m) d1). split; [|split; [done|split; [done|split; [done|split; [done|split; [|exact Hr]]]]]].
  - unfold restore, mbind, tx_bind. rewrite E1. cbn. unfold tx_bind. rewrite E2, Hp. cbn. by destruct d1.
  - intros k Hn. cbn. rewrite Hout by done. by rewrite Hc.
Qed.

(** ** What a snapshot has *)

Lemma find_fact_snapshot ids d i : facts_ok d →
  find_fact i (evidenced d <$> omap (λ id, get id d) ids) = if bool_decide (i ∈ ids) then evidenced d <$> fd_facts d !! i else None.
Proof.
  intros Hd. unfold find_fact. induction ids as [|j ids IH]; [done|]. cbn. unfold get at 1.
  destruct (fd_facts d !! j) as [f|] eqn:E; cbn.
  - destruct (fok_fact d Hd j f E) as [Hf _]. rewrite Hf. destruct (Z.eqb_spec j i) as [->|Hne].
    + rewrite bool_decide_true by left. by rewrite E.
    + rewrite IH. apply bool_decide_ext_if. rewrite elem_of_cons. naive_solver.
  - rewrite IH. case_bool_decide as Hin.
    + by rewrite bool_decide_true by (by right).
    + case_bool_decide as Hin'; [|done]. apply elem_of_cons in Hin' as [->|]; [by rewrite E|done].
Qed.
Lemma find_category_snapshot keys d k : facts_ok d →
  find_category k (omap (λ k, get_category k d) keys) = if bool_decide (k ∈ keys) then fd_categories d !! k else None.
Proof.
  intros Hd. unfold find_category. induction keys as [|j keys IH]; [done|]. cbn. unfold get_category at 1.
  destruct (fd_categories d !! j) as [c|] eqn:E; cbn.
  - destruct (fok_category d Hd j c E) as [Hc _]. rewrite Hc. destruct (String.eqb_spec j k) as [->|Hne].
    + rewrite bool_decide_true by left. by rewrite E.
    + rewrite IH. apply bool_decide_ext_if. rewrite elem_of_cons. naive_solver.
  - rewrite IH. case_bool_decide as Hin.
    + by rewrite bool_decide_true by (by right).
    + case_bool_decide as Hin'; [|done]. apply elem_of_cons in Hin' as [->|]; [by rewrite E|done].
Qed.
Lemma evidenced_shows d i f : facts_ok d → fd_facts d !! i = Some f → lists i (evidenced d f).2 d.
Proof. intros Hd Hf. destruct (fok_fact d Hd i f Hf) as [<- _]. apply evidence_lists. Qed.
(** A snapshot of [d] shows a fact it was taken of, and one [d] lacks. *)
Lemma snapshot_shows ids keys d i : facts_ok d → i ∈ ids ∨ fd_facts d !! i = None → shows (fs_facts (snapshot ids keys d)) i d.
Proof.
  intros Hd Hi. unfold shows, snapshot. cbn [fs_facts]. rewrite find_fact_snapshot by done. case_bool_decide as Hin.
  - destruct (fd_facts d !! i) as [f|] eqn:E; cbn; [|done]. split; [done|]. by apply evidenced_shows.
  - by destruct Hi.
Qed.
Lemma snapshot_category ids keys d k : facts_ok d → k ∈ keys ∨ fd_categories d !! k = None →
  find_category k (fs_categories (snapshot ids keys d)) = fd_categories d !! k.
Proof.
  intros Hd Hk. unfold snapshot. cbn [fs_categories]. rewrite find_category_snapshot by done. case_bool_decide as Hin; [done|]. by destruct Hk.
Qed.
Lemma snapshot_ids ids keys d i : facts_ok d →
  i ∈ (λ x, fr_id x.1) <$> fs_facts (snapshot ids keys d) ↔ i ∈ ids ∧ is_Some (fd_facts d !! i).
Proof.
  intros Hd. unfold snapshot. cbn [fs_facts]. rewrite <- list_fmap_compose, list_elem_of_fmap. setoid_rewrite list_elem_of_omap. unfold get. split.
  - intros (f & -> & j & Hj & Hf). cbn. destruct (fok_fact d Hd j f Hf) as [-> _]. eauto.
  - intros [Hi [f Hf]]. exists f. cbn. destruct (fok_fact d Hd i f Hf) as [-> _]. eauto.
Qed.
Lemma snapshot_keys ids keys d k : facts_ok d →
  k ∈ cr_key <$> fs_categories (snapshot ids keys d) ↔ k ∈ keys ∧ is_Some (fd_categories d !! k).
Proof.
  intros Hd. unfold snapshot. cbn [fs_categories]. rewrite list_elem_of_fmap. setoid_rewrite list_elem_of_omap. unfold get_category. split.
  - intros (c & -> & j & Hj & Hc). destruct (fok_category d Hd j c Hc) as [-> _]. eauto.
  - intros [Hk [c Hc]]. exists c. destruct (fok_category d Hd k c Hc) as [-> _]. eauto.
Qed.

(** ** What a change has touched so far *)

Record since (d0 : FactDb) (ids : list Z) (keys : list string) (d : FactDb) : Prop := {
  sn_ok : facts_ok d;
  sn_fact i : i ∉ ids → agree_at i d d0;
  sn_category k : k ∉ keys → fd_categories d !! k = fd_categories d0 !! k;
  sn_rest : same_rest d d0 }.
(** Rows that are named although they were there are named from the start. *)
Definition grown {K A} `{EqDecision K, Countable K} (m : gmap K A) (from l : list K) : Prop :=
  from ⊆ l ∧ ∀ k, k ∈ l → k ∈ from ∨ m !! k = None.
Lemma since_start d : facts_ok d → ∀ ids keys, since d ids keys d.
Proof. by split. Qed.
Lemma since_put d0 ids keys d f : since d0 ids keys d → is_Some (fd_facts d !! fr_id f) → fact_checks f = true → fr_id f ∈ ids →
  since d0 ids keys (put_fact f d).
Proof.
  intros Hs Hi Hc Hin. split; [apply put_fact_ok; [apply Hs|done..]| |apply Hs|apply Hs].
  intros i Hn. eapply agree_trans; [apply put_fact_agree; set_solver|by apply (sn_fact _ _ _ _ Hs)].
Qed.
Lemma since_insert d0 ids keys d f : since d0 ids keys d → fact_checks f = true →
  since d0 (ids ++ [new_fact_id d]) keys (insert_fact (new_fact_id d) f d).
Proof.
  intros Hs Hc. split; [apply insert_fact_ok; [apply Hs|apply new_fact_pos|done]| |apply Hs|apply Hs].
  intros i Hn. eapply agree_trans; [apply insert_fact_agree; set_solver|apply (sn_fact _ _ _ _ Hs); set_solver].
Qed.
Lemma since_delete d0 ids keys d i : since d0 ids keys d → i ∈ ids → since d0 ids keys (delete_row i d).
Proof.
  intros Hs Hin. split; [apply delete_row_ok, Hs| |apply Hs|apply Hs].
  intros j Hn. eapply agree_trans; [apply delete_row_agree; set_solver|by apply (sn_fact _ _ _ _ Hs)].
Qed.
Lemma since_put_cat d0 ids keys d c : since d0 ids keys d → cr_default_use c ∈ USES → cr_key c ∈ keys → since d0 ids keys (put_cat c d).
Proof.
  intros Hs Hc Hin. split; [apply put_cat_ok; [apply Hs|done]|apply Hs| |apply Hs].
  intros k Hn. cbn. rewrite lookup_insert_ne by set_solver. by apply (sn_category _ _ _ _ Hs).
Qed.
Lemma since_delete_cat d0 ids keys d k : since d0 ids keys d → k ∈ keys → since d0 ids keys (on_categories (base.delete k) d).
Proof.
  intros Hs Hin. split; [apply delete_category_ok, Hs|apply Hs| |apply Hs].
  intros j Hn. cbn. rewrite lookup_delete_ne by set_solver. by apply (sn_category _ _ _ _ Hs).
Qed.
Lemma since_more d0 ids keys keys' d : since d0 ids keys d → keys ⊆ keys' → since d0 ids keys' d.
Proof. intros Hs Hk. split; [apply Hs|apply Hs| |apply Hs]. intros k Hn. apply (sn_category _ _ _ _ Hs). set_solver. Qed.

(** A key made of a name is free: there are fewer keys that long than tries. *)
Lemma free_key_free fuel (m : gmap string CategoryRow) key :
  size (base.filter (λ k, String.length key ≤ String.length k) (dom m)) < fuel → m !! free_key fuel m key = None.
Proof.
  revert key. induction fuel as [|fuel IH]; intros key Hlt; [lia|]. cbn. case_bool_decide as Hk.
  - apply IH. eapply Nat.lt_le_trans; [|apply Nat.lt_succ_r, Hlt]. apply subset_size. split.
    + intros k. rewrite !elem_of_filter. intros [Hl Hd]. split; [|done]. rewrite length_str_app in Hl. lia.
    + intros Hsub. assert (key ∈ base.filter (λ k, String.length (key +:+ "x") ≤ String.length k) (dom m)) as Hin.
      { apply Hsub, elem_of_filter. split; [done|by apply elem_of_dom]. }
      apply elem_of_filter in Hin as [Hl _]. rewrite length_str_app in Hl. cbn in Hl. lia.
  - destruct (m !! key); [exfalso; eauto|done].
Qed.
Lemma free_key_none (m : gmap string CategoryRow) key : m !! free_key (S (size m)) m key = None.
Proof.
  apply free_key_free, Nat.lt_succ_r. rewrite <- size_dom. apply subseteq_size. intros k. rewrite elem_of_filter. by intros [_ ?].
Qed.

Section applying.
Context `{CoreText, CharText}.

(** Facts are in the category they were in, or in Other. *)
Definition settled (d0 d : FactDb) : Prop :=
  ∀ i f, fd_facts d !! i = Some f → fr_category f = "other" ∨ ∃ f0, fd_facts d0 !! i = Some f0 ∧ fr_category f0 = fr_category f.
Lemma elem_in_category key d f : facts_ok d → f ∈ in_category key d ↔ fd_facts d !! fr_id f = Some f ∧ fr_category f = key.
Proof.
  intros Hd. unfold in_category, listed. rewrite !elem_of_List_filter, String.eqb_eq, bool_decide_eq_true.
  rewrite (merge_sort_Permutation fact_le), list_elem_of_fmap. split.
  - intros (? & ? & [i g] & -> & Hg%elem_of_map_to_list). cbn in *. destruct (fok_fact d Hd i g Hg) as [-> _]. done.
  - intros [Hf ?]. split; [done|]. destruct (fok_fact d Hd _ _ Hf) as (_ & _ & Hc). unfold fact_checks in Hc.
    apply andb_true_iff in Hc as [_ Hc%bool_decide_eq_true_1]. split; [exact Hc|]. exists (fr_id f, f). split; [done|].
    by apply elem_of_map_to_list.
Qed.
Lemma settled_emptied d0 d key f : facts_ok d0 → facts_ok d → settled d0 d → builtin key = None → f ∈ in_category key d →
  fr_id f ∈ emptied_facts d0 (DeleteCategory key).
Proof.
  intros H0' Hd Hs Hb Hf. apply elem_in_category in Hf as [Hf Hk]; [|done].
  destruct (Hs _ _ Hf) as [Ho|(f0 & Hf0 & Hk0)]; [rewrite Hk in Ho; rewrite Ho in Hb; vm_compute in Hb; discriminate Hb|].
  cbn. apply list_elem_of_fmap. exists f0. destruct (fok_fact d0 H0' _ _ Hf0) as [<- _]. split; [done|].
  apply elem_in_category; [done|]. destruct (fok_fact d0 H0' _ _ Hf0) as [-> _]. split; [done|congruence].
Qed.

Lemma settled_put d0 d f : settled d0 d → fr_category f = "other" ∨ fd_facts d !! fr_id f = Some f →
  settled d0 (put_fact f d).
Proof.
  intros Hs Hf i g. cbn. destruct (decide (i = fr_id f)) as [->|Hne].
  - rewrite lookup_insert_eq. intros [= <-]. destruct Hf as [|Hf]; [by left|exact (Hs _ _ Hf)].
  - rewrite lookup_insert_ne by done. apply Hs.
Qed.
Lemma to_other_post d0 ids keys now l d :
  since d0 ids keys d ∧ settled d0 d → (∀ f, f ∈ l → fr_id f ∈ ids) →
  post d (each (to_other now) l) (λ d' _, since d0 ids keys d' ∧ settled d0 d').
Proof.
  intros Hs Hl. apply post_each; [|done]. intros d1 f [H1 H2] Hf. unfold to_other. apply post_bind, post_write_fact; [|done].
  intros Hi Hc. apply post_ret. split; [|apply settled_put; [exact H2|by left]].
  apply since_put; [exact H1|exact Hi|exact Hc|]. exact (Hl _ Hf).
Qed.
Lemma reorder_post d0 ids keys l d :
  since d0 ids keys d ∧ settled d0 d → (∀ x, x ∈ l → x.2 ∈ keys) →
  post d (each reorder_one l) (λ d' _, since d0 ids keys d' ∧ settled d0 d').
Proof.
  intros Hs Hl. apply post_each; [|done]. intros d1 x [H1 H2] Hx. unfold reorder_one. apply post_bind, post_get.
  destruct (get_category x.2 d1) as [c|] eqn:E; [|done]. destruct (cr_builtin c); [done|].
  apply post_put_category. intros Hu. unfold get_category in E.
  destruct (fok_category d1 (sn_ok _ _ _ _ H1) _ _ E) as [Hk _]. split; [|exact H2].
  apply since_put_cat; [done|done|]. cbn. rewrite Hk. by apply Hl.
Qed.
Lemma edit_category_post d0 ids set stored now st c d :
  facts_ok d0 → since d0 ids st.2 d ∧ settled d0 d → touched_keys c ⊆ st.2 → emptied_facts d0 c ⊆ ids →
  post d (edit_category set stored now st c) (λ d' st',
    (since d0 ids st'.2 d' ∧ settled d0 d') ∧ grown (fd_categories d0) st.2 st'.2).
Proof.
  intros H0' [Hs Ht] Hk Hi.
  assert (∀ l, grown (fd_categories d0) l l) as Hg by (intros l; split; [done|by left]).
  assert (∀ c, cr_default_use c ∈ USES → cr_key c ∈ st.2 → (since d0 ids st.2 (put_cat c d) ∧ settled d0 (put_cat c d)) ∧
              grown (fd_categories d0) st.2 st.2) as Hput.
  { intros c' Hu Hin. split; [|apply Hg]. split; [by apply since_put_cat|exact Ht]. }
  destruct c as [name desc|key name desc|key hidden|l|key]; cbn [touched_keys edit_category] in *.
  - apply post_bind, post_check; intros _. apply post_bind, post_check; intros _. apply post_bind, post_get.
    set (key := free_key _ _ _). assert (fd_categories d !! key = None) as Hfree by apply free_key_none.
    apply post_bind, post_put_category. intros Hu. apply post_ret. cbn. split; [split; [|exact Ht]|split; [set_solver|]].
    + apply since_put_cat; [eapply since_more; [done|set_solver]|done|]. cbn. set_solver.
    + intros k [Hk'|Hk']%elem_of_app; [by left|]. apply list_elem_of_singleton in Hk' as ->.
      destruct (decide (key ∈ st.2)); [by left|right]. by rewrite <- (sn_category _ _ _ _ Hs).
  - apply post_bind, post_get, post_bind, post_some. intros c Hc. apply post_bind, post_check; intros _.
    apply post_bind, post_put_category. intros Hu. apply post_ret. apply Hput; [done|].
    destruct (get_category key d) as [c'|] eqn:E; [|done]. cbn in Hc. destruct (cr_builtin c'); [done|injection Hc as <-].
    cbn. destruct (fok_category d (sn_ok _ _ _ _ Hs) _ _ E) as [-> _]. set_solver.
  - apply post_bind, post_get. apply post_bind.
    apply (post_mono d _ (λ d' c, d' = d ∧ cr_key c = key)).
    + intros d' c [-> Hc]. apply post_bind, post_put_category. intros Hu. apply post_ret. apply Hput; [done|]. set_solver.
    + destruct (get_category key d) as [c'|] eqn:E.
      * apply post_ret. split; [done|]. cbn. by destruct (fok_category d (sn_ok _ _ _ _ Hs) _ _ E) as [-> _].
      * apply post_bind, post_some. intros b Hb. apply post_ret. split; [done|]. apply find_some in Hb as [_ Hb]. by apply String.eqb_eq in Hb.
  - apply post_bind. eapply post_mono; [|apply (reorder_post d0 ids st.2); [done|]].
    + intros d' ? Hs'. by apply post_ret.
    + intros x (i & y & -> & Hy)%elem_of_lookup_imap. apply Hk. by eapply list_elem_of_lookup_2.
  - apply post_bind, post_check. intros Hb. apply post_bind, post_get, post_bind.
    assert (builtin key = None) as Hb' by (destruct (builtin key); [by rewrite bool_decide_true in Hb by eauto|done]).
    eapply post_mono; [|apply (to_other_post d0 ids st.2)]; [|done|].
    + intros d' ? [Hs' Ht']. apply post_bind, post_do, post_ret. split; [split; [|exact Ht']|apply Hg].
      apply since_delete_cat; [done|set_solver].
    + intros f Hf. apply Hi. apply (settled_emptied d0 d key f H0' (sn_ok _ _ _ _ Hs) Ht Hb' Hf).
Qed.

Lemma change_fact_post d0 ids keys id f d :
  since d0 ids keys d → id ∈ ids → (∀ r, fr_id (f r) = fr_id r) →
  post d (change_fact id f) (λ d' _, since d0 ids keys d').
Proof.
  intros Hs Hi Hf. unfold change_fact. apply post_bind, post_get, post_bind, post_some. intros r Hr.
  destruct (fok_fact d (sn_ok _ _ _ _ Hs) _ _ Hr) as [Hid _].
  apply post_bind, post_write_fact; [|done]. intros Hin Hc. apply post_ret, since_put; [done..|]. by rewrite Hf, Hid.
Qed.
Lemma edit_fact_post d0 keys added now ids e d :
  since d0 ids keys d → (∀ i, edited_id e = Some i → i ∈ ids) →
  post d (edit_fact added now ids e) (λ d' ids', since d0 ids' keys d' ∧ grown (fd_facts d0) ids ids').
Proof.
  intros Hs Hi.
  assert (∀ l, grown (fd_facts d0) l l) as Hg by (intros l; split; [done|by left]).
  destruct e as [f status source|id f|id status|id|id share]; cbn [edit_fact edited_id] in *.
  - apply post_bind, post_insert_fact; [done|]. intros Hc. apply post_ret. split; [by apply since_insert|]. split; [set_solver|].
    intros i [Hin|Hin]%elem_of_app; [by left|]. apply list_elem_of_singleton in Hin as ->.
    destruct (decide (new_fact_id d ∈ ids)) as [|Hn]; [by left|right].
    destruct (sn_fact _ _ _ _ Hs _ Hn) as [<- _]. apply new_fact_none.
  - apply post_bind. eapply post_mono; [|apply (change_fact_post d0 ids keys); [done|by apply Hi|done]]. intros d' ? Hs'. by apply post_ret.
  - apply post_bind. eapply post_mono; [|apply (change_fact_post d0 ids keys); [done|by apply Hi|done]]. intros d' ? Hs'. by apply post_ret.
  - apply post_bind, post_do, post_ret. split; [|done]. apply since_delete; [done|by apply Hi].
  - apply post_bind. eapply post_mono; [|apply (change_fact_post d0 ids keys); [done|by apply Hi|done]]. intros d' ? Hs'. by apply post_ret.
Qed.
Lemma grown_trans {K A} `{EqDecision K, Countable K} (m : gmap K A) l1 l2 l3 : grown m l1 l2 → grown m l2 l3 → grown m l1 l3.
Proof. intros [Ha Hb] [Hc Hd]. split; [by etrans|]. intros k Hk. destruct (Hd k Hk) as [Hk'|]; [by apply Hb|by right]. Qed.

(** A change recorded: what its snapshots are of. *)
Definition recorded (d0 d : FactDb) (ids0 ids : list Z) (keys0 keys : list string) (reason : string) (now : Millis) (d' : FactDb) : Prop :=
  facts_ok d0 ∧ since d0 ids keys d ∧ grown (fd_facts d0) ids0 ids ∧ grown (fd_categories d0) keys0 keys ∧
  record_change reason (snapshot ids0 keys0 d0) (snapshot ids keys d) now d = Ok (d', (fd_change_seq d + 1)%Z).
Lemma apply_change_recorded scope edits category_edits reason set now d0 :
  facts_ok d0 →
  post d0 (apply_change scope edits category_edits reason None set now) (λ d' c,
    ∃ d ids0 ids keys0 keys, recorded d0 d ids0 ids keys0 keys reason now d' ∧ twin ids d = None ∧
      omap edited_id edits ⊆ ids0 ∧
      c = mkFactChange (fd_change_seq d + 1) (info now scope <$> fs_facts (snapshot ids keys d)) keys).
Proof.
  intros H0'. unfold apply_change.
  apply post_bind, post_get, post_bind, post_get, post_bind, post_get, post_bind, post_ret.
  set (ids0 := omap edited_id edits ++ mjoin (emptied_facts d0 <$> category_edits)).
  set (keys0 := mjoin (touched_keys <$> category_edits)).
  apply post_bind.
  apply (post_mono d0 _ (λ d (st : list (string * string) * list string),
    (since d0 ids0 st.2 d ∧ settled d0 d) ∧ grown (fd_categories d0) keys0 st.2)).
  { intros d1 [added keys] [[Hs Ht] Hk]. cbn in Hs, Hk. apply post_bind.
    apply (post_mono d1 _ (λ d ids, since d0 ids keys d ∧ grown (fd_facts d0) ids0 ids)).
    - intros d ids [Hs' Hi]. apply post_bind, post_get, post_bind.
      destruct (twin ids d) as [f|] eqn:Etw; [done|]. apply post_ret. apply post_bind, post_get, post_bind.
      unfold post at 1. destruct (record_change _ _ _ now d) as [[d' c]|] eqn:Er; [|done]. apply post_ret.
      assert (c = (fd_change_seq d + 1)%Z) as -> by by injection Er.
      exists d, ids0, ids, keys0, keys. split; [split; [done|split; [done|split; [done|split; [done|exact Er]]]]|].
      split; [done|]. split; [set_solver|done].
    - apply post_folding; [|split; [done|split; [done|by left]]]. intros d2 ids e [Hs2 Hg2] He.
      eapply post_mono; [|apply (edit_fact_post d0 keys); [done|]].
      + intros d3 ids3 [Hs3 Hg3]. split; [done|by eapply grown_trans].
      + intros i Hi. apply Hg2. unfold ids0. apply elem_of_app. left. apply list_elem_of_omap. eauto. }
  apply post_folding.
  - intros d2 st c [[Hs2 Ht2] Hg2] Hc. eapply post_mono; [|apply (edit_category_post d0 ids0); [done|done| |]].
    + intros d3 st3 [Hs3 Hg3]. split; [done|by eapply grown_trans].
    + etrans; [|apply Hg2]. intros k Hk. unfold keys0. apply list_elem_of_join. exists (touched_keys c). split; [done|].
      apply list_elem_of_fmap. eauto.
    + intros i Hi. unfold ids0. apply elem_of_app. right. apply list_elem_of_join. exists (emptied_facts d0 c). split; [done|].
      apply list_elem_of_fmap. eauto.
  - split; [split; [by apply since_start|]|split; [done|by left]]. intros i f Hf. right. by exists f.
Qed.
End applying.

(** ** Undo and redo of a change *)

Definition store_of (scope : FactScope) (s : Stores) : FactDb := match scope with AccountFact => st_account s | GlobalFact => st_global s end.
Definition put_store (scope : FactScope) (d : FactDb) (s : Stores) : Stores :=
  match scope with AccountFact => mkStores d (st_global s) | GlobalFact => mkStores (st_account s) d end.
Lemma in_scope_runs {A} scope (t : Transactions.Tx FactDb A) s :
  in_scope scope t s = '(d, a) ← t (store_of scope s); Ok (put_store scope d s, a).
Proof. by destruct scope. Qed.
Lemma store_put scope d s : store_of scope (put_store scope d s) = d.
Proof. by destruct scope. Qed.
Lemma put_put scope d d' s : put_store scope d (put_store scope d' s) = put_store scope d s.
Proof. by destruct scope. Qed.

Lemma recorded_change reason before after now d d' c : record_change reason before after now d = Ok (d', c) →
  get_change c d' = Some (reason, before, after) ∧
  fd_facts d' = fd_facts d ∧ fd_evidence d' = fd_evidence d ∧ fd_categories d' = fd_categories d.
Proof.
  unfold record_change, tx_new. intros [= <- <-]. split; [|done]. unfold get_change. cbn.
  rewrite (map_lookup_filter_Some_2 _ _ _ (mkFactChangeRow reason before after now)); [done|by rewrite lookup_insert_eq|].
  cbn. unfold KEPT_CHANGES. lia.
Qed.
#[local] Abbreviation Call := (Attempt (@db_answer Stores) CoreError).
(** Calls run alone. *)
Lemma run_bind {A B} now (p : Call A) (f : A → Call B) s :
  db_run now (run_try (p ≫= f)) s =
  let '(s1, r) := db_run now (run_try p) s in match r with Ok a => db_run now (run_try (f a)) s1 | Err e => (s1, Err e) end.
Proof. unfold mbind at 1, try_bind. cbn [run_try]. rewrite db_run_bind. by destruct (db_run _ _ _) as [s1 [a|e]]. Qed.
Lemma run_write {A} now scope (t : Transactions.Tx FactDb A) s :
  db_run now (run_try (write scope t)) s =
  match t (store_of scope s) with Ok (d, a) => (put_store scope d s, Ok a) | Err e => (s, Err (from_store e)) end.
Proof.
  unfold write, mbind at 1, try_bind. cbn. unfold commit. rewrite in_scope_runs. by destruct (t _) as [[d a]|e].
Qed.
Lemma run_now now s : db_run now (run_try (op (answer := @db_answer Stores) (E := CoreError) Now)) s = (s, Ok now).
Proof. done. Qed.
(** Between changes, a replay restores one side of the one it is of. *)
Lemma replay_facts_runs scope c (undo : bool) at_ s reason before after d2 :
  get_change c (store_of scope s) = Some (reason, before, after) →
  fs_global_facts before = [] → fs_global_facts after = [] → fs_global_categories before = [] → fs_global_categories after = [] →
  (let t := touched (fs_facts before) (fs_facts after) (fs_categories before) (fs_categories after) in
   restore t.1 t.2 (if undo then before else after) at_ (store_of scope s) = Ok (d2, ())) →
  db_run at_ (run_try (replay_facts scope c undo)) s = (put_store scope d2 s, Ok ()).
Proof.
  intros Hc Hb Ha Hcb Hca Hr.
  assert (is_empty (fs_global_facts (if undo then before else after)) = true) as He by (destruct undo; by rewrite ?Hb, ?Ha).
  unfold replay_facts. rewrite run_bind, run_now, run_bind, run_write.
  assert (replay_of c (store_of scope s) = Ok (store_of scope s, (before, after))) as ->.
  { unfold replay_of, mbind, tx_bind, tx_get. rewrite Hc. done. }
  cbv iota. rewrite He. rewrite run_bind. unfold restore_here.
  destruct (touched (fs_facts before) _ _ _) as [ids keys]. cbn [fst snd] in Hr. rewrite run_write, store_put, Hr, put_put.
  unfold restore_global. rewrite Hb, Ha, Hcb, Hca. done.
Qed.

Lemma elem_touched a b ca cb i : i ∈ (touched a b ca cb).1 ↔ i ∈ (λ x, fr_id x.1) <$> a ∨ i ∈ (λ x, fr_id x.1) <$> b.
Proof. cbn. by rewrite (merge_sort_Permutation Z.le), elem_of_remove_dups, fmap_app, elem_of_app. Qed.
Lemma elem_touched_keys a b ca cb k : k ∈ (touched a b ca cb).2 ↔ k ∈ cr_key <$> ca ∨ k ∈ cr_key <$> cb.
Proof. cbn. by rewrite (merge_sort_Permutation string_leb), elem_of_remove_dups, fmap_app, elem_of_app. Qed.

Section recorded.
Context (d0 d d' : FactDb) (ids0 ids : list Z) (keys0 keys : list string) (reason : string) (now : Millis).
Context (Hrec : recorded d0 d ids0 ids keys0 keys reason now d').
#[local] Abbreviation before := (snapshot ids0 keys0 d0).
#[local] Abbreviation after := (snapshot ids keys d).
#[local] Abbreviation T := (touched (fs_facts before) (fs_facts after) (fs_categories before) (fs_categories after)).

Lemma recorded_ok : facts_ok d0 ∧ facts_ok d.
Proof. destruct Hrec as (? & Hs & _). split; [done|apply Hs]. Qed.
Lemma touched_id i : i ∈ T.1 → i ∈ ids ∧ (i ∈ ids0 ∨ fd_facts d0 !! i = None).
Proof.
  destruct recorded_ok as [H0 Hd], Hrec as (_ & _ & [Hsub Hg] & _).
  rewrite elem_touched, !snapshot_ids by done. intros [[Hi _]|[Hi _]]; [split; [by apply Hsub|by left]|split; [done|by apply Hg]].
Qed.
Lemma touched_key k : k ∈ T.2 → k ∈ keys ∧ (k ∈ keys0 ∨ fd_categories d0 !! k = None).
Proof.
  destruct recorded_ok as [H0 Hd], Hrec as (_ & _ & _ & [Hsub Hg] & _).
  rewrite elem_touched_keys, !snapshot_keys by done. intros [[Hi _]|[Hi _]]; [split; [by apply Hsub|by left]|split; [done|by apply Hg]].
Qed.
Lemma untouched_fact i : i ∉ T.1 → agree_at i d d0.
Proof.
  destruct recorded_ok as [H0 Hd], Hrec as (_ & Hs & [Hsub Hg] & _).
  rewrite elem_touched, !snapshot_ids by done. intros Hn. destruct (decide (i ∈ ids)) as [Hi|Hi]; [|by apply (sn_fact _ _ _ _ Hs)].
  assert (fd_facts d !! i = None) as Hd' by (apply eq_None_not_Some; tauto).
  apply agree_none; [done..|]. destruct (Hg i Hi) as [Hi0|]; [|done]. apply eq_None_not_Some. tauto.
Qed.
Lemma untouched_category k : k ∉ T.2 → fd_categories d !! k = fd_categories d0 !! k.
Proof.
  destruct recorded_ok as [H0 Hd], Hrec as (_ & Hs & _ & [Hsub Hg] & _).
  rewrite elem_touched_keys, !snapshot_keys by done. intros Hn. destruct (decide (k ∈ keys)) as [Hk|Hk]; [|by apply (sn_category _ _ _ _ Hs)].
  assert (fd_categories d !! k = None) as -> by (apply eq_None_not_Some; tauto).
  destruct (Hg k Hk) as [Hk0|]; [|done]. symmetry. apply eq_None_not_Some. tauto.
Qed.
(** From a store with what one side has, the other side is put back. *)
Lemma recorded_replays (undo : bool) e at_ :
  facts_ok e → same_facts e (if undo then d else d0) →
  ∃ e', restore T.1 T.2 (if undo then before else after) at_ e = Ok (e', ()) ∧ facts_ok e' ∧
        same_facts e' (if undo then d0 else d) ∧ fd_changes e' = fd_changes e.
Proof.
  intros He [Hf Hc]. destruct recorded_ok as [H0 Hd].
  destruct (restore_run T.1 T.2 (if undo then before else after) at_ e (if undo then d0 else d)) as (e' & Er & He' & Hi & Hi' & Hk & Hk' & Hr & _);
    [done|by destruct undo|by destruct undo| | |].
  - intros i Hi. destruct (touched_id i Hi). destruct undo; apply snapshot_shows; [done|done|done|by left].
  - intros k Hk. destruct (touched_key k Hk). destruct undo; apply snapshot_category; [done|done|done|by left].
  - exists e'. split; [done|]. split; [done|]. split; [|done]. split.
    + intros i. destruct (decide (i ∈ T.1)) as [Hin|Hin]; [by apply Hi|]. eapply agree_trans; [by apply Hi'|].
      eapply agree_trans; [apply Hf|]. destruct undo; [by apply untouched_fact|apply agree_sym; by apply untouched_fact].
    + apply map_eq. intros k. destruct (decide (k ∈ T.2)) as [Hin|Hin]; [by apply Hk|]. rewrite Hk', Hc by done.
      destruct undo; [by apply untouched_category|symmetry; by apply untouched_category].
Qed.
End recorded.

(** * What makes changing the facts about the user correct *)

Import FactStore.
Import FactEdits.


Section undo.
Context `{CoreText, CharText}.

(** C12. A change of facts and categories is undone exactly and redone
    exactly, in whichever store it was made: after any edits applied as one
    change, undoing it does not fail and gives back every fact with its
    evidence and every category, deleted ones and those moved to Other
    included, and redoing it then gives what the change had made; the other
    store is left alone. *)
Theorem fact_change_undone (s s1 : Stores) (scope : FactScope) (edits : list FactEdit) (category_edits : list CategoryEdit)
    (reason : string) (set : option StarterSet) (now undo_at redo_at : Millis) (c : FactChange) :
  facts_ok (store_of scope s) →
  in_scope scope (apply_change scope edits category_edits reason None set now) s = Ok (s1, c) →
  ∃ d2, db_run undo_at (run_try (replay_facts scope (fh_change_id c) true)) s1 = (put_store scope d2 s, Ok ()) ∧
        same_facts d2 (store_of scope s) ∧
  ∃ d3, db_run redo_at (run_try (replay_facts scope (fh_change_id c) false)) (put_store scope d2 s) = (put_store scope d3 s, Ok ()) ∧
        same_facts d3 (store_of scope s1).
Proof.
  intros H0' Ha. rewrite in_scope_runs in Ha.
  destruct (apply_change _ _ _ _ _ _ _ (store_of scope s)) as [[d' c']|] eqn:E; [|done]. injection Ha as <- <-.
  destruct (post_ok _ _ _ _ _ (apply_change_recorded scope edits category_edits reason set now _ H0') E)
    as (d & ids0 & ids & keys0 & keys & Hrec & _ & _ & ->). cbn [fh_change_id].
  pose proof Hrec as (_ & _ & _ & _ & Hr). destruct (recorded_change _ _ _ _ _ _ _ Hr) as (Hget & Hf & He & Hc).
  destruct (recorded_ok _ _ _ _ _ _ _ _ _ Hrec) as [_ Hd].
  assert (same_facts d' d) as Hsame by (split; [intros i; split; [by rewrite Hf|intros m; unfold quote_at; by rewrite He]|done]).
  assert (facts_ok d') as Hd'.
  { split; [rewrite Hf; apply Hd|rewrite Hf, He; apply Hd|rewrite Hc; apply Hd]. }
  destruct (recorded_replays _ _ _ _ _ _ _ _ _ Hrec true d' undo_at Hd' Hsame) as (d2 & Er & H2 & Hs2 & Hl2).
  exists d2. split; [|split; [done|]].
  { pose proof (replay_facts_runs scope (fd_change_seq d + 1) true undo_at (put_store scope d' s) reason (snapshot ids0 keys0 (store_of scope s)) (snapshot ids keys d) d2) as Hrun.
    rewrite store_put, put_put in Hrun. by apply (Hrun Hget). }
  destruct (recorded_replays _ _ _ _ _ _ _ _ _ Hrec false d2 redo_at H2 Hs2) as (d3 & Er3 & H3 & Hs3 & Hl3).
  exists d3. split.
  - pose proof (replay_facts_runs scope (fd_change_seq d + 1) false redo_at (put_store scope d2 s) reason (snapshot ids0 keys0 (store_of scope s)) (snapshot ids keys d) d3) as Hrun.
    rewrite store_put, put_put in Hrun. apply Hrun; [|done..|exact Er3].
    unfold get_change. rewrite Hl2. exact Hget.
  - rewrite store_put. destruct Hs3 as [Hf3 Hc3], Hsame as [Hfs Hcs]. split; [|congruence].
    intros i. eapply agree_trans; [apply Hf3|]. apply agree_sym, Hfs.
Qed.
End undo.

Section labels.
Context `{CoreText, CharText}.

(** No two accepted facts of a category have a label that differs in case
    only. *)
Definition one_per_label (d : FactDb) : Prop := ∀ i j f g,
  fd_facts d !! i = Some f → fd_facts d !! j = Some g → fr_status f = "accepted" → fr_status g = "accepted" →
  fr_category f = fr_category g → lower (fr_label f) = lower (fr_label g) → i = j.
Lemma elem_of_accepted d f i : fd_facts d !! i = Some f → fr_status f = "accepted" → f ∈ listed ["accepted"] d.
Proof.
  intros Hf Hs. unfold listed. apply elem_of_List_filter. split; [rewrite Hs; reflexivity|].
  rewrite (merge_sort_Permutation fact_le). apply list_elem_of_fmap. exists (i, f). split; [done|]. by apply elem_of_map_to_list.
Qed.
Lemma no_twins ids d i j f g : twin ids d = None → i ∈ ids → fr_id f = i → fr_id g = j →
  fd_facts d !! i = Some f → fd_facts d !! j = Some g → fr_status f = "accepted" → fr_status g = "accepted" →
  fr_category f = fr_category g → lower (fr_label f) = lower (fr_label g) → i = j.
Proof.
  intros Ht Hi Hfi Hgj Hf Hg Hsf Hsg Hc Hl. destruct (decide (i = j)) as [|Hne]; [done|]. exfalso.
  pose proof (elem_of_accepted d f i Hf Hsf) as Hfa. pose proof (elem_of_accepted d g j Hg Hsg) as Hga.
  unfold twin in Ht. apply (find_none _ _) with (x := f) in Ht; [|by apply list_elem_of_In].
  rewrite Hfi, bool_decide_true in Ht by done. apply Nat.ltb_ge in Ht.
  rewrite count_List_filter in Ht.
  assert (length [f; g] ≤ length (List.filter (same_label f) (listed ["accepted"] d))) as Hlen; [|cbn in Hlen; lia].
  apply submseteq_length, NoDup_submseteq.
  - constructor; [|apply NoDup_singleton]. intros E%list_elem_of_singleton. congruence.
  - intros x [->|[->|[]%not_elem_of_nil]%elem_of_cons]%elem_of_cons; apply elem_of_List_filter; unfold same_label;
      rewrite ?Hc, ?Hl, !String.eqb_refl; done.
Qed.
(** C14. One accepted fact per label in a category: where this holds, any
    edits of facts and categories applied as one change leave it so, however
    they add, rename, accept or move facts, to other categories or, when
    theirs is deleted, to Other; a change that would break it fails. *)
Theorem labels_stay_unique (d0 : FactDb) (scope : FactScope) (edits : list FactEdit) (category_edits : list CategoryEdit)
    (reason : string) (set : option StarterSet) (now : Millis) (d1 : FactDb) (c : FactChange) :
  facts_ok d0 → one_per_label d0 →
  apply_change scope edits category_edits reason None set now d0 = Ok (d1, c) →
  facts_ok d1 ∧ one_per_label d1.
Proof.
  intros H0' Hu E.
  destruct (post_ok _ _ _ _ _ (apply_change_recorded scope edits category_edits reason set now _ H0') E)
    as (d & ids0 & ids & keys0 & keys & (_ & Hs & _ & _ & Hr) & Ht & _ & _).
  destruct (recorded_change _ _ _ _ _ _ _ Hr) as (_ & Ef & Ee & Ec). pose proof (sn_ok _ _ _ _ Hs) as Hd. split.
  { split; [rewrite Ef; apply Hd|rewrite Ef, Ee; apply Hd|rewrite Ec; apply Hd]. }
  unfold one_per_label. rewrite Ef. intros i j f g Hf Hg Hsf Hsg Hc Hl.
  destruct (fok_fact d Hd i f Hf) as [Hfi _], (fok_fact d Hd j g Hg) as [Hgj _].
  destruct (decide (i ∈ ids)) as [Hi|Hi]; [by apply (no_twins ids d i j f g)|].
  destruct (decide (j ∈ ids)) as [Hj|Hj]; [symmetry; by apply (no_twins ids d j i g f)|].
  destruct (sn_fact _ _ _ _ Hs i Hi) as [Ei _], (sn_fact _ _ _ _ Hs j Hj) as [Ej _].
  apply (Hu i j f g); [congruence|congruence|exact Hsf|exact Hsg|exact Hc|exact Hl].
Qed.
End labels.

(** ** Moving a fact between the stores *)

(** Each transaction commits, or fails for a reason of its own and nothing
    of it is kept. *)
Definition flaky (s : Stores) (o : DbOp Stores) (a : db_answer o) (s' : Stores) : Prop :=
  db_does s o a s' ∨ match o return db_answer o → Prop with InTx _ => λ a, s' = s ∧ ∃ e, a = Err e | Now => λ _, False end a.
Lemma flaky_write {A} (P : Stores → Prop) s scope (t : Transactions.Tx FactDb A) Q X :
  P s → X s → post (store_of scope s) t (λ d a, Q (put_store scope d s) a) →
  tswp flaky (λ s _, P s) s (write scope t) Q X.
Proof.
  intros HP HX Ht. unfold write. op_step; [done|]. intros a s' [Hs|[-> [e ->]]]; [|done].
  cbn in Hs. unfold commit in Hs. rewrite in_scope_runs in Hs. unfold post in Ht.
  destruct (t (store_of scope s)) as [[d b]|e]; injection Hs as <- <-; done.
Qed.
Lemma flaky_now (P : Stores → Prop) s Q X : P s → (∀ t, Q s t) →
  tswp flaky (λ s _, P s) s (op (answer := @db_answer Stores) (E := CoreError) Now) Q X.
Proof. intros HP HQ. op_step; [done|]. intros a s' [Hs|[]]. cbn in Hs. subst. apply HQ. Qed.

(** The same fact, whatever its id and when it was last changed. *)
Definition copy_of (f g : FactRow) : Prop := with_fr_updated 0 (with_fr_id 0 f) = with_fr_updated 0 (with_fr_id 0 g).
Definition has (f : FactRow) (d : FactDb) : Prop := ∃ i g, fd_facts d !! i = Some g ∧ copy_of f g.
Definition somewhere (f : FactRow) (s : Stores) : Prop := has f (st_account s) ∨ has f (st_global s).
Lemma has_store f scope s : has f (store_of scope s) → somewhere f s.
Proof. by destruct scope; [left|right]. Qed.
Lemma has_put f scope d s : has f d → somewhere f (put_store scope d s).
Proof. by destruct scope; [left|right]. Qed.
Lemma has_put_other f scope d s : has f (store_of (other_store scope) s) → somewhere f (put_store scope d s).
Proof. by destruct scope; [right|left]. Qed.

(** A snapshot's row under its id. *)
Definition one_of (f : FactRow) (l : list Evidenced) : Prop := ∃ x, l = [x] ∧ fr_id x.1 ≠ 0%Z ∧ copy_of f x.1.
(** The account's log has the move: the fact is on one side before it and
    on the other after. *)
Definition tracked (c : Z) (f : FactRow) (s : Stores) : Prop :=
  somewhere f s ∧ ∃ reason before after, get_change c (st_account s) = Some (reason, before, after) ∧
  (one_of f (fs_facts before) ∧ fs_global_facts before = [] ∧ fs_facts after = [] ∧ one_of f (fs_global_facts after) ∨
   fs_facts before = [] ∧ one_of f (fs_global_facts before) ∧ one_of f (fs_facts after) ∧ fs_global_facts after = []).
Lemma copy_refl f : copy_of f f.
Proof. done. Qed.
Lemma get_id i d f : facts_ok d → fd_facts d !! i = Some f → fr_id f = i ∧ fr_id f ≠ 0%Z.
Proof. intros Hd Hf. destruct (fok_fact d Hd i f Hf) as (-> & ? & _). split; [done|lia]. Qed.

Lemma add_evidence_facts i l now d : post d (add_evidence i l now) (λ d' _, fd_facts d' = fd_facts d ∧ fd_changes d' = fd_changes d).
Proof.
  apply (post_each (λ d', fd_facts d' = fd_facts d ∧ fd_changes d' = fd_changes d)); [|done]. intros d1 q Hd _. unfold add_quote. by tx_steps.
Qed.
Lemma move_in_post to e category now d :
  post d (move_in to e category now) (λ d' r,
    let '(moved, _, _) := r in fd_changes d' = fd_changes d ∧ fd_facts d' !! fr_id moved.1 = Some moved.1 ∧
    fr_id moved.1 ≠ 0%Z ∧ copy_of e.1 moved.1).
Proof.
  unfold move_in. apply post_bind, post_where; intros _. apply post_bind, post_get, post_bind.
  apply (post_mono d _ (λ d1 _, fd_changes d1 = fd_changes d)).
  - intros d1 [] E1. apply post_bind, post_insert_fact; [done|]. intros _. set (id := new_fact_id d1). set (d2 := insert_fact _ _ d1).
    apply post_bind. eapply (post_mono d2 _ (λ d3 _, fd_facts d3 = fd_facts d2 ∧ fd_changes d3 = fd_changes d2)).
    + intros d3 [] [Ef Ec]. tx_steps. unfold get. rewrite Ef. cbn. rewrite lookup_insert_eq. cbn.
      rewrite lookup_insert_eq, Ec. pose proof (new_fact_pos d1). subst id. split; [done|]. split; [done|]. split; [cbn; lia|done].
    + destruct to; [apply add_evidence_facts|done].
  - destruct category as [c|]; [|done]. destruct (category_there _ d); [done|]. by apply post_put_category.
Qed.
Lemma move_out_post to e moved before after now d f :
  copy_of f e.1 → fr_id e.1 ≠ 0%Z → copy_of f moved.1 → fr_id moved.1 ≠ 0%Z →
  (to = GlobalFact → fd_facts d !! fr_id e.1 = Some e.1) →
  post d (move_out to e moved before after now) (λ d' c,
    fd_facts d' = (if bool_decide (to = GlobalFact) then base.delete (fr_id e.1) (fd_facts d) else fd_facts d) ∧
    ∃ reason b a, get_change c d' = Some (reason, b, a) ∧
    (one_of f (fs_facts b) ∧ fs_global_facts b = [] ∧ fs_facts a = [] ∧ one_of f (fs_global_facts a) ∨
     fs_facts b = [] ∧ one_of f (fs_global_facts b) ∧ one_of f (fs_facts a) ∧ fs_global_facts a = [])).
Proof.
  intros He Hi Hm Hmi Hg. unfold move_out. destruct to.
  - unfold post. destruct (record_change _ _ _ now d) as [[d' c]|] eqn:E; [|done].
    destruct (recorded_change _ _ _ _ _ _ _ E) as (Hget & Ef & _). split; [done|]. do 3 eexists. split; [exact Hget|]. right.
    split; [done|]. split; [|split; [|done]]; eexists; (split; [reflexivity|done]).
  - apply post_bind, post_get. unfold get. rewrite Hg by done. cbn [fst evidenced]. apply post_bind, post_do.
    unfold post. destruct (record_change _ _ _ now _) as [[d' c]|] eqn:E; [|done].
    destruct (recorded_change _ _ _ _ _ _ _ E) as (Hget & Ef & _). split; [done|]. do 3 eexists. split; [exact Hget|]. left.
    split; [|split; [done|split; [done|]]]; eexists; (split; [reflexivity|done]).
Qed.
Lemma store_other scope d s : store_of (other_store scope) (put_store scope d s) = store_of (other_store scope) s.
Proof. by destruct scope. Qed.
Lemma put_same scope s : put_store scope (store_of scope s) s = s.
Proof. by destruct scope, s. Qed.
Lemma move_read_post id d : post d (move_read id) (λ d' r, d' = d ∧ ∃ f, fd_facts d !! id = Some f ∧ r.1 = evidenced d f).
Proof. unfold move_read. apply post_bind, post_get, post_bind, post_some. intros f Hf. apply post_get. split; [done|]. by exists f. Qed.

Lemma move_fact_keeps id to s f :
  facts_ok (st_account s) → facts_ok (st_global s) → fd_facts (store_of (other_store to) s) !! id = Some f →
  tswp flaky (λ s _, somewhere f s) s (move_fact id to) (λ s' c, tracked (fh_change_id c) f s') (somewhere f).
Proof.
  intros Ha Hg Hf.
  assert (somewhere f s) as H0 by (eapply (has_store f (other_store to)); exists id, f; done).
  destruct (get_id id (store_of (other_store to) s) f ltac:(by destruct to) Hf) as [Hid Hi0].
  unfold move_fact. apply tswp_bind, flaky_write; [done|done|].
  eapply post_mono; [|apply move_read_post]. intros d0 [e category] (-> & f' & Hf' & He). cbn [fst] in He. rewrite put_same.
  assert (f' = f) as -> by congruence. subst e.
  apply tswp_bind, flaky_now; [done|]. intros now. apply tswp_bind, flaky_write; [done|done|].
  eapply post_mono; [|apply move_in_post]. intros d1 [[moved before] after] (Hc1 & Hm & Hm0 & Hcopy).
  set (s1 := put_store to d1 s).
  assert (somewhere f s1) as H1 by (apply has_put; by exists (fr_id moved.1), moved.1).
  apply tswp_bind. apply flaky_write; [done|done|].
  eapply post_mono; [|apply (move_out_post to (evidenced (store_of (other_store to) s) f) moved before after now (st_account s1) f);
    [done|done|exact Hcopy|exact Hm0|]].
  - intros d2 c (Ef & reason & b & a & Hget & Hside). set (s2 := put_store AccountFact d2 s1).
    assert (somewhere f s2) as H2.
    { destruct to; cbn in Ef.
      - left. exists (fr_id moved.1), moved.1. cbn. rewrite Ef. done.
      - right. by exists (fr_id moved.1), moved.1. }
    assert (tracked c f s2) as H3 by (split; [exact H2|by exists reason, b, a]).
    destruct to; cbn [bool_decide] in *.
    + apply tswp_bind, flaky_write; [done|done|]. apply post_do. apply tswp_bind, flaky_now.
      * left. exists (fr_id moved.1), moved.1. cbn. by rewrite Ef.
      * intros t. apply tswp_ret. split; [|by exists reason, b, a]. left. exists (fr_id moved.1), moved.1. cbn. by rewrite Ef.
    + apply tswp_bind, tswp_ret, tswp_bind, flaky_now; [done|]. intros t. by apply tswp_ret.
  - intros ->. subst s1. cbn in *. by rewrite Hid.
Qed.

(** What restoring one side of a move leaves there. *)
Lemma restore_fact_post l now i d : i ≠ 0%Z → post d (restore_fact l now i) (λ d' _, fd_changes d' = fd_changes d ∧
  ∀ x, l = [x] → fr_id x.1 = i → fd_facts d' !! i = Some x.1).
Proof.
  intros Hi. unfold restore_fact. destruct (find_fact i l) as [[f q]|] eqn:E.
  - assert (fr_id f = i) as Hf by (apply find_some in E as [_ E%Z.eqb_eq]; exact E).
    assert (∀ x, l = [x] → fr_id x.1 = i → x.1 = f) as Hx.
    { intros x -> Hxi. cbn in E. rewrite Hxi, Z.eqb_refl in E. by injection E as ->. }
    assert (∀ d1, fd_changes d1 = fd_changes d → fd_facts d1 !! i = Some f →
      post d1 (_ ← tx_do (on_evidence (without_quotes i)); add_evidence i q now) (λ d' _, fd_changes d' = fd_changes d ∧
        ∀ x, l = [x] → fr_id x.1 = i → fd_facts d' !! i = Some x.1)) as Hrest.
    { intros d1 Hc Hd1. apply post_bind, post_do. eapply post_mono; [|apply add_evidence_facts]. cbn. intros d2 [] [Ef Ec].
      rewrite Ef, Ec. split; [done|]. intros x Hl Hxi. by rewrite (Hx x Hl Hxi). }
    apply post_bind, post_write_fact.
    + intros _ _. apply post_bind, post_ret, Hrest; [done|]. cbn. by rewrite Hf, lookup_insert_eq.
    + intros Hn. apply post_bind. unfold post. destruct (insert f d) as [[d1 n]|] eqn:Ei; [|done].
      assert (fact_checks f = true) as Hc.
      { destruct (fact_checks f) eqn:Ec; [done|]. unfold insert, mbind, tx_bind, tx_get, tx_check in Ei. cbn in Ei. by rewrite Ec in Ei. }
      rewrite insert_known in Ei by (done || lia). injection Ei as <- <-.
      apply Hrest; [done|]. cbn. rewrite Hf, lookup_insert_eq. by rewrite <- Hf, with_same_id.
  - apply post_do. split; [done|]. intros x -> Hxi. cbn in E. by rewrite Hxi, Z.eqb_refl in E.
Qed.
Lemma restore_side ids keys to now d i : ids = [i] → i ≠ 0%Z →
  post d (restore ids keys to now) (λ d' _, fd_changes d' = fd_changes d ∧
    ∀ f, one_of f (fs_facts to) → (∀ x, fs_facts to = [x] → fr_id x.1 = i) → has f d').
Proof.
  intros -> Hi. unfold restore. apply post_bind.
  apply (post_mono d _ (λ d1 _, fd_changes d1 = fd_changes d ∧ ∀ x, fs_facts to = [x] → fr_id x.1 = i → fd_facts d1 !! i = Some x.1)).
  - intros d1 [] [Hc Hx]. apply post_bind.
    apply (post_mono d1 _ (λ d2 _, fd_changes d2 = fd_changes d1 ∧ fd_facts d2 = fd_facts d1)).
    + intros d2 [] [Hc2 Hf2]. unfold in_analysis. apply post_within. unfold post. destruct (Proposals.restore_proposals _ _ _) as [[a []]|]; [|done].
      cbn. split; [congruence|]. intros f (x & El & _ & Hcopy) Hid. exists i, x.1. cbn. rewrite Hf2. split; [by apply Hx; [|apply Hid]|done].
    + apply (post_each (λ d2, fd_changes d2 = fd_changes d1 ∧ fd_facts d2 = fd_facts d1)); [|done]. intros d2 k [E1 E2] _.
      unfold restore_category. destruct (find_category k _); [by apply post_put_category|by apply post_do].
  - apply post_bind. eapply post_mono; [|by apply restore_fact_post]. intros d1 [] Hd. by apply post_ret.
Qed.
Lemma touched_one a b ca cb x : (a = [x] ∧ b = []) ∨ (a = [] ∧ b = [x]) → (touched a b ca cb).1 = [fr_id x.1].
Proof. by intros [[-> ->]|[-> ->]]. Qed.
Lemma tracked_put c f scope d s : tracked c f s → (scope = AccountFact → fd_changes d = fd_changes (st_account s)) →
  somewhere f (put_store scope d s) → tracked c f (put_store scope d s).
Proof.
  intros [_ (reason & b & a & Hget & Hside)] Hc Hs. split; [done|]. exists reason, b, a. split; [|done].
  destruct scope; [|done]. unfold get_change in *. cbn. by rewrite Hc.
Qed.
(** One side put back where the fact is. *)
Lemma restore_here_keeps c f s before after to now x Q :
  tracked c f s → (fs_facts before = [x] ∧ fs_facts after = [] ∨ fs_facts before = [] ∧ fs_facts after = [x]) → fr_id x.1 ≠ 0%Z →
  has f (st_global s) ∨ (fs_facts to = [x] ∧ copy_of f x.1) →
  (∀ d, tracked c f (put_store AccountFact d s) → (fs_facts to = [x] → copy_of f x.1 → has f d) → Q (put_store AccountFact d s) ()) →
  tswp flaky (λ s _, tracked c f s) s (restore_here AccountFact before after to now) Q (tracked c f).
Proof.
  intros Ht Hx Hx0 Hhas HQ. unfold restore_here. pose proof (touched_one _ _ (fs_categories before) (fs_categories after) _ Hx) as Et.
  destruct (touched _ _ _ _) as [ids keys]. apply flaky_write; [done|done|].
  eapply post_mono; [|by apply (restore_side ids keys to now _ (fr_id x.1))]. intros d [] [Hc Hr].
  assert (fs_facts to = [x] → copy_of f x.1 → has f d) as Hd.
  { intros Hto Hcopy. apply Hr; [by exists x|]. intros y Hy. rewrite Hto in Hy. by injection Hy as <-. }
  apply HQ; [|exact Hd]. apply tracked_put; [done|by intros|]. destruct Hhas as [Hg|[Hto Hcopy]]; [by right|left; by apply Hd].
Qed.
Lemma restore_global_keeps c f s before after to now x Q :
  tracked c f s → (fs_global_facts before = [x] ∧ fs_global_facts after = [] ∨ fs_global_facts before = [] ∧ fs_global_facts after = [x]) →
  fr_id x.1 ≠ 0%Z → has f (st_account s) ∨ (fs_global_facts to = [x] ∧ copy_of f x.1) →
  (∀ d, tracked c f (put_store GlobalFact d s) → (fs_global_facts to = [x] → copy_of f x.1 → has f d) → Q (put_store GlobalFact d s) ()) →
  tswp flaky (λ s _, tracked c f s) s (restore_global before after to now) Q (tracked c f).
Proof.
  intros Ht Hx Hx0 Hhas HQ. unfold restore_global.
  pose proof (touched_one _ _ (fs_global_categories before) (fs_global_categories after) _ Hx) as Et.
  destruct (touched _ _ _ _) as [ids keys]. cbn [fst] in Et. rewrite Et. cbn [is_empty andb]. apply flaky_write; [done|done|].
  eapply post_mono; [|by apply (restore_side _ keys (global_side to) now _ (fr_id x.1))]. intros d [] [Hc Hr].
  assert (fs_global_facts to = [x] → copy_of f x.1 → has f d) as Hd.
  { intros Hto Hcopy. apply Hr; cbn; rewrite Hto; [by exists x|]. intros y Hy. by injection Hy as <-. }
  apply HQ; [|exact Hd]. apply tracked_put; [done|done|]. destruct Hhas as [Ha|[Hto Hcopy]]; [by left|right; by apply Hd].
Qed.
Lemma replay_facts_keeps c f (undo : bool) s :
  tracked c f s → tswp flaky (λ s _, tracked c f s) s (replay_facts AccountFact c undo) (λ s' _, tracked c f s') (tracked c f).
Proof.
  intros Ht. pose proof Ht as [_ (reason & before & after & Hget & Hside)].
  unfold replay_facts. apply tswp_bind, flaky_now; [done|]. intros now. apply tswp_bind, flaky_write; [done|done|].
  unfold replay_of. apply post_bind, post_get, post_bind. cbn [store_of]. rewrite Hget. apply post_ret, post_ret.
  change (put_store AccountFact (st_account s) s) with (put_store AccountFact (store_of AccountFact s) s). rewrite put_same.
  cbn [fst snd]. set (to := if undo then before else after).
  assert (∃ x y, (fs_facts before = [x] ∧ fs_facts after = [] ∨ fs_facts before = [] ∧ fs_facts after = [x]) ∧ fr_id x.1 ≠ 0%Z ∧ copy_of f x.1 ∧
                 (fs_global_facts before = [y] ∧ fs_global_facts after = [] ∨ fs_global_facts before = [] ∧ fs_global_facts after = [y]) ∧
                 fr_id y.1 ≠ 0%Z ∧ copy_of f y.1 ∧ (fs_global_facts to = [] ∧ fs_facts to = [x] ∨ fs_global_facts to = [y]))
    as (x & y & Hx & Hx0 & Hxc & Hy & Hy0 & Hyc & Hto).
  { subst to. destruct Hside as [((x & Ex & Hx0 & Hxc) & Eg & Ef & (y & Ey & Hy0 & Hyc))|(Ef & (y & Ey & Hy0 & Hyc) & (x & Ex & Hx0 & Hxc) & Eg)];
      exists x, y; rewrite Ex, Ey, Ef, Eg; (repeat split; auto); destruct undo; rewrite ?Ex, ?Ey, ?Ef, ?Eg; auto. }
  destruct Hto as [[Eg Ef]|Eg]; rewrite Eg; cbn [is_empty]; apply tswp_bind.
  - apply (restore_here_keeps c f s before after to now x); [done|done|done|by right|]. intros d Hd Hh.
    apply (restore_global_keeps c f _ before after to now y); [done|done|done|left; by apply Hh|]. by intros d' Hd' _.
  - apply (restore_global_keeps c f s before after to now y); [done|done|done|by right|]. intros d Hd Hh.
    apply (restore_here_keeps c f _ before after to now x); [done|done|done|left; by apply Hh|]. by intros d' Hd' _.
Qed.

(** C13. A fact moved between an account and the facts of every account is
    never lost.  Wherever a transaction of the move fails, or the app is
    stopped, one of the stores has it; and once moved, any undo and redo,
    failing anywhere, leave it in one of them, so that the next can go on. *)
Theorem moved_fact_never_lost (s : Stores) (id : Z) (to : FactScope) (f : FactRow) :
  facts_ok (st_account s) → facts_ok (st_global s) → fd_facts (store_of (other_store to) s) !! id = Some f →
  swp flaky (λ s _, somewhere f s) s (run_try (move_fact id to))
    (λ s' r, match r with Ok c => tracked (fh_change_id c) f s' | Err _ => somewhere f s' end) ∧
  ∀ c undo s', tracked c f s' →
    swp flaky (λ s _, tracked c f s) s' (run_try (replay_facts AccountFact c undo)) (λ s'' _, tracked c f s'').
Proof.
  intros Ha Hg Hf. split; [by apply move_fact_keeps|]. intros c undo s' Ht.
  eapply swp_mono; [|apply (replay_facts_keeps c f undo s' Ht)]. by intros s'' [|].
Qed.

(** ** On a small store *)

#[local] Instance plain_chars : CharText := {| alphanumeric := ascii_alphanumeric; char_lower := ascii_lower; char_upper := λ s, s |}.
#[local] Instance plain_text : CoreText :=
  {| lower := ascii_lower; json_write := λ _, ""; json_read := λ _, None; json_first := λ _, None |}.
Definition no_analysis : Proposals.AnalysisDb := Proposals.mkAnalysis ∅ 0 ∅ ∅.
Definition empty_facts : FactDb := mkFactDb ∅ 0 ∅ ∅ ∅ 0 no_analysis.
Definition team : FactRow := mkFactRow 3 "c10" "Team" "Mail" "free" None "learned" "accepted" 1 1 None.
Definition home : CategoryRow := mkCategoryRow "c10" "Projects" "What I work on" 1 false false "free" None 1.
Definition some_facts : FactDb :=
  mkFactDb {[3%Z := team]} 3 {[(3%Z, "m1") := ("our team, Mail", 1%Z)]} {["c10" := home]} ∅ 0 no_analysis.
Definition two_stores : Stores := mkStores some_facts empty_facts.
Lemma empty_facts_ok : facts_ok empty_facts.
Proof. split; cbn; intros; [by rewrite lookup_empty in *|by destruct H; rewrite lookup_empty in *|by rewrite lookup_empty in *]. Qed.
Lemma some_facts_ok : facts_ok some_facts.
Proof.
  split; cbn.
  - intros i f [<- <-]%lookup_singleton_Some. done.
  - intros i m [q [E _]%lookup_singleton_Some]. injection E as <- _. by exists team.
  - intros k c [<- <-]%lookup_singleton_Some. split; [done|]. by left.
Qed.
(** The category deleted, its fact renamed and one added. *)
Definition some_edits : list FactEdit :=
  [Update 3 (mkFactFields "other" "Team" "Mail and Calendar" Ask None);
   Add (mkFactFields "work" "Organisation" "Actual AI" Free None) FactAccepted You].
Definition some_category_edits : list CategoryEdit := [DeleteCategory "c10"; HideCategory "people" true].

Lemma fact_change_undone_witness :
  ∃ s1 c, in_scope AccountFact (apply_change AccountFact some_edits some_category_edits "edit" None None 5) two_stores = Ok (s1, c) ∧
  (∃ d2, db_run 6 (run_try (replay_facts AccountFact (fh_change_id c) true)) s1 = (put_store AccountFact d2 two_stores, Ok ()) ∧
        same_facts d2 some_facts ∧
  ∃ d3, db_run 7 (run_try (replay_facts AccountFact (fh_change_id c) false)) (put_store AccountFact d2 two_stores) =
          (put_store AccountFact d3 two_stores, Ok ()) ∧
        same_facts d3 (st_account s1)) ∧
  size (fd_facts (st_account s1)) = 2 ∧ fd_categories (st_account s1) !! "c10" = None.
Proof.
  destruct (in_scope AccountFact (apply_change AccountFact some_edits some_category_edits "edit" None None 5) two_stores) as [[s1 c]|e] eqn:E;
    [|vm_compute in E; discriminate E].
  exists s1, c. split; [reflexivity|]. split.
  - exact (fact_change_undone two_stores s1 AccountFact some_edits some_category_edits "edit" None 5 6 7 c some_facts_ok E).
  - vm_compute in E. injection E as <- _. by vm_compute.
Defined.
Lemma labels_stay_unique_witness :
  ∃ d1 c, apply_change AccountFact some_edits some_category_edits "edit" None None 5 some_facts = Ok (d1, c) ∧
  facts_ok d1 ∧ one_per_label d1 ∧ size (fd_facts d1) = 2.
Proof.
  destruct (apply_change AccountFact some_edits some_category_edits "edit" None None 5 some_facts) as [[d1 c]|e] eqn:E;
    [|vm_compute in E; discriminate E].
  exists d1, c. split; [reflexivity|].
  destruct (labels_stay_unique some_facts AccountFact some_edits some_category_edits "edit" None 5 d1 c some_facts_ok) as [H1 H2].
  - unfold one_per_label. cbn [some_facts fd_facts]. intros i j f g [<- <-]%lookup_singleton_Some [<- <-]%lookup_singleton_Some. done.
  - exact E.
  - split; [exact H1|]. split; [exact H2|]. vm_compute in E. injection E as <- _. by vm_compute.
Defined.
Lemma moved_fact_never_lost_witness :
  fd_facts some_facts !! 3%Z = Some team ∧
  swp flaky (λ s _, somewhere team s) two_stores (run_try (move_fact 3 GlobalFact))
    (λ s' r, match r with Ok c => tracked (fh_change_id c) team s' | Err _ => somewhere team s' end) ∧
  ∃ s1 c, db_run 5 (run_try (move_fact 3 GlobalFact)) two_stores = (s1, Ok c) ∧ fd_facts (st_account s1) = ∅ ∧
    size (fd_facts (st_global s1)) = 1.
Proof.
  split; [reflexivity|]. split.
  - exact (proj1 (moved_fact_never_lost two_stores 3 GlobalFact team some_facts_ok empty_facts_ok eq_refl)).
  - destruct (db_run 5 (run_try (move_fact 3 GlobalFact)) two_stores) as [s1 [c|e]] eqn:E; [|vm_compute in E; discriminate E].
    exists s1, c. split; [reflexivity|]. vm_compute in E. injection E as <- _. by vm_compute.
Defined.
