(* ===== verification/FactGlean.v ===== *)
(** * FactGlean: facts in the mail the user sends
    ([kaluta-core/src/analysis_glean.rs])

    The request for the day's sent mail, the agent's answer read, with what
    must never be stored dropped before there is a proposal, and the
    proposals decided as one change of the facts. *)

From Stdlib Require Import Ascii.
From S2P Require Import Prelude.
From S2P Require Import Domain.
From S2P Require Import Text.
From S2P Require Import Json.
From S2P Require Import MailStore.
From S2P Require Import Agents.
From S2P Require Import Facade.
From S2P Require Import Guide.
From S2P Require Import Effects.
From S2P Require Import Transactions.
From S2P Require Import ProposalStore.
From S2P Require Import GuideStore.
From S2P Require Import GuideEdits.
From S2P Require Import GuideLearn.
From S2P Require Import FactStore.
From S2P Require Import FactEdits.
Import GuideLearn.
Import FactStore.
Import FactEdits.

Module FactGlean.

Definition GLEAN_CAP : nat := 30.
Definition CATEGORY_FACTS : nat := 3.
Definition STARTER_REVIEWS : Z := 3.
Definition TEXT_CAP : nat := 3000.
Definition QUOTE_CAP : nat := 300.
Inductive FactsFrom := FactsOff | MailWrittenWithAi | AllMailISend.
#[export] Instance facts_from_eq_dec : EqDecision FactsFrom.
Proof. solve_decision. Defined.
Definition facts_from_text (f : FactsFrom) : string :=
  match f with FactsOff => "off" | MailWrittenWithAi => "ai" | AllMailISend => "all" end.
Definition parse_facts_from (s : option string) : FactsFrom :=
  match s with
  | Some s => if String.eqb s "off" then FactsOff else if String.eqb s "all" then AllMailISend else MailWrittenWithAi
  | None => MailWrittenWithAi
  end.
Record Sent := mkSentText { sx_message : string; sx_text : string }.
Record FactPayload := mkPayload {
  fp_kind : string; fp_category : string; fp_label : string; fp_value : string; fp_as_of : option Millis; fp_fact_id : option Z;
  fp_message : string; fp_quote : string; fp_name : string; fp_description : string; fp_fact_ids : list Z; fp_starter : string }.
Definition no_payload : FactPayload := mkPayload "" "" "" "" None None "" "" "" "" [] "".
Definition fact_payload (category label value : string) (as_of : option Millis) (fact : option Z) (message quote : string) : FactPayload :=
  mkPayload "fact" category label value as_of fact message quote "" "" [] "".
Inductive Found :=
| FoundAdd (p : FactPayload)
| FoundAlter (p : FactPayload)
| FoundRemove (p : FactPayload)
| FoundCategory (p : FactPayload)
| FoundStarter (p : FactPayload).

(** ** The payload, as serde derives it *)

Definition payload_json (p : FactPayload) : Json :=
  JObject [("kind", JString (fp_kind p)); ("category", JString (fp_category p)); ("label", JString (fp_label p));
           ("value", JString (fp_value p)); ("as_of", json_opt json_int (fp_as_of p)); ("fact_id", json_opt json_int (fp_fact_id p));
           ("message_id", JString (fp_message p)); ("quote", JString (fp_quote p)); ("name", JString (fp_name p));
           ("description", JString (fp_description p)); ("fact_ids", JArray (json_int <$> fp_fact_ids p));
           ("starter", JString (fp_starter p))].
Definition payload_names : list string :=
  ["kind"; "category"; "label"; "value"; "as_of"; "fact_id"; "message_id"; "quote"; "name"; "description"; "fact_ids"; "starter"].
Definition payload_fields (v : Json) : option Fields :=
  match v with
  | JObject fields => Some (λ n, lookup_field n fields)
  | JArray l => if length l =? length payload_names then Some (array_fields (field <$> payload_names) l) else None
  | _ => None
  end.
Definition ints_of (v : Json) : option (list Z) := as_array v ≫= mapM as_i64.
Definition payload_of_json (v : Json) : option FactPayload :=
  f ← payload_fields v;
  kind ← required as_str f "kind"; category ← required as_str f "category"; label ← required as_str f "label";
  value ← required as_str f "value"; as_of ← optional as_i64 f "as_of"; fact ← optional as_i64 f "fact_id";
  message ← required as_str f "message_id"; quote ← required as_str f "quote"; name ← required as_str f "name";
  description ← required as_str f "description"; ids ← required ints_of f "fact_ids"; starter ← required as_str f "starter";
  Some (mkPayload kind category label value as_of fact message quote name description ids starter).

(** ** What must never be stored *)

Definition ascii_digit (c : string) : bool := List.existsb (String.eqb c) ["0"; "1"; "2"; "3"; "4"; "5"; "6"; "7"; "8"; "9"].
Definition SECRETS : list string :=
  ["password"; "passcode"; "passphrase"; " pin "; "pin:"; "pin code"; "security code"; "cvv"; "one-time code"].
Definition SECRET_WORDS : list string := ["ssn"; "sin"; "pwd"; "pw"; "acct"].
Definition IDS : list string := [
  "social security"; "door code"; "gate code"; "alarm code"; "account no"; "passport"; "driver's licen"; "drivers licen";
  "national insurance"; "tax id"; "taxpayer"; "iban"; "routing number"; "sort code"; "account number"; "card number"; "credit card";
  "debit card"].
Definition PHONES : list string := ["phone"; "mobile"; "cell"; "fax"; "whatsapp"; "landline"; "tel"].
Definition HEALTH : list string := [
  "diagnos"; "illness"; "disease"; "cancer"; "pregnan"; "medication"; "surgery"; "therapy"; "depress"; "anxiety"; "hospital";
  "disabilit"; "condition"; "treatment"].
Definition any_in (l : list string) (s : string) : bool := List.existsb (λ w, contains w s) l.

Section glean.
Context `{HC : CoreText} `{HA : CharText}.
(** The noon of a date as [YYYY-MM-DD], in milliseconds ([chrono]). *)
Context (read_date : string → option Millis).

Definition never_store (category label value : string) : bool :=
  let text := lower (label +:+ " " +:+ value) in
  let words := split_chars (λ c, negb (alphanumeric c)) text in
  let digits := length (List.filter ascii_digit (chars value)) in
  let phone := any_in PHONES (lower label) && (digits <=? 15) in
  let only_number := forallb (λ c, ascii_digit c || List.existsb (String.eqb c) [" "; "-"; "."; "/"]) (chars value) in
  any_in SECRETS (" " +:+ text +:+ " ") ||
  List.existsb (λ w, bool_decide (w ∈ words)) SECRET_WORDS ||
  any_in IDS text ||
  (9 <=? digits) && negb phone && (only_number || (13 <=? digits)) ||
  List.existsb (λ run, (String.length run =? 9) && contains "-" value) (split_chars (λ c, negb (ascii_digit c)) value) ||
  String.eqb category "people" && (any_in HEALTH text || (12 <? length (split_whitespace value))).
(** Whether a quote states a value: a word of it, of three letters or
    with a digit, is in the quote. *)
Definition states (quote value : string) : bool :=
  let words := lower <$> List.filter (λ w, (3 <=? length (chars w)) || List.existsb ascii_digit (chars w))
                           (split_chars (λ c, negb (alphanumeric c)) value) in
  is_empty words || any_in words (GuideAnswers.loose quote).

(** ** The request *)

Definition mine (f : FactInfo) : bool := bool_decide (fn_status f = FactAccepted) && bool_decide (fn_scope f = AccountFact).
Definition category_line (c : FactCategoryInfo) : string :=
  fg_key c +:+ " (" +:+ fenced (fg_name c) +:+ "): " +:+ fenced (fg_description c).
Definition known_line (f : FactInfo) : string :=
  "#" +:+ pretty (fn_id f) +:+ " [" +:+ fn_category f +:+ "] " +:+ fenced (fn_label f) +:+ ": " +:+ fenced (fn_value f).
Definition sent_block (m : Sent) : string :=
  "<message id=" +:+ quoted (sx_message m) +:+ ">" +:+ NL +:+ fenced (take_chars TEXT_CAP (sx_text m)) +:+ NL +:+ "</message>".
Definition GLEAN_MARKER : string := "Kaluta facts glean".
Definition LOOK_TEXT : string :=
"Below are emails the user sent (their own words only). Find facts about the user and their work that an assistant drafting email for them could use: who they are, how to reach them, when they are available, who the people they mention are to them, their work, their preferences, and anything that fits one of their own categories.

Never propose: passwords or codes; card, bank or account numbers; government ids; health details about anyone else; anything about another person beyond their name, role and how the user knows them.

Categories (key (name): what belongs there):
".
Definition GLEAN_TEXT : string := GuideAnswers.said
"Answer with only a JSON object, and nothing else:
{`facts`: [{`op`: `add`, `category`: `work`, `label`: `Team`, `value`: `...`, `as_of`: null or `YYYY-MM-DD` for facts that age, `evidence`: {`message_id`: `...`, `quote`: `words from that message`}}, {`op`: `alter`, `id`: 12, `value`: `the new value`, `evidence`: {...}}, {`op`: `remove`, `id`: 12, `evidence`: {...}}], `categories`: [{`name`: `...`, `description`: `...`, `facts`: [ids of facts in other]}], `starter_set`: null or `business` or `freelance` or `household` or `job_search`}

- Only facts the messages state; never guess. Quote the words that state each one.
- Propose a category only for three or more facts in other that belong together.
- Name a starter set only when the facts plainly fit it (company facts on a work account: business).
- Do not use tools, and do not create, change, send or delete any mail.".
Definition prompt (sent : list Sent) (categories : list FactCategoryInfo) (facts : list FactInfo) : string :=
  let known := join NL (known_line <$> List.filter mine facts) in
  GLEAN_MARKER +:+ NL +:+ NL +:+ LOOK_TEXT +:+ join NL (category_line <$> List.filter (λ c, negb (fg_hidden c)) categories) +:+
  NL +:+ NL +:+ "Facts already known (alter or remove them by #id rather than repeating them):" +:+ NL +:+
  (if String.eqb known "" then "(none)" else known) +:+ NL +:+ NL +:+ join (NL +:+ NL) (sent_block <$> sent) +:+ NL +:+ NL +:+ GLEAN_TEXT.

(** ** Its answer *)

Definition tidy (cap : nat) (v : option string) : string := take_chars cap (GuideEdits.clean_text (default "" v)).
Definition my_fact (facts : list FactInfo) (id : Z) : option FactInfo := List.find (λ f, (fn_id f =? id)%Z && mine f) facts.
Definition by_label (facts : list FactInfo) (category label : string) : option FactInfo :=
  List.find (λ k, mine k && String.eqb (fn_category k) category && String.eqb (lower (fn_label k)) (lower label)) facts.
Definition found_already (out : list Found) (category label : string) : bool :=
  List.existsb (λ o, match o with
                     | FoundAdd q => String.eqb (fp_category q) category && String.eqb (lower (fp_label q)) (lower label)
                     | _ => false
                     end) out.
(** What a fact of the answer comes to, after those found before it. *)
Definition fact_of (sent : list Sent) (categories : list FactCategoryInfo) (facts : list FactInfo) (out : list Found) (f : Json) : option Found :=
  let message := default "" (e ← get_key "evidence" f; text_at "message_id" e) in
  let quote := tidy QUOTE_CAP (e ← get_key "evidence" f; text_at "quote" e) in
  m ← List.find (λ m, String.eqb (sx_message m) message) (reverse sent);
  if (length (split_whitespace quote) <? 2) || negb (contains (GuideAnswers.loose quote) (GuideAnswers.loose (fenced (sx_text m)))) then None else
  let as_of := text_at "as_of" f ≫= read_date in
  let o := default "add" (text_at "op" f) in
  if String.eqb o "add" then
    let named := default "" (text_at "category" f) in
    c ← List.find (λ c, String.eqb (fg_key c) named || nocase_eqb (fg_name c) named) categories;
    let label := tidy 80 (text_at "label" f) in
    let value := tidy 400 (text_at "value" f) in
    if String.eqb label "" || String.eqb value "" || never_store (fg_key c) label value || negb (states quote value) then None else
    match by_label facts (fg_key c) label with
    | Some k => if String.eqb (GuideAnswers.loose (fn_value k)) (GuideAnswers.loose value) then None
                else Some (FoundAlter (fact_payload (fg_key c) (fn_label k) value as_of (Some (fn_id k)) message quote))
    | None => if found_already out (fg_key c) label then None
              else Some (FoundAdd (fact_payload (fg_key c) label value as_of None message quote))
    end
  else if String.eqb o "alter" then
    old ← int_at "id" f ≫= my_fact facts;
    let value := tidy 400 (text_at "value" f) in
    if String.eqb value "" || String.eqb (GuideAnswers.loose value) (GuideAnswers.loose (fn_value old)) ||
       never_store (fn_category old) (fn_label old) value then None else
    Some (FoundAlter (fact_payload (fn_category old) (fn_label old) value as_of (Some (fn_id old)) message quote))
  else if String.eqb o "remove" then
    old ← int_at "id" f ≫= my_fact facts;
    Some (FoundRemove (fact_payload (fn_category old) (fn_label old) (fn_value old) as_of (Some (fn_id old)) message quote))
  else None.
Definition add_found (sent : list Sent) (categories : list FactCategoryInfo) (facts : list FactInfo) (out : list Found) (f : Json) : list Found :=
  match fact_of sent categories facts out f with Some x => out ++ [x] | None => out end.
Definition category_of (categories : list FactCategoryInfo) (facts : list FactInfo) (c : Json) : option Found :=
  let name := tidy 60 (text_at "name" c) in
  let in_other := fn_id <$> List.filter (λ f, String.eqb (fn_category f) "other" && bool_decide (fn_scope f = AccountFact)) facts in
  let ids := List.filter (λ id, bool_decide (id ∈ in_other)) (GuideAnswers.ints "facts" c) in
  if String.eqb name "" || (length ids <? CATEGORY_FACTS) || List.existsb (λ k, similar (fg_name k) name) categories then None else
  Some (FoundCategory (mkPayload "category" "" "" "" None None "" "" name (tidy 200 (text_at "description" c)) ids "")).
Definition STARTER_IDS : list string := ["business"; "freelance"; "household"; "job_search"].
Definition starter_of (v : Json) : list Found :=
  match text_at "starter_set" v with
  | Some s => if bool_decide (s ∈ STARTER_IDS) then [FoundStarter (mkPayload "starter" "" "" "" None None "" "" "" "" [] s)] else []
  | None => []
  end.
Definition parse (text : string) (sent : list Sent) (categories : list FactCategoryInfo) (facts : list FactInfo) : option (list Found) :=
  v ← GuideAnswers.object_in ["facts"] text;
  Some (foldl (add_found sent categories facts) [] (items "facts" v) ++ omap (category_of categories facts) (items "categories" v) ++
        starter_of v).

(** ** Proposing it *)

Definition payload_of (f : Found) : FactPayload :=
  match f with FoundAdd p | FoundAlter p | FoundRemove p | FoundCategory p | FoundStarter p => p end.
Definition proposal_op (f : Found) : string := match f with FoundAlter _ => "edit" | FoundRemove _ => "remove" | _ => "add" end.
Definition proposal_key (f : Found) : string :=
  let id p := pretty (default 0%Z (fp_fact_id p)) in
  match f with
  | FoundAdd p => "add|" +:+ fp_category p +:+ "|" +:+ GuideAnswers.loose (fp_label p) +:+ "|" +:+ GuideAnswers.loose (fp_value p)
  | FoundAlter p => "alter|" +:+ id p +:+ "|" +:+ GuideAnswers.loose (fp_value p)
  | FoundRemove p => "remove|" +:+ id p
  | FoundCategory p => "category|" +:+ GuideAnswers.loose (fp_name p)
  | FoundStarter p => "starter|" +:+ fp_starter p
  end.
Definition proposal (f : Found) : Proposals.NewProposal :=
  let p := payload_of f in
  Proposals.mkNewProposal "fact" (proposal_op f) (fp_fact_id p) (fp_category p) (Some (fp_kind p))
    (match f with FoundCategory p => fp_name p | FoundStarter p => fp_starter p | _ => fp_label p +:+ ": " +:+ fp_value p end)
    "{}" (proposal_key f) None (Some (json_write (payload_json p)))
    (match f with FoundStarter _ => STARTER_REVIEWS | _ => 1%Z end).
Definition propose (now : Millis) (f : Found) : Transactions.Tx Proposals.AnalysisDb () :=
  _ ← Proposals.upsert_counted (proposal f) now; mret ().
Definition merge_found (found : list Found) (now : Millis) : Transactions.Tx Proposals.AnalysisDb () := each (propose now) found.

(** ** Deciding *)

Section deciding.
Context (no_global : bool).
Abbreviation Call := (Attempt (@db_answer Stores) CoreError).

Definition read_payload (r : Proposals.ProposalRow) : FactPayload :=
  default no_payload (t ← Proposals.po_payload r; j ← json_read t; payload_of_json j).
Definition default_use (categories : list FactCategoryInfo) (category : string) : FactUse :=
  default Free (fg_default_use <$> List.find (λ c, String.eqb (fg_key c) category) categories).
(** What the proposals accepted come to, one after the other. *)
Record Accepting := mkAccepting { ac_edits : list FactEdit; ac_categories : list CategoryEdit; ac_starters : list string }.
Definition with_edits (l : list FactEdit) (a : Accepting) : Accepting := mkAccepting (ac_edits a ++ l) (ac_categories a) (ac_starters a).
Definition own_fact (facts : list FactInfo) (id : Z) : option FactInfo :=
  List.find (λ f, (fn_id f =? id)%Z && bool_decide (fn_scope f = AccountFact)) facts.
Definition accept_row (categories : list FactCategoryInfo) (uses : gmap Z FactUse) (a : Accepting) (r : Proposals.ProposalRow) : Call Accepting :=
  let p := read_payload r in
  let chosen := uses !! Proposals.po_id r in
  if String.eqb (fp_kind p) "fact" && String.eqb (Proposals.po_op r) "add" then
    mret (M := Call) (with_edits [Add (mkFactFields (fp_category p) (fp_label p) (fp_value p)
                                         (default (default_use categories (fp_category p)) chosen) (fp_as_of p)) FactAccepted Learned] a)
  else if String.eqb (fp_kind p) "fact" && String.eqb (Proposals.po_op r) "edit" then
    match fp_fact_id p with
    | None => mret a
    | Some id =>
        facts ← list_facts no_global [FactAccepted];
        mret match own_fact facts id with
             | Some old => with_edits [Update id (mkFactFields (fn_category old) (fn_label old) (fp_value p) (default (fn_use old) chosen)
                                                    (match fp_as_of p with Some t => Some t | None => fn_as_of old end))] a
             | None => a
             end
    end
  else if String.eqb (fp_kind p) "fact" && String.eqb (Proposals.po_op r) "remove" then
    mret (with_edits (Delete <$> list_of (fp_fact_id p)) a)
  else if String.eqb (fp_kind p) "category" then
    facts ← list_facts no_global [FactAccepted];
    let moved := omap (λ id, f ← own_fact (List.filter (λ f, String.eqb (fn_category f) "other") facts) id;
                             Some (Update id (mkFactFields (fp_name p) (fn_label f) (fn_value f) (fn_use f) (fn_as_of f)))) (fp_fact_ids p) in
    mret (mkAccepting (ac_edits a ++ moved) (ac_categories a ++ [AddCategory (fp_name p) (fp_description p)]) (ac_starters a))
  else if String.eqb (fp_kind p) "starter" then
    mret (mkAccepting (ac_edits a) (ac_categories a) (ac_starters a ++ [fp_starter p]))
  else mret a.
Fixpoint accept_rows (categories : list FactCategoryInfo) (uses : gmap Z FactUse) (a : Accepting) (rows : list Proposals.ProposalRow) : Call Accepting :=
  match rows with
  | [] => mret a
  | r :: rows => a ← accept_row categories uses a r; accept_rows categories uses a rows
  end.
Definition starter_named (s : string) : StarterSet :=
  if String.eqb s "business" then Business else if String.eqb s "freelance" then Freelance
  else if String.eqb s "household" then Household else JobSearch.
(** A starter set's categories, part of the same change. *)
Fixpoint add_starters (l : list string) (edits : list CategoryEdit) (set : option StarterSet) : Call (list CategoryEdit * option StarterSet) :=
  match l with
  | [] => mret (edits, set)
  | s :: l =>
      let set := starter_named s in
      have ← fact_categories no_global;
      let more := List.filter (λ c, negb (List.existsb (λ h, similar (fg_name h) c.1) have)) (starter_categories set) in
      add_starters l (edits ++ ((λ c, AddCategory c.1 c.2) <$> more)) (Some set)
  end.
Definition decide_fact_proposals (rows : list Proposals.ProposalRow) (accept : bool) (uses : gmap Z FactUse) : Call FactChange :=
  let ids := Proposals.po_id <$> rows in
  if negb accept then apply_facts_with no_global AccountFact [] [] "analysis reject" (Some (ids, "rejected")) else
  categories ← fact_categories no_global;
  a ← accept_rows categories uses (mkAccepting [] [] []) rows;
  '(categories, set) ← add_starters (ac_starters a) (ac_categories a) None;
  apply_facts_full no_global AccountFact (ac_edits a) categories "analysis accept" (Some (ids, "accepted")) set.
(** Fact proposals by their ids, whatever their status. *)
Definition proposal_rows (ids : list Z) (s : Stores) : list Proposals.ProposalRow :=
  omap (λ id, Proposals.proposal id (fd_analysis (st_account s))) ids.
Definition read_stores {A} (f : Stores → A) : Call A := r ← op (InTx (tx_get f)); ask (map_err from_store r).
Definition decide_fact_analysis_proposals (ids : list Z) (accept : bool) (uses : gmap Z FactUse) : Call FactChange :=
  rows ← read_stores (proposal_rows ids);
  let rows := List.filter (λ r, String.eqb (Proposals.po_target r) "fact") rows in
  _ ← check_that (negb (is_empty rows)) (invalid "nothing to decide");
  decide_fact_proposals rows accept uses.

(** ** What Analysis shows *)

Inductive AnalysisOp := AnalysisAdd | AnalysisEdit | AnalysisRescope | AnalysisRemove.
Definition parse_op (s : string) : AnalysisOp :=
  if String.eqb s "edit" then AnalysisEdit else if String.eqb s "rescope" then AnalysisRescope
  else if String.eqb s "remove" then AnalysisRemove else AnalysisAdd.
Record FactProposalInfo := mkFactProposal {
  fq_id : Z; fq_op : AnalysisOp; fq_category_name : string; fq_before : option string; fq_use : FactUse; fq_payload : FactPayload;
  fq_support : Z; fq_watching : bool; fq_unseen : bool; fq_shown_at : option Millis }.
Definition fact_proposal (categories : list FactCategoryInfo) (facts : list FactInfo) (viewed : Millis) (r : Proposals.ProposalRow) : option FactProposalInfo :=
  t ← Proposals.po_payload r; j ← json_read t; p ← payload_of_json j;
  let current := fp_fact_id p ≫= own_fact facts in
  match fp_fact_id p, current with
  | Some _, None => None
  | _, _ =>
      Some (mkFactProposal (Proposals.po_id r) (parse_op (Proposals.po_op r))
              (default (fp_category p) (fg_name <$> List.find (λ c, String.eqb (fg_key c) (fp_category p)) categories))
              (fn_value <$> current) (default (default_use categories (fp_category p)) (fn_use <$> current)) p
              (as_u32 (Proposals.po_support r)) (String.eqb (Proposals.po_status r) "watching")
              (match Proposals.po_shown_at r with Some t => (viewed <? t)%Z | None => false end) (Proposals.po_shown_at r))
  end.
(** [Reverse((shown_at, id))]: never shown is least. *)
Definition shown_le (a b : option Millis * Z) : Prop :=
  match a.1, b.1 with
  | None, None => (a.2 ≤ b.2)%Z
  | None, Some _ => True
  | Some _, None => False
  | Some x, Some y => (x < y)%Z ∨ x = y ∧ (a.2 ≤ b.2)%Z
  end.
Definition newest_shown (a b : FactProposalInfo) : Prop := shown_le (fq_shown_at b, fq_id b) (fq_shown_at a, fq_id a).
#[export] Instance newest_shown_dec a b : Decision (newest_shown a b).
Proof. unfold newest_shown, shown_le. cbn. destruct (fq_shown_at a), (fq_shown_at b); apply _. Defined.
Definition fact_proposals (rows : list Proposals.ProposalRow) (viewed : Millis) : Call (list FactProposalInfo) :=
  if is_empty rows then mret [] else
  categories ← fact_categories no_global;
  facts ← list_facts no_global [FactAccepted];
  mret (merge_sort newest_shown (omap (fact_proposal categories facts viewed) rows)).
End deciding.
End glean.
End FactGlean.
Import FactGlean.

(** * What an answer may propose *)

Section answers.
Context `{HC : CoreText} `{HA : CharText}.
Context (read_date : string → option Millis).

(** Two words or more of a message the user sent. *)
Definition cited (sent : list Sent) (p : FactPayload) : Prop :=
  ∃ m, m ∈ sent ∧ sx_message m = fp_message p ∧ 2 ≤ length (split_whitespace (fp_quote p)) ∧
    contains (GuideAnswers.loose (fp_quote p)) (GuideAnswers.loose (fenced (sx_text m))) = true.
Definition of_fact (facts : list FactInfo) (p : FactPayload) (k : FactInfo) : Prop :=
  k ∈ facts ∧ mine k = true ∧ fp_fact_id p = Some (fn_id k) ∧ fp_category p = fn_category k ∧ fp_label p = fn_label k.
Definition found_right (sent : list Sent) (categories : list FactCategoryInfo) (facts : list FactInfo) (f : Found) : Prop :=
  match f with
  | FoundAdd p =>
      cited sent p ∧ (∃ c, c ∈ categories ∧ fg_key c = fp_category p) ∧ fp_label p ≠ "" ∧ fp_value p ≠ "" ∧
      never_store (fp_category p) (fp_label p) (fp_value p) = false ∧ states (fp_quote p) (fp_value p) = true ∧
      ∀ k, k ∈ facts → mine k = true → fn_category k = fp_category p → lower (fn_label k) ≠ lower (fp_label p)
  | FoundAlter p =>
      cited sent p ∧ ∃ k, of_fact facts p k ∧ GuideAnswers.loose (fp_value p) ≠ GuideAnswers.loose (fn_value k) ∧
        ∃ label, lower label = lower (fn_label k) ∧ never_store (fn_category k) label (fp_value p) = false
  | FoundRemove p => cited sent p ∧ ∃ k, of_fact facts p k
  | FoundCategory p =>
      fp_name p ≠ "" ∧ CATEGORY_FACTS ≤ length (fp_fact_ids p) ∧ (∀ c, c ∈ categories → similar (fg_name c) (fp_name p) = false) ∧
      ∀ id, id ∈ fp_fact_ids p → ∃ k, k ∈ facts ∧ fn_id k = id ∧ fn_category k = "other" ∧ fn_scope k = AccountFact
  | FoundStarter p => fp_starter p ∈ STARTER_IDS
  end.
(** What an addition is of. *)
Definition addition (f : Found) : option (string * string) :=
  match f with FoundAdd p => Some (fp_category p, lower (fp_label p)) | _ => None end.

Lemma my_fact_right facts id k : my_fact facts id = Some k → k ∈ facts ∧ mine k = true.
Proof. intros [Hin [_ Hm]%andb_true_iff]%List.find_some. split; [by apply list_elem_of_In|done]. Qed.
Lemma by_label_right facts category label k : by_label facts category label = Some k →
  k ∈ facts ∧ mine k = true ∧ fn_category k = category ∧ lower (fn_label k) = lower label.
Proof.
  intros [Hin H]%List.find_some. apply andb_true_iff in H as [[Hm Hc]%andb_true_iff Hl].
  apply String.eqb_eq in Hc, Hl. split; [by apply list_elem_of_In|done].
Qed.
Lemma by_label_none facts category label k : by_label facts category label = None →
  k ∈ facts → mine k = true → fn_category k = category → lower (fn_label k) ≠ lower label.
Proof.
  intros Hn Hk Hm Hc Hl. apply list_elem_of_In in Hk. pose proof (List.find_none _ _ Hn k Hk) as H. cbn in H.
  by rewrite Hm, Hc, Hl, !String.eqb_refl in H.
Qed.
Lemma found_already_none out category label : found_already out category label = false → (category, lower label) ∉ omap addition out.
Proof.
  intros H (o & Hin & E)%list_elem_of_omap. destruct o as [p| | | |]; try done. cbn in E. injection E as E1 E2.
  apply not_true_iff_false in H. apply H, List.existsb_exists. exists (FoundAdd p). split; [by apply list_elem_of_In|].
  by rewrite E1, E2, !String.eqb_refl.
Qed.
Lemma fact_of_right sent categories facts out j f : fact_of read_date sent categories facts out j = Some f →
  found_right sent categories facts f ∧ match addition f with Some x => x ∉ omap addition out | None => True end.
Proof.
  unfold fact_of. set (message := default "" _). set (quote := tidy QUOTE_CAP _). intros H.
  apply bind_Some in H as (m & Hm & H). apply List.find_some in Hm as [Hin Em%String.eqb_eq].
  apply list_elem_of_In in Hin. rewrite elem_of_reverse in Hin.
  destruct (_ <? 2) eqn:E2; [done|]. destruct (contains _ _) eqn:Ec; [|done]. cbn in H. apply Nat.ltb_ge in E2.
  assert (∀ c l v a i, cited sent (fact_payload c l v a i message quote)) as Hcited by (intros; by exists m).
  set (o := default "add" _) in H. destruct (String.eqb o "add").
  - apply bind_Some in H as (c & Hc & H). apply List.find_some in Hc as [Hc%list_elem_of_In _]. cbn zeta in H.
    destruct (String.eqb_spec (tidy 80 (text_at "label" j)) "") as [|El]; [done|].
    destruct (String.eqb_spec (tidy 400 (text_at "value" j)) "") as [|Ev]; [done|].
    destruct (never_store _ _ _) eqn:En; [done|]. destruct (states _ _) eqn:Es; [|done]. cbn in H.
    destruct (by_label _ _ _) as [k|] eqn:Ek.
    + destruct (String.eqb_spec (GuideAnswers.loose (fn_value k)) (GuideAnswers.loose (tidy 400 (text_at "value" j)))); [done|].
      injection H as <-. split; [|done]. apply by_label_right in Ek as (H1 & H2 & H3 & H4). split; [apply Hcited|].
      exists k. split; [done|]. split; [by apply not_eq_sym|]. exists (tidy 80 (text_at "label" j)). by rewrite H3.
    + destruct (found_already _ _ _) eqn:Ef; [done|]. injection H as <-. split; [|by apply found_already_none].
      split; [apply Hcited|]. split; [by exists c|]. do 4 (split; [done|]). intros k Hk Hmk Hck. by apply (by_label_none _ _ _ _ Ek).
  - destruct (String.eqb o "alter").
    + apply bind_Some in H as (old & Hold & H). apply bind_Some in Hold as (id & _ & [Ho Hmo]%my_fact_right).
      destruct (String.eqb_spec (tidy 400 (text_at "value" j)) ""); [done|].
      destruct (String.eqb_spec (GuideAnswers.loose (tidy 400 (text_at "value" j))) (GuideAnswers.loose (fn_value old))); [done|].
      destruct (never_store _ _ _) eqn:En; [done|]. injection H as <-. split; [|done]. split; [apply Hcited|].
      exists old. split; [done|]. split; [done|]. by exists (fn_label old).
    + destruct (String.eqb o "remove"); [|done]. apply bind_Some in H as (old & Hold & H).
      apply bind_Some in Hold as (id & _ & [Ho Hmo]%my_fact_right). injection H as <-. split; [|done].
      split; [apply Hcited|]. by exists old.
Qed.
Lemma facts_right sent categories facts l : ∀ out,
  Forall (found_right sent categories facts) out → NoDup (omap addition out) →
  let out' := foldl (add_found read_date sent categories facts) out l in
  Forall (found_right sent categories facts) out' ∧ NoDup (omap addition out').
Proof.
  induction l as [|j l IH]; intros out Hr Hn; [done|]. cbn. apply IH.
  - unfold add_found. destruct (fact_of _ _ _ _ _ _) as [f|] eqn:Ef; [|done]. apply fact_of_right in Ef as [Hf _].
    apply Forall_app. by split; [|apply Forall_singleton].
  - unfold add_found. destruct (fact_of _ _ _ _ _ _) as [f|] eqn:Ef; [|done]. apply fact_of_right in Ef as [_ Hf].
    rewrite omap_app. cbn. destruct (addition f) as [x|]; [|by rewrite app_nil_r]. apply NoDup_app. split; [done|].
    split; [|apply NoDup_singleton]. by intros y Hy ->%list_elem_of_singleton.
Qed.
Lemma category_of_right sent categories facts j f : category_of categories facts j = Some f →
  found_right sent categories facts f ∧ addition f = None.
Proof.
  unfold category_of. set (name := tidy 60 _). set (ids := List.filter _ (GuideAnswers.ints _ _)).
  destruct (String.eqb_spec name ""); [done|]. destruct (Nat.ltb_spec (length ids) CATEGORY_FACTS); [done|]. cbn.
  destruct (List.existsb _ _) eqn:Es; [done|]. intros [= <-]. split; [|done]. cbn. do 2 (split; [done|]). split.
  - intros c Hc. apply not_true_iff_false. intros Hs. apply not_true_iff_false in Es. apply Es, List.existsb_exists.
    exists c. split; [by apply list_elem_of_In|done].
  - intros id Hid. subst ids. apply elem_of_List_filter in Hid as [Hid _].
    apply bool_decide_eq_true, list_elem_of_fmap in Hid as (k & -> & Hk).
    apply elem_of_List_filter in Hk as [[Ek%String.eqb_eq Es'%bool_decide_eq_true]%andb_true_iff Hk]. by exists k.
Qed.

(** C22. What gleaning reads from the agent's answer: a fact added or
    changed is cited by two words or more of a message the user sent, and
    the words state a value added; nothing that must never be stored gets
    through; a fact there is already is changed, and only to another value,
    never added again, nor a fact twice in one answer; a category takes
    three facts of Other or more and is like none there is. *)
Theorem found_facts_are_stated sent categories facts answer found
    (Hp : parse read_date answer sent categories facts = Some found) :
  (∀ f, f ∈ found → found_right sent categories facts f) ∧ NoDup (omap addition found).
Proof.
  unfold parse in Hp. apply bind_Some in Hp as (v & _ & [= <-]).
  destruct (facts_right sent categories facts (items "facts" v) [] (Forall_nil_2 _) (NoDup_nil_2)) as [Hf Hn].
  assert (∀ f, f ∈ omap (category_of categories facts) (items "categories" v) ++ starter_of v →
    found_right sent categories facts f ∧ addition f = None) as Ho.
  { intros f [Hc|Hs]%elem_of_app; [apply list_elem_of_omap in Hc as (j & _ & Hj); by eapply category_of_right|].
    unfold starter_of in Hs. destruct (text_at "starter_set" v) as [s|]; [|by apply not_elem_of_nil in Hs].
    case_bool_decide as Es; [|by apply not_elem_of_nil in Hs]. by apply list_elem_of_singleton in Hs as ->. }
  split.
  - intros f [Hin|Hin]%elem_of_app; [|by apply Ho]. rewrite Forall_forall in Hf. by apply Hf.
  - rewrite omap_app. assert (omap addition (omap (category_of categories facts) (items "categories" v) ++ starter_of v) = []) as ->; [|by rewrite app_nil_r].
    apply elem_of_nil_inv. intros x Hx. apply list_elem_of_omap in Hx as (f & Hf' & Ef). apply Ho in Hf' as [_ Hf']. congruence.
Qed.
End answers.

(** ** The tests' facts *)

Section examples.
Definition glean_json : Json :=
  JObject [("facts", JArray [
    JObject [("op", JString "add"); ("category", JString "Work"); ("label", JString "Team"); ("value", JString "Platform at Acme");
             ("evidence", JObject [("message_id", JString "m1"); ("quote", JString "I lead Platform at Acme.")])];
    JObject [("op", JString "add"); ("category", JString "other"); ("label", JString "Door code"); ("value", JString "4512");
             ("evidence", JObject [("message_id", JString "m1"); ("quote", JString "code is 4512")])]]);
   ("categories", JArray [JObject [("name", JString "Clubs"); ("facts", JArray [JNumber "7"; JNumber "7"; JNumber "7"])]])].
Local Instance glean_text : CoreText :=
  {| lower := ascii_lower; json_write := λ _, ""; json_read := λ _, None; json_first := λ _, Some glean_json |}.
Local Instance glean_chars : CharText := {| alphanumeric := ascii_alphanumeric; char_lower := ascii_lower; char_upper := λ s, s |}.
Definition mail_sent : list Sent := [mkSentText "m1" "I lead Platform at Acme. The door code is 4512."].
Definition in_other : FactInfo := mkInfo 7 "other" "Club" "Rowing" Free None You FactAccepted [] 0 0 AccountFact false false true.
Definition team : Found := FoundAdd (fact_payload "work" "Team" "Platform at Acme" None None "m1" "I lead Platform at Acme.").
Definition clubs : Found := FoundCategory (mkPayload "category" "" "" "" None None "" "" "Clubs" "" [7; 7; 7]%Z "").
Example nothing_secret :
  never_store "other" "Wi-Fi password" "hunter2" = true ∧ never_store "contact" "Card" "4111 1111 1111 1111" = true ∧
  never_store "identity" "SSN" "123-45-6789" = true ∧ never_store "contact" "Phone" "+1 415 555 0100" = false.
Proof. vm_compute. done. Qed.
(** The three facts of a category may be one, named three times. *)
Example one_fact_thrice : parse (λ _, None) "{}" mail_sent (categories_from []) [in_other] = Some [team; clubs].
Proof. vm_compute. reflexivity. Qed.
Lemma found_facts_are_stated_witness : found_right mail_sent (categories_from []) [in_other] team ∧ NoDup (omap addition [team; clubs]).
Proof.
  destruct (found_facts_are_stated (λ _, None) mail_sent (categories_from []) [in_other] "{}" [team; clubs]) as [Hf Hn].
  - vm_compute. reflexivity.
  - split; [apply Hf; left|exact Hn].
Defined.
End examples.
