(* ===== verification/ReviewStore.v ===== *)
(** * ReviewStore: what AIs wrote, and the daily review's runs
    ([mail-store/src/compositions.rs], the runs of [analysis.rs])

    Every text an AI writes into a draft, kept to be compared with what the
    user sent; the runs that compare them, batch by batch; and Analysis'
    settings.  [LocalDb] has the columns of a composition that drafts and
    the drain change; here is the whole row. *)

From Stdlib Require Import QArith.
From Stdlib Require Import QArith Lia.
From S2P Require Import Prelude.
From S2P Require Import Domain.
From S2P Require Import Text.
From S2P Require Import Guide.
From S2P Require Import MailStore.
From S2P Require Import LocalDb.
From S2P Require Import Transactions.
From S2P Require Import ProposalStore.
From S2P Require Import GuideStore.
From S2P Require Import FactStore.

Close Scope Q_scope.
Open Scope nat_scope.

Module Compositions.

(** ** Rows *)

Inductive Source := WritingHelp | FromAgent | FromRoutine.
#[export] Instance source_eq_dec : EqDecision Source.
Proof. solve_decision. Defined.
Inductive Kind := Reply | Forward | New.
#[export] Instance kind_eq_dec : EqDecision Kind.
Proof. solve_decision. Defined.
Definition source_text (s : Source) : string :=
  match s with WritingHelp => "writing_help" | FromAgent => "agent" | FromRoutine => "routine" end.
Definition parse_source (s : string) : Source :=
  if String.eqb s "agent" then FromAgent else if String.eqb s "routine" then FromRoutine else WritingHelp.
Definition kind_text (k : Kind) : string := match k with Reply => "reply" | Forward => "forward" | New => "new" end.
Definition parse_kind (s : string) : Kind :=
  if String.eqb s "reply" then Reply else if String.eqb s "forward" then Forward else New.
Definition status_text (s : CompositionStatus) : string :=
  match s with
  | Waiting => "waiting" | Matched => "matched" | Unmatched => "unmatched" | Discarded => "discarded" | Reviewed => "reviewed"
  end.
Definition parse_status (s : string) : CompositionStatus :=
  if String.eqb s "matched" then Matched else if String.eqb s "unmatched" then Unmatched
  else if String.eqb s "discarded" then Discarded else if String.eqb s "reviewed" then Reviewed else Waiting.
(** To and Cc, lower-cased. *)
Record Recipients := mkRecipients { rp_to : list string; rp_cc : list string }.
Record NewComposition := mkNewComposition {
  nc_source : Source; nc_agent : option string; nc_kind : Kind; nc_draft_id : Z; nc_thread_id : option string;
  nc_in_reply_to : option string; nc_recipients : Recipients; nc_subject : string; nc_instruction : string;
  nc_ai_text : string; nc_ai_html : option string; nc_guide_version : option Z; nc_audiences : list string }.
Record Composition := mkFull {
  cm_id : Z; cm_created_at : Millis; cm_updated_at : Millis; cm_source : Source; cm_agent : option string; cm_kind : Kind;
  cm_draft_id : option Z; cm_thread_id : option string; cm_in_reply_to : option string; cm_recipients : Recipients;
  cm_subject : string; cm_instruction : string; cm_ai_text : option string; cm_ai_html : option string;
  cm_guide_version : option Z; cm_audiences : list string; cm_rfc822 : option string; cm_status : CompositionStatus;
  cm_matched : option string; cm_method : option string; cm_sent_text : option string; cm_distance : option Q;
  cm_reviewed_at : option Millis }.
(** What an AI wrote, over the row's own columns. *)
Definition written (c : NewComposition) (now : Millis) (r : Composition) : Composition :=
  mkFull (cm_id r) (cm_created_at r) now (nc_source c) (nc_agent c) (nc_kind c) (cm_draft_id r) (nc_thread_id c) (nc_in_reply_to c)
    (nc_recipients c) (nc_subject c) (nc_instruction c) (Some (nc_ai_text c)) (nc_ai_html c) (nc_guide_version c) (nc_audiences c)
    (cm_rfc822 r) (cm_status r) (cm_matched r) (cm_method r) (cm_sent_text r) (cm_distance r) (cm_reviewed_at r).
Definition addressed (to : Recipients) (subject : string) (now : Millis) (r : Composition) : Composition :=
  mkFull (cm_id r) (cm_created_at r) now (cm_source r) (cm_agent r) (cm_kind r) (cm_draft_id r) (cm_thread_id r) (cm_in_reply_to r)
    to subject (cm_instruction r) (cm_ai_text r) (cm_ai_html r) (cm_guide_version r) (cm_audiences r)
    (cm_rfc822 r) (cm_status r) (cm_matched r) (cm_method r) (cm_sent_text r) (cm_distance r) (cm_reviewed_at r).
Definition with_links (draft : option Z) (rfc822 : option string) (r : Composition) : Composition :=
  mkFull (cm_id r) (cm_created_at r) (cm_updated_at r) (cm_source r) (cm_agent r) (cm_kind r) draft (cm_thread_id r) (cm_in_reply_to r)
    (cm_recipients r) (cm_subject r) (cm_instruction r) (cm_ai_text r) (cm_ai_html r) (cm_guide_version r) (cm_audiences r)
    rfc822 (cm_status r) (cm_matched r) (cm_method r) (cm_sent_text r) (cm_distance r) (cm_reviewed_at r).
Definition with_cm_status (status : CompositionStatus) (now : Millis) (reviewed : option Millis) (r : Composition) : Composition :=
  mkFull (cm_id r) (cm_created_at r) now (cm_source r) (cm_agent r) (cm_kind r) (cm_draft_id r) (cm_thread_id r) (cm_in_reply_to r)
    (cm_recipients r) (cm_subject r) (cm_instruction r) (cm_ai_text r) (cm_ai_html r) (cm_guide_version r) (cm_audiences r)
    (cm_rfc822 r) status (cm_matched r) (cm_method r) (cm_sent_text r) (cm_distance r) reviewed.
Definition with_match (message method sent_text : string) (distance : Q) (r : Composition) : Composition :=
  mkFull (cm_id r) (cm_created_at r) (cm_updated_at r) (cm_source r) (cm_agent r) (cm_kind r) (cm_draft_id r) (cm_thread_id r)
    (cm_in_reply_to r) (cm_recipients r) (cm_subject r) (cm_instruction r) (cm_ai_text r) (cm_ai_html r) (cm_guide_version r)
    (cm_audiences r) (cm_rfc822 r) (cm_status r) (Some message) (Some method) (Some sent_text) (Some distance) (cm_reviewed_at r).
Definition cleared (r : Composition) : Composition :=
  mkFull (cm_id r) (cm_created_at r) (cm_updated_at r) (cm_source r) (cm_agent r) (cm_kind r) (cm_draft_id r) (cm_thread_id r)
    (cm_in_reply_to r) (cm_recipients r) (cm_subject r) "" None None (cm_guide_version r)
    (cm_audiences r) (cm_rfc822 r) (cm_status r) (cm_matched r) (cm_method r) None (cm_distance r) (cm_reviewed_at r).

(** The columns drafts and the drain change. *)
Definition slim (r : Composition) : CompositionRow :=
  mkComposition (cm_id r) (cm_draft_id r) (cm_rfc822 r) (cm_status r) (cm_updated_at r).

(** ** Runs *)

Record RunRow := mkReviewRun {
  rr_id : Z; rr_day : string; rr_trigger : string; rr_status : string; rr_agent : option string; rr_error : option string;
  rr_matched : Z; rr_unmatched : Z; rr_unchanged : Z; rr_batch_size : Z; rr_total : Z; rr_done : Z; rr_timed_batches : Z;
  rr_timed_ms : Z; rr_started_at : Millis; rr_finished_at : option Millis }.
Definition with_rr_status (status : string) (error : option string) (finished : option Millis) (r : RunRow) : RunRow :=
  mkReviewRun (rr_id r) (rr_day r) (rr_trigger r) status (rr_agent r) error (rr_matched r) (rr_unmatched r) (rr_unchanged r)
    (rr_batch_size r) (rr_total r) (rr_done r) (rr_timed_batches r) (rr_timed_ms r) (rr_started_at r) finished.
Definition with_rr_done (done : Z) (r : RunRow) : RunRow :=
  mkReviewRun (rr_id r) (rr_day r) (rr_trigger r) (rr_status r) (rr_agent r) (rr_error r) (rr_matched r) (rr_unmatched r)
    (rr_unchanged r) (rr_batch_size r) (rr_total r) done (rr_timed_batches r) (rr_timed_ms r) (rr_started_at r) (rr_finished_at r).
Definition with_time (ms : Z) (r : RunRow) : RunRow :=
  mkReviewRun (rr_id r) (rr_day r) (rr_trigger r) (rr_status r) (rr_agent r) (rr_error r) (rr_matched r) (rr_unmatched r)
    (rr_unchanged r) (rr_batch_size r) (rr_total r) (rr_done r) (rr_timed_batches r + 1) (rr_timed_ms r + Z.max ms 0)
    (rr_started_at r) (rr_finished_at r).
Record NewRun := mkNewRun {
  nw_day : string; nw_trigger : string; nw_agent : option string; nw_matched : Z; nw_unmatched : Z; nw_unchanged : Z;
  nw_pairs : list Z; nw_batch_size : nat }.

(** The account's tables: the mail and the guide with Analysis' proposals,
    the compositions and their last id, the runs, the pairs of each run
    with their batch and whether it was compared, what was counted for and
    against each entry, and the settings. *)
Record ReviewDb := mkReviewDb {
  rv_guide : GuideStore.GuideDb;
  rv_compositions : gmap Z Composition; rv_seq : Z;
  rv_runs : gmap Z RunRow;
  rv_pairs : gmap (Z * Z) (Z * bool);
  rv_health : gmap Z (Z * Z * Millis);
  rv_meta : gmap string string }.
Definition with_guide (g : GuideStore.GuideDb) (d : ReviewDb) : ReviewDb :=
  mkReviewDb g (rv_compositions d) (rv_seq d) (rv_runs d) (rv_pairs d) (rv_health d) (rv_meta d).
(** The proposals' evidence refers to the compositions there are. *)
Definition known_to (ids : gset Z) (g : GuideStore.GuideDb) : GuideStore.GuideDb :=
  let a := GuideStore.g_analysis g in
  GuideStore.with_analysis (Proposals.mkAnalysis (Proposals.an_proposals a) (Proposals.an_seq a) (Proposals.an_evidence a) ids) g.
Definition with_all_compositions (m : gmap Z Composition) (seq : Z) (d : ReviewDb) : ReviewDb :=
  mkReviewDb (known_to (dom m) (rv_guide d)) m seq (rv_runs d) (rv_pairs d) (rv_health d) (rv_meta d).
Definition on_review_runs (f : gmap Z RunRow → gmap Z RunRow) (d : ReviewDb) : ReviewDb :=
  mkReviewDb (rv_guide d) (rv_compositions d) (rv_seq d) (f (rv_runs d)) (rv_pairs d) (rv_health d) (rv_meta d).
Definition on_pairs (f : gmap (Z * Z) (Z * bool) → gmap (Z * Z) (Z * bool)) (d : ReviewDb) : ReviewDb :=
  mkReviewDb (rv_guide d) (rv_compositions d) (rv_seq d) (rv_runs d) (f (rv_pairs d)) (rv_health d) (rv_meta d).
Definition on_health (f : gmap Z (Z * Z * Millis) → gmap Z (Z * Z * Millis)) (d : ReviewDb) : ReviewDb :=
  mkReviewDb (rv_guide d) (rv_compositions d) (rv_seq d) (rv_runs d) (rv_pairs d) (f (rv_health d)) (rv_meta d).
Definition on_review_meta (f : gmap string string → gmap string string) (d : ReviewDb) : ReviewDb :=
  mkReviewDb (rv_guide d) (rv_compositions d) (rv_seq d) (rv_runs d) (rv_pairs d) (rv_health d) (f (rv_meta d)).
(** [UPDATE ai_compositions SET ... WHERE p] *)
Definition update_where (p : Composition → bool) (f : Composition → Composition) (d : ReviewDb) : ReviewDb :=
  with_all_compositions ((λ r, if p r then f r else r) <$> rv_compositions d) (rv_seq d) d.

Abbreviation Tx := (Tx ReviewDb).
Definition in_guide {A} (t : Transactions.Tx GuideStore.GuideDb A) : Tx A := within rv_guide with_guide t.

(** [ORDER BY created_at, id], and the newest first. *)
Definition older_first (a b : Composition) : Prop :=
  (cm_created_at a < cm_created_at b)%Z ∨ cm_created_at a = cm_created_at b ∧ (cm_id a ≤ cm_id b)%Z.
#[export] Instance older_first_dec a b : Decision (older_first a b).
Proof. unfold older_first. apply _. Defined.
Definition newer_first (a b : Composition) : Prop := older_first b a.
#[export] Instance newer_first_dec a b : Decision (newer_first a b).
Proof. unfold newer_first. apply _. Defined.
Definition newest_row (a b : Composition) : Prop := (cm_id b ≤ cm_id a)%Z.
#[export] Instance newest_row_dec a b : Decision (newest_row a b).
Proof. unfold newest_row. apply _. Defined.
Definition newest_run (a b : RunRow) : Prop := (rr_id b ≤ rr_id a)%Z.
#[export] Instance newest_run_dec a b : Decision (newest_run a b).
Proof. unfold newest_run. apply _. Defined.

Section store.
Context `{CoreText}.

(** A draft's kind from its subject and whether it answers a message. *)
Definition kind_of (subject : string) (replying : bool) : Kind :=
  let s := lower (trim subject) in
  if starts_with "fwd:" s || starts_with "fw:" s then Forward else if replying then Reply else New.
Definition recipients_new (to cc : list string) : Recipients :=
  mkRecipients ((λ a, lower (trim a)) <$> to) ((λ a, lower (trim a)) <$> cc).

(** ** Compositions *)

Definition recording (d : ReviewDb) : bool :=
  List.existsb (λ r, String.eqb (GuideStore.ru_status r) "done") (rows (GuideStore.g_runs (rv_guide d))).*2.
Definition all (d : ReviewDb) : list Composition := (rows (rv_compositions d)).*2.
Definition of_open_draft (draft : Z) (r : Composition) : bool :=
  bool_decide (cm_draft_id r = Some draft) && bool_decide (cm_status r = Waiting).
Definition for_draft (draft : Z) (d : ReviewDb) : option Composition :=
  head (merge_sort newest_row (List.filter (of_open_draft draft) (all d))).
Definition add_row (r : Z → Composition) : Tx Z :=
  tx_new (λ d, let id := (Z.max (rv_seq d) (last_id (rv_compositions d)) + 1)%Z in
               (with_all_compositions (<[id := r id]> (rv_compositions d)) id d, id)).
Definition blank (created updated : Millis) (draft : option Z) (id : Z) : Composition :=
  mkFull id created updated FromAgent None New draft None None (mkRecipients [] []) "" "" None None None [] None Waiting None None
    None None None.
Definition record (c : NewComposition) (now : Millis) : Tx Z :=
  existing ← tx_get (for_draft (nc_draft_id c));
  match existing with
  | Some r => _ ← tx_do (λ d, with_all_compositions (update_row (cm_id r) (written c now) (rv_compositions d)) (rv_seq d) d);
              mret (cm_id r)
  | None => add_row (λ id, written c now (blank now now (Some (nc_draft_id c)) id))
  end.
(** What a cloud agent reported sending, with no draft. *)
Record ReportedComposition := mkReportedFull {
  rf_agent : string; rf_kind : Kind; rf_recipients : Recipients; rf_subject : string; rf_ai_text : string;
  rf_ai_html : option string; rf_rfc822 : option string; rf_at : Millis }.
Definition record_reported (c : ReportedComposition) (now : Millis) : Tx Z :=
  add_row (λ id, mkFull id (rf_at c) now FromAgent (Some (rf_agent c)) (rf_kind c) None None None (rf_recipients c) (rf_subject c) ""
                   (Some (rf_ai_text c)) (rf_ai_html c) None [] (rf_rfc822 c) Waiting None None None None None).
Definition CLOUD_AGENT_PREFIX : string := "cloud:".
Definition is_reported (r : Composition) : bool :=
  bool_decide (cm_draft_id r = None) && match cm_agent r with Some a => starts_with CLOUD_AGENT_PREFIX a | None => false end.
Definition update_addressing (draft : Z) (to : Recipients) (subject : string) (now : Millis) : Tx () :=
  tx_do (update_where (of_open_draft draft) (addressed to subject now)).
Definition draft_sent (draft : Z) (message_id : string) : Tx () :=
  tx_do (update_where (of_open_draft draft) (λ r, with_links (cm_draft_id r) (Some message_id) r)).
Definition draft_unsent (draft : Z) : Tx () :=
  tx_do (update_where (of_open_draft draft) (λ r, with_links (cm_draft_id r) None r)).
Definition draft_gone (draft : Z) (sent : bool) (now : Millis) : Tx () :=
  _ ← (if sent then mret ()
       else tx_do (update_where (λ r, of_open_draft draft r && bool_decide (cm_rfc822 r = None))
                     (λ r, with_cm_status Discarded now (cm_reviewed_at r) r)));
  tx_do (update_where (λ r, bool_decide (cm_draft_id r = Some draft)) (λ r, with_links None (cm_rfc822 r) r)).
Definition get (id : Z) (d : ReviewDb) : option Composition := rv_compositions d !! id.
Definition recent (limit : nat) (d : ReviewDb) : list Composition := take limit (merge_sort newer_first (all d)).
(** [LIMIT], of any size. *)
Fixpoint limited {A} (limit : Z) (l : list A) : list A :=
  match l with x :: l => if (0 <? limit)%Z then x :: limited (limit - 1) l else [] | [] => [] end.
Definition listed (status : CompositionStatus) (limit : Z) (d : ReviewDb) : list Composition :=
  limited limit (merge_sort older_first (List.filter (λ r, bool_decide (cm_status r = status)) (all d))).
(** Retention: how many texts were cleared. *)
Definition kept_past (before : Millis) (r : Composition) : bool :=
  (bool_decide (is_Some (cm_ai_text r)) || bool_decide (is_Some (cm_sent_text r))) &&
  (bool_decide (cm_status r = Reviewed) && match cm_reviewed_at r with Some t => (t <? before)%Z | None => false end ||
   bool_decide (cm_status r ∈ [Unmatched; Discarded]) && (cm_updated_at r <? before)%Z).
Definition purge (keep_ms now : Millis) : Tx nat :=
  n ← tx_get (λ d, count (kept_past (now - keep_ms)) (all d));
  _ ← tx_do (update_where (kept_past (now - keep_ms)) cleared);
  mret n.

(** A message the user sent, as matching needs it. *)
Record SentCandidate := mkCandidate {
  sc_message : string; sc_thread : string; sc_rfc822 : option string; sc_at : Millis; sc_to : list string; sc_cc : list string }.
Definition sent_order (a b : MessageRow) : Prop :=
  (ms_internal_date a < ms_internal_date b)%Z ∨ ms_internal_date a = ms_internal_date b ∧ (ms_id a ≤ ms_id b)%Z.
#[export] Instance sent_order_dec a b : Decision (sent_order a b).
Proof. unfold sent_order. apply _. Defined.
Definition candidate (s : Store) (m : MessageRow) : option SentCandidate :=
  t ← thread_by_rowid s (ms_thread m);
  if starts_with LOCAL_PREFIX (ms_gmail_id m) then None else
  let people role := lower ∘ snd <$> GuideTables.people_of role (ms_id m) s in
  Some (mkCandidate (ms_gmail_id m) (th_gmail_id t) (ms_rfc822 m) (ms_internal_date m) (people "to") (people "cc")).
Definition sent_since (since : Millis) (d : ReviewDb) : list SentCandidate :=
  let s := GuideStore.g_mail (rv_guide d) in
  omap (candidate s)
    (merge_sort sent_order
       (List.filter (λ m, GuideTables.is_sent m && (since <=? ms_internal_date m)%Z) (messages s))).
Definition matched_messages (d : ReviewDb) : gset string := list_to_set (omap cm_matched (all d)).
Definition set_matched (id : Z) (message method sent_text : string) (distance : Q) (now : Millis) : Tx () :=
  tx_do (update_where (λ r, (cm_id r =? id)%Z && bool_decide (cm_status r = Waiting))
           (λ r, with_match message method sent_text distance (with_cm_status Matched now (cm_reviewed_at r) r))).
Definition set_status (id : Z) (status : CompositionStatus) (now : Millis) : Tx () :=
  tx_do (update_where (λ r, (cm_id r =? id)%Z) (λ r, with_cm_status status now (cm_reviewed_at r) r)).

(** ** Runs *)

(** A pair's text this close to the AI's was sent as written. *)
Definition UNCHANGED : Q := 5 # 100.
Definition CHECK_FAILED : StoreError := Sqlite "CHECK constraint failed".
Definition RUN_STATUSES : list string := ["running"; "paused"; "done"; "cancelled"; "failed"].
Definition going (r : RunRow) : bool := bool_decide (rr_status r ∈ ["running"; "paused"]).
(** [INSERT OR IGNORE]; a pair of a composition that is not there is
    refused. *)
Definition add_run_pair (run : Z) (batch : Z) (id : Z) : Tx () :=
  _ ← tx_where (λ d, bool_decide (is_Some (rv_compositions d !! id))) FOREIGN_KEY;
  tx_do (on_pairs (λ m, match m !! (run, id) with Some _ => m | None => <[(run, id) := (batch, false)]> m end)).
Definition create_run (n : NewRun) (now : Millis) : Tx Z :=
  let size := Nat.max (nw_batch_size n) 1 in
  _ ← tx_check (bool_decide (nw_trigger n ∈ ["daily"; "manual"])) CHECK_FAILED;
  id ← tx_new (λ d,
         let id := (last_id (rv_runs d) + 1)%Z in
         (on_review_runs <[id := mkReviewRun id (nw_day n) (nw_trigger n) "running" (nw_agent n) None (nw_matched n) (nw_unmatched n)
            (nw_unchanged n) (Z.of_nat size) (Z.of_nat (length (nw_pairs n))) 0 0 0 now None]> d, id));
  _ ← each (λ x, add_run_pair id (Z.of_nat (x.1 / size)) x.2) (imap pair (nw_pairs n));
  mret id.
Definition get_run (id : Z) (d : ReviewDb) : option RunRow := rv_runs d !! id.
Definition active_run (d : ReviewDb) : option RunRow := head (merge_sort newest_run (List.filter going (rows (rv_runs d)).*2)).
Definition latest_run (d : ReviewDb) : option RunRow := head (merge_sort newest_run (rows (rv_runs d)).*2).
Definition ran_on (day : string) (d : ReviewDb) : bool :=
  List.existsb (λ r, String.eqb (rr_day r) day && String.eqb (rr_trigger r) "daily") (rows (rv_runs d)).*2.
(** A run's pairs: the composition, its batch and whether it was compared. *)
Definition run_pairs (run : Z) (d : ReviewDb) : list (Z * (Z * bool)) :=
  (λ x, (x.1.2, x.2)) <$> List.filter (λ x, (x.1.1 =? run)%Z) (map_to_list (rv_pairs d)).
Definition next_batch (run : Z) (d : ReviewDb) : option (Z * list Z) :=
  let left := List.filter (λ x, negb x.2.2) (run_pairs run d) in
  match (λ x, x.2.1) <$> left with
  | [] => None
  | b :: bs => let batch := foldr Z.min b bs in
               Some (batch, merge_sort Z.le (fst <$> List.filter (λ x, (x.2.1 =? batch)%Z) (run_pairs run d)))
  end.
Definition reviewed (now : Millis) (r : Composition) : Composition := with_cm_status Reviewed now (Some now) r.
Definition in_batch (run batch id : Z) (m : gmap (Z * Z) (Z * bool)) : bool :=
  match m !! (run, id) with Some (b, _) => (b =? batch)%Z | None => false end.
Definition mark_done (run batch : Z) (m : gmap (Z * Z) (Z * bool)) : gmap (Z * Z) (Z * bool) :=
  map_imap (λ k x, Some (if (k.1 =? run)%Z && (x.1 =? batch)%Z then (x.1, true) else x)) m.
Definition done_count (run : Z) (d : ReviewDb) : Z := Z.of_nat (count (λ x, x.2.2) (run_pairs run d)).
Definition finish_batch (run batch : Z) (elapsed : option Z) (now : Millis) : Tx () :=
  _ ← match elapsed with Some ms => tx_do (on_review_runs (update_row run (with_time ms))) | None => mret () end;
  _ ← tx_do (λ d, update_where (λ r, in_batch run batch (cm_id r) (rv_pairs d)) (reviewed now) d);
  _ ← tx_do (on_pairs (mark_done run batch));
  tx_do (λ d, on_review_runs (update_row run (with_rr_done (done_count run d))) d).
Definition set_run_status (run : Z) (status : string) (error : option string) (now : Millis) : Tx () :=
  _ ← tx_where (λ d, negb (bool_decide (is_Some (rv_runs d !! run))) || bool_decide (status ∈ RUN_STATUSES)) CHECK_FAILED;
  tx_do (on_review_runs (update_row run
    (with_rr_status status error (if bool_decide (status ∈ ["done"; "cancelled"; "failed"]) then Some now else None)))).
Definition release_pairs (run : Z) : Tx () := tx_do (on_pairs (base.filter (λ x, ¬ (x.1.1 = run ∧ x.2.2 = false)))).
Definition pairs_taken_on (day : string) (d : ReviewDb) : nat :=
  count (λ x, match rv_runs d !! x.1.1 with Some r => String.eqb (rr_day r) day | None => false end) (map_to_list (rv_pairs d)).
Definition taken (id : Z) (d : ReviewDb) : bool := List.existsb (λ x, (x.1.2 =? id)%Z) (map_to_list (rv_pairs d)).
Definition changed (r : Composition) : bool :=
  bool_decide (cm_status r = Matched) && match cm_distance r with Some q => negb (Qle_bool q UNCHANGED) | None => false end.
Definition pairs_to_compare (limit : nat) (d : ReviewDb) : list Z :=
  take limit (cm_id <$> merge_sort older_first (List.filter (λ r, changed r && negb (taken (cm_id r) d)) (all d))).
Definition unchanged_pairs (d : ReviewDb) : list Z :=
  cm_id <$> merge_sort older_first
    (List.filter (λ r, bool_decide (cm_status r = Matched) && match cm_distance r with Some q => Qle_bool q UNCHANGED | None => false end)
       (all d)).
Definition mark_reviewed (ids : list Z) (now : Millis) : Tx () :=
  each (λ id, tx_do (update_where (λ r, (cm_id r =? id)%Z) (reviewed now))) ids.
Definition meta (key : string) (d : ReviewDb) : option string := rv_meta d !! key.
Definition set_meta (key value : string) : Tx () := tx_do (on_review_meta <[key := value]>).

(** ** How entries fared *)

Definition add_health (entry unchanged overridden : Z) (now : Millis) : Tx () :=
  tx_do (on_health (λ m, <[entry := match m !! entry with
                                    | Some (u, o, _) => (u + unchanged, o + overridden, now)
                                    | None => (unchanged, overridden, now)
                                    end%Z]> m)).
Definition by_entry (a b : Z * (Z * Z * Millis)) : Prop := (a.1 ≤ b.1)%Z.
#[export] Instance by_entry_dec a b : Decision (by_entry a b).
Proof. unfold by_entry. apply _. Defined.
Definition health (d : ReviewDb) : list (Z * Z * Z) :=
  (λ x, (x.1, x.2.1.1, x.2.1.2)) <$> merge_sort by_entry (map_to_list (rv_health d)).
End store.
End Compositions.

(** * What became of an AI's text
    ([kaluta-core/src/analysis_match.rs])

    Which sent message each waiting text became: the one sent from its
    draft, or else a guess by thread or recipient.  How far the two are
    apart is the fewest words changed over the longer text's length. *)

Import Compositions.

Close Scope Q_scope.
Open Scope nat_scope.

Module ReviewMatch.

Definition MATCH_WINDOW_MS : Z := 14 * 24 * 60 * 60 * 1000.
Definition OPEN_DRAFT_MS : Z := 24 * 60 * 60 * 1000.
Definition MIN_OVERLAP : Q := 15 # 100.
Inductive Method := SentDraft | ThreadNext | RecipientNext.
#[export] Instance method_eq_dec : EqDecision Method.
Proof. solve_decision. Defined.
Definition method_text (m : Method) : string :=
  match m with SentDraft => "sent_draft" | ThreadNext => "thread_next" | RecipientNext => "recipient_next" end.
(** What a waiting record became; [NothingSent] is the code's [Unmatched]. *)
Inductive Outcome :=
| Became (message_id : string) (method : Method) (sent_text : string) (distance : Q)
| NothingSent.

(** ** Words in common, and words changed *)

(** The next row of the table of distances, after its first cell: [up] is
    the row above, [diag] and [left] the cells before. *)
Fixpoint next_cells (wa : string) (b : list string) (diag left : nat) (up : list nat) : list nat :=
  match b, up with
  | wb :: b, u :: up =>
      let c := Nat.min (Nat.min (diag + if String.eqb wa wb then 0 else 1) (u + 1)) (left + 1) in
      c :: next_cells wa b u c up
  | _, _ => []
  end.
Definition next_row (b : list string) (i : nat) (wa : string) (previous : list nat) : list nat :=
  match previous with
  | first :: up => (i + 1) :: next_cells wa b first (i + 1) up
  | [] => []
  end.
Fixpoint rows_from (b : list string) (i : nat) (a : list string) (previous : list nat) : list nat :=
  match a with [] => previous | wa :: a => rows_from b (i + 1) a (next_row b i wa previous) end.
Definition edit_distance (a b : list string) : nat :=
  default 0 (rows_from b 0 a (seq 0 (length b + 1)) !! length b).
Definition ratio (n d : nat) : Q := Qmake (Z.of_nat n) (Pos.of_nat d).

Section match_.
Context `{HC : CoreText} `{HA : CharText}.

(** [trim_matches] of what is not alphanumeric. *)
Fixpoint skip_while (p : string → bool) (l : list string) : list string :=
  match l with x :: r => if p x then skip_while p r else l | [] => [] end.
Definition trim_word (w : string) : string :=
  let p c := negb (alphanumeric c) in
  String.concat "" (reverse (skip_while p (reverse (skip_while p (chars w))))).
Definition words (text : string) : list string :=
  List.filter non_empty ((λ w, lower (trim_word w)) <$> split_whitespace text).
(** As exact fractions: the code's floats compare alike with its bounds. *)
Definition overlap (a b : string) : Q :=
  let x := list_to_set (C := gset string) (words a) in
  let y := list_to_set (C := gset string) (words b) in
  let union := size (x ∪ y) in
  if union =? 0 then 1%Q else ratio (size (x ∩ y)) union.
Definition distance (a b : string) : Q :=
  let longest := Nat.max (length (words a)) (length (words b)) in
  if longest =? 0 then 0%Q else ratio (edit_distance (words a) (words b)) longest.

(** ** Matching *)

Section records.
Context (sent : list SentCandidate) (now : Millis) (text : string → option string).

Definition ai_of (r : Composition) : string := default "" (cm_ai_text r).
(** The last of those that share a Message-ID is the one kept. *)
Definition by_rfc822 (id : string) : option SentCandidate :=
  List.find (λ s, bool_decide (sc_rfc822 s = Some id)) (reverse sent).
Record Matching := mkMatching { mt_used : gset string; mt_out : list (Z * Outcome) }.
Definition became (r : Composition) (s : SentCandidate) (method : Method) (st : string) (m : Matching) : Matching :=
  mkMatching ({[ sc_message s ]} ∪ mt_used m)
    (mt_out m ++ [(cm_id r, Became (sc_message s) method st (distance (ai_of r) st))]).
(** Sent from the draft: the Message-IDs agree. *)
Definition exact_match (m : Matching) (r : Composition) : Matching :=
  match cm_rfc822 r ≫= by_rfc822 with
  | None => m
  | Some s =>
      if bool_decide (sc_message s ∈ mt_used m) then m else
      match text (sc_message s) with Some st => became r s SentDraft st m | None => m end
  end.
Definition still_open (r : Composition) : bool :=
  bool_decide (is_Some (cm_draft_id r)) && (now - cm_created_at r <? OPEN_DRAFT_MS)%Z.
Definition after (r : Composition) (s : SentCandidate) : bool := (cm_created_at r <? sc_at s)%Z.
Definition next_where (r : Composition) (p : SentCandidate → bool) : option SentCandidate :=
  List.find p (List.filter (after r) sent).
Definition in_thread (r : Composition) (s : SentCandidate) : bool := bool_decide (cm_thread_id r = Some (sc_thread s)).
Definition has (people : list string) (s : SentCandidate) : bool :=
  List.existsb (λ a, bool_decide (a ∈ people)) (sc_to s ++ sc_cc s).
Definition guessable (r : Composition) : bool :=
  bool_decide (cm_rfc822 r = None) && negb (still_open r) && negb (is_reported r).
Definition guesses (r : Composition) : list (SentCandidate * Method) :=
  if guessable r then
    (if bool_decide (cm_kind r ∈ [Reply; Forward])
     then match next_where r (in_thread r) with Some s => [(s, ThreadNext)] | None => [] end else []) ++
    (if bool_decide (cm_kind r ∈ [New; Forward])
     then match (match next_where r (has (rp_to (cm_recipients r))) with
                 | Some s => Some s
                 | None => next_where r (has (rp_cc (cm_recipients r)))
                 end) with
          | Some s => [(s, RecipientNext)] | None => []
          end
     else [])
  else [].
(** The first guess that stands: a message not used whose text shares
    enough words. *)
Definition stands (used : gset string) (r : Composition) (g : SentCandidate * Method) : option (SentCandidate * Method * string) :=
  if bool_decide (sc_message g.1 ∈ used) then None else
  st ← text (sc_message g.1);
  if Qle_bool MIN_OVERLAP (overlap (ai_of r) st) then Some (g, st) else None.
Fixpoint first_standing (used : gset string) (r : Composition) (l : list (SentCandidate * Method)) : option (SentCandidate * Method * string) :=
  match l with
  | [] => None
  | g :: l => match stands used r g with Some x => Some x | None => first_standing used r l end
  end.
Definition guess_match (m : Matching) (r : Composition) : Matching :=
  match first_standing (mt_used m) r (guesses r) with
  | Some (s, method, st) => became r s method st m
  | None => if (MATCH_WINDOW_MS <? now - cm_created_at r)%Z
            then mkMatching (mt_used m) (mt_out m ++ [(cm_id r, NothingSent)]) else m
  end.
Definition match_records (waiting : list Composition) (used : gset string) : list (Z * Outcome) :=
  let exact := foldl exact_match (mkMatching used []) waiting in
  let decided := (mt_out exact).*1 in
  let rest := merge_sort newer_first (List.filter (λ r, negb (bool_decide (cm_id r ∈ decided))) waiting) in
  mt_out (foldl guess_match exact rest).
End records.

(** Save what a matching found. *)
Definition save_outcome (now : Millis) (o : Z * Outcome) : Tx () :=
  match o.2 with
  | Became message method st d => set_matched o.1 message (method_text method) st d now
  | NothingSent => set_status o.1 Unmatched now
  end.
Definition save_outcomes (now : Millis) (l : list (Z * Outcome)) : Tx () := each (save_outcome now) l.
Record MatchSummary := mkMatchSummary { sm_matched : nat; sm_unmatched : nat; sm_waiting : nat }.
Definition summary (waiting : list Composition) (l : list (Z * Outcome)) : MatchSummary :=
  mkMatchSummary (count (λ o, match o.2 with Became _ _ _ _ => true | NothingSent => false end) l)
    (count (λ o, match o.2 with NothingSent => true | _ => false end) l) (length waiting - length l).
(** What is waiting, what was sent since the oldest of it, and what is
    matched already. *)
Definition to_match (now : Millis) (d : ReviewDb) : list Composition * list SentCandidate * gset string :=
  let waiting := listed Waiting (2 ^ 32 - 1) d in
  let since := match cm_created_at <$> waiting with [] => now | t :: l => foldr Z.min t l end in
  (waiting, sent_since since d, matched_messages d).
End match_.
End ReviewMatch.
Import ReviewMatch.

(** * The fewest words changed *)

(** One word replaced, deleted or inserted. *)
Inductive word_edit : list string → list string → Prop :=
| word_replaced l x y r : word_edit (l ++ x :: r) (l ++ y :: r)
| word_deleted l x r : word_edit (l ++ x :: r) (l ++ r)
| word_inserted l x r : word_edit (l ++ r) (l ++ x :: r).
(** Both texts word by word, with what that costs. *)
Inductive aligned : list string → list string → nat → Prop :=
| al_nil : aligned [] [] 0
| al_keep x a b n : aligned a b n → aligned (x :: a) (x :: b) n
| al_replace x y a b n : aligned a b n → aligned (x :: a) (y :: b) (S n)
| al_delete x a b n : aligned a b n → aligned (x :: a) b (S n)
| al_insert y a b n : aligned a b n → aligned a (y :: b) (S n).
Create HintDb align.
#[export] Hint Constructors aligned : align.

Lemma aligned_same a : aligned a a 0.
Proof. induction a; auto with align. Qed.
Lemma aligned_all_new b : aligned [] b (length b).
Proof. induction b; cbn; auto with align. Qed.
Lemma aligned_all_gone a : aligned a [] (length a).
Proof. induction a; cbn; auto with align. Qed.
Lemma aligned_longer a b n : aligned a b n → length b ≤ length a + n ∧ length a ≤ length b + n.
Proof. induction 1; cbn; lia. Qed.
Lemma aligned_app a b n a' b' n' : aligned a b n → aligned a' b' n' → aligned (a ++ a') (b ++ b') (n + n').
Proof. induction 1; cbn; eauto with align. Qed.
Lemma aligned_split a1 a2 b n : aligned (a1 ++ a2) b n →
  ∃ b1 b2 n1 n2, b = b1 ++ b2 ∧ n = n1 + n2 ∧ aligned a1 b1 n1 ∧ aligned a2 b2 n2.
Proof.
  intros H. remember (a1 ++ a2) as a eqn:Ea. revert a1 Ea.
  induction H as [|x a b n H IH|x y a b n H IH|x a b n H IH|y a b n H IH]; intros a1 Ea.
  - symmetry in Ea. apply app_eq_nil in Ea as [-> ->]. exists [], [], 0, 0. auto with align.
  - destruct a1 as [|x' a1]; cbn in Ea.
    + exists [], (x :: b), 0, n. subst a2. auto with align.
    + injection Ea as <- Ea. destruct (IH a1 Ea) as (b1 & b2 & n1 & n2 & -> & -> & H1 & H2).
      exists (x :: b1), b2, n1, n2. auto with align.
  - destruct a1 as [|x' a1]; cbn in Ea.
    + exists [], (y :: b), 0, (S n). subst a2. auto with align.
    + injection Ea as <- Ea. destruct (IH a1 Ea) as (b1 & b2 & n1 & n2 & -> & -> & H1 & H2).
      exists (y :: b1), b2, (S n1), n2. auto with align.
  - destruct a1 as [|x' a1]; cbn in Ea.
    + exists [], b, 0, (S n). subst a2. auto with align.
    + injection Ea as <- Ea. destruct (IH a1 Ea) as (b1 & b2 & n1 & n2 & -> & -> & H1 & H2).
      exists b1, b2, (S n1), n2. auto with align.
  - destruct (IH a1 Ea) as (b1 & b2 & n1 & n2 & -> & -> & H1 & H2). exists (y :: b1), b2, (S n1), n2. auto with align.
Qed.
Lemma aligned_rev a b n : aligned a b n → aligned (rev a) (rev b) n.
Proof.
  assert (∀ x y c, aligned [x] y c → ∀ a b n, aligned a b n → aligned (a ++ [x]) (b ++ y) (c + n)) as Hl.
  { intros x y c Hc a' b' n' Hn. rewrite Nat.add_comm. by apply aligned_app. }
  induction 1 as [|x a b n H IH|x y a b n H IH|x a b n H IH|y a b n H IH]; cbn; [constructor|..].
  - apply (Hl x [x] 0); auto with align.
  - apply (Hl x [y] 1); auto with align.
  - rewrite <-(app_nil_r (rev b)). apply (Hl x [] 1); auto with align.
  - rewrite <-(app_nil_r (rev a)), <-Nat.add_1_r. apply aligned_app; auto with align.
Qed.

(** Fewest edits and cheapest alignment are one. *)
Lemma edit_under x a b : word_edit a b → word_edit (x :: a) (x :: b).
Proof. destruct 1 as [l y z r|l y r|l y r]; [apply (word_replaced (x :: l))|apply (word_deleted (x :: l))|apply (word_inserted (x :: l))]. Qed.
Lemma edits_under x n a b : nsteps word_edit n a b → nsteps word_edit n (x :: a) (x :: b).
Proof. intros Hn. eapply (nsteps_congruence (cons x)); [apply edit_under|done]. Qed.
Lemma aligned_edits a b n : aligned a b n → nsteps word_edit n a b.
Proof.
  induction 1 as [|x a b n H IH|x y a b n H IH|x a b n H IH|y a b n H IH]; [constructor|..].
  - apply edits_under, IH.
  - econstructor; [apply (word_replaced [] x y a)|]. apply edits_under, IH.
  - econstructor; [apply (word_deleted [] x a)|done].
  - econstructor; [apply (word_inserted [] y a)|]. apply edits_under, IH.
Qed.
(** What one word was aligned with, another can be for one more. *)
Lemma aligned_swap x y b n : aligned [y] b n → ∃ m, m ≤ S n ∧ aligned [x] b m.
Proof.
  intros H. remember [y] as a eqn:Ea.
  induction H as [|x' a b n H IH|x' y' a b n H IH|x' a b n H IH|y' a b n H IH]; [done|..].
  - injection Ea as -> ->. exists (S n). auto with align.
  - injection Ea as -> ->. exists (S n). auto with align.
  - injection Ea as -> ->. exists (S n). auto with align.
  - destruct (IH Ea) as (m & Hm & H'). exists (S m). split; [lia|auto with align].
Qed.
Lemma edit_aligned a a' b n : word_edit a a' → aligned a' b n → ∃ m, m ≤ S n ∧ aligned a b m.
Proof.
  destruct 1 as [l x y r|l x r|l x r].
  - change (l ++ y :: r) with (l ++ [y] ++ r). intros (b1 & b2 & n1 & n2 & -> & -> & H1 & H2)%aligned_split.
    apply aligned_split in H2 as (b3 & b4 & n3 & n4 & -> & -> & H3 & H4).
    destruct (aligned_swap x y b3 n3 H3) as (m & Hm & H'). exists (n1 + (m + n4)). split; [lia|].
    change (l ++ x :: r) with (l ++ [x] ++ r). eauto using aligned_app.
  - intros (b1 & b2 & n1 & n2 & -> & -> & H1 & H2)%aligned_split. exists (n1 + S n2). split; [lia|].
    apply aligned_app; auto with align.
  - change (l ++ x :: r) with (l ++ [x] ++ r). intros (b1 & b2 & n1 & n2 & -> & -> & H1 & H2)%aligned_split.
    apply aligned_split in H2 as (b3 & b4 & n3 & n4 & -> & -> & H3 & H4).
    exists (n1 + (length b3 + n4)). split; [apply aligned_longer in H3; cbn in H3; lia|].
    apply aligned_app; [done|]. change r with ([] ++ r). apply aligned_app; [apply aligned_all_new|done].
Qed.
Lemma edits_aligned n a b : nsteps word_edit n a b → ∃ m, m ≤ n ∧ aligned a b m.
Proof.
  induction 1 as [a|n a a' b H _ (m & Hm & IH)]; [exists 0; eauto using aligned_same|].
  destruct (edit_aligned a a' b m H IH) as (m' & Hm' & H'). exists m'. split; [lia|done].
Qed.

(** ** The table *)

Definition cheapest (a b : list string) (n : nat) : Prop := aligned a b n ∧ ∀ m, aligned a b m → n ≤ m.
Lemma cheapest_new b : cheapest [] b (length b).
Proof. split; [apply aligned_all_new|]. intros m H%aligned_longer. cbn in H. lia. Qed.
Lemma cheapest_gone a : cheapest a [] (length a).
Proof. split; [apply aligned_all_gone|]. intros m H%aligned_longer. cbn in H. lia. Qed.
Lemma cheapest_both a x b y d u l :
  cheapest a b d → cheapest a (b ++ [y]) u → cheapest (a ++ [x]) b l →
  cheapest (a ++ [x]) (b ++ [y]) (Nat.min (Nat.min (d + if String.eqb x y then 0 else 1) (u + 1)) (l + 1)).
Proof.
  intros [Hd Hd'] [Hu Hu'] [Hl Hl'].
  assert (aligned (a ++ [x]) (b ++ [y]) (d + if String.eqb x y then 0 else 1)) as H1.
  { apply aligned_app; [done|]. destruct (String.eqb_spec x y) as [->|]; auto with align. }
  assert (aligned (a ++ [x]) (b ++ [y]) (u + 1)) as H2.
  { rewrite <-(app_nil_r (b ++ [y])). apply aligned_app; auto with align. }
  assert (aligned (a ++ [x]) (b ++ [y]) (l + 1)) as H3.
  { rewrite <-(app_nil_r (a ++ [x])). apply aligned_app; auto with align. }
  split; [by destruct (Nat.min_spec (Nat.min (d + if String.eqb x y then 0 else 1) (u + 1)) (l + 1)) as [[_ ->]|[_ ->]];
          [destruct (Nat.min_spec (d + if String.eqb x y then 0 else 1) (u + 1)) as [[_ ->]|[_ ->]]|]|].
  intros m H%aligned_rev. rewrite !rev_app_distr in H. cbn in H.
  assert (∀ p q k, aligned (rev p) (rev q) k → aligned p q k) as Hr.
  { intros p q k Hk%aligned_rev. by rewrite !rev_involutive in Hk. }
  inversion H as [|x' a' b' n' H'|x' y' a' b' n' H'|x' a' b' n' H'|y' a' b' n' H']; subst.
  - apply Hr, Hd' in H'. rewrite String.eqb_refl. lia.
  - apply Hr, Hd' in H'. destruct (String.eqb x y); lia.
  - assert (aligned a (b ++ [y]) n') as H''%Hu' by (apply Hr; by rewrite rev_app_distr). lia.
  - assert (aligned (a ++ [x]) b n') as H''%Hl' by (apply Hr; by rewrite rev_app_distr). lia.
Qed.

(** A row of the table: how far the words so far are from each start of
    the other text. *)
Definition row_right (a b : list string) (r : list nat) : Prop :=
  length r = S (length b) ∧ ∀ j n, r !! j = Some n → cheapest a (take j b) n.
Lemma next_cells_length wa b : ∀ diag left up, length up = length b → length (next_cells wa b diag left up) = length b.
Proof. induction b as [|wb b IH]; intros diag left [|u up] E; cbn in *; [done..|]. by rewrite IH; [|lia]. Qed.
Lemma next_cells_right a wa b2 : ∀ b1 diag left up,
  length up = length b2 → cheapest a b1 diag → cheapest (a ++ [wa]) b1 left →
  (∀ j n, up !! j = Some n → cheapest a (b1 ++ take (S j) b2) n) →
  ∀ j n, next_cells wa b2 diag left up !! j = Some n → cheapest (a ++ [wa]) (b1 ++ take (S j) b2) n.
Proof.
  induction b2 as [|wb b2 IH]; intros b1 diag left [|u up] E Hd Hl Hu j n Hj; [done..|].
  assert (cheapest (a ++ [wa]) (b1 ++ [wb]) (Nat.min (Nat.min (diag + if String.eqb wa wb then 0 else 1) (u + 1)) (left + 1))) as Hc.
  { apply cheapest_both; [done| |done]. by apply (Hu 0). }
  destruct j as [|j]; cbn [next_cells lookup list_lookup] in Hj; [by injection Hj as <-|].
  change (take (S (S j)) (wb :: b2)) with ([wb] ++ take (S j) b2). rewrite (assoc_L (++)).
  eapply (IH (b1 ++ [wb])); [by injection E|..|exact Hj]; [by apply (Hu 0)|done|].
  intros j' n' Hj'. rewrite <-(assoc_L (++)). by apply (Hu (S j')).
Qed.
Lemma next_row_right a b wa r : row_right a b r → row_right (a ++ [wa]) b (next_row b (length a) wa r).
Proof.
  intros [Hl Hr]. destruct r as [|first up]; [done|]. injection Hl as Hl.
  assert (cheapest a [] first) as Hf by (by apply (Hr 0)).
  assert (cheapest (a ++ [wa]) [] (length a + 1)) as Hg by (replace (length a + 1) with (length (a ++ [wa])) by (rewrite length_app; done); apply cheapest_gone).
  split; [cbn; by rewrite next_cells_length|]. intros [|j] n Hj; [by injection Hj as <-|]. cbn in Hj.
  apply (next_cells_right a wa b [] first (length a + 1) up); try done. intros j' n' Hj'. by apply (Hr (S j')).
Qed.
Lemma rows_right b a2 : ∀ a1 r, row_right a1 b r → row_right (a1 ++ a2) b (rows_from b (length a1) a2 r).
Proof.
  induction a2 as [|wa a2 IH]; intros a1 r Hr; cbn; [by rewrite app_nil_r|].
  rewrite cons_middle, (assoc_L (++)). replace (length a1 + 1) with (length (a1 ++ [wa])) by (rewrite length_app; done).
  by apply IH, next_row_right.
Qed.
Lemma first_row b : row_right [] b (seq 0 (length b + 1)).
Proof.
  split; [rewrite length_seq; lia|]. intros j n [-> Hj]%lookup_seq. cbn.
  assert (j = length (take j b)) as Ej by (rewrite length_take; lia). rewrite Ej at 2. apply cheapest_new.
Qed.
Lemma edit_distance_cheapest a b : cheapest a b (edit_distance a b).
Proof.
  unfold edit_distance. destruct (rows_right b a [] _ (first_row b)) as [Hl Hr]. cbn in Hl, Hr.
  destruct (lookup_lt_is_Some_2 (rows_from b 0 a (seq 0 (length b + 1))) (length b)) as [n En]; [lia|].
  rewrite En. cbn. pose proof (Hr _ _ En) as Hc. by rewrite take_ge in Hc.
Qed.
Lemma edit_distance_bound a b : edit_distance a b ≤ Nat.max (length a) (length b).
Proof.
  apply (edit_distance_cheapest a b). revert b.
  induction a as [|x a IH]; intros [|y b]; [apply al_nil|apply aligned_all_new|apply aligned_all_gone|]. cbn. by apply al_replace.
Qed.

Section distances.
Context `{HC : CoreText} `{HA : CharText}.

Lemma edit_distance_fewest a b :
  nsteps word_edit (edit_distance a b) a b ∧ ∀ n, nsteps word_edit n a b → edit_distance a b ≤ n.
Proof.
  destruct (edit_distance_cheapest a b) as [Ha Hm]. split; [by apply aligned_edits|].
  intros n (m & Hn & Hc)%edits_aligned. apply Hm in Hc. lia.
Qed.

(** C29. How far what was sent is from the AI's text, which a table of word
    distances computes row by row, is the fewest words replaced, deleted or
    inserted to make the one of the other, over the longer text's words:
    nothing where the words are the same, and at most 1. *)
Theorem distance_is_fewest_edits a b :
  ∃ n, nsteps word_edit n (words a) (words b) ∧ (∀ m, nsteps word_edit m (words a) (words b) → n ≤ m) ∧
    (distance a b * inject_Z (Z.of_nat (Nat.max (length (words a)) (length (words b)))) == inject_Z (Z.of_nat n))%Q ∧
    (0 <= distance a b <= 1)%Q ∧ ((distance a b == 0)%Q ↔ words a = words b).
Proof.
  exists (edit_distance (words a) (words b)). destruct (edit_distance_fewest (words a) (words b)) as [He Hm].
  pose proof (edit_distance_bound (words a) (words b)) as Hb.
  assert (edit_distance (words a) (words b) = 0 ↔ words a = words b) as H0.
  { split; intros E; [rewrite E in He; by inversion He|]. apply Nat.le_0_r, Hm. rewrite E. constructor. }
  revert He Hm Hb H0. unfold distance, ratio. generalize (edit_distance (words a) (words b)). intros n He Hm Hb H0.
  split; [done|]. split; [done|]. destruct (Nat.eqb_spec (Nat.max (length (words a)) (length (words b))) 0) as [E|E].
  - rewrite E in *. assert (n = 0) as -> by lia. split; [done|]. split; [split; done|]. rewrite <-H0. done.
  - revert Hb E H0. generalize (Nat.max (length (words a)) (length (words b))). intros k Hb E H0.
    unfold Qeq, Qle, Qmult, inject_Z. cbn. rewrite <-H0.
    assert (Z.pos (Pos.of_nat k) = Z.of_nat k) as Hk by lia.
    rewrite ?Pos.mul_1_r, ?Hk. repeat split; lia.
Qed.
End distances.

(** * What a matching finds *)

Definition outcome_message (o : Z * Outcome) : option string := match o.2 with Became m _ _ _ => Some m | NothingSent => None end.
Definition messages_of (l : list (Z * Outcome)) : list string := omap outcome_message l.

Section matching.
Context `{HC : CoreText} `{HA : CharText}.
Context (sent : list SentCandidate) (now : Millis) (text : string → option string).

(** The first message sent after a record that is for it. *)
Definition first_after (r : Composition) (p : SentCandidate → bool) (s : SentCandidate) : Prop :=
  ∃ before later, sent = before ++ s :: later ∧ p s = true ∧ (cm_created_at r < sc_at s)%Z ∧
    ∀ x, x ∈ before → (cm_created_at r < sc_at x)%Z → p x = false.
(** A record that may be guessed at: none sent under a Message-ID, no
    report, and no draft that may still be sent. *)
Definition may_guess (r : Composition) : Prop :=
  cm_rfc822 r = None ∧ is_reported r = false ∧ (cm_draft_id r = None ∨ (OPEN_DRAFT_MS ≤ now - cm_created_at r)%Z).
Definition guessed (r : Composition) (s : SentCandidate) (method : Method) (st : string) : Prop :=
  may_guess r ∧ (MIN_OVERLAP <= overlap (ai_of r) st)%Q ∧
  match method with
  | ThreadNext => cm_kind r ∈ [Reply; Forward] ∧ first_after r (in_thread r) s
  | _ => cm_kind r ∈ [New; Forward] ∧
         (first_after r (has (rp_to (cm_recipients r))) s ∨
          (∀ x, x ∈ sent → (cm_created_at r < sc_at x)%Z → has (rp_to (cm_recipients r)) x = false) ∧
          first_after r (has (rp_cc (cm_recipients r))) s)
  end.
Definition justified (r : Composition) (o : Outcome) : Prop :=
  match o with
  | Became message method st d =>
      d = distance (ai_of r) st ∧ text message = Some st ∧
      ∃ s, s ∈ sent ∧ sc_message s = message ∧
        (if bool_decide (method = SentDraft) then is_Some (cm_rfc822 r) ∧ sc_rfc822 s = cm_rfc822 r else guessed r s method st)
  | NothingSent => (MATCH_WINDOW_MS < now - cm_created_at r)%Z
  end.

Record matching_ok (waiting : list Composition) (used0 : gset string) (m : Matching) : Prop := {
  mo_once : NoDup (mt_out m).*1;
  mo_justified o : o ∈ mt_out m → ∃ r, r ∈ waiting ∧ cm_id r = o.1 ∧ justified r o.2;
  mo_messages : NoDup (messages_of (mt_out m));
  mo_used : mt_used m = used0 ∪ list_to_set (messages_of (mt_out m));
  mo_free x : x ∈ messages_of (mt_out m) → x ∉ used0 }.

Lemma messages_app l k : messages_of (l ++ k) = messages_of l ++ messages_of k.
Proof. apply omap_app. Qed.
Lemma out_ok waiting used0 m r o : matching_ok waiting used0 m → r ∈ waiting → cm_id r ∉ (mt_out m).*1 → justified r o →
  match outcome_message (cm_id r, o) with Some x => x ∉ mt_used m | None => True end →
  matching_ok waiting used0
    (mkMatching (match outcome_message (cm_id r, o) with Some x => {[ x ]} | None => ∅ end ∪ mt_used m) (mt_out m ++ [(cm_id r, o)])).
Proof.
  intros [H1 H2 H3 H4 H5] Hr Hid Ho Hx. split; cbn [mt_out mt_used].
  - rewrite fmap_app. apply NoDup_app. split; [done|]. split; [|apply NoDup_singleton].
    intros x Hin ->%list_elem_of_singleton. done.
  - intros o'. rewrite elem_of_app, list_elem_of_singleton. intros [Ho'| ->]; [by apply H2|]. by exists r.
  - rewrite messages_app. cbn. destruct (outcome_message (cm_id r, o)) as [x|]; [|by rewrite app_nil_r].
    apply NoDup_app. split; [done|]. split; [|apply NoDup_singleton]. intros y Hy ->%list_elem_of_singleton.
    apply Hx. rewrite H4. set_solver.
  - rewrite messages_app, H4. cbn. destruct (outcome_message (cm_id r, o)); set_solver.
  - intros x. rewrite messages_app, elem_of_app. intros [Hin|Hin]; [by apply H5|]. cbn in Hin.
    destruct (outcome_message (cm_id r, o)) as [y|]; [|by apply not_elem_of_nil in Hin].
    apply list_elem_of_singleton in Hin as ->. rewrite H4 in Hx. set_solver.
Qed.
Lemma became_ok waiting used0 m r s method st : matching_ok waiting used0 m → r ∈ waiting → cm_id r ∉ (mt_out m).*1 →
  sc_message s ∉ mt_used m → text (sc_message s) = Some st → s ∈ sent →
  (if bool_decide (method = SentDraft) then is_Some (cm_rfc822 r) ∧ sc_rfc822 s = cm_rfc822 r else guessed r s method st) →
  matching_ok waiting used0 (became r s method st m).
Proof.
  intros Hm Hr Hid Hu Ht Hs Hj.
  apply (out_ok waiting used0 m r (Became (sc_message s) method st (distance (ai_of r) st))); try done.
  split; [done|]. split; [done|]. by exists s.
Qed.

Lemma next_where_first r p s : next_where sent r p = Some s → first_after r p s.
Proof.
  unfold next_where, first_after. clear. induction sent as [|x l IH]; [done|]. cbn. unfold after at 1.
  destruct (Z.ltb_spec (cm_created_at r) (sc_at x)) as [Hx|Hx]; cbn.
  - destruct (p x) eqn:Ep.
    + intros [= ->]. exists [], l. do 3 (split; [done|]). by intros y Hy%not_elem_of_nil.
    + intros (b & t & -> & H1 & H2 & H3)%IH. exists (x :: b), t. do 3 (split; [done|]).
      intros y [->|Hy]%elem_of_cons; [done|by apply H3].
  - intros (b & t & -> & H1 & H2 & H3)%IH. exists (x :: b), t. do 3 (split; [done|]).
    intros y [->|Hy]%elem_of_cons; [lia|by apply H3].
Qed.
Lemma next_where_none r p x : next_where sent r p = None → x ∈ sent → (cm_created_at r < sc_at x)%Z → p x = false.
Proof.
  unfold next_where. intros Hn Hx Ha. apply (List.find_none _ _ Hn). apply List.filter_In.
  split; [by apply list_elem_of_In|]. unfold after. by apply Z.ltb_lt.
Qed.
Lemma first_after_sent r p s : first_after r p s → s ∈ sent.
Proof. intros (b & t & -> & _). set_solver. Qed.
Lemma guesses_right r s method st : (s, method) ∈ guesses sent now r →
  (MIN_OVERLAP <= overlap (ai_of r) st)%Q → method ≠ SentDraft ∧ s ∈ sent ∧ guessed r s method st.
Proof.
  unfold guesses, guessable. destruct (bool_decide (cm_rfc822 r = None)) eqn:E1; [|by intros []%not_elem_of_nil].
  destruct (still_open now r) eqn:E2; [by intros []%not_elem_of_nil|].
  destruct (is_reported r) eqn:E3; [by intros []%not_elem_of_nil|]. cbn. intros Hin Hov. apply bool_decide_eq_true in E1.
  assert (may_guess r) as Hg.
  { split; [done|]. split; [done|]. unfold still_open in E2. apply andb_false_iff in E2 as [E2|E2%Z.ltb_ge]; [left|by right].
    apply bool_decide_eq_false in E2. by apply eq_None_not_Some. }
  apply elem_of_app in Hin as [Hin|Hin]; (case_bool_decide as Ek; [|by apply not_elem_of_nil in Hin]).
  - destruct (next_where _ _ _) as [s'|] eqn:En; [|by apply not_elem_of_nil in Hin].
    apply list_elem_of_singleton in Hin as [= -> ->]. apply next_where_first in En.
    split; [done|]. split; [by eapply first_after_sent|]. by split.
  - destruct (next_where sent r (has (rp_to (cm_recipients r)))) as [s'|] eqn:En.
    + apply list_elem_of_singleton in Hin as [= -> ->]. apply next_where_first in En.
      split; [done|]. split; [by eapply first_after_sent|]. split; [done|]. split; [done|]. split; [done|]. by left.
    + destruct (next_where sent r (has (rp_cc (cm_recipients r)))) as [s'|] eqn:Ec; [|by apply not_elem_of_nil in Hin].
      apply list_elem_of_singleton in Hin as [= -> ->]. apply next_where_first in Ec.
      split; [done|]. split; [by eapply first_after_sent|]. split; [done|]. split; [done|]. split; [done|]. right.
      split; [|done]. intros x. by apply next_where_none.
Qed.
Lemma first_standing_right used r l s method st : first_standing text used r l = Some (s, method, st) →
  (s, method) ∈ l ∧ (sc_message s ∉ used) ∧ text (sc_message s) = Some st ∧ (MIN_OVERLAP <= overlap (ai_of r) st)%Q.
Proof.
  induction l as [|g l IH]; [done|]. cbn. destruct (stands text used r g) as [x|] eqn:Es.
  - intros [= ->]. unfold stands in Es. case_bool_decide; [done|].
    destruct (text (sc_message g.1)) as [st'|] eqn:Et; [|done]. cbn in Es.
    destruct (Qle_bool _ _) eqn:Eq; [|done]. injection Es as -> ->. apply Qle_bool_iff in Eq. split; [left|done].
  - intros (H1 & H2)%IH. split; [by right|done].
Qed.

(** One record looked at: it may get an outcome, and nothing else does. *)
Definition adds (f : Matching → Composition → Matching) : Prop :=
  ∀ m r, (f m r = m ∨ ∃ o, mt_out (f m r) = mt_out m ++ [(cm_id r, o)]) ∧ mt_used m ⊆ mt_used (f m r).
Lemma exact_adds : adds (exact_match sent text).
Proof.
  intros m r. unfold exact_match. destruct (cm_rfc822 r ≫= by_rfc822 sent) as [s|]; [|by split; [left|]].
  case_bool_decide; [by split; [left|]|]. destruct (text (sc_message s)) as [st|]; [|by split; [left|]].
  split; [right; by eexists|]. cbn. set_solver.
Qed.
Lemma guess_adds : adds (guess_match sent now text).
Proof.
  intros m r. unfold guess_match. destruct (first_standing _ _ _ _) as [[[s method] st]|].
  - split; [right; by eexists|]. cbn. set_solver.
  - destruct (MATCH_WINDOW_MS <? _)%Z; [|by split; [left|]]. split; [right; by eexists|done].
Qed.
Lemma adds_ids f m r x : adds f → x ∈ (mt_out (f m r)).*1 → x = cm_id r ∨ x ∈ (mt_out m).*1.
Proof.
  intros Hf. destruct (Hf m r) as [[->|[o ->]] _]; [by right|]. rewrite fmap_app, elem_of_app.
  intros [Hx|Hx]; [by right|]. left. by apply list_elem_of_singleton in Hx.
Qed.
Lemma adds_keeps f m r : adds f → mt_out m ⊆ mt_out (f m r) ∧ mt_used m ⊆ mt_used (f m r).
Proof. intros Hf. destruct (Hf m r) as [[->|[o ->]] Hu]; split; try done; set_solver. Qed.
Lemma fold_keeps f l m : adds f → mt_out m ⊆ mt_out (foldl f m l) ∧ mt_used m ⊆ mt_used (foldl f m l).
Proof.
  intros Hf. revert m. induction l as [|r l IH]; intros m; [done|]. cbn.
  destruct (IH (f m r)), (adds_keeps f m r Hf). split; by etrans.
Qed.
Lemma fold_ok f W used0 l m : adds f →
  (∀ m r, matching_ok W used0 m → r ∈ W → cm_id r ∉ (mt_out m).*1 → matching_ok W used0 (f m r)) →
  matching_ok W used0 m → l ⊆ W → NoDup (cm_id <$> l) → (∀ r, r ∈ l → cm_id r ∉ (mt_out m).*1) →
  matching_ok W used0 (foldl f m l).
Proof.
  intros Ha Hf. revert m. induction l as [|r l IH]; intros m Hm Hl Hn Hid; [done|]. cbn in *.
  apply NoDup_cons in Hn as [Hr Hn]. apply IH; [apply Hf; [done|apply Hl; left|apply Hid; left]|set_solver|done|].
  intros r' Hr' [E|Hx]%(adds_ids f m r _ Ha); [|by apply (Hid r'); [right|]].
  apply Hr. rewrite <-E. by apply list_elem_of_fmap_2.
Qed.
Lemma exact_ok W used0 m r : matching_ok W used0 m → r ∈ W → cm_id r ∉ (mt_out m).*1 → matching_ok W used0 (exact_match sent text m r).
Proof.
  intros Hm Hr Hid. unfold exact_match. destruct (cm_rfc822 r) as [id|] eqn:Ei; [|done]. cbn.
  destruct (by_rfc822 sent id) as [s|] eqn:Es; [|done]. case_bool_decide; [done|].
  destruct (text (sc_message s)) as [st|] eqn:Et; [|done]. apply List.find_some in Es as [Hs Eid].
  apply list_elem_of_In in Hs. rewrite elem_of_reverse in Hs. apply bool_decide_eq_true in Eid.
  apply became_ok; try done. cbn. rewrite Ei. by split.
Qed.
Lemma guess_ok W used0 m r : matching_ok W used0 m → r ∈ W → cm_id r ∉ (mt_out m).*1 → matching_ok W used0 (guess_match sent now text m r).
Proof.
  intros Hm Hr Hid. unfold guess_match. destruct (first_standing _ _ _ _) as [[[s method] st]|] eqn:Es.
  - apply first_standing_right in Es as (Hg & Hu & Ht & Ho). eapply guesses_right in Hg as (Hd & Hs & Hg); [|done].
    apply became_ok; try done. rewrite bool_decide_eq_false_2 by done. done.
  - destruct (MATCH_WINDOW_MS <? now - cm_created_at r)%Z eqn:Ew; [|done].
    replace (mt_used m) with (∅ ∪ mt_used m) by set_solver. apply (out_ok W used0 m r NothingSent); try done.
    cbn. by apply Z.ltb_lt.
Qed.
(** What is taken by a Message-ID stays taken by one. *)
Lemma exact_methods l m : (∀ o, o ∈ mt_out m → ∃ x st d, o.2 = Became x SentDraft st d) →
  ∀ o, o ∈ mt_out (foldl (exact_match sent text) m l) → ∃ x st d, o.2 = Became x SentDraft st d.
Proof.
  revert m. induction l as [|r l IH]; intros m Hm; [done|]. cbn. apply IH. unfold exact_match.
  destruct (cm_rfc822 r ≫= by_rfc822 sent) as [s|]; [|done]. case_bool_decide; [done|].
  destruct (text (sc_message s)) as [st|]; [|done]. intros o. cbn. rewrite elem_of_app, list_elem_of_singleton.
  intros [Ho| ->]; [by apply Hm|]. by eexists _, _, _.
Qed.
Lemma exact_taken l m r s st : r ∈ l → cm_rfc822 r ≫= by_rfc822 sent = Some s → text (sc_message s) = Some st →
  sc_message s ∈ mt_used (foldl (exact_match sent text) m l).
Proof.
  intros Hr Es Et. revert m. induction Hr as [r l|r r' l Hr IH]; intros m; cbn; [|by apply IH].
  apply (fold_keeps _ l _ exact_adds). unfold exact_match. rewrite Es. case_bool_decide; [done|]. rewrite Et. cbn. set_solver.
Qed.
Lemma guess_decides l m r : r ∈ l → cm_id r ∈ (mt_out (foldl (guess_match sent now text) m l)).*1 ∨ (now - cm_created_at r ≤ MATCH_WINDOW_MS)%Z.
Proof.
  intros Hr. revert m. induction Hr as [r l|r r' l Hr IH]; intros m; cbn; [|by apply IH].
  destruct (fold_keeps _ l (guess_match sent now text m r) guess_adds) as [Hk _].
  unfold guess_match in *. destruct (first_standing _ _ _ _) as [[[s method] st]|].
  - left. apply list_elem_of_fmap. eexists (cm_id r, _). split; [done|]. apply Hk. cbn. apply elem_of_app. right. by left.
  - destruct (Z.ltb_spec MATCH_WINDOW_MS (now - cm_created_at r)) as [H|H]; [|by right]. left.
    apply list_elem_of_fmap. eexists (cm_id r, _). split; [done|]. apply Hk. cbn. apply elem_of_app. right. by left.
Qed.

Lemma exact_all_ok waiting used : NoDup (cm_id <$> waiting) →
  matching_ok waiting used (foldl (exact_match sent text) (mkMatching used []) waiting).
Proof.
  intros Hn. apply fold_ok; [apply exact_adds|apply exact_ok| |done|done|by intros ? _ ?%not_elem_of_nil].
  split; cbn; [constructor|by intros ? ?%not_elem_of_nil|constructor|set_solver|by intros ? ?%not_elem_of_nil].
Qed.
Lemma match_records_ok waiting used : NoDup (cm_id <$> waiting) →
  ∃ m, match_records sent now text waiting used = mt_out m ∧ matching_ok waiting used m ∧
    (∀ r, r ∈ waiting → cm_id r ∉ (mt_out m).*1 → (now - cm_created_at r ≤ MATCH_WINDOW_MS)%Z) ∧
    mt_out (foldl (exact_match sent text) (mkMatching used []) waiting) ⊆ mt_out m.
Proof.
  intros Hn. unfold match_records. set (ex := foldl (exact_match sent text) (mkMatching used []) waiting).
  set (rest := merge_sort _ _). exists (foldl (guess_match sent now text) ex rest). split; [done|].
  assert (∀ r, r ∈ rest ↔ r ∈ waiting ∧ cm_id r ∉ (mt_out ex).*1) as Hrest.
  { intros r. unfold rest. rewrite merge_sort_Permutation, elem_of_List_filter, negb_true_iff, bool_decide_eq_false. tauto. }
  pose proof (exact_all_ok waiting used Hn) as Hex. fold ex in Hex.
  split; [|split; [|apply fold_keeps, guess_adds]].
  - apply fold_ok; [apply guess_adds|apply guess_ok|done|intros r; rewrite Hrest; tauto| |intros r; rewrite Hrest; tauto].
    unfold rest. rewrite merge_sort_Permutation. by apply NoDup_fmap_List_filter.
  - intros r Hr Hid. destruct (decide (cm_id r ∈ (mt_out ex).*1)) as [Hin|Hin].
    + exfalso. apply Hid. destruct (fold_keeps (guess_match sent now text) rest ex guess_adds) as [Hk _].
      apply list_elem_of_fmap in Hin as (o & Eo & Ho). apply list_elem_of_fmap. exists o. split; [done|]. by apply Hk.
    + destruct (guess_decides rest ex r) as [Hd|Hd]; [by apply Hrest| |done]. done.
Qed.
Lemma exact_wins waiting used r s st :
  r ∈ waiting → cm_rfc822 r ≫= by_rfc822 sent = Some s → text (sc_message s) = Some st → sc_message s ∉ used →
  let ex := foldl (exact_match sent text) (mkMatching used []) waiting in
  matching_ok waiting used ex → ∃ id st' d, (id, Became (sc_message s) SentDraft st' d) ∈ mt_out ex.
Proof.
  intros Hr Es Et Hu ex Hex. pose proof (exact_taken waiting (mkMatching used []) r s st Hr Es Et) as Ht. fold ex in Ht.
  rewrite (mo_used _ _ _ Hex) in Ht. apply elem_of_union in Ht as [Ht|Ht]; [done|].
  apply elem_of_list_to_set, list_elem_of_omap in Ht as ([id o] & Ho & Em).
  destruct (exact_methods waiting (mkMatching used [])) with (o := (id, o)) as (x & st' & d & E);
    [by intros ? ?%not_elem_of_nil|done|]. cbn in E. subst o. injection Em as ->. by eexists _, _, _.
Qed.

(** C20. Matching what AIs wrote to what the user sent: each record and
    each sent message is used at most once, never a message used before;
    a record becomes a message only by the Message-ID it was sent under,
    or, where it has none, is no cloud agent's report and no draft of it
    may still be sent, as the first message sent after it in its thread or
    to its recipients that shares enough words; it is given up on only after
    two weeks, and one left waiting is not older; and a message sent from
    a draft goes to a record sent under its Message-ID, not to a guess. *)
Theorem records_matched_once waiting used (Hn : NoDup (cm_id <$> waiting)) :
  let out := match_records sent now text waiting used in
  NoDup out.*1 ∧ NoDup (messages_of out) ∧ (∀ x, x ∈ messages_of out → x ∉ used) ∧
  (∀ o, o ∈ out → ∃ r, r ∈ waiting ∧ cm_id r = o.1 ∧ justified r o.2) ∧
  (∀ r, r ∈ waiting → cm_id r ∉ out.*1 → (now - cm_created_at r ≤ MATCH_WINDOW_MS)%Z) ∧
  (∀ r s st, r ∈ waiting → cm_rfc822 r ≫= by_rfc822 sent = Some s → text (sc_message s) = Some st → sc_message s ∉ used →
     ∃ id st' d, (id, Became (sc_message s) SentDraft st' d) ∈ out).
Proof.
  destruct (match_records_ok waiting used Hn) as (m & -> & [H1 H2 H3 H4 H5] & Hw & Hex). cbn zeta.
  do 5 (split; [done|]). intros r s st Hr Es Et Hu.
  destruct (exact_wins waiting used r s st Hr Es Et Hu (exact_all_ok waiting used Hn)) as (id & st' & d & Hin). exists id, st', d. by apply Hex.
Qed.
End matching.

(** The tests' records. *)
Section examples.
Local Instance test_text : CoreText := {| lower := ascii_lower; json_write := λ _, ""; json_read := λ _, None; json_first := λ _, None |}.
Local Instance test_chars : CharText := {| alphanumeric := Guide.ascii_alphanumeric; char_lower := ascii_lower; char_upper := λ s, s |}.
Definition a_record (id : Z) (kind : Kind) (at_ : Millis) (thread : option string) (to : list string) (rfc822 : option string) (txt : string) : Composition :=
  mkFull id at_ at_ WritingHelp None kind None thread None (mkRecipients to []) "" "" (Some txt) None None [] rfc822 Waiting None None None
    None None.
Definition AI : string := "Hi Ann, Friday at noon works well for me. See you then.".
Definition EDITED : string := "Hi Ann, Friday at noon works. See you then!".
Definition waiting_ones : list Composition :=
  [a_record 1 Reply 100 (Some "t1") ["ann@x.com"] (Some "abc@kaluta") AI; a_record 2 Reply 100 (Some "t2") ["bo@x.com"] None AI;
   a_record 3 New 100 None ["cy@x.com"] None AI; a_record 4 Forward 100 (Some "t4") ["di@x.com"] None AI].
Definition sent_ones : list SentCandidate :=
  [mkCandidate "m0" "t2" None 50 ["bo@x.com"] []; mkCandidate "m1" "t1" (Some "abc@kaluta") 200 ["ann@x.com"] [];
   mkCandidate "m2" "t2" None 200 ["bo@x.com"] []; mkCandidate "m3" "t9" None 300 ["cy@x.com"] [];
   mkCandidate "m4" "t8" None 300 ["di@x.com"] []].
Example each_rule_in_turn :
  (λ o, (o.1, match o.2 with Became m method _ _ => Some (m, method) | NothingSent => None end)) <$>
    match_records sent_ones 400 (λ _, Some EDITED) waiting_ones ∅ =
  [(1, Some ("m1", SentDraft)); (4, Some ("m4", RecipientNext)); (3, Some ("m3", RecipientNext)); (2, Some ("m2", ThreadNext))]%Z.
Proof. vm_compute. reflexivity. Qed.
Example words_left_out : distance AI EDITED = ratio 3 12 ∧ overlap AI EDITED = ratio 9 12.
Proof. split; vm_compute; reflexivity. Qed.
Lemma records_matched_once_witness :
  NoDup (match_records sent_ones 400 (λ _, Some EDITED) waiting_ones ∅).*1.
Proof. apply (records_matched_once sent_ones 400 (λ _, Some EDITED) waiting_ones ∅). compute_done. Defined.
End examples.
