(* ===== verification/ReviewCompare.v ===== *)
(** * ReviewCompare: what the user's edits say about the guide
    ([kaluta-core/src/analysis_compare.rs])

    The request for a batch of pairs, the agent's answer read, every quote
    found in the text it cites, and the changes merged into the proposals
    that wait in Analysis.  What was sent as written counts for the
    entries that applied to it. *)

From Stdlib Require Import QArith.
From S2P Require Import Prelude.
From S2P Require Import Domain.
From S2P Require Import Text.
From S2P Require Import Json.
From S2P Require Import Guide.
From S2P Require Import MailStore.
From S2P Require Import LocalDb.
From S2P Require Import Agents.
From S2P Require Import Facade.
From S2P Require Import Transactions.
From S2P Require Import ProposalStore.
From S2P Require Import GuideStore.
From S2P Require Import GuideEdits.
From S2P Require Import GuideLearn.
From S2P Require Import FactEdits.
From S2P Require Import FactGlean.
From S2P Require Import ReviewStore.
From S2P Require Import Effects.

Import GuideEdits.
Import GuideLearn.
Import GuideAnswers.
Import Compositions.

Module ReviewCompare.

Definition GUIDELINE_PAIRS : Z := 2.
Definition RULE_PAIRS : Z := 3.
Definition STATEMENT_CAP : nat := 400.
Definition QUOTE_CAP : nat := 300.
Definition PAIR_CAP : nat := 3000.

(** One pair as the comparison sees it. *)
Record Pair := mkPair {
  pa_id : Z; pa_kind : string; pa_audiences : list string; pa_instruction : string; pa_ai : string; pa_sent : string;
  pa_applied : list Z }.
Inductive Op := OpAdd | OpEdit | OpRescope | OpRemove.
Definition op_text (o : Op) : string :=
  match o with OpAdd => "add" | OpEdit => "edit" | OpRescope => "rescope" | OpRemove => "remove" end.
Record Change := mkChange {
  ch_op : Op; ch_entry : option Z; ch_category : string; ch_kind : Guide.Kind; ch_statement : string; ch_scope : Scope;
  ch_contradicts : option Z; ch_evidence : list Proposals.EvidenceRow }.
#[export] Instance scope_eq_dec : EqDecision Scope.
Proof. solve_decision. Defined.

Section compare.
Context `{HC : CoreText}.
Context (sha256 : string → string).

Definition key (c : Change) : string :=
  let entry := pretty (default 0%Z (ch_entry c)) in
  match ch_op c with
  | OpAdd => "add|" +:+ ch_category c +:+ "|" +:+ loose (ch_statement c)
  | OpEdit => "edit|" +:+ entry +:+ "|" +:+ GuideEdits.kind_text (ch_kind c) +:+ "|" +:+ loose (ch_statement c)
  | OpRescope => "rescope|" +:+ entry +:+ "|" +:+ json_write (scope_json (ch_scope c))
  | OpRemove => "remove|" +:+ entry
  end.
Definition threshold (c : Change) : Z := if bool_decide (ch_kind c = Rule) then RULE_PAIRS else GUIDELINE_PAIRS.

(** ** What applied to a message *)

Definition style (e : GuideEntry) : bool := bool_decide (ge_status e = Accepted) && negb (bool_decide (ge_kind e = FactEntry)).
Definition confirmed (groups : list AudienceGroupInfo) : AudienceGroups :=
  plain ((λ g, mkGroup (ag_name g) (ag_members g)) <$> List.filter (λ g, bool_decide (ag_status g = Confirmed)) groups).
Definition applied_entries (entries : list GuideEntry) (groups : list AudienceGroupInfo) (c : Composition) : list Z :=
  let target := mkTarget (rp_to (cm_recipients c) ++ rp_cc (cm_recipients c)) (Some (Compositions.kind_text (cm_kind c)))
                  (if is_empty (cm_audiences c) then None else Some (cm_audiences c)) in
  let audiences := default (audiences_of lower sha256 (confirmed groups) (tg_recipients target)) (tg_audiences target) in
  ge_id <$> List.filter (λ e, applies lower sha256 (ge_scope e) target audiences) (List.filter style entries).

(** ** The request *)

Definition COMPARE_MARKER : string := "Kaluta analysis compare".
Definition or_none (s none : string) : string := if String.eqb s "" then none else s.
Definition pair_block (p : Pair) : string :=
  let applied := join ", " ((λ id, "#" +:+ pretty id) <$> pa_applied p) in
  "<pair id=" +:+ quoted (pretty (pa_id p)) +:+ " type=" +:+ quoted (pa_kind p) +:+ ">" +:+ NL +:+
  "Audience: " +:+ (if is_empty (pa_audiences p) then "(none)" else fenced (join ", " (pa_audiences p))) +:+ NL +:+
  "The user asked: " +:+ (if String.eqb (trim (pa_instruction p)) "" then "(nothing recorded)"
                          else fenced (take_chars PAIR_CAP (pa_instruction p))) +:+ NL +:+
  "Guide entries that applied: " +:+ or_none applied "(none)" +:+ NL +:+
  "<ai>" +:+ NL +:+ fenced (take_chars PAIR_CAP (pa_ai p)) +:+ NL +:+ "</ai>" +:+ NL +:+
  "<sent>" +:+ NL +:+ fenced (take_chars PAIR_CAP (pa_sent p)) +:+ NL +:+ "</sent>" +:+ NL +:+ "</pair>".
Definition style_line (e : GuideEntry) : string :=
  "#" +:+ pretty (ge_id e) +:+ " [" +:+ ge_category e +:+ " " +:+ GuideEdits.kind_text (ge_kind e) +:+ "] " +:+ fenced (ge_statement e) +:+
  " scope=" +:+ json_write (scope_json (ge_scope e)).
Definition FIND_TEXT : string :=
"Each pair below is an email an assistant drafted for the user (<ai>) and what the user actually sent after editing it (<sent>). The assistant followed the user's writing guide. Find where the user's edits show the guide is wrong or missing something about their style, and propose changes to the guide.

Only style counts: tone, length, greetings and sign-offs, wording, structure, punctuation, formatting. A change of substance (a different date, a new plan, a fact the assistant could not know, a paragraph about something else) is not style: leave it out.

The guide now (rules and guidelines, by #id):
".
Definition PROPOSALS_TEXT : string := said
"Answer with only a JSON object, and nothing else:
{`proposals`: [{`op`: `add`, `category`: `B6`, `kind`: `rule` or `guideline`, `statement`: `...`, `scope`: {`groups`: [], `people`: [], `message_types`: [], `languages`: []}, `contradicts`: null or an entry id, `evidence`: [{`pair`: 12, `sent`: `words from the sent text`, `ai`: `what they replaced in the AI text`}]}, {`op`: `edit`, `id`: 7, `statement`: `...`, `kind`: `guideline`, `evidence`: [...]}, {`op`: `rescope`, `id`: 7, `scope`: {...}, `evidence`: [...]}, {`op`: `remove`, `id`: 7, `evidence`: [...]}]}

- A statement is one sentence, an instruction to someone drafting for the user.
- Edit, rescope or remove an entry by its #id when the user's edits go against it; add an entry for what the guide does not cover.
- Quote exactly: `sent` must be words from that pair's sent text and `ai` words from its AI text.
- Propose nothing rather than guess; one edit is not a habit.
- Do not use tools, and do not create, change, send or delete any mail.".
Definition prompt (pairs : list Pair) (entries : list GuideEntry) : string :=
  let categories := join "; " ((λ c, ca_id c +:+ " " +:+ ca_name c) <$> List.filter (λ c, negb (starts_with "F" (ca_id c))) CATEGORIES) in
  let guide := join NL (style_line <$> List.filter style entries) in
  let blocks := join (NL +:+ NL) (pair_block <$> pairs) in
  COMPARE_MARKER +:+ NL +:+ NL +:+ FIND_TEXT +:+ or_none guide "(empty)" +:+ NL +:+ NL +:+ "Categories: " +:+ categories +:+ NL +:+ NL +:+
  blocks +:+ NL +:+ NL +:+ PROPOSALS_TEXT.

(** ** Its answer *)

Definition MESSAGE_TYPES : list string := ["new"; "reply"; "forward"].
Definition scope_of (v : option Json) : option Scope :=
  v ← v;
  if negb (is_object v) then None else
  let strings_at k := List.filter non_empty (clean_text <$> omap as_str (items k v)) in
  Some (mkScope (strings_at "groups") (strings_at "people")
          (List.filter (λ t, bool_decide (t ∈ MESSAGE_TYPES)) (strings_at "message_types")) (strings_at "languages")).
(** A quote that occurs in the text it cites, as the prompt showed it. *)
Definition verified (quote : option string) (text : string) : option string :=
  q ← quote;
  let q := take_chars QUOTE_CAP (clean_text q) in
  if String.eqb q "" then None else if contains (loose q) (loose (fenced text)) then Some q else None.
Definition given (q : option string) : bool := match q with Some s => negb (String.eqb (trim s) "") | None => false end.
Definition cited (pairs : list Pair) (e : Json) : option Proposals.EvidenceRow :=
  id ← int_at "pair" e;
  pair ← List.find (λ p, (pa_id p =? id)%Z) (reverse pairs);
  let sent := verified (text_at "sent" e) (pa_sent pair) in
  let ai := verified (text_at "ai" e) (pa_ai pair) in
  match sent, ai with
  | None, None => None
  | _, _ =>
      if given (text_at "sent" e) && negb (bool_decide (is_Some sent)) || given (text_at "ai" e) && negb (bool_decide (is_Some ai))
      then None else Some (Proposals.mkPairEvidence (pa_id pair) (default "" sent) (default "" ai))
  end.
Definition keep_pair (l : list Proposals.EvidenceRow) (e : Proposals.EvidenceRow) : list Proposals.EvidenceRow :=
  if List.existsb (λ x, (Proposals.ev_composition x =? Proposals.ev_composition e)%Z) l then l else l ++ [e].
Definition citations (pairs : list Pair) (p : Json) : list Proposals.EvidenceRow :=
  foldl keep_pair [] (omap (cited pairs) (items "evidence" p)).
Definition accepted_entry (entries : list GuideEntry) (id : Z) : option GuideEntry :=
  List.find (λ e, (ge_id e =? id)%Z && style e) entries.
Definition change_of (pairs : list Pair) (entries : list GuideEntry) (p : Json) : option Change :=
  let evidence := citations pairs p in
  if is_empty evidence then None else
  let statement := take_chars STATEMENT_CAP (clean_text (default "" (text_at "statement" p))) in
  let kind := k ← text_at "kind" p ≫= GuideEdits.parse_kind; if bool_decide (k = FactEntry) then None else Some k in
  let entry := int_at "id" p ≫= accepted_entry entries in
  let o := default "add" (text_at "op" p) in
  if String.eqb o "add" then
    cat ← text_at "category" p ≫= category;
    if String.eqb statement "" || starts_with "F" (ca_id cat) then None else
    Some (mkChange OpAdd None (ca_id cat) (default Guideline kind) statement (default scope_default (scope_of (get_key "scope" p)))
            (ge_id <$> (int_at "contradicts" p ≫= accepted_entry entries)) evidence)
  else
    old ← entry;
    if String.eqb o "edit" then
      if String.eqb statement "" || String.eqb (loose statement) (loose (ge_statement old)) &&
                                    match kind with Some k => bool_decide (k = ge_kind old) | None => true end
      then None else
      Some (mkChange OpEdit (Some (ge_id old)) (ge_category old) (default (ge_kind old) kind) statement (ge_scope old) None evidence)
    else if String.eqb o "rescope" then
      scope ← scope_of (get_key "scope" p);
      if bool_decide (scope = ge_scope old) then None else
      Some (mkChange OpRescope (Some (ge_id old)) (ge_category old) (ge_kind old) (ge_statement old) scope None evidence)
    else if String.eqb o "remove" then
      Some (mkChange OpRemove (Some (ge_id old)) (ge_category old) (ge_kind old) (ge_statement old) (ge_scope old) None evidence)
    else None.
Definition parse (text : string) (pairs : list Pair) (entries : list GuideEntry) : option (list Change) :=
  v ← object_in ["proposals"] text;
  Some (omap (change_of pairs entries) (items "proposals" v)).

(** ** Merging it *)

Abbreviation Tx := (Transactions.Tx ReviewDb).
Abbreviation Call := (Attempt (@db_answer ReviewDb) CoreError).
Definition analysis (d : ReviewDb) : Proposals.AnalysisDb := GuideStore.g_analysis (rv_guide d).
Definition in_proposals {A} (t : Transactions.Tx Proposals.AnalysisDb A) : Tx A := in_guide (GuideStore.in_analysis t).
(** The pairs behind any open change to an entry, the least of its quotes
    for each. *)
Definition least (a b : string) : string := if key_leb a b then a else b.
Definition changes_entry (entry : Z) (p : Proposals.ProposalRow) : bool :=
  String.eqb (Proposals.po_target p) "guide" && bool_decide (Proposals.po_entry_id p = Some entry) && Proposals.open_status p.
Definition least_quotes (m : gmap Z Proposals.EvidenceRow) (e : Proposals.EvidenceRow) : gmap Z Proposals.EvidenceRow :=
  <[Proposals.ev_composition e :=
      match m !! Proposals.ev_composition e with
      | Some x => Proposals.mkPairEvidence (Proposals.ev_composition e) (least (Proposals.ev_sent_quote x) (Proposals.ev_sent_quote e))
                    (least (Proposals.ev_ai_quote x) (Proposals.ev_ai_quote e))
      | None => e
      end]> m.
Definition by_composition (a b : Z * Proposals.EvidenceRow) : Prop := (a.1 ≤ b.1)%Z.
#[export] Instance by_composition_dec a b : Decision (by_composition a b).
Proof. unfold by_composition. apply _. Defined.
Definition pairs_against (entry : Z) (d : Proposals.AnalysisDb) : list Proposals.EvidenceRow :=
  let ids := Proposals.po_id <$> List.filter (changes_entry entry) (rows (Proposals.an_proposals d)).*2 in
  let found := ids ≫= λ id, Proposals.evidence id d in
  (merge_sort by_composition (map_to_list (foldl least_quotes ∅ found))).*2.

Definition new_proposal (c : Change) : Proposals.NewProposal :=
  Proposals.mkNewProposal "guide" (op_text (ch_op c)) (ch_entry c) (ch_category c) (Some (GuideEdits.kind_text (ch_kind c))) (ch_statement c)
    (json_write (scope_json (ch_scope c))) (key c) (ch_contradicts c) None (threshold c).
Definition raise_change (now : Millis) (c : Change) : Tx () :=
  _ ← in_proposals (Proposals.upsert_proposal (new_proposal c) (ch_evidence c) now); mret ().
(** The entry a change goes against, with each of its pairs. *)
Definition goes_against (c : Change) : list (Z * Z) :=
  match (match ch_entry c with Some e => Some e | None => ch_contradicts c end) with
  | Some entry => (λ e, (entry, Proposals.ev_composition e)) <$> ch_evidence c
  | None => []
  end.
Definition pair_le (a b : Z * Z) : Prop := (a.1 < b.1)%Z ∨ a.1 = b.1 ∧ (a.2 ≤ b.2)%Z.
#[export] Instance pair_le_dec a b : Decision (pair_le a b).
Proof. unfold pair_le. apply _. Defined.
Definition removal (e : GuideEntry) (pairs : list Proposals.EvidenceRow) : Change :=
  mkChange OpRemove (Some (ge_id e)) (ge_category e) (ge_kind e) (ge_statement e) (ge_scope e) None pairs.
(** An entry gone against in three pairs is proposed for removal. *)
Definition propose_removal (entries : list GuideEntry) (now : Millis) (entry : Z) : Tx () :=
  pairs ← tx_get (λ d, pairs_against entry (analysis d));
  if (Z.of_nat (length pairs) <? RULE_PAIRS)%Z then mret () else
  match List.find (λ e, (ge_id e =? entry)%Z) (reverse entries) with
  | Some e => raise_change now (removal e pairs)
  | None => mret ()
  end.
Definition merge_changes (entries : list GuideEntry) (changes : list Change) (now : Millis) : Tx () :=
  _ ← each (raise_change now) changes;
  let against := merge_sort pair_le (remove_dups (changes ≫= goes_against)) in
  _ ← each (λ x, add_health x.1 0 1 now) against;
  each (propose_removal entries now) (merge_sort Z.le (remove_dups against.*1)).

Definition read {A} (f : ReviewDb → A) : Call A := r ← op (InTx (tx_get f)); ask (map_err from_store r).
Definition write {A} (t : Tx A) : Call A := r ← op (InTx t); ask (map_err from_store r).
(** Whether the answer could be read. *)
Definition merge_compare (pairs : list Pair) (entries : list GuideEntry) (answer : string) : Call bool :=
  match parse answer pairs entries with
  | None => mret false
  | Some changes => now ← op Now; _ ← write (merge_changes entries changes now); mret true
  end.

(** ** The pairs of a batch *)

Definition version_entries (id : Z) (g : GuideStore.GuideDb) : option (list GuideStore.EntryRow) :=
  GuideStore.ve_entries <$> GuideStore.g_versions g !! id.
Definition entries_then (id : Z) (d : ReviewDb) : option (list GuideEntry) :=
  List.map (λ e, from_snapshot (GuideStore.mkSnap e [])) <$> version_entries id (rv_guide d).
(** What applied when it was drafted, of what is still in the guide. *)
Definition applied_to (d : ReviewDb) (entries : list GuideEntry) (groups : list AudienceGroupInfo) (c : Composition) : list Z :=
  match cm_guide_version c ≫= λ v, entries_then v d with
  | Some then_ => List.filter (λ id, bool_decide (id ∈ ge_id <$> entries)) (applied_entries then_ groups c)
  | None => applied_entries entries groups c
  end.
Definition pair_of (d : ReviewDb) (entries : list GuideEntry) (groups : list AudienceGroupInfo) (c : Composition) : option Pair :=
  ai ← cm_ai_text c; sent ← cm_sent_text c;
  Some (mkPair (cm_id c) (Compositions.kind_text (cm_kind c)) (cm_audiences c) (cm_instruction c) ai sent (applied_to d entries groups c)).
Definition pairs_ready (ids : list Z) (entries : list GuideEntry) (groups : list AudienceGroupInfo) (d : ReviewDb) : list Pair :=
  omap (pair_of d entries groups) (omap (λ id, Compositions.get id d) ids).
Definition compare_pairs (ids : list Z) : Call (list Pair * list GuideEntry) :=
  entries ← read (list_guide_entries [Accepted] ∘ rv_guide);
  groups ← read (list_audience_groups ∘ rv_guide);
  pairs ← read (pairs_ready ids entries groups);
  mret (pairs, entries).

(** ** Sent as written *)

(** Only a pair still waiting for its review counts, once. *)
Definition reinforce_one (applied : list Pair) (now : Millis) (id : Z) : Tx () :=
  c ← tx_get (Compositions.get id);
  if match c with Some c => bool_decide (cm_status c = Matched) | None => false end then
    _ ← each (λ p, each (λ entry, add_health entry 1 0 now) (pa_applied p)) (List.filter (λ p, (pa_id p =? id)%Z) applied);
    mark_reviewed [id] now
  else mret ().
Definition reinforce_unchanged (ids : list Z) (now : Millis) : Call () :=
  if is_empty ids then mret () else
  '(pairs, _) ← compare_pairs ids;
  write (each (reinforce_one pairs now) ids).
End compare.
End ReviewCompare.
Import ReviewCompare.

(** * When a proposal shows *)

Import Proposals.

(** Rows are kept under their ids. *)
Definition numbered (d : AnalysisDb) : Prop := map_Forall (λ id p, po_id p = id) (an_proposals d) ∧
  ∀ id, is_Some (an_proposals d !! id) → (id ≤ an_seq d)%Z.
(** From one state of the proposals to a later one: none goes, no evidence
    goes, what was decided stays as it is, and one shows that did not only
    on as many pairs as some [T] of its key. *)
Record fair (T : string → Z → Prop) (d d' : AnalysisDb) : Prop := {
  fa_numbered : numbered d';
  fa_evidence : an_evidence d ⊆ an_evidence d';
  fa_kept id p : an_proposals d !! id = Some p → ∃ p', an_proposals d' !! id = Some p' ∧ po_match_key p' = po_match_key p;
  fa_decided id p : an_proposals d !! id = Some p → decided p = true → an_proposals d' !! id = Some p;
  fa_shown id p : an_proposals d' !! id = Some p → po_status p = "proposed" →
    (∃ q, an_proposals d !! id = Some q ∧ po_status q = "proposed") ∨
    ∃ n, T (po_match_key p) n ∧ (n ≤ Z.of_nat (length (pairs_of id (an_evidence d'))))%Z }.

Lemma fair_refl T d : numbered d → fair T d d.
Proof. intros Hn. split; [done|done|eauto|done|]. intros id p Hp Hs. left. eauto. Qed.
Lemma filter_length_le {A} (p : A → bool) l k : l ⊆+ k → length (List.filter p l) ≤ length (List.filter p k).
Proof.
  intros H. assert (List.filter p l ⊆+ List.filter p k) as Hs; [|by apply submseteq_length].
  induction H as [|x l k H IH|x y l|x l k H IH|l k m H1 IH1 H2 IH2]; cbn; [done|destruct (p x); [by constructor|done]| | |by etrans].
  - destruct (p x), (p y); try done. apply submseteq_swap.
  - destruct (p x); [by apply submseteq_cons|done].
Qed.
Lemma pairs_of_grow id m m' : m ⊆ m' → length (pairs_of id m) ≤ length (pairs_of id m').
Proof. intros Hm. unfold pairs_of. rewrite !length_fmap. by apply filter_length_le, map_to_list_submseteq. Qed.
Lemma fair_trans T d d1 d2 : fair T d d1 → fair T d1 d2 → fair T d d2.
Proof.
  intros [N1 E1 K1 D1 S1] [N2 E2 K2 D2 S2]. split; [done|by etrans| | |].
  - intros id p (p1 & H1 & Ek)%K1. apply K2 in H1 as (p2 & H2 & Ek'). exists p2. split; [done|by rewrite Ek'].
  - intros id p Hp Hd. apply D2; [by apply D1|done].
  - intros id p Hp Hs. destruct (S2 id p Hp Hs) as [(q & Hq & Hsq)|?]; [|by right].
    destruct (S1 id q Hq Hsq) as [?|(n & Hn & Hle)]; [by left|right]. exists n.
    apply K2 in Hq as (p' & Hp' & Ek). rewrite Hp in Hp'. injection Hp' as <-. rewrite Ek. split; [done|].
    pose proof (pairs_of_grow id _ _ E2). lia.
Qed.
Lemma fair_mono (T T' : string → Z → Prop) d d' : (∀ k n, T k n → T' k n) → fair T d d' → fair T' d d'.
Proof. intros HT [N E K D S]. split; try done. intros id p Hp Hs. destruct (S id p Hp Hs) as [?|(n & Hn & ?)]; eauto 6. Qed.

(** A row changed in place that was not decided. *)
Lemma alter_fair T d id f : numbered d →
  (∀ p, an_proposals d !! id = Some p → decided p = false ∧ po_id (f p) = po_id p ∧ po_match_key (f p) = po_match_key p ∧
     (po_status (f p) = "proposed" → po_status p = "proposed" ∨
        ∃ n, T (po_match_key p) n ∧ (n ≤ Z.of_nat (length (pairs_of id (an_evidence d))))%Z)) →
  fair T d (on_proposals (update_row id f) d).
Proof.
  intros [Hn Hq] Hf. unfold update_row. split; cbn.
  - split.
    + intros j p Hp. cbn in Hp. destruct (decide (id = j)) as [->|Hne]; [|rewrite lookup_alter_ne in Hp by done; by apply Hn in Hp].
      rewrite lookup_alter_eq in Hp. destruct (an_proposals d !! j) as [q|] eqn:E; [|done]. injection Hp as <-.
      destruct (Hf q eq_refl) as (_ & -> & _). by apply Hn in E.
    + intros j [p Hp]. cbn in Hp. destruct (decide (id = j)) as [->|Hne]; [|rewrite lookup_alter_ne in Hp by done; apply Hq; eauto].
      rewrite lookup_alter_eq in Hp. apply Hq. destruct (an_proposals d !! j); [eauto|done].
  - done.
  - intros j p Hp. destruct (decide (id = j)) as [->|Hne]; [|rewrite lookup_alter_ne by done; eauto].
    rewrite lookup_alter_eq, Hp. eexists. split; [done|]. by apply Hf.
  - intros j p Hp Hd. destruct (decide (id = j)) as [->|Hne]; [|by rewrite lookup_alter_ne].
    apply Hf in Hp as [Hp _]. by rewrite Hp in Hd.
  - intros j p Hp Hs. destruct (decide (id = j)) as [->|Hne]; [|rewrite lookup_alter_ne in Hp by done; eauto].
    rewrite lookup_alter_eq in Hp. destruct (an_proposals d !! j) as [q|] eqn:E; [|done]. injection Hp as <-.
    destruct (Hf q eq_refl) as (_ & _ & Ek & Hsh). rewrite Ek. destruct (Hsh Hs); eauto.
Qed.
(** Pairs added to what is there. *)
Definition with_more (m : gmap (Z * Z) (EvidenceRow * Millis)) (d : AnalysisDb) : AnalysisDb := on_pair_evidence (λ _, m) d.
Lemma add_pairs_grow id now l d :
  post d (each (add_pair id now) l) (λ d' _, an_evidence d ⊆ an_evidence d' ∧ d' = with_more (an_evidence d') d).
Proof.
  apply (post_each (λ d', an_evidence d ⊆ an_evidence d' ∧ d' = with_more (an_evidence d') d)); [|split; [done|by destruct d]].
  intros d1 e [Hs E] _. unfold add_pair. tx_steps. split; [|rewrite E; done]. etrans; [exact Hs|]. cbn.
  destruct (an_evidence d1 !! (id, ev_composition e)) eqn:El; [done|]. by apply insert_subseteq.
Qed.
Lemma more_fair T m d : numbered d → an_evidence d ⊆ m → fair T d (with_more m d).
Proof. intros Hn Hm. split; cbn; [done|done|eauto|done|]. intros id p Hp Hs. left. eauto. Qed.
(** A row at an id that may still show, by a change of its key. *)
Definition raisable (T : string → Z → Prop) (id n : Z) (d : AnalysisDb) : Prop :=
  ∀ p, an_proposals d !! id = Some p → decided p = false ∧ T (po_match_key p) n.
Lemma counted_fair T id n now d : numbered d → raisable T id n d → (1 ≤ n)%Z →
  fair T d (on_proposals (update_row id (show n now)) (recount id d)).
Proof.
  intros Hn Hr H1. unfold recount. set (k := Z.of_nat _).
  assert (on_proposals (update_row id (show n now)) (on_proposals (update_row id (with_po_support k)) d) =
          on_proposals (update_row id (λ p, show n now (with_po_support k p))) d) as ->.
  { unfold on_proposals, update_row. cbn. by rewrite alter_alter_eq. }
  apply alter_fair; [done|]. intros p Hp. destruct (Hr p Hp) as [Hd HT]. split; [done|].
  unfold show. cbn. destruct (String.eqb (po_status p) "watching" && (Z.max n 1 <=? k)%Z) eqn:E; cbn; [|tauto].
  split; [done|]. split; [done|]. intros _. right. exists n. split; [done|]. fold k.
  apply andb_true_iff in E as [_ E%Z.leb_le]. lia.
Qed.
Lemma raise_fair T id n now pairs d : numbered d → raisable T id n d → (1 ≤ n)%Z →
  post d (_ ← each (add_pair id now) pairs; _ ← tx_do (recount id); _ ← tx_do (on_proposals (update_row id (show n now))); mret (Some id))
    (λ d' _, fair T d d').
Proof.
  intros Hn Hr H1. apply post_bind. eapply post_mono; [|apply add_pairs_grow]. intros d1 ? [Hs E]. tx_steps.
  assert (fair T d d1) as Hf by (rewrite E; by apply more_fair).
  eapply fair_trans; [exact Hf|]. apply counted_fair; [by apply Hf| |done]. intros p Hp. rewrite E in Hp. by apply Hr.
Qed.
Lemma insert_fair T d r : numbered d → po_id r = (an_seq d + 1)%Z → po_status r = "watching" →
  fair T d (mkAnalysis (<[(an_seq d + 1)%Z := r]> (an_proposals d)) (an_seq d + 1) (an_evidence d) (an_compositions d)).
Proof.
  intros [Hn Hq] Hid Hw. assert (an_proposals d !! (an_seq d + 1)%Z = None) as Hf by (apply eq_None_not_Some; intros Hs%Hq; lia).
  assert (∀ id p, an_proposals d !! id = Some p → <[(an_seq d + 1)%Z := r]> (an_proposals d) !! id = Some p) as Hk.
  { intros id p Hp. rewrite lookup_insert_ne; [done|]. intros <-. by rewrite Hf in Hp. }
  split; cbn; [|done|eauto|auto|].
  - split; cbn; [by apply map_Forall_insert|]. intros id Hs. destruct (decide (id = an_seq d + 1)%Z) as [->|Hne]; [done|].
    rewrite lookup_insert_ne in Hs by done. apply Hq in Hs. lia.
  - intros id p Hp Hs. left. apply lookup_insert_Some in Hp as [[_ <-]|[_ Hp]]; [by rewrite Hw in Hs|eauto].
Qed.
Lemma find_proposal_some n d p : find_proposal n d = Some p → numbered d →
  an_proposals d !! po_id p = Some p ∧ po_match_key p = np_match_key n.
Proof.
  intros [Hin Hs]%List.find_some [Hn _]. unfold rows in Hin. apply list_elem_of_In, list_elem_of_fmap in Hin as ([id q] & -> & Hin).
  apply elem_of_map_to_list in Hin. cbn in *. rewrite (Hn id q Hin). split; [done|].
  apply andb_true_iff in Hs as [_ Hs]. by apply String.eqb_eq in Hs.
Qed.
Lemma upsert_fair T n pairs now d : numbered d → T (np_match_key n) (np_threshold n) → (1 ≤ np_threshold n)%Z →
  post d (upsert_proposal n pairs now) (λ d' _, fair T d d').
Proof.
  intros Hn HT H1. unfold upsert_proposal. apply post_bind, post_get. destruct (find_proposal n d) as [p|] eqn:Ef.
  - apply find_proposal_some in Ef as [Hp Ek]; [|done]. destruct (decided p) eqn:Ed; [by apply post_ret, fair_refl|].
    apply post_bind, post_do. set (d1 := on_proposals _ d).
    assert (fair T d d1) as Hf.
    { apply alter_fair; [done|]. intros q Hq. rewrite Hp in Hq. injection Hq as <-. cbn. tauto. }
    eapply post_mono; [|apply (raise_fair T); [by apply Hf| |done]]; [intros d' ? Hd'; by eapply fair_trans|].
    intros q Hq. cbn in Hq. unfold update_row in Hq. rewrite lookup_alter_eq, Hp in Hq. injection Hq as <-.
    split; [done|]. cbn. by rewrite Ek.
  - unfold insert_new. apply post_bind. tx_step. tx_step. cbn beta. tx_step. cbn zeta. cbn [fst snd].
    set (d1 := mkAnalysis _ _ _ _). assert (fair T d d1) as Hf by (by apply insert_fair).
    eapply post_mono; [|apply (raise_fair T); [by apply Hf| |done]]; [intros d' ? Hd'; by eapply fair_trans|].
    intros q Hq. cbn in Hq. rewrite lookup_insert_eq in Hq. injection Hq as <-. by split.
Qed.

(** * An answer's changes *)

Section changes.
Context `{HC : CoreText}.

Lemma key_threshold c : (GUIDELINE_PAIRS ≤ threshold c ≤ RULE_PAIRS)%Z ∧ (ch_kind c = Rule → threshold c = RULE_PAIRS).
Proof. unfold threshold, GUIDELINE_PAIRS, RULE_PAIRS. case_bool_decide; split; [lia|done|lia|done]. Qed.
(** What may raise a proposal: a change of the answer, or the removal of
    an entry of the guide. *)
Definition raised_by (entries : list GuideEntry) (changes : list Change) (k : string) (n : Z) : Prop :=
  ∃ c, (c ∈ changes ∨ ∃ e ps, e ∈ entries ∧ c = removal e ps) ∧ key c = k ∧ threshold c = n.
Lemma raise_change_fair entries changes c now d0 d :
  (c ∈ changes ∨ ∃ e ps, e ∈ entries ∧ c = removal e ps) → fair (raised_by entries changes) d0 (analysis d) →
  post d (raise_change now c) (λ d' _, fair (raised_by entries changes) d0 (analysis d') ∧ rv_health d' = rv_health d).
Proof.
  intros Hc Hf. unfold raise_change. apply post_bind. do 2 apply post_within.
  eapply post_mono; [|apply (upsert_fair (raised_by entries changes)); [by apply Hf|by exists c|]].
  - intros a ? Ha. apply post_ret. cbn. split; [|done]. by eapply fair_trans.
  - pose proof (key_threshold c) as [Hk _]. unfold GUIDELINE_PAIRS in Hk. cbn. lia.
Qed.
Definition overridden (entry : Z) (d : ReviewDb) : Z := default 0%Z ((λ x, x.1.2) <$> rv_health d !! entry).
Lemma add_health_post entry now d : post d (add_health entry 0 1 now) (λ d' _,
  analysis d' = analysis d ∧ ∀ x, overridden x d' = (overridden x d + if decide (x = entry) then 1 else 0)%Z).
Proof.
  unfold add_health. tx_steps. split; [done|]. intros x. unfold overridden, on_health. cbn.
  destruct (decide (x = entry)) as [->|Hne]; [|rewrite lookup_insert_ne by done; lia].
  rewrite lookup_insert_eq. destruct (rv_health d !! entry) as [[[u o] t]|]; cbn; lia.
Qed.
Lemma add_all_health now l : ∀ d, post d (each (λ x : Z * Z, add_health x.1 0 1 now) l) (λ d' _,
  analysis d' = analysis d ∧ ∀ x, overridden x d' = (overridden x d + Z.of_nat (count (λ y, (y.1 =? x)%Z) l))%Z).
Proof.
  induction l as [|y l IH]; intros d; [split; [done|]; intros x; cbn; lia|]. cbn [each]. apply post_bind.
  eapply post_mono; [|apply add_health_post]. intros d1 ? [Ea Eo]. eapply post_mono; [|apply IH].
  intros d2 ? [Ea' Eo']. split; [by rewrite Ea'|]. intros x. rewrite Eo', Eo, count_cons.
  destruct (decide (x = y.1)) as [->|Hne]; [rewrite Z.eqb_refl; lia|]. destruct (Z.eqb_spec y.1 x); [congruence|lia].
Qed.
Lemma propose_removal_fair entries changes now entry d0 d : fair (raised_by entries changes) d0 (analysis d) →
  post d (propose_removal entries now entry) (λ d' _, fair (raised_by entries changes) d0 (analysis d') ∧ rv_health d' = rv_health d).
Proof.
  intros Hf. unfold propose_removal. apply post_bind, post_get. destruct (_ <? _)%Z; [by apply post_ret|].
  destruct (List.find _ _) as [e|] eqn:Ee; [|by apply post_ret]. apply raise_change_fair; [|done]. right.
  apply List.find_some in Ee as [Hin _]. apply list_elem_of_In in Hin. rewrite elem_of_reverse in Hin. eauto.
Qed.
Definition against (changes : list Change) : list (Z * Z) := remove_dups (changes ≫= goes_against).
Lemma merge_changes_post entries changes now d : numbered (analysis d) →
  post d (merge_changes entries changes now) (λ d' _, fair (raised_by entries changes) (analysis d) (analysis d') ∧
    ∀ x, overridden x d' = (overridden x d + Z.of_nat (count (λ y, (y.1 =? x)%Z) (against changes)))%Z).
Proof.
  intros Hn. unfold merge_changes. apply post_bind. eapply post_mono;
    [|apply (post_each (λ d', fair (raised_by entries changes) (analysis d) (analysis d') ∧ rv_health d' = rv_health d));
      [|split; [by apply fair_refl|done]]].
  2: { intros d1 c [Hf Eh] Hc. eapply post_mono; [|apply raise_change_fair; [by left|exact Hf]]. cbn. intros d2 ? [? ->]. done. }
  intros d1 ? [Hf Eh]. apply post_bind. eapply post_mono; [|apply add_all_health]. intros d2 ? [Ea Eo].
  eapply post_mono; [|apply (post_each (λ d', fair (raised_by entries changes) (analysis d) (analysis d') ∧ rv_health d' = rv_health d2))].
  - cbn. intros d3 ? [Hf3 Eh3]. split; [done|]. intros x. specialize (Eo x). revert Eo. unfold overridden. rewrite Eh3, Eh.
    intros ->. unfold against. by rewrite (count_Permutation _ _ _ (merge_sort_Permutation _ _)).
  - intros d3 x [Hf3 Eh3] _. eapply post_mono; [|by apply propose_removal_fair]. cbn. intros d4 ? [? ->]. done.
  - split; [by rewrite Ea|done].
Qed.

(** Words that are in a text, but for case and spacing. *)
Definition quotes (q text : string) : Prop := q = "" ∨ contains (loose q) (loose (fenced text)) = true.
Definition shown_in (pairs : list Pair) (e : Proposals.EvidenceRow) : Prop :=
  ∃ p, p ∈ pairs ∧ pa_id p = ev_composition e ∧ quotes (ev_sent_quote e) (pa_sent p) ∧ quotes (ev_ai_quote e) (pa_ai p) ∧
    ¬ (ev_sent_quote e = "" ∧ ev_ai_quote e = "").
Lemma verified_quotes q text x : verified q text = Some x → x ≠ "" ∧ quotes x text.
Proof.
  unfold verified. destruct q as [q|]; [|done]. cbn [mbind option_bind]. destruct (String.eqb_spec (take_chars QUOTE_CAP (clean_text q)) ""); [done|].
  destruct (contains _ _) eqn:E; [|done]. intros [= <-]. split; [done|by right].
Qed.
Lemma verified_default q text : quotes (default "" (verified q text)) text.
Proof. destruct (verified q text) eqn:E; [by apply verified_quotes in E as [_ ?]|by left]. Qed.
Lemma cited_shown pairs j e : cited pairs j = Some e → shown_in pairs e.
Proof.
  unfold cited. destruct (int_at "pair" j) as [id|]; [|done]. cbn.
  destruct (List.find _ _) as [p|] eqn:Ep; [|done]. apply List.find_some in Ep as [Hp _].
  apply list_elem_of_In in Hp. rewrite elem_of_reverse in Hp. cbn.
  pose proof (verified_default (text_at "sent" j) (pa_sent p)) as Hs. pose proof (verified_default (text_at "ai" j) (pa_ai p)) as Ha.
  assert (∀ q text, verified q text ≠ Some "") as Hne by (intros q text E; by apply verified_quotes in E as [? _]).
  assert (match verified (text_at "sent" j) (pa_sent p), verified (text_at "ai" j) (pa_ai p) with None, None => False | _, _ => True end →
          ¬ (default "" (verified (text_at "sent" j) (pa_sent p)) = "" ∧ default "" (verified (text_at "ai" j) (pa_ai p)) = "")) as Hb.
  { intros H [E1 E2]. destruct (verified (text_at "sent" j) _) eqn:Es, (verified (text_at "ai" j) _) eqn:Ea; cbn in *; subst; naive_solver. }
  destruct (verified (text_at "sent" j) (pa_sent p)) as [s|], (verified (text_at "ai" j) (pa_ai p)) as [a|]; [..|done];
    (case_match; [done|]); intros [= <-]; exists p; do 4 (split; [done|]); by apply Hb.
Qed.
Lemma keep_pairs_right (P : Proposals.EvidenceRow → Prop) l : ∀ acc, Forall P acc → Forall P l → NoDup (ev_composition <$> acc) →
  Forall P (foldl keep_pair acc l) ∧ NoDup (ev_composition <$> foldl keep_pair acc l).
Proof.
  induction l as [|e l IH]; intros acc Ha Hl Hn; [done|]. apply Forall_cons in Hl as [He Hl]. cbn.
  unfold keep_pair at 2 4. destruct (List.existsb _ _) eqn:E; [by apply IH|]. apply IH; [|done|].
  - apply Forall_app. by split; [|apply Forall_singleton].
  - rewrite fmap_app. apply NoDup_app. split; [done|]. split; [|apply NoDup_singleton].
    intros x Hx ->%list_elem_of_singleton. apply list_elem_of_fmap in Hx as (y & Ey & Hy).
    assert (List.existsb (λ x, (ev_composition x =? ev_composition e)%Z) acc = true) as E'; [|by rewrite E' in E].
    apply List.existsb_exists. exists y. split; [by apply list_elem_of_In|]. apply Z.eqb_eq. by symmetry.
Qed.
Lemma change_evidence pairs entries j c : change_of pairs entries j = Some c → ch_evidence c = citations pairs j.
Proof.
  unfold change_of. destruct (is_empty _); [done|]. intros H.
  destruct (String.eqb (default "add" _) "add"); apply bind_Some in H as (old & _ & H);
    repeat first [apply bind_Some in H as (? & _ & H) | match type of H with (if ?b then _ else _) = _ => destruct b end];
    try done; by injection H as <-.
Qed.
Lemma parse_evidence text pairs entries changes c : parse text pairs entries = Some changes → c ∈ changes →
  Forall (shown_in pairs) (ch_evidence c) ∧ NoDup (ev_composition <$> ch_evidence c).
Proof.
  unfold parse. destruct (object_in _ _) as [v|]; [|done]. cbn. intros [= <-] (j & _ & ->%change_evidence)%list_elem_of_omap.
  apply keep_pairs_right; [done| |constructor]. apply Forall_forall. intros e (x & _ & He)%list_elem_of_omap. by eapply cited_shown.
Qed.

End changes.

(** ** Two days' answers *)

Section examples.
Definition greeting_json (pair : string) : Json :=
  JObject [("proposals", JArray [JObject [
    ("op", JString "add"); ("category", JString "B1"); ("statement", JString "Greet with 'Hi Ann,'");
    ("evidence", JArray [JObject [("pair", JNumber pair); ("sent", JString "Hi Ann,"); ("ai", JString "Dear Ann")];
                         JObject [("pair", JNumber pair); ("sent", JString "Hello Ann,")]])]])].
Local Instance answers_text : CoreText :=
  {| lower := ascii_lower; json_write := λ _, ""; json_read := λ _, None; json_first := λ s, Some (greeting_json (String.substring 1 1 s)) |}.
Definition day_pairs (id : Z) : list Pair := [mkPair id "new" [] "" "Dear Ann, Friday works." "Hi Ann, Friday works." []].
Definition no_review : ReviewDb :=
  mkReviewDb (GuideStore.mkGuideDb empty_store ∅ ∅ ∅ 0 ∅ 0 ∅ ∅ ∅ ∅ ∅ ∅ (mkAnalysis ∅ 0 ∅ {[1%Z; 2%Z]})) ∅ 0 ∅ ∅ ∅ ∅.
Definition greeting_change (id : Z) : Change :=
  mkChange OpAdd None "B1" Guideline "Greet with 'Hi Ann,'" scope_default None [mkPairEvidence id "Hi Ann," "Dear Ann"].
Definition day_one : ReviewDb := (commit (merge_changes [] [greeting_change 1] 100) no_review).1.
Definition day_two : ReviewDb := (commit (merge_changes [] [greeting_change 2] 200) day_one).1.
(** The quote that is not in the text is left out. *)
Example answer_read : parse "{1" (day_pairs 1) [] = Some [greeting_change 1].
Proof. vm_compute. reflexivity. Qed.
Example watched_then_shown :
  (λ p, (po_status p, po_support p)) <$> an_proposals (analysis day_one) !! 1%Z = Some ("watching", 1%Z) ∧
  (λ p, (po_status p, po_support p)) <$> an_proposals (analysis day_two) !! 1%Z = Some ("proposed", 2%Z).
Proof. split; vm_compute; reflexivity. Qed.
End examples.

(** * Deciding what the daily review proposes
    ([kaluta-core/src/analysis_queue.rs])

    The proposals shown and watched, the pairs behind them, decisions as
    one change of the guide, and how much of what AIs wrote was changed. *)

Import GuideStore.
Import GuideEdits.
Import FactGlean.

Close Scope Q_scope.
Open Scope nat_scope.

Module ReviewQueue.

(** [analysis_meta] keys: when the user last looked. *)
Definition LAST_VIEWED : string := "last_viewed_at".
Definition LAST_VIEWED_RULES : string := "last_viewed_rules_at".
Definition LAST_VIEWED_FACTS : string := "last_viewed_facts_at".
Inductive ProposalPage := RulesPage | FactsPage.
Definition page_key (p : ProposalPage) : string := match p with RulesPage => LAST_VIEWED_RULES | FactsPage => LAST_VIEWED_FACTS end.
Definition WEEK_MS : Z := 7 * 24 * 60 * 60 * 1000.

Record ProposalInfo := mkProposalInfo {
  pi_id : Z; pi_op : AnalysisOp; pi_entry_id : option Z; pi_category : string; pi_kind : Guide.Kind; pi_statement : string;
  pi_scope : Scope; pi_before_statement : option string; pi_before_scope : option Scope; pi_contradicts : option string;
  pi_support : Z; pi_watching : bool; pi_unseen : bool; pi_shown_at : option Millis }.
Record AnalysisQueue := mkAnalysisQueue {
  aq_guide : list ProposalInfo; aq_facts : list FactProposalInfo; aq_watching : list ProposalInfo; aq_learning : Z;
  aq_unseen : bool; aq_unseen_rules : bool; aq_unseen_facts : bool }.
Record PairInfo := mkPairInfo {
  pn_composition : Z; pn_created_at : Millis; pn_agent : option string; pn_kind : string; pn_subject : string; pn_to : list string;
  pn_instruction : string; pn_ai_text : option string; pn_sent_text : option string; pn_sent_quote : string; pn_ai_quote : string }.
Record Metrics := mkMetrics { mx_weekly_median : list (option Q); mx_compared : nat; mx_sent_as_written : nat }.
Record EntryHealth := mkEntryHealth { eh_entry : Z; eh_unchanged : Z; eh_overridden : Z }.

Section queue.
Context `{HC : CoreText}.
Abbreviation Call := (Attempt (@db_answer GuideDb) CoreError).

Definition scope_text (json : string) : Scope := default scope_default (j ← json_read json; scope_of_json j).
Definition kind_or (k : Guide.Kind) (p : Proposals.ProposalRow) : Guide.Kind := default k (Proposals.po_kind p ≫= GuideEdits.parse_kind).
Definition entry_of (entries : list GuideEntry) (id : Z) : option GuideEntry := List.find (λ e, (ge_id e =? id)%Z) (reverse entries).
Definition proposed_fields (p : Proposals.ProposalRow) (check : option GuideCheck) : GuideEntryFields :=
  mkFields (Proposals.po_category p) (kind_or Guideline p) (Proposals.po_statement p) (scope_text (Proposals.po_scope_json p)) check.
(** The edit that accepting a proposal makes, with the fields when the
    user edited it first; none when its entry has gone. *)
Definition edit_for (p : Proposals.ProposalRow) (entries : list GuideEntry) (fields : option GuideEntryFields) : option GuideEdit :=
  match parse_op (Proposals.po_op p) with
  | AnalysisAdd => Some (Add (default (proposed_fields p None) fields) Accepted Learned (Some "analysis"))
  | AnalysisRemove =>
      id ← Proposals.po_entry_id p; old ← entry_of entries id; Some (Delete (ge_id old))
  | _ =>
      id ← Proposals.po_entry_id p; old ← entry_of entries id;
      Some (Update (ge_id old) (default (proposed_fields p (ge_check old)) fields))
  end.

(** ** Deciding *)

(** Changes to one entry are made together, on the entry as it is: what
    they come to by entry, [None] for its removal. *)
Abbreviation PerEntry := (gmap Z (option GuideEntryFields)).
Definition apply_to (o : AnalysisOp) (p : Proposals.ProposalRow) (slot : option GuideEntryFields) : option GuideEntryFields :=
  match o, slot with
  | AnalysisRemove, _ => None
  | AnalysisEdit, Some f => Some (mkFields (gf_category f) (kind_or (gf_kind f) p) (Proposals.po_statement p) (gf_scope f) (gf_check f))
  | AnalysisRescope, Some f => Some (mkFields (gf_category f) (gf_kind f) (gf_statement f) (scope_text (Proposals.po_scope_json p)) (gf_check f))
  | _, _ => slot
  end.
Record Deciding := mkDeciding { di_edits : list GuideEdit; di_decided : list Z; di_entries : PerEntry }.
Definition decide_row (accept : bool) (entries : list GuideEntry) (d : Deciding) (p : Proposals.ProposalRow) : Deciding :=
  let decided := di_decided d ++ [Proposals.po_id p] in
  if negb accept then mkDeciding (di_edits d) decided (di_entries d) else
  match parse_op (Proposals.po_op p), Proposals.po_entry_id p with
  | AnalysisAdd, _ => mkDeciding (di_edits d ++ FactEdits.list_of (edit_for p entries None)) decided (di_entries d)
  | o, Some id =>
      match entry_of entries id with
      | None => d
      | Some current =>
          let slot := default (Some (fields_of current)) (di_entries d !! id) in
          mkDeciding (di_edits d) decided (<[id := apply_to o p slot]> (di_entries d))
      end
  | _, None => d
  end.
Definition entry_edit (x : Z * option GuideEntryFields) : GuideEdit :=
  match x.2 with Some f => Update x.1 f | None => Delete x.1 end.
Definition by_entry_id (a b : Z * option GuideEntryFields) : Prop := (a.1 ≤ b.1)%Z.
#[export] Instance by_entry_id_dec a b : Decision (by_entry_id a b).
Proof. unfold by_entry_id. apply _. Defined.
Definition decide_rows (accept : bool) (entries : list GuideEntry) (rows : list Proposals.ProposalRow) : list GuideEdit * list Z :=
  let d := foldl (decide_row accept entries) (mkDeciding [] [] ∅) rows in
  (di_edits d ++ (entry_edit <$> merge_sort by_entry_id (map_to_list (di_entries d))), di_decided d).
Definition GONE_ENTRY : CoreError := mkCoreError NotFound "the entry this changes is no longer in your guide".
Definition guide_rows (ids : list Z) (g : GuideDb) : list Proposals.ProposalRow := omap (λ id, Proposals.proposal id (g_analysis g)) ids.
(** Only open proposals for the guide: none is accepted twice. *)
Definition open_rows (rows : list Proposals.ProposalRow) : list Proposals.ProposalRow :=
  List.filter (λ p, String.eqb (Proposals.po_target p) "guide" && Proposals.open_status p) rows.
Definition decide_analysis_proposals (ids : list Z) (accept : bool) : Call GuideChange :=
  _ ← check_that (negb (is_empty ids)) (invalid "nothing to decide");
  rows ← read (open_rows ∘ guide_rows ids);
  entries ← read (list_guide_entries [Accepted]);
  let '(edits, decided) := decide_rows accept entries rows in
  _ ← check_that (negb (is_empty decided)) GONE_ENTRY;
  apply_edits_with edits (if accept then "analysis accept" else "analysis reject")
    (Some (StepDecide decided (if accept then "accepted" else "rejected"))).
Definition accept_analysis_proposal_edited (id : Z) (fields : GuideEntryFields) : Call GuideChange :=
  rows ← read (guide_rows [id]);
  p ← or_fail (mkCoreError NotFound "that proposal is gone") (head rows);
  entries ← read (list_guide_entries [Accepted]);
  edit ← or_fail GONE_ENTRY (edit_for p entries (Some fields));
  apply_edits_with [edit] "analysis accept edited" (Some (StepDecide [id] "accepted")).
Definition ignore_analysis_pair (composition : Z) : Call GuideChange :=
  apply_edits_with [] "analysis ignore pair" (Some (StepIgnorePair composition)).

(** ** What Analysis shows *)

Definition later_than (viewed : Millis) (t : option Millis) : bool := match t with Some t => (viewed <? t)%Z | None => false end.
(** A change to an entry that has gone since is moot. *)
Definition proposal_info (entries : list GuideEntry) (viewed : Millis) (p : Proposals.ProposalRow) : option ProposalInfo :=
  let entry := Proposals.po_entry_id p ≫= entry_of entries in
  match Proposals.po_entry_id p, entry with
  | Some _, None => None
  | _, _ =>
      Some (mkProposalInfo (Proposals.po_id p) (parse_op (Proposals.po_op p)) (Proposals.po_entry_id p) (Proposals.po_category p)
              (kind_or Guideline p) (Proposals.po_statement p) (scope_text (Proposals.po_scope_json p)) (ge_statement <$> entry)
              (ge_scope <$> entry) (ge_statement <$> (Proposals.po_contradicts p ≫= entry_of entries)) (as_u32 (Proposals.po_support p))
              (String.eqb (Proposals.po_status p) "watching") (later_than viewed (Proposals.po_shown_at p)) (Proposals.po_shown_at p))
  end.
Definition newest_info (a b : ProposalInfo) : Prop := shown_le (pi_shown_at b, pi_id b) (pi_shown_at a, pi_id a).
#[export] Instance newest_info_dec a b : Decision (newest_info a b).
Proof. unfold newest_info, shown_le. cbn. destruct (pi_shown_at a), (pi_shown_at b); apply _. Defined.
Definition most_pairs (a b : ProposalInfo) : Prop := (pi_support b < pi_support a)%Z ∨ pi_support a = pi_support b ∧ (pi_id b ≤ pi_id a)%Z.
#[export] Instance most_pairs_dec a b : Decision (most_pairs a b).
Proof. unfold most_pairs. apply _. Defined.
(** When the user last looked at each page: at either, before each had
    its own time. *)
Definition viewed_at (d : Compositions.ReviewDb) : Millis * Millis :=
  let at_ key := Compositions.meta key d ≫= parse_i64 in
  let both := default 0%Z (at_ LAST_VIEWED) in
  (default both (at_ LAST_VIEWED_RULES), default both (at_ LAST_VIEWED_FACTS)).
Definition learned_at (d : Compositions.ReviewDb) : option Millis :=
  r ← head (GuideTables.runs 1 (Compositions.rv_guide d));
  if String.eqb (ru_status r) "done" then ru_finished_at r else None.
(** Fact proposals to show, those of the guide with pairs behind them, and
    the guide's learning decisions counted. *)
Definition shown_facts (d : Compositions.ReviewDb) : list Proposals.ProposalRow :=
  List.filter (λ p, String.eqb (Proposals.po_target p) "fact" && String.eqb (Proposals.po_status p) "proposed")
    (Proposals.proposals ["watching"; "proposed"] (g_analysis (Compositions.rv_guide d))).
Definition analysis_queue (entries : list GuideEntry) (learning : Z) (facts : list FactProposalInfo) (d : Compositions.ReviewDb) : AnalysisQueue :=
  let viewed := (viewed_at d).1 in
  let rows := List.filter (λ p, String.eqb (Proposals.po_target p) "guide" && (0 <? Proposals.po_support p)%Z)
                (Proposals.proposals ["watching"; "proposed"] (g_analysis (Compositions.rv_guide d))) in
  let infos := omap (proposal_info entries viewed) rows in
  let guide := merge_sort newest_info (List.filter (negb ∘ pi_watching) infos) in
  let watching := merge_sort most_pairs (List.filter pi_watching infos) in
  let rules := List.existsb pi_unseen guide || (0 <? learning)%Z && later_than viewed (learned_at d) in
  let unseen_facts := List.existsb fq_unseen facts in
  mkAnalysisQueue guide facts watching learning (rules || unseen_facts) rules unseen_facts.
Definition analysis_seen (page : ProposalPage) (now : Millis) : Compositions.Tx () := Compositions.set_meta (page_key page) (pretty now).
Definition pair_info (d : Compositions.ReviewDb) (e : Proposals.EvidenceRow) : option PairInfo :=
  (λ r, mkPairInfo (Compositions.cm_id r) (Compositions.cm_created_at r) (Compositions.cm_agent r) (Compositions.kind_text (Compositions.cm_kind r))
          (Compositions.cm_subject r) (Compositions.rp_to (Compositions.cm_recipients r)) (Compositions.cm_instruction r)
          (Compositions.cm_ai_text r) (Compositions.cm_sent_text r) (Proposals.ev_sent_quote e) (Proposals.ev_ai_quote e)) <$>
    Compositions.get (Proposals.ev_composition e) d.
Definition analysis_pairs (proposal : Z) (d : Compositions.ReviewDb) : list PairInfo :=
  omap (pair_info d) (Proposals.evidence proposal (g_analysis (Compositions.rv_guide d))).

(** ** How much was changed *)

Definition Qleb (a b : Q) : Prop := Qle_bool a b = true.
#[export] Instance Qleb_dec a b : Decision (Qleb a b).
Proof. unfold Qleb. apply _. Defined.
Definition half (a b : Q) : Q := Qmult (Qplus a b) (1 # 2).
Definition median (v : list Q) : option Q :=
  let s := merge_sort Qleb v in
  let n := length s in
  if n =? 0 then None
  else if Nat.odd n then s !! (n / 2)
  else a ← s !! (n / 2 - 1); b ← s !! (n / 2); Some (half a b).
(** The week a time is in, of four: the last is 3. *)
Definition week_of (now t : Millis) : Z := 3 - Z.min 3 (Z.max 0 (Z.quot (now - t) WEEK_MS)).
Definition measured (now : Millis) (d : Compositions.ReviewDb) : list (Millis * Q) :=
  omap (λ r, q ← Compositions.cm_distance r; if (now - 4 * WEEK_MS <=? Compositions.cm_created_at r)%Z then Some (Compositions.cm_created_at r, q) else None)
    (Compositions.all d).
Definition analysis_metrics (now : Millis) (d : Compositions.ReviewDb) : Metrics :=
  let rows := measured now d in
  let week i := median (snd <$> List.filter (λ x, (week_of now x.1 =? i)%Z) rows) in
  mkMetrics (week <$> [0; 1; 2; 3]%Z) (length rows) (count (λ x, Qle_bool x.2 Compositions.UNCHANGED) rows).
Definition guide_entry_health (d : Compositions.ReviewDb) : list EntryHealth :=
  (λ x, mkEntryHealth x.1.1 (as_u32 x.1.2) (as_u32 x.2)) <$> Compositions.health d.
End queue.
End ReviewQueue.
Import ReviewQueue.

(** * What a decision comes to *)

Section decisions.
Context `{HC : CoreText}.
#[local] Abbreviation Row := Proposals.ProposalRow.

Definition same_op (a b : AnalysisOp) : bool :=
  match a, b with
  | AnalysisAdd, AnalysisAdd | AnalysisEdit, AnalysisEdit | AnalysisRescope, AnalysisRescope | AnalysisRemove, AnalysisRemove => true
  | _, _ => false
  end.
Definition is_op (o : AnalysisOp) (p : Row) : bool := same_op (parse_op (Proposals.po_op p)) o.
(** The changes of an entry among the proposals. *)
Definition touching (id : Z) (rows : list Row) : list Row :=
  List.filter (λ p, negb (is_op AnalysisAdd p) && bool_decide (Proposals.po_entry_id p = Some id)) rows.
(** The last of them that is an edit says its statement and kind, the last
    that is a rescope its scope. *)
Definition made_fields (current : GuideEntry) (l : list Row) : GuideEntryFields :=
  let edit := last (List.filter (is_op AnalysisEdit) l) in
  let rescope := last (List.filter (is_op AnalysisRescope) l) in
  let kind_of p := Proposals.po_kind p ≫= GuideEdits.parse_kind in
  mkFields (ge_category current)
    (default (ge_kind current) (last (omap kind_of (List.filter (is_op AnalysisEdit) l))))
    (default (ge_statement current) (Proposals.po_statement <$> edit))
    (default (ge_scope current) ((λ p, scope_text (Proposals.po_scope_json p)) <$> rescope)) (ge_check current).
Definition made (current : GuideEntry) (l : list Row) : option GuideEntryFields :=
  if List.existsb (is_op AnalysisRemove) l then None else Some (made_fields current l).
(** What stands to be decided: an addition, or a change to an entry that
    is still in the guide. *)
Definition stands (entries : list GuideEntry) (p : Row) : bool :=
  is_op AnalysisAdd p || match Proposals.po_entry_id p with Some id => bool_decide (is_Some (entry_of entries id)) | None => false end.
Definition added (p : Row) : GuideEdit := Add (proposed_fields p None) Accepted Learned (Some "analysis").

Lemma filter_snoc {A} (f : A → bool) l x : List.filter f (l ++ [x]) = List.filter f l ++ (if f x then [x] else []).
Proof. rewrite List.filter_app. done. Qed.
Lemma made_snoc current l p : is_op AnalysisAdd p = false → made current (l ++ [p]) = apply_to (parse_op (Proposals.po_op p)) p (made current l).
Proof.
  intros Ha. unfold made. rewrite List.existsb_app. cbn. rewrite orb_false_r.
  destruct (parse_op (Proposals.po_op p)) eqn:Eo; unfold is_op in *; rewrite Eo in *; [done|..]; cbn in *; rewrite ?orb_false_r, ?orb_true_r; [| |done].
  - destruct (List.existsb _ l); [done|]. cbn. unfold made_fields. rewrite !filter_snoc. unfold is_op. rewrite Eo. cbn.
    rewrite omap_app, last_snoc, app_nil_r. cbn. unfold kind_or.
    destruct (Proposals.po_kind p ≫= GuideEdits.parse_kind) as [k|]; cbn; [by rewrite last_snoc|by rewrite app_nil_r].
  - destruct (List.existsb _ l); [done|]. cbn. unfold made_fields. rewrite !filter_snoc. unfold is_op. rewrite Eo. cbn.
    by rewrite last_snoc, app_nil_r.
Qed.
Lemma made_none current : made current [] = Some (fields_of current).
Proof. done. Qed.

Lemma touching_snoc id rows p : touching id (rows ++ [p]) =
  touching id rows ++ (if negb (is_op AnalysisAdd p) && bool_decide (Proposals.po_entry_id p = Some id) then [p] else []).
Proof. unfold touching. by rewrite filter_snoc. Qed.
Definition come_to (entries : list GuideEntry) (rows : list Row) (id : Z) : option (option GuideEntryFields) :=
  match entry_of entries id, touching id rows with Some current, _ :: _ => Some (made current (touching id rows)) | _, _ => None end.
Lemma come_to_same entries rows p id : is_op AnalysisAdd p = true ∨ Proposals.po_entry_id p ≠ Some id ∨ entry_of entries id = None →
  come_to entries (rows ++ [p]) id = come_to entries rows id.
Proof.
  intros Hp. unfold come_to. rewrite touching_snoc. destruct (is_op AnalysisAdd p); [by rewrite app_nil_r|].
  case_bool_decide; [|by rewrite app_nil_r]. destruct Hp as [?|[?|Ee]]; [done|done|]. by rewrite Ee.
Qed.
Lemma come_to_change entries rows p id current : is_op AnalysisAdd p = false → Proposals.po_entry_id p = Some id →
  entry_of entries id = Some current →
  come_to entries (rows ++ [p]) id = Some (apply_to (parse_op (Proposals.po_op p)) p (default (Some (fields_of current)) (come_to entries rows id))).
Proof.
  intros Ha Ei Ec. unfold come_to. rewrite touching_snoc, Ha, Ec, bool_decide_true by done. cbn [negb andb].
  destruct (touching id rows ++ [p]) as [|x l] eqn:El; [by destruct (touching id rows)|]. rewrite <-El, made_snoc by done.
  by destruct (touching id rows).
Qed.
Lemma decide_rows_right entries rows :
  let d := foldl (decide_row true entries) (mkDeciding [] [] ∅) rows in
  di_edits d = added <$> List.filter (is_op AnalysisAdd) rows ∧
  di_decided d = Proposals.po_id <$> List.filter (stands entries) rows ∧
  ∀ id, di_entries d !! id = come_to entries rows id.
Proof.
  induction rows as [|p rows IH] using rev_ind.
  { split; [done|]. split; [done|]. intros id. unfold come_to. cbn. by destruct (entry_of entries id). }
  rewrite foldl_app. cbn [foldl]. set (d := foldl _ _ rows) in *. cbn zeta in *. destruct IH as (He & Hd & Hm).
  rewrite !filter_snoc, !fmap_app, <-He, <-Hd. unfold stands, decide_row. cbn [negb]. destruct (is_op AnalysisAdd p) eqn:Ea.
  - assert (parse_op (Proposals.po_op p) = AnalysisAdd) as Eo by (unfold is_op in Ea; by destruct (parse_op (Proposals.po_op p))).
    rewrite Eo. cbn [orb di_edits di_decided di_entries]. split; [unfold edit_for; by rewrite Eo|]. split; [done|].
    intros id. rewrite come_to_same by auto. apply Hm.
  - cbn [orb fmap list_fmap]. rewrite app_nil_r. destruct (Proposals.po_entry_id p) as [id|] eqn:Ei.
    + destruct (entry_of entries id) as [cur|] eqn:Ec.
      * rewrite bool_decide_true by (by eexists).
        destruct (parse_op (Proposals.po_op p)) eqn:Eo; [unfold is_op in Ea; by rewrite Eo in Ea|..];
          (cbn [di_edits di_decided di_entries]; do 2 (split; [done|]); intros j; destruct (decide (id = j)) as [<-|Hne];
           [rewrite lookup_insert_eq, (come_to_change _ _ _ _ cur), Eo, Hm by done; done
           |rewrite lookup_insert_ne, come_to_same by (done || (right; left; congruence)); apply Hm]).
      * rewrite bool_decide_false by (by intros []). cbn [fmap list_fmap]. rewrite app_nil_r.
        destruct (parse_op (Proposals.po_op p)) eqn:Eo; [unfold is_op in Ea; by rewrite Eo in Ea|..];
          (do 2 (split; [done|]); intros j; rewrite come_to_same; [apply Hm|];
           destruct (decide (id = j)) as [<-|Hne]; [by right; right|right; left; congruence]).
    + cbn [fmap list_fmap]. rewrite app_nil_r.
      destruct (parse_op (Proposals.po_op p)) eqn:Eo; [unfold is_op in Ea; by rewrite Eo in Ea|..];
        (do 2 (split; [done|]); intros j; rewrite come_to_same; [apply Hm|right; left; congruence]).
Qed.
Definition edit_id (e : GuideEdit) : option Z := match e with Update id _ | Delete id | Decide id _ => Some id | Add _ _ _ _ => None end.
Lemma entry_edit_id x : edit_id (entry_edit x) = Some x.1.
Proof. unfold entry_edit. by destruct (x.2). Qed.
Lemma reject_rows entries rows : ∀ d, foldl (decide_row false entries) d rows =
  mkDeciding (di_edits d) (di_decided d ++ (Proposals.po_id <$> rows)) (di_entries d).
Proof.
  induction rows as [|p rows IH]; intros d; [cbn; rewrite app_nil_r; by destruct d|]. cbn [foldl]. rewrite IH. unfold decide_row. cbn.
  by rewrite <-(assoc_L (++)).
Qed.

(** C30. What deciding on proposals for the guide comes to.  Accepted, each
    addition is made, in order, and each entry changed gets one edit, on
    the entry as it is: its removal if one of them removes it, and else
    an update with the statement and kind of the last edit and the scope
    of the last rescope among them; a change to an entry that has gone is
    not made, nor marked as decided.  Rejected, nothing is changed. *)
Theorem decisions_made_together entries rows :
  (∃ changes,
    decide_rows true entries rows = ((added <$> List.filter (is_op AnalysisAdd) rows) ++ changes, Proposals.po_id <$> List.filter (stands entries) rows) ∧
    NoDup (edit_id <$> changes) ∧
    ∀ e, e ∈ changes ↔ ∃ id current, entry_of entries id = Some current ∧ touching id rows ≠ [] ∧
      e = match made current (touching id rows) with Some f => Update id f | None => Delete id end) ∧
  decide_rows false entries rows = ([], Proposals.po_id <$> rows).
Proof.
  split; [|unfold decide_rows; rewrite reject_rows; reflexivity].
  destruct (decide_rows_right entries rows) as (He & Hd & Hm). cbn zeta in *. unfold decide_rows.
  set (d := foldl _ _ rows) in *. eexists. split; [by rewrite He, Hd|]. split.
  - rewrite <-list_fmap_compose. rewrite (list_fmap_ext _ (Some ∘ fst)) by (intros; apply entry_edit_id).
    rewrite list_fmap_compose, merge_sort_Permutation. apply NoDup_fmap; [apply _|]. apply NoDup_fst_map_to_list.
  - intros e. rewrite list_elem_of_fmap. setoid_rewrite merge_sort_Permutation. split.
    + intros ([id x] & -> & Hx). apply elem_of_map_to_list in Hx. rewrite Hm in Hx. unfold come_to in Hx.
      destruct (entry_of entries id) as [cur|] eqn:Ec; [|done]. destruct (touching id rows) as [|y l] eqn:Et; [done|].
      injection Hx as <-. exists id, cur. by rewrite Et.
    + intros (id & cur & Ec & Hne & ->). exists (id, made cur (touching id rows)). split; [done|].
      apply elem_of_map_to_list. rewrite Hm. unfold come_to. rewrite Ec. by destruct (touching id rows).
Qed.
End decisions.

(** Accepting a proposal as the user edited it takes one that is decided
    already, and makes its change again. *)
Section twice.
Local Instance queue_text : CoreText := {| lower := ascii_lower; json_write := λ _, ""; json_read := λ _, None; json_first := λ _, None |}.
Definition sign_off_row : Proposals.ProposalRow :=
  Proposals.mkProposalRow 1 "guide" "add" None "B6" (Some "guideline") "Sign off with 'J'" "{}" "add|B6|sign off with 'j'" "proposed" 2 None None
    0 0 (Some 0%Z) None.
Definition one_proposal : GuideDb :=
  mkGuideDb empty_store ∅ ∅ ∅ 0 ∅ 0 ∅ ∅ ∅ ∅ ∅ ∅ (Proposals.mkAnalysis {[1%Z := sign_off_row]} 1 ∅ ∅).
Definition as_edited : GuideEntryFields := mkFields "B6" Guideline "Sign off with 'J'" scope_default None.
Definition accepted_once : GuideDb := (db_run 5 (run_try (accept_analysis_proposal_edited 1 as_edited)) one_proposal).1.
Definition accepted_again : GuideDb := (db_run 6 (run_try (accept_analysis_proposal_edited 1 as_edited)) accepted_once).1.
Example accepted_twice : er_statement <$> (rows (g_entries accepted_again)).*2 = ["Sign off with 'J'"; "Sign off with 'J'"].
Proof. vm_compute. reflexivity. Qed.
Example decided_once : (db_run 6 (run_try (decide_analysis_proposals [1]%Z true)) accepted_once).2 = Err GONE_ENTRY.
Proof. vm_compute. reflexivity. Qed.
End twice.
