(* ===== verification/ReviewRun.v ===== *)
(** * ReviewRun: the daily review
    ([kaluta-core/src/analysis_run.rs], [analysis_settings.rs], and the
    gleaning step of [analysis_glean.rs])

    Once a day what AIs wrote is matched to what the user sent, and the
    pairs are compared batch by batch.  The agent, the bodies downloaded,
    the clock and what is kept in memory are operations; events are left
    out.  Other tasks run between any two of them. *)

From Stdlib Require Import QArith.
From S2P Require Import Prelude.
From S2P Require Import Domain.
From S2P Require Import Text.
From S2P Require Import Guide.
From S2P Require Import MailStore.
From S2P Require Import LocalDb.
From S2P Require Import Agents.
From S2P Require Import Facade.
From S2P Require Import Effects.
From S2P Require Import Transactions.
From S2P Require Import ProposalStore.
From S2P Require Import GuideStore.
From S2P Require Import GuideEdits.
From S2P Require Import GuideLearn.
From S2P Require Import GuideRun.
From S2P Require Import FactStore.
From S2P Require Import FactEdits.
From S2P Require Import FactGlean.
From S2P Require Import ReviewStore.
From S2P Require Import ReviewCompare.
Import GuideRun.
Import FactGlean.
Import Compositions.
Import ReviewMatch.
Import ReviewCompare.

Close Scope Q_scope.
Open Scope nat_scope.

Module ReviewRun.

Definition COMPARE_BATCH : nat := 10.
Definition DEFAULT_PAIRS_PER_DAY : Z := 50.
Definition RETRY_MS : Z := 60 * 60 * 1000.
(** Keys of the settings. *)
Definition DAILY_REVIEW : string := "daily_review".
Definition PAIRS_PER_DAY : string := "pairs_per_day".
Definition AGENT_KEY : string := "agent".
Definition LAST_RUN_AT : string := "last_run_at".
Definition FACTS_FROM : string := "facts_from".
Definition GLEANED_RUN : string := "gleaned_run".
Definition GLEANED_UNTIL : string := "gleaned_until".
Definition KEEP_DAYS_KEY : string := "keep_days".
Definition DEFAULT_KEEP_DAYS : Z := 30.
Definition KEEP_DAYS : list Z := [7; 30; 90]%Z.

Record AnalysisRunInfo := mkReviewInfo {
  ri_id : Z; ri_day : string; ri_daily : bool; ri_status : GuideRunStatus; ri_matched : Z; ri_unmatched : Z; ri_unchanged : Z;
  ri_total : Z; ri_done : Z; ri_batches : Z; ri_batches_done : Z; ri_agent : option string; ri_error : option string;
  ri_started_at : Millis; ri_finished_at : option Millis; ri_seconds_left : option Z }.
Record AnalysisProgress := mkReviewProgress { ap_available : bool; ap_run : option AnalysisRunInfo; ap_waiting : option string }.
Record AnalysisSettings := mkSettings { se_daily_review : bool; se_facts_from : FactsFrom; se_pairs_per_day : Z; se_keep_days : Z }.
Definition review_seconds_left (r : RunRow) (batches batches_done : Z) : option Z :=
  if (0 <? rr_timed_batches r)%Z && going r
  then Some (Z.quot (Z.quot (rr_timed_ms r) (rr_timed_batches r) * Z.max 0 (batches - batches_done)) 1000 mod 2 ^ 32)%Z else None.
Definition info (r : RunRow) : AnalysisRunInfo :=
  let size := (Z.max (rr_batch_size r) 1 mod 2 ^ 32)%Z in
  let batches := ceil_div (as_u32 (rr_total r)) size in
  let batches_done := ceil_div (as_u32 (rr_done r)) size in
  mkReviewInfo (rr_id r) (rr_day r) (String.eqb (rr_trigger r) "daily") (parse_run_status (rr_status r)) (as_u32 (rr_matched r))
    (as_u32 (rr_unmatched r)) (as_u32 (rr_unchanged r)) (as_u32 (rr_total r)) (as_u32 (rr_done r)) batches batches_done
    (rr_agent r) (rr_error r) (rr_started_at r) (rr_finished_at r) (review_seconds_left r batches batches_done).

(** What the app keeps in memory of an account's reviews: the last try to
    start, the last clearing of old texts, why none has started, the run a
    job was spawned for while it lives, and how far gleaning has read. *)
Record Desk := mkDesk {
  dk_attempt : option Millis; dk_purged : option Millis; dk_waiting : option string; dk_job : option Z; dk_until : option Millis }.
Inductive ReviewOp :=
| OnReview (o : DbOp ReviewDb)
| AtDesk (A : Type) (f : Desk → Desk * A)
| ByAgent (o : RunOp)
| OwnBodies (ids : list string)        (** downloads what it can; the own part of each body there is *)
| SyncSettled                          (** no sync, or its first round has settled *)
| IsArchive
| KnownFacts.                          (** the categories, and the facts accepted *)
Arguments AtDesk {A} f.
Definition review_answer (o : ReviewOp) : Type :=
  match o with
  | OnReview o => db_answer o
  | @AtDesk A _ => A
  | ByAgent o => run_answer o
  | OwnBodies _ => string → option string
  | SyncSettled | IsArchive => bool
  | KnownFacts => CoreResult (list FactEdits.FactCategoryInfo * list FactEdits.FactInfo)
  end.
Abbreviation RJob := (Attempt review_answer CoreError).
Fixpoint on_review_eff {A} (p : Eff (@db_answer ReviewDb) A) : Eff review_answer A :=
  match p with Ret a => Ret a | Vis o k => Vis (answer := review_answer) (OnReview o) (λ a, on_review_eff (k a)) end.
Definition on_review {A} (p : Attempt (@db_answer ReviewDb) CoreError A) : RJob A := mkTry (on_review_eff (run_try p)).
Fixpoint by_agent_eff {A} (p : Eff run_answer A) : Eff review_answer A :=
  match p with Ret a => Ret a | Vis o k => Vis (answer := review_answer) (ByAgent o) (λ a, by_agent_eff (k a)) end.
Definition by_agent {A} (p : GuideRun.Job A) : RJob A := mkTry (by_agent_eff (run_try p)).
Definition reading {A} (f : ReviewDb → A) : RJob A := on_review (ReviewCompare.read f).
Definition writing {A} (t : Tx A) : RJob A := on_review (ReviewCompare.write t).
Definition clock : RJob Millis := on_review (op Now).
Definition at_desk {A} (f : Desk → Desk * A) : RJob A := op (AtDesk f).
Definition tried {A} (p : RJob A) : RJob (CoreResult A) := lift (run_try p).
Definition recent (now : Millis) (t : option Millis) : bool := match t with Some t => (now - t <? RETRY_MS)%Z | None => false end.
(** Whether to try now; the try is recorded. *)
Definition attempt_due (now : Millis) : RJob bool :=
  at_desk (λ m, if recent now (dk_attempt m) then (m, false)
                else (mkDesk (Some now) (dk_purged m) (dk_waiting m) (dk_job m) (dk_until m), true)).
Definition purge_due (now : Millis) : RJob bool :=
  at_desk (λ m, if recent now (dk_purged m) then (m, false)
                else (mkDesk (dk_attempt m) (Some now) (dk_waiting m) (dk_job m) (dk_until m), true)).
Definition set_waiting (why : option string) : RJob () :=
  at_desk (λ m, (mkDesk (dk_attempt m) (dk_purged m) why (dk_job m) (dk_until m), ())).
(** Start the job for a run, unless one is going. *)
Definition spawn_analysis_job (run : Z) : RJob () :=
  at_desk (λ m, (mkDesk (dk_attempt m) (dk_purged m) (dk_waiting m) (match dk_job m with Some j => Some j | None => Some run end) (dk_until m), ())).
Definition set_until (t : option Millis) : RJob () :=
  at_desk (λ m, (mkDesk (dk_attempt m) (dk_purged m) (dk_waiting m) (dk_job m) (match t with Some t => Some t | None => dk_until m end), ())).
Definition take_until : RJob (option Millis) :=
  at_desk (λ m, (mkDesk (dk_attempt m) (dk_purged m) (dk_waiting m) (dk_job m) None, dk_until m)).

Section run.
Context `{HC : CoreText} `{HA : CharText}.
(** [day_of]: the local calendar day of a time. *)
Context (sha256 : string → string) (read_date : string → option Millis) (day_of : Millis → string).

(** ** Settings *)

Definition settings_of (d : ReviewDb) : AnalysisSettings :=
  let get k := meta k d in
  mkSettings (match get DAILY_REVIEW with Some v => negb (String.eqb v "off") | None => true end) (parse_facts_from (get FACTS_FROM))
    (default DEFAULT_PAIRS_PER_DAY (v ← get PAIRS_PER_DAY; parse_u32 v))
    (default DEFAULT_KEEP_DAYS (v ← get KEEP_DAYS_KEY; n ← parse_u32 v; if bool_decide (n ∈ KEEP_DAYS) then Some n else None)).
Definition analysis_settings : RJob AnalysisSettings := reading settings_of.
Definition save_settings (s : AnalysisSettings) : Tx () :=
  _ ← set_meta DAILY_REVIEW (if se_daily_review s then "on" else "off");
  _ ← set_meta FACTS_FROM (facts_from_text (se_facts_from s));
  _ ← set_meta PAIRS_PER_DAY (pretty (se_pairs_per_day s));
  set_meta KEEP_DAYS_KEY (pretty (se_keep_days s)).
Definition set_analysis_settings (s : AnalysisSettings) : RJob () :=
  _ ← check_that (bool_decide (se_keep_days s ∈ KEEP_DAYS)) (GuideEdits.invalid "keep AI drafts for 7, 30 or 90 days");
  _ ← check_that ((1 <=? se_pairs_per_day s)%Z && (se_pairs_per_day s <=? 500)%Z) (GuideEdits.invalid "compare between 1 and 500 drafts a day");
  writing (save_settings s).

(** ** Matching *)

Definition own_text (signature : list string) (own : string) : string :=
  trim (join NL (GuideLearn.without_signature (GuideLearn.own_lines own) signature)).
Definition own_texts (ids : list string) : RJob (string → option string) :=
  bodies ← op (OwnBodies ids);
  signature ← reading (λ d, default [] (GuideLearn.lines <$> GuideStore.meta GuideLearn.SIGNATURE_KEY (rv_guide d)));
  mret (λ id, if bool_decide (id ∈ ids) then own_text signature <$> (bodies : string → option string) id else None).
Definition no_matches : MatchSummary := mkMatchSummary 0 0 0.
Definition match_compositions (now : Millis) : RJob MatchSummary :=
  '(waiting, sent, used) ← reading (to_match now);
  if is_empty waiting then mret no_matches else
  texts ← own_texts (sc_message <$> sent);
  let outcomes := match_records sent now texts waiting used in
  _ ← writing (save_outcomes now outcomes);
  mret (summary waiting outcomes).

(** ** Starting *)

Definition analysis_available : RJob bool :=
  archive ← op IsArchive;
  if (archive : bool) then mret false else reading recording.
(** The agent chosen for Analysis, else the one the guide last learned with. *)
Definition agent_to_ask (d : ReviewDb) : string :=
  match meta AGENT_KEY d with
  | Some a => a
  | None => default "claude-code"
              (r ← List.find (λ r, String.eqb (GuideStore.ru_status r) "done") (GuideTables.runs 20 (rv_guide d)); GuideStore.ru_agent r)
  end.
Definition not_ready (agent : string) : RJob (option string) := by_agent (agent_not_ready agent).
Definition IN_PROGRESS : CoreError := GuideEdits.invalid "a review is already in progress".
(** The pairs left of the day's, Run Now included. *)
Definition pairs_left (day : string) (d : ReviewDb) : nat :=
  Z.to_nat (default DEFAULT_PAIRS_PER_DAY (v ← meta PAIRS_PER_DAY d; parse_u32 v)) - pairs_taken_on day d.
(** Checked in the same transaction: one run at a time. *)
Definition start_review (daily : bool) (agent : string) (found : MatchSummary) (unchanged : nat) (now : Millis) : Tx (option RunRow) :=
  active ← tx_get active_run;
  match active with
  | Some _ => mret None
  | None =>
      pairs ← tx_get (λ d, pairs_to_compare (pairs_left (day_of now) d) d);
      id ← create_run (mkNewRun (day_of now) (if daily then "daily" else "manual") (Some agent) (Z.of_nat (sm_matched found))
                         (Z.of_nat (sm_unmatched found)) (Z.of_nat unchanged) pairs COMPARE_BATCH) now;
      tx_get (get_run id)
  end.
(** One start at a time, behind a lock. *)
Definition start_analysis (daily : bool) (agent : option string) (now : Millis) : RJob RunRow :=
  agent ← match agent with Some a => mret a | None => reading agent_to_ask end;
  why ← not_ready agent;
  _ ← match why with Some why => fail (mkCoreError AgentError why) | None => mret () end;
  found ← match_compositions now;
  '(active, unchanged) ← reading (λ d, (active_run d, unchanged_pairs d));
  _ ← check_that (negb (bool_decide (is_Some (active : option RunRow)))) IN_PROGRESS;
  _ ← on_review (reinforce_unchanged sha256 unchanged now);
  run ← writing (start_review daily agent found (length unchanged) now);
  run ← or_fail IN_PROGRESS run;
  _ ← set_waiting None;
  _ ← spawn_analysis_job (rr_id run);
  mret run.
Definition set_analysis_status (run : Z) (status : string) (error : option string) : RJob () :=
  now ← clock; writing (set_run_status run status error now).
Definition LEARN_FIRST : CoreError := GuideEdits.invalid "Analysis starts once the writing guide has learned from your mail".
Definition start_analysis_run (agent : option string) : RJob AnalysisRunInfo :=
  available ← analysis_available;
  _ ← check_that available LEARN_FIRST;
  now ← clock;
  run ← start_analysis false agent now;
  mret (info run).

(** ** Stopping and going on *)

Definition run_agent (r : RunRow) : string := default "claude-code" (rr_agent r).
Definition pause_analysis_run : RJob () :=
  run ← reading active_run;
  match run with Some r => set_analysis_status (rr_id r) "paused" None | None => mret () end.
Definition resume_analysis_run : RJob (option AnalysisRunInfo) :=
  run ← reading active_run;
  match run with
  | None => mret None
  | Some run =>
      why ← not_ready (run_agent run);
      match why with
      | Some why => _ ← set_analysis_status (rr_id run) "paused" (Some why); fail (mkCoreError AgentError why)
      | None =>
          _ ← set_analysis_status (rr_id run) "running" None;
          _ ← spawn_analysis_job (rr_id run);
          r ← reading (get_run (rr_id run));
          mret (info <$> r)
      end
  end.
Definition cancel_analysis_run : RJob () :=
  run ← reading active_run;
  match run with
  | Some r => _ ← set_analysis_status (rr_id r) "cancelled" None; writing (release_pairs (rr_id r))
  | None => mret ()
  end.
Definition analysis_progress : RJob AnalysisProgress :=
  available ← analysis_available;
  run ← reading (λ d, match active_run d with Some r => Some r | None => latest_run d end);
  waiting ← at_desk (λ m, (m, dk_waiting m));
  mret (mkReviewProgress available (info <$> run) waiting).

(** ** The schedule *)

(** Old texts cleared, at most hourly; the cloud reports' bodies, in the
    same transaction, are [CloudReports]'. *)
Definition purge_compositions (now : Millis) : RJob nat :=
  s ← analysis_settings;
  writing (purge (se_keep_days s * 24 * 60 * 60 * 1000) now).
Definition purge_if_due (now : Millis) : RJob () :=
  due ← purge_due now;
  if (due : bool) then _ ← purge_compositions now; mret () else mret ().
Record Today := mkToday { td_active : option RunRow; td_ran : bool; td_daily : bool }.
Definition today_of (now : Millis) (d : ReviewDb) : Today :=
  mkToday (active_run d) (ran_on (day_of now) d) (se_daily_review (settings_of d)).
(** Paused by the user on an earlier day. *)
Definition left_over (now : Millis) (r : RunRow) : bool :=
  String.eqb (rr_status r) "paused" && bool_decide (rr_error r = None) && negb (String.eqb (rr_day r) (day_of now)).
Definition carry_on (now : Millis) (run : RunRow) : RJob () :=
  job ← at_desk (λ m, (m, dk_job m));
  _ ← (if String.eqb (rr_status run) "running" && negb (bool_decide (is_Some (job : option Z)))
       then spawn_analysis_job (rr_id run) else mret ());
  if String.eqb (rr_status run) "paused" && bool_decide (is_Some (rr_error run)) then
    due ← attempt_due now;
    if (due : bool) then
      why ← not_ready (run_agent run);
      match why with
      | Some _ => mret ()
      | None => _ ← set_analysis_status (rr_id run) "running" None; spawn_analysis_job (rr_id run)
      end
    else mret ()
  else mret ().
Definition start_daily (now : Millis) : RJob () :=
  settled ← op SyncSettled;
  if negb (settled : bool) then mret () else
  due ← attempt_due now;
  if negb (due : bool) then mret () else
  r ← tried (start_analysis true None now);
  match r with
  | Ok _ => mret ()
  | Err e => if bool_decide (ce_kind e = AgentError) then set_waiting (Some (ce_message e)) else fail e
  end.
(** One look from the scheduler; [fuel] times at most around a run left
    over from an earlier day, which is cancelled and its pairs given back. *)
Fixpoint analysis_tick (fuel : nat) (now : Millis) : RJob bool :=
  available ← analysis_available;
  if negb available then mret true else
  _ ← purge_if_due now;
  today ← reading (today_of now);
  match td_active today with
  | Some run =>
      if left_over now run && td_daily today && negb (td_ran today) then
        _ ← set_analysis_status (rr_id run) "cancelled" None;
        _ ← writing (release_pairs (rr_id run));
        match fuel with O => mret false | S fuel => analysis_tick fuel now end
      else _ ← carry_on now run; mret true
  | None =>
      if td_ran today || negb (td_daily today) then mret true else _ ← start_daily now; mret true
  end.

(** ** Facts in the day's mail *)

(** Those matched and reviewed since the run started. *)
Definition reviewed_before (a b : Composition) : Prop :=
  (default 0 (cm_reviewed_at a) < default 0 (cm_reviewed_at b))%Z ∨
  default 0%Z (cm_reviewed_at a) = default 0%Z (cm_reviewed_at b) ∧ (cm_id a ≤ cm_id b)%Z.
#[export] Instance reviewed_before_dec a b : Decision (reviewed_before a b).
Proof. unfold reviewed_before. apply _. Defined.
Definition reviewed_since (started : Millis) (r : Composition) : bool :=
  bool_decide (cm_status r = Reviewed) && match cm_reviewed_at r with Some t => (started <=? t)%Z | None => false end.
Definition sent_text_of (r : Composition) : option Sent := t ← cm_sent_text r; m ← cm_matched r; Some (mkSentText m t).
Definition reviewed_texts (started : Millis) (d : ReviewDb) : list Sent :=
  take GLEAN_CAP (omap sent_text_of (merge_sort reviewed_before (List.filter (reviewed_since started) (all d)))).
Definition glean_since (started : Millis) (d : ReviewDb) : list SentCandidate :=
  let since := default (started - 24 * 60 * 60 * 1000)%Z (v ← meta GLEANED_UNTIL d; parse_i64 v) in
  take GLEAN_CAP (sent_since (since + 1) d).
Definition glean_source (row : RunRow) (from : FactsFrom) : RJob (list Sent) :=
  if bool_decide (from = MailWrittenWithAi) then reading (reviewed_texts (rr_started_at row)) else
  chosen ← reading (glean_since (rr_started_at row));
  texts ← own_texts (sc_message <$> chosen);
  _ ← set_until (sc_at <$> last chosen);
  mret (omap (λ m, t ← texts (sc_message m); if String.eqb (trim t) "" then None else Some (mkSentText (sc_message m) t)) chosen).
Definition ask_hidden (agent text : string) : RJob string := by_agent (GuideRun.asking (AskAgent agent text) (λ r, r)).
Definition merge_glean (found : list Found) : RJob () :=
  if is_empty found then mret () else now ← clock; writing (in_proposals (merge_found found now)).
Definition gleaned (run : Z) (d : ReviewDb) : bool := bool_decide ((v ← meta GLEANED_RUN d; parse_i64 v) = Some run).
Definition note_gleaned (run : Z) (until : option Millis) : Tx () :=
  _ ← match until with Some t => set_meta GLEANED_UNTIL (pretty t) | None => mret () end;
  set_meta GLEANED_RUN (pretty run).
(** Once per run. *)
Definition glean_facts (run : Z) (agent : string) : RJob () :=
  '(row, done) ← reading (λ d, (get_run run d, gleaned run d));
  match row with
  | None => mret ()
  | Some row =>
      from ← reading (λ d, parse_facts_from (meta FACTS_FROM d));
      if (done : bool) || bool_decide (from = FactsOff) then mret () else
      sent ← glean_source row from;
      _ ← (if is_empty sent then mret () else
           known ← op KnownFacts;
           '(categories, facts) ← ask (known : CoreResult (list FactEdits.FactCategoryInfo * list FactEdits.FactInfo));
           answer ← ask_hidden agent (FactGlean.prompt sent categories facts);
           match FactGlean.parse read_date answer sent categories facts with Some found => merge_glean found | None => mret () end);
      until ← take_until;
      writing (note_gleaned run until)
  end.

(** ** The job *)

(** Asked, and once more where the answer cannot be read; one for a run
    cancelled meanwhile is dropped. *)
Fixpoint compare_attempts (more : nat) (run : Z) (agent text : string) (pairs : list Pair) (entries : list GuideEdits.GuideEntry) : RJob () :=
  answer ← ask_hidden agent text;
  now ← reading (get_run run);
  if match now with Some r => String.eqb (rr_status r) "cancelled" | None => true end then mret () else
  merged ← on_review (merge_compare pairs entries answer);
  match merged, more with
  | false, S more => compare_attempts more run agent text pairs entries
  | _, _ => mret ()
  end.
Definition compare_batch (run : Z) (agent : string) (ids : list Z) : RJob bool :=
  '(pairs, entries) ← on_review (compare_pairs sha256 ids);
  if is_empty pairs then mret false else
  _ ← compare_attempts 1 run agent (ReviewCompare.prompt pairs entries) pairs entries;
  mret true.
Definition stopped_by (e : CoreError) : string := "The agent stopped: " +:+ ce_message e.
(** An agent's failure pauses the run; another ends the job. *)
Definition pause_or_fail {A} (run : Z) (e : CoreError) (paused : A) : RJob A :=
  if bool_decide (ce_kind e = AgentError) then _ ← set_analysis_status run "paused" (Some (stopped_by e)); mret paused else fail e.
Definition end_review (run : Z) (agent : string) : RJob (option Z) :=
  r ← tried (glean_facts run agent);
  match r with
  | Err e => pause_or_fail run e None
  | Ok _ =>
      _ ← set_analysis_status run "done" None;
      now ← clock;
      _ ← writing (set_meta LAST_RUN_AT (pretty (now : Millis)));
      mret (Some run)
  end.
Definition review_batch (run : Z) (agent : string) (batch : Z) (ids : list Z) : RJob (option Z) :=
  why ← not_ready agent;
  match why with
  | Some why => _ ← set_analysis_status run "paused" (Some why); mret None
  | None =>
      asked ← tried (compare_batch run agent ids);
      match asked with
      | Err e => pause_or_fail run e None
      | Ok asked =>
          ms ← by_agent (op ElapsedMs);
          now ← clock;
          _ ← writing (finish_batch run batch (if (asked : bool) then Some (ms : Z) else None) now);
          mret (Some run)
      end
  end.
(** Around the loop once: the run to go on with, or none. *)
Definition review_turn (run : Z) : RJob (option Z) :=
  '(row, next, active) ← reading (λ d, (get_run run d, next_batch run d, active_run d));
  match (row : option RunRow) with
  | None => mret None
  | Some row =>
      if negb (String.eqb (rr_status row) "running") then
        mret match (active : option RunRow) with
             | Some a => if String.eqb (rr_status a) "running" then Some (rr_id a) else None
             | None => None
             end
      else match (next : option (Z * list Z)) with
           | None => end_review run (run_agent row)
           | Some (batch, ids) => review_batch run (run_agent row) batch ids
           end
  end.
Fixpoint analysis_job (fuel : nat) (run : Z) : RJob bool :=
  match fuel with
  | O => mret false
  | S fuel => next ← review_turn run; match next with Some run => analysis_job fuel run | None => mret true end
  end.
(** What is spawned: a job that fails marks its run and gives back the
    pairs it did not reach. *)
Definition analysis_task (fuel : nat) (run : Z) : RJob () :=
  r ← tried (analysis_job fuel run);
  _ ← match r with
      | Ok _ => mret ()
      | Err e => _ ← tried (set_analysis_status run "failed" (Some (ce_message e))); _ ← tried (writing (release_pairs run)); mret ()
      end;
  at_desk (λ m, (mkDesk (dk_attempt m) (dk_purged m) (dk_waiting m) None (dk_until m), ())).
End run.
End ReviewRun.
Import ReviewRun.

(** * Each pair is reviewed once, and a day has its cap *)

Section reviews.
Context `{HC : CoreText} `{HA : CharText}.
Context (day_of : Millis → string).

Definition done_by {A} (t : Tx A) (d : ReviewDb) : ReviewDb := (commit t d).1.
(** Every transaction that writes what reviews are made of, at any time,
    with whatever was read before; and any change of the guide. *)
Inductive review_step (d : ReviewDb) : ReviewDb → Prop :=
| st_record c now : review_step d (done_by (record c now) d)
| st_reported c now : review_step d (done_by (record_reported c now) d)
| st_addressing draft to subject now : review_step d (done_by (update_addressing draft to subject now) d)
| st_draft_sent draft message : review_step d (done_by (draft_sent draft message) d)
| st_draft_unsent draft : review_step d (done_by (draft_unsent draft) d)
| st_draft_gone draft sent now : review_step d (done_by (draft_gone draft sent now) d)
| st_purge keep now : review_step d (done_by (purge keep now) d)
| st_matched now outcomes : review_step d (done_by (save_outcomes now outcomes) d)
| st_start daily agent found unchanged now : review_step d (done_by (start_review day_of daily agent found unchanged now) d)
| st_status run status error now : review_step d (done_by (set_run_status run status error now) d)
| st_release run : review_step d (done_by (release_pairs run) d)
| st_finish run batch ms now : review_step d (done_by (finish_batch run batch ms now) d)
| st_reinforce applied now ids : review_step d (done_by (each (reinforce_one applied now) ids) d)
| st_merge entries changes now : review_step d (done_by (merge_changes entries changes now) d)
| st_found found now : review_step d (done_by (in_proposals (merge_found found now)) d)
| st_settings key value : review_step d (done_by (set_meta key value) d)
| st_guide g : review_step d (with_guide g d).

(** A pair is of a run there is, and of no other. *)
Definition taken_once (d : ReviewDb) : Prop :=
  (∀ k, is_Some (rv_pairs d !! k) → is_Some (rv_runs d !! k.1)) ∧
  ∀ r1 r2 c, is_Some (rv_pairs d !! (r1, c)) → is_Some (rv_pairs d !! (r2, c)) → r1 = r2.
(** No pair is taken, and each run keeps its day. *)
Definition calm (d d' : ReviewDb) : Prop :=
  dom (rv_pairs d') ⊆ dom (rv_pairs d) ∧ ∀ id, rr_day <$> rv_runs d' !! id = rr_day <$> rv_runs d !! id.
Lemma calm_refl d : calm d d.
Proof. by split. Qed.
Lemma calm_trans d d1 d2 : calm d d1 → calm d1 d2 → calm d d2.
Proof. intros [H1 H2] [H3 H4]. split; [by etrans|]. intros id. by rewrite H4, H2. Qed.
Lemma calm_taken d d' : calm d d' → taken_once d → taken_once d'.
Proof.
  intros [Hp Hr] [H1 H2]. split.
  - intros k Hk%elem_of_dom%Hp%elem_of_dom%H1. apply fmap_is_Some with (f := rr_day). rewrite Hr. by apply fmap_is_Some.
  - intros r1 r2 c Hr1%elem_of_dom%Hp%elem_of_dom Hr2%elem_of_dom%Hp%elem_of_dom. by eapply H2.
Qed.

Definition on_day (day : string) (d : ReviewDb) (k : Z * Z) : bool :=
  match rv_runs d !! k.1 with Some r => String.eqb (rr_day r) day | None => false end.
Lemma on_day_same day d d' k : rr_day <$> rv_runs d' !! k.1 = rr_day <$> rv_runs d !! k.1 → on_day day d' k = on_day day d k.
Proof. unfold on_day. destruct (rv_runs d' !! k.1), (rv_runs d !! k.1); cbn; congruence. Qed.
Lemma count_keys {A} (q : Z * Z → bool) (m : gmap (Z * Z) A) :
  count (λ x, q x.1) (map_to_list m) = size (base.filter (λ k, q k = true) (dom m : gset (Z * Z))).
Proof.
  induction m as [|k x m Hk IH] using map_ind; [reflexivity|].
  rewrite (count_Permutation _ _ _ (map_to_list_insert m k x Hk)), count_cons, IH, dom_insert_L. cbn [fst].
  apply not_elem_of_dom in Hk. set (X := dom m) in *. clearbody X. clear IH.
  assert (base.filter (λ k, q k = true) ({[k]} ∪ X) = (if q k then {[k]} else ∅) ∪ base.filter (λ k, q k = true) X) as ->.
  { apply set_eq. intros j. rewrite elem_of_union, !elem_of_filter, elem_of_union, elem_of_singleton.
    destruct (q k) eqn:Eq; rewrite ?elem_of_singleton, ?elem_of_empty; split.
    - intros [Hq [->|Hj]]; [by left|by right].
    - intros [->|[Hq Hj]]; split; auto.
    - intros [Hq [->|Hj]]; [congruence|by right].
    - intros [[]|[Hq Hj]]; auto. }
  destruct (q k); [|by rewrite (left_id_L ∅ (∪))]. rewrite size_union; [by rewrite size_singleton|].
  apply disjoint_singleton_l. by intros [_ ?]%elem_of_filter.
Qed.
Lemma taken_on_keys day d : pairs_taken_on day d = size (base.filter (λ k, on_day day d k = true) (dom (rv_pairs d) : gset (Z * Z))).
Proof. apply (count_keys (on_day day d)). Qed.
Lemma calm_day day d d' : calm d d' → pairs_taken_on day d' ≤ pairs_taken_on day d.
Proof.
  intros [Hp Hr]. rewrite !taken_on_keys. apply subseteq_size. intros k [Hk Hin]%elem_of_filter. apply elem_of_filter.
  split; [|by apply Hp]. rewrite <-Hk. symmetry. apply on_day_same, Hr.
Qed.

(** ** What takes no pair *)

Definition calmly {A} (t : Tx A) : Prop := ∀ d, post d t (λ d' _, calm d d').
Lemma calmly_bind {A B} (t : Tx A) (f : A → Tx B) : calmly t → (∀ a, calmly (f a)) → calmly (t ≫= f).
Proof.
  intros Ht Hf d. apply post_bind. eapply post_mono; [|apply Ht]. intros d1 a H1. eapply post_mono; [|apply Hf].
  intros d2 b H2. by apply (calm_trans d d1).
Qed.
Lemma calmly_each {A} (f : A → Tx ()) l : (∀ a, calmly (f a)) → calmly (each f l).
Proof. intros Hf. induction l as [|a l IH]; [intros d; apply calm_refl|]. cbn. by apply calmly_bind. Qed.
Lemma calmly_do (f : ReviewDb → ReviewDb) : (∀ d, calm d (f d)) → calmly (tx_do f).
Proof. intros Hf d. apply Hf. Qed.
Lemma calmly_new {A} (f : ReviewDb → ReviewDb * A) : (∀ d, calm d (f d).1) → calmly (tx_new f).
Proof. intros Hf d. apply post_new, Hf. Qed.
Lemma calmly_guide {A} (t : Transactions.Tx GuideStore.GuideDb A) : calmly (in_guide t).
Proof. intros d. unfold in_guide. apply post_within. unfold post. destruct (t _) as [[g a]|]; [split; done|done]. Qed.
Lemma calmly_same {A} (t : Tx A) : (∀ d, post d t (λ d' _, rv_pairs d' = rv_pairs d ∧ rv_runs d' = rv_runs d)) → calmly t.
Proof. intros Ht d. eapply post_mono; [|apply Ht]. intros d' a [E1 E2]. split; [by rewrite E1|by rewrite E2]. Qed.
Lemma calm_update p f d : calm d (update_where p f d).
Proof. by split. Qed.
Lemma calm_run id f d : (∀ r, rr_day (f r) = rr_day r) → calm d (on_review_runs (update_row id f) d).
Proof.
  intros Hf. split; [done|]. intros j. cbn. unfold update_row. destruct (decide (id = j)) as [->|Hne]; [|by rewrite lookup_alter_ne].
  rewrite lookup_alter_eq. destruct (rv_runs d !! j); cbn; [by rewrite Hf|done].
Qed.
End reviews.
#[export] Hint Resolve calm_refl calm_update calmly_guide : calm.
Ltac calmly :=
  repeat first
    [ progress intros
    | apply calmly_bind | apply calmly_each | apply calmly_guide
    | match goal with
      | |- calmly (tx_get _) => intros ?; apply post_get
      | |- calmly (mret _) => intros ?; apply post_ret
      | |- calmly (tx_where _ _) => intros ?; apply post_where; intros ?
      | |- calmly (tx_check _ _) => intros ?; apply post_check; intros ?
      | |- calmly (tx_do _) => apply calmly_do
      | |- calmly (tx_new _) => apply calmly_new
      | |- calmly (match ?x with _ => _ end) => destruct x
      end
    | solve [auto with calm] ].

Section taken.
Context `{HC : CoreText} `{HA : CharText}.
Context (day_of : Millis → string).

Lemma calm_mark run batch d : calm d (on_pairs (mark_done run batch) d).
Proof.
  split; [|done]. intros k Hk%elem_of_dom. apply elem_of_dom. cbn in Hk. unfold mark_done in Hk. rewrite map_lookup_imap in Hk.
  destruct (rv_pairs d !! k); [eauto|by destruct Hk].
Qed.
Lemma calm_release run d : calm d (on_pairs (base.filter (λ x, ¬ (x.1.1 = run ∧ x.2.2 = false))) d).
Proof. split; [|done]. cbn. apply dom_filter_subseteq. Qed.
Lemma calm_same d d' : rv_pairs d' = rv_pairs d → rv_runs d' = rv_runs d → calm d d'.
Proof. intros E1 E2. split; [by rewrite E1|by rewrite E2]. Qed.
#[local] Hint Resolve calm_mark calm_release : calm.
#[local] Hint Extern 1 (calm _ (on_review_runs (update_row _ _) _)) => apply calm_run; reflexivity : calm.
#[local] Hint Extern 3 (calm _ _) => apply calm_same; reflexivity : calm.

Lemma record_calm c now : calmly (record c now).
Proof. unfold record, add_row. calmly. Qed.
Lemma reported_calm c now : calmly (record_reported c now).
Proof. unfold record_reported, add_row. calmly. Qed.
Lemma gone_calm draft sent now : calmly (draft_gone draft sent now).
Proof. unfold draft_gone. calmly. Qed.
Lemma purge_calm keep now : calmly (purge keep now).
Proof. unfold purge. calmly. Qed.
Lemma outcomes_calm now l : calmly (save_outcomes now l).
Proof. unfold save_outcomes, save_outcome, set_matched, set_status. calmly. Qed.
Lemma status_calm run status error now : calmly (set_run_status run status error now).
Proof. unfold set_run_status. calmly. Qed.
Lemma finish_calm run batch ms now : calmly (finish_batch run batch ms now).
Proof. unfold finish_batch. calmly. Qed.
Lemma reinforce_calm applied now ids : calmly (each (reinforce_one applied now) ids).
Proof. unfold reinforce_one, add_health, mark_reviewed. calmly. Qed.
Lemma merge_calm entries changes now : calmly (merge_changes entries changes now).
Proof. unfold merge_changes, propose_removal, raise_change, add_health, in_proposals. calmly. Qed.
Lemma found_calm found now : calmly (in_proposals (merge_found found now)).
Proof. unfold in_proposals. calmly. Qed.

(** ** What takes some *)

Definition day_cap (d : ReviewDb) : nat := Z.to_nat (default DEFAULT_PAIRS_PER_DAY (v ← meta PAIRS_PER_DAY d; parse_u32 v)).
Definition new_pairs (run : Z) (l : list Z) : gset (Z * Z) := list_to_set ((λ c, (run, c)) <$> l).
Lemma add_run_pairs run size l d :
  post d (each (λ x : nat * Z, add_run_pair run (Z.of_nat (x.1 / size)) x.2) l)
    (λ d' _, dom (rv_pairs d') ⊆ dom (rv_pairs d) ∪ new_pairs run l.*2 ∧ rv_runs d' = rv_runs d).
Proof.
  apply (post_each (λ d', dom (rv_pairs d') ⊆ dom (rv_pairs d) ∪ new_pairs run l.*2 ∧ rv_runs d' = rv_runs d)); [|split; [set_solver|done]].
  intros d1 [i c] [H1 H2] Hin. unfold add_run_pair. tx_steps. split; [|done]. etrans; [|apply union_least; [exact H1|apply union_subseteq_r]].
  cbn. destruct (rv_pairs d1 !! (run, c)); [set_solver|]. rewrite dom_insert_L. apply union_least; [|set_solver].
  apply singleton_subseteq_l, elem_of_union_r, elem_of_list_to_set, list_elem_of_fmap. exists c. split; [done|].
  apply list_elem_of_fmap. by exists (i, c).
Qed.
Lemma to_compare_free n d c : c ∈ pairs_to_compare n d → ∀ r, rv_pairs d !! (r, c) = None.
Proof.
  intros Hc r. unfold pairs_to_compare in Hc. apply elem_of_take in Hc as (i & Hi & _).
  apply list_elem_of_lookup_2, list_elem_of_fmap in Hi as (x & -> & Hx). rewrite merge_sort_Permutation in Hx.
  apply elem_of_List_filter in Hx as [[_ Ht%negb_true_iff]%andb_true_iff _].
  destruct (rv_pairs d !! (r, cm_id x)) as [y|] eqn:E; [|done]. exfalso. apply not_true_iff_false in Ht. apply Ht.
  apply List.existsb_exists. exists (r, cm_id x, y). split; [by apply list_elem_of_In, elem_of_map_to_list|]. apply Z.eqb_refl.
Qed.
Lemma start_taken daily agent found unchanged now d : taken_once d →
  post d (start_review day_of daily agent found unchanged now) (λ d' _, taken_once d' ∧
    ∀ day, pairs_taken_on day d' ≤ Nat.max (pairs_taken_on day d) (day_cap d)).
Proof.
  intros [Hk Ho]. unfold start_review. apply post_bind, post_get. destruct (active_run d); [apply post_ret; split; [done|lia]|].
  apply post_bind, post_get. set (pairs := pairs_to_compare _ d).
  assert (∀ c, c ∈ pairs → ∀ r, rv_pairs d !! (r, c) = None) as Hfree by (intros c; apply to_compare_free).
  assert (length pairs ≤ day_cap d - pairs_taken_on (day_of now) d) as Hlen.
  { unfold pairs, pairs_to_compare, pairs_left, day_cap. rewrite length_take. lia. }
  clearbody pairs. apply post_bind. unfold create_run. tx_step. tx_step. cbn beta. tx_step. tx_step. cbn zeta. cbn [fst snd].
  set (id := (last_id (rv_runs d) + 1)%Z). set (run := mkReviewRun id _ _ _ _ _ _ _ _ _ _ _ _ _ _ _).
  assert (rv_runs d !! id = None) as Hid by (apply last_id_fresh; unfold id; lia).
  assert (∀ k, is_Some (rv_pairs d !! k) → k.1 ≠ id) as Hold by (intros k Hs%Hk E; rewrite E, Hid in Hs; by destruct Hs).
  apply post_bind. eapply post_mono; [|apply add_run_pairs]. intros d1 ? [Hd Er]. tx_step. tx_step. cbn in Hd, Er.
  assert ((imap pair (nw_pairs (mkNewRun (day_of now) (if daily then "daily" else "manual") (Some agent) (Z.of_nat (sm_matched found))
    (Z.of_nat (sm_unmatched found)) (Z.of_nat unchanged) pairs COMPARE_BATCH))).*2 = pairs) as Ep.
  { cbn. rewrite fmap_imap. cbn. clear. induction pairs as [|c l IH]; [done|]. cbn. f_equal. apply IH. }
  cbn in Ep. rewrite Ep in Hd. clear Ep.
  assert (∀ k, is_Some (rv_pairs d1 !! k) → is_Some (rv_pairs d !! k) ∨ k.1 = id ∧ k.2 ∈ pairs) as Hin.
  { intros k Hs%elem_of_dom%Hd. apply elem_of_union in Hs as [Hs|Hs]; [left; by apply elem_of_dom|right].
    apply elem_of_list_to_set, list_elem_of_fmap in Hs as (c & -> & Hc). done. }
  split.
  - split.
    + intros k [Hs|[-> _]]%Hin; rewrite Er; [|rewrite lookup_insert_eq; eauto]. rewrite lookup_insert_ne by (apply not_eq_sym; by apply Hold).
      by apply Hk.
    + intros r1 r2 c [H1|[E1 H1]]%Hin [H2|[E2 H2]]%Hin; cbn in *; [by eapply Ho| | |congruence].
      * rewrite (Hfree c H2 r1) in H1. by destruct H1.
      * rewrite (Hfree c H1 r2) in H2. by destruct H2.
  - intros day. rewrite !taken_on_keys.
    assert (base.filter (λ k, on_day day d1 k = true) (dom (rv_pairs d1) : gset (Z * Z)) ⊆
            base.filter (λ k, on_day day d k = true) (dom (rv_pairs d)) ∪ (if decide (day = day_of now) then new_pairs id pairs else ∅)) as Hsub.
    { intros k [Hday Hdom]%elem_of_filter. apply elem_of_dom, Hin in Hdom as [Hs|[Ek Hc]]; apply elem_of_union.
      - left. apply elem_of_filter. split; [|by apply elem_of_dom]. rewrite <-Hday. symmetry. apply on_day_same. rewrite Er.
        by rewrite lookup_insert_ne by (apply not_eq_sym; by apply Hold).
      - right. unfold on_day in Hday. rewrite Ek, Er, lookup_insert_eq in Hday. cbn in Hday. apply String.eqb_eq in Hday as <-.
        rewrite decide_True by done. apply elem_of_list_to_set, list_elem_of_fmap. exists k.2. split; [by destruct k; cbn in *; subst|done]. }
    apply subseteq_size in Hsub. rewrite size_union_alt in Hsub.
    assert (∀ X Y : gset (Z * Z), size (Y ∖ X) ≤ size Y) as Hle by (intros; apply subseteq_size; set_solver).
    specialize (Hle (base.filter (λ k, on_day day d k = true) (dom (rv_pairs d))) (if decide (day = day_of now) then new_pairs id pairs else ∅)).
    rewrite taken_on_keys in Hlen. destruct (decide (day = day_of now)) as [->|Hne].
    + assert (size (new_pairs id pairs) ≤ length pairs) as Hs; [|lia]. unfold new_pairs.
      clear. induction pairs as [|c l IH]; [done|]. cbn. rewrite size_union_alt. rewrite size_singleton.
      etrans; [|apply le_n_S, IH]. cbn. apply le_n_S. apply subseteq_size. set_solver.
    + rewrite size_empty in Hle. lia.
Qed.

Lemma calm_step {A} (t : Tx A) d : calmly t → taken_once d →
  taken_once (done_by t d) ∧ ∀ day, pairs_taken_on day (done_by t d) ≤ Nat.max (pairs_taken_on day d) (day_cap d).
Proof.
  intros Ht Hd. assert (calm d (done_by t d)) as Hc by (apply (post_commit d t (calm d)); [apply calm_refl|apply Ht]).
  split; [by eapply calm_taken|]. intros day. pose proof (calm_day day _ _ Hc). lia.
Qed.
Lemma step_taken d d' : review_step day_of d d' → taken_once d →
  taken_once d' ∧ ∀ day, pairs_taken_on day d' ≤ Nat.max (pairs_taken_on day d) (day_cap d).
Proof.
  intros Hs Hd. destruct Hs; lazymatch goal with |- context [start_review] => idtac | _ => try (apply calm_step; [|done]) end.
  - apply record_calm.
  - apply reported_calm.
  - unfold update_addressing. calmly.
  - unfold draft_sent. calmly.
  - unfold draft_unsent. calmly.
  - apply gone_calm.
  - apply purge_calm.
  - apply outcomes_calm.
  - unfold done_by. pose proof (start_taken daily agent found unchanged now d Hd) as Hp. unfold commit, post in *.
    destruct (start_review _ _ _ _ _ _ _) as [[d1 a]|]; [exact Hp|]. split; [done|]. intros day. cbn. lia.
  - apply status_calm.
  - unfold release_pairs. calmly.
  - apply finish_calm.
  - apply reinforce_calm.
  - apply merge_calm.
  - apply found_calm.
  - unfold set_meta. calmly.
  - split; [by apply (calm_taken d)|]. intros day. assert (calm d (with_guide g d)) as Hc by (by apply calm_same).
    pose proof (calm_day day _ _ Hc). lia.
Qed.

(** The tables of an account that has reviewed nothing, and what its
    transactions come to while the setting is at most a number of pairs. *)
Definition nothing_taken (d : ReviewDb) : Prop := rv_pairs d = ∅.
Inductive reached (cap : nat) (d0 : ReviewDb) : ReviewDb → Prop :=
| reached_start : day_cap d0 ≤ cap → reached cap d0 d0
| reached_next d d' : reached cap d0 d → review_step day_of d d' → day_cap d' ≤ cap → reached cap d0 d'.
Lemma reached_taken cap d0 d : nothing_taken d0 → reached cap d0 d →
  taken_once d ∧ day_cap d ≤ cap ∧ ∀ day, pairs_taken_on day d ≤ cap.
Proof.
  intros H0. induction 1 as [Hc|d d' Hr [Ht [Hc Hd]] Hs Hc'].
  - split; [split; rewrite H0; [intros k [x Hx]|intros r1 r2 c [x Hx]]; by rewrite lookup_empty in Hx|]. split; [done|].
    intros day. unfold pairs_taken_on. rewrite H0, map_to_list_empty. cbn. lia.
  - destruct (step_taken d d' Hs Ht) as [Ht' Hd']. split; [done|]. split; [done|]. intros day. specialize (Hd' day). specialize (Hd day). lia.
Qed.

(** C21. The cost cap: while the setting is never more than a number of
    pairs a day, the reviews of one calendar day, those run on demand
    included, never hold more pairs than that between them. *)
Theorem day_keeps_its_cap cap d0 d (H0 : nothing_taken d0) (Hr : reached cap d0 d) : ∀ day, pairs_taken_on day d ≤ cap.
Proof. by apply (reached_taken cap d0 d). Qed.
End taken.

(** * A sent message is matched once *)

Section matching.
Context `{HC : CoreText} `{HA : CharText}.

(** No two records became one message, and rows are kept under their ids. *)
Definition rows_numbered (d : ReviewDb) : Prop := ∀ id r, rv_compositions d !! id = Some r → cm_id r = id.
Definition matched_once (d : ReviewDb) : Prop :=
  rows_numbered d ∧ ∀ i j ri rj m, rv_compositions d !! i = Some ri → rv_compositions d !! j = Some rj →
    cm_matched ri = Some m → cm_matched rj = Some m → i = j.
(** What others may do meanwhile: records come and change, but none is
    matched. *)
Definition matches_kept (d d' : ReviewDb) : Prop :=
  (rows_numbered d → rows_numbered d') ∧
  ∀ id r', rv_compositions d' !! id = Some r' → is_Some (cm_matched r') →
    ∃ r, rv_compositions d !! id = Some r ∧ cm_matched r = cm_matched r'.
Lemma matches_kept_trans d d1 d2 : matches_kept d d1 → matches_kept d1 d2 → matches_kept d d2.
Proof.
  intros [N1 H1] [N2 H2]. split; [auto|]. intros id r2 Hr Hm. destruct (H2 id r2 Hr Hm) as (r1 & Hr1 & E1).
  rewrite <-E1 in Hm. destruct (H1 id r1 Hr1 Hm) as (r & Hr0 & E0). exists r. split; [done|congruence].
Qed.
Lemma kept_once d d' : matches_kept d d' → matched_once d → matched_once d'.
Proof.
  intros [N H] [Hn Ho]. split; [auto|]. intros i j ri rj m Hi Hj Ei Ej.
  destruct (H i ri Hi) as (qi & Hqi & Eqi); [by rewrite Ei|]. destruct (H j rj Hj) as (qj & Hqj & Eqj); [by rewrite Ej|].
  eapply (Ho i j qi qj m); congruence.
Qed.
Lemma elem_of_all d r : r ∈ all d ↔ ∃ id, rv_compositions d !! id = Some r.
Proof.
  unfold all, rows. rewrite list_elem_of_fmap. split.
  - intros ([id r'] & -> & Hin). exists id. by apply elem_of_map_to_list.
  - intros [id Hr]. exists (id, r). split; [done|]. by apply elem_of_map_to_list.
Qed.
Lemma matched_used d id r m : rv_compositions d !! id = Some r → cm_matched r = Some m → m ∈ matched_messages d.
Proof.
  intros Hr Em. apply elem_of_list_to_set, list_elem_of_omap. exists r. split; [|done]. apply elem_of_all. eauto.
Qed.
Lemma limited_sublist {A} n (l : list A) : limited n l `sublist_of` l.
Proof. revert n. induction l as [|x l IH]; intros n; cbn; [done|]. destruct (0 <? n)%Z; [by constructor|apply sublist_nil_l]. Qed.
Lemma waiting_once d : rows_numbered d → ∀ status n, NoDup (cm_id <$> listed status n d).
Proof.
  intros Hn status n. unfold listed. eapply sublist_NoDup; [|apply fmap_sublist, limited_sublist].
  rewrite merge_sort_Permutation. apply NoDup_fmap_List_filter. unfold all, rows.
  assert (cm_id <$> (map_to_list (rv_compositions d)).*2 = (map_to_list (rv_compositions d)).*1) as ->; [|apply NoDup_fst_map_to_list].
  rewrite <-list_fmap_compose. apply list_fmap_ext. intros i [id r] Hi. apply list_elem_of_lookup_2, elem_of_map_to_list in Hi. by apply Hn.
Qed.

(** Outcomes saved: each message is matched by one record at most, and by
    none before. *)
Lemma update_lookup p f d id : rv_compositions (update_where p f d) !! id = (λ r, if p r then f r else r) <$> rv_compositions d !! id.
Proof. cbn. by rewrite lookup_fmap. Qed.
Definition within_used (used : gset string) (d : ReviewDb) : Prop :=
  matched_once d ∧ ∀ id r m, rv_compositions d !! id = Some r → cm_matched r = Some m → m ∈ used.
Lemma save_matched used id m method st q now d : within_used used d → m ∉ used →
  within_used ({[m]} ∪ used) (update_where (λ r, (cm_id r =? id)%Z && bool_decide (cm_status r = Waiting))
    (λ r, with_match m method st q (with_cm_status Matched now (cm_reviewed_at r) r)) d).
Proof.
  intros [[Hn Ho] Hu] Hm. set (p := λ r, (cm_id r =? id)%Z && bool_decide (cm_status r = Waiting)).
  assert (∀ i r, rv_compositions (update_where p (λ r, with_match m method st q (with_cm_status Matched now (cm_reviewed_at r) r)) d) !! i = Some r →
    cm_id r = i ∧ ((i = id ∧ cm_matched r = Some m) ∨ ∃ r0, rv_compositions d !! i = Some r0 ∧ cm_matched r0 = cm_matched r)) as Hr.
  { intros i r Hi. rewrite update_lookup in Hi. destruct (rv_compositions d !! i) as [r0|] eqn:E0; [|done]. injection Hi as <-.
    pose proof (Hn i r0 E0) as Ei. destruct (p r0) eqn:Ep; cbn; [|eauto]. split; [done|]. left. split; [|done].
    apply andb_true_iff in Ep as [Ep%Z.eqb_eq _]. congruence. }
  split; [split|].
  - intros i r Hi. by apply Hr in Hi as [? _].
  - intros i j ri rj x [_ Hi]%Hr [_ Hj]%Hr Ei Ej. destruct Hi as [[-> Ei']|(qi & Hqi & Ei')], Hj as [[-> Ej']|(qj & Hqj & Ej')]; [done|..].
    + exfalso. apply Hm. apply (Hu j qj); congruence.
    + exfalso. apply Hm. apply (Hu i qi); congruence.
    + eapply (Ho i j qi qj x); congruence.
  - intros i r x [_ Hi]%Hr Ex. destruct Hi as [[-> Ei]|(r0 & Hr0 & E0)]; [set_solver|]. apply elem_of_union_r. apply (Hu i r0); congruence.
Qed.
Lemma save_unmatched used id status now d : within_used used d →
  within_used used (update_where (λ r, (cm_id r =? id)%Z) (λ r, with_cm_status status now (cm_reviewed_at r) r) d).
Proof.
  intros [[Hn Ho] Hu].
  assert (∀ i r, rv_compositions (update_where (λ r, (cm_id r =? id)%Z) (λ r, with_cm_status status now (cm_reviewed_at r) r) d) !! i = Some r →
    ∃ r0, rv_compositions d !! i = Some r0 ∧ cm_id r0 = cm_id r ∧ cm_matched r0 = cm_matched r) as Hr.
  { intros i r Hi. rewrite update_lookup in Hi. destruct (rv_compositions d !! i) as [r0|] eqn:E0; [|done]. injection Hi as <-.
    exists r0. by destruct (cm_id r0 =? id)%Z. }
  split; [split|].
  - intros i r Hi. apply Hr in Hi as (r0 & Hr0 & <- & _). by apply Hn.
  - intros i j ri rj x (qi & Hqi & _ & Ei')%Hr (qj & Hqj & _ & Ej')%Hr Ei Ej. eapply (Ho i j qi qj x); congruence.
  - intros i r x (r0 & Hr0 & _ & E0)%Hr Ex. apply (Hu i r0); congruence.
Qed.
Lemma save_outcomes_once now l : ∀ used d, within_used used d → NoDup (messages_of l) → (∀ m, m ∈ messages_of l → m ∉ used) →
  post d (save_outcomes now l) (λ d' _, matched_once d').
Proof.
  induction l as [|[id o] l IH]; intros used d Hd Hn Hf; [by apply Hd|]. unfold save_outcomes in *. cbn [each]. apply post_bind.
  destruct o as [m method st q|].
  - cbn in Hn, Hf. apply NoDup_cons in Hn as [Hm Hn]. unfold save_outcome at 1, set_matched. cbn [fst snd]. apply post_do.
    apply (IH ({[m]} ∪ used)); [apply save_matched; [done|apply Hf; left]|done|].
    intros x Hx. assert (x ∉ used) by (apply Hf; by right). assert (x ≠ m) by (by intros ->). set_solver.
  - unfold save_outcome at 1, set_status. cbn [fst snd]. apply post_do. apply (IH used); [by apply save_unmatched|done|done].
Qed.

(** ** With other tasks between *)

Context (others : ReviewDb → ReviewDb → Prop).
Definition review_takes (s : ReviewDb) (o : ReviewOp) : review_answer o → ReviewDb → Prop :=
  match o with
  | OnReview o => db_takes others s o
  | ByAgent (OnDb o) => λ a s', ∃ s1 g, others s s1 ∧ db_does (rv_guide s1) o a g ∧ s' = with_guide g s1
  | _ => λ _ s', others s s'
  end.
Abbreviation review_post := (tswp review_takes (λ _ _, True)).
Lemma reading_post {A} (f : ReviewDb → A) s (Q : ReviewDb → A → Prop) (X : ReviewDb → Prop) :
  (∀ s1, others s s1 → Q s1 (f s1)) → review_post s (reading f) Q X.
Proof.
  intros HQ. unfold tswp. cbn. split; [done|]. intros a s' (s1 & Ho & E). unfold commit, tx_get in E. cbn in E.
  injection E as <- <-. cbn. by apply HQ.
Qed.
Lemma writing_post {A} (t : Tx A) s (Q : ReviewDb → A → Prop) (X : ReviewDb → Prop) :
  (∀ s1, others s s1 → post s1 t Q ∧ X s1) → review_post s (writing t) Q X.
Proof.
  intros HQ. unfold tswp. cbn. split; [done|]. intros a s' (s1 & Ho & E). destruct (HQ s1 Ho) as [Hp HX].
  change (commit t s1 = (s', a)) in E. unfold commit in E. unfold post in Hp. destruct (t s1) as [[s2 b]|e]; simplify_eq; [exact Hp|exact HX].
Qed.
Lemma bodies_post ids s (Q : ReviewDb → (string → option string) → Prop) X :
  (∀ s' a, others s s' → Q s' a) → review_post s (op (E := CoreError) (OwnBodies ids)) Q X.
Proof. intros HQ. unfold tswp. cbn. split; [done|]. intros a s' Hs. by apply HQ. Qed.

(** C10. Matching, with whatever other tasks do between its reads, its
    downloads and its write, short of matching themselves: one sent message
    is never what two AI texts became. *)
Theorem sent_message_matched_once now s (Ho : ∀ d d', others d d' → matches_kept d d') (Hs : matched_once s) :
  review_post s (match_compositions now) (λ s' _, matched_once s') matched_once.
Proof.
  unfold match_compositions. apply tswp_bind, reading_post. intros s1 H1. pose proof (kept_once _ _ (Ho _ _ H1) Hs) as Hs1.
  destruct (to_match now s1) as [[waiting sent] used] eqn:Et. unfold to_match in Et. injection Et as Ew Es Eu.
  destruct (is_empty waiting); [by apply tswp_ret|]. unfold own_texts.
  apply tswp_bind, tswp_bind, bodies_post. intros s2 bodies H2. apply tswp_bind, reading_post. intros s3 H3. apply tswp_ret.
  match goal with |- context [match_records sent now ?t waiting used] => set (texts := t) end.
  apply tswp_bind, writing_post. intros s4 H4.
  assert (matches_kept s1 s4) as Hk by (do 2 (eapply matches_kept_trans; [eauto|]); eauto).
  pose proof (kept_once _ _ Hk Hs1) as Hs4. split; [|done].
  destruct (match_records_ok sent now texts waiting used) as (m & -> & Hm & _); [rewrite <-Ew; apply waiting_once, Hs1|].
  eapply post_mono; [|apply (save_outcomes_once now (mt_out m) used)]; [|split; [done|]|apply Hm|apply Hm].
  - intros s5 a H5. by apply tswp_ret.
  - intros id r x Hr Ex. destruct Hk as [_ Hk]. destruct (Hk id r Hr) as (r0 & Hr0 & E0); [by rewrite Ex|].
    rewrite <-Eu. apply (matched_used s1 id r0); [done|congruence].
Qed.
End matching.

(** * A review's job comes to an end

    Alone with its store, whatever the agent, the bodies and the clock
    answer: a turn compares a batch, takes the run out of those that run, or
    goes on with one that does. *)

Section ends.
Context `{HC : CoreText} `{HA : CharText}.
Context (sha256 : string → string) (read_date : string → option Millis).
Abbreviation alone := (tswp (review_takes eq) (λ _ _, True)).

(** ** Programs that leave the runs and their pairs alone *)

Definition moves (d : ReviewDb) := (rv_runs d, rv_pairs d).
Definition db_still (o : DbOp ReviewDb) : Prop := match o with InTx t => keeps moves t | Now => True end.
Definition still (o : ReviewOp) : Prop := match o with OnReview o => db_still o | _ => True end.
Lemma still_moves {E A} (p : Attempt review_answer E A) s : talways still p →
  swp (review_takes eq) (λ _ _, True) s (run_try p) (λ s' _, moves s' = moves s).
Proof.
  unfold talways. generalize (run_try p). intros q. assert (∀ s0, always still q → moves s0 = moves s →
    swp (review_takes eq) (λ _ _, True) s0 q (λ s' _, moves s' = moves s)) as Hq; [|intros ?; by apply Hq].
  induction q as [r|o k IH]; intros s0 Ha Es; cbn in *; [done|]. destruct Ha as [Ho Hk]. split; [done|].
  intros a s' Hs. apply IH; [apply Hk|]. destruct o as [o|B f|o|ids| | |]; cbn in *; try congruence.
  - destruct Hs as (s1 & <- & Hd). destruct o as [B t|]; cbn in *; [|by subst].
    pose proof (post_commit s0 t (λ s2, moves s2 = moves s0) eq_refl (Ho s0)) as Hc. rewrite Hd in Hc. cbn in Hc. congruence.
  - destruct o; cbn in *; try congruence. destruct Hs as (s1 & g & <- & _ & ->). exact Es.
Qed.
Lemma on_review_still {A} (p : Attempt (@db_answer ReviewDb) CoreError A) : talways db_still p → talways still (on_review p).
Proof.
  unfold talways, on_review. cbn. generalize (run_try p). intros q. induction q as [r|o k IH]; cbn; [done|]. intros [Ho Hk].
  split; [done|]. intros a. by apply IH.
Qed.
Lemma by_agent_still {A} (p : GuideRun.Job A) : talways still (by_agent p).
Proof. unfold talways, by_agent. cbn. generalize (run_try p). intros q. induction q as [r|o k IH]; cbn; [done|]. by split. Qed.
Lemma read_still {A} (f : ReviewDb → A) : talways db_still (ReviewCompare.read f).
Proof. unfold ReviewCompare.read. apply talways_bind; [|intros ?; apply talways_ask]. split; [by intros d|done]. Qed.
Lemma write_still {A} (t : Tx A) : keeps moves t → talways db_still (ReviewCompare.write t).
Proof. intros Ht. unfold ReviewCompare.write. apply talways_bind; [|intros ?; apply talways_ask]. by split. Qed.
Lemma reading_still {A} (f : ReviewDb → A) : talways still (reading f).
Proof. apply on_review_still, read_still. Qed.
Lemma writing_still {A} (t : Tx A) : keeps moves t → talways still (writing t).
Proof. intros Ht. by apply on_review_still, write_still. Qed.
Lemma guide_keeps {A} (t : Transactions.Tx GuideStore.GuideDb A) : keeps moves (in_guide t).
Proof. intros d. unfold in_guide. apply post_within. unfold post. by destruct (t _) as [[g a]|]. Qed.
#[local] Hint Resolve guide_keeps : keeps.
Lemma ask_still agent text : talways still (ask_hidden agent text).
Proof. apply by_agent_still. Qed.
Lemma desk_still {A} (f : Desk → Desk * A) : talways still (at_desk f).
Proof. by split. Qed.
Lemma merge_still pairs entries answer : talways still (on_review (merge_compare pairs entries answer)).
Proof.
  apply on_review_still. unfold merge_compare. destruct (ReviewCompare.parse answer pairs entries) as [changes|]; [|done].
  apply talways_bind; [by split|]. intros now. apply talways_bind; [|done]. apply write_still.
  unfold merge_changes, propose_removal, raise_change, add_health, in_proposals. keeps.
Qed.
Lemma compare_pairs_still ids : talways still (on_review (compare_pairs sha256 ids)).
Proof.
  apply on_review_still. unfold compare_pairs.
  repeat match goal with |- talways _ (ReviewCompare.read _) => apply read_still | _ => always_step end.
Qed.
Ltac still :=
  repeat match goal with
  | |- True => exact I
  | |- still _ => exact I
  | |- talways _ (reading _) => apply reading_still
  | |- talways _ (writing _) => apply writing_still; unfold in_proposals, note_gleaned, set_meta; keeps
  | |- talways _ (at_desk _) => apply desk_still
  | |- talways _ (set_until _) => apply desk_still
  | |- talways _ take_until => apply desk_still
  | |- talways _ clock => apply on_review_still; by split
  | |- talways _ (ask_hidden _ _) => apply ask_still
  | |- talways _ (on_review (merge_compare _ _ _)) => apply merge_still
  | |- talways _ (on_review (compare_pairs _ _)) => apply compare_pairs_still
  | _ => always_step
  end.
Lemma attempts_still more run agent text pairs entries : talways still (compare_attempts more run agent text pairs entries).
Proof. induction more as [|more IH]; cbn [compare_attempts]; still; exact IH. Qed.
Lemma batch_still run agent ids : talways still (compare_batch sha256 run agent ids).
Proof. unfold compare_batch. still. apply attempts_still. Qed.
Lemma texts_still ids : talways still (own_texts ids).
Proof. unfold own_texts. still. Qed.
Lemma source_still row from : talways still (glean_source row from).
Proof. unfold glean_source. still. apply texts_still. Qed.
Lemma glean_still run agent : talways still (glean_facts read_date run agent).
Proof. unfold glean_facts, merge_glean. still. apply source_still. Qed.

(** ** Onward *)

Definition runs_numbered (d : ReviewDb) : Prop := ∀ id r, rv_runs d !! id = Some r → rr_id r = id.
Definition status_of (run : Z) (d : ReviewDb) : option string := rr_status <$> rv_runs d !! run.
Definition going_on (run : Z) (d : ReviewDb) : bool := bool_decide (status_of run d = Some "running").
Definition compared (run : Z) (d : ReviewDb) : Prop := ∀ c b x, rv_pairs d !! (run, c) = Some (b, x) → x = true.
(** No run starts to run, none is done before its pairs are compared, no
    pair is added, and those compared stay. *)
Record onward (d d' : ReviewDb) : Prop := {
  on_numbered : runs_numbered d → runs_numbered d';
  on_going run : going_on run d' = true → going_on run d = true;
  on_done run : status_of run d' = Some "done" → status_of run d = Some "done" ∨ compared run d';
  on_dom : dom (rv_pairs d') ⊆ dom (rv_pairs d);
  on_compared k b : rv_pairs d !! k = Some (b, true) → rv_pairs d' !! k = Some (b, true) }.
Lemma onward_refl d : onward d d.
Proof. split; auto. Qed.
Lemma onward_trans d d1 d2 : onward d d1 → onward d1 d2 → onward d d2.
Proof.
  intros [N1 G1 D1 P1 C1] [N2 G2 D2 P2 C2]. split; [auto|auto| |by etrans|auto]. intros run Hr.
  destruct (D2 run Hr) as [H1|?]; [|by right]. destruct (D1 run H1) as [?|Hc]; [by left|right]. intros c b x Hx.
  assert (is_Some (rv_pairs d1 !! (run, c))) as [[b' x'] Hx'] by (apply elem_of_dom, P2, elem_of_dom; eauto).
  pose proof (Hc c b' x' Hx') as ->. apply C2 in Hx'. congruence.
Qed.
Lemma onward_same d d' : moves d' = moves d → onward d d'.
Proof.
  unfold moves. intros [= Er Ep]. split; unfold runs_numbered, going_on, status_of; rewrite ?Er, ?Ep; auto.
Qed.
(** What is left: pairs to compare, runs to end, and one turn to find out
    which. *)
Definition undone (d : ReviewDb) : nat := size (base.filter (λ x, x.2.2 = false) (rv_pairs d)).
Definition runs_going (d : ReviewDb) : nat := size (base.filter (λ x, rr_status x.2 = "running") (rv_runs d)).
Definition left (run : Z) (d : ReviewDb) : nat := 2 * (undone d + runs_going d) + (if going_on run d then 0 else 1).
Lemma elem_undone d k : k ∈ dom (base.filter (λ x : Z * Z * (Z * bool), x.2.2 = false) (rv_pairs d)) ↔ ∃ b, rv_pairs d !! k = Some (b, false).
Proof.
  rewrite elem_of_dom. split.
  - intros [[b x] [Hk Hx]%map_lookup_filter_Some]. cbn in Hx. subst. by exists b.
  - intros [b Hk]. exists (b, false). by apply map_lookup_filter_Some.
Qed.
Lemma elem_going d run : run ∈ dom (base.filter (λ x : Z * RunRow, rr_status x.2 = "running") (rv_runs d)) ↔ going_on run d = true.
Proof.
  unfold going_on, status_of. rewrite bool_decide_eq_true, elem_of_dom. split.
  - intros [r [Hr Hs]%map_lookup_filter_Some]. rewrite Hr. cbn in *. by rewrite Hs.
  - intros (r & Hr & Hs)%fmap_Some. exists r. by apply map_lookup_filter_Some.
Qed.
Lemma undone_sub d d' : onward d d' →
  dom (base.filter (λ x : Z * Z * (Z * bool), x.2.2 = false) (rv_pairs d')) ⊆ dom (base.filter (λ x : Z * Z * (Z * bool), x.2.2 = false) (rv_pairs d)).
Proof.
  intros Ho k [b Hk]%elem_undone. apply elem_undone.
  assert (is_Some (rv_pairs d !! k)) as [[b' []] Hk'] by (apply elem_of_dom, (on_dom _ _ Ho), elem_of_dom; eauto); [|eauto].
  apply (on_compared _ _ Ho) in Hk'. congruence.
Qed.
Lemma going_sub d d' : onward d d' →
  dom (base.filter (λ x : Z * RunRow, rr_status x.2 = "running") (rv_runs d')) ⊆ dom (base.filter (λ x : Z * RunRow, rr_status x.2 = "running") (rv_runs d)).
Proof. intros Ho k Hk%elem_going. by apply elem_going, (on_going _ _ Ho). Qed.
Lemma onward_left d d' : onward d d' → undone d' ≤ undone d ∧ runs_going d' ≤ runs_going d.
Proof. intros Ho. unfold undone, runs_going. rewrite <-!size_dom. split; apply subseteq_size; [by apply undone_sub|by apply going_sub]. Qed.
Lemma ended_fewer run d d' : onward d d' → going_on run d = true → going_on run d' = false → runs_going d' < runs_going d.
Proof.
  intros Ho H1 H2. unfold runs_going. rewrite <-!size_dom. apply subset_size. split; [by apply going_sub|].
  intros Hs. specialize (Hs run). rewrite !elem_going, H2 in Hs. by specialize (Hs H1).
Qed.
Lemma compared_fewer k b d d' : onward d d' → rv_pairs d !! k = Some (b, false) → rv_pairs d' !! k = Some (b, true) → undone d' < undone d.
Proof.
  intros Ho H1 H2. unfold undone. rewrite <-!size_dom. apply subset_size. split; [by apply undone_sub|].
  intros Hs. specialize (Hs k). rewrite !elem_undone, H2 in Hs. destruct Hs as [? [=]]. by exists b.
Qed.

(** ** A status, and a batch, written *)

Lemma status_post run status error d (Q : ReviewDb → () → Prop) (X : ReviewDb → Prop) : status ∈ RUN_STATUSES →
  (∀ finished, Q (on_review_runs (update_row run (with_rr_status status error finished)) d) ()) →
  alone d (set_analysis_status run status error) Q X.
Proof.
  intros Hin HQ. unfold set_analysis_status, tswp. cbn. split; [done|]. intros now s' (s1 & <- & ->). split; [done|].
  intros a s' (s1 & <- & Hd). change (commit (set_run_status run status error now) d = (s', a)) in Hd.
  unfold set_run_status, commit, mbind, tx_bind, tx_where in Hd. rewrite (bool_decide_true (status ∈ RUN_STATUSES)), orb_true_r in Hd by done.
  cbn in Hd. injection Hd as <- <-. apply HQ.
Qed.
Lemma stopped_onward run status error finished d : status ≠ "running" → (status = "done" → compared run d) →
  let d' := on_review_runs (update_row run (with_rr_status status error finished)) d in onward d d' ∧ going_on run d' = false.
Proof.
  intros Hr Hd d'. assert (∀ i, status_of i d' = if decide (i = run) then (λ _, status) <$> status_of run d else status_of i d) as Hs.
  { intros i. unfold status_of, d', update_row. cbn. case_decide as Hi; [subst i|by rewrite lookup_alter_ne].
    rewrite lookup_alter_eq. by destruct (rv_runs d !! run). }
  split; [split|].
  - intros Hn i r. unfold d', update_row. cbn. destruct (decide (run = i)) as [->|Hne]; [|rewrite lookup_alter_ne by done; apply Hn].
    rewrite lookup_alter_eq. intros (r0 & H0 & ->)%fmap_Some. cbn. by apply Hn.
  - intros i. unfold going_on. rewrite Hs. case_decide; [|done]. destruct (status_of run d); cbn; rewrite !bool_decide_eq_true; congruence.
  - intros i. rewrite Hs. case_decide as Hi; [subst i|by left]. destruct (status_of run d); [|done]. intros [= ->]. right. by apply Hd.
  - done.
  - done.
  - unfold going_on. rewrite Hs, decide_True by done. destruct (status_of run d); cbn; apply bool_decide_eq_false; congruence.
Qed.
Lemma batch_finished run batch ms now d : post d (finish_batch run batch ms now) (λ d' _,
  onward d d' ∧ status_of run d' = status_of run d ∧
  ∀ c x, rv_pairs d !! (run, c) = Some (batch, x) → rv_pairs d' !! (run, c) = Some (batch, true)).
Proof.
  unfold finish_batch. destruct ms as [ms|]; tx_steps.
  all: match goal with |- onward _ ?d1 ∧ _ => set (d' := d1) end.
  all: assert (∀ k, rv_pairs d' !! k = (λ x, if (k.1 =? run)%Z && (x.1 =? batch)%Z then (x.1, true) else x) <$> rv_pairs d !! k) as Hp
    by (intros k; unfold d'; cbn; unfold mark_done; rewrite map_lookup_imap; by destruct (rv_pairs d !! k)).
  all: assert (∀ i, (λ r, (rr_id r, rr_status r)) <$> rv_runs d' !! i = (λ r, (rr_id r, rr_status r)) <$> rv_runs d !! i) as Hr
    by (intros i; unfold d', update_row; cbn; destruct (decide (run = i)) as [->|]; [rewrite !lookup_alter_eq|rewrite !lookup_alter_ne by done];
        by destruct (rv_runs d !! i)).
  all: clearbody d'.
  all: assert (∀ i, status_of i d' = status_of i d) as Hs by (intros i; specialize (Hr i); unfold status_of;
    destruct (rv_runs d' !! i), (rv_runs d !! i); cbn in *; congruence).
  all: split; [split|split; [done|]].
  all: first [intros Hn i r Hi; specialize (Hr i); rewrite Hi in Hr; destruct (rv_runs d !! i) as [r0|] eqn:E0; [|done];
              cbn in Hr; injection Hr as Er _; rewrite Er; by apply Hn
             |intros i; unfold going_on; by rewrite Hs
             |intros i; rewrite Hs; by left
             |intros k Hk%elem_of_dom; apply elem_of_dom; rewrite Hp in Hk; by apply fmap_is_Some in Hk
             |intros k b Hk; rewrite Hp, Hk; cbn; by destruct (_ && _)
             |intros c x Hc; rewrite Hp, Hc; cbn; by rewrite !Z.eqb_refl].
Qed.
Lemma elem_run_pairs run d c b x : (c, (b, x)) ∈ run_pairs run d ↔ rv_pairs d !! (run, c) = Some (b, x).
Proof.
  unfold run_pairs. rewrite list_elem_of_fmap. split.
  - intros ([[r c'] y] & [= -> <-] & [Hr%Z.eqb_eq Hin]%elem_of_List_filter). cbn in Hr. subst. by apply elem_of_map_to_list.
  - intros Hx. exists (run, c, (b, x)). split; [done|]. apply elem_of_List_filter. split; [apply Z.eqb_refl|]. by apply elem_of_map_to_list.
Qed.
Lemma next_batch_none run d : next_batch run d = None → compared run d.
Proof.
  unfold next_batch. destruct (_ <$> _) as [|b bs] eqn:E; [|done]. intros _ c b x Hx. destruct x; [done|]. exfalso.
  apply fmap_nil_inv in E. apply (not_elem_of_nil (c, (b, false))). rewrite <-E. apply elem_of_List_filter. split; [done|]. by apply elem_run_pairs.
Qed.
Lemma next_batch_some run d batch ids : next_batch run d = Some (batch, ids) → ∃ c, rv_pairs d !! (run, c) = Some (batch, false).
Proof.
  unfold next_batch. destruct (_ <$> _) as [|b bs] eqn:E; [done|]. intros [= <- _].
  pose proof (foldr_min_elem b bs) as Hin. rewrite <-E in Hin. apply list_elem_of_fmap in Hin as ([c [b' x]] & -> & [Hx Hin]%elem_of_List_filter).
  exists c. apply elem_run_pairs in Hin. cbn in *. by destruct x.
Qed.

(** ** A turn *)

Definition turned (run : Z) (d d' : ReviewDb) (next : option Z) : Prop :=
  onward d d' ∧ match next with
                | None => going_on run d' = false
                | Some r => left r d' < left run d ∧ (r = run ∨ going_on run d' = false)
                end.
Lemma paused_post {A} run why d0 d (a : A) (Q : ReviewDb → A → Prop) X : onward d0 d →
  (∀ d', onward d0 d' → going_on run d' = false → Q d' a) →
  alone d (_ ← set_analysis_status run "paused" why; mret a) Q X.
Proof.
  intros Ho HQ. apply tswp_bind, status_post; [set_solver|]. intros finished. apply tswp_ret.
  destruct (stopped_onward run "paused" why finished d) as [Ho' Hg]; [done..|]. apply HQ; [by eapply onward_trans|done].
Qed.
Lemma fail_post {A} run e d0 d (a : A) (Q : ReviewDb → A → Prop) : onward d0 d →
  (∀ d', onward d0 d' → going_on run d' = false → Q d' a) → alone d (pause_or_fail run e a) Q (onward d0).
Proof. intros Ho HQ. unfold pause_or_fail. case_bool_decide; [by apply (paused_post run _ d0)|by apply tswp_fail]. Qed.
Lemma tried_post {A B} (p : RJob A) (k : CoreResult A → RJob B) d Q X : talways still p →
  (∀ d' r, onward d d' → moves d' = moves d → alone d' (k r) Q X) → alone d (r ← tried p; k r) Q X.
Proof.
  intros Hp Hk. apply tswp_bind. unfold tried. apply tswp_lift. eapply swp_mono; [|by apply still_moves].
  intros d' r E. apply Hk; [by apply onward_same|done].
Qed.
Lemma same_going run d d' : moves d' = moves d → going_on run d' = going_on run d.
Proof. unfold moves, going_on, status_of. by intros [= -> _]. Qed.
Lemma end_review_post run agent d : going_on run d = true → compared run d →
  alone d (end_review read_date run agent) (turned run d) (onward d).
Proof.
  intros Hg Hc. unfold end_review. apply tried_post; [apply glean_still|]. intros d1 [?|e] Ho1 E1.
  - apply tswp_bind, status_post; [set_solver|]. intros finished.
    destruct (stopped_onward run "done" None finished d1) as [Ho2 Hg2]; [done|unfold compared; by injection E1 as _ ->|].
    set (d2 := on_review_runs _ d1) in *. assert (onward d d2) as Ho by (by eapply onward_trans).
    assert (∀ d3, moves d3 = moves d2 → turned run d d3 (Some run)) as Hend.
    { intros d3 E3. assert (onward d d3) as Ho3 by (eapply onward_trans; [exact Ho|by apply onward_same]). split; [done|].
      assert (going_on run d3 = false) as Hg3 by (by rewrite (same_going run d2)). split; [|by right]. unfold left. rewrite Hg, Hg3.
      pose proof (onward_left _ _ Ho3) as [? _]. pose proof (ended_fewer run _ _ Ho3 Hg Hg3). lia. }
    clearbody d2. unfold tswp. cbn. split; [done|]. intros now s (s1 & <- & ->). split; [done|]. intros a' s (s1 & <- & Hd).
    unfold commit, set_meta, tx_do in Hd. cbn in Hd. injection Hd as <- <-. by apply Hend.
  - apply fail_post; [done|]. by split.
Qed.
Lemma ready_post {B} agent (k : option string → RJob B) d d0 Q : onward d0 d →
  (∀ d' why, moves d' = moves d → onward d0 d' → alone d' (k why) Q (onward d0)) → alone d (why ← not_ready agent; k why) Q (onward d0).
Proof.
  intros Ho Hk. apply tswp_bind. eapply swp_mono; [|apply still_moves, by_agent_still]. intros d' [why|e] E.
  - apply Hk; [done|]. eapply onward_trans; [exact Ho|by apply onward_same].
  - eapply onward_trans; [exact Ho|by apply onward_same].
Qed.
Lemma review_batch_post run agent batch ids c d : going_on run d = true → rv_pairs d !! (run, c) = Some (batch, false) →
  alone d (review_batch sha256 run agent batch ids) (turned run d) (onward d).
Proof.
  intros Hg Hc. unfold review_batch. apply ready_post; [apply onward_refl|]. intros d1 [why|] E1 Ho1; [apply (paused_post run _ d); [done|by split]|].
  apply tried_post; [apply batch_still|]. intros d2 [asked|e] Ho2 E2; [|apply fail_post; [by eapply onward_trans|by split]].
  assert (onward d d2) as Ho by (by eapply onward_trans). rewrite E1 in E2. clear d1 E1 Ho1 Ho2.
  unfold tswp. cbn. split; [done|]. intros ms s <-. split; [done|]. intros now s' (s1 & <- & ->). split; [done|].
  intros a' s1' (s1 & <- & Hd). change (commit (finish_batch run batch (if asked then Some ms else None) now) d2 = (s1', a')) in Hd.
  pose proof (batch_finished run batch (if asked then Some ms else None) now d2) as Hf.
  unfold commit in Hd. unfold post in Hf. destruct (finish_batch _ _ _ _ _) as [[d3 u]|e]; injection Hd as <- <-; cbn; [|done].
  destruct Hf as (Ho3 & Hst & Hdone). assert (onward d d3) as Ho' by (by eapply onward_trans). split; [done|]. split; [|by left].
  assert (going_on run d3 = true) as Hg3.
  { rewrite <-(same_going run d d2) in Hg by done. unfold going_on in *. by rewrite Hst. }
  unfold left. rewrite Hg, Hg3. pose proof (onward_left _ _ Ho') as [_ ?].
  assert (undone d3 < undone d); [|lia]. apply (compared_fewer (run, c) batch); [done..|]. eapply Hdone. injection E2 as _ ->. exact Hc.
Qed.
Lemma active_run_there d a : runs_numbered d → active_run d = Some a → status_of (rr_id a) d = Some (rr_status a).
Proof.
  intros Hn Ha. unfold active_run in Ha. apply head_Some_elem_of in Ha. rewrite merge_sort_Permutation in Ha.
  apply elem_of_List_filter in Ha as [_ ([i r] & -> & Hi%elem_of_map_to_list)%list_elem_of_fmap]. cbn in *. unfold status_of. by rewrite (Hn i r Hi), Hi.
Qed.
Lemma review_turn_post run d : runs_numbered d → alone d (review_turn sha256 read_date run) (turned run d) (onward d).
Proof.
  intros Hn. unfold review_turn. apply tswp_bind, reading_post. intros d1 <-. cbn beta iota.
  destruct (get_run run d) as [row|] eqn:Er; unfold get_run in Er.
  2: { apply tswp_ret. split; [apply onward_refl|]. unfold going_on, status_of. by rewrite Er. }
  assert (going_on run d = String.eqb (rr_status row) "running") as Hg.
  { unfold going_on, status_of. rewrite Er. cbn. destruct (String.eqb_spec (rr_status row) "running") as [->|]; [by apply bool_decide_true|].
    apply bool_decide_false. congruence. }
  destruct (String.eqb _ "running"); cbn [negb].
  - destruct (next_batch run d) as [[batch ids]|] eqn:En.
    + destruct (next_batch_some _ _ _ _ En) as [c Hc]. by apply (review_batch_post run _ batch ids c).
    + apply end_review_post; [done|by apply next_batch_none].
  - apply tswp_ret. split; [apply onward_refl|]. destruct (active_run d) as [a|] eqn:Ea; [|done].
    destruct (String.eqb_spec (rr_status a) "running") as [Es|]; [|done]. split; [|by right].
    apply active_run_there in Ea; [|done]. unfold left. rewrite Hg.
    assert (going_on (rr_id a) d = true) as -> by (unfold going_on; rewrite Ea, Es; by apply bool_decide_true). lia.
Qed.
Lemma analysis_job_post fuel run d : runs_numbered d → left run d < fuel →
  alone d (analysis_job sha256 read_date fuel run) (λ d' ended, ended = true ∧ onward d d' ∧ going_on run d' = false) (onward d).
Proof.
  revert run d. induction fuel as [|fuel IH]; intros run d Hn Hf; [lia|]. cbn [analysis_job]. apply tswp_bind.
  eapply tswp_mono; [|by apply review_turn_post]. intros d1 [r|] [Ho Hr]; [|by apply tswp_ret]. destruct Hr as [Hl Hr].
  eapply swp_mono; [|apply (IH r d1); [by apply (on_numbered _ _ Ho)|lia]]. intros d2 [ended|e].
  - intros (-> & Ho2 & Hg). split; [done|]. split; [by eapply onward_trans|]. destruct Hr as [->|Hr]; [done|].
    apply not_true_iff_false. intros H2%(on_going _ _ Ho2). congruence.
  - intros Ho2. by eapply onward_trans.
Qed.
Lemma release_onward run d : onward d (on_pairs (base.filter (λ x, ¬ (x.1.1 = run ∧ x.2.2 = false))) d).
Proof.
  split; [done|done|by left|cbn; apply dom_filter_subseteq|]. intros k b Hk. cbn. apply map_lookup_filter_Some. split; [done|]. by intros [_ ?].
Qed.
Lemma analysis_task_post fuel run d : runs_numbered d → left run d < fuel →
  alone d (analysis_task sha256 read_date fuel run) (λ d' _, going_on run d' = false ∧ onward d d') (λ _, False).
Proof.
  intros Hn Hf. unfold analysis_task. apply tswp_bind. unfold tried at 1. apply tswp_lift. eapply swp_mono; [|by apply (analysis_job_post fuel run d)].
  intros d1 [ended|e]; [intros (_ & ? & ?)|intros Ho]; apply tswp_bind.
  - apply tswp_ret. unfold tswp. cbn. split; [done|]. by intros u d2 <-.
  - apply tswp_bind. unfold tried. apply tswp_lift. apply (swp_mono _ _ _ _ (λ d2 _, going_on run d2 = false ∧ onward d d2)).
    2: { eapply swp_mono; [|apply (status_post run "failed" (Some (ce_message e)) d1 (λ d2 _, going_on run d2 = false ∧ onward d d2) (λ _, False))].
         - by intros d2 [].
         - set_solver.
         - intros finished. destruct (stopped_onward run "failed" (Some (ce_message e)) finished d1) as [? ?]; [done..|].
           split; [done|by eapply onward_trans]. }
    intros d2 _ [Hg Ho2]. apply tswp_bind, tswp_lift. cbn. split; [done|]. intros a d3 (s1 & <- & Hd).
    change (commit (release_pairs run) d2 = (d3, a)) in Hd. unfold commit, release_pairs, tx_do in Hd. injection Hd as <- <-. cbn.
    split; [done|]. intros u d4 <-. split; [done|]. eapply onward_trans; [exact Ho2|apply release_onward].
Qed.

(** ** The scheduler's look *)

Lemma any_then {A} (p : RJob A) d : alone d (_ ← p; mret true) (λ _ ended, ended = true) (λ _, True).
Proof.
  apply tswp_bind. unfold tswp at 1. generalize (run_try p). intros q. revert d. induction q as [[a|e]|o k IH]; intros d; cbn; [done..|].
  split; [done|]. intros a d' _. apply IH.
Qed.
Definition paused_runs (d : ReviewDb) : nat := size (base.filter (λ x, rr_status x.2 = "paused") (rv_runs d)).
Lemma purge_still (now : Millis) : talways still (purge_if_due now).
Proof. unfold purge_if_due, purge_due, purge_compositions, analysis_settings. still. Qed.
Lemma available_still : talways still analysis_available.
Proof. unfold analysis_available. still. Qed.
Lemma cancelled_fewer run r error finished d : rv_runs d !! run = Some r → rr_status r = "paused" →
  paused_runs (on_review_runs (update_row run (with_rr_status "cancelled" error finished)) d) < paused_runs d.
Proof.
  intros Hr Hs. unfold paused_runs. rewrite <-!size_dom. apply subset_size. cbn. unfold update_row. split.
  - intros i [x [Hx Hp]%map_lookup_filter_Some]%elem_of_dom. apply elem_of_dom. destruct (decide (run = i)) as [->|Hne].
    + exists r. by apply map_lookup_filter_Some.
    + rewrite lookup_alter_ne in Hx by done. exists x. by apply map_lookup_filter_Some.
  - intros Hsub. assert (run ∈ dom (base.filter (λ x : Z * RunRow, rr_status x.2 = "paused") (rv_runs d))) as Hin
      by (apply elem_of_dom; exists r; by apply map_lookup_filter_Some).
    apply Hsub, elem_of_dom in Hin as [x [Hx Hp]%map_lookup_filter_Some]. rewrite lookup_alter_eq, Hr in Hx. by injection Hx as <-.
Qed.
(** One look goes around at most once for each run that is paused. *)
Lemma tick_ends day_of fuel now d : runs_numbered d → paused_runs d ≤ fuel →
  alone d (analysis_tick sha256 day_of fuel now) (λ _ ended, ended = true) (λ _, True).
Proof.
  revert d. induction fuel as [|fuel IH]; intros d Hn Hf; cbn [analysis_tick]; apply tswp_bind.
  all: eapply swp_mono; [|apply still_moves, available_still]; intros d1 [[|]|] E1; [cbn [negb]|by apply tswp_ret|done].
  all: apply tswp_bind; eapply swp_mono; [|apply still_moves, purge_still]; intros d2 [[]|] E2; [|done]; rewrite E1 in E2; injection E2 as Er Ep.
  all: apply tswp_bind, reading_post; intros d3 <-; unfold today_of; cbn [td_active td_daily td_ran].
  all: destruct (active_run d2) as [run|] eqn:Ea; [|repeat match goal with |- alone _ (if ?b then _ else _) _ _ => destruct b end; by first [apply tswp_ret|apply any_then]].
  all: assert (runs_numbered d2) as Hn2 by (unfold runs_numbered; rewrite Er; exact Hn).
  all: destruct (left_over day_of now run && _ && _) eqn:El; [|by apply any_then].
  all: apply andb_true_iff in El as [[El _]%andb_true_iff _]; unfold left_over in El; apply andb_true_iff in El as [[Es%String.eqb_eq _]%andb_true_iff _].
  all: apply active_run_there in Ea; [|done]; rewrite Es in Ea; unfold status_of in Ea; apply fmap_Some in Ea as (r & Hr & Hs).
  all: pose proof (λ f, cancelled_fewer (rr_id run) r None f d2 Hr (eq_sym Hs)) as Hless; assert (paused_runs d2 = paused_runs d) as Epd by (unfold paused_runs; by rewrite Er).
  all: apply tswp_bind, status_post; [set_solver|]; intros finished; specialize (Hless finished).
  - lia.
  - apply tswp_bind, writing_post. intros d4 <-. split; [|done]. unfold release_pairs. apply post_do. apply IH; [|unfold paused_runs in *; cbn in *; lia].
    destruct (stopped_onward (rr_id run) "cancelled" None finished d2) as [Ho _]; [done..|].
    apply (on_numbered _ _ (release_onward (rr_id run) _)), (on_numbered _ _ Ho), Hn2.
Qed.

(** C27. A daily review comes to an end, whatever the agent, the bodies and
    the clock answer, and however often the agent fails: alone with its
    store, the job spawned for a run ends within two turns for each pair not
    compared and each run that is going, and two more.  Then its run is not
    marked as running, so that it can be resumed or another started; no
    other has begun to run; a run it marked as done has each of its pairs
    compared; and those compared stay so. *)
Theorem review_ends fuel run d (Hn : runs_numbered d) (Hf : left run d < fuel) :
  swp (review_takes eq) (λ _ _, True) d (run_try (analysis_job sha256 read_date fuel run)) (λ d' r,
    match r with Ok ended => ended = true ∧ going_on run d' = false | Err _ => True end ∧ onward d d') ∧
  swp (review_takes eq) (λ _ _, True) d (run_try (analysis_task sha256 read_date fuel run)) (λ d' r,
    r = Ok () ∧ going_on run d' = false ∧ onward d d').
Proof.
  split; (eapply swp_mono; [|by first [apply analysis_job_post|apply analysis_task_post]]).
  - intros d' [ended|e]; [by intros (-> & ? & ?)|done].
  - by intros d' [[]|e].
Qed.
End ends.

(** * A review, run *)

Section examples.
Definition two_pairs : Json.Json :=
  Json.JObject [("proposals", Json.JArray [Json.JObject [
    ("op", Json.JString "add"); ("category", Json.JString "B1"); ("statement", Json.JString "Greet with 'Hi Ann,'");
    ("evidence", Json.JArray [Json.JObject [("pair", Json.JNumber "1"); ("sent", Json.JString "Hi Ann,")];
                              Json.JObject [("pair", Json.JNumber "2"); ("sent", Json.JString "Hi Ann,")]])]])].
Local Instance review_text : CoreText :=
  {| lower := ascii_lower; json_write := λ _, ""; json_read := λ _, None; json_first := λ _, Some two_pairs |}.
Local Instance review_chars : CharText := {| alphanumeric := ascii_alphanumeric; char_lower := ascii_lower; char_upper := λ s, s |}.

(** Answers with the agent ready, and what others do before each operation. *)
Definition act (now : Millis) (m : Desk) (s : ReviewDb) (o : ReviewOp) : Desk * ReviewDb * review_answer o :=
  match o return Desk * ReviewDb * review_answer o with
  | OnReview o => let '(s', a) := db_perform now o s in (m, s', a)
  | AtDesk f => let '(m', a) := f m in (m', s, a)
  | ByAgent o =>
      match o return Desk * ReviewDb * run_answer o with
      | OnDb o => let '(g, a) := db_perform now o (rv_guide s) in (m, with_guide g s, a)
      | Statuses => (m, s, Ok [(ClaudeCode, AgentReady)])
      | AskAgent _ _ => (m, s, Ok "{}")
      | Bodies _ => (m, s, λ _, ("", ""))
      | ElapsedMs => (m, s, 0%Z)
      end
  | OwnBodies _ => (m, s, λ _, None)
  | SyncSettled => (m, s, true)
  | IsArchive => (m, s, false)
  | KnownFacts => (m, s, Ok ([], []))
  end.
Fixpoint run_with {A} (others : list (ReviewDb → ReviewDb)) (now : Millis) (m : Desk) (p : Eff review_answer A) (s : ReviewDb) : Desk * ReviewDb * A :=
  match p with
  | Ret a => (m, s, a)
  | Vis o k =>
      let s := match others with f :: _ => f s | [] => s end in
      let '(m, s, a) := act now m s o in run_with (tail others) now m (k a) s
  end.

Definition ready (id : Z) : Composition :=
  mkFull id 10 10 WritingHelp None New None None None (mkRecipients ["ann@x.com"] []) "" "" (Some "Dear Ann, Friday works.") None None []
    None LocalDb.Matched (Some ("m" +:+ pretty id)) (Some "thread_next") (Some "Hi Ann, Friday works.") (Some (1 # 4)%Q) None.
Definition learned_run : GuideStore.RunRow := GuideStore.mkRun 1 "latest" None "done" 20 1 1 (Some "claude-code") None 0 (Some 1%Z) 1 1.
Definition learned_guide : GuideStore.GuideDb :=
  GuideStore.mkGuideDb empty_store ∅ ∅ ∅ 0 ∅ 0 {[1%Z := learned_run]} ∅ ∅ ∅ ∅ ∅ (Proposals.mkAnalysis ∅ 0 ∅ {[1%Z; 2%Z]}).
Definition to_review : ReviewDb := mkReviewDb learned_guide {[1%Z := ready 1; 2%Z := ready 2]} 2 ∅ ∅ ∅ ∅.
Definition empty_desk : Desk := mkDesk None None None None None.
Definition one_day : Millis → string := λ _, "2026-01-02".
Definition start_now : Eff review_answer (CoreResult AnalysisRunInfo) := run_try (start_analysis_run (λ s, s) one_day None).
Definition started : Desk * ReviewDb := (run_with [] 100 empty_desk start_now to_review).1.
Definition reviewed_all : ReviewDb := (run_with [] 200 started.1 (run_try (analysis_task (λ s, s) (λ _, None) 5 1)) started.2).1.2.
(** A review on demand: both pairs compared in one batch, and the change
    both show is proposed. *)
Example review_done :
  (rr_status <$> rv_runs reviewed_all !! 1%Z, cm_status <$> rv_compositions reviewed_all !! 2%Z,
   (λ p, (Proposals.po_status p, Proposals.po_support p)) <$> Proposals.an_proposals (analysis reviewed_all) !! 1%Z) =
  (Some "done", Some LocalDb.Reviewed, Some ("proposed", 2%Z)).
Proof. vm_compute. reflexivity. Qed.

(** Resuming looks at the run, then at the agent, then sets it going.  One
    cancelled meanwhile, with another started, goes on beside it. *)
Definition cancel_and_start (d : ReviewDb) : ReviewDb :=
  let d := done_by (set_run_status 1 "cancelled" None 110) d in
  let d := done_by (release_pairs 1) d in
  done_by (start_review one_day false "claude-code" no_matches 0 120) d.
Definition paused_run : ReviewDb := done_by (set_run_status 1 "paused" None 105) started.2.
Definition resumed : ReviewDb :=
  (run_with [λ d, d; cancel_and_start] 130 started.1 (run_try resume_analysis_run) paused_run).1.2.
Example two_reviews_run : rr_status <$> rv_runs resumed !! 1%Z = Some "running" ∧ rr_status <$> rv_runs resumed !! 2%Z = Some "running".
Proof. split; vm_compute; reflexivity. Qed.

Definition start_once : ReviewDb := done_by (start_review one_day false "claude-code" no_matches 0 100) to_review.
Lemma start_once_reached : reached one_day 50 to_review start_once.
Proof.
  apply (reached_next one_day 50 to_review to_review); [apply reached_start| |].
  - apply Nat.leb_le. vm_compute. reflexivity.
  - apply st_start.
  - apply Nat.leb_le. vm_compute. reflexivity.
Qed.
Lemma day_keeps_its_cap_witness : pairs_taken_on "2026-01-02" start_once = 2 ∧ pairs_taken_on "2026-01-02" start_once ≤ 50.
Proof.
  split; [vm_compute; reflexivity|].
  exact (day_keeps_its_cap one_day 50 to_review start_once eq_refl start_once_reached "2026-01-02").
Defined.
Lemma to_review_matched : matched_once to_review.
Proof.
  split.
  - intros id r Hr. cbn in Hr. apply lookup_insert_Some in Hr as [[<- <-]|[_ Hr]]; [done|]. by apply lookup_singleton_Some in Hr as [<- <-].
  - intros i j ri rj m Hi Hj Ei Ej. cbn in Hi, Hj.
    apply lookup_insert_Some in Hi as [[<- <-]|[_ Hi]]; [|apply lookup_singleton_Some in Hi as [<- <-]];
      (apply lookup_insert_Some in Hj as [[<- <-]|[_ Hj]]; [|apply lookup_singleton_Some in Hj as [<- <-]]); try done;
      vm_compute in Ei, Ej; congruence.
Qed.
Lemma sent_message_matched_once_witness :
  tswp (review_takes eq) (λ _ _, True) to_review (match_compositions 300) (λ s' _, matched_once s') matched_once.
Proof.
  apply (sent_message_matched_once eq 300 to_review); [|exact to_review_matched].
  intros d d' <-. split; [done|]. intros id r Hr _. by exists r.
Defined.
Lemma started_numbered : runs_numbered started.2.
Proof.
  intros id r Hr. assert (rv_runs started.2 = {[1%Z := default (mkReviewRun 0 "" "" "" None None 0 0 0 0 0 0 0 0 0 None) (rv_runs started.2 !! 1%Z)]}) as E
    by (vm_compute; reflexivity).
  rewrite E in Hr. apply lookup_singleton_Some in Hr as [<- <-]. vm_compute. reflexivity.
Qed.
Lemma review_ends_witness :
  left 1 started.2 < 7 ∧
  swp (review_takes eq) (λ _ _, True) started.2 (run_try (analysis_job (λ s, s) (λ _, None) 7 1)) (λ d' r,
    match r with Ok ended => ended = true ∧ going_on 1 d' = false | Err _ => True end ∧ onward started.2 d').
Proof.
  assert (left 1 started.2 < 7) as Hf by (apply Nat.ltb_lt; vm_compute; reflexivity).
  split; [exact Hf|]. apply (review_ends (λ s, s) (λ _, None) 7 1 started.2 started_numbered Hf).
Defined.
End examples.
